(* ===== verification/_CoqProject ===== *)
-Q . S2P
Prelude.v
Slice.v
Decimal.v
Op.v
RespParse.v
Grisu.v
GrisuCore.v
GrisuProof.v
NumText.v
Timeout.v
RespReply.v
Ring.v
ExQueue.v
MaskedQueue.v
Rob.v
ReadLocal.v
Ryow.v
ReadSlots.v
Hash.v
Probe.v
ExpireIndex.v
Borrow.v
FlatStore.v
FlatTable.v
FlatSpec.v
FlatProof.v
FlatRun.v
FlatScan.v
ForeignRead.v
Glob.v
Lcs.v
WeightedLb.v
LiveConfig.v
Router.v
Ownership.v
Flip.v
Admission.v
Snapshot.v
Capture.v
SnapshotWalk.v
Reorder.v
SegQueue.v
OutBuf.v
WriteBack.v
Send.v
Pipeline.v
Client.v
