(* ===== verification/Prelude.v ===== *)
(** TomoKV (THredis): a verification development of the server's request/reply core, its key
    store and the placement of shards on executors.

    * The program

    TomoKV is a multi-threaded, RESP-speaking key-value server.  IO threads own connections: they
    receive bytes, parse commands, claim a slot of the connection's reorder buffer per command and
    hand the operation to the executor that owns the key's shard, over single-producer rings.
    Executors run the command, write the reply through the operation's sink and mark the slot
    done, in any order.  A shard's keys live in a two-table store with an expiry index and a registry
    of values lent to the network; a router word per bucket says which executor owns the shard, and
    shards move between executors at quiesced safe points.  The IO thread retires completed slots in request order, stages their
    replies into the connection's buffers and segments and sends them, by io_uring or by epoll.  A
    read may bypass its owner ("read local") unless the connection has a write in flight that it
    has to see.

    * Files and the code they model (paths under src/src)

    - [Prelude]: machine integers, raw memory, automation, shared list and integer lemmas.
    - [Slice]: base/slice.h, byte comparison and copy, the growable [SmallBuf].
    - [Decimal]: the decimal integer text of base/numeric.h and net/resp.h.
    - [Op]: exec/op.h, one in-flight operation: arguments, flags, read cut, descriptor, [Sink].
    - [RespParse]: net/resp.h, the request parser.
    - [Grisu], [GrisuCore], [GrisuProof]: base/numeric.h, namespace dtoa (Grisu2): the routine,
      its digit loops, and the proof for every finite double.
    - [NumText], [Timeout]: the rest of base/numeric.h: the wire text of a double, the float
      grammars, blocking timeouts.
    - [RespReply]: net/resp.h and net/resp3.h, the reply helpers against an abstract sink
      ([ReplySink], [ReplySinkLaws]), coded replies, and the bytes staged for them.
    - [Ring], [ExQueue], [MaskedQueue]: exec/exqueue.h and exec/masked_queue.h: ring arithmetic,
      the execution queue as an interleaving machine, and the slot array split into lanes.
    - [Rob]: net/rob.h, the window: slots, claim, publication, drain.
    - [ReadLocal], [Ryow], [ReadSlots]: net/rob.h, the read-local words: the model, the proof that
      no write in flight is missed, and the bitmaps and key filter of local reads.
    - [SegQueue]: net/conn.h, [SegmentQueue], over an explicit memory of blocks.
    - [OutBuf]: net/conn.h, the write side of [Client] with its output accounting.
    - [WriteBack]: net/wb.h, the send engine; the retirement hook of core/io_loop.h and the
      delivery of one frame of cmd/climon.cc, which call it.
    - [Send], [Pipeline]: the engine's invariant and specifications, and its runs.
    - [Client]: net/conn.h, the read buffer, the parse barrier and the flag bytes.
    - [Hash]: store/flatstore.h, the key hash and the SCAN cursor.
    - [Probe]: linear probing with tombstones as a finite map, shared by the store's tables.
    - [ExpireIndex]: store/flatstore.h, the expiry index and its incremental move.
    - [Borrow]: store/flatstore.h, the registry of values lent to the network.
    - [FlatStore], [FlatTable], [FlatSpec], [FlatProof], [FlatRun], [FlatScan]: store/flatstore.h,
      the key store: the model, its tables as finite maps, the specification, the invariant and
      every operation against it, histories, and SCAN.
    - [ForeignRead]: store/foreign_read_safety.h, the filter and epochs of foreign readers.
    - [Glob], [Lcs]: cmd/glob.cc and cmd/lcs.cc.
    - [WeightedLb]: core/weighted_lb.h, the placement policy on IEEE doubles.
    - [LiveConfig]: core/live_config.h with the publication protocol and the armed monitoring word
      of core/server.h, as interleaving machines.
    - [Router]: core/shard.h, the router, as functions and as an interleaving machine.
    - [Ownership]: core/server.h, shard ranges and homes at boot, transfers, the ownership audit.
    - [Flip]: core/server.h and core/io_loop.h, the shard half of a FLIP: plan, commit, completion.
    - [Admission]: core/atomic_admission.h, the credits that bound the atomic groups in flight, as
      an interleaving machine.
    - [Snapshot]: snapshot/format.h and the hooks of cmd/t_string.cc, t_set.cc, t_list.cc, t_hash.cc
      and t_zset.cc that save a value in pieces and load it; the image of cmd/serialize.cc.
    - [Capture], [SnapshotWalk]: store/flatstore.h, the capture of one record and of a whole table
      while the store goes on serving.
    - [Reorder]: core/reorder.h, the scheduling of an executor batch.

    [Ownership] transfers through [Router] and adopts a configuration of [LiveConfig]; [Flip] plans
    with [WeightedLb] and commits with [Ownership].  [Capture] writes what a hook gives it, by the
    interface [Streams] of [Snapshot]; [SnapshotWalk] walks a store of [FlatStore] with it.  The store is built on [Hash], [Probe],
    [ExpireIndex] and [Borrow]; the send engine calls the segment queue, the buffers, the reorder
    buffer and the reply helpers.

    * What is shown

    - Requests: every well-formed request parses to its arguments, whatever the split of the
      bytes over receives; the parser stays in its buffer on every input; inline commands split
      into words ([RespParse]).
    - Numbers: integer text is canonical decimal; the text of a finite double lies strictly
      inside its rounding interval; the grammars nest; timeouts are decided exactly.
    - Queues: both rings refine a FIFO in every interleaving of producer and consumer; the
      partition keeps lanes disjoint; reserved slots are always there.
    - Order: the reorder buffer refines a list of operations, retires in request order, and
      recycles slots clean; one serve stages exactly the replies of the completed prefix
      ([Rob], [Pipeline]).
    - Read your own writes: no sequence of publications, probes, retirements and arming loses a
      write that a local read would have to see ([Ryow]); the key filter has no false negative.
    - The wire: along any run of serves, deliveries, submissions, partial completions and
      failures, what the socket accepted followed by what is still buffered is exactly what was
      staged, loans of shard values are returned once, and no memory is touched after it is freed
      ([Pipeline]); the epoll pump terminates and drains a socket that keeps accepting.
    - The read buffer appends exactly the bytes received, never moves bytes that parsed arguments
      point to, grows only to its caps, and hands out only its own free tail; releasing one barrier owner never drops another.
    - The store: the expiry index refines a map from hashes to deadlines through every move and
      failed allocation, and successive sampling passes, however small, meet every entry and remove
      those that are due ([ExpireIndex]);
      the borrow registry refines loan counts, and a retired object is destroyed by the release
      of its last loan and by no other call ([Borrow]).  The store as a whole refines a map of
      objects with deadlines through every resize and failed allocation, owns its objects exactly
      ([FlatRun]), and a SCAN session misses no key that stays ([FlatScan]).
    - Snapshots: a value read out in pieces of any size and loaded is built from exactly its elements,
      less the hash fields that have lapsed ([Snapshot]); a record
      is written whole, in full chunks, by steps of any budget ([Capture]); the snapshot of a store
      consists of the records of exactly the keys alive at the cut, with their values and deadlines
      of the cut, whatever is written while it is taken, and it comes to its end ([SnapshotWalk]).
    - Foreign reads: the filter reports every key under change after each single store, and an
      unchanged epoch validates the window of a copy ([ForeignRead]).
    - Algorithms: the glob matcher decides its reference meaning, LCS returns a longest common
      subsequence.
    - Scheduling and placement: a batch keeps the order of each connection ([Reorder]); the
      partition gives every target the floor or the ceiling of its share ([WeightedLb]).
    - Ownership: in every interleaving the calls that transfer bucket ranges, and their answers, are
      a run of an owner map that moves exactly the range that was asked for ([Router]);
      any sequence of transfers keeps the shards partitioned among the executors, with the router,
      the dispatch words, the vectors and the bindings in agreement ([Ownership]); a FLIP that is
      planned is carried out without an abort and passes its own completion checks ([Flip]); a
      configuration read is one committed capture ([LiveConfig]); the admission word holds the
      window last set and counts the groups in flight exactly, and no group is admitted beyond the
      window ([Admission]).

    * Conventions

    A w-bit word is a [Z] and every operation that can leave its range is reduced ([u32],
    [u64]).  Undefined behaviour, [abort] and an access outside a block are [None], so a theorem
    that concludes [Some _] also shows they do not happen.  A loop of the source is either
    structural in the data it walks or carries fuel; fuel is the length of the data, the width of
    the word (bit loops), or the number of doublings that reach the cap (buffer growth), and the
    theorems show that it suffices.  The loop of the epoll pump has no bound of its own in the
    source: its theorem gives one, the number of bytes pending.  The kernel's sockets, the
    allocator, strtod and strtold are parameters.  Concurrent words are sequentially consistent.

    Bounds: a store holds fewer than 2^29 keys and 2^28 loans, a SCAN count is at most 2^31, a glob
    nests at most 1000 stars (the limit of the code), item and target counts are below 2^32, epoch
    windows see fewer than 2^32 stores, operation ids stay below 2^63, the live configuration is
    followed for fewer than 2^62 actions, and there are at most 256 shards and 128 threads (the
    sizes of the code's arrays); a saved collection has fewer than 2^32 elements, each below 2^32
    bytes, and chunks of a snapshot can be allocated.  Table probes carry the capacity as fuel and loops over shards,
    threads or buckets carry their count; the theorems conclude that a result is returned.

    * Not modelled

    Memory orders weaker than sequential consistency; TLS and kTLS (OpenSSL); the io_uring and
    epoll wrappers; the event loops of IO and executor threads.  Of the store: cancelling
    a capture and emptying the store during one, commands served between the preparation of a capture
    and its marks, eviction, the publication of tables to foreign readers, multi-version entries of cross-shard
    commands, deadlines of hash fields and keyspace notifications.  Of FLIP: the choice of the
    threads to convert and the client half, which moves connections; the automatic controllers
    (core/flipctl.cc, the load balancer of core/server.h); the assignment of threads to cores.  The
    command bodies, the snapshot hooks of streams, cross-shard commands and transactions, scripting,
    publish-subscribe, the snapshot and append-only files and their loading, start-up and the configuration grammar.  These either need system calls and
    protocols of peers the sources do not contain, or rest on the parts of the store named above. *)
From stdpp Require Export base list numbers option strings.
From Stdlib Require Export ZArith Lia.
#[global] Open Scope Z_scope.

(** * Machine integers

    A w-bit unsigned integer is a [Z] in [0, 2^w); arithmetic that can leave the range is
    reduced explicitly with [u8], [u16], [u32] or [u64], signed conversion with [i32]/[i64]. *)
Definition u8 (x : Z) : Z := x mod 256.
Definition u16 (x : Z) : Z := x mod 65536.
Definition u32 (x : Z) : Z := x mod 4294967296.
Definition u64 (x : Z) : Z := x mod 18446744073709551616.
Definition UINT32_MAX : Z := 4294967295.
Definition UINT64_MAX : Z := 18446744073709551615.
Definition INT64_MAX : Z := 9223372036854775807.

Abbreviation bytes := (list Z).
Definition is_byte (b : Z) : Prop := 0 <= b < 256.

(** Text literals as bytes. *)
Definition str (s : string) : bytes :=
  (fun a => Z.of_N (Ascii.N_of_ascii a)) <$> String.list_ascii_of_string s.
Definition CR : Z := 13.
Definition LF : Z := 10.
Definition CRLF : bytes := [CR; LF].

(** * Raw memory

    A block of memory is the list of its bytes.  Reading or writing outside the block is
    undefined behaviour in the source and [None] here, so that a theorem whose conclusion is
    [Some _] also shows that every access is in bounds. *)
Definition mem_read (m : bytes) (off n : Z) : option bytes :=
  if (0 <=? off) && (0 <=? n) && (off + n <=? Z.of_nat (length m))
  then Some (take (Z.to_nat n) (drop (Z.to_nat off) m)) else None.

Definition mem_write (m : bytes) (off : Z) (bs : bytes) : option bytes :=
  if (0 <=? off) && (off + Z.of_nat (length bs) <=? Z.of_nat (length m))
  then Some (take (Z.to_nat off) m ++ bs ++ drop (Z.to_nat off + length bs) m) else None.

Definition mem_get (m : bytes) (off : Z) : option Z :=
  if 0 <=? off then m !! Z.to_nat off else None.

(** Little-endian load and store of a machine word. *)
Fixpoint le_load (bs : bytes) : Z :=
  match bs with
  | [] => 0
  | b :: t => Z.lor b (Z.shiftl (le_load t) 8)
  end.

Fixpoint le_store (n : nat) (w : Z) : bytes :=
  match n with
  | O => []
  | S n => Z.land w 255 :: le_store n (Z.shiftr w 8)
  end.

(** * Automation *)
Create HintDb tomo.

Ltac zcmp :=
  repeat match goal with
  | H : _ && _ = true |- _ => apply andb_prop in H as [? ?]
  | H : (_ <=? _) = true |- _ => apply Z.leb_le in H
  | H : (_ <=? _) = false |- _ => apply Z.leb_gt in H
  | H : (_ <? _) = true |- _ => apply Z.ltb_lt in H
  | H : (_ <? _) = false |- _ => apply Z.ltb_ge in H
  | H : (_ =? _) = true |- _ => apply Z.eqb_eq in H
  | H : (_ =? _) = false |- _ => apply Z.eqb_neq in H
  | H : negb _ = true |- _ => apply negb_true_iff in H
  | H : negb _ = false |- _ => apply negb_false_iff in H
  end.

(** Case split on the innermost boolean test of the goal, keeping the arithmetic fact. *)
Ltac zsplit :=
  match goal with
  | |- context [if ?c then _ else _] =>
      lazymatch c with
      | context [if _ then _ else _] => fail
      | _ => let E := fresh "E" in destruct c eqn:E; zcmp
      end
  end.

Ltac divmod := Z.div_mod_to_equations; nia.

(** One step of the option monad, for rewriting under it without unfolding what follows. *)
Lemma some_bind {A B} (f : A -> option B) x : Some x ≫= f = f x.
Proof. done. Qed.

(** * Lemmas on words *)
Lemma u8_small x : 0 <= x < 256 -> u8 x = x.
Proof. apply Z.mod_small. Qed.
Lemma u16_small x : 0 <= x < 65536 -> u16 x = x.
Proof. apply Z.mod_small. Qed.
Lemma u32_small x : 0 <= x < 4294967296 -> u32 x = x.
Proof. apply Z.mod_small. Qed.
Lemma u64_small x : 0 <= x < 18446744073709551616 -> u64 x = x.
Proof. apply Z.mod_small. Qed.
Lemma u32_range x : 0 <= u32 x < 4294967296.
Proof. apply Z.mod_pos_bound; lia. Qed.
Lemma u64_range x : 0 <= u64 x < 18446744073709551616.
Proof. apply Z.mod_pos_bound; lia. Qed.
Lemma u16_range x : 0 <= u16 x < 65536.
Proof. apply Z.mod_pos_bound; lia. Qed.
Lemma u8_range x : 0 <= u8 x < 256.
Proof. apply Z.mod_pos_bound; lia. Qed.
#[export] Hint Resolve u8_range u16_range u32_range u64_range : tomo.

(** Differences of free-running 32-bit counters are computed modulo 2^32. *)
Lemma u32_sub_u32 a b : u32 (u32 a - u32 b) = u32 (a - b).
Proof. unfold u32. by rewrite <- Zminus_mod. Qed.
Lemma u32_add_u32 a b : u32 (u32 a + b) = u32 (a + b).
Proof. unfold u32. by rewrite Zplus_mod_idemp_l. Qed.
Lemma u64_sub_u64 a b : u64 (u64 a - u64 b) = u64 (a - b).
Proof. unfold u64. by rewrite <- Zminus_mod. Qed.
Lemma u64_add_u64 a b : u64 (u64 a + b) = u64 (a + b).
Proof. unfold u64. by rewrite Zplus_mod_idemp_l. Qed.

Lemma land_ones_mod x k : 0 <= k -> Z.land x (2 ^ k - 1) = x mod 2 ^ k.
Proof. intros Hk. rewrite <- (Z.land_ones x k Hk), Z.ones_equiv. f_equal; lia. Qed.

(** Masking a wrapped counter by a power of two is reduction of the unwrapped counter. *)
Lemma mod_pow2_mod x k n : 0 <= k <= n -> (x mod 2 ^ n) mod 2 ^ k = x mod 2 ^ k.
Proof.
  intros Hk. replace n with (k + (n - k)) by lia. rewrite Z.pow_add_r by lia.
  rewrite Z.rem_mul_r by (apply Z.pow_nonzero || apply Z.pow_pos_nonneg; lia).
  rewrite (Z.mul_comm (2 ^ k)), Z_mod_plus_full. apply Z.mod_mod.
  apply Z.pow_nonzero; lia.
Qed.
Lemma u32_mod_pow2 x k : 0 <= k <= 32 -> u32 x mod 2 ^ k = x mod 2 ^ k.
Proof. apply (mod_pow2_mod x k 32). Qed.
Lemma u64_mod_pow2 x k : 0 <= k <= 64 -> u64 x mod 2 ^ k = x mod 2 ^ k.
Proof. apply (mod_pow2_mod x k 64). Qed.

Lemma shiftr_1 n : Z.shiftr n 1 = n / 2.
Proof. by rewrite Z.shiftr_div_pow2. Qed.

Lemma lor_eq_0 a b : 0 <= a -> 0 <= b -> (Z.lor a b =? 0) = (a =? 0) && (b =? 0).
Proof.
  intros Ha Hb. destruct (Z.lor a b =? 0) eqn:E.
  - zcmp. apply Z.lor_eq_0_iff in E as [-> ->]. done.
  - zcmp. symmetry. apply andb_false_iff.
    destruct (a =? 0) eqn:Ea; [right|by left]. zcmp. subst.
    apply Z.eqb_neq. intros ->. done.
Qed.

(** * Lemmas on memory *)
Lemma is_byte_take n l : Forall is_byte l -> Forall is_byte (take n l).
Proof. apply Forall_take. Qed.
Lemma is_byte_drop n l : Forall is_byte l -> Forall is_byte (drop n l).
Proof. apply Forall_drop. Qed.
#[export] Hint Resolve is_byte_take is_byte_drop : tomo.

Lemma byte_land_shiftl b t : is_byte b -> Z.land b (Z.shiftl t 8) = 0.
Proof.
  intros Hb. unfold is_byte in Hb.
  apply Z.bits_inj'. intros i Hi. rewrite Z.land_spec, Z.bits_0.
  destruct (decide (i < 8)); [by rewrite Z.shiftl_spec_low, andb_false_r|].
  rewrite <- (Z.mod_small b (2 ^ 8)), Z.mod_pow2_bits_high; [done|lia..].
Qed.

Lemma lookup_insert_cases {A} (l : list A) i j x y : <[i := x]> l !! j = Some y -> (j = i /\ y = x) \/ (j <> i /\ l !! j = Some y).
Proof.
  intros H. destruct (decide (j = i)) as [->|Hne]; [|right; by rewrite list_lookup_insert_ne in H].
  left. destruct (decide (i < length l)%nat); [rewrite list_lookup_insert_eq in H by done; by injection H|]. rewrite list_insert_ge in H by lia. apply lookup_lt_Some in H. lia.
Qed.

Lemma filter_all {A} (P : A -> Prop) `{!forall x, Decision (P x)} l : Forall P l -> filter P l = l.
Proof. induction 1 as [|x l Hx _ IH]; [done|]. by rewrite filter_cons_True, IH. Qed.
(** [p] is the one element of [l] with [h], or stands for none. *)
Definition sole {A} (h : A -> bool) (l : list A) (p : A) : Prop :=
  if h p then exists i, l !! i = Some p /\ forall j q, l !! j = Some q -> h q = true -> j = i else forall j q, l !! j = Some q -> h q = false.
Lemma sole_at {A} (h : A -> bool) l p i q : sole h l p -> l !! i = Some q -> h q = true -> q = p /\ forall j r, j <> i -> l !! j = Some r -> h r = false.
Proof.
  unfold sole. intros Hs Ei Hq. destruct (h p); [|by rewrite (Hs _ _ Ei) in Hq]. destruct Hs as (k & Ek & Hu). pose proof (Hu i q Ei Hq) as ->. split; [congruence|].
  intros j r Hne Ej. destruct (h r) eqn:Er; [|done]. by pose proof (Hu j r Ej Er).
Qed.
Lemma sole_insert {A} (h : A -> bool) l i p : (i < length l)%nat -> (forall j q, j <> i -> l !! j = Some q -> h q = false) -> sole h (<[i := p]> l) p.
Proof.
  intros Hi Ho. unfold sole. destruct (h p) eqn:E; [exists i; split; [by apply list_lookup_insert_eq|]|]; intros j q Hj; apply lookup_insert_cases in Hj as [[-> ->]|[Hne Hj]]; try done.
  - intros Hq. by rewrite (Ho j q Hne Hj) in Hq.
  - by apply (Ho j).
Qed.
Lemma sole_other {A} (h : A -> bool) l p i q q' : sole h l p -> l !! i = Some q -> h q = false -> h q' = false -> sole h (<[i := q']> l) p.
Proof.
  unfold sole. intros Hs Ei Hq Hq'. destruct (h p) eqn:E.
  - destruct Hs as (k & Ek & Hu). exists k. assert (k <> i) by congruence. split; [by rewrite list_lookup_insert_ne|]. intros j x Hj Hx. apply lookup_insert_cases in Hj as [[-> ->]|[_ Hj]]; [congruence|eauto].
  - intros j x Hj. apply lookup_insert_cases in Hj as [[-> ->]|[_ Hj]]; [done|eauto].
Qed.
Lemma sole_replicate {A} (h : A -> bool) n p : h p = false -> sole h (replicate n p) p.
Proof. intros Hp. unfold sole. rewrite Hp. intros j q Hj. by apply lookup_replicate in Hj as [-> _]. Qed.

Lemma lor_shiftl_add a b k : 0 <= k -> 0 <= a < 2 ^ k -> Z.lor a (Z.shiftl b k) = a + 2 ^ k * b.
Proof.
  intros Hk Ha. assert (Z.land a (Z.shiftl b k) = 0) as Hz.
  { apply Z.bits_inj'. intros i Hi. rewrite Z.land_spec, Z.bits_0. destruct (decide (i < k)); [by rewrite Z.shiftl_spec_low, andb_false_r|].
    rewrite <- (Z.mod_small a (2 ^ k)), Z.mod_pow2_bits_high; [done|lia..]. }
  rewrite <- Z.lxor_lor, <- Z.add_nocarry_lxor by done. rewrite Z.shiftl_mul_pow2 by lia. lia.
Qed.

Lemma le_load_add b t : is_byte b -> Z.lor b (Z.shiftl t 8) = b + 256 * t.
Proof.
  intros Hb. pose proof (byte_land_shiftl b t Hb) as Hz.
  rewrite <- Z.lxor_lor, <- Z.add_nocarry_lxor by done.
  rewrite Z.shiftl_mul_pow2 by lia. lia.
Qed.

Lemma le_load_bound l : Forall is_byte l -> 0 <= le_load l < 256 ^ Z.of_nat (length l).
Proof.
  induction 1 as [|b t Hb Ht IH]; cbn -[Z.of_nat Z.pow Z.lor Z.shiftl]; [cbn; lia|].
  rewrite le_load_add by done. rewrite Nat2Z.inj_succ, Z.pow_succ_r by lia.
  unfold is_byte in Hb. nia.
Qed.

(** Loads of equally many bytes agree exactly when the bytes do. *)
Lemma le_load_inj a b :
  Forall is_byte a -> Forall is_byte b -> length a = length b ->
  le_load a = le_load b -> a = b.
Proof.
  intros Ha. revert b. induction Ha as [|x a Hx Ha IH]; intros [|y b] Hb Hl E;
    cbn in Hl; try lia; [done|].
  inversion Hb as [|?? Hy Hb']; subst. cbn -[Z.lor Z.shiftl] in E.
  rewrite !le_load_add in E by done. unfold is_byte in *.
  assert (x = y) as -> by lia. f_equal. apply IH; [done|lia|lia].
Qed.

Lemma le_load_xor_0 a b :
  Forall is_byte a -> Forall is_byte b -> length a = length b ->
  (Z.lxor (le_load a) (le_load b) =? 0) = bool_decide (a = b).
Proof.
  intros Ha Hb Hl. case_bool_decide as E.
  - subst. by rewrite Z.lxor_nilpotent.
  - apply Z.eqb_neq. intros E'. apply E, le_load_inj; try done.
    by apply Z.lxor_eq.
Qed.

Lemma lxor_nonneg a b : 0 <= a -> 0 <= b -> 0 <= Z.lxor a b.
Proof. intros. apply Z.lxor_nonneg. lia. Qed.

Lemma mem_read_Some m off n :
  0 <= off -> 0 <= n -> off + n <= Z.of_nat (length m) ->
  mem_read m off n = Some (take (Z.to_nat n) (drop (Z.to_nat off) m)).
Proof. intros. unfold mem_read. zsplit; [done|]. apply andb_false_iff in E as [E|E]; [apply andb_false_iff in E as [E|E]|]; zcmp; lia. Qed.

Lemma mem_write_Some m off bs :
  0 <= off -> off + Z.of_nat (length bs) <= Z.of_nat (length m) ->
  mem_write m off bs =
    Some (take (Z.to_nat off) m ++ bs ++ drop (Z.to_nat off + length bs) m).
Proof. intros. unfold mem_write. zsplit; [done|]. apply andb_false_iff in E as [E|E]; zcmp; lia. Qed.

Lemma mem_write_length m off bs m' :
  mem_write m off bs = Some m' -> length m' = length m.
Proof.
  unfold mem_write. zsplit; [|done]. intros [= <-].
  rewrite !length_app, length_take, length_drop. lia.
Qed.

Lemma le_store_length n w : length (le_store n w) = n.
Proof. revert w. induction n; intros; cbn; [done|]. by rewrite IHn. Qed.

Lemma le_store_bytes n w : Forall is_byte (le_store n w).
Proof.
  revert w. induction n; intros; cbn -[Z.land]; constructor; [|apply IHn].
  change 255 with (2 ^ 8 - 1). rewrite land_ones_mod by lia.
  apply Z.mod_pos_bound. lia.
Qed.

Lemma le_load_store n w : le_load (le_store n w) = w mod 256 ^ Z.of_nat n.
Proof.
  revert w. induction n; intros; cbn -[Z.land Z.lor Z.of_nat Z.shiftl Z.shiftr Z.pow].
  - by rewrite Z.mod_1_r.
  - change 255 with (2 ^ 8 - 1). rewrite land_ones_mod by lia.
    rewrite le_load_add by (apply Z.mod_pos_bound; lia).
    rewrite IHn, Z.shiftr_div_pow2, Nat2Z.inj_succ, Z.pow_succ_r by lia.
    change (2 ^ 8) with 256.
    rewrite Z.rem_mul_r; lia.
Qed.
#[export] Hint Resolve le_store_bytes : tomo.

(** * 64-bit words *)
Definition word64 (x : Z) : Prop := 0 <= x < 18446744073709551616.
Lemma word64_land x y : word64 x -> 0 <= y -> word64 (Z.land x y).
Proof.
  unfold word64. intros Hx Hy. split; [apply Z.land_nonneg; lia|].
  destruct (Z.eq_dec (Z.land x y) 0) as [->|Hn]; [lia|].
  assert (0 <= Z.land x y) by (apply Z.land_nonneg; lia).
  change 18446744073709551616 with (2 ^ 64). apply Z.log2_lt_pow2; [lia|].
  eapply Z.le_lt_trans; [apply Z.log2_land; lia|]. apply Z.min_lt_iff. left.
  destruct (Z.eq_dec x 0) as [->|]; [by rewrite Z.log2_nonpos|]. apply Z.log2_lt_pow2; lia.
Qed.
Lemma word64_lor x y : word64 x -> word64 y -> word64 (Z.lor x y).
Proof.
  unfold word64. intros Hx Hy. split; [apply Z.lor_nonneg; lia|].
  destruct (Z.eq_dec (Z.lor x y) 0) as [->|Hn]; [lia|].
  assert (0 <= Z.lor x y) by (apply Z.lor_nonneg; lia).
  change 18446744073709551616 with (2 ^ 64). apply Z.log2_lt_pow2; [lia|].
  rewrite Z.log2_lor by lia. apply Z.max_lub_lt.
  - destruct (Z.eq_dec x 0) as [->|]; [by rewrite Z.log2_nonpos|]. apply Z.log2_lt_pow2; lia.
  - destruct (Z.eq_dec y 0) as [->|]; [by rewrite Z.log2_nonpos|]. apply Z.log2_lt_pow2; lia.
Qed.
Lemma word64_u64 x : word64 (u64 x).
Proof. apply u64_range. Qed.
Lemma word64_high x i : word64 x -> 64 <= i -> Z.testbit x i = false.
Proof.
  intros Hx Hi. unfold word64 in Hx. destruct (Z.eq_dec x 0) as [->|]; [apply Z.bits_0|].
  apply Z.bits_above_log2; [lia|]. enough (Z.log2 x < 64) by lia. apply Z.log2_lt_pow2; lia.
Qed.
(** Some bit of a non-zero word is set. *)
Lemma word64_bit x : word64 x -> x <> 0 -> exists i, 0 <= i < 64 /\ Z.testbit x i = true.
Proof.
  intros Hx Hn. unfold word64 in Hx. exists (Z.log2 x). split; [|apply Z.bit_log2; lia].
  split; [apply Z.log2_nonneg|]. apply Z.log2_lt_pow2; lia.
Qed.
Lemma word64_nonzero x : word64 x -> (exists i, 0 <= i < 64 /\ Z.testbit x i = true) -> x <> 0.
Proof. intros _ (i & _ & Hi) ->. by rewrite Z.bits_0 in Hi. Qed.
#[export] Hint Resolve word64_u64 word64_land word64_lor : tomo.
