(* ===== verification/Slice.v ===== *)
(** slice.h: byte comparison and copy without a library call, [Slice] equality, and the
    growable reply buffer [SmallBuf].

    [bytes_equal] and [bytes_copy] run on blocks of exactly the stated length; the memory
    primitives of the prelude return [None] on an access outside the block, so their theorems
    cover both the answer and the "reads (writes) at most n bytes" half of the contract. *)
From S2P Require Import Prelude.

(** * Loads and copies used by the inline comparisons *)
Definition ld (k : Z) (q : bytes) (off : Z) : option Z := le_load <$> mem_read q off k.
Definition ld8 : bytes -> Z -> option Z := ld 8.
Definition ld4 : bytes -> Z -> option Z := ld 4.

Definition kInlineByteEqualMax : Z := 32.

(** [ld(a) ^ ld(b)] at one offset. *)
Definition ld_diff (k : Z) (a b : bytes) (off : Z) : option Z :=
  x ← ld k a off; y ← ld k b off; Some (Z.lxor x y).

Definition memcmp_eq (a b : bytes) (n : Z) : option bool :=
  x ← mem_read a 0 n; y ← mem_read b 0 n; Some (bool_decide (x = y)).

Definition byte_eq_at (a b : bytes) (i : Z) : option bool :=
  x ← mem_get a i; y ← mem_get b i; Some (x =? y).

(** C's [&&] on tests that touch memory: the right operand is read only if needed. *)
Definition and_then (x : option bool) (y : option bool) : option bool :=
  match x with Some true => y | Some false => Some false | None => None end.

Definition bytes_equal (a b : bytes) (n : Z) : option bool :=
  if 8 <=? n then
    if kInlineByteEqualMax <? n then memcmp_eq a b n
    else
      d0 ← ld_diff 8 a b 0;
      d1 ← ld_diff 8 a b (n - 8);
      d ← (if 16 <? n then
             d2 ← ld_diff 8 a b 8;
             d3 ← ld_diff 8 a b (n - 16);
             Some (Z.lor (Z.lor d0 d1) (Z.lor d2 d3))
           else Some (Z.lor d0 d1));
      Some (d =? 0)
  else if 4 <=? n then
    d0 ← ld_diff 4 a b 0;
    d1 ← ld_diff 4 a b (n - 4);
    Some (Z.lor d0 d1 =? 0)
  else if n =? 0 then Some true
  else and_then (byte_eq_at a b 0)
         (and_then (byte_eq_at a b (Z.shiftr n 1)) (byte_eq_at a b (n - 1))).

Definition kInlineByteCopyMax : Z := 64.

(** [__builtin_memcpy(d + off, s + off, k)]. *)
Definition copy_at (k : Z) (s : bytes) (off : Z) (d : bytes) : option bytes :=
  x ← mem_read s off k; mem_write d off x.

Definition bytes_copy (d s : bytes) (n : Z) : option bytes :=
  if 8 <=? n then
    if kInlineByteCopyMax <? n then copy_at n s 0 d
    else if 32 <=? n then
      d ← copy_at 16 s 0 d;
      d ← copy_at 16 s 16 d;
      d ← copy_at 16 s (n - 32) d;
      copy_at 16 s (n - 16) d
    else if 16 <=? n then
      d ← copy_at 16 s 0 d; copy_at 16 s (n - 16) d
    else
      d ← copy_at 8 s 0 d; copy_at 8 s (n - 8) d
  else if 4 <=? n then
    d ← copy_at 4 s 0 d; copy_at 4 s (n - 4) d
  else if n =? 0 then Some d
  else
    d ← copy_at 1 s 0 d;
    d ← copy_at 1 s (Z.shiftr n 1) d;
    copy_at 1 s (n - 1) d.

(** * Slice

    A [Slice] is a view of [n] bytes at offset [p] of a pinned block. *)
Record Slice := mkSlice { sl_p : Z; sl_n : Z }.
#[global] Instance Slice_eq_dec : EqDecision Slice.
Proof. solve_decision. Defined.

Definition empty_slice : Slice := mkSlice 0 0.
Definition slice_bytes (buf : bytes) (s : Slice) : option bytes := mem_read buf (sl_p s) (sl_n s).

(** The comparisons below take the bytes the two slices denote. *)
Definition slice_eq (x y : bytes) : option bool :=
  let n := Z.of_nat (length x) in
  if negb (n =? Z.of_nat (length y)) then Some false
  else if n =? 0 then Some true else memcmp_eq x y n.

Definition key_eq (x y : bytes) : option bool :=
  if negb (Z.of_nat (length x) =? Z.of_nat (length y)) then Some false
  else bytes_equal x y (Z.of_nat (length x)).

Definition fold_upper (a : Z) : Z := if (65 <=? a) && (a <=? 90) then a - 65 + 97 else a.

Fixpoint eq_icase_loop (x lit : bytes) : bool :=
  match x, lit with
  | a :: x, b :: lit => if negb (fold_upper a =? b) then false else eq_icase_loop x lit
  | _, _ => true
  end.
Definition eq_icase (x lit : bytes) : bool :=
  if negb (Z.of_nat (length x) =? Z.of_nat (length lit)) then false else eq_icase_loop x lit.

(** * SmallBuf

    [sb_mem] is the whole block [data_] points at ([cap_] bytes, inline or on the heap); the
    reply is its first [sb_len] bytes.  Freshly allocated bytes are indeterminate in C++ and
    written as 0 here; nothing below depends on them. *)
Record SmallBuf := mkSB { sb_mem : bytes; sb_len : Z; sb_cap : Z; sb_heap : bool }.

Section SmallBuf.
Context (Inline : Z).

Definition sb_new : SmallBuf := mkSB (replicate (Z.to_nat Inline) 0) 0 Inline false.
Definition sb_clear (b : SmallBuf) : SmallBuf := mkSB (sb_mem b) 0 (sb_cap b) (sb_heap b).
Definition sb_shrink_to_inline (b : SmallBuf) : SmallBuf :=
  if sb_heap b then mkSB (replicate (Z.to_nat Inline) 0) 0 Inline false
  else mkSB (sb_mem b) 0 (sb_cap b) (sb_heap b).
End SmallBuf.

Definition sb_empty (b : SmallBuf) : bool := sb_len b =? 0.

(** [while (ncap < need) ncap *= 2], at size_t width; 64 doublings exhaust the width. *)
Fixpoint grow_cap (fuel : nat) (ncap need : Z) : option Z :=
  if ncap <? need then
    match fuel with O => None | S f => grow_cap f (u64 (ncap * 2)) need end
  else Some ncap.
Definition kGrowFuel : nat := 64.

Definition sb_grow (b : SmallBuf) (need : Z) : option SmallBuf :=
  ncap ← grow_cap kGrowFuel (u64 (sb_cap b * 2)) need;
  old ← mem_read (sb_mem b) 0 (sb_len b);
  nd ← mem_write (replicate (Z.to_nat ncap) 0) 0 old;
  Some (mkSB nd (sb_len b) ncap true).

(** [reserve(n)]: afterwards [n] bytes past [len_] are writable. *)
Definition sb_reserve (b : SmallBuf) (n : Z) : option SmallBuf :=
  if sb_cap b <? sb_len b + n then sb_grow b (sb_len b + n) else Some b.

(** A write at the cursor [reserve] returned, [k] bytes in. *)
Definition sb_poke (b : SmallBuf) (k : Z) (bs : bytes) : option SmallBuf :=
  m ← mem_write (sb_mem b) (sb_len b + k) bs;
  Some (mkSB m (sb_len b) (sb_cap b) (sb_heap b)).

Definition sb_advance (b : SmallBuf) (n : Z) : SmallBuf :=
  mkSB (sb_mem b) (sb_len b + n) (sb_cap b) (sb_heap b).

(** [commit_raw]: the sender publishes bytes a worker already wrote past [len_]. *)
Definition sb_commit_raw (b : SmallBuf) (n : Z) : SmallBuf := sb_advance b n.

Definition sb_append (b : SmallBuf) (bs : bytes) : option SmallBuf :=
  b ← sb_reserve b (Z.of_nat (length bs));
  b ← sb_poke b 0 bs;
  Some (sb_advance b (Z.of_nat (length bs))).

Definition sb_push_back (b : SmallBuf) (c : Z) : option SmallBuf :=
  b ← sb_reserve b 1; b ← sb_poke b 0 [c]; Some (sb_advance b 1).

(** The bytes the buffer holds, and its representation invariant. *)
Definition sb_bytes (b : SmallBuf) : bytes := take (Z.to_nat (sb_len b)) (sb_mem b).
Definition sb_ok (b : SmallBuf) : Prop :=
  0 < sb_cap b <= 2 ^ 61 /\ Z.of_nat (length (sb_mem b)) = sb_cap b /\
  0 <= sb_len b <= sb_cap b.
(** Room for [n] more bytes without exhausting size_t. *)
Definition sb_fits (b : SmallBuf) (n : Z) : Prop := 0 <= n /\ sb_len b + n <= 2 ^ 60.

(** * Windows

    The inline routines look at overlapping windows of the block; the lemmas here reduce
    "every window agrees" to "every byte agrees". *)
Definition win (a : bytes) (off k : Z) : bytes := take (Z.to_nat k) (drop (Z.to_nat off) a).

Lemma win_lookup a off k i :
  0 <= off -> 0 <= k -> off <= Z.of_nat i < off + k ->
  win a off k !! (i - Z.to_nat off)%nat = a !! i.
Proof.
  intros. unfold win. rewrite lookup_take_lt by lia. rewrite lookup_drop. f_equal. lia.
Qed.

(** Lists of the same length that agree on a cover of their indices are equal. *)
Lemma windows_cover (ws : list (Z * Z)) (a b : bytes) :
  length a = length b ->
  Forall (fun w => 0 <= w.1 /\ 0 <= w.2 /\ win a w.1 w.2 = win b w.1 w.2) ws ->
  (forall i, (i < length a)%nat -> Exists (fun w => w.1 <= Z.of_nat i < w.1 + w.2) ws) ->
  a = b.
Proof.
  intros Hl Hw Hc. apply list_eq. intros i.
  destruct (decide (i < length a)%nat) as [Hi|Hi].
  - specialize (Hc i Hi). apply Exists_exists in Hc as (w & Hin & Hr).
    rewrite Forall_forall in Hw. destruct (Hw w Hin) as (? & ? & E).
    rewrite <- (win_lookup a w.1 w.2), <- (win_lookup b w.1 w.2), E by lia. done.
  - rewrite !lookup_ge_None_2 by lia. done.
Qed.

Lemma ld_diff_spec k a b off :
  Forall is_byte a -> Forall is_byte b -> length a = length b ->
  0 <= off -> 0 <= k -> off + k <= Z.of_nat (length a) ->
  exists d, ld_diff k a b off = Some d /\ 0 <= d /\
    (d =? 0) = bool_decide (win a off k = win b off k).
Proof.
  intros Ha Hb Hl Ho Hk Hr. unfold ld_diff, ld.
  rewrite !mem_read_Some by lia. cbn [fmap option_fmap option_map mbind option_bind].
  eexists. split; [done|]. fold (win a off k) (win b off k).
  assert (Forall is_byte (win a off k)) by (unfold win; auto with tomo).
  assert (Forall is_byte (win b off k)) by (unfold win; auto with tomo).
  split.
  - apply lxor_nonneg; by apply le_load_bound.
  - apply le_load_xor_0; try done. unfold win. rewrite !length_take, !length_drop. lia.
Qed.

Lemma byte_eq_at_spec a b i :
  length a = length b -> 0 <= i < Z.of_nat (length a) ->
  byte_eq_at a b i = Some (bool_decide (win a i 1 = win b i 1)).
Proof.
  intros Hl Hi. unfold byte_eq_at, mem_get. rewrite (proj2 (Z.leb_le 0 i)) by lia.
  destruct (lookup_lt_is_Some_2 a (Z.to_nat i)) as [x Hx]; [lia|].
  destruct (lookup_lt_is_Some_2 b (Z.to_nat i)) as [y Hy]; [lia|].
  rewrite Hx, Hy. cbn. f_equal. unfold win. change (Z.to_nat 1) with 1%nat.
  rewrite (drop_S a _ _ Hx), (drop_S b _ _ Hy). cbn.
  destruct (x =? y) eqn:E; zcmp; [subst; by rewrite bool_decide_eq_true_2|].
  rewrite bool_decide_eq_false_2; [done|]. congruence.
Qed.

(** The boolean answer of a windowed comparison. *)
Lemma windows_answer (ws : list (Z * Z)) (a b : bytes) (r : bool) :
  length a = length b ->
  Forall (fun w => 0 <= w.1 /\ 0 <= w.2) ws ->
  (forall i, (i < length a)%nat -> Exists (fun w => w.1 <= Z.of_nat i < w.1 + w.2) ws) ->
  r = forallb (fun w => bool_decide (win a w.1 w.2 = win b w.1 w.2)) ws ->
  r = bool_decide (a = b).
Proof.
  intros Hl Hw Hc ->. case_bool_decide as E.
  - subst. apply forallb_forall. intros. by apply bool_decide_eq_true_2.
  - apply not_true_iff_false. intros Hf. rewrite forallb_forall in Hf.
    apply E, (windows_cover ws); [done| |done].
    rewrite Forall_forall in *. intros w Hin. destruct (Hw w Hin).
    split_and!; try done. apply list_elem_of_In in Hin. specialize (Hf w Hin).
    by apply bool_decide_eq_true_1 in Hf.
Qed.

Ltac cover_tac :=
  intros i Hi; repeat (rewrite Exists_cons; cbn [fst snd]); rewrite Exists_nil; lia.

Ltac ld_step off :=
  match goal with
  | |- context [ld_diff ?k ?a ?b off] =>
      let d := fresh "d" in let E := fresh "E" in let Hd := fresh "Hd" in let W := fresh "W" in
      destruct (ld_diff_spec k a b off) as (d & E & Hd & W); [done|done|done|lia|lia|lia|];
      rewrite E; cbn [mbind option_bind]; clear E
  end.

Lemma bytes_equal_answer a b n :
  Forall is_byte a -> Forall is_byte b ->
  n = Z.of_nat (length a) -> length a = length b ->
  bytes_equal a b n = Some (bool_decide (a = b)).
Proof.
  intros Ha Hb Hn Hl. unfold bytes_equal, kInlineByteEqualMax.
  destruct (8 <=? n) eqn:E8; zcmp.
  - destruct (32 <? n) eqn:E32; zcmp.
    + unfold memcmp_eq. rewrite !mem_read_Some by lia. cbn [mbind option_bind].
      rewrite !take_ge by (rewrite ?drop_0; lia). by rewrite !drop_0.
    + ld_step 0. ld_step (n - 8). destruct (16 <? n) eqn:E16; zcmp.
      * ld_step 8. ld_step (n - 16). cbn [mbind option_bind]. f_equal.
        apply (windows_answer [(0, 8); (n - 8, 8); (8, 8); (n - 16, 8)]); [done| |cover_tac|].
        { repeat constructor; cbn; lia. }
        cbn [forallb fst snd]. rewrite <- W, <- W0, <- W1, <- W2.
        rewrite !lor_eq_0 by (try apply Z.lor_nonneg; lia). by rewrite !andb_true_r, !andb_assoc.
      * cbn [mbind option_bind]. f_equal.
        apply (windows_answer [(0, 8); (n - 8, 8)]); [done| |cover_tac|].
        { repeat constructor; cbn; lia. }
        cbn [forallb fst snd]. rewrite <- W, <- W0, lor_eq_0 by lia. by rewrite andb_true_r.
  - destruct (4 <=? n) eqn:E4; zcmp.
    + ld_step 0. ld_step (n - 4). f_equal.
      apply (windows_answer [(0, 4); (n - 4, 4)]); [done| |cover_tac|].
      { repeat constructor; cbn; lia. }
      cbn [forallb fst snd]. rewrite <- W, <- W0, lor_eq_0 by lia. by rewrite andb_true_r.
    + destruct (n =? 0) eqn:E0; zcmp.
      * destruct a, b; cbn in *; try lia. done.
      * assert (Z.shiftr n 1 = n / 2) as Hsh by apply shiftr_1.
        assert (0 <= n / 2 < n) by (Z.div_mod_to_equations; lia).
        rewrite !byte_eq_at_spec by (rewrite ?Hsh; lia).
        assert (forall x y z : bool, and_then (Some x) (and_then (Some y) (Some z))
                 = Some (x && (y && (z && true)))) as -> by (by intros [] [] []).
        f_equal. apply (windows_answer [(0, 1); (Z.shiftr n 1, 1); (n - 1, 1)]);
          [done| | |done]; rewrite Hsh.
        { repeat constructor; cbn; lia. }
        intros i Hi; repeat (rewrite Exists_cons; cbn [fst snd]); rewrite Exists_nil.
        Z.div_mod_to_equations; lia.
Qed.

(** ** Copies *)
Definition copied (s d d' : bytes) (off k : Z) : Prop :=
  length d' = length d /\
  forall i, d' !! i = if bool_decide (off <= Z.of_nat i < off + k) then s !! i else d !! i.

Lemma copy_at_spec k s off d :
  length s = length d -> 0 <= off -> 0 <= k -> off + k <= Z.of_nat (length s) ->
  exists d', copy_at k s off d = Some d' /\ copied s d d' off k.
Proof.
  intros Hl Ho Hk Hr. unfold copy_at. rewrite mem_read_Some by lia. cbn [mbind option_bind].
  assert (length (take (Z.to_nat k) (drop (Z.to_nat off) s)) = Z.to_nat k) as Hw
    by (rewrite length_take, length_drop; lia).
  rewrite mem_write_Some by lia. rewrite Hw. eexists. split; [done|]. split.
  { rewrite !length_app, Hw, length_take, length_drop. lia. }
  intros i. case_bool_decide as Hi.
  - rewrite lookup_app_r by (rewrite length_take; lia).
    rewrite lookup_app_l by (rewrite Hw, length_take; lia).
    rewrite length_take, lookup_take_lt, lookup_drop by lia. f_equal. lia.
  - destruct (decide (Z.of_nat i < off)).
    + rewrite lookup_app_l by (rewrite length_take; lia). by rewrite lookup_take_lt by lia.
    + rewrite lookup_app_r by (rewrite length_take; lia).
      rewrite lookup_app_r by (rewrite Hw, length_take; lia).
      rewrite Hw, length_take, lookup_drop. f_equal. lia.
Qed.

Ltac copy_step :=
  match goal with
  | |- context [copy_at ?k ?s ?off ?d] =>
      let d' := fresh "d" in let E := fresh "E" in let L := fresh "L" in let C := fresh "C" in
      destruct (copy_at_spec k s off d) as (d' & E & L & C); [lia|lia|lia|lia|];
      rewrite E; cbn [mbind option_bind]; clear E
  end.
Ltac copy_done :=
  f_equal; apply list_eq; intros i;
  repeat match goal with C : forall i, _ |- _ => rewrite (C i); clear C end;
  repeat case_bool_decide; try done; rewrite !lookup_ge_None_2; [done|lia|lia].

Lemma bytes_copy_answer d s n :
  n = Z.of_nat (length s) -> length s = length d -> bytes_copy d s n = Some s.
Proof.
  intros Hn Hl. unfold bytes_copy, kInlineByteCopyMax.
  assert (Z.shiftr n 1 = n / 2) as Hsh by apply shiftr_1.
  assert (n <> 0 -> 0 <= n / 2 < n) by (Z.div_mod_to_equations; lia).
  rewrite Hsh. repeat zsplit; try (destruct s, d; cbn in *; try lia; done).
  all: repeat copy_step; try (by copy_done).
  f_equal; apply list_eq; intros i.
  rewrite (C1 i), (C0 i), (C i). repeat case_bool_decide; try done.
  assert (length s <= i)%nat by (Z.div_mod_to_equations; lia).
  rewrite !lookup_ge_None_2; [done|lia|lia].
Qed.

(** ** SmallBuf *)
Lemma grow_cap_spec fuel ncap need :
  0 < ncap <= 2 ^ 61 -> need <= 2 ^ 60 -> need <= ncap * 2 ^ Z.of_nat fuel ->
  exists c, grow_cap fuel ncap need = Some c /\ need <= c /\ 0 < c <= 2 ^ 61.
Proof.
  revert ncap. induction fuel as [|f IH]; intros ncap Hc Hn Hf; cbn -[Z.of_nat Z.pow].
  - change (2 ^ Z.of_nat 0) with 1 in Hf. zsplit; [lia|]. eexists; split; [done|]. lia.
  - destruct (ncap <? need) eqn:E; zcmp; [|eexists; split; [done|]; lia].
    change (2 ^ 60) with 1152921504606846976 in *. change (2 ^ 61) with 2305843009213693952 in *.
    rewrite u64_small by lia. rewrite Nat2Z.inj_succ, Z.pow_succ_r in Hf by lia.
    apply (IH (ncap * 2)); lia.
Qed.

Lemma sb_grow_spec b need :
  sb_ok b -> sb_cap b < need <= 2 ^ 60 ->
  exists b', sb_grow b need = Some b' /\ sb_ok b' /\ need <= sb_cap b' /\
    sb_bytes b' = sb_bytes b /\ sb_len b' = sb_len b.
Proof.
  intros (Hc & Hm & Hl) Hn. unfold sb_grow.
  change (2 ^ 60) with 1152921504606846976 in *. change (2 ^ 61) with 2305843009213693952 in *.
  rewrite u64_small by lia.
  destruct (grow_cap_spec kGrowFuel (sb_cap b * 2) need) as (c & -> & Hcn & Hc2);
    [change (2 ^ 61) with 2305843009213693952; lia
    |change (2 ^ 60) with 1152921504606846976; lia
    |change (2 ^ Z.of_nat kGrowFuel) with 18446744073709551616; lia|].
  cbn [mbind option_bind]. rewrite mem_read_Some by lia. cbn [mbind option_bind].
  assert (length (take (Z.to_nat (sb_len b)) (drop (Z.to_nat 0) (sb_mem b)))
          = Z.to_nat (sb_len b)) as Ht by (rewrite length_take, drop_0; lia).
  rewrite mem_write_Some by (rewrite ?Ht, ?length_replicate; lia).
  cbn [mbind option_bind]. eexists. split; [done|].
  unfold sb_ok, sb_bytes; cbn [sb_mem sb_len sb_cap]. rewrite Ht.
  rewrite !length_app, Ht, length_drop, length_take, length_replicate.
  split_and!; try lia. rewrite take_0. cbn [app]. rewrite <- Ht at 1.
  by rewrite take_app_length.
Qed.

Lemma sb_reserve_spec b n :
  sb_ok b -> sb_fits b n ->
  exists b', sb_reserve b n = Some b' /\ sb_ok b' /\ sb_len b + n <= sb_cap b' /\
    sb_bytes b' = sb_bytes b /\ sb_len b' = sb_len b.
Proof.
  intros Hok (Hn & Hf). unfold sb_reserve. zsplit.
  - destruct (sb_grow_spec b (sb_len b + n)) as (b' & -> & ?); [done|lia|]. eauto.
  - eexists. split; [done|]. split_and!; done || lia.
Qed.

Lemma sb_poke_spec b k bs :
  sb_ok b -> 0 <= k -> sb_len b + k + Z.of_nat (length bs) <= sb_cap b ->
  exists b', sb_poke b k bs = Some b' /\ sb_ok b' /\ sb_cap b' = sb_cap b /\ sb_len b' = sb_len b /\
    sb_mem b' = take (Z.to_nat (sb_len b + k)) (sb_mem b) ++ bs ++
                drop (Z.to_nat (sb_len b + k) + length bs) (sb_mem b).
Proof.
  intros (Hc & Hm & Hl) Hk Hr. unfold sb_poke. rewrite mem_write_Some by lia.
  cbn [mbind option_bind]. eexists. split; [done|]. unfold sb_ok; cbn -[Z.pow].
  rewrite !length_app, length_take, length_drop. split_and!; try done; lia.
Qed.

(** Reserving [r] bytes, writing [bs] at the cursor and advancing past it appends [bs]. *)
Lemma sb_write_spec b r bs :
  sb_ok b -> sb_fits b r -> Z.of_nat (length bs) <= r ->
  exists b1 b2, sb_reserve b r = Some b1 /\ sb_poke b1 0 bs = Some b2 /\
    sb_ok (sb_advance b2 (Z.of_nat (length bs))) /\
    sb_bytes (sb_advance b2 (Z.of_nat (length bs))) = sb_bytes b ++ bs /\
    sb_len (sb_advance b2 (Z.of_nat (length bs))) = sb_len b + Z.of_nat (length bs).
Proof.
  intros Hok Hf Hr.
  destruct (sb_reserve_spec b r Hok Hf) as (b1 & E1 & Hok1 & Hc1 & Hb1 & Hl1).
  destruct (sb_poke_spec b1 0 bs Hok1) as (b2 & E2 & Hok2 & Hc2 & Hl2 & Hm2); [lia|lia|].
  exists b1, b2. split_and!; try done.
  - unfold sb_ok in *; cbn [sb_mem sb_len sb_cap sb_advance]. lia.
  - rewrite <- Hb1. unfold sb_bytes, sb_advance; cbn [sb_mem sb_len].
    rewrite Hm2, Hl2, Z.add_0_r. unfold sb_ok in Hok1.
    replace (Z.to_nat (sb_len b1 + Z.of_nat (length bs)))
      with (length (take (Z.to_nat (sb_len b1)) (sb_mem b1)) + length bs)%nat
      by (rewrite length_take; lia).
    rewrite take_app_add, take_app_length. done.
  - cbn [sb_len sb_advance]. lia.
Qed.

Lemma sb_append_spec b bs :
  sb_ok b -> sb_fits b (Z.of_nat (length bs)) ->
  exists b', sb_append b bs = Some b' /\ sb_ok b' /\ sb_bytes b' = sb_bytes b ++ bs /\
    sb_len b' = sb_len b + Z.of_nat (length bs).
Proof.
  intros Hok Hf. unfold sb_append.
  destruct (sb_write_spec b _ bs Hok Hf) as (b1 & b2 & -> & E2 & Hok' & Hb & Hl); [lia|].
  cbn [mbind option_bind]. rewrite E2. cbn [mbind option_bind]. eauto.
Qed.

Lemma sb_push_back_append b c : sb_push_back b c = sb_append b [c].
Proof. done. Qed.

Lemma sb_new_ok n : 0 < n <= 2 ^ 61 -> sb_ok (sb_new n) /\ sb_bytes (sb_new n) = [].
Proof.
  intros Hn. unfold sb_ok, sb_bytes, sb_new; cbn -[Z.pow replicate].
  rewrite length_replicate. split; [lia|done].
Qed.

Lemma sb_shrink_ok n b :
  0 < n <= 2 ^ 61 -> sb_ok b ->
  sb_ok (sb_shrink_to_inline n b) /\ sb_bytes (sb_shrink_to_inline n b) = [] /\
  (sb_heap (sb_shrink_to_inline n b) = false).
Proof.
  intros Hn Hok. unfold sb_shrink_to_inline. destruct (sb_heap b) eqn:E.
  - destruct (sb_new_ok n Hn). done.
  - unfold sb_ok, sb_bytes in *; cbn -[Z.pow]. split_and!; try lia; done.
Qed.

(** * Properties *)

(** Key comparison by overlapping word loads decides equality of the two byte strings at every
    length, and never reads outside either of them. *)
Lemma key_eq_answer x y :
  Forall is_byte x -> Forall is_byte y -> key_eq x y = Some (bool_decide (x = y)).
Proof.
  intros Hx Hy. unfold key_eq. destruct (Z.eqb_spec (Z.of_nat (length x)) (Z.of_nat (length y))) as [E|E].
  - apply bytes_equal_answer; [done|done|done|lia].
  - cbn [negb]. f_equal. symmetry. apply bool_decide_eq_false_2. intros ->. done.
Qed.


(** The operations of a buffer, and what each does to the bytes it holds. *)
Inductive SbCall := SbAppend (bs : bytes) | SbPush (c : Z) | SbWrite (r : Z) (bs : bytes) | SbClear | SbShrink.
Definition sb_call (inline : Z) (b : SmallBuf) (c : SbCall) : option SmallBuf :=
  match c with
  | SbAppend bs => sb_append b bs
  | SbPush c => sb_push_back b c
  | SbWrite r bs => b ← sb_reserve b r; b ← sb_poke b 0 bs; Some (sb_advance b (Z.of_nat (length bs)))
  | SbClear => Some (sb_clear b)
  | SbShrink => Some (sb_shrink_to_inline inline b)
  end.
Definition sb_spec (l : bytes) (c : SbCall) : bytes :=
  match c with
  | SbAppend bs | SbWrite _ bs => l ++ bs
  | SbPush c => l ++ [c]
  | SbClear | SbShrink => []
  end.
Definition sb_call_ok (b : SmallBuf) (c : SbCall) : Prop :=
  match c with
  | SbAppend bs => sb_fits b (Z.of_nat (length bs))
  | SbPush _ => sb_fits b 1
  | SbWrite r bs => sb_fits b r /\ Z.of_nat (length bs) <= r
  | _ => True
  end.

(** SmallBuf refines a byte string: from a well-formed buffer every operation (append,
    push_back, reserve with stores and advance, clear, shrink_to_inline), growth to the heap
    included, succeeds, keeps the buffer well formed, and changes the bytes held as the same
    operation on a string does. *)
Theorem smallbuf_refines inline b c :
  0 < inline <= 2 ^ 61 -> sb_ok b -> sb_call_ok b c ->
  exists b', sb_call inline b c = Some b' /\ sb_ok b' /\ sb_bytes b' = sb_spec (sb_bytes b) c.
Proof.
  intros Hin Hok Hc. destruct c as [bs|c|r bs| |]; cbn [sb_call sb_spec sb_call_ok] in *.
  - destruct (sb_append_spec b bs Hok Hc) as (b' & ? & ? & ? & _). eauto.
  - rewrite sb_push_back_append. destruct (sb_append_spec b [c] Hok Hc) as (b' & ? & ? & ? & _). eauto.
  - destruct Hc as [Hf Hl]. destruct (sb_write_spec b r bs Hok Hf Hl) as (b1 & b2 & E1 & E2 & ? & ? & _).
    rewrite E1. cbn [mbind option_bind]. rewrite E2. cbn [mbind option_bind]. eauto.
  - eexists. split; [done|]. unfold sb_ok, sb_bytes in *; cbn -[Z.pow]. split; [lia|done].
  - eexists. split; [done|]. destruct (sb_shrink_ok inline b Hin Hok) as (? & ? & _). done.
Qed.
Lemma smallbuf_refines_witness :
  exists b', sb_call 4 (sb_new 4) (SbAppend (str "grows")) = Some b' /\ sb_ok b' /\
    sb_bytes b' = sb_spec (sb_bytes (sb_new 4)) (SbAppend (str "grows")).
Proof.
  apply (smallbuf_refines 4 (sb_new 4) (SbAppend (str "grows"))).
  - change (2 ^ 61) with 2305843009213693952. lia.
  - apply sb_new_ok. change (2 ^ 61) with 2305843009213693952. lia.
  - split; by vm_compute.
Defined.
