(* ===== verification/Decimal.v ===== *)
(** Decimal integer text: [u64_digits] of numeric.h and [u64_to_dec], [i64_to_dec] and
    [u32_to_dec_direct] of resp.h, against a reference reading of decimal digits. *)
From S2P Require Import Prelude.

(** * The routines *)

(** The do-while of [u64_digits]/[u64_to_dec]: digits go least significant first into a
    20-byte scratch array; a 21st digit would be an out-of-bounds write. *)
Fixpoint dec_scratch (room : nat) (v : Z) : option bytes :=
  match room with
  | O => None
  | S room =>
      let d := 48 + v mod 10 in
      let v := v / 10 in
      if v =? 0 then Some [d] else cons d <$> dec_scratch room v
  end.

Definition u64_digits (v : Z) : option bytes := reverse <$> dec_scratch 20 v.
Definition u64_to_dec (v : Z) : option bytes := reverse <$> dec_scratch 20 v.

Definition i64_to_dec (v : Z) : option bytes :=
  if v <? 0 then cons 45 <$> u64_to_dec (u64 (- (v + 1)) + 1) else u64_to_dec (u64 v).

(** [for (t = v; t >= 10; t /= 10) n++]; a 32-bit value leaves the loop within ten rounds. *)
Fixpoint dec_count (fuel : nat) (t n : Z) : option Z :=
  if 10 <=? t then match fuel with O => None | S f => dec_count f (t / 10) (n + 1) end
  else Some n.

(** [for (i = n; i-- > 0; ) dst[i] = '0' + v % 10, v /= 10]. *)
Fixpoint dec_fill (n : nat) (v : Z) : bytes :=
  match n with
  | O => []
  | S n => dec_fill n (v / 10) ++ [48 + v mod 10]
  end.

Definition u32_to_dec_direct (v : Z) : option bytes :=
  n ← dec_count 10 v 1; Some (dec_fill (Z.to_nat n) v).

(** * Reference reading of digits *)
Definition is_digit (c : Z) : Prop := 48 <= c <= 57.
Definition dec_step (v c : Z) : Z := v * 10 + (c - 48).
Definition dec_value (ds : bytes) : Z := fold_left dec_step ds 0.

(** [ds] is the canonical text of [v]: digits only, no leading zero, at most 20 bytes. *)
Definition canonical (ds : bytes) (v : Z) : Prop :=
  Forall is_digit ds /\ dec_value ds = v /\ ds <> [] /\
  (forall t, ds = 48 :: t -> t = []).

(** * Lemmas *)
Lemma dec_value_snoc ds c : dec_value (ds ++ [c]) = dec_value ds * 10 + (c - 48).
Proof. unfold dec_value. by rewrite fold_left_app. Qed.

Lemma dec_value_nonneg ds : Forall is_digit ds -> 0 <= dec_value ds.
Proof.
  induction ds as [|c ds IH] using rev_ind; [done|]. rewrite Forall_app, dec_value_snoc.
  intros [H Hc]. rewrite Forall_singleton in Hc. unfold is_digit in Hc. specialize (IH H). lia.
Qed.

Lemma mod10_digit v : is_digit (48 + v mod 10).
Proof. unfold is_digit. pose proof (Z.mod_pos_bound v 10). lia. Qed.

Lemma digit_inj ds1 ds2 : 
  Forall is_digit ds1 -> Forall is_digit ds2 -> length ds1 = length ds2 ->
  dec_value ds1 = dec_value ds2 -> ds1 = ds2.
Proof.
  revert ds2. induction ds1 as [|c ds1 IH] using rev_ind; intros ds2 H1 H2 Hl Hv.
  - destruct ds2; done.
  - destruct ds2 as [|d ds2 _] using rev_ind; [rewrite length_app in Hl; cbn in Hl; lia|].
    rewrite !length_app in Hl. rewrite !dec_value_snoc in Hv.
    apply Forall_app in H1 as [H1 Hc]. apply Forall_app in H2 as [H2 Hd].
    rewrite Forall_singleton in Hc, Hd. unfold is_digit in *. cbn in Hl.
    assert (c = d) as -> by lia. f_equal. apply IH; [done|done|lia|lia].
Qed.

Lemma dec_scratch_spec room v :
  0 <= v < 10 ^ Z.of_nat room -> (0 < room)%nat ->
  exists ds, dec_scratch room v = Some ds /\ canonical (reverse ds) v /\
    (length ds <= room)%nat.
Proof.
  revert v. induction room as [|room IH]; intros v Hv Hr; [lia|].
  cbn [dec_scratch]. destruct (v / 10 =? 0) eqn:E; zcmp.
  - exists [48 + v mod 10]. split; [done|]. split; [|cbn; lia].
    assert (v mod 10 = v) as Hm by (Z.div_mod_to_equations; lia). rewrite Hm.
    assert (is_digit (48 + v)) by (unfold is_digit; Z.div_mod_to_equations; lia).
    change (reverse [48 + v]) with [48 + v].
    split_and!; [by constructor|cbn; unfold dec_step; lia|done|].
    intros t Ht. by injection Ht as _ <-.
  - rewrite Nat2Z.inj_succ, Z.pow_succ_r in Hv by lia.
    destruct (IH (v / 10)) as (ds & -> & (Hd & Hval & Hne & Hz) & Hlen).
    { Z.div_mod_to_equations; lia. }
    { destruct room; [cbn in Hv; Z.div_mod_to_equations; lia|lia]. }
    exists (48 + v mod 10 :: ds). split; [done|]. split; [|cbn; lia].
    rewrite reverse_cons. split_and!.
    + apply Forall_app. split; [done|]. constructor; [apply mod10_digit|done].
    + rewrite dec_value_snoc, Hval. Z.div_mod_to_equations; lia.
    + intros Hc. by destruct (reverse ds).
    + intros t Ht. destruct (reverse ds) as [|c rds] eqn:Er; [done|].
      cbn in Ht. injection Ht as -> Ht. rewrite (Hz rds) in Hval by done.
      exfalso. cbn in Hval. unfold dec_step in Hval. lia.
Qed.

Lemma u64_to_dec_spec v :
  0 <= v < 18446744073709551616 ->
  exists ds, u64_to_dec v = Some ds /\ canonical ds v /\ (length ds <= 20)%nat.
Proof.
  intros Hv. unfold u64_to_dec.
  destruct (dec_scratch_spec 20 v) as (ds & -> & Hc & Hl).
  { change (10 ^ Z.of_nat 20) with 100000000000000000000. lia. }
  { lia. }
  exists (reverse ds). cbn. rewrite length_reverse. done.
Qed.

(** Writing forward with a known count produces the same digits as the reversed scratch. *)
Lemma dec_fill_scratch room v ds :
  dec_scratch room v = Some ds -> dec_fill (length ds) v = reverse ds.
Proof.
  revert v ds. induction room as [|room IH]; intros v ds; cbn [dec_scratch]; [done|].
  destruct (v / 10 =? 0).
  - intros [= <-]. done.
  - destruct (dec_scratch room (v / 10)) as [ds'|] eqn:E; cbn; [|done].
    intros [= <-]. rewrite reverse_cons. cbn. by rewrite (IH _ _ E).
Qed.

Lemma dec_count_scratch fuel v n :
  0 <= v < 10 ^ Z.of_nat (S fuel) ->
  exists ds, dec_scratch (S fuel) v = Some ds /\
    dec_count fuel v n = Some (n + Z.of_nat (length ds) - 1).
Proof.
  revert v n. induction fuel as [|f IH]; intros v n Hv.
  - cbn in Hv. exists [48 + v mod 10]. cbn [dec_scratch dec_count].
    assert (v / 10 = 0) as -> by (Z.div_mod_to_equations; lia).
    rewrite (proj2 (Z.leb_gt 10 v)) by lia. cbn. split; [done|]. f_equal. lia.
  - rewrite Nat2Z.inj_succ, Z.pow_succ_r in Hv by lia.
    cbn [dec_scratch dec_count]. destruct (10 <=? v) eqn:E; zcmp.
    + assert ((v / 10 =? 0) = false) as -> by (apply Z.eqb_neq; Z.div_mod_to_equations; lia).
      destruct (IH (v / 10) (n + 1)) as (ds & E1 & E2); [Z.div_mod_to_equations; lia|].
      cbn [dec_scratch] in E1. rewrite E1, E2. eexists. split; [done|].
      cbn [length]. f_equal. lia.
    + assert (v / 10 = 0) as -> by (Z.div_mod_to_equations; lia).
      eexists. split; [done|]. cbn [length]. f_equal. lia.
Qed.

(** A larger scratch array changes nothing once the digits fit. *)
Lemma dec_scratch_more room room' v ds :
  dec_scratch room v = Some ds -> (room <= room')%nat -> dec_scratch room' v = Some ds.
Proof.
  revert room' v ds. induction room as [|room IH]; intros room' v ds; cbn [dec_scratch]; [done|].
  intros H Hr. destruct room' as [|room']; [lia|]. cbn [dec_scratch].
  destruct (v / 10 =? 0); [done|].
  destruct (dec_scratch room (v / 10)) as [ds'|] eqn:E; cbn in H; [|done].
  rewrite (IH room' _ ds'); [done|done|lia].
Qed.

Lemma u32_direct_eq v :
  0 <= v < 4294967296 -> u32_to_dec_direct v = u64_to_dec v.
Proof.
  intros Hv. unfold u32_to_dec_direct, u64_to_dec.
  destruct (dec_count_scratch 10 v 1) as (ds & E1 & E2).
  { change (10 ^ Z.of_nat 11) with 100000000000. lia. }
  rewrite E2, (dec_scratch_more 11 20 v ds E1) by lia. cbn [mbind option_bind fmap option_fmap option_map].
  rewrite <- (dec_fill_scratch _ _ _ E1). do 2 f_equal. lia.
Qed.

(** * Properties *)

(** C35: Both integer formatters are correct and equal: every 64-bit value gets its canonical
    decimal text (digits only, no leading zero, reading back as the value, at most 20 bytes, so the
    scratch array is never overrun), and the two-pass formatter used for coded replies writes the
    same bytes for every 32-bit value. *)
Theorem decimal_text_canonical v :
  0 <= v < 18446744073709551616 ->
  exists ds, u64_to_dec v = Some ds /\ u64_digits v = Some ds /\ canonical ds v /\
    (length ds <= 20)%nat /\ (v < 4294967296 -> u32_to_dec_direct v = Some ds).
Proof.
  intros Hv. destruct (u64_to_dec_spec v Hv) as (ds & E & Hc & Hl).
  exists ds. repeat (split; [done|]). intros. by rewrite u32_direct_eq by lia.
Qed.
Lemma decimal_text_canonical_witness :
  exists ds, u64_to_dec 18446744073709551615 = Some ds /\ u64_digits 18446744073709551615 = Some ds /\
    canonical ds 18446744073709551615 /\ (length ds <= 20)%nat /\
    (18446744073709551615 < 4294967296 -> u32_to_dec_direct 18446744073709551615 = Some ds).
Proof. apply (decimal_text_canonical 18446744073709551615). lia. Defined.
