(* ===== verification/Op.v ===== *)
(** op.h: one in-flight command.  Argument vector with its inline-to-heap spill, route flags,
    the pinned read cut, the zero-copy/marker descriptor, and the reply state written through
    [Op::Sink]: a coded reply, a direct region inside the connection's fill buffer, or the
    operation's own spill buffer. *)
From S2P Require Import Prelude Slice.

Inductive OpState := Free | Issued | Done.
#[global] Instance OpState_eq_dec : EqDecision OpState.
Proof. solve_decision. Defined.

Definition kInlineArgv : Z := 8.
Definition kInlineReply : Z := 96.

Inductive ReplyCode :=
  RNone | ROk | RNil | RPong | RNullArray | REmptyStr | RNullResp3 | RTrue | RFalse | RInt.
#[global] Instance ReplyCode_eq_dec : EqDecision ReplyCode.
Proof. solve_decision. Defined.
Definition kReplyCodeMax : Z := 16.

Definition kScatterStateMarker : Z := -2.
Definition kLocalXshardMarker : Z := -3.
Definition kBlockingStateMarker : Z := -4.
Definition kMultiStateMarker : Z := -5.

(** * Arguments *)
Record OpArgs := mkArgs {
  argv_inline : list Slice;              (* kInlineArgv entries *)
  argv_heap : option (list Slice);       (* argv_cap_ entries, or null *)
  argv_cap : Z;
  argc : Z }.

Definition args_new : OpArgs := mkArgs (replicate 8 empty_slice) None 0 0.

(** [while (ncap < need) ncap *= 2] at uint32 width. *)
Fixpoint grow_argv (fuel : nat) (ncap need : Z) : option Z :=
  if ncap <? need then
    match fuel with O => None | S f => grow_argv f (u32 (ncap * 2)) need end
  else Some ncap.

(** [push_arg]; the result is the returned bool with the new vector.  [alloc n] says whether
    a realloc to [n] entries succeeds.  [None] would be an out-of-bounds store. *)
Section PushArg.
Context (alloc : Z -> bool).

Definition push_arg_heap (a : OpArgs) (h : list Slice) (s : Slice) : option (bool * OpArgs) :=
  if argc a <? Z.of_nat (length h) then
    Some (true, mkArgs (argv_inline a) (Some (<[Z.to_nat (argc a) := s]> h)) (argv_cap a)
                       (argc a + 1))
  else None.

Definition push_arg (a : OpArgs) (s : Slice) : option (bool * OpArgs) :=
  if (match argv_heap a with None => true | Some _ => false end) && (argc a <? kInlineArgv)
  then Some (true, mkArgs (<[Z.to_nat (argc a) := s]> (argv_inline a)) None (argv_cap a)
                          (argc a + 1))
  else
    let need := u32 (argc a + 1) in
    if argv_cap a <? need then
      ncap ← grow_argv 32 (if argv_cap a =? 0 then kInlineArgv * 2
                           else u32 (argv_cap a * 2)) need;
      if alloc ncap then
        let n :=
          match argv_heap a with
          | Some h => h ++ replicate (Z.to_nat ncap - length h) empty_slice
          | None => take 8 (argv_inline a) ++ replicate (Z.to_nat ncap - 8) empty_slice
          end in
        push_arg_heap (mkArgs (argv_inline a) (Some n) ncap (argc a)) n s
      else Some (false, a)
    else match argv_heap a with
         | Some h => push_arg_heap a h s
         | None => None
         end.
End PushArg.

Definition arg (a : OpArgs) (i : Z) : option Slice :=
  if i <? 0 then None
  else match argv_heap a with
       | Some h => h !! Z.to_nat i
       | None => argv_inline a !! Z.to_nat i
       end.
Definition cmd_name (a : OpArgs) : option Slice :=
  if argc a =? 0 then Some empty_slice else arg a 0.
Definition op_key (a : OpArgs) : option Slice :=
  if 1 <? argc a then arg a 1 else Some empty_slice.

(** The argument list the vector stands for, and its representation invariant. *)
Definition args_store (a : OpArgs) : list Slice :=
  match argv_heap a with Some h => h | None => argv_inline a end.
Definition op_args (a : OpArgs) : list Slice := take (Z.to_nat (argc a)) (args_store a).
Definition args_ok (a : OpArgs) : Prop :=
  length (argv_inline a) = 8%nat /\
  0 <= argc a <= Z.of_nat (length (args_store a)) /\
  match argv_heap a with
  | Some h => Z.of_nat (length h) = argv_cap a /\ 16 <= argv_cap a < 4294967296
  | None => argv_cap a = 0
  end.

(** * Route flags and the pinned read cut *)
Definition kAtomicHazard : Z := 1.
Definition kNoBorrow : Z := 2.
Definition kResp3 : Z := 4.
Definition kReplySkip : Z := 8.
Definition kNoTouch : Z := 16.
Definition kReadCut : Z := 32.
Definition kReadLocal : Z := 64.
Definition kReadLocalPreciseWrite : Z := 128.

Definition mark_flag (flags bit : Z) : Z := Z.lor flags bit.
Definition has_flag (flags bit : Z) : bool := negb (Z.land flags bit =? 0).
Definition clear_reply_skip (flags : Z) : Z := Z.land flags (u8 (Z.lnot kReplySkip)).
Definition reset_read_local_flags (flags : Z) : Z :=
  Z.land flags (u8 (Z.lnot (Z.lor kReadLocal kReadLocalPreciseWrite))).

(** [set_read_cut] keeps the low 32 bits; [read_cut] widens them against a later sequence. *)
Record ReadCut := mkCut { read_cut_lo : Z; cut_flags : Z }.
Definition set_read_cut (c : ReadCut) (cut : Z) : ReadCut :=
  mkCut (u32 cut) (mark_flag (cut_flags c) kReadCut).
Definition has_read_cut (c : ReadCut) : bool := has_flag (cut_flags c) kReadCut.
Definition read_cut (c : ReadCut) (now : Z) : Z :=
  let cut := Z.lor (Z.land now (u64 (Z.lnot 4294967295))) (read_cut_lo c) in
  if now <? cut then u64 (cut - 4294967296) else cut.

(** * The zero-copy descriptor and its state markers *)
Record Zc := mkZc { zc_ptr : Z; zc_len : Z; zc_shard : Z }.
Definition zc_null : Zc := mkZc 0 0 (-1).
Definition has_scatter_state (z : Zc) : bool :=
  negb (zc_ptr z =? 0) && (zc_shard z =? kScatterStateMarker).
Definition has_multi_state (z : Zc) : bool :=
  negb (zc_ptr z =? 0) && (zc_shard z =? kMultiStateMarker).
Definition has_blocking_state (z : Zc) : bool :=
  negb (zc_ptr z =? 0) && (zc_shard z =? kBlockingStateMarker).
Definition has_notify_state (z : Zc) : bool := negb (zc_ptr z =? 0) && (zc_shard z =? -1).
Definition local_xshard (z : Zc) : bool := zc_shard z =? kLocalXshardMarker.
Definition scatter_state (z : Zc) : Z := if has_scatter_state z then zc_ptr z else 0.
Definition multi_state (z : Zc) : Z := if has_multi_state z then zc_ptr z else 0.
Definition blocking_state (z : Zc) : Z := if has_blocking_state z then zc_ptr z else 0.
Definition notify_state (z : Zc) : Z := if has_notify_state z then zc_ptr z else 0.
Definition attach_scatter_state (p : Z) : Zc := mkZc p 0 kScatterStateMarker.
Definition attach_multi_state (p : Z) : Zc := mkZc p 0 kMultiStateMarker.
Definition attach_blocking_state (p : Z) : Zc := mkZc p 0 kBlockingStateMarker.
Definition attach_notify_state (p : Z) : Zc := mkZc p 0 (-1).
Definition mark_local_xshard : Zc := mkZc 0 0 kLocalXshardMarker.
Definition detach_scatter_state : Zc := mkZc 0 0 (-1).
Definition detach_blocking_state : Zc := mkZc 0 0 (-1).

(** * The reply

    [direct] is the offset, in the connection's fill buffer block, that the direct region
    starts at (null when [None]); the worker writes the fill buffer's own storage through it. *)
Record OpReply := mkReply {
  reply_code : ReplyCode;
  reply_ival : Z;
  reply_code_ok : bool;
  reply : SmallBuf;
  direct : option Z;
  direct_cap : Z;
  direct_len : Z }.

Definition reply_new : OpReply := mkReply RNone 0 false (sb_new kInlineReply) None 0 0.

(** The reply half of [reset<Codes>]. *)
Definition reset_reply (codes : bool) (r : OpReply) : OpReply :=
  mkReply (if codes then RNone else reply_code r) (if codes then 0 else reply_ival r)
          (reply_code_ok r) (sb_clear (reply r)) None 0 0.

Definition clear_reply (r : OpReply) : OpReply :=
  mkReply RNone 0 (reply_code_ok r) (sb_clear (reply r)) (direct r) (direct_cap r) 0.

Definition replied (r : OpReply) : bool :=
  negb (sb_empty (reply r)) || negb (direct_len r =? 0) || negb (bool_decide (reply_code r = RNone)).

Definition with_reply (r : OpReply) (b : SmallBuf) : OpReply :=
  mkReply (reply_code r) (reply_ival r) (reply_code_ok r) b (direct r) (direct_cap r) (direct_len r).
Definition with_direct_len (r : OpReply) (n : Z) : OpReply :=
  mkReply (reply_code r) (reply_ival r) (reply_code_ok r) (reply r) (direct r) (direct_cap r) n.

(** ** The whole operation *)
Record Op := mkOp {
  op_argv : OpArgs;
  op_shard : Z;
  op_cut : ReadCut;                      (* read_cut_lo and route_flags_ *)
  op_hash : Z;
  rbuf_off : Z;
  op_reply : OpReply;
  op_zc : Zc;
  op_state : OpState }.

Definition op_new : Op :=
  mkOp args_new (-1) (mkCut 0 0) 0 0 reply_new zc_null Free.

(** [reset<Codes>(route_flags)]: the heap argument block, [hash], [rbuf_off] and
    [reply_code_ok_] survive. *)
Definition op_reset (codes : bool) (route_flags : Z) (o : Op) : Op :=
  mkOp (mkArgs (argv_inline (op_argv o)) (argv_heap (op_argv o)) (argv_cap (op_argv o)) 0)
       (-1) (mkCut 0 route_flags) (op_hash o) (rbuf_off o)
       (reset_reply codes (op_reply o)) zc_null Free.

Definition op_reset_read_local (route_flags : Z) (o : Op) : Op :=
  op_reset true (reset_read_local_flags route_flags) o.

Definition kShrinkKeep : Z := 4096.
Definition op_oversized (o : Op) : bool :=
  (match argv_heap (op_argv o) with Some _ => true | None => false end)
  || (kShrinkKeep <? sb_cap (reply (op_reply o))).

Definition op_shrink (o : Op) : Op :=
  let a := op_argv o in
  mkOp (match argv_heap a with
        | Some _ => mkArgs (argv_inline a) None 0 (argc a)
        | None => a
        end)
       (op_shard o) (op_cut o) (op_hash o) (rbuf_off o)
       (with_reply (op_reply o) (sb_shrink_to_inline kInlineReply (reply (op_reply o))))
       (op_zc o) (op_state o).

Definition op_set_state (o : Op) (st : OpState) : Op :=
  mkOp (op_argv o) (op_shard o) (op_cut o) (op_hash o) (rbuf_off o) (op_reply o) (op_zc o) st.

(** * Op::Sink

    The sink holds the operation and remembers where the last [reserve] pointed.  [sk_fill]
    is the fill buffer the direct region aliases. *)
Record Sink := mkSink { sk_fill : SmallBuf; sk_op : OpReply; last_direct : bool }.

Definition sink_reserve (s : Sink) (n : Z) : option Sink :=
  let o := sk_op s in
  if (match direct o with Some _ => true | None => false end) && sb_empty (reply o) &&
     (direct_len o + n <=? direct_cap o)
  then Some (mkSink (sk_fill s) o true)
  else b ← sb_reserve (reply o) n; Some (mkSink (sk_fill s) (with_reply o b) false).

(** A store of [bs] at the cursor [reserve] returned, [k] bytes in. *)
Definition sink_poke (s : Sink) (k : Z) (bs : bytes) : option Sink :=
  let o := sk_op s in
  if last_direct s then
    d ← direct o;
    m ← mem_write (sb_mem (sk_fill s)) (d + direct_len o + k) bs;
    Some (mkSink (mkSB m (sb_len (sk_fill s)) (sb_cap (sk_fill s)) (sb_heap (sk_fill s)))
                 o (last_direct s))
  else b ← sb_poke (reply o) k bs; Some (mkSink (sk_fill s) (with_reply o b) (last_direct s)).

Definition sink_advance (s : Sink) (n : Z) : Sink :=
  let o := sk_op s in
  if last_direct s then mkSink (sk_fill s) (with_direct_len o (u32 (direct_len o + n))) true
  else mkSink (sk_fill s) (with_reply o (sb_advance (reply o) n)) false.

(** The [n] bytes at the cursor, as the destination of a copy. *)
Definition sink_cursor (s : Sink) (n : Z) : option bytes :=
  let o := sk_op s in
  if last_direct s then d ← direct o; mem_read (sb_mem (sk_fill s)) (d + direct_len o) n
  else mem_read (sb_mem (reply o)) (sb_len (reply o)) n.

Definition sink_append (s : Sink) (bs : bytes) : option Sink :=
  let n := Z.of_nat (length bs) in
  s ← sink_reserve s n;
  d ← sink_cursor s n;
  d ← (if kInlineByteCopyMax <? n then copy_at n bs 0 d else bytes_copy d bs n);
  s ← sink_poke s 0 d;
  Some (sink_advance s n).

Definition sink_push_back (s : Sink) (c : Z) : option Sink :=
  s ← sink_reserve s 1; s ← sink_poke s 0 [c]; Some (sink_advance s 1).

(** [code(c, v)]: [None] is the declined case (returns false). *)
Definition sink_code (s : Sink) (c : ReplyCode) (v : Z) : option Sink :=
  let o := sk_op s in
  if negb (reply_code_ok o) then None
  else if negb (bool_decide (reply_code o = RNone)) || negb (direct_len o =? 0) ||
          negb (sb_empty (reply o)) then None
  else Some (mkSink (sk_fill s)
               (mkReply c v (reply_code_ok o) (reply o) None (direct_cap o) (direct_len o))
               (last_direct s)).

(** The IO thread arms the direct region on an empty fill buffer (io_loop.h). *)
Definition arm_direct (fill : SmallBuf) (o : OpReply) : OpReply :=
  mkReply (reply_code o) (reply_ival o) (reply_code_ok o) (reply o)
          (Some 0) (u32 (sb_cap fill)) (direct_len o).

(** * Lemmas: arguments *)
Lemma grow_argv_spec fuel ncap need :
  16 <= ncap < 2147483648 -> need <= 1073741824 -> need <= ncap * 2 ^ Z.of_nat fuel ->
  exists c, grow_argv fuel ncap need = Some c /\ need <= c /\ ncap <= c < 2147483648.
Proof.
  revert ncap. induction fuel as [|f IH]; intros ncap Hc Hn Hf; cbn -[Z.of_nat Z.pow].
  - change (2 ^ Z.of_nat 0) with 1 in Hf. zsplit; [lia|]. eexists; split; [done|]. lia.
  - destruct (ncap <? need) eqn:E; zcmp; [|eexists; split; [done|]; lia].
    rewrite u32_small by lia. rewrite Nat2Z.inj_succ, Z.pow_succ_r in Hf by lia.
    destruct (IH (ncap * 2)) as (c & -> & ?); [lia|lia|lia|]. eexists; split; [done|]. lia.
Qed.

Lemma take_snoc_insert (l : list Slice) (i : nat) s :
  (i < length l)%nat -> take (S i) (<[i := s]> l) = take i l ++ [s].
Proof.
  intros Hi. rewrite (take_S_r _ _ s) by (by apply list_lookup_insert_eq).
  by rewrite take_insert_ge by lia.
Qed.

Lemma push_arg_heap_spec a h s :
  argv_heap a = Some h -> length (argv_inline a) = 8%nat ->
  Z.of_nat (length h) = argv_cap a -> 16 <= argv_cap a < 4294967296 ->
  0 <= argc a < argv_cap a ->
  exists a', push_arg_heap a h s = Some (true, a') /\ args_ok a' /\
    op_args a' = take (Z.to_nat (argc a)) h ++ [s] /\ argc a' = argc a + 1.
Proof.
  intros Hh Hi Hl Hc Ha. unfold push_arg_heap. zsplit; [|lia].
  eexists. split; [done|]. unfold args_ok, op_args, args_store; cbn -[Z.of_nat].
  rewrite length_insert. split_and!; try done; try lia.
  replace (Z.to_nat (argc a + 1)) with (S (Z.to_nat (argc a))) by lia.
  apply take_snoc_insert. lia.
Qed.

Lemma push_arg_spec alloc a s :
  args_ok a -> argc a < 1073741824 ->
  exists r a', push_arg alloc a s = Some (r, a') /\ args_ok a' /\
    (if r then op_args a' = op_args a ++ [s] /\ argc a' = argc a + 1
     else a' = a /\ exists n, alloc n = false).
Proof.
  intros (Hi & Hc & Hh) Hb. unfold push_arg. unfold args_store in *.
  destruct (argv_heap a) as [h|] eqn:Eh; cbn [andb].
  - destruct Hh as [Hl Hcap]. rewrite u32_small by lia. zsplit.
    + rewrite (proj2 (Z.eqb_neq (argv_cap a) 0)), u32_small by lia.
      destruct (grow_argv_spec 32 (argv_cap a * 2) (argc a + 1)) as (c & -> & Hc1 & Hc2);
        [lia|lia|change (2 ^ Z.of_nat 32) with 4294967296; lia|].
      cbn [mbind option_bind]. destruct (alloc c) eqn:Ea.
      * destruct (push_arg_heap_spec
          (mkArgs (argv_inline a) (Some (h ++ replicate (Z.to_nat c - length h) empty_slice)) c
             (argc a)) (h ++ replicate (Z.to_nat c - length h) empty_slice) s)
          as (a' & E' & Ok' & Ea' & Ec'); cbn [argv_heap argv_inline argv_cap argc];
          [done|done|rewrite length_app, length_replicate; lia|lia|lia|].
        exists true, a'. split_and!; [done|done| |done]. rewrite Ea'. f_equal.
        cbn [argc]. unfold op_args, args_store. rewrite Eh. by rewrite take_app_le by lia.
      * exists false, a. unfold args_ok, args_store. rewrite Eh. eauto 10.
    + destruct (push_arg_heap_spec a h s) as (a' & -> & Ok' & Ea' & Ec'); [done|done|lia|lia|lia|].
      exists true, a'. split_and!; [done|done| |done].
      rewrite Ea'. unfold op_args, args_store. by rewrite Eh.
  - unfold kInlineArgv. zsplit.
    + exists true. eexists. split; [done|]. unfold args_ok, op_args, args_store.
      cbn -[Z.of_nat]. rewrite length_insert, Eh. split_and!; try done; try lia.
      replace (Z.to_nat (argc a + 1)) with (S (Z.to_nat (argc a))) by lia.
      apply take_snoc_insert. lia.
    + rewrite u32_small by lia. rewrite Hh. rewrite (proj2 (Z.ltb_lt 0 (argc a + 1))) by lia.
      cbn [Z.eqb]. destruct (grow_argv_spec 32 (8 * 2) (argc a + 1)) as (c & -> & Hc1 & Hc2);
        [lia|lia|change (2 ^ Z.of_nat 32) with 4294967296; lia|].
      cbn [mbind option_bind]. destruct (alloc c) eqn:Ea.
      * destruct (push_arg_heap_spec
          (mkArgs (argv_inline a)
             (Some (take 8 (argv_inline a) ++ replicate (Z.to_nat c - 8) empty_slice)) c (argc a))
          (take 8 (argv_inline a) ++ replicate (Z.to_nat c - 8) empty_slice) s)
          as (a' & E' & Ok' & Ea' & Ec'); cbn [argv_heap argv_inline argv_cap argc];
          [done|done|rewrite length_app, length_take, length_replicate; lia|lia|lia|].
        exists true, a'. split_and!; [done|done| |done]. rewrite Ea'. f_equal.
        cbn [argc]. unfold op_args, args_store. rewrite Eh.
        rewrite take_app_le by (rewrite length_take; lia). rewrite take_take. f_equal. lia.
      * exists false, a. unfold args_ok, args_store. rewrite Eh. eauto 10.
Qed.

(** [arg(i)] reads the i-th pushed argument. *)
Lemma arg_spec a i :
  args_ok a -> 0 <= i < argc a -> arg a i = op_args a !! Z.to_nat i.
Proof.
  intros (_ & Hc & _) Hi. unfold arg, op_args, args_store in *.
  rewrite (proj2 (Z.ltb_ge i 0)) by lia. rewrite lookup_take_lt by lia.
  by destruct (argv_heap a).
Qed.

(** * Lemmas: the read cut *)
Lemma land_high_lor_low now lo :
  0 <= now < 18446744073709551616 -> 0 <= lo < 4294967296 ->
  Z.lor (Z.land now (u64 (Z.lnot 4294967295))) lo = now - now mod 4294967296 + lo.
Proof.
  intros Hn Hl.
  assert (Z.land now (u64 (Z.lnot 4294967295)) = Z.shiftl (Z.shiftr now 32) 32) as ->.
  { apply Z.bits_inj'. intros i Hi. rewrite Z.land_spec.
    change (u64 (Z.lnot 4294967295)) with (Z.shiftl (Z.ones 32) 32).
    destruct (decide (i < 32)).
    - rewrite !Z.shiftl_spec_low by lia. by rewrite andb_false_r.
    - rewrite !Z.shiftl_spec, Z.shiftr_spec by lia.
      replace (i - 32 + 32) with i by lia. destruct (decide (i - 32 < 32)).
      + rewrite Z.ones_spec_low by lia. by rewrite andb_true_r.
      + rewrite <- (Z.mod_small now (2 ^ 64)) by (change (2^64) with 18446744073709551616; lia).
        rewrite Z.mod_pow2_bits_high by lia. done. }
  assert (Z.land (Z.shiftl (Z.shiftr now 32) 32) lo = 0) as Hz.
  { apply Z.bits_inj'. intros i Hi. rewrite Z.land_spec, Z.bits_0.
    destruct (decide (i < 32)); [by rewrite Z.shiftl_spec_low|].
    rewrite <- (Z.mod_small lo (2 ^ 32)) by (change (2 ^ 32) with 4294967296; lia).
    rewrite Z.mod_pow2_bits_high by lia. by rewrite andb_false_r. }
  rewrite <- Z.lxor_lor, <- Z.add_nocarry_lxor by done.
  rewrite Z.shiftl_mul_pow2, Z.shiftr_div_pow2 by lia. change (2 ^ 32) with 4294967296.
  Z.div_mod_to_equations; lia.
Qed.

(** The widened cut is the only value congruent to the stamp in the 2^32 window ending at [now]. *)
Lemma read_cut_window c cut now :
  0 <= cut <= now -> now < 18446744073709551616 ->
  let r := read_cut (set_read_cut c cut) now in
  r mod 4294967296 = cut mod 4294967296 /\ now - 4294967296 < r <= now.
Proof.
  intros Hc Hn. unfold read_cut, set_read_cut; cbn [read_cut_lo].
  pose proof (u32_range cut) as Hr.
  rewrite land_high_lor_low by lia. unfold u32 in *.
  destruct (now <? _) eqn:E; zcmp.
  - rewrite u64_small by (Z.div_mod_to_equations; lia).
    Z.div_mod_to_equations; lia.
  - Z.div_mod_to_equations; lia.
Qed.

(** * Lemmas: the sink *)

(** Bytes written so far, the coded reply aside: the direct region, then the spill. *)
Definition sink_out (s : Sink) : bytes :=
  (match direct (sk_op s) with
   | Some d => take (Z.to_nat (direct_len (sk_op s))) (drop (Z.to_nat d) (sb_mem (sk_fill s)))
   | None => []
   end) ++ sb_bytes (reply (sk_op s)).

(** The direct region starts at the fill buffer's frontier and stays inside its block; a coded
    reply excludes it. *)
Definition sink_ok (s : Sink) : Prop :=
  let o := sk_op s in
  sb_ok (reply o) /\ sb_ok (sk_fill s) /\
  0 <= direct_len o <= direct_cap o /\ direct_cap o < 4294967296 /\
  match direct o with
  | Some d => d = sb_len (sk_fill s) /\ d + direct_cap o <= sb_cap (sk_fill s) /\
              reply_code o = RNone
  | None => direct_len o = 0
  end.
Definition sink_fits (s : Sink) (n : Z) : Prop := sb_fits (reply (sk_op s)) n.

Lemma arm_direct_ok fill o :
  sb_ok fill -> sb_ok (reply o) -> sb_empty fill = true -> sb_cap fill < 4294967296 ->
  reply_code o = RNone -> direct_len o = 0 ->
  sink_ok (mkSink fill (arm_direct fill o) false).
Proof.
  intros Hf Hr He Hc Hn Hl. unfold sb_empty in He. zcmp.
  unfold sink_ok, arm_direct; cbn -[Z.of_nat]. unfold sb_ok in Hf.
  rewrite u32_small by lia. split_and!; try done; try (unfold sb_ok); lia.
Qed.

(** What every sink operation leaves alone. *)
Definition sink_same (s s' : Sink) : Prop :=
  sb_bytes (sk_fill s') = sb_bytes (sk_fill s) /\
  reply_code (sk_op s') = reply_code (sk_op s) /\
  reply_ival (sk_op s') = reply_ival (sk_op s) /\
  reply_code_ok (sk_op s') = reply_code_ok (sk_op s).

Lemma take_past_write (m bs : bytes) (o k : nat) :
  (k <= o)%nat -> (o <= length m)%nat ->
  take k (take o m ++ bs ++ drop (o + length bs) m) = take k m.
Proof.
  intros Hk Ho. rewrite take_app_le by (rewrite length_take; lia).
  rewrite take_take. f_equal. lia.
Qed.

(** Outcome of reserve(r), a store of [bs] at the cursor, and advance past it. *)
Definition sink_writes (s : Sink) (r : Z) (bs : bytes) : Prop :=
  exists s1 s2, sink_reserve s r = Some s1 /\ sink_poke s1 0 bs = Some s2 /\
    let s' := sink_advance s2 (Z.of_nat (length bs)) in
    sink_ok s' /\ sink_out s' = sink_out s ++ bs /\ sink_same s s' /\
    sb_len (reply (sk_op s')) <= sb_len (reply (sk_op s)) + Z.of_nat (length bs).

Definition takes_direct (o : OpReply) (r : Z) : bool :=
  (match direct o with Some _ => true | None => false end) && sb_empty (reply o) &&
  (direct_len o + r <=? direct_cap o).

Lemma sink_write_direct s r bs :
  sink_ok s -> Z.of_nat (length bs) <= r -> takes_direct (sk_op s) r = true ->
  sink_writes s r bs.
Proof.
  destruct s as [fill o ld]. intros (Hr & Hf & Hl & Hc & Hd) Hb T. cbn [sk_fill sk_op] in *.
  exists (mkSink fill o true). unfold sink_reserve; cbn [sk_fill sk_op].
  fold (takes_direct o r). rewrite T. unfold takes_direct, sb_empty in T.
  unfold sink_poke; cbn [last_direct sk_op sk_fill].
  destruct (direct o) as [d|] eqn:Ed; [|done]. cbn [andb] in T. zcmp.
  destruct Hd as (-> & Hcap & Hcode). destruct Hf as (Hf1 & Hf2 & Hf3).
  cbn [mbind option_bind]. rewrite mem_write_Some by lia.
  cbn [mbind option_bind]. eexists. split; [done|]. split; [done|].
  unfold sink_advance, sink_ok, sink_out, sink_same, sb_ok, sb_bytes, with_direct_len;
    cbn -[Z.of_nat Z.pow].
  rewrite Ed. cbn -[Z.of_nat Z.pow]. rewrite u32_small by lia.
  rewrite !length_app, length_take, length_drop. unfold sb_ok in Hr.
  rewrite take_past_write by lia.
  assert (Z.to_nat (sb_len (reply o)) = 0%nat) as -> by lia.
  split_and!; try done; try lia. rewrite !take_0, !app_nil_r.
  set (fl := Z.to_nat (sb_len fill)). set (dl := Z.to_nat (direct_len o)).
  replace (Z.to_nat (sb_len fill + direct_len o + 0)) with (fl + dl)%nat by lia.
  replace (Z.to_nat (direct_len o + Z.of_nat (length bs))) with (dl + length bs)%nat by lia.
  rewrite drop_app_le by (rewrite length_take; lia).
  rewrite <- take_drop_commute.
  replace (dl + length bs)%nat
    with (length (take dl (drop fl (sb_mem fill))) + length bs)%nat
    by (rewrite length_take, length_drop; lia).
  rewrite take_app_add, take_app_length. done.
Qed.

Lemma sink_write_spill s r bs :
  sink_ok s -> sink_fits s r -> Z.of_nat (length bs) <= r -> takes_direct (sk_op s) r = false ->
  sink_writes s r bs.
Proof.
  destruct s as [fill o ld]. intros (Hr & Hf & Hl & Hc & Hd) Hfit Hb T.
  cbn [sk_fill sk_op] in *. unfold sink_fits in Hfit; cbn [sk_op] in Hfit.
  destruct (sb_write_spec (reply o) r bs Hr Hfit Hb) as (b1 & b2 & E1 & E2 & Hok & Hby & Hlen).
  exists (mkSink fill (with_reply o b1) false). unfold sink_reserve; cbn [sk_fill sk_op].
  fold (takes_direct o r). rewrite T, E1. cbn [mbind option_bind].
  unfold sink_poke, with_reply; cbn [last_direct sk_op sk_fill reply]. rewrite E2.
  cbn [mbind option_bind]. eexists. split; [done|]. split; [done|].
  unfold sink_advance, sink_ok, sink_out, sink_same; cbn -[Z.of_nat sb_advance].
  rewrite Hby, app_assoc. split_and!; try done; try lia; cbn in Hlen |- *; lia.
Qed.

Lemma sink_write_spec s r bs :
  sink_ok s -> sink_fits s r -> Z.of_nat (length bs) <= r -> sink_writes s r bs.
Proof.
  intros. destruct (takes_direct (sk_op s) r) eqn:T.
  - by apply sink_write_direct.
  - by apply sink_write_spill.
Qed.

(** The cursor of a successful [reserve] really has the reserved bytes behind it. *)
Lemma sink_cursor_spec s n s1 :
  sink_ok s -> sink_fits s n -> sink_reserve s n = Some s1 ->
  exists d, sink_cursor s1 n = Some d /\ Z.of_nat (length d) = n.
Proof.
  destruct s as [fill o ld]. intros (Hr & Hf & Hl & Hc & Hd) Hfit E.
  unfold sink_fits in Hfit. cbn [sk_fill sk_op] in *.
  unfold sink_reserve in E; cbn [sk_fill sk_op] in E. fold (takes_direct o n) in E.
  destruct (takes_direct o n) eqn:T.
  - injection E as <-. unfold sink_cursor; cbn [last_direct sk_op sk_fill].
    unfold takes_direct in T. destruct (direct o) as [d|] eqn:Ed; [|done].
    cbn [andb] in T. zcmp. destruct Hd as (-> & Hcap & Hcode), Hfit as [Hn _].
    cbn [mbind option_bind]. unfold sb_ok in Hf. rewrite mem_read_Some by lia.
    eexists. split; [done|]. rewrite length_take, length_drop. lia.
  - destruct (sb_reserve_spec (reply o) n Hr Hfit) as (b1 & E1 & Hok & Hcap & _ & Hlen).
    rewrite E1 in E. cbn in E. injection E as <-. unfold sink_cursor; cbn -[Z.of_nat].
    unfold sb_ok in Hok. destruct Hfit as [Hn _]. rewrite mem_read_Some by lia.
    eexists. split; [done|]. rewrite length_take, length_drop. lia.
Qed.

Lemma sink_append_spec s bs :
  sink_ok s -> sink_fits s (Z.of_nat (length bs)) ->
  exists s', sink_append s bs = Some s' /\ sink_ok s' /\ sink_out s' = sink_out s ++ bs /\
    sink_same s s' /\
    sb_len (reply (sk_op s')) <= sb_len (reply (sk_op s)) + Z.of_nat (length bs).
Proof.
  intros Hok Hf. unfold sink_append.
  destruct (sink_write_spec s (Z.of_nat (length bs)) bs Hok Hf) as (s1 & s2 & E1 & E2 & H); [lia|].
  destruct (sink_cursor_spec s _ s1 Hok Hf E1) as (d & Ed & Hd).
  rewrite E1. cbn [mbind option_bind]. rewrite Ed. cbn [mbind option_bind].
  assert ((if kInlineByteCopyMax <? Z.of_nat (length bs)
           then copy_at (Z.of_nat (length bs)) bs 0 d
           else bytes_copy d bs (Z.of_nat (length bs))) = Some bs) as ->.
  { assert (bytes_copy d bs (Z.of_nat (length bs)) = Some bs) as Hcp
      by (apply bytes_copy_answer; lia).
    zsplit; [|done]. unfold bytes_copy in Hcp. unfold kInlineByteCopyMax in *.
    rewrite (proj2 (Z.leb_le 8 (Z.of_nat (length bs)))), (proj2 (Z.ltb_lt 64 _)) in Hcp by lia.
    done. }
  cbn [mbind option_bind]. rewrite E2. cbn [mbind option_bind]. eauto.
Qed.

Lemma sink_code_spec s c v s' :
  sink_ok s -> sink_code s c v = Some s' ->
  sink_ok s' /\ sink_out s = [] /\ sink_out s' = [] /\ reply_code (sk_op s) = RNone /\
  reply_code (sk_op s') = c /\ reply_ival (sk_op s') = v /\
  sb_bytes (sk_fill s') = sb_bytes (sk_fill s) /\
  reply (sk_op s') = reply (sk_op s).
Proof.
  destruct s as [fill o ld]. intros (Hr & Hf & Hl & Hc & Hd). unfold sink_code; cbn [sk_op sk_fill] in *.
  destruct (reply_code_ok o); [|done]. cbn [negb].
  destruct (bool_decide (reply_code o = RNone)) eqn:E1; [|done].
  destruct (direct_len o =? 0) eqn:E2; [|done]. destruct (sb_empty (reply o)) eqn:E3; [|done].
  cbn [negb orb]. intros [= <-]. apply bool_decide_eq_true_1 in E1. unfold sb_empty in E3. zcmp.
  unfold sink_ok, sink_out, sb_bytes; cbn -[Z.pow]. rewrite E3, E2.
  change (Z.to_nat 0) with 0%nat. rewrite !take_0.
  split_and!; try done; try lia. by destruct (direct o).
Qed.

(** * Properties *)

(** Argument vectors refine lists: pushing onto a well-formed vector, through the inline array,
    the spill to the heap and each doubling, either appends the slice to the argument list or, on a
    failed allocation, leaves the vector as it was; arg(i) then reads the i-th pushed slice. *)
Theorem push_arg_appends alloc a s :
  args_ok a -> argc a < 1073741824 ->
  exists ok a', push_arg alloc a s = Some (ok, a') /\ args_ok a' /\
    (if ok then op_args a' = op_args a ++ [s] /\ arg a' (argc a) = Some s
     else a' = a /\ exists n, alloc n = false).
Proof.
  intros Ha Hc. destruct (push_arg_spec alloc a s Ha Hc) as (ok & a' & E & Ha' & H).
  exists ok, a'. split; [done|]. split; [done|]. destruct ok; [|done]. destruct H as [H Hn].
  split; [done|]. assert (0 <= argc a <= Z.of_nat (length (args_store a))) as Hr by apply Ha.
  rewrite arg_spec by (done || lia). rewrite H, lookup_app_r; unfold op_args; rewrite length_take;
    [|lia]. by replace (_ - _)%nat with 0%nat by lia.
Qed.
Lemma push_arg_appends_witness :
  exists ok a', push_arg (fun _ => true) args_new (mkSlice 4 3) = Some (ok, a') /\ args_ok a' /\
    (if ok then op_args a' = op_args args_new ++ [mkSlice 4 3] /\ arg a' (argc args_new) = Some (mkSlice 4 3)
     else a' = args_new /\ exists n : Z, (fun _ => true) n = false).
Proof. apply (push_arg_appends (fun _ => true) args_new (mkSlice 4 3)); unfold args_ok; cbn; lia. Defined.

(** The pinned read cut, of which only 32 bits are kept, is recovered exactly while fewer than
    2^32 commits separate the stamp from the reader. *)
Theorem read_cut_exact c cut now :
  0 <= cut <= now -> now < 18446744073709551616 -> now - cut < 4294967296 ->
  read_cut (set_read_cut c cut) now = cut /\ has_read_cut (set_read_cut c cut) = true.
Proof.
  intros Hc Hn Hd. destruct (read_cut_window c cut now Hc Hn) as [Hm Hw]. split.
  - set (r := read_cut _ _) in *. clearbody r. Z.div_mod_to_equations; lia.
  - unfold has_read_cut, set_read_cut, has_flag, mark_flag. cbn [cut_flags].
    apply negb_true_iff, Z.eqb_neq. rewrite Z.land_lor_distr_l.
    change (Z.land kReadCut kReadCut) with 32. intros [_ ?]%Z.lor_eq_0_iff. lia.
Qed.
Lemma read_cut_exact_witness :
  read_cut (set_read_cut (mkCut 0 0) 4294967290) 4294967300 = 4294967290 /\
  has_read_cut (set_read_cut (mkCut 0 0) 4294967290) = true.
Proof. apply (read_cut_exact (mkCut 0 0) 4294967290 4294967300); lia. Defined.
(** Past that distance the answer is a cut newer than the stamp. *)
Example read_cut_past_window :
  read_cut (set_read_cut (mkCut 0 0) 7) 4294967310 = 4294967303.
Proof. vm_compute. reflexivity. Qed.
