(* ===== verification/RespParse.v ===== *)
(** resp.h, request side: [parse_len_crlf] and [resp_parse_t] with its two instantiations.

    The read buffer is the list of the [len] bytes received so far; [pos] is the parse cursor.
    Arguments are slices into that buffer, pushed into the operation's argument vector. *)
From S2P Require Import Prelude Slice Decimal Op.

Inductive ParseResult := POk | PIncomplete | PError | PEmpty.
#[global] Instance ParseResult_eq_dec : EqDecision ParseResult.
Proof. solve_decision. Defined.

(** [Ok] carries the advanced position and the parsed length. *)
Inductive LenResult := LenOk (pos out : Z) | LenIncomplete | LenError.

(** The scan loop over the bytes from index [i] on; [char] is signed in the source, so a byte
    of 128 or more fails [c < '0'] there and [c > '9'] here: both are Error. *)
Fixpoint parse_len_loop (rest : bytes) (i v digits maxv : Z) : LenResult :=
  match rest with
  | [] => LenIncomplete
  | c :: rest =>
      if c =? CR then
        match rest with
        | [] => LenIncomplete
        | d :: _ => if negb (d =? LF) || (digits =? 0) then LenError else LenOk (i + 2) v
        end
      else if (c <? 48) || (57 <? c) then LenError
      else
        let v := u64 (u64 (v * 10) + (c - 48)) in
        if maxv <? v then LenError else parse_len_loop rest (i + 1) v (digits + 1) maxv
  end.

Definition parse_len_crlf (buf : bytes) (pos maxv : Z) : LenResult :=
  parse_len_loop (drop (Z.to_nat pos) buf) pos 0 0 maxv.

Fixpoint find_crlf_loop (rest : bytes) (i : Z) : option Z :=
  match rest with
  | c :: ((d :: _) as rest') =>
      if (c =? CR) && (d =? LF) then Some i else find_crlf_loop rest' (i + 1)
  | _ => None
  end.
Definition find_crlf (buf : bytes) (from : Z) : option Z :=
  find_crlf_loop (drop (Z.to_nat from) buf) from.

(** [while (i < eol && p(buf[i])) i++], [n] bounding the rounds left. *)
Fixpoint scan (p : Z -> bool) (n : nat) (buf : bytes) (i eol : Z) : Z :=
  match n with
  | O => i
  | S n =>
      if i <? eol then
        match buf !! Z.to_nat i with
        | Some c => if p c then scan p n buf (i + 1) eol else i
        | None => i
        end
      else i
  end.
Definition is_blank (c : Z) : bool := (c =? 32) || (c =? 9).

(** What a parse returns: the result, the cursor, the arguments and the error text. *)
Record ParseOut := mkOut {
  po_result : ParseResult; po_pos : Z; po_args : OpArgs; po_err : string }.

Section Parse.
Context (alloc : Z -> bool).

(** The inline form: whitespace-separated words up to [eol]. *)
Fixpoint inline_loop (n : nat) (buf : bytes) (i eol : Z) (a : OpArgs)
    : option (bool * OpArgs) :=
  if i <? eol then
    match n with
    | O => None
    | S n =>
        let b := scan is_blank (Z.to_nat (eol - i)) buf i eol in
        let e := scan (fun c => negb (is_blank c)) (Z.to_nat (eol - b)) buf b eol in
        if b <? e then
          '(ok, a) ← push_arg alloc a (mkSlice b (e - b));
          if ok : bool then inline_loop n buf e eol a else Some (false, a)
        else inline_loop n buf e eol a
    end
  else Some (true, a).

Definition parse_inline (buf : bytes) (pos : Z) (a : OpArgs) : option ParseOut :=
  match find_crlf buf pos with
  | None => Some (mkOut PIncomplete pos a "")
  | Some eol =>
      '(ok, a) ← inline_loop (Z.to_nat (eol - pos)) buf pos eol a;
      if ok : bool then
        Some (mkOut (if argc a =? 0 then PEmpty else POk) (eol + 2) a "")
      else Some (mkOut PError pos a "ERR out of memory parsing inline command")
  end.

(** The multibulk loop: [n] arguments left, cursor [p]. *)
Fixpoint bulk_loop (n : nat) (buf : bytes) (start p : Z) (max_bulk : Z) (a : OpArgs)
    : option ParseOut :=
  match n with
  | O => Some (mkOut POk p a "")
  | S n =>
      match buf !! Z.to_nat p with
      | None => Some (mkOut PIncomplete start a "")
      | Some c =>
          if negb (c =? 36) then Some (mkOut PError start a "ERR expected '$'")
          else match parse_len_crlf buf (p + 1) max_bulk with
               | LenIncomplete => Some (mkOut PIncomplete start a "")
               | LenError => Some (mkOut PError start a "ERR invalid bulk length")
               | LenOk p blen =>
                   if Z.of_nat (length buf) <? p + blen + 2
                   then Some (mkOut PIncomplete start a "")
                   else
                     '(ok, a) ← push_arg alloc a (mkSlice p (u32 blen));
                     if ok : bool then bulk_loop n buf start (p + u32 blen + 2) max_bulk a
                     else Some (mkOut PError start a "ERR out of memory parsing command")
               end
      end
  end.

Definition resp_parse_t (limited : bool) (buf : bytes) (pos : Z) (a : OpArgs)
    (max_multibulk max_bulk : Z) : option ParseOut :=
  let max_multibulk := if limited then max_multibulk else 1024 * 1024 in
  let max_bulk := if limited then max_bulk else 512 * 1024 * 1024 in
  match buf !! Z.to_nat pos with
  | None => Some (mkOut PIncomplete pos a "")
  | Some c =>
      if negb (c =? 42) then parse_inline buf pos a
      else match parse_len_crlf buf (pos + 1) max_multibulk with
           | LenIncomplete => Some (mkOut PIncomplete pos a "")
           | LenError => Some (mkOut PError pos a "ERR invalid multibulk length")
           | LenOk p nargs =>
               if nargs =? 0 then Some (mkOut PError pos a "ERR invalid multibulk length")
               else bulk_loop (Z.to_nat nargs) buf pos p max_bulk a
           end
  end.

Definition resp_parse (buf : bytes) (pos : Z) (a : OpArgs) : option ParseOut :=
  resp_parse_t false buf pos a 0 0.
Definition resp_parse_limited (buf : bytes) (pos : Z) (a : OpArgs) (max_multibulk max_bulk : Z)
    : option ParseOut :=
  resp_parse_t true buf pos a max_multibulk max_bulk.
End Parse.

(** * Specification: the wire form of a command *)
Definition enc_len (marker : Z) (n : Z) : bytes :=
  match u64_to_dec n with Some ds => marker :: ds ++ CRLF | None => [] end.
Definition enc_bulk (s : bytes) : bytes := enc_len 36 (Z.of_nat (length s)) ++ s ++ CRLF.
Definition enc_command (args : list bytes) : bytes :=
  enc_len 42 (Z.of_nat (length args)) ++ concat (enc_bulk <$> args).

(** The slices denote the given byte strings. *)
Definition denote (buf : bytes) (ss : list Slice) (args : list bytes) : Prop :=
  Forall2 (fun s x => slice_bytes buf s = Some x) ss args.


(** * Lemmas: the length field *)
Lemma fold_dec_mono ds v : Forall is_digit ds -> 0 <= v -> v <= fold_left dec_step ds v.
Proof.
  intros H. revert v. induction H as [|c ds Hc H IH]; intros v Hv; cbn; [lia|].
  unfold is_digit in Hc. etrans; [|apply IH]; unfold dec_step; lia.
Qed.

Lemma parse_len_digits ds rest i v d maxv :
  Forall is_digit ds -> 0 <= v -> 0 <= d ->
  fold_left dec_step ds v <= maxv -> maxv <= 1152921504606846976 ->
  parse_len_loop (ds ++ CRLF ++ rest) i v d maxv =
    if d + Z.of_nat (length ds) =? 0 then LenError
    else LenOk (i + Z.of_nat (length ds) + 2) (fold_left dec_step ds v).
Proof.
  intros H. revert i v d. induction H as [|c ds Hc H IH]; intros i v d Hv Hd Hm Hx.
  - cbn. rewrite !Z.add_0_r. done.
  - unfold is_digit in Hc. pose proof (fold_dec_mono ds (dec_step v c) H) as Hmono.
    cbn -[Z.of_nat] in Hm |- *. rewrite (proj2 (Z.eqb_neq c CR)) by (unfold CR; lia).
    assert (0 <= v * 10 + (c - 48) <= maxv) as Hb by (unfold dec_step in *; lia).
    rewrite (proj2 (Z.ltb_ge c 48)), (proj2 (Z.ltb_ge 57 c)) by lia. cbn [orb].
    rewrite (u64_small (v * 10)), u64_small by lia.
    rewrite (proj2 (Z.ltb_ge maxv _)) by lia.
    change (v * 10 + (c - 48)) with (dec_step v c).
    rewrite IH by (unfold dec_step in *; lia).
    rewrite Nat2Z.inj_succ. rewrite !(proj2 (Z.eqb_neq _ 0)) by lia. f_equal; lia.
Qed.

Lemma parse_len_ext rest more i v d maxv :
  parse_len_loop rest i v d maxv <> LenIncomplete ->
  parse_len_loop (rest ++ more) i v d maxv = parse_len_loop rest i v d maxv.
Proof.
  revert i v d. induction rest as [|c rest IH]; intros i v d; cbn; [done|].
  destruct (c =? CR); [destruct rest; done|].
  destruct ((c <? 48) || (57 <? c)); [done|]. destruct (maxv <? _); [done|]. apply IH.
Qed.

Lemma parse_len_bounds rest i v d maxv p out :
  0 <= v -> 0 <= d -> (0 < d -> v <= maxv) ->
  parse_len_loop rest i v d maxv = LenOk p out ->
  i + 2 <= p <= i + Z.of_nat (length rest) /\ 0 <= out <= maxv.
Proof.
  revert i v d. induction rest as [|c rest IH]; intros i v d Hv Hd Hm; cbn -[Z.of_nat]; [done|].
  destruct (c =? CR).
  - destruct rest as [|e rest]; [done|]. destruct (negb (e =? LF) || (d =? 0)) eqn:E; [done|].
    intros [= <- <-]. apply orb_false_iff in E as [_ E]. zcmp. cbn [length]. lia.
  - destruct ((c <? 48) || (57 <? c)); [done|]. destruct (maxv <? _) eqn:E; [done|]. zcmp.
    intros H. apply IH in H; [|apply u64_range|lia|lia]. lia.
Qed.

Lemma parse_len_crlf_ext buf more pos maxv :
  0 <= pos <= Z.of_nat (length buf) -> parse_len_crlf buf pos maxv <> LenIncomplete ->
  parse_len_crlf (buf ++ more) pos maxv = parse_len_crlf buf pos maxv.
Proof.
  intros Hp H. unfold parse_len_crlf in *. rewrite drop_app_le by lia. by apply parse_len_ext.
Qed.

Lemma parse_len_crlf_bounds buf pos maxv p out :
  0 <= pos <= Z.of_nat (length buf) -> parse_len_crlf buf pos maxv = LenOk p out ->
  pos + 2 <= p <= Z.of_nat (length buf) /\ 0 <= out <= maxv.
Proof.
  intros Hp H. apply parse_len_bounds in H; [|lia..]. rewrite length_drop in H. lia.
Qed.

(** * Lemmas: scanning *)
Lemma find_crlf_loop_ext rest more i e :
  find_crlf_loop rest i = Some e -> find_crlf_loop (rest ++ more) i = Some e.
Proof.
  revert i. induction rest as [|c [|d rest] IH]; intros i; [done|done|].
  cbn [find_crlf_loop app]. destruct ((c =? CR) && (d =? LF)); [done|]. apply IH.
Qed.

Lemma find_crlf_loop_bounds rest i e :
  find_crlf_loop rest i = Some e -> i <= e /\ e + 2 <= i + Z.of_nat (length rest).
Proof.
  revert i. induction rest as [|c [|d rest] IH]; intros i; [done|done|].
  cbn [find_crlf_loop]. destruct ((c =? CR) && (d =? LF)).
  - intros [= <-]. cbn [length]. lia.
  - intros H. apply IH in H. cbn [length] in *. lia.
Qed.

Lemma find_crlf_ext buf more pos e :
  0 <= pos <= Z.of_nat (length buf) -> find_crlf buf pos = Some e ->
  find_crlf (buf ++ more) pos = Some e.
Proof. intros Hp. unfold find_crlf. rewrite drop_app_le by lia. apply find_crlf_loop_ext. Qed.

Lemma find_crlf_bounds buf pos e :
  0 <= pos <= Z.of_nat (length buf) -> find_crlf buf pos = Some e ->
  pos <= e /\ e + 2 <= Z.of_nat (length buf).
Proof.
  intros Hp H. apply find_crlf_loop_bounds in H. rewrite length_drop in H. lia.
Qed.

Lemma scan_ext p n buf more i eol :
  0 <= i -> eol <= Z.of_nat (length buf) -> scan p n (buf ++ more) i eol = scan p n buf i eol.
Proof.
  intros Hi He. revert i Hi. induction n as [|n IH]; intros i Hi; cbn; [done|].
  destruct (i <? eol) eqn:E; zcmp; [|done]. rewrite lookup_app_l by lia.
  destruct (buf !! Z.to_nat i); [|done]. destruct (p z); [|done]. apply IH. lia.
Qed.

(** The scanned segment: every byte satisfies [p], and the byte stopped at does not. *)
Lemma scan_spec p n buf i eol :
  0 <= i <= eol -> eol <= Z.of_nat (length buf) -> eol - i <= Z.of_nat n ->
  let r := scan p n buf i eol in
  i <= r <= eol /\
  Forall (fun c => p c = true) (take (Z.to_nat (r - i)) (drop (Z.to_nat i) buf)) /\
  (r < eol -> exists c, buf !! Z.to_nat r = Some c /\ p c = false).
Proof.
  intros Hi He. revert i Hi. induction n as [|n IH]; intros i Hi Hn; cbn.
  - assert (i = eol) as -> by lia. rewrite Z.sub_diag. split_and!; [lia|lia|done|lia].
  - destruct (i <? eol) eqn:E; zcmp.
    + destruct (lookup_lt_is_Some_2 buf (Z.to_nat i)) as [c Hc]; [lia|]. rewrite Hc.
      destruct (p c) eqn:Ep.
      * destruct (IH (i + 1)) as (Hr & Hf & Hs); [lia|lia|]. split_and!; [lia|lia| |done].
        rewrite (drop_S _ _ _ Hc).
        replace (Z.to_nat (scan p n buf (i + 1) eol - i))
          with (S (Z.to_nat (scan p n buf (i + 1) eol - (i + 1)))) by lia.
        cbn. constructor; [done|]. by replace (S (Z.to_nat i)) with (Z.to_nat (i + 1)) by lia.
      * rewrite Z.sub_diag. split_and!; [lia|lia|done|]. eauto.
    + assert (i = eol) as -> by lia. rewrite Z.sub_diag. split_and!; [lia|lia|done|lia].
Qed.

Section ParseLemmas.
Context (alloc : Z -> bool).

Lemma inline_loop_ext n buf more i eol a :
  0 <= i -> eol <= Z.of_nat (length buf) ->
  inline_loop alloc n (buf ++ more) i eol a = inline_loop alloc n buf i eol a.
Proof.
  intros Hi He. revert i a Hi. induction n as [|n IH]; intros i a Hi; cbn; [done|].
  destruct (i <? eol) eqn:E; zcmp; [|done]. rewrite scan_ext by lia.
  destruct (scan_spec is_blank (Z.to_nat (eol - i)) buf i eol) as (Hb & _); [lia|lia|lia|].
  set (b := scan is_blank _ buf i eol) in *. rewrite scan_ext by lia.
  destruct (scan_spec (fun c => negb (is_blank c)) (Z.to_nat (eol - b)) buf b eol)
    as (He' & _); [lia|lia|lia|].
  set (e := scan _ _ buf b eol) in *.
  destruct (b <? e); [|apply IH; lia].
  destruct (push_arg alloc a _) as [[[] a']|]; cbn; [|done|done]. apply IH. lia.
Qed.

Lemma bulk_loop_ext n buf more start p mb a o :
  0 <= p <= Z.of_nat (length buf) ->
  bulk_loop alloc n buf start p mb a = Some o -> po_result o <> PIncomplete ->
  bulk_loop alloc n (buf ++ more) start p mb a = Some o.
Proof.
  revert p a. induction n as [|n IH]; intros p a Hp; cbn -[Z.of_nat]; [done|].
  destruct (buf !! Z.to_nat p) as [c|] eqn:Ec; [|intros [= <-]; done].
  rewrite (lookup_app_l_Some _ _ _ _ Ec). destruct (negb (c =? 36)); [done|].
  apply lookup_lt_Some in Ec.
  destruct (parse_len_crlf buf (p + 1) mb) as [q bl| |] eqn:El;
    [|intros [= <-]; done|rewrite parse_len_crlf_ext, El by (lia || congruence); done].
  rewrite parse_len_crlf_ext, El by (lia || congruence).
  apply parse_len_crlf_bounds in El; [|lia].
  destruct (_ <? q + bl + 2) eqn:E1; zcmp; [intros [= <-]; done|].
  rewrite length_app, (proj2 (Z.ltb_ge _ _)) by lia.
  destruct (push_arg alloc a _) as [[[] a']|]; cbn -[Z.of_nat]; [|done|done].
  apply IH. pose proof (u32_range bl). unfold u32 in *. Z.div_mod_to_equations; lia.
Qed.

(** Bytes that arrive later never change a result that was already reached. *)
Lemma resp_parse_ext limited buf more pos a mm mb o :
  0 <= pos <= Z.of_nat (length buf) ->
  resp_parse_t alloc limited buf pos a mm mb = Some o -> po_result o <> PIncomplete ->
  resp_parse_t alloc limited (buf ++ more) pos a mm mb = Some o.
Proof.
  intros Hp. unfold resp_parse_t.
  destruct (buf !! Z.to_nat pos) as [c|] eqn:Ec; [|intros [= <-]; done].
  rewrite (lookup_app_l_Some _ _ _ _ Ec). apply lookup_lt_Some in Ec.
  destruct (negb (c =? 42)).
  - unfold parse_inline. destruct (find_crlf buf pos) as [e|] eqn:Ef; [|intros [= <-]; done].
    rewrite (find_crlf_ext _ _ _ _ Hp Ef). apply find_crlf_bounds in Ef; [|done].
    rewrite inline_loop_ext by lia. done.
  - destruct (parse_len_crlf buf (pos + 1) _) as [q n| |] eqn:El;
      [|intros [= <-]; done|rewrite parse_len_crlf_ext, El by (lia || congruence); done].
    rewrite parse_len_crlf_ext, El by (lia || congruence).
    apply parse_len_crlf_bounds in El; [|lia].
    destruct (n =? 0); [done|]. apply bulk_loop_ext. lia.
Qed.

(** ** Bounds of what is accepted *)
Definition slice_in (lo hi : Z) (s : Slice) : Prop :=
  lo <= sl_p s /\ 0 <= sl_n s /\ sl_p s + sl_n s <= hi.

Lemma slice_in_mono lo hi lo' hi' s :
  slice_in lo hi s -> lo' <= lo -> hi <= hi' -> slice_in lo' hi' s.
Proof. unfold slice_in. lia. Qed.

(** One pushed argument keeps the vector well formed and in range. *)
Lemma push_arg_in a s lo hi :
  args_ok a -> argc a < 1073741824 -> slice_in lo hi s ->
  Forall (slice_in lo hi) (op_args a) ->
  exists ok a', push_arg alloc a s = Some (ok, a') /\ args_ok a' /\
    Forall (slice_in lo hi) (op_args a') /\ argc a <= argc a' <= argc a + 1.
Proof.
  intros Ha Hc Hs Hf. destruct (push_arg_spec alloc a s Ha Hc) as (ok & a' & E & Ha' & Hr).
  exists ok, a'. split_and!; [done|done| |destruct ok; [lia|destruct Hr; subst; lia]..].
  destruct ok; [|by destruct Hr; subst]. destruct Hr as [-> _].
  apply Forall_app; split; [done|]. by constructor.
Qed.

Lemma inline_loop_total n buf i eol a lo :
  lo <= i -> 0 <= i <= eol -> eol <= Z.of_nat (length buf) -> eol - i <= Z.of_nat n ->
  args_ok a -> argc a + (eol - i) < 1073741824 -> Forall (slice_in lo eol) (op_args a) ->
  exists ok a', inline_loop alloc n buf i eol a = Some (ok, a') /\ args_ok a' /\
    Forall (slice_in lo eol) (op_args a').
Proof.
  revert i a. induction n as [|n IH]; intros i a Hlo Hi He Hn Ha Hc Hf; cbn.
  - rewrite (proj2 (Z.ltb_ge i eol)) by lia. eauto.
  - destruct (i <? eol) eqn:E; zcmp; [|eauto].
    destruct (scan_spec is_blank (Z.to_nat (eol - i)) buf i eol) as (Hb & _ & Hs); [lia|lia|lia|].
    set (b := scan is_blank _ buf i eol) in *.
    destruct (scan_spec (fun c => negb (is_blank c)) (Z.to_nat (eol - b)) buf b eol)
      as (He' & _ & Hs'); [lia|lia|lia|].
    set (e := scan _ _ buf b eol) in *.
    destruct (b <? e) eqn:Ebe; zcmp.
    + destruct (push_arg_in a (mkSlice b (e - b)) lo eol) as (ok & a' & -> & Ha' & Hf' & Hc');
        [done|lia|unfold slice_in; cbn; lia|done|]. cbn.
      destruct ok; [|eauto]. apply IH; try done; lia.
    + assert (b = e) as Heq by lia.
      assert (e = eol) as ->; [|apply IH; try done; lia].
      destruct (decide (b < eol)) as [Hlt|]; [|lia].
      destruct (Hs Hlt) as (c & Hc1 & Hc2). rewrite Heq in Hlt.
      destruct (Hs' Hlt) as (c' & Hc1' & Hc2'). rewrite <- Heq, Hc1 in Hc1'.
      injection Hc1' as <-. by rewrite Hc2 in Hc2'.
Qed.

Lemma bulk_loop_total n buf start p mb a :
  0 <= start -> start < p <= Z.of_nat (length buf) -> Z.of_nat (length buf) < 4294967296 ->
  args_ok a -> argc a + Z.of_nat n <= 1073741824 ->
  Forall (slice_in start p) (op_args a) ->
  exists o, bulk_loop alloc n buf start p mb a = Some o /\ args_ok (po_args o) /\
    (po_result o = POk -> p <= po_pos o <= Z.of_nat (length buf) /\
       Forall (slice_in start (po_pos o)) (op_args (po_args o))) /\
    (po_result o <> POk -> po_pos o = start) /\ po_result o <> PEmpty.
Proof.
  revert p a. induction n as [|n IH]; intros p a Hs0 Hp Hb Ha Hc Hf; cbn -[Z.of_nat].
  { eexists. split; [done|]. cbn. split_and!; [done|intros; split; [lia|done]|congruence|done]. }
  destruct (buf !! Z.to_nat p) as [c|] eqn:Ec; [|eexists; split; [done|]; cbn; by split_and!].
  apply lookup_lt_Some in Ec.
  destruct (negb (c =? 36)); [eexists; split; [done|]; cbn; by split_and!|].
  destruct (parse_len_crlf buf (p + 1) mb) as [q bl| |] eqn:El;
    [|eexists; split; [done|]; cbn; by split_and!..].
  apply parse_len_crlf_bounds in El; [|lia].
  destruct (_ <? q + bl + 2) eqn:E1; zcmp; [eexists; split; [done|]; cbn; by split_and!|].
  rewrite (u32_small bl) by lia.
  destruct (push_arg_in a (mkSlice q bl) start (q + bl + 2)) as (ok & a' & -> & Ha' & Hf' & Hc');
    [done|lia|unfold slice_in; cbn; lia| |].
  { eapply Forall_impl; [exact Hf|]. intros s ?. eapply slice_in_mono; [done|lia|lia]. }
  cbn -[Z.of_nat]. destruct ok; [|eexists; split; [done|]; cbn; by split_and!].
  destruct (IH (q + bl + 2) a') as (o & Eo & ? & Hok & Hno & ?); [lia|lia|lia|done|lia|done|].
  exists o. split_and!; try done. intros Hr; apply Hok in Hr as [? ?]. split; [lia|done].
Qed.
End ParseLemmas.

(** * Lemmas: round trip of the multibulk form *)
Lemma enc_len_parse pre m n rest maxv :
  0 <= n <= maxv -> maxv <= 1152921504606846976 ->
  let buf := pre ++ enc_len m n ++ rest in
  buf !! length pre = Some m /\
  parse_len_crlf buf (Z.of_nat (length pre) + 1) maxv =
    LenOk (Z.of_nat (length pre + length (enc_len m n))) n.
Proof.
  intros Hn Hm. unfold enc_len, parse_len_crlf.
  destruct (u64_to_dec_spec n) as (ds & -> & (Hd & Hv & Hne & _) & _); [lia|].
  split; [by rewrite lookup_app_r, Nat.sub_diag by lia|].
  replace (Z.to_nat (Z.of_nat (length pre) + 1)) with (length pre + 1)%nat by lia.
  rewrite <- drop_drop, drop_app_length. cbn [app drop]. rewrite drop_0, <- app_assoc.
  unfold dec_value in Hv. rewrite parse_len_digits by (rewrite ?Hv; lia || done).
  rewrite Hv. destruct ds as [|d ds]; [done|]. cbn [length].
  rewrite (proj2 (Z.eqb_neq _ 0)) by lia.
  rewrite length_app. cbn [length CRLF]. f_equal. lia.
Qed.

Lemma slice_bytes_app pre x rest :
  slice_bytes (pre ++ x ++ rest) (mkSlice (Z.of_nat (length pre)) (Z.of_nat (length x))) = Some x.
Proof.
  unfold slice_bytes; cbn [sl_p sl_n]. rewrite mem_read_Some by (rewrite ?length_app; lia).
  by rewrite !Nat2Z.id, drop_app_length, take_app_length.
Qed.

Lemma bulk_loop_roundtrip alloc args pre rest start mb a :
  (forall n, alloc n = true) -> mb <= 1152921504606846976 ->
  Forall (fun x => Z.of_nat (length x) <= mb) args ->
  let buf := pre ++ concat (enc_bulk <$> args) ++ rest in
  Z.of_nat (length buf) < 4294967296 ->
  args_ok a -> argc a + Z.of_nat (length args) <= 1073741824 ->
  exists a' ss,
    bulk_loop alloc (length args) buf start (Z.of_nat (length pre)) mb a =
      Some (mkOut POk (Z.of_nat (length pre + length (concat (enc_bulk <$> args)))) a' "") /\
    args_ok a' /\ op_args a' = op_args a ++ ss /\ denote buf ss args.
Proof.
  intros Hal Hmb Hlen. revert pre a. induction Hlen as [|x args Hx Hlen IH]; intros pre a buf Hb Ha Hc.
  - exists a, []. cbn. rewrite Nat.add_0_r, app_nil_r. split_and!; try done. constructor.
  - cbn [length bulk_loop] in *. subst buf. cbn [fmap list_fmap concat] in *.
    change (enc_bulk x) with (enc_len 36 (Z.of_nat (length x)) ++ x ++ CRLF) in *.
    set (tl := concat (enc_bulk <$> args)) in *.
    rewrite Nat2Z.id. rewrite <- !app_assoc in *.
    destruct (enc_len_parse pre 36 (Z.of_nat (length x)) (x ++ CRLF ++ tl ++ rest) mb)
      as [Hm Hp]; [lia|lia|].
    rewrite Hm. change (negb (36 =? 36)) with false. cbn iota.
    rewrite Hp. rewrite !length_app in *. set (hd := enc_len 36 (Z.of_nat (length x))) in *.
    change (length CRLF) with 2%nat in *.
    rewrite (proj2 (Z.ltb_ge _ _)), u32_small by lia.
    set (s := mkSlice (Z.of_nat (length pre + length hd)) (Z.of_nat (length x))).
    destruct (push_arg_spec alloc a s Ha) as (ok & a1 & -> & Ha1 & Hr); [lia|].
    destruct ok; [|destruct Hr as [_ [k Hk]]; by rewrite Hal in Hk].
    destruct Hr as [Hargs Hc1]. cbn [mbind option_bind].
    destruct (IH (pre ++ hd ++ x ++ CRLF) a1) as (a' & ss & E & Ha' & Hargs' & Hden);
      [|done|lia|].
    { rewrite <- !app_assoc, !length_app. change (length CRLF) with 2%nat. lia. }
    rewrite <- !app_assoc in E, Hden. rewrite !length_app in E. change (length CRLF) with 2%nat in E.
    replace (Z.of_nat (length pre + length hd) + Z.of_nat (length x) + 2)
      with (Z.of_nat (length pre + (length hd + (length x + 2)))) by lia.
    rewrite E. exists a', (s :: ss). split_and!; [|done| |].
    + fold tl. do 3 f_equal. lia.
    + by rewrite Hargs', Hargs, <- app_assoc.
    + constructor; [|done]. unfold s. rewrite <- length_app, app_assoc. apply slice_bytes_app.
Qed.

Lemma resp_parse_roundtrip (alloc : Z -> bool) (args : list bytes) pre rest (limited : bool) mm mb a :
  (forall n : Z, alloc n = true) -> args <> [] ->
  let mm' := if limited then mm else 1048576 in
  let mb' := if limited then mb else 536870912 in
  mm' <= 1048576 -> mb' <= 1152921504606846976 ->
  Z.of_nat (length args) <= mm' -> Forall (fun x => Z.of_nat (length x) <= mb') args ->
  let buf := pre ++ enc_command args ++ rest in
  Z.of_nat (length buf) < 4294967296 -> args_ok a -> argc a = 0 ->
  exists a', resp_parse_t alloc limited buf (Z.of_nat (length pre)) a mm mb =
      Some (mkOut POk (Z.of_nat (length pre + length (enc_command args))) a' "") /\
    args_ok a' /\ denote buf (op_args a') args.
Proof.
  intros Hal Hne mm' mb' Hmm Hmb Hn Hl buf Hb Ha Hc. unfold resp_parse_t.
  change (1024 * 1024) with 1048576. change (512 * 1024 * 1024) with 536870912.
  fold mm' mb'. subst buf. unfold enc_command in *. rewrite <- app_assoc in *.
  destruct (enc_len_parse pre 42 (Z.of_nat (length args)) (concat (enc_bulk <$> args) ++ rest) mm')
    as [Hm Hp]; [lia|lia|].
  rewrite Nat2Z.id, Hm. change (negb (42 =? 42)) with false. cbn iota. rewrite Hp.
  assert (length args <> 0)%nat by (by destruct args).
  rewrite (proj2 (Z.eqb_neq _ 0)), Nat2Z.id by lia.
  destruct (bulk_loop_roundtrip alloc args (pre ++ enc_len 42 (Z.of_nat (length args))) rest
              (Z.of_nat (length pre)) mb' a) as (a' & ss & E & Ha' & Hargs & Hden);
    [done|done|done| |done|lia|].
  { by rewrite <- app_assoc. }
  rewrite <- app_assoc, length_app in E. rewrite E.
  exists a'. rewrite <- app_assoc in Hden. split_and!; [|done|].
  - rewrite (length_app (enc_len _ _)). do 3 f_equal. lia.
  - rewrite Hargs. unfold op_args at 1. rewrite Hc. done.
Qed.

(** Every parse returns (no read or write out of bounds, enough rounds for every loop); the
    accepted slices lie in the consumed part of the buffer. *)
Lemma resp_parse_total alloc limited buf pos a mm mb :
  0 <= pos <= Z.of_nat (length buf) -> Z.of_nat (length buf) < 1073741824 ->
  args_ok a -> argc a = 0 -> (limited = true -> 0 <= mm <= 1048576) ->
  exists o, resp_parse_t alloc limited buf pos a mm mb = Some o /\ args_ok (po_args o) /\
    (po_result o = POk -> pos < po_pos o <= Z.of_nat (length buf) /\
       Forall (slice_in pos (po_pos o)) (op_args (po_args o))) /\
    (po_result o = PIncomplete \/ po_result o = PError -> po_pos o = pos) /\
    (po_result o = PEmpty -> pos < po_pos o <= Z.of_nat (length buf)).
Proof.
  intros Hp Hb Ha Hc Hlim. unfold resp_parse_t.
  assert (op_args a = []) as Hnil by (unfold op_args; by rewrite Hc).
  assert (forall r e, r <> POk -> r <> PEmpty -> exists o, Some (mkOut r pos a e) = Some o /\
    args_ok (po_args o) /\
    (po_result o = POk -> pos < po_pos o <= Z.of_nat (length buf) /\
       Forall (slice_in pos (po_pos o)) (op_args (po_args o))) /\
    (po_result o = PIncomplete \/ po_result o = PError -> po_pos o = pos) /\
    (po_result o = PEmpty -> pos < po_pos o <= Z.of_nat (length buf))) as Hbad.
  { intros r e H1 H2. eexists. split; [done|]. cbn. by split_and!. }
  destruct (buf !! Z.to_nat pos) as [c|] eqn:Ec; [|by apply Hbad].
  apply lookup_lt_Some in Ec. destruct (negb (c =? 42)).
  - unfold parse_inline. destruct (find_crlf buf pos) as [e|] eqn:Ef; [|by apply Hbad].
    apply find_crlf_bounds in Ef; [|done].
    destruct (inline_loop_total alloc (Z.to_nat (e - pos)) buf pos e a pos)
      as (ok & a' & -> & Ha' & Hf'); [lia|lia|lia|lia|done|lia|by rewrite Hnil|].
    cbn. destruct ok; eexists; (split; [done|]); cbn; [|by split_and!; try intros [|]].
    split_and!; [done| |by destruct (argc a' =? 0); intros [|]|destruct (argc a' =? 0); [lia|done]].
    intros _. split; [lia|]. eapply Forall_impl; [exact Hf'|].
    intros s ?. eapply slice_in_mono; [done|lia|lia].
  - destruct (parse_len_crlf buf (pos + 1) _) as [q n| |] eqn:El; [|by apply Hbad..].
    apply parse_len_crlf_bounds in El; [|lia]. destruct (n =? 0) eqn:E0; zcmp; [by apply Hbad|].
    assert (0 <= n <= 1048576) by (destruct limited; [specialize (Hlim eq_refl)|]; lia).
    destruct (bulk_loop_total alloc (Z.to_nat n) buf pos q
                (if limited then mb else 512 * 1024 * 1024) a)
      as (o & -> & Ha' & Hok & Hno & He); [lia|lia|lia|done|lia|by rewrite Hnil|].
    exists o. split_and!; [done|done| | |done].
    + intros Hr. destruct (Hok Hr). split; [lia|done].
    + intros [Hr|Hr]; apply Hno; congruence.
Qed.










(** * Properties *)


(** C30: A request split across reads parses the same: once the bytes received so far give a result,
    bytes that arrive later never change it. *)
Theorem parse_chunk_independent alloc limited buf more pos a mm mb o :
  0 <= pos <= Z.of_nat (length buf) ->
  resp_parse_t alloc limited buf pos a mm mb = Some o -> po_result o <> PIncomplete ->
  resp_parse_t alloc limited (buf ++ more) pos a mm mb = Some o.
Proof. apply resp_parse_ext. Qed.
Lemma parse_chunk_independent_witness :
  exists o, resp_parse_t (fun _ => true) false (str "PING" ++ CRLF) 0 args_new 0 0 = Some o /\
  resp_parse_t (fun _ => true) false ((str "PING" ++ CRLF) ++ str "*2") 0 args_new 0 0 = Some o.
Proof.
  eexists. split; [vm_compute; reflexivity|].
  apply (parse_chunk_independent (fun _ => true) false (str "PING" ++ CRLF)); [cbn; lia|vm_compute; reflexivity|done].
Defined.

(** C13: Encoded commands parse back, and partial ones wait: at any place in a stream, a command in
    RESP form yields exactly its arguments and the position behind it; any strict prefix of it is
    reported incomplete with the cursor unmoved. *)
Theorem parse_roundtrip (alloc : Z -> bool) (args : list bytes) pre rest a :
  (forall n : Z, alloc n = true) -> args <> [] ->
  Z.of_nat (length args) <= 1048576 -> Forall (fun x => Z.of_nat (length x) <= 536870912) args ->
  let buf := pre ++ enc_command args ++ rest in
  Z.of_nat (length buf) < 1073741824 -> args_ok a -> argc a = 0 ->
  (exists a', resp_parse alloc buf (Z.of_nat (length pre)) a =
      Some (mkOut POk (Z.of_nat (length pre + length (enc_command args))) a' "") /\
    args_ok a' /\ denote buf (op_args a') args) /\
  (forall k, (k < length (enc_command args))%nat ->
    exists o, resp_parse alloc (pre ++ take k (enc_command args)) (Z.of_nat (length pre)) a = Some o /\
      po_result o = PIncomplete /\ po_pos o = Z.of_nat (length pre)).
Proof.
  intros Hal Hne Hn Hl buf Hb Ha Hc. unfold resp_parse.
  assert (Hrt : forall rest, Z.of_nat (length (pre ++ enc_command args ++ rest)) < 4294967296 ->
    exists a', resp_parse_t alloc false (pre ++ enc_command args ++ rest) (Z.of_nat (length pre)) a 0 0 =
      Some (mkOut POk (Z.of_nat (length pre + length (enc_command args))) a' "") /\
    args_ok a' /\ denote (pre ++ enc_command args ++ rest) (op_args a') args).
  { intros r Hr. by apply resp_parse_roundtrip. }
  split; [apply Hrt; fold buf; lia|]. intros k Hk.
  assert (Hlen : Z.of_nat (length (pre ++ take k (enc_command args))) < Z.of_nat (length pre + length (enc_command args)) <=
    Z.of_nat (length buf)) by (unfold buf; rewrite !length_app, length_take; lia).
  destruct (resp_parse_total alloc false (pre ++ take k (enc_command args)) (Z.of_nat (length pre)) a 0 0)
    as (o & E & _ & Hok & Hpos & _); [rewrite length_app; lia|lia|done|done|done|].
  destruct (decide (po_result o = PIncomplete)) as [Hr|Hr].
  - exists o. split; [done|]. split; [done|]. by apply Hpos; left.
  - exfalso. apply (resp_parse_ext _ _ _ (drop k (enc_command args))) in E; [|rewrite length_app; lia|done].
    rewrite <- app_assoc, take_drop in E. destruct (Hrt []) as (a' & E' & _).
    { rewrite app_nil_r, length_app. lia. }
    rewrite app_nil_r, E in E'. injection E' as ->. cbn in *. specialize (Hok eq_refl). lia.
Qed.
Lemma parse_roundtrip_witness :
  let args := [str "SET"; str "k"; str "v"] in
  let buf := str "xx" ++ enc_command args ++ str "*1" in
  (exists a', resp_parse (fun _ => true) buf 2 args_new =
      Some (mkOut POk (Z.of_nat (length (str "xx") + length (enc_command args))) a' "") /\
    args_ok a' /\ denote buf (op_args a') args) /\
  (forall k, (k < length (enc_command args))%nat ->
    exists o, resp_parse (fun _ => true) (str "xx" ++ take k (enc_command args)) 2 args_new = Some o /\
      po_result o = PIncomplete /\ po_pos o = 2).
Proof.
  apply (parse_roundtrip (fun _ => true) [str "SET"; str "k"; str "v"] (str "xx") (str "*1") args_new);
    try done; try (repeat constructor; by vm_compute).
Defined.

