(* ===== verification/GrisuCore.v ===== *)
(** Proofs about the digit loops of Grisu2: termination inside the arrays, no overflow, and
    the digit string staying inside the scaled interval. *)
From S2P Require Import Prelude Decimal Grisu.

(** * Digit strings, least significant digit first *)
Fixpoint rval (r : list Z) : Z :=
  match r with [] => 0 | d :: r => (d - 48) + 10 * rval r end.

Lemma rval_dec_value r : dec_value (reverse r) = rval r.
Proof.
  induction r as [|d r IH]; [done|]. rewrite reverse_cons, dec_value_snoc, IH. cbn. lia.
Qed.

(** [r] is a digit string with a nonzero leading digit, or empty. *)
Definition rdig (r : list Z) : Prop :=
  Forall is_digit r /\ (r <> [] -> 10 ^ (Z.of_nat (length r) - 1) <= rval r).

Lemma rval_nonneg r : Forall is_digit r -> 0 <= rval r.
Proof. induction 1 as [|d r Hd H IH]; cbn; unfold is_digit in *; lia. Qed.

Lemma rdig_push r d :
  rdig r -> 0 <= d <= 9 ->
  let r' := if negb (d =? 0) || negb (bool_decide (r = [])) then (48 + d) :: r else r in
  rdig r' /\ rval r' = 10 * rval r + d /\
  (r' = [] -> r = [] /\ d = 0) /\ (r' <> [] -> exists t, r' = (48 + d) :: t /\ rdig t).
Proof.
  intros Hrd Hd. pose proof Hrd as (Hf & Hv). cbn. destruct (d =? 0) eqn:Ed; zcmp; cbn.
  - subst d. case_bool_decide as Hr; cbn.
    + subst. cbn. by split_and!.
    + split; [|split; [lia|split; [done|intros _; by exists r]]]. split; [constructor; [unfold is_digit; lia|done]|].
      intros _. cbn [length rval]. specialize (Hv Hr).
      destruct r as [|x r]; [done|]. cbn [length] in *.
      replace (Z.of_nat (S (S (length r))) - 1) with (1 + (Z.of_nat (S (length r)) - 1)) by lia.
      rewrite Z.pow_add_r by lia. lia.
  - split; [|split; [lia|split; [done|intros _; eexists; split; [done|done]]]].
    split; [constructor; [unfold is_digit; lia|done]|]. intros _. cbn [length rval].
    destruct r as [|x r]; [cbn; lia|]. specialize (Hv ltac:(done)). cbn [length] in *.
    replace (Z.of_nat (S (S (length r))) - 1) with (1 + (Z.of_nat (S (length r)) - 1)) by lia.
    rewrite Z.pow_add_r by lia. lia.
Qed.

(** * Weeding

    [unit] is one step of the last digit, [R] what the digits leave of the upper bound. *)
Lemma weed_loop_spec fuel last delta R unit distance j :
  0 < unit < 18446744073709551616 -> 0 <= R <= delta -> delta < 18446744073709551616 ->
  0 <= distance <= delta -> 0 <= j -> j <= Z.of_nat fuel -> delta <= R + j * unit ->
  exists i, weed_loop fuel last delta R unit distance = Some (last - i) /\
    0 <= i <= j /\ R + i * unit <= delta.
Proof.
  intros Hu HR Hd Hdist. revert last R j HR.
  induction fuel as [|fuel IH]; intros last R j HR Hj Hf Hb; cbn [weed_loop].
  - assert (j = 0) as -> by lia. assert (R = delta) as -> by lia.
    rewrite (proj2 (Z.ltb_ge delta distance)) by lia. cbn.
    exists 0. split; [f_equal; lia|lia].
  - destruct ((R <? distance) && (unit <=? u64 (delta - R))) eqn:E; cbn [andb].
    + zcmp. rewrite u64_small in H0 by lia.
      destruct ((u64 (R + unit) <? distance) || _) eqn:E2.
      * rewrite u64_small by lia.
        destruct (IH (last - 1) (R + unit) (j - 1)) as (i & -> & ? & ?); [lia|nia|nia|nia|].
        exists (i + 1). split; [f_equal; lia|lia].
      * exists 0. split; [f_equal; lia|lia].
    + exists 0. split; [f_equal; lia|lia].
Qed.

Lemma weed_last_digit_spec r d delta R unit distance U :
  rdig r -> 0 <= d <= 9 -> rdig ((48 + d) :: r) ->
  0 < unit < 18446744073709551616 -> 0 <= R <= delta -> delta < U ->
  delta < 18446744073709551616 -> 0 <= distance <= delta ->
  delta <= R + d * unit -> (10 * rval r + d) * unit + R = U ->
  exists r', weed_last_digit ((48 + d) :: r) delta R unit distance = Some r' /\
    rdig r' /\ length r' = S (length r) /\
    U - delta <= rval r' * unit <= U.
Proof.
  intros [Hr Hrl] Hd [Hr' Hrl'] Hu HR HdU HU Hdist Hb Hsum. unfold weed_last_digit.
  destruct (weed_loop_spec 9 (48 + d) delta R unit distance d) as (i & -> & Hi & Hi2);
    [lia|lia|lia|lia|lia|lia|lia|].
  cbn [mbind option_bind]. exists ((48 + d - i) :: r). cbn [rval length].
  assert (0 <= rval r) by (by apply rval_nonneg).
  split_and!; [done| |done|nia|nia]. split.
  - constructor; [unfold is_digit; lia|done].
  - intros _. cbn [length rval]. destruct r as [|x r].
    + cbn in *. assert (1 <= d - i); [|lia]. nia.
    + specialize (Hrl ltac:(done)). cbn [length] in *.
      replace (Z.of_nat (S (S (length r))) - 1) with (1 + (Z.of_nat (S (length r)) - 1)) by lia.
      rewrite Z.pow_add_r by lia. lia.
Qed.

(** * Small arithmetic steps, kept out of the loops' contexts *)
Lemma digit_of x div :
  0 < div -> 0 <= x < 10 * div ->
  0 <= x / div <= 9 /\ x = x / div * div + x mod div /\ 0 <= x mod div < div.
Proof.
  intros Hd Hx. split_and!.
  - apply Z.div_pos; lia.
  - assert (x / div < 10); [|lia]. apply Z.div_lt_upper_bound; lia.
  - rewrite Z.mul_comm. apply Z.div_mod. lia.
  - by apply Z.mod_pos_bound.
  - by apply Z.mod_pos_bound.
Qed.

Lemma unit_le D X R U : 1 <= D -> 0 <= X -> 0 <= R -> D * X + R = U -> X <= U.
Proof. intros. nia. Qed.
Lemma rest_le D X R U : 0 <= D -> 0 <= X -> D * X + R = U -> R <= U.
Proof. intros. nia. Qed.

(** * The two loops *)
Section Loops.
(** Scaled upper bound [U], width [delta] of the allowed interval, [distance] to the value,
    and the fixed-point unit [2^shift]. *)
Context (U delta distance shift k : Z).
Context (Hs : 32 <= shift <= 60) (HU : 0 <= U < 18446744073709551616).
Context (Hdelta : 1 <= delta < U) (Hdist : 0 <= distance <= delta).
Local Abbreviation one := (2 ^ shift).

Lemma one_bounds : 4294967296 <= one <= 1152921504606846976.
Proof using Hs.
  change 4294967296 with (2 ^ 32). change 1152921504606846976 with (2 ^ 60).
  split; apply Z.pow_le_mono_r; lia.
Qed.

(** A finished digit string: inside the interval at scale 10^kappa (kappa may be negative),
    and no longer than the interval needs. *)
Definition digits_in (r : list Z) (kappa : Z) : Prop :=
  rdig r /\ r <> [] /\
  (0 <= kappa -> U - delta <= rval r * (10 ^ kappa * one) <= U /\
                 delta < 10 ^ (kappa + 1) * one) /\
  (kappa < 0 -> (U - delta) * 10 ^ (- kappa) <= rval r * one <= U * 10 ^ (- kappa) /\
                delta * 10 ^ (- kappa - 1) < one).

Fixpoint tens_down (n : nat) : list Z :=
  match n with O => [] | S n => 10 ^ Z.of_nat n :: tens_down n end.

Lemma kTens_lookup u : (u <= 19)%nat -> kTens !! u = Some (10 ^ (19 - Z.of_nat u)).
Proof using.
  intros Hu. do 20 (destruct u as [|u]; [done|]). lia.
Qed.

Lemma integral_loop_spec n r integral fractional :
  rdig r -> 0 <= fractional < one -> 0 <= integral < 10 ^ Z.of_nat n -> (n <= 10)%nat ->
  rval r * (10 ^ Z.of_nat n * one) + (integral * one + fractional) = U ->
  delta < integral * one + fractional ->
  exists res, integral_loop (tens_down n) r integral fractional shift delta distance k = Some res /\
    match res with
    | inl (r', k') => exists kappa, k' = k + kappa /\ 0 <= kappa <= 9 /\ digits_in r' kappa
    | inr (r', _) => rdig r' /\ rval r' * one + fractional = U /\ delta < fractional
    end.
Proof using Hs HU Hdelta Hdist.
  pose proof one_bounds as Hone.
  revert r integral. induction n as [|n IH]; intros r integral Hr Hf Hi Hn Hsum Hd;
    cbn [tens_down integral_loop].
  { cbn in Hi, Hsum. assert (integral = 0) as -> by lia.
    eexists. split; [done|]. cbn. split_and!; [done|lia|lia]. }
  assert (length (tens_down n) = n) as Hln.
  { clear. induction n; cbn; auto. }
  rewrite Hln. rewrite Nat2Z.inj_succ, Z.pow_succ_r in Hi, Hsum by lia.
  set (div := 10 ^ Z.of_nat n) in *.
  assert (1 <= div) by (subst div; assert (0 < 10 ^ Z.of_nat n) by (apply Z.pow_pos_nonneg; lia); lia).
  assert (div <= 1000000000).
  { subst div. change 1000000000 with (10 ^ 9). apply Z.pow_le_mono_r; lia. }
  set (d := integral / div).
  assert (0 <= d <= 9 /\ integral = d * div + integral mod div /\ 0 <= integral mod div < div)
    as (Hd9 & Hdiv & Hmod) by (apply digit_of; lia).
  rewrite (u32_small d) by lia.
  destruct (rdig_push r d Hr Hd9) as (Hr1 & Hv1 & He1 & Hc1).
  set (r1 := if negb (d =? 0) || _ then _ else r) in *.
  rewrite (u64_small (integral - d * div)) by nia.
  replace (integral - d * div) with (integral mod div) by lia.
  rewrite Z.shiftl_mul_pow2 by lia.
  set (im := integral mod div) in *.
  assert (0 <= rval r) by (apply rval_nonneg, Hr).
  assert (0 <= rval r1) by (apply rval_nonneg, Hr1).
  assert (rval r1 * (div * one) + (im * one + fractional) = U) as Hsum1.
  { rewrite Hv1, <- Hsum, Hdiv. ring. }
  assert (0 <= div * one) by (apply Z.mul_nonneg_nonneg; lia).
  assert (0 <= im * one) by (apply Z.mul_nonneg_nonneg; lia).
  pose proof (rest_le _ _ _ _ H2 H3 Hsum1) as Hrest.
  rewrite (u64_small (im * one)), u64_small by lia.
  destruct (im * one + fractional <=? delta) eqn:E; zcmp.
  - assert (r1 <> []) as Hne.
    { intros Hr1e. rewrite Hr1e in Hsum1. cbn in Hsum1. lia. }
    destruct (Hc1 Hne) as (t & Ht & Htd). rewrite Ht in *. cbn [rval] in *.
    assert (1 <= rval ((48 + d) :: t)).
    { destruct Hr1 as [_ Hl]. specialize (Hl Hne).
      assert (0 < 10 ^ (Z.of_nat (length ((48 + d) :: t)) - 1)) by (apply Z.pow_pos_nonneg; cbn; lia).
      lia. }
    cbn [rval] in *. rewrite Z.shiftl_mul_pow2 by lia.       pose proof (unit_le _ (div * one) (im * one + fractional) U H5) as Hunit.
    rewrite (u64_small (div * one)) by (cbn [rval] in Hunit; lia).
    destruct (weed_last_digit_spec t d delta (im * one + fractional) (div * one) distance U)
      as (r' & -> & Hr' & Hl' & Hint); [done|lia|done|nia|lia|lia|lia|lia| |cbn [rval] in Hsum1; lia|].
    { rewrite Hdiv in Hd. subst im. lia. }
    cbn [mbind option_bind]. eexists. split; [done|]. cbn.
    exists (Z.of_nat n). split_and!; [done|lia|lia|].
    split_and!; [done|by destruct r'|intros _; split; [done|]|lia].
    rewrite Z.pow_add_r by lia. fold div. nia.
  - apply IH; [done|done|fold div; lia|lia|done|lia].
Qed.

(** One round below the point: the new digit, remainder and scale. *)
Lemma fractional_round i r F :
  0 <= i -> rdig r -> rval r * one + F = U * 10 ^ i -> 0 <= F < one ->
  let d := F * 10 / one in
  let r1 := if negb (d =? 0) || negb (bool_decide (r = [])) then (48 + d) :: r else r in
  let Fn := (F * 10) mod one in
  0 <= d <= 9 /\ rdig r1 /\ rval r1 * one + Fn = U * 10 ^ (i + 1) /\ 0 <= Fn < one /\
  F * 10 = d * one + Fn /\ (r1 <> [] -> exists t, r1 = (48 + d) :: t /\ rdig t).
Proof using Hs.
  pose proof one_bounds as Hone. intros Hi Hr Hsum HF d r1 Fn.
  destruct (digit_of (F * 10) one) as (Hd & Hdiv & Hmod); [lia|lia|].
  destruct (rdig_push r d Hr Hd) as (Hr1 & Hv1 & He1 & Hc1). fold r1 in Hr1, Hv1, He1, Hc1.
  split_and!; try done; try lia.
  rewrite Hv1, Z.pow_add_r by lia. fold Fn d in Hdiv. lia.
Qed.

(** The round that returns. *)
Lemma fractional_return i r F :
  0 <= i <= 18 -> rdig r -> rval r * one + F = U * 10 ^ i -> delta * 10 ^ i <= F < one ->
  let d := F * 10 / one in
  let r1 := if negb (d =? 0) || negb (bool_decide (r = [])) then (48 + d) :: r else r in
  let Fn := (F * 10) mod one in
  Fn < delta * 10 ^ (i + 1) ->
  exists r' kappa,
    (ten ← kTens !! Z.to_nat (18 - i);
     r' ← weed_last_digit r1 (delta * 10 ^ (i + 1)) Fn one (u64 (distance * ten));
     Some (r', k + (- i - 1))) = Some (r', k + kappa) /\
    -19 <= kappa < 0 /\ digits_in r' kappa.
Proof using Hs HU Hdelta Hdist.
  pose proof one_bounds as Hone. intros Hi Hr Hsum HF d r1 Fn Hlt.
  assert (0 < 10 ^ i) as Hpi by (apply Z.pow_pos_nonneg; lia).
  assert (10 ^ (i + 1) = 10 * 10 ^ i) as Hp by (rewrite Z.pow_add_r; lia).
  assert (0 <= delta * 10 ^ i) by (apply Z.mul_nonneg_nonneg; lia).
  destruct (fractional_round i r F) as (Hd & Hr1 & Hsum1 & HFn & Hdiv & Hc1); [lia|done|done|lia|].
  fold d r1 Fn in Hd, Hr1, Hsum1, HFn, Hdiv, Hc1.
  rewrite kTens_lookup by lia. cbn [mbind option_bind].
  replace (19 - Z.of_nat (Z.to_nat (18 - i))) with (i + 1) by lia.
  assert (0 <= distance * 10 ^ (i + 1) <= delta * 10 ^ (i + 1)) as Hdi.
  { split; [apply Z.mul_nonneg_nonneg; lia|apply Z.mul_le_mono_nonneg_r; lia]. }
  assert (delta * 10 ^ (i + 1) < U * 10 ^ (i + 1)) as HdU by (apply Z.mul_lt_mono_pos_r; lia).
  assert (delta * 10 ^ (i + 1) = delta * 10 ^ i * 10) as Hdd by (rewrite Hp; ring).
  rewrite (u64_small (distance * _)) by lia.
  assert (r1 <> []) as Hne by (intros E; rewrite E in Hsum1; cbn in Hsum1; lia).
  destruct (Hc1 Hne) as (t & Ht & Htd). rewrite Ht in *. cbn [rval] in Hsum1.
  destruct (weed_last_digit_spec t d (delta * 10 ^ (i + 1)) Fn one
              (distance * 10 ^ (i + 1)) (U * 10 ^ (i + 1)))
    as (r' & -> & Hr' & Hl' & Hint); [done|lia|done|lia|lia|lia|lia|lia|lia|lia|].
  cbn [mbind option_bind]. exists r', (- i - 1). split; [done|]. split; [lia|].
  split; [done|split; [by destruct r'|split; [lia|intros _]]].
  replace (- (- i - 1)) with (i + 1) by lia. replace (i + 1 - 1) with i by lia.
  rewrite Z.mul_sub_distr_r. lia.
Qed.

Lemma fractional_loop_spec unit i r F :
  Z.of_nat unit = 18 - i -> 0 <= i -> rdig r -> rval r * one + F = U * 10 ^ i ->
  delta * 10 ^ i <= F < one ->
  exists r' kappa,
    fractional_loop unit r F shift (delta * 10 ^ i) distance (- i) k = Some (r', k + kappa) /\
    -19 <= kappa < 0 /\ digits_in r' kappa.
Proof using Hs HU Hdelta Hdist.
  pose proof one_bounds as Hone.
  revert i r F. induction unit as [|unit IH]; intros i r F Hui Hi Hr Hsum HF;
    pose proof (fractional_return i r F ltac:(lia) Hr Hsum HF) as Hret;
    (assert (0 <= delta * 10 ^ i)
      by (apply Z.mul_nonneg_nonneg; [lia|apply Z.pow_nonneg; lia]));
    destruct (fractional_round i r F) as (Hd & Hr1 & Hsum1 & HFn & Hdiv & Hc1);
    [lia|done|done|lia| |lia|done|done|lia|];
    (assert (delta * 10 ^ i * 10 = delta * 10 ^ (i + 1)) as Hdd
      by (rewrite Z.pow_add_r by lia; ring));
    cbn [fractional_loop]; rewrite Z.shiftl_1_l;
    rewrite (u64_small (F * 10)), (u64_small (delta * 10 ^ i * 10)) by lia;
    rewrite Z.shiftr_div_pow2, (land_ones_mod _ shift), (u32_small (F * 10 / one)), Hdd by lia;
    (destruct (_ <? delta * 10 ^ (i + 1)) eqn:E; zcmp; [specialize (Hret E)|]).
  - by replace (Z.to_nat (18 - i)) with 0%nat in Hret by lia.
  - assert (i = 18) as -> by lia. change (10 ^ (18 + 1)) with 10000000000000000000 in E. lia.
  - by replace (Z.to_nat (18 - i)) with (S unit) in Hret by lia.
  - replace (- i - 1) with (- (i + 1)) by lia. apply IH; [lia|lia|done|done|lia].
Qed.
End Loops.
