(* ===== verification/GrisuProof.v ===== *)
(** Grisu2 end to end: the cached powers of ten are correctly rounded, the search always lands
    in the digit loops' window, and the digits of every finite nonzero double lie strictly
    inside its rounding interval. *)
From Stdlib Require Import QArith Qpower Lqa.
From S2P Require Import Prelude Decimal Grisu GrisuCore.
#[local] Open Scope Z_scope.

(** * The table *)

(** 10^k lies within half a unit in the last place of f * 2^e, and f is normalized. *)
Definition pow_row_ok (p : CachedPow) : Prop :=
  9223372036854775808 <= cp_f p < 18446744073709551616 /\
  (inject_Z (2 * cp_f p - 1) * 2 ^ cp_e p <= 2 * 10 ^ cp_k p)%Q /\
  (2 * 10 ^ cp_k p <= inject_Z (2 * cp_f p + 1) * 2 ^ cp_e p)%Q.

Definition pow_row_okb (p : CachedPow) : bool :=
  (9223372036854775808 <=? cp_f p) && (cp_f p <? 18446744073709551616) &&
  Qle_bool (inject_Z (2 * cp_f p - 1) * 2 ^ cp_e p) (2 * 10 ^ cp_k p) &&
  Qle_bool (2 * 10 ^ cp_k p) (inject_Z (2 * cp_f p + 1) * 2 ^ cp_e p) &&
  (-348 <=? cp_k p) && (cp_k p <=? 340).

Lemma kPow10_okb : forallb pow_row_okb kPow10 = true.
Proof. vm_compute. reflexivity. Qed.

Lemma kPow10_row i p :
  kPow10 !! i = Some p -> pow_row_ok p /\ -348 <= cp_k p <= 340.
Proof.
  intros Hi. pose proof kPow10_okb as H. rewrite forallb_forall in H.
  specialize (H p). assert (pow_row_okb p = true) as Hp.
  { apply H, list_elem_of_In, list_elem_of_lookup. eauto. }
  unfold pow_row_okb in Hp. zcmp. unfold pow_row_ok.
  split_and!; try lia; by apply Qle_bool_iff.
Qed.

(** * The search *)
Definition index_okb (x : Z) : bool :=
  match cached_pow_index x with
  | Some i =>
      match kPow10 !! Z.to_nat i with
      | Some p => (-60 <=? x + cp_e p + 64) && (x + cp_e p + 64 <=? -32)
      | None => false
      end
  | None => false
  end.

Lemma index_okb_range :
  forallb (fun n => index_okb (Z.of_nat n - 1137)) (seq 0 2098) = true.
Proof. vm_compute. reflexivity. Qed.

#[local] Opaque cached_pow_index kPow10.
Lemma match_Some {A} (o : option A) (f : A -> bool) :
  match o with Some a => f a | None => false end = true -> exists a, o = Some a /\ f a = true.
Proof. destruct o; [eauto|done]. Qed.

Lemma index_okb_spec x :
  index_okb x = true ->
  exists i p, cached_pow_index x = Some i /\ kPow10 !! Z.to_nat i = Some p /\
    -60 <= x + cp_e p + 64 <= -32.
Proof.
  unfold index_okb. intros H.
  apply (match_Some (cached_pow_index x)) in H as (i & Hi & H).
  apply (match_Some (kPow10 !! Z.to_nat i)) in H as (p & Hp & H).
  exists i, p. zcmp. by split_and!.
Qed.

Lemma cached_pow_index_spec x :
  -1137 <= x <= 960 ->
  exists i p, cached_pow_index x = Some i /\ kPow10 !! Z.to_nat i = Some p /\
    -60 <= x + cp_e p + 64 <= -32.
Proof.
  intros Hx. apply index_okb_spec.
  pose proof (proj1 (forallb_forall _ _) index_okb_range (Z.to_nat (x + 1137))) as H.
  cbv beta in H. replace (Z.of_nat (Z.to_nat (x + 1137)) - 1137) with x in H by lia.
  apply H, in_seq. lia.
Qed.

(** * Normalization *)
Lemma land_pow2_zero f b :
  0 <= b -> 0 <= f < 2 ^ (b + 1) -> (Z.land f (2 ^ b) =? 0) = (f <? 2 ^ b).
Proof.
  intros Hb Hf. rewrite Z.pow_add_r in Hf by lia. change (2 ^ 1) with 2 in Hf.
  assert (0 < 2 ^ b) by (apply Z.pow_pos_nonneg; lia).
  assert (Z.land f (2 ^ b) = if Z.testbit f b then 2 ^ b else 0) as ->.
  { apply Z.bits_inj'. intros i Hi. rewrite Z.land_spec, Z.pow2_bits_eqb by lia.
    destruct (Z.eqb_spec b i) as [->|Hne].
    - rewrite andb_true_r. destruct (Z.testbit f i) eqn:E; [by rewrite Z.pow2_bits_true|].
      by rewrite Z.bits_0.
    - rewrite andb_false_r. destruct (Z.testbit f b); [|by rewrite Z.bits_0].
      rewrite Z.pow2_bits_false by lia. done. }
  destruct (Z.ltb_spec f (2 ^ b)).
  - rewrite <- (Z.mod_small f (2 ^ b)), Z.mod_pow2_bits_high by lia. done.
  - assert (Z.testbit f b = true) as ->.
    { apply Z.testbit_true; [lia|].
      by replace (f / 2 ^ b) with 1 by (apply (Z.div_unique _ _ _ (f - 2 ^ b)); lia). }
    apply Z.eqb_neq. lia.
Qed.

Lemma normalize_spec fuel b f e :
  0 <= b <= 63 -> 0 < f < 2 ^ (b + 1) -> 2 ^ b <= f * 2 ^ Z.of_nat fuel ->
  exists j, 0 <= j <= Z.of_nat fuel /\ normalize fuel (2 ^ b) (mkFp f e) = Some (mkFp (f * 2 ^ j) (e - j)) /\
    2 ^ b <= f * 2 ^ j < 2 ^ (b + 1).
Proof.
  intros Hb. assert (0 < 2 ^ b) by (apply Z.pow_pos_nonneg; lia).
  assert (2 ^ (b + 1) <= 18446744073709551616) as Hmax.
  { change 18446744073709551616 with (2 ^ 64). apply Z.pow_le_mono_r; lia. }
  revert f e. induction fuel as [|fuel IH]; intros f e Hf Hle; cbn [normalize fp_f fp_e];
    rewrite land_pow2_zero by lia; zsplit.
  - change (2 ^ Z.of_nat 0) with 1 in Hle. lia.
  - exists 0. change (2 ^ 0) with 1. rewrite Z.mul_1_r, Z.sub_0_r. split_and!; [lia|lia|done|lia|lia].
  - rewrite Z.shiftl_mul_pow2 by lia. change (2 ^ 1) with 2.
    rewrite Nat2Z.inj_succ, Z.pow_succ_r in Hle by lia. rewrite u64_small by (rewrite Z.pow_add_r in *; lia).
    destruct (IH (f * 2) (e - 1)) as (j & Hj & E' & Hr); [rewrite Z.pow_add_r; lia|lia|].
    exists (j + 1). rewrite E'. replace (f * 2 ^ (j + 1)) with (f * 2 * 2 ^ j) by (rewrite Z.pow_add_r; lia).
    split_and!; [lia|lia|do 2 f_equal; lia|lia|lia].
  - exists 0. change (2 ^ 0) with 1. rewrite Z.mul_1_r, Z.sub_0_r. split_and!; [lia|lia|done|lia|lia].
Qed.

(** * Multiplication *)
Lemma fp_multiply_f a b :
  0 <= fp_f a < 18446744073709551616 -> 0 <= fp_f b < 18446744073709551616 ->
  fp_f (fp_multiply a b) = (fp_f a * fp_f b + 9223372036854775808) / 18446744073709551616.
Proof.
  intros Ha Hb. unfold fp_multiply; cbn [fp_f].
  rewrite !Z.shiftr_div_pow2 by lia. change (2 ^ 64) with 18446744073709551616.
  change (2 ^ 63) with 9223372036854775808.
  assert (0 <= fp_f a * fp_f b <= 18446744073709551615 * 18446744073709551615) as Hp.
  { split; [apply Z.mul_nonneg_nonneg; lia|apply Z.mul_le_mono_nonneg; lia]. }
  set (p := fp_f a * fp_f b) in *.
  rewrite (u64_small (p / _)) by (Z.div_mod_to_equations; lia). unfold u64.
  Z.div_mod_to_equations; lia.
Qed.

(** * The decoded value and its boundaries *)

(** What the finite nonzero bit patterns decode to. *)
Lemma fp_of_bits_spec bits :
  0 < bits < 9218868437227405312 ->
  let w := fp_of_bits bits in
  0 < fp_f w < 9007199254740992 /\ -1074 <= fp_e w <= 971 /\
  (fp_e w = -1074 \/ 4503599627370496 <= fp_f w).
Proof.
  intros Hb. unfold fp_of_bits.
  assert (Z.land (Z.shiftr bits 52) 2047 = bits / 4503599627370496) as ->.
  { change 2047 with (2 ^ 11 - 1). rewrite land_ones_mod, Z.shiftr_div_pow2 by lia.
    change (2 ^ 52) with 4503599627370496. apply Z.mod_small.
    change (2 ^ 11) with 2048. Z.div_mod_to_equations; lia. }
  rewrite land_ones_mod by lia. change (2 ^ 52) with 4503599627370496.
  destruct (bits / 4503599627370496 =? 0) eqn:E; zcmp; cbn [negb fp_f fp_e].
  - Z.div_mod_to_equations; lia.
  - rewrite u64_small by (Z.div_mod_to_equations; lia). Z.div_mod_to_equations; lia.
Qed.

(** The three normalized operands share one exponent; the shifts are exact. *)
Record operands (w upper lower w' : Fp) (s : Z) : Prop := {
  op_s : 10 <= s <= 62;
  op_uf : fp_f upper = (2 * fp_f w + 1) * 2 ^ s;
  op_ue : fp_e upper = fp_e w - 1 - s;
  op_lf : fp_f lower = if fp_f w =? 4503599627370496 then (4 * fp_f w - 1) * 2 ^ (s - 1)
                       else (2 * fp_f w - 1) * 2 ^ s;
  op_wf : fp_f w' = fp_f w * 2 ^ (s + 1);
  op_norm : 9223372036854775808 <= fp_f upper < 18446744073709551616;
  op_range : -1137 <= fp_e upper <= 960 }.

Lemma pow2_unique_shift m j1 j2 :
  1 <= m -> 0 <= j1 <= 52 -> 0 <= j2 ->
  9007199254740992 <= (2 * m + 1) * 2 ^ j1 < 18014398509481984 ->
  9223372036854775808 <= m * 2 ^ j2 < 18446744073709551616 ->
  j2 = j1 + 11.
Proof.
  intros Hm H1 H2 Hu Hw.
  assert (2 ^ (53 - j1) * 2 ^ j1 = 9007199254740992) as Hp
    by (rewrite <- Z.pow_add_r by lia; replace (53 - j1 + j1) with 53 by lia; done).
  assert (2 ^ (53 - j1) = 2 * 2 ^ (52 - j1)) as He
    by (replace (53 - j1) with (1 + (52 - j1)) by lia; rewrite Z.pow_add_r by lia; lia).
  assert (0 < 2 ^ j1) by (apply Z.pow_pos_nonneg; lia).
  assert (2 ^ (52 - j1) <= m) as Hlo by nia.
  assert (2 * m + 1 < 2 * 2 ^ (53 - j1)) as Hhi by nia.
  assert (2 ^ (j1 + 11) = 2048 * 2 ^ j1) as Hj by (rewrite Z.pow_add_r by lia; change (2 ^ 11) with 2048; lia).
  assert (9223372036854775808 <= m * 2 ^ (j1 + 11) < 18446744073709551616) as Hw' by (rewrite Hj; nia).
  destruct (Z.lt_trichotomy j2 (j1 + 11)) as [Hlt|[|Hgt]]; [exfalso|done|exfalso].
  - assert (2 * 2 ^ j2 <= 2 ^ (j1 + 11)).
    { rewrite <- Z.pow_succ_r by lia. apply Z.pow_le_mono_r; lia. } nia.
  - assert (2 * 2 ^ (j1 + 11) <= 2 ^ j2).
    { rewrite <- Z.pow_succ_r by lia. apply Z.pow_le_mono_r; lia. } nia.
Qed.

Lemma operands_of_bits bits :
  0 < bits < 9218868437227405312 ->
  exists upper w' s, grisu2_upper (fp_of_bits bits) = Some upper /\
    normalize 64 (2 ^ 63) (fp_of_bits bits) = Some w' /\
    operands (fp_of_bits bits) upper (grisu2_lower (fp_of_bits bits) upper) w' s.
Proof.
  intros Hb. destruct (fp_of_bits_spec bits Hb) as (Hf & He & Hn).
  destruct (fp_of_bits bits) as [m e]. cbn [fp_f fp_e] in *.
  unfold grisu2_upper; cbn [fp_f fp_e]. rewrite (Z.shiftl_mul_pow2 m) by lia.
  change (2 ^ 1) with 2. rewrite (u64_small (m * 2)), (u64_small (m * 2 + 1)) by lia.
  destruct (normalize_spec 64 53 (m * 2 + 1) (e - 1)) as (j1 & Hj1 & -> & Hr1);
    [lia|change (2 ^ (53 + 1)) with 18014398509481984; lia
    |change (2 ^ 53) with 9007199254740992; change (2 ^ Z.of_nat 64) with 18446744073709551616; lia|].
  destruct (normalize_spec 64 63 m e) as (j2 & Hj2 & -> & Hr2);
    [lia|change (2 ^ (63 + 1)) with 18446744073709551616; lia
    |change (2 ^ 63) with 9223372036854775808; change (2 ^ Z.of_nat 64) with 18446744073709551616; lia|].
  change (2 ^ 53) with 9007199254740992 in Hr1. change (2 ^ (53 + 1)) with 18014398509481984 in Hr1.
  change (2 ^ 63) with 9223372036854775808 in Hr2.
  change (2 ^ (63 + 1)) with 18446744073709551616 in Hr2.
  assert (0 < 2 ^ j1) as Hp1 by (apply Z.pow_pos_nonneg; lia).
  assert (j1 <= 52) as Hj52.
  { destruct (decide (j1 <= 52)); [done|]. exfalso.
    assert (2 ^ 53 <= 2 ^ j1) by (apply Z.pow_le_mono_r; lia).
    change (2 ^ 53) with 9007199254740992 in *. nia. }
  assert (j2 = j1 + 11) as -> by (apply (pow2_unique_shift m); lia).
  assert (4503599627370496 <= m -> j1 = 0) as Hj0.
  { intros Hm. destruct (decide (j1 = 0)); [done|]. exfalso.
    assert (2 ^ 1 <= 2 ^ j1) by (apply Z.pow_le_mono_r; lia). change (2 ^ 1) with 2 in *. nia. }
  cbn [mbind option_bind fp_f fp_e]. rewrite Z.shiftl_mul_pow2 by lia. change (2 ^ 10) with 1024.
  rewrite (u64_small ((m * 2 + 1) * 2 ^ j1 * 1024)) by lia.
  assert (2 ^ (j1 + 10) = 1024 * 2 ^ j1) as Hp10
    by (rewrite Z.pow_add_r by lia; change (2 ^ 10) with 1024; lia).
  eexists _, _, (j1 + 10). split; [done|]. split; [done|].
  unfold grisu2_lower; cbn [fp_f fp_e]. change (2 ^ 52) with 4503599627370496.
  constructor; cbn [fp_f fp_e]; try lia.
  - destruct (m =? 4503599627370496) eqn:Em; zcmp.
    + specialize (Hj0 ltac:(lia)). subst.
      by replace (e - 2 - (e - 1 - 0 - 10)) with 9 by lia.
    + rewrite !Z.shiftl_mul_pow2 by lia. change (2 ^ 1) with 2.
      replace (e - 1 - (e - 1 - j1 - 10)) with (j1 + 10) by lia.
      rewrite (u64_small (m * 2)), (u64_small (m * 2 - 1)), u64_small by (rewrite ?Hp10; lia).
      ring.
  - replace (j1 + 11) with (j1 + 10 + 1) by lia. reflexivity.
Qed.

(** * The scaled interval *)
Definition scaled (a C : Z) : Z := (a * C + 9223372036854775808) / 18446744073709551616.

Lemma scaled_spec a C :
  18446744073709551616 * scaled a C <= a * C + 9223372036854775808
  < 18446744073709551616 * scaled a C + 18446744073709551616.
Proof. unfold scaled. Z.div_mod_to_equations; lia. Qed.

Lemma scaled_gap a b C g :
  b + g <= a -> 0 <= g -> 9223372036854775808 <= C ->
  9223372036854775808 * g - 18446744073709551616
  < 18446744073709551616 * (scaled a C - scaled b C).
Proof.
  intros Hab Hg HC. pose proof (scaled_spec a C). pose proof (scaled_spec b C).
  assert (g * 9223372036854775808 <= (a - b) * C) by (apply Z.mul_le_mono_nonneg; lia). lia.
Qed.

(** Rounding inward by one unit absorbs both rounding errors, against the exact product. *)
Lemma scaled_inside a C :
  0 <= a < 18446744073709551616 ->
  (scaled a C - 1) * 36893488147419103232 < a * (2 * C - 1) /\
  a * (2 * C + 1) < (scaled a C + 1) * 36893488147419103232.
Proof. intros Ha. pose proof (scaled_spec a C). lia. Qed.

Record scaled_ok (U L W : Z) : Prop := {
  so_U : 4611686018427387904 <= U < 18446744073709551616;
  so_L : 0 <= L;
  so_delta : 765 <= U - 1 - (L + 1);
  so_W : L + 1 <= W <= U - 1 }.

Lemma operands_scaled w upper lower w' s C :
  operands w upper lower w' s -> 0 < fp_f w < 9007199254740992 ->
  (fp_e w = -1074 \/ 4503599627370496 <= fp_f w) ->
  9223372036854775808 <= C < 18446744073709551616 ->
  0 <= fp_f lower < 18446744073709551616 /\ 0 <= fp_f w' < 18446744073709551616 /\
  scaled_ok (scaled (fp_f upper) C) (scaled (fp_f lower) C) (scaled (fp_f w') C).
Proof.
  intros [Hs Hu _ Hl Hw Hn _] Hf He HC.
  assert (2 ^ (s + 1) = 2 * 2 ^ s) as Hp1 by (rewrite Z.pow_add_r by lia; lia).
  assert (2 ^ s = 2 * 2 ^ (s - 1)) as Hp2 by (rewrite <- Z.pow_succ_r by lia; f_equal; lia).
  assert (512 <= 2 ^ (s - 1)) as H9 by (change 512 with (2 ^ 9); apply Z.pow_le_mono_r; lia).
  rewrite Hp1 in Hw.
  assert (fp_f lower + 1536 <= fp_f upper /\ fp_f w' + 1024 <= fp_f upper /\
          fp_f lower + 512 <= fp_f w' /\ 0 <= fp_f lower) as (G1 & G2 & G3 & G4).
  { rewrite Hu, Hw, Hl, Hp2. destruct (fp_f w =? _) eqn:E; zcmp; [rewrite E; lia|].
    set (t := 2 ^ (s - 1)) in *. split_and!; [lia|lia|lia|].
    apply Z.mul_nonneg_nonneg; lia. }
  pose proof (scaled_gap _ _ C 1536 G1 ltac:(lia) ltac:(lia)).
  pose proof (scaled_gap _ _ C 1024 G2 ltac:(lia) ltac:(lia)).
  pose proof (scaled_gap _ _ C 512 G3 ltac:(lia) ltac:(lia)).
  pose proof (scaled_spec (fp_f upper) C). pose proof (scaled_spec (fp_f lower) C).
  assert (0 <= fp_f lower * C) by (apply Z.mul_nonneg_nonneg; lia).
  assert (85070591730234615865843651857942052864 <= fp_f upper * C
          <= 18446744073709551615 * 18446744073709551615).
  { split; [|apply Z.mul_le_mono_nonneg; lia].
    change 85070591730234615865843651857942052864 with (9223372036854775808 * 9223372036854775808).
    apply Z.mul_le_mono_nonneg; lia. }
  split_and!; [lia|lia|nia|lia|]. constructor; lia.
Qed.

(** * The whole run, in scaled integers *)
Lemma kTens_tail : drop 10 kTens = tens_down 10.
Proof. reflexivity. Qed.

(** Scaling and digit generation for any operands that satisfy the bounds. *)
Lemma grisu2_emit_spec w upper lower p :
  let U := scaled (fp_f upper) (cp_f p) in
  let L := scaled (fp_f lower) (cp_f p) in
  let shift := - (fp_e upper + cp_e p + 64) in
  0 <= fp_f upper < 18446744073709551616 -> 0 <= fp_f lower < 18446744073709551616 ->
  0 <= fp_f w < 18446744073709551616 -> 0 <= cp_f p < 18446744073709551616 ->
  scaled_ok U L (scaled (fp_f w) (cp_f p)) -> 32 <= shift <= 60 ->
  exists r kappa, grisu2_emit w upper lower p = Some (reverse r, - cp_k p + kappa) /\
    -19 <= kappa <= 9 /\ digits_in (U - 1) (U - 1 - (L + 1)) shift r kappa.
Proof.
  intros U L shift Hu Hl Hw Hp [HU HL Hdel HW] Hsh.
  pose proof (one_bounds shift Hsh) as Hone. unfold grisu2_emit.
  rewrite !fp_multiply_f by done. cbn [fp_f].
  change (fp_e (fp_multiply upper (mkFp (cp_f p) (cp_e p)))) with (fp_e upper + cp_e p + 64).
  fold (scaled (fp_f upper) (cp_f p)) (scaled (fp_f lower) (cp_f p)) (scaled (fp_f w) (cp_f p)).
  fold U L shift. set (W := scaled (fp_f w) (cp_f p)) in *. clearbody U L W shift.
  rewrite (u64_small (L + 1)), (u64_small (U - 1)) by lia.
  rewrite (u64_small (U - 1 - W)), (u64_small (U - 1 - (L + 1))) by lia.
  rewrite Z.shiftl_1_l, Z.shiftr_div_pow2, land_ones_mod, kTens_tail by lia.
  assert (U - 1 = (U - 1) / 2 ^ shift * 2 ^ shift + (U - 1) mod 2 ^ shift) as Hdm
    by (rewrite Z.mul_comm; apply Z.div_mod; lia).
  pose proof (Z.mod_pos_bound (U - 1) (2 ^ shift) ltac:(lia)) as Hmod.
  assert (0 <= (U - 1) / 2 ^ shift < 4294967296) as Hq.
  { split; [apply Z.div_pos; lia|]. apply Z.div_lt_upper_bound; [lia|]. nia. }
  destruct (integral_loop_spec (U - 1) (U - 1 - (L + 1)) (U - 1 - W) shift (- cp_k p)
              Hsh ltac:(lia) ltac:(lia) ltac:(lia) 10 [] ((U - 1) / 2 ^ shift)
              ((U - 1) mod 2 ^ shift)) as (res & -> & Hres);
    [split; [constructor|done]|lia|change (10 ^ Z.of_nat 10) with 10000000000; lia|lia
    |cbn [rval]; lia|lia|].
  cbn [mbind option_bind]. destruct res as [[r k']|[r rest]].
  - destruct Hres as (kappa & -> & Hk & Hin). exists r, kappa. split_and!; try done; lia.
  - destruct Hres as (Hr & Hsum & Hgt).
    destruct (fractional_loop_spec (U - 1) (U - 1 - (L + 1)) (U - 1 - W) shift (- cp_k p)
                Hsh ltac:(lia) ltac:(lia) ltac:(lia) 18 0 r ((U - 1) mod 2 ^ shift))
      as (r' & kappa & E & Hk & Hin); [lia|lia|done|change (10 ^ 0) with 1; lia
      |change (10 ^ 0) with 1; lia|].
    change (10 ^ 0) with 1 in E. rewrite Z.mul_1_r in E. change (- 0) with 0 in E. rewrite E.
    exists r', kappa. split_and!; try done; lia.
Qed.

#[local] Opaque normalize grisu2_upper grisu2_lower grisu2_emit fp_of_bits.
Lemma grisu2_run bits :
  0 < bits < 9218868437227405312 ->
  exists upper lower w' s i p r kappa,
    operands (fp_of_bits bits) upper lower w' s /\ kPow10 !! i = Some p /\
    0 <= fp_f lower < 18446744073709551616 /\
    let U := scaled (fp_f upper) (cp_f p) in
    let L := scaled (fp_f lower) (cp_f p) in
    let shift := - (fp_e upper + cp_e p + 64) in
    scaled_ok U L (scaled (fp_f w') (cp_f p)) /\ 32 <= shift <= 60 /\ -19 <= kappa <= 9 /\
    grisu2_digits bits = Some (reverse r, - cp_k p + kappa) /\
    digits_in (U - 1) (U - 1 - (L + 1)) shift r kappa.
Proof.
  intros Hb. destruct (fp_of_bits_spec bits Hb) as (Hf & He & Hn).
  destruct (operands_of_bits bits Hb) as (upper & w' & s & Eu & Ew & Hops).
  destruct (cached_pow_index_spec (fp_e upper)) as (i & p & Ei & Ep & Hwin);
    [apply (op_range _ _ _ _ _ Hops)|].
  destruct (kPow10_row _ _ Ep) as [[Hrow _] _].
  destruct (operands_scaled _ _ _ _ _ (cp_f p) Hops Hf Hn Hrow) as (Hlr & Hwr & Hsc).
  pose proof (op_norm _ _ _ _ _ Hops) as Hun.
  destruct (grisu2_emit_spec w' upper (grisu2_lower (fp_of_bits bits) upper) p)
    as (r & kappa & E & Hk & Hin); [lia|done|done|lia|done|lia|].
  exists upper, (grisu2_lower (fp_of_bits bits) upper), w', s, (Z.to_nat i), p, r, kappa.
  split; [done|]. split; [done|]. split; [done|]. split; [done|]. split; [lia|]. split; [done|].
  split; [|done]. unfold grisu2_digits. cbv zeta.
  apply bind_Some; exists upper; split; [exact Eu|].
  apply bind_Some; exists w'; split; [exact Ew|].
  apply bind_Some; exists i; split; [exact Ei|].
  apply bind_Some; exists p; split; [exact Ep|exact E].
Qed.

(** * From scaled integers to the rounding interval *)
#[local] Open Scope Q_scope.

Lemma Qpow2_pos x : 0 < 2 ^ x.
Proof. apply Qpower_0_lt. reflexivity. Qed.
Lemma Qpow10_pos x : 0 < 10 ^ x.
Proof. apply Qpower_0_lt. reflexivity. Qed.
Lemma Qpow_plus a x y : 0 < a -> a ^ (x + y) == a ^ x * a ^ y.
Proof. intros Ha. apply Qpower_plus. lra. Qed.
Lemma Qpow_Z (a n : Z) : (0 <= n)%Z -> inject_Z (a ^ n) == inject_Z a ^ n.
Proof. intros. by apply Zpower_Qpower. Qed.

(** The digits, at decimal exponent [kappa], lie in the scaled interval. *)
Lemma digits_in_Q U delta shift r kappa :
  (0 <= shift)%Z -> digits_in U delta shift r kappa ->
  inject_Z (U - delta) <= inject_Z (rval r) * (10 ^ kappa * 2 ^ shift) /\
  inject_Z (rval r) * (10 ^ kappa * 2 ^ shift) <= inject_Z U.
Proof.
  intros Hs (_ & _ & Hpos & Hneg).
  assert (inject_Z (2 ^ shift) == 2 ^ shift) as H2 by (by rewrite Qpow_Z).
  destruct (Z.leb_spec 0 kappa) as [Hk|Hk].
  - destruct (Hpos Hk) as [[H1 H3] _].
    assert (inject_Z (10 ^ kappa) == 10 ^ kappa) as H10 by (by rewrite Qpow_Z).
    rewrite <- H2, <- H10, <- !inject_Z_mult. split; by rewrite <- Zle_Qle.
  - destruct (Hneg Hk) as [[H1 H3] _].
    assert (inject_Z (10 ^ (- kappa)) == 10 ^ (- kappa)) as H10 by (rewrite Qpow_Z; [done|lia]).
    rewrite Zle_Qle in H1, H3. rewrite !inject_Z_mult, H2, H10 in H1, H3.
    assert (10 ^ kappa * 10 ^ (- kappa) == 1) as Hinv.
    { rewrite <- Qpow_plus by reflexivity. by rewrite Z.add_opp_diag_r. }
    pose proof (Qpow10_pos kappa) as Hp.
    split.
    + apply (Qmult_le_compat_r _ _ (10 ^ kappa)) in H1; [|lra].
      assert (inject_Z (U - delta) == inject_Z (U - delta) * 10 ^ (- kappa) * 10 ^ kappa) as ->.
      { rewrite <- Qmult_assoc, (Qmult_comm (10 ^ (- kappa))), Hinv. ring. }
      eapply Qle_trans; [exact H1|]. apply Qle_lteq. right. ring.
    + apply (Qmult_le_compat_r _ _ (10 ^ kappa)) in H3; [|lra].
      assert (inject_Z U == inject_Z U * 10 ^ (- kappa) * 10 ^ kappa) as ->.
      { rewrite <- Qmult_assoc, (Qmult_comm (10 ^ (- kappa))), Hinv. ring. }
      eapply Qle_trans; [|exact H3]. apply Qle_lteq. right. ring.
Qed.

(** Rescaling: with a = scaled operand, P = 10^kp against C * 2^pe. *)
Lemma scaled_below a C pe kp :
  (0 <= a < 18446744073709551616)%Z ->
  inject_Z (2 * C - 1) * 2 ^ pe <= 2 * 10 ^ kp ->
  inject_Z (scaled a C - 1) * 2 ^ 64 * 2 ^ pe < inject_Z a * 10 ^ kp.
Proof.
  intros Ha Hrow. destruct (scaled_inside a C Ha) as [H _]. rewrite Zlt_Qlt in H.
  rewrite !inject_Z_mult in H. pose proof (Qpow2_pos pe) as Hp.
  assert (0 <= inject_Z a) by (change 0 with (inject_Z 0); rewrite <- Zle_Qle; lia).
  change (inject_Z 36893488147419103232) with (2 * 2 ^ 64) in H.
  apply (Qmult_lt_compat_r _ _ (2 ^ pe)) in H; [|done].
  apply (Qmult_le_compat_r _ _ (inject_Z a)) in Hrow; [|done].
  revert H Hrow. generalize (inject_Z a) (2 ^ pe) (10 ^ kp) (inject_Z (scaled a C - 1))
    (inject_Z (2 * C - 1)) (2 ^ 64). intros x y z t u v ? ?. lra.
Qed.

Lemma scaled_above a C pe kp :
  (0 <= a < 18446744073709551616)%Z ->
  2 * 10 ^ kp <= inject_Z (2 * C + 1) * 2 ^ pe ->
  inject_Z a * 10 ^ kp < inject_Z (scaled a C + 1) * 2 ^ 64 * 2 ^ pe.
Proof.
  intros Ha Hrow. destruct (scaled_inside a C Ha) as [_ H]. rewrite Zlt_Qlt in H.
  rewrite !inject_Z_mult in H. pose proof (Qpow2_pos pe) as Hp.
  assert (0 <= inject_Z a) by (change 0 with (inject_Z 0); rewrite <- Zle_Qle; lia).
  change (inject_Z 36893488147419103232) with (2 * 2 ^ 64) in H.
  apply (Qmult_lt_compat_r _ _ (2 ^ pe)) in H; [|done].
  apply (Qmult_le_compat_r _ _ (inject_Z a)) in Hrow; [|done].
  revert H Hrow. generalize (inject_Z a) (2 ^ pe) (10 ^ kp) (inject_Z (scaled a C + 1))
    (inject_Z (2 * C + 1)) (2 ^ 64). intros x y z t u v ? ?. lra.
Qed.

(** The rounding interval of the decoded value: half-way points to the neighbouring doubles
    (the lower neighbour of a power of two is twice as close). *)
Definition boundary_hi (w : Fp) : Q := inject_Z (2 * fp_f w + 1) * 2 ^ (fp_e w - 1).
Definition boundary_lo (w : Fp) : Q :=
  if (fp_f w =? 4503599627370496)%Z then inject_Z (4 * fp_f w - 1) * 2 ^ (fp_e w - 2)
  else inject_Z (2 * fp_f w - 1) * 2 ^ (fp_e w - 1).

Lemma operand_Q (m s e : Z) :
  (0 <= s)%Z -> inject_Z (m * 2 ^ s) * 2 ^ (e - s) == inject_Z m * 2 ^ e.
Proof.
  intros Hs. rewrite inject_Z_mult, Qpow_Z, <- Qmult_assoc, <- Qpow_plus by (done || lia).
  by replace (s + (e - s))%Z with e by lia.
Qed.

Lemma operands_boundaries w upper lower w' s :
  operands w upper lower w' s ->
  inject_Z (fp_f upper) * 2 ^ fp_e upper == boundary_hi w /\
  inject_Z (fp_f lower) * 2 ^ fp_e upper == boundary_lo w.
Proof.
  intros [Hs Hu Hue Hl _ _ _]. rewrite Hu, Hl, Hue. unfold boundary_hi, boundary_lo. split.
  - apply operand_Q. lia.
  - destruct (fp_f w =? _)%Z; [|apply operand_Q; lia].
    replace (fp_e w - 1 - s)%Z with (fp_e w - 2 - (s - 1))%Z by lia. apply operand_Q. lia.
Qed.

(** Removing the scale: D * 10^kappa * 2^shift against a * 10^kp / (2^64 * 2^pe). *)
Lemma unscale_lt D a kappa kp pe ue shift :
  shift = (- (ue + pe + 64))%Z ->
  D * (10 ^ kappa * 2 ^ shift) * 2 ^ 64 * 2 ^ pe < a * 10 ^ kp ->
  D * 10 ^ (- kp + kappa) < a * 2 ^ ue.
Proof.
  intros -> H. pose proof (Qpow2_pos ue) as H2. pose proof (Qpow10_pos (- kp)) as H10.
  apply (Qmult_lt_compat_r _ _ (2 ^ ue * 10 ^ (- kp))) in H;
    [|by apply Qmult_lt_0_compat].
  assert (2 ^ (- (ue + pe + 64)) * 2 ^ 64 * 2 ^ pe * 2 ^ ue == 1) as E2.
  { rewrite <- !Qpow_plus by reflexivity.
    by replace (- (ue + pe + 64) + 64 + pe + ue)%Z with 0%Z by lia. }
  assert (10 ^ kp * 10 ^ (- kp) == 1) as E10.
  { rewrite <- Qpow_plus by reflexivity. by replace (kp + - kp)%Z with 0%Z by lia. }
  rewrite (Qpow_plus 10 (- kp) kappa) by reflexivity.
  revert H E2 E10. generalize (2 ^ (- (ue + pe + 64))) (2 ^ 64) (2 ^ pe) (2 ^ ue) (10 ^ kp)
    (10 ^ (- kp)) (10 ^ kappa). intros A B C E F G K H E2 E10.
  assert (D * (K * A) * B * C * (E * G) == D * (G * K) * (A * B * C * E)) as Hl by ring.
  assert (a * F * (E * G) == a * E * (F * G)) as Hr by ring.
  rewrite Hl, Hr, E2, E10 in H. lra.
Qed.

Lemma unscale_gt D a kappa kp pe ue shift :
  shift = (- (ue + pe + 64))%Z ->
  a * 10 ^ kp < D * (10 ^ kappa * 2 ^ shift) * 2 ^ 64 * 2 ^ pe ->
  a * 2 ^ ue < D * 10 ^ (- kp + kappa).
Proof.
  intros Hs H. apply Qopp_lt_compat in H.
  assert (- D * 10 ^ (- kp + kappa) < - a * 2 ^ ue) as Hn.
  { apply (unscale_lt (- D) (- a) kappa kp pe ue shift Hs). lra. }
  lra.
Qed.

(** At most 18 digits: the interval is at least 765 units wide. *)
Lemma digits_in_length U delta shift r kappa :
  (32 <= shift <= 60)%Z -> (U < 18446744073709551616)%Z -> (765 <= delta < U)%Z ->
  digits_in U delta shift r kappa -> (1 <= length r <= 18)%nat.
Proof.
  intros Hs HU Hd ((Hr & Hv) & Hne & Hpos & Hneg).
  assert (rval r < 1000000000000000000)%Z as Hlt.
  { destruct (Z.leb_spec 0 kappa) as [Hk|Hk].
    - destruct (Hpos Hk) as [[_ H1] H2]. rewrite Z.pow_add_r in H2 by lia.
      change (10 ^ 1)%Z with 10%Z in H2. pose proof (rval_nonneg r Hr). nia.
    - destruct (Hneg Hk) as [[_ H1] H2]. pose proof (rval_nonneg r Hr).
      replace (- kappa)%Z with ((- kappa - 1) + 1)%Z in H1 by lia.
      rewrite Z.pow_add_r in H1 by lia. change (10 ^ 1)%Z with 10%Z in H1.
      set (t := (10 ^ (- kappa - 1))%Z) in *.
      assert (0 < t)%Z by (apply Z.pow_pos_nonneg; lia).
      assert (0 < 2 ^ shift)%Z by (apply Z.pow_pos_nonneg; lia).
      assert (765 * t < 2 ^ shift)%Z by nia.
      destruct (Z.ltb_spec (rval r) 1000000000000000000); [done|]. exfalso. nia. }
  specialize (Hv Hne). destruct r as [|d r]; [done|]. split; [cbn; lia|].
  destruct (decide (length (d :: r) <= 18)%nat); [done|]. exfalso.
  assert (10 ^ 18 <= 10 ^ (Z.of_nat (length (d :: r)) - 1))%Z by (apply Z.pow_le_mono_r; lia).
  change (10 ^ 18)%Z with 1000000000000000000%Z in *. lia.
Qed.

Lemma grisu2_interval bits :
  (0 < bits < 9218868437227405312)%Z ->
  exists ds k, grisu2_digits bits = Some (ds, k) /\
    Forall is_digit ds /\ (1 <= length ds <= 18)%nat /\ (-359 <= k <= 357)%Z /\
    boundary_lo (fp_of_bits bits) < inject_Z (dec_value ds) * 10 ^ k < boundary_hi (fp_of_bits bits).
Proof.
  intros Hb.
  destruct (grisu2_run bits Hb) as (upper & lower & w' & s & i & p & r & kappa & Hops & Hp & Hl &
    [HU HL Hdel HW] & Hsh & Hk & E & Hin).
  destruct (kPow10_row _ _ Hp) as [(Hc & Hrow1 & Hrow2) Hkp].
  destruct (operands_boundaries _ _ _ _ _ Hops) as [Hhi Hlo].
  pose proof (op_norm _ _ _ _ _ Hops) as Hun.
  destruct (fun H => digits_in_Q _ _ _ _ _ H Hin) as [Q1 Q2]; [lia|].
  assert (1 <= length r <= 18)%nat as Hlen
    by (eapply digits_in_length; [exact Hsh| | |exact Hin]; lia).
  exists (reverse r), (- cp_k p + kappa)%Z. rewrite rval_dec_value, length_reverse.
  split; [done|]. split; [apply Forall_reverse, Hin|]. split; [done|]. split; [lia|].
  rewrite <- Hhi, <- Hlo.
  split.
  - apply (unscale_gt _ _ _ _ (cp_e p) _ _ eq_refl).
    eapply Qlt_le_trans; [apply (scaled_above _ (cp_f p)); [lia|done]|].
    replace (scaled (fp_f upper) (cp_f p) - 1 -
      (scaled (fp_f upper) (cp_f p) - 1 - (scaled (fp_f lower) (cp_f p) + 1)))%Z
      with (scaled (fp_f lower) (cp_f p) + 1)%Z in Q1 by lia.
    apply Qmult_le_compat_r; [|apply Qlt_le_weak, Qpow2_pos].
    by apply Qmult_le_compat_r; [|apply Qlt_le_weak, Qpow2_pos].
  - apply (unscale_lt _ _ _ _ (cp_e p) _ _ eq_refl).
    eapply Qle_lt_trans; [|apply (scaled_below _ (cp_f p)); [lia|done]].
    apply Qmult_le_compat_r; [|apply Qlt_le_weak, Qpow2_pos].
    by apply Qmult_le_compat_r; [|apply Qlt_le_weak, Qpow2_pos].
Qed.
