(* ===== verification/NumText.v ===== *)
(** numeric.h outside namespace dtoa: the wire text of a double, and the float grammars.

    A double is its 64-bit pattern.  [read_decimal] is a reference reader of decimal text; the
    text of every finite nonzero double reads back as a number strictly inside that double's
    rounding interval. *)
From Stdlib Require Import QArith Qpower Lqa.
From S2P Require Import Prelude Decimal Grisu GrisuCore GrisuProof.
#[local] Open Scope Z_scope.

(** * Classification of the bit pattern *)
Definition dbl_exp (bits : Z) : Z := Z.land (Z.shiftr bits 52) 2047.
Definition dbl_man (bits : Z) : Z := Z.land bits (2 ^ 52 - 1).
Definition dbl_neg (bits : Z) : bool := 9223372036854775808 <=? bits.
Definition dbl_abs (bits : Z) : Z := if dbl_neg bits then bits - 9223372036854775808 else bits.
Definition isnan (bits : Z) : bool := 9218868437227405312 <? dbl_abs bits.
Definition isinf (bits : Z) : bool := dbl_abs bits =? 9218868437227405312.
Definition iszero (bits : Z) : bool := dbl_abs bits =? 0.

(** [static_cast<long long>(value)] of the magnitude, when it has no fractional part: the
    truncation is a double itself, so converting it back compares equal exactly then. *)
Definition dbl_integral (bits : Z) : option Z :=
  let w := fp_of_bits (dbl_abs bits) in
  if 0 <=? fp_e w then Some (fp_f w * 2 ^ fp_e w)
  else if fp_f w mod 2 ^ (- fp_e w) =? 0 then Some (fp_f w / 2 ^ (- fp_e w)) else None.

Definition kDoubleTextMax : Z := 40.
Definition kIntegralBound : Z := 4611686018427387904.

(** * The wire text *)
Definition zeros (n : Z) : bytes := replicate (Z.to_nat n) 48.

(** The digit string placed by redis's fixed/scientific rule. *)
Definition place_digits (digits : bytes) (k : Z) : option bytes :=
  let ndigits := Z.of_nat (length digits) in
  let decimal_exponent := k + ndigits - 1 in
  let magnitude := if decimal_exponent <? 0 then - decimal_exponent else decimal_exponent in
  if (0 <=? k) && (magnitude <? ndigits + 7) then Some (digits ++ zeros k)
  else if (k <? 0) && ((-7 <? k) || (magnitude <? 4)) then
    let offset := ndigits + k in
    if offset <=? 0 then Some ([48; 46] ++ zeros (- offset) ++ digits)
    else Some (take (Z.to_nat offset) digits ++ [46] ++ drop (Z.to_nat offset) digits)
  else
    exp ← u64_digits (u64 magnitude);
    d0 ← head digits;
    Some ([d0] ++ (if 1 <? ndigits then [46] ++ drop 1 digits else []) ++
          [101; if decimal_exponent <? 0 then 45 else 43] ++ exp).

Definition redis_double_text (bits : Z) : option bytes :=
  if isnan bits then Some (str "nan")
  else if isinf bits then Some (if dbl_neg bits then str "-inf" else str "inf")
  else if iszero bits then Some (if dbl_neg bits then str "-0" else str "0")
  else
    let sign := if dbl_neg bits then [45] else [] in
    let general :=
      '(digits, k) ← grisu2_digits (dbl_abs bits);
      t ← place_digits digits k; Some (sign ++ t) in
    match dbl_integral bits with
    | Some magnitude =>
        if magnitude <=? kIntegralBound then
          ds ← u64_digits magnitude; Some (sign ++ ds)
        else general
    | None => general
    end.

(** * The float grammars

    [strtod] is the C library's: applied to the bytes before the terminator it gives the
    value's bit pattern, the number of bytes consumed and whether it reported ERANGE. *)
Definition isspace (c : Z) : bool := ((9 <=? c) && (c <=? 13)) || (c =? 32).

Fixpoint cstring (s : bytes) : bytes :=
  match s with
  | [] => []
  | c :: s => if c =? 0 then [] else c :: cstring s
  end.

Section Grammars.
Context (strtod : bytes -> Z * Z * bool).

Definition parse_double_strict (s : bytes) : option Z :=
  match s with
  | [] => None
  | c :: _ =>
      if isspace c then None
      else
        let '(value, consumed, erange) := strtod (cstring s) in
        if negb (consumed =? Z.of_nat (length s)) then None
        else if erange && (isinf value || iszero value) then None
        else if isnan value then None
        else Some value
  end.

(** [*end] of the terminated copy. *)
Definition end_byte (s : bytes) (consumed : Z) : Z :=
  default 0 ((s ++ [0]) !! Z.to_nat consumed).

Definition parse_double_lenient (s : bytes) : option Z :=
  let '(value, consumed, _) := strtod (cstring s) in
  if negb (end_byte s consumed =? 0) || isnan value then None else Some value.

Definition parse_double_sortable (s : bytes) : option Z :=
  let '(value, consumed, erange) := strtod (cstring s) in
  if negb (end_byte s consumed =? 0) || erange || isnan value then None else Some value.
End Grammars.

(** * Reference reader of decimal text *)
Definition is_digitb (c : Z) : bool := (48 <=? c) && (c <=? 57).
Fixpoint span_digits (l : bytes) : bytes * bytes :=
  match l with
  | c :: l' => if is_digitb c then let '(ds, r) := span_digits l' in (c :: ds, r) else ([], l)
  | [] => ([], [])
  end.

Definition read_exponent (l : bytes) : option Z :=
  match l with
  | [] => Some 0
  | e :: s :: l =>
      if negb (e =? 101) then None
      else match span_digits l with
           | (ds, []) => if s =? 45 then Some (- dec_value ds)
                         else if s =? 43 then Some (dec_value ds) else None
           | _ => None
           end
  | _ => None
  end.

Definition read_unsigned (l : bytes) : option Q :=
  let '(ip, r) := span_digits l in
  let '(fr, r) := match r with 46 :: r' => span_digits r' | _ => ([], r) end in
  match ip with
  | [] => None
  | _ => e ← read_exponent r;
         Some (inject_Z (dec_value (ip ++ fr)) * 10 ^ (e - Z.of_nat (length fr)))%Q
  end.

Definition read_decimal (l : bytes) : option Q :=
  match l with
  | 45 :: l => q ← read_unsigned l; Some (- q)%Q
  | _ => read_unsigned l
  end.

(** * Lemmas: reading digits *)
Lemma fold_dec_app ds v :
  fold_left dec_step ds v = v * 10 ^ Z.of_nat (length ds) + dec_value ds.
Proof.
  revert v. unfold dec_value. induction ds as [|c ds IH]; intros v; cbn [fold_left length]; [cbn; lia|].
  rewrite (IH (dec_step v c)), (IH (dec_step 0 c)), Nat2Z.inj_succ, Z.pow_succ_r by lia.
  unfold dec_step. lia.
Qed.
Lemma dec_value_app a b :
  dec_value (a ++ b) = dec_value a * 10 ^ Z.of_nat (length b) + dec_value b.
Proof. unfold dec_value at 1. rewrite fold_left_app. apply fold_dec_app. Qed.

Lemma zeros_spec n :
  Forall is_digit (zeros n) /\ dec_value (zeros n) = 0 /\ length (zeros n) = Z.to_nat n.
Proof.
  unfold zeros. rewrite length_replicate. split_and!; [|
    |done].
  - apply Forall_replicate. unfold is_digit. lia.
  - induction (Z.to_nat n) as [|m IH]; [done|]. cbn [replicate].
    change (48 :: replicate m 48) with ([48] ++ replicate m 48).
    rewrite dec_value_app, IH. change (dec_value [48]) with 0. lia.
Qed.

Lemma is_digitb_spec c : is_digit c -> is_digitb c = true.
Proof. unfold is_digit, is_digitb. intros. apply andb_true_iff. rewrite !Z.leb_le. lia. Qed.

Lemma span_digits_app ds r :
  Forall is_digit ds -> (forall c, head r = Some c -> is_digitb c = false) ->
  span_digits (ds ++ r) = (ds, r).
Proof.
  intros H Hr. induction H as [|c ds Hc H IH]; cbn.
  - destruct r as [|c r]; [done|]. cbn. by rewrite (Hr c).
  - by rewrite is_digitb_spec, IH.
Qed.
Lemma span_digits_all ds : Forall is_digit ds -> span_digits ds = (ds, []).
Proof. intros H. rewrite <- (app_nil_r ds) at 1. by apply span_digits_app. Qed.

(** An exponent suffix: empty, or [e], a sign and digits. *)
Definition exp_suffix (neg : bool) (ds : bytes) : bytes := [101; if neg then 45 else 43] ++ ds.

Lemma read_exp_suffix (neg : bool) ds :
  Forall is_digit ds ->
  read_exponent (exp_suffix neg ds) = Some (if neg then - dec_value ds else dec_value ds).
Proof. intros H. cbn. rewrite span_digits_all by done. by destruct neg. Qed.

(** Text with a point, and text without one. *)
Lemma read_unsigned_point ip fr r e :
  ip <> [] -> Forall is_digit ip -> Forall is_digit fr ->
  read_exponent r = Some e -> (forall c, head r = Some c -> c = 101) ->
  read_unsigned (ip ++ 46 :: fr ++ r) =
    Some (inject_Z (dec_value (ip ++ fr)) * 10 ^ (e - Z.of_nat (length fr)))%Q.
Proof.
  intros Hne Hip Hfr He Hr. unfold read_unsigned.
  rewrite span_digits_app; [|done|by intros c [= <-]].
  rewrite span_digits_app; [|done|by intros c Hc; rewrite (Hr c Hc)].
  destruct ip; [done|]. by rewrite He.
Qed.
Lemma read_unsigned_plain ip r e :
  ip <> [] -> Forall is_digit ip ->
  read_exponent r = Some e -> (forall c, head r = Some c -> c = 101) ->
  read_unsigned (ip ++ r) = Some (inject_Z (dec_value ip) * 10 ^ e)%Q.
Proof.
  intros Hne Hip He Hr. unfold read_unsigned.
  rewrite span_digits_app; [|done|by intros c Hc; rewrite (Hr c Hc)].
  destruct r as [|c r].
  - destruct ip; [done|]. rewrite He, app_nil_r. cbn [mbind option_bind length].
    by rewrite Z.sub_0_r.
  - rewrite (Hr c eq_refl). rewrite (Hr c eq_refl) in He.
    destruct ip; [done|]. rewrite He, app_nil_r. cbn [mbind option_bind length].
    by rewrite Z.sub_0_r.
Qed.

Lemma u64_digits_spec v :
  0 <= v < 18446744073709551616 ->
  exists ds, u64_digits v = Some ds /\ canonical ds v /\ (length ds <= 20)%nat.
Proof. apply u64_to_dec_spec. Qed.

(** The canonical text of a number below 10^n has at most n digits. *)
Lemma canonical_length ds v n :
  canonical ds v -> 1 <= n -> v < 10 ^ n -> Z.of_nat (length ds) <= n.
Proof.
  intros (Hd & Hv & Hne & Hz) Hn Hlt. destruct ds as [|c ds]; [done|].
  destruct (decide (c = 48)) as [->|Hc].
  - rewrite (Hz ds eq_refl). cbn. lia.
  - destruct (decide (Z.of_nat (length (c :: ds)) <= n)) as [|Hgt]; [done|]. exfalso.
    inversion Hd as [|?? Hc' Hd']; subst. unfold is_digit in Hc'.
    change (c :: ds) with ([c] ++ ds) in Hlt. rewrite dec_value_app in Hlt. cbn [length] in Hgt.
    assert (0 <= dec_value ds) by (by apply dec_value_nonneg).
    assert (10 ^ n <= 10 ^ Z.of_nat (length ds)) by (apply Z.pow_le_mono_r; lia).
    assert (1 <= dec_value [c]) by (cbn; unfold dec_step; lia). nia.
Qed.

Lemma inject_Z_pow10 k : 0 <= k -> (inject_Z (10 ^ k) == 10 ^ k)%Q.
Proof. intros. by rewrite Zpower_Qpower. Qed.

(** What a placement of the digit string D with exponent k has to be. *)
Definition reads_as (t : bytes) (q : Q) : Prop :=
  exists q', read_unsigned t = Some q' /\ (q' == q)%Q.

Lemma place_plain digits k :
  Forall is_digit digits -> digits <> [] -> 0 <= k ->
  reads_as (digits ++ zeros k) (inject_Z (dec_value digits) * 10 ^ k).
Proof.
  intros Hd Hne Hk. destruct (zeros_spec k) as (Hz & Hz0 & Hzl). eexists. split.
  - rewrite <- (app_nil_r (digits ++ zeros k)).
    apply (read_unsigned_plain (digits ++ zeros k) [] 0); [by destruct digits|by apply Forall_app_2|done|done].
  - rewrite dec_value_app, Hz0, Hzl, Z.add_0_r, inject_Z_mult, Z2Nat.id, inject_Z_pow10 by done.
    cbn [Qpower]. ring.
Qed.

Lemma place_small digits k :
  Forall is_digit digits -> Z.of_nat (length digits) + k <= 0 ->
  reads_as ([48; 46] ++ zeros (- (Z.of_nat (length digits) + k)) ++ digits)
    (inject_Z (dec_value digits) * 10 ^ k).
Proof.
  intros Hd Hk. destruct (zeros_spec (- (Z.of_nat (length digits) + k))) as (Hz & Hz0 & Hzl).
  eexists. split.
  - rewrite <- (app_nil_r (_ ++ digits)).
    apply (read_unsigned_point [48] (zeros _ ++ digits) [] 0); [done| |by apply Forall_app_2|done|done].
    constructor; [unfold is_digit; lia|constructor].
  - rewrite !dec_value_app, Hz0. change (dec_value [48]) with 0.
    rewrite length_app, Hzl. rewrite !Z.mul_0_l, !Z.add_0_l.
    by replace (0 - _) with k by lia.
Qed.

Lemma place_inside digits k :
  Forall is_digit digits -> k < 0 -> 0 < Z.of_nat (length digits) + k ->
  let n := Z.to_nat (Z.of_nat (length digits) + k) in
  reads_as (take n digits ++ [46] ++ drop n digits) (inject_Z (dec_value digits) * 10 ^ k).
Proof.
  intros Hd Hk Ho n. eexists. split.
  - rewrite <- (app_nil_r (drop n digits)).
    apply (read_unsigned_point (take n digits) (drop n digits) [] 0);
      [|by apply Forall_take|by apply Forall_drop|done|done].
    intros E%(f_equal length). rewrite length_take in E. cbn in E. lia.
  - rewrite take_drop, length_drop. by replace (0 - _) with k by lia.
Qed.

Lemma place_scientific c ds k ex :
  Forall is_digit (c :: ds) -> canonical ex (Z.abs (k + Z.of_nat (length ds))) ->
  reads_as ([c] ++ (if 1 <? Z.of_nat (length (c :: ds)) then [46] ++ ds else []) ++
            exp_suffix (k + Z.of_nat (length ds) <? 0) ex)
    (inject_Z (dec_value (c :: ds)) * 10 ^ k).
Proof.
  intros Hd (Hex & Hv & _). inversion Hd as [|?? Hc Hds]; subst.
  pose proof (read_exp_suffix (k + Z.of_nat (length ds) <? 0) ex Hex) as HE. rewrite Hv in HE.
  assert (Hh : forall b x, head (exp_suffix b ex) = Some x -> x = 101) by (by intros b x [= <-]).
  destruct ds as [|c' ds]; cbn [length].
  - eexists. split; [apply (read_unsigned_plain [c]); [done|by constructor|apply HE|apply Hh]|].
    apply Qmult_comp; [done|]. f_equiv. cbn [length]. destruct (Z.ltb_spec (k + Z.of_nat 0) 0); lia.
  - rewrite (proj2 (Z.ltb_lt 1 _)) by (cbn; lia). eexists. split.
    + apply (read_unsigned_point [c] (c' :: ds)); [done|by constructor|done|apply HE|apply Hh].
    + cbn [app length] in *. apply Qmult_comp; [done|]. f_equiv.
      destruct (Z.ltb_spec (k + Z.of_nat (S (length ds))) 0); lia.
Qed.

(** Every placement reads back as D * 10^k, starts with a digit and stays within 25 bytes. *)
Lemma place_digits_spec digits k :
  Forall is_digit digits -> (1 <= length digits <= 18)%nat -> -359 <= k <= 357 ->
  exists t, place_digits digits k = Some t /\ reads_as t (inject_Z (dec_value digits) * 10 ^ k) /\
    (length t <= 25)%nat /\ exists c, head t = Some c /\ is_digit c.
Proof.
  intros Hd Hl Hk. destruct digits as [|c ds]; [cbn in Hl; lia|].
  assert (Hc : is_digit c) by (by inversion Hd).
  assert (Hne : c :: ds <> []) by done.
  pose proof (place_plain (c :: ds) k Hd Hne) as PP.
  pose proof (place_small (c :: ds) k Hd) as PS.
  pose proof (place_inside (c :: ds) k Hd) as PI.
  pose proof (place_scientific c ds k) as PX.
  unfold place_digits. set (nd := Z.of_nat (length (c :: ds))) in *.
  assert (Hnd : nd = 1 + Z.of_nat (length ds)) by (unfold nd; cbn; lia).
  set (mag := if k + nd - 1 <? 0 then _ else _).
  assert (Hm : mag = Z.abs (k + nd - 1)) by (unfold mag; destruct (Z.ltb_spec (k + nd - 1) 0); lia).
  rewrite Hm. clear mag Hm.
  destruct ((0 <=? k) && (Z.abs (k + nd - 1) <? nd + 7)) eqn:C1.
  { zcmp. eexists. split; [done|]. split; [by apply PP|]. split; [|by exists c].
    rewrite length_app. destruct (zeros_spec k) as (_ & _ & ->). unfold nd in *. lia. }
  destruct ((k <? 0) && _) eqn:C2.
  { apply andb_prop in C2 as [C2 C3]. apply orb_prop in C3. zcmp.
    assert (-k <= 20) by (destruct C3; zcmp; lia).
    destruct (nd + k <=? 0) eqn:C4; zcmp.
    - eexists. split; [done|]. split; [by apply PS|]. split; [|exists 48; split; [done|split; lia]].
      rewrite !length_app. destruct (zeros_spec (- (nd + k))) as (_ & _ & ->). cbn [length] in *. lia.
    - eexists. split; [done|]. split; [by apply PI|]. split.
      + rewrite !length_app, length_take, length_drop. cbn [length] in *. lia.
      + exists c. split; [|done]. destruct (Z.to_nat (nd + k)) eqn:?; [lia|done]. }
  destruct (u64_digits_spec (Z.abs (k + nd - 1))) as (ex & E1 & E2 & _); [lia|].
  rewrite u64_small by lia. rewrite E1. cbn [mbind option_bind head].
  eexists. split; [done|]. replace (k + nd - 1) with (k + Z.of_nat (length ds)) in * by lia.
  split; [by apply PX|]. split; [|by exists c].
  assert (Z.of_nat (length ex) <= 3) by (apply (canonical_length ex _ _ E2); lia).
  rewrite !length_app. cbn [length] in Hl |- *.
  destruct (1 <? nd); cbn [length app skipn]; rewrite ?drop_0; lia.
Qed.

(** * Lemmas: the value of a bit pattern *)
Definition dbl_value (w : Fp) : Q := (inject_Z (fp_f w) * 2 ^ fp_e w)%Q.

Lemma pow2_Q_pos e : (0 < 2 ^ e)%Q.
Proof. by apply Qpower_0_lt. Qed.

Lemma dbl_integral_spec bits m :
  dbl_integral bits = Some m -> (inject_Z m == dbl_value (fp_of_bits (dbl_abs bits)))%Q.
Proof.
  unfold dbl_integral, dbl_value. destruct (fp_of_bits _) as [f e]. cbn [fp_f fp_e].
  destruct (Z.leb_spec 0 e).
  - intros [= <-]. by rewrite inject_Z_mult, Zpower_Qpower.
  - destruct (Z.eqb_spec (f mod 2 ^ (- e)) 0) as [Hm|]; [|done]. intros [= <-].
    assert (Hf : f = f / 2 ^ (- e) * 2 ^ (- e)).
    { pose proof (Z.div_mod f (2 ^ (- e)) ltac:(apply Z.pow_nonzero; lia)). lia. }
    rewrite Hf at 2. rewrite inject_Z_mult, Zpower_Qpower by lia.
    rewrite <- Qmult_assoc. change (inject_Z 2) with 2%Q. rewrite <- Qpower_plus by done.
    replace (- e + e) with 0 by lia. cbn [Qpower]. ring.
Qed.

Lemma boundaries_around w :
  (boundary_lo w < dbl_value w < boundary_hi w)%Q.
Proof.
  unfold boundary_lo, boundary_hi, dbl_value. set (f := fp_f w). set (e := fp_e w).
  split.
  - destruct (f =? _).
    + rewrite <- (operand_Q f 2 e) by lia. apply Qmult_lt_compat_r; [apply pow2_Q_pos|].
      rewrite <- Zlt_Qlt. lia.
    + rewrite <- (operand_Q f 1 e) by lia. apply Qmult_lt_compat_r; [apply pow2_Q_pos|].
      rewrite <- Zlt_Qlt. lia.
  - rewrite <- (operand_Q f 1 e) by lia. apply Qmult_lt_compat_r; [apply pow2_Q_pos|].
    rewrite <- Zlt_Qlt. lia.
Qed.

Lemma dbl_abs_finite bits :
  0 <= bits < 18446744073709551616 -> isnan bits = false -> isinf bits = false ->
  iszero bits = false -> 0 < dbl_abs bits < 9218868437227405312.
Proof.
  unfold isnan, isinf, iszero, dbl_abs, dbl_neg. intros.
  destruct (Z.leb_spec 9223372036854775808 bits); zcmp; lia.
Qed.

Lemma read_unsigned_nonneg_head t q c :
  reads_as t q -> head t = Some c -> is_digit c ->
  exists q', read_decimal t = Some q' /\ (q' == q)%Q.
Proof.
  intros (q' & E & Hq) Hh Hc. exists q'. split; [|done].
  destruct t as [|c' t]; [done|]. injection Hh as ->. unfold is_digit in Hc.
  unfold read_decimal. destruct c as [|p|p]; try done.
  repeat (destruct p as [p|p|]; try done; try lia).
Qed.

(** The signed text: reads back as the signed number. *)
Lemma signed_text (neg : bool) t q :
  reads_as t q -> (exists c, head t = Some c /\ is_digit c) ->
  exists q', read_decimal ((if neg then [45] else []) ++ t) = Some q' /\
    ((if neg then - q' else q') == q)%Q.
Proof.
  intros Hr (c & Hh & Hc). destruct neg; cbn [app].
  - destruct Hr as (q' & E & Hq). exists (- q')%Q. cbn. rewrite E. split; [done|].
    rewrite Hq. ring.
  - by eapply read_unsigned_nonneg_head.
Qed.

Lemma canonical_reads ds v :
  canonical ds v -> reads_as ds (inject_Z v) /\ exists c, head ds = Some c /\ is_digit c.
Proof.
  intros (Hd & Hv & Hne & _). split.
  - destruct (place_plain ds 0 Hd Hne) as (q & E & Hq); [lia|]. change (zeros 0) with (@nil Z) in E.
    rewrite app_nil_r in E. exists q. split; [done|]. rewrite Hq, Hv. cbn. ring.
  - destruct ds as [|c ds]; [done|]. exists c. by inversion Hd.
Qed.

Lemma dbl_integral_nonneg bits m :
  0 < dbl_abs bits < 9218868437227405312 -> dbl_integral bits = Some m -> 0 <= m.
Proof.
  intros Ha. destruct (fp_of_bits_spec _ Ha) as (Hf & _). clear Ha. unfold dbl_integral.
  destruct (fp_of_bits (dbl_abs bits)) as [f e]. cbn [fp_f fp_e] in *.
  destruct (Z.leb_spec 0 e); [|destruct (Z.eqb_spec (f mod 2 ^ (- e)) 0); [|done]]; intros [= <-].
  - apply Z.mul_nonneg_nonneg; [lia|]. apply Z.pow_nonneg. lia.
  - apply Z.div_pos; [lia|]. apply Z.pow_pos_nonneg; lia.
Qed.

(** One arm of the text: the sign and an unsigned text of q. *)
Lemma arm_ok bits t q :
  reads_as t q -> (exists c, head t = Some c /\ is_digit c) -> (length t <= 25)%nat ->
  let text := (if dbl_neg bits then [45] else []) ++ t in
  (length text <= 26)%nat /\ exists q', read_decimal text = Some q' /\
    ((if dbl_neg bits then - q' else q') == q)%Q.
Proof.
  intros Hr Hh Hl text. split; [|by apply signed_text].
  unfold text. rewrite length_app. destruct (dbl_neg bits); cbn; lia.
Qed.

(** A text restores a double: a decimal reader gets a number of the right sign strictly between
    the midpoints to the neighbouring doubles. *)
Definition restores (bits : Z) (t : bytes) : Prop :=
  exists q, read_decimal t = Some q /\
    (boundary_lo (fp_of_bits (dbl_abs bits)) < (if dbl_neg bits then - q else q) <
     boundary_hi (fp_of_bits (dbl_abs bits)))%Q.

(** The Grisu2 path of the text. *)
Lemma general_text bits :
  0 < dbl_abs bits < 9218868437227405312 ->
  exists t, ('(digits, k) ← grisu2_digits (dbl_abs bits);
      t ← place_digits digits k; Some ((if dbl_neg bits then [45] else []) ++ t)) = Some t /\
    Z.of_nat (length t) <= 26 /\ restores bits t.
Proof.
  intros Ha. destruct (grisu2_interval _ Ha) as (ds & k & E & Hd & Hl & Hk & Hi).
  destruct (place_digits_spec ds k Hd Hl Hk) as (t & Et & Hr & Hlen & Hh).
  destruct (arm_ok bits t _ Hr Hh Hlen) as (L & q & Eq & Hq).
  eexists. rewrite E. cbn [mbind option_bind]. rewrite Et. split; [done|].
  split; [lia|]. exists q. split; [done|]. by rewrite Hq.
Qed.

(** The integral path. *)
Lemma integral_text bits m :
  0 < dbl_abs bits < 9218868437227405312 -> dbl_integral bits = Some m -> m <= kIntegralBound ->
  exists ds, u64_digits m = Some ds /\ canonical ds m /\
    Z.of_nat (length ((if dbl_neg bits then [45] else []) ++ ds)) <= 26 /\
    restores bits ((if dbl_neg bits then [45] else []) ++ ds).
Proof.
  unfold kIntegralBound. intros Ha Em Hm.
  pose proof (dbl_integral_spec bits m Em) as Hv.
  pose proof (dbl_integral_nonneg bits m Ha Em).
  destruct (u64_digits_spec m) as (ds & E & Hcan & Hl); [lia|].
  destruct (canonical_reads ds m Hcan) as [Hr Hh].
  destruct (arm_ok bits ds _ Hr Hh ltac:(lia)) as (L & q & Eq & Hq).
  exists ds. split; [done|]. split; [done|]. split; [lia|]. exists q. split; [done|].
  rewrite Hq, Hv. apply boundaries_around.
Qed.

Lemma finite_text bits :
  0 <= bits < 18446744073709551616 ->
  isnan bits = false -> isinf bits = false -> iszero bits = false ->
  exists t, redis_double_text bits = Some t /\ Z.of_nat (length t) <= 26 /\ restores bits t.
Proof.
  intros Hb Hn Hi Hz. pose proof (dbl_abs_finite bits Hb Hn Hi Hz) as Ha.
  unfold redis_double_text. rewrite Hn, Hi, Hz.
  destruct (general_text bits Ha) as (t & E & Hl & Hr).
  destruct (dbl_integral bits) as [m|] eqn:Em; [|by exists t].
  destruct (Z.leb_spec m kIntegralBound) as [Hm|]; [|by exists t].
  destruct (integral_text bits m Ha Em Hm) as (ds & E' & _ & Hl' & Hr').
  eexists. rewrite E'. by split.
Qed.

(** * Properties: the wire text *)

(** C14: redis_double_text is total on finite nonzero doubles: the text exists, fits (with room) in
    the kDoubleTextMax buffer its callers give it, and a decimal reader gets back a number of the
    right sign strictly between the midpoints to the neighbouring doubles, so that correct
    rounding restores the double.  This covers the Grisu2 digit generation, its cached powers and
    last-digit rounding, the integral fast path and all three placements. *)
Theorem double_text_reads_back bits :
  0 <= bits < 18446744073709551616 ->
  isnan bits = false -> isinf bits = false -> iszero bits = false ->
  exists t, redis_double_text bits = Some t /\ Z.of_nat (length t) <= 26 <= kDoubleTextMax /\
    restores bits t.
Proof.
  intros Hb Hn Hi Hz. destruct (finite_text bits Hb Hn Hi Hz) as (t & E & Hl & Hr).
  exists t. unfold kDoubleTextMax. repeat (split; [done || lia|]). done.
Qed.
Lemma double_text_reads_back_witness :
  exists t, redis_double_text 4607632778762754458 = Some t /\
    Z.of_nat (length t) <= 26 <= kDoubleTextMax /\ restores 4607632778762754458 t.
Proof. apply (double_text_reads_back 4607632778762754458); [lia|reflexivity..]. Defined.

(** An integral double of magnitude at most 2^62 prints as the plain decimal integer it is: its
    canonical digits behind its sign, and exactly its value. *)
Theorem integral_text_exact bits m :
  0 <= bits < 18446744073709551616 ->
  isnan bits = false -> isinf bits = false -> iszero bits = false ->
  dbl_integral bits = Some m -> m <= 2 ^ 62 ->
  exists ds, redis_double_text bits = Some ((if dbl_neg bits then [45] else []) ++ ds) /\
    canonical ds m /\ (inject_Z m == dbl_value (fp_of_bits (dbl_abs bits)))%Q.
Proof.
  intros Hb Hn Hi Hz Em Hm. pose proof (dbl_abs_finite bits Hb Hn Hi Hz) as Ha.
  destruct (integral_text bits m Ha Em Hm) as (ds & E' & Hc & _).
  exists ds. split; [|split; [done|by apply dbl_integral_spec]].
  unfold redis_double_text. rewrite Hn, Hi, Hz, Em.
  rewrite (proj2 (Z.leb_le m kIntegralBound) Hm). by rewrite E'.
Qed.
Lemma integral_text_exact_witness :
  exists ds, redis_double_text 14099575734042281984 = Some ([45] ++ ds) /\
    canonical ds 1000000000000000000 /\
    (inject_Z 1000000000000000000 == dbl_value (fp_of_bits (dbl_abs 14099575734042281984)))%Q.
Proof.
  apply (integral_text_exact 14099575734042281984); [lia|reflexivity..|].
  change (2 ^ 62) with 4611686018427387904. lia.
Defined.

(** * Properties: the grammars *)

Lemma cstring_length s : (length (cstring s) <= length s)%nat.
Proof. induction s as [|c s IH]; cbn; [lia|]. destruct (c =? 0); cbn; lia. Qed.

(** A C string as long as its buffer has no embedded terminator. *)
Lemma cstring_whole s : (length s <= length (cstring s))%nat -> Forall (fun c => c <> 0) s.
Proof.
  induction s as [|c s IH]; cbn; [constructor|].
  destruct (Z.eqb_spec c 0); cbn; [lia|]. constructor; [done|]. apply IH. lia.
Qed.

(** The float grammars nest.  What the strict grammar (scores, weights, coordinates) accepts
    has no leading space and no embedded NUL, and the lenient grammar (score ranges) reads the same
    value from it; the sortable grammar accepts it too unless strtod reported ERANGE, which then is
    for a gradual underflow, since overflow to infinity and underflow to zero are refused.  What the
    sortable grammar accepts, the lenient one reads the same. *)
Theorem grammars_nest (strtod : bytes -> Z * Z * bool) s v :
  (forall text, 0 <= (strtod text).1.2 <= Z.of_nat (length text)) ->
  (parse_double_strict strtod s = Some v ->
     Forall (fun c => c <> 0) s /\ (exists c, head s = Some c /\ isspace c = false) /\
     parse_double_lenient strtod s = Some v /\
     (parse_double_sortable strtod s = Some v \/
      (strtod (cstring s)).2 = true /\ isinf v = false /\ iszero v = false)) /\
  (parse_double_sortable strtod s = Some v -> parse_double_lenient strtod s = Some v).
Proof.
  intros H. specialize (H (cstring s)). pose proof (cstring_length s).
  unfold parse_double_strict, parse_double_lenient, parse_double_sortable, end_byte.
  destruct (strtod (cstring s)) as [[value n] erange] eqn:E. cbn [fst snd] in *. split.
  - destruct s as [|c s']; [done|]. set (s := c :: s') in *.
    destruct (isspace c) eqn:Hc; [done|].
    destruct (Z.eqb_spec n (Z.of_nat (length s))) as [->|]; cbn [negb]; [|done].
    rewrite Nat2Z.id, lookup_app_r, Nat.sub_diag by lia. cbn.
    destruct (erange && _) eqn:He; [done|]. destruct (isnan value) eqn:Hn; [done|]. intros [= <-].
    split; [apply cstring_whole; lia|]. split; [by exists c|]. split; [done|].
    destruct erange; [|by left]. right. by apply orb_false_iff in He.
  - clear H. by destruct (_ =? 0), erange, (isnan value).
Qed.
(** A concrete strtod: one decimal digit, or nothing. *)
Lemma grammars_nest_witness :
  let digit1 text := match text with
    | 53 :: _ => (4617315517961601024, 1, false) | _ => (0, 0, false) end in
  parse_double_strict digit1 [53] = Some 4617315517961601024 /\
  parse_double_lenient digit1 [53] = Some 4617315517961601024.
Proof.
  intros digit1. split; [reflexivity|].
  refine (proj1 (proj2 (proj2 (proj1 (grammars_nest digit1 [53] 4617315517961601024 _) _)))).
  - intros text. unfold digit1. destruct text as [|[|p|p] text]; cbn; try lia.
    repeat (destruct p as [p|p|]; cbn; try lia).
  - reflexivity.
Defined.
