(* ===== verification/Timeout.v ===== *)
(** numeric.h, the long double grammar and blocking timeouts: [parse_long_double_strict] and
    [parse_timeout_ms], with x87 arithmetic (64 bits of precision) from the SpecFloat library. *)
From Stdlib Require Import SpecFloat.
From S2P Require Import Prelude NumText.
#[local] Open Scope Z_scope.

(** The long double grammar and the blocking timeout.  A long double is the x87 format, 64 bits
    of precision; [strtold] also reports errno. *)
Inductive Errno := NoError | ERANGE | EINVAL.
Inductive TimeoutStatus := Ok (milliseconds : Z) | NotAFloat | OutOfRange | Negative.
Definition kLongDoubleChars : Z := 5 * 1024.
Definition INT64_MIN : Z := -9223372036854775808.

(** The result of [std::ceil]: an integer (which x87 precision holds) or not a finite number. *)
Inductive Ceiling := CeilInt (z : Z) | CeilInf (negative : bool) | CeilNan.
Definition ld_ceil (x : spec_float) : Ceiling :=
  match x with
  | S754_zero _ => CeilInt 0
  | S754_infinity s => CeilInf s
  | S754_nan => CeilNan
  | S754_finite s m e =>
      let v := if s then Z.neg m else Z.pos m in
      CeilInt (if 0 <=? e then v * 2 ^ e else - ((- v) / 2 ^ (- e)))
  end.
(** 1000.0L, and the product in long double. *)
Definition ld_1000 : spec_float := S754_finite false 18014398509481984000 (-54).
Definition ld_mul (x y : spec_float) : spec_float := SFmul 64 16384 x y.

Section Timeout.
Context (strtold : bytes -> spec_float * Z * Errno).

Definition parse_long_double_strict (s : bytes) : option spec_float :=
  match s with
  | [] => None
  | c :: _ =>
      if kLongDoubleChars <=? Z.of_nat (length s) then None
      else if isspace c then None
      else
        let '(value, consumed, errno) := strtold (cstring s) in
        if negb (consumed =? Z.of_nat (length s)) then None
        else match errno, value with
             | ERANGE, (S754_infinity _ | S754_zero _) => None
             | EINVAL, _ => None
             | _, S754_nan => None
             | _, _ => Some value
             end
  end.

(** [None]: converting a NaN to an integer is undefined. *)
Definition timeout_of_ceiling (scaled : Ceiling) : option TimeoutStatus :=
  match scaled with
  | CeilInf false => Some OutOfRange
  | CeilInf true => Some Negative
  | CeilNan => None
  | CeilInt scaled =>
      if INT64_MAX <? scaled then Some OutOfRange
      else
        let value := if scaled <? INT64_MIN then INT64_MIN else scaled in
        if value <? 0 then Some Negative else Some (Ok value)
  end.

Definition parse_timeout_ms (s : bytes) : option TimeoutStatus :=
  match parse_long_double_strict s with
  | None => Some NotAFloat
  | Some seconds => timeout_of_ceiling (ld_ceil (ld_mul seconds ld_1000))
  end.
End Timeout.


(** * Lemmas: rounding keeps a positive product positive *)
Lemma digits2_bounds p :
  2 ^ (Z.pos (digits2_pos p) - 1) <= Z.pos p < 2 ^ Z.pos (digits2_pos p).
Proof.
  induction p as [p IH|p IH|]; cbn [digits2_pos]; [| |cbn; lia];
    rewrite Pos2Z.inj_succ; replace (Z.succ _ - 1) with (Z.succ (Z.pos (digits2_pos p) - 1)) by lia;
    rewrite !Z.pow_succ_r by lia; lia.
Qed.

Lemma shr_1_m mrs : 0 <= shr_m mrs -> shr_m (shr_1 mrs) = shr_m mrs / 2.
Proof.
  destruct mrs as [m r s]. destruct m as [|[p|p|]|]; cbn; intros; try lia;
    Z.div_mod_to_equations; lia.
Qed.

Lemma shr_iter p mrs :
  0 <= shr_m mrs -> shr_m (SpecFloat.iter_pos shr_1 p mrs) = shr_m mrs / 2 ^ Z.pos p.
Proof.
  revert mrs. induction p as [p IH|p IH|]; intros mrs H; cbn [SpecFloat.iter_pos].
  - assert (0 <= shr_m (shr_1 mrs)) by (rewrite shr_1_m by done; apply Z.div_pos; lia).
    rewrite IH, IH, shr_1_m; [|done|done|rewrite IH by done; apply Z.div_pos; lia].
    rewrite Pos2Z.inj_xI, !Z.div_div by lia. f_equal.
    replace (2 * Z.pos p + 1) with (1 + Z.pos p + Z.pos p) by lia.
    rewrite !Z.pow_add_r by lia. lia.
  - rewrite IH, IH; [|done|rewrite IH by done; apply Z.div_pos; lia].
    rewrite Pos2Z.inj_xO, Z.div_div by lia. f_equal. rewrite <- Z.pow_add_r by lia. f_equal. lia.
  - by rewrite shr_1_m.
Qed.

(** A shift by k leaves m / 2^k and raises the exponent by k. *)
Lemma shr_spec mrs e n :
  0 <= shr_m mrs ->
  shr_m (shr mrs e n).1 = shr_m mrs / 2 ^ Z.max 0 n /\ (shr mrs e n).2 = e + Z.max 0 n.
Proof.
  intros H. destruct n as [|p|p]; cbn [shr fst snd].
  - split; [|lia]. by rewrite Z.max_id, Z.div_1_r.
  - split; [|lia]. rewrite Z.max_r by lia. by apply shr_iter.
  - split; [|lia]. rewrite Z.max_l by lia. by rewrite Z.div_1_r.
Qed.

Lemma shr_m_of_loc m l : shr_m (shr_record_of_loc m l) = m.
Proof. by destruct l as [|[]]. Qed.

(** Bringing m * 2^e, with enough bits above the minimum exponent, into range keeps it positive. *)
Lemma shr_fexp_pos p e l :
  -16445 - e < Z.pos (digits2_pos p) ->
  let r := shr_fexp 64 16384 (Z.pos p) e l in
  0 < shr_m r.1 /\ -16445 <= r.2.
Proof.
  intros He. unfold shr_fexp. cbn [Zdigits2]. set (d := Z.pos (digits2_pos p)) in *.
  assert (Hd : 1 <= d) by (unfold d; lia).
  destruct (shr_spec (shr_record_of_loc (Z.pos p) l) e (fexp 64 16384 (d + e) - e)) as [E1 E2].
  { rewrite shr_m_of_loc. lia. }
  cbn zeta. rewrite E1, E2, shr_m_of_loc. unfold fexp, emin. split; [|lia].
  pose proof (digits2_bounds p) as [Hlo _]. fold d in Hlo.
  set (k := Z.max 0 _). assert (0 <= k <= d - 1) by lia.
  apply Z.div_str_pos. split; [apply Z.pow_pos_nonneg; lia|].
  etransitivity; [|exact Hlo]. apply Z.pow_le_mono_r; lia.
Qed.

Lemma round_pos m l : 0 < m -> 0 < round_nearest_even m l.
Proof. intros. destruct l as [|[]]; cbn; [done| |done|lia]. destruct (Z.even m); lia. Qed.

(** The long double product of a nonzero finite number and 1000 is nonzero, of the same sign, and
    not a NaN. *)
Lemma ld_mul_1000 s m e :
  valid_binary 64 16384 (S754_finite s m e) = true ->
  (exists m' e', ld_mul (S754_finite s m e) ld_1000 = S754_finite s m' e') \/
  ld_mul (S754_finite s m e) ld_1000 = S754_infinity s.
Proof.
  intros [Hc _]%andb_prop. apply Z.eqb_eq in Hc. unfold fexp, emin in Hc.
  unfold ld_mul, ld_1000. cbn [SFmul]. rewrite xorb_false_r.
  set (p := (m * 18014398509481984000)%positive). unfold binary_round_aux.
  assert (Hp : -16445 - (e + -54) < Z.pos (digits2_pos p)).
  { pose proof (digits2_bounds p) as [_ Hhi].
    assert (2 ^ 54 < 2 ^ Z.pos (digits2_pos p)) as H%Z.pow_lt_mono_r_iff; [|lia..].
    change (2 ^ 54) with 18014398509481984. lia. }
  pose proof (shr_fexp_pos p (e + -54) loc_Exact Hp) as [H1 H2].
  destruct (shr_fexp 64 16384 (Z.pos p) (e + -54) loc_Exact) as [mrs e1]. cbn [fst snd] in *.
  pose proof (round_pos _ (loc_of_shr_record mrs) H1) as H3.
  destruct (round_nearest_even _ _) as [|q|q]; [lia| |lia].
  pose proof (shr_fexp_pos q e1 loc_Exact ltac:(lia)) as [H4 _].
  destruct (shr_fexp 64 16384 (Z.pos q) e1 loc_Exact) as [mrs2 e2]. cbn [fst snd] in *.
  destruct (shr_m mrs2) as [|m'|m']; [lia| |lia].
  destruct (e2 <=? _); [left; by exists m', e2|by right].
Qed.

(** The ceiling of a nonzero number: at least 1 above zero, at most 0 below it. *)
Lemma ld_ceil_sign s m e :
  exists z, ld_ceil (S754_finite s m e) = CeilInt z /\ (if s then z <= 0 else 1 <= z).
Proof.
  cbn [ld_ceil]. eexists. split; [done|].
  destruct (Z.leb_spec 0 e) as [He|He].
  - assert (0 < 2 ^ e) by (apply Z.pow_pos_nonneg; lia). destruct s; nia.
  - assert (0 < 2 ^ (- e)) by (apply Z.pow_pos_nonneg; lia). destruct s.
    + assert (0 <= - Z.neg m / 2 ^ (- e)) by (apply Z.div_pos; lia). lia.
    + assert (- Z.pos m / 2 ^ (- e) < 0) by (apply Z.div_lt_upper_bound; lia). lia.
Qed.

(** The verdict as a function of the seconds the grammar read: what the comment on
    [parse_timeout_ms] promises its callers. *)
Definition timeout_promise (seconds : option spec_float) (st : TimeoutStatus) : Prop :=
  match seconds with
  | None => st = NotAFloat
  | Some (S754_zero _) => st = Ok 0
  | Some (S754_infinity negative) => st = if negative then Negative else OutOfRange
  | Some S754_nan => False
  | Some (S754_finite false _ _) => st = OutOfRange \/ exists ms, st = Ok ms /\ 1 <= ms <= INT64_MAX
  | Some (S754_finite true _ _ as x) =>
      match ld_ceil (ld_mul x ld_1000) with
      | CeilInt 0 => st = Ok 0
      | _ => st = Negative
      end
  end.

(** C36: parse_timeout_ms always decides.  A text outside the grammar is not a float; every positive
    timeout however small becomes at least one millisecond or is out of range, never zero (which
    would mean no deadline); a negative one is refused exactly when its milliseconds, rounded up,
    are below zero, and is a zero timeout otherwise; the milliseconds always fit an int64. *)
Theorem timeout_decides (strtold : bytes -> spec_float * Z * Errno) s :
  (forall text, valid_binary 64 16384 (strtold text).1.1 = true) ->
  exists st, parse_timeout_ms strtold s = Some st /\
    timeout_promise (parse_long_double_strict strtold s) st.
Proof.
  intros Hv. unfold parse_timeout_ms.
  destruct (parse_long_double_strict strtold s) as [x|] eqn:E; [|by eexists].
  assert (Hx : valid_binary 64 16384 x = true /\ x <> S754_nan).
  { specialize (Hv (cstring s)). unfold parse_long_double_strict in E.
    destruct s as [|c s]; [done|]. destruct (_ <=? _); [done|]. destruct (isspace c); [done|].
    destruct (strtold _) as [[v n] er]. destruct (negb _); [done|].
    destruct er, v; naive_solver. }
  destruct Hx as [Hx Hnan]. destruct x as [b|b| |b m e]; [by eexists|by destruct b; eexists|done|].
  destruct (ld_mul_1000 b m e Hx) as [(m' & e' & Em)|Em]; cbn [timeout_promise]; rewrite Em.
  - destruct (ld_ceil_sign b m' e') as (z & -> & Hz). cbn [timeout_of_ceiling].
    unfold INT64_MAX, INT64_MIN in *. destruct b.
    + rewrite (proj2 (Z.ltb_ge _ _)) by lia.
      destruct z as [|z|z]; [by eexists|lia|].
      destruct (Z.ltb_spec (Z.neg z) (-9223372036854775808)); by eexists.
    + destruct (Z.ltb_spec 9223372036854775807 z); [eexists; split; [done|by left]|].
      rewrite (proj2 (Z.ltb_ge z _)), (proj2 (Z.ltb_ge z _)) by lia.
      eexists. split; [done|]. right. by exists z.
  - destruct b; eexists; (split; [done|]); [done|by left].
Qed.
(** 1e-9 seconds, as strtold reads it. *)
Lemma timeout_decides_witness :
  let nano text := (S754_finite false 9903520314283042199 (-93), Z.of_nat (length (text : bytes)), NoError) in
  valid_binary 64 16384 (nano [] : spec_float * Z * Errno).1.1 = true /\
  exists st, parse_timeout_ms nano (str "1e-9") = Some st /\
    timeout_promise (parse_long_double_strict nano (str "1e-9")) st.
Proof.
  intros nano. split; [reflexivity|].
  apply (timeout_decides nano (str "1e-9")). intros text. reflexivity.
Defined.
Example nano_is_1ms :
  parse_timeout_ms (fun t => (S754_finite false 9903520314283042199 (-93), Z.of_nat (length t), NoError))
    (str "1e-9") = Some (Ok 1).
Proof. vm_compute. reflexivity. Qed.
