(* ===== verification/RespReply.v ===== *)
(** Reply formatting: the helpers of resp.h and resp3.h, written against the sink interface the
    C++ templates assume (a plain [SmallBuf], or the executor's [Op::Sink]), the coded replies
    they leave behind on a sink, and the bytes the connection's owner stages for them at
    retirement (wb.h).

    [ReplySink] is the interface: the operations a helper may call.  [ReplySinkLaws] is what it
    promises: a reserve/store/advance, an append or a code extends the bytes the sink stands for.
    The helpers are proved against the laws; Slice.v and Op.v discharge them. *)
From S2P Require Import Prelude Slice Decimal Op RespParse Grisu NumText.

(** * The sink interface *)
Class ReplySink (S : Type) := {
  rs_reserve : S -> Z -> option S;
  rs_poke : S -> Z -> bytes -> option S;
  rs_advance : S -> Z -> S;
  rs_append : S -> bytes -> option S;
  rs_push_back : S -> Z -> option S;
  (** [None]: the sink declines the code, or has no [code] member. *)
  rs_code : S -> ReplyCode -> Z -> option S }.

#[export] Instance smallbuf_sink : ReplySink SmallBuf := {
  rs_reserve := sb_reserve; rs_poke := sb_poke; rs_advance := sb_advance;
  rs_append := sb_append; rs_push_back := sb_push_back; rs_code _ _ _ := None }.

#[export] Instance op_sink : ReplySink Sink := {
  rs_reserve := sink_reserve; rs_poke := sink_poke; rs_advance := sink_advance;
  rs_append := sink_append; rs_push_back := sink_push_back; rs_code := sink_code }.

(** * The helpers *)
Section Helpers.
Context {S : Type} `{!ReplySink S}.
Implicit Types (b : S).

(** TOMO_CODED_REPLY, then the bytes. *)
Definition coded b (c : ReplyCode) (text : bytes) : option S :=
  match rs_code b c 0 with
  | Some b => Some b
  | None => rs_append b text
  end.
(** reserve(r), stores from the returned cursor, advance past them. *)
Definition emit b (r : Z) (bs : bytes) : option S :=
  b ← rs_reserve b r; b ← rs_poke b 0 bs; Some (rs_advance b (Z.of_nat (length bs))).

Definition reply_ok b := coded b ROk (str "+OK" ++ CRLF).
Definition reply_nil b := coded b RNil (str "$-1" ++ CRLF).
Definition reply_pong b := coded b RPong (str "+PONG" ++ CRLF).
Definition reply_null_array b := coded b RNullArray (str "*-1" ++ CRLF).
Definition reply_emptystr b := coded b REmptyStr (str "$0" ++ CRLF ++ CRLF).
Definition reply_wrongtype b :=
  rs_append b (str "-WRONGTYPE Operation against a key holding the wrong kind of value" ++ CRLF).
Definition reply_syntax b := rs_append b (str "-ERR syntax error" ++ CRLF).
Definition reply_outofrange b :=
  rs_append b (str "-ERR value is out of range, value must between -9223372036854775807 and 9223372036854775807" ++ CRLF).

(** The loop of [reply_line_text]; [seg] is the text from [start] to the loop's index. *)
Fixpoint line_text_loop b (seg text : bytes) : option S :=
  match text with
  | [] => match seg with [] => Some b | _ => rs_append b seg end
  | c :: text =>
      if negb (c =? CR) && negb (c =? LF) then line_text_loop b (seg ++ [c]) text
      else b ← rs_append b seg; b ← rs_push_back b 32; line_text_loop b [] text
  end.
Definition reply_line_text b (text : bytes) : option S := line_text_loop b [] text.

(** [msg] is a C string: its bytes before the terminator. *)
Definition reply_err b (msg : bytes) : option S :=
  b ← rs_push_back b 45; b ← reply_line_text b msg; rs_append b CRLF.
Definition reply_simple b (msg : bytes) : option S :=
  b ← rs_push_back b 43; b ← rs_append b msg; rs_append b CRLF.

Definition reply_int b (v : Z) : option S :=
  let coded := if (-2147483648 <=? v) && (v <=? 2147483647) then rs_code b RInt v else None in
  match coded with
  | Some b => Some b
  | None => ds ← i64_to_dec v; emit b 24 ([58] ++ ds ++ CRLF)
  end.

(** The shared body of the header helpers. *)
Definition reply_header b (marker n : Z) : option S :=
  ds ← u64_to_dec n; emit b 24 ([marker] ++ ds ++ CRLF).
Definition reply_array_header b (n : Z) := reply_header b 42 n.
Definition reply_bulk_header b (len : Z) := reply_header b 36 len.

Definition reply_bulk b (s : bytes) : option S :=
  let n := Z.of_nat (length s) in
  ds ← u64_to_dec n; emit b (24 + n + 2) ([36] ++ ds ++ CRLF ++ s ++ CRLF).
Definition reply_double b (bits : Z) : option S :=
  text ← redis_double_text bits; reply_bulk b text.

(** resp3.h *)
Definition reply_null b (resp3 : bool) : option S :=
  if resp3 then coded b RNullResp3 (str "_" ++ CRLF) else reply_nil b.
Definition reply_null_array3 b (resp3 : bool) : option S :=
  if resp3 then coded b RNullResp3 (str "_" ++ CRLF) else reply_null_array b.
Definition reply_bool b (value resp3 : bool) : option S :=
  if resp3 then coded b (if value then RTrue else RFalse)
                  ((if value then str "#t" else str "#f") ++ CRLF)
  else reply_int b (if value then 1 else 0).
Definition reply_map_header b (n : Z) (resp3 : bool) : option S :=
  if resp3 then reply_header b 37 n else reply_array_header b (u64 (n * 2)).
Definition reply_set_header b (n : Z) (resp3 : bool) : option S :=
  if resp3 then reply_header b 126 n else reply_array_header b n.
Definition reply_push_header b (n : Z) : option S := reply_header b 62 n.
Definition reply_double3 b (bits : Z) (resp3 : bool) : option S :=
  if resp3 then
    text ← redis_double_text bits;
    emit b (Z.of_nat (length text) + 3) ([44] ++ text ++ CRLF)
  else reply_double b bits.
Definition reply_bignum b (value : bytes) (resp3 : bool) : option S :=
  if resp3 then b ← rs_push_back b 40; b ← rs_append b value; rs_append b CRLF
  else reply_bulk b value.
Definition reply_verbatim b (value ext : bytes) (resp3 : bool) : option S :=
  if resp3 then
    let framed := Z.of_nat (length value) + 4 in
    ds ← u64_to_dec framed;
    emit b (24 + framed + 2) ([61] ++ ds ++ CRLF ++ take 3 ext ++ [58] ++ value ++ CRLF)
  else reply_bulk b value.
End Helpers.

(** * The owner's side of a coded reply *)
Definition kFixedReplies : list (bytes * Z) :=
  let fixed (s : bytes) := (s ++ replicate (16 - length s) 0, Z.of_nat (length s)) in
  [fixed [];
   fixed (str "+OK" ++ CRLF); fixed (str "$-1" ++ CRLF); fixed (str "+PONG" ++ CRLF);
   fixed (str "*-1" ++ CRLF); fixed (str "$0" ++ CRLF ++ CRLF); fixed (str "_" ++ CRLF);
   fixed (str "#t" ++ CRLF); fixed (str "#f" ++ CRLF); fixed []].

(** The enumerator's value. *)
Definition code_index (c : ReplyCode) : nat :=
  match c with
  | RNone => 0 | ROk => 1 | RNil => 2 | RPong => 3 | RNullArray => 4 | REmptyStr => 5
  | RNullResp3 => 6 | RTrue => 7 | RFalse => 8 | RInt => 9
  end.

(** The stores at [dst] and the length returned. *)
Definition format_reply_code_int (ival : Z) : option (bytes * Z) :=
  let mag := if ival <? 0 then u32 (- ival) else u32 ival in
  ds ← u32_to_dec_direct mag;
  let text := [58] ++ (if ival <? 0 then [45] else []) ++ ds ++ CRLF in
  Some (text, Z.of_nat (length text)).
Definition format_reply_code (c : ReplyCode) (ival : Z) : option (bytes * Z) :=
  if negb (bool_decide (c = RInt)) then kFixedReplies !! code_index c
  else format_reply_code_int ival.

(** Rendering a code at a buffer's frontier: [stage_coded_reply] on the fill buffer,
    [op_materialise_code] on the operation's own reply buffer. *)
Definition render_code (b : SmallBuf) (c : ReplyCode) (ival : Z) : option SmallBuf :=
  b ← sb_reserve b kReplyCodeMax;
  '(text, n) ← format_reply_code c ival;
  b ← sb_poke b 0 text; Some (sb_advance b n).
Definition stage_coded_reply (fill : SmallBuf) (o : OpReply) : option SmallBuf :=
  render_code fill (reply_code o) (reply_ival o).
Definition op_materialise_code (o : OpReply) : option OpReply :=
  if bool_decide (reply_code o = RNone) then Some o
  else b ← render_code (reply o) (reply_code o) (reply_ival o);
       Some (mkReply RNone (reply_ival o) (reply_code_ok o) b (direct o) (direct_cap o)
                     (direct_len o)).

(** The drain lambda's arm for a plain reply with no segment pending: the reply goes to the fill
    buffer. *)
Definition retire_fill (fill : SmallBuf) (o : OpReply) : option SmallBuf :=
  if negb (bool_decide (reply_code o = RNone)) then
    fill ← stage_coded_reply fill o;
    if negb (sb_empty (reply o)) then sb_append fill (sb_bytes (reply o)) else Some fill
  else
    let fill := if negb (direct_len o =? 0) then sb_commit_raw fill (direct_len o) else fill in
    if negb (sb_empty (reply o)) then sb_append fill (sb_bytes (reply o)) else Some fill.

(** The arm with segments pending: one owned segment of the direct bytes and the reply. *)
Definition retire_segment (fill : SmallBuf) (o : OpReply) : option bytes :=
  o ← (if negb (bool_decide (reply_code o = RNone)) then op_materialise_code o else Some o);
  d ← match direct o with
      | Some d => mem_read (sb_mem fill) d (direct_len o)
      | None => Some []
      end;
  Some (d ++ sb_bytes (reply o)).

(** * What a sink promises *)

(** Text of the code: what the owner will render for it. *)
Definition code_text (c : ReplyCode) (ival : Z) : bytes :=
  match format_reply_code c ival with Some (t, n) => take (Z.to_nat n) t | None => [] end.

Class ReplySinkLaws (S : Type) `{!ReplySink S} := {
  rs_ok : S -> Prop;
  rs_room : S -> Z -> Prop;
  rs_wire : S -> bytes;
  law_write (s : S) (r k : Z) (bs : bytes) :
    rs_ok s -> rs_room s (r + k) -> Z.of_nat (length bs) <= r -> 0 <= k ->
    exists s1 s2, rs_reserve s r = Some s1 /\ rs_poke s1 0 bs = Some s2 /\
      let s' := rs_advance s2 (Z.of_nat (length bs)) in
      rs_ok s' /\ rs_room s' k /\ rs_wire s' = rs_wire s ++ bs;
  law_append (s : S) (k : Z) (bs : bytes) :
    rs_ok s -> rs_room s (Z.of_nat (length bs) + k) -> 0 <= k ->
    exists s', rs_append s bs = Some s' /\ rs_ok s' /\ rs_room s' k /\
      rs_wire s' = rs_wire s ++ bs;
  law_push_back (s : S) (k c : Z) :
    rs_ok s -> rs_room s (1 + k) -> 0 <= k ->
    exists s', rs_push_back s c = Some s' /\ rs_ok s' /\ rs_room s' k /\
      rs_wire s' = rs_wire s ++ [c];
  law_room (s : S) (m n : Z) : rs_room s n -> 0 <= m <= n -> rs_room s m;
  law_code (s s' : S) (c : ReplyCode) (v n : Z) :
    rs_ok s -> rs_room s n -> c <> RNone -> -2147483648 <= v <= 2147483647 ->
    rs_code s c v = Some s' ->
    rs_ok s' /\ rs_room s' n /\ rs_wire s' = rs_wire s ++ code_text c v }.

#[export] Instance smallbuf_laws : ReplySinkLaws SmallBuf.
Proof.
  refine {| rs_ok := sb_ok; rs_room := sb_fits; rs_wire := sb_bytes |}; cbn [rs_reserve rs_poke
    rs_advance rs_append rs_push_back rs_code smallbuf_sink]; unfold sb_fits.
  - intros s r k bs Hok Hf Hl Hk.
    destruct (sb_write_spec s r bs Hok) as (s1 & s2 & E1 & E2 & Ho & Hb & Hn); [|done|].
    { split; lia. }
    exists s1, s2. split_and!; try done; lia.
  - intros s k bs Hok Hf Hk. destruct (sb_append_spec s bs Hok) as (s' & E & Ho & Hb & Hn).
    { split; lia. }
    exists s'. split_and!; try done; lia.
  - intros s k c Hok Hf Hk. rewrite sb_push_back_append.
    destruct (sb_append_spec s [c] Hok) as (s' & E & Ho & Hb & Hn).
    { split; cbn; lia. }
    exists s'. cbn in Hn. split_and!; try done; lia.
  - lia.
  - done.
Defined.

(** A sink stands for the fill buffer below it, its coded reply and its bytes, in this order. *)
Definition sink_code_text (s : Sink) : bytes :=
  if bool_decide (reply_code (sk_op s) = RNone) then []
  else code_text (reply_code (sk_op s)) (reply_ival (sk_op s)).
Definition sink_wire (s : Sink) : bytes := sb_bytes (sk_fill s) ++ sink_code_text s ++ sink_out s.

(** The invariant of a sink in use (a recorded value fits [reply_ival_]), and room for [n] more
    bytes in the spill and, later, in the fill buffer. *)
Definition sink_inv (s : Sink) : Prop :=
  sink_ok s /\ -2147483648 <= reply_ival (sk_op s) <= 2147483647.
Definition sink_room (s : Sink) (n : Z) : Prop :=
  sink_fits s n /\
  Z.of_nat (length (sb_bytes (sk_fill s)) + length (sink_out s)) + kReplyCodeMax + n <= 2 ^ 60.

Lemma sink_wrote s s' bs r k :
  sink_inv s -> sink_room s (r + k) -> Z.of_nat (length bs) <= r -> 0 <= k ->
  sink_ok s' -> sink_same s s' -> sink_out s' = sink_out s ++ bs ->
  sb_len (reply (sk_op s')) <= sb_len (reply (sk_op s)) + Z.of_nat (length bs) ->
  sink_inv s' /\ sink_room s' k /\ sink_wire s' = sink_wire s ++ bs.
Proof.
  unfold sink_inv, sink_room, sink_fits, sb_fits.
  intros [_ Hi] Hf Hl Hk Ho (Hb & Hc & Hv & _) Hout Hn.
  unfold sink_wire, sink_code_text. rewrite Hb, Hc, Hv, Hout, !app_assoc, length_app.
  split; [done|]. split; [lia|done].
Qed.

#[export] Instance op_sink_laws : ReplySinkLaws Sink.
Proof.
  refine {| rs_ok := sink_inv; rs_room := sink_room; rs_wire := sink_wire |}; cbn [rs_reserve rs_poke
    rs_advance rs_append rs_push_back rs_code op_sink].
  - intros s r k bs [Hok Hv] Hf Hl Hk.
    destruct (sink_write_spec s r bs Hok) as (s1 & s2 & E1 & E2 & Ho & Hb & Hs & Hn);
      [unfold sink_room, sink_fits, sb_fits in *; lia|done|].
    exists s1, s2. split; [done|]. split; [done|]. by eapply sink_wrote.
  - intros s k bs [Hok Hv] Hf Hk.
    destruct (sink_append_spec s bs Hok) as (s' & E & Ho & Hb & Hs & Hn);
      [unfold sink_room, sink_fits, sb_fits in *; lia|].
    exists s'. split; [done|]. by eapply sink_wrote.
  - intros s k c [Hok Hv] Hf Hk.
    destruct (sink_write_spec s 1 [c] Hok) as (s1 & s2 & E1 & E2 & Ho & Hb & Hs & Hn);
      [unfold sink_room, sink_fits, sb_fits in *; lia|cbn; lia|].
    unfold sink_push_back. rewrite E1. cbn [mbind option_bind]. rewrite E2. cbn [mbind option_bind].
    eexists. split; [done|]. by eapply sink_wrote.
  - unfold sink_room, sink_fits, sb_fits. lia.
  - intros s s' c v n [Hok _] Hf Hc Hv E.
    destruct (sink_code_spec s c v s' Hok E) as (Ho & H1 & H2 & Hc1 & Hc2 & Hi & Hb & Hr).
    unfold sink_wire, sink_code_text, sink_inv, sink_room, sink_fits in *. rewrite H1 in Hf.
    rewrite Hb, Hc1, Hc2, Hi, H1, H2, Hr, (bool_decide_eq_false_2 (c = RNone)) by done.
    rewrite (bool_decide_eq_true_2 (RNone = RNone)) by done.
    split; [done|]. split; [done|]. by rewrite !app_nil_r.
Defined.

(** * The RESP text of a reply *)
Definition dec_text (v : Z) : bytes := default [] (u64_to_dec v).
Definition int_text (v : Z) : bytes := if v <? 0 then 45 :: dec_text (- v) else dec_text v.
Definition bulk_text (s : bytes) : bytes := [36] ++ dec_text (Z.of_nat (length s)) ++ CRLF ++ s ++ CRLF.
Definition line_text (s : bytes) : bytes :=
  (fun c => if (c =? CR) || (c =? LF) then 32 else c) <$> s.

Inductive ReplyCall :=
  | COk | CNil | CPong | CNullArray | CEmptyStr | CWrongType | CSyntax | COutOfRange
  | CErr (msg : bytes) | CSimple (msg : bytes) | CInt (v : Z)
  | CArrayHeader (n : Z) | CBulkHeader (n : Z) | CBulk (s : bytes) | CDouble (bits : Z)
  | CNull (resp3 : bool) | CNullArray3 (resp3 : bool) | CBool (v resp3 : bool)
  | CMapHeader (n : Z) (resp3 : bool) | CSetHeader (n : Z) (resp3 : bool) | CPushHeader (n : Z)
  | CDouble3 (bits : Z) (resp3 : bool) | CBignum (s : bytes) (resp3 : bool)
  | CVerbatim (s ext : bytes) (resp3 : bool).

Definition run_call {S} `{!ReplySink S} (b : S) (c : ReplyCall) : option S :=
  match c with
  | COk => reply_ok b | CNil => reply_nil b | CPong => reply_pong b
  | CNullArray => reply_null_array b | CEmptyStr => reply_emptystr b
  | CWrongType => reply_wrongtype b | CSyntax => reply_syntax b | COutOfRange => reply_outofrange b
  | CErr m => reply_err b m | CSimple m => reply_simple b m | CInt v => reply_int b v
  | CArrayHeader n => reply_array_header b n | CBulkHeader n => reply_bulk_header b n
  | CBulk s => reply_bulk b s | CDouble d => reply_double b d
  | CNull r => reply_null b r | CNullArray3 r => reply_null_array3 b r | CBool v r => reply_bool b v r
  | CMapHeader n r => reply_map_header b n r | CSetHeader n r => reply_set_header b n r
  | CPushHeader n => reply_push_header b n | CDouble3 d r => reply_double3 b d r
  | CBignum s r => reply_bignum b s r | CVerbatim s e r => reply_verbatim b s e r
  end.

Definition double_text (bits : Z) : bytes := default [] (redis_double_text bits).
Definition encode (c : ReplyCall) : bytes :=
  match c with
  | COk => str "+OK" ++ CRLF | CNil => str "$-1" ++ CRLF | CPong => str "+PONG" ++ CRLF
  | CNullArray => str "*-1" ++ CRLF | CEmptyStr => str "$0" ++ CRLF ++ CRLF
  | CWrongType =>
      str "-WRONGTYPE Operation against a key holding the wrong kind of value" ++ CRLF
  | CSyntax => str "-ERR syntax error" ++ CRLF
  | COutOfRange =>
      str "-ERR value is out of range, value must between -9223372036854775807 and 9223372036854775807" ++ CRLF
  | CErr m => [45] ++ line_text m ++ CRLF
  | CSimple m => [43] ++ m ++ CRLF
  | CInt v => [58] ++ int_text v ++ CRLF
  | CArrayHeader n => [42] ++ dec_text n ++ CRLF
  | CBulkHeader n => [36] ++ dec_text n ++ CRLF
  | CBulk s => bulk_text s
  | CDouble d => bulk_text (double_text d)
  | CNull r => if r then str "_" ++ CRLF else str "$-1" ++ CRLF
  | CNullArray3 r => if r then str "_" ++ CRLF else str "*-1" ++ CRLF
  | CBool v r => if r then (if v then str "#t" else str "#f") ++ CRLF
                 else (if v then str ":1" else str ":0") ++ CRLF
  | CMapHeader n r => (if r then [37] ++ dec_text n else [42] ++ dec_text (2 * n)) ++ CRLF
  | CSetHeader n r => (if r then [126] ++ dec_text n else [42] ++ dec_text n) ++ CRLF
  | CPushHeader n => [62] ++ dec_text n ++ CRLF
  | CDouble3 d r => if r then [44] ++ double_text d ++ CRLF else bulk_text (double_text d)
  | CBignum s r => if r then [40] ++ s ++ CRLF else bulk_text s
  | CVerbatim s e r =>
      if r then [61] ++ dec_text (Z.of_nat (length s) + 4) ++ CRLF ++ e ++ [58] ++ s ++ CRLF
      else bulk_text s
  end.

(** The arguments a call site may pass: the widths of the C++ parameters. *)
Definition call_ok (c : ReplyCall) : Prop :=
  match c with
  | CInt v => -9223372036854775808 <= v < 9223372036854775808
  | CArrayHeader n | CSetHeader n _ | CPushHeader n => 0 <= n < 18446744073709551616
  | CMapHeader n _ => 0 <= n < 9223372036854775808
  | CBulkHeader n => 0 <= n < 4294967296
  | CBulk s | CBignum s _ => Z.of_nat (length s) < 4294967296
  | CVerbatim s e _ => Z.of_nat (length s) < 4294967296 /\ length e = 3%nat
  | CDouble d | CDouble3 d _ => 0 <= d < 18446744073709551616
  | _ => True
  end.

(** Bytes the call may reserve. *)
Definition call_room (c : ReplyCall) : Z :=
  match c with
  | CErr m | CSimple m => Z.of_nat (length m) + 3
  | CBulk s | CBignum s _ => Z.of_nat (length s) + 26
  | CVerbatim s _ _ => Z.of_nat (length s) + 30
  | _ => 128
  end.

(** * Lemmas: decimal texts *)
Lemma u64_to_dec_text v :
  0 <= v < 18446744073709551616 ->
  u64_to_dec v = Some (dec_text v) /\ (length (dec_text v) <= 20)%nat.
Proof.
  intros H. unfold dec_text. destruct (u64_to_dec_spec v H) as (ds & -> & _ & Hl). done.
Qed.
Lemma i64_to_dec_text v :
  -9223372036854775808 <= v < 9223372036854775808 ->
  i64_to_dec v = Some (int_text v) /\ (length (int_text v) <= 21)%nat.
Proof.
  intros H. unfold i64_to_dec, int_text. destruct (Z.ltb_spec v 0).
  - rewrite (u64_small (- (v + 1))) by lia. replace (- (v + 1) + 1) with (- v) by lia.
    destruct (u64_to_dec_text (- v)) as [-> Hl]; [lia|]. cbn [length]. split; [done|lia].
  - rewrite u64_small by lia. destruct (u64_to_dec_text v) as [-> Hl]; [lia|]. split; [done|lia].
Qed.
Lemma code_text_int v :
  -2147483648 <= v <= 2147483647 -> code_text RInt v = [58] ++ int_text v ++ CRLF.
Proof.
  intros H. unfold code_text, format_reply_code, format_reply_code_int.
  rewrite bool_decide_eq_true_2 by done. cbn [negb]. unfold int_text.
  destruct (Z.ltb_spec v 0); rewrite u32_small by lia.
  - rewrite u32_direct_eq by lia. destruct (u64_to_dec_text (- v)) as [-> _]; [lia|].
    cbn [mbind option_bind]. rewrite Nat2Z.id, take_ge; done.
  - rewrite u32_direct_eq by lia. destruct (u64_to_dec_text v) as [-> _]; [lia|].
    cbn [mbind option_bind]. rewrite Nat2Z.id, take_ge; done.
Qed.

(** Every double has a text, within the buffer the helpers give it. *)
Lemma redis_double_text_total bits :
  0 <= bits < 18446744073709551616 ->
  redis_double_text bits = Some (double_text bits) /\ (length (double_text bits) <= 26)%nat.
Proof.
  intros H. unfold double_text.
  destruct (isnan bits) eqn:Hn; [unfold redis_double_text; rewrite Hn; cbn; split; [done|lia]|].
  destruct (isinf bits) eqn:Hi.
  { unfold redis_double_text. rewrite Hn, Hi. destruct (dbl_neg bits); cbn; split; done || lia. }
  destruct (iszero bits) eqn:Hz.
  { unfold redis_double_text. rewrite Hn, Hi, Hz. destruct (dbl_neg bits); cbn; split; done || lia. }
  destruct (finite_text bits H Hn Hi Hz) as (t & -> & Hl & _). cbn. split; [done|lia].
Qed.

(** * Lemmas: what a helper adds to a lawful sink *)
Section Adds.
Context {S : Type} `{!ReplySink S, !ReplySinkLaws S}.
Implicit Types (b : S).

Definition adds b (bs : bytes) (k : Z) (r : option S) : Prop :=
  exists b', r = Some b' /\ rs_ok b' /\ rs_room b' k /\ rs_wire b' = rs_wire b ++ bs.

Lemma adds_emit b r k bs :
  rs_ok b -> rs_room b (r + k) -> Z.of_nat (length bs) <= r -> 0 <= k -> adds b bs k (emit b r bs).
Proof.
  intros Ho Hr Hl Hk. destruct (law_write b r k bs Ho Hr Hl Hk) as (s1 & s2 & E1 & E2 & H).
  unfold adds, emit. rewrite E1. cbn [mbind option_bind]. rewrite E2. cbn [mbind option_bind]. eauto.
Qed.
Lemma adds_append b k bs :
  rs_ok b -> rs_room b (Z.of_nat (length bs) + k) -> 0 <= k -> adds b bs k (rs_append b bs).
Proof. apply law_append. Qed.
Lemma adds_push b k c :
  rs_ok b -> rs_room b (1 + k) -> 0 <= k -> adds b [c] k (rs_push_back b c).
Proof. apply law_push_back. Qed.

Lemma adds_bind b bs bs' k k' (r : option S) (f : S -> option S) :
  adds b bs k' r ->
  (forall b', rs_ok b' -> rs_room b' k' -> adds b' bs' k (f b')) ->
  adds b (bs ++ bs') k (r ≫= f).
Proof.
  intros (b1 & -> & Ho & Hr & Hw) H. destruct (H b1 Ho Hr) as (b2 & E & Ho2 & Hr2 & Hw2).
  exists b2. cbn [mbind option_bind]. by rewrite Hw2, Hw, app_assoc.
Qed.

Lemma adds_coded b c text k :
  rs_ok b -> rs_room b (Z.of_nat (length text) + k) -> 0 <= k ->
  c <> RNone -> code_text c 0 = text -> adds b text k (coded b c text).
Proof.
  intros Ho Hr Hk Hc Ht. unfold coded. destruct (rs_code b c 0) as [b'|] eqn:E.
  - destruct (law_code b b' c 0 _ Ho Hr Hc ltac:(lia) E) as (Ho' & Hr' & Hw). rewrite Ht in Hw.
    exists b'. repeat (split; [done|]). split; [|done]. eapply law_room; [exact Hr'|lia].
  - by apply adds_append.
Qed.

Lemma adds_header b marker n k :
  rs_ok b -> rs_room b (24 + k) -> 0 <= k -> 0 <= n < 18446744073709551616 ->
  adds b ([marker] ++ dec_text n ++ CRLF) k (reply_header b marker n).
Proof.
  intros Ho Hr Hk Hn. unfold reply_header. destruct (u64_to_dec_text n Hn) as [-> Hl].
  cbn [mbind option_bind]. apply adds_emit; try done. rewrite !length_app. cbn [length CRLF]. lia.
Qed.

Lemma adds_bulk b s k :
  rs_ok b -> rs_room b (Z.of_nat (length s) + 26 + k) -> 0 <= k ->
  Z.of_nat (length s) < 4294967296 -> adds b (bulk_text s) k (reply_bulk b s).
Proof.
  intros Ho Hr Hk Hn. unfold reply_bulk, bulk_text.
  destruct (u64_to_dec_text (Z.of_nat (length s)) ltac:(lia)) as [-> Hl].
  cbn [mbind option_bind]. apply adds_emit; try done.
  - by replace (24 + Z.of_nat (length s) + 2 + k) with (Z.of_nat (length s) + 26 + k) by lia.
  - rewrite !length_app. cbn [length CRLF]. lia.
Qed.

Lemma adds_int b v k :
  rs_ok b -> rs_room b (24 + k) -> 0 <= k -> -9223372036854775808 <= v < 9223372036854775808 ->
  adds b ([58] ++ int_text v ++ CRLF) k (reply_int b v).
Proof.
  intros Ho Hr Hk Hv. unfold reply_int.
  assert (B : adds b ([58] ++ int_text v ++ CRLF) k
                (ds ← i64_to_dec v; emit b 24 ([58] ++ ds ++ CRLF))).
  { destruct (i64_to_dec_text v Hv) as [-> Hl]. cbn [mbind option_bind]. apply adds_emit; try done.
    rewrite !length_app. cbn [length CRLF]. lia. }
  destruct ((-2147483648 <=? v) && (v <=? 2147483647)) eqn:R; [|exact B]. zcmp.
  destruct (rs_code b RInt v) as [b'|] eqn:E; [|exact B].
  destruct (law_code b b' RInt v _ Ho Hr ltac:(done) ltac:(lia) E) as (Ho' & Hr' & Hw).
  rewrite code_text_int in Hw by lia. exists b'. repeat (split; [done|]). split; [|done].
  eapply law_room; [exact Hr'|lia].
Qed.

Lemma line_text_loop_adds seg text b k :
  rs_ok b -> rs_room b (Z.of_nat (length seg) + Z.of_nat (length text) + k) -> 0 <= k ->
  line_text seg = seg ->
  adds b (seg ++ line_text text) k (line_text_loop b seg text).
Proof.
  revert seg b. induction text as [|c text IH]; intros seg b Ho Hr Hk Hs; cbn [line_text_loop].
  - rewrite app_nil_r. destruct seg as [|x seg].
    + exists b. by rewrite app_nil_r.
    + apply adds_append; [done| |done]. eapply law_room; [exact Hr|cbn; lia].
  - cbn [line_text fmap list_fmap]. fold (line_text text).
    destruct (c =? CR) eqn:E1; [|destruct (c =? LF) eqn:E2]; cbn [negb andb orb].
    1,2: change (seg ++ 32 :: line_text text) with (seg ++ [32] ++ ([] ++ line_text text));
      eapply adds_bind; [apply adds_append with (k := 1 + (Z.of_nat (length text) + k));
        [done| |lia]|]; [eapply law_room; [exact Hr|cbn [length]; lia]|];
      intros b1 Ho1 Hr1; eapply adds_bind; [apply adds_push; [done|exact Hr1|lia]|];
      intros b2 Ho2 Hr2; by apply (IH [] b2).
    change (seg ++ c :: line_text text) with (seg ++ [c] ++ line_text text). rewrite app_assoc.
    apply IH; [done| |done|].
    + rewrite length_app. eapply law_room; [exact Hr|cbn [length]; lia].
    + unfold line_text in *. rewrite fmap_app, Hs. cbn. by rewrite E1, E2.
Qed.

Lemma adds_line b text k :
  rs_ok b -> rs_room b (Z.of_nat (length text) + k) -> 0 <= k ->
  adds b (line_text text) k (reply_line_text b text).
Proof. intros. by apply (line_text_loop_adds [] text b k). Qed.

(** A marker byte, a body that adds [body], and the line end. *)
Lemma adds_framed b marker body k (f : S -> option S) :
  rs_ok b -> rs_room b (Z.of_nat (length body) + 3 + k) -> 0 <= k ->
  (forall b', rs_ok b' -> rs_room b' (Z.of_nat (length body) + (2 + k)) -> adds b' body (2 + k) (f b')) ->
  adds b ([marker] ++ body ++ CRLF) k
    (b ← rs_push_back b marker; b ← f b; rs_append b CRLF).
Proof.
  intros Ho Hr Hk Hf.
  eapply adds_bind; [apply adds_push with (k := Z.of_nat (length body) + (2 + k)); [done| |lia]|].
  { eapply law_room; [exact Hr|lia]. }
  intros b1 Ho1 Hr1. eapply adds_bind; [by apply Hf|].
  intros b2 Ho2 Hr2. by apply adds_append.
Qed.

Lemma length_line_text text : length (line_text text) = length text.
Proof. apply length_fmap. Qed.

(** A fixed reply, a header and a bulk, with the room taken from [R]. *)
Ltac fixed R := apply adds_coded; [done|apply R; cbn; lia|done|done|reflexivity].
Ltac header R := apply adds_header; [done|apply R; lia|done|lia].
Ltac bulk R := apply adds_bulk; [done|apply R; lia|done|lia].

(** Every helper adds the RESP text of its reply. *)
Lemma run_call_adds b c k :
  rs_ok b -> call_ok c -> rs_room b (call_room c + k) -> 0 <= k ->
  adds b (encode c) k (run_call b c).
Proof.
  intros Ho Hc Hr Hk.
  assert (R : forall n, 0 <= n <= call_room c + k -> rs_room b n)
    by (intros n Hn; by eapply law_room).
  destruct c; cbn [run_call encode call_ok call_room] in *; try fixed R; try header R;
    try (apply adds_append; [done|apply R; cbn; lia|done]).
  - apply adds_framed; [done|apply R; rewrite length_line_text; lia|done|].
    intros b' Ho' Hr'. rewrite length_line_text in Hr'. apply adds_line; [done|exact Hr'|lia].
  - apply adds_framed; [done|apply R; lia|done|].
    intros b' Ho' Hr'. apply adds_append; [done|exact Hr'|lia].
  - apply adds_int; [done|apply R; lia|done|done].
  - bulk R.
  - destruct (redis_double_text_total bits Hc) as [E Hl]. unfold reply_double. rewrite E.
    cbn [mbind option_bind]. bulk R.
  - unfold reply_null, reply_nil. destruct resp3; fixed R.
  - unfold reply_null_array3, reply_null_array. destruct resp3; fixed R.
  - unfold reply_bool. destruct resp3; [destruct v; fixed R|].
    destruct v; [apply (adds_int b 1)|apply (adds_int b 0)]; try done; try (apply R; lia); lia.
  - unfold reply_map_header, reply_array_header. destruct resp3; rewrite <- app_assoc; [header R|].
    rewrite u64_small, Z.mul_comm by lia. header R.
  - unfold reply_set_header, reply_array_header. destruct resp3; rewrite <- app_assoc; header R.
  - unfold reply_double3, reply_double. destruct (redis_double_text_total bits Hc) as [-> Hl].
    cbn [mbind option_bind]. destruct resp3; [|bulk R].
    apply adds_emit; [done|apply R; lia| |done]. rewrite !length_app. cbn [length CRLF]. lia.
  - unfold reply_bignum. destruct resp3; [|bulk R]. apply adds_framed; [done|apply R; lia|done|].
    intros b' Ho' Hr'. apply adds_append; [done|exact Hr'|lia].
  - unfold reply_verbatim. destruct Hc as [Hc He]. destruct resp3; [|bulk R].
    destruct (u64_to_dec_text (Z.of_nat (length s) + 4) ltac:(lia)) as [-> Hl].
    cbn [mbind option_bind]. rewrite (take_ge ext) by lia.
    apply adds_emit; [done|apply R; lia| |done]. rewrite !length_app. cbn [length CRLF]. lia.
Qed.

(** A handler's reply: helper calls one after another. *)
Fixpoint run_calls b (cs : list ReplyCall) : option S :=
  match cs with
  | [] => Some b
  | c :: cs => b ← run_call b c; run_calls b cs
  end.
Definition calls_room (cs : list ReplyCall) : Z := foldr (fun c n => call_room c + n) 0 cs.

Lemma call_room_nonneg c : 0 <= call_room c.
Proof. destruct c; cbn; lia. Qed.
Lemma calls_room_nonneg cs : 0 <= calls_room cs.
Proof.
  induction cs as [|c cs IH]; [done|]. pose proof (call_room_nonneg c).
  change (calls_room (c :: cs)) with (call_room c + calls_room cs). lia.
Qed.

Lemma run_calls_adds cs b k :
  rs_ok b -> Forall call_ok cs -> rs_room b (calls_room cs + k) -> 0 <= k ->
  adds b (concat (encode <$> cs)) k (run_calls b cs).
Proof.
  revert b. induction cs as [|c cs IH]; intros b Ho Hc Hr Hk; cbn [run_calls].
  - exists b. by rewrite app_nil_r.
  - inversion Hc; subst. cbn [fmap list_fmap concat]. pose proof (calls_room_nonneg cs).
    eapply adds_bind; [apply run_call_adds with (k := calls_room cs + k); [done|done| |lia]|].
    + by rewrite Z.add_assoc.
    + intros b' Ho' Hr'. by apply IH.
Qed.
End Adds.

(** * Lemmas: retirement *)
Lemma sb_write_prefix b r text n :
  sb_ok b -> sb_fits b r -> Z.of_nat (length text) <= r -> 0 <= n <= Z.of_nat (length text) ->
  exists b1 b2, sb_reserve b r = Some b1 /\ sb_poke b1 0 text = Some b2 /\
    sb_ok (sb_advance b2 n) /\ sb_bytes (sb_advance b2 n) = sb_bytes b ++ take (Z.to_nat n) text /\
    sb_len (sb_advance b2 n) = sb_len b + n.
Proof.
  intros Hok Hf Hl Hn. destruct (sb_write_spec b r text Hok Hf Hl) as (b1 & b2 & E1 & E2 & Ho & Hb & Hlen).
  exists b1, b2. unfold sb_advance, sb_ok, sb_bytes in *. cbn -[Z.of_nat Z.pow] in *.
  assert (Z.to_nat (sb_len b2 + n) = (length (take (Z.to_nat (sb_len b)) (sb_mem b)) + Z.to_nat n))%nat as E3.
  { rewrite length_take. lia. }
  split; [done|]. split; [done|]. split; [lia|]. split; [|lia].
  rewrite E3. rewrite <- (take_app_add _ text), <- Hb, take_take. f_equal. rewrite length_take. lia.
Qed.

(** What a code renders as fits the constant-size reserve. *)
Lemma format_reply_code_spec c v :
  -2147483648 <= v <= 2147483647 ->
  exists text n, format_reply_code c v = Some (text, n) /\ Z.of_nat (length text) <= kReplyCodeMax /\
    0 <= n <= Z.of_nat (length text) /\ code_text c v = take (Z.to_nat n) text.
Proof.
  intros Hv. unfold code_text. destruct (decide (c = RInt)) as [->|Hc].
  - unfold format_reply_code, format_reply_code_int. rewrite bool_decide_eq_true_2 by done. cbn [negb].
    assert (H : forall m, 0 <= m <= 2147483648 -> exists ds, u32_to_dec_direct m = Some ds /\
      Z.of_nat (length ds) <= 10).
    { intros m Hm. rewrite u32_direct_eq by lia. destruct (u64_to_dec_spec m) as (ds & E & Hc & _); [lia|].
      exists ds. split; [done|]. apply (canonical_length ds m); [done|lia|].
      change (10 ^ 10) with 10000000000. lia. }
    unfold kReplyCodeMax. destruct (Z.ltb_spec v 0); rewrite u32_small by lia.
    + destruct (H (- v)) as (ds & -> & Hl); [lia|]. cbn [mbind option_bind].
      eexists _, _. split; [done|]. rewrite !length_app. cbn [length CRLF]. split; [lia|]. split; [lia|done].
    + destruct (H v) as (ds & -> & Hl); [lia|]. cbn [mbind option_bind].
      eexists _, _. split; [done|]. rewrite !length_app. cbn [length CRLF]. split; [lia|]. split; [lia|done].
  - unfold format_reply_code. rewrite bool_decide_eq_false_2 by done. cbn [negb].
    destruct c; try done; cbn [code_index]; eexists _, _; (split; [reflexivity|]); unfold kReplyCodeMax; cbn; (split; [lia|]); split; done || lia.
Qed.

Lemma render_code_spec b c v :
  sb_ok b -> sb_fits b kReplyCodeMax -> -2147483648 <= v <= 2147483647 ->
  exists b', render_code b c v = Some b' /\ sb_ok b' /\ sb_bytes b' = sb_bytes b ++ code_text c v /\
    sb_len b <= sb_len b' <= sb_len b + kReplyCodeMax.
Proof.
  intros Hok Hf Hv. destruct (format_reply_code_spec c v Hv) as (text & n & E & Hl & Hn & ->).
  destruct (sb_write_prefix b kReplyCodeMax text n Hok Hf Hl Hn) as (b1 & b2 & E1 & E2 & Ho & Hb & Hlen).
  unfold render_code. rewrite E1. cbn [mbind option_bind]. rewrite E. cbn [mbind option_bind].
  rewrite E2. cbn [mbind option_bind]. eexists. split; [done|]. split; [done|]. split; [done|]. lia.
Qed.

(** Appending the spill buffer when it has bytes. *)
Lemma append_spill fill r :
  sb_ok fill -> sb_ok r -> sb_fits fill (sb_len r) ->
  exists fill', (if negb (sb_empty r) then sb_append fill (sb_bytes r) else Some fill) = Some fill' /\
    sb_ok fill' /\ sb_bytes fill' = sb_bytes fill ++ sb_bytes r.
Proof.
  intros Hf Hr Hfit.
  assert (Hl : Z.of_nat (length (sb_bytes r)) = sb_len r).
  { unfold sb_ok, sb_bytes in *. rewrite length_take. lia. }
  destruct (sb_append_spec fill (sb_bytes r) Hf) as (fill' & E & Ho & Hb & _); [by rewrite Hl|].
  unfold sb_empty. destruct (Z.eqb_spec (sb_len r) 0) as [E0|]; cbn [negb]; [|by exists fill'].
  exists fill. split; [done|]. split; [done|]. unfold sb_bytes at 3. rewrite E0. cbn. by rewrite app_nil_r.
Qed.

Lemma sb_bytes_length b : sb_ok b -> Z.of_nat (length (sb_bytes b)) = sb_len b.
Proof. unfold sb_ok, sb_bytes. rewrite length_take. lia. Qed.
Lemma sink_out_length s :
  sink_ok s -> Z.of_nat (length (sink_out s)) = direct_len (sk_op s) + sb_len (reply (sk_op s)).
Proof.
  intros (Hr & Hf & Hl & Hc & Hd). unfold sink_out. rewrite length_app, Nat2Z.inj_add.
  rewrite sb_bytes_length by done. unfold sb_ok in Hf. destruct (direct (sk_op s)) as [d|]; [|cbn; lia].
  destruct Hd as (-> & Hd & _). rewrite length_take, length_drop. lia.
Qed.

(** Publishing the direct bytes: the fill buffer grows over what the worker wrote there. *)
Lemma commit_direct s :
  sink_ok s ->
  let o := sk_op s in
  let fill1 := if negb (direct_len o =? 0) then sb_commit_raw (sk_fill s) (direct_len o)
               else sk_fill s in
  sb_ok fill1 /\ sb_len fill1 = sb_len (sk_fill s) + direct_len o /\
  sb_bytes fill1 ++ sb_bytes (reply o) = sb_bytes (sk_fill s) ++ sink_out s.
Proof.
  destruct s as [fill o ld]. intros (Hr & Hf & Hl & Hc & Hd). cbn [sk_fill sk_op] in *.
  unfold sink_out, sb_commit_raw, sb_advance. cbn [sk_fill sk_op]. destruct (direct o) as [d|].
  - destruct Hd as (-> & Hd & _). unfold sb_ok, sb_bytes in *.
    destruct (Z.eqb_spec (direct_len o) 0) as [->|]; cbn -[Z.pow].
    + rewrite take_0. split; [done|]. split; [lia|done].
    + split; [lia|]. split; [done|]. by rewrite app_assoc, Z2Nat.inj_add, take_take_drop by lia.
  - rewrite Hd. cbn. split; [done|]. split; [lia|done].
Qed.

(** Retirement through the fill buffer leaves there exactly what the sink stands for. *)
Lemma retire_fill_spec s :
  sink_inv s -> sink_room s 0 ->
  exists fill', retire_fill (sk_fill s) (sk_op s) = Some fill' /\ sb_ok fill' /\
    sb_bytes fill' = sink_wire s.
Proof.
  intros [Hok Hv] [_ Hfit]. pose proof (sink_out_length s Hok) as Hlen.
  pose proof (commit_direct s Hok) as (Ho1 & Hl1 & Hb1). destruct Hok as (Hr & Hf & Hl & Hc & Hd).
  rewrite Nat2Z.inj_add, Hlen, sb_bytes_length in Hfit by done.
  unfold retire_fill, sink_wire, sink_code_text, kReplyCodeMax in *.
  assert (0 <= sb_len (reply (sk_op s))) by (unfold sb_ok in Hr; lia).
  destruct (decide (reply_code (sk_op s) = RNone)) as [E|E].
  - rewrite bool_decide_eq_true_2 by done. cbn [negb app].
    destruct (append_spill _ (reply (sk_op s)) Ho1) as (fill' & E' & Ho' & Hb'); [done|split; lia|].
    exists fill'. split; [done|]. split; [done|]. by rewrite Hb', Hb1.
  - rewrite bool_decide_eq_false_2 by done. cbn [negb].
    assert (Hdir : direct (sk_op s) = None) by (destruct (direct (sk_op s)); [by destruct Hd as (_ & _ & ?)|done]).
    unfold sink_out. rewrite Hdir. cbn [app].
    destruct (render_code_spec (sk_fill s) (reply_code (sk_op s)) (reply_ival (sk_op s)))
      as (fill1 & E1 & Ho1' & Hb1' & Hl1'); [done|unfold sb_fits, kReplyCodeMax; lia|done|].
    unfold stage_coded_reply. rewrite E1. cbn [mbind option_bind]. unfold kReplyCodeMax in Hl1'.
    destruct (append_spill fill1 (reply (sk_op s)) Ho1') as (fill' & E' & Ho' & Hb'); [done|split; lia|].
    exists fill'. split; [done|]. split; [done|]. by rewrite Hb', Hb1', app_assoc.
Qed.

(** * Properties *)

(** The sink an operation starts with: its reply state reset, and the direct region armed when
    the IO thread found it at the ROB head with an empty fill buffer. *)
Definition fresh_sink (armed : bool) (fill : SmallBuf) (o : OpReply) : Sink :=
  let o := reset_reply true o in mkSink fill (if armed then arm_direct fill o else o) false.

Lemma fresh_sink_inv (armed : bool) fill o :
  sb_ok fill -> sb_ok (reply o) ->
  (if armed then sb_empty fill = true /\ sb_cap fill < 4294967296 else True) ->
  sink_inv (fresh_sink armed fill o) /\ sink_wire (fresh_sink armed fill o) = sb_bytes fill /\
  sink_out (fresh_sink armed fill o) = [].
Proof.
  intros Hf Hr Ha.
  assert (Hc : sb_ok (sb_clear (reply o))) by (unfold sb_ok, sb_clear in *; cbn -[Z.pow]; lia).
  unfold sink_inv, sink_wire, sink_code_text. destruct armed.
  - destruct Ha as [He Hcap]. split; [split; [by apply arm_direct_ok|cbn; lia]|]. cbn. by rewrite app_nil_r.
  - split; [split; [|cbn; lia]|].
    + unfold sink_ok. cbn -[Z.of_nat]. split_and!; done || lia.
    + cbn. by rewrite app_nil_r.
Qed.

(** C12: The reply pipeline is exact.  From a reset operation, with or without a direct region, any
    sequence of helper calls (fixed, coded, integer, bulk, header, double, RESP2 and RESP3 forms)
    returns, and retirement through the fill buffer then leaves the older fill bytes followed by
    the RESP texts of the calls in order, whether each reply took a code, the direct region or the
    spill buffer. *)
Theorem reply_pipeline_exact (armed : bool) fill o cs :
  sb_ok fill -> sb_ok (reply o) ->
  (if armed then sb_empty fill = true /\ sb_cap fill < 4294967296 else True) ->
  Forall call_ok cs -> Z.of_nat (length (sb_bytes fill)) + 16 + calls_room cs <= 2 ^ 60 ->
  exists s' fill', run_calls (fresh_sink armed fill o) cs = Some s' /\
    retire_fill (sk_fill s') (sk_op s') = Some fill' /\ sb_ok fill' /\
    sb_bytes fill' = sb_bytes fill ++ concat (encode <$> cs).
Proof.
  intros Hf Hr Ha Hc Hroom. destruct (fresh_sink_inv armed fill o Hf Hr Ha) as (Hi & Hw & Ho).
  pose proof (calls_room_nonneg cs).
  destruct (run_calls_adds cs (fresh_sink armed fill o) 0) as (s' & E & Hi' & Hr' & Hw');
    [exact Hi|exact Hc| |lia|].
  { split; [|rewrite Ho; unfold kReplyCodeMax; cbn [sk_fill fresh_sink length]; lia].
    unfold sink_fits, sb_fits, fresh_sink. destruct armed; cbn -[Z.pow]; lia. }
  destruct (retire_fill_spec s' Hi' Hr') as (fill' & E' & Ho' & Hb').
  exists s', fill'. split; [done|]. split; [done|]. split; [done|].
  change (rs_wire s') with (sink_wire s') in Hw'.
  change (rs_wire (fresh_sink armed fill o)) with (sink_wire (fresh_sink armed fill o)) in Hw'.
  by rewrite Hb', Hw', Hw.
Qed.
Lemma reply_pipeline_exact_witness :
  let cs := [CArrayHeader 2; CBulk (str "a"); CInt (-7)] in
  exists s' fill', run_calls (fresh_sink true (sb_new 64) reply_new) cs = Some s' /\
    retire_fill (sk_fill s') (sk_op s') = Some fill' /\ sb_ok fill' /\
    sb_bytes fill' = sb_bytes (sb_new 64) ++ concat (encode <$> cs).
Proof.
  apply (reply_pipeline_exact true (sb_new 64) reply_new).
  - apply sb_new_ok. change (2 ^ 61) with 2305843009213693952. lia.
  - apply sb_new_ok. change (2 ^ 61) with 2305843009213693952. unfold kInlineReply. lia.
  - split; reflexivity.
  - repeat constructor; cbn; lia.
  - by vm_compute.
Defined.

(** An error reply is one line: whatever text it quotes, the sink gains a minus sign, a text as
    long as the message in which no byte is CR or LF, and one CRLF, so a quoted argument can never
    end the frame early. *)
Theorem error_reply_one_line {S} `{!ReplySink S, !ReplySinkLaws S} (b : S) (msg : bytes) (k : Z) :
  rs_ok b -> rs_room b (Z.of_nat (length msg) + 3 + k) -> 0 <= k ->
  exists b' text, reply_err b msg = Some b' /\ rs_ok b' /\
    rs_wire b' = rs_wire b ++ [45] ++ text ++ CRLF /\
    length text = length msg /\ Forall (fun c => c <> CR /\ c <> LF) text.
Proof.
  intros Ho Hr Hk. destruct (run_call_adds b (CErr msg) k Ho I Hr Hk) as (b' & E & Ho' & _ & Hw).
  exists b', (line_text msg). repeat (split; [done|]). split; [apply length_line_text|].
  unfold line_text. apply Forall_fmap, Forall_true. intros c. cbn.
  destruct (Z.eqb_spec c CR), (Z.eqb_spec c LF); cbn; done.
Qed.
Lemma error_reply_one_line_witness :
  exists b' text, reply_err (sb_new 16) (str "ERR a" ++ CRLF ++ str "b") = Some b' /\ rs_ok b' /\
    rs_wire b' = rs_wire (sb_new 16) ++ [45] ++ text ++ CRLF /\
    length text = length (str "ERR a" ++ CRLF ++ str "b") /\
    Forall (fun c => c <> CR /\ c <> LF) text.
Proof.
  apply (error_reply_one_line (sb_new 16) (str "ERR a" ++ CRLF ++ str "b") 0).
  - apply sb_new_ok. change (2 ^ 61) with 2305843009213693952. lia.
  - split; by vm_compute.
  - lia.
Defined.

Lemma command_text args :
  Forall (fun x => Z.of_nat (length x) < 4294967296) args ->
  Z.of_nat (length args) < 4294967296 ->
  concat (encode <$> (CArrayHeader (Z.of_nat (length args)) :: (CBulk <$> args))) = enc_command args.
Proof.
  intros Hl Hn. unfold enc_command, enc_len. cbn [fmap list_fmap concat encode].
  destruct (u64_to_dec_text (Z.of_nat (length args)) ltac:(lia)) as [-> _]. cbn [app]. do 2 f_equal.
  induction Hl as [|x args Hx Hl IH]; [done|]. cbn [fmap list_fmap concat encode]. f_equal; [|apply IH; cbn in Hn; lia].
  unfold bulk_text, enc_bulk, enc_len.
  destruct (u64_to_dec_text (Z.of_nat (length x)) ltac:(lia)) as [-> _]. cbn [app].
  by rewrite <- app_assoc.
Qed.

(** Writing and parsing agree: an array header and one bulk per argument, written with the reply
    helpers, is a command the request parser reads back. *)
Theorem written_command_parses_back (b : SmallBuf) (args : list bytes) (alloc : Z -> bool) a :
  sb_ok b -> sb_bytes b = [] -> args <> [] -> Z.of_nat (length args) <= 1048576 ->
  Forall (fun x => Z.of_nat (length x) <= 536870912) args ->
  sb_len b + calls_room (CArrayHeader (Z.of_nat (length args)) :: (CBulk <$> args)) <= 2 ^ 60 ->
  Z.of_nat (length (enc_command args)) < 4294967296 ->
  (forall n, alloc n = true) -> args_ok a -> argc a = 0 ->
  exists b' a', run_calls b (CArrayHeader (Z.of_nat (length args)) :: (CBulk <$> args)) = Some b' /\
    resp_parse alloc (sb_bytes b') 0 a =
      Some (mkOut POk (Z.of_nat (length (sb_bytes b'))) a' "") /\
    denote (sb_bytes b') (op_args a') args.
Proof.
  intros Hb Hb0 Hne Hn Hl Hroom Hlen Hal Ha Hc.
  set (cs := CArrayHeader _ :: _) in *. pose proof (calls_room_nonneg cs).
  assert (Hcs : Forall call_ok cs).
  { unfold cs. constructor; [cbn; lia|]. apply Forall_fmap. eapply Forall_impl; [exact Hl|]. cbn. lia. }
  destruct (run_calls_adds cs b 0) as (b' & E & _ & _ & Hw); [exact Hb|exact Hcs| |lia|].
  { unfold rs_room, smallbuf_laws, sb_fits. lia. }
  change (rs_wire b') with (sb_bytes b') in Hw. change (rs_wire b) with (sb_bytes b) in Hw.
  rewrite Hb0 in Hw. unfold cs in Hw. rewrite command_text in Hw;
    [|by eapply Forall_impl; [exact Hl|cbn; lia]|lia]. cbn [app] in Hw.
  destruct (resp_parse_roundtrip alloc args [] [] false 0 0 a) as (a' & E' & _ & Hd);
    try done; try lia; [by rewrite app_nil_r|]. cbn [app length] in E', Hd. rewrite app_nil_r in E', Hd.
  exists b', a'. rewrite Hw. done.
Qed.
Lemma written_command_parses_back_witness :
  let args := [str "GET"; str "k1"] in
  exists b' a', run_calls (sb_new 16) (CArrayHeader (Z.of_nat (length args)) :: (CBulk <$> args)) = Some b' /\
    resp_parse (fun _ => true) (sb_bytes b') 0 args_new =
      Some (mkOut POk (Z.of_nat (length (sb_bytes b'))) a' "") /\
    denote (sb_bytes b') (op_args a') args.
Proof.
  apply (written_command_parses_back (sb_new 16) [str "GET"; str "k1"] (fun _ => true) args_new).
  - apply sb_new_ok. change (2 ^ 61) with 2305843009213693952. lia.
  - reflexivity.
  - done.
  - by vm_compute.
  - repeat constructor; by vm_compute.
  - by vm_compute.
  - by vm_compute.
  - reflexivity.
  - unfold args_ok; cbn; lia.
  - reflexivity.
Defined.

(** What the segment path makes of a reply that is either coded or bytes. *)
Lemma retire_segment_spec s :
  sink_inv s -> reply_code (sk_op s) = RNone \/ sb_empty (reply (sk_op s)) = true ->
  retire_segment (sk_fill s) (sk_op s) = Some (sink_code_text s ++ sink_out s).
Proof.
  intros [(Hr & Hf & Hl & Hc & Hd) Hv] Hor.
  unfold retire_segment, sink_code_text, sink_out, op_materialise_code.
  destruct (decide (reply_code (sk_op s) = RNone)) as [En|En].
  - rewrite bool_decide_eq_true_2 by done. cbn [negb mbind option_bind app].
    destruct (direct (sk_op s)) as [d|]; [|done]. destruct Hd as (-> & Hd & _).
    unfold sb_ok in Hf. rewrite mem_read_Some by lia. done.
  - destruct Hor as [|He]; [done|]. rewrite bool_decide_eq_false_2 by done. cbn [negb].
    assert (Hdir : direct (sk_op s) = None) by (destruct (direct (sk_op s)); [by destruct Hd as (_ & _ & ?)|done]).
    unfold sb_empty in He. apply Z.eqb_eq in He.
    destruct (render_code_spec (reply (sk_op s)) (reply_code (sk_op s)) (reply_ival (sk_op s)))
      as (b' & -> & _ & Hb' & _); [done| |done|].
    { unfold sb_fits, kReplyCodeMax. rewrite He. split; [lia|]. by vm_compute. }
    cbn [mbind option_bind direct reply]. rewrite Hdir. cbn [app]. rewrite Hb'.
    assert (sb_bytes (reply (sk_op s)) = []) as -> by (unfold sb_bytes; by rewrite He).
    by rewrite app_nil_r.
Qed.

(** The two retirement paths agree.  With segments already pending, the owner builds an owned
    segment instead of extending the fill buffer; for a reply that is either coded or bytes, but
    not a code followed by bytes, the segment holds exactly the bytes the fill path would have
    added. *)
Theorem segment_path_agrees s :
  sink_inv s -> sink_room s 0 ->
  reply_code (sk_op s) = RNone \/ sb_empty (reply (sk_op s)) = true ->
  exists seg fill', retire_segment (sk_fill s) (sk_op s) = Some seg /\
    retire_fill (sk_fill s) (sk_op s) = Some fill' /\
    sb_bytes fill' = sb_bytes (sk_fill s) ++ seg.
Proof.
  intros Hi Hroom Hor. destruct (retire_fill_spec s Hi Hroom) as (fill' & E & _ & Hb).
  exists (sink_code_text s ++ sink_out s), fill'. split; [by apply retire_segment_spec|by rewrite Hb].
Qed.
Lemma segment_path_agrees_witness :
  let s := mkSink (sb_new 16) (mkReply ROk 0 true (sb_new 96) None 0 0) false in
  exists seg fill', retire_segment (sk_fill s) (sk_op s) = Some seg /\
    retire_fill (sk_fill s) (sk_op s) = Some fill' /\
    sb_bytes fill' = sb_bytes (sk_fill s) ++ seg.
Proof.
  intros s. apply (segment_path_agrees s).
  - split; [|cbn; lia]. unfold sink_ok, sb_ok. cbn -[Z.pow].
    change (2 ^ 61) with 2305843009213693952. repeat (split; [lia|]). done.
  - split; [split|]; by vm_compute.
  - by right.
Defined.

(** Without that hypothesis they differ: a code followed by bytes keeps its order in the fill
    buffer, and is reordered in a segment, because the code is rendered behind the bytes. *)
Example code_then_bytes :
  let s := run_calls (mkSink (sb_new 32) (mkReply RNone 0 true (sb_new 96) None 0 0) false) [COk; CPong] in
  (s ← s; retire_fill (sk_fill s) (sk_op s)) = (sb_append (sb_new 32) (encode COk ++ encode CPong)) /\
  (s ← s; retire_segment (sk_fill s) (sk_op s)) = Some (encode CPong ++ encode COk).
Proof. vm_compute. split; reflexivity. Qed.
