(* ===== verification/Ring.v ===== *)
(** Shared facts about single-producer/single-consumer rings: 32-bit frontiers that wrap around,
    power-of-two blocks indexed by masking, and the values a block holds between two frontiers.
    ExQueue.v and MaskedQueue.v both rest on this file.

    A frontier is a 32-bit word in the source; the invariants name the unwrapped count it stands
    for, so that "tail - head" is an ordinary subtraction of counts. *)
From S2P Require Import Prelude.

(** A capacity the queues accept. *)
Definition pow2_capacity (cap : Z) : Prop := exists k, 0 <= k <= 31 /\ cap = 2 ^ k.

Lemma pow2_capacity_bounds cap : pow2_capacity cap -> 1 <= cap <= 2147483648.
Proof.
  intros (k & Hk & ->). split.
  - apply (Z.pow_le_mono_r 2 0); lia.
  - change 2147483648 with (2 ^ 31). apply Z.pow_le_mono_r; lia.
Qed.

(** Masking the wrapped counter is reducing the count. *)
Lemma mask_index cap n : pow2_capacity cap -> Z.land (u32 n) (cap - 1) = n mod cap.
Proof. intros (k & Hk & ->). rewrite land_ones_mod, u32_mod_pow2 by lia. done. Qed.

(** Differences of frontiers at most 2^32 - 1 apart are recovered exactly. *)
Lemma frontier_sub a b : 0 <= a - b < 4294967296 -> u32 (u32 a - u32 b) = a - b.
Proof. intros H. rewrite u32_sub_u32. by apply u32_small. Qed.
Lemma frontier_eq a b : 0 <= a - b < 4294967296 -> (u32 b =? u32 a) = (b =? a).
Proof.
  intros H. destruct (Z.eqb_spec b a) as [->|Hn]; [apply Z.eqb_refl|].
  apply Z.eqb_neq. intros E. apply Hn. unfold u32 in E. Z.div_mod_to_equations; lia.
Qed.

(** * Values held by a block *)
Section Held.
Context {T : Type}.
Implicit Types (slots l : list T).

(** The slot of the [n]-th value ever pushed, and the block from its base on. *)
Definition slot_at (base cap n : Z) : nat := Z.to_nat (base + n mod cap).
Definition held slots (base cap h : Z) l : Prop :=
  forall i x, l !! i = Some x -> slots !! slot_at base cap (h + Z.of_nat i) = Some x.

Lemma slot_at_lt base cap n len :
  0 <= base -> 0 < cap -> base + cap <= len -> (slot_at base cap n < Z.to_nat len)%nat.
Proof. intros. unfold slot_at. pose proof (Z.mod_pos_bound n cap). lia. Qed.

(** Two counts less than a capacity apart have different slots. *)
Lemma slot_at_inj base cap a b :
  0 <= base -> 0 < cap -> a <= b < a + cap -> slot_at base cap a = slot_at base cap b -> a = b.
Proof.
  intros Hb Hc Hab E. unfold slot_at in E.
  pose proof (Z.mod_pos_bound a cap). pose proof (Z.mod_pos_bound b cap).
  assert (a mod cap = b mod cap) as Em by lia.
  assert (cap * (b / cap - a / cap) = b - a) as Ed.
  { pose proof (Z.div_mod a cap ltac:(lia)). pose proof (Z.div_mod b cap ltac:(lia)). lia. }
  assert (b / cap - a / cap = 0) as E0 by nia. rewrite E0 in Ed. lia.
Qed.

Lemma held_cons slots base cap h x l :
  held slots base cap h (x :: l) ->
  slots !! slot_at base cap h = Some x /\ held slots base cap (h + 1) l.
Proof.
  intros H. split.
  - specialize (H 0%nat x eq_refl). by rewrite Z.add_0_r in H.
  - intros i y Hy. specialize (H (S i) y Hy). rewrite Nat2Z.inj_succ in H.
    by replace (h + 1 + Z.of_nat i) with (h + Z.succ (Z.of_nat i)) by lia.
Qed.

Lemma held_app slots base cap h l1 l2 :
  held slots base cap h l1 -> held slots base cap (h + Z.of_nat (length l1)) l2 ->
  held slots base cap h (l1 ++ l2).
Proof.
  intros H1 H2 i x Hx. apply lookup_app_Some in Hx as [Hx|[Hi Hx]]; [by apply H1|].
  specialize (H2 _ _ Hx). by replace (h + Z.of_nat i) with
    (h + Z.of_nat (length l1) + Z.of_nat (i - length l1)) by lia.
Qed.

(** A store to another slot leaves the held values alone. *)
Lemma held_insert_other slots base cap h l j v :
  (forall i, (i < length l)%nat -> slot_at base cap (h + Z.of_nat i) <> j) ->
  held slots base cap h l -> held (<[j := v]> slots) base cap h l.
Proof.
  intros Hj H i x Hx. rewrite list_lookup_insert_ne; [by apply H|].
  intros E. apply lookup_lt_Some in Hx. by apply (Hj i).
Qed.

(** A store at the count behind the held values. *)
Lemma held_store slots base cap h l v len :
  0 <= base -> 0 < cap -> base + cap <= len -> Z.to_nat len = length slots ->
  Z.of_nat (length l) < cap -> held slots base cap h l ->
  held (<[slot_at base cap (h + Z.of_nat (length l)) := v]> slots) base cap h (l ++ [v]).
Proof.
  intros Hb Hc Hlen Hs Hl H. apply held_app.
  - apply held_insert_other; [|done]. intros i Hi E. apply slot_at_inj in E; lia.
  - intros [|i] x Hx; [|done]. injection Hx as <-. rewrite Z.add_0_r.
    apply list_lookup_insert_eq. rewrite <- Hs. by apply slot_at_lt.
Qed.

Lemma held_nil slots base cap h : held slots base cap h [].
Proof. intros i x Hx. done. Qed.

(** Slots of different blocks differ. *)
Lemma slot_at_blocks base1 cap1 base2 cap2 n1 n2 :
  0 <= base1 -> 0 <= base2 -> 0 < cap1 -> 0 < cap2 ->
  base1 + cap1 <= base2 \/ base2 + cap2 <= base1 ->
  slot_at base1 cap1 n1 <> slot_at base2 cap2 n2.
Proof.
  intros. unfold slot_at. pose proof (Z.mod_pos_bound n1 cap1). pose proof (Z.mod_pos_bound n2 cap2). lia.
Qed.
End Held.

(** [for (i = 0; i < count; i++) slots_[base + ((t + i) & mask)] = values[i]] *)
Fixpoint store_run {T} (slots : list T) (base mask t i : Z) (vs : list T) : list T :=
  match vs with
  | [] => slots
  | v :: vs =>
      store_run (<[Z.to_nat (base + Z.land (u32 (t + i)) mask) := v]> slots) base mask t (i + 1) vs
  end.

Lemma store_run_length {T} vs (slots : list T) base mask t i :
  length (store_run slots base mask t i vs) = length slots.
Proof.
  revert slots i. induction vs as [|v vs IH]; intros slots i; [done|]. cbn. by rewrite IH, length_insert.
Qed.

Lemma store_run_held {T} vs (slots l : list T) base cap n h len i :
  pow2_capacity cap -> 0 <= base -> base + cap <= len -> Z.to_nat len = length slots ->
  n + i = h + Z.of_nat (length l) -> Z.of_nat (length l + length vs) <= cap ->
  held slots base cap h l ->
  held (store_run slots base (cap - 1) (u32 n) i vs) base cap h (l ++ vs).
Proof.
  intros Hp Hb Hlen. pose proof (pow2_capacity_bounds cap Hp).
  revert slots l i. induction vs as [|v vs IH]; intros slots l i Hs Hn Hl H'; cbn [store_run].
  - by rewrite app_nil_r.
  - cbn [length] in Hl. rewrite u32_add_u32, mask_index, Hn by done.
    change (Z.to_nat (base + (h + Z.of_nat (length l)) mod cap))
      with (slot_at base cap (h + Z.of_nat (length l))).
    replace (l ++ v :: vs) with ((l ++ [v]) ++ vs) by (by rewrite <- app_assoc).
    apply IH; rewrite ?length_insert, ?length_app; cbn [length]; [done|lia|lia|].
    eapply held_store; done || lia.
Qed.

Lemma store_run_other {T} vs (slots l : list T) base cap n h base' cap' i :
  pow2_capacity cap -> 0 <= base -> 0 <= base' -> 0 < cap' ->
  base + cap <= base' \/ base' + cap' <= base ->
  held slots base' cap' h l ->
  held (store_run slots base (cap - 1) (u32 n) i vs) base' cap' h l.
Proof.
  intros Hp Hb Hb' Hc' Hd. pose proof (pow2_capacity_bounds cap Hp).
  revert slots i. induction vs as [|v vs IH]; intros slots i H'; cbn [store_run]; [done|].
  apply IH. rewrite u32_add_u32, mask_index by done.
  change (Z.to_nat (base + (n + i) mod cap)) with (slot_at base cap (n + i)).
  apply held_insert_other; [|done]. intros j _. apply slot_at_blocks; lia.
Qed.
