(* ===== verification/ExQueue.v ===== *)
(** exqueue.h: the fixed-capacity single-producer/single-consumer queue.

    The queue object is a record of its words and slots.  Each operation is written in the pieces
    between which the other thread can run (the decision with its at most one load of the other
    side's frontier, each slot access, the publication), and the operation of the source is their
    composition.  [step] interleaves the pieces of one producer and one consumer; the theorems are
    about every reachable state of that machine. *)
From stdpp Require Import relations.
From S2P Require Import Prelude Ring.

Record ExQueue (T : Type) := mkExQ {
  head : Z; retired : Z; tail_cached : Z;      (* the consumer's line *)
  tail : Z; head_cached : Z;                   (* the producer's line *)
  slots : list T }.
Arguments mkExQ {T}.
Arguments head {T}.
Arguments retired {T}.
Arguments tail_cached {T}.
Arguments tail {T}.
Arguments head_cached {T}.
Arguments slots {T}.

Section Queue.
Context {T : Type} (Capacity : Z).
Implicit Types (q : ExQueue T).
Definition kMask : Z := Capacity - 1.

Definition set_head_cached q (h : Z) : ExQueue T :=
  mkExQ (head q) (retired q) (tail_cached q) (tail q) h (slots q).
Definition set_slots q (s : list T) : ExQueue T :=
  mkExQ (head q) (retired q) (tail_cached q) (tail q) (head_cached q) s.
Definition set_tail q (t : Z) : ExQueue T :=
  mkExQ (head q) (retired q) (tail_cached q) t (head_cached q) (slots q).
Definition set_tail_cached q (t : Z) : ExQueue T :=
  mkExQ (head q) (retired q) t (tail q) (head_cached q) (slots q).
Definition set_head q (h : Z) : ExQueue T :=
  mkExQ h (retired q) (tail_cached q) (tail q) (head_cached q) (slots q).

(** The capacity decision: against the cached head, re-read once when that says full. *)
Definition push_begin q (count : Z) : ExQueue T * bool :=
  let next := u32 (tail q + count) in
  if Capacity <? u32 (next - head_cached q) then
    let q := set_head_cached q (head q) in
    (q, negb (Capacity <? u32 (next - head_cached q)))
  else (q, true).

Definition push q (v : T) : ExQueue T * bool :=
  let '(q, ok) := push_begin q 1 in
  if ok then
    let t := tail q in
    (set_tail (set_slots q (<[Z.to_nat (Z.land t kMask) := v]> (slots q))) (u32 (t + 1)), true)
  else (q, false).

Definition push_prepared q (v : T) (prepare : T -> T) : ExQueue T * bool :=
  let '(q, ok) := push_begin q 1 in
  if ok then
    let t := tail q in
    let v := prepare v in
    (set_tail (set_slots q (<[Z.to_nat (Z.land t kMask) := v]> (slots q))) (u32 (t + 1)), true)
  else (q, false).

Definition push_batch q (values : list T) : ExQueue T * bool :=
  let count := Z.of_nat (length values) in
  if count =? 0 then (q, true)
  else
    let '(q, ok) := push_begin q count in
    if ok then
      let t := tail q in
      (set_tail (set_slots q (store_run (slots q) 0 kMask t 0 values)) (u32 (t + count)), true)
    else (q, false).

Definition push_batch_prepared q (values : list T) (prepare : T -> T) : ExQueue T * bool :=
  let count := Z.of_nat (length values) in
  if count =? 0 then (q, true)
  else
    let '(q, ok) := push_begin q count in
    if ok then
      let t := tail q in
      (set_tail (set_slots q (store_run (slots q) 0 kMask t 0 (prepare <$> values)))
         (u32 (t + count)), true)
    else (q, false).

Definition producer_free_slots q : Z := u32 (Capacity - u32 (tail q - head q)).

(** The emptiness decision: against the cached tail, re-read once when that says empty. *)
Definition pop_begin q : ExQueue T * bool :=
  if head q =? tail_cached q then
    let q := set_tail_cached q (tail q) in (q, negb (head q =? tail_cached q))
  else (q, true).
Definition pop_slot q : option T := slots q !! Z.to_nat (Z.land (head q) kMask).

(** [None] would be a read outside the slot array; the inner option is the returned bool with
    [out]. *)
Definition pop q : option (ExQueue T * option T) :=
  let '(q, ok) := pop_begin q in
  if ok then v ← pop_slot q; Some (set_head q (u32 (head q + 1)), Some v) else Some (q, None).

Definition retire q : ExQueue T :=
  mkExQ (head q) (u32 (retired q + 1)) (tail_cached q) (tail q) (head_cached q) (slots q).
Definition quiesced q : bool := retired q =? tail q.
Definition depth q : Z := u32 (tail q - head q).

(** The walk of [newest_nonzero] from [t] down to the head; [depth] rounds reach it. *)
Fixpoint newest_loop (extract : T -> Z) (fuel : nat) q (t : Z) : option Z :=
  if t =? head q then Some 0
  else match fuel with
       | O => None
       | S fuel =>
           let t := u32 (t - 1) in
           v ← slots q !! Z.to_nat (Z.land t kMask);
           if negb (extract v =? 0) then Some (extract v) else newest_loop extract fuel q t
       end.
Definition newest_nonzero (extract : T -> Z) q : option Z :=
  newest_loop extract (Z.to_nat (depth q)) q (tail q).

Definition queue_new (zero : T) : ExQueue T :=
  mkExQ 0 0 0 0 0 (replicate (Z.to_nat Capacity) zero).

(** * The invariant

    The counts behind the words: [H] popped, [T'] published, [R] retired, the two cached ones,
    and [l] the values between head and tail. *)
Record counts := mkCounts { cH : Z; cT : Z; cR : Z; cHC : Z; cTC : Z }.
Definition words_ok q (c : counts) : Prop :=
  head q = u32 (cH c) /\ tail q = u32 (cT c) /\ retired q = u32 (cR c) /\
  head_cached q = u32 (cHC c) /\ tail_cached q = u32 (cTC c).
Definition counts_ok (c : counts) : Prop :=
  0 <= cR c <= cH c /\ cH c <= cTC c <= cT c /\ 0 <= cHC c <= cH c /\ cT c - cHC c <= Capacity.
Definition queue_inv q (c : counts) (l : list T) : Prop :=
  words_ok q c /\ counts_ok c /\ Z.of_nat (length (slots q)) = Capacity /\
  Z.of_nat (length l) = cT c - cH c /\ held (slots q) 0 Capacity (cH c) l.
End Queue.

(** * Lemmas: one operation at a time *)
Section QueueLemmas.
Context {T : Type} (Capacity : Z) (Hcap : pow2_capacity Capacity).
Implicit Types (q : ExQueue T) (l : list T).

Lemma queue_new_inv (zero : T) : queue_inv Capacity (queue_new Capacity zero) (mkCounts 0 0 0 0 0) [].
Proof.
  pose proof (pow2_capacity_bounds _ Hcap) as HB. split; [done|].
  split; [unfold counts_ok; cbn; lia|]. split; [cbn; rewrite length_replicate; lia|]. by split; [|apply held_nil].
Qed.

(** The decision is exact about what it promises: room when it accepts, and no room at the
    moment of the load when it refuses. *)
Lemma push_begin_spec q c l count :
  queue_inv Capacity q c l -> 0 < count < 2147483648 ->
  exists hc, let c' := mkCounts (cH c) (cT c) (cR c) hc (cTC c) in
    queue_inv Capacity (push_begin Capacity q count).1 c' l /\
    slots (push_begin Capacity q count).1 = slots q /\ cHC c <= hc /\
    if (push_begin Capacity q count).2 then cT c + count - hc <= Capacity
    else Capacity < cT c + count - cH c.
Proof.
  intros (Hw & Hc & Hs & Hl & Hh) Hn. pose proof (pow2_capacity_bounds _ Hcap) as HB.
  destruct Hw as (E1 & E2 & E3 & E4 & E5). destruct c as [H T' R HC TC]; unfold counts_ok in Hc; cbn in *.
  unfold push_begin. rewrite E2, E4, u32_add_u32, frontier_sub by lia.
  destruct (Z.ltb_spec Capacity (T' + count - HC)).
  - cbn. rewrite E1, frontier_sub by lia. exists H.
    split; [|split; [done|]; split; [lia|]; destruct (Z.ltb_spec Capacity (T' + count - H)); cbn; lia].
    unfold queue_inv, words_ok, counts_ok; cbn. repeat (split; [done || lia|]). done.
  - cbn. exists HC. split; [|done || (split; [done|]; lia)].
    unfold queue_inv, words_ok, counts_ok; cbn. repeat (split; [done || lia|]). done.
Qed.

Lemma push_batch_spec q c l vs :
  queue_inv Capacity q c l -> Z.of_nat (length vs) < 2147483648 ->
  let '(q', ok) := push_batch Capacity q vs in
  if ok then exists c', queue_inv Capacity q' c' (l ++ vs) /\ cH c' = cH c /\ cR c' = cR c
  else Capacity < cT c + Z.of_nat (length vs) - cH c /\
       exists c', queue_inv Capacity q' c' l /\ cH c' = cH c /\ cR c' = cR c.
Proof.
  intros Hq Hn. pose proof (pow2_capacity_bounds _ Hcap) as HB. unfold push_batch.
  destruct (Z.eqb_spec (Z.of_nat (length vs)) 0) as [E|E].
  { destruct vs; [|done]. exists c. by rewrite app_nil_r. }
  destruct (push_begin_spec q c l (Z.of_nat (length vs)) Hq ltac:(lia)) as (hc & Hq' & Hs & Hhc & Hok).
  destruct (push_begin Capacity q (Z.of_nat (length vs))) as [q1 ok]; cbn [fst snd] in *.
  destruct ok; [|split; [done|]; by eexists].
  destruct Hq' as ((E1 & E2 & E3 & E4 & E5) & Hc & Hsl & Hl & Hh). unfold counts_ok in Hc. cbn in *.
  exists (mkCounts (cH c) (cT c + Z.of_nat (length vs)) (cR c) hc (cTC c)).
  split; [|done]. unfold queue_inv, words_ok, counts_ok; cbn.
  rewrite E2, u32_add_u32, store_run_length, length_app. repeat (split; [done || lia|]).
  apply (store_run_held vs (slots q1) l 0 Capacity (cT c) (cH c) Capacity 0); try done; lia.
Qed.

(** It is accepted exactly when it fits. *)
Lemma push_batch_room q c l vs :
  queue_inv Capacity q c l -> Z.of_nat (length vs) < 2147483648 ->
  (push_batch Capacity q vs).2 = bool_decide (Z.of_nat (length l + length vs) <= Capacity \/ vs = []).
Proof.
  intros Hq Hn. pose proof (push_batch_spec q c l vs Hq Hn) as H.
  pose proof Hq as (_ & _ & _ & Hl & _). symmetry.
  destruct (push_batch Capacity q vs) as [q' ok] eqn:E. cbn [snd]. destruct ok.
  - apply bool_decide_eq_true_2. destruct H as (c' & (_ & Hc' & _ & Hl' & _) & _).
    unfold counts_ok in Hc'. rewrite length_app in Hl'. left. lia.
  - apply bool_decide_eq_false_2. destruct H as [H _]. intros [Hf| ->]; [lia|done].
Qed.

(** The single and the prepared forms are the batch form. *)
Lemma push_eq q v :
  0 <= tail q < 4294967296 -> push Capacity q v = push_batch Capacity q [v].
Proof.
  intros Ht. unfold push, push_batch. cbn [length].
  change (Z.of_nat 1) with 1. change (1 =? 0) with false. cbn iota.
  destruct (push_begin Capacity q 1) as [q1 ok] eqn:E. destruct ok; [|done]. cbn [store_run].
  assert (tail q1 = tail q) as -> by (unfold push_begin in E; destruct (_ <? _); by simplify_eq).
  by rewrite Z.add_0_r, (u32_small (tail q)).
Qed.
Lemma push_prepared_eq q v prepare : push_prepared Capacity q v prepare = push Capacity q (prepare v).
Proof. done. Qed.
Lemma push_batch_prepared_eq q vs prepare :
  push_batch_prepared Capacity q vs prepare = push_batch Capacity q (prepare <$> vs).
Proof. unfold push_batch_prepared, push_batch. by rewrite length_fmap. Qed.

Lemma pop_begin_spec q c l :
  queue_inv Capacity q c l ->
  exists tc, let c' := mkCounts (cH c) (cT c) (cR c) (cHC c) tc in
    queue_inv Capacity (pop_begin q).1 c' l /\ cTC c <= tc /\
    if (pop_begin q).2 then cH c < tc else l = [].
Proof.
  intros (Hw & Hc & Hs & Hl & Hh). pose proof (pow2_capacity_bounds _ Hcap) as HB.
  destruct Hw as (E1 & E2 & E3 & E4 & E5). destruct c as [H T' R HC TC]; unfold counts_ok in Hc; cbn in *.
  unfold pop_begin. rewrite E1, E5, frontier_eq by lia.
  assert (forall tc, TC <= tc <= T' -> queue_inv Capacity (set_tail_cached q (u32 tc)) (mkCounts H T' R HC tc) l) as Hi.
  { intros tc Htc. unfold queue_inv, words_ok, counts_ok; cbn. repeat (split; [done || lia|]). done. }
  destruct (Z.eqb_spec H TC) as [->|].
  - exists T'. cbn. rewrite E1, E2, frontier_eq by lia. split; [apply Hi; lia|]. split; [lia|].
    destruct (Z.eqb_spec TC T'); cbn; [|lia]. destruct l; [done|cbn in Hl; lia].
  - exists TC. split; [|split; [lia|]; cbn; lia]. cbn.
    unfold queue_inv, words_ok, counts_ok; cbn. repeat (split; [done || lia|]). done.
Qed.

(** A consumer past its decision reads the oldest value. *)
Lemma pop_slot_spec q c l :
  queue_inv Capacity q c l -> cH c < cTC c ->
  exists x l', l = x :: l' /\ pop_slot Capacity q = Some x /\
    Z.of_nat (length l') = cT c - (cH c + 1) /\ held (slots q) 0 Capacity (cH c + 1) l'.
Proof.
  intros ((E1 & _) & Hc & Hs & Hl & Hh) Hlt. unfold counts_ok in Hc.
  destruct l as [|x l]; [cbn in Hl; lia|]. cbn [length] in Hl.
  destruct (held_cons _ _ _ _ _ _ Hh) as [Hx Hh']. exists x, l.
  split; [done|]. split; [|split; [lia|done]].
  unfold pop_slot, kMask. rewrite E1, mask_index by done. exact Hx.
Qed.

Lemma pop_spec q c l :
  queue_inv Capacity q c l ->
  exists q', (l = [] /\ pop Capacity q = Some (q', None) /\
      exists c', queue_inv Capacity q' c' l /\ cH c' = cH c /\ cR c' = cR c) \/
    exists x l', l = x :: l' /\ pop Capacity q = Some (q', Some x) /\
      exists c', queue_inv Capacity q' c' l' /\ cH c' = cH c + 1 /\ cR c' = cR c.
Proof.
  intros Hq. pose proof (pow2_capacity_bounds _ Hcap) as HB. unfold pop.
  destruct (pop_begin_spec q c l Hq) as (tc & Hq' & Htc & Hb).
  destruct (pop_begin q) as [q1 ok]; cbn [fst snd] in *. destruct ok.
  - destruct (pop_slot_spec q1 _ l Hq') as (x & l' & -> & Hx & Hl & Hh); [done|].
    rewrite Hx. cbn [mbind option_bind]. eexists. right. exists x, l'. split; [done|]. split; [done|].
    destruct Hq' as ((E1 & E2 & E3 & E4 & E5) & Hc & Hs & _). unfold counts_ok in Hc. cbn in *.
    exists (mkCounts (cH c + 1) (cT c) (cR c) (cHC c) tc).
    split; [|done]. unfold queue_inv, words_ok, counts_ok; cbn. rewrite E1, u32_add_u32.
    repeat (split; [done || lia|]). done.
  - subst l. exists q1. left. split; [done|]. split; [done|]. by eexists.
Qed.
End QueueLemmas.

(** * Interleaving of the two threads *)
Inductive ProdPc (T : Type) := PIdle | PWriting (vs : list T) (i : nat).
Inductive ConsPc (T : Type) := CIdle | CReading | CGot (v : T).
Arguments PIdle {T}.
Arguments PWriting {T}.
Arguments CIdle {T}.
Arguments CReading {T}.
Arguments CGot {T}.

(** The queue, where each thread is inside its operation, and the history: values whose push
    returned true, values whose pop returned them. *)
Record Sys (T : Type) := mkSys {
  sq : ExQueue T; sp : ProdPc T; sc : ConsPc T; accepted : list T; popped : list T }.
Arguments mkSys {T}.
Arguments sq {T}.
Arguments sp {T}.
Arguments sc {T}.
Arguments accepted {T}.
Arguments popped {T}.

Section Machine.
Context {T : Type} (Capacity : Z) (Hcap : pow2_capacity Capacity).
Implicit Types (q : ExQueue T) (s : Sys T).

(** One atomic action of either thread.  A push of one value is a batch of one. *)
Inductive step : Sys T -> Sys T -> Prop :=
  | st_push_begin q c a p vs q' :
      vs <> [] -> Z.of_nat (length vs) < 2147483648 ->
      push_begin Capacity q (Z.of_nat (length vs)) = (q', true) ->
      step (mkSys q PIdle c a p) (mkSys q' (PWriting vs 0) c a p)
  | st_push_full q c a p count q' :
      0 < count < 2147483648 -> push_begin Capacity q count = (q', false) ->
      step (mkSys q PIdle c a p) (mkSys q' PIdle c a p)
  | st_push_write q c a p vs i v :
      vs !! i = Some v ->
      step (mkSys q (PWriting vs i) c a p)
           (mkSys (set_slots q (<[Z.to_nat (Z.land (u32 (tail q + Z.of_nat i)) (kMask Capacity)) := v]> (slots q)))
                  (PWriting vs (S i)) c a p)
  | st_push_publish q c a p vs :
      step (mkSys q (PWriting vs (length vs)) c a p)
           (mkSys (set_tail q (u32 (tail q + Z.of_nat (length vs)))) PIdle c (a ++ vs) p)
  | st_pop_begin q pr a p q' :
      pop_begin q = (q', true) -> step (mkSys q pr CIdle a p) (mkSys q' pr CReading a p)
  | st_pop_empty q pr a p q' :
      pop_begin q = (q', false) -> step (mkSys q pr CIdle a p) (mkSys q' pr CIdle a p)
  | st_pop_read q pr a p v :
      pop_slot Capacity q = Some v -> step (mkSys q pr CReading a p) (mkSys q pr (CGot v) a p)
  | st_pop_publish q pr a p v :
      step (mkSys q pr (CGot v) a p)
           (mkSys (set_head q (u32 (head q + 1))) pr CIdle a (p ++ [v]))
  | st_retire q pr a p :
      retired q <> u32 (Z.of_nat (length p)) ->
      step (mkSys q pr CIdle a p) (mkSys (retire q) pr CIdle a p).

Inductive reachable (zero : T) : Sys T -> Prop :=
  | r_init : reachable zero (mkSys (queue_new Capacity zero) PIdle CIdle [] [])
  | r_step s s' : reachable zero s -> step s s' -> reachable zero s'.
Lemma reachable_steps zero s s' : reachable zero s -> rtc step s s' -> reachable zero s'.
Proof using Type. intros Hr. induction 1; eauto using r_step. Qed.

(** The invariant: the queue's own, the batch in progress behind the tail, the consumer's pending
    read in front of it, and the history. *)
Definition sys_inv s (c : counts) (l : list T) : Prop :=
  queue_inv Capacity (sq s) c l /\
  accepted s = popped s ++ l /\ cH c = Z.of_nat (length (popped s)) /\
  match sp s with
  | PIdle => True
  | PWriting vs i =>
      (i <= length vs)%nat /\ cT c + Z.of_nat (length vs) - cHC c <= Capacity /\
      held (slots (sq s)) 0 Capacity (cT c) (take i vs)
  end /\
  match sc s with
  | CIdle => True
  | CReading => cH c < cTC c
  | CGot v => cH c < cTC c /\ exists l', l = v :: l'
  end.

(** The producer's next store and the consumer's pending read are to different slots. *)
Lemma write_read_differ s c l vs i :
  sys_inv s c l -> sp s = PWriting vs i -> (i < length vs)%nat -> cH c < cTC c ->
  slot_at 0 Capacity (cT c + Z.of_nat i) <> slot_at 0 Capacity (cH c).
Proof.
  intros ((_ & Hc & _) & _ & _ & Hp & _) E Hi Hlt HE. rewrite E in Hp. unfold counts_ok in Hc.
  pose proof (pow2_capacity_bounds _ Hcap). symmetry in HE. apply slot_at_inj in HE; lia.
Qed.

Lemma sys_inv_write q cp a p vs i v c l :
  sys_inv (mkSys q (PWriting vs i) cp a p) c l -> vs !! i = Some v ->
  sys_inv (mkSys (set_slots q (<[Z.to_nat (Z.land (u32 (tail q + Z.of_nat i)) (kMask Capacity)) := v]> (slots q)))
             (PWriting vs (S i)) cp a p) c l.
Proof.
  intros ((Hw & Hc & Hs & Hl & Hh) & Ha & Hp & (Hi & Hroom & Hheld) & Hcp) Hv.
  pose proof (pow2_capacity_bounds _ Hcap). pose proof (lookup_lt_Some _ _ _ Hv) as Hlt.
  unfold counts_ok in Hc. cbn [sq sp sc accepted popped] in *.
  assert (Z.to_nat (Z.land (u32 (tail q + Z.of_nat i)) (kMask Capacity)) =
          slot_at 0 Capacity (cT c + Z.of_nat i)) as ->.
  { destruct Hw as (_ & E & _). rewrite E, u32_add_u32. unfold kMask. by rewrite mask_index. }
  unfold sys_inv, queue_inv; cbn [sq sp sc accepted popped slots set_slots]. rewrite length_insert.
  assert (length (take i vs) = i) as Ht by (rewrite length_take; lia).
  split.
  { repeat (split; [done|]). apply held_insert_other; [|done]. intros j Hj E. symmetry in E.
    symmetry in E. apply slot_at_inj in E; lia. }
  split; [done|]. split; [done|]. split; [|by destruct cp].
  split; [lia|]. split; [done|]. rewrite (take_S_r vs i v) by done.
  rewrite <- Ht at 1. apply (held_store _ _ _ _ _ _ Capacity); [..|done]; rewrite ?Ht; lia.
Qed.

Lemma sys_inv_publish q cp a p vs c l :
  sys_inv (mkSys q (PWriting vs (length vs)) cp a p) c l ->
  exists c', sys_inv (mkSys (set_tail q (u32 (tail q + Z.of_nat (length vs)))) PIdle cp (a ++ vs) p) c' (l ++ vs).
Proof.
  intros ((Hw & Hc & Hs & Hl & Hh) & Ha & Hp & (Hi & Hroom & Hheld) & Hcp).
  unfold counts_ok in Hc. cbn [sq sp sc accepted popped] in *. rewrite firstn_all in Hheld.
  destruct Hw as (E1 & E2 & E3 & E4 & E5).
  exists (mkCounts (cH c) (cT c + Z.of_nat (length vs)) (cR c) (cHC c) (cTC c)).
  unfold sys_inv, queue_inv, words_ok, counts_ok; cbn [sq sp sc accepted popped set_tail head tail
    retired head_cached tail_cached slots cH cT cR cHC cTC]. rewrite E2, u32_add_u32, length_app.
  split. { repeat (split; [done || lia|]). apply held_app; [done|].
           by replace (cH c + Z.of_nat (length l)) with (cT c) by lia. }
  split; [by rewrite Ha, <- app_assoc|]. split; [done|]. split; [done|].
  destruct cp as [| |v]; [done|lia|]. destruct Hcp as [? [l' ->]]. split; [lia|]. by eexists.
Qed.

Lemma pop_begin_slots q q' ok : pop_begin q = (q', ok) -> slots q' = slots q.
Proof. unfold pop_begin. destruct (_ =? _); intros; by simplify_eq. Qed.

(** The consumer's steps. *)
Lemma sys_inv_pop_begin q pr a p q' (ok : bool) c l :
  sys_inv (mkSys q pr CIdle a p) c l -> pop_begin q = (q', ok) ->
  exists c', sys_inv (mkSys q' pr (if ok then CReading else CIdle) a p) c' l.
Proof.
  intros (Hq & Ha & Hp & Hpp & _) E. pose proof (pop_begin_slots _ _ _ E) as Hsl.
  destruct (pop_begin_spec Capacity Hcap q c l Hq) as (tc & Hq' & Htc & Hb). rewrite E in *.
  eexists. split; [exact Hq'|]. cbn in *. rewrite Hsl. split; [done|]. split; [done|].
  split; [by destruct pr|by destruct ok].
Qed.

Lemma sys_inv_pop_publish q pr a p v c l :
  sys_inv (mkSys q pr (CGot v) a p) c l ->
  exists c' l', sys_inv (mkSys (set_head q (u32 (head q + 1))) pr CIdle a (p ++ [v])) c' l'.
Proof.
  intros (Hq & Ha & Hp & Hpp & Hlt & l' & ->). cbn [sq sp sc accepted popped] in *.
  destruct (pop_slot_spec Capacity Hcap q c _ Hq Hlt) as (x & l2 & E & Hx & Hl & Hh).
  injection E as <- <-. destruct Hq as ((E1 & E2 & E3 & E4 & E5) & Hc & Hs & _). unfold counts_ok in Hc.
  exists (mkCounts (cH c + 1) (cT c) (cR c) (cHC c) (cTC c)), l'.
  unfold sys_inv, queue_inv, words_ok, counts_ok; cbn. rewrite E1, u32_add_u32, length_app.
  split; [repeat (split; [done || lia|]); done|]. split; [by rewrite Ha, <- app_assoc|].
  split; [cbn; lia|]. split; [|done]. by destruct pr.
Qed.

Lemma sys_inv_retire q pr a p c l :
  sys_inv (mkSys q pr CIdle a p) c l -> retired q <> u32 (Z.of_nat (length p)) ->
  exists c', sys_inv (mkSys (retire q) pr CIdle a p) c' l.
Proof.
  intros (((E1 & E2 & E3 & E4 & E5) & Hc & Hs & Hl & Hh) & Ha & Hp & Hpp & _) Hr.
  unfold counts_ok in Hc. cbn [sq sp sc accepted popped] in *.
  assert (cR c < cH c) by (destruct (decide (cR c = cH c)) as [E|]; [|lia]; by rewrite E3, E, Hp in Hr).
  exists (mkCounts (cH c) (cT c) (cR c + 1) (cHC c) (cTC c)).
  unfold sys_inv, queue_inv, words_ok, counts_ok; cbn. rewrite E3, u32_add_u32.
  split; [repeat (split; [done || lia|]); done|]. done.
Qed.

Lemma sys_inv_push_begin q c0 a p count q' ok c l :
  sys_inv (mkSys q PIdle c0 a p) c l -> 0 < count < 2147483648 ->
  push_begin Capacity q count = (q', ok) ->
  exists c', queue_inv Capacity q' c' l /\ sys_inv (mkSys q' PIdle c0 a p) c' l /\
    (ok = true -> cT c' + count - cHC c' <= Capacity).
Proof.
  intros (Hq & Ha & Hp & _ & Hcp) Hn E. cbn [sq sp sc accepted popped] in *.
  destruct (push_begin_spec Capacity Hcap q c l count Hq Hn) as (hc & Hq' & _ & _ & Hok).
  rewrite E in *. cbn [fst snd] in *. eexists. split; [exact Hq'|]. split.
  - split; [exact Hq'|]. cbn. repeat (split; [done|]). by destruct c0.
  - intros ->. done.
Qed.

Lemma sys_inv_step s s' c l :
  sys_inv s c l -> step s s' -> exists c' l', sys_inv s' c' l'.
Proof.
  intros H Hst. destruct Hst as [q c0 a p vs q' Hne Hn E|q c0 a p count q' Hn E|q c0 a p vs i v Hv
    |q c0 a p vs|q pr a p q' E|q pr a p q' E|q pr a p v E|q pr a p v|q pr a p Hr].
  - assert (0 < Z.of_nat (length vs) < 2147483648) as Hc
      by (split; [destruct vs; [done|cbn; lia]|exact Hn]).
    destruct (sys_inv_push_begin _ _ _ _ _ _ _ _ _ H Hc E)
      as (c' & _ & (Hq & Ha & Hp & _ & Hcp) & Hok).
    exists c', l. split; [done|]. cbn in *. repeat (split; [done|]). split; [|done].
    split; [lia|]. split; [by apply Hok|apply held_nil].
  - destruct (sys_inv_push_begin _ _ _ _ _ _ _ _ _ H Hn E) as (c' & _ & H' & _). eauto.
  - eexists _, l. by eapply sys_inv_write.
  - destruct (sys_inv_publish _ _ _ _ _ _ _ H) as [c' Hc']. eauto.
  - destruct (sys_inv_pop_begin _ _ _ _ _ true _ _ H E) as [c' Hc']. eauto.
  - destruct (sys_inv_pop_begin _ _ _ _ _ false _ _ H E) as [c' Hc']. eauto.
  - destruct H as (Hq & Ha & Hp & Hpp & Hlt). cbn [sq sp sc accepted popped] in *.
    destruct (pop_slot_spec Capacity Hcap q c l Hq Hlt) as (x & l' & -> & Hx & _). rewrite E in Hx.
    injection Hx as ->. exists c, (x :: l'). repeat (split; [done|]). by eexists.
  - by eapply sys_inv_pop_publish.
  - destruct (sys_inv_retire _ _ _ _ _ _ H Hr) as [c' Hc']. eauto.
Qed.

Lemma reachable_inv zero s : reachable zero s -> exists c l, sys_inv s c l.
Proof.
  induction 1 as [|s s' _ (c & l & IH) Hst]; [|by eapply sys_inv_step].
  exists (mkCounts 0 0 0 0 0), []. by split; [apply queue_new_inv|].
Qed.
End Machine.

(** The extraction of the newest value that has one. *)
Definition newest {T} (extract : T -> Z) (l : list T) : Z :=
  foldl (fun acc v => if extract v =? 0 then acc else extract v) 0 l.

Lemma newest_loop_spec {T} (Capacity : Z) (extract : T -> Z) (q : ExQueue T) h l fuel :
  pow2_capacity Capacity -> head q = u32 h -> Z.of_nat (length l) <= Capacity ->
  held (slots q) 0 Capacity h l -> (length l <= fuel)%nat ->
  newest_loop Capacity extract fuel q (u32 (h + Z.of_nat (length l))) = Some (newest extract l).
Proof.
  intros Hcap Hh Hl. pose proof (pow2_capacity_bounds _ Hcap) as HB. revert fuel.
  induction l as [|x l IH] using rev_ind; intros fuel Hheld Hf.
  - cbn [length]. rewrite Z.add_0_r. destruct fuel; cbn; by rewrite Hh, Z.eqb_refl.
  - rewrite length_app in *. cbn [length] in *. destruct fuel as [|fuel]; [lia|]. cbn [newest_loop].
    rewrite Hh, Z.eqb_sym, frontier_eq by lia. rewrite (proj2 (Z.eqb_neq h _)) by lia.
    assert (u32 (u32 (h + Z.of_nat (length l + 1)) - 1) = u32 (h + Z.of_nat (length l))) as ->.
    { unfold Z.sub. rewrite u32_add_u32. f_equal. lia. }
    unfold kMask. rewrite mask_index by done.
    assert (slots q !! slot_at 0 Capacity (h + Z.of_nat (length l)) = Some x) as Hx.
    { apply Hheld. by rewrite lookup_app_r, Nat.sub_diag. }
    unfold slot_at in Hx. rewrite Z.add_0_l in Hx. rewrite Hx. cbn [mbind option_bind].
    unfold newest. rewrite foldl_app. cbn [foldl]. fold (newest extract l).
    destruct (extract x =? 0); cbn [negb]; [|done]. apply IH; [lia| |lia].
    intros i y Hy. apply Hheld. by apply lookup_app_l_Some.
Qed.

(** * Properties *)

(** C37: The queue is a FIFO under every interleaving of its producer and its consumer: values come
    out in the order they were accepted, none lost, none invented, none twice, with at most Capacity
    of them inside; and no slot is ever written by the producer while the consumer is reading it,
    across wrap-around of the 32-bit frontiers. *)
Theorem exqueue_fifo {T} (Capacity : Z) (zero : T) s :
  pow2_capacity Capacity -> reachable Capacity zero s ->
  (exists l, accepted s = popped s ++ l /\ Z.of_nat (length l) <= Capacity) /\
  (forall vs i, sp s = PWriting vs i -> (i < length vs)%nat -> sc s = CReading ->
     Z.land (u32 (tail (sq s) + Z.of_nat i)) (kMask Capacity) <> Z.land (head (sq s)) (kMask Capacity)) /\
  (sc s = CReading -> pop_slot Capacity (sq s) = accepted s !! length (popped s)).
Proof.
  intros Hcap Hr. destruct (reachable_inv Capacity Hcap zero s Hr) as (c & l & H).
  pose proof (pow2_capacity_bounds _ Hcap) as HB.
  pose proof H as ((Hw & Hc & Hs & Hl & Hh) & Ha & Hp & Hpp & Hcp). unfold counts_ok in Hc.
  split; [exists l; split; [done|lia]|]. split.
  - intros vs i Ep Hi Ec E. rewrite Ec in Hcp.
    apply (write_read_differ Capacity Hcap s c l vs i H Ep Hi Hcp).
    destruct Hw as (E1 & E2 & _). unfold kMask in E.
    rewrite E1, E2, u32_add_u32, !mask_index in E by done. unfold slot_at. by rewrite E.
  - intros Ec. rewrite Ec in Hcp.
    destruct (pop_slot_spec Capacity Hcap (sq s) c l) as (x & l' & -> & -> & _); [exact (conj Hw (conj Hc (conj Hs (conj Hl Hh))))|done|].
    rewrite Ha, lookup_app_r, Nat.sub_diag by lia. done.
Qed.
(** Four slots: three values are accepted and the oldest is taken; then the consumer is about to
    read the second while the producer, having found room by re-reading the head, is about to write
    over the slot of the first. *)
Definition demo_sys : Sys Z := mkSys (mkExQ 1 0 3 3 1 [1; 2; 3; 4]) (PWriting [4; 5] 1) CReading [1; 2; 3] [1].
Lemma demo_reachable : reachable 4 0 demo_sys.
Proof.
  eapply reachable_steps; [apply r_init|].
  eapply rtc_l; [by apply (st_push_begin 4 _ _ _ _ [1; 2; 3])|]. do 3 (eapply rtc_l; [by apply st_push_write|]). eapply rtc_l; [apply (st_push_publish 4 _ _ _ _ [1; 2; 3])|].
  eapply rtc_l; [by apply st_pop_begin|]. eapply rtc_l; [by apply st_pop_read|]. eapply rtc_l; [by apply st_pop_publish|].
  eapply rtc_l; [by apply (st_push_begin 4 _ _ _ _ [4; 5])|]. eapply rtc_l; [by apply st_pop_begin|]. eapply rtc_l; [by apply st_push_write|]. apply rtc_refl.
Qed.
Lemma exqueue_fifo_witness :
  (reachable 4 0 demo_sys /\ pop_slot 4 (sq demo_sys) = Some 2) /\
  (exists l, accepted demo_sys = popped demo_sys ++ l /\ Z.of_nat (length l) <= 4) /\
  (forall vs i, sp demo_sys = PWriting vs i -> (i < length vs)%nat -> sc demo_sys = CReading ->
     Z.land (u32 (tail (sq demo_sys) + Z.of_nat i)) (kMask 4) <> Z.land (head (sq demo_sys)) (kMask 4)) /\
  (sc demo_sys = CReading -> pop_slot 4 (sq demo_sys) = accepted demo_sys !! length (popped demo_sys)).
Proof.
  split; [split; [apply demo_reachable|reflexivity]|]. apply (exqueue_fifo 4 0 demo_sys).
  - exists 2. split; [lia|reflexivity].
  - apply demo_reachable.
Defined.

(** quiesced() is exact: whenever fewer than 2^32 accepted values are unretired, it holds
    precisely when every accepted value has been taken and executed, not merely when the ring is
    empty. *)
Theorem exqueue_quiesced_exact {T} (Capacity : Z) (zero : T) s :
  pow2_capacity Capacity -> reachable Capacity zero s ->
  exists r, retired (sq s) = u32 r /\ 0 <= r <= Z.of_nat (length (popped s)) /\
    (Z.of_nat (length (accepted s)) - r < 4294967296 ->
     quiesced (sq s) = true <-> popped s = accepted s /\ r = Z.of_nat (length (popped s))).
Proof.
  intros Hcap Hr. destruct (reachable_inv Capacity Hcap zero s Hr) as (c & l & H).
  destruct H as (((E1 & E2 & E3 & _) & Hc & Hs & Hl & Hh) & Ha & Hp & _). unfold counts_ok in Hc.
  exists (cR c). split; [done|]. split; [lia|]. rewrite Ha, length_app. intros Hwin.
  unfold quiesced. rewrite E2, E3, frontier_eq by lia. rewrite Z.eqb_eq. split.
  - intros E. destruct l as [|x l]; [|cbn in *; lia]. rewrite app_nil_r. split; [done|lia].
  - intros [E ->]. apply (f_equal length) in E. rewrite length_app in E. lia.
Qed.
Lemma exqueue_quiesced_exact_witness :
  exists r, retired (sq (mkSys (queue_new 4 0) PIdle CIdle [] [])) = u32 r /\ 0 <= r <= 0 /\
    (0 - r < 4294967296 ->
     quiesced (queue_new 4 0) = true <-> @nil Z = [] /\ r = 0).
Proof.
  apply (exqueue_quiesced_exact 4 0 (mkSys (queue_new 4 0) PIdle CIdle [] [])).
  - exists 2. split; [lia|reflexivity].
  - apply r_init.
Defined.

(** Run to completion, each operation is its FIFO specification: a batch (or a single or prepared
    push) is refused exactly when it does not fit and then changes nothing held, is appended
    otherwise; pop takes the oldest value and fails only on an empty queue; the producer's free
    count and the sampled extraction are those of the held values. *)
Theorem exqueue_operations {T} (Capacity : Z) (q : ExQueue T) c l vs (prepare : T -> T) (extract : T -> Z) :
  pow2_capacity Capacity -> queue_inv Capacity q c l -> Z.of_nat (length vs) < 2147483648 ->
  (let '(q', ok) := push_batch_prepared Capacity q vs prepare in
   ok = bool_decide (Z.of_nat (length l + length vs) <= Capacity \/ vs = []) /\
   exists c', queue_inv Capacity q' c' (if ok then l ++ (prepare <$> vs) else l)) /\
  (exists q', pop Capacity q = Some (q', hd_error l) /\ exists c', queue_inv Capacity q' c' (tl l)) /\
  producer_free_slots Capacity q = Capacity - Z.of_nat (length l) /\
  newest_nonzero Capacity extract q = Some (newest extract l).
Proof.
  intros Hcap Hq Hn. pose proof (pow2_capacity_bounds _ Hcap) as HB.
  pose proof Hq as ((E1 & E2 & _ & E4 & _) & Hc & Hs & Hl & Hh). unfold counts_ok in Hc. split.
  { rewrite push_batch_prepared_eq.
    pose proof (push_batch_room Capacity Hcap q c l (prepare <$> vs) Hq) as Hroom.
    pose proof (push_batch_spec Capacity Hcap q c l (prepare <$> vs) Hq) as Hspec.
    rewrite length_fmap in Hspec, Hroom. specialize (Hspec Hn). specialize (Hroom Hn).
    destruct (push_batch Capacity q (prepare <$> vs)) as [q' ok]. cbn [snd] in Hroom. split.
    - rewrite Hroom. apply bool_decide_ext. destruct vs; [done|]. split; intros [?|?]; by left || done.
    - destruct ok; [destruct Hspec as (c' & ? & _)|destruct Hspec as (_ & c' & ? & _)]; eauto. }
  split.
  { destruct (pop_spec Capacity Hcap q c l Hq) as (q' & [(-> & -> & c' & ? & _)|(x & l' & -> & -> & c' & ? & _)]);
      eauto. }
  assert (u32 (tail q - head q) = Z.of_nat (length l)) as Hd by (rewrite E1, E2, frontier_sub; lia).
  unfold producer_free_slots, newest_nonzero, depth. rewrite Hd. split; [apply u32_small; lia|].
  replace (tail q) with (u32 (cH c + Z.of_nat (length l))) by (rewrite E2; f_equal; lia).
  apply newest_loop_spec; try done; lia.
Qed.
Lemma exqueue_operations_witness :
  (let '(q', ok) := push_batch_prepared 4 (queue_new 4 0) [7; 8] (Z.add 1) in
   ok = bool_decide (Z.of_nat (length (@nil Z) + length [7; 8]) <= 4 \/ [7; 8] = []) /\
   exists c', queue_inv 4 q' c' (if ok then [] ++ (Z.add 1 <$> [7; 8]) else [])) /\
  (exists q', pop 4 (queue_new 4 0) = Some (q', hd_error []) /\ exists c', queue_inv 4 q' c' (tl [])) /\
  producer_free_slots 4 (queue_new 4 0) = 4 - Z.of_nat (length (@nil Z)) /\
  newest_nonzero 4 (fun x => x) (queue_new 4 0) = Some (newest (fun x => x) []).
Proof.
  apply (exqueue_operations 4 (queue_new 4 0) (mkCounts 0 0 0 0 0) [] [7; 8] (Z.add 1) (fun x => x)).
  - exists 2. split; [lia|reflexivity].
  - apply queue_new_inv. exists 2. split; [lia|reflexivity].
  - cbn. lia.
Defined.
