(* ===== verification/MaskedQueue.v ===== *)
(** masked_queue.h: one consumer-owned slot array, split into private single-producer sub-rings
    (lanes).  The array is a record of its lanes and its slot block; every operation names the
    producer whose lane it uses.  [None] is an abort, an index outside the lanes, or a slot access
    outside the allocation; the theorems show it does not happen on the legal calls.

    The interleaving of a lane's producer with the consumer is the one of ExQueue.v; this file is
    about the partition, the lanes' independence, and the capacity credits. *)
From S2P Require Import Prelude Ring.

Record ConsumerLine := mkCL {
  c_head : Z; c_retired : Z; c_tail_cached : Z; c_base : Z; c_mask : Z; c_capacity : Z;
  lane_high_water : Z }.
Record ProducerLine := mkPL {
  p_tail : Z; p_head_cached : Z; p_base : Z; p_mask : Z; p_capacity : Z;
  available_capacity : Z;
  lane_full_events : Z; arena_occupancy_sum : Z; arena_capacity_sum : Z }.
Record Lane := mkLane { consumer : ConsumerLine; producer : ProducerLine }.
Record MaskedArray (T : Type) := mkArr {
  lanes : list Lane; slots : option (list T); producers : Z; total_slots : Z }.
Arguments mkArr {T}.
Arguments lanes {T}.
Arguments slots {T}.
Arguments producers {T}.
Arguments total_slots {T}.

Definition kInternalProducerSlots : Z := 256.
Definition kMaskedQueueCacheLine : Z := 64.

Definition lane_new : Lane := mkLane (mkCL 0 0 0 0 0 0 0) (mkPL 0 0 0 0 0 0 0 0 0).
Definition bit_floor (x : Z) : Z := if x =? 0 then 0 else 2 ^ Z.log2 x.

(** ** Field updates *)
Definition set_head (c : ConsumerLine) (h : Z) : ConsumerLine :=
  mkCL h (c_retired c) (c_tail_cached c) (c_base c) (c_mask c) (c_capacity c) (lane_high_water c).
Definition set_retired (c : ConsumerLine) (r : Z) : ConsumerLine :=
  mkCL (c_head c) r (c_tail_cached c) (c_base c) (c_mask c) (c_capacity c) (lane_high_water c).
Definition set_tail_cached (c : ConsumerLine) (t : Z) : ConsumerLine :=
  mkCL (c_head c) (c_retired c) t (c_base c) (c_mask c) (c_capacity c) (lane_high_water c).
Definition raise_high_water (c : ConsumerLine) (d : Z) : ConsumerLine :=
  if lane_high_water c <? d
  then mkCL (c_head c) (c_retired c) (c_tail_cached c) (c_base c) (c_mask c) (c_capacity c) d
  else c.
Definition set_tail (p : ProducerLine) (t : Z) : ProducerLine :=
  mkPL t (p_head_cached p) (p_base p) (p_mask p) (p_capacity p) (available_capacity p)
       (lane_full_events p) (arena_occupancy_sum p) (arena_capacity_sum p).
Definition set_head_cached (p : ProducerLine) (h : Z) : ProducerLine :=
  mkPL (p_tail p) h (p_base p) (p_mask p) (p_capacity p) (available_capacity p)
       (lane_full_events p) (arena_occupancy_sum p) (arena_capacity_sum p).
Definition set_available (p : ProducerLine) (a : Z) : ProducerLine :=
  mkPL (p_tail p) (p_head_cached p) (p_base p) (p_mask p) (p_capacity p) a
       (lane_full_events p) (arena_occupancy_sum p) (arena_capacity_sum p).

(** A lane's words reset and its block assigned: the body of [install] in [remask_quiesced] and
    of the loop in [init_local_fused]; the diagnostics survive. *)
Definition install_lane (l : Lane) (base capacity : Z) : Lane :=
  mkLane (mkCL 0 0 0 base (capacity - 1) capacity (lane_high_water (consumer l)))
         (mkPL 0 0 base (capacity - 1) capacity capacity (lane_full_events (producer l))
               (arena_occupancy_sum (producer l)) (arena_capacity_sum (producer l))).

Definition lane_quiesced (l : Lane) : bool := c_retired (consumer l) =? p_tail (producer l).
Definition lane_depth (l : Lane) : Z := u32 (p_tail (producer l) - c_head (consumer l)).

Section Arena.
Context {T : Type} (MaxProducers sizeofT : Z).
Implicit Types (a : MaskedArray T).

Definition get_lane a (p : Z) : option Lane := if p <? 0 then None else lanes a !! Z.to_nat p.
Definition put_lane a (p : Z) (l : Lane) : MaskedArray T :=
  mkArr (<[Z.to_nat p := l]> (lanes a)) (slots a) (producers a) (total_slots a).
Definition put_slots a (s : list T) : MaskedArray T :=
  mkArr (lanes a) (Some s) (producers a) (total_slots a).

Definition array_new : MaskedArray T := mkArr (replicate (Z.to_nat MaxProducers) lane_new) None 0 0.

Definition active_lanes a : list Lane := take (Z.to_nat (producers a)) (lanes a).
Definition quiesced a (p : Z) : option bool := lane_quiesced <$> get_lane a p.
Definition all_quiesced a : bool := forallb lane_quiesced (active_lanes a).
Definition depth a (p : Z) : option Z := lane_depth <$> get_lane a p.

(** [assigned] after the two validation loops; [None] is the early return. *)
Fixpoint assign_all (n : Z) (ps : list Z) (assigned : list bool) : option (list bool) :=
  match ps with
  | [] => Some assigned
  | p :: ps =>
      if (n <=? p) || default false (assigned !! Z.to_nat p) then None
      else assign_all n ps (<[Z.to_nat p := true]> assigned)
  end.

(** The install loop in producer order. *)
Fixpoint install_all (is_io : list bool) (io_capacity : Z) (ls : list Lane) (cursor : Z)
    : list Lane * Z :=
  match is_io, ls with
  | b :: is_io, l :: ls =>
      let capacity := if (b : bool) then io_capacity else kInternalProducerSlots in
      let '(ls, c) := install_all is_io io_capacity ls (cursor + capacity) in
      (install_lane l cursor capacity :: ls, c)
  | _, _ => (ls, cursor)
  end.

Definition remask_quiesced a (io ex : list Z) : MaskedArray T * bool :=
  let nio := Z.of_nat (length io) in
  let nex := Z.of_nat (length ex) in
  if (match slots a with None => true | Some _ => false end) || (nio =? 0) || (nex =? 0) ||
     negb (nio + nex =? producers a) || negb (all_quiesced a)
  then (a, false)
  else
    let fresh := replicate (Z.to_nat MaxProducers) false in
    match assign_all (producers a) io fresh with
    | None => (a, false)
    | Some io_producer =>
        match assign_all (producers a) ex io_producer with
        | None => (a, false)
        | Some assigned =>
            if negb (forallb id (take (Z.to_nat (producers a)) assigned)) then (a, false)
            else
              let internal := nex * kInternalProducerSlots in
              if total_slots a <=? internal then (a, false)
              else
                let io_share := u32 ((total_slots a - internal) / nio) in
                let io_capacity := bit_floor io_share in
                if (io_capacity =? 0) || (io_capacity * sizeofT <? kMaskedQueueCacheLine)
                then (a, false)
                else
                  let min_bank_capacity :=
                    if io_capacity <? kInternalProducerSlots then io_capacity
                    else kInternalProducerSlots in
                  if min_bank_capacity <? kInternalProducerSlots then (a, false)
                  else
                    let '(ls, cursor) :=
                      install_all (take (Z.to_nat (producers a)) io_producer) io_capacity (lanes a) 0 in
                    (mkArr ls (slots a) (producers a) (total_slots a), cursor <=? total_slots a)
        end
    end.

(** [alloc n] says whether the allocation of [n] slots succeeds; fresh slots hold [zero]. *)
Context (alloc : Z -> bool) (zero : T).

Definition allocate_slots a (count : Z) : option (MaskedArray T) :=
  if alloc count
  then Some (mkArr (lanes a) (Some (replicate (Z.to_nat count) zero)) (producers a) count)
  else None.
Definition release_slots a : MaskedArray T := mkArr (lanes a) None (producers a) 0.

Definition init_local a (n slots_per_thread : Z) (io ex : list Z) : MaskedArray T * bool :=
  if (match slots a with Some _ => true | None => false end) || (n =? 0) || (MaxProducers <? n) ||
     (slots_per_thread <? kInternalProducerSlots)
  then (a, false)
  else
    let a := mkArr (lanes a) (slots a) n (total_slots a) in
    let wanted := n * slots_per_thread in
    if UINT32_MAX <? wanted then (a, false)
    else match allocate_slots a wanted with
         | None => (a, false)
         | Some a =>
             let '(a, ok) := remask_quiesced a io ex in
             if (ok : bool) then (a, true)
             else (mkArr (lanes a) None 0 0, false)
         end.

Definition init_local_fused (SlotsPerProducer : Z) a (n : Z) : MaskedArray T * bool :=
  if (match slots a with Some _ => true | None => false end) || (n =? 0) || (MaxProducers <? n)
  then (a, false)
  else
    let wanted := n * SlotsPerProducer in
    if UINT32_MAX <? wanted then (a, false)
    else match allocate_slots a wanted with
         | None => (a, false)
         | Some a =>
             let '(ls, _) := install_all (replicate (Z.to_nat n) true) SlotsPerProducer (lanes a) 0 in
             (mkArr ls (slots a) n (total_slots a), true)
         end.

Definition grow_quiesced a (wanted : Z) (io ex : list Z) : MaskedArray T * bool :=
  if (wanted <=? total_slots a) || negb (all_quiesced a) then (a, false)
  else if alloc wanted then
    let grown := mkArr (lanes a) (Some (replicate (Z.to_nat wanted) zero)) (producers a) wanted in
    let '(g, ok) := remask_quiesced grown io ex in
    if (ok : bool) then (g, true)
    else (mkArr (lanes g) (slots a) (producers g) (total_slots a), false)
  else (a, false).

(** Refusal diagnostics. *)
Definition note_lane_full a (p : ProducerLine) : ProducerLine :=
  let occupancy := foldl (fun acc l => u64 (acc + lane_depth l)) 0 (active_lanes a) in
  mkPL (p_tail p) (p_head_cached p) (p_base p) (p_mask p) (p_capacity p) (available_capacity p)
       (u64 (lane_full_events p + 1)) (u64 (arena_occupancy_sum p + occupancy))
       (u64 (arena_capacity_sum p + total_slots a)).

(** The capacity decision of a push of [count] against the ceiling [limit]. *)
Definition decide_push a (l : Lane) (limit count : Z) : ProducerLine * bool :=
  let p := producer l in
  let next := u32 (p_tail p + count) in
  if limit <? u32 (next - p_head_cached p) then
    let p := set_head_cached p (c_head (consumer l)) in
    if limit <? u32 (next - p_head_cached p) then (note_lane_full a p, false) else (p, true)
  else (p, true).

(** Stores of a run of values at [base + ((tail + i) & mask)] and the publication of the tail;
    a slot outside the allocation is [None]. *)
Definition store_and_publish a (prod : Z) (l : Lane) (p : ProducerLine) (base mask : Z) (vs : list T)
    : option (MaskedArray T) :=
  s ← slots a;
  if (0 <=? base) && (base + mask <? Z.of_nat (length s)) then
    let p' := set_tail p (u32 (p_tail p + Z.of_nat (length vs))) in
    Some (put_lane (put_slots a (store_run s base mask (p_tail p) 0 vs)) prod (mkLane (consumer l) p'))
  else None.

Definition push_batch_prepared a (prod : Z) (values : list T) (prepare : T -> T)
    : option (MaskedArray T * bool) :=
  let count := Z.of_nat (length values) in
  if count =? 0 then Some (a, true)
  else
    l ← get_lane a prod;
    let '(p, ok) := decide_push a l (available_capacity (producer l)) count in
    if (ok : bool) then
      a ← store_and_publish a prod l p (p_base p) (p_mask p) (prepare <$> values); Some (a, true)
    else Some (put_lane a prod (mkLane (consumer l) p), false).
Definition push_batch a (prod : Z) (values : list T) : option (MaskedArray T * bool) :=
  push_batch_prepared a prod values (fun v => v).
Definition push_prepared a (prod : Z) (value : T) (prepare : T -> T) : option (MaskedArray T * bool) :=
  l ← get_lane a prod;
  let '(p, ok) := decide_push a l (available_capacity (producer l)) 1 in
  if (ok : bool) then
    a ← store_and_publish a prod l p (p_base p) (p_mask p) [prepare value]; Some (a, true)
  else Some (put_lane a prod (mkLane (consumer l) p), false).
Definition push a (prod : Z) (value : T) : option (MaskedArray T * bool) :=
  push_prepared a prod value (fun v => v).

(** The fused private forms: the ceiling and the block are compile-time constants. *)
Definition push_fused_private_batch_prepared (SlotsPerProducer : Z) a (prod : Z) (values : list T)
    (prepare : T -> T) : option (MaskedArray T * bool) :=
  let count := Z.of_nat (length values) in
  if count =? 0 then Some (a, true)
  else
    l ← get_lane a prod;
    let '(p, ok) := decide_push a l SlotsPerProducer count in
    if (ok : bool) then
      a ← store_and_publish a prod l p (prod * SlotsPerProducer) (SlotsPerProducer - 1)
            (prepare <$> values);
      Some (a, true)
    else Some (put_lane a prod (mkLane (consumer l) p), false).
Definition push_fused_private_batch (SlotsPerProducer : Z) a (prod : Z) (values : list T) :=
  push_fused_private_batch_prepared SlotsPerProducer a prod values (fun v => v).
Definition push_fused_private_prepared (SlotsPerProducer : Z) a (prod : Z) (value : T)
    (prepare : T -> T) : option (MaskedArray T * bool) :=
  l ← get_lane a prod;
  let '(p, ok) := decide_push a l SlotsPerProducer 1 in
  if (ok : bool) then
    a ← store_and_publish a prod l p (prod * SlotsPerProducer) (SlotsPerProducer - 1) [prepare value];
    Some (a, true)
  else Some (put_lane a prod (mkLane (consumer l) p), false).
Definition push_fused_private (SlotsPerProducer : Z) a (prod : Z) (value : T) :=
  push_fused_private_prepared SlotsPerProducer a prod value (fun v => v).

Definition fused_private_free_slots (SlotsPerProducer : Z) a (prod : Z) : option Z :=
  l ← get_lane a prod; Some (u32 (SlotsPerProducer - lane_depth l)).
Definition producer_free_slots a (prod : Z) : option Z :=
  l ← get_lane a prod; Some (u32 (available_capacity (producer l) - lane_depth l)).

(** Capacity credits. *)
Definition reserve a (prod count : Z) : option (MaskedArray T * bool) :=
  if count =? 0 then Some (a, true)
  else
    l ← get_lane a prod;
    let p := set_head_cached (producer l) (c_head (consumer l)) in
    if available_capacity p <? u32 (u32 (p_tail p + count) - p_head_cached p)
    then Some (put_lane a prod (mkLane (consumer l) p), false)
    else Some (put_lane a prod
                 (mkLane (consumer l) (set_available p (u32 (available_capacity p - count)))), true).
Definition cancel_reservation a (prod count : Z) : option (MaskedArray T) :=
  l ← get_lane a prod;
  let p := producer l in
  if u32 (p_capacity p - available_capacity p) <? count then None
  else Some (put_lane a prod
               (mkLane (consumer l) (set_available p (u32 (available_capacity p + count))))).
Definition push_reserved_prepared a (prod : Z) (value : T) (prepare : T -> T)
    : option (MaskedArray T) :=
  l ← get_lane a prod;
  let p := producer l in
  if available_capacity p =? p_capacity p then None
  else
    store_and_publish a prod l (set_available p (u32 (available_capacity p + 1)))
      (p_base p) (p_mask p) [prepare value].
Definition push_reserved a (prod : Z) (value : T) : option (MaskedArray T) :=
  push_reserved_prepared a prod value (fun v => v).

(** The consumer's side; the inner option is the returned bool with [out]. *)
Definition pop_at a (prod base mask : Z) : option (MaskedArray T * option T) :=
  l ← get_lane a prod;
  let c := consumer l in
  let head := c_head c in
  let take_slot (c : ConsumerLine) :=
    s ← slots a;
    v ← (if 0 <=? base then s !! Z.to_nat (base + Z.land head mask) else None);
    Some (put_lane a prod (mkLane (set_head c (u32 (head + 1))) (producer l)), Some v) in
  if head =? c_tail_cached c then
    let c := set_tail_cached c (p_tail (producer l)) in
    if head =? c_tail_cached c then Some (put_lane a prod (mkLane c (producer l)), None)
    else take_slot (raise_high_water c (u32 (c_tail_cached c - head)))
  else take_slot c.
Definition pop_unretired a (prod : Z) : option (MaskedArray T * option T) :=
  l ← get_lane a prod; pop_at a prod (c_base (consumer l)) (c_mask (consumer l)).
Definition pop a (prod : Z) := pop_unretired a prod.
Definition pop_fused_private_unretired (SlotsPerProducer : Z) a (prod : Z) :=
  pop_at a prod (prod * SlotsPerProducer) (SlotsPerProducer - 1).

Definition retire_n a (prod count : Z) : option (MaskedArray T) :=
  if count =? 0 then Some a
  else
    l ← get_lane a prod;
    Some (put_lane a prod
            (mkLane (set_retired (consumer l) (u32 (c_retired (consumer l) + count))) (producer l))).
Definition retire a (prod : Z) : option (MaskedArray T) :=
  l ← get_lane a prod;
  Some (put_lane a prod
          (mkLane (set_retired (consumer l) (u32 (c_retired (consumer l) + 1))) (producer l))).

Definition sample_depth a (prod : Z) : option (MaskedArray T * Z) :=
  l ← get_lane a prod;
  let d := lane_depth l in
  Some (put_lane a prod (mkLane (raise_high_water (consumer l) d) (producer l)), d).

Fixpoint newest_loop (extract : T -> Z) (fuel : nat) (s : list T) (base mask head tail : Z)
    : option Z :=
  if tail =? head then Some 0
  else match fuel with
       | O => None
       | S fuel =>
           let tail := u32 (tail - 1) in
           v ← s !! Z.to_nat (base + Z.land tail mask);
           if negb (extract v =? 0) then Some (extract v)
           else newest_loop extract fuel s base mask head tail
       end.
Definition newest_nonzero (extract : T -> Z) a (prod : Z) : option Z :=
  l ← get_lane a prod;
  s ← slots a;
  newest_loop extract (Z.to_nat (lane_depth l)) s (c_base (consumer l)) (c_mask (consumer l))
    (c_head (consumer l)) (p_tail (producer l)).

(** [MaskedQueueDiagnostics]: high water, full events, and the two sums. *)
Definition diagnostics a : Z * Z * Z * Z :=
  foldl (fun '(hw, ev, occ, cp) l =>
           (if hw <? lane_high_water (consumer l) then lane_high_water (consumer l) else hw,
            u64 (ev + lane_full_events (producer l)),
            u64 (occ + arena_occupancy_sum (producer l)),
            u64 (cp + arena_capacity_sum (producer l))))
        (0, 0, 0, 0) (active_lanes a).
End Arena.

(** * The invariant

    What a lane stands for: its block, the unwrapped counts behind its words (popped, published,
    retired and the two cached ones), the credits reserved, and the values held. *)
Record View (T : Type) := mkView {
  v_base : Z; v_cap : Z; vH : Z; vT : Z; vR : Z; vHC : Z; vTC : Z; v_res : Z; v_vals : list T }.
Arguments mkView {T}.
Arguments v_base {T}.
Arguments v_cap {T}.
Arguments vH {T}.
Arguments vT {T}.
Arguments vR {T}.
Arguments vHC {T}.
Arguments vTC {T}.
Arguments v_res {T}.
Arguments v_vals {T}.

Section Inv.
Context {T : Type}.
Implicit Types (a : MaskedArray T) (v : View T).

Definition words_ok (l : Lane) v : Prop :=
  c_head (consumer l) = u32 (vH v) /\ p_tail (producer l) = u32 (vT v) /\
  c_retired (consumer l) = u32 (vR v) /\ p_head_cached (producer l) = u32 (vHC v) /\
  c_tail_cached (consumer l) = u32 (vTC v) /\
  c_base (consumer l) = v_base v /\ p_base (producer l) = v_base v /\
  c_mask (consumer l) = v_cap v - 1 /\ p_mask (producer l) = v_cap v - 1 /\
  c_capacity (consumer l) = v_cap v /\ p_capacity (producer l) = v_cap v /\
  available_capacity (producer l) = v_cap v - v_res v.
Definition view_ok v : Prop :=
  pow2_capacity (v_cap v) /\ 0 <= v_base v /\
  0 <= vR v <= vH v /\ vH v <= vTC v <= vT v /\ 0 <= vHC v <= vH v /\
  0 <= v_res v /\ vT v - vHC v + v_res v <= v_cap v /\ Z.of_nat (length (v_vals v)) = vT v - vH v.
Definition lane_inv (s : list T) (l : Lane) v : Prop :=
  words_ok l v /\ view_ok v /\ v_base v + v_cap v <= Z.of_nat (length s) /\
  held s (v_base v) (v_cap v) (vH v) (v_vals v).

Definition disjoint_blocks (vs : list (View T)) : Prop :=
  forall i j vi vj, i <> j -> vs !! i = Some vi -> vs !! j = Some vj ->
    v_base vi + v_cap vi <= v_base vj \/ v_base vj + v_cap vj <= v_base vi.

(** The array: one view per active lane, in disjoint blocks of the allocation. *)
Definition array_inv a (vs : list (View T)) : Prop :=
  exists s, slots a = Some s /\ Z.of_nat (length s) = total_slots a /\
    Z.of_nat (length vs) = producers a /\ (length vs <= length (lanes a))%nat /\
    disjoint_blocks vs /\
    forall i v, vs !! i = Some v -> exists l, lanes a !! i = Some l /\ lane_inv s l v.

(** An operation on lane [i] that stays in its block. *)
Lemma array_update a vs i v v' l' s' s :
  array_inv a vs -> vs !! i = Some v -> slots a = Some s ->
  v_base v' = v_base v -> v_cap v' = v_cap v -> length s' = length s ->
  lane_inv s' l' v' ->
  (forall j w, j <> i -> vs !! j = Some w -> held s (v_base w) (v_cap w) (vH w) (v_vals w) ->
     held s' (v_base w) (v_cap w) (vH w) (v_vals w)) ->
  array_inv (put_lane (put_slots a s') (Z.of_nat i) l') (<[i := v']> vs).
Proof.
  intros (s0 & Hs & Hlen & Hn & Hl & Hd & Hi) Hv Es Hb Hc Hsl Hlane Hother.
  rewrite Es in Hs. injection Hs as <-. pose proof (lookup_lt_Some _ _ _ Hv) as Hlt.
  exists s'. cbn. rewrite length_insert, length_insert, Nat2Z.id. split; [done|]. split; [lia|].
  split; [done|]. split; [done|]. split.
  - intros j k vj vk Hjk Ej Ek. rewrite list_lookup_insert_Some in Ej, Ek.
    destruct Ej as [(-> & -> & _)|[Hj Ej]], Ek as [(-> & -> & _)|[Hk Ek]].
    + done.
    + rewrite Hb, Hc. by apply (Hd _ _ _ _ Hjk Hv Ek).
    + rewrite Hb, Hc. by apply (Hd _ _ _ _ Hjk Ej Hv).
    + by apply (Hd _ _ _ _ Hjk Ej Ek).
  - intros j w Hw. rewrite list_lookup_insert_Some in Hw. destruct Hw as [(-> & -> & _)|[Hj Hw]].
    + exists l'. split; [|done]. apply list_lookup_insert_eq. lia.
    + destruct (Hi j w Hw) as (l & Hl1 & Hw1 & Hw2 & Hw3 & Hw4). exists l.
      split; [by rewrite list_lookup_insert_ne|]. split; [done|]. split; [done|].
      split; [by rewrite Hsl|]. by apply (Hother j).
Qed.

Lemma array_lane a vs i v :
  array_inv a vs -> vs !! i = Some v ->
  exists s l, slots a = Some s /\ get_lane a (Z.of_nat i) = Some l /\ lane_inv s l v.
Proof.
  intros (s & Hs & _ & _ & _ & _ & Hi) Hv. destruct (Hi i v Hv) as (l & Hl & Hlane).
  exists s, l. split; [done|]. split; [|done]. unfold get_lane.
  rewrite (proj2 (Z.ltb_ge (Z.of_nat i) 0)) by lia. by rewrite Nat2Z.id.
Qed.

(** An operation on lane [i] that writes no slot. *)
Lemma array_update_words a vs i v v' l' s :
  array_inv a vs -> vs !! i = Some v -> slots a = Some s ->
  v_base v' = v_base v -> v_cap v' = v_cap v -> lane_inv s l' v' ->
  array_inv (put_lane a (Z.of_nat i) l') (<[i := v']> vs).
Proof.
  intros H Hv Es Hb Hc Hl.
  assert (put_lane a (Z.of_nat i) l' = put_lane (put_slots a s) (Z.of_nat i) l') as ->
    by (unfold put_lane, put_slots; cbn; by rewrite Es).
  by eapply array_update.
Qed.

(** A run of stores into lane [i]'s block. *)
Lemma other_blocks a vs i v w j s n k xs :
  array_inv a vs -> vs !! i = Some v -> vs !! j = Some w -> j <> i -> view_ok v -> view_ok w ->
  held s (v_base w) (v_cap w) (vH w) (v_vals w) ->
  held (store_run s (v_base v) (v_cap v - 1) (u32 n) k xs) (v_base w) (v_cap w) (vH w) (v_vals w).
Proof.
  intros (s0 & _ & _ & _ & _ & Hd & _) Hv Hw Hj (Hp & Hb & _) (Hp' & Hb' & _) Hh.
  pose proof (pow2_capacity_bounds _ Hp'). apply store_run_other; try done; [lia|].
  destruct (Hd i j v w (not_eq_sym Hj) Hv Hw); lia.
Qed.
End Inv.

Definition v_set_hc {T} (v : View T) (hc : Z) : View T :=
  mkView (v_base v) (v_cap v) (vH v) (vT v) (vR v) hc (vTC v) (v_res v) (v_vals v).
Definition v_pushed {T} (v : View T) (xs : list T) : View T :=
  mkView (v_base v) (v_cap v) (vH v) (vT v + Z.of_nat (length xs)) (vR v) (vHC v) (vTC v) (v_res v)
         (v_vals v ++ xs).
Definition v_set_res {T} (v : View T) (r : Z) : View T :=
  mkView (v_base v) (v_cap v) (vH v) (vT v) (vR v) (vHC v) (vTC v) r (v_vals v).
Definition v_set_tc {T} (v : View T) (tc : Z) : View T :=
  mkView (v_base v) (v_cap v) (vH v) (vT v) (vR v) (vHC v) tc (v_res v) (v_vals v).
Definition v_popped {T} (v : View T) (xs : list T) : View T :=
  mkView (v_base v) (v_cap v) (vH v + 1) (vT v) (vR v) (vHC v) (vTC v) (v_res v) xs.
Definition v_retired {T} (v : View T) (n : Z) : View T :=
  mkView (v_base v) (v_cap v) (vH v) (vT v) (vR v + n) (vHC v) (vTC v) (v_res v) (v_vals v).

Ltac lane_words := unfold words_ok in *; cbn in *; destruct_and?; split_and!; done || congruence || lia.

Section Ops.
Context {T : Type}.
Implicit Types (a : MaskedArray T) (v : View T).

(** ** Pushing *)
Lemma decide_push_spec a s l v count limit p ok :
  lane_inv s l v -> 0 < count < 2147483648 -> limit = v_cap v - v_res v ->
  decide_push a l limit count = (p, ok) ->
  exists hc, lane_inv s (mkLane (consumer l) p) (v_set_hc v hc) /\
    p_tail p = u32 (vT v) /\ p_base p = v_base v /\ p_mask p = v_cap v - 1 /\
    if ok then vT v + count - hc + v_res v <= v_cap v
    else v_cap v < vT v + count - vH v + v_res v.
Proof.
  intros (Hw & Hv & Hb & Hh) Hn -> E. pose proof Hw as (E1 & E2 & E3 & E4 & E5 & E6 & E7 & E8 & E9 & _).
  destruct Hv as (Hp & Hb0 & HR & HT & HHC & Hres & Hroom & Hl). pose proof (pow2_capacity_bounds _ Hp).
  assert (Hi : forall hc p', vHC v <= hc <= vH v -> words_ok (mkLane (consumer l) p') (v_set_hc v hc) ->
    lane_inv s (mkLane (consumer l) p') (v_set_hc v hc)).
  { intros hc p' Hhc Hw'. split; [done|]. split; [|done]. unfold view_ok; cbn.
    repeat (split; [done || lia|]). done. }
  unfold decide_push in E. rewrite E2, E4, u32_add_u32, frontier_sub in E by lia.
  destruct (Z.ltb_spec (v_cap v - v_res v) (vT v + count - vHC v)).
  - cbn in E. rewrite E1, frontier_sub in E by lia.
    destruct (Z.ltb_spec (v_cap v - v_res v) (vT v + count - vH v)); injection E as <- <-;
      exists (vH v); (split; [apply Hi; [lia|lane_words]|]); cbn; repeat (split; [done|]); lia.
  - injection E as <- <-. exists (vHC v). split; [apply Hi; [lia|lane_words]|].
    repeat (split; [done|]). lia.
Qed.

(** Publishing a run that fits: the lane holds it, the others are untouched. *)
Lemma store_and_publish_spec a vs i v s l p xs :
  array_inv a vs -> vs !! i = Some v -> slots a = Some s ->
  lane_inv s (mkLane (consumer l) p) v -> vT v + Z.of_nat (length xs) - vHC v + v_res v <= v_cap v ->
  exists a', store_and_publish a (Z.of_nat i) l p (v_base v) (v_cap v - 1) xs = Some a' /\
    array_inv a' (<[i := v_pushed v xs]> vs).
Proof.
  intros Ha Hi Es (Hw & Hv & Hb & Hh) Hroom. unfold store_and_publish. rewrite Es. cbn [mbind option_bind].
  pose proof Hv as (Hp & Hb0 & HR & HT & HHC & Hres & Hroom0 & Hl). pose proof (pow2_capacity_bounds _ Hp).
  rewrite (proj2 (Z.leb_le 0 (v_base v))), (proj2 (Z.ltb_lt (v_base v + (v_cap v - 1)) _)) by lia. cbn [andb].
  assert (p_tail p = u32 (vT v)) as Et by apply Hw. rewrite Et, u32_add_u32.
  eexists. split; [done|]. eapply array_update; try done; [apply store_run_length| |].
  - split; [lane_words|].
    split; [unfold view_ok; cbn; rewrite length_app; repeat (split; [done || lia|]); lia|].
    split; [by rewrite store_run_length|]. cbn.
    apply (store_run_held xs s (v_vals v) (v_base v) (v_cap v) (vT v) (vH v) (Z.of_nat (length s)) 0);
      done || lia.
  - intros j w Hj Hw' Hheld. destruct Ha as (s0 & Es' & A1 & A2 & A3 & A4 & A5).
    rewrite Es in Es'. injection Es' as <-. destruct (A5 j w Hw') as (lj & _ & _ & Hvw & _).
    eapply (other_blocks a vs i v w j); try done. exists s. by repeat split.
Qed.

(** The lane an operation read before it stored is overwritten by the publication. *)
Lemma store_put_lane a prod l l' p base mask (xs : list T) :
  store_and_publish (put_lane a prod l') prod l p base mask xs = store_and_publish a prod l p base mask xs.
Proof.
  unfold store_and_publish. cbn [slots put_lane]. destruct (slots a) as [s|]; [|done]. cbn [mbind option_bind].
  destruct (_ && _); [|done]. unfold put_lane, put_slots. cbn. by rewrite list_insert_insert_eq.
Qed.

(** What every push returns, for the ceiling and block of its lane. *)
Definition pushed_ok a vs i v xs (r : option (MaskedArray T * bool)) : Prop :=
  exists a' ok v', r = Some (a', ok) /\ array_inv a' (<[i := v']> vs) /\
    ok = bool_decide (Z.of_nat (length (v_vals v) + length xs) + v_res v <= v_cap v) /\
    v_vals v' = (if ok then v_vals v ++ xs else v_vals v) /\
    v_res v' = v_res v /\ v_base v' = v_base v /\ v_cap v' = v_cap v.

Lemma push_core a vs i v s l (xs : list T) limit base mask :
  array_inv a vs -> vs !! i = Some v -> slots a = Some s -> lane_inv s l v ->
  xs <> [] -> Z.of_nat (length xs) < 2147483648 ->
  limit = v_cap v - v_res v -> base = v_base v -> mask = v_cap v - 1 ->
  pushed_ok a vs i v xs
    (let '(p, ok) := decide_push a l limit (Z.of_nat (length xs)) in
     if (ok : bool) then a ← store_and_publish a (Z.of_nat i) l p base mask xs; Some (a, true)
     else Some (put_lane a (Z.of_nat i) (mkLane (consumer l) p), false)).
Proof.
  intros Ha Hi Es Hl Hne Hn Elim -> ->.
  destruct (decide_push a l limit (Z.of_nat (length xs))) as [p ok] eqn:E.
  assert (0 < Z.of_nat (length xs)) by (clear -Hne; destruct xs; [done|cbn; lia]).
  assert (Z.of_nat (length (v_vals v)) = vT v - vH v) as Hlen by apply Hl.
  destruct (decide_push_spec a s l v (Z.of_nat (length xs)) limit p ok Hl ltac:(lia) Elim E) as (hc & Hl' & _ & _ & _ & Hok).
  assert (array_inv a (<[i := v]> vs)) by (by rewrite list_insert_id).
  destruct ok.
  - assert (vHC (v_set_hc v hc) <= vH v) as Hhc by apply Hl'. cbn in Hhc.
    assert (array_inv (put_lane a (Z.of_nat i) (mkLane (consumer l) p)) (<[i := v_set_hc v hc]> vs)) as Ha'
      by (by eapply array_update_words).
    destruct (store_and_publish_spec (put_lane a (Z.of_nat i) (mkLane (consumer l) p)) (<[i:=v_set_hc v hc]> vs)
      i (v_set_hc v hc) s l p xs) as (a' & E' & Ha2); try done.
    { apply list_lookup_insert_eq. by eapply lookup_lt_Some. }
    rewrite list_insert_insert_eq in Ha2. eexists a', true, _.
    split; [|split; [exact Ha2|]; split; [|done]].
    + rewrite store_put_lane in E'. cbn in E'. by rewrite E'.
    + symmetry. apply bool_decide_eq_true_2. lia.
  - eexists _, false, (v_set_hc v hc). split; [done|]. split; [by eapply array_update_words|].
    split; [|done]. symmetry. apply bool_decide_eq_false_2. lia.
Qed.

Lemma decide_push_block a l limit count p ok :
  decide_push a l limit count = (p, ok) ->
  p_base p = p_base (producer l) /\ p_mask p = p_mask (producer l).
Proof. unfold decide_push. destruct (_ <? _); [destruct (_ <? _)|]; by intros [= <- <-]. Qed.

Lemma push_batch_prepared_spec a vs i v (values : list T) prepare :
  array_inv a vs -> vs !! i = Some v -> values <> [] -> Z.of_nat (length values) < 2147483648 ->
  pushed_ok a vs i v (prepare <$> values) (push_batch_prepared a (Z.of_nat i) values prepare).
Proof.
  intros Ha Hi Hne Hn. destruct (array_lane a vs i v Ha Hi) as (s & l & Es & El & Hl).
  unfold push_batch_prepared. rewrite El.
  rewrite (proj2 (Z.eqb_neq _ 0)) by (clear -Hne; destruct values; [done|cbn; lia]). cbn [mbind option_bind].
  pose proof Hl as ((_ & _ & _ & _ & _ & _ & E7 & _ & E9 & _ & _ & E12) & _).
  pose proof (push_core a vs i v s l (prepare <$> values) (v_cap v - v_res v) (v_base v) (v_cap v - 1)) as H.
  rewrite length_fmap in H. rewrite E12.
  destruct (decide_push a l (v_cap v - v_res v) (Z.of_nat (length values))) as [p ok] eqn:E.
  destruct (decide_push_block _ _ _ _ _ _ E) as [-> ->]. rewrite E7, E9.
  apply H; try done. by destruct values.
Qed.
Lemma push_prepared_spec a vs i v (value : T) prepare :
  array_inv a vs -> vs !! i = Some v ->
  pushed_ok a vs i v [prepare value] (push_prepared a (Z.of_nat i) value prepare).
Proof.
  intros Ha Hi. by apply (push_batch_prepared_spec a vs i v [value] prepare).
Qed.

(** ** Credits *)
Lemma reserve_spec a vs i v count :
  array_inv a vs -> vs !! i = Some v -> 0 < count < 2147483648 ->
  exists a' ok v', reserve a (Z.of_nat i) count = Some (a', ok) /\ array_inv a' (<[i := v']> vs) /\
    ok = bool_decide (Z.of_nat (length (v_vals v)) + v_res v + count <= v_cap v) /\
    v_vals v' = v_vals v /\ v_res v' = (if ok then v_res v + count else v_res v).
Proof.
  intros Ha Hi Hn. destruct (array_lane a vs i v Ha Hi) as (s & l & Es & El & Hw & Hv & Hb & Hh).
  unfold reserve. rewrite (proj2 (Z.eqb_neq count 0)), El by lia. cbn [mbind option_bind].
  pose proof Hw as (E1 & E2 & _ & _ & _ & _ & _ & _ & _ & _ & _ & E12).
  pose proof Hv as (Hp & Hb0 & HR & HT & HHC & Hres & Hroom & Hl). pose proof (pow2_capacity_bounds _ Hp).
  cbn [p_tail p_head_cached set_head_cached available_capacity].
  rewrite E1, E2, E12, u32_add_u32, frontier_sub by lia.
  assert (Hv' : view_ok (v_set_hc v (vH v)))
    by (unfold view_ok; cbn; repeat (split; [done || lia|]); done).
  destruct (Z.ltb_spec (v_cap v - v_res v) (vT v + count - vH v)).
  - eexists _, false, (v_set_hc v (vH v)). split; [done|]. split.
    + eapply array_update_words; try done. split; [lane_words|]. done.
    + split; [|done]. symmetry. apply bool_decide_eq_false_2. lia.
  - eexists _, true, (v_set_res (v_set_hc v (vH v)) (v_res v + count)). split; [done|]. split.
    + eapply array_update_words; try done. rewrite (u32_small (v_cap v - v_res v - count)) by lia. split; [lane_words|].
      split; [|done]. unfold view_ok; cbn. repeat (split; [done || lia|]). done.
    + split; [|done]. symmetry. apply bool_decide_eq_true_2. lia.
Qed.

Lemma cancel_spec a vs i v count :
  array_inv a vs -> vs !! i = Some v -> 0 <= count <= v_res v ->
  exists a', cancel_reservation a (Z.of_nat i) count = Some a' /\
    array_inv a' (<[i := v_set_res v (v_res v - count)]> vs).
Proof.
  intros Ha Hi Hn. destruct (array_lane a vs i v Ha Hi) as (s & l & Es & El & Hw & Hv & Hb & Hh).
  unfold cancel_reservation. rewrite El. cbn [mbind option_bind].
  pose proof Hw as (E1 & E2 & _ & _ & _ & _ & _ & _ & _ & _ & E11 & E12).
  pose proof Hv as (Hp & Hb0 & HR & HT & HHC & Hres & Hroom & Hl). pose proof (pow2_capacity_bounds _ Hp).
  rewrite E11, E12. replace (v_cap v - (v_cap v - v_res v)) with (v_res v) by lia.
  rewrite !u32_small by lia. rewrite (proj2 (Z.ltb_ge (v_res v) count)) by lia.
  eexists. split; [done|]. eapply array_update_words; try done. split; [lane_words|].
  split; [|done]. unfold view_ok; cbn. repeat (split; [done || lia|]). done.
Qed.

Lemma push_reserved_spec a vs i v (value : T) prepare :
  array_inv a vs -> vs !! i = Some v -> 0 < v_res v ->
  exists a', push_reserved_prepared a (Z.of_nat i) value prepare = Some a' /\
    array_inv a' (<[i := v_pushed (v_set_res v (v_res v - 1)) [prepare value]]> vs).
Proof.
  intros Ha Hi Hn. destruct (array_lane a vs i v Ha Hi) as (s & l & Es & El & Hw & Hv & Hb & Hh).
  unfold push_reserved_prepared. rewrite El. cbn [mbind option_bind].
  pose proof Hw as (E1 & E2 & _ & _ & _ & _ & E7 & _ & E9 & _ & E11 & E12).
  pose proof Hv as (Hp & Hb0 & HR & HT & HHC & Hres & Hroom & Hl). pose proof (pow2_capacity_bounds _ Hp).
  rewrite E7, E9, E11, E12, (proj2 (Z.eqb_neq (v_cap v - v_res v) (v_cap v))), u32_small by lia.
  set (v1 := v_set_res v (v_res v - 1)). set (p1 := set_available _ _).
  assert (Hl1 : lane_inv s (mkLane (consumer l) p1) v1).
  { split; [unfold p1, v1; lane_words|]. split; [|done].
    unfold view_ok, v1; cbn. repeat (split; [done || lia|]). done. }
  assert (Ha1 : array_inv (put_lane a (Z.of_nat i) (mkLane (consumer l) p1)) (<[i := v1]> vs))
    by (by eapply array_update_words).
  destruct (store_and_publish_spec (put_lane a (Z.of_nat i) (mkLane (consumer l) p1)) (<[i := v1]> vs)
    i v1 s l p1 [prepare value]) as (a' & E' & Ha2); try done.
  { apply list_lookup_insert_eq. by eapply lookup_lt_Some. }
  { unfold v1; cbn. lia. }
  rewrite list_insert_insert_eq in Ha2. exists a'. split; [|done].
  by rewrite store_put_lane in E'.
Qed.

(** ** Popping *)
Lemma popped_lane s l v x xs tc c' :
  lane_inv s l v -> v_vals v = x :: xs -> vTC v <= tc <= vT v -> vH v < tc ->
  c_head c' = u32 (vH v + 1) -> c_retired c' = c_retired (consumer l) -> c_tail_cached c' = u32 tc ->
  c_base c' = c_base (consumer l) -> c_mask c' = c_mask (consumer l) ->
  c_capacity c' = c_capacity (consumer l) ->
  s !! Z.to_nat (v_base v + vH v mod v_cap v) = Some x /\
  lane_inv s (mkLane c' (producer l)) (v_popped (v_set_tc v tc) xs).
Proof.
  intros (Hw & Hv & Hb & Hh) Ev Htc Hlt F1 F2 F3 F4 F5 F6. rewrite Ev in *.
  destruct (held_cons _ _ _ _ _ _ Hh) as [Hx Hh']. split; [exact Hx|].
  split; [lane_words|]. split; [|done].
  destruct Hv as (Hp & Hb0 & HR & HT & HHC & Hres & Hroom & Hl). rewrite Ev in Hl. cbn [length] in Hl.
  unfold view_ok; cbn. repeat (split; [done || lia|]). lia.
Qed.

Lemma raise_high_water_same c d :
  let c' := raise_high_water c d in
  c_head c' = c_head c /\ c_retired c' = c_retired c /\ c_tail_cached c' = c_tail_cached c /\
  c_base c' = c_base c /\ c_mask c' = c_mask c /\ c_capacity c' = c_capacity c.
Proof. unfold raise_high_water. by destruct (_ <? _). Qed.

(** A pop with the block of its lane. *)
Lemma pop_at_spec a vs i v base mask :
  array_inv a vs -> vs !! i = Some v -> base = v_base v -> mask = v_cap v - 1 ->
  exists a' v', pop_at a (Z.of_nat i) base mask = Some (a', hd_error (v_vals v)) /\
    array_inv a' (<[i := v']> vs) /\ v_vals v' = tl (v_vals v) /\ v_res v' = v_res v.
Proof.
  intros Ha Hi -> ->. destruct (array_lane a vs i v Ha Hi) as (s & l & Es & El & Hlane).
  pose proof Hlane as (Hw & Hv & Hb & Hh). pose proof Hw as (E1 & E2 & _ & _ & E5 & _).
  pose proof Hv as (Hp & Hb0 & HR & HT & HHC & Hres & Hroom & Hl). pose proof (pow2_capacity_bounds _ Hp).
  unfold pop_at. rewrite El. cbn [mbind option_bind]. rewrite Es. cbn [mbind option_bind].
  rewrite E1, E5, (proj2 (Z.leb_le 0 (v_base v))), mask_index, u32_add_u32, frontier_eq by done || lia.
  assert (Hpop : forall tc x xs c', v_vals v = x :: xs -> vTC v <= tc <= vT v -> vH v < tc ->
    c_retired c' = c_retired (consumer l) -> c_tail_cached c' = u32 tc ->
    c_base c' = c_base (consumer l) -> c_mask c' = c_mask (consumer l) ->
    c_capacity c' = c_capacity (consumer l) ->
    exists a' v', (v0 ← s !! Z.to_nat (v_base v + vH v mod v_cap v);
      Some (put_lane a (Z.of_nat i) (mkLane (set_head c' (u32 (vH v + 1))) (producer l)), Some v0)) =
      Some (a', hd_error (v_vals v)) /\ array_inv a' (<[i := v']> vs) /\ v_vals v' = tl (v_vals v) /\
      v_res v' = v_res v).
  { intros tc x xs c' Ev Htc Hlt F2 F3 F4 F5 F6.
    destruct (popped_lane s l v x xs tc (set_head c' (u32 (vH v + 1))) Hlane Ev Htc Hlt) as [Hx Hl']; try done.
    rewrite Hx, Ev. cbn [mbind option_bind]. eexists _, (v_popped (v_set_tc v tc) xs).
    split; [done|]. split; [|done]. by eapply array_update_words. }
  destruct (Z.eqb_spec (vH v) (vTC v)) as [Eh|Eh]; cbn [c_tail_cached set_tail_cached].
  - rewrite E2, frontier_eq by lia. destruct (Z.eqb_spec (vH v) (vT v)) as [Et|Et].
    + destruct (v_vals v) as [|x xs] eqn:Ev; [|cbn in Hl; lia].
      eexists _, (v_set_tc v (vT v)). split; [done|]. split; [|done].
      eapply array_update_words; try done. split; [lane_words|].
      split; [|split; [done|]; cbn; rewrite Ev; apply held_nil].
      unfold view_ok; cbn. rewrite Ev. repeat (split; [done || lia|]). done.
    + destruct (v_vals v) as [|x xs] eqn:Ev; [cbn in Hl; lia|].
      destruct (raise_high_water_same (set_tail_cached (consumer l) (u32 (vT v))) (u32 (u32 (vT v) - u32 (vH v))))
        as (_ & F2 & F3 & F4 & F5 & F6).
      apply (Hpop (vT v) x xs); done || lia.
  - destruct (v_vals v) as [|x xs] eqn:Ev; [cbn in Hl; lia|]. apply (Hpop (vTC v) x xs); done || lia.
Qed.

Lemma pop_unretired_spec a vs i v :
  array_inv a vs -> vs !! i = Some v ->
  exists a' v', pop a (Z.of_nat i) = Some (a', hd_error (v_vals v)) /\
    array_inv a' (<[i := v']> vs) /\ v_vals v' = tl (v_vals v) /\ v_res v' = v_res v.
Proof.
  intros Ha Hi. destruct (array_lane a vs i v Ha Hi) as (s & l & Es & El & Hw & _).
  unfold pop, pop_unretired. rewrite El. cbn [mbind option_bind]. apply pop_at_spec; try done; apply Hw.
Qed.

Lemma retire_n_spec a vs i v count :
  array_inv a vs -> vs !! i = Some v -> 0 < count <= vH v - vR v ->
  exists a', retire_n a (Z.of_nat i) count = Some a' /\ array_inv a' (<[i := v_retired v count]> vs).
Proof.
  intros Ha Hi Hn. destruct (array_lane a vs i v Ha Hi) as (s & l & Es & El & Hw & Hv & Hb & Hh).
  unfold retire_n. rewrite (proj2 (Z.eqb_neq count 0)), El by lia. cbn [mbind option_bind].
  eexists. split; [done|]. eapply array_update_words; try done.
  pose proof Hw as (_ & _ & E3 & _). pose proof Hv as (Hp & Hb0 & HR & HT & HHC & Hres & Hroom & Hl).
  rewrite E3, u32_add_u32. split; [lane_words|]. split; [|done].
  unfold view_ok; cbn. repeat (split; [done || lia|]). done.
Qed.
End Ops.

(** * Partitioning *)
Section Partition.
Context {T : Type} (MaxProducers sizeofT : Z).
Implicit Types (a : MaskedArray T).

Definition lane_cap (io_capacity : Z) (b : bool) : Z := if b then io_capacity else kInternalProducerSlots.
Fixpoint fresh_views (is_io : list bool) (io_capacity cursor : Z) : list (View T) :=
  match is_io with
  | [] => []
  | b :: is_io =>
      mkView cursor (lane_cap io_capacity b) 0 0 0 0 0 0 [] ::
      fresh_views is_io io_capacity (cursor + lane_cap io_capacity b)
  end.
Fixpoint sum_caps (is_io : list bool) (io_capacity : Z) : Z :=
  match is_io with [] => 0 | b :: is_io => lane_cap io_capacity b + sum_caps is_io io_capacity end.

Lemma fresh_views_lookup is_io io_capacity cursor i (v : View T) :
  pow2_capacity io_capacity -> fresh_views is_io io_capacity cursor !! i = Some v ->
  exists b, is_io !! i = Some b /\ v_cap v = lane_cap io_capacity b /\
    v_base v = cursor + sum_caps (take i is_io) io_capacity /\
    v = mkView (v_base v) (v_cap v) 0 0 0 0 0 0 [].
Proof.
  intros Hp. revert cursor i. induction is_io as [|b is_io IH]; intros cursor i Hv; [done|].
  destruct i as [|i]; cbn in Hv.
  - injection Hv as <-. exists b. cbn. rewrite Z.add_0_r. done.
  - destruct (IH _ _ Hv) as (b' & Hb & Hc & Hbase & Hv'). exists b'. cbn. split; [done|]. split; [done|].
    split; [lia|done].
Qed.

Lemma lane_cap_pow2 io_capacity b : pow2_capacity io_capacity -> pow2_capacity (lane_cap io_capacity b).
Proof. intros Hp. destruct b; [done|]. exists 8. split; [lia|done]. Qed.
Lemma lane_cap_pos io_capacity b : pow2_capacity io_capacity -> 0 < lane_cap io_capacity b.
Proof. intros Hp. pose proof (pow2_capacity_bounds _ (lane_cap_pow2 _ b Hp)). lia. Qed.

Lemma sum_caps_nonneg l io_capacity : pow2_capacity io_capacity -> 0 <= sum_caps l io_capacity.
Proof. intros Hp. induction l as [|b l IH]; cbn; [lia|]. pose proof (lane_cap_pos io_capacity b Hp). lia. Qed.
Lemma sum_caps_app l1 l2 io_capacity :
  sum_caps (l1 ++ l2) io_capacity = sum_caps l1 io_capacity + sum_caps l2 io_capacity.
Proof. induction l1 as [|b l1 IH]; cbn; [done|]. rewrite IH. lia. Qed.

(** A lane's block ends where the sum of the capacities up to it says. *)
Lemma sum_caps_take_S l io_capacity i b :
  l !! i = Some b -> sum_caps (take (S i) l) io_capacity = sum_caps (take i l) io_capacity + lane_cap io_capacity b.
Proof. intros H. rewrite (take_S_r _ _ _ H), sum_caps_app. cbn. lia. Qed.
Lemma sum_caps_take_le l io_capacity i j :
  pow2_capacity io_capacity -> (i <= j)%nat ->
  sum_caps (take i l) io_capacity <= sum_caps (take j l) io_capacity.
Proof.
  intros Hp Hij. replace (take j l) with (take i l ++ take (j - i) (drop i l)).
  - rewrite sum_caps_app. pose proof (sum_caps_nonneg (take (j - i) (drop i l)) io_capacity Hp). lia.
  - rewrite take_take_drop. f_equal. lia.
Qed.

Lemma fresh_views_disjoint is_io io_capacity cursor :
  pow2_capacity io_capacity -> disjoint_blocks (fresh_views is_io io_capacity cursor).
Proof.
  intros Hp i j vi vj Hij Hi Hj.
  destruct (fresh_views_lookup _ _ _ _ _ Hp Hi) as (bi & Li & Ci & Bi & _).
  destruct (fresh_views_lookup _ _ _ _ _ Hp Hj) as (bj & Lj & Cj & Bj & _).
  rewrite Ci, Cj, Bi, Bj.
  pose proof (sum_caps_take_S _ io_capacity _ _ Li). pose proof (sum_caps_take_S _ io_capacity _ _ Lj).
  destruct (decide (i < j)%nat).
  - left. pose proof (sum_caps_take_le is_io io_capacity (S i) j Hp ltac:(lia)). lia.
  - right. pose proof (sum_caps_take_le is_io io_capacity (S j) i Hp ltac:(lia)). lia.
Qed.

Lemma fresh_views_length is_io io_capacity cursor :
  length (fresh_views is_io io_capacity cursor) = length is_io.
Proof. revert cursor. induction is_io as [|b l IH]; intros; cbn; [done|]. by rewrite IH. Qed.

Lemma install_all_spec is_io io_capacity ls cursor :
  (length is_io <= length ls)%nat ->
  let '(ls', c) := install_all is_io io_capacity ls cursor in
  c = cursor + sum_caps is_io io_capacity /\ length ls' = length ls /\
  forall i v, fresh_views is_io io_capacity cursor !! i = Some v ->
    exists l, ls' !! i = Some (install_lane l (v_base v) (v_cap v)).
Proof.
  revert ls cursor. induction is_io as [|b is_io IH]; intros ls cursor Hl; cbn [install_all].
  - cbn. split; [lia|]. split; [done|]. intros i v Hv. done.
  - destruct ls as [|l ls]; [cbn in Hl; lia|].
    specialize (IH ls (cursor + lane_cap io_capacity b) ltac:(cbn in Hl; lia)). unfold lane_cap in IH at 1.
    destruct (install_all is_io io_capacity ls _) as [ls' c]. destruct IH as (-> & Hlen & Hv).
    cbn [sum_caps fresh_views]. split; [lia|]. split; [by cbn; rewrite Hlen|].
    intros [|i] v Hi; cbn in Hi |- *; [|by apply Hv]. injection Hi as <-. by exists l.
Qed.

(** The installed array satisfies the invariant, with every lane empty. *)
Lemma installed_inv a s is_io io_capacity :
  pow2_capacity io_capacity -> slots a = Some s -> Z.of_nat (length s) = total_slots a ->
  Z.of_nat (length is_io) = producers a -> (length is_io <= length (lanes a))%nat ->
  sum_caps is_io io_capacity <= total_slots a ->
  let '(ls, _) := install_all is_io io_capacity (lanes a) 0 in
  array_inv (mkArr ls (slots a) (producers a) (total_slots a)) (fresh_views is_io io_capacity 0).
Proof.
  intros Hp Hs Hlen Hn Hll Hsum. pose proof (install_all_spec is_io io_capacity (lanes a) 0 Hll) as H.
  destruct (install_all is_io io_capacity (lanes a) 0) as [ls c]. destruct H as (_ & Hl' & Hv).
  exists s. cbn. rewrite fresh_views_length. split; [done|]. split; [done|]. split; [done|].
  split; [lia|]. split; [by apply fresh_views_disjoint|].
  intros i v Hi. destruct (Hv i v Hi) as (l & Hl). eexists. split; [exact Hl|].
  destruct (fresh_views_lookup _ _ _ _ _ Hp Hi) as (b & Lb & Cb & Bb & Ev).
  pose proof (lane_cap_pow2 io_capacity b Hp) as Hpb. pose proof (pow2_capacity_bounds _ Hpb).
  pose proof (sum_caps_take_S _ io_capacity _ _ Lb).
  pose proof (sum_caps_take_le is_io io_capacity (S i) (length is_io) Hp) as Hle.
  rewrite firstn_all in Hle. apply lookup_lt_Some in Lb. specialize (Hle ltac:(lia)).
  pose proof (sum_caps_nonneg (take i is_io) io_capacity Hp).
  rewrite Ev. split; [unfold words_ok; cbn; split_and!; done || lia|].
  split; [|split; [cbn; lia|apply held_nil]].
  unfold view_ok; cbn. rewrite Cb. split; [done|]. repeat (split; [lia|]). done.
Qed.
End Partition.

(** ** The role lists *)
Fixpoint ntrue (l : list bool) : Z :=
  match l with [] => 0 | b :: l => (if b then 1 else 0) + ntrue l end.

Lemma ntrue_insert l i : l !! i = Some false -> ntrue (<[i := true]> l) = ntrue l + 1.
Proof. revert i. induction l as [|b l IH]; intros [|i] H; try done; cbn in *; [simplify_eq; lia|]. rewrite IH by done. lia. Qed.
Lemma ntrue_replicate n : ntrue (replicate n false) = 0.
Proof. induction n as [|n IH]; cbn; [done|]. by rewrite IH. Qed.
Lemma sum_caps_ntrue l io_capacity :
  sum_caps l io_capacity = io_capacity * ntrue l + kInternalProducerSlots * (Z.of_nat (length l) - ntrue l).
Proof.
  induction l as [|b l IH]; [cbn; lia|]. cbn [sum_caps ntrue length]. rewrite IH. unfold lane_cap. destruct b; lia.
Qed.

(** A validated role list marks as many of the first n lanes as it has entries. *)
Lemma assign_all_ntrue n ps l l' :
  0 <= n <= Z.of_nat (length l) -> Forall (Z.le 0) ps -> assign_all n ps l = Some l' ->
  length l' = length l /\
  ntrue (take (Z.to_nat n) l') = ntrue (take (Z.to_nat n) l) + Z.of_nat (length ps).
Proof.
  revert l. induction ps as [|p ps IH]; intros l Hn Hps E; cbn [assign_all] in E.
  - injection E as <-. cbn. split; [done|lia].
  - inversion Hps as [|?? Hp Hps']; subst. destruct (Z.leb_spec n p); [done|].
    destruct (l !! Z.to_nat p) as [b|] eqn:Ep; [|apply lookup_ge_None in Ep; lia].
    cbn [default from_option orb id] in E. destruct b; [done|].
    destruct (fun H => IH _ H Hps' E) as [Hl Ht]; [rewrite length_insert; lia|].
    rewrite length_insert in Hl. split; [done|]. rewrite Ht.
    rewrite take_insert_lt by lia. rewrite ntrue_insert by (by rewrite lookup_take_lt by lia).
    cbn [length]. lia.
Qed.

(** Distinct unassigned producers are all accepted, and they are what gets marked. *)
Lemma assign_all_accepts n ps l :
  0 <= n <= Z.of_nat (length l) -> NoDup ps -> Forall (fun p => 0 <= p < n) ps ->
  (forall p, p ∈ ps -> l !! Z.to_nat p = Some false) ->
  exists l', assign_all n ps l = Some l' /\ length l' = length l /\
    (forall p, p ∈ ps -> l' !! Z.to_nat p = Some true) /\
    (forall k, l !! k = Some true -> l' !! k = Some true) /\
    (forall k, (forall p, p ∈ ps -> Z.to_nat p <> k) -> l' !! k = l !! k).
Proof.
  revert l. induction ps as [|p ps IH]; intros l Hn Hd Hr Hf; cbn [assign_all].
  - exists l. split; [done|]. split; [done|]. split; [intros p Hp; by apply not_elem_of_nil in Hp|done].
  - inversion Hd as [|?? Hnp Hd']; subst. inversion Hr as [|?? Hp Hr']; subst.
    rewrite (proj2 (Z.leb_gt n p)), (Hf p (list_elem_of_here _ _)) by lia. cbn [orb default from_option id].
    destruct (IH (<[Z.to_nat p := true]> l)) as (l' & E & Hl & Hin & Hkeep & Hout).
    + rewrite length_insert. lia.
    + done.
    + done.
    + intros q Hq. rewrite list_lookup_insert_ne; [by apply Hf; right|].
      intros Eq. rewrite Forall_forall in Hr'. specialize (Hr' q Hq). assert (p = q) as -> by lia. done.
    + exists l'. split; [done|]. rewrite length_insert in Hl. split; [done|]. split; [|split].
      * intros q Hq. apply elem_of_cons in Hq as [->|Hq]; [|by apply Hin].
        apply Hkeep. apply list_lookup_insert_eq. lia.
      * intros k Hk. apply Hkeep. destruct (decide (k = Z.to_nat p)) as [->|];
          [apply list_lookup_insert_eq; lia|by rewrite list_lookup_insert_ne].
      * intros k Hk. rewrite Hout by (intros q Hq; apply Hk; by right).
        rewrite list_lookup_insert_ne; [done|]. apply Hk. left.
Qed.

Section Remask.
Context {T : Type} (MaxProducers sizeofT : Z).
Implicit Types (a : MaskedArray T).

(** An allocated array, before its blocks are assigned. *)
Definition allocated a : Prop :=
  (exists s, slots a = Some s /\ Z.of_nat (length s) = total_slots a) /\ total_slots a < 4294967296 /\
  0 <= producers a <= MaxProducers /\ MaxProducers = Z.of_nat (length (lanes a)).

Lemma bit_floor_spec x :
  0 < x < 4294967296 -> pow2_capacity (bit_floor x) /\ bit_floor x <= x < 2 * bit_floor x.
Proof.
  intros Hx. unfold bit_floor. rewrite (proj2 (Z.eqb_neq x 0)) by lia.
  pose proof (Z.log2_spec x ltac:(lia)) as [H1 H2]. pose proof (Z.log2_nonneg x).
  rewrite Z.pow_succ_r in H2 by lia. split; [|lia].
  exists (Z.log2 x). split; [|done]. split; [done|].
  destruct (decide (Z.log2 x <= 31)) as [|Hgt]; [done|].
  assert (2 ^ 32 <= 2 ^ Z.log2 x) by (apply Z.pow_le_mono_r; lia). change (2 ^ 32) with 4294967296 in *. lia.
Qed.

(** The blocks fit: the IO share rounded down, and 256 slots for each executor lane. *)
Lemma blocks_fit a nio nex is_io :
  0 < nio -> 0 < nex -> nex * kInternalProducerSlots < total_slots a -> total_slots a < 4294967296 ->
  ntrue is_io = nio -> Z.of_nat (length is_io) = nio + nex ->
  let share := u32 ((total_slots a - nex * kInternalProducerSlots) / nio) in
  bit_floor share <> 0 ->
  pow2_capacity (bit_floor share) /\ sum_caps is_io (bit_floor share) <= total_slots a.
Proof.
  intros Hio Hex Hint Htot Hnt Hlen share Hne. unfold kInternalProducerSlots in *.
  assert (Hq : 0 <= (total_slots a - nex * 256) / nio <= total_slots a - nex * 256).
  { split; [apply Z.div_pos; lia|]. apply Z.div_le_upper_bound; nia. }
  assert (Hs : share = (total_slots a - nex * 256) / nio) by (unfold share; apply u32_small; lia).
  assert (0 < share) by (destruct (decide (share = 0)) as [E|]; [by rewrite E in Hne|lia]).
  destruct (bit_floor_spec share ltac:(lia)) as [Hp Hb]. split; [done|].
  rewrite sum_caps_ntrue, Hnt, Hlen. unfold kInternalProducerSlots.
  pose proof (Z.mul_div_le (total_slots a - nex * 256) nio ltac:(lia)) as Hmul. rewrite <- Hs in Hmul. nia.
Qed.

Lemma ntrue_le l : ntrue l <= Z.of_nat (length l).
Proof. induction l as [|[] l IH]; cbn [ntrue length]; lia. Qed.
Lemma ntrue_all l : ntrue l = Z.of_nat (length l) -> forallb id l = true.
Proof.
  induction l as [|b l IH]; [done|]. cbn [ntrue length]. intros H. pose proof (ntrue_le l).
  destruct b; [|lia]. cbn. apply IH. lia.
Qed.

(** A remask that refuses changes nothing; one that accepts leaves every lane empty in its own
    block of the allocation. *)
Lemma remask_result a io ex :
  allocated a -> Forall (Z.le 0) io -> Forall (Z.le 0) ex ->
  let '(a', ok) := remask_quiesced MaxProducers sizeofT a io ex in
  if ok then exists is_io cap, pow2_capacity cap /\ 256 <= cap /\
      Z.of_nat (length is_io) = producers a /\ ntrue is_io = Z.of_nat (length io) /\
      array_inv a' (fresh_views is_io cap 0)
  else a' = a.
Proof.
  intros ((s & Hs & Hlen) & Htot & Hpr & HM) Hio Hex. unfold remask_quiesced. rewrite Hs. cbn [orb].
  destruct (Z.eqb_spec (Z.of_nat (length io)) 0); [done|].
  destruct (Z.eqb_spec (Z.of_nat (length ex)) 0); [done|].
  destruct (Z.eqb_spec (Z.of_nat (length io) + Z.of_nat (length ex)) (producers a)) as [Hsum|]; [|done].
  destruct (all_quiesced a); [|done]. cbn [orb negb].
  destruct (assign_all (producers a) io _) as [iop|] eqn:E1; [|done].
  destruct (assign_all (producers a) ex iop) as [asg|]; [|done].
  destruct (negb (forallb id _)); [done|].
  destruct (Z.leb_spec (total_slots a) (Z.of_nat (length ex) * kInternalProducerSlots)); [done|].
  destruct (bit_floor _ =? 0) eqn:E0; [done|]. cbn [orb]. apply Z.eqb_neq in E0.
  destruct (_ * sizeofT <? kMaskedQueueCacheLine); [done|].
  destruct (fun H => assign_all_ntrue _ _ _ _ H Hio E1) as [Hl1 Ht1]; [rewrite length_replicate; lia|].
  rewrite length_replicate in Hl1. rewrite take_replicate, ntrue_replicate in Ht1.
  set (is_io := take (Z.to_nat (producers a)) iop) in *.
  assert (Hli : Z.of_nat (length is_io) = producers a) by (unfold is_io; rewrite length_take; lia).
  destruct (blocks_fit a (Z.of_nat (length io)) (Z.of_nat (length ex)) is_io) as [Hp Hfit]; try done; try lia.
  set (cap := bit_floor _) in *.
  destruct ((if cap <? kInternalProducerSlots then cap else kInternalProducerSlots) <? kInternalProducerSlots)
    eqn:E3; [done|].
  assert (256 <= cap) by (unfold kInternalProducerSlots in E3; destruct (Z.ltb_spec cap 256); zcmp; lia).
  pose proof (installed_inv a s is_io cap Hp Hs Hlen Hli ltac:(lia) Hfit) as Hinv.
  pose proof (install_all_spec (T := T) is_io cap (lanes a) 0 ltac:(lia)) as Hsp.
  rewrite Hs in Hinv. destruct (install_all is_io cap (lanes a) 0) as [ls c]. destruct Hsp as (-> & _).
  rewrite (proj2 (Z.leb_le _ _)) by lia. exists is_io, cap. repeat (split; [done || lia|]). done.
Qed.

Lemma remask_total a io ex :
  total_slots (remask_quiesced MaxProducers sizeofT a io ex).1 = total_slots a.
Proof.
  unfold remask_quiesced. repeat (case_match; try done).
Qed.

(** Disjoint role lists that name every producer pass the validation loops. *)
Lemma roles_validate n io ex :
  0 <= n <= MaxProducers -> NoDup (io ++ ex) -> Forall (fun p => 0 <= p < n) (io ++ ex) ->
  Z.of_nat (length (io ++ ex)) = n ->
  exists iop asg, assign_all n io (replicate (Z.to_nat MaxProducers) false) = Some iop /\
    assign_all n ex iop = Some asg /\ Z.of_nat (length iop) = MaxProducers /\
    ntrue (take (Z.to_nat n) iop) = Z.of_nat (length io) /\
    forallb id (take (Z.to_nat n) asg) = true.
Proof.
  intros Hn Hnd Hr Hlen.
  apply NoDup_app in Hnd as (Hn1 & Hdis & Hn2). apply Forall_app in Hr as [Hr1 Hr2]. rewrite length_app in Hlen.
  set (fresh := replicate (Z.to_nat MaxProducers) false).
  assert (Hfl : Z.of_nat (length fresh) = MaxProducers) by (unfold fresh; rewrite length_replicate; lia).
  assert (Hfresh : forall p, 0 <= p < n -> fresh !! Z.to_nat p = Some false)
    by (intros p Hp; unfold fresh; apply lookup_replicate_2; lia).
  destruct (assign_all_accepts n io fresh) as (iop & E1 & L1 & _ & _ & Hout); [lia|done|done| |].
  { intros p Hp. apply Hfresh. rewrite Forall_forall in Hr1. by apply Hr1. }
  destruct (assign_all_accepts n ex iop) as (asg & E2 & L2 & _); [lia|done|done| |].
  { intros p Hp. rewrite Forall_forall in Hr1, Hr2. rewrite Hout; [by apply Hfresh, Hr2|].
    intros q Hq' Eq. pose proof (Hr1 q Hq'). pose proof (Hr2 p Hp). assert (q = p) as -> by lia. by apply (Hdis p). }
  assert (Hnn : forall l, Forall (fun p => 0 <= p < n) l -> Forall (Z.le 0) l)
    by (intros l Hl; eapply Forall_impl; [exact Hl|]; intros x [? _]; done).
  destruct (fun H => assign_all_ntrue _ _ _ _ H (Hnn _ Hr1) E1) as [_ T1]; [lia|].
  destruct (fun H => assign_all_ntrue _ _ _ _ H (Hnn _ Hr2) E2) as [_ T2]; [lia|].
  unfold fresh in T1. rewrite take_replicate, ntrue_replicate in T1.
  exists iop, asg. split; [done|]. split; [done|]. split; [lia|]. split; [lia|].
  apply ntrue_all. rewrite length_take. lia.
Qed.

(** With 256 slots per producer, the IO share is at least 256 and so is its rounding. *)
Lemma share_enough total nio nex :
  0 < nio -> 0 < nex -> 256 * (nio + nex) <= total < 4294967296 ->
  let share := (total - nex * 256) / nio in
  u32 share = share /\ 256 <= bit_floor share.
Proof.
  intros Hio Hex Htot share.
  assert (Hs : 256 <= share < 4294967296).
  { unfold share. split; [apply Z.div_le_lower_bound; lia|].
    eapply Z.le_lt_trans; [apply Z.div_le_upper_bound with (q := total - nex * 256); nia|lia]. }
  split; [apply u32_small; lia|]. destruct (bit_floor_spec share ltac:(lia)) as [(k & Hk & E) Hb].
  rewrite E in *. change 256 with (2 ^ 8). apply Z.pow_le_mono_r; [lia|].
  destruct (decide (8 <= k)) as [|Hk8]; [done|].
  assert (2 ^ k <= 2 ^ 7) by (apply Z.pow_le_mono_r; lia). change (2 ^ 7) with 128 in *. lia.
Qed.

(** Legal role lists on a quiesced array with 256 slots per producer are accepted. *)
Lemma remask_accepts a io ex :
  allocated a -> io <> [] -> ex <> [] -> NoDup (io ++ ex) ->
  Forall (fun p => 0 <= p < producers a) (io ++ ex) ->
  Z.of_nat (length (io ++ ex)) = producers a -> all_quiesced a = true ->
  256 * producers a <= total_slots a -> 64 <= 256 * sizeofT ->
  (remask_quiesced MaxProducers sizeofT a io ex).2 = true.
Proof.
  intros Hal Hio Hex Hnd Hr Hlen Hq Htot Hsz. pose proof Hal as ((s & Hs & Hls) & Htl & Hpr & HM).
  destruct (roles_validate (producers a) io ex Hpr Hnd Hr Hlen) as (iop & asg & E1 & E2 & L1 & T1 & Hall).
  rewrite length_app in Hlen.
  assert (Hnio : 0 < Z.of_nat (length io)) by (clear -Hio; destruct io; [done|cbn; lia]).
  assert (Hnex : 0 < Z.of_nat (length ex)) by (clear -Hex; destruct ex; [done|cbn; lia]).
  destruct (share_enough (total_slots a) (Z.of_nat (length io)) (Z.of_nat (length ex))) as [Hu Hge]; [done|done|lia|].
  unfold remask_quiesced. rewrite Hs, Hq. cbn [orb].
  rewrite (proj2 (Z.eqb_neq _ 0)), (proj2 (Z.eqb_neq (Z.of_nat (length ex)) 0)) by lia.
  rewrite (proj2 (Z.eqb_eq (_ + _) (producers a))) by lia. cbn [orb negb].
  rewrite E1, E2, Hall. cbn [negb].
  change kInternalProducerSlots with 256. unfold kMaskedQueueCacheLine.
  rewrite (proj2 (Z.leb_gt (total_slots a) _)), Hu by lia. set (share := _ / _) in *.
  rewrite (proj2 (Z.eqb_neq (bit_floor share) 0)), (proj2 (Z.ltb_ge (_ * sizeofT) 64)) by nia. cbn [orb].
  rewrite (proj2 (Z.ltb_ge (bit_floor share) 256)) by lia. cbn.
  set (is_io := take (Z.to_nat (producers a)) iop) in *.
  assert (Hli : Z.of_nat (length is_io) = producers a) by (unfold is_io; rewrite length_take; lia).
  destruct (blocks_fit a (Z.of_nat (length io)) (Z.of_nat (length ex)) is_io) as [_ Hfit]; try lia;
    change kInternalProducerSlots with 256; fold share; rewrite ?Hu; [lia..|].
  change kInternalProducerSlots with 256 in Hfit. fold share in Hfit. rewrite Hu in Hfit.
  pose proof (install_all_spec (T := T) is_io (bit_floor share) (lanes a) 0 ltac:(lia)) as Hsp.
  destruct (install_all is_io (bit_floor share) (lanes a) 0) as [ls c]. destruct Hsp as (-> & _).
  apply Z.leb_le. lia.
Qed.
End Remask.

(** * Properties *)
Section Facts.
Context {T : Type} (MaxProducers sizeofT : Z) (alloc : Z -> bool) (zero : T).
Implicit Types (a : MaskedArray T).

(** The blocks after a repartition: every lane empty, unreserved, with at least 256 slots of its
    own. *)
Definition partitioned a (n : Z) : Prop :=
  exists vs, array_inv a vs /\ Z.of_nat (length vs) = n /\
    Forall (fun v => v_vals v = [] /\ v_res v = 0 /\ 256 <= v_cap v) vs.

Lemma fresh_views_partitioned a is_io cap :
  pow2_capacity cap -> 256 <= cap -> array_inv a (fresh_views is_io cap 0) ->
  partitioned a (Z.of_nat (length is_io)).
Proof.
  intros Hp Hc Ha. exists (fresh_views is_io cap 0). rewrite fresh_views_length. split; [done|]. split; [done|].
  apply Forall_lookup_2. intros i v Hv. destruct (fresh_views_lookup _ _ _ _ _ Hp Hv) as (b & _ & Hcap & _ & ->).
  cbn. split; [done|]. split; [done|]. rewrite Hcap. destruct b; cbn; [lia|unfold kInternalProducerSlots; lia].
Qed.

(** C38: Repartitioning is all or nothing and safe: a refused remask or growth leaves the array exactly
    as it was; an accepted one gives every producer a private, disjoint power-of-two block of at
    least 256 slots inside the allocation, all lanes empty; and disjoint, complete role lists on a
    quiesced array with 256 slots per producer are always accepted. *)
Theorem remask_partitions a io ex wanted :
  allocated MaxProducers a -> Forall (Z.le 0) io -> Forall (Z.le 0) ex -> wanted < 4294967296 ->
  (let '(a', ok) := remask_quiesced MaxProducers sizeofT a io ex in
   if ok then partitioned a' (producers a) else a' = a) /\
  (let '(a', ok) := grow_quiesced MaxProducers sizeofT alloc zero a wanted io ex in
   if ok then partitioned a' (producers a) /\ total_slots a < total_slots a' else a' = a) /\
  (io <> [] -> ex <> [] -> NoDup (io ++ ex) -> Forall (fun p => 0 <= p < producers a) (io ++ ex) ->
   Z.of_nat (length (io ++ ex)) = producers a -> all_quiesced a = true ->
   256 * producers a <= total_slots a -> 64 <= 256 * sizeofT ->
   (remask_quiesced MaxProducers sizeofT a io ex).2 = true).
Proof.
  intros Hal Hio Hex Hw.
  assert (H : forall b, allocated MaxProducers b ->
    let '(b', ok) := remask_quiesced MaxProducers sizeofT b io ex in
    if ok then partitioned b' (producers b) else b' = b).
  { intros b Hb. pose proof (remask_result MaxProducers sizeofT b io ex Hb Hio Hex) as H.
    destruct (remask_quiesced MaxProducers sizeofT b io ex) as [b' []]; [|done].
    destruct H as (is_io & cap & Hp & Hc & <- & _ & Hinv). by apply (fresh_views_partitioned b' is_io cap). }
  split; [by apply H|]. split.
  - unfold grow_quiesced. destruct (Z.leb_spec wanted (total_slots a)); [done|].
    destruct (all_quiesced a); [|done]. cbn [orb negb]. destruct (alloc wanted); [|done].
    set (g := mkArr _ _ _ _). pose proof Hal as ((s & Es & Hs) & Ht & Hp & HM).
    assert (Hg : allocated MaxProducers g).
    { split; [eexists; split; [done|]; cbn; rewrite length_replicate; lia|]. done. }
    specialize (H g Hg). pose proof (remask_total MaxProducers sizeofT g io ex) as Htot.
    destruct (remask_quiesced MaxProducers sizeofT g io ex) as [g' []]; cbn in Htot.
    + split; [done|]. rewrite Htot. done.
    + subst g'. by destruct a.
  - by apply remask_accepts.
Qed.
End Facts.
(** A small array for the witnesses: two producers, roles io = [0], ex = [1]. *)
Definition sample_array : MaskedArray Z :=
  (init_local 4 32 (fun _ => true) 0 (array_new 4) 2 256 [0] [1]).1.

Lemma sample_allocated : allocated 4 sample_array.
Proof.
  split; [eexists; split; [vm_compute; reflexivity|reflexivity]|]. split; [reflexivity|].
  split; [by vm_compute|reflexivity].
Qed.

Lemma sample_inv : array_inv sample_array (fresh_views [true; false] 256 0).
Proof.
  apply (installed_inv (mkArr (replicate 4 lane_new) (Some (replicate 512 0)) 2 512) (replicate 512 0)
           [true; false] 256); try done; [exists 8; split; [lia|reflexivity]|cbn; lia].
Qed.

Lemma remask_partitions_witness :
  (let '(a', ok) := remask_quiesced 4 32 sample_array [1] [0] in
   if ok then partitioned a' (producers sample_array) else a' = sample_array) /\
  (remask_quiesced 4 32 sample_array [1] [0]).2 = true.
Proof.
  destruct (remask_partitions 4 32 (fun _ => true) 0 sample_array [1] [0] 1024) as (H1 & _ & H3).
  - apply sample_allocated.
  - repeat constructor; lia.
  - repeat constructor; lia.
  - lia.
  - split; [exact H1|]. apply H3; try done; try by vm_compute.
    + apply (bool_decide_eq_true_1 (NoDup _)); vm_compute; reflexivity.
    + repeat constructor; by vm_compute.
Defined.

(** Boot: from the empty array, init_local with disjoint and complete role lists, 256 slots per
    thread and a successful allocation is ready, with every lane empty in its private block; when
    the allocation fails it reports failure and holds no slots. *)
Theorem init_local_ready {T} (MaxProducers sizeofT : Z) (alloc : Z -> bool) (zero : T) n spt io ex :
  0 < n <= MaxProducers -> 256 <= spt -> n * spt <= UINT32_MAX -> 64 <= 256 * sizeofT ->
  io <> [] -> ex <> [] -> NoDup (io ++ ex) -> Forall (fun p => 0 <= p < n) (io ++ ex) ->
  Z.of_nat (length (io ++ ex)) = n ->
  let '(a', ok) := init_local MaxProducers sizeofT alloc zero (array_new MaxProducers) n spt io ex in
  ok = alloc (n * spt) /\ (if ok then partitioned a' n else slots a' = None).
Proof.
  intros Hn Hspt Hmax Hsz Hio Hex Hnd Hr Hlen. unfold init_local, UINT32_MAX in *. cbn [slots array_new].
  rewrite (proj2 (Z.eqb_neq n 0)), (proj2 (Z.ltb_ge MaxProducers n)), (proj2 (Z.ltb_ge spt kInternalProducerSlots))
    by (unfold kInternalProducerSlots; lia). cbn [orb].
  rewrite (proj2 (Z.ltb_ge 4294967295 (n * spt))) by lia.
  unfold allocate_slots. destruct (alloc (n * spt)); [|done].
  set (b := mkArr _ _ _ _).
  assert (Hb : allocated MaxProducers b).
  { unfold allocated, b. cbn. split; [eexists; split; [done|]; rewrite length_replicate; lia|].
    rewrite length_replicate. repeat split; try lia. }
  assert (Hnn : Forall (Z.le 0) io /\ Forall (Z.le 0) ex).
  { apply Forall_app. eapply Forall_impl; [exact Hr|]. intros x [? _]. done. }
  assert (Hq : all_quiesced b = true).
  { unfold all_quiesced, active_lanes, b. cbn. rewrite take_replicate.
    generalize (Z.to_nat n `min` Z.to_nat MaxProducers)%nat as k. intros k. induction k; [done|]. cbn. done. }
  pose proof (remask_accepts MaxProducers sizeofT b io ex Hb Hio Hex Hnd Hr Hlen Hq) as Hok. cbn in Hok.
  specialize (Hok ltac:(nia) Hsz).
  pose proof (remask_result MaxProducers sizeofT b io ex Hb (proj1 Hnn) (proj2 Hnn)) as H.
  destruct (remask_quiesced MaxProducers sizeofT b io ex) as [b' ok]. cbn in Hok. subst ok.
  destruct H as (is_io & cap & Hp & Hc & Hl & _ & Hinv). split; [done|]. cbn in Hl. rewrite <- Hl.
  by apply (fresh_views_partitioned b' is_io cap).
Qed.
Lemma init_local_ready_witness :
  let '(a', ok) := init_local 4 32 (fun _ => true) 0 (array_new 4) 2 256 [0] [1] in
  ok = true /\ (if ok then partitioned a' 2 else slots a' = None).
Proof.
  apply (init_local_ready 4 32 (fun _ => true) 0 2 256 [0] [1]); try done; try by vm_compute.
  - apply (bool_decide_eq_true_1 (NoDup _)); vm_compute; reflexivity.
  - repeat constructor; by vm_compute.
Defined.

(** C39: Lanes are independent FIFOs: a push of a run of values into a lane returns; it is accepted
    exactly when the values fit beside those held and the credits reserved, appends them then, and
    holds the lane as it was otherwise; a pop takes the lane's oldest value; either way the other
    lanes hold what they held, and the invariant (disjoint blocks, frontiers consistent across
    32-bit wrap) is kept. *)
Theorem lane_fifo_isolated {T} (a : MaskedArray T) vs i v values (prepare : T -> T) :
  array_inv a vs -> vs !! i = Some v -> values <> [] -> Z.of_nat (length values) < 2147483648 ->
  (exists a' ok v', push_batch_prepared a (Z.of_nat i) values prepare = Some (a', ok) /\
    array_inv a' (<[i := v']> vs) /\
    ok = bool_decide (Z.of_nat (length (v_vals v) + length values) + v_res v <= v_cap v) /\
    v_vals v' = if ok then v_vals v ++ (prepare <$> values) else v_vals v) /\
  (exists a' v', pop a (Z.of_nat i) = Some (a', hd_error (v_vals v)) /\
    array_inv a' (<[i := v']> vs) /\ v_vals v' = tl (v_vals v)).
Proof.
  intros Ha Hi Hne Hn. split.
  - destruct (push_batch_prepared_spec a vs i v values prepare Ha Hi Hne Hn) as (a' & ok & v' & ? & ? & ? & ? & _).
    rewrite length_fmap in *. eauto 10.
  - destruct (pop_unretired_spec a vs i v Ha Hi) as (a' & v' & ? & ? & ? & _). eauto.
Qed.

Lemma lane_fifo_isolated_witness :
  (exists a' ok v', push_batch_prepared sample_array (Z.of_nat 1) [7; 8] (Z.add 1) = Some (a', ok) /\
    array_inv a' (<[1%nat := v']> (fresh_views [true; false] 256 0)) /\
    ok = bool_decide (Z.of_nat (0 + 2) + 0 <= 256) /\
    v_vals v' = if ok then [] ++ (Z.add 1 <$> [7; 8]) else []) /\
  (exists a' v', pop sample_array (Z.of_nat 1) = Some (a', hd_error []) /\
    array_inv a' (<[1%nat := v']> (fresh_views [true; false] 256 0)) /\ v_vals v' = tl []).
Proof.
  apply (lane_fifo_isolated sample_array (fresh_views [true; false] 256 0) 1
           (mkView 256 256 0 0 0 0 0 0 []) [7; 8] (Z.add 1)); try done. apply sample_inv.
Defined.

(** C40: Reserved credits are honoured: reserve succeeds exactly when the lane has that much room
    beyond what it holds and has already promised; once a credit is held, push_reserved neither
    aborts nor overwrites an unread value, appends its value and consumes one credit; and
    cancelling gives credits back, all without touching other lanes. *)
Theorem reservations_honoured {T} (a : MaskedArray T) vs i v count (value : T) prepare :
  array_inv a vs -> vs !! i = Some v -> 0 < count < 2147483648 ->
  (exists a' ok v', reserve a (Z.of_nat i) count = Some (a', ok) /\ array_inv a' (<[i := v']> vs) /\
    ok = bool_decide (Z.of_nat (length (v_vals v)) + v_res v + count <= v_cap v) /\
    v_vals v' = v_vals v /\ v_res v' = if ok then v_res v + count else v_res v) /\
  (0 < v_res v -> exists a' v', push_reserved_prepared a (Z.of_nat i) value prepare = Some a' /\
    array_inv a' (<[i := v']> vs) /\ v_vals v' = v_vals v ++ [prepare value] /\ v_res v' = v_res v - 1) /\
  (count <= v_res v -> exists a' v', cancel_reservation a (Z.of_nat i) count = Some a' /\
    array_inv a' (<[i := v']> vs) /\ v_vals v' = v_vals v /\ v_res v' = v_res v - count).
Proof.
  intros Ha Hi Hn. split; [by apply reserve_spec|]. split.
  - intros Hr. destruct (push_reserved_spec a vs i v value prepare Ha Hi Hr) as (a' & ? & ?). eauto 10.
  - intros Hr. destruct (cancel_spec a vs i v count Ha Hi ltac:(lia)) as (a' & ? & ?). eauto 10.
Qed.

Lemma reservations_honoured_witness :
  exists a' ok v', reserve sample_array (Z.of_nat 0) 3 = Some (a', ok) /\
    array_inv a' (<[0%nat := v']> (fresh_views [true; false] 256 0)) /\
    ok = bool_decide (Z.of_nat 0 + 0 + 3 <= 256) /\ v_vals v' = [] /\ v_res v' = if ok then 0 + 3 else 0.
Proof.
  apply (reservations_honoured sample_array (fresh_views [true; false] 256 0) 0
           (mkView 0 256 0 0 0 0 0 0 []) 3 5 (fun x => x)); try done. apply sample_inv.
Defined.

(** The fused private entry points, with their compile-time block and no credit test, do exactly
    what the general ones do on a lane of the fused layout that holds no reservation. *)
Theorem fused_private_agrees {T} (S : Z) (a : MaskedArray T) vs i v values prepare :
  array_inv a vs -> vs !! i = Some v -> v_cap v = S -> v_base v = Z.of_nat i * S -> v_res v = 0 ->
  push_fused_private_batch_prepared S a (Z.of_nat i) values prepare =
    push_batch_prepared a (Z.of_nat i) values prepare /\
  pop_fused_private_unretired S a (Z.of_nat i) = pop a (Z.of_nat i) /\
  fused_private_free_slots S a (Z.of_nat i) = producer_free_slots a (Z.of_nat i).
Proof.
  intros Ha Hi Hc Hb Hr. destruct (array_lane a vs i v Ha Hi) as (s & l & Es & El & Hw & _).
  destruct Hw as (_ & _ & _ & _ & _ & E6 & E7 & E8 & E9 & _ & _ & E12).
  rewrite Hr, Z.sub_0_r, Hc in E12. rewrite Hc in *. rewrite Hb in *. split; [|split].
  - unfold push_fused_private_batch_prepared, push_batch_prepared. rewrite El. cbn [mbind option_bind].
    rewrite E12. destruct (_ =? 0); [done|].
    destruct (decide_push a l S _) as [p ok] eqn:E. destruct (decide_push_block _ _ _ _ _ _ E) as [-> ->].
    by rewrite E7, E9.
  - unfold pop_fused_private_unretired, pop, pop_unretired. rewrite El. cbn [mbind option_bind].
    by rewrite E6, E8.
  - unfold fused_private_free_slots, producer_free_slots. rewrite El. cbn [mbind option_bind]. by rewrite E12.
Qed.
Lemma fused_private_agrees_witness :
  push_fused_private_batch_prepared 256 sample_array (Z.of_nat 1) [4] (fun x => x) =
    push_batch_prepared sample_array (Z.of_nat 1) [4] (fun x => x) /\
  pop_fused_private_unretired 256 sample_array (Z.of_nat 1) = pop sample_array (Z.of_nat 1) /\
  fused_private_free_slots 256 sample_array (Z.of_nat 1) = producer_free_slots sample_array (Z.of_nat 1).
Proof.
  apply (fused_private_agrees 256 sample_array (fresh_views [true; false] 256 0) 1
           (mkView 256 256 0 0 0 0 0 0 [])); try done. apply sample_inv.
Defined.
