(* ===== verification/Rob.v ===== *)
(** rob.h, the window: the reorder buffer of one connection.

    [dispatch_] and [flush_] are 64-bit counters; the operation with id [n] lives in slot
    [n & (Capacity - 1)], and slots live in chunks of eight that the parser materialises on first
    touch.  Dereferencing a chunk that was never materialised is [None].

    The parser claims a slot ([acquire]), fills it and [publish]es it; executors store [Done] into
    individual slots in any order; [drain] retires the longest completed prefix.  The abstract
    object is the list of in-flight operations, oldest first.  The read-local words of the same
    class are in ReadLocal.v. *)
From S2P Require Import Prelude Ring Slice Op.

Definition kRobWindow : Z := 64.
Definition kChunkOps : Z := 8.

Abbreviation Chunks := (list (option (list Op))).
Record Rob := mkRob { chunks : Chunks; dispatch_ : Z; flush_ : Z }.

(** Capacities the class accepts: a power of two, a multiple of the chunk, at most 64. *)
Definition rob_capacity (cap : Z) : Prop := exists k, 3 <= k <= 6 /\ cap = 2 ^ k.

(** * Slots *)
(** [slot(idx, may_grow)]: the chunk array after a possible materialisation, and the context the
    returned pointer designates. *)
Definition slot_chunks (cs : Chunks) (idx : Z) (may_grow : bool) : Chunks :=
  match cs !! Z.to_nat (idx / kChunkOps) with
  | Some None =>
      if may_grow
      then <[Z.to_nat (idx / kChunkOps) := Some (replicate (Z.to_nat kChunkOps) op_new)]> cs
      else cs
  | _ => cs
  end.
Definition slot_load (cs : Chunks) (idx : Z) : option Op :=
  ch ← cs !! Z.to_nat (idx / kChunkOps); ops ← ch; ops !! Z.to_nat (idx mod kChunkOps).
Definition slot_store (cs : Chunks) (idx : Z) (o : Op) : option Chunks :=
  ch ← cs !! Z.to_nat (idx / kChunkOps); ops ← ch;
  _ ← ops !! Z.to_nat (idx mod kChunkOps);
  Some (<[Z.to_nat (idx / kChunkOps) := Some (<[Z.to_nat (idx mod kChunkOps) := o]> ops)]> cs).
Definition slot (cs : Chunks) (idx : Z) (may_grow : bool) : option (Chunks * Op) :=
  let cs := slot_chunks cs idx may_grow in
  o ← slot_load cs idx; Some (cs, o).

Section Window.
Context (Capacity : Z).
Definition rob_kMask : Z := Capacity - 1.
Definition kChunks : Z := Capacity / kChunkOps.
Definition rob_new : Rob := mkRob (replicate (Z.to_nat kChunks) None) 0 0.

Definition dispatch_id (r : Rob) : Z := dispatch_ r.
Definition flush_id (r : Rob) : Z := flush_ r.
Definition in_flight (r : Rob) : Z := u32 (u64 (dispatch_id r - flush_id r)).
Definition full (r : Rob) : bool := Capacity <=? in_flight r.
Definition rob_quiesced (r : Rob) : bool := dispatch_id r =? flush_id r.
Definition id_slot (id : Z) : Z := Z.land (u32 id) rob_kMask.

(** [at(id)], and a store through the reference it returns. *)
Definition at_ (r : Rob) (id : Z) : option Op := snd <$> slot (chunks r) (id_slot id) false.
Definition at_store (r : Rob) (id : Z) (o : Op) : option Rob :=
  cs ← slot_store (chunks r) (id_slot id) o; Some (mkRob cs (dispatch_ r) (flush_ r)).

(** [reply_code_ok_ = 1], only in the coded instantiation. *)
Definition arm_codes (o : Op) : Op :=
  let p := op_reply o in
  mkOp (op_argv o) (op_shard o) (op_cut o) (op_hash o) (rbuf_off o)
       (mkReply (reply_code p) (reply_ival p) true (reply p) (direct p) (direct_cap p) (direct_len p))
       (op_zc o) (op_state o).

Definition claimed (Codes : bool) (route_flags : Z) (o : Op) : Op :=
  let o := op_reset Codes route_flags o in if Codes then arm_codes o else o.

(** [acquire<Codes>(route_flags)]: [Some (r, None)] is the null pointer of a full window. *)
Definition acquire (Codes : bool) (route_flags : Z) (r : Rob) : option (Rob * option Op) :=
  if full r then Some (r, None)
  else
    '(cs, o) ← slot (chunks r) (id_slot (dispatch_id r)) true;
    let o := claimed Codes route_flags o in
    cs ← slot_store cs (id_slot (dispatch_id r)) o;
    Some (mkRob cs (dispatch_ r) (flush_ r), Some o).

Definition publish (r : Rob) : Rob := mkRob (chunks r) (u64 (dispatch_id r + 1)) (flush_ r).
Definition unpublish (r : Rob) : Rob := mkRob (chunks r) (u64 (dispatch_id r - 1)) (flush_ r).

(** What one round of [drain] leaves in the slot after the sink saw the operation. *)
Definition recycle (o : Op) : Op :=
  op_set_state (if op_oversized o then op_shrink o else o) Free.

(** [drain(sink)].  The sink is a state transformer that may also write through [Op&]; [None]
    from it stands for a fault of its own. *)
Section Drain.
Context {St : Type} (sink : St -> Op -> option (St * Op)).

Fixpoint drain_loop (fuel : nat) (cs : Chunks) (d f n : Z) (st : St)
  : option (Chunks * Z * Z * St) :=
  if f =? d then Some (cs, f, n, st)
  else match fuel with
  | O => None
  | S fuel =>
      '(cs, o) ← slot cs (id_slot f) false;
      if bool_decide (op_state o = Done) then
        '(st, o) ← sink st o;
        cs ← slot_store cs (id_slot f) (recycle o);
        drain_loop fuel cs d (u64 (f + 1)) (u32 (n + 1)) st
      else Some (cs, f, n, st)
  end.

Definition drain (r : Rob) (st : St) : option (Rob * Z * St) :=
  let d := dispatch_ r in
  let f := flush_ r in
  '(cs, f, n, st) ← drain_loop (Z.to_nat (u64 (d - f))) (chunks r) d f 0 st;
  Some (mkRob cs (dispatch_ r) (if negb (n =? 0) then f else flush_ r), n, st).
End Drain.
End Window.

(** * Representation *)
Section Inv.
Context (Capacity : Z).

Definition chunks_ok (cs : Chunks) : Prop :=
  length cs = Z.to_nat (kChunks Capacity) /\
  forall i ops, cs !! i = Some (Some ops) -> length ops = Z.to_nat kChunkOps.

(** The operations with ids [F], [F + 1], ... are those of [w]. *)
Definition window (cs : Chunks) (F : Z) (w : list Op) : Prop :=
  forall i o, w !! i = Some o -> slot_load cs ((F + Z.of_nat i) mod Capacity) = Some o.

Definition rob_inv (r : Rob) (F : Z) (w : list Op) : Prop :=
  0 <= F /\ dispatch_ r = u64 (F + Z.of_nat (length w)) /\ flush_ r = u64 F /\
  Z.of_nat (length w) <= Capacity /\ chunks_ok (chunks r) /\ window (chunks r) F w.
End Inv.

(** * Lemmas on slots *)
Lemma rob_capacity_bounds cap : rob_capacity cap -> 8 <= cap <= 64 /\ cap = kChunkOps * (cap / kChunkOps).
Proof.
  intros (k & Hk & ->). unfold kChunkOps. replace k with (k - 3 + 3) by lia.
  rewrite Z.pow_add_r by lia. change (2 ^ 3) with 8. rewrite Z.div_mul by lia.
  pose proof (Z.pow_le_mono_r 2 0 (k - 3)). pose proof (Z.pow_le_mono_r 2 (k - 3) 3). lia.
Qed.

Lemma id_slot_spec cap n : rob_capacity cap -> id_slot cap (u64 n) = n mod cap.
Proof.
  intros (k & Hk & ->). unfold id_slot, rob_kMask.
  by rewrite land_ones_mod, u32_mod_pow2, u64_mod_pow2 by lia.
Qed.

Lemma slot_load_store_eq cs i o cs' : slot_store cs i o = Some cs' -> slot_load cs' i = Some o.
Proof.
  unfold slot_store, slot_load. intros H. simplify_option_eq.
  rewrite list_lookup_insert_eq by (by eapply lookup_lt_Some). cbn.
  apply list_lookup_insert_eq. by eapply lookup_lt_Some.
Qed.

Lemma slot_load_store_ne cs i j o cs' :
  0 <= i -> 0 <= j -> i <> j -> slot_store cs i o = Some cs' -> slot_load cs' j = slot_load cs j.
Proof.
  unfold slot_store, slot_load, kChunkOps. intros Hi Hj Hn H. simplify_option_eq.
  destruct (decide (i / 8 = j / 8)) as [E|E].
  - rewrite E in *. rewrite list_lookup_insert_eq by (by eapply lookup_lt_Some).
    simplify_option_eq. apply list_lookup_insert_ne. Z.div_mod_to_equations; lia.
  - rewrite list_lookup_insert_ne; [done|]. Z.div_mod_to_equations; lia.
Qed.

Lemma slot_store_total cs i o o' :
  slot_load cs i = Some o' -> exists cs', slot_store cs i o = Some cs'.
Proof. unfold slot_store, slot_load. intros H. simplify_option_eq. by eexists. Qed.

Lemma slot_store_ok cap cs i o cs' : slot_store cs i o = Some cs' -> chunks_ok cap cs -> chunks_ok cap cs'.
Proof.
  unfold slot_store, chunks_ok. intros H [Hl Hc]. simplify_option_eq.
  rewrite length_insert. split; [done|]. intros j ops Hj.
  apply list_lookup_insert_Some in Hj as [(<- & Hj & _)|[_ Hj]]; [|by eapply Hc].
  injection Hj as <-. rewrite length_insert. by eapply Hc.
Qed.

Lemma slot_get cs i o : slot_load cs i = Some o -> slot cs i false = Some (cs, o).
Proof.
  intros H. unfold slot, slot_chunks.
  destruct (cs !! Z.to_nat (i / kChunkOps)) as [[ch|]|]; by rewrite H.
Qed.

(** Claiming a slot succeeds at every index and keeps what was materialised. *)
Lemma slot_grow cap cs i :
  rob_capacity cap -> chunks_ok cap cs -> 0 <= i < cap ->
  exists cs' o, slot cs i true = Some (cs', o) /\ chunks_ok cap cs' /\ slot_load cs' i = Some o /\
    forall j x, slot_load cs j = Some x -> slot_load cs' j = Some x.
Proof.
  intros Hc [Hl Hk] Hi. pose proof (rob_capacity_bounds cap Hc) as [Hb He].
  unfold slot, slot_chunks, slot_load, kChunks, kChunkOps in *.
  assert (Z.to_nat (i / 8) < length cs)%nat as Hlt by (rewrite Hl; Z.div_mod_to_equations; lia).
  pose proof (Z.mod_pos_bound i 8 ltac:(lia)) as Hm.
  destruct (lookup_lt_is_Some_2 cs _ Hlt) as [[ops|] E]; rewrite E; cbn [mbind option_bind].
  - pose proof (Hk _ _ E) as Hlen. destruct (lookup_lt_is_Some_2 ops (Z.to_nat (i mod 8))) as [o Ho]; [lia|].
    rewrite E; cbn. rewrite Ho; cbn. exists cs, o. rewrite E; cbn. done.
  - rewrite list_lookup_insert_eq by done. cbn [mbind option_bind].
    rewrite lookup_replicate_2 by lia. cbn [mbind option_bind].
    eexists _, op_new. split; [reflexivity|].
    rewrite list_lookup_insert_eq by done. cbn [mbind option_bind]. rewrite lookup_replicate_2 by lia.
    repeat split; rewrite ?length_insert; [done| |].
    + intros j ops Hj. apply list_lookup_insert_Some in Hj as [(_ & Hj & _)|[_ Hj]]; [|by eapply Hk].
      by injection Hj as <-.
    + intros j x Hj. destruct (decide (Z.to_nat (i / 8) = Z.to_nat (j / 8))) as [E'|E'].
      * rewrite <- E', E in Hj. done.
      * by rewrite list_lookup_insert_ne.
Qed.

(** * Lemmas on the window *)
Section WindowLemmas.
Context (Capacity : Z) (Hcap : rob_capacity Capacity).
Implicit Types (r : Rob) (cs : Chunks) (w : list Op).

Lemma mod_slot_bounds n : 0 <= n mod Capacity < Capacity.
Proof. apply Z.mod_pos_bound. pose proof (rob_capacity_bounds _ Hcap). lia. Qed.

(** Ids less than a window apart have different slots. *)
Lemma slots_differ a b : a < b < a + Capacity -> a mod Capacity <> b mod Capacity.
Proof.
  intros H E. pose proof (rob_capacity_bounds _ Hcap).
  enough (a = b) by lia. apply (slot_at_inj 0 Capacity); try lia. unfold slot_at. by rewrite E.
Qed.

Lemma store_load_ne cs a b o cs' :
  slot_store cs (a mod Capacity) o = Some cs' -> a <> b -> - Capacity < a - b < Capacity ->
  slot_load cs' (b mod Capacity) = slot_load cs (b mod Capacity).
Proof.
  intros Hs Hn Hd. pose proof (mod_slot_bounds a). pose proof (mod_slot_bounds b).
  eapply slot_load_store_ne; [| | |exact Hs]; [lia|lia|].
  destruct (decide (a < b)); [apply slots_differ; lia|]. apply not_eq_sym, slots_differ; lia.
Qed.

Lemma window_cons cs F o w :
  window Capacity cs F (o :: w) -> slot_load cs (F mod Capacity) = Some o /\ window Capacity cs (F + 1) w.
Proof.
  intros H. split.
  - specialize (H 0%nat o eq_refl). by rewrite Z.add_0_r in H.
  - intros i x Hx. specialize (H (S i) x Hx).
    by replace (F + 1 + Z.of_nat i) with (F + Z.of_nat (S i)) by lia.
Qed.

Lemma window_app cs F w1 w2 :
  window Capacity cs F (w1 ++ w2) <->
  window Capacity cs F w1 /\ window Capacity cs (F + Z.of_nat (length w1)) w2.
Proof.
  split.
  - intros H. split; intros i o Ho; [by apply H, lookup_app_l_Some|].
    rewrite <- Z.add_assoc, <- Nat2Z.inj_add. apply H. by rewrite lookup_app_r, Nat.add_comm, Nat.add_sub by lia.
  - intros [H1 H2] i o Ho. apply lookup_app_Some in Ho as [Ho|[Hi Ho]]; [by apply H1|].
    specialize (H2 _ _ Ho). by replace (F + Z.of_nat i) with
      (F + Z.of_nat (length w1) + Z.of_nat (i - length w1)) by lia.
Qed.

(** A store to a slot outside the window, and one to a member of it. *)
Lemma window_store_out cs F w n o cs' :
  slot_store cs (n mod Capacity) o = Some cs' ->
  n < F -> F + Z.of_nat (length w) <= n + Capacity ->
  window Capacity cs F w -> window Capacity cs' F w.
Proof.
  intros Hs Hn Hl H i x Hx. pose proof (lookup_lt_Some _ _ _ Hx).
  rewrite (store_load_ne _ _ _ _ _ Hs) by lia. by apply H.
Qed.

Lemma window_store_in cs F w i o cs' :
  slot_store cs ((F + Z.of_nat i) mod Capacity) o = Some cs' ->
  (i < length w)%nat -> Z.of_nat (length w) <= Capacity ->
  window Capacity cs F w -> window Capacity cs' F (<[i := o]> w).
Proof.
  intros Hs Hi Hl H j x Hx. apply list_lookup_insert_Some in Hx as [(<- & <- & _)|[Hij Hx]].
  - by eapply slot_load_store_eq.
  - pose proof (lookup_lt_Some _ _ _ Hx). rewrite (store_load_ne _ _ _ _ _ Hs) by lia. by apply H.
Qed.

(** ** Operations on the represented window *)
Lemma in_flight_spec r F w : rob_inv Capacity r F w -> in_flight r = Z.of_nat (length w).
Proof.
  intros (HF & Hd & Hf & Hl & _). pose proof (rob_capacity_bounds _ Hcap).
  unfold in_flight, dispatch_id, flush_id. rewrite Hd, Hf, u64_sub_u64.
  replace (F + Z.of_nat (length w) - F) with (Z.of_nat (length w)) by lia.
  rewrite u64_small, u32_small by lia. done.
Qed.

Lemma quiesced_spec r F w : rob_inv Capacity r F w -> rob_quiesced r = bool_decide (w = []).
Proof.
  intros (HF & Hd & Hf & Hl & _). pose proof (rob_capacity_bounds _ Hcap).
  unfold rob_quiesced, dispatch_id, flush_id. rewrite Hd, Hf. unfold u64.
  destruct w as [|o w]; [by rewrite Z.add_0_r, Z.eqb_refl|].
  rewrite bool_decide_eq_false_2 by done. apply Z.eqb_neq. cbn [length] in *.
  Z.div_mod_to_equations; lia.
Qed.

Lemma at_spec r F w i o :
  rob_inv Capacity r F w -> w !! i = Some o -> at_ Capacity r (u64 (F + Z.of_nat i)) = Some o.
Proof.
  intros (_ & _ & _ & _ & _ & Hw) Hi. unfold at_. rewrite id_slot_spec by done.
  by rewrite (slot_get _ _ _ (Hw _ _ Hi)).
Qed.

Lemma at_store_spec r F w i o :
  rob_inv Capacity r F w -> (i < length w)%nat ->
  exists r', at_store Capacity r (u64 (F + Z.of_nat i)) o = Some r' /\ rob_inv Capacity r' F (<[i := o]> w).
Proof.
  intros (HF & Hd & Hf & Hl & Hk & Hw) Hi. unfold at_store. rewrite id_slot_spec by done.
  destruct (lookup_lt_is_Some_2 w i Hi) as [o' Ho'].
  destruct (slot_store_total _ _ o _ (Hw _ _ Ho')) as [cs' Hs]. rewrite Hs. eexists; split; [done|].
  unfold rob_inv; cbn. rewrite length_insert.
  eauto 10 using slot_store_ok, window_store_in.
Qed.

Lemma full_spec r F w :
  rob_inv Capacity r F w -> full Capacity r = bool_decide (Z.of_nat (length w) = Capacity).
Proof.
  intros H. unfold full. rewrite (in_flight_spec r F w H). destruct H as (_ & _ & _ & Hl & _).
  case_bool_decide; [apply Z.leb_le|apply Z.leb_gt]; lia.
Qed.

(** The claimed slot is the one behind the window, so no operation in flight is touched. *)
Lemma acquire_spec Codes fl r F w :
  rob_inv Capacity r F w -> Z.of_nat (length w) < Capacity ->
  exists r' o0,
    acquire Capacity Codes fl r = Some (r', Some (claimed Codes fl o0)) /\
    rob_inv Capacity r' F w /\ dispatch_ r' = dispatch_ r /\
    slot_load (chunks r') ((F + Z.of_nat (length w)) mod Capacity) = Some (claimed Codes fl o0).
Proof.
  intros H Hl. pose proof H as (HF & Hd & Hf & _ & Hk & Hw). unfold acquire.
  rewrite (full_spec r F w H), bool_decide_eq_false_2 by lia.
  unfold dispatch_id. rewrite Hd, id_slot_spec by done.
  destruct (slot_grow Capacity (chunks r) ((F + Z.of_nat (length w)) mod Capacity) Hcap Hk
              (mod_slot_bounds _)) as (cs & o0 & -> & Hk' & Hload & Hkeep). cbn [mbind option_bind].
  destruct (slot_store_total _ _ (claimed Codes fl o0) _ Hload) as [cs' Hs].
  rewrite Hs. cbn. eexists _, o0. split; [done|].
  split; [|split; [done|by eapply slot_load_store_eq]].
  unfold rob_inv; cbn. split_and!; try done; [lia|by eapply slot_store_ok|].
  intros i x Hx. pose proof (lookup_lt_Some _ _ _ Hx).
  rewrite (store_load_ne _ _ _ _ _ Hs) by lia. by apply Hkeep, Hw.
Qed.

(** Filling the claimed slot and publishing it appends to the window. *)
Lemma publish_spec r F w o o' :
  rob_inv Capacity r F w -> Z.of_nat (length w) < Capacity ->
  slot_load (chunks r) ((F + Z.of_nat (length w)) mod Capacity) = Some o ->
  exists r', at_store Capacity r (dispatch_id r) o' = Some r' /\ rob_inv Capacity (publish r') F (w ++ [o']).
Proof.
  intros (HF & Hd & Hf & _ & Hk & Hw) Hl Hload. unfold at_store, dispatch_id.
  rewrite Hd, id_slot_spec by done. destruct (slot_store_total _ _ o' _ Hload) as [cs Hs]. rewrite Hs.
  eexists; split; [done|]. unfold rob_inv, publish, dispatch_id; cbn.
  rewrite length_app; cbn [length]. rewrite u64_add_u64. split_and!; try done.
  - f_equal. lia.
  - lia.
  - by eapply slot_store_ok.
  - apply window_app. split.
    + intros i x Hx. pose proof (lookup_lt_Some _ _ _ Hx).
      rewrite (store_load_ne _ _ _ _ _ Hs) by lia. by apply Hw.
    + intros [|i] x Hx; [|done]. injection Hx as <-. rewrite Z.add_0_r. by eapply slot_load_store_eq.
Qed.

Lemma unpublish_spec r F w o : rob_inv Capacity r F (w ++ [o]) -> rob_inv Capacity (unpublish r) F w.
Proof.
  unfold rob_inv, unpublish, dispatch_id; cbn. rewrite length_app; cbn [length].
  intros (HF & -> & Hf & Hl & Hk & [Hw _]%window_app). split_and!; try done; [|lia].
  replace (u64 (F + Z.of_nat (length w + 1)) - 1) with
    (u64 (F + Z.of_nat (length w + 1)) + (-1)) by lia.
  rewrite u64_add_u64. f_equal. lia.
Qed.

(** ** Retirement *)
Section DrainSpec.
Context {St : Type} (sink : St -> Op -> option (St * Op)).

(** The sink applied to the operations of a list in turn, with what it leaves of each. *)
Fixpoint run_sink (st : St) (l : list Op) : option (St * list Op) :=
  match l with
  | [] => Some (st, [])
  | o :: l => '(st, o') ← sink st o; '(st, l') ← run_sink st l; Some (st, o' :: l')
  end.

(** The longest completed prefix. *)
Fixpoint done_prefix (w : list Op) : list Op :=
  match w with
  | [] => []
  | o :: w => if bool_decide (op_state o = Done) then o :: done_prefix w else []
  end.

Lemma done_prefix_drop w : w = done_prefix w ++ drop (length (done_prefix w)) w.
Proof. induction w as [|o w IH]; cbn; [done|]. case_bool_decide; cbn; [by f_equal|done]. Qed.

Lemma run_sink_length l st st' l' : run_sink st l = Some (st', l') -> length l' = length l.
Proof.
  revert st l'. induction l as [|o l IH]; intros st l' H; cbn in H; [by simplify_eq|].
  destruct (sink st o) as [[st1 o1]|]; [|done]. cbn in H.
  destruct (run_sink st1 l) as [[st2 l2]|] eqn:E; [|done]. cbn in H. simplify_eq. cbn. f_equal. by eapply IH.
Qed.

(** One pass of the loop, from ids [F] on, with [freed] slots already recycled behind it. *)
Lemma drain_loop_spec w fuel cs F n st st' l' :
  (length w <= fuel)%nat -> Z.of_nat (length w) <= Capacity ->
  0 <= n -> n + Z.of_nat (length w) <= 64 ->
  chunks_ok Capacity cs -> window Capacity cs F w ->
  run_sink st (done_prefix w) = Some (st', l') ->
  exists cs', drain_loop Capacity sink fuel cs (u64 (F + Z.of_nat (length w))) (u64 F) n st
      = Some (cs', u64 (F + Z.of_nat (length l')), n + Z.of_nat (length l'), st') /\
    chunks_ok Capacity cs' /\
    window Capacity cs' F ((recycle <$> l') ++ drop (length l') w) /\
    (forall k x, F - Capacity + Z.of_nat (length w) <= k < F ->
       slot_load cs (k mod Capacity) = Some x -> slot_load cs' (k mod Capacity) = Some x).
Proof.
  revert fuel cs F n st st' l'. induction w as [|o w IH]; intros fuel cs F n st st' l' Hf Hl Hn Hn' Hk Hw Hr.
  { cbn in Hr. simplify_eq. exists cs. cbn. rewrite !Z.add_0_r.
    destruct fuel; cbn; rewrite Z.eqb_refl; done. }
  destruct fuel as [|fuel]; [cbn in Hf; lia|]. cbn [length] in *.
  pose proof (rob_capacity_bounds _ Hcap).
  assert ((u64 F =? u64 (F + Z.of_nat (S (length w)))) = false) as E.
  { apply Z.eqb_neq. unfold u64. Z.div_mod_to_equations; lia. }
  cbn [drain_loop]. rewrite E, id_slot_spec by done.
  destruct (window_cons _ _ _ _ Hw) as [Ho Hw']. rewrite (slot_get _ _ _ Ho). cbn [mbind option_bind].
  cbn [done_prefix] in Hr. case_bool_decide as Hdone.
  2:{ cbn in Hr. simplify_eq. exists cs. cbn. by rewrite !Z.add_0_r. }
  cbn [run_sink] in Hr. destruct (sink st o) as [[st1 o1]|]; [|done]. cbn [mbind option_bind] in *.
  destruct (run_sink st1 (done_prefix w)) as [[st2 l2]|] eqn:Er; [|done]. cbn in Hr. simplify_eq.
  destruct (slot_store_total _ _ (recycle o1) _ Ho) as [cs1 Hs]. rewrite Hs. cbn [mbind option_bind].
  rewrite u64_add_u64, u32_small by lia.
  replace (F + Z.of_nat (S (length w))) with (F + 1 + Z.of_nat (length w)) by lia.
  assert (window Capacity cs1 (F + 1) w) as Hw1 by (eapply window_store_out; [exact Hs|lia|lia|done]).
  destruct (IH fuel cs1 (F + 1) (n + 1) st1 st' l2) as (cs' & -> & Hk' & Hwin & Hback);
    [lia|lia|lia|lia|by eapply slot_store_ok|done|done|].
  exists cs'. cbn [length fmap list_fmap app drop]. split.
  { by replace (F + 1 + Z.of_nat (length l2)) with (F + Z.of_nat (S (length l2))) by lia;
      replace (n + 1 + Z.of_nat (length l2)) with (n + Z.of_nat (S (length l2))) by lia. }
  split; [done|]. split.
  - intros [|i] x Hx; cbn in Hx.
    + injection Hx as <-. rewrite Z.add_0_r. apply Hback; [lia|]. by eapply slot_load_store_eq.
    + replace (F + Z.of_nat (S i)) with (F + 1 + Z.of_nat i) by lia. by apply Hwin.
  - intros k x Hk0 Hx. apply Hback; [lia|]. rewrite (store_load_ne _ _ _ _ _ Hs) by lia. done.
Qed.

(** A whole [drain]: the completed prefix goes through the sink in order, everything else stays. *)
Lemma drain_spec r F w st st' l' :
  rob_inv Capacity r F w -> run_sink st (done_prefix w) = Some (st', l') ->
  exists r', drain Capacity sink r st = Some (r', Z.of_nat (length l'), st') /\
    rob_inv Capacity r' (F + Z.of_nat (length l')) (drop (length l') w) /\
    window Capacity (chunks r') F (recycle <$> l').
Proof.
  intros (HF & Hd & Hf & Hl & Hk & Hw) Hr. pose proof (rob_capacity_bounds _ Hcap).
  unfold drain. rewrite Hd, Hf, u64_sub_u64.
  replace (F + Z.of_nat (length w) - F) with (Z.of_nat (length w)) by lia.
  rewrite (u64_small (Z.of_nat (length w))), Nat2Z.id by lia.
  destruct (drain_loop_spec w (length w) (chunks r) F 0 st st' l') as (cs & -> & Hk' & Hwin & _);
    [lia..|done|done|done|]. cbn [mbind option_bind]. rewrite Z.add_0_l.
  pose proof (run_sink_length _ _ _ _ Hr) as Hlen.
  pose proof (f_equal length (done_prefix_drop w)) as Hlw. rewrite length_app in Hlw.
  eexists. split; [reflexivity|]. apply window_app in Hwin as [Hfree Hrest]. split; [|done].
  unfold rob_inv; cbn [dispatch_ flush_ chunks]. rewrite length_fmap in Hrest. rewrite length_drop.
  split_and!; try done; try lia.
  - apply (f_equal u64). lia.
  - destruct (Z.eqb_spec (Z.of_nat (length l')) 0) as [E|E]; cbn [negb]; [|done].
    by rewrite E, Z.add_0_r.
Qed.
End DrainSpec.
End WindowLemmas.

(** * The connection as an interleaving machine

    The IO thread dispatches and drains; executors hold the ids of the operations queued to them
    and store into those slots at any moment, also between two rounds of a drain.  [published]
    records the argument vectors in request order, [retired] what the reply sink was handed. *)
Inductive IoPc := Idle | Draining (d f n : Z).
Record Conn := mkConn {
  rob : Rob; io_pc : IoPc; tasks : list Z; published : list OpArgs; retired : list Op }.

Section Machine.
Context (Capacity : Z).

Inductive conn_step : Conn -> Conn -> Prop :=
| step_dispatch Codes fl r r1 o o' r2 ts ps rs :
    acquire Capacity Codes fl r = Some (r1, Some o) ->
    at_store Capacity r1 (dispatch_id r1) o' = Some r2 -> op_state o' <> Done ->
    conn_step (mkConn r Idle ts ps rs)
              (mkConn (publish r2) Idle (dispatch_id r1 :: ts) (ps ++ [op_argv o']) rs)
| step_inline Codes fl r r1 o o' r2 ts ps rs :
    acquire Capacity Codes fl r = Some (r1, Some o) ->
    at_store Capacity r1 (dispatch_id r1) o' = Some r2 -> op_state o' = Done ->
    conn_step (mkConn r Idle ts ps rs) (mkConn (publish r2) Idle ts (ps ++ [op_argv o']) rs)
| step_refused Codes fl r r1 o o' r2 ts ps rs :
    acquire Capacity Codes fl r = Some (r1, Some o) ->
    at_store Capacity r1 (dispatch_id r1) o' = Some r2 -> op_state o' <> Done ->
    conn_step (mkConn r Idle ts ps rs) (mkConn (unpublish (publish r2)) Idle ts ps rs)
| step_work r r' pc id o o' ts1 ts2 ps rs :
    at_ Capacity r id = Some o -> op_argv o' = op_argv o -> op_state o' <> Done ->
    at_store Capacity r id o' = Some r' ->
    conn_step (mkConn r pc (ts1 ++ id :: ts2) ps rs) (mkConn r' pc (ts1 ++ id :: ts2) ps rs)
| step_complete r r' pc id o o' ts1 ts2 ps rs :
    at_ Capacity r id = Some o -> op_argv o' = op_argv o -> op_state o' = Done ->
    at_store Capacity r id o' = Some r' ->
    conn_step (mkConn r pc (ts1 ++ id :: ts2) ps rs) (mkConn r' pc (ts1 ++ ts2) ps rs)
| step_drain_begin r ts ps rs :
    conn_step (mkConn r Idle ts ps rs) (mkConn r (Draining (dispatch_ r) (flush_ r) 0) ts ps rs)
| step_drain_one r cs cs' o o' d f n ts ps rs :
    f <> d -> slot (chunks r) (id_slot Capacity f) false = Some (cs, o) -> op_state o = Done ->
    slot_store cs (id_slot Capacity f) (recycle o') = Some cs' ->
    conn_step (mkConn r (Draining d f n) ts ps rs)
              (mkConn (mkRob cs' (dispatch_ r) (flush_ r)) (Draining d (u64 (f + 1)) (u32 (n + 1)))
                      ts ps (rs ++ [o]))
| step_drain_end r d f n ts ps rs :
    f = d \/ (exists cs o, slot (chunks r) (id_slot Capacity f) false = Some (cs, o) /\ op_state o <> Done) ->
    conn_step (mkConn r (Draining d f n) ts ps rs)
              (mkConn (mkRob (chunks r) (dispatch_ r) (if negb (n =? 0) then f else flush_ r))
                      Idle ts ps rs).

Inductive conn_reachable : Conn -> Prop :=
| conn_start : conn_reachable (mkConn (rob_new Capacity) Idle [] [] [])
| conn_next s s' : conn_reachable s -> conn_step s s' -> conn_reachable s'.

(** [F0] is the frontier the store of [flush_] has reached, [F] the one the drain has. *)
Definition pc_ok (pc : IoPc) (F0 F : Z) (w : list Op) : Prop :=
  match pc with
  | Idle => F0 = F
  | Draining d f n => d = u64 (F + Z.of_nat (length w)) /\ f = u64 F /\ n = F - F0
  end.
Definition tasks_ok (ts : list Z) (F : Z) (w : list Op) : Prop :=
  NoDup ts /\
  forall id, id ∈ ts -> exists i o, id = u64 (F + Z.of_nat i) /\ w !! i = Some o /\ op_state o <> Done.

Definition conn_inv (s : Conn) (F0 F : Z) (w : list Op) : Prop :=
  rob_inv Capacity (mkRob (chunks (rob s)) (dispatch_ (rob s)) (u64 F)) F w /\
  flush_ (rob s) = u64 F0 /\ 0 <= F0 <= F /\ F - F0 + Z.of_nat (length w) <= Capacity /\
  pc_ok (io_pc s) F0 F w /\ tasks_ok (tasks s) F w /\
  op_argv <$> (retired s ++ w) = published s /\
  Forall (fun o => op_state o = Done) (retired s).

(** ** The invariant is inductive *)
Context (Hcap : rob_capacity Capacity).

Lemma id_inj F i j : (i <= 64)%nat -> (j <= 64)%nat -> u64 (F + Z.of_nat i) = u64 (F + Z.of_nat j) -> i = j.
Proof. unfold u64. intros. Z.div_mod_to_equations; lia. Qed.

Lemma rob_inv_len r F w : rob_inv Capacity r F w -> (length w <= 64)%nat.
Proof. intros (_ & _ & _ & Hl & _). pose proof (rob_capacity_bounds _ Hcap). lia. Qed.

Lemma dispatched r F w Codes fl r1 o o' r2 :
  rob_inv Capacity r F w -> acquire Capacity Codes fl r = Some (r1, Some o) ->
  at_store Capacity r1 (dispatch_id r1) o' = Some r2 ->
  rob_inv Capacity (publish r2) F (w ++ [o']) /\ dispatch_id r1 = u64 (F + Z.of_nat (length w)) /\
  flush_ r2 = u64 F.
Proof.
  intros H Ha Hs. destruct (decide (Z.of_nat (length w) = Capacity)) as [E|E].
  { unfold acquire in Ha. by rewrite (full_spec _ Hcap r F w H), bool_decide_eq_true_2 in Ha. }
  pose proof H as (_ & Hd & Hf & Hl & _).
  destruct (acquire_spec _ Hcap Codes fl r F w H) as (r1' & o0 & Ha' & H1 & Hd1 & Hload); [lia|].
  rewrite Ha in Ha'. simplify_eq.
  destruct (publish_spec _ Hcap r1' F w _ o' H1 ltac:(lia) Hload) as (r2' & Hs' & H2).
  rewrite Hs in Hs'. simplify_eq. split; [done|]. split; [by unfold dispatch_id; rewrite Hd1|].
  by destruct H2 as (_ & _ & ? & _).
Qed.

Lemma tasks_snoc ts F w o : tasks_ok ts F w -> tasks_ok ts F (w ++ [o]).
Proof.
  intros [Hn H]. split; [done|]. intros id Hid. destruct (H id Hid) as (i & x & E & Hx & Hd).
  exists i, x. eauto using lookup_app_l_Some.
Qed.

Lemma tasks_new ts F w o :
  (length w <= 64)%nat -> tasks_ok ts F w -> op_state o <> Done ->
  tasks_ok (u64 (F + Z.of_nat (length w)) :: ts) F (w ++ [o]).
Proof.
  intros Hl H Ho. destruct (tasks_snoc ts F w o H) as [Hn Hs]. destruct H as [_ H]. split.
  - apply NoDup_cons. split; [|done]. intros Hid. destruct (H _ Hid) as (i & x & E & Hx & _).
    apply lookup_lt_Some in Hx. apply id_inj in E; lia.
  - intros id [->|Hid]%elem_of_cons; [|by apply Hs].
    exists (length w), o. split; [done|]. split; [|done]. by rewrite lookup_app_r, Nat.sub_diag.
Qed.

(** A store by the executor that holds [id]. *)
Lemma tasks_store ts1 ts2 id F w :
  (length w <= 64)%nat -> tasks_ok (ts1 ++ id :: ts2) F w ->
  exists i o, id = u64 (F + Z.of_nat i) /\ w !! i = Some o /\ op_state o <> Done /\
    forall o', (op_state o' <> Done -> tasks_ok (ts1 ++ id :: ts2) F (<[i := o']> w)) /\
               tasks_ok (ts1 ++ ts2) F (<[i := o']> w).
Proof.
  intros Hl [Hn H]. destruct (H id) as (i & o & E & Ho & Hd); [apply elem_of_app; right; left|].
  pose proof (lookup_lt_Some _ _ _ Ho).
  exists i, o. split; [done|]. split; [done|]. split; [done|]. intros o'. split.
  - intros Hd'. split; [done|]. intros id' Hid'. destruct (H id' Hid') as (j & x & E' & Hx & Hd'').
    destruct (decide (i = j)) as [<-|Hij].
    + exists i, o'. by rewrite list_lookup_insert_eq.
    + exists j, x. by rewrite list_lookup_insert_ne.
  - apply NoDup_app in Hn as (Hn1 & Hn12 & [Hid Hn2]%NoDup_cons).
    split; [apply NoDup_app; split_and!; [done| |done]; intros x Hx Hx'; apply (Hn12 x Hx); by right|].
    intros id' Hid'. assert (id' <> id) as Hne.
    { intros ->. apply elem_of_app in Hid' as [Hi|Hi]; [apply (Hn12 id Hi); left|done]. }
    destruct (H id') as (j & x & E' & Hx & Hd'').
    { apply elem_of_app in Hid' as [?|?]; apply elem_of_app; [by left|right; by right]. }
    exists j, x. rewrite list_lookup_insert_ne by congruence. done.
Qed.

Lemma tasks_retire ts F o w : tasks_ok ts F (o :: w) -> op_state o = Done -> tasks_ok ts (F + 1) w.
Proof.
  intros [Hn H] Ho. split; [done|]. intros id Hid. destruct (H id Hid) as ([|i] & x & E & Hx & Hd).
  - by injection Hx as ->.
  - exists i, x. split; [|done]. rewrite E. f_equal. lia.
Qed.

Lemma inv_dispatch Codes fl r r1 o o' r2 ts ps rs F w ts' :
  conn_inv (mkConn r Idle ts ps rs) F F w -> acquire Capacity Codes fl r = Some (r1, Some o) ->
  at_store Capacity r1 (dispatch_id r1) o' = Some r2 ->
  tasks_ok ts' F (w ++ [o']) ->
  conn_inv (mkConn (publish r2) Idle ts' (ps ++ [op_argv o']) rs) F F (w ++ [o']).
Proof.
  intros (Hr & Hf & HF & Hl & _ & Ht & Hps & Hd) Ha Hs Ht'. cbn in *. subst ps. rewrite <- Hf in Hr.
  destruct r as [cs d f]. destruct (dispatched _ F w Codes fl r1 o o' r2 Hr Ha Hs) as (H2 & _ & Hf2).
  unfold conn_inv; cbn. rewrite <- Hf2 at 1. destruct r2 as [cs2 d2 f2].
  split; [exact H2|]. destruct H2 as (_ & _ & _ & Hl2 & _).
  repeat (split; [done || lia|]). split; [|done]. by rewrite app_assoc, (fmap_app _ (rs ++ w)).
Qed.

Lemma inv_refused Codes fl r r1 o o' r2 ts ps rs F w :
  conn_inv (mkConn r Idle ts ps rs) F F w -> acquire Capacity Codes fl r = Some (r1, Some o) ->
  at_store Capacity r1 (dispatch_id r1) o' = Some r2 ->
  conn_inv (mkConn (unpublish (publish r2)) Idle ts ps rs) F F w.
Proof.
  intros (Hr & Hf & HF & Hl & Hp & Ht & Hps & Hd) Ha Hs. cbn in *. rewrite <- Hf in Hr.
  destruct r as [cs d f]. destruct (dispatched _ F w Codes fl r1 o o' r2 Hr Ha Hs) as (H2 & _ & Hf2).
  apply unpublish_spec in H2. unfold conn_inv; cbn. rewrite <- Hf2 at 1.
  destruct r2 as [cs2 d2 f2]. split; [exact H2|]. done.
Qed.

Lemma inv_store r r' pc id o o' ts ps rs F0 F w i ts' :
  conn_inv (mkConn r pc ts ps rs) F0 F w -> at_ Capacity r id = Some o ->
  op_argv o' = op_argv o -> at_store Capacity r id o' = Some r' ->
  id = u64 (F + Z.of_nat i) -> (i < length w)%nat -> tasks_ok ts' F (<[i := o']> w) ->
  conn_inv (mkConn r' pc ts' ps rs) F0 F (<[i := o']> w).
Proof.
  intros (Hr & Hf & HF & Hl & Hp & Ht & Hps & Hd) Hat Harg Hs -> Hi Ht'. cbn in *.
  destruct (lookup_lt_is_Some_2 w i Hi) as [ow How].
  pose proof (at_spec _ Hcap _ _ _ _ _ Hr How) as Hat'. unfold at_ in Hat, Hat'. cbn in Hat'.
  rewrite Hat in Hat'. injection Hat' as <-.
  destruct (at_store_spec _ Hcap _ _ _ i o' Hr Hi) as (r'' & Hs' & Hr'').
  unfold at_store in Hs, Hs'. cbn in Hs'. destruct (slot_store _ _ _); [|done]. cbn in Hs, Hs'. simplify_eq.
  unfold conn_inv; cbn. rewrite length_insert. repeat (split; [done || lia|]).
  split; [destruct pc; cbn in *; rewrite ?length_insert; done|]. split; [done|]. split; [|done].
  rewrite !fmap_app, list_fmap_insert, Harg. f_equal. apply list_insert_id.
  by rewrite list_lookup_fmap, How.
Qed.

Lemma inv_drain_one r cs cs' o o' d f n ts ps rs F0 F w :
  conn_inv (mkConn r (Draining d f n) ts ps rs) F0 F w -> f <> d ->
  slot (chunks r) (id_slot Capacity f) false = Some (cs, o) -> op_state o = Done ->
  slot_store cs (id_slot Capacity f) (recycle o') = Some cs' ->
  exists w', conn_inv (mkConn (mkRob cs' (dispatch_ r) (flush_ r)) (Draining d (u64 (f + 1)) (u32 (n + 1)))
                        ts ps (rs ++ [o])) F0 (F + 1) w'.
Proof.
  intros (Hr & Hf & HF & Hl & (-> & -> & ->) & Ht & Hps & Hd) Hne Hsl Ho Hs. cbn in *.
  pose proof (rob_capacity_bounds _ Hcap).
  destruct w as [|ow w]; [by rewrite Z.add_0_r in Hne|]. cbn [length] in *.
  destruct Hr as (_ & Hdi & _ & Hlw & Hk & Hw). cbn in *.
  destruct (window_cons _ _ _ _ _ Hw) as [Hload Hw']. rewrite id_slot_spec in * by done.
  rewrite (slot_get _ _ _ Hload) in Hsl. simplify_eq.
  exists w. unfold conn_inv, rob_inv; cbn. rewrite u64_add_u64, u32_small by lia.
  split_and!; try done; try lia.
  - rewrite Hdi. f_equal. lia.
  - by eapply slot_store_ok.
  - eapply window_store_out; [done|exact Hs|lia|lia|done].
  - apply (f_equal u64). lia.
  - by eapply tasks_retire.
  - by rewrite <- app_assoc.
  - apply Forall_app. split; [done|]. by constructor.
Qed.

Lemma inv_drain_end r d f n ts ps rs F0 F w :
  conn_inv (mkConn r (Draining d f n) ts ps rs) F0 F w ->
  conn_inv (mkConn (mkRob (chunks r) (dispatch_ r) (if negb (n =? 0) then f else flush_ r)) Idle ts ps rs) F F w.
Proof.
  intros (Hr & Hf & HF & Hl & (-> & -> & ->) & Ht & Hps & Hd). cbn in *.
  unfold conn_inv; cbn. split_and!; try done; try lia.
  destruct (Z.eqb_spec (F - F0) 0) as [E|E]; cbn; [|done]. rewrite Hf. f_equal. lia.
Qed.

Lemma conn_inv_step s s' F0 F w :
  conn_inv s F0 F w -> conn_step s s' -> exists F0' F' w', conn_inv s' F0' F' w'.
Proof.
  intros H Hs. pose proof (rob_inv_len _ _ _ (proj1 H)) as Hlen.
  assert (tasks_ok (tasks s) F w) as Ht by apply H.
  destruct Hs as [Codes fl r r1 o o' r2 ts ps rs Ha Hst Hnd|Codes fl r r1 o o' r2 ts ps rs Ha Hst Hd
    |Codes fl r r1 o o' r2 ts ps rs Ha Hst Hnd|r r' pc id o o' ts1 ts2 ps rs Hat Harg Hnd Hst
    |r r' pc id o o' ts1 ts2 ps rs Hat Harg Hd Hst|r ts ps rs|r cs cs' o o' d f n ts ps rs Hne Hsl Hd Hst
    |r d f n ts ps rs _]; cbn in Ht.
  1-3: assert (F0 = F) as -> by apply H.
  - exists F, F, (w ++ [o']). eapply inv_dispatch; [exact H|done|done|].
    pose proof H as (Hr & Hf & _). cbn in Hr, Hf. rewrite <- Hf in Hr. destruct r.
    destruct (dispatched _ F w _ _ _ _ _ _ Hr Ha Hst) as (_ & -> & _). by apply tasks_new.
  - exists F, F, (w ++ [o']). eapply inv_dispatch; [exact H|done|done|]. by apply tasks_snoc.
  - exists F, F, w. by eapply inv_refused.
  - destruct (tasks_store ts1 ts2 id F w Hlen Ht) as (i & ow & E & How & _ & Hts).
    exists F0, F, (<[i := o']> w). eapply inv_store; try done; [by eapply lookup_lt_Some|]. by apply Hts.
  - destruct (tasks_store ts1 ts2 id F w Hlen Ht) as (i & ow & E & How & _ & Hts).
    exists F0, F, (<[i := o']> w). eapply inv_store; try done; [by eapply lookup_lt_Some|]. by apply Hts.
  - exists F, F, w. destruct H as (Hr & Hf & HF & Hl & Hp & Ht' & Hps & Hd). cbn in *. subst F0.
    unfold conn_inv; cbn. destruct Hr as (? & Hdi & Hr). split_and!; try done; lia.
  - destruct (inv_drain_one _ _ _ _ _ _ _ _ _ _ _ _ _ _ H Hne Hsl Hd Hst) as [w' Hw'].
    by exists F0, (F + 1), w'.
  - exists F, F, w. by eapply inv_drain_end.
Qed.

Lemma conn_reachable_inv s : conn_reachable s -> exists F0 F w, conn_inv s F0 F w.
Proof.
  induction 1 as [|s s' _ (F0 & F & w & IH) Hs]; [|by eapply conn_inv_step].
  exists 0, 0, []. pose proof (rob_capacity_bounds _ Hcap).
  unfold conn_inv, rob_inv, chunks_ok, tasks_ok; cbn. rewrite length_replicate.
  split_and!; try done; try lia.
  - intros i ops Hi. apply lookup_replicate in Hi as [Hi _]. done.
  - constructor.
  - intros id Hid. by apply elem_of_nil in Hid.
Qed.
End Machine.

(** * Theorems *)
(** A reply buffer that is not on the heap has the inline capacity. *)
Definition inline_cap (o : Op) : Prop :=
  sb_heap (reply (op_reply o)) = false -> sb_cap (reply (op_reply o)) = kInlineReply.

Lemma recycle_small o : inline_cap o -> op_oversized (recycle o) = false.
Proof.
  unfold inline_cap, recycle. intros Hi. destruct (op_oversized o) eqn:E; [|done].
  unfold op_oversized, op_set_state, op_shrink, with_reply, sb_shrink_to_inline; cbn.
  destruct (argv_heap (op_argv o)) eqn:Eh; cbn; rewrite ?Eh; cbn;
    destruct (sb_heap (reply (op_reply o))); cbn; rewrite ?Hi; done.
Qed.

(** C1: Out-of-order completion, in-order retirement.  In every reachable state of a connection
    (requests dispatched, answered inline or refused, executors storing into the slots they hold
    at any moment, also between two rounds of a drain), the requests handed to the reply sink are
    exactly the first ones of the request stream, in the order they were published and each
    carrying its own arguments, and every one of them was complete when it was handed over.  At
    most [Capacity] requests are in flight; between drains [in_flight] counts them, and
    [dispatch_id == flush_id] holds exactly when every published request has been retired. *)
Theorem rob_retires_in_order Capacity s :
  rob_capacity Capacity -> conn_reachable Capacity s ->
  exists w, op_argv <$> (retired s ++ w) = published s /\
    Forall (fun o => op_state o = Done) (retired s) /\ Z.of_nat (length w) <= Capacity /\
    (io_pc s = Idle ->
       in_flight (rob s) = Z.of_nat (length w) /\
       (rob_quiesced (rob s) = true <-> op_argv <$> retired s = published s)).
Proof.
  intros Hc Hs. destruct (conn_reachable_inv _ Hc s Hs) as (F0 & F & w & Hr & Hf & HF & Hl & Hp & _ & Hps & Hd).
  exists w. split; [done|]. split; [done|]. split; [by destruct Hr as (_ & _ & _ & ? & _)|].
  intros Hi. rewrite Hi in Hp. cbn in Hp. subst F0. rewrite <- Hf in Hr.
  destruct s as [[cs d f] pc ts ps rs]; cbn in *.
  split; [by eapply in_flight_spec|]. rewrite (quiesced_spec _ Hc _ _ _ Hr), bool_decide_eq_true.
  rewrite <- Hps, fmap_app. split; [intros ->; by rewrite app_nil_r|].
  intros E. apply (f_equal length) in E. rewrite length_app, !length_fmap in E.
  apply nil_length_inv. lia.
Qed.

(** Two requests in flight, the younger one finishing first, then one round of a drain. *)
Definition demo_op (off : Z) (st : OpState) : Op :=
  mkOp (mkArgs (<[0%nat := mkSlice off 3]> (replicate 8 empty_slice)) None 0 1) (-1)
       (mkCut 0 0) 0 0 reply_new zc_null st.
Lemma rob_retires_in_order_witness :
  exists s, (rob_capacity 8 /\ conn_reachable 8 s /\ length (retired s) = 1%nat /\
             length (published s) = 2%nat) /\
  exists w, op_argv <$> (retired s ++ w) = published s /\
    Forall (fun o => op_state o = Done) (retired s) /\ Z.of_nat (length w) <= 8 /\
    (io_pc s = Idle ->
       in_flight (rob s) = Z.of_nat (length w) /\
       (rob_quiesced (rob s) = true <-> op_argv <$> retired s = published s)).
Proof.
  assert (rob_capacity 8) as Hc by (exists 3; split; [lia|reflexivity]).
  assert (exists s, conn_reachable 8 s /\ length (retired s) = 1%nat /\ length (published s) = 2%nat)
    as (s & Hs & H1 & H2).
  { eexists. split.
    - eapply conn_next; [eapply conn_next; [eapply conn_next; [eapply conn_next; [eapply conn_next;
        [eapply conn_next; [apply conn_start|]|]|]|]|]|].
      + eapply (step_dispatch 8 true 0) with (o' := demo_op 4 Free); [reflexivity|reflexivity|done].
      + eapply (step_dispatch 8 true 0) with (o' := demo_op 24 Free); [reflexivity|reflexivity|done].
      + eapply (step_complete 8) with (id := 1) (o' := demo_op 24 Done) (ts1 := []); reflexivity.
      + eapply (step_complete 8) with (id := 0) (o' := demo_op 4 Done) (ts1 := []); reflexivity.
      + apply step_drain_begin.
      + eapply step_drain_one with (o' := demo_op 4 Done); [|reflexivity..]. by vm_compute.
    - done. }
  exists s. split; [done|]. by apply (rob_retires_in_order 8).
Defined.

(** [drain] retires exactly the longest completed prefix of the window, oldest first: the sink
    sees those operations once each and in order, the returned count is their number, the rest
    of the window is untouched, every retired slot is Free and keeps neither an argument block
    nor a reply buffer above [kShrinkKeep], and a fully completed window drains to quiescence. *)
Theorem drain_exact {St} Capacity (sink : St -> Op -> option (St * Op)) r F w st st' l' :
  rob_capacity Capacity -> rob_inv Capacity r F w ->
  run_sink sink st (done_prefix w) = Some (st', l') ->
  exists r', drain Capacity sink r st = Some (r', Z.of_nat (length (done_prefix w)), st') /\
    rob_inv Capacity r' (F + Z.of_nat (length (done_prefix w))) (drop (length (done_prefix w)) w) /\
    (forall i o, l' !! i = Some o -> at_ Capacity r' (u64 (F + Z.of_nat i)) = Some (recycle o) /\
       op_state (recycle o) = Free /\ (inline_cap o -> op_oversized (recycle o) = false)) /\
    (Forall (fun o => op_state o = Done) w -> rob_quiesced r' = true).
Proof.
  intros Hc Hr Hs. destruct (drain_spec _ Hc sink r F w st st' l' Hr Hs) as (r' & E & Hr' & Hw).
  rewrite (run_sink_length _ _ _ _ _ Hs) in *. exists r'. split; [done|]. split; [done|]. split.
  - intros i o Ho. split; [|split; [done|apply recycle_small]].
    unfold at_. rewrite id_slot_spec by done. rewrite (slot_get _ _ (recycle o)); [done|].
    apply Hw. by rewrite list_lookup_fmap, Ho.
  - intros Hall. rewrite (quiesced_spec _ Hc _ _ _ Hr'). apply bool_decide_eq_true.
    assert (done_prefix w = w) as ->; [|apply drop_all].
    clear -Hall. induction Hall as [|o w Ho _ IH]; cbn; [done|].
    rewrite bool_decide_eq_true_2 by done. by rewrite IH.
Qed.

(** A wrapped window: ids 8 and 9 of a capacity-8 buffer, the older one complete. *)
Definition demo_window : list Op := [demo_op 4 Done; demo_op 24 Free].
Definition demo_rob : Rob := mkRob [Some (demo_window ++ replicate 6 op_new)] 10 8.
Lemma demo_rob_inv : rob_capacity 8 /\ rob_inv 8 demo_rob 8 demo_window.
Proof.
  split; [exists 3; split; [lia|reflexivity]|].
  unfold rob_inv, chunks_ok. split_and!; try done.
  - intros [|[|i]] ops Hi; [by injection Hi as <-|done|done].
  - intros [|[|i]] o Hi; [by injection Hi as <-|by injection Hi as <-|done].
Qed.

Lemma drain_exact_witness :
  exists r', drain 8 (fun st o => Some (st ++ [o], o)) demo_rob [] = Some (r', 1, [demo_op 4 Done]) /\
    rob_inv 8 r' 9 [demo_op 24 Free] /\
    (forall i o, [demo_op 4 Done] !! i = Some o -> at_ 8 r' (u64 (8 + Z.of_nat i)) = Some (recycle o) /\
       op_state (recycle o) = Free /\ (inline_cap o -> op_oversized (recycle o) = false)) /\
    (Forall (fun o => op_state o = Done) demo_window -> rob_quiesced r' = true).
Proof.
  destruct demo_rob_inv as [Hc Hr].
  exact (drain_exact 8 (fun st o => Some (st ++ [o], o)) demo_rob 8 demo_window [] _ _ Hc Hr eq_refl).
Defined.

(** Backpressure and isolation of dispatch.  A full window refuses and changes nothing; otherwise
    the claimed slot holds a reset operation (no arguments, the given flags, an empty reply, coded
    replies armed exactly in the coded instantiation), the window in flight is untouched, storing
    the parsed request and publishing appends it, and undoing the publish restores the window. *)
Theorem acquire_publish_exact Capacity Codes fl r F w :
  rob_capacity Capacity -> rob_inv Capacity r F w ->
  (Z.of_nat (length w) = Capacity -> acquire Capacity Codes fl r = Some (r, None)) /\
  (Z.of_nat (length w) < Capacity ->
   exists r' o, acquire Capacity Codes fl r = Some (r', Some o) /\ rob_inv Capacity r' F w /\
     (op_args (op_argv o) = [] /\ cut_flags (op_cut o) = fl /\ op_state o = Free /\
      sb_bytes (reply (op_reply o)) = [] /\ direct (op_reply o) = None /\
      (Codes = true -> reply_code (op_reply o) = RNone /\ reply_code_ok (op_reply o) = true)) /\
     forall o', exists r2, at_store Capacity r' (dispatch_id r') o' = Some r2 /\
       rob_inv Capacity (publish r2) F (w ++ [o']) /\
       rob_inv Capacity (unpublish (publish r2)) F w).
Proof.
  intros Hc Hr. split.
  - intros Hl. unfold acquire. by rewrite (full_spec _ Hc r F w Hr), bool_decide_eq_true_2.
  - intros Hl. destruct (acquire_spec _ Hc Codes fl r F w Hr Hl) as (r' & o0 & Ha & Hr' & _ & Hload).
    exists r', (claimed Codes fl o0). split; [done|]. split; [done|]. split.
    { unfold claimed, op_args, sb_bytes. destruct Codes; cbn; repeat split; done. }
    intros o'. destruct (publish_spec _ Hc r' F w _ o' Hr' Hl Hload) as (r2 & Hs & H2).
    exists r2. split; [done|]. split; [done|]. by eapply unpublish_spec.
Qed.

Lemma acquire_publish_exact_witness :
  Z.of_nat (length demo_window) < 8 /\
  exists r' o, acquire 8 true 4 demo_rob = Some (r', Some o) /\ rob_inv 8 r' 8 demo_window /\
     (op_args (op_argv o) = [] /\ cut_flags (op_cut o) = 4 /\ op_state o = Free /\
      sb_bytes (reply (op_reply o)) = [] /\ direct (op_reply o) = None /\
      (true = true -> reply_code (op_reply o) = RNone /\ reply_code_ok (op_reply o) = true)) /\
     forall o', exists r2, at_store 8 r' (dispatch_id r') o' = Some r2 /\
       rob_inv 8 (publish r2) 8 (demo_window ++ [o']) /\ rob_inv 8 (unpublish (publish r2)) 8 demo_window.
Proof.
  destruct demo_rob_inv as [Hc Hr]. split; [done|].
  by apply (acquire_publish_exact 8 true 4 demo_rob 8 demo_window Hc Hr).
Defined.
