(* ===== verification/ReadLocal.v ===== *)
(** rob.h, the read-local words of the reorder buffer: the connection-local record of writes in
    flight (the read-your-own-writes ring with its tag filter and its arming states), and the
    bitmaps of local reads that are pending or were handed to their owner.

    The tagged sidecar pointer is three fields: the pointed-to block ([side], [None] for null) and
    the two tag bits [inactive] and [staged].  [std::abort] is [None].  All words belong to the
    connection's IO thread. *)
From S2P Require Import Prelude Ring Slice Op Rob.

(** * Data *)
Definition kWriteRingCapacity : Z := kRobWindow.
Definition kMaxPreciseKeysetKeys : Z := 16.
Definition kTagLanes : Z := 16.
Definition kReadLocalUnarmed : Z := 1.
Definition kReadLocalArmFence : Z := 2.

Definition not64 (x : Z) : Z := u64 (Z.lnot x).
Definition bit64 (i : Z) : Z := u64 (Z.shiftl 1 i).
Definition keyset_filter (hash : Z) : Z :=
  Z.lor (bit64 (Z.land hash 63)) (bit64 (Z.land (Z.shiftr hash 32) 63)).

Inductive PendingWrite := PwNone | PwHash | PwKeyset | PwOverflow.
#[global] Instance PendingWrite_eq_dec : EqDecision PendingWrite.
Proof. solve_decision. Defined.

Record WriteKey := mkWK { wk_hash : Z; wk_op_id : Z }.
Record ReadLocalRobState := mkRLS {
  write_tags : list Z;                   (* kWriteRingCapacity entries *)
  pending_hash : Z;
  pending_op_id : Z;
  overflow_through : Z;
  write_keyset_slots : Z;
  write_head : Z;
  write_count : Z;
  pending_write : PendingWrite;
  overflow : bool;
  write_ring : list WriteKey }.          (* kWriteRingCapacity entries *)
Definition rls_new : ReadLocalRobState :=
  mkRLS (replicate 64 0) 0 0 0 0 0 0 PwNone false (replicate 64 (mkWK 0 0)).

Record ReadLocalArmStats := mkArmStats { arms : Z; sidecars : Z; write_ring_records : Z }.

(** [ReadLocalPendingFilter]: four 64-bit words. *)
Abbreviation PendingFilter := (list Z).
Definition kWords : Z := 4.
Definition filter_new : PendingFilter := replicate 4 0.
Definition word_of (hash : Z) : Z := u32 (Z.land (Z.shiftr hash 6) (kWords - 1)).
Definition filter_add (f : PendingFilter) (hash : Z) : PendingFilter :=
  alter (fun w => Z.lor w (keyset_filter hash)) (Z.to_nat (word_of hash)) f.
Definition may_contain (f : PendingFilter) (hash : Z) : bool :=
  match f !! Z.to_nat (word_of hash) with
  | Some w => Z.land w (keyset_filter hash) =? keyset_filter hash
  | None => false
  end.
Definition filter_merge (f g : PendingFilter) : PendingFilter := zip_with Z.lor f g.
Definition filter_clear (f : PendingFilter) : PendingFilter := (fun _ => 0) <$> f.

(** The read-local part of [Rob]. *)
Record RlRob := mkRl {
  win : Rob;
  write_valid : Z;
  write_wide : Z;
  write_force : Z;
  arm_state : Z;
  unarmed_write_id : Z;
  mget_fence_id : Z;
  arm_stats : option ReadLocalArmStats;
  pending_slots : Z;
  owner_slots : Z;
  side : option ReadLocalRobState;
  inactive : bool;
  staged : bool;
  pending_filter : PendingFilter }.

Definition rl_new (Capacity : Z) (stats : option ReadLocalArmStats) : RlRob :=
  mkRl (rob_new Capacity) 0 0 0 kReadLocalUnarmed UINT64_MAX UINT64_MAX stats 0 0 None false false
       filter_new.

(** Assignments to groups of fields. *)
Definition set_win (r : RlRob) (x : Rob) : RlRob :=
  mkRl x (write_valid r) (write_wide r) (write_force r) (arm_state r) (unarmed_write_id r)
       (mget_fence_id r) (arm_stats r) (pending_slots r) (owner_slots r) (side r) (inactive r)
       (staged r) (pending_filter r).
Definition set_filter_words (r : RlRob) (valid wide force : Z) : RlRob :=
  mkRl (win r) valid wide force (arm_state r) (unarmed_write_id r) (mget_fence_id r) (arm_stats r)
       (pending_slots r) (owner_slots r) (side r) (inactive r) (staged r) (pending_filter r).
Definition set_arm (r : RlRob) (st id : Z) (stats : option ReadLocalArmStats) : RlRob :=
  mkRl (win r) (write_valid r) (write_wide r) (write_force r) st id (mget_fence_id r) stats
       (pending_slots r) (owner_slots r) (side r) (inactive r) (staged r) (pending_filter r).
Definition set_fence (r : RlRob) (id : Z) : RlRob :=
  mkRl (win r) (write_valid r) (write_wide r) (write_force r) (arm_state r) (unarmed_write_id r) id
       (arm_stats r) (pending_slots r) (owner_slots r) (side r) (inactive r) (staged r)
       (pending_filter r).
Definition set_slots_words (r : RlRob) (p o : Z) (f : PendingFilter) : RlRob :=
  mkRl (win r) (write_valid r) (write_wide r) (write_force r) (arm_state r) (unarmed_write_id r)
       (mget_fence_id r) (arm_stats r) p o (side r) (inactive r) (staged r) f.
Definition set_side (r : RlRob) (s : ReadLocalRobState) (i g : bool) : RlRob :=
  mkRl (win r) (write_valid r) (write_wide r) (write_force r) (arm_state r) (unarmed_write_id r)
       (mget_fence_id r) (arm_stats r) (pending_slots r) (owner_slots r) (Some s) i g
       (pending_filter r).
Definition set_stats (r : RlRob) (stats : option ReadLocalArmStats) : RlRob :=
  set_arm r (arm_state r) (unarmed_write_id r) stats.

Definition set_pending (s : ReadLocalRobState) (p : PendingWrite) (hash id : Z) : ReadLocalRobState :=
  mkRLS (write_tags s) hash id (overflow_through s) (write_keyset_slots s) (write_head s)
        (write_count s) p (overflow s) (write_ring s).
Definition set_ring_words (s : ReadLocalRobState) (keysets head count : Z) : ReadLocalRobState :=
  mkRLS (write_tags s) (pending_hash s) (pending_op_id s) (overflow_through s) keysets head count
        (pending_write s) (overflow s) (write_ring s).
Definition set_overflow (s : ReadLocalRobState) (o : bool) (through : Z) : ReadLocalRobState :=
  mkRLS (write_tags s) (pending_hash s) (pending_op_id s) through 0 0 0 (pending_write s) o
        (write_ring s).

Definition read_local_id_active (op_id dispatch flush : Z) : bool :=
  u64 (op_id - flush) <? u64 (dispatch - flush).
Definition rl_dispatch (r : RlRob) : Z := dispatch_id (win r).
Definition rl_flush (r : RlRob) : Z := flush_id (win r).

(** * The write ring *)
Definition read_local_write_reset_slots (r : RlRob) : RlRob := set_filter_words r 0 0 (write_force r).
Definition read_local_write_enter_overflow (r : RlRob) : RlRob :=
  set_filter_words (read_local_write_reset_slots r) 0 0 1.
Definition read_local_write_leave_overflow (r : RlRob) : RlRob :=
  set_filter_words (read_local_write_reset_slots r) 0 0 0.

(** The popping loop of [read_local_prune]; the third result is [retired_slots]. *)
Fixpoint prune_loop (fuel : nat) (dispatch flush : Z) (s : ReadLocalRobState) (retired_slots : Z)
  : option (ReadLocalRobState * Z) :=
  if write_count s =? 0 then Some (s, retired_slots)
  else
    k ← write_ring s !! Z.to_nat (write_head s);
    if read_local_id_active (wk_op_id k) dispatch flush then Some (s, retired_slots)
    else match fuel with
    | O => None
    | S fuel =>
        let b := bit64 (write_head s) in
        prune_loop fuel dispatch flush
          (set_ring_words s (Z.land (write_keyset_slots s) (not64 b))
             (u8 (Z.land (write_head s + 1) (kWriteRingCapacity - 1))) (write_count s - 1))
          (Z.lor retired_slots b)
    end.

Definition read_local_prune_at (r : RlRob) (s : ReadLocalRobState) (dispatch flush : Z)
  : option (RlRob * ReadLocalRobState) :=
  if overflow s then
    if read_local_id_active (overflow_through s) dispatch flush then Some (r, s)
    else Some (read_local_write_leave_overflow r, set_overflow s false (overflow_through s))
  else
    '(s, retired_slots) ← prune_loop (Z.to_nat (write_count s)) dispatch flush s 0;
    if write_count s =? 0
    then Some (read_local_write_reset_slots r, set_ring_words s 0 0 (write_count s))
    else if negb (retired_slots =? 0)
    then Some (set_filter_words r (Z.land (write_valid r) (not64 retired_slots))
                 (Z.land (write_wide r) (not64 retired_slots)) (write_force r), s)
    else Some (r, s).
Definition read_local_prune (r : RlRob) (s : ReadLocalRobState) : option (RlRob * ReadLocalRobState) :=
  if negb (overflow s) && (write_count s =? 0) then Some (r, s)
  else read_local_prune_at r s (rl_dispatch r) (rl_flush r).

(** The tag bit [read_local_try_deactivate] leaves. *)
Definition read_local_try_deactivate (s : ReadLocalRobState) (i : bool) : bool :=
  i || (negb (overflow s) && (write_count s =? 0) && bool_decide (pending_write s = PwNone)).

Definition bump_records (st : option ReadLocalArmStats) : option ReadLocalArmStats :=
  (fun t => mkArmStats (arms t) (sidecars t) (u64 (write_ring_records t + 1))) <$> st.
Definition bump_sidecars (st : option ReadLocalArmStats) : option ReadLocalArmStats :=
  (fun t => mkArmStats (arms t) (u64 (sidecars t + 1)) (write_ring_records t)) <$> st.
Definition bump_arms (st : option ReadLocalArmStats) : option ReadLocalArmStats :=
  (fun t => mkArmStats (u64 (arms t + 1)) (sidecars t) (write_ring_records t)) <$> st.

(** The commit of a precise candidate into the ring and its filter slot. *)
Definition ring_commit (r : RlRob) (s : ReadLocalRobState) (p : PendingWrite) (hash op_id : Z)
  : option (RlRob * ReadLocalRobState) :=
  let tail := Z.land (write_head s + write_count s) (kWriteRingCapacity - 1) in
  let b := bit64 tail in
  _ ← write_ring s !! Z.to_nat tail;
  let r := set_stats r (bump_records (arm_stats r)) in
  let valid := Z.lor (write_valid r) b in
  let '(keysets, wide) :=
    if bool_decide (p = PwKeyset)
    then (Z.lor (write_keyset_slots s) b, Z.lor (write_wide r) b)
    else (Z.land (write_keyset_slots s) (not64 b), Z.land (write_wide r) (not64 b)) in
  Some (set_filter_words r valid wide (write_force r),
        mkRLS (<[Z.to_nat tail := u16 hash]> (write_tags s)) (pending_hash s) (pending_op_id s)
              (overflow_through s) keysets (write_head s) (u8 (write_count s + 1))
              (pending_write s) (overflow s)
              (<[Z.to_nat tail := mkWK hash op_id]> (write_ring s))).

Definition read_local_resolve_pending_body (r : RlRob) (s : ReadLocalRobState)
  : option (RlRob * ReadLocalRobState) :=
  if bool_decide (pending_write s = PwNone) then Some (r, s)
  else
    let dispatch := rl_dispatch r in
    let flush := rl_flush r in
    let op_id := pending_op_id s in
    let pending := pending_write s in
    let hash := pending_hash s in
    let s := set_pending s PwNone (pending_hash s) (pending_op_id s) in
    if negb (read_local_id_active op_id dispatch flush) then Some (r, s)
    else
      '(r, s) ← read_local_prune_at r s dispatch flush;
      if overflow s || bool_decide (pending = PwOverflow) then
        let entering := negb (overflow s) in
        let s := set_overflow s true op_id in
        Some (if entering then read_local_write_enter_overflow r else r, s)
      else ring_commit r s pending hash op_id.

(** [resolve_read_local_write]: the staged bit goes, the candidate is consumed, the inactive bit
    may come back. *)
Definition resolve_read_local_write (r : RlRob) : option RlRob :=
  s ← side r;
  let r := set_side r s (inactive r) false in
  '(r, s) ← read_local_resolve_pending_body r s;
  Some (set_side r s (read_local_try_deactivate s (inactive r)) (staged r)).

(** [prepare_read_local]; [mem] says whether the nothrow allocation succeeds. *)
Definition prepare_read_local (mem : bool) (r : RlRob) : RlRob * bool :=
  match side r with
  | Some _ => (r, true)
  | None =>
      if mem then (set_stats (set_side r rls_new true false) (bump_sidecars (arm_stats r)), true)
      else (r, false)
  end.

(** The unarmed record: the id of the newest write and nothing else. *)
Definition mark_unarmed (r : RlRob) : RlRob :=
  set_arm r kReadLocalUnarmed (rl_dispatch r) (arm_stats r).

Definition mark_current_write (mem : bool) (r : RlRob) : option RlRob :=
  if arm_state r =? kReadLocalUnarmed then
    Some (set_arm r (arm_state r) (rl_dispatch r) (arm_stats r))
  else
    let '(r, ok) := match side r with None => prepare_read_local mem r | Some _ => (r, true) end in
    if negb ok then Some (mark_unarmed r)
    else
      s ← side r;
      let r := set_side r s false (staged r) in
      if negb (bool_decide (pending_write s = PwNone)) then None
      else
        '(r, s) ← read_local_prune r s;
        Some (set_side r (set_pending s PwOverflow 0 (rl_dispatch r)) (inactive r) true).

(** The guards both refinements share. *)
Definition refine_with (p : PendingWrite) (word : Z) (r : RlRob) : option (RlRob * bool) :=
  s ← side r;
  if negb (bool_decide (pending_write s = PwOverflow)) || negb (pending_op_id s =? rl_dispatch r)
  then None
  else if overflow s then Some (r, false)
  else Some (set_side r (set_pending s p word (pending_op_id s)) (inactive r) (staged r), true).
Definition refine_current_write_hash (hash : Z) (r : RlRob) : option (RlRob * bool) :=
  if arm_state r =? kReadLocalUnarmed then Some (r, true) else refine_with PwHash hash r.
Definition refine_current_write_keyset (filter key_count : Z) (r : RlRob) : option (RlRob * bool) :=
  if (key_count =? 0) || (kMaxPreciseKeysetKeys <? key_count) || (filter =? 0) then Some (r, false)
  else if arm_state r =? kReadLocalUnarmed then Some (r, true)
  else refine_with PwKeyset filter r.

(** [read_local_arm]. *)
Definition read_local_arm (r : RlRob) : RlRob * bool :=
  let dispatch := rl_dispatch r in
  let flush := rl_flush r in
  if arm_state r =? kReadLocalUnarmed then
    let r := set_stats r (bump_arms (arm_stats r)) in
    if read_local_id_active (unarmed_write_id r) dispatch flush
    then (set_arm r kReadLocalArmFence (unarmed_write_id r) (arm_stats r), true)
    else (set_arm r 0 UINT64_MAX (arm_stats r), false)
  else if read_local_id_active (unarmed_write_id r) dispatch flush then (r, true)
  else (set_arm r 0 UINT64_MAX (arm_stats r), false).
Definition read_local_arm_fence_live (r : RlRob) : bool := arm_state r =? kReadLocalArmFence.

(** One lane group of the tag sweep: bit [i] of the result says lane [i] holds the tag. *)
Fixpoint tag_hits (tags : list Z) (shift tag : Z) (lanes : nat) (i hits : Z) : option Z :=
  match lanes with
  | O => Some hits
  | S lanes =>
      t ← tags !! Z.to_nat (shift + i);
      tag_hits tags shift tag lanes (i + 1)
        (Z.lor hits (Z.shiftl (if t =? tag then 1 else 0) i))
  end.
(** [__builtin_ctzll] of a non-zero word. *)
Fixpoint ctz_loop (fuel : nat) (x i : Z) : Z :=
  match fuel with
  | O => i
  | S fuel => if Z.testbit x i then i else ctz_loop fuel x (i + 1)
  end.
Definition ctzll (x : Z) : Z := ctz_loop 64 x 0.
Fixpoint tag_sweep (fuel : nat) (tags : list Z) (tag rest : Z) : option bool :=
  match fuel with
  | O => None
  | S fuel =>
      let g := ctzll rest / kTagLanes in
      let shift := g * kTagLanes in
      let live_g := Z.land (u32 (Z.shiftr rest shift)) 65535 in
      hits ← tag_hits tags shift tag (Z.to_nat kTagLanes) 0 0;
      if negb (Z.land hits live_g =? 0) then Some true
      else
        let rest := Z.land rest (not64 (u64 (Z.shiftl 65535 shift))) in
        if rest =? 0 then Some false else tag_sweep fuel tags tag rest
  end.
Definition read_local_write_tag_may_match (r : RlRob) (s : ReadLocalRobState) (hash : Z)
  : option bool :=
  if negb (write_force r =? 0) then Some true
  else
    let live := write_valid r in
    if live =? 0 then Some false
    else if negb (Z.land (write_wide r) live =? 0) then Some true
    else tag_sweep 4 (write_tags s) (u16 hash) live.

(** * The conflict probe *)
Section Probe.
Context (Capacity : Z) (keyset_touches_hash : Op -> Z -> bool).

(** The walk over the live descriptors. *)
Fixpoint ring_walk (r : RlRob) (s : ReadLocalRobState) (hash probe_filter : Z) (n : nat) (i : Z)
  : option bool :=
  match n with
  | O => Some false
  | S n =>
      let at' := Z.land (write_head s + i) (kWriteRingCapacity - 1) in
      k ← write_ring s !! Z.to_nat at';
      hit ← (if negb (Z.land (write_keyset_slots s) (bit64 at') =? 0) then
               if Z.land (wk_hash k) probe_filter =? probe_filter
               then o ← at_ Capacity (win r) (wk_op_id k); Some (keyset_touches_hash o hash)
               else Some false
             else Some (wk_hash k =? hash));
      if (hit : bool) then Some true else ring_walk r s hash probe_filter n (i + 1)
  end.

Definition deactivated (r : RlRob) (s : ReadLocalRobState) : RlRob :=
  set_side r s (read_local_try_deactivate s (inactive r)) (staged r).

Definition read_local_write_conflicts_pending (hash : Z) (r : RlRob) : option (RlRob * bool) :=
  s ← side r;
  let has_keysets :=
    bool_decide (pending_write s = PwKeyset) || negb (write_keyset_slots s =? 0) in
  let probe_filter := if has_keysets then keyset_filter hash else 0 in
  if bool_decide (pending_write s = PwOverflow) then Some (r, true)
  else if bool_decide (pending_write s = PwHash) && (pending_hash s =? hash) then Some (r, true)
  else
    staged_hit ← (if bool_decide (pending_write s = PwKeyset) &&
                     (Z.land (pending_hash s) probe_filter =? probe_filter)
                  then o ← at_ Capacity (win r) (pending_op_id s); Some (keyset_touches_hash o hash)
                  else Some false);
    if (staged_hit : bool) then Some (r, true)
    else if negb (overflow s) && (write_count s =? 0) then Some (deactivated r s, false)
    else
      '(r, s) ← read_local_prune r s;
      let r := set_side r s (inactive r) (staged r) in
      if overflow s then Some (r, true)
      else if write_count s =? 0 then Some (deactivated r s, false)
      else b ← ring_walk r s hash probe_filter (Z.to_nat (write_count s)) 0; Some (r, b).

Definition probe_armed (hash : Z) (r : RlRob) : option (RlRob * bool) :=
  match side r with
  | None => Some (r, false)
  | Some s =>
      if inactive r then Some (r, false)
      else
        may ← (if staged r then Some true else read_local_write_tag_may_match r s hash);
        if (may : bool) then read_local_write_conflicts_pending hash r else Some (r, false)
  end.
Definition read_local_write_conflicts (hash : Z) (r : RlRob) : option (RlRob * bool) :=
  if negb (arm_state r =? 0) then
    let '(r, fenced) := read_local_arm r in
    if fenced then Some (r, true) else probe_armed hash r
  else probe_armed hash r.
End Probe.

(** * Slots of local reads *)
Section Slots.
Context (Capacity : Z).

Definition read_local_slot_bit (op_id : Z) : Z := bit64 (id_slot Capacity op_id).
Definition capacity_slots_mask : Z :=
  if Capacity =? 64 then UINT64_MAX else bit64 Capacity - 1.

(** [acquire_read_local]: resolve a staged write, then recycle the position. *)
Definition acquire_read_local (route_flags : Z) (r : RlRob) : option (RlRob * option Op) :=
  r ← (if staged r then resolve_read_local_write r else Some r);
  let dispatch := rl_dispatch r in
  if Capacity <=? u32 (u64 (dispatch - rl_flush r)) then Some (r, None)
  else
    let index := id_slot Capacity dispatch in
    let keep := not64 (bit64 index) in
    let r := set_slots_words r (Z.land (pending_slots r) keep) (Z.land (owner_slots r) keep)
                             (pending_filter r) in
    '(cs, o) ← slot (chunks (win r)) index true;
    let o := arm_codes (op_reset_read_local route_flags o) in
    cs ← slot_store cs index o;
    Some (set_win r (mkRob cs (dispatch_ (win r)) (flush_ (win r))), Some o).

Definition mark_current_read_local_slot (op_id : Z) (r : RlRob) : option RlRob :=
  let b := read_local_slot_bit op_id in
  if negb (Z.land (owner_slots r) b =? 0) then None
  else Some (set_slots_words r (Z.lor (pending_slots r) b) (owner_slots r) (pending_filter r)).
Definition mark_current_read_local (op_id : Z) (keys : PendingFilter) (r : RlRob) : option RlRob :=
  r ← mark_current_read_local_slot op_id r;
  Some (set_slots_words r (pending_slots r) (owner_slots r) (filter_merge (pending_filter r) keys)).
Definition mark_current_read_local_hash (op_id hash : Z) (r : RlRob) : option RlRob :=
  r ← mark_current_read_local_slot op_id r;
  Some (set_slots_words r (pending_slots r) (owner_slots r) (filter_add (pending_filter r) hash)).
Definition read_local_pending_may_touch (hash : Z) (r : RlRob) : bool :=
  may_contain (pending_filter r) hash.
Definition reset_read_local_pending_filter (exact : PendingFilter) (r : RlRob) : RlRob :=
  set_slots_words r (pending_slots r) (owner_slots r) exact.

Definition arm_current_local_mget_fence (r : RlRob) : option RlRob :=
  if negb (mget_fence_id r =? UINT64_MAX) then None else Some (set_fence r (rl_dispatch r)).
Definition local_mget_fence_pending (r : RlRob) : RlRob * bool :=
  if mget_fence_id r =? UINT64_MAX then (r, false)
  else if read_local_id_active (mget_fence_id r) (rl_dispatch r) (rl_flush r) then (r, true)
  else (set_fence r UINT64_MAX, false).
Definition read_local_clear_mget_fence (op_id : Z) (r : RlRob) : RlRob :=
  if mget_fence_id r =? op_id then set_fence r UINT64_MAX else r.

Definition pending_read_local (op_id : Z) (r : RlRob) : bool :=
  read_local_id_active op_id (rl_dispatch r) (rl_flush r) &&
  negb (Z.land (pending_slots r) (read_local_slot_bit op_id) =? 0).
Definition has_pending_read_local (r : RlRob) : bool := negb (pending_slots r =? 0).
Fixpoint popcount_loop (fuel : nat) (x i : Z) : Z :=
  match fuel with
  | O => 0
  | S fuel => (if Z.testbit x i then 1 else 0) + popcount_loop fuel x (i + 1)
  end.
Definition pending_read_local_count (r : RlRob) : Z := popcount_loop 64 (pending_slots r) 0.
Definition has_read_local_owner (r : RlRob) : bool := negb (owner_slots r =? 0).

Definition read_local_retire_pending_bit (b : Z) (r : RlRob) : RlRob :=
  let p := Z.land (pending_slots r) (not64 b) in
  set_slots_words r p (owner_slots r)
    (if p =? 0 then filter_clear (pending_filter r) else pending_filter r).
Definition complete_pending_read_local_mask (bits : Z) (r : RlRob) : option RlRob :=
  if negb (Z.land (pending_slots r) bits =? bits) then None
  else Some (read_local_retire_pending_bit bits r).
Definition complete_pending_read_local (op_id : Z) (r : RlRob) : option RlRob :=
  let b := read_local_slot_bit op_id in
  if Z.land (pending_slots r) b =? 0 then None
  else Some (read_local_clear_mget_fence op_id (read_local_retire_pending_bit b r)).
Definition publish_pending_read_local_to_owner (op_id : Z) (r : RlRob) : option RlRob :=
  let b := read_local_slot_bit op_id in
  if (Z.land (pending_slots r) b =? 0) || negb (Z.land (owner_slots r) b =? 0) then None
  else
    let r := read_local_retire_pending_bit b r in
    let r := set_slots_words r (pending_slots r) (Z.lor (owner_slots r) b) (pending_filter r) in
    Some (read_local_clear_mget_fence op_id r).
Definition extend_current_read_local_owner (r : RlRob) : RlRob :=
  set_slots_words r (pending_slots r)
    (Z.lor (owner_slots r) (read_local_slot_bit (rl_dispatch r))) (pending_filter r).

Definition active_slots_mask (dispatch flush : Z) : Z :=
  let count := u32 (u64 (dispatch - flush)) in
  if count =? 0 then 0
  else if Capacity <=? count then capacity_slots_mask
  else
    let begin := id_slot Capacity flush in
    let run := bit64 count - 1 in
    let mask := u64 (Z.shiftl run begin) in
    let mask := if Capacity <? u32 (begin + count)
                then Z.lor mask (Z.shiftr run (Capacity - begin)) else mask in
    Z.land mask capacity_slots_mask.

(** The bits of a slot word in logical order: those at or above the flush position, then the
    wrapped ones, each with the generation its ids carry. *)
Definition split_slots (word flush : Z) : (Z * Z) * (Z * Z) :=
  let begin := id_slot Capacity flush in
  let generation := Z.land flush (not64 (rob_kMask Capacity)) in
  let high := Z.land word (u64 (Z.shiftl UINT64_MAX begin)) in
  let low_mask := if negb (begin =? 0) then bit64 begin - 1 else 0 in
  ((high, generation), (Z.land word low_mask, u64 (generation + Capacity))).

Section Collect.
Context (r : RlRob) (hash : Z) (hash_only : bool) (capacity : Z).
(** [append(bits, base)]. *)
Fixpoint collect_bits (fuel : nat) (bits base : Z) (ids : list Z) : option (list Z) :=
  if bits =? 0 then Some ids
  else match fuel with
  | O => None
  | S fuel =>
      let index := ctzll bits in
      let bits := Z.land bits (bits - 1) in
      let id := Z.lor base index in
      skip ← (if hash_only then o ← at_ Capacity (win r) id; Some (negb (op_hash o =? hash))
              else Some false);
      if (skip : bool) then collect_bits fuel bits base ids
      else if Z.of_nat (length ids) =? capacity then None
      else collect_bits fuel bits base (ids ++ [id])
  end.
End Collect.
Definition collect_pending_read_local (hash : Z) (hash_only : bool) (capacity : Z) (r : RlRob)
  : option (list Z) :=
  if pending_slots r =? 0 then Some []
  else
    let '((high, gen), (low, gen')) := split_slots (pending_slots r) (rl_flush r) in
    ids ← collect_bits r hash hash_only capacity 64 high gen [];
    collect_bits r hash hash_only capacity 64 low gen' ids.

Section Owner.
Context (match_ : Op -> bool) (flush before_distance : Z).
(** [inspect(bits, base)], threading the owner word and the verdict. *)
Fixpoint inspect_bits (fuel : nat) (x : Rob) (bits base owner : Z) (conflict : bool)
  : option (Z * bool) :=
  if bits =? 0 then Some (owner, conflict)
  else match fuel with
  | O => None
  | S fuel =>
      let index := ctzll bits in
      let bits := Z.land bits (bits - 1) in
      let id := Z.lor base index in
      o ← at_ Capacity x id;
      if bool_decide (op_state o = Done)
      then inspect_bits fuel x bits base (Z.land owner (not64 (bit64 index))) conflict
      else inspect_bits fuel x bits base owner
             (conflict || ((u64 (id - flush) <? before_distance) && match_ o))
  end.
End Owner.
Definition read_local_owner_conflicts_before (before_id : Z) (match_ : Op -> bool) (r : RlRob)
  : option (RlRob * bool) :=
  if owner_slots r =? 0 then Some (r, false)
  else
    let dispatch := rl_dispatch r in
    let flush := rl_flush r in
    let active := Z.land (owner_slots r) (active_slots_mask dispatch flush) in
    let r := set_slots_words r (pending_slots r) active (pending_filter r) in
    if active =? 0 then Some (r, false)
    else
      let before_distance := u64 (before_id - flush) in
      if u64 (dispatch - flush) <? before_distance then None
      else
        let '((high, gen), (low, gen')) := split_slots active flush in
        '(owner, c) ← inspect_bits match_ flush before_distance 64 (win r) high gen active false;
        '(owner, c) ← inspect_bits match_ flush before_distance 64 (win r) low gen' owner c;
        Some (set_slots_words r (pending_slots r) owner (pending_filter r), c).
End Slots.

(** * Bits of 64-bit words *)
Lemma bit64_eq i : 0 <= i < 64 -> bit64 i = 2 ^ i.
Proof.
  intros H. unfold bit64. rewrite Z.shiftl_1_l. apply u64_small.
  change 18446744073709551616 with (2 ^ 64). split; [apply Z.pow_nonneg; lia|].
  apply Z.pow_lt_mono_r; lia.
Qed.
Lemma bit64_testbit i j : 0 <= i < 64 -> 0 <= j -> Z.testbit (bit64 i) j = (i =? j).
Proof. intros Hi Hj. rewrite bit64_eq by done. by rewrite Z.pow2_bits_eqb by lia. Qed.
Lemma not64_testbit x i : 0 <= i < 64 -> Z.testbit (not64 x) i = negb (Z.testbit x i).
Proof.
  intros H. unfold not64, u64. change 18446744073709551616 with (2 ^ 64).
  rewrite Z.mod_pow2_bits_low by lia. by rewrite Z.lnot_spec by lia.
Qed.
Lemma land_bit64 x i : 0 <= i < 64 -> (Z.land x (bit64 i) =? 0) = negb (Z.testbit x i).
Proof.
  intros H. destruct (Z.testbit x i) eqn:E; [apply Z.eqb_neq|apply Z.eqb_eq].
  - intros E'. apply (f_equal (fun z => Z.testbit z i)) in E'.
    rewrite Z.land_spec, E, bit64_testbit, Z.eqb_refl, Z.bits_0 in E' by lia. done.
  - apply Z.bits_inj'. intros n Hn. rewrite Z.land_spec, Z.bits_0, bit64_testbit by lia.
    destruct (Z.eqb_spec i n) as [<-|]; [by rewrite E|]. apply andb_false_r.
Qed.
Lemma clear_testbit x b i : 0 <= i < 64 -> Z.testbit (Z.land x (not64 b)) i = Z.testbit x i && negb (Z.testbit b i).
Proof. intros H. by rewrite Z.land_spec, not64_testbit. Qed.


(** The lowest set bit. *)
Lemma ctz_loop_spec fuel x i :
  0 <= i -> (exists j, i <= j < i + Z.of_nat fuel /\ Z.testbit x j = true) ->
  i <= ctz_loop fuel x i < i + Z.of_nat fuel /\ Z.testbit x (ctz_loop fuel x i) = true /\
  forall j, i <= j < ctz_loop fuel x i -> Z.testbit x j = false.
Proof.
  revert i. induction fuel as [|fuel IH]; intros i Hi (j & Hj & Hb); [lia|]. cbn [ctz_loop].
  destruct (Z.testbit x i) eqn:Ei; [split_and!; [lia|lia|done|lia]|].
  destruct (IH (i + 1)) as (H1 & H2 & H3); [lia| |].
  { exists j. split; [|done]. destruct (Z.eq_dec i j) as [->|]; [congruence|lia]. }
  split; [lia|]. split; [done|]. intros k Hk. destruct (Z.eq_dec i k) as [->|]; [done|]. apply H3. lia.
Qed.
Lemma ctzll_spec x :
  word64 x -> x <> 0 ->
  0 <= ctzll x < 64 /\ Z.testbit x (ctzll x) = true /\ forall j, 0 <= j < ctzll x -> Z.testbit x j = false.
Proof. intros Hx Hn. apply (ctz_loop_spec 64 x 0); [lia|]. by apply word64_bit. Qed.
