(* ===== verification/Ryow.v ===== *)
(** Read-your-own-writes: the write ring of ReadLocal.v never misses a write in flight.

    The abstract object is the list [live] of writes published on the connection, each with the
    key hashes it touches ([None] when it may touch anything).  The invariant says that every
    unretired one is covered: by the arming fence, by the conservative generation, by a ring
    descriptor, or by the staged candidate.  Ids are taken below the 64-bit sentinel
    [UINT64_MAX], which the source uses for "none". *)
From S2P Require Import Prelude Ring Slice Op Rob ReadLocal.

(** * Ring positions *)
Definition ring_pos (head : Z) (j : nat) : Z := (head + Z.of_nat j) mod 64.
Lemma ring_pos_bounds head j : 0 <= ring_pos head j < 64.
Proof. apply Z.mod_pos_bound. lia. Qed.
Lemma ring_pos_inj head i j : (i < 64)%nat -> (j < 64)%nat -> ring_pos head i = ring_pos head j -> i = j.
Proof. unfold ring_pos. intros. Z.div_mod_to_equations; lia. Qed.
Lemma ring_pos_0 head : 0 <= head < 64 -> ring_pos head 0 = head.
Proof. intros. unfold ring_pos. rewrite Z.add_0_r. by apply Z.mod_small. Qed.
Lemma ring_pos_next head j : ring_pos (ring_pos head 1) j = ring_pos head (S j).
Proof. unfold ring_pos. Z.div_mod_to_equations; lia. Qed.
Lemma ring_pos_land head j : Z.land (head + Z.of_nat j) (kWriteRingCapacity - 1) = ring_pos head j.
Proof. apply (land_ones_mod _ 6). lia. Qed.
#[export] Hint Resolve ring_pos_bounds : tomo.

(** * Representation of the ring *)
Record Entry := mkEntry { e_hash : Z; e_id : Z; e_keyset : bool }.
Implicit Types (s : ReadLocalRobState) (r : RlRob) (E : list Entry).

Definition ring_rep s E : Prop :=
  length (write_tags s) = 64%nat /\ length (write_ring s) = 64%nat /\ 0 <= write_head s < 64 /\
  write_count s = Z.of_nat (length E) /\ (length E <= 64)%nat /\
  forall j e, E !! j = Some e ->
    write_ring s !! Z.to_nat (ring_pos (write_head s) j) = Some (mkWK (e_hash e) (e_id e)) /\
    Z.testbit (write_keyset_slots s) (ring_pos (write_head s) j) = e_keyset e.
Definition filter_rep r s E : Prop :=
  word64 (write_valid r) /\
  forall j e, E !! j = Some e ->
    Z.testbit (write_valid r) (ring_pos (write_head s) j) = true /\
    Z.testbit (write_wide r) (ring_pos (write_head s) j) = e_keyset e /\
    write_tags s !! Z.to_nat (ring_pos (write_head s) j) = Some (u16 (e_hash e)).
Definition ids_sorted E : Prop :=
  forall i j a b, (i < j)%nat -> E !! i = Some a -> E !! j = Some b -> e_id a < e_id b.

Lemma ring_rep_tail s e E :
  ring_rep s (e :: E) ->
  ring_rep (set_ring_words s (Z.land (write_keyset_slots s) (not64 (bit64 (write_head s))))
              (u8 (Z.land (write_head s + 1) (kWriteRingCapacity - 1))) (write_count s - 1)) E.
Proof.
  intros (Ht & Hr & Hh & Hc & Hl & H). change 1 with (Z.of_nat 1) at 1. rewrite ring_pos_land.
  pose proof (ring_pos_bounds (write_head s) 1). rewrite u8_small by lia.
  cbn [length] in *. unfold ring_rep; cbn. split_and!; try done; try lia.
  intros j x Hx. pose proof (ring_pos_bounds (write_head s) (S j)).
  rewrite ring_pos_next, clear_testbit, bit64_testbit by lia.
  destruct (H (S j) x Hx) as [? ->]. split; [done|].
  destruct (Z.eqb_spec (write_head s) (ring_pos (write_head s) (S j))) as [E'|]; cbn; [|apply andb_true_r].
  apply lookup_lt_Some in Hx. rewrite <- (ring_pos_0 (write_head s)) in E' at 1 by done.
  apply ring_pos_inj in E'; lia.
Qed.

(** Popping stops at the first active descriptor; what it popped was inactive. *)
Lemma prune_loop_spec E fuel d f s ret :
  (length E <= fuel)%nat -> ring_rep s E ->
  exists n s' ret', prune_loop fuel d f s ret = Some (s', ret') /\
    ring_rep s' (drop n E) /\ (n <= length E)%nat /\
    write_head s' = ring_pos (write_head s) n /\
    (exists ks c, s' = set_ring_words s ks (write_head s') c) /\
    (forall j e, (j < n)%nat -> E !! j = Some e -> read_local_id_active (e_id e) d f = false) /\
    (forall e, E !! n = Some e -> read_local_id_active (e_id e) d f = true) /\
    (forall i, 0 <= i < 64 -> Z.testbit ret' i = true ->
       Z.testbit ret i = true \/ exists j, (j < n)%nat /\ i = ring_pos (write_head s) j).
Proof.
  revert fuel s ret. induction E as [|e E IH]; intros fuel s ret Hf H; pose proof H as (_ & _ & Hh & Hc & _ & Hl).
  { exists 0%nat, s, ret. assert (write_count s = 0) as Hc0 by done.
    destruct fuel; cbn; rewrite Hc0; cbn; rewrite ring_pos_0 by done;
      (split_and!; try done; try lia; try (by left); by exists (write_keyset_slots s), (write_count s); destruct s). }
  destruct fuel as [|fuel]; [cbn in Hf; lia|]. cbn [length] in *.
  cbn [prune_loop]. replace (write_count s =? 0) with false by (symmetry; apply Z.eqb_neq; lia).
  destruct (Hl 0%nat e eq_refl) as [Hr Hk]. rewrite ring_pos_0 in Hr by done. rewrite Hr. cbn [mbind option_bind wk_op_id].
  destruct (read_local_id_active (e_id e) d f) eqn:Ea.
  { exists 0%nat, s, ret. cbn [drop]. rewrite ring_pos_0 by done. split_and!; try done; try lia; try (by left).
    - by exists (write_keyset_slots s), (write_count s); destruct s.
    - intros x [= <-]. done. }
  pose proof (ring_rep_tail _ _ _ H) as H'.
  destruct (IH fuel _ (Z.lor ret (bit64 (write_head s))) ltac:(lia) H')
    as (n & s' & ret' & -> & Hrep & Hn & Hhead & (ks & c & Hs') & Hin & Hact & Hret).
  cbn [write_head set_ring_words] in *. change 1 with (Z.of_nat 1) in Hhead at 1. change 1 with (Z.of_nat 1) in Hret at 1.
  rewrite ring_pos_land, u8_small, ring_pos_next in Hhead by (pose proof (ring_pos_bounds (write_head s) 1); lia).
  rewrite ring_pos_land, u8_small in Hret by (pose proof (ring_pos_bounds (write_head s) 1); lia).
  exists (S n), s', ret'. cbn [drop]. split_and!; try done; try lia; try (by exists ks, c).
  - intros [|j] x Hj Hx; [by injection Hx as <-|]. apply (Hin j); [lia|done].
  - intros i Hi Ht. destruct (Hret i Hi Ht) as [Hb|(j & Hj & ->)].
    + rewrite Z.lor_spec, bit64_testbit in Hb by lia. apply orb_prop in Hb as [Hb|Hb]; [by left|].
      apply Z.eqb_eq in Hb. right. exists 0%nat. rewrite ring_pos_0 by done. split; lia.
    + right. exists (S j). split; [lia|]. apply ring_pos_next.
Qed.

(** * The tag sweep answers exactly *)
Lemma tag_hits_spec tags shift tag n i hits :
  0 <= i -> 0 <= shift -> shift + i + Z.of_nat n <= Z.of_nat (length tags) ->
  exists hits', tag_hits tags shift tag n i hits = Some hits' /\
    forall j, 0 <= j -> Z.testbit hits' j = true <->
      Z.testbit hits j = true \/ (i <= j < i + Z.of_nat n /\ tags !! Z.to_nat (shift + j) = Some tag).
Proof.
  revert i hits. induction n as [|n IH]; intros i hits Hi Hs Hl; cbn [tag_hits].
  { exists hits. split; [done|]. intros j Hj. split; [by left|]. intros [?|[? _]]; [done|lia]. }
  destruct (lookup_lt_is_Some_2 tags (Z.to_nat (shift + i))) as [t Ht]; [lia|]. rewrite Ht. cbn [mbind option_bind].
  destruct (IH (i + 1) (Z.lor hits (Z.shiftl (if t =? tag then 1 else 0) i))) as (hits' & -> & H); [lia|lia|lia|].
  exists hits'. split; [done|]. intros j Hj. rewrite H, Z.lor_spec, Z.shiftl_spec, orb_true_iff by done.
  assert (Z.testbit (if t =? tag then 1 else 0) (j - i) = true <-> j = i /\ t = tag) as ->.
  { destruct (Z.eqb_spec t tag) as [E|E]; [|rewrite Z.bits_0; split; [done|by intros [_ ?]]].
    destruct (Z.eq_dec j i) as [->|Hn]; [by rewrite Z.sub_diag|].
    split; [|by intros [? _]]. intros Hb. destruct (Z.ltb_spec (j - i) 0).
    - rewrite Z.testbit_neg_r in Hb by lia. done.
    - by rewrite <- (Z.pow_0_r 2), Z.pow2_bits_false in Hb by lia. }
  split.
  - intros [[?|[-> ->]]|[? ?]]; [by left|right; split; [lia|done]|right; split; [lia|done]].
  - intros [?|[Hr Hj']]; [by left; left|]. destruct (Z.eq_dec j i) as [->|].
    + left; right. split; [done|]. rewrite Ht in Hj'. by injection Hj'.
    + right. split; [lia|done].
Qed.

(** One group, as the sweep tests it. *)
Lemma group_test rest hits shift :
  0 <= shift <= 48 -> word64 rest ->
  (Z.land hits (Z.land (u32 (Z.shiftr rest shift)) 65535) =? 0) = false <->
  exists j, 0 <= j < 16 /\ Z.testbit hits j = true /\ Z.testbit rest (shift + j) = true.
Proof.
  intros Hs Hw. set (g := Z.land (u32 (Z.shiftr rest shift)) 65535).
  assert (forall j, 0 <= j -> Z.testbit g j = (j <? 16) && Z.testbit rest (shift + j)) as Hg.
  { intros j Hj. unfold g. change 65535 with (2 ^ 16 - 1). rewrite land_ones_mod by lia.
    rewrite u32_mod_pow2 by lia. destruct (Z.ltb_spec j 16).
    - rewrite Z.mod_pow2_bits_low, Z.shiftr_spec by lia. cbn. f_equal. lia.
    - by rewrite Z.mod_pow2_bits_high by lia. }
  rewrite Z.eqb_neq. split.
  - intros Hn. assert (0 <= Z.land hits g) by (apply Z.land_nonneg; right; apply Z.land_nonneg; lia).
    pose proof (Z.bit_log2 (Z.land hits g) ltac:(lia)) as Hb. pose proof (Z.log2_nonneg (Z.land hits g)).
    rewrite Z.land_spec, Hg in Hb by done. apply andb_prop in Hb as [Hb1 Hb2]. zcmp. eauto.
  - intros (j & Hj & H1 & H2) Hz. apply (f_equal (fun z => Z.testbit z j)) in Hz.
    rewrite Z.land_spec, Hg, H1, H2, Z.bits_0 in Hz by lia. replace (j <? 16) with true in Hz by (symmetry; apply Z.ltb_lt; lia). done.
Qed.

Lemma clear_group rest shift i :
  0 <= shift <= 48 -> 0 <= i < 64 ->
  Z.testbit (Z.land rest (not64 (u64 (Z.shiftl 65535 shift)))) i =
  Z.testbit rest i && negb ((shift <=? i) && (i <? shift + 16)).
Proof.
  intros Hs Hi. rewrite clear_testbit by done. do 2 f_equal. unfold u64.
  change 18446744073709551616 with (2 ^ 64). rewrite Z.mod_pow2_bits_low, Z.shiftl_spec by lia.
  change 65535 with (Z.ones 16). destruct (Z.leb_spec shift i); cbn.
  - rewrite Z.testbit_ones_nonneg by lia. destruct (Z.ltb_spec i (shift + 16)); [apply Z.ltb_lt|apply Z.ltb_ge]; lia.
  - by rewrite Z.testbit_neg_r by lia.
Qed.

Lemma tag_sweep_spec fuel tags tag rest :
  length tags = 64%nat -> word64 rest -> rest <> 0 ->
  (forall i, 0 <= i < 16 * (4 - Z.of_nat fuel) -> Z.testbit rest i = false) ->
  exists b, tag_sweep fuel tags tag rest = Some b /\
    (b = true <-> exists p, 0 <= p < 64 /\ Z.testbit rest p = true /\ tags !! Z.to_nat p = Some tag).
Proof.
  intros Hl. revert rest. induction fuel as [|fuel IH]; intros rest Hw Hn Hlow.
  { destruct (word64_bit rest Hw Hn) as (i & Hi & Hb). rewrite Hlow in Hb by lia. done. }
  destruct (ctzll_spec rest Hw Hn) as (Hc & Hb & Hz). cbn [tag_sweep]. unfold kTagLanes in *.
  set (g := ctzll rest / 16). assert (0 <= g < 4 /\ 16 * g <= ctzll rest < 16 * g + 16) as [Hg Hcg].
  { unfold g. Z.div_mod_to_equations; lia. }
  destruct (tag_hits_spec tags (g * 16) tag (Z.to_nat 16) 0 0) as (hits & -> & Hh); [lia|lia|lia|]. cbn [mbind option_bind].
  assert (forall j, 0 <= j < 16 -> Z.testbit hits j = true <-> tags !! Z.to_nat (g * 16 + j) = Some tag) as Hh'.
  { intros j Hj. rewrite Hh by lia. rewrite Z.bits_0. split; [intros [?|[_ ?]]; done|]. intros. right. split; [lia|done]. }
  pose proof (group_test rest hits (g * 16) ltac:(lia) Hw) as Ht. set (x := Z.land hits _) in *.
  destruct (x =? 0) eqn:Ex; cbn [negb].
  2:{ exists true. split; [done|]. split; [intros _|done]. destruct (proj1 Ht eq_refl) as (j & Hj & H1 & H2).
      exists (g * 16 + j). split; [lia|]. split; [done|]. by apply Hh'. }
  set (rest' := Z.land rest _).
  assert (forall i, 0 <= i < 64 -> Z.testbit rest' i = Z.testbit rest i && negb ((g * 16 <=? i) && (i <? g * 16 + 16))) as Hr'.
  { intros i Hi. apply clear_group; lia. }
  assert (word64 rest') as Hw' by (apply word64_land; [done|apply u64_range]).
  assert (forall p, 0 <= p < 64 -> Z.testbit rest p = true -> tags !! Z.to_nat p = Some tag -> Z.testbit rest' p = true) as Hkeep.
  { intros p Hp Hb' Htag. rewrite Hr', Hb' by done. destruct (Z.leb_spec (g * 16) p), (Z.ltb_spec p (g * 16 + 16)); try done.
    enough (true = false) by done. apply Ht. exists (p - g * 16).
    replace (g * 16 + (p - g * 16)) with p by lia. split; [lia|]. split; [|done]. apply Hh'; [lia|].
    by replace (g * 16 + (p - g * 16)) with p by lia. }
  destruct (Z.eqb_spec rest' 0) as [E0|E0].
  - exists false. split; [done|]. split; [done|]. intros (p & Hp & Hb' & Htag).
    specialize (Hkeep p Hp Hb' Htag). by rewrite E0, Z.bits_0 in Hkeep.
  - destruct (IH rest' Hw' E0) as (b & -> & Hb'').
    { intros i Hi. rewrite Hr' by lia. destruct (Z.ltb_spec i (ctzll rest)); [by rewrite Hz by lia|].
      assert (g * 16 <= i < g * 16 + 16) as Hin.
      { split; [lia|]. destruct (Z.ltb_spec (ctzll rest) (16 * (4 - Z.of_nat (S fuel)))); [|lia]. rewrite Hlow in Hb by lia. done. }
      replace (g * 16 <=? i) with true by (symmetry; apply Z.leb_le; lia).
      replace (i <? g * 16 + 16) with true by (symmetry; apply Z.ltb_lt; lia). apply andb_false_r. }
    exists b. split; [done|]. rewrite Hb''. split; intros (p & Hp & H1 & H2); exists p; split_and!; try done; try lia.
    + rewrite Hr' in H1 by done. by apply andb_prop in H1 as [? _].
    + by apply Hkeep.
Qed.

(** * The invariant *)
Definition wrap_free (F D : Z) : Prop := 0 <= F <= D /\ D < UINT64_MAX.

Lemma id_active_spec id F D :
  wrap_free F D -> 0 <= id <= UINT64_MAX ->
  read_local_id_active id (u64 D) (u64 F) = (F <=? id) && (id <? D).
Proof.
  unfold wrap_free, UINT64_MAX, read_local_id_active. intros H Hi.
  rewrite !(u64_small D), !(u64_small F) by lia. rewrite (u64_small (D - F)) by lia.
  destruct (Z.leb_spec F id) as [HF|HF]; cbn.
  - rewrite u64_small by lia. destruct (Z.ltb_spec id D); [apply Z.ltb_lt|apply Z.ltb_ge]; lia.
  - apply Z.ltb_ge. unfold u64. Z.div_mod_to_equations; lia.
Qed.

(** Keys a write touches: [None] is "any key". *)
Abbreviation Keys := (option (list Z)).
Definition touches_key (k : Keys) (h : Z) : Prop := match k with None => True | Some K => h ∈ K end.

Section Inv.
Context (Capacity : Z) (Hcap : rob_capacity Capacity) (touches : Op -> Z -> bool).
Implicit Types (w : list Op).

(** A descriptor speaks for every key of the write it stands for. *)
Definition desc_ok w (F : Z) (kind : PendingWrite) (word id : Z) (k : Keys) : Prop :=
  match kind with
  | PwNone => False
  | PwOverflow => True
  | PwHash => exists K, k = Some K /\ forall h, h ∈ K -> h = word
  | PwKeyset => exists K o, k = Some K /\ w !! Z.to_nat (id - F) = Some o /\
      forall h, h ∈ K -> Z.land word (keyset_filter h) = keyset_filter h /\ touches o h = true
  end.
Definition entry_kind (e : Entry) : PendingWrite := if e_keyset e then PwKeyset else PwHash.
Definition covered_side w F s E (id : Z) (k : Keys) : Prop :=
  (overflow s = true /\ id <= overflow_through s) \/
  (exists e, e ∈ E /\ e_id e = id /\ desc_ok w F (entry_kind e) (e_hash e) id k) \/
  (pending_op_id s = id /\ desc_ok w F (pending_write s) (pending_hash s) id k).

Definition side_inv r s E (D : Z) : Prop :=
  ring_rep s E /\ (overflow s = false -> filter_rep r s E) /\ ids_sorted E /\
  Forall (fun e => 0 <= e_id e < D) E /\
  write_force r = (if overflow s then 1 else 0) /\
  (overflow s = true -> E = [] /\ 0 <= overflow_through s < D) /\
  staged r = negb (bool_decide (pending_write s = PwNone)) /\
  (inactive r = true -> overflow s = false /\ E = [] /\ pending_write s = PwNone) /\
  (pending_write s <> PwNone ->
     0 <= pending_op_id s <= D /\ Forall (fun e => e_id e < pending_op_id s) E /\
     (overflow s = true -> overflow_through s < pending_op_id s)).

(** Everything but the three filter words. *)
Definition same_but_filter r r' : Prop := exists v wd fo, r' = set_filter_words r v wd fo.
Definition same_pending s s' : Prop :=
  pending_write s' = pending_write s /\ pending_hash s' = pending_hash s /\
  pending_op_id s' = pending_op_id s.

Lemma ids_sorted_drop n E : ids_sorted E -> ids_sorted (drop n E).
Proof.
  intros H i j a b Hij Ha Hb. rewrite lookup_drop in Ha, Hb. by apply (H (n + i)%nat (n + j)%nat); [lia| |].
Qed.

Lemma ids_sorted_head n E e F :
  ids_sorted E -> (forall e, E !! n = Some e -> F <= e_id e) -> e ∈ drop n E -> F <= e_id e.
Proof.
  intros Hs Hn He. apply list_elem_of_lookup in He as [i Hi]. rewrite lookup_drop in Hi.
  destruct (E !! n) as [e0|] eqn:E0.
  - specialize (Hn e0 eq_refl). destruct i as [|i]; [by rewrite Nat.add_0_r, E0 in Hi; injection Hi as <-|].
    specialize (Hs n (n + S i)%nat e0 e ltac:(lia) E0 Hi). lia.
  - apply lookup_ge_None in E0. apply lookup_lt_Some in Hi. lia.
Qed.

Lemma filter_rep_drop n r s s' E v wd fo :
  (length E <= 64)%nat -> filter_rep r s E -> write_tags s' = write_tags s ->
  write_head s' = ring_pos (write_head s) n ->
  (forall j e, (n <= j)%nat -> E !! j = Some e ->
     Z.testbit v (ring_pos (write_head s) j) = Z.testbit (write_valid r) (ring_pos (write_head s) j) /\
     Z.testbit wd (ring_pos (write_head s) j) = Z.testbit (write_wide r) (ring_pos (write_head s) j)) ->
  word64 v -> filter_rep (set_filter_words r v wd fo) s' (drop n E).
Proof.
  intros Hl [_ H] Ht Hh Hb Hv. split; [done|]. intros j e Hj. rewrite lookup_drop in Hj. cbn. rewrite Ht, Hh.
  replace (ring_pos (ring_pos (write_head s) n) j) with (ring_pos (write_head s) (n + j))
    by (unfold ring_pos; Z.div_mod_to_equations; lia).
  destruct (H _ _ Hj) as (? & ? & ?). destruct (Hb (n + j)%nat e ltac:(lia) Hj) as [-> ->]. done.
Qed.

(** What every pruning keeps. *)
Definition pruned F D r s E r' s' E' : Prop :=
  same_but_filter r r' /\ same_pending s s' /\ side_inv r' s' E' D /\
  (forall e, e ∈ E' -> e ∈ E) /\
  (overflow s' = true -> overflow s = true /\ overflow_through s' = overflow_through s) /\
  (overflow s' = false -> Forall (fun e => F <= e_id e) E') /\
  (forall w id k, F <= id -> covered_side w F s E id k -> covered_side w F s' E' id k).

Lemma same_but_filter_refl r : same_but_filter r r.
Proof. exists (write_valid r), (write_wide r), (write_force r). by destruct r. Qed.

Lemma ring_rep_empty s k : length (write_tags s) = 64%nat -> length (write_ring s) = 64%nat -> ring_rep (set_ring_words s k 0 0) [].
Proof. intros Ht Hr. unfold ring_rep; cbn. split_and!; try done; lia. Qed.

Lemma covered_side_keep w F s s' E E' id k :
  same_pending s s' -> (overflow s = true -> overflow s' = true /\ overflow_through s' = overflow_through s) ->
  (forall e, e ∈ E -> F <= e_id e -> e ∈ E') -> F <= id ->
  covered_side w F s E id k -> covered_side w F s' E' id k.
Proof.
  intros (Hp1 & Hp2 & Hp3) Ho HE Hid [[H1 H2]|[(e & He & Hi & Hd)|[H1 H2]]].
  - left. destruct (Ho H1) as [-> ->]. done.
  - right; left. exists e. split; [apply HE; [done|lia]|done].
  - right; right. by rewrite Hp1, Hp2, Hp3.
Qed.

Lemma prune_overflow r s E F D :
  wrap_free F D -> side_inv r s E D -> overflow s = true ->
  exists r' s' E', read_local_prune_at r s (u64 D) (u64 F) = Some (r', s') /\ pruned F D r s E r' s' E'.
Proof.
  intros HW H Ho. pose proof H as (Hr & Hf & Hs & Hid & Hfo & Hov & Hst & Hin & Hp).
  destruct (Hov Ho) as [-> Hth]. unfold read_local_prune_at. rewrite Ho, id_active_spec by (unfold wrap_free in *; done || lia).
  destruct (Z.leb_spec F (overflow_through s)), (Z.ltb_spec (overflow_through s) D); try lia; cbn [andb].
  - exists r, s, []. split; [done|]. unfold pruned, same_pending. split_and!; try done. apply same_but_filter_refl.
  - exists (read_local_write_leave_overflow r), (set_overflow s false (overflow_through s)), [].
    split; [done|]. destruct Hr as (Ht & Hl & _). unfold pruned, same_pending. split_and!; try done.
    + by exists 0, 0, 0.
    + unfold side_inv. cbn. split_and!; try done.
      * by apply (ring_rep_empty s 0).
      * intros Hi. destruct (Hin Hi) as (? & _ & ?). done.
      * intros Hpn. destruct (Hp Hpn) as (? & ? & ?). split_and!; try done; lia.
    + intros w id k HF [[_ Hc]|[(e & He & _)|Hc]]; [lia|by apply elem_of_nil in He|]. by right; right.
Qed.

Lemma pruned_drop F D r s E n v wd ks h c :
  let r' := set_filter_words r v wd (write_force r) in let s' := set_ring_words s ks h c in
  side_inv r s E D -> overflow s = false -> ring_rep s' (drop n E) -> filter_rep r' s' (drop n E) ->
  (forall e, e ∈ E -> F <= e_id e -> e ∈ drop n E) -> (forall e, e ∈ drop n E -> F <= e_id e) ->
  pruned F D r s E r' s' (drop n E).
Proof.
  intros r' s' (Hr & Hf & Hs & Hid & Hfo & _ & Hst & Hin & Hp) Ho Hr' Hf' Hk HF.
  unfold r', s' in *; clear r' s'.
  assert (forall e, e ∈ drop n E -> e ∈ E) as Hsub by (intros e; apply subseteq_drop).
  unfold pruned. split; [by exists v, wd, (write_force r)|]. split; [done|]. split.
  { unfold side_inv. cbn. rewrite Ho in *. split; [done|]. split; [done|].
    split; [by apply ids_sorted_drop|]. split; [by apply Forall_drop|].
    repeat (split; [done|]). split.
    - intros Hi. destruct (Hin Hi) as (_ & -> & ?). by rewrite drop_nil.
    - intros Hpn. destruct (Hp Hpn) as (? & ? & ?). repeat (split; [done|]). split; [by apply Forall_drop|done]. }
  split; [done|]. cbn. split; [by rewrite Ho|]. split; [intros _; by apply Forall_forall|].
  intros w id k HF' Hc. apply (covered_side_keep w F s _ E); [done| |exact Hk|done|exact Hc]. by rewrite Ho.
Qed.

Lemma prune_ring r s E F D :
  wrap_free F D -> side_inv r s E D -> overflow s = false ->
  exists r' s' E', read_local_prune_at r s (u64 D) (u64 F) = Some (r', s') /\ pruned F D r s E r' s' E'.
Proof.
  intros HW H Ho. pose proof H as (Hr & Hf & Hs & Hid & Hfo & _ & Hst & Hin & Hp).
  pose proof Hr as (Ht & Hlr & Hh & Hc & Hl & _). specialize (Hf Ho). rewrite Forall_forall in Hid.
  destruct (prune_loop_spec E (Z.to_nat (write_count s)) (u64 D) (u64 F) s 0) as
    (n & s1 & ret & Hloop & Hr1 & Hn & Hh1 & (ks & c & Hs1) & Hgone & Hact & Hret); [lia|done|].
  unfold read_local_prune_at. rewrite Ho, Hloop. cbn [mbind option_bind].
  assert (forall e, e ∈ E -> read_local_id_active (e_id e) (u64 D) (u64 F) = (F <=? e_id e)) as Hspec.
  { intros e He. pose proof (Hid e He). rewrite id_active_spec by (unfold wrap_free in *; done || lia).
    destruct (Z.ltb_spec (e_id e) D); [apply andb_true_r|lia]. }
  assert (forall e, e ∈ E -> F <= e_id e -> e ∈ drop n E) as Hkeep.
  { intros e He HF. apply list_elem_of_lookup in He as [i Hi].
    destruct (decide (i < n)%nat) as [Hlt|Hge].
    - specialize (Hgone i e Hlt Hi). rewrite Hspec in Hgone by (by eapply list_elem_of_lookup_2). lia.
    - apply (list_elem_of_lookup_2 _ (i - n)). rewrite lookup_drop. by replace (n + (i - n))%nat with i by lia. }
  assert (forall e, e ∈ drop n E -> e ∈ E /\ F <= e_id e) as Hin'.
  { intros e He. split; [by apply (subseteq_drop n)|]. eapply ids_sorted_head; [exact Hs| |exact He].
    intros e0 He0. pose proof (Hact e0 He0) as Ha. rewrite Hspec in Ha by (by eapply list_elem_of_lookup_2). lia. }
  rewrite Hh1 in Hs1. subst s1. clear Hh1.
  destruct (Z.eqb_spec (write_count (set_ring_words s ks (ring_pos (write_head s) n) c)) 0) as [Hz|Hz].
  { destruct Hr1 as (_ & _ & _ & Hc1 & _). rewrite Hz in Hc1.
    assert (drop n E = []) as Hnil by (apply nil_length_inv; lia). cbn in Hz. subst c.
    eexists _, _, (drop n E). split; [reflexivity|].
    apply (pruned_drop F D r s E n 0 0 0 0 0); [done|done| | |done|intros e He; by apply Hin'].
    - rewrite Hnil. by apply ring_rep_empty.
    - rewrite Hnil. split; [done|]. by intros j e Hj. }
  assert (forall v wd, (v = write_valid r /\ wd = write_wide r) \/
            (v = Z.land (write_valid r) (not64 ret) /\ wd = Z.land (write_wide r) (not64 ret)) ->
          pruned F D r s E (set_filter_words r v wd (write_force r))
            (set_ring_words s ks (ring_pos (write_head s) n) c) (drop n E)) as Hfin.
  { intros v wd Hv. apply pruned_drop; try done; [|intros e He; by apply Hin'].
    assert (word64 v) as Hwv.
    { destruct Hf as [Hf0 _]. destruct Hv as [[-> _]|[-> _]]; [done|]. apply word64_land; [done|apply u64_range]. }
    eapply filter_rep_drop; [done|exact Hf|done|done| |done]. intros j e Hj He.
    pose proof (ring_pos_bounds (write_head s) j). destruct Hv as [[-> ->]|[-> ->]]; [done|].
    assert (Z.testbit ret (ring_pos (write_head s) j) = false) as Hb.
    { apply not_true_iff_false. intros Hb. destruct (Hret (ring_pos (write_head s) j) ltac:(lia) Hb) as [Hb'|(j' & Hj' & Epos)].
      - by rewrite Z.bits_0 in Hb'.
      - pose proof (lookup_lt_Some _ _ _ He). apply ring_pos_inj in Epos; lia. }
    rewrite !clear_testbit, Hb by lia. by rewrite !andb_true_r. }
  destruct (negb (ret =? 0)).
  - eexists _, _, (drop n E). split; [reflexivity|]. apply Hfin. by right.
  - eexists _, _, (drop n E). split; [reflexivity|]. specialize (Hfin (write_valid r) (write_wide r) (or_introl (conj eq_refl eq_refl))).
    by destruct r.
Qed.

Lemma prune_at_spec r s E F D :
  wrap_free F D -> side_inv r s E D ->
  exists r' s' E', read_local_prune_at r s (u64 D) (u64 F) = Some (r', s') /\ pruned F D r s E r' s' E'.
Proof. destruct (overflow s) eqn:Ho; eauto using prune_overflow, prune_ring. Qed.

(** ** Committing a precise write *)
Lemma sorted_ids_grow E F i e :
  ids_sorted E -> (forall e, e ∈ E -> F <= e_id e) -> E !! i = Some e -> F + Z.of_nat i <= e_id e.
Proof.
  intros Hs HF. revert e. induction i as [|i IH]; intros e He.
  - rewrite Z.add_0_r. apply HF. by eapply list_elem_of_lookup_2.
  - destruct (lookup_lt_is_Some_2 E i) as [e' He']; [apply lookup_lt_Some in He; lia|].
    specialize (IH e' He'). specialize (Hs i (S i) e' e ltac:(lia) He' He). lia.
Qed.

(** Sixty-four slots always suffice: live descriptors name distinct ids older than the new one. *)
Lemma ring_has_room E F op_id :
  ids_sorted E -> (forall e, e ∈ E -> F <= e_id e < op_id) -> F <= op_id ->
  Z.of_nat (length E) <= op_id - F.
Proof.
  intros Hs HF Ho. destruct E as [|e0 E] using rev_ind; [cbn; lia|]. rewrite length_app in *; cbn [length].
  assert ((E ++ [e0]) !! length E = Some e0) as Hl by (by rewrite lookup_app_r, Nat.sub_diag).
  pose proof (sorted_ids_grow _ F _ _ Hs (fun e He => proj1 (HF e He)) Hl).
  pose proof (HF e0 ltac:(by eapply list_elem_of_lookup_2)). lia.
Qed.

Lemma ids_sorted_snoc E e : ids_sorted E -> (forall x, x ∈ E -> e_id x < e_id e) -> ids_sorted (E ++ [e]).
Proof.
  intros Hs He i j a b Hij Ha Hb. apply lookup_app_Some in Hb as [Hb|[Hj Hb]].
  - rewrite lookup_app_l in Ha by (apply lookup_lt_Some in Hb; lia). by apply (Hs i j).
  - apply list_lookup_singleton_Some in Hb as [Hj' <-].
    rewrite lookup_app_l in Ha by lia. apply He. by eapply list_elem_of_lookup_2.
Qed.

Lemma commit_rep r r' s E hash op_id kb ks t ph pi ov pw o :
  ring_rep s E -> filter_rep r s E -> (length E < 64)%nat -> t = ring_pos (write_head s) (length E) ->
  write_valid r' = Z.lor (write_valid r) (bit64 t) ->
  (forall i, 0 <= i < 64 ->
     Z.testbit ks i = (if t =? i then kb else Z.testbit (write_keyset_slots s) i) /\
     Z.testbit (write_wide r') i = (if t =? i then kb else Z.testbit (write_wide r) i)) ->
  let s' := mkRLS (<[Z.to_nat t := u16 hash]> (write_tags s)) ph pi ov ks (write_head s)
                  (u8 (Z.of_nat (length E) + 1)) pw o (<[Z.to_nat t := mkWK hash op_id]> (write_ring s)) in
  ring_rep s' (E ++ [mkEntry hash op_id kb]) /\ filter_rep r' s' (E ++ [mkEntry hash op_id kb]).
Proof.
  intros (Ht & Hlr & Hh & Hc & Hl & Hrep) [Hwf Hf] HE -> Hv Hb s'.
  set (t := ring_pos (write_head s) (length E)) in *.
  pose proof (ring_pos_bounds (write_head s) (length E)) as Ht0. fold t in Ht0.
  assert (forall j, (j < length E)%nat -> ring_pos (write_head s) j <> t) as Hne.
  { intros j Hj Ej. apply ring_pos_inj in Ej; lia. }
  unfold ring_rep, filter_rep, s'; cbn. rewrite !length_insert, length_app, u8_small by lia; cbn [length].
  split; [split_and!; try done; try lia|split].
  2:{ rewrite Hv. apply word64_lor; [done|apply word64_u64]. }
  all: intros j e He; apply lookup_app_Some in He as [He|[Hj He]];
    [|apply list_lookup_singleton_Some in He as [Hj' <-]; replace j with (length E) by lia; fold t].
  all: try (pose proof (lookup_lt_Some _ _ _ He) as Hlt; pose proof (Hne j Hlt) as Hnt;
    pose proof (ring_pos_bounds (write_head s) j);
    rewrite list_lookup_insert_ne by lia; destruct (Hb _ ltac:(eassumption)) as [Hk Hw];
    replace (t =? ring_pos (write_head s) j) with false in * by (symmetry; apply Z.eqb_neq; lia)).
  - rewrite Hk. by apply Hrep.
  - rewrite list_lookup_insert_eq by lia. destruct (Hb t Ht0) as [-> _]. by rewrite Z.eqb_refl.
  - rewrite Hw, Hv, Z.lor_spec. destruct (Hf j e He) as (-> & -> & ->). done.
  - rewrite list_lookup_insert_eq by lia. destruct (Hb t Ht0) as [_ ->].
    rewrite Z.eqb_refl, Hv, Z.lor_spec, bit64_testbit, Z.eqb_refl, orb_true_r by lia. done.
Qed.

Lemma ring_commit_spec r s E F D p hash op_id :
  side_inv r s E D -> overflow s = false -> pending_write s = PwNone -> inactive r = false ->
  (forall e, e ∈ E -> F <= e_id e < op_id) -> 0 <= F <= op_id -> op_id < D -> D - F <= 64 ->
  exists r' s', ring_commit r s p hash op_id = Some (r', s') /\
    (exists st, same_but_filter (set_stats r st) r') /\ same_pending s s' /\ overflow s' = false /\
    side_inv r' s' (E ++ [mkEntry hash op_id (bool_decide (p = PwKeyset))]) D.
Proof.
  intros (Hr & Hf & Hs & Hid & Hfo & _ & Hst & Hin & Hp) Ho Hpn Hina HE HF HD Hw.
  specialize (Hf Ho). pose proof Hr as (Ht & Hlr & Hh & Hc & Hl & Hrep).
  pose proof (ring_has_room E F op_id Hs HE ltac:(lia)) as Hroom.
  unfold ring_commit. rewrite Hc, ring_pos_land. set (t := ring_pos (write_head s) (length E)).
  pose proof (ring_pos_bounds (write_head s) (length E)) as Ht0. fold t in Ht0.
  destruct (lookup_lt_is_Some_2 (write_ring s) (Z.to_nat t)) as [k0 Hk0]; [lia|].
  rewrite Hk0. cbn [mbind option_bind].
  set (kb := bool_decide (p = PwKeyset)).
  assert (exists ks wd, (if kb then (Z.lor (write_keyset_slots s) (bit64 t), Z.lor (write_wide r) (bit64 t))
            else (Z.land (write_keyset_slots s) (not64 (bit64 t)), Z.land (write_wide r) (not64 (bit64 t))))
            = (ks, wd) /\
          (forall i, 0 <= i < 64 -> Z.testbit ks i = (if t =? i then kb else Z.testbit (write_keyset_slots s) i) /\
                                    Z.testbit wd i = (if t =? i then kb else Z.testbit (write_wide r) i)))
    as (ks & wd & Eks & Hbits).
  { destruct kb; eexists _, _; (split; [reflexivity|]); intros i Hi;
      rewrite ?clear_testbit, ?Z.lor_spec, bit64_testbit by lia;
      destruct (t =? i); rewrite ?orb_true_r, ?orb_false_r, ?andb_true_r, ?andb_false_r; done. }
  cbn [set_stats write_wide set_arm write_valid write_force]. rewrite Eks.
  eexists _, _. split; [reflexivity|]. split; [by eexists _, _, _, _|]. split; [done|]. split; [done|].
  destruct (commit_rep r (set_filter_words (set_stats r (bump_records (arm_stats r)))
      (Z.lor (write_valid r) (bit64 t)) wd (write_force r)) s E hash op_id kb ks t (pending_hash s)
      (pending_op_id s) (overflow_through s) (pending_write s) (overflow s)) as [Hr' Hf'];
    [done|done|lia|done|done|exact Hbits|].
  split; [exact Hr'|].
  cbn. rewrite Ho, Hpn in *. split; [intros _; exact Hf'|].
  split; [apply ids_sorted_snoc; [done|intros x Hx; cbn; by apply HE]|].
  split; [apply Forall_app; split; [done|constructor; [cbn; lia|constructor]]|].
  repeat (split; [done|]). split; [by rewrite Hina|done].
Qed.

(** ** The connection invariant *)
Definition covered r E w (F id : Z) (k : Keys) : Prop :=
  (arm_state r <> 0 /\ unarmed_write_id r <> UINT64_MAX /\ id <= unarmed_write_id r) \/
  (exists s, side r = Some s /\ covered_side w F s E id k).
Definition arm_ok r (D : Z) : Prop :=
  (arm_state r = 0 \/ arm_state r = kReadLocalUnarmed \/ arm_state r = kReadLocalArmFence) /\
  (arm_state r = kReadLocalUnarmed -> side r = None) /\ (side r = None -> staged r = false /\ write_force r = 0 /\ word64 (write_valid r)) /\
  (unarmed_write_id r = UINT64_MAX \/ 0 <= unarmed_write_id r <= D).
Definition rl_inv r (F : Z) w (live : list (Z * Keys)) : Prop :=
  let D := F + Z.of_nat (length w) in
  rob_inv Capacity (win r) F w /\ wrap_free F D /\ arm_ok r D /\
  exists E, (forall s, side r = Some s -> side_inv r s E D) /\
    forall id k, (id, k) ∈ live -> 0 <= id < D /\ (F <= id -> covered r E w F id k).

(** A step that keeps window, arming words and fence, and re-covers every unretired write. *)
Lemma rl_inv_update r r' F w live E E' s s' :
  let D := F + Z.of_nat (length w) in
  rl_inv r F w live -> side r = Some s -> side r' = Some s' ->
  win r' = win r -> arm_state r' = arm_state r -> unarmed_write_id r' = unarmed_write_id r ->
  (forall id k, (id, k) ∈ live -> 0 <= id < D /\ (F <= id -> covered r E w F id k)) ->
  side_inv r' s' E' D ->
  (forall id k, F <= id < D -> covered_side w F s E id k -> covered_side w F s' E' id k) ->
  rl_inv r' F w live.
Proof.
  intros D (Hw & HW & (Ha & Ha1 & Hs1 & Hu) & _) Hs Hs' Ew Ea Eu Hlive Hinv Hc.
  unfold rl_inv, arm_ok. rewrite Ew, Ea, Eu. split; [done|]. split; [done|]. split.
  { split; [done|]. split; [intros E1; apply Ha1 in E1; congruence|]. split; [congruence|done]. }
  exists E'. split; [intros s0; rewrite Hs'; by intros [= <-]|].
  intros id k Hid. destruct (Hlive id k Hid) as [Hb Hcov]. split; [done|]. intros HF.
  destruct (Hcov HF) as [Hl|(s0 & Hs0 & Hcs)]; [left; by rewrite Ea, Eu|right].
  rewrite Hs in Hs0. injection Hs0 as <-. exists s'. split; [done|]. apply Hc; [lia|done].
Qed.

Definition same_arming r r' : Prop :=
  win r' = win r /\ arm_state r' = arm_state r /\ unarmed_write_id r' = unarmed_write_id r.
(** What consuming the candidate establishes. *)
Definition resolved F D r s E r' s' E' : Prop :=
  same_arming r r' /\ pending_write s' = PwNone /\ staged r' = false /\ inactive r' = false /\
  side_inv r' s' E' D /\
  forall w id k, F <= id < D -> covered_side w F s E id k -> covered_side w F s' E' id k.

(** The conservative generation swallows the ring. *)
Lemma enter_overflow_inv r s E D op_id :
  side_inv r s E D -> pending_write s = PwNone -> inactive r = false -> 0 <= op_id < D ->
  side_inv (if negb (overflow s) then read_local_write_enter_overflow r else r)
           (set_overflow s true op_id) [] D.
Proof.
  intros (Hr & Hf & Hs & Hid & Hfo & Hov & Hst & Hin & Hp) Hpn Hina Hop.
  pose proof Hr as (Ht & Hlr & _). unfold side_inv; cbn. rewrite Hpn in *.
  split; [by apply (ring_rep_empty s 0)|]. split; [done|]. split; [by intros ? ? ? ? ? ?|]. split; [done|].
  split; [by destruct (overflow s); cbn|]. split; [done|]. split; [by destruct (overflow s); cbn|].
  split; [|done]. by destruct (overflow s); cbn; rewrite Hina.
Qed.

(** The new descriptor covers the write it was staged for, the old ones what they covered. *)
Lemma commit_covers w F s s2 s3 E E2 id k :
  pending_write s <> PwNone -> pending_write s <> PwOverflow ->
  (overflow s = true -> overflow_through s < pending_op_id s) ->
  (forall e, e ∈ E -> e_id e < pending_op_id s) ->
  (id <> pending_op_id s -> covered_side w F s2 E2 id k) ->
  overflow s2 = false -> pending_write s2 = PwNone -> covered_side w F s E id k ->
  covered_side w F s3
    (E2 ++ [mkEntry (pending_hash s) (pending_op_id s) (bool_decide (pending_write s = PwKeyset))]) id k.
Proof.
  intros Hn1 Hn2 Hov HE Hold Ho2 Hp2 Hc. right; left.
  destruct (decide (id = pending_op_id s)) as [->|Hne].
  - eexists. split; [apply elem_of_app; right; left|]. split; [done|].
    destruct Hc as [[Hc1 Hc2]|[(e & He & Hei & _)|[_ Hd]]]; [specialize (Hov Hc1); lia|specialize (HE e He); lia|].
    unfold entry_kind; cbn. by destruct (pending_write s).
  - destruct (Hold Hne) as [[? _]|[(e & He & Hd)|[_ Hd]]]; [congruence| |by rewrite Hp2 in Hd].
    exists e. split; [apply elem_of_app; by left|done].
Qed.

(** Resolving the candidate, whatever became of the write it stood for. *)
Lemma resolve_body_spec r s E F D :
  wrap_free F D -> D - F <= 64 -> rl_dispatch r = u64 D -> rl_flush r = u64 F ->
  side_inv r s E D -> pending_write s <> PwNone ->
  exists r' s' E', read_local_resolve_pending_body (set_side r s (inactive r) false) s = Some (r', s') /\
    resolved F D r s E r' s' E'.
Proof.
  intros HW Hwin Hd Hf H Hpn. pose proof H as (Hr & Hfr & Hs & Hid & Hfo & Hov & Hst & Hin & Hp).
  destruct (Hp Hpn) as (Hpi & Hpe & Hpo). clear Hp.
  assert (inactive r = false) as Hina by (apply not_true_iff_false; intros Hi; by apply Hin in Hi as (_ & _ & ?)).
  set (r1 := set_side r s (inactive r) false). set (s1 := set_pending s PwNone (pending_hash s) (pending_op_id s)).
  assert (side_inv r1 s1 E D) as H1.
  { unfold side_inv, r1, s1; cbn. rewrite Hina. by split_and!. }
  assert (forall w id k, id <> pending_op_id s -> covered_side w F s E id k -> covered_side w F s1 E id k) as Hold.
  { intros w id k Hne [?|[?|[? _]]]; [by left|by right; left|congruence]. }
  unfold read_local_resolve_pending_body. rewrite bool_decide_eq_false_2 by done.
  change (rl_dispatch r1) with (rl_dispatch r). change (rl_flush r1) with (rl_flush r). rewrite Hd, Hf.
  rewrite id_active_spec by (unfold wrap_free in *; done || lia). fold s1.
  destruct ((F <=? pending_op_id s) && (pending_op_id s <? D)) eqn:Ea; cbn [negb].
  2:{ exists r1, s1, E. split; [done|]. unfold resolved. split_and!; try done.
      intros w id k HF Hc. apply Hold; [|done]. intros ->. apply andb_false_iff in Ea as [Ea|Ea]; zcmp; lia. }
  apply andb_prop in Ea as [Ea1 Ea2]; zcmp.
  destruct (prune_at_spec r1 s1 E F D HW H1) as (r2 & s2 & E2 & -> & (v & wd & fo & Er2) & (P1 & P2 & P3) & H2 & Hsub & Ho2 & HF2 & Hc2).
  cbn [mbind option_bind].
  assert (inactive r2 = false /\ staged r2 = false /\ same_arming r r2) as (Hi2 & Hst2 & Hsame) by (by rewrite Er2).
  rewrite Forall_forall in Hpe.
  destruct (overflow s2 || bool_decide (pending_write s = PwOverflow)) eqn:Eo.
  - eexists _, _, []. split; [reflexivity|]. unfold resolved.
    split; [by destruct (overflow s2)|]. split; [done|]. split; [by destruct (overflow s2)|].
    split; [by destruct (overflow s2)|]. split; [apply (enter_overflow_inv r2 s2 E2); try done; lia|].
    intros w id k HF Hc. left. split; [done|]. cbn.
    destruct Hc as [[Hc1 Hc2']|[(e & He & <- & _)|[<- _]]]; [specialize (Hpo Hc1)| |]; try lia.
    specialize (Hpe e He). cbn in Hpe. lia.
  - apply orb_false_iff in Eo as [Eo Eo']. apply bool_decide_eq_false in Eo'.
    rewrite Forall_forall in HF2 by done. unfold wrap_free in HW.
    destruct (ring_commit_spec r2 s2 E2 F D (pending_write s) (pending_hash s) (pending_op_id s))
      as (r3 & s3 & -> & (st & v' & wd' & fo' & Er3) & (Q1 & Q2 & Q3) & Eo3 & H3);
      [done|done|done|done| |lia|lia|lia|].
    { intros e He. split; [by apply HF2|]. apply Hpe. by apply Hsub. }
    eexists _, _, _. split; [reflexivity|]. unfold resolved. rewrite Q1, P1, Er3. cbn.
    split; [done|]. split; [done|]. split; [done|]. split; [done|]. split; [by rewrite <- Er3|].
    intros w id k HF Hc. apply (commit_covers w F s s2 _ E); try done.
    intros Hne. apply Hc2; [lia|]. by apply Hold.
Qed.

Lemma resolve_spec r F w live :
  rl_inv r F w live -> staged r = true ->
  exists r', resolve_read_local_write r = Some r' /\ rl_inv r' F w live /\ staged r' = false /\
    same_arming r r' /\ (side r = None <-> side r' = None).
Proof.
  intros H Hst. pose proof H as (Hw & HW & (Ha & Ha1 & Hs1 & Hu) & E & HE & Hlive).
  destruct (side r) as [s|] eqn:Es; [|by rewrite (proj1 (Hs1 eq_refl)) in Hst].
  specialize (HE s eq_refl). unfold resolve_read_local_write. rewrite Es. cbn [mbind option_bind].
  destruct Hw as (HF & Hd & Hf & Hl & Hk & Hwin).
  destruct (resolve_body_spec r s E F (F + Z.of_nat (length w))) as (r' & s' & E' & -> & (Ew & Ea & Eu) & Hpn & Hst' & Hin' & Hinv & Hc);
    [done|pose proof (rob_capacity_bounds _ Hcap); lia|done|done|done|..].
  { destruct HE as (_ & _ & _ & _ & _ & _ & Hst0 & _). intros E0. by rewrite Hst, E0 in Hst0. }
  cbn [mbind option_bind]. eexists. split; [reflexivity|]. split; [|done].
  apply (rl_inv_update r _ F w live E E' s s'); try done; [|apply Hc].
  destruct Hinv as (Hr & Hfr & Hs & Hid & Hfo & Hov & _ & _ & Hp). unfold side_inv; cbn.
  rewrite Hst', Hin', Hpn. split_and!; try done. intros Hi.
  apply andb_prop in Hi as [Hi _]. apply andb_prop in Hi as [Hi1 Hi2]. zcmp.
  destruct Hr as (_ & _ & _ & Hcnt & _). split_and!; try done. apply nil_length_inv. lia.
Qed.

(** The slot bitmaps and the claimed slot are outside the ring's business. *)
Lemma rl_inv_slots r F w live p o f x :
  rl_inv r F w live -> rob_inv Capacity x F w -> rl_inv (set_win (set_slots_words r p o f) x) F w live.
Proof. intros (_ & HW & Ha & E & HE & Hlive) Hx. split; [done|]. split; [done|]. split; [done|]. by exists E. Qed.

Lemma acquire_rl_spec fl r F w live :
  rl_inv r F w live -> Z.of_nat (length w) < Capacity ->
  exists r' o, acquire_read_local Capacity fl r = Some (r', Some o) /\ rl_inv r' F w live /\
    staged r' = false /\ unarmed_write_id r' = unarmed_write_id r /\
    slot_load (chunks (win r')) ((F + Z.of_nat (length w)) mod Capacity) = Some o.
Proof.
  intros H Hl. unfold acquire_read_local.
  assert (exists r1, (if staged r then resolve_read_local_write r else Some r) = Some r1 /\
            rl_inv r1 F w live /\ staged r1 = false /\ unarmed_write_id r1 = unarmed_write_id r) as (r1 & -> & H1 & Hst1 & Hu1).
  { destruct (staged r) eqn:Est; [|by exists r].
    destruct (resolve_spec r F w live H Est) as (r1 & ? & ? & ? & (_ & _ & ?) & _). by exists r1. }
  cbn [mbind option_bind]. pose proof H1 as (Hw & _). pose proof Hw as (HF & Hd & Hf & _ & Hk & Hwin).
  pose proof (in_flight_spec _ Hcap _ _ _ Hw) as Hfl. unfold in_flight in Hfl.
  unfold rl_dispatch, rl_flush. rewrite Hfl. replace (Capacity <=? Z.of_nat (length w)) with false by (symmetry; apply Z.leb_gt; lia).
  unfold dispatch_id. rewrite Hd, id_slot_spec by done. cbn [win set_slots_words].
  destruct (slot_grow Capacity (chunks (win r1)) ((F + Z.of_nat (length w)) mod Capacity) Hcap Hk
              (mod_slot_bounds _ Hcap _)) as (cs & o0 & -> & Hk' & Hload & Hkeep). cbn [mbind option_bind].
  destruct (slot_store_total _ _ (arm_codes (op_reset_read_local fl o0)) _ Hload) as [cs' Hs].
  rewrite Hs. cbn [mbind option_bind]. eexists _, _. split; [reflexivity|].
  split; [|split; [done|split; [done|by eapply slot_load_store_eq]]]. apply rl_inv_slots; [done|].
  unfold rob_inv; cbn. rewrite <- Hd, <- Hf. split_and!; try done; [lia|by eapply slot_store_ok|].
  intros i x Hx. pose proof (lookup_lt_Some _ _ _ Hx).
  rewrite (store_load_ne _ Hcap _ _ _ _ _ Hs) by lia. by apply Hkeep, Hwin.
Qed.

(** ** Marking and refining the current write *)
(** What the next publish needs to see recorded. *)
Definition cand_covers r F w (o : Op) (k : Keys) : Prop :=
  let D := F + Z.of_nat (length w) in
  (arm_state r = kReadLocalUnarmed /\ unarmed_write_id r = D) \/
  (exists s, side r = Some s /\ pending_op_id s = D /\
     desc_ok (w ++ [o]) F (pending_write s) (pending_hash s) D k).
Definition cand_fresh r (D : Z) : Prop :=
  (arm_state r = kReadLocalUnarmed /\ unarmed_write_id r = D) \/
  (arm_state r <> kReadLocalUnarmed /\
   exists s, side r = Some s /\ pending_op_id s = D /\ pending_write s = PwOverflow).

Lemma dispatch_eq r F w live : rl_inv r F w live -> rl_dispatch r = F + Z.of_nat (length w) /\ rl_flush r = F.
Proof.
  intros ((_ & Hd & Hf & _) & HW & _). unfold wrap_free, UINT64_MAX in HW.
  unfold rl_dispatch, dispatch_id, rl_flush, flush_id. rewrite Hd, Hf, !u64_small by lia. done.
Qed.

(** Recording the newest id alone covers every write so far. *)
Lemma unarmed_inv r F w live :
  rl_inv r F w live -> side r = None ->
  rl_inv (set_arm r kReadLocalUnarmed (F + Z.of_nat (length w)) (arm_stats r)) F w live.
Proof.
  intros (Hw & HW & (_ & _ & Hs & _) & E & _ & Hlive) Hside. unfold wrap_free, UINT64_MAX in HW.
  split; [done|]. split; [done|]. split.
  - unfold arm_ok; cbn. split; [by right; left|]. split; [done|]. split; [done|right; lia].
  - exists E. split; [cbn; by rewrite Hside|]. intros id k Hid. destruct (Hlive id k Hid) as [Hb _].
    split; [done|]. intros _. left. cbn. unfold kReadLocalUnarmed, UINT64_MAX. lia.
Qed.

Lemma prune_spec r s E F D :
  wrap_free F D -> side_inv r s E D -> rl_dispatch r = u64 D -> rl_flush r = u64 F ->
  exists r' s' E', read_local_prune r s = Some (r', s') /\ pruned F D r s E r' s' E'.
Proof.
  intros HW H Hd Hf. unfold read_local_prune. destruct (negb (overflow s) && (write_count s =? 0)) eqn:Ez.
  - exists r, s, E. split; [done|]. zcmp. pose proof H as ((_ & _ & _ & Hc & _) & _).
    assert (E = []) as -> by (apply nil_length_inv; lia). unfold pruned, same_pending.
    split_and!; try done. apply same_but_filter_refl.
  - rewrite Hd, Hf. by apply prune_at_spec.
Qed.

Lemma rls_new_inv r D i :
  write_force r = 0 -> word64 (write_valid r) -> 0 <= D -> side_inv (set_side r rls_new i false) rls_new [] D.
Proof.
  intros Hf Hs HD. unfold side_inv, ring_rep, filter_rep; cbn. split_and!; try done; lia.
Qed.

(** Staging over a sidecar that holds no candidate. *)
Lemma stage_spec r s E F w live :
  let D := F + Z.of_nat (length w) in
  rl_inv r F w live -> side r = Some s -> side_inv r s E D -> pending_write s = PwNone ->
  (forall id k, (id, k) ∈ live -> 0 <= id < D /\ (F <= id -> covered r E w F id k)) ->
  exists r', ('(r, s) ← read_local_prune (set_side r s false (staged r)) s;
              Some (set_side r (set_pending s PwOverflow 0 (rl_dispatch r)) (inactive r) true)) = Some r' /\
    rl_inv r' F w live /\ same_arming r r' /\
    exists s', side r' = Some s' /\ pending_op_id s' = D /\ pending_write s' = PwOverflow.
Proof.
  intros D H Hs HE Hpn Hlive. pose proof H as (Hw & HW & _). pose proof Hw as (HF & Hd & Hf & _).
  destruct (dispatch_eq r F w live H) as [Hdi _]. unfold wrap_free in HW.
  assert (side_inv (set_side r s false (staged r)) s E D) as HE1.
  { destruct HE as (Hr & Hfr & Hso & Hid & Hfo & Hov & Hst & Hin & Hp). unfold side_inv; cbn. by split_and!. }
  destruct (prune_spec _ s E F D HW HE1) as (r1 & s1 & E1 & -> & (v & wd & fo & ->) & (P1 & P2 & P3) & H1 & Hsub & Ho1 & _ & Hc1);
    [done|done|]. cbn [mbind option_bind]. eexists. split; [reflexivity|].
  change (rl_dispatch _) with (rl_dispatch r). rewrite Hdi.
  split; [|split; [done|by eexists]].
  apply (rl_inv_update r _ F w live E E1 s (set_pending s1 PwOverflow 0 D)); try done.
  - destruct H1 as (Hr & Hfr & Hso & Hid & Hfo & Hov & Hst & Hin & Hp). unfold side_inv; cbn.
    split_and!; try done. intros _. fold D in HW. split; [lia|].
    split; [eapply Forall_impl; [exact Hid|cbn; lia]|]. intros Ho. destruct (Hov Ho). lia.
  - intros id k HF' Hc. destruct (Hc1 w id k ltac:(lia) Hc) as [?|[?|[_ Hd']]]; [by left|by right; left|].
    by rewrite P1, Hpn in Hd'.
Qed.

Lemma mark_spec mem r F w live :
  rl_inv r F w live -> staged r = false ->
  exists r', mark_current_write mem r = Some r' /\ rl_inv r' F w live /\ win r' = win r /\
    cand_fresh r' (F + Z.of_nat (length w)).
Proof.
  intros H Hst. pose proof H as (Hw & HW & (Ha & Ha1 & Hs1 & Hu) & E & HE & Hlive).
  destruct (dispatch_eq r F w live H) as [Hdi _]. unfold mark_current_write. rewrite Hdi.
  destruct (Z.eqb_spec (arm_state r) kReadLocalUnarmed) as [E1|E1].
  { eexists. split; [reflexivity|]. rewrite E1. split; [apply unarmed_inv; auto|]. split; [done|by left]. }
  destruct (side r) as [s|] eqn:Es.
  - cbn [negb]. rewrite Es. cbn [mbind option_bind]. specialize (HE s eq_refl).
    assert (pending_write s = PwNone) as Hpn.
    { destruct HE as (_ & _ & _ & _ & _ & _ & Hst' & _). rewrite Hst in Hst'.
      symmetry in Hst'. apply negb_false_iff in Hst'. by apply bool_decide_eq_true in Hst'. }
    rewrite bool_decide_eq_true_2 by done. cbn [negb].
    destruct (stage_spec r s E F w live H Es HE Hpn Hlive) as (r' & -> & Hr' & (Ew & Ea & _) & Hc).
    exists r'. split; [done|]. split; [done|]. split; [done|]. right. by rewrite Ea.
  - unfold prepare_read_local. rewrite Es. destruct mem; cbn [negb].
    2:{ eexists. split; [reflexivity|]. unfold mark_unarmed. rewrite Hdi.
        split; [by apply unarmed_inv|]. split; [done|by left]. }
    destruct (Hs1 eq_refl) as (_ & Hfo & Hv0). set (r1 := set_stats (set_side r rls_new true false) (bump_sidecars (arm_stats r))).
    assert (forall id k, (id, k) ∈ live -> 0 <= id < F + Z.of_nat (length w) /\ (F <= id -> covered r1 [] w F id k)) as Hl1.
    { intros id k Hid. destruct (Hlive id k Hid) as [Hb Hc]. split; [done|]. intros HF.
      destruct (Hc HF) as [Hc'|(s & Hs & _)]; [by left|congruence]. }
    assert (side_inv r1 rls_new [] (F + Z.of_nat (length w))) as Hn by (apply (rls_new_inv r); [done|done|unfold wrap_free in HW; lia]).
    assert (rl_inv r1 F w live) as H1.
    { split; [done|]. split; [done|]. split; [split; [done|]; split; [done|]; split; [done|done]|].
      exists []. split; [by intros s [= <-]|done]. }
    destruct (stage_spec r1 rls_new [] F w live H1 eq_refl Hn eq_refl Hl1) as (r' & Hr' & Hi' & (Ew & Ea & _) & Hc).
    exists r'. split; [exact Hr'|]. split; [done|]. split; [done|]. right. by rewrite Ea.
Qed.

Inductive Refine := RfNone | RfHash (hash : Z) | RfKeyset (filter key_count : Z).
Definition apply_refine (rf : Refine) r : option (RlRob * bool) :=
  match rf with
  | RfNone => Some (r, false)
  | RfHash h => refine_current_write_hash h r
  | RfKeyset f n => refine_current_write_keyset f n r
  end.
(** The refinement the parser makes is true of the command: a point write names its only key, a
    keyset filter contains every key and the op's arguments report them. *)
Definition refine_ok (rf : Refine) (o : Op) (k : Keys) : Prop :=
  match rf with
  | RfNone => True
  | RfHash h => exists K, k = Some K /\ forall x, x ∈ K -> x = h
  | RfKeyset f _ => exists K, k = Some K /\
      forall h, h ∈ K -> Z.land f (keyset_filter h) = keyset_filter h /\ touches o h = true
  end.

Lemma fresh_covers r F w o k : cand_fresh r (F + Z.of_nat (length w)) -> cand_covers r F w o k.
Proof.
  intros [?|(_ & s & Hs & Hi & Hp)]; [by left|right]. exists s. rewrite Hp. done.
Qed.

Lemma refine_with_spec p word r F w live o k :
  let D := F + Z.of_nat (length w) in
  rl_inv r F w live -> cand_fresh r D -> arm_state r <> kReadLocalUnarmed -> p <> PwNone ->
  desc_ok (w ++ [o]) F p word D k ->
  exists r' b, refine_with p word r = Some (r', b) /\ rl_inv r' F w live /\ win r' = win r /\
    cand_covers r' F w o k.
Proof.
  intros D H Hf Ha Hp Hd. pose proof H as (_ & _ & _ & E & HE & Hlive).
  pose proof (fresh_covers r F w o k Hf) as Hfc.
  destruct Hf as [[? _]|(_ & s & Hs & Hi & Hpo)]; [done|]. unfold refine_with.
  destruct (dispatch_eq r F w live H) as [-> _]. rewrite Hs. cbn [mbind option_bind].
  rewrite bool_decide_eq_true_2, Hi, Z.eqb_refl by done. cbn [negb orb].
  destruct (overflow s) eqn:Eo; [by exists r, false|]. eexists _, _. split; [reflexivity|].
  split; [|split; [done|right; by eexists]]. specialize (HE s Hs).
  apply (rl_inv_update r _ F w live E E s (set_pending s p word D)); try done.
  - destruct HE as (Hr & Hfr & Hso & Hid & Hfo & Hov & Hst & Hin & Hpp). unfold side_inv; cbn.
    rewrite Hpo in *. destruct (Hpp ltac:(done)) as (H1 & H2 & H3). rewrite Hi in *.
    split_and!; try done; [by rewrite bool_decide_eq_false_2|]. intros Hina. by apply Hin in Hina as (_ & _ & ?).
  - intros id kk HF [?|[?|[? _]]]; [by left|by right; left|]. unfold D in *. lia.
Qed.

Lemma refine_spec rf r F w live o k :
  rl_inv r F w live -> cand_fresh r (F + Z.of_nat (length w)) -> refine_ok rf o k ->
  exists r' b, apply_refine rf r = Some (r', b) /\ rl_inv r' F w live /\ win r' = win r /\
    cand_covers r' F w o k.
Proof.
  intros H Hf Hok. pose proof (fresh_covers r F w o k Hf).
  assert (forall b : bool, exists r' (b' : bool), Some (r, b) = Some (r', b') /\ rl_inv r' F w live /\ win r' = win r /\
    cand_covers r' F w o k) as Hsame by (intros b; by exists r, b).
  destruct rf as [|h|f n]; cbn in Hok |- *; [apply Hsame| |].
  - unfold refine_current_write_hash. destruct (Z.eqb_spec (arm_state r) kReadLocalUnarmed) as [E1|E1]; [apply Hsame|].
    by apply refine_with_spec.
  - unfold refine_current_write_keyset. destruct (_ || _ || _); [apply Hsame|].
    destruct (Z.eqb_spec (arm_state r) kReadLocalUnarmed) as [E1|E1]; [apply Hsame|].
    apply refine_with_spec; try done. destruct Hok as (K & -> & HK). exists K, o. split; [done|]. split; [|done].
    rewrite lookup_app_r by lia. by replace (Z.to_nat (F + Z.of_nat (length w) - F) - length w)%nat with 0%nat by lia.
Qed.

(** ** Publishing, executor stores and retirement *)
Lemma desc_ok_snoc w F o kind word id k : desc_ok w F kind word id k -> desc_ok (w ++ [o]) F kind word id k.
Proof.
  destruct kind; cbn; try done. intros (K & x & ? & Hx & ?). exists K, x. eauto using lookup_app_l_Some.
Qed.
Lemma covered_side_snoc w F o s E id k : covered_side w F s E id k -> covered_side (w ++ [o]) F s E id k.
Proof.
  intros [?|[(e & He & Hi & Hd)|[? Hd]]]; [by left|right; left|right; right; split; [done|]];
    [exists e; split_and!; [done|done|]|]; by apply desc_ok_snoc.
Qed.
Lemma side_inv_mono r s E D D' : D <= D' -> side_inv r s E D -> side_inv r s E D'.
Proof.
  intros HD (Hr & Hfr & Hso & Hid & Hfo & Hov & Hst & Hin & Hp). unfold side_inv. split_and!; try done.
  - eapply Forall_impl; [exact Hid|cbn; lia].
  - intros Ho. destruct (Hov Ho). split; [done|lia].
  - intros Hn. destruct (Hp Hn) as (? & ? & ?). split_and!; try done; lia.
Qed.

Lemma publish_rl_spec r F w live o x extra :
  let D := F + Z.of_nat (length w) in
  rl_inv r F w live -> rob_inv Capacity x F (w ++ [o]) -> D + 1 < UINT64_MAX ->
  (forall id k, (id, k) ∈ extra -> id = D /\ cand_covers r F w o k) ->
  rl_inv (set_win r x) F (w ++ [o]) (extra ++ live).
Proof.
  intros D (_ & HW & (Ha & Ha1 & Hs1 & Hu) & E & HE & Hlive) Hx Hb Hextra. unfold wrap_free in HW.
  assert (F + Z.of_nat (length (w ++ [o])) = D + 1) as ED by (unfold D; rewrite length_app; cbn; lia).
  unfold rl_inv. rewrite ED. fold D in HW, Hu, HE, Hlive.
  split; [done|]. split; [split; [lia|done]|]. split.
  { split; [done|]. split; [done|]. split; [done|]. cbn. destruct Hu; [by left|right; lia]. }
  exists E. split; [intros s Hs; eapply side_inv_mono; [|by apply HE]; lia|].
  intros id k [Hid|Hid]%elem_of_app.
  - destruct (Hextra id k Hid) as [-> [[E1 Eu]|(s & Hs & Hi & Hd)]]; (split; [lia|intros _]).
    + left. cbn. rewrite E1, Eu. unfold kReadLocalUnarmed, D in *. lia.
    + right. exists s. split; [done|]. right; right. done.
  - destruct (Hlive id k Hid) as [Hb' Hc]. split; [lia|]. intros HF.
    destruct (Hc HF) as [?|(s & Hs & Hcs)]; [by left|right]. exists s. split; [done|]. by apply covered_side_snoc.
Qed.

Lemma store_rl_spec r F w live i o o' x :
  rl_inv r F w live -> rob_inv Capacity x F (<[i := o']> w) -> w !! i = Some o ->
  (forall h, touches o' h = touches o h) -> rl_inv (set_win r x) F (<[i := o']> w) live.
Proof.
  intros (_ & HW & Ha & E & HE & Hlive) Hx Hi Ht. unfold rl_inv. rewrite length_insert.
  split; [done|]. split; [done|]. split; [done|]. exists E. split; [done|].
  assert (forall kind word id k, desc_ok w F kind word id k -> desc_ok (<[i := o']> w) F kind word id k) as Hd.
  { intros [] word id k; cbn; try done. intros (K & y & Hk & Hy & HK).
    destruct (decide (i = Z.to_nat (id - F))) as [Ei|Ei].
    - exists K, o'. rewrite <- Ei in *. rewrite Hi in Hy. injection Hy as <-.
      split; [done|]. split; [apply list_lookup_insert_eq; by eapply lookup_lt_Some|]. intros h. rewrite Ht. apply HK.
    - exists K, y. by rewrite list_lookup_insert_ne. }
  intros id k Hid. destruct (Hlive id k Hid) as [Hb Hc]. split; [done|]. intros HF.
  destruct (Hc HF) as [?|(s & Hs & [?|[(e & He & Hei & Hde)|[? Hdp]]])]; [by left|right; exists s; split; [done|]..].
  - by left.
  - right; left. exists e. eauto.
  - right; right. eauto.
Qed.

Lemma retire_rl_spec r F w live n x :
  rl_inv r F w live -> (n <= length w)%nat -> rob_inv Capacity x (F + Z.of_nat n) (drop n w) ->
  rl_inv (set_win r x) (F + Z.of_nat n) (drop n w) live.
Proof.
  intros (_ & HW & Ha & E & HE & Hlive) Hn Hx. unfold rl_inv, wrap_free in *. rewrite length_drop.
  replace (F + Z.of_nat n + Z.of_nat (length w - n)) with (F + Z.of_nat (length w)) by lia.
  split; [done|]. split; [lia|]. split; [done|]. exists E. split; [done|].
  intros id k Hid. destruct (Hlive id k Hid) as [Hb Hc]. split; [done|]. intros HF.
  assert (forall kind word, desc_ok w F kind word id k -> desc_ok (drop n w) (F + Z.of_nat n) kind word id k) as Hd.
  { intros [] word; cbn; try done. intros (K & y & Hk & Hy & HK). exists K, y. split; [done|]. split; [|done].
    rewrite lookup_drop, <- Hy. f_equal. lia. }
  destruct (Hc ltac:(lia)) as [?|(s & Hs & [?|[(e & He & Hei & Hde)|[? Hdp]]])]; [by left|right; exists s; split; [done|]..].
  - by left.
  - right; left. exists e. eauto.
  - right; right. eauto.
Qed.

(** ** The probe *)
(** The descriptor [e] reports a hit for [hash]. *)
Definition entry_hits w F (e : Entry) (hash : Z) : Prop :=
  if e_keyset e
  then exists o, w !! Z.to_nat (e_id e - F) = Some o /\ Z.land (e_hash e) (keyset_filter hash) = keyset_filter hash /\ touches o hash = true
  else e_hash e = hash.

Lemma desc_hits w F e k hash :
  desc_ok w F (entry_kind e) (e_hash e) (e_id e) k -> touches_key k hash -> entry_hits w F e hash.
Proof.
  unfold entry_kind, entry_hits. destruct (e_keyset e); cbn.
  - intros (K & o & -> & Ho & HK) Ht. exists o. split; [done|]. by apply HK.
  - intros (K & -> & HK) Ht. symmetry. by apply HK.
Qed.

Lemma tag_may_match_spec r s E D hash :
  side_inv r s E D ->
  exists b, read_local_write_tag_may_match r s hash = Some b /\
    (overflow s = true \/ (exists e, e ∈ E /\ (e_keyset e = true \/ e_hash e = hash)) -> b = true).
Proof.
  intros (Hr & Hfr & _ & _ & Hfo & _). unfold read_local_write_tag_may_match. rewrite Hfo.
  destruct (overflow s) eqn:Eo; [exists true; split; [reflexivity|intros _; reflexivity]|].
  change (negb (0 =? 0)) with false. cbn [negb]. destruct (Hfr eq_refl) as [Hv Hf].
  assert (forall e, e ∈ E -> exists p, 0 <= p < 64 /\ Z.testbit (write_valid r) p = true /\
            Z.testbit (write_wide r) p = e_keyset e /\ write_tags s !! Z.to_nat p = Some (u16 (e_hash e))) as Hpos.
  { intros e [j Hj]%list_elem_of_lookup. destruct (Hf j e Hj) as (? & ? & ?).
    exists (ring_pos (write_head s) j). split; [apply ring_pos_bounds|done]. }
  destruct (Z.eqb_spec (write_valid r) 0) as [Ez|Ez].
  { exists false. split; [reflexivity|]. intros [?|(e & He & _)]; [done|].
    destruct (Hpos e He) as (p & _ & Hb & _). by rewrite Ez, Z.bits_0 in Hb. }
  destruct (Z.land (write_wide r) (write_valid r) =? 0) eqn:Ew; cbn [negb];
    [|exists true; split; [reflexivity|intros _; reflexivity]].
  destruct Hr as (Ht & _). destruct (tag_sweep_spec 4 (write_tags s) (u16 hash) (write_valid r) Ht Hv Ez) as (b & -> & Hb); [lia|].
  exists b. split; [done|]. intros [?|(e & He & Hhit)]; [done|]. apply Hb.
  destruct (Hpos e He) as (p & Hp & H1 & H2 & H3). exists p. split; [done|]. split; [done|].
  destruct Hhit as [Hk|<-]; [|done]. rewrite Hk in H2. apply Z.eqb_eq in Ew.
  apply (f_equal (fun z => Z.testbit z p)) in Ew. by rewrite Z.land_spec, H1, H2, Z.bits_0 in Ew.
Qed.

Lemma ring_walk_spec r s E F w hash pf n i :
  rob_inv Capacity (win r) F w -> wrap_free F (F + Z.of_nat (length w)) -> ring_rep s E ->
  (forall e, e ∈ E -> F <= e_id e < F + Z.of_nat (length w)) ->
  ((exists e, e ∈ E /\ e_keyset e = true) -> pf = keyset_filter hash) ->
  (i + n = length E)%nat ->
  exists b, ring_walk Capacity touches r s hash pf n (Z.of_nat i) = Some b /\
    ((exists j e, (i <= j)%nat /\ E !! j = Some e /\ entry_hits w F e hash) -> b = true).
Proof.
  intros Hw HW (_ & _ & Hh & _ & Hl & Hrep) HE Hpf. revert i. induction n as [|n IH]; intros i Hi; cbn [ring_walk].
  { exists false. split; [done|]. intros (j & e & Hj & He & _). apply lookup_lt_Some in He. lia. }
  destruct (lookup_lt_is_Some_2 E i) as [e He]; [lia|]. pose proof (list_elem_of_lookup_2 _ _ _ He) as Hin.
  destruct (Hrep i e He) as [Hr Hk]. rewrite ring_pos_land, Hr. cbn [mbind option_bind wk_hash wk_op_id].
  rewrite land_bit64, Hk, negb_involutive by apply ring_pos_bounds.
  replace (Z.of_nat i + 1) with (Z.of_nat (S i)) by lia. destruct (IH (S i)) as (b & Hb & Hrest); [lia|]. rewrite Hb.
  assert (exists hit : bool, (if e_keyset e then if Z.land (e_hash e) pf =? pf
             then o ← at_ Capacity (win r) (e_id e); Some (touches o hash) else Some false
           else Some (e_hash e =? hash)) = Some hit /\ (entry_hits w F e hash -> hit = true)) as (hit & -> & Hhit).
  { unfold entry_hits. destruct (e_keyset e) eqn:Ek; [|exists (e_hash e =? hash); split; [done|by intros ->%Z.eqb_eq]].
    rewrite (Hpf (ex_intro _ e (conj Hin Ek))). destruct (Z.eqb_spec (Z.land (e_hash e) (keyset_filter hash)) (keyset_filter hash)) as [Ef|Ef];
      [|exists false; split; [done|by intros (? & _ & ? & _)]].
    specialize (HE e Hin). destruct (lookup_lt_is_Some_2 w (Z.to_nat (e_id e - F))) as [o Ho]; [lia|].
    pose proof (at_spec _ Hcap _ _ _ _ _ Hw Ho) as Ha. unfold wrap_free, UINT64_MAX in HW.
    rewrite u64_small in Ha by lia. replace (F + Z.of_nat (Z.to_nat (e_id e - F))) with (e_id e) in Ha by lia.
    rewrite Ha. exists (touches o hash). split; [done|]. intros (o' & Ho' & _ & Ht). congruence. }
  cbn [mbind option_bind]. destruct hit; [exists true; split; [reflexivity|intros _; reflexivity]|]. exists b. split; [done|].
  intros (j & e' & Hj & He' & Hh'). destruct (decide (j = i)) as [->|Hne].
  - rewrite He in He'. injection He' as <-. by specialize (Hhit Hh').
  - apply Hrest. exists j, e'. split; [lia|done].
Qed.

Lemma deactivated_inv r s F w live :
  rl_inv r F w live -> side r = Some s -> rl_inv (deactivated r s) F w live.
Proof.
  intros H Hs. pose proof H as (_ & _ & _ & E & HE & Hlive). specialize (HE s Hs).
  apply (rl_inv_update r _ F w live E E s s); try done.
  destruct HE as (Hr & Hfr & Hso & Hid & Hfo & Hov & Hst & Hin & Hp). unfold side_inv; cbn.
  split_and!; try done. unfold read_local_try_deactivate. intros [?|Hi]%orb_true_iff; [by apply Hin|].
  zcmp. destruct Hr as (_ & _ & _ & Hc & _). split_and!; [done|apply nil_length_inv; lia|by eapply bool_decide_eq_true_1].
Qed.

Lemma uncovered_nil w F s id k :
  overflow s = false -> pending_write s = PwNone -> ~ covered_side w F s [] id k.
Proof.
  intros Ho Hp [[? _]|[(e & He & _)|[_ Hd]]]; [congruence|by apply elem_of_nil in He|by rewrite Hp in Hd].
Qed.

Lemma covered_entry w F s E id k hash :
  overflow s = false -> pending_write s = PwNone -> covered_side w F s E id k -> touches_key k hash ->
  exists j e, (0 <= j)%nat /\ E !! j = Some e /\ entry_hits w F e hash.
Proof.
  intros Ho Hp [[? _]|[(e & He & <- & Hd)|[_ Hd]]] Ht; [congruence| |by rewrite Hp in Hd].
  apply list_elem_of_lookup in He as [j Hj]. exists j, e. split; [lia|]. split; [done|]. by eapply desc_hits.
Qed.

Lemma pending_probe_spec r s E F w live hash :
  let D := F + Z.of_nat (length w) in
  rl_inv r F w live -> side r = Some s -> side_inv r s E D -> pending_write s = PwNone ->
  (forall id k, (id, k) ∈ live -> 0 <= id < D /\ (F <= id -> covered r E w F id k)) ->
  exists r' b, read_local_write_conflicts_pending Capacity touches hash r = Some (r', b) /\
    rl_inv r' F w live /\
    (forall id k, F <= id < D -> covered_side w F s E id k -> touches_key k hash -> b = true).
Proof.
  intros D H Hs HE Hpn Hlive. pose proof H as (Hw & HW & _). unfold read_local_write_conflicts_pending.
  rewrite Hs. cbn [mbind option_bind]. rewrite Hpn.
  rewrite (bool_decide_eq_false_2 (PwNone = PwOverflow)), (bool_decide_eq_false_2 (PwNone = PwHash)),
    (bool_decide_eq_false_2 (PwNone = PwKeyset)) by done. cbn [orb andb].
  cbn [mbind option_bind].
  destruct (negb (overflow s) && (write_count s =? 0)) eqn:Ez.
  { eexists _, _. split; [reflexivity|]. split; [by apply deactivated_inv|]. intros id k _ Hc _.
    zcmp. destruct HE as ((_ & _ & _ & Hcnt & _) & _). assert (E = []) as -> by (apply nil_length_inv; lia).
    by eapply uncovered_nil in Hc. }
  pose proof Hw as (_ & Hd & Hf & _).
  destruct (prune_spec r s E F D HW HE Hd Hf) as (r1 & s1 & E1 & -> & (v & wd & fo & ->) & (P1 & P2 & P3) & H1 & Hsub & Ho1 & HF1 & Hc1).
  cbn [mbind option_bind]. rewrite Hpn in P1. set (r2 := set_side _ s1 _ _).
  assert (rl_inv r2 F w live) as H2.
  { apply (rl_inv_update r _ F w live E E1 s s1); try done. intros id k HF. apply Hc1. lia. }
  destruct (overflow s1) eqn:Eo1; [by exists r2, true|]. specialize (HF1 eq_refl).
  destruct (Z.eqb_spec (write_count s1) 0) as [Ec|Ec].
  { eexists _, _. split; [reflexivity|]. split; [by apply deactivated_inv|]. intros id k HF Hc _.
    apply Hc1 in Hc; [|lia]. destruct H1 as ((_ & _ & _ & Hcnt & _) & _).
    assert (E1 = []) as -> by (apply nil_length_inv; lia). by eapply uncovered_nil in Hc. }
  pose proof H1 as (Hr1 & _ & _ & Hid1 & _). pose proof Hr1 as (_ & _ & _ & Hcnt & _).
  rewrite Forall_forall in Hid1, HF1.
  destruct (ring_walk_spec r2 s1 E1 F w hash
    (if negb (write_keyset_slots s =? 0) then keyset_filter hash else 0)
    (Z.to_nat (write_count s1)) 0) as (b & Hwalk & Hb); [done|done|done| | |lia|].
  { intros e He. split; [by apply HF1|by apply Hid1]. }
  { intros (e & He & Hk). apply Hsub in He. apply list_elem_of_lookup in He as [j Hj].
    destruct HE as ((_ & _ & _ & _ & _ & Hrep) & _). destruct (Hrep j e Hj) as [_ Hbit]. rewrite Hk in Hbit.
    destruct (Z.eqb_spec (write_keyset_slots s) 0) as [E0|]; [by rewrite E0, Z.bits_0 in Hbit|done]. }
  change (Z.of_nat 0) with 0 in Hwalk. rewrite Hwalk. cbn [mbind option_bind].
  exists r2, b. split; [done|]. split; [done|]. intros id k HF Hc Ht. apply Hb.
  apply (covered_entry w F s1 E1 id k); try done. apply Hc1; [lia|done].
Qed.

Lemma probe_armed_spec r F w live hash :
  rl_inv r F w live -> staged r = false ->
  exists r' b, probe_armed Capacity touches hash r = Some (r', b) /\ rl_inv r' F w live /\
    (forall id k, (id, k) ∈ live -> F <= id -> arm_state r = 0 -> touches_key k hash -> b = true).
Proof.
  intros H Hst. pose proof H as (_ & _ & _ & E & HE & Hlive). unfold probe_armed.
  assert (forall id k, (id, k) ∈ live -> F <= id -> arm_state r = 0 ->
    F <= id < F + Z.of_nat (length w) /\ exists s, side r = Some s /\ covered_side w F s E id k) as Hcov.
  { intros id k Hid HF Ha. destruct (Hlive id k Hid) as [Hb Hc]. split; [lia|].
    destruct (Hc HF) as [[? _]|?]; [congruence|done]. }
  destruct (side r) as [s|] eqn:Es.
  2:{ exists r, false. split; [done|]. split; [done|]. intros id k Hid HF Ha.
      destruct (Hcov id k Hid HF Ha) as (_ & s & ? & _). congruence. }
  specialize (HE s eq_refl). pose proof HE as (Hr & _ & _ & _ & _ & _ & Hst' & Hin & _).
  assert (pending_write s = PwNone) as Hpn.
  { rewrite Hst in Hst'. symmetry in Hst'. apply negb_false_iff in Hst'. by apply bool_decide_eq_true in Hst'. }
  destruct (inactive r) eqn:Ei.
  { exists r, false. split; [done|]. split; [done|]. intros id k Hid HF Ha _. destruct (Hin eq_refl) as (Ho & -> & _).
    destruct (Hcov id k Hid HF Ha) as (_ & s' & [= <-] & Hc). by eapply uncovered_nil in Hc. }
  rewrite Hst. destruct (tag_may_match_spec r s E _ hash HE) as (may & -> & Hmay). cbn [mbind option_bind].
  destruct may.
  - destruct (pending_probe_spec r s E F w live hash H Es HE Hpn Hlive) as (r' & b & -> & Hr' & Hb).
    exists r', b. split; [done|]. split; [done|]. intros id k Hid HF Ha Ht.
    destruct (Hcov id k Hid HF Ha) as (HD & s' & [= <-] & Hc). by apply (Hb id k).
  - exists r, false. split; [done|]. split; [done|]. intros id k Hid HF Ha Ht. apply Hmay.
    destruct (Hcov id k Hid HF Ha) as (HD & s' & [= <-] & Hc). destruct (overflow s) eqn:Eo; [by left|right].
    destruct (covered_entry w F s E id k hash Eo Hpn Hc Ht) as (j & e & _ & Hj & Hh).
    exists e. split; [by eapply list_elem_of_lookup_2|]. unfold entry_hits in Hh. destruct (e_keyset e); [by left|by right].
Qed.

Lemma arm_spec r F w live :
  rl_inv r F w live -> arm_state r <> 0 -> unarmed_write_id r <> F + Z.of_nat (length w) ->
  exists r' b, read_local_arm r = (r', b) /\ rl_inv r' F w live /\ staged r' = staged r /\
    (b = false -> arm_state r' = 0) /\
    (unarmed_write_id r' = unarmed_write_id r \/ unarmed_write_id r' = UINT64_MAX).
Proof.
  intros H Ha Hne. pose proof H as (Hw & HW & (Ha0 & Ha1 & Hs1 & Hu) & E & HE & Hlive).
  pose proof Hw as (_ & Hd & Hf & _). unfold read_local_arm, rl_dispatch, rl_flush, dispatch_id, flush_id. rewrite Hd, Hf.
  set (D := F + Z.of_nat (length w)) in *. unfold wrap_free in HW.
  assert (forall st, read_local_id_active (unarmed_write_id r) (u64 D) (u64 F) = false -> rl_inv (set_arm r 0 UINT64_MAX st) F w live) as Hoff.
  { intros st Hact. rewrite id_active_spec in Hact by (unfold wrap_free, UINT64_MAX in *; lia).
    split; [done|]. split; [done|]. split; [split; [by left|]; split; [done|]; split; [done|by left]|].
    exists E. split; [done|]. intros id k Hid. destruct (Hlive id k Hid) as [Hb Hc]. split; [done|]. intros HF.
    destruct (Hc HF) as [(_ & Hm & Hle)|?]; [|by right]. destruct Hu as [?|Hu]; [done|].
    apply andb_false_iff in Hact as [Hact|Hact]; zcmp; fold D in Hb; lia. }
  assert (forall a st, (a = 1 \/ a = 2) -> (a = 1 -> side r = None) -> rl_inv (set_arm r a (unarmed_write_id r) st) F w live) as Hon.
  { intros a st Hav Hside. split; [done|]. split; [done|].
    split; [split; [cbn; unfold kReadLocalUnarmed, kReadLocalArmFence; lia|]; split; [done|]; split; [done|done]|].
    exists E. split; [done|]. intros id k Hid. destruct (Hlive id k Hid) as [Hb Hc]. split; [done|]. intros HF.
    destruct (Hc HF) as [(_ & Hm & Hle)|?]; [left|by right]. cbn. split; [lia|done]. }
  unfold set_stats; cbn [unarmed_write_id arm_state set_arm].
  destruct (Z.eqb_spec (arm_state r) kReadLocalUnarmed) as [E1|E1];
    destruct (read_local_id_active (unarmed_write_id r) (u64 D) (u64 F)) eqn:Eact; eexists _, _; (split; [reflexivity|]).
  - split; [by apply (Hon 2 (bump_arms (arm_stats r))); [right|]|]. by split_and!; [..|left].
  - split; [by apply (Hoff (bump_arms (arm_stats r)))|]. by split_and!; [..|right].
  - by split_and!; [..|left].
  - split; [by apply Hoff|]. by split_and!; [..|right].
Qed.

Lemma probe_armed_unarmed hash r r' b :
  probe_armed Capacity touches hash r = Some (r', b) -> unarmed_write_id r' = unarmed_write_id r.
Proof.
  unfold probe_armed, read_local_write_conflicts_pending, read_local_prune, read_local_prune_at, deactivated. intros H.
  repeat match goal with
  | H : _ ≫= _ = Some _ |- _ => apply bind_Some in H as (? & ? & H)
  | H : (if ?c then _ else _) = Some _ |- _ => destruct c
  | H : match ?c with Some _ => _ | None => _ end = Some _ |- _ => destruct c
  | H : (let '(_, _) := ?c in _) = Some _ |- _ => destruct c
  | H : Some _ = Some _ |- _ => simplify_eq
  end; done.
Qed.

(** The probe never misses a write in flight, and keeps the invariant. *)
Lemma conflicts_spec r F w live hash :
  rl_inv r F w live -> staged r = false -> unarmed_write_id r <> F + Z.of_nat (length w) ->
  exists r' b, read_local_write_conflicts Capacity touches hash r = Some (r', b) /\ rl_inv r' F w live /\
    (forall id k, (id, k) ∈ live -> F <= id -> touches_key k hash -> b = true) /\
    (unarmed_write_id r' = unarmed_write_id r \/ unarmed_write_id r' = UINT64_MAX).
Proof.
  intros H Hst Hu. unfold read_local_write_conflicts. destruct (Z.eqb_spec (arm_state r) 0) as [E0|E0]; cbn [negb].
  - destruct (probe_armed_spec r F w live hash H Hst) as (r' & b & Hp & Hr' & Hb). exists r', b.
    apply probe_armed_unarmed in Hp as Hpu. eauto 10.
  - destruct (arm_spec r F w live H E0 Hu) as (r1 & fenced & -> & H1 & Hst1 & Ha1 & Hu1).
    destruct fenced; [by exists r1, true|]. rewrite Hst in Hst1.
    destruct (probe_armed_spec r1 F w live hash H1 Hst1) as (r' & b & Hp & Hr' & Hb). exists r', b.
    apply probe_armed_unarmed in Hp as Hpu. rewrite Hpu. eauto 10.
Qed.
End Inv.

(** * The connection as a machine of parser frames

    A frame is one parsed command; frames of one connection run one after the other on its IO
    thread, executors store into published slots at any time, and drains run between frames.
    [ab] says that the last write frame was abandoned (queue full, paused, or a refused push):
    its bytes stay unconsumed, so the next frame is the same write parsed again.  [live] records
    every published write with the keys it touches. *)
Record RlConn := mkRlConn { rl : RlRob; ab : bool; live : list (Z * Keys) }.

Section Frames.
Context (Capacity : Z) (touches : Op -> Z -> bool).

(** A write frame up to its publish: claim, store the parsed command, mark, refine. *)
Definition write_frame (mem : bool) (fl : Z) (o : Op) (rf : Refine) (r : RlRob) : option RlRob :=
  '(r, p) ← acquire_read_local Capacity fl r;
  _ ← p;
  x ← at_store Capacity (win r) (rl_dispatch r) o;
  r ← mark_current_write mem (set_win r x);
  '(r, _) ← apply_refine rf r;
  Some r.
Definition other_frame (fl : Z) (o : Op) (r : RlRob) : option RlRob :=
  '(r, p) ← acquire_read_local Capacity fl r;
  _ ← p;
  x ← at_store Capacity (win r) (rl_dispatch r) o;
  Some (set_win r x).
(** The probe of a read frame. *)
Definition read_probe (fl hash : Z) (r : RlRob) : option (RlRob * bool) :=
  '(r, p) ← acquire_read_local Capacity fl r;
  _ ← p;
  read_local_write_conflicts Capacity touches hash r.
Definition rl_publish (r : RlRob) : RlRob := set_win r (publish (win r)).

Inductive rl_step : RlConn -> RlConn -> Prop :=
| rl_write mem fl o rf k r r' a lv :
    refine_ok touches rf o k -> rl_dispatch r + 1 < UINT64_MAX ->
    write_frame mem fl o rf r = Some r' ->
    rl_step (mkRlConn r a lv) (mkRlConn (rl_publish r') false ((rl_dispatch r, k) :: lv))
| rl_write_abandoned mem fl o rf k r r' a lv :
    refine_ok touches rf o k -> write_frame mem fl o rf r = Some r' ->
    rl_step (mkRlConn r a lv) (mkRlConn r' true lv)
| rl_other fl o r r' lv :
    rl_dispatch r + 1 < UINT64_MAX -> other_frame fl o r = Some r' ->
    rl_step (mkRlConn r false lv) (mkRlConn (rl_publish r') false lv)
| rl_probe fl hash r r' b lv :
    read_probe fl hash r = Some (r', b) ->
    rl_step (mkRlConn r false lv) (mkRlConn r' false lv)
| rl_work r id o o' x a lv :
    read_local_id_active id (rl_dispatch r) (rl_flush r) = true -> word64 id ->
    at_ Capacity (win r) id = Some o -> (forall h, touches o' h = touches o h) ->
    at_store Capacity (win r) id o' = Some x ->
    rl_step (mkRlConn r a lv) (mkRlConn (set_win r x) a lv)
| rl_drain {St} (sink : St -> Op -> option (St * Op)) st st' r x n a lv :
    (forall st o, is_Some (sink st o)) ->
    drain Capacity sink (win r) st = Some (x, n, st') ->
    rl_step (mkRlConn r a lv) (mkRlConn (set_win r x) a lv).

Inductive rl_reachable : RlConn -> Prop :=
| rl_start stats : rl_reachable (mkRlConn (rl_new Capacity stats) false [])
| rl_next c c' : rl_reachable c -> rl_step c c' -> rl_reachable c'.

Definition conn_ok (c : RlConn) (F : Z) (w : list Op) : Prop :=
  rl_inv Capacity touches (rl c) F w (live c) /\
  (ab c = false -> unarmed_write_id (rl c) <> F + Z.of_nat (length w)).

Context (Hcap : rob_capacity Capacity).

(** A claim that succeeds had room. *)
Lemma acquire_room fl r r1 p F w lv :
  rl_inv Capacity touches r F w lv -> acquire_read_local Capacity fl r = Some (r1, Some p) ->
  Z.of_nat (length w) < Capacity.
Proof.
  intros H Ha. apply Z.nle_gt. intros Hl. unfold acquire_read_local in Ha. apply bind_Some in Ha as (r2 & Hr2 & Ha).
  assert (rl_inv Capacity touches r2 F w lv) as (Hw & _).
  { destruct (staged r) eqn:Est; [|by injection Hr2 as <-].
    destruct (resolve_spec _ Hcap touches r F w lv H Est) as (r3 & E3 & H3 & _). congruence. }
  pose proof (in_flight_spec _ Hcap _ _ _ Hw) as Hfl. unfold in_flight in Hfl.
  unfold rl_dispatch, rl_flush in Ha. rewrite Hfl in Ha.
  by replace (Capacity <=? Z.of_nat (length w)) with true in Ha by (symmetry; apply Z.leb_le; lia).
Qed.

(** Claiming and storing the parsed command. *)
Lemma claim_store fl o r r1 p x F w lv :
  rl_inv Capacity touches r F w lv -> acquire_read_local Capacity fl r = Some (r1, Some p) ->
  at_store Capacity (win r1) (rl_dispatch r1) o = Some x ->
  rl_inv Capacity touches (set_win r1 x) F w lv /\ staged r1 = false /\
  rob_inv Capacity (publish x) F (w ++ [o]) /\ rl_dispatch r = F + Z.of_nat (length w).
Proof.
  intros H Ha Hs. pose proof (acquire_room _ _ _ _ _ _ _ H Ha) as Hl.
  destruct (acquire_rl_spec _ Hcap touches fl r F w lv H Hl) as (r1' & o0 & Ha' & H1 & Hst & Hu & Hload).
  rewrite Ha in Ha'. simplify_eq. pose proof H1 as (Hw & _).
  destruct (publish_spec _ Hcap _ _ _ _ o Hw Hl Hload) as (x' & Hs' & Hx).
  unfold rl_dispatch in Hs. rewrite Hs in Hs'. injection Hs' as <-.
  split; [|split; [done|]; split; [done|by destruct (dispatch_eq _ _ _ _ _ _ H)]].
  change (set_win r1' x) with (set_win (set_slots_words r1' (pending_slots r1') (owner_slots r1') (pending_filter r1')) x).
  apply rl_inv_slots; [by destruct r1'|]. apply unpublish_spec in Hx.
  pose proof Hw as (_ & Hd & Hf & _). destruct Hx as (HF & _ & _ & Hlx & Hk & Hwin). cbn in Hk, Hwin.
  unfold at_store in Hs. apply bind_Some in Hs as (cs & _ & [= <-]). by split_and!.
Qed.

Lemma write_frame_spec mem fl o rf k r r' F w lv :
  rl_inv Capacity touches r F w lv -> refine_ok touches rf o k -> write_frame mem fl o rf r = Some r' ->
  rl_inv Capacity touches r' F w lv /\ cand_covers touches r' F w o k /\
  rob_inv Capacity (publish (win r')) F (w ++ [o]) /\ rl_dispatch r = F + Z.of_nat (length w).
Proof.
  intros H Hrf Hwf. unfold write_frame in Hwf.
  apply bind_Some in Hwf as ([r1 p] & Ha & Hwf). apply bind_Some in Hwf as (p' & Hp & Hwf). subst p.
  apply bind_Some in Hwf as (x & Hx & Hwf). apply bind_Some in Hwf as (r2 & Hm & Hwf).
  apply bind_Some in Hwf as ([r3 b] & Hr & Hwf). injection Hwf as <-.
  destruct (claim_store fl o r r1 p' x F w lv H Ha Hx) as (H1 & Hst & Hpub & Hd).
  destruct (mark_spec _ touches mem _ F w lv H1 Hst) as (r2' & Hm' & H2 & Hw2 & Hfresh).
  rewrite Hm in Hm'. injection Hm' as <-.
  destruct (refine_spec _ touches rf r2 F w lv o k H2 Hfresh Hrf) as (r3' & b' & Hr' & H3 & Hw3 & Hc).
  rewrite Hr in Hr'. injection Hr' as <- <-. rewrite Hw3, Hw2. done.
Qed.

Lemma other_frame_spec fl o r r' F w lv :
  rl_inv Capacity touches r F w lv -> other_frame fl o r = Some r' ->
  rl_inv Capacity touches r' F w lv /\ rob_inv Capacity (publish (win r')) F (w ++ [o]).
Proof.
  intros H Hof. unfold other_frame in Hof.
  apply bind_Some in Hof as ([r1 p] & Ha & Hof). apply bind_Some in Hof as (p' & Hp & Hof). subst p.
  apply bind_Some in Hof as (x & Hx & Hof). injection Hof as <-.
  destruct (claim_store fl o r r1 p' x F w lv H Ha Hx) as (H1 & _ & Hpub & _). done.
Qed.

Lemma read_probe_spec fl hash r F w lv :
  rl_inv Capacity touches r F w lv -> unarmed_write_id r <> F + Z.of_nat (length w) ->
  Z.of_nat (length w) < Capacity ->
  exists r' b, read_probe fl hash r = Some (r', b) /\ rl_inv Capacity touches r' F w lv /\
    (forall id k, (id, k) ∈ lv -> F <= id -> touches_key k hash -> b = true) /\
    unarmed_write_id r' <> F + Z.of_nat (length w).
Proof.
  intros H Hu Hl. unfold read_probe.
  destruct (acquire_rl_spec _ Hcap touches fl r F w lv H Hl) as (r1 & p & -> & H1 & Hst & Hu1 & _). cbn [mbind option_bind].
  destruct (conflicts_spec _ Hcap touches r1 F w lv hash H1 Hst) as (r2 & b & E & H2 & Hb & Hu2); [by rewrite Hu1|].
  exists r2, b. split; [done|]. split; [done|]. split; [done|].
  pose proof H as (_ & HW & _). unfold wrap_free in HW. destruct Hu2 as [->| ->]; [by rewrite Hu1|lia].
Qed.

Lemma published_unarmed r F w lv (o : Op) :
  rl_inv Capacity touches r F w lv -> F + Z.of_nat (length w) + 1 < UINT64_MAX ->
  unarmed_write_id r <> F + Z.of_nat (length (w ++ [o])).
Proof.
  intros (_ & _ & (_ & _ & _ & Hu) & _). rewrite length_app; cbn. lia.
Qed.

Lemma rl_work_ok r id o o' x F w lv :
  rl_inv Capacity touches r F w lv -> read_local_id_active id (rl_dispatch r) (rl_flush r) = true ->
  word64 id -> at_ Capacity (win r) id = Some o -> (forall h, touches o' h = touches o h) ->
  at_store Capacity (win r) id o' = Some x ->
  exists i, (i < length w)%nat /\ rl_inv Capacity touches (set_win r x) F (<[i := o']> w) lv.
Proof.
  intros H Hact Hid Hat Ht Hst. pose proof H as (Hw & HW & _). pose proof Hw as (HF & Hd & Hf & Hl & _).
  unfold rl_dispatch, rl_flush, dispatch_id, flush_id in Hact. rewrite Hd, Hf, id_active_spec in Hact
    by (unfold word64, UINT64_MAX in *; done || lia).
  apply andb_prop in Hact as [Ha1 Ha2]. zcmp. set (i := Z.to_nat (id - F)).
  assert (u64 (F + Z.of_nat i) = id) as Ei by (unfold word64 in Hid; rewrite u64_small; lia).
  assert (i < length w)%nat as Hi by lia. exists i. split; [done|].
  destruct (lookup_lt_is_Some_2 w i Hi) as [ow How].
  pose proof (at_spec _ Hcap _ _ _ _ _ Hw How) as Hat'. rewrite Ei, Hat in Hat'. injection Hat' as <-.
  destruct (at_store_spec _ Hcap _ _ _ i o' Hw Hi) as (x' & Hs' & Hx). rewrite Ei, Hst in Hs'. injection Hs' as <-.
  by eapply store_rl_spec.
Qed.

Lemma rl_drain_ok {St} (sink : St -> Op -> option (St * Op)) st st' r x n F w lv :
  rl_inv Capacity touches r F w lv -> (forall st o, is_Some (sink st o)) ->
  drain Capacity sink (win r) st = Some (x, n, st') ->
  exists m, (m <= length w)%nat /\ rl_inv Capacity touches (set_win r x) (F + Z.of_nat m) (drop m w) lv.
Proof.
  intros H Htot Hd. pose proof H as (Hw & _).
  assert (forall l st, exists st1 l1, run_sink sink st l = Some (st1, l1)) as Hrun.
  { intros l. induction l as [|o l IH]; intros s0; [by eexists _, _|]. cbn.
    destruct (Htot s0 o) as [[s1 o1] ->]. cbn. destruct (IH s1) as (s2 & l2 & ->). by eexists _, _. }
  destruct (Hrun (done_prefix w) st) as (st1 & l1 & Hr).
  destruct (drain_spec _ Hcap sink (win r) F w st st1 l1 Hw Hr) as (x' & Hd' & Hx & _).
  rewrite Hd in Hd'. injection Hd' as <- _ _. exists (length l1).
  assert (length l1 <= length w)%nat.
  { rewrite (run_sink_length _ _ _ _ _ Hr). pose proof (f_equal length (done_prefix_drop w)) as Hlw.
    rewrite length_app in Hlw. lia. }
  split; [done|]. by apply retire_rl_spec.
Qed.

Lemma rl_inv_step c c' F w : conn_ok c F w -> rl_step c c' -> exists F' w', conn_ok c' F' w'.
Proof.
  intros [H Hu] Hs. destruct Hs as [mem fl o rf k r r' a lv Hrf Hb Hwf|mem fl o rf k r r' a lv Hrf Hwf
    |fl o r r' lv Hb Hof|fl hash r r' b lv Hp|r id o o' x a lv Hact Hid Hat Ht Hst|St sink st st' r x n a lv Htot Hd];
    cbn in H, Hu; unfold conn_ok; cbn.
  - destruct (write_frame_spec _ _ _ _ _ _ _ _ _ _ H Hrf Hwf) as (H' & Hc & Hpub & Hd). rewrite Hd in *.
    exists F, (w ++ [o]). split; [|intros _; by eapply published_unarmed].
    apply (publish_rl_spec _ touches r' F w lv o (publish (win r')) [(_, k)]); try done.
    intros id k' Hin. apply list_elem_of_singleton in Hin. by simplify_eq.
  - destruct (write_frame_spec _ _ _ _ _ _ _ _ _ _ H Hrf Hwf) as (H' & _). by exists F, w.
  - destruct (other_frame_spec _ _ _ _ _ _ _ H Hof) as (H' & Hpub).
    destruct (dispatch_eq _ _ _ _ _ _ H) as [Hd _]. rewrite Hd in Hb.
    exists F, (w ++ [o]). split; [|intros _; by eapply published_unarmed].
    apply (publish_rl_spec _ touches r' F w lv o (publish (win r')) []); try done.
    intros id k' Hin. by apply elem_of_nil in Hin.
  - specialize (Hu eq_refl). assert (Z.of_nat (length w) < Capacity) as Hl.
    { unfold read_probe in Hp. apply bind_Some in Hp as ([r1 p] & Ha & Hp).
      apply bind_Some in Hp as (p' & -> & _). by eapply acquire_room. }
    destruct (read_probe_spec fl hash r F w lv H Hu Hl) as (r2 & b2 & E & H2 & _ & Hu2).
    rewrite Hp in E. injection E as <- <-. by exists F, w.
  - destruct (rl_work_ok _ _ _ _ _ _ _ _ H Hact Hid Hat Ht Hst) as (i & Hi & H').
    exists F, (<[i := o']> w). rewrite length_insert. done.
  - destruct (rl_drain_ok _ _ _ _ _ _ _ _ _ H Htot Hd) as (m & Hm & H').
    exists (F + Z.of_nat m), (drop m w). rewrite length_drop.
    by replace (F + Z.of_nat m + Z.of_nat (length w - m)) with (F + Z.of_nat (length w)) by lia.
Qed.

Lemma rl_reachable_ok c : rl_reachable c -> exists F w, conn_ok c F w.
Proof.
  induction 1 as [stats|c c' _ (F & w & IH) Hs]; [|by eapply rl_inv_step].
  exists 0, []. pose proof (rob_capacity_bounds _ Hcap).
  unfold conn_ok, rl_inv, rob_inv, chunks_ok, arm_ok, wrap_free, UINT64_MAX, word64; cbn. rewrite length_replicate.
  split; [|done]. split_and!; try done; try lia.
  - intros i ops Hi. apply lookup_replicate in Hi as [Hi _]. done.
  - by left.
  - exists []. split; [done|]. intros id k Hin. by apply elem_of_nil in Hin.
Qed.
End Frames.

(** * Theorems *)

(** C6: Read your own writes.  In every reachable state of a connection, a read that probes the write
    ring while an older write of the same connection is still unretired and touches the probed
    key is told to conflict (and so takes the owner path).  This covers point writes, bounded
    keysets, writes of unknown extent, the conservative generation and its end, abandoned and
    re-parsed frames, writes made before the connection was armed, and a failed sidecar
    allocation; the probe itself always returns. *)
Theorem ryow_no_missed_write Capacity touches c fl hash :
  rob_capacity Capacity -> rl_reachable Capacity touches c -> ab c = false ->
  in_flight (win (rl c)) < Capacity ->
  exists r' b, read_probe Capacity touches fl hash (rl c) = Some (r', b) /\
    forall id k, (id, k) ∈ live c -> rl_flush (rl c) <= id -> touches_key k hash -> b = true.
Proof.
  intros Hc Hr Hab Hfl. destruct (rl_reachable_ok _ _ Hc c Hr) as (F & w & H & Hu).
  pose proof H as (Hw & _). rewrite (in_flight_spec _ Hc _ _ _ Hw) in Hfl.
  destruct (read_probe_spec _ _ Hc fl hash _ F w _ H (Hu Hab) Hfl) as (r' & b & E & _ & Hb & _).
  exists r', b. split; [done|]. destruct (dispatch_eq _ _ _ _ _ _ H) as [_ ->]. done.
Qed.

(** A command on one key, its hash in [op_hash]; executors see the key through it. *)
Definition demo_write (hash : Z) : Op :=
  mkOp args_new (-1) (mkCut 0 0) hash 0 reply_new zc_null Free.
Definition demo_touches (o : Op) (hash : Z) : bool := op_hash o =? hash.

Lemma ryow_no_missed_write_witness :
  exists c, (rob_capacity 8 /\ rl_reachable 8 demo_touches c /\ ab c = false /\
             in_flight (win (rl c)) < 8 /\ live c = [(0, Some [7])] /\ rl_flush (rl c) = 0) /\
  exists r' b, read_probe 8 demo_touches 0 7 (rl c) = Some (r', b) /\
    forall id k, (id, k) ∈ live c -> rl_flush (rl c) <= id -> touches_key k 7 -> b = true.
Proof.
  assert (rob_capacity 8) as Hc by (exists 3; split; [lia|reflexivity]).
  assert (exists c, rl_reachable 8 demo_touches c /\ ab c = false /\ in_flight (win (rl c)) < 8 /\
            live c = [(0, Some [7])] /\ rl_flush (rl c) = 0) as (c & Hr & Ha & Hf & Hl & H0).
  { eexists. split.
    - eapply rl_next; [eapply rl_next; [apply (rl_start 8 demo_touches None)|]|].
      + eapply (rl_probe 8 demo_touches 0 7). vm_compute; reflexivity.
      + eapply (rl_write 8 demo_touches true 0 (demo_write 7) (RfHash 7) (Some [7])).
        * exists [7]. split; [done|]. by intros x ->%list_elem_of_singleton.
        * vm_compute; reflexivity.
        * vm_compute; reflexivity.
    - split_and!; vm_compute; reflexivity. }
  exists c. split; [done|]. by apply (ryow_no_missed_write 8 demo_touches).
Defined.

(** Why the retry of an abandoned frame matters: an unarmed connection remembers the id of the
    newest marked write, published or not.  With write 0 in flight and write 1 marked but
    abandoned, a probe of write 0's key before the retry finds no conflict. *)
Example abandoned_unarmed_probe :
  (r ← write_frame 8 true 0 (demo_write 7) (RfHash 7) (rl_new 8 None);
   r ← write_frame 8 true 0 (demo_write 9) (RfHash 9) (rl_publish r);
   '(_, conflict) ← read_probe 8 demo_touches 0 7 r;
   Some (in_flight (win r), conflict)) = Some (1, false).
Proof. vm_compute. reflexivity. Qed.
