(* ===== verification/ReadSlots.v ===== *)
(** Local reads of a connection: the pending-key filter has no false negatives, the bitmaps are
    enumerated in request order, and the owner probe answers exactly.  Models: ReadLocal.v. *)
From S2P Require Import Prelude Ring Slice Op Rob ReadLocal.

(** * The set bits of a word, in order *)
Definition bits_of (x lo n : Z) : list Z := List.filter (Z.testbit x) (seqZ lo n).

Lemma bits_of_app x lo m n : 0 <= m -> 0 <= n -> bits_of x lo (m + n) = bits_of x lo m ++ bits_of x (lo + m) n.
Proof. intros. unfold bits_of. by rewrite seqZ_app, List.filter_app by lia. Qed.

Lemma bits_of_ext x y lo n :
  (forall j, lo <= j < lo + n -> Z.testbit x j = Z.testbit y j) -> bits_of x lo n = bits_of y lo n.
Proof.
  intros H. apply List.filter_ext_in. intros j Hj%list_elem_of_In. apply elem_of_seqZ in Hj. by apply H.
Qed.

Lemma bits_of_0 x lo n : (forall j, lo <= j < lo + n -> Z.testbit x j = false) -> bits_of x lo n = [].
Proof.
  intros H. rewrite (bits_of_ext x 0) by (intros; rewrite H by lia; by rewrite Z.bits_0).
  unfold bits_of. induction (seqZ lo n) as [|j l IH]; [done|]. cbn. by rewrite Z.bits_0.
Qed.

Lemma bits_of_range x i : i ∈ bits_of x 0 64 <-> 0 <= i < 64 /\ Z.testbit x i = true.
Proof.
  unfold bits_of. rewrite list_elem_of_In, List.filter_In, <- list_elem_of_In, elem_of_seqZ.
  split; intros [? ?]; (split; [lia|done]).
Qed.
Lemma bits_of_seq x lo n i : i ∈ bits_of x lo n -> lo <= i < lo + n.
Proof. unfold bits_of. by rewrite list_elem_of_In, List.filter_In, <- list_elem_of_In, elem_of_seqZ; intros [? _]. Qed.
Lemma bits_of_length x : (length (bits_of x 0 64) <= 64)%nat.
Proof. unfold bits_of. etrans; [apply List.filter_length_le|]. by rewrite length_seqZ. Qed.

(** Clearing the lowest set bit with [bits & (bits - 1)]. *)
Lemma land_pred x j :
  word64 x -> x <> 0 -> 0 <= j ->
  Z.testbit (Z.land x (x - 1)) j = Z.testbit x j && negb (ctzll x =? j).
Proof.
  intros Hw Hn Hj. destruct (ctzll_spec x Hw Hn) as (Ht & Hb & Hz). set (t := ctzll x) in *. clearbody t.
  rewrite Z.land_spec. destruct (Z.ltb_spec j t) as [Hlt|Hge]; [by rewrite Hz by lia|].
  assert (0 < 2 ^ t) as Hp by (apply Z.pow_pos_nonneg; lia).
  assert (x mod 2 ^ t = 0) as Hm.
  { apply Z.bits_inj'. intros i Hi. rewrite Z.bits_0. destruct (Z.ltb_spec i t).
    - rewrite Z.mod_pow2_bits_low by lia. by apply Hz.
    - by rewrite Z.mod_pow2_bits_high by lia. }
  assert (x = 2 ^ t * (x / 2 ^ t)) as Hx by (pose proof (Z.div_mod x (2 ^ t)); lia).
  assert ((x - 1) / 2 ^ t = x / 2 ^ t - 1) as Hd.
  { symmetry. apply (Z.div_unique _ _ _ (2 ^ t - 1)); lia. }
  assert (forall y, Z.testbit y j = Z.testbit (y / 2 ^ t) (j - t)) as Hs.
  { intros y. rewrite <- Z.shiftr_div_pow2, Z.shiftr_spec by lia. f_equal. lia. }
  rewrite (Hs (x - 1)), Hd. rewrite (Hs x).
  assert (Z.odd (x / 2 ^ t) = true) as Ho.
  { rewrite <- Hb, Z.testbit_odd, Z.shiftr_div_pow2 by lia. done. }
  apply Z.odd_spec in Ho as [m ->]. replace (2 * m + 1 - 1) with (2 * m) by lia.
  destruct (Z.eqb_spec t j) as [<-|Hne]; cbn [negb andb].
  - rewrite Z.sub_diag, Z.testbit_even_0. by rewrite !andb_false_r.
  - replace (j - t) with (Z.succ (j - t - 1)) by lia.
    rewrite Z.testbit_even_succ, Z.testbit_odd_succ by lia. by destruct (Z.testbit m _).
Qed.

Lemma land_pred_word x : word64 x -> x <> 0 -> word64 (Z.land x (x - 1)).
Proof. intros Hx Hn. apply word64_land; [done|]. unfold word64 in Hx. lia. Qed.

(** The scan visits the lowest bit, then the rest. *)
Lemma bits_of_ctz x :
  word64 x -> x <> 0 -> bits_of x 0 64 = ctzll x :: bits_of (Z.land x (x - 1)) 0 64.
Proof.
  intros Hw Hn. destruct (ctzll_spec x Hw Hn) as (Ht & Hb & Hz). set (t := ctzll x) in *.
  replace 64 with (t + (1 + (63 - t))) by lia. rewrite !bits_of_app by lia.
  rewrite (bits_of_0 x 0 t) by (intros; apply Hz; lia).
  rewrite (bits_of_0 (Z.land x (x - 1)) 0 t) by (intros; rewrite land_pred, Hz by (done || lia); done).
  cbn [app]. unfold bits_of at 1 3. rewrite !seqZ_cons, !(seqZ_nil _ (Z.pred 1)) by lia. cbn [List.filter].
  rewrite Z.add_0_l, land_pred by (done || lia). fold t. rewrite Hb, Z.eqb_refl. cbn [negb andb app]. f_equal.
  apply bits_of_ext. intros j Hj. rewrite land_pred by (done || lia). fold t.
  replace (t =? j) with false by (symmetry; apply Z.eqb_neq; lia). by rewrite andb_true_r.
Qed.

(** * Ids of the set bits, in request order *)
Lemma lor_pow2_add k q i : 0 <= k -> 0 <= i < 2 ^ k -> Z.lor (2 ^ k * q) i = 2 ^ k * q + i.
Proof.
  intros Hk Hi. assert (Z.land (2 ^ k * q) i = 0) as Hz.
  { apply Z.bits_inj'. intros j Hj. rewrite Z.land_spec, Z.bits_0, Z.mul_comm.
    destruct (Z.ltb_spec j k); [by rewrite Z.mul_pow2_bits_low by lia|].
    rewrite <- (Z.mod_small i (2 ^ k)), Z.mod_pow2_bits_high by lia. apply andb_false_r. }
  by rewrite <- Z.lxor_lor, <- Z.add_nocarry_lxor by done.
Qed.

Lemma generation_spec k F : 0 <= k <= 6 -> word64 F -> Z.land F (not64 (2 ^ k - 1)) = 2 ^ k * (F / 2 ^ k).
Proof.
  intros Hk Hw. assert (Z.land F (not64 (2 ^ k - 1)) = Z.ldiff F (Z.ones k)) as ->.
  { rewrite Z.ones_equiv. replace (Z.pred (2 ^ k)) with (2 ^ k - 1) by lia.
    apply Z.bits_inj'. intros i Hi. rewrite Z.ldiff_spec. destruct (Z.ltb_spec i 64).
    - by rewrite clear_testbit by lia.
    - by rewrite Z.land_spec, (word64_high F) by (done || lia). }
  rewrite Z.ldiff_ones_r, Z.shiftl_mul_pow2, Z.shiftr_div_pow2 by lia. lia.
Qed.

Lemma filter_fmap_add (f : Z -> bool) g l :
  List.filter f (Z.add g <$> l) = Z.add g <$> List.filter (fun i => f (g + i)) l.
Proof. induction l as [|i l IH]; [done|]. cbn. destruct (f (g + i)); cbn; by rewrite IH. Qed.

Lemma filter_filter_andb {A} (f g : A -> bool) l :
  List.filter g (List.filter f l) = List.filter (fun x => f x && g x) l.
Proof. induction l as [|x l IH]; [done|]. cbn. destruct (f x); cbn; [destruct (g x)|]; by rewrite ?IH. Qed.

Section Enum.
Context (Capacity : Z) (Hcap : rob_capacity Capacity).

(** The ids [F], ..., [F + Capacity - 1] whose slot bit is set. *)
Definition slot_ids (x F : Z) : list Z :=
  List.filter (fun id => Z.testbit x (id mod Capacity)) (seqZ F Capacity).
Definition slot_word (x : Z) : Prop := word64 x /\ forall i, Capacity <= i -> Z.testbit x i = false.

(** A run of ids inside one generation, read off the slot bits. *)
Lemma generation_ids x q lo n :
  0 <= lo -> lo + n <= Capacity -> 0 <= n ->
  Z.lor (Capacity * q) <$> bits_of x lo n =
  List.filter (fun id => Z.testbit x (id mod Capacity)) (seqZ (Capacity * q + lo) n).
Proof.
  intros Hlo Hn Hn0. rewrite <- fmap_add_seqZ, filter_fmap_add. unfold bits_of.
  pose proof (rob_capacity_bounds _ Hcap) as [Hb _].
  assert (forall i, i ∈ seqZ lo n -> (Capacity * q + i) mod Capacity = i) as Hm.
  { intros i Hi%elem_of_seqZ. rewrite Z.add_comm, Z.mul_comm, Z_mod_plus_full. apply Z.mod_small. lia. }
  rewrite (List.filter_ext_in (fun i => Z.testbit x ((Capacity * q + i) mod Capacity)) (Z.testbit x))
    by (intros i Hi%list_elem_of_In; by rewrite Hm).
  apply list_fmap_ext. intros i j Hj. apply list_elem_of_lookup_2, list_elem_of_In, List.filter_In in Hj as [Hj _].
  apply list_elem_of_In, elem_of_seqZ in Hj. destruct Hcap as (k & Hk & ->). apply lor_pow2_add; lia.
Qed.

Lemma generation_mod q i : 0 <= i < Capacity -> Z.lor (Capacity * q) i mod Capacity = i.
Proof.
  intros Hi. destruct Hcap as (k & Hk & ->). rewrite lor_pow2_add by lia.
  rewrite Z.add_comm, Z.mul_comm, Z_mod_plus_full. by apply Z.mod_small.
Qed.

Lemma high_bits x b :
  slot_word x -> 0 <= b < Capacity ->
  bits_of (Z.land x (u64 (Z.shiftl UINT64_MAX b))) 0 64 = bits_of x b (Capacity - b).
Proof.
  intros [Hw Hhi] Hb. pose proof (rob_capacity_bounds _ Hcap) as [Hc _].
  assert (forall i, 0 <= i < 64 -> Z.testbit (u64 (Z.shiftl UINT64_MAX b)) i = (b <=? i)) as Hm.
  { intros i Hi. unfold u64. change 18446744073709551616 with (2 ^ 64).
    rewrite Z.mod_pow2_bits_low, Z.shiftl_spec by lia. change UINT64_MAX with (Z.ones 64).
    destruct (Z.leb_spec b i); [apply Z.ones_spec_low; lia|]. by rewrite Z.testbit_neg_r by lia. }
  replace 64 with (b + ((Capacity - b) + (64 - Capacity))) by lia. rewrite !bits_of_app by lia.
  rewrite (bits_of_0 _ 0 b), (bits_of_0 _ (0 + b + (Capacity - b))).
  - cbn [app]. rewrite app_nil_r, Z.add_0_l. apply bits_of_ext. intros j Hj.
    rewrite Z.land_spec, Hm by lia. replace (b <=? j) with true by (symmetry; apply Z.leb_le; lia). apply andb_true_r.
  - intros j Hj. rewrite Z.land_spec, Hhi by lia. done.
  - intros j Hj. rewrite Z.land_spec, Hm by lia. replace (b <=? j) with false by (symmetry; apply Z.leb_gt; lia). apply andb_false_r.
Qed.

Lemma low_bits x b :
  0 <= b < Capacity -> bits_of (Z.land x (if negb (b =? 0) then bit64 b - 1 else 0)) 0 64 = bits_of x 0 b.
Proof.
  intros Hb. pose proof (rob_capacity_bounds _ Hcap) as [Hc _].
  assert ((if negb (b =? 0) then bit64 b - 1 else 0) = Z.ones b) as ->.
  { destruct (Z.eqb_spec b 0) as [->|]; [done|]. cbn. rewrite bit64_eq, Z.ones_equiv by lia. lia. }
  replace 64 with (b + (64 - b)) by lia. rewrite bits_of_app by lia.
  rewrite (bits_of_0 _ (0 + b)), app_nil_r.
  - apply bits_of_ext. intros j Hj. rewrite Z.land_spec, Z.ones_spec_low by lia. apply andb_true_r.
  - intros j Hj. rewrite Z.land_spec, Z.ones_spec_high by lia. apply andb_false_r.
Qed.

Lemma split_ids x F :
  slot_word x -> 0 <= F -> F + 64 <= UINT64_MAX ->
  exists high gen low gen', split_slots Capacity x F = ((high, gen), (low, gen')) /\
    word64 high /\ word64 low /\
    (Z.lor gen <$> bits_of high 0 64) ++ (Z.lor gen' <$> bits_of low 0 64) = slot_ids x F /\
    (forall i, i ∈ bits_of high 0 64 -> 0 <= i < Capacity /\ Z.lor gen i mod Capacity = i) /\
    (forall i, i ∈ bits_of low 0 64 -> 0 <= i < Capacity /\ Z.lor gen' i mod Capacity = i).
Proof.
  intros Hx HF Hb. pose proof (rob_capacity_bounds _ Hcap) as [Hc _]. unfold UINT64_MAX in Hb.
  assert (id_slot Capacity F = F mod Capacity) as Eb.
  { rewrite <- (u64_small F) at 1 by lia. by apply id_slot_spec. }
  unfold split_slots. rewrite Eb. set (b := F mod Capacity).
  assert (0 <= b < Capacity) as Hbb by (apply Z.mod_pos_bound; lia).
  assert (Z.land F (not64 (rob_kMask Capacity)) = Capacity * (F / Capacity)) as ->.
  { destruct Hcap as (k & Hk & ->). apply generation_spec; [lia|]. unfold word64; lia. }
  pose proof (Z.div_mod F Capacity ltac:(lia)) as Hdm. fold b in Hdm.
  assert (u64 (Capacity * (F / Capacity) + Capacity) = Capacity * (F / Capacity + 1)) as -> by (rewrite u64_small; lia).
  eexists _, _, _, _. split; [reflexivity|].
  assert (0 <= (if negb (b =? 0) then bit64 b - 1 else 0)) as Hlow.
  { destruct (Z.eqb_spec b 0); cbn; [lia|]. rewrite bit64_eq by lia. pose proof (Z.pow_pos_nonneg 2 b). lia. }
  destruct Hx as [Hw Hhi]. split; [apply word64_land; [done|apply u64_range]|]. split; [by apply word64_land|].
  rewrite high_bits, low_bits, !generation_ids by (done || lia). unfold slot_ids.
  replace (seqZ F Capacity) with (seqZ F (Capacity - b) ++ seqZ (F + (Capacity - b)) b)
    by (rewrite <- seqZ_app by lia; f_equal; lia).
  rewrite List.filter_app. split; [do 2 f_equal; f_equal; lia|].
  split; intros i Hi; (assert (0 <= i < Capacity) as Hi' by (apply bits_of_seq in Hi; lia); split; [done|by apply generation_mod]).
Qed.

(** ** The two walks *)
#[local] Opaque ctzll bits_of.
(** [collect_bits] appends the matching ids, as long as the caller's array has room. *)
Definition wanted (r : RlRob) (hash : Z) (hash_only : bool) (id : Z) : bool :=
  negb hash_only || match at_ Capacity (win r) id with Some o => op_hash o =? hash | None => false end.

Lemma collect_bits_spec r hash ho cap fuel bits base ids :
  word64 bits -> (length (bits_of bits 0 64) <= fuel)%nat ->
  (ho = true -> forall i, i ∈ bits_of bits 0 64 -> is_Some (at_ Capacity (win r) (Z.lor base i))) ->
  Z.of_nat (length ids + length (bits_of bits 0 64)) <= cap ->
  collect_bits Capacity r hash ho cap fuel bits base ids =
  Some (ids ++ List.filter (wanted r hash ho) (Z.lor base <$> bits_of bits 0 64)).
Proof.
  revert bits ids. induction fuel as [|fuel IH]; intros bits ids Hw Hf Hat Hroom; cbn [collect_bits];
    (destruct (Z.eqb_spec bits 0) as [->|Hn]; [rewrite bits_of_0 by (intros; apply Z.bits_0); by rewrite app_nil_r|]);
    pose proof (bits_of_ctz bits Hw Hn) as Hb; pose proof (land_pred_word bits Hw Hn) as Hw';
    rewrite Hb in *; cbn [length] in *; [lia|].
  generalize dependent (Z.land bits (bits - 1)). generalize (ctzll bits).
  intros c rest Hf Hat Hroom Hb Hw'.
  set (id := Z.lor base c).
  assert (ho = true -> forall i, i ∈ bits_of rest 0 64 -> is_Some (at_ Capacity (win r) (Z.lor base i))) as Hat'.
  { intros Hho i Hi. apply Hat; [done|]. by right. }
  cbn [fmap list_fmap List.filter]. fold id. unfold wanted at 1. destruct ho; cbn [negb orb].
  - destruct (Hat eq_refl c) as [o Ho]; [left|]. fold id in Ho. rewrite Ho. cbn [mbind option_bind].
    destruct (op_hash o =? hash); cbn [negb]; [|apply IH; done || lia].
    replace (Z.of_nat (length ids) =? cap) with false by (symmetry; apply Z.eqb_neq; lia).
    rewrite IH by (done || rewrite ?length_app; cbn [length]; lia). by rewrite <- app_assoc.
  - cbn [mbind option_bind]. replace (Z.of_nat (length ids) =? cap) with false by (symmetry; apply Z.eqb_neq; lia).
    rewrite IH by (done || rewrite ?length_app; cbn [length]; lia). by rewrite <- app_assoc.
Qed.

Definition op_done (r : RlRob) (id : Z) : bool :=
  match at_ Capacity (win r) id with Some o => bool_decide (op_state o = Done) | None => false end.
Definition owner_hit (r : RlRob) (m : Op -> bool) (flush bd id : Z) : bool :=
  match at_ Capacity (win r) id with
  | Some o => negb (bool_decide (op_state o = Done)) && ((u64 (id - flush) <? bd) && m o)
  | None => false
  end.

Lemma inspect_bits_spec r m flush bd fuel bits base owner c :
  word64 bits -> (length (bits_of bits 0 64) <= fuel)%nat ->
  (forall i, i ∈ bits_of bits 0 64 -> 0 <= i < 64 /\ is_Some (at_ Capacity (win r) (Z.lor base i))) ->
  exists owner', inspect_bits Capacity m flush bd fuel (win r) bits base owner c =
      Some (owner', c || existsb (owner_hit r m flush bd) (Z.lor base <$> bits_of bits 0 64)) /\
    forall j, 0 <= j < 64 -> Z.testbit owner' j = true <->
      Z.testbit owner j = true /\ ~ (j ∈ bits_of bits 0 64 /\ op_done r (Z.lor base j) = true).
Proof.
  revert bits owner c. induction fuel as [|fuel IH]; intros bits owner c Hw Hf Hat; cbn [inspect_bits];
    (destruct (Z.eqb_spec bits 0) as [->|Hn];
      [rewrite bits_of_0 by (intros; apply Z.bits_0); exists owner; rewrite orb_false_r; split; [done|];
       intros j _; split; [intros ?; split; [done|by intros [?%elem_of_nil _]]|by intros [? _]]|]);
    pose proof (bits_of_ctz bits Hw Hn) as Hb; pose proof (land_pred_word bits Hw Hn) as Hw';
    rewrite Hb in *; cbn [length] in *; [lia|].
  generalize dependent (Z.land bits (bits - 1)). generalize (ctzll bits). intros t rest Hf Hat Hb Hw'.
  destruct (Hat t) as [Ht [o Ho]]; [left|]. rewrite Ho. cbn [mbind option_bind fmap list_fmap existsb].
  assert (forall i, i ∈ bits_of rest 0 64 -> 0 <= i < 64 /\ is_Some (at_ Capacity (win r) (Z.lor base i))) as Hat'.
  { intros i Hi. apply Hat. by right. }
  assert (owner_hit r m flush bd (Z.lor base t) =
    negb (bool_decide (op_state o = Done)) && ((u64 (Z.lor base t - flush) <? bd) && m o)) as ->
    by (unfold owner_hit; by rewrite Ho).
  assert (op_done r (Z.lor base t) = bool_decide (op_state o = Done)) as Hdone by (unfold op_done; by rewrite Ho).
  destruct (bool_decide (op_state o = Done)) eqn:Ed; cbn [negb andb].
  - destruct (IH rest (Z.land owner (not64 (bit64 t))) c Hw' ltac:(lia) Hat') as (owner' & -> & H).
    exists owner'. split; [done|]. intros j Hj. rewrite H, clear_testbit, bit64_testbit, andb_true_iff, elem_of_cons by lia.
    destruct (Z.eqb_spec t j) as [<-|Hne]; cbn; [|clear -Hne; intuition congruence].
    split; [by intros [[_ ?] _]|]. intros [_ Hno]. exfalso. apply Hno. split; [by left|done].
  - destruct (IH rest owner (c || ((u64 (Z.lor base t - flush) <? bd) && m o)) Hw' ltac:(lia) Hat') as (owner' & -> & H).
    exists owner'. rewrite orb_assoc. split; [done|]. intros j Hj. rewrite H by done.
    split; (intros [Hw1 Hno]; split; [done|]; intros [Hin Hd]; apply Hno).
    + apply elem_of_cons in Hin as [->|Hin]; [congruence|done].
    + split; [by right|done].
Qed.

#[local] Opaque inspect_bits collect_bits.

(** The slots of the ids in flight. *)
Lemma capacity_mask_testbit i : 0 <= i -> Z.testbit (capacity_slots_mask Capacity) i = (i <? Capacity).
Proof.
  intros Hi. pose proof (rob_capacity_bounds _ Hcap) as [Hc _].
  assert (capacity_slots_mask Capacity = Z.ones Capacity) as ->.
  { unfold capacity_slots_mask. destruct (Z.eqb_spec Capacity 64) as [->|]; [done|].
    rewrite bit64_eq, Z.ones_equiv by lia. lia. }
  rewrite Z.testbit_ones_nonneg by lia. done.
Qed.

Lemma capacity_mask_nonneg : 0 <= capacity_slots_mask Capacity.
Proof.
  pose proof (rob_capacity_bounds _ Hcap). unfold capacity_slots_mask. case_match; [by compute|].
  zcmp. rewrite bit64_eq by lia. pose proof (Z.pow_pos_nonneg 2 Capacity). lia.
Qed.

Lemma run_slot F n i :
  0 <= n <= Capacity -> 0 <= i < Capacity ->
  (exists id, F <= id < F + n /\ id mod Capacity = i) <->
  F mod Capacity <= i < F mod Capacity + n \/ i < F mod Capacity + n - Capacity.
Proof.
  intros Hn Hi. set (b := F mod Capacity). pose proof (rob_capacity_bounds _ Hcap) as [Hc _].
  assert (0 <= b < Capacity) as Hb by (apply Z.mod_pos_bound; lia).
  pose proof (Z.div_mod F Capacity ltac:(lia)) as HF. fold b in HF. split.
  - intros (id & Hid & <-). pose proof (Z.div_mod id Capacity ltac:(lia)). pose proof (Z.mod_pos_bound id Capacity ltac:(lia)).
    assert (id / Capacity = F / Capacity \/ id / Capacity = F / Capacity + 1) as [Eq|Eq] by nia; rewrite Eq in *; nia.
  - intros [H|H]; [exists (F - b + i)|exists (F - b + Capacity + i)]; (split; [lia|]).
    + replace (F - b + i) with (i + F / Capacity * Capacity) by lia. rewrite Z_mod_plus_full. by apply Z.mod_small.
    + replace (F - b + Capacity + i) with (i + (F / Capacity + 1) * Capacity) by lia. rewrite Z_mod_plus_full. by apply Z.mod_small.
Qed.

Lemma active_mask_testbit F D i :
  0 <= F <= D -> D - F <= Capacity -> D < UINT64_MAX -> 0 <= i ->
  Z.testbit (active_slots_mask Capacity (u64 D) (u64 F)) i = true <->
  exists id, F <= id < D /\ id mod Capacity = i.
Proof.
  intros HF HD Hmax Hi. pose proof (rob_capacity_bounds _ Hcap) as [Hc _]. unfold UINT64_MAX in Hmax.
  unfold active_slots_mask. rewrite u64_sub_u64, (u64_small (D - F)), (u32_small (D - F)), id_slot_spec by (done || lia).
  set (n := D - F). set (b := F mod Capacity). assert (0 <= b < Capacity) as Hb by (apply Z.mod_pos_bound; lia).
  replace D with (F + n) by lia.
  destruct (Z.ltb_spec i Capacity) as [Hlt|Hge].
  2:{ split; [|intros (id & _ & <-); pose proof (Z.mod_pos_bound id Capacity); lia].
      intros Hbit. exfalso. destruct (n =? 0); [by rewrite Z.bits_0 in Hbit|].
      destruct (Capacity <=? n); rewrite ?Z.land_spec, capacity_mask_testbit in Hbit by done;
        replace (i <? Capacity) with false in Hbit by (symmetry; apply Z.ltb_ge; lia); rewrite ?andb_false_r in Hbit; done. }
  rewrite run_slot by lia. fold b.
  destruct (Z.eqb_spec n 0) as [E0|E0]; [rewrite Z.bits_0; split; [done|lia]|].
  destruct (Z.leb_spec Capacity n); [rewrite capacity_mask_testbit by done; rewrite Z.ltb_lt; lia|].
  rewrite bit64_eq, (u32_small (b + n)) by lia.
  assert (forall j, Z.testbit (2 ^ n - 1) j = (0 <=? j) && (j <? n)) as Hrun.
  { intros j. replace (2 ^ n - 1) with (Z.ones n) by (rewrite Z.ones_equiv; lia). apply Z.testbit_ones. lia. }
  rewrite Z.land_spec, capacity_mask_testbit by done. replace (i <? Capacity) with true by (symmetry; apply Z.ltb_lt; lia).
  rewrite andb_true_r.
  assert (Z.testbit (u64 (Z.shiftl (2 ^ n - 1) b)) i = (0 <=? i - b) && (i - b <? n)) as Hlo.
  { unfold u64. change 18446744073709551616 with (2 ^ 64). rewrite Z.mod_pow2_bits_low, Z.shiftl_spec by lia. apply Hrun. }
  destruct (Z.ltb_spec Capacity (b + n)).
  - rewrite Z.lor_spec, Hlo, Z.shiftr_spec, Hrun by done. rewrite orb_true_iff, !andb_true_iff, !Z.leb_le, !Z.ltb_lt. lia.
  - rewrite Hlo, andb_true_iff, Z.leb_le, Z.ltb_lt. lia.
Qed.

(** A slot word whose bits all belong to ids in flight enumerates ids in flight. *)
Definition in_window_word (x F n : Z) : Prop :=
  slot_word x /\ forall i, 0 <= i -> Z.testbit x i = true -> exists id, F <= id < F + n /\ id mod Capacity = i.
Definition window_ids (x F n : Z) : list Z :=
  List.filter (fun id => Z.testbit x (id mod Capacity)) (seqZ F n).

Lemma slot_ids_window x F n : 0 <= n <= Capacity -> in_window_word x F n -> slot_ids x F = window_ids x F n.
Proof.
  intros Hn [_ Hx]. unfold slot_ids, window_ids.
  replace (seqZ F Capacity) with (seqZ F n ++ seqZ (F + n) (Capacity - n))
    by (rewrite <- seqZ_app by lia; f_equal; lia).
  rewrite List.filter_app.
  replace (List.filter _ (seqZ (F + n) (Capacity - n))) with (@nil Z); [apply app_nil_r|].
  symmetry. rewrite <- (List.filter_ext_in (fun _ => false)); [by induction (seqZ (F + n) (Capacity - n))|].
  intros id Hid%list_elem_of_In. apply elem_of_seqZ in Hid. symmetry. apply not_true_iff_false. intros Hb.
  destruct (Hx (id mod Capacity)) as (id' & Hid' & Em); [by apply (mod_slot_bounds _ Hcap)|done|].
  by apply (slots_differ _ Hcap id' id) in Em; [|lia].
Qed.


Lemma window_ids_in x F n id : id ∈ window_ids x F n <-> F <= id < F + n /\ Z.testbit x (id mod Capacity) = true.
Proof.
  unfold window_ids. by rewrite list_elem_of_In, List.filter_In, <- list_elem_of_In, elem_of_seqZ.
Qed.

Section Walks.
Context (r : RlRob) (F : Z) (w : list Op).
Context (Hw : rob_inv Capacity (win r) F w) (Hmax : F + 128 <= UINT64_MAX).

Lemma window_at id : F <= id < F + Z.of_nat (length w) ->
  exists o, w !! Z.to_nat (id - F) = Some o /\ at_ Capacity (win r) id = Some o.
Proof.
  intros Hid. pose proof Hw as (HF & _ & _ & Hl & _). pose proof (rob_capacity_bounds _ Hcap). unfold UINT64_MAX in Hmax.
  destruct (lookup_lt_is_Some_2 w (Z.to_nat (id - F))) as [o Ho]; [lia|]. exists o. split; [done|].
  pose proof (at_spec _ Hcap _ _ _ _ _ Hw Ho) as Ha.
  by replace (u64 (F + Z.of_nat (Z.to_nat (id - F)))) with id in Ha by (rewrite u64_small; lia).
Qed.

(** Both halves of a split word name operations in flight, in request order. *)
Lemma split_window x :
  in_window_word x F (Z.of_nat (length w)) ->
  exists high gen low gen', split_slots Capacity x (rl_flush r) = ((high, gen), (low, gen')) /\
    word64 high /\ word64 low /\
    (Z.lor gen <$> bits_of high 0 64) ++ (Z.lor gen' <$> bits_of low 0 64) = window_ids x F (Z.of_nat (length w)) /\
    (forall i, i ∈ bits_of high 0 64 -> 0 <= i < 64 /\ is_Some (at_ Capacity (win r) (Z.lor gen i))) /\
    (forall i, i ∈ bits_of low 0 64 -> 0 <= i < 64 /\ is_Some (at_ Capacity (win r) (Z.lor gen' i))) /\
    (forall i, i ∈ bits_of high 0 64 -> Z.lor gen i mod Capacity = i) /\
    (forall i, i ∈ bits_of low 0 64 -> Z.lor gen' i mod Capacity = i).
Proof.
  intros Hx. pose proof Hw as (HF & _ & Hf & Hl & _). pose proof (rob_capacity_bounds _ Hcap). unfold UINT64_MAX in Hmax.
  unfold rl_flush, flush_id. rewrite Hf, u64_small by lia.
  destruct (split_ids x F (proj1 Hx)) as (high & gen & low & gen' & E & H1 & H2 & Hids & Hm1 & Hm2);
    [lia|unfold UINT64_MAX; lia|].
  rewrite (slot_ids_window x F (Z.of_nat (length w))) in Hids by (done || lia).
  exists high, gen, low, gen'. split; [done|]. split; [done|]. split; [done|]. split; [done|].
  assert (forall id, id ∈ (Z.lor gen <$> bits_of high 0 64) ++ (Z.lor gen' <$> bits_of low 0 64) ->
            is_Some (at_ Capacity (win r) id)) as Hat.
  { intros id. rewrite Hids. intros [Hid _]%window_ids_in. destruct (window_at id Hid) as (o & _ & ->). done. }
  split; [|split; [|split; intros i Hi; [by apply Hm1|by apply Hm2]]]; intros i Hi;
    (split; [by apply bits_of_range in Hi as [? _]|]); apply Hat, elem_of_app; [left|right]; by apply list_elem_of_fmap_2.
Qed.

Lemma collect_spec hash ho cap :
  in_window_word (pending_slots r) F (Z.of_nat (length w)) -> Capacity <= cap ->
  collect_pending_read_local Capacity hash ho cap r =
  Some (List.filter (wanted r hash ho) (window_ids (pending_slots r) F (Z.of_nat (length w)))).
Proof.
  intros Hx Hc. unfold collect_pending_read_local. destruct (Z.eqb_spec (pending_slots r) 0) as [E0|E0].
  { replace (window_ids _ _ _) with (@nil Z); [done|]. unfold window_ids. rewrite E0.
    induction (seqZ F (Z.of_nat (length w))) as [|id l IH]; [done|]. cbn. by rewrite Z.bits_0. }
  destruct (split_window _ Hx) as (high & gen & low & gen' & -> & H1 & H2 & Hids & Ha1 & Ha2 & _).
  assert (length (bits_of high 0 64) + length (bits_of low 0 64) <= length w)%nat as Hlen.
  { apply (f_equal length) in Hids. rewrite length_app, !length_fmap in Hids.
    etrans; [rewrite Hids; apply List.filter_length_le|]. rewrite length_seqZ. lia. }
  pose proof Hw as (_ & _ & _ & Hl & _). rewrite <- Hids.
  rewrite collect_bits_spec; [|done|apply bits_of_length|intros _ i Hi; by apply Ha1|cbn [length]; lia].
  cbn [mbind option_bind app]. rewrite collect_bits_spec; [|done|apply bits_of_length|intros _ i Hi; by apply Ha2|].
  - by rewrite List.filter_app.
  - pose proof (List.filter_length_le (wanted r hash ho) (Z.lor gen <$> bits_of high 0 64)) as Hle.
    rewrite length_fmap in Hle. lia.
Qed.

(** The owner word after pruning to the window. *)
Lemma active_word x : slot_word x -> in_window_word (Z.land x (active_slots_mask Capacity (rl_dispatch r) (rl_flush r))) F (Z.of_nat (length w)).
Proof.
  intros [Hx Hhi]. pose proof Hw as (HF & Hd & Hf & Hl & _). pose proof (rob_capacity_bounds _ Hcap). unfold UINT64_MAX in Hmax.
  unfold rl_dispatch, rl_flush, dispatch_id, flush_id. rewrite Hd, Hf. set (D := F + Z.of_nat (length w)).
  assert (0 <= active_slots_mask Capacity (u64 D) (u64 F)) as Hnn.
  { pose proof capacity_mask_nonneg. unfold active_slots_mask.
    repeat case_match; try lia; apply Z.land_nonneg; by right. }
  split; [split; [by apply word64_land|intros i Hi; rewrite Z.land_spec, Hhi by done; done]|].
  intros i Hi Hb. rewrite Z.land_spec in Hb. apply andb_prop in Hb as [_ Hb].
  apply active_mask_testbit in Hb; [done|lia|lia|unfold UINT64_MAX; lia|done].
Qed.

Definition unfinished (id : Z) : Prop :=
  exists o, w !! Z.to_nat (id - F) = Some o /\ op_state o <> Done.

Lemma op_done_unfinished id : F <= id < F + Z.of_nat (length w) -> op_done r id = false <-> unfinished id.
Proof.
  intros Hid. destruct (window_at id Hid) as (o & Ho & Ha). unfold op_done, unfinished. rewrite Ha.
  rewrite bool_decide_eq_false. split; [by exists o|]. intros (o' & Ho' & Hd). congruence.
Qed.

(** Which bits survive the inspection of a word inside the window. *)
Lemma inspected_bits x high gen low gen' j :
  in_window_word x F (Z.of_nat (length w)) ->
  (Z.lor gen <$> bits_of high 0 64) ++ (Z.lor gen' <$> bits_of low 0 64) = window_ids x F (Z.of_nat (length w)) ->
  (forall i, i ∈ bits_of high 0 64 -> Z.lor gen i mod Capacity = i) ->
  (forall i, i ∈ bits_of low 0 64 -> Z.lor gen' i mod Capacity = i) ->
  0 <= j < 64 ->
  (Z.testbit x j = true /\ ~ (j ∈ bits_of high 0 64 /\ op_done r (Z.lor gen j) = true)) /\
    ~ (j ∈ bits_of low 0 64 /\ op_done r (Z.lor gen' j) = true) <->
  Z.testbit x j = true /\ exists id, F <= id < F + Z.of_nat (length w) /\ id mod Capacity = j /\ unfinished id.
Proof.
  intros [_ Hin] Hids Hm1 Hm2 Hj. pose proof Hw as (_ & _ & _ & Hl & _). split.
  - intros [[Hb Hno1] Hno2]. split; [done|]. destruct (Hin j ltac:(lia) Hb) as (id & Hid & Em). exists id.
    split; [done|]. split; [done|]. apply op_done_unfinished; [done|]. apply not_true_iff_false. intros Hd.
    assert (id ∈ window_ids x F (Z.of_nat (length w))) as Hmem by (apply window_ids_in; by rewrite Em).
    rewrite <- Hids in Hmem. apply elem_of_app in Hmem as [Hm|Hm]; apply list_elem_of_fmap in Hm as (i & -> & Hi).
    + rewrite (Hm1 i Hi) in Em. subst i. by apply Hno1.
    + rewrite (Hm2 i Hi) in Em. subst i. by apply Hno2.
  - intros [Hb (id & Hid & Em & Hu)].
    assert (forall g, g ∈ window_ids x F (Z.of_nat (length w)) -> g mod Capacity = j -> op_done r g = true -> False) as Hno.
    { intros g [Hg _]%window_ids_in Eg Hd. assert (g = id) as ->.
      { destruct (Z.lt_trichotomy g id) as [Hlt|[?|Hlt]]; [|done|].
        - destruct (slots_differ _ Hcap g id); [lia|congruence].
        - destruct (slots_differ _ Hcap id g); [lia|congruence]. }
      apply op_done_unfinished in Hu; [congruence|done]. }
    split; [split; [done|]|]; intros [Hi Hd]; eapply Hno; try exact Hd; auto; rewrite <- Hids; apply elem_of_app;
      [left|right]; by apply list_elem_of_fmap_2.
Qed.

(** A hit among the enumerated ids. *)
Lemma owner_hit_iff x m before :
  F <= before <= F + Z.of_nat (length w) ->
  existsb (owner_hit r m (rl_flush r) (before - F)) (window_ids x F (Z.of_nat (length w))) = true <->
  exists id o, F <= id < before /\ w !! Z.to_nat (id - F) = Some o /\ Z.testbit x (id mod Capacity) = true /\
    op_state o <> Done /\ m o = true.
Proof.
  intros Hbf. pose proof Hw as (HF & _ & Hf & Hl & _). pose proof (rob_capacity_bounds _ Hcap). unfold UINT64_MAX in Hmax.
  unfold rl_flush, flush_id. rewrite Hf, (u64_small F) by lia. rewrite existsb_exists. split.
  - intros (id & Hid%list_elem_of_In & Hh). apply window_ids_in in Hid as [Hid Hb].
    destruct (window_at id Hid) as (o & Ho & Ha). unfold owner_hit in Hh. rewrite Ha in Hh.
    apply andb_prop in Hh as [H1 H2]. apply andb_prop in H2 as [H2 H3]. zcmp. rewrite u64_small in H2 by lia.
    apply bool_decide_eq_false in H1. exists id, o. split_and!; try done; lia.
  - intros (id & o & Hid & Ho & Hb & Hd & Hm). exists id. split; [apply list_elem_of_In, window_ids_in; split; [lia|done]|].
    destruct (window_at id ltac:(lia)) as (o' & Ho' & Ha). rewrite Ho in Ho'. injection Ho' as <-. unfold owner_hit.
    rewrite Ha, Hm, bool_decide_eq_false_2, andb_true_r by done. cbn [negb andb]. apply Z.ltb_lt. rewrite u64_small; lia.
Qed.

(** The two inspections of a word inside the window. *)
Lemma inspect_window x m bd :
  in_window_word x F (Z.of_nat (length w)) ->
  exists owner,
    (let '((high, gen), (low, gen')) := split_slots Capacity x (rl_flush r) in
     '(owner, c) ← inspect_bits Capacity m (rl_flush r) bd 64 (win r) high gen x false;
     inspect_bits Capacity m (rl_flush r) bd 64 (win r) low gen' owner c) =
    Some (owner, existsb (owner_hit r m (rl_flush r) bd) (window_ids x F (Z.of_nat (length w)))) /\
    forall j, 0 <= j < 64 -> Z.testbit owner j = true <->
      Z.testbit x j = true /\ exists id, F <= id < F + Z.of_nat (length w) /\ id mod Capacity = j /\ unfinished id.
Proof.
  intros Hx. destruct (split_window _ Hx) as (high & gen & low & gen' & -> & H1 & H2 & Hids & Ha1 & Ha2 & Hm1 & Hm2).
  destruct (inspect_bits_spec r m (rl_flush r) bd 64 high gen x false H1 (bits_of_length _) Ha1) as (o1 & -> & Ho1).
  cbn [mbind option_bind orb].
  destruct (inspect_bits_spec r m (rl_flush r) bd 64 low gen' o1
    (existsb (owner_hit r m (rl_flush r) bd) (Z.lor gen <$> bits_of high 0 64)) H2 (bits_of_length _) Ha2) as (o2 & -> & Ho2).
  exists o2. rewrite <- existsb_app, Hids. split; [done|]. intros j Hj.
  rewrite Ho2, Ho1 by done. by eapply inspected_bits.
Qed.

Lemma active_testbit x id :
  F <= id < F + Z.of_nat (length w) ->
  Z.testbit (Z.land x (active_slots_mask Capacity (rl_dispatch r) (rl_flush r))) (id mod Capacity) = Z.testbit x (id mod Capacity).
Proof.
  intros Hid. pose proof Hw as (HF & Hd & Hf & Hl & _). pose proof (rob_capacity_bounds _ Hcap). unfold UINT64_MAX in Hmax.
  rewrite Z.land_spec. unfold rl_dispatch, rl_flush, dispatch_id, flush_id. rewrite Hd, Hf.
  rewrite (proj2 (active_mask_testbit F (F + Z.of_nat (length w)) (id mod Capacity) ltac:(lia) ltac:(lia)
    ltac:(unfold UINT64_MAX; lia) (proj1 (mod_slot_bounds _ Hcap id)))) by (by exists id).
  apply andb_true_r.
Qed.

Definition owner_verdict m before x : Prop :=
  exists id o, F <= id < before /\ w !! Z.to_nat (id - F) = Some o /\ Z.testbit x (id mod Capacity) = true /\
    op_state o <> Done /\ m o = true.
Definition owner_left x j : Prop :=
  Z.testbit x j = true /\ exists id, F <= id < F + Z.of_nat (length w) /\ id mod Capacity = j /\ unfinished id.

Lemma owner_spec m before :
  slot_word (owner_slots r) -> F <= before <= F + Z.of_nat (length w) ->
  exists r' c, read_local_owner_conflicts_before Capacity before m r = Some (r', c) /\
    (c = true <-> owner_verdict m before (owner_slots r)) /\
    (forall j, 0 <= j < 64 -> Z.testbit (owner_slots r') j = true <-> owner_left (owner_slots r) j).
Proof.
  intros Hx Hbf. pose proof Hw as (HF & Hd & Hf & Hl & _). pose proof (rob_capacity_bounds _ Hcap). unfold UINT64_MAX in Hmax.
  assert (forall m, ~ owner_verdict m before 0) as Hv0 by (intros ? (id & o & _ & _ & Hb & _); by rewrite Z.bits_0 in Hb).
  assert (forall j, ~ owner_left 0 j) as Hl0 by (intros j [Hb _]; by rewrite Z.bits_0 in Hb).
  unfold read_local_owner_conflicts_before. destruct (Z.eqb_spec (owner_slots r) 0) as [E0|E0].
  { exists r, false. rewrite E0. split; [done|]. split; [by split; [|intros []%Hv0]|]. intros j _. rewrite Z.bits_0. by split; [|intros []%Hl0]. }
  pose proof (active_word _ Hx) as Hact. pose proof (active_testbit (owner_slots r)) as Hxb. set (x := Z.land (owner_slots r) _) in *. clearbody x.
  assert (forall j, 0 <= j < 64 -> owner_left x j <-> owner_left (owner_slots r) j) as Hj.
  { intros j _. split; intros [Hb (id & Hid & <- & Hu)]; (split; [|by exists id]); [by rewrite <- Hxb|by rewrite Hxb]. }
  assert (owner_verdict m before x <-> owner_verdict m before (owner_slots r)) as Hc.
  { split; intros (id & o & Hid & Ho & Hb & Hr); exists id, o; rewrite ?Hxb in * by lia; done. }
  destruct (Z.eqb_spec x 0) as [Ex|Ex].
  { eexists _, false. split; [done|]. split; [rewrite <- Hc, Ex; by split; [|intros []%Hv0]|].
    intros j Hj'. rewrite <- Hj by done. cbn. rewrite Ex, Z.bits_0. by split; [|intros []%Hl0]. }
  assert (u64 (before - rl_flush r) = before - F) as ->.
  { unfold rl_flush, flush_id. rewrite Hf, u64_small; rewrite (u64_small F); lia. }
  assert ((u64 (rl_dispatch r - rl_flush r) <? before - F) = false) as ->.
  { apply Z.ltb_ge. unfold rl_dispatch, rl_flush, dispatch_id, flush_id. rewrite Hd, Hf, u64_sub_u64, u64_small; lia. }
  destruct (inspect_window x m (before - F) Hact) as (owner & E & Ho).
  destruct (split_slots Capacity x (rl_flush r)) as [[high gen] [low gen']].
  apply bind_Some in E as ([o1 c1] & E1 & E2). change (win (set_slots_words _ _ _ _)) with (win r).
  rewrite E1, some_bind. cbn beta iota. rewrite E2, some_bind. cbn beta iota. eexists _, _. split; [reflexivity|]. rewrite <- Hc. split; [by apply owner_hit_iff|].
  intros j Hj'. cbn. rewrite Ho, <- Hj by done. done.
Qed.
End Walks.
End Enum.

(** * The pending-key filter *)
Lemma filter_add_hit f h : length f = 4%nat -> may_contain (filter_add f h) h = true.
Proof.
  intros Hl. unfold may_contain, filter_add. rewrite list_lookup_alter_eq.
  assert (Z.to_nat (word_of h) < length f)%nat as Hlt.
  { rewrite Hl. unfold word_of. change (kWords - 1) with (2 ^ 2 - 1). rewrite land_ones_mod by lia.
    rewrite u32_small; pose proof (Z.mod_pos_bound (Z.shiftr h 6) (2 ^ 2)); lia. }
  destruct (lookup_lt_is_Some_2 f _ Hlt) as [w ->]. cbn. apply Z.eqb_eq, Z.bits_inj'. intros i Hi.
  rewrite Z.land_spec, Z.lor_spec. by destruct (Z.testbit w i), (Z.testbit (keyset_filter h) i).
Qed.

Lemma subset_lor w v k : (Z.land w k =? k) = true -> (Z.land (Z.lor w v) k =? k) = true.
Proof.
  rewrite !Z.eqb_eq. intros <-. apply Z.bits_inj'. intros i Hi. rewrite !Z.land_spec, Z.lor_spec.
  by destruct (Z.testbit w i), (Z.testbit v i), (Z.testbit k i).
Qed.

Lemma filter_add_keeps f h h' : may_contain f h = true -> may_contain (filter_add f h') h = true.
Proof.
  unfold may_contain, filter_add. destruct (decide (Z.to_nat (word_of h') = Z.to_nat (word_of h))) as [E|E].
  - rewrite E, list_lookup_alter_eq. destruct (f !! _); cbn; [apply subset_lor|done].
  - by rewrite list_lookup_alter_ne.
Qed.

Lemma filter_merge_keeps f g h :
  length f = length g -> may_contain f h = true \/ may_contain g h = true -> may_contain (filter_merge f g) h = true.
Proof.
  intros Hl. unfold may_contain, filter_merge. rewrite lookup_zip_with.
  destruct (f !! Z.to_nat (word_of h)) as [a|] eqn:Ea.
  - destruct (lookup_lt_is_Some_2 g (Z.to_nat (word_of h))) as [b Hb]; [apply lookup_lt_Some in Ea; lia|].
    rewrite Hb. cbn. intros [H|H]; [by apply subset_lor|]. rewrite Z.lor_comm. by apply subset_lor.
  - intros [?|H]; [done|]. apply lookup_ge_None in Ea. rewrite (lookup_ge_None_2 g) in H by lia. done.
Qed.

(** ** Pending reads as a machine

    [pend] records the reads whose slot is marked pending, with the key hashes each may touch. *)
Abbreviation Pend := (list (Z * list Z)).
Section Pending.
Context (Capacity : Z) (Hcap : rob_capacity Capacity).
Definition away (bits : Z) (P : Pend) : Pend :=
  List.filter (fun p => negb (Z.testbit bits (id_slot Capacity p.1))) P.

Inductive pend_step : RlRob * Pend -> RlRob * Pend -> Prop :=
| pend_hash r r' P id h :
    mark_current_read_local_hash Capacity id h r = Some r' -> pend_step (r, P) (r', (id, [h]) :: P)
| pend_keys r r' P id g hs :
    length g = 4%nat -> (forall h, h ∈ hs -> may_contain g h = true) ->
    mark_current_read_local Capacity id g r = Some r' -> pend_step (r, P) (r', (id, hs) :: P)
| pend_complete r r' P id :
    complete_pending_read_local Capacity id r = Some r' ->
    pend_step (r, P) (r', away (read_local_slot_bit Capacity id) P)
| pend_mask r r' P bits :
    complete_pending_read_local_mask bits r = Some r' -> pend_step (r, P) (r', away bits P)
| pend_owner r r' P id :
    publish_pending_read_local_to_owner Capacity id r = Some r' ->
    pend_step (r, P) (r', away (read_local_slot_bit Capacity id) P)
| pend_reset r P g :
    length g = 4%nat -> (forall id hs h, (id, hs) ∈ P -> h ∈ hs -> may_contain g h = true) ->
    pend_step (r, P) (reset_read_local_pending_filter g r, P)
| pend_acquire r r' P fl o :
    acquire_read_local Capacity fl r = Some (r', o) ->
    pend_step (r, P) (r', match o with Some _ => away (read_local_slot_bit Capacity (rl_dispatch r')) P | None => P end).
Inductive pend_reachable : RlRob * Pend -> Prop :=
| pend_start stats : pend_reachable (rl_new Capacity stats, [])
| pend_next s s' : pend_reachable s -> pend_step s s' -> pend_reachable s'.

Definition pend_inv (s : RlRob * Pend) : Prop :=
  let '(r, P) := s in
  word64 (pending_slots r) /\ length (pending_filter r) = 4%nat /\
  forall id hs, (id, hs) ∈ P ->
    Z.testbit (pending_slots r) (id_slot Capacity id) = true /\
    forall h, h ∈ hs -> may_contain (pending_filter r) h = true.

Lemma id_slot_bounds id : 0 <= id_slot Capacity id < 64.
Proof.
  destruct Hcap as (k & Hk & ->). unfold id_slot, rob_kMask. rewrite land_ones_mod by lia.
  pose proof (Z.mod_pos_bound (u32 id) (2 ^ k) ltac:(apply Z.pow_pos_nonneg; lia)).
  pose proof (Z.pow_le_mono_r 2 k 6). lia.
Qed.

Lemma mark_slot_inv r r' P id hs f :
  pend_inv (r, P) -> mark_current_read_local_slot Capacity id r = Some r' -> length f = 4%nat ->
  (forall h, may_contain (pending_filter r) h = true -> may_contain f h = true) ->
  (forall h, h ∈ hs -> may_contain f h = true) ->
  pend_inv (set_slots_words r' (pending_slots r') (owner_slots r') f, (id, hs) :: P).
Proof.
  intros (Hw & Hl & HP) Hm Hlf Hkeep Hnew. unfold mark_current_read_local_slot in Hm. case_match; [done|]. simplify_eq.
  cbn. pose proof (id_slot_bounds id).
  split; [apply word64_lor; [done|apply word64_u64]|]. split; [done|].
  intros id' hs' [Heq|Hin]%elem_of_cons.
  - injection Heq as -> ->. split; [|done].
    unfold read_local_slot_bit. rewrite Z.lor_spec, bit64_testbit, Z.eqb_refl by lia. apply orb_true_r.
  - destruct (HP id' hs' Hin) as [Hb Hc]. split; [by rewrite Z.lor_spec, Hb|]. auto.
Qed.

Lemma retire_inv r P bits fl : pend_inv (r, P) -> pend_inv (set_slots_words (read_local_retire_pending_bit bits r)
  (pending_slots (read_local_retire_pending_bit bits r)) fl (pending_filter (read_local_retire_pending_bit bits r)), away bits P).
Proof.
  intros (Hw & Hl & HP). cbn.
  split; [apply word64_land; [done|apply u64_range]|].
  split; [case_match; [unfold filter_clear; by rewrite length_fmap|done]|].
  intros id hs Hin. unfold away in Hin. apply list_elem_of_In, List.filter_In in Hin as [Hin Hb]. cbn in Hb.
  apply list_elem_of_In in Hin. destruct (HP id hs Hin) as [Hp Hc]. pose proof (id_slot_bounds id).
  assert (Z.testbit (Z.land (pending_slots r) (not64 bits)) (id_slot Capacity id) = true) as Ht
    by (by rewrite clear_testbit, Hp, Hb by lia).
  split; [done|]. case_match eqn:E0; [|done]. zcmp. by rewrite E0, Z.bits_0 in Ht.
Qed.

Lemma fence_keeps r P id : pend_inv (r, P) -> pend_inv (read_local_clear_mget_fence id r, P).
Proof. unfold read_local_clear_mget_fence. by case_match. Qed.

(** Resolving a staged write leaves the slot words and the key filter. *)
Definition same_pending (r r' : RlRob) : Prop := pending_slots r' = pending_slots r /\ pending_filter r' = pending_filter r.
Lemma prune_same r s d f r' s' : read_local_prune_at r s d f = Some (r', s') -> same_pending r r'.
Proof.
  unfold read_local_prune_at. destruct (overflow s); [case_match; by intros [= <- _]|]. destruct (prune_loop _ _ _ _ _) as [[s1 b]|]; [|done]. rewrite some_bind.
  destruct (write_count s1 =? 0); [by intros [= <- _]|]. destruct (negb (b =? 0)); by intros [= <- _].
Qed.
Lemma commit_same r s p h id r' s' : ring_commit r s p h id = Some (r', s') -> same_pending r r'.
Proof. unfold ring_commit. destruct (write_ring s !! _); [|done]. rewrite some_bind. destruct (bool_decide _); by intros [= <- _]. Qed.
Lemma resolve_same r r' : resolve_read_local_write r = Some r' -> same_pending r r'.
Proof.
  unfold resolve_read_local_write, read_local_resolve_pending_body. destruct (side r) as [s|]; [|done]. rewrite some_bind. destruct (bool_decide (pending_write s = PwNone)); [by intros [= <-]|]. destruct (negb _); [by intros [= <-]|].
  destruct (read_local_prune_at _ _ _ _) as [[r1 s1]|] eqn:E1; [|done]. apply prune_same in E1 as [Es Ef]. rewrite some_bind. cbn in Es, Ef. destruct (overflow s1 || _).
  - rewrite some_bind. intros [= <-]. unfold same_pending. cbn. destruct (negb (overflow s1)); by rewrite <- ?Es, <- ?Ef.
  - destruct (ring_commit _ _ _ _ _) as [[r2 s2]|] eqn:E2; [|done]. apply commit_same in E2 as [Es2 Ef2]. rewrite some_bind. intros [= <-]. split; cbn; congruence.
Qed.
Lemma acquire_inv r r' P fl o : pend_inv (r, P) -> acquire_read_local Capacity fl r = Some (r', o) ->
  pend_inv (r', match o with Some _ => away (read_local_slot_bit Capacity (rl_dispatch r')) P | None => P end).
Proof.
  intros (Hw & Hl & HP) E. unfold acquire_read_local in E. apply bind_Some in E as (r1 & E1 & E). assert (same_pending r r1) as [Es Ef] by (destruct (staged r); [by apply resolve_same|by injection E1 as <-]).
  destruct (Capacity <=? _); [injection E as <- <-; cbn; by rewrite Es, Ef|]. destruct (slot _ _ _) as [[cs o1]|]; [|done]. rewrite some_bind in E. destruct (slot_store _ _ _) as [cs'|]; [|done]. rewrite some_bind in E. injection E as <- <-.
  cbn. rewrite Es, Ef. change (rl_dispatch (set_win _ _)) with (rl_dispatch r1). set (id := rl_dispatch r1). split; [apply word64_land; [done|apply u64_range]|]. split; [done|]. intros id' hs Hin. unfold away in Hin. apply list_elem_of_In, List.filter_In in Hin as [Hin Hb]. cbn in Hb.
  apply list_elem_of_In in Hin. destruct (HP id' hs Hin) as [Hp Hc]. pose proof (id_slot_bounds id'). split; [|done]. rewrite clear_testbit, Hp by lia. exact Hb.
Qed.
Lemma pend_inv_step s s' : pend_inv s -> pend_step s s' -> pend_inv s'.
Proof.
  intros H Hs. destruct Hs as [r r' P id h Hm|r r' P id g hs Hg Hgs Hm|r r' P id Hm|r r' P bits Hm|r r' P id Hm|r P g Hg Hgs|r r' P fl o Hm].
  - apply bind_Some in Hm as (r1 & Hm & Hm'). injection Hm' as <-. assert (length (pending_filter r) = 4%nat) as Hl by (by destruct H as (_ & ? & _)).
    assert (pending_filter r1 = pending_filter r) as -> by (unfold mark_current_read_local_slot in Hm; case_match; by simplify_eq).
    eapply mark_slot_inv; [done|done|by unfold filter_add; rewrite length_alter|by intros ?; apply filter_add_keeps|].
    intros h' ->%list_elem_of_singleton. by apply filter_add_hit.
  - apply bind_Some in Hm as (r1 & Hm & Hm'). injection Hm' as <-. assert (length (pending_filter r) = 4%nat) as Hl by (by destruct H as (_ & ? & _)).
    assert (pending_filter r1 = pending_filter r) as -> by (unfold mark_current_read_local_slot in Hm; case_match; by simplify_eq).
    eapply mark_slot_inv; [done|done|unfold filter_merge; rewrite length_zip_with; lia|..].
    + intros h Hh. apply filter_merge_keeps; [lia|by left].
    + intros h Hh. apply filter_merge_keeps; [lia|right; by apply Hgs].
  - unfold complete_pending_read_local in Hm. case_match; [done|]. simplify_eq. apply fence_keeps.
    by apply (retire_inv r P _ (owner_slots r)).
  - unfold complete_pending_read_local_mask in Hm. case_match; [done|]. simplify_eq. by apply (retire_inv r P _ (owner_slots r)).
  - unfold publish_pending_read_local_to_owner in Hm. case_match; [done|]. simplify_eq. apply fence_keeps. by apply retire_inv.
  - destruct H as (Hw & Hl & HP). cbn. split; [done|]. split; [done|]. intros id hs Hin.
    destruct (HP id hs Hin) as [Hb _]. split; [done|]. intros h Hh. by eapply Hgs.
  - by eapply acquire_inv.
Qed.

Lemma pend_reachable_inv s : pend_reachable s -> pend_inv s.
Proof.
  induction 1 as [stats|s s' _ IH Hs]; [|by eapply pend_inv_step].
  cbn. split; [done|]. split; [done|]. intros id hs Hin. by apply elem_of_nil in Hin.
Qed.
End Pending.

(** * Theorems *)

(** C33: The pending-key filter never misses: whatever sequence of local reads is acquired, marked,
    completed one by one or as a chunk, handed to the owner, or re-summarised, a key of a read that is still
    pending passes [read_local_pending_may_touch], and the connection reports pending reads.  So
    a write that skips the demotion plan on a filter miss overtakes no pending read of its key. *)
Theorem pending_filter_no_false_negative Capacity r P id hs h :
  rob_capacity Capacity -> pend_reachable Capacity (r, P) -> (id, hs) ∈ P -> h ∈ hs ->
  read_local_pending_may_touch h r = true /\ has_pending_read_local r = true.
Proof.
  intros Hc Hr Hin Hh. apply (pend_reachable_inv _ Hc) in Hr as (Hw & Hl & HP).
  destruct (HP id hs Hin) as [Hb Hm]. split; [by apply Hm|]. unfold has_pending_read_local.
  destruct (Z.eqb_spec (pending_slots r) 0) as [E|]; [by rewrite E, Z.bits_0 in Hb|done].
Qed.

Lemma pending_filter_no_false_negative_witness :
  exists r P, (pend_reachable 8 (r, P) /\ (9, [70; 500]) ∈ P /\ 500 ∈ [70; 500]) /\
  read_local_pending_may_touch 500 r = true /\ has_pending_read_local r = true.
Proof.
  assert (rob_capacity 8) as Hc by (exists 3; split; [lia|reflexivity]).
  assert (exists r, pend_reachable 8 (r, [(9, [70; 500])])) as [r Hr].
  { eexists. eapply pend_next; [eapply pend_next; [eapply pend_next; [apply (pend_start 8 None)|]|]|].
    - eapply (pend_hash 8 _ _ _ 8 33). vm_compute; reflexivity.
    - eapply (pend_keys 8 _ _ _ 9 (filter_add (filter_add filter_new 70) 500) [70; 500]); [done| |vm_compute; reflexivity].
      intros h [->|[->|[]%elem_of_nil]%elem_of_cons]%elem_of_cons; vm_compute; reflexivity.
    - apply (pend_complete 8 _ _ [(9, [70; 500]); (8, [33])] 8). vm_compute; reflexivity. }
  exists r, [(9, [70; 500])]. split; [split; [done|]; split; [left|right; left]|].
  apply (pending_filter_no_false_negative 8 r [(9, [70; 500])] 9 [70; 500] 500 Hc Hr); [left|right; left].
Defined.

(** [collect_pending_read_local] returns exactly the pending reads, oldest first across the
    slot-zero wrap, each named by its own id, keeping only those with the given hash when asked
    to; with room for a window of ids it never aborts. *)
Theorem collect_in_request_order Capacity r F w hash hash_only capacity :
  rob_capacity Capacity -> rob_inv Capacity (win r) F w -> F + 128 <= UINT64_MAX ->
  in_window_word Capacity (pending_slots r) F (Z.of_nat (length w)) -> Capacity <= capacity ->
  collect_pending_read_local Capacity hash hash_only capacity r =
  Some (List.filter (fun id => Z.testbit (pending_slots r) (id mod Capacity) &&
           (negb hash_only || match w !! Z.to_nat (id - F) with Some o => op_hash o =? hash | None => false end))
         (seqZ F (Z.of_nat (length w)))).
Proof.
  intros Hc Hw Hm Hp Hcap. rewrite (collect_spec Capacity Hc r F w Hw Hm hash hash_only capacity Hp Hcap). f_equal.
  unfold window_ids. rewrite filter_filter_andb. apply List.filter_ext_in. intros id Hid%list_elem_of_In.
  apply elem_of_seqZ in Hid. destruct (window_at Capacity Hc r F w Hw Hm id Hid) as (o & Ho & Ha).
  unfold wanted. by rewrite Ha, Ho.
Qed.

(** Ids 6 to 9 in a window of eight: slots 6 and 1 pending, across the wrap. *)
Definition demo_reads : list Op := [demo_op 4 Free; demo_op 24 Free; demo_op 44 Free; demo_op 64 Done].
Definition demo_slots : RlRob :=
  mkRl (mkRob [Some ([demo_op 44 Free; demo_op 64 Done] ++ replicate 4 op_new ++ [demo_op 4 Free; demo_op 24 Free])] 10 6)
       0 0 0 0 UINT64_MAX UINT64_MAX None 66 130 None false false filter_new.
Lemma demo_slots_inv : rob_capacity 8 /\ rob_inv 8 (win demo_slots) 6 demo_reads.
Proof.
  split; [exists 3; split; [lia|reflexivity]|].
  unfold rob_inv, chunks_ok. split_and!; try done.
  - intros [|[|i]] ops Hi; [by injection Hi as <-|done|done].
  - intros [|[|[|[|i]]]] o Hi; [by injection Hi as <-..|done].
Qed.
Lemma small_slot_word x : word64 x -> x < 256 -> slot_word 8 x.
Proof.
  intros Hw Hx. split; [done|]. intros i Hi. unfold word64 in Hw. destruct (Z.eq_dec x 0) as [->|]; [apply Z.bits_0|].
  apply Z.bits_above_log2; [lia|]. enough (Z.log2 x < 8) by lia. apply Z.log2_lt_pow2; lia.
Qed.

Lemma collect_in_request_order_witness :
  in_window_word 8 66 6 4 /\
  collect_pending_read_local 8 0 false 8 demo_slots =
  Some (List.filter (fun id => Z.testbit 66 (id mod 8) &&
           (negb false || match demo_reads !! Z.to_nat (id - 6) with Some o => op_hash o =? 0 | None => false end))
         (seqZ 6 4)) /\
  collect_pending_read_local 8 0 false 8 demo_slots = Some [6; 9].
Proof.
  destruct demo_slots_inv as [Hc Hw].
  assert (in_window_word 8 66 6 4) as Hp.
  { split; [by apply small_slot_word|]. intros i Hi Hb.
    destruct (decide (i = 6)) as [->|]; [by exists 6|]. destruct (decide (i = 1)) as [->|]; [by exists 9|].
    exfalso. assert (i < 8) as Hi8.
    { destruct (Z.ltb_spec i 8); [done|]. rewrite (proj2 (small_slot_word 66 ltac:(done) ltac:(lia))) in Hb by done. done. }
    assert (i = 0 \/ i = 2 \/ i = 3 \/ i = 4 \/ i = 5 \/ i = 7) as [->|[->|[->|[->|[->| ->]]]]] by lia; done. }
  split; [done|]. split; [|vm_compute; reflexivity].
  exact (collect_in_request_order 8 demo_slots 6 demo_reads 0 false 8 Hc Hw ltac:(done) Hp ltac:(done)).
Defined.

(** [read_local_owner_conflicts_before] answers exactly: it reports a conflict if and only if some
    operation older than [before_id], still in flight and not Done, holds an owner slot and
    satisfies the caller's overlap predicate; and it leaves in the owner map exactly the bits of
    operations in flight that are not Done.  A younger operation never fences an older read. *)
Theorem owner_conflict_exact Capacity r F w m before :
  rob_capacity Capacity -> rob_inv Capacity (win r) F w -> F + 128 <= UINT64_MAX ->
  slot_word Capacity (owner_slots r) -> F <= before <= F + Z.of_nat (length w) ->
  exists r' c, read_local_owner_conflicts_before Capacity before m r = Some (r', c) /\
    (c = true <-> exists id o, F <= id < before /\ w !! Z.to_nat (id - F) = Some o /\
       Z.testbit (owner_slots r) (id mod Capacity) = true /\ op_state o <> Done /\ m o = true) /\
    (forall j, 0 <= j < 64 -> Z.testbit (owner_slots r') j = true <->
       Z.testbit (owner_slots r) j = true /\
       exists id o, F <= id < F + Z.of_nat (length w) /\ id mod Capacity = j /\
         w !! Z.to_nat (id - F) = Some o /\ op_state o <> Done).
Proof.
  intros Hc Hw Hm Hx Hb. destruct (owner_spec Capacity Hc r F w Hw Hm m before Hx Hb) as (r' & c & E & Hv & Hl).
  exists r', c. split; [done|]. split; [exact Hv|]. intros j Hj. rewrite Hl by done. unfold owner_left, unfinished.
  split; (intros [Hb' (id & H)]; split; [done|]; exists id; clear -H; firstorder).
Qed.

Lemma owner_conflict_exact_witness :
  slot_word 8 130 /\
  exists r' c, read_local_owner_conflicts_before 8 8 (fun o => op_hash o =? 0) demo_slots = Some (r', c) /\
    (c = true <-> exists id o, 6 <= id < 8 /\ demo_reads !! Z.to_nat (id - 6) = Some o /\
       Z.testbit 130 (id mod 8) = true /\ op_state o <> Done /\ (op_hash o =? 0) = true) /\
    (forall j, 0 <= j < 64 -> Z.testbit (owner_slots r') j = true <->
       Z.testbit 130 j = true /\
       exists id o, 6 <= id < 6 + 4 /\ id mod 8 = j /\
         demo_reads !! Z.to_nat (id - 6) = Some o /\ op_state o <> Done).
Proof.
  destruct demo_slots_inv as [Hc Hw].
  assert (slot_word 8 130) as Hx by (by apply small_slot_word). split; [done|].
  exact (owner_conflict_exact 8 demo_slots 6 demo_reads (fun o => op_hash o =? 0) 8 Hc Hw ltac:(done) Hx ltac:(cbn; lia)).
Defined.
