(* ===== verification/Hash.v ===== *)
(** flatstore.h outside the classes: the key hash (seeded mix or SipHash-1-2) and the
    reverse-binary SCAN cursor.

    The hash reads its key through the memory primitives of the prelude, so [Some] includes that
    no byte outside the key is read.  The cursor is counted in bit-reversed order; the lemmas read
    it as a number below 2^64 ([rv]), in which one step with a table of 2^k homes moves to the next
    multiple of 2^(64-k). *)
From S2P Require Import Prelude.

(** * The key hash *)
Definition mix64 (h : Z) : Z :=
  let h := Z.lxor h (Z.shiftr h 33) in
  let h := u64 (h * 0xff51afd7ed558ccd) in
  let h := Z.lxor h (Z.shiftr h 33) in
  let h := u64 (h * 0xc4ceb9fe1a85ec53) in
  Z.lxor h (Z.shiftr h 33).

Inductive HashKind := Mix64Seeded | SipHash12.
(** [g_hash_kind], [g_hash_seed], [g_sip_k0], [g_sip_k1]: set at boot. *)
Record HashCfg := mkHashCfg { g_hash_kind : HashKind; g_hash_seed : Z; g_sip_k0 : Z; g_sip_k1 : Z }.

Definition rotl64 (x b : Z) : Z := Z.lor (u64 (Z.shiftl x b)) (Z.shiftr x (64 - b)).

Record Sip := mkSip { v0 : Z; v1 : Z; v2 : Z; v3 : Z }.
Definition sip_round (s : Sip) : Sip :=
  let '(mkSip v0 v1 v2 v3) := s in
  let v0 := u64 (v0 + v1) in let v1 := rotl64 v1 13 in let v1 := Z.lxor v1 v0 in let v0 := rotl64 v0 32 in
  let v2 := u64 (v2 + v3) in let v3 := rotl64 v3 16 in let v3 := Z.lxor v3 v2 in
  let v0 := u64 (v0 + v3) in let v3 := rotl64 v3 21 in let v3 := Z.lxor v3 v0 in
  let v2 := u64 (v2 + v1) in let v1 := rotl64 v1 17 in let v1 := Z.lxor v1 v2 in let v2 := rotl64 v2 32 in
  mkSip v0 v1 v2 v3.
(** [v3 ^= m; round(); v0 ^= m]. *)
Definition sip_absorb (s : Sip) (m : Z) : Sip :=
  let s := sip_round (mkSip (v0 s) (v1 s) (v2 s) (Z.lxor (v3 s) m)) in
  mkSip (Z.lxor (v0 s) m) (v1 s) (v2 s) (v3 s).
Fixpoint sip_blocks (n : nat) (key : bytes) (i : Z) (s : Sip) : option Sip :=
  match n with
  | O => Some s
  | S n => m ← mem_read key i 8; sip_blocks n key (i + 8) (sip_absorb s (le_load m))
  end.
Fixpoint sip_tail (n : nat) (key : bytes) (i fin b : Z) : option Z :=
  match n with
  | O => Some b
  | S n => c ← mem_get key i; sip_tail n key (i + 1) fin (Z.lor b (u64 (Z.shiftl c (8 * (i - fin)))))
  end.
Definition siphash12 (cfg : HashCfg) (key : bytes) : option Z :=
  let n := Z.of_nat (length key) in
  let s := mkSip (Z.lxor 0x736f6d6570736575 (g_sip_k0 cfg)) (Z.lxor 0x646f72616e646f6d (g_sip_k1 cfg))
                 (Z.lxor 0x6c7967656e657261 (g_sip_k0 cfg)) (Z.lxor 0x7465646279746573 (g_sip_k1 cfg)) in
  let fin := n - n mod 8 in
  s ← sip_blocks (Z.to_nat (fin / 8)) key 0 s;
  b ← sip_tail (Z.to_nat (n - fin)) key fin fin (u64 (Z.shiftl n 56));
  let s := sip_absorb s b in
  let s := sip_round (sip_round (mkSip (v0 s) (v1 s) (Z.lxor (v2 s) 0xff) (v3 s))) in
  Some (Z.lxor (Z.lxor (Z.lxor (v0 s) (v1 s)) (v2 s)) (v3 s)).

Definition rd (k : Z) (key : bytes) (p : Z) : option Z := le_load <$> mem_read key p k.
(** [while (n >= 8)], with the cursor and what is left of [n]. *)
Fixpoint mix_blocks (fuel : nat) (key : bytes) (p n h : Z) : option (Z * Z * Z) :=
  match fuel with
  | O => None
  | S fuel =>
      if 8 <=? n then w ← rd 8 key p; mix_blocks fuel key (p + 8) (n - 8) (mix64 (Z.lxor h w))
      else Some (p, n, h)
  end.
Definition hash_key_mix (cfg : HashCfg) (key : bytes) : option Z :=
  let n := Z.of_nat (length key) in
  let h := Z.lxor (Z.lxor 0x9e3779b97f4a7c15 (u64 (n * 0xff51afd7ed558ccd))) (g_hash_seed cfg) in
  '(p, n, h) ← mix_blocks (S (length key)) key 0 n h;
  h ← (if 4 <=? n then
         a ← rd 4 key p; b ← rd 4 key (p + n - 4);
         Some (mix64 (Z.lxor h (Z.lor (Z.shiftl a 32) b)))
       else if negb (n =? 0) then
         t ← mem_get key p; m ← mem_get key (p + Z.shiftr n 1); l ← mem_get key (p + n - 1);
         Some (mix64 (Z.lxor h (Z.lor (Z.lor (Z.shiftl t 16) (Z.shiftl m 8)) l)))
       else Some h);
  Some (mix64 h).
Definition hash_key (cfg : HashCfg) (key : bytes) : option Z :=
  match g_hash_kind cfg with SipHash12 => siphash12 cfg key | Mix64Seeded => hash_key_mix cfg key end.

(** * The SCAN cursor *)
(** One swap stage: neighbouring groups of [s] bits, selected by the mask [m]. *)
Definition rev_stage (m s v : Z) : Z :=
  Z.lor (u64 (Z.shiftl (Z.land v m) s)) (Z.land (Z.shiftr v s) m).
Definition scan_cursor_reverse_bits (v : Z) : Z :=
  let v := rev_stage 0x5555555555555555 1 v in
  let v := rev_stage 0x3333333333333333 2 v in
  let v := rev_stage 0x0f0f0f0f0f0f0f0f 4 v in
  let v := rev_stage 0x00ff00ff00ff00ff 8 v in
  let v := rev_stage 0x0000ffff0000ffff 16 v in
  Z.lor (u64 (Z.shiftl v 32)) (Z.shiftr v 32).
Definition scan_cursor_next (cursor mask : Z) : Z :=
  let cursor := Z.lor cursor (u64 (Z.lnot mask)) in
  let cursor := scan_cursor_reverse_bits cursor in
  let cursor := u64 (cursor + 1) in
  scan_cursor_reverse_bits cursor.

(** * The hash is a total function into 64-bit words *)
Definition cfg_ok (cfg : HashCfg) : Prop := word64 (g_hash_seed cfg) /\ word64 (g_sip_k0 cfg) /\ word64 (g_sip_k1 cfg).

Lemma word_bits k x : 0 <= k -> (0 <= x < 2 ^ k <-> 0 <= x /\ forall i, k <= i -> Z.testbit x i = false).
Proof.
  intros Hk. split.
  - intros Hx. split; [lia|]. intros i Hi. rewrite <- (Z.mod_small x (2 ^ k)) by done.
    by apply Z.mod_pow2_bits_high.
  - intros [H0 Hb]. split; [done|].
    assert (x mod 2 ^ k = x) as <-; [|apply Z.mod_pos_bound; lia].
    apply Z.bits_inj'. intros i Hi. destruct (decide (i < k)).
    + by rewrite Z.mod_pow2_bits_low by lia.
    + rewrite Z.mod_pow2_bits_high by lia. by rewrite Hb by lia.
Qed.
Lemma word64_lxor a b : word64 a -> word64 b -> word64 (Z.lxor a b).
Proof.
  intros [Ha Hx]%(word_bits 64) [Hb Hy]%(word_bits 64); [|lia..]. apply (word_bits 64); [lia|].
  split; [by apply lxor_nonneg|]. intros i Hi. by rewrite Z.lxor_spec, Hx, Hy.
Qed.
Lemma word64_shiftr x k : 0 <= k -> word64 x -> word64 (Z.shiftr x k).
Proof.
  intros Hk [H1 H2]. rewrite Z.shiftr_div_pow2 by lia. pose proof (Z.pow_pos_nonneg 2 k).
  split; [apply Z.div_pos; lia|]. apply Z.div_lt_upper_bound; [lia|]. unfold word64. nia.
Qed.
Lemma word64_le_load l : Forall is_byte l -> (length l <= 8)%nat -> word64 (le_load l).
Proof.
  intros Hl Hn. pose proof (le_load_bound l Hl) as [H1 H2]. split; [lia|]. eapply Z.lt_le_trans; [done|].
  change 18446744073709551616 with (256 ^ 8). apply Z.pow_le_mono_r; lia.
Qed.
#[export] Hint Resolve word64_lxor word64_le_load : tomo.
Lemma word64_mix64 h : word64 h -> word64 (mix64 h).
Proof. intros H. unfold mix64. repeat (apply word64_lxor || apply word64_shiftr || apply word64_u64 || lia). Qed.
#[export] Hint Resolve word64_mix64 : tomo.
Lemma word64_rotl x b : 0 <= b <= 64 -> word64 x -> word64 (rotl64 x b).
Proof. intros. apply word64_lor; [apply word64_u64|apply word64_shiftr; [lia|done]]. Qed.

Definition sip_ok (s : Sip) : Prop := word64 (v0 s) /\ word64 (v1 s) /\ word64 (v2 s) /\ word64 (v3 s).
Lemma sip_round_ok s : sip_ok s -> sip_ok (sip_round s).
Proof.
  destruct s as [a b c d]. intros (Ha & Hb & Hc & Hd). unfold sip_ok, sip_round in *. cbn [v0 v1 v2 v3] in *.
  split_and!; repeat (apply word64_lxor || (apply word64_rotl; [lia|]) || apply word64_u64 || done).
Qed.
Lemma sip_absorb_ok s m : sip_ok s -> word64 m -> sip_ok (sip_absorb s m).
Proof.
  intros (Ha & Hb & Hc & Hd) Hm. unfold sip_absorb.
  destruct (sip_round_ok (mkSip (v0 s) (v1 s) (v2 s) (Z.lxor (v3 s) m))) as (H1 & H2 & H3 & H4).
  { unfold sip_ok; cbn. auto with tomo. }
  unfold sip_ok; cbn [v0 v1 v2 v3]. auto with tomo.
Qed.
Lemma read_word key p k : Forall is_byte key -> 0 <= p -> 0 <= k <= 8 -> p + k <= Z.of_nat (length key) ->
  exists bs, mem_read key p k = Some bs /\ Forall is_byte bs /\ Z.of_nat (length bs) = k /\ word64 (le_load bs) /\
    0 <= le_load bs < 256 ^ k.
Proof.
  intros Hb Hp Hk Hl. rewrite mem_read_Some by lia. eexists. split; [done|].
  assert (Forall is_byte (take (Z.to_nat k) (drop (Z.to_nat p) key))) as Hf by auto with tomo.
  assert (Z.of_nat (length (take (Z.to_nat k) (drop (Z.to_nat p) key))) = k) as Hlen
    by (rewrite length_take, length_drop; lia).
  split_and!; [done|done|apply word64_le_load; [done|lia]|..]; pose proof (le_load_bound _ Hf); rewrite Hlen in *; lia.
Qed.
Lemma get_byte key p : Forall is_byte key -> 0 <= p < Z.of_nat (length key) ->
  exists c, mem_get key p = Some c /\ is_byte c.
Proof.
  intros Hb Hp. unfold mem_get. destruct (Z.leb_spec 0 p); [|lia].
  destruct (lookup_lt_is_Some_2 key (Z.to_nat p)) as [c Hc]; [lia|]. exists c. split; [done|].
  by eapply Forall_lookup_1.
Qed.

Lemma sip_blocks_total n key i s :
  Forall is_byte key -> sip_ok s -> 0 <= i -> i + 8 * Z.of_nat n <= Z.of_nat (length key) ->
  exists s', sip_blocks n key i s = Some s' /\ sip_ok s'.
Proof.
  intros Hb. revert i s. induction n as [|n IH]; intros i s Hs Hi Hl; cbn [sip_blocks]; [by eauto|].
  destruct (read_word key i 8) as (bs & -> & _ & _ & Hw & _); [done|lia..|]. rewrite some_bind.
  apply IH; [by apply sip_absorb_ok|lia..].
Qed.
Lemma sip_tail_total n key i fin b :
  Forall is_byte key -> word64 b -> 0 <= i -> i + Z.of_nat n <= Z.of_nat (length key) ->
  exists b', sip_tail n key i fin b = Some b' /\ word64 b'.
Proof.
  intros Hb. revert i b. induction n as [|n IH]; intros i b Hw Hi Hl; cbn [sip_tail]; [by eauto|].
  destruct (get_byte key i) as (c & -> & _); [done|lia|]. rewrite some_bind. apply IH; [auto with tomo|lia..].
Qed.
Lemma siphash12_total cfg key : cfg_ok cfg -> Forall is_byte key ->
  exists h, siphash12 cfg key = Some h /\ word64 h.
Proof.
  intros (_ & H0 & H1) Hb. unfold siphash12. set (n := Z.of_nat (length key)).
  assert (0 <= n) by lia. pose proof (Z.mod_pos_bound n 8). pose proof (Z.div_mod n 8).
  edestruct (sip_blocks_total (Z.to_nat ((n - n mod 8) / 8)) key 0) as (s & -> & Hs);
    [done| |lia| |rewrite some_bind].
  - unfold sip_ok; cbn [v0 v1 v2 v3]. split_and!; apply word64_lxor; done || (unfold word64; lia).
  - assert ((n - n mod 8) / 8 = n / 8) as -> by (symmetry; apply Z.div_unique with 0; lia). lia.
  - destruct (sip_tail_total (Z.to_nat (n - (n - n mod 8))) key (n - n mod 8) (n - n mod 8) (u64 (Z.shiftl n 56)))
      as (b & -> & Hw); [done|apply word64_u64|lia..|]. rewrite some_bind.
    pose proof (sip_absorb_ok s b Hs Hw) as (A0 & A1 & A2 & A3).
    eexists. split; [done|].
    match goal with |- context [sip_round (sip_round ?x)] =>
      destruct (sip_round_ok (sip_round x)) as (B0 & B1 & B2 & B3); [apply sip_round_ok|] end.
    + unfold sip_ok; cbn [v0 v1 v2 v3]. split_and!; try done. apply word64_lxor; [done|unfold word64; lia].
    + auto with tomo.
Qed.
Lemma mix_blocks_total fuel key p n h :
  Forall is_byte key -> word64 h -> 0 <= p -> 0 <= n -> p + n = Z.of_nat (length key) -> n < Z.of_nat fuel ->
  exists p' n' h', mix_blocks fuel key p n h = Some (p', n', h') /\ 0 <= p' /\ 0 <= n' < 8 /\
    p' + n' = Z.of_nat (length key) /\ word64 h'.
Proof.
  intros Hb. revert p n h. induction fuel as [|fuel IH]; intros p n h Hh Hp Hn Hl Hf; [lia|]. cbn [mix_blocks].
  zsplit; [|by exists p, n, h; split_and!; lia || done].
  unfold rd. destruct (read_word key p 8) as (bs & -> & _ & _ & Hw & _); [done|lia..|]. cbn [fmap option_fmap option_map].
  rewrite some_bind. apply IH; auto with tomo; lia.
Qed.
Lemma word64_small k x : 0 <= x < 2 ^ k -> 0 <= k <= 64 -> word64 x.
Proof. intros Hx Hk. split; [lia|]. eapply Z.lt_le_trans; [apply Hx|]. change 18446744073709551616 with (2 ^ 64). apply Z.pow_le_mono_r; lia. Qed.
Lemma shiftl_word x k j : 0 <= x < 2 ^ j -> 0 <= k -> 0 <= j -> j + k <= 64 -> word64 (Z.shiftl x k).
Proof.
  intros Hx Hk Hj Hs. rewrite Z.shiftl_mul_pow2 by lia. apply (word64_small (j + k)); [|lia].
  rewrite Z.pow_add_r by lia. pose proof (Z.pow_pos_nonneg 2 k). nia.
Qed.
Lemma hash_key_mix_total cfg key : cfg_ok cfg -> Forall is_byte key ->
  exists h, hash_key_mix cfg key = Some h /\ word64 h.
Proof.
  intros (Hs & _) Hb. unfold hash_key_mix.
  edestruct (mix_blocks_total (S (length key)) key 0 (Z.of_nat (length key))) as (p & n & h & -> & Hp & Hn & Hl & Hh);
    [done| |lia..|rewrite some_bind; cbv beta iota].
  { apply word64_lxor; [apply word64_lxor; [unfold word64; lia|apply word64_u64]|done]. }
  unfold rd. zsplit; [|zsplit].
  - destruct (read_word key p 4) as (a & -> & _ & _ & Ha & Hra); [done|lia..|].
    destruct (read_word key (p + n - 4) 4) as (b & -> & _ & _ & Hb' & _); [done|lia..|].
    cbn [fmap option_fmap option_map]. rewrite !some_bind. eexists. split; [done|].
    apply word64_mix64, word64_mix64, word64_lxor, word64_lor; try done.
    apply (shiftl_word _ 32 32); [exact Hra|lia..].
  - destruct (get_byte key p) as (t & -> & Ht); [done|lia|]. rewrite some_bind.
    assert (0 <= Z.shiftr n 1 < n) as Hr by (rewrite shiftr_1; split; [apply Z.div_pos; lia|apply Z.div_lt; lia]).
    destruct (get_byte key (p + Z.shiftr n 1)) as (m & -> & Hm); [done|lia|]. rewrite some_bind.
    destruct (get_byte key (p + n - 1)) as (l & -> & Hl'); [done|lia|]. rewrite !some_bind.
    eexists. split; [done|]. apply word64_mix64, word64_mix64, word64_lxor, word64_lor; [done|apply word64_lor|].
    + apply (shiftl_word _ 16 8); [exact Ht|lia..].
    + apply (shiftl_word _ 8 8); [exact Hm|lia..].
    + apply (word64_small 8); [exact Hl'|lia].
  - rewrite some_bind. eexists. split; [done|]. by apply word64_mix64.
Qed.
Lemma hash_key_total cfg key : cfg_ok cfg -> Forall is_byte key ->
  exists h, hash_key cfg key = Some h /\ word64 h.
Proof. intros. unfold hash_key. destruct (g_hash_kind cfg); [by apply hash_key_mix_total|by apply siphash12_total]. Qed.

(** * Bit reversal *)
Lemma testbit_u64 x i : 0 <= i -> Z.testbit (u64 x) i = (i <? 64) && Z.testbit x i.
Proof.
  intros Hi. change (u64 x) with (x mod 2 ^ 64). destruct (Z.ltb_spec i 64); cbn [andb].
  - apply Z.mod_pow2_bits_low; lia.
  - by apply Z.mod_pow2_bits_high.
Qed.
(** Where a stage takes bit [i] from. *)
Definition stage_index (m s i : Z) : Z := if Z.testbit m i then i + s else i - s.
(** The mask of a stage selects the low half of each pair of groups. *)
Definition stage_mask_ok (m s : Z) : bool :=
  forallb (fun i => if Z.testbit m i then (i + s <? 64) && ((i <? s) || negb (Z.testbit m (i - s)))
                    else (s <=? i) && Z.testbit m (i - s)) (seqZ 0 64).
Lemma forallb_seqZ f n i : forallb f (seqZ 0 n) = true -> 0 <= i < n -> f i = true.
Proof. intros Hf Hi. rewrite forallb_forall in Hf. apply Hf, list_elem_of_In, elem_of_seqZ. lia. Qed.
Lemma rev_stage_bit m s v i :
  stage_mask_ok m s = true -> 0 < s -> 0 <= i < 64 ->
  Z.testbit (rev_stage m s v) i = Z.testbit v (stage_index m s i) /\ 0 <= stage_index m s i < 64.
Proof.
  intros Hm Hs Hi. apply (forallb_seqZ _ 64 i) in Hm; [|done]. cbv beta in Hm. unfold rev_stage, stage_index.
  rewrite Z.lor_spec, testbit_u64, Z.land_spec, Z.shiftr_spec by lia.
  rewrite (proj2 (Z.ltb_lt i 64)) by lia. rewrite Z.shiftl_spec, Z.land_spec by lia. cbn [andb].
  destruct (Z.testbit m i).
  - apply andb_prop in Hm as [Hr Hm]. zcmp. split; [|lia]. rewrite andb_true_r.
    apply orb_prop in Hm as [Hm|Hm]; zcmp; [by rewrite (Z.testbit_neg_r v) by lia|by rewrite Hm, andb_false_r].
  - apply andb_prop in Hm as [Hr ->]. zcmp. split; [|lia]. by rewrite andb_true_r, andb_false_r, orb_false_r.
Qed.
(** The masks of the six stages move bit [63 - i] to bit [i]. *)
Lemma stages_reverse i : 0 <= i < 64 ->
  stage_index 0x5555555555555555 1 (stage_index 0x3333333333333333 2 (stage_index 0x0f0f0f0f0f0f0f0f 4
    (stage_index 0x00ff00ff00ff00ff 8 (stage_index 0x0000ffff0000ffff 16
      (if i <? 32 then i + 32 else i - 32))))) = 63 - i.
Proof.
  intros Hi. apply Z.eqb_eq. revert Hi. apply (forallb_seqZ (fun i => stage_index 0x5555555555555555 1 (stage_index 0x3333333333333333 2
    (stage_index 0x0f0f0f0f0f0f0f0f 4 (stage_index 0x00ff00ff00ff00ff 8 (stage_index 0x0000ffff0000ffff 16
      (if i <? 32 then i + 32 else i - 32))))) =? 63 - i)). by vm_compute.
Qed.
Lemma rev_bit v i : word64 v -> 0 <= i < 64 ->
  Z.testbit (scan_cursor_reverse_bits v) i = Z.testbit v (63 - i).
Proof.
  intros Hv Hi. rewrite <- stages_reverse by done. unfold scan_cursor_reverse_bits.
  set (v1 := rev_stage 0x5555555555555555 1 v). set (v2 := rev_stage 0x3333333333333333 2 v1).
  set (v3 := rev_stage 0x0f0f0f0f0f0f0f0f 4 v2). set (v4 := rev_stage 0x00ff00ff00ff00ff 8 v3).
  set (v5 := rev_stage 0x0000ffff0000ffff 16 v4).
  assert (word64 v5) as H5.
  { apply word64_lor; [apply word64_u64|]. apply (word64_small 48); [|lia].
    apply word_bits; [lia|]. split; [apply Z.land_nonneg; lia|]. intros j Hj. rewrite Z.land_spec.
    rewrite (proj2 (proj1 (word_bits 48 0x0000ffff0000ffff ltac:(lia)) ltac:(lia)) j Hj). apply andb_false_r. }
  set (k := if i <? 32 then i + 32 else i - 32).
  assert (0 <= k < 64) as Hk by (unfold k; destruct (Z.ltb_spec i 32); lia).
  assert (Z.testbit (Z.lor (u64 (Z.shiftl v5 32)) (Z.shiftr v5 32)) i = Z.testbit v5 k) as ->.
  { rewrite Z.lor_spec, testbit_u64, Z.shiftl_spec, Z.shiftr_spec, (proj2 (Z.ltb_lt i 64)) by lia. cbn [andb].
    unfold k. destruct (Z.ltb_spec i 32); [by rewrite Z.testbit_neg_r by lia|].
    rewrite (proj2 (proj1 (word_bits 64 v5 ltac:(lia)) H5) (i + 32)) by lia. apply orb_false_r. }
  destruct (rev_stage_bit 0x0000ffff0000ffff 16 v4 k) as [E5 H4]; [by vm_compute|lia|lia|].
  destruct (rev_stage_bit 0x00ff00ff00ff00ff 8 v3 _ ltac:(by vm_compute) ltac:(lia) H4) as [E4 H3].
  destruct (rev_stage_bit 0x0f0f0f0f0f0f0f0f 4 v2 _ ltac:(by vm_compute) ltac:(lia) H3) as [E3 H2].
  destruct (rev_stage_bit 0x3333333333333333 2 v1 _ ltac:(by vm_compute) ltac:(lia) H2) as [E2 H1].
  destruct (rev_stage_bit 0x5555555555555555 1 v _ ltac:(by vm_compute) ltac:(lia) H1) as [E1 _].
  exact (eq_trans E5 (eq_trans E4 (eq_trans E3 (eq_trans E2 E1)))).
Qed.
Lemma rev_word v : word64 v -> word64 (scan_cursor_reverse_bits v).
Proof.
  intros Hv. apply word64_lor; [apply word64_u64|]. apply word64_shiftr; [lia|].
  apply word64_lor; [apply word64_u64|]. apply (word64_small 48); [|lia].
  apply word_bits; [lia|]. split; [apply Z.land_nonneg; lia|]. intros j Hj. rewrite Z.land_spec.
  rewrite (proj2 (proj1 (word_bits 48 0x0000ffff0000ffff ltac:(lia)) ltac:(lia)) j Hj). apply andb_false_r.
Qed.
#[export] Hint Resolve rev_word : tomo.
Lemma word64_ext a b : word64 a -> word64 b -> (forall i, 0 <= i < 64 -> Z.testbit a i = Z.testbit b i) -> a = b.
Proof.
  intros [Ha Ha']%(word_bits 64) [Hb Hb']%(word_bits 64) H; [|lia..]. apply Z.bits_inj'. intros i Hi.
  destruct (decide (i < 64)); [by apply H|]. by rewrite Ha', Hb' by lia.
Qed.
Lemma rev_involutive v : word64 v -> scan_cursor_reverse_bits (scan_cursor_reverse_bits v) = v.
Proof.
  intros Hv. apply word64_ext; auto with tomo. intros i Hi. rewrite !rev_bit by (auto with tomo; lia).
  f_equal. lia.
Qed.

(** * The cursor as a position *)
Abbreviation rv := scan_cursor_reverse_bits.
(** Width of the block of positions one home of a table with 2^k homes stands for. *)
Definition block (k : Z) : Z := 2 ^ (64 - k).
Lemma block_pos k : k <= 64 -> 0 < block k.
Proof. intros. apply Z.pow_pos_nonneg; lia. Qed.

Lemma rv_next cursor k :
  word64 cursor -> 0 <= k <= 64 ->
  word64 (scan_cursor_next cursor (2 ^ k - 1)) /\
  rv (scan_cursor_next cursor (2 ^ k - 1)) = u64 ((rv cursor / block k + 1) * block k).
Proof.
  intros Hc Hk. unfold scan_cursor_next. set (c := Z.lor _ _).
  assert (word64 c) as Hc' by (apply word64_lor; auto with tomo).
  split; [auto with tomo|]. rewrite rev_involutive by auto with tomo.
  assert (rv c = rv cursor / block k * block k + (block k - 1)) as ->; [|f_equal; lia].
  pose proof (block_pos k ltac:(lia)) as Hb.
  assert (rv c = Z.lor (rv cursor) (Z.ones (64 - k))) as ->.
  { assert (word64 (Z.ones (64 - k))) as Ho.
    { rewrite Z.ones_equiv. pose proof (Z.pow_le_mono_r 2 (64 - k) 64). unfold block, word64 in *. lia. }
    apply word64_ext; auto with tomo. intros i Hi.
    rewrite rev_bit, Z.lor_spec, rev_bit by (auto with tomo; lia). unfold c. rewrite Z.lor_spec. f_equal.
    rewrite testbit_u64, Z.lnot_spec, (proj2 (Z.ltb_lt (63 - i) 64)) by lia. cbn [andb].
    replace (2 ^ k - 1) with (Z.ones k) by (rewrite Z.ones_equiv; lia).
    rewrite (Z.testbit_ones_nonneg k), (Z.testbit_ones_nonneg (64 - k)) by lia.
    destruct (Z.ltb_spec (63 - i) k), (Z.ltb_spec i (64 - k)); cbn; lia. }
  unfold block. set (j := 64 - k). assert (0 <= j) by lia.
  apply Z.bits_inj'. intros i Hi.
  replace (rv cursor / 2 ^ j * 2 ^ j + (2 ^ j - 1)) with (Z.lor (Z.shiftl (Z.shiftr (rv cursor) j) j) (Z.ones j)).
  2:{ rewrite <- Z.lxor_lor, <- Z.add_nocarry_lxor.
      - rewrite Z.shiftl_mul_pow2, Z.shiftr_div_pow2, Z.ones_equiv by lia. lia.
      - apply Z.bits_inj'. intros l Hl. rewrite Z.land_spec, Z.bits_0, Z.testbit_ones_nonneg by lia.
        destruct (Z.ltb_spec l j); [by rewrite Z.shiftl_spec_low|apply andb_false_r].
      - apply Z.bits_inj'. intros l Hl. rewrite Z.land_spec, Z.bits_0, Z.testbit_ones_nonneg by lia.
        destruct (Z.ltb_spec l j); [by rewrite Z.shiftl_spec_low|apply andb_false_r]. }
  rewrite !Z.lor_spec, Z.testbit_ones_nonneg by lia.
  destruct (Z.ltb_spec i j); [by rewrite !orb_true_r|]. rewrite !orb_false_r, Z.shiftl_spec, Z.shiftr_spec by lia.
  f_equal. lia.
Qed.
(** A hash lives at the home of the cursor exactly when both lie in the same block. *)
Lemma same_home k h c :
  word64 h -> word64 c -> 0 <= k <= 64 ->
  Z.land h (2 ^ k - 1) = Z.land c (2 ^ k - 1) <-> rv h / block k = rv c / block k.
Proof.
  intros Hh Hc Hk. rewrite !land_ones_mod by lia. unfold block. rewrite <- !Z.shiftr_div_pow2 by lia. split; intros E.
  - apply Z.bits_inj'. intros i Hi. rewrite !Z.shiftr_spec by lia.
    destruct (decide (i < k)).
    + rewrite !rev_bit by (done || lia). set (q := 63 - (i + (64 - k))).
      rewrite <- (Z.mod_pow2_bits_low h k q), <- (Z.mod_pow2_bits_low c k q) by lia. by rewrite E.
    + rewrite (proj2 (proj1 (word_bits 64 (rv h) ltac:(lia)) (rev_word h Hh))),
              (proj2 (proj1 (word_bits 64 (rv c) ltac:(lia)) (rev_word c Hc))) by lia. done.
  - apply Z.bits_inj'. intros i Hi. destruct (decide (i < k)).
    + rewrite !Z.mod_pow2_bits_low by lia.
      replace i with (63 - (63 - i)) by lia.
      rewrite <- (rev_bit h (63 - i)), <- (rev_bit c (63 - i)) by (done || lia).
      replace (63 - i) with ((k - 1 - i) + (64 - k)) by lia.
      rewrite <- (Z.shiftr_spec (rv h) (64 - k)), <- (Z.shiftr_spec (rv c) (64 - k)) by lia. by rewrite E.
    + by rewrite !Z.mod_pow2_bits_high by lia.
Qed.
