(* ===== verification/Probe.v ===== *)
(** Linear probing, as both open-addressing tables of the store use it (the key table of
    flatstore.h and its expiry index).

    A table is a list of slots: empty, a tombstone, or a live entry.  A key is looked for from its
    home slot onward, cyclically, and only an empty slot ends the search.  The invariant is that no
    key occurs twice and that no empty slot lies between a key and its home; it is what makes the
    table a finite map.  A slot is never made empty again, so a removal writes a tombstone. *)
From stdpp Require Import gmap.
From S2P Require Import Prelude.

Inductive Slot (K V : Type) := SEmpty | STomb | SLive (k : K) (v : V).
Arguments SEmpty {K V}.
Arguments STomb {K V}.
Arguments SLive {K V} k v.

(** * Arrays of words *)
Definition put {A} (l : list A) (i : Z) (x : A) : option (list A) :=
  if (0 <=? i) && (i <? Z.of_nat (length l)) then Some (<[Z.to_nat i := x]> l) else None.
Lemma put_Some {A} (l : list A) i x : 0 <= i < Z.of_nat (length l) -> put l i x = Some (<[Z.to_nat i := x]> l).
Proof. intros Hi. unfold put. by rewrite (proj2 (Z.leb_le 0 i)), (proj2 (Z.ltb_lt i _)) by lia. Qed.
Lemma get_Some l i x : 0 <= i -> l !! Z.to_nat i = Some x -> mem_get l i = Some x.
Proof. intros Hi Hx. unfold mem_get. by rewrite (proj2 (Z.leb_le 0 i)) by lia. Qed.
(** The next index of a table of 2^k slots. *)
Lemma next_index s d k : 0 <= k -> Z.land ((s + d) mod 2 ^ k + 1) (2 ^ k - 1) = (s + (d + 1)) mod 2 ^ k.
Proof. intros Hk. rewrite land_ones_mod, Zplus_mod_idemp_l by lia. f_equal. lia. Qed.

(** * Counting list elements *)
Definition count_if {A} (f : A -> bool) (l : list A) : Z := Z.of_nat (length (List.filter f l)).

Lemma count_if_cons {A} (f : A -> bool) x l : count_if f (x :: l) = Z.b2z (f x) + count_if f l.
Proof. unfold count_if. cbn. destruct (f x); cbn; lia. Qed.
Lemma count_if_app {A} (f : A -> bool) l1 l2 : count_if f (l1 ++ l2) = count_if f l1 + count_if f l2.
Proof. unfold count_if. rewrite List.filter_app, length_app. lia. Qed.
Lemma count_if_nonneg {A} (f : A -> bool) l : 0 <= count_if f l <= Z.of_nat (length l).
Proof. unfold count_if. pose proof (List.filter_length_le f l). lia. Qed.
Lemma count_if_insert {A} (f : A -> bool) l i x y :
  l !! i = Some y -> count_if f (<[i := x]> l) = count_if f l - Z.b2z (f y) + Z.b2z (f x).
Proof.
  intros Hi. pose proof (lookup_lt_Some _ _ _ Hi). rewrite insert_take_drop by done.
  rewrite <- (take_drop_middle l i y Hi) at 3. rewrite !count_if_app, !count_if_cons. lia.
Qed.
Lemma count_if_pos {A} (f : A -> bool) l : 0 < count_if f l -> exists i x, l !! i = Some x /\ f x = true.
Proof.
  unfold count_if. destruct (List.filter f l) as [|x t] eqn:E; cbn; [lia|]. intros _.
  assert (In x (List.filter f l)) as Hx by (rewrite E; by left).
  apply List.filter_In in Hx as [Hx Hf]. apply list_elem_of_In, list_elem_of_lookup in Hx as [i Hi]. eauto.
Qed.
Lemma count_if_zero {A} (f : A -> bool) l : count_if f l = 0 <-> forall i x, l !! i = Some x -> f x = false.
Proof.
  split.
  - intros H0 i x Hi. destruct (f x) eqn:E; [|done]. pose proof (count_if_insert f l i x x Hi).
    pose proof (take_drop_middle l i x Hi) as Hl. rewrite <- Hl, count_if_app, count_if_cons, E in H0.
    pose proof (count_if_nonneg f (take i l)). pose proof (count_if_nonneg f (drop (S i) l)). cbn in H0. lia.
  - intros Hf. destruct (decide (0 < count_if f l)) as [Hc|Hc].
    + apply count_if_pos in Hc as (i & x & Hi & Hx). apply Hf in Hi. congruence.
    + pose proof (count_if_nonneg f l). lia.
Qed.
Lemma count_if_replicate {A} (f : A -> bool) n x : count_if f (replicate n x) = if f x then Z.of_nat n else 0.
Proof.
  induction n as [|n IH]; [by destruct (f x)|]. rewrite replicate_S, count_if_cons, IH.
  destruct (f x); cbn [Z.b2z]; lia.
Qed.

(** * The theory of a table *)
Section Probe.
Context {K V : Type} `{Countable K}.
Implicit Types (l : list (Slot K V)) (k : K) (v : V).

Definition is_empty (s : Slot K V) : bool := match s with SEmpty => true | _ => false end.
Definition is_tomb (s : Slot K V) : bool := match s with STomb => true | _ => false end.
Definition is_live (s : Slot K V) : bool := match s with SLive _ _ => true | _ => false end.
Definition entry_of (s : Slot K V) : option (K * V) := match s with SLive k v => Some (k, v) | _ => None end.

(** The finite map a table stands for. *)
Definition slot_entries l : list (K * V) := omap entry_of l.
Definition slots_map l : gmap K V := list_to_map (slot_entries l).

(** The slot [d] steps after [s]. *)
Definition path l (s d : Z) : nat := Z.to_nat ((s + d) mod Z.of_nat (length l)).

Definition unique l : Prop :=
  forall i j k v w, l !! i = Some (SLive k v) -> l !! j = Some (SLive k w) -> i = j.
Definition reachable (home : K -> Z) l : Prop :=
  forall i k v, l !! i = Some (SLive k v) ->
    exists d, 0 <= d < Z.of_nat (length l) /\ i = path l (home k) d /\
      forall e, 0 <= e < d -> l !! path l (home k) e <> Some SEmpty.
Definition probe_ok (home : K -> Z) l : Prop := unique l /\ reachable home l.

(** What a search for [k] has passed after [d] steps. *)
Definition passed (home : K -> Z) l k (d : Z) : Prop :=
  forall e, 0 <= e < d -> exists s, l !! path l (home k) e = Some s /\ s <> SEmpty /\ forall v, s <> SLive k v.

Lemma path_lt l s d : l <> [] -> (path l s d < length l)%nat.
Proof.
  intros Hl. unfold path. assert (0 < Z.of_nat (length l)) by (destruct l; cbn; [done|lia]).
  pose proof (Z.mod_pos_bound (s + d) (Z.of_nat (length l))). lia.
Qed.
Lemma path_insert l i x s d : path (<[i := x]> l) s d = path l s d.
Proof. unfold path. by rewrite length_insert. Qed.
Lemma path_inj l s d e : 0 <= d < Z.of_nat (length l) -> 0 <= e < Z.of_nat (length l) -> path l s d = path l s e -> d = e.
Proof.
  unfold path. set (n := Z.of_nat (length l)). intros Hd He E.
  pose proof (Z.mod_pos_bound (s + d) n ltac:(lia)). pose proof (Z.mod_pos_bound (s + e) n ltac:(lia)).
  pose proof (Z.div_mod (s + d) n ltac:(lia)). pose proof (Z.div_mod (s + e) n ltac:(lia)).
  assert ((s + d) / n = (s + e) / n) by nia. lia.
Qed.
(** Every slot lies on the path of every home. *)
Lemma path_surj l s i : (i < length l)%nat -> exists d, 0 <= d < Z.of_nat (length l) /\ i = path l s d.
Proof.
  intros Hi. set (n := Z.of_nat (length l)). exists ((Z.of_nat i - s) mod n).
  split; [apply Z.mod_pos_bound; lia|]. unfold path. fold n.
  rewrite Zplus_mod_idemp_r. replace (s + (Z.of_nat i - s)) with (Z.of_nat i) by lia. rewrite Z.mod_small by lia. lia.
Qed.
Lemma slot_at_path l s d : l <> [] -> exists x, l !! path l s d = Some x.
Proof. intros Hl. apply lookup_lt_is_Some_2. by apply path_lt. Qed.

Lemma entries_spec l k v : (k, v) ∈ slot_entries l <-> exists i, l !! i = Some (SLive k v).
Proof.
  unfold slot_entries. rewrite list_elem_of_omap. split.
  - intros (s & Hs & E). destruct s; cbn in E; simplify_eq. by apply list_elem_of_lookup in Hs.
  - intros [i Hi]. exists (SLive k v). split; [by eapply list_elem_of_lookup_2|done].
Qed.
Lemma unique_tail x l : unique (x :: l) -> unique l.
Proof. intros Hu i j k v w Hi Hj. specialize (Hu (S i) (S j) k v w Hi Hj). lia. Qed.
Lemma entries_nodup l : unique l -> NoDup (slot_entries l).*1.
Proof.
  induction l as [|x l IH]; intros Hu; [constructor|].
  pose proof (IH (unique_tail _ _ Hu)) as Hn. destruct x as [| |k v]; cbn; try done.
  constructor; [|done]. intros ((k' & w) & Hk & Hin)%list_elem_of_fmap. cbn in Hk. subst k'.
  apply entries_spec in Hin as [i Hi]. specialize (Hu 0%nat (S i) k v w eq_refl Hi). lia.
Qed.
Lemma slots_map_spec l k v : unique l -> slots_map l !! k = Some v <-> exists i, l !! i = Some (SLive k v).
Proof.
  intros Hu. unfold slots_map. rewrite <- entries_spec. symmetry.
  apply elem_of_list_to_map. by apply entries_nodup.
Qed.
Lemma slots_map_None l k : unique l -> slots_map l !! k = None <-> forall i v, l !! i <> Some (SLive k v).
Proof.
  intros Hu. rewrite eq_None_not_Some. split.
  - intros Hn i v Hi. apply Hn. exists v. apply slots_map_spec; eauto.
  - intros Hn [v Hv]. apply slots_map_spec in Hv as [i Hi]; [|done]. by eapply Hn.
Qed.
Lemma slots_map_size l : unique l -> Z.of_nat (size (slots_map l)) = count_if is_live l.
Proof.
  intros Hu. unfold slots_map. rewrite map_size_list_to_map by by apply entries_nodup.
  clear Hu. induction l as [|x l IH]; [done|]. rewrite count_if_cons, <- IH.
  destruct x; cbn [slot_entries omap list_omap entry_of is_live Z.b2z length]; fold (slot_entries l); lia.
Qed.
Lemma count_split l : count_if is_empty l + count_if is_tomb l + count_if is_live l = Z.of_nat (length l).
Proof.
  induction l as [|x l IH]; [done|]. rewrite !count_if_cons. destruct x; cbn [is_empty is_tomb is_live Z.b2z length]; lia.
Qed.

(** ** Searching *)
Section Table.
Context (home : K -> Z).

(** A search that ends without its key: the key is not there. *)
Lemma passed_absent l k d :
  probe_ok home l -> 0 <= d <= Z.of_nat (length l) -> passed home l k d ->
  d = Z.of_nat (length l) \/ l !! path l (home k) d = Some SEmpty -> slots_map l !! k = None.
Proof.
  intros [Hu Hr] Hd Hp Hend. apply slots_map_None; [done|]. intros i v Hi.
  destruct (Hr i k v Hi) as (e & He & -> & Hne). destruct (decide (e < d)) as [Hlt|Hge].
  - destruct (Hp e ltac:(lia)) as (s & Hs & _ & Hs'). rewrite Hs in Hi. injection Hi as ->. by apply (Hs' v).
  - destruct Hend as [->|Hend]; [lia|]. destruct (decide (e = d)) as [->|]; [congruence|].
    by apply (Hne d ltac:(lia)).
Qed.
Lemma passed_round l k : passed home l k (Z.of_nat (length l)) -> count_if is_empty l = 0.
Proof.
  intros Hp. apply count_if_zero. intros i x Hi. destruct (path_surj l (home k) i) as (e & He & ->).
  { by eapply lookup_lt_Some. }
  destruct (Hp e He) as (s & Hs & Hne & _). rewrite Hs in Hi. injection Hi as ->. by destruct x.
Qed.
Lemma passed_0 l k : passed home l k 0.
Proof. intros e He. lia. Qed.
(** One step of a search. *)
Inductive probe_step l k d : Prop :=
| ps_empty : l !! path l (home k) d = Some SEmpty -> slots_map l !! k = None -> probe_step l k d
| ps_hit v : l !! path l (home k) d = Some (SLive k v) -> slots_map l !! k = Some v -> probe_step l k d
| ps_tomb : l !! path l (home k) d = Some STomb -> passed home l k (d + 1) -> probe_step l k d
| ps_other k' v : l !! path l (home k) d = Some (SLive k' v) -> k' <> k -> passed home l k (d + 1) ->
    probe_step l k d.
Lemma probe_cases l k d :
  probe_ok home l -> 0 <= d < Z.of_nat (length l) -> passed home l k d -> probe_step l k d.
Proof.
  intros Hok Hd Hp. assert (l <> []) as Hl by (intros ->; cbn in Hd; lia).
  destruct (slot_at_path l (home k) d Hl) as [s Hs].
  assert (s <> SEmpty -> (forall v, s <> SLive k v) -> passed home l k (d + 1)) as Hnext.
  { intros H1 H2 e He. destruct (decide (e = d)) as [->|]; [eauto|]. apply Hp. lia. }
  destruct s as [| |k' v].
  - apply ps_empty; [done|]. apply (passed_absent l k d); [done|lia|done|by right].
  - apply ps_tomb; [done|]. by apply Hnext.
  - destruct (decide (k' = k)) as [->|Hne].
    + apply (ps_hit _ _ _ v); [done|]. apply slots_map_spec; [apply Hok|eauto].
    + apply (ps_other _ _ _ k' v); [done|done|]. apply Hnext; congruence.
Qed.

(** ** Updates *)
Lemma lookup_insert_live l i x j k v :
  (forall w, x <> SLive k w) -> <[i := x]> l !! j = Some (SLive k v) -> l !! j = Some (SLive k v) /\ j <> i.
Proof.
  intros Hx Hj. apply list_lookup_insert_Some in Hj as [(-> & -> & _)|[Hn Hj]]; [by destruct (Hx v)|]. split; congruence.
Qed.
Lemma nonempty_insert l i x k e :
  x <> SEmpty -> l !! path l (home k) e <> Some SEmpty ->
  <[i := x]> l !! path (<[i := x]> l) (home k) e <> Some SEmpty.
Proof.
  intros Hx He E. rewrite path_insert in E.
  apply list_lookup_insert_Some in E as [(_ & -> & _)|[_ E]]; [done|by apply He].
Qed.
(** Overwriting slots with anything but an empty one keeps the other keys reachable. *)
Lemma reachable_others l i x :
  reachable home l -> x <> SEmpty ->
  (forall k v, x = SLive k v -> exists d, 0 <= d < Z.of_nat (length l) /\ i = path l (home k) d /\
     forall e, 0 <= e < d -> l !! path l (home k) e <> Some SEmpty) ->
  reachable home (<[i := x]> l).
Proof.
  intros Hr Hx Hown j k v Hj.
  assert (exists d, 0 <= d < Z.of_nat (length l) /\ j = path l (home k) d /\
            forall e, 0 <= e < d -> l !! path l (home k) e <> Some SEmpty) as (d & Hd & -> & Hne).
  { apply list_lookup_insert_Some in Hj as [(-> & -> & _)|[_ Hj]]; [by apply (Hown k v)|by apply (Hr j k v)]. }
  exists d. rewrite length_insert, path_insert. split; [done|]. split; [done|].
  intros e He. apply nonempty_insert; auto.
Qed.

Lemma probe_remove l i k v :
  probe_ok home l -> l !! i = Some (SLive k v) ->
  probe_ok home (<[i := STomb]> l) /\ slots_map (<[i := STomb]> l) = delete k (slots_map l).
Proof.
  intros [Hu Hr] Hi. assert (unique (<[i := STomb]> l)) as Hu'.
  { intros a b k' v' w' Ha Hb. apply lookup_insert_live in Ha as [Ha _]; [|done].
    apply lookup_insert_live in Hb as [Hb _]; [|done]. by eapply Hu. }
  split; [split; [done|by apply reachable_others]|].
  apply map_eq. intros k'. apply option_eq. intros v'. rewrite slots_map_spec by done.
  rewrite lookup_delete_Some, slots_map_spec by done. split.
  - intros [j Hj]. apply lookup_insert_live in Hj as [Hj Hn]; [|done]. split; [|eauto]. intros <-.
    apply Hn. by eapply Hu.
  - intros [Hk [j Hj]]. exists j. rewrite list_lookup_insert_ne; [done|]. intros ->. congruence.
Qed.
Lemma probe_replace l i k v w :
  probe_ok home l -> l !! i = Some (SLive k v) ->
  probe_ok home (<[i := SLive k w]> l) /\ slots_map (<[i := SLive k w]> l) = <[k := w]> (slots_map l).
Proof.
  intros [Hu Hr] Hi. pose proof (lookup_lt_Some _ _ _ Hi) as Hlt.
  assert (unique (<[i := SLive k w]> l)) as Hu'.
  { intros a b k' v' w' Ha Hb. apply list_lookup_insert_Some in Ha as [(-> & ? & _)|[Hna Ha]];
      apply list_lookup_insert_Some in Hb as [(-> & ? & _)|[Hnb Hb]]; simplify_eq; try done;
      [exfalso; apply Hnb|exfalso; apply Hna|]; by eapply Hu. }
  split; [split; [done|]|].
  - apply reachable_others; [done|done|]. intros k' v' [= <- <-]. by apply (Hr i k v).
  - apply map_eq. intros k'. apply option_eq. intros v'. rewrite slots_map_spec by done.
    rewrite lookup_insert_Some, slots_map_spec by done. split.
    + intros [j Hj]. apply list_lookup_insert_Some in Hj as [(-> & ? & _)|[Hn Hj]]; simplify_eq; [by left|].
      right. split; [|eauto]. intros <-. apply Hn. by eapply Hu.
    + intros [[<- <-]|[Hk [j Hj]]]; [exists i; by rewrite list_lookup_insert_eq|].
      exists j. rewrite list_lookup_insert_ne; [done|]. intros ->. congruence.
Qed.
(** A key that is absent goes to any reusable slot its search has come past. *)
Lemma probe_fill l d k w x :
  probe_ok home l -> slots_map l !! k = None -> 0 <= d < Z.of_nat (length l) -> passed home l k d ->
  l !! path l (home k) d = Some x -> is_live x = false ->
  probe_ok home (<[path l (home k) d := SLive k w]> l) /\
  slots_map (<[path l (home k) d := SLive k w]> l) = <[k := w]> (slots_map l).
Proof.
  intros [Hu Hr] Hk Hd Hp Hx Hlive. pose proof (proj1 (slots_map_None l k Hu) Hk) as Hno.
  pose proof (lookup_lt_Some _ _ _ Hx) as Hlt. set (i := path l (home k) d) in *.
  assert (unique (<[i := SLive k w]> l)) as Hu'.
  { intros a b k' v' w' Ha Hb. apply list_lookup_insert_Some in Ha as [(-> & ? & _)|[Hna Ha]];
      apply list_lookup_insert_Some in Hb as [(-> & ? & _)|[Hnb Hb]]; simplify_eq; try done;
      [by destruct (Hno _ _ Hb)|by destruct (Hno _ _ Ha)|by eapply Hu]. }
  split; [split; [done|]|].
  - apply reachable_others; [done|done|]. intros k' v' [= <- <-]. exists d. split; [done|]. split; [done|].
    intros e He. destruct (Hp e He) as (s & -> & Hs & _). congruence.
  - apply map_eq. intros k'. apply option_eq. intros v'. rewrite slots_map_spec by done.
    rewrite lookup_insert_Some, slots_map_spec by done. split.
    + intros [j Hj]. apply list_lookup_insert_Some in Hj as [(-> & ? & _)|[Hn Hj]]; simplify_eq; [by left|].
      right. split; [|eauto]. intros <-. by destruct (Hno _ _ Hj).
    + intros [[<- <-]|[Hk' [j Hj]]]; [exists i; by rewrite list_lookup_insert_eq|].
      exists j. rewrite list_lookup_insert_ne; [done|]. intros ->. rewrite Hx in Hj. by injection Hj as ->.
Qed.
Lemma probe_empty n : probe_ok home (replicate n SEmpty) /\ slots_map (replicate n SEmpty) = ∅.
Proof.
  assert (forall i k v, replicate n (@SEmpty K V) !! i <> Some (SLive k v)) as Hn.
  { intros i k v Hi. by apply lookup_replicate in Hi as [? _]. }
  assert (unique (replicate n SEmpty)) as Hu by (intros i j k v w Hi; by destruct (Hn _ _ _ Hi)).
  split; [split; [done|intros i k v Hi; by destruct (Hn _ _ _ Hi)]|].
  apply map_eq. intros k. rewrite lookup_empty. apply slots_map_None; [done|]. intros i v. apply Hn.
Qed.
End Table.
End Probe.
