(* ===== verification/ExpireIndex.v ===== *)
(** flatstore.h, [ExpireIndex]: the hashes of a shard that may carry a deadline.

    Two open-addressing tables of three parallel arrays each; the second table is in use only while
    the entries of the first are being moved over, eight slots per operation.  [sc] is the build
    selector [kTtlDeadlineSidecar]: with it, deadlines are kept beside the hashes.  [mem] answers
    the table allocation of a call (a call allocates at most one table).  An access outside an
    array is [None]. *)
From stdpp Require Import gmap.
From S2P Require Import Prelude Hash Probe.

Definition kNoTtlDeadline : Z := -1.
Definition kEmpty : Z := 0.
Definition kLive : Z := 1.
Definition kTomb : Z := 2.
Definition kIndexMinCap : Z := 16.
Definition kMigrateSlotsPerOp : nat := 8.

Record ETab := mkETab {
  et_hashes : list Z; et_deadlines : list Z; et_states : list Z;
  et_cap : Z; et_live : Z; et_tombs : Z }.
Record ExpireIndex := mkEI { e_t0 : ETab; e_t1 : ETab; e_cursor : Z; e_migrate : Z }.

Definition e_free : ETab := mkETab [] [] [] 0 0 0.
Definition e_new : ExpireIndex := mkEI e_free e_free 0 0.
Definition e_with (e : ExpireIndex) (t0 t1 : ETab) : ExpireIndex := mkEI t0 t1 (e_cursor e) (e_migrate e).

Definition e_size (e : ExpireIndex) : Z := u32 (et_live (e_t0 e) + et_live (e_t1 e)).
Definition e_rehashing (e : ExpireIndex) : bool := negb (et_cap (e_t1 e) =? 0).
Definition memory_bytes (sc : bool) (e : ExpireIndex) : Z :=
  u64 (u64 (et_cap (e_t0 e) + et_cap (e_t1 e)) * (8 + 1 + (if sc then 8 else 0))).
Definition e_clear (e : ExpireIndex) : ExpireIndex := e_new.

(** [calloc] of both arrays; the tables come zeroed. *)
Definition allocate (sc : bool) (cap : Z) : ETab :=
  let n := Z.to_nat cap in
  mkETab (replicate n 0) (if sc then replicate n 0 else []) (replicate n 0) cap 0 0.

Definition start (t : ETab) (hash : Z) : Z := Z.land (mix64 hash) (et_cap t - 1).
Definition next_pos (t : ETab) (pos : Z) : Z := Z.land (pos + 1) (et_cap t - 1).
Definition set_deadline (sc : bool) (t : ETab) (pos deadline : Z) : option (list Z) :=
  if sc then put (et_deadlines t) pos deadline else Some (et_deadlines t).

(** * Probe loops *)
Fixpoint insert_loop (n : nat) (sc : bool) (t : ETab) (hash deadline pos first_tomb : Z) : option (ETab * bool) :=
  match n with
  | O => Some (t, false)
  | S n =>
      s ← mem_get (et_states t) pos;
      if s =? kEmpty then
        let '(pos, tombs) := if negb (first_tomb =? et_cap t) then (first_tomb, u32 (et_tombs t - 1))
                             else (pos, et_tombs t) in
        hs ← put (et_hashes t) pos hash;
        ds ← set_deadline sc t pos deadline;
        ss ← put (et_states t) pos kLive;
        Some (mkETab hs ds ss (et_cap t) (u32 (et_live t + 1)) tombs, true)
      else if s =? kTomb then
        insert_loop n sc t hash deadline (next_pos t pos)
          (if first_tomb =? et_cap t then pos else first_tomb)
      else
        h ← mem_get (et_hashes t) pos;
        if h =? hash then
          ds ← set_deadline sc t pos deadline;
          Some (mkETab (et_hashes t) ds (et_states t) (et_cap t) (et_live t) (et_tombs t), true)
        else insert_loop n sc t hash deadline (next_pos t pos) first_tomb
  end.
Definition insert_raw (sc : bool) (t : ETab) (hash deadline : Z) : option (ETab * bool) :=
  if et_cap t =? 0 then Some (t, false)
  else insert_loop (Z.to_nat (et_cap t)) sc t hash deadline (start t hash) (et_cap t).

(** [states(t)[pos] == kLive && hashes_[t][pos] == hash]. *)
Definition slot_is (t : ETab) (s pos hash : Z) : option bool :=
  if s =? kLive then h ← mem_get (et_hashes t) pos; Some (h =? hash) else Some false.
Fixpoint erase_loop (n : nat) (t : ETab) (hash pos : Z) : option (ETab * bool) :=
  match n with
  | O => Some (t, false)
  | S n =>
      s ← mem_get (et_states t) pos;
      if s =? kEmpty then Some (t, false)
      else
        hit ← slot_is t s pos hash;
        if hit : bool then
          ss ← put (et_states t) pos kTomb;
          Some (mkETab (et_hashes t) (et_deadlines t) ss (et_cap t) (u32 (et_live t - 1)) (u32 (et_tombs t + 1)), true)
        else erase_loop n t hash (next_pos t pos)
  end.
Definition e_erase_in (t : ETab) (hash : Z) : option (ETab * bool) :=
  if et_cap t =? 0 then Some (t, false) else erase_loop (Z.to_nat (et_cap t)) t hash (start t hash).

Fixpoint deadline_loop (n : nat) (t : ETab) (hash pos : Z) : option (option Z) :=
  match n with
  | O => Some None
  | S n =>
      s ← mem_get (et_states t) pos;
      if s =? kEmpty then Some None
      else
        hit ← slot_is t s pos hash;
        if hit : bool then d ← mem_get (et_deadlines t) pos; Some (Some d)
        else deadline_loop n t hash (next_pos t pos)
  end.
(** [deadline_in]: the value written through [out], if any. *)
Definition deadline_in (sc : bool) (t : ETab) (hash : Z) : option (option Z) :=
  if negb sc then Some None
  else if et_cap t =? 0 then Some None else deadline_loop (Z.to_nat (et_cap t)) t hash (start t hash).

(** * Moving to the second table *)
(** The body of both migration loops: one old slot. *)
Definition migrate_one (sc : bool) (e : ExpireIndex) : option ExpireIndex :=
  let pos := e_migrate e in
  let t := e_t0 e in
  let e := mkEI t (e_t1 e) (e_cursor e) (pos + 1) in
  s ← mem_get (et_states t) pos;
  if negb (s =? kLive) then Some e
  else
    deadline ← (if sc then mem_get (et_deadlines t) pos else Some kNoTtlDeadline);
    ss ← put (et_states t) pos kTomb;
    h ← mem_get (et_hashes t) pos;
    '(t1, _) ← insert_raw sc (e_t1 e) h deadline;
    Some (e_with e (mkETab (et_hashes t) (et_deadlines t) ss (et_cap t) (u32 (et_live t - 1)) (u32 (et_tombs t + 1))) t1).
Fixpoint migrate_loop (slots : nat) (sc : bool) (e : ExpireIndex) : option ExpireIndex :=
  match slots with
  | O => Some e
  | S slots =>
      if e_migrate e <? et_cap (e_t0 e) then e ← migrate_one sc e; migrate_loop slots sc e else Some e
  end.
Definition finish_migration (sc : bool) (e : ExpireIndex) : option ExpireIndex :=
  e ← migrate_loop (Z.to_nat (et_cap (e_t0 e) - e_migrate e)) sc e;
  Some (mkEI (e_t1 e) e_free 0 0).
Definition migrate (slots : nat) (sc : bool) (e : ExpireIndex) : option ExpireIndex :=
  e ← migrate_loop slots sc e;
  if et_cap (e_t0 e) <=? e_migrate e then finish_migration sc e else Some e.
Definition begin_rehash (mem sc : bool) (e : ExpireIndex) (cap : Z) : ExpireIndex * bool :=
  if mem then (mkEI (e_t0 e) (allocate sc cap) (e_cursor e) 0, true) else (e, false).
Definition collapse_empty (e : ExpireIndex) : ExpireIndex :=
  let t := e_t0 e in
  if negb (e_rehashing e) && (et_cap t <=? kIndexMinCap) then
    mkEI (mkETab (et_hashes t) (et_deadlines t) (replicate (Z.to_nat (et_cap t)) kEmpty) (et_cap t) (et_live t) 0)
         (e_t1 e) 0 (e_migrate e)
  else mkEI e_free e_free 0 0.

(** * Operations *)
Definition over_load (t : ETab) : bool :=
  u64 (et_cap t * 70) <=? (et_live t + et_tombs t + 1) * 100.

(** The move a call owes before it inserts: [if (rehashing()) ...]. *)
Definition insert_migrate (sc : bool) (e : ExpireIndex) : option ExpireIndex :=
  if e_rehashing e then
    e ← migrate kMigrateSlotsPerOp sc e;
    if e_rehashing e && over_load (e_t1 e) then finish_migration sc e else Some e
  else Some e.
(** Growth or rebuild; [false] is a failed allocation. *)
Definition insert_grow (mem sc : bool) (e : ExpireIndex) : option (ExpireIndex * bool) :=
  if negb (e_rehashing e) && over_load (e_t0 e) then
    let cap := et_cap (e_t0 e) in
    if cap <=? u64 (et_live (e_t0 e) * 2) then
      if UINT64_MAX / 2 <? cap then Some (e, false)
      else
        let '(e, ok) := begin_rehash mem sc e (cap * 2) in
        if ok : bool then e ← migrate kMigrateSlotsPerOp sc e; Some (e, true) else Some (e, false)
    else
      let '(e, ok) := begin_rehash mem sc e cap in
      if ok : bool then e ← migrate kMigrateSlotsPerOp sc e; Some (e, true) else Some (e, false)
  else Some (e, true).
Definition e_insert (mem sc : bool) (e : ExpireIndex) (hash deadline : Z) : option (ExpireIndex * bool) :=
  e ← insert_migrate sc e;
  let '(e, ok) :=
    if et_cap (e_t0 e) =? 0 then
      if mem then (e_with e (allocate sc kIndexMinCap) (e_t1 e), true) else (e, false)
    else (e, true) in
  if negb ok then Some (e, false)
  else
    '(e, ok) ← insert_grow mem sc e;
    if negb ok then Some (e, false)
    else if e_rehashing e then
      '(t0, _) ← e_erase_in (e_t0 e) hash;
      '(t1, ok) ← insert_raw sc (e_t1 e) hash deadline;
      Some (e_with e t0 t1, ok)
    else
      '(t0, ok) ← insert_raw sc (e_t0 e) hash deadline;
      Some (e_with e t0 (e_t1 e), ok).

Definition e_erase (e : ExpireIndex) (hash : Z) : option (ExpireIndex * bool) :=
  if e_size e =? 0 then Some (e, false)
  else
    '(t1, removed) ← e_erase_in (e_t1 e) hash;
    let e := e_with e (e_t0 e) t1 in
    '(e, removed) ← (if negb removed then '(t0, removed) ← e_erase_in (e_t0 e) hash;
                                         Some (e_with e t0 (e_t1 e), removed)
                     else Some (e, removed));
    Some (if removed && (e_size e =? 0) then collapse_empty e else e, removed).

Definition e_deadline (sc : bool) (e : ExpireIndex) (hash fallback : Z) : option Z :=
  if negb sc then Some fallback
  else
    d1 ← deadline_in sc (e_t1 e) hash;
    match d1 with
    | Some d => Some d
    | None => d0 ← deadline_in sc (e_t0 e) hash; Some (default fallback d0)
    end.

(** The live hash at a cursor position, if any: what is left of the old table, then the new one. *)
Definition cursor_slot (e : ExpireIndex) (pos : Z) : option (option Z) :=
  let old_left := et_cap (e_t0 e) - e_migrate e in
  let '(t, slot) := if pos <? old_left then (e_t0 e, e_migrate e + pos) else (e_t1 e, pos - old_left) in
  s ← mem_get (et_states t) slot;
  if s =? kLive then h ← mem_get (et_hashes t) slot; Some (Some h) else Some None.

(** [sample]: the callback sees the hash and may change the index it is called from; [S] is
    whatever else it owns. *)
Section Sample.
Context {S : Type} (fn : Z -> ExpireIndex -> S -> option (ExpireIndex * S)).
Fixpoint sample_loop (budget : nat) (checked : Z) (e : ExpireIndex) (x : S) : option (ExpireIndex * S * Z) :=
  match budget with
  | O => Some (e, x, checked)
  | Datatypes.S budget =>
      let total := et_cap (e_t0 e) - e_migrate e + et_cap (e_t1 e) in
      if (total =? 0) || (e_size e =? 0) then Some (e, x, checked)
      else
        let pos := if total <=? e_cursor e then 0 else e_cursor e in
        let e := mkEI (e_t0 e) (e_t1 e) (pos + 1) (e_migrate e) in
        r ← cursor_slot e pos;
        '(e, x) ← (match r with Some h => fn h e x | None => Some (e, x) end);
        sample_loop budget (checked + 1) e x
  end.
Definition sample (sc : bool) (budget : Z) (e : ExpireIndex) (x : S) : option (ExpireIndex * S * Z) :=
  e ← (if e_rehashing e then migrate kMigrateSlotsPerOp sc e else Some e);
  sample_loop (Z.to_nat budget) 0 e x.
End Sample.

(** [random_hash]: random probes of both tables, then the cursor. *)
Fixpoint random_probes (n : nat) (e : ExpireIndex) (random i : Z) : option (option Z) :=
  match n with
  | O => Some None
  | S n =>
      let try_table (t : ETab) (k : Z) : option (option Z) :=
        if (et_cap t =? 0) || (et_live t =? 0) then Some None
        else
          let pos := Z.land (mix64 (u64 (random + u32 (i * 2) + k))) (et_cap t - 1) in
          s ← mem_get (et_states t) pos;
          if s =? kLive then h ← mem_get (et_hashes t) pos; Some (Some h) else Some None in
      r0 ← try_table (e_t0 e) 0;
      match r0 with
      | Some h => Some (Some h)
      | None =>
          r1 ← try_table (e_t1 e) 1;
          match r1 with Some h => Some (Some h) | None => random_probes n e random (i + 1) end
      end
  end.
Fixpoint cursor_probes (n : nat) (e : ExpireIndex) : option (ExpireIndex * option Z) :=
  match n with
  | O => Some (e, None)
  | S n =>
      let total := et_cap (e_t0 e) - e_migrate e + et_cap (e_t1 e) in
      if total =? 0 then Some (e, None)
      else
        let pos := if total <=? e_cursor e then 0 else e_cursor e in
        let e := mkEI (e_t0 e) (e_t1 e) (pos + 1) (e_migrate e) in
        r ← cursor_slot e pos;
        match r with Some h => Some (e, Some h) | None => cursor_probes n e end
  end.
Definition random_hash (e : ExpireIndex) (random : Z) (attempts : Z) : option (ExpireIndex * option Z) :=
  if e_size e =? 0 then Some (e, None)
  else
    r ← random_probes (Z.to_nat attempts) e random 0;
    match r with
    | Some h => Some (e, Some h)
    | None => cursor_probes (Z.to_nat attempts) e
    end.

(** * Representation *)
Definition slot_of (s h d : Z) : Slot Z Z :=
  if s =? kEmpty then SEmpty else if s =? kLive then SLive h d else STomb.
(** The deadline the table knows for each slot. *)
Definition e_dls (sc : bool) (t : ETab) : list Z :=
  if sc then et_deadlines t else replicate (length (et_states t)) kNoTtlDeadline.
Definition e_slots (sc : bool) (t : ETab) : list (Slot Z Z) :=
  zip_with (fun s hd => slot_of s hd.1 hd.2) (et_states t) (zip (et_hashes t) (e_dls sc t)).
Definition e_home (cap : Z) (hash : Z) : Z := Z.land (mix64 hash) (cap - 1).
Definition tab_map (sc : bool) (t : ETab) : gmap Z Z := slots_map (e_slots sc t).
Definition used (t : ETab) : Z := et_live t + et_tombs t.
Definition known (sc : bool) (d : Z) : Z := if sc then d else kNoTtlDeadline.

Definition tab_shape (sc : bool) (t : ETab) : Prop :=
  length (et_hashes t) = length (et_states t) /\ length (e_dls sc t) = length (et_states t) /\
  Z.of_nat (length (et_states t)) = et_cap t /\
  Forall (fun s => s = kEmpty \/ s = kLive \/ s = kTomb) (et_states t).
Definition tab_ok (sc : bool) (t : ETab) : Prop :=
  tab_shape sc t /\ (exists k, 4 <= k <= 31 /\ et_cap t = 2 ^ k) /\
  probe_ok (e_home (et_cap t)) (e_slots sc t) /\
  et_live t = count_if is_live (e_slots sc t) /\ et_tombs t = count_if is_tomb (e_slots sc t).

Section TableLemmas.
Context (sc : bool).
Implicit Types (t : ETab).

Lemma slots_length t : tab_shape sc t -> length (e_slots sc t) = length (et_states t).
Proof. intros (H1 & H2 & _). unfold e_slots. rewrite length_zip_with, length_zip. lia. Qed.
Lemma dls_get t i d : sc = true -> e_dls sc t !! i = Some d -> et_deadlines t !! i = Some d.
Proof. intros ->. done. Qed.
Lemma dls_known t i d : e_dls sc t !! i = Some d -> known sc d = d.
Proof. unfold e_dls, known. destruct sc; [done|]. intros [-> _]%lookup_replicate. done. Qed.

Lemma slot_view t i : tab_shape sc t -> 0 <= i < et_cap t ->
  exists s h d, mem_get (et_states t) i = Some s /\ mem_get (et_hashes t) i = Some h /\
    (sc = true -> mem_get (et_deadlines t) i = Some d) /\ known sc d = d /\
    (s = kEmpty \/ s = kLive \/ s = kTomb) /\ e_slots sc t !! Z.to_nat i = Some (slot_of s h d).
Proof.
  intros (H1 & H2 & H3 & H4) Hi.
  destruct (lookup_lt_is_Some_2 (et_states t) (Z.to_nat i)) as [s Hs]; [lia|].
  destruct (lookup_lt_is_Some_2 (et_hashes t) (Z.to_nat i)) as [h Hh]; [lia|].
  destruct (lookup_lt_is_Some_2 (e_dls sc t) (Z.to_nat i)) as [d Hd]; [lia|].
  exists s, h, d. split_and!.
  - apply get_Some; [lia|done].
  - apply get_Some; [lia|done].
  - intros E. apply get_Some; [lia|]. by apply dls_get.
  - by eapply dls_known.
  - by apply (Forall_lookup_1 _ _ _ _ H4 Hs).
  - unfold e_slots. rewrite lookup_zip_with, Hs. cbn. rewrite lookup_zip_with, Hh. cbn. by rewrite Hd.
Qed.

(** A slot of the three arrays written. *)
Definition write_slot t (i : Z) (s h d live tombs : Z) : ETab :=
  mkETab (<[Z.to_nat i := h]> (et_hashes t))
         (if sc then <[Z.to_nat i := d]> (et_deadlines t) else et_deadlines t)
         (<[Z.to_nat i := s]> (et_states t)) (et_cap t) live tombs.
Lemma write_slot_view t i s h d live tombs :
  tab_shape sc t -> 0 <= i < et_cap t -> s = kEmpty \/ s = kLive \/ s = kTomb ->
  tab_shape sc (write_slot t i s h d live tombs) /\
  e_slots sc (write_slot t i s h d live tombs) = <[Z.to_nat i := slot_of s h (known sc d)]> (e_slots sc t).
Proof.
  intros (H1 & H2 & H3 & H4) Hi Hs.
  assert (e_dls sc (write_slot t i s h d live tombs) = <[Z.to_nat i := known sc d]> (e_dls sc t)) as Hd.
  { unfold e_dls, write_slot, known; cbn. destruct sc; [done|]. rewrite length_insert.
    by rewrite insert_replicate. }
  split.
  - unfold tab_shape. rewrite Hd. unfold write_slot; cbn. rewrite !length_insert. split_and!; try done.
    by apply Forall_insert.
  - unfold e_slots. rewrite Hd. unfold write_slot; cbn.
    by rewrite <- insert_zip_with, <- insert_zip_with.
Qed.

Lemma cap_pow2 t : tab_ok sc t -> exists k, 4 <= k <= 31 /\ et_cap t = 2 ^ k.
Proof. by intros (_ & ? & _). Qed.
Lemma tab_ok_bounds t : tab_ok sc t ->
  16 <= et_cap t <= 2 ^ 31 /\ et_live t = count_if is_live (e_slots sc t) /\
  et_tombs t = count_if is_tomb (e_slots sc t) /\ 0 <= et_live t /\ 0 <= et_tombs t /\
  used t + count_if is_empty (e_slots sc t) = et_cap t /\ et_live t = Z.of_nat (size (tab_map sc t)) /\
  Z.of_nat (length (e_slots sc t)) = et_cap t.
Proof.
  intros (Hsh & (k & Hk & Hc) & Hp & Hl & Ht).
  assert (16 <= et_cap t <= 2 ^ 31) as Hb.
  { rewrite Hc. split; [change 16 with (2 ^ 4)|]; apply Z.pow_le_mono_r; lia. }
  pose proof (count_split (e_slots sc t)) as Hs. rewrite slots_length in Hs by done.
  pose proof (count_if_nonneg is_live (e_slots sc t)). pose proof (count_if_nonneg is_tomb (e_slots sc t)).
  pose proof (slots_map_size _ (proj1 Hp)) as Hsz. pose proof (slots_length t Hsh) as Hsl.
  destruct Hsh as (_ & _ & Hcap & _).
  unfold used, tab_map. split_and!; try done; lia.
Qed.
End TableLemmas.

(** * One table *)
Section TableOps.
Context (sc : bool).
Implicit Types (t : ETab).

(** A table after one slot became live or dead. *)
Lemma tab_ok_intro t t' : tab_ok sc t -> tab_shape sc t' -> et_cap t' = et_cap t ->
  probe_ok (e_home (et_cap t)) (e_slots sc t') ->
  et_live t' = count_if is_live (e_slots sc t') -> et_tombs t' = count_if is_tomb (e_slots sc t') -> tab_ok sc t'.
Proof. intros (_ & Hk & _) Hs Hc Hp Hl Ht. unfold tab_ok. rewrite Hc. split_and!; done. Qed.

Lemma slot_pos t h d : tab_ok sc t -> 0 <= d ->
  path (e_slots sc t) (e_home (et_cap t) h) d = Z.to_nat ((e_home (et_cap t) h + d) mod et_cap t) /\
  0 <= (e_home (et_cap t) h + d) mod et_cap t < et_cap t /\
  next_pos t ((e_home (et_cap t) h + d) mod et_cap t) = (e_home (et_cap t) h + (d + 1)) mod et_cap t.
Proof.
  intros Hok Hd. destruct (tab_ok_bounds sc t Hok) as (Hb & _ & _ & _ & _ & _ & _ & Hlen).
  destruct (cap_pow2 sc t Hok) as (k & Hk & Hc). split_and!.
  - unfold path. by rewrite Hlen.
  - apply Z.mod_pos_bound; lia.
  - apply Z.mod_pos_bound; lia.
  - unfold next_pos. rewrite Hc. by apply next_index; lia.
Qed.
Lemma start_pos t h : tab_ok sc t -> start t h = (e_home (et_cap t) h + 0) mod et_cap t.
Proof.
  intros Hok. destruct (cap_pow2 sc t Hok) as (k & Hk & Hc). unfold start, e_home. rewrite Hc.
  rewrite land_ones_mod, Z.add_0_r, Z.mod_mod by (try apply Z.pow_nonzero; lia). done.
Qed.

(** Outcome of an insertion. *)
Definition inserted t t' (h d : Z) : Prop :=
  tab_ok sc t' /\ et_cap t' = et_cap t /\ tab_map sc t' = <[h := known sc d]> (tab_map sc t) /\
  used t' <= used t + (if decide (tab_map sc t !! h = None) then 1 else 0).

Lemma set_deadline_ok t i d : tab_shape sc t -> 0 <= i < et_cap t ->
  set_deadline sc t i d = Some (if sc then <[Z.to_nat i := d]> (et_deadlines t) else et_deadlines t).
Proof.
  intros (_ & H2 & H3 & _) Hi. unfold set_deadline, e_dls in *. destruct sc; [|done]. apply put_Some. lia.
Qed.

(** The reusable slot a search remembers. *)
Definition tomb_seen t (h d first_tomb : Z) : Prop :=
  (first_tomb = et_cap t) \/
  exists e, 0 <= e < d /\ first_tomb = (e_home (et_cap t) h + e) mod et_cap t /\
    e_slots sc t !! Z.to_nat first_tomb = Some STomb.

Lemma fill_spec t h dl d e x :
  tab_ok sc t -> tab_map sc t !! h = None -> 0 <= e < et_cap t -> passed (e_home (et_cap t)) (e_slots sc t) h e ->
  d = (e_home (et_cap t) h + e) mod et_cap t ->
  e_slots sc t !! Z.to_nat d = Some x -> x = SEmpty \/ x = STomb -> used t < et_cap t \/ x = STomb ->
  inserted t (write_slot sc t d kLive h dl (u32 (et_live t + 1))
                (if is_tomb x then u32 (et_tombs t - 1) else et_tombs t)) h dl.
Proof.
  intros Hok Habs He Hp Hd Hx Hfree Hroom. pose proof Hok as (Hsh & _ & Hpr & _).
  destruct (tab_ok_bounds sc t Hok) as (Hb & Hl & Ht & Hl0 & Ht0 & Hu & Hsz & Hlen).
  destruct (slot_pos t h e Hok ltac:(lia)) as (Hpath & Hrange & _).
  set (t' := write_slot _ _ _ _ _ _ _ _).
  destruct (write_slot_view sc t d kLive h dl (u32 (et_live t + 1))
              (if is_tomb x then u32 (et_tombs t - 1) else et_tombs t) Hsh) as [Hsh' Hv]; [lia|auto|].
  fold t' in Hsh', Hv. change (slot_of kLive h (known sc dl)) with (SLive h (known sc dl)) in Hv.
  assert (Z.to_nat d = path (e_slots sc t) (e_home (et_cap t) h) e) as Hde by (rewrite Hpath; by subst d).
  rewrite Hde in Hv, Hx.
  destruct (probe_fill (e_home (et_cap t)) (e_slots sc t) e h (known sc dl) x Hpr Habs ltac:(lia) Hp Hx) as [Hpr' Hm'].
  { by destruct Hfree as [-> | ->]. }
  rewrite <- Hv in Hpr', Hm'.
  pose proof (count_if_insert is_live _ _ (SLive h (known sc dl)) _ Hx) as Cl.
  pose proof (count_if_insert is_tomb _ _ (SLive h (known sc dl)) _ Hx) as Ct.
  pose proof (count_if_nonneg is_empty (e_slots sc t)) as Hne.
  rewrite <- Hv in Cl, Ct. change (2 ^ 31) with 2147483648 in Hb. unfold used in *.
  assert (is_live x = false /\ et_live t + 1 < 4294967296) as [Ex Hw] by (destruct Hfree as [-> | ->]; split; (done || lia)).
  rewrite Ex in Cl. cbn [is_live is_tomb Z.b2z] in Cl, Ct.
  assert (et_live t' = et_live t + 1) as El by (unfold t'; cbn; rewrite u32_small; lia).
  assert (et_tombs t' = et_tombs t - Z.b2z (is_tomb x)) as Et.
  { unfold t'; cbn. destruct Hfree as [-> | ->]; cbn [is_tomb Z.b2z]; [lia|].
    pose proof (count_if_nonneg is_tomb (e_slots sc t')). cbn [is_tomb Z.b2z] in Ct. rewrite u32_small; lia. }
  unfold inserted. split_and!; [|done|done|].
  - apply (tab_ok_intro t); try done; lia.
  - unfold used. rewrite decide_True by done. rewrite El, Et. destruct (is_tomb x); cbn [Z.b2z]; lia.
Qed.

(** The deadline of a key that is already there. *)
Lemma hit_spec t h dl pos v :
  tab_ok sc t -> 0 <= pos < et_cap t -> mem_get (et_hashes t) pos = Some h ->
  mem_get (et_states t) pos = Some kLive -> e_slots sc t !! Z.to_nat pos = Some (SLive h v) ->
  inserted t (mkETab (et_hashes t) (if sc then <[Z.to_nat pos := dl]> (et_deadlines t) else et_deadlines t)
                (et_states t) (et_cap t) (et_live t) (et_tombs t)) h dl.
Proof.
  intros Hok Hrange Eh Es Hv. pose proof Hok as (Hsh & _ & Hpr & _).
  destruct (tab_ok_bounds sc t Hok) as (Hb & Hl & Ht & Hl0 & Ht0 & Hu & Hsz & Hlen).
  set (t' := mkETab _ _ _ _ _ _).
  assert (t' = write_slot sc t pos kLive h dl (et_live t) (et_tombs t)) as Et'.
  { unfold t', write_slot. unfold mem_get in *. rewrite (proj2 (Z.leb_le 0 pos)) in * by lia.
    f_equal; symmetry; by apply list_insert_id. }
  destruct (write_slot_view sc t pos kLive h dl (et_live t) (et_tombs t) Hsh Hrange) as [Hsh' Hv']; [auto|].
  rewrite <- Et' in Hsh', Hv'. change (slot_of kLive h (known sc dl)) with (SLive h (known sc dl)) in Hv'.
  destruct (probe_replace (e_home (et_cap t)) _ _ h v (known sc dl) Hpr Hv) as [Hpr' Hm']. rewrite <- Hv' in Hpr', Hm'.
  pose proof (count_if_insert is_live _ _ (SLive h (known sc dl)) _ Hv) as Cl.
  pose proof (count_if_insert is_tomb _ _ (SLive h (known sc dl)) _ Hv) as Ct. rewrite <- Hv' in Cl, Ct. cbn in Cl, Ct.
  unfold inserted. split_and!; [|done|done|unfold used; cbn; destruct (decide _); lia].
  apply (tab_ok_intro t); try done; cbn; lia.
Qed.

Lemma insert_loop_spec t h dl n d ft :
  tab_ok sc t -> used t < et_cap t -> passed (e_home (et_cap t)) (e_slots sc t) h d -> tomb_seen t h d ft ->
  0 <= d -> d + Z.of_nat n = et_cap t ->
  exists t', insert_loop n sc t h dl ((e_home (et_cap t) h + d) mod et_cap t) ft = Some (t', true) /\ inserted t t' h dl.
Proof.
  intros Hok Hroom. pose proof Hok as (Hsh & _ & Hpr & _).
  destruct (tab_ok_bounds sc t Hok) as (Hb & Hl & Ht & Hl0 & Ht0 & Hu & Hsz & Hlen).
  revert d ft. induction n as [|n IH]; intros d ft Hp Hft Hd Hn.
  { exfalso. pose proof (passed_round (e_home (et_cap t)) (e_slots sc t) h). rewrite Hlen in *.
    replace d with (et_cap t) in Hp by lia. specialize (H Hp). lia. }
  destruct (slot_pos t h d Hok Hd) as (Hpath & Hrange & Hnext). set (pos := (_ + d) mod _) in *.
  cbn [insert_loop]. destruct (slot_view sc t pos Hsh Hrange) as (s & g & dv & Es & Eh & Ed & Hkn & Hs & Hv).
  rewrite Es, some_bind.
  destruct (probe_cases (e_home (et_cap t)) (e_slots sc t) h d Hpr ltac:(lia) Hp) as [E A|v E A|E P|k' v E Hne P];
    rewrite Hpath, Hv in E; unfold slot_of in E.
  - (* empty *) destruct (s =? kEmpty) eqn:E1; [|by destruct (s =? kLive)].
    assert (exists e x p, p = (if negb (ft =? et_cap t) then ft else pos) /\ 0 <= e < et_cap t /\
        passed (e_home (et_cap t)) (e_slots sc t) h e /\ p = (e_home (et_cap t) h + e) mod et_cap t /\
        e_slots sc t !! Z.to_nat p = Some x /\ (x = SEmpty \/ x = STomb) /\
        is_tomb x = negb (ft =? et_cap t)) as (e & x & p & Ep & He & Hpe & Hpos & Hx & Hfree & Htx).
    { destruct Hft as [-> | (e & He & Eft & Hx)].
      - rewrite Z.eqb_refl. cbn [negb]. exists d, SEmpty, pos. split_and!; try done; try lia; [|by left].
        rewrite Hv. unfold slot_of. by rewrite E1.
      - destruct (slot_pos t h e Hok ltac:(lia)) as (_ & Hre & _). rewrite <- Eft in Hre.
        rewrite (proj2 (Z.eqb_neq ft (et_cap t))) by lia. cbn [negb]. exists e, STomb, ft.
        split_and!; try done; try lia; [|by right]. intros e' He'. apply Hp. lia. }
    destruct (slot_pos t h e Hok ltac:(lia)) as (_ & Hre & _). rewrite <- Hpos in Hre.
    pose proof (fill_spec t h dl p e x Hok A He Hpe Hpos Hx Hfree ltac:(by left)) as Hins. rewrite Htx in Hins.
    destruct Hsh as (S1 & S2 & S3 & S4). eexists. split; [|exact Hins]. unfold write_slot.
    destruct (negb (ft =? et_cap t)); subst p;
      (rewrite !put_Some by lia; rewrite some_bind, set_deadline_ok by (done || lia); by rewrite !some_bind).
  - (* hit *) destruct (s =? kEmpty) eqn:E1; [done|]. destruct (s =? kLive) eqn:E2; [|done]. injection E as -> ->.
    assert ((s =? kTomb) = false) as -> by (zcmp; subst; done). rewrite Eh, some_bind, Z.eqb_refl.
    rewrite set_deadline_ok by (done || lia). rewrite some_bind. eexists. split; [done|].
    apply Z.eqb_eq in E2. subst s. by apply (hit_spec t h dl pos v).
  - (* tombstone *) destruct (s =? kEmpty) eqn:E1; [done|]. destruct (s =? kLive) eqn:E2; [done|].
    assert ((s =? kTomb) = true) as -> by (zcmp; apply Z.eqb_eq; destruct Hs as [?|[?|?]]; congruence). rewrite Hnext. apply IH; [done| |lia|lia].
    destruct (ft =? et_cap t) eqn:Ef.
    + right. exists d. split_and!; [lia|lia|done|]. rewrite Hv. unfold slot_of. by rewrite E1, E2.
    + destruct Hft as [->|(e & He & Eft & Hx)]; [by rewrite Z.eqb_refl in Ef|]. right. exists e. split_and!; try done; lia.
  - (* another key *) destruct (s =? kEmpty) eqn:E1; [done|]. destruct (s =? kLive) eqn:E2; [|done].
    injection E as -> ->. assert ((s =? kTomb) = false) as -> by (zcmp; subst; done).
    rewrite Eh, some_bind, (proj2 (Z.eqb_neq k' h)) by done. rewrite Hnext. apply IH; [done| |lia|lia].
    destruct Hft as [->|(e & He & Eft & Hx)]; [by left|]. right. exists e. split_and!; try done; lia.
Qed.

Lemma insert_raw_spec t h dl : tab_ok sc t -> used t < et_cap t ->
  exists t', insert_raw sc t h dl = Some (t', true) /\ inserted t t' h dl.
Proof.
  intros Hok Hroom. destruct (tab_ok_bounds sc t Hok) as (Hb & _).
  unfold insert_raw. rewrite (proj2 (Z.eqb_neq (et_cap t) 0)), (start_pos t h Hok) by lia.
  apply insert_loop_spec; [done|done|apply passed_0|by left|lia..].
Qed.

(** A live slot turned into a tombstone. *)
Definition bury t (pos : Z) : ETab :=
  mkETab (et_hashes t) (et_deadlines t) (<[Z.to_nat pos := kTomb]> (et_states t)) (et_cap t)
         (u32 (et_live t - 1)) (u32 (et_tombs t + 1)).
Lemma bury_spec t pos h v :
  tab_ok sc t -> 0 <= pos < et_cap t -> e_slots sc t !! Z.to_nat pos = Some (SLive h v) ->
  tab_ok sc (bury t pos) /\ e_slots sc (bury t pos) = <[Z.to_nat pos := STomb]> (e_slots sc t) /\
  tab_map sc (bury t pos) = delete h (tab_map sc t) /\ used (bury t pos) = used t /\
  et_live (bury t pos) = et_live t - 1.
Proof.
  intros Hok Hpos Hv. pose proof Hok as (Hsh & _ & Hpr & _).
  destruct (tab_ok_bounds sc t Hok) as (Hb & Hl & Ht & Hl0 & Ht0 & Hu & Hsz & Hlen).
  assert (e_slots sc (bury t pos) = <[Z.to_nat pos := STomb]> (e_slots sc t) /\ tab_shape sc (bury t pos)) as [Hv' Hsh'].
  { pose proof Hsh as (S1 & S2 & S3 & S4). split.
    - destruct (slot_view sc t pos Hsh Hpos) as (s & g & d & _ & Eh & _ & _ & _ & Hs).
      unfold e_slots at 1. unfold bury, e_dls; cbn. rewrite length_insert. fold (e_dls sc t).
      destruct (lookup_lt_is_Some_2 (e_dls sc t) (Z.to_nat pos)) as [d' Hd']; [lia|].
      unfold mem_get in Eh. rewrite (proj2 (Z.leb_le 0 pos)) in Eh by lia.
      rewrite <- (list_insert_id (zip (et_hashes t) (e_dls sc t)) (Z.to_nat pos) (g, d')).
      + by rewrite <- insert_zip_with.
      + rewrite lookup_zip_with, Eh. cbn. by rewrite Hd'.
    - unfold tab_shape, bury, e_dls; cbn. rewrite !length_insert. split_and!; try done.
      apply Forall_insert; [done|]. by right; right. }
  destruct (probe_remove (e_home (et_cap t)) _ _ h v Hpr Hv) as [Hpr' Hm']. rewrite <- Hv' in Hpr', Hm'.
  pose proof (count_if_insert is_live _ _ STomb _ Hv) as Cl.
  pose proof (count_if_insert is_tomb _ _ STomb _ Hv) as Ct. rewrite <- Hv' in Cl, Ct. cbn [is_live is_tomb Z.b2z] in Cl, Ct.
  pose proof (count_if_nonneg is_live (e_slots sc (bury t pos))).
  pose proof (count_if_nonneg is_empty (e_slots sc t)). change (2 ^ 31) with 2147483648 in Hb. unfold used in *.
  assert (et_live (bury t pos) = et_live t - 1) as El by (cbn; rewrite u32_small; lia).
  assert (et_tombs (bury t pos) = et_tombs t + 1) as Et by (cbn; rewrite u32_small; lia).
  split_and!; try done; [|lia]. apply (tab_ok_intro t); try done; lia.
Qed.

(** How a probe loop that looks for a live hash runs, over what it does at the end. *)
Lemma slot_is_view t pos h s g d :
  mem_get (et_hashes t) pos = Some g -> s = kEmpty \/ s = kLive \/ s = kTomb ->
  slot_is t s pos h = Some (match slot_of s g d with SLive k _ => k =? h | _ => false end).
Proof.
  intros Eh Hs. unfold slot_is, slot_of. destruct Hs as [->|[->| ->]]; cbn; [done| |done]. by rewrite Eh.
Qed.

Definition erased t t' (h : Z) (ok : bool) : Prop :=
  tab_ok sc t' /\ et_cap t' = et_cap t /\ tab_map sc t' = delete h (tab_map sc t) /\ used t' = used t /\
  et_live t' = et_live t - Z.b2z ok /\ ok = bool_decide (is_Some (tab_map sc t !! h)) /\
  (forall i, e_slots sc t !! i = Some SEmpty <-> e_slots sc t' !! i = Some SEmpty) /\
  (forall i k v, e_slots sc t' !! i = Some (SLive k v) -> e_slots sc t !! i = Some (SLive k v)).
Lemma erased_refl t h : tab_ok sc t -> tab_map sc t !! h = None -> erased t t h false.
Proof.
  intros Hok Hn. unfold erased. rewrite delete_id by done. cbn [Z.b2z].
  split_and!; try done; [lia|]. by rewrite Hn, bool_decide_eq_false_2 by by intros [].
Qed.
Lemma erased_bury t pos h v : tab_ok sc t -> 0 <= pos < et_cap t ->
  e_slots sc t !! Z.to_nat pos = Some (SLive h v) -> tab_map sc t !! h = Some v -> erased t (bury t pos) h true.
Proof.
  intros Hok Hpos Hv Hm. destruct (bury_spec t pos h v Hok Hpos Hv) as (H1 & H2 & H3 & H4 & H5).
  unfold erased. rewrite H2, Hm, bool_decide_eq_true_2 by done. cbn [Z.b2z]. split_and!; try done.
  - intros i. rewrite list_lookup_insert_Some. split.
    + intros E. right. split; [|done]. intros <-. congruence.
    + by intros [(_ & ? & _)|[_ ?]].
  - intros i k w. rewrite list_lookup_insert_Some. by intros [(_ & ? & _)|[_ ?]].
Qed.
Lemma erase_loop_spec t h n d :
  tab_ok sc t -> passed (e_home (et_cap t)) (e_slots sc t) h d -> 0 <= d -> d + Z.of_nat n = et_cap t ->
  exists t' ok, erase_loop n t h ((e_home (et_cap t) h + d) mod et_cap t) = Some (t', ok) /\ erased t t' h ok.
Proof.
  intros Hok. pose proof Hok as (Hsh & _ & Hpr & _).
  destruct (tab_ok_bounds sc t Hok) as (Hb & _ & _ & _ & _ & _ & _ & Hlen).
  revert d. induction n as [|n IH]; intros d Hp Hd Hn; cbn [erase_loop].
  { exists t, false. split; [done|]. apply erased_refl; [done|].
    apply (passed_absent (e_home (et_cap t)) (e_slots sc t) h d); [done|lia|done|left; lia]. }
  destruct (slot_pos t h d Hok Hd) as (Hpath & Hrange & Hnext). set (pos := (_ + d) mod _) in *.
  destruct (slot_view sc t pos Hsh Hrange) as (s & g & dv & -> & Eh & Ed & Hkn & Hs & Hv).
  rewrite some_bind, (slot_is_view t pos h s g dv Eh Hs).
  destruct (probe_cases (e_home (et_cap t)) (e_slots sc t) h d Hpr ltac:(lia) Hp) as [E A|v E A|E P|k' v E Hne P];
    rewrite Hpath, Hv in E; injection E as E; rewrite E; rewrite ?some_bind.
  - unfold slot_of in E. destruct (s =? kEmpty); [|by destruct (s =? kLive)]. exists t, false. split; [done|]. by apply erased_refl.
  - rewrite E in Hv. unfold slot_of in E. destruct (s =? kEmpty); [done|]. rewrite Z.eqb_refl.
    destruct Hsh as (_ & _ & S3 & _). rewrite put_Some by lia. rewrite some_bind. exists (bury t pos), true.
    split; [done|]. by apply (erased_bury t pos h v).
  - unfold slot_of in E. destruct (s =? kEmpty); [done|]. rewrite Hnext. apply IH; [done|lia..].
  - unfold slot_of in E. destruct (s =? kEmpty); [done|]. rewrite (proj2 (Z.eqb_neq k' h)) by done.
    rewrite Hnext. apply IH; [done|lia..].
Qed.
Lemma erase_in_spec t h : tab_ok sc t -> exists t' ok, e_erase_in t h = Some (t', ok) /\ erased t t' h ok.
Proof.
  intros Hok. destruct (tab_ok_bounds sc t Hok) as (Hb & _). unfold e_erase_in.
  rewrite (proj2 (Z.eqb_neq (et_cap t) 0)), (start_pos t h Hok) by lia.
  apply erase_loop_spec; [done|apply passed_0|lia..].
Qed.
Lemma deadline_loop_spec t h n d :
  sc = true -> tab_ok sc t -> passed (e_home (et_cap t)) (e_slots sc t) h d -> 0 <= d -> d + Z.of_nat n = et_cap t ->
  deadline_loop n t h ((e_home (et_cap t) h + d) mod et_cap t) = Some (tab_map sc t !! h).
Proof.
  intros Hsc Hok. pose proof Hok as (Hsh & _ & Hpr & _).
  destruct (tab_ok_bounds sc t Hok) as (Hb & _ & _ & _ & _ & _ & _ & Hlen).
  revert d. induction n as [|n IH]; intros d Hp Hd Hn; cbn [deadline_loop].
  { f_equal. symmetry. apply (passed_absent (e_home (et_cap t)) (e_slots sc t) h d); [done|lia|done|left; lia]. }
  destruct (slot_pos t h d Hok Hd) as (Hpath & Hrange & Hnext). set (pos := (_ + d) mod _) in *.
  destruct (slot_view sc t pos Hsh Hrange) as (s & g & dv & -> & Eh & Ed & Hkn & Hs & Hv).
  rewrite some_bind, (slot_is_view t pos h s g dv Eh Hs).
  destruct (probe_cases (e_home (et_cap t)) (e_slots sc t) h d Hpr ltac:(lia) Hp) as [E A|v E A|E P|k' v E Hne P];
    rewrite Hpath, Hv in E; injection E as E; rewrite E; rewrite ?some_bind.
  - unfold slot_of in E. destruct (s =? kEmpty); [|by destruct (s =? kLive)]. by rewrite <- A.
  - unfold slot_of in E. destruct (s =? kEmpty); [done|]. destruct (s =? kLive); [|done]. injection E as -> ->.
    rewrite Z.eqb_refl, Ed by done. by rewrite some_bind, <- A.
  - unfold slot_of in E. destruct (s =? kEmpty); [done|]. rewrite Hnext. apply IH; [done|lia..].
  - unfold slot_of in E. destruct (s =? kEmpty); [done|]. rewrite (proj2 (Z.eqb_neq k' h)) by done.
    rewrite Hnext. apply IH; [done|lia..].
Qed.
Lemma allocate_ok k : 4 <= k <= 31 ->
  tab_ok sc (allocate sc (2 ^ k)) /\ tab_map sc (allocate sc (2 ^ k)) = ∅ /\ used (allocate sc (2 ^ k)) = 0 /\
  et_cap (allocate sc (2 ^ k)) = 2 ^ k.
Proof.
  intros Hk. pose proof (Z.pow_pos_nonneg 2 k). set (n := Z.to_nat (2 ^ k)).
  assert (e_slots sc (allocate sc (2 ^ k)) = replicate n SEmpty) as Hv.
  { unfold e_slots, allocate, e_dls; cbn [et_states et_hashes et_deadlines]. fold n. rewrite length_replicate.
    destruct sc; by rewrite !zip_with_replicate. }
  destruct (probe_empty (e_home (2 ^ k)) n (V := Z)) as [Hp Hm]. unfold tab_ok, tab_map, used. rewrite Hv.
  unfold allocate; cbn [et_cap et_live et_tombs]. rewrite !count_if_replicate. cbn [is_live is_tomb].
  split_and!; try done; [|by exists k].
  unfold tab_shape, e_dls; cbn [et_states et_hashes et_deadlines et_cap]. fold n.
  destruct sc; rewrite ?length_replicate; (split_and!; [done|by rewrite ?length_replicate|lia|apply Forall_replicate; by left]).
Qed.
End TableOps.

(** * The index *)
Definition below_dead (sc : bool) (e : ExpireIndex) : Prop :=
  forall i k v, Z.of_nat i < e_migrate e -> e_slots sc (e_t0 e) !! i <> Some (SLive k v).
(** No move in flight: the table is absent or under its load limit. *)
Definition idle (sc : bool) (e : ExpireIndex) : Prop :=
  e_t1 e = e_free /\ e_migrate e = 0 /\ 0 <= e_cursor e /\
  (e_t0 e = e_free \/ tab_ok sc (e_t0 e) /\ used (e_t0 e) * 100 < et_cap (e_t0 e) * 70).
(** A move in flight.  Every insertion moves eight slots and uses one, so the target never fills:
    [slack] is eight times the insertions that are already paid for. *)
Definition moving (sc : bool) (e : ExpireIndex) (slack : Z) : Prop :=
  tab_ok sc (e_t0 e) /\ tab_ok sc (e_t1 e) /\ 0 <= e_migrate e <= et_cap (e_t0 e) /\ 0 <= e_cursor e /\
  below_dead sc e /\ tab_map sc (e_t0 e) ##ₘ tab_map sc (e_t1 e) /\
  8 * (used (e_t1 e) + et_live (e_t0 e)) + (et_cap (e_t0 e) - e_migrate e) + slack <= 5 * et_cap (e_t1 e).
Definition index_ok (sc : bool) (e : ExpireIndex) : Prop :=
  idle sc e \/ moving sc e 0 /\ e_migrate e < et_cap (e_t0 e).
Definition index_map (sc : bool) (e : ExpireIndex) : gmap Z Z := tab_map sc (e_t1 e) ∪ tab_map sc (e_t0 e).

Section IndexLemmas.
Context (sc : bool).
Implicit Types (e : ExpireIndex) (t : ETab).

Lemma free_map : tab_map sc e_free = ∅.
Proof. unfold tab_map, e_slots, e_dls, e_free; cbn. by destruct sc. Qed.
Lemma idle_map e : idle sc e -> index_map sc e = tab_map sc (e_t0 e).
Proof. intros (E & _). unfold index_map. by rewrite E, free_map, (left_id_L ∅ (∪)). Qed.
Lemma idle_rehashing e : idle sc e -> e_rehashing e = false.
Proof. intros (E & _). unfold e_rehashing. by rewrite E. Qed.
Lemma moving_rehashing e s : moving sc e s -> e_rehashing e = true.
Proof.
  intros (_ & H1 & _). unfold e_rehashing. destruct (tab_ok_bounds sc _ H1) as (Hb & _).
  by rewrite (proj2 (Z.eqb_neq _ 0)) by lia.
Qed.
Lemma moving_weaken e s s' : moving sc e s -> s' <= s -> moving sc e s'.
Proof. intros (?&?&?&?&?&?&?) ?. unfold moving. split_and!; try done; lia. Qed.

Lemma migrate_one_spec e s :
  moving sc e s -> e_migrate e < et_cap (e_t0 e) -> 0 <= s ->
  exists e', migrate_one sc e = Some e' /\ moving sc e' (s + 1) /\ e_migrate e' = e_migrate e + 1 /\
    index_map sc e' = index_map sc e /\ et_cap (e_t0 e') = et_cap (e_t0 e) /\ et_cap (e_t1 e') = et_cap (e_t1 e).
Proof.
  intros (H0 & H1 & Hm & Hc & Hbel & Hdis & Hhead) Hlt Hs. pose proof H0 as (Hsh & _).
  pose proof (tab_ok_bounds sc _ H0) as (B0 & _ & _ & L0 & T0 & U0 & _ & Len0).
  pose proof (tab_ok_bounds sc _ H1) as (B1 & _ & _ & L1 & T1 & U1 & _ & Len1).
  unfold migrate_one. destruct (slot_view sc (e_t0 e) (e_migrate e) Hsh ltac:(lia)) as (st & h & d & -> & Eh & Ed & Hkn & Hst & Hv).
  rewrite some_bind. destruct (st =? kLive) eqn:El; cbn [negb].
  - assert (slot_of st h d = SLive h d) as Hsl by (zcmp; by subst).
    rewrite Hsl in Hv.
    assert ((if sc then mem_get (et_deadlines (e_t0 e)) (e_migrate e) else Some kNoTtlDeadline) = Some d) as ->.
    { unfold known in Hkn. destruct sc; [by apply Ed|by rewrite Hkn]. }
    rewrite some_bind. pose proof Hsh as (_ & _ & S3 & _). rewrite put_Some by lia. rewrite some_bind, Eh, some_bind.
    cbn [e_t1].
    destruct (insert_raw_spec sc (e_t1 e) h d H1) as (t1 & -> & I1 & I2 & I3 & I4); [lia|]. rewrite some_bind.
    destruct (bury_spec sc (e_t0 e) (e_migrate e) h d H0 ltac:(lia) Hv) as (K1 & K2 & K3 & K4 & K5).
    eexists. split; [done|]. change (mkETab _ _ _ _ _ _) with (bury (e_t0 e) (e_migrate e)).
    assert (tab_map sc (e_t0 e) !! h = Some d) as Hin by (apply slots_map_spec; [apply H0|eauto]).
    assert (tab_map sc (e_t1 e) !! h = None) as Hout by (by eapply map_disjoint_Some_l).
    rewrite Hkn in I3. split_and!; try done.
    + unfold moving; cbn [e_t0 e_t1 e_migrate e_cursor e_with]. split_and!; try done; try lia.
      * cbn. lia.
      * intros i k v Hi. cbn [e_with e_t0 e_migrate] in Hi |- *. rewrite K2.
        rewrite list_lookup_insert_Some. intros [(_ & ? & _)|[Hne Hl]]; [done|]. apply (Hbel i k v); [lia|done].
      * rewrite K3, I3. apply map_disjoint_insert_r. split; [by rewrite lookup_delete_eq|].
        by apply map_disjoint_delete_l.
      * rewrite K5, I2. rewrite decide_True in I4 by done. cbn [bury et_cap]. lia.
    + unfold index_map; cbn [e_t0 e_t1 e_with]. rewrite K3, I3, <- insert_union_l.
      rewrite insert_union_r by done. by rewrite insert_delete_eq, insert_id.
  - eexists. split; [done|]. unfold index_map; cbn [e_t0 e_t1 e_migrate]. split_and!; try done.
    unfold moving; cbn [e_t0 e_t1 e_migrate e_cursor]. split_and!; try done; try lia.
    intros i k v Hi Hl. cbn [e_t0 e_migrate] in *. destruct (decide (Z.of_nat i = e_migrate e)) as [Ei|].
    + assert (i = Z.to_nat (e_migrate e)) as -> by lia. rewrite Hv in Hl. injection Hl as Hl. unfold slot_of in Hl.
      rewrite El in Hl. by destruct (st =? kEmpty).
    + apply (Hbel i k v); [lia|done].
Qed.
Lemma migrate_loop_spec n e s :
  moving sc e s -> 0 <= s ->
  exists e', migrate_loop n sc e = Some e' /\
    moving sc e' (s + (e_migrate e' - e_migrate e)) /\
    e_migrate e' = Z.min (e_migrate e + Z.of_nat n) (et_cap (e_t0 e)) /\
    index_map sc e' = index_map sc e /\ et_cap (e_t0 e') = et_cap (e_t0 e) /\ et_cap (e_t1 e') = et_cap (e_t1 e).
Proof.
  revert e s. induction n as [|n IH]; intros e s Hm Hs; pose proof Hm as (_ & _ & Hr & _); cbn [migrate_loop].
  { exists e. split_and!; try done; [eapply moving_weaken; [done|lia]|lia]. }
  zsplit; [|exists e; split_and!; try done; [eapply moving_weaken; [done|lia]|lia]].
  destruct (migrate_one_spec e s Hm ltac:(lia) Hs) as (e1 & -> & Hm1 & E1 & M1 & C0 & C1). rewrite some_bind.
  destruct (IH e1 (s + 1) Hm1 ltac:(lia)) as (e2 & -> & Hm2 & E2 & M2 & C2 & C3). exists e2.
  split_and!; try congruence; [eapply moving_weaken; [done|lia]|lia].
Qed.
Lemma finish_spec e s :
  moving sc e s -> 0 <= s -> exists e', finish_migration sc e = Some e' /\ idle sc e' /\ index_map sc e' = index_map sc e.
Proof.
  intros Hm Hs. unfold finish_migration. pose proof Hm as (_ & _ & Hr & _).
  destruct (migrate_loop_spec (Z.to_nat (et_cap (e_t0 e) - e_migrate e)) e s Hm Hs) as (e1 & -> & Hm1 & E1 & M1 & C0 & C1).
  rewrite some_bind. eexists. split; [done|]. destruct Hm1 as (K0 & K1 & K2 & K3 & Kb & Kd & Kh).
  pose proof (tab_ok_bounds sc _ K0) as (B0 & _ & _ & L0 & T0 & U0 & _ & Len0).
  pose proof (tab_ok_bounds sc _ K1) as (B1 & _ & _ & L1 & T1 & U1 & _ & Len1).
  assert (idle sc (mkEI (e_t1 e1) e_free 0 0)) as Hidle.
  { unfold idle; cbn. split_and!; try done. right. split; [done|]. lia. }
  split; [done|]. rewrite idle_map by done. cbn [e_t0]. rewrite <- M1. unfold index_map.
  assert (tab_map sc (e_t0 e1) = ∅) as ->; [|by rewrite (right_id_L ∅ (∪))].
  apply map_eq. intros k. rewrite lookup_empty. apply slots_map_None; [apply K0|]. intros i v Hi.
  apply (Kb i k v); [|done]. apply lookup_lt_Some in Hi. lia.
Qed.
Lemma migrate_spec e :
  moving sc e 0 -> e_migrate e < et_cap (e_t0 e) ->
  exists e', migrate kMigrateSlotsPerOp sc e = Some e' /\ index_map sc e' = index_map sc e /\
    (idle sc e' /\ et_cap (e_t0 e) <= e_migrate e + 8 \/
     moving sc e' 8 /\ e_migrate e' < et_cap (e_t0 e')).
Proof.
  intros Hm Hlt. unfold migrate, kMigrateSlotsPerOp.
  destruct (migrate_loop_spec 8 e 0 Hm ltac:(lia)) as (e1 & -> & Hm1 & E1 & M1 & C0 & C1). rewrite some_bind.
  pose proof Hm as (_ & _ & Hr & _). zsplit.
  - destruct (finish_spec e1 _ Hm1 ltac:(lia)) as (e2 & -> & Hi & M2). exists e2. split_and!; [done|congruence|left; split; [done|lia]].
  - exists e1. split_and!; [done|done|]. right. split; [|lia]. eapply moving_weaken; [done|lia].
Qed.

Lemma over_load_spec t : tab_ok sc t -> over_load t = (et_cap t * 70 <=? (used t + 1) * 100).
Proof.
  intros Ht. destruct (tab_ok_bounds sc t Ht) as (Hb & _). change (2 ^ 31) with 2147483648 in Hb.
  unfold over_load, used. rewrite u64_small by lia. done.
Qed.
Lemma index_size e : index_ok sc e -> e_size e = Z.of_nat (size (index_map sc e)).
Proof.
  unfold e_size. intros [Hi|[(H0 & H1 & Hm & _ & _ & Hd & Hh) _]].
  - rewrite (idle_map e Hi). destruct Hi as (E1 & _ & _ & [E0|[H0 _]]).
    + by rewrite E0, E1, free_map.
    + destruct (tab_ok_bounds sc _ H0) as (Hb & _ & _ & HL & HT & Hu & Hs & _).
      pose proof (count_if_nonneg is_empty (e_slots sc (e_t0 e))). change (2 ^ 31) with 2147483648 in Hb. unfold used in *.
      rewrite E1. cbn [e_free et_live]. rewrite u32_small; lia.
  - destruct (tab_ok_bounds sc _ H0) as (B0 & _ & _ & L0 & T0 & U0 & S0 & _).
    destruct (tab_ok_bounds sc _ H1) as (B1 & _ & _ & L1 & T1 & U1 & S1 & _).
    change (2 ^ 31) with 2147483648 in *. unfold index_map, used in *.
    rewrite map_size_disj_union by done. rewrite u32_small; lia.
Qed.

Lemma insert_migrate_spec e : index_ok sc e ->
  exists e', insert_migrate sc e = Some e' /\ index_map sc e' = index_map sc e /\
    (idle sc e' \/ moving sc e' 8 /\ e_migrate e' < et_cap (e_t0 e')).
Proof.
  intros [Hi|[Hm Hlt]]; unfold insert_migrate.
  { rewrite (idle_rehashing e Hi). exists e. auto. }
  rewrite (moving_rehashing e 0 Hm). destruct (migrate_spec e Hm Hlt) as (e1 & -> & M1 & [[Hi _]|(Hm1 & Hlt1)]); rewrite some_bind.
  - rewrite (idle_rehashing e1 Hi). cbn [andb]. exists e1. auto.
  - rewrite (moving_rehashing e1 8 Hm1). cbn [andb]. destruct (over_load (e_t1 e1)); [|exists e1; auto].
    destruct (finish_spec e1 8 Hm1 ltac:(lia)) as (e2 & -> & Hi & M2). exists e2. split_and!; [done|congruence|by left].
Qed.
(** Starting a move, with the first eight slots moved at once. *)
Lemma begin_spec e k :
  idle sc e -> tab_ok sc (e_t0 e) -> 4 <= k <= 31 ->
  8 * et_live (e_t0 e) + et_cap (e_t0 e) <= 5 * 2 ^ k ->
  exists e', migrate kMigrateSlotsPerOp sc (begin_rehash true sc e (2 ^ k)).1 = Some e' /\
    index_map sc e' = index_map sc e /\ moving sc e' 8 /\ e_migrate e' < et_cap (e_t0 e').
Proof.
  intros Hi H0 Hk Hh. pose proof (idle_map e Hi) as Hm. destruct Hi as (E1 & E2 & E3 & _).
  destruct (allocate_ok sc k Hk) as (A1 & A2 & A3 & A4). cbn [begin_rehash fst].
  pose proof (tab_ok_bounds sc _ H0) as (B0 & _).
  set (b := mkEI (e_t0 e) (allocate sc (2 ^ k)) (e_cursor e) 0).
  assert (moving sc b 0) as Hb.
  { unfold moving, b; cbn [e_t0 e_t1 e_migrate e_cursor]. split_and!; try done; try lia.
    - intros i k' v Hlt. cbn in Hlt. lia.
    - rewrite A2. apply map_disjoint_empty_r. }
  destruct (migrate_spec b Hb) as (e' & -> & M' & Hc); [unfold b; cbn; lia|]. exists e'.
  assert (index_map sc b = index_map sc e) as Hbm.
  { rewrite Hm. unfold index_map, b; cbn [e_t0 e_t1]. by rewrite A2, (left_id_L ∅ (∪)). }
  split; [done|]. split; [congruence|].
  destruct Hc as [[_ Hbad]|Hc]; [cbn in Hbad; lia|done].
Qed.
Lemma insert_grow_spec mem e : idle sc e -> tab_ok sc (e_t0 e) -> Z.of_nat (size (index_map sc e)) < 2 ^ 30 ->
  exists e' ok, insert_grow mem sc e = Some (e', ok) /\ index_map sc e' = index_map sc e /\ index_ok sc e' /\
    (mem = true -> ok = true) /\
    (ok = true -> idle sc e' /\ tab_ok sc (e_t0 e') /\ (used (e_t0 e') + 1) * 100 < et_cap (e_t0 e') * 70 \/
       moving sc e' 8 /\ e_migrate e' < et_cap (e_t0 e')).
Proof.
  change (2 ^ 30) with 1073741824. intros Hi H0 Hsz. pose proof (tab_ok_bounds sc _ H0) as (B0 & _ & _ & L0 & T0 & U0 & S0 & _).
  destruct (cap_pow2 sc _ H0) as (k & Hk & Hcap). rewrite (idle_map e Hi) in Hsz.
  assert (used (e_t0 e) * 100 < et_cap (e_t0 e) * 70) as Hload.
  { destruct Hi as (_ & _ & _ & [E|[_ Hl]]); [|done]. rewrite E in B0. cbn in B0. lia. }
  unfold insert_grow. rewrite (idle_rehashing e Hi), over_load_spec by done. cbn [negb andb].
  change (2 ^ 31) with 2147483648 in B0. rewrite (u64_small (et_live (e_t0 e) * 2)) by (unfold used in *; lia).
  zsplit; [|exists e, true; split_and!; [done..|by left|done|left; split_and!; [done..|lia]]].
  assert (forall k', 4 <= k' <= 31 -> 8 * et_live (e_t0 e) + et_cap (e_t0 e) <= 5 * 2 ^ k' ->
    exists e' ok, (let '(e, ok) := begin_rehash mem sc e (2 ^ k') in
       if ok : bool then e ← migrate kMigrateSlotsPerOp sc e; Some (e, true) else Some (e, false)) = Some (e', ok) /\
      index_map sc e' = index_map sc e /\ index_ok sc e' /\ (mem = true -> ok = true) /\
      (ok = true -> idle sc e' /\ tab_ok sc (e_t0 e') /\ (used (e_t0 e') + 1) * 100 < et_cap (e_t0 e') * 70 \/
         moving sc e' 8 /\ e_migrate e' < et_cap (e_t0 e'))) as Hbegin.
  { intros k' Hk' Hh. destruct mem; cbn [begin_rehash].
    - destruct (begin_spec e k' Hi H0 Hk' Hh) as (e' & Eb & M & Hm & Hlt). cbn [begin_rehash fst] in Eb. rewrite Eb, some_bind.
      exists e', true. split_and!; try done; [|by right]. right. split; [|done]. eapply moving_weaken; [done|lia].
    - exists e, false. split_and!; try done. by left. }
  zsplit.
  - rewrite (proj2 (Z.ltb_ge (UINT64_MAX / 2) (et_cap (e_t0 e)))) by (change (UINT64_MAX / 2) with 9223372036854775807; lia).
    assert (k <= 30) by (destruct (decide (k <= 30)); [done|]; replace k with 31 in Hcap by lia;
                         change (2 ^ 31) with 2147483648 in Hcap; lia).
    replace (et_cap (e_t0 e) * 2) with (2 ^ (k + 1)) by (rewrite Hcap, Z.pow_add_r by lia; lia).
    apply Hbegin; [lia|]. rewrite Z.pow_add_r, <- Hcap by lia. unfold used in *. lia.
  - specialize (Hbegin k Hk). rewrite <- Hcap in Hbegin. apply Hbegin. lia.
Qed.

(** The insertion itself, once there is room. *)
Lemma insert_place_spec e h dl :
  (idle sc e /\ tab_ok sc (e_t0 e) /\ (used (e_t0 e) + 1) * 100 < et_cap (e_t0 e) * 70 \/
   moving sc e 8 /\ e_migrate e < et_cap (e_t0 e)) ->
  exists e', (if e_rehashing e then
      '(t0, _) ← e_erase_in (e_t0 e) h;
      '(t1, ok) ← insert_raw sc (e_t1 e) h dl;
      Some (e_with e t0 t1, ok)
    else
      '(t0, ok) ← insert_raw sc (e_t0 e) h dl;
      Some (e_with e t0 (e_t1 e), ok)) = Some (e', true) /\ index_ok sc e' /\
    index_map sc e' = <[h := known sc dl]> (index_map sc e).
Proof.
  intros [(Hi & H0 & Hl)|[Hm Hlt]].
  - rewrite (idle_rehashing e Hi). pose proof (tab_ok_bounds sc _ H0) as (B0 & _).
    destruct (insert_raw_spec sc (e_t0 e) h dl H0) as (t0 & -> & I1 & I2 & I3 & I4); [lia|]. rewrite some_bind.
    assert (idle sc (e_with e t0 (e_t1 e))) as Hi'.
    { destruct Hi as (E1 & E2 & E3 & _). unfold idle, e_with; cbn. split_and!; try done. right. split; [done|].
      rewrite I2. destruct (decide _) in I4; lia. }
    eexists. split; [done|]. split; [by left|]. rewrite !idle_map by done. done.
  - rewrite (moving_rehashing e 8 Hm). destruct Hm as (H0 & H1 & Hr & Hc & Hb & Hd & Hh).
    destruct (erase_in_spec sc (e_t0 e) h H0) as (t0 & ok0 & -> & K1 & K2 & K3 & K4 & K5 & K6 & _ & K8). rewrite some_bind.
    pose proof (tab_ok_bounds sc _ H0) as (B0 & _ & _ & L0 & T0 & _).
    pose proof (tab_ok_bounds sc _ H1) as (B1 & _).
    destruct (insert_raw_spec sc (e_t1 e) h dl H1) as (t1 & -> & I1 & I2 & I3 & I4); [lia|]. rewrite some_bind.
    eexists. split; [done|]. split.
    + right. unfold moving, e_with; cbn [e_t0 e_t1 e_migrate e_cursor]. split_and!; try done; try lia.
      * intros i k v Hi Hl. apply (Hb i k v Hi). by apply K8.
      * rewrite K3, I3. apply map_disjoint_insert_r. split; [by rewrite lookup_delete_eq|by apply map_disjoint_delete_l].
      * rewrite I2, K2, K5. destruct ok0; cbn [Z.b2z]; destruct (decide _) in I4; lia.
    + unfold index_map, e_with; cbn [e_t0 e_t1]. rewrite K3, I3, <- insert_union_l.
      apply map_eq. intros j. destruct (decide (j = h)) as [->|Hj]; [by rewrite !lookup_insert_eq|].
      rewrite !lookup_insert_ne by done. rewrite !lookup_union. by rewrite lookup_delete_ne.
Qed.

Lemma insert_spec mem e h dl : index_ok sc e -> Z.of_nat (size (index_map sc e)) < 2 ^ 30 ->
  exists e' ok, e_insert mem sc e h dl = Some (e', ok) /\ index_ok sc e' /\ (mem = true -> ok = true) /\
    index_map sc e' = (if ok then <[h := known sc dl]> (index_map sc e) else index_map sc e).
Proof.
  intros Hok Hsz. unfold e_insert. destruct (insert_migrate_spec e Hok) as (e1 & -> & M1 & Hc). rewrite some_bind.
  rewrite <- M1 in *. clear M1 Hok e.
  assert (exists e2 ok, (if et_cap (e_t0 e1) =? 0
      then if mem then (e_with e1 (allocate sc kIndexMinCap) (e_t1 e1), true) else (e1, false) else (e1, true)) = (e2, ok) /\
      index_map sc e2 = index_map sc e1 /\ index_ok sc e2 /\ (mem = true -> ok = true) /\
      (ok = true -> idle sc e2 /\ tab_ok sc (e_t0 e2) \/ moving sc e2 8 /\ e_migrate e2 < et_cap (e_t0 e2)))
    as (e2 & ok & -> & M2 & O2 & Hmem & Hc2).
  { destruct Hc as [Hi|[Hm Hlt]].
    - pose proof Hi as (E1 & E2 & E3 & [E0|[H0 Hl]]).
      + rewrite E0. cbn [e_free et_cap]. change (0 =? 0) with true. cbv iota.
        destruct mem; [|exists e1, false; split_and!; try done; by left].
        destruct (allocate_ok sc 4 ltac:(lia)) as (A1 & A2 & A3 & A4). change (2 ^ 4) with kIndexMinCap in *.
        assert (idle sc (e_with e1 (allocate sc kIndexMinCap) (e_t1 e1))) as Hi'.
        { unfold idle, e_with; cbn [e_t0 e_t1 e_migrate e_cursor]. split_and!; try done. right. split; [done|].
          rewrite A3, A4. done. }
        do 2 eexists. split; [done|]. split_and!; [|by left|done|by left].
        rewrite !idle_map by done. cbn [e_with e_t0]. by rewrite A2, E0, free_map.
      + pose proof (tab_ok_bounds sc _ H0) as (B0 & _). rewrite (proj2 (Z.eqb_neq (et_cap (e_t0 e1)) 0)) by lia.
        exists e1, true. split_and!; try done; [by left|by left].
    - pose proof Hm as (H0 & _). pose proof (tab_ok_bounds sc _ H0) as (B0 & _).
      rewrite (proj2 (Z.eqb_neq (et_cap (e_t0 e1)) 0)) by lia. exists e1, true. split_and!; try done; [|by right].
      right. split; [|done]. eapply moving_weaken; [done|lia]. }
  destruct ok; cbn [negb]; [|exists e2, false; split_and!; done].
  rewrite <- M2 in *. clear M2 Hc e1.
  assert (exists e3 ok, insert_grow mem sc e2 = Some (e3, ok) /\ index_map sc e3 = index_map sc e2 /\ index_ok sc e3 /\
    (mem = true -> ok = true) /\
    (ok = true -> idle sc e3 /\ tab_ok sc (e_t0 e3) /\ (used (e_t0 e3) + 1) * 100 < et_cap (e_t0 e3) * 70 \/
       moving sc e3 8 /\ e_migrate e3 < et_cap (e_t0 e3))) as (e3 & ok & -> & M3 & O3 & Hmem3 & Hc3).
  { destruct (Hc2 eq_refl) as [[Hi H0]|[Hm Hlt]]; [by apply insert_grow_spec|].
    unfold insert_grow. rewrite (moving_rehashing e2 8 Hm). cbn [negb andb]. exists e2, true. split_and!; try done. by right. }
  rewrite some_bind. destruct ok; cbn [negb]; [|exists e3, false; split_and!; done].
  destruct (insert_place_spec e3 h dl (Hc3 eq_refl)) as (e4 & -> & O4 & M4). exists e4, true. split_and!; try done.
  by rewrite M4, M3.
Qed.

Lemma erase_free h : e_erase_in e_free h = Some (e_free, false).
Proof. done. Qed.
Lemma memset_ok t : tab_ok sc t -> tab_map sc t = ∅ ->
  let t' := mkETab (et_hashes t) (et_deadlines t) (replicate (Z.to_nat (et_cap t)) kEmpty) (et_cap t) (et_live t) 0 in
  tab_ok sc t' /\ tab_map sc t' = ∅ /\ used t' = 0.
Proof.
  intros Hok Hm t'. pose proof Hok as ((S1 & S2 & S3 & S4) & Hk & _).
  destruct (tab_ok_bounds sc t Hok) as (Hb & _ & _ & _ & _ & _ & Hsz & _).
  rewrite Hm, map_size_empty in Hsz.
  assert (length (e_dls sc t') = length (et_states t)) as Hd.
  { unfold e_dls, t' in *; cbn. destruct sc; [done|]. rewrite !length_replicate in *. lia. }
  assert (length (et_states t') = length (et_states t)) as Hs by (unfold t'; cbn; rewrite length_replicate; lia).
  assert (e_slots sc t' = replicate (Z.to_nat (et_cap t)) SEmpty) as Hv.
  { apply list_eq. intros i. unfold e_slots. rewrite lookup_zip_with.
    change (et_states t') with (replicate (Z.to_nat (et_cap t)) kEmpty).
    destruct (decide (i < Z.to_nat (et_cap t))%nat) as [Hi|Hi].
    - rewrite !lookup_replicate_2 by done. rewrite some_bind.
      destruct (lookup_lt_is_Some_2 (zip (et_hashes t') (e_dls sc t')) i) as [[g d] ->]; [|done].
      rewrite length_zip. change (et_hashes t') with (et_hashes t). lia.
    - by rewrite !(lookup_ge_None_2 (replicate _ _)) by (rewrite length_replicate; lia). }
  destruct (probe_empty (e_home (et_cap t)) (Z.to_nat (et_cap t)) (V := Z)) as [Hp Hm'].
  unfold tab_ok, tab_map, used. rewrite Hv. rewrite !count_if_replicate. cbn [is_live is_tomb].
  split_and!; try done; cbn [t' et_live et_tombs]; try lia.
  unfold tab_shape. rewrite Hd, Hs. split_and!; try done; [lia..|]. apply Forall_replicate. by left.
Qed.
Lemma collapse_spec e : index_ok sc e -> index_map sc e = ∅ ->
  index_ok sc (collapse_empty e) /\ index_map sc (collapse_empty e) = ∅.
Proof.
  intros Hok Hm. unfold collapse_empty.
  assert (index_ok sc (mkEI e_free e_free 0 0) /\ index_map sc (mkEI e_free e_free 0 0) = ∅) as Hnew.
  { assert (idle sc (mkEI e_free e_free 0 0)) as Hi by (unfold idle; cbn; split_and!; try done; by left).
    split; [by left|]. rewrite idle_map by done. apply free_map. }
  destruct (negb _ && _) eqn:E; [|done]. apply andb_prop in E as [E1 E2].
  destruct Hok as [Hi|[Hmv _]]; [|by rewrite (moving_rehashing e 0 Hmv) in E1].
  pose proof Hi as (H1 & H2 & H3 & [H0|[H0 Hl]]).
  - assert (idle sc (mkEI (mkETab (et_hashes (e_t0 e)) (et_deadlines (e_t0 e))
        (replicate (Z.to_nat (et_cap (e_t0 e))) kEmpty) (et_cap (e_t0 e)) (et_live (e_t0 e)) 0) (e_t1 e) 0 (e_migrate e))) as Hi'.
    { rewrite H0. cbn. unfold idle; cbn. split_and!; try done. by left. }
    split; [by left|]. rewrite idle_map by done. cbn [e_t0]. rewrite H0. apply free_map.
  - rewrite idle_map in Hm by done. destruct (memset_ok (e_t0 e) H0 Hm) as (K1 & K2 & K3).
    destruct (tab_ok_bounds sc _ H0) as (Hb & _). set (t' := mkETab _ _ _ _ _ _) in *.
    assert (idle sc (mkEI t' (e_t1 e) 0 (e_migrate e))) as Hi'.
    { unfold idle; cbn [e_t0 e_t1 e_migrate e_cursor]. split_and!; try done. right. split; [done|]. rewrite K3. cbn. lia. }
    split; [by left|]. by rewrite idle_map.
Qed.

Lemma index_erase_tables e h :
  index_ok sc e -> e_size e <> 0 ->
  exists e' ok, ('(t1, removed) ← e_erase_in (e_t1 e) h;
    let e := e_with e (e_t0 e) t1 in
    if negb removed then '(t0, removed) ← e_erase_in (e_t0 e) h; Some (e_with e t0 (e_t1 e), removed)
    else Some (e, removed)) = Some (e', ok) /\ index_ok sc e' /\ index_map sc e' = delete h (index_map sc e) /\
    ok = bool_decide (is_Some (index_map sc e !! h)).
Proof.
  intros Hok Hsz. destruct Hok as [Hi|[Hm Hlt]].
  - pose proof Hi as (E1 & E2 & E3 & E0). rewrite E1, erase_free, some_bind. cbn [negb e_with e_t0 e_t1].
    destruct E0 as [E0|[H0 Hl]]; [unfold e_size in Hsz; rewrite E0, E1 in Hsz; done|].
    destruct (erase_in_spec sc (e_t0 e) h H0) as (t0 & ok & -> & K1 & K2 & K3 & K4 & K5 & K6 & _). rewrite some_bind.
    assert (idle sc (e_with (e_with e (e_t0 e) e_free) t0 e_free)) as Hi'.
    { unfold idle, e_with; cbn [e_t0 e_t1 e_migrate e_cursor]. split_and!; try done. right. rewrite K2, K4. done. }
    do 2 eexists. split; [done|]. rewrite !idle_map by done. split_and!; [by left|done|done].
  - destruct Hm as (H0 & H1 & Hr & Hc & Hb & Hd & Hh).
    destruct (erase_in_spec sc (e_t1 e) h H1) as (t1 & ok1 & -> & A1 & A2 & A3 & A4 & A5 & A6 & _). rewrite some_bind.
    destruct ok1; cbn [negb e_with e_t0 e_t1].
    + do 2 eexists. split; [done|]. symmetry in A6. apply bool_decide_eq_true_1 in A6 as [d Hd1].
      assert (tab_map sc (e_t0 e) !! h = None) as Hn by (by eapply map_disjoint_Some_r).
      unfold index_map; cbn [e_with e_t0 e_t1]. split_and!.
      * right. unfold moving; cbn [e_with e_t0 e_t1 e_migrate e_cursor]. split_and!; try done; try lia.
        rewrite A3. by apply map_disjoint_delete_r.
      * rewrite A3, delete_union. by rewrite (delete_id (tab_map sc (e_t0 e))).
      * symmetry. apply bool_decide_eq_true_2. exists d. by apply lookup_union_Some_l.
    + destruct (erase_in_spec sc (e_t0 e) h H0) as (t0 & ok0 & -> & K1 & K2 & K3 & K4 & K5 & K6 & _ & K8). rewrite some_bind.
      symmetry in A6. apply bool_decide_eq_false_1 in A6. apply eq_None_not_Some in A6.
      rewrite delete_id in A3 by done. cbn [Z.b2z] in A5.
      do 2 eexists. split; [done|]. unfold index_map; cbn [e_with e_t0 e_t1]. split_and!.
      * right. unfold moving; cbn [e_with e_t0 e_t1 e_migrate e_cursor]. split_and!; try done; try lia.
        -- intros i k v Hi Hl. apply (Hb i k v Hi). by apply K8.
        -- rewrite A3, K3. by apply map_disjoint_delete_l.
        -- destruct ok0; cbn [Z.b2z] in K5; lia.
      * rewrite A3, K3, delete_union. by rewrite (delete_id (tab_map sc (e_t1 e))).
      * rewrite K6. apply bool_decide_ext. rewrite lookup_union_r by done. done.
Qed.
Lemma erase_spec e h : index_ok sc e ->
  exists e' ok, e_erase e h = Some (e', ok) /\ index_ok sc e' /\ index_map sc e' = delete h (index_map sc e) /\
    ok = bool_decide (is_Some (index_map sc e !! h)).
Proof.
  intros Hok. pose proof (index_size e Hok) as Hsz. unfold e_erase. zsplit.
  { assert (index_map sc e = ∅) as Hm by (apply map_size_empty_inv; lia).
    exists e, false. rewrite Hm, delete_empty, lookup_empty. split_and!; done. }
  destruct (index_erase_tables e h Hok ltac:(done)) as (e1 & ok & H1 & O1 & M1 & R1).
  destruct (e_erase_in (e_t1 e) h) as [[t1 r1]|]; [|done]. rewrite some_bind in H1 |- *.
  cbv beta iota zeta in H1 |- *. rewrite H1, some_bind.
  destruct (ok && (e_size e1 =? 0)) eqn:Ec; [|by exists e1, ok].
  apply andb_prop in Ec as [_ Ec]. zcmp. rewrite (index_size e1 O1) in Ec.
  assert (index_map sc e1 = ∅) as Hm by (apply map_size_empty_inv; lia).
  destruct (collapse_spec e1 O1 Hm) as [O2 M2]. exists (collapse_empty e1), ok. split_and!; try done. congruence.
Qed.
Lemma deadline_in_spec t h : sc = true -> tab_ok sc t -> deadline_in sc t h = Some (tab_map sc t !! h).
Proof.
  intros Hsc Hok. destruct (tab_ok_bounds sc t Hok) as (Hb & _). unfold deadline_in. rewrite Hsc at 1. cbn [negb].
  rewrite (proj2 (Z.eqb_neq (et_cap t) 0)), (start_pos sc t h Hok) by lia.
  apply deadline_loop_spec; [done|done|apply passed_0|lia..].
Qed.
Lemma deadline_spec e h fallback : index_ok sc e ->
  e_deadline sc e h fallback = Some (if sc then default fallback (index_map sc e !! h) else fallback).
Proof.
  intros Hok. unfold e_deadline. destruct (decide (sc = true)) as [Hsc|Hsc]; [|by destruct sc].
  assert (forall t, t = e_free \/ tab_ok sc t -> deadline_in sc t h = Some (tab_map sc t !! h)) as Hin.
  { intros t [->|Ht]; [|by apply deadline_in_spec]. rewrite free_map, lookup_empty. unfold deadline_in.
    rewrite Hsc. done. }
  assert ((e_t0 e = e_free \/ tab_ok sc (e_t0 e)) /\ (e_t1 e = e_free \/ tab_ok sc (e_t1 e))) as [F0 F1].
  { destruct Hok as [(? & _ & _ & [?|[? _]])|[(? & ? & _) _]]; auto. }
  assert (forall A B : Z, (if sc then A else B) = A) as -> by (by rewrite Hsc).
  assert (negb sc = false) as -> by (by rewrite Hsc). cbv iota.
  rewrite !Hin by done. rewrite some_bind. unfold index_map. rewrite lookup_union.
  destruct (tab_map sc (e_t1 e) !! h); [by destruct (tab_map sc (e_t0 e) !! h)|]. rewrite some_bind.
  by destruct (tab_map sc (e_t0 e) !! h).
Qed.
End IndexLemmas.

(** * Sampling *)
Section SampleLemmas.
Context (sc : bool).
Implicit Types (e : ExpireIndex).
Definition e_total e : Z := et_cap (e_t0 e) - e_migrate e + et_cap (e_t1 e).
Definition at_cursor e (c : Z) : ExpireIndex := mkEI (e_t0 e) (e_t1 e) c (e_migrate e).

Lemma at_cursor_ok e c : index_ok sc e -> 0 <= c -> index_ok sc (at_cursor e c) /\ index_map sc (at_cursor e c) = index_map sc e.
Proof.
  intros [(?&?&?&?)|[(?&?&?&?&?&?&?) ?]] Hc; (split; [|done]).
  - left. unfold idle, at_cursor; cbn. split_and!; done.
  - right. split; [|done]. unfold moving. split_and!; assumption || (cbn; lia).
Qed.
Lemma table_slot t i k v : tab_ok sc t -> e_slots sc t !! i = Some (SLive k v) ->
  0 <= Z.of_nat i < et_cap t /\ mem_get (et_states t) (Z.of_nat i) = Some kLive /\ mem_get (et_hashes t) (Z.of_nat i) = Some k.
Proof.
  intros Hok Hi. destruct (tab_ok_bounds sc t Hok) as (_ & _ & _ & _ & _ & _ & _ & Hlen).
  pose proof (lookup_lt_Some _ _ _ Hi). pose proof Hok as (Hsh & _).
  destruct (slot_view sc t (Z.of_nat i) Hsh ltac:(lia)) as (s & h & d & Es & Eh & _ & _ & Hs & Hv).
  rewrite Nat2Z.id in Hv. rewrite Hv in Hi. injection Hi as Hi. unfold slot_of in Hi.
  destruct (s =? kEmpty); [done|]. destruct (s =? kLive) eqn:E; [|done]. injection Hi as -> ->. zcmp. subst s.
  split; [lia|done].
Qed.
(** What [cursor_slot] reads: in range it answers, and a hash it reports is in the index. *)
Lemma cursor_slot_total e pos : index_ok sc e -> 0 <= pos < e_total e ->
  exists r, cursor_slot e pos = Some r /\ forall h, r = Some h -> is_Some (index_map sc e !! h).
Proof.
  intros Hok Hpos.
  assert (forall t slot, tab_ok sc t -> 0 <= slot < et_cap t ->
    exists r, (s ← mem_get (et_states t) slot;
               if s =? kLive then h ← mem_get (et_hashes t) slot; Some (Some h) else Some None) = Some r /\
      forall h, r = Some h -> is_Some (tab_map sc t !! h)) as Hread.
  { intros t slot Ht Hs. pose proof Ht as (Hsh & _ & [Hu _] & _).
    destruct (slot_view sc t slot Hsh Hs) as (s & h & d & -> & -> & _ & _ & _ & Hv). rewrite some_bind.
    destruct (s =? kLive) eqn:E; [|by eexists]. rewrite some_bind. eexists. split; [done|]. intros h' [= <-].
    zcmp. subst s. exists d. apply slots_map_spec; [done|]. by exists (Z.to_nat slot). }
  unfold cursor_slot, e_total in *. destruct Hok as [Hi|[(H0 & H1 & Hr & _) Hlt]].
  - rewrite (idle_map sc e Hi). destruct Hi as (E1 & E2 & _ & [E0|[H0 _]]); rewrite E1, E2 in Hpos |- *; cbn [e_free et_cap] in Hpos |- *.
    + rewrite E0 in Hpos. cbn in Hpos. lia.
    + rewrite (proj2 (Z.ltb_lt pos _)) by lia. apply Hread; [done|lia].
  - destruct (Z.ltb_spec pos (et_cap (e_t0 e) - e_migrate e)) as [Hp|Hp].
    + destruct (Hread (e_t0 e) (e_migrate e + pos) H0 ltac:(lia)) as (r & -> & Hr'). exists r. split; [done|].
      intros h Hh. unfold index_map. rewrite lookup_union. destruct (Hr' h Hh) as [d ->].
      by destruct (tab_map sc (e_t1 e) !! h).
    + destruct (Hread (e_t1 e) (pos - (et_cap (e_t0 e) - e_migrate e)) H1 ltac:(lia)) as (r & -> & Hr'). exists r. split; [done|].
      intros h Hh. unfold index_map. rewrite lookup_union. destruct (Hr' h Hh) as [d ->].
      by destruct (tab_map sc (e_t0 e) !! h).
Qed.
(** Every entry is at some cursor position. *)
Lemma cursor_covers e h : index_ok sc e -> is_Some (index_map sc e !! h) ->
  exists pos, 0 <= pos < e_total e /\ cursor_slot e pos = Some (Some h).
Proof.
  intros Hok [d Hd]. unfold cursor_slot, e_total.
  assert (forall t, tab_ok sc t -> tab_map sc t !! h = Some d -> exists i, e_slots sc t !! i = Some (SLive h d)) as Hfind.
  { intros t Ht Hm. apply slots_map_spec; [apply Ht|done]. }
  destruct Hok as [Hi|[(H0 & H1 & Hr & _ & Hb & _) Hlt]].
  - rewrite (idle_map sc e Hi) in Hd. destruct Hi as (E1 & E2 & _ & [E0|[H0 _]]).
    { by rewrite E0, (free_map sc) in Hd. }
    destruct (Hfind _ H0 Hd) as [i Hv]. destruct (table_slot _ i h d H0 Hv) as (Hi & Es & Eh).
    exists (Z.of_nat i). rewrite E1, E2. cbn [e_free et_cap]. split; [lia|].
    rewrite (proj2 (Z.ltb_lt _ _)) by lia. rewrite Z.add_0_l, Es, some_bind. cbn [kLive]. by rewrite Eh.
  - unfold index_map in Hd. apply lookup_union_Some_raw in Hd as [Hd|[_ Hd]].
    + destruct (Hfind _ H1 Hd) as [i Hv]. destruct (table_slot _ i h d H1 Hv) as (Hi & Es & Eh).
      exists (et_cap (e_t0 e) - e_migrate e + Z.of_nat i). split; [lia|]. rewrite (proj2 (Z.ltb_ge _ _)) by lia.
      replace (et_cap (e_t0 e) - e_migrate e + Z.of_nat i - (et_cap (e_t0 e) - e_migrate e)) with (Z.of_nat i) by lia.
      rewrite Es, some_bind. cbn [kLive]. by rewrite Eh.
    + destruct (Hfind _ H0 Hd) as [i Hv]. destruct (table_slot _ i h d H0 Hv) as (Hi & Es & Eh).
      assert (e_migrate e <= Z.of_nat i) as Hge.
      { destruct (decide (Z.of_nat i < e_migrate e)) as [Hl|]; [|lia]. by destruct (Hb i h d Hl). }
      exists (Z.of_nat i - e_migrate e). split.
      { destruct (tab_ok_bounds sc _ H1) as (B & _). lia. }
      rewrite (proj2 (Z.ltb_lt _ _)) by lia. replace (e_migrate e + (Z.of_nat i - e_migrate e)) with (Z.of_nat i) by lia.
      rewrite Es, some_bind. cbn [kLive]. by rewrite Eh.
Qed.
Lemma total_pos e : index_ok sc e -> e_size e <> 0 -> 0 < e_total e.
Proof.
  intros Hok Hs. pose proof (index_size sc e Hok) as E. rewrite E in Hs.
  destruct (map_to_list (index_map sc e)) as [|[h d] l] eqn:El.
  { apply map_to_list_empty_iff in El. rewrite El, map_size_empty in Hs. done. }
  destruct (cursor_covers e h Hok) as (pos & Hp & _); [|lia].
  exists d. apply elem_of_map_to_list. rewrite El. by left.
Qed.

Section Callback.
Context {S : Type} (fn : Z -> ExpireIndex -> S -> option (ExpireIndex * S)) (Q : gmap Z Z -> S -> Prop).
Hypothesis fn_ok : forall h e x, index_ok sc e -> Q (index_map sc e) x -> is_Some (index_map sc e !! h) ->
  exists e' x', fn h e x = Some (e', x') /\ index_ok sc e' /\ Q (index_map sc e') x'.
Lemma sample_loop_safe n checked e x : index_ok sc e -> Q (index_map sc e) x ->
  exists e' x' m, sample_loop fn n checked e x = Some (e', x', m) /\ index_ok sc e' /\ Q (index_map sc e') x' /\
    checked <= m <= checked + Z.of_nat n.
Proof.
  revert checked e x. induction n as [|n IH]; intros checked e x Hok HQ; cbn [sample_loop].
  { exists e, x, checked. split_and!; done || lia. }
  change (et_cap (e_t0 e) - e_migrate e + et_cap (e_t1 e)) with (e_total e).
  destruct (_ || _) eqn:Eb; [exists e, x, checked; split_and!; done || lia|].
  apply orb_false_iff in Eb as [E1 E2]. zcmp. pose proof (total_pos e Hok E2) as Ht.
  assert (0 <= e_cursor e) as Hc by (destruct Hok as [(_&_&?&_)|[(_&_&_&?&_) _]]; done).
  set (pos := if e_total e <=? e_cursor e then 0 else e_cursor e).
  assert (0 <= pos < e_total e) as Hpos by (unfold pos; zsplit; lia).
  change (mkEI (e_t0 e) (e_t1 e) (pos + 1) (e_migrate e)) with (at_cursor e (pos + 1)).
  destruct (at_cursor_ok e (pos + 1) Hok ltac:(lia)) as [Hok' Hm'].
  destruct (cursor_slot_total (at_cursor e (pos + 1)) pos Hok' Hpos) as (r & -> & Hr). rewrite some_bind.
  assert (exists e' x', match r with Some h => fn h (at_cursor e (pos + 1)) x | None => Some (at_cursor e (pos + 1), x) end
            = Some (e', x') /\ index_ok sc e' /\ Q (index_map sc e') x') as (e' & x' & -> & Hok2 & HQ2).
  { destruct r as [h|]; [|do 2 eexists; split; [done|]; by rewrite Hm']. apply fn_ok; [done|by rewrite Hm'|by apply Hr]. }
  rewrite some_bind. destruct (IH (checked + 1) e' x' Hok2 HQ2) as (e2 & x2 & m & -> & ? & ? & ?).
  exists e2, x2, m. split_and!; done || lia.
Qed.
Lemma sample_safe budget e x : index_ok sc e -> Q (index_map sc e) x -> 0 <= budget ->
  exists e' x' m, sample fn sc budget e x = Some (e', x', m) /\ index_ok sc e' /\ Q (index_map sc e') x' /\ 0 <= m <= budget.
Proof.
  intros Hok HQ Hb. unfold sample.
  assert (exists e1, (if e_rehashing e then migrate kMigrateSlotsPerOp sc e else Some e) = Some e1 /\ index_ok sc e1 /\
            index_map sc e1 = index_map sc e) as (e1 & -> & Hok1 & M1).
  { destruct Hok as [Hi|[Hm Hlt]].
    - rewrite (idle_rehashing sc e Hi). exists e. split_and!; try done. by left.
    - rewrite (moving_rehashing sc e 0 Hm). destruct (migrate_spec sc e Hm Hlt) as (e1 & -> & M1 & Hc). exists e1.
      split_and!; try done. destruct Hc as [[? _]|[Hm' ?]]; [by left|right]. split; [|done]. eapply moving_weaken; [done|lia]. }
  rewrite some_bind. rewrite <- M1 in HQ.
  destruct (sample_loop_safe (Z.to_nat budget) 0 e1 x Hok1 HQ) as (e2 & x2 & m & -> & ? & ? & ?).
  exists e2, x2, m. split_and!; done || lia.
Qed.
End Callback.
End SampleLemmas.

(** * What the index promises *)
Inductive IndexOp := IInsert (mem : bool) (h d : Z) | IErase (h : Z) | IDeadline (h fallback : Z) | IClear.
Definition run_op (sc : bool) (op : IndexOp) (e : ExpireIndex) : option (ExpireIndex * Z) :=
  match op with
  | IInsert mem h d => '(e, ok) ← e_insert mem sc e h d; Some (e, Z.b2z ok)
  | IErase h => '(e, ok) ← e_erase e h; Some (e, Z.b2z ok)
  | IDeadline h fallback => d ← e_deadline sc e h fallback; Some (e, d)
  | IClear => Some (e_clear e, 0)
  end.
Fixpoint run_index (sc : bool) (ops : list IndexOp) (e : ExpireIndex) : option (ExpireIndex * list Z) :=
  match ops with
  | [] => Some (e, [])
  | op :: ops => '(e, r) ← run_op sc op e; '(e, rs) ← run_index sc ops e; Some (e, r :: rs)
  end.
(** The same operations on a finite map; an insertion may be refused, but only without memory. *)
Inductive map_step (sc : bool) : gmap Z Z -> IndexOp -> Z -> gmap Z Z -> Prop :=
| map_insert M mem h d : map_step sc M (IInsert mem h d) 1 (<[h := known sc d]> M)
| map_refuse M h d : map_step sc M (IInsert false h d) 0 M
| map_erase M h : map_step sc M (IErase h) (Z.b2z (bool_decide (is_Some (M !! h)))) (delete h M)
| map_deadline M h fb : map_step sc M (IDeadline h fb) (if sc then default fb (M !! h) else fb) M
| map_clear M : map_step sc M IClear 0 ∅.
Inductive map_run (sc : bool) : gmap Z Z -> list IndexOp -> list Z -> gmap Z Z -> Prop :=
| map_run_nil M : map_run sc M [] [] M
| map_run_cons M op r M' ops rs M'' :
    map_step sc M op r M' -> map_run sc M' ops rs M'' -> map_run sc M (op :: ops) (r :: rs) M''.

Lemma e_new_ok sc : index_ok sc e_new /\ index_map sc e_new = ∅.
Proof.
  assert (idle sc e_new) as Hi by (unfold idle; cbn; split_and!; try done; by left).
  split; [by left|]. rewrite idle_map by done. apply free_map.
Qed.
Lemma run_op_spec sc op e : index_ok sc e -> Z.of_nat (size (index_map sc e)) < 2 ^ 30 ->
  exists e' r, run_op sc op e = Some (e', r) /\ index_ok sc e' /\ map_step sc (index_map sc e) op r (index_map sc e') /\
    (size (index_map sc e') <= S (size (index_map sc e)))%nat.
Proof.
  intros Hok Hsz. destruct op as [mem h d|h|h fb|]; cbn [run_op].
  - destruct (insert_spec sc mem e h d Hok Hsz) as (e' & ok & -> & Hok' & Hmem & Hm). rewrite some_bind.
    do 2 eexists. split; [done|]. rewrite Hm. destruct ok; cbn [Z.b2z].
    + split_and!; [done|constructor|]. destruct (index_map sc e !! h) eqn:E.
      * rewrite map_size_insert_Some by done. lia.
      * rewrite map_size_insert_None by done. lia.
    + destruct mem; [by specialize (Hmem eq_refl)|]. split_and!; [done|constructor|lia].
  - destruct (erase_spec sc e h Hok) as (e' & ok & -> & Hok' & Hm & ->). rewrite some_bind.
    do 2 eexists. split; [done|]. rewrite Hm. split_and!; [done|constructor|].
    rewrite map_size_delete. destruct (index_map sc e !! h); cbn; lia.
  - rewrite (deadline_spec sc e h fb Hok), some_bind. do 2 eexists. split; [done|]. split_and!; [done|constructor|lia].
  - do 2 eexists. split; [done|]. destruct (e_new_ok sc) as [Hn Hm]. unfold e_clear. rewrite Hm.
    split_and!; [done|constructor|rewrite map_size_empty; lia].
Qed.
Lemma run_index_spec sc ops e : index_ok sc e ->
  Z.of_nat (size (index_map sc e)) + Z.of_nat (length ops) <= 2 ^ 30 ->
  exists e' rs, run_index sc ops e = Some (e', rs) /\ index_ok sc e' /\
    map_run sc (index_map sc e) ops rs (index_map sc e').
Proof.
  revert e. induction ops as [|op ops IH]; intros e Hok Hn; cbn [run_index length] in *.
  { do 2 eexists. split; [done|]. split; [done|constructor]. }
  destruct (run_op_spec sc op e Hok ltac:(lia)) as (e1 & r & -> & Hok1 & Hs & Hsz). rewrite some_bind.
  destruct (IH e1 Hok1 ltac:(lia)) as (e2 & rs & -> & Hok2 & Hr). rewrite some_bind.
  do 2 eexists. split; [done|]. split; [done|]. by econstructor.
Qed.

(** C15: The expiry index refines a finite map from hashes to deadlines.  Any sequence of
    insertions, removals, lookups and clears on a fresh index runs without an access outside its
    arrays, whatever growth, rebuilds and half-finished moves it goes through; every answer is the
    map's (an insertion is refused only when memory is), the table afterwards stands for the
    resulting map, and its size is the number of entries. *)
Theorem expire_index_refines sc ops : Z.of_nat (length ops) <= 2 ^ 30 ->
  exists e rs, run_index sc ops e_new = Some (e, rs) /\
    map_run sc ∅ ops rs (index_map sc e) /\ e_size e = Z.of_nat (size (index_map sc e)).
Proof.
  intros Hn. destruct (e_new_ok sc) as [Hok Hm].
  destruct (run_index_spec sc ops e_new Hok) as (e & rs & -> & Hok' & Hr); [rewrite Hm, map_size_empty; lia|].
  rewrite Hm in Hr. exists e, rs. split_and!; [done|done|by apply index_size].
Qed.
Definition witness_ops : list IndexOp :=
  (fun i => IInsert true (Z.of_nat i * 7) (Z.of_nat i)) <$> seq 0 40.
Lemma expire_index_refines_witness : exists e rs, run_index true (witness_ops ++ [IErase 7; IDeadline 14 (-5)]) e_new = Some (e, rs) /\
  default 0 (last rs) = 2.
Proof.
  destruct (expire_index_refines true (witness_ops ++ [IErase 7; IDeadline 14 (-5)])) as (e & rs & E & _ & Hs); [vm_compute; done|].
  assert (match run_index true (witness_ops ++ [IErase 7; IDeadline 14 (-5)]) e_new with
          | Some (e, rs) => (default 0 (last rs) =? 2) | None => false end = true) as Hc
    by (vm_compute; reflexivity).
  rewrite E in Hc. exists e, rs. split; [done|]. by apply Z.eqb_eq.
Defined.

(** * Successive passes *)
(** A callback that reports the hashes it is shown and erases those that are due. *)
Definition reap (due : Z -> bool) (h : Z) (e : ExpireIndex) (hs : list Z) : option (ExpireIndex * list Z) :=
  e ← (if due h then '(e, _) ← e_erase e h; Some e else Some e); Some (e, hs ++ [h]).
(** One pass per budget; the reports together, and the slots each pass examined. *)
Fixpoint passes (due : Z -> bool) (sc : bool) (budgets : list Z) (e : ExpireIndex) (hs : list Z) : option (ExpireIndex * list Z * list Z) :=
  match budgets with
  | [] => Some (e, hs, [])
  | b :: budgets => '(e, hs, n) ← sample (reap due) sc b e hs; '(e, hs, ns) ← passes due sc budgets e hs; Some (e, hs, n :: ns)
  end.
(** The old slots still to be moved, and the slots of the table that remains. *)
Definition slots_left (e : ExpireIndex) : Z := if e_rehashing e then et_cap (e_t0 e) - e_migrate e else 0.
Definition slots_kept (e : ExpireIndex) : Z := if e_rehashing e then et_cap (e_t1 e) else et_cap (e_t0 e).
Definition norm_cursor (e : ExpireIndex) : Z := if e_total e <=? e_cursor e then 0 else e_cursor e.

Section Passes.
Context (sc : bool) (due : Z -> bool).
Implicit Types (e : ExpireIndex) (t : ETab) (M : gmap Z Z).
Definition reaped M (hs : list Z) M' : Prop := forall h, M' !! h = if decide (due h = true /\ h ∈ hs) then None else M !! h.
Lemma reaped_app M hs M1 hs' M2 : reaped M hs M1 -> reaped M1 hs' M2 -> reaped M (hs ++ hs') M2.
Proof using Type. intros H1 H2 h. rewrite H2, H1. destruct (decide (due h = true /\ h ∈ hs')) as [[? ?]|N2]; [rewrite decide_True; [done|]; split; [done|]; apply elem_of_app; by right|]. destruct (decide (due h = true /\ h ∈ hs)) as [[? ?]|N1]; [rewrite decide_True; [done|]; split; [done|]; apply elem_of_app; by left|]. rewrite decide_False; [done|]. intros [? [?|?]%elem_of_app]; [by apply N1|by apply N2]. Qed.
Lemma reaped_nil M : reaped M [] M.
Proof using Type. intros h. rewrite decide_False; [done|]. intros [_ H]. by apply not_elem_of_nil in H. Qed.
Lemma reaped_le M hs M' h : reaped M hs M' -> is_Some (M' !! h) -> is_Some (M !! h).
Proof using Type. intros H. rewrite H. destruct (decide _); [by intros []|done]. Qed.
Lemma reaped_kept M hs M' h : reaped M hs M' -> is_Some (M !! h) -> h ∈ hs \/ is_Some (M' !! h).
Proof using Type. intros H Hh. rewrite H. destruct (decide _) as [[_ ?]|]; [by left|by right]. Qed.
Lemma size_zero e : index_ok sc e -> e_size e = 0 <-> index_map sc e = ∅.
Proof using Type. intros Hok. rewrite (index_size sc e Hok). rewrite <- map_size_empty_iff. lia. Qed.
Lemma reaped_empty e hs e' : index_ok sc e -> index_ok sc e' -> reaped (index_map sc e) hs (index_map sc e') -> e_size e = 0 -> e_size e' = 0.
Proof using Type.
  intros Hok Hok' Hr Hz. apply (size_zero e Hok) in Hz. apply (size_zero e' Hok'). apply map_eq. intros h. rewrite Hr, Hz, lookup_empty. by destruct (decide _).
Qed.
Lemma empty_reported e hs e' h : index_ok sc e' -> reaped (index_map sc e) hs (index_map sc e') -> e_size e' = 0 -> is_Some (index_map sc e !! h) -> h ∈ hs.
Proof using Type. intros Hok' Hr Hz Hh. apply (size_zero e' Hok') in Hz. destruct (reaped_kept _ _ _ h Hr Hh) as [|Hs]; [done|]. rewrite Hz, lookup_empty in Hs. by destruct Hs. Qed.

(** Erasing leaves the other entries where the cursor finds them. *)
Lemma erase_loop_slots n t h pos t' ok : erase_loop n t h pos = Some (t', ok) ->
  et_cap t' = et_cap t /\ et_hashes t' = et_hashes t /\
  forall i k, mem_get (et_states t) i = Some kLive -> mem_get (et_hashes t) i = Some k -> k <> h -> mem_get (et_states t') i = Some kLive.
Proof using Type.
  revert pos. induction n as [|n IH]; intros pos E; cbn [erase_loop] in E; [by injection E as <- _|]. destruct (mem_get (et_states t) pos) as [s|] eqn:Es; [|done]. rewrite some_bind in E.
  destruct (s =? kEmpty); [by injection E as <- _|]. unfold slot_is in E. destruct (Z.eqb_spec s kLive) as [->|]; [|rewrite some_bind in E; by apply (IH (next_pos t pos))].
  destruct (mem_get (et_hashes t) pos) as [g|] eqn:Eg; [|done]. rewrite !some_bind in E. destruct (Z.eqb_spec g h) as [->|]; [|by apply (IH (next_pos t pos))].
  unfold put in E. destruct (_ && _); [|done]. rewrite some_bind in E. injection E as <- _. cbn. split; [done|]. split; [done|]. intros i k Hi Hk Hne. unfold mem_get in *. destruct (0 <=? i) eqn:E0; [|done]. destruct (0 <=? pos) eqn:E1; [|done].
  rewrite list_lookup_insert_ne; [done|]. intros E. rewrite E in Eg. congruence.
Qed.
Lemma erase_in_slots t h t' ok : e_erase_in t h = Some (t', ok) ->
  et_cap t' = et_cap t /\ et_hashes t' = et_hashes t /\
  forall i k, mem_get (et_states t) i = Some kLive -> mem_get (et_hashes t) i = Some k -> k <> h -> mem_get (et_states t') i = Some kLive.
Proof using Type. unfold e_erase_in. destruct (et_cap t =? 0); [by intros [= <- _]|apply erase_loop_slots]. Qed.
Definition same_shape e e' : Prop := et_cap (e_t0 e') = et_cap (e_t0 e) /\ et_cap (e_t1 e') = et_cap (e_t1 e) /\ e_migrate e' = e_migrate e.
Definition keeps_slots e e' : Prop := same_shape e e' /\ forall pos k, cursor_slot e pos = Some (Some k) -> is_Some (index_map sc e' !! k) -> cursor_slot e' pos = Some (Some k).
Lemma keeps_slots_refl e e' : e_t0 e' = e_t0 e -> e_t1 e' = e_t1 e -> e_migrate e' = e_migrate e -> keeps_slots e e'.
Proof using Type. intros E0 E1 E2. split; [unfold same_shape; by rewrite E0, E1, E2|]. intros pos k. unfold cursor_slot. by rewrite E0, E1, E2. Qed.
Lemma keeps_total e e' : keeps_slots e e' -> e_total e' = e_total e /\ slots_left e' = slots_left e /\ slots_kept e' = slots_kept e.
Proof using Type. intros [(E0 & E1 & E2) _]. unfold e_total, slots_left, slots_kept, e_rehashing. by rewrite E0, E1, E2. Qed.
Lemma slot_survives t t' h slot k : et_hashes t' = et_hashes t ->
  (forall i k, mem_get (et_states t) i = Some kLive -> mem_get (et_hashes t) i = Some k -> k <> h -> mem_get (et_states t') i = Some kLive) -> k <> h ->
  (s ← mem_get (et_states t) slot; if s =? kLive then g ← mem_get (et_hashes t) slot; Some (Some g) else Some None) = Some (Some k) ->
  (s ← mem_get (et_states t') slot; if s =? kLive then g ← mem_get (et_hashes t') slot; Some (Some g) else Some None) = Some (Some k).
Proof using Type.
  intros Eh Hs Hne E. destruct (mem_get (et_states t) slot) as [s|] eqn:Es; [|done]. rewrite some_bind in E. destruct (Z.eqb_spec s kLive) as [->|]; [|done]. destruct (mem_get (et_hashes t) slot) as [g|] eqn:Eg; [|done]. rewrite some_bind in E. injection E as ->.
  rewrite (Hs slot k Es Eg Hne), some_bind, Z.eqb_refl. by rewrite Eh, Eg.
Qed.
Lemma tables_keep e t0 t1 h ok0 ok1 : e_erase_in (e_t0 e) h = Some (t0, ok0) \/ t0 = e_t0 e -> e_erase_in (e_t1 e) h = Some (t1, ok1) -> index_map sc (e_with e t0 t1) !! h = None -> keeps_slots e (e_with e t0 t1).
Proof using Type.
  intros E0 E1 Hn. destruct (erase_in_slots _ _ _ _ E1) as (C1 & H1 & S1).
  assert (et_cap t0 = et_cap (e_t0 e) /\ et_hashes t0 = et_hashes (e_t0 e) /\ forall i k, mem_get (et_states (e_t0 e)) i = Some kLive -> mem_get (et_hashes (e_t0 e)) i = Some k -> k <> h -> mem_get (et_states t0) i = Some kLive) as (C0 & H0 & S0)
    by (destruct E0 as [E0| ->]; [by eapply erase_in_slots|done]).
  split; [by unfold same_shape; cbn|]. intros pos k E Hk. assert (k <> h) as Hne by (intros ->; rewrite Hn in Hk; by destruct Hk). unfold cursor_slot in *. cbn [e_with e_t0 e_t1 e_migrate]. rewrite C0.
  destruct (pos <? et_cap (e_t0 e) - e_migrate e); by eapply slot_survives.
Qed.
Lemma erase_keeps e h e' ok : index_ok sc e -> e_erase e h = Some (e', ok) -> e_size e' = 0 \/ keeps_slots e e' /\ e_cursor e' = e_cursor e.
Proof using Type.
  intros Hok E. destruct (erase_spec sc e h Hok) as (e1 & ok1 & E1 & _ & Hm & _). rewrite E in E1. injection E1 as <- <-. assert (index_map sc e' !! h = None) as Hn by (rewrite Hm; apply lookup_delete_eq). clear Hm.
  unfold e_erase in E. destruct (Z.eqb_spec (e_size e) 0) as [Hz|Hz]; [injection E as <- _; by left|]. destruct (e_erase_in (e_t1 e) h) as [[t1 r1]|] eqn:E1; [|done]. rewrite some_bind in E. cbv beta iota zeta in E.
  assert (exists t0, exists ok0, (e_erase_in (e_t0 e) h = Some (t0, ok0) \/ t0 = e_t0 e) /\ e' = if ok && (e_size (e_with e t0 t1) =? 0) then collapse_empty (e_with e t0 t1) else e_with e t0 t1) as (t0 & ok0 & H0 & ->).
  { destruct r1; cbn [negb] in E; [rewrite some_bind in E; injection E as <- <-; exists (e_t0 e), true; split; [by right|done]|]. cbn [e_with e_t0 e_t1] in E.
    destruct (e_erase_in (e_t0 e) h) as [[t0 r0]|]; [|done]. rewrite !some_bind in E. injection E as <- <-. exists t0, r0. split; [by left|done]. }
  destruct (ok && _) eqn:Ec.
  - apply andb_prop in Ec as [_ Ec]. zcmp. left. unfold collapse_empty. by destruct (_ && _).
  - right. split; [by eapply tables_keep|done].
Qed.
(** What the callback does to the index. *)
Lemma reap_spec h e x : index_ok sc e -> is_Some (index_map sc e !! h) ->
  exists e', reap due h e x = Some (e', x ++ [h]) /\ index_ok sc e' /\ reaped (index_map sc e) [h] (index_map sc e') /\ (e_size e' = 0 \/ keeps_slots e e' /\ e_cursor e' = e_cursor e).
Proof using Type.
  intros Hok Hh. unfold reap. destruct (due h) eqn:Ed.
  - destruct (erase_spec sc e h Hok) as (e' & ok & E & Hok' & Hm & _). pose proof (erase_keeps e h e' ok Hok E) as Hk. rewrite E, !some_bind. exists e'. split_and!; try done. intros g. rewrite Hm. destruct (decide (g = h)) as [->|Hne].
    + rewrite lookup_delete_eq, decide_True; [done|]. split; [done|by apply list_elem_of_singleton].
    + rewrite lookup_delete_ne by done. rewrite decide_False; [done|]. rewrite list_elem_of_singleton. by intros [_ ?].
  - rewrite some_bind. exists e. split_and!; try done; [|right; split; [by apply keeps_slots_refl|done]]. intros g. rewrite decide_False; [done|]. rewrite list_elem_of_singleton. intros [? ->]. congruence.
Qed.

(** One turn of the loop, and the loop. *)
Definition covers_slots (n : Z) e (hs : list Z) : Prop := forall j h, 0 <= j < n -> cursor_slot e ((norm_cursor e + j) mod e_total e) = Some (Some h) -> h ∈ hs.
Definition advanced (n : Z) e (hs : list Z) e' : Prop := keeps_slots e e' /\ norm_cursor e' = (norm_cursor e + n) mod e_total e /\ covers_slots n e hs.
Lemma cursor_nonneg e : index_ok sc e -> 0 <= e_cursor e.
Proof using Type. intros [(_&_&?&_)|[(_&_&_&?&_) _]]; done. Qed.
Lemma norm_range e : index_ok sc e -> e_size e <> 0 -> 0 <= norm_cursor e < e_total e.
Proof using Type. intros Hok Hs. pose proof (total_pos sc e Hok Hs). pose proof (cursor_nonneg e Hok). unfold norm_cursor. zsplit; lia. Qed.
Lemma advanced_trans n m e hs e1 hs' e2 : index_ok sc e -> e_size e <> 0 -> reaped (index_map sc e) hs (index_map sc e1) -> reaped (index_map sc e1) hs' (index_map sc e2) -> 0 <= n -> 0 <= m ->
  advanced n e hs e1 -> advanced m e1 hs' e2 -> advanced (n + m) e (hs ++ hs') e2.
Proof using Type.
  intros Hok Hs R1 R2 Hn Hm ([(A0 & A1 & A2) K1] & N1 & C1) ([(B0 & B1 & B2) K2] & N2 & C2). destruct (keeps_total e e1) as (Et & _); [by split|]. rewrite Et in N2. pose proof (total_pos sc e Hok Hs) as Ht. split; [|split].
  - split; [unfold same_shape; by rewrite B0, B1, B2|]. intros pos k E Hk. apply K2; [|done]. apply K1; [done|]. by eapply reaped_le.
  - rewrite N2, N1, Zplus_mod_idemp_l. f_equal. lia.
  - intros j h Hj E. apply elem_of_app. destruct (decide (j < n)); [left; by apply (C1 j h); [lia|]|]. destruct (decide (h ∈ hs)) as [|Hni]; [by left|right].
    apply (C2 (j - n) h); [lia|]. rewrite Et, N1, Zplus_mod_idemp_l. replace (norm_cursor e + n + (j - n)) with (norm_cursor e + j) by lia. apply K1; [done|].
    destruct (cursor_slot_total sc e ((norm_cursor e + j) mod e_total e) Hok) as (r & Er & Hr); [by apply Z.mod_pos_bound|]. rewrite Er in E. injection E as ->.
    destruct (reaped_kept _ _ _ h R1 (Hr h eq_refl)); done.
Qed.
Lemma reap_turn e x : index_ok sc e -> e_size e <> 0 ->
  exists r e' hs, cursor_slot (at_cursor e (norm_cursor e + 1)) (norm_cursor e) = Some r /\
    match r with Some h => reap due h (at_cursor e (norm_cursor e + 1)) x | None => Some (at_cursor e (norm_cursor e + 1), x) end = Some (e', x ++ hs) /\
    index_ok sc e' /\ reaped (index_map sc e) hs (index_map sc e') /\ Forall (fun h => is_Some (index_map sc e !! h)) hs /\ (e_size e' = 0 \/ advanced 1 e hs e').
Proof using Type.
  intros Hok Hs. pose proof (norm_range e Hok Hs) as Hpos. set (pos := norm_cursor e) in *. destruct (at_cursor_ok sc e (pos + 1) Hok ltac:(lia)) as [Hok1 Hm1]. set (e1 := at_cursor e (pos + 1)) in *.
  destruct (cursor_slot_total sc e1 pos Hok1 Hpos) as (r & Er & Hr).
  assert (forall e' hs, keeps_slots e1 e' -> e_cursor e' = pos + 1 -> (forall h, r = Some h -> h ∈ hs) -> advanced 1 e hs e') as Hadv.
  { intros e' hs Hk Ec Hin. destruct (keeps_total e1 e' Hk) as (Et & _). change (e_total e1) with (e_total e) in Et. split; [done|]. split.
    - unfold norm_cursor at 1. rewrite Et, Ec. fold pos. zsplit; [replace (pos + 1) with (e_total e) by lia; symmetry; apply Z.mod_same; lia|symmetry; apply Z.mod_small; lia].
    - intros j h Hj E. assert (j = 0) as -> by lia. fold pos in E. rewrite Z.add_0_r, Z.mod_small in E by lia. apply Hin. change (cursor_slot e pos) with (cursor_slot e1 pos) in E. congruence. }
  exists r. destruct r as [h|].
  - destruct (reap_spec h e1 x Hok1 (Hr h eq_refl)) as (e' & E & Hok' & Hre & Hk). exists e', [h]. rewrite <- Hm1. split_and!; try done; [by apply Forall_singleton, Hr|].
    destruct Hk as [|[Hk Ec]]; [by left|right]. apply Hadv; [done|done|]. intros g [= ->]. by apply list_elem_of_singleton.
  - exists e1, []. rewrite app_nil_r, Hm1. split_and!; try done; [apply reaped_nil|right]. apply Hadv; [by apply keeps_slots_refl|done|done].
Qed.
Lemma reap_loop n checked e x : index_ok sc e ->
  exists e' hs m, sample_loop (reap due) n checked e x = Some (e', x ++ hs, m) /\ index_ok sc e' /\ checked <= m <= checked + Z.of_nat n /\
    reaped (index_map sc e) hs (index_map sc e') /\ Forall (fun h => is_Some (index_map sc e !! h)) hs /\ (e_size e' = 0 \/ advanced (Z.of_nat n) e hs e').
Proof using Type.
  revert checked e x. induction n as [|n IH]; intros checked e x Hok; cbn [sample_loop].
  { exists e, [], checked. rewrite app_nil_r. split_and!; try done; try lia; [apply reaped_nil|]. destruct (decide (e_size e = 0)) as [|Hs]; [by left|right]. split; [by apply keeps_slots_refl|]. pose proof (norm_range e Hok Hs). split; [rewrite Z.add_0_r; symmetry; by apply Z.mod_small|intros j h Hj; lia]. }
  change (et_cap (e_t0 e) - e_migrate e + et_cap (e_t1 e)) with (e_total e). destruct (decide (e_size e = 0)) as [Hz|Hs].
  { rewrite Hz, Z.eqb_refl, orb_true_r. exists e, [], checked. rewrite app_nil_r. split_and!; try done; try lia. apply reaped_nil. }
  pose proof (total_pos sc e Hok Hs) as Ht. rewrite (proj2 (Z.eqb_neq (e_total e) 0)), (proj2 (Z.eqb_neq (e_size e) 0)) by lia. cbn [orb]. change (if e_total e <=? e_cursor e then 0 else e_cursor e) with (norm_cursor e).
  change (mkEI (e_t0 e) (e_t1 e) (norm_cursor e + 1) (e_migrate e)) with (at_cursor e (norm_cursor e + 1)). destruct (reap_turn e x Hok Hs) as (r & e1 & hs & -> & E & Hok1 & R1 & F1 & A1). rewrite some_bind, E, some_bind.
  destruct (IH (checked + 1) e1 (x ++ hs) Hok1) as (e2 & hs2 & m & -> & Hok2 & Hm & R2 & F2 & A2). exists e2, (hs ++ hs2), m. rewrite app_assoc. split_and!; try done; try lia; [by eapply reaped_app| |].
  - apply Forall_app_2; [done|]. eapply Forall_impl; [exact F2|]. intros h. by apply reaped_le with hs.
  - destruct A2 as [|A2]; [by left|]. destruct A1 as [Hz|A1]; [left; by apply (reaped_empty e1 hs2 e2)|right]. replace (Z.of_nat (S n)) with (1 + Z.of_nat n) by lia. by apply (advanced_trans 1 (Z.of_nat n) e hs e1 hs2 e2); try done; lia.
Qed.

(** The move a pass owes. *)
Lemma total_split e : index_ok sc e -> e_total e = slots_left e + slots_kept e /\ 0 <= slots_left e /\ 0 <= slots_kept e.
Proof using Type.
  intros [Hi|[Hm Hlt]]; unfold e_total, slots_left, slots_kept.
  - rewrite (idle_rehashing sc e Hi). destruct Hi as (-> & -> & _ & [-> |[H0 _]]); cbn; [lia|]. destruct (tab_ok_bounds sc _ H0) as (? & _). lia.
  - rewrite (moving_rehashing sc e 0 Hm). destruct Hm as (_ & H1 & ? & _). destruct (tab_ok_bounds sc _ H1) as (? & _). lia.
Qed.
Lemma owed_move e : index_ok sc e ->
  exists e1, (if e_rehashing e then migrate kMigrateSlotsPerOp sc e else Some e) = Some e1 /\ index_ok sc e1 /\ index_map sc e1 = index_map sc e /\
    slots_left e1 = Z.max 0 (slots_left e - 8) /\ slots_kept e1 = slots_kept e /\ (slots_left e = 0 -> e1 = e).
Proof using Type.
  intros [Hi|[Hm Hlt]].
  { unfold slots_left, slots_kept. rewrite (idle_rehashing sc e Hi). exists e. rewrite (idle_rehashing sc e Hi). split_and!; try done. by left. }
  assert (slots_left e = et_cap (e_t0 e) - e_migrate e /\ slots_kept e = et_cap (e_t1 e)) as [El Ef] by (unfold slots_left, slots_kept; by rewrite (moving_rehashing sc e 0 Hm)). rewrite El, Ef, (moving_rehashing sc e 0 Hm).
  pose proof (migrate_spec sc e Hm Hlt) as (e1 & E & M1 & Hc). exists e1. split; [done|]. split; [destruct Hc as [[? _]|[Hm' ?]]; [by left|right; split; [eapply moving_weaken; [done|lia]|done]]|]. split; [done|].
  unfold migrate, kMigrateSlotsPerOp in E. destruct (migrate_loop_spec sc 8 e 0 Hm ltac:(lia)) as (e2 & E2 & Hm2 & G2 & _ & C0 & C1). rewrite E2, some_bind in E. destruct (Z.leb_spec (et_cap (e_t0 e2)) (e_migrate e2)) as [Hle|Hgt].
  - unfold finish_migration in E. replace (Z.to_nat (et_cap (e_t0 e2) - e_migrate e2)) with 0%nat in E by lia. cbn [migrate_loop] in E. rewrite some_bind in E. injection E as <-. unfold slots_left, slots_kept, e_rehashing. cbn. lia.
  - injection E as <-. unfold slots_left, slots_kept. rewrite (moving_rehashing sc e2 _ Hm2). lia.
Qed.
Lemma one_pass_spec budget e x : index_ok sc e -> 0 <= budget ->
  exists e' hs n, sample (reap due) sc budget e x = Some (e', x ++ hs, n) /\ index_ok sc e' /\ 0 <= n <= budget /\
    reaped (index_map sc e) hs (index_map sc e') /\ Forall (fun h => is_Some (index_map sc e !! h)) hs /\
    (e_size e' = 0 \/ slots_left e' = Z.max 0 (slots_left e - 8) /\ slots_kept e' = slots_kept e /\ (slots_left e = 0 -> advanced budget e hs e')) /\
    (e_total e <= budget -> forall h, is_Some (index_map sc e !! h) -> h ∈ hs).
Proof using Type.
  intros Hok Hb. unfold sample. destruct (owed_move e Hok) as (e1 & -> & Hok1 & M1 & L1 & F1 & S1). rewrite some_bind. destruct (reap_loop (Z.to_nat budget) 0 e1 x Hok1) as (e2 & hs & m & -> & Hok2 & Hm & R2 & Fo & A2).
  rewrite Z2Nat.id in * by done. rewrite M1 in *. exists e2, hs, m. split_and!; try done; try lia.
  - destruct A2 as [|A2]; [by left|right]. pose proof A2 as [Hk _]. destruct (keeps_total _ _ Hk) as (_ & -> & ->). split_and!; try done. intros Hl. by rewrite <- (S1 Hl).
  - intros Ht h Hh. destruct A2 as [Hz|(_ & _ & Hcov)]; [by apply (empty_reported e hs e2)|]. destruct (total_split e Hok) as (Et & Hl & Hf), (total_split e1 Hok1) as (Et1 & _). rewrite <- M1 in Hh.
    destruct (cursor_covers sc e1 h Hok1 Hh) as (pos & Hpos & Hslot). apply (Hcov ((pos - norm_cursor e1) mod e_total e1) h).
    + pose proof (Z.mod_pos_bound (pos - norm_cursor e1) (e_total e1)). lia.
    + rewrite Zplus_mod_idemp_r. replace (norm_cursor e1 + (pos - norm_cursor e1)) with pos by lia. by rewrite Z.mod_small.
Qed.
Abbreviation sum := (foldr Z.add 0).
Definition passed_over (budgets : list Z) e (hs : list Z) e' : Prop :=
  index_ok sc e' /\ reaped (index_map sc e) hs (index_map sc e') /\ Forall (fun h => is_Some (index_map sc e !! h)) hs /\
  (e_size e' = 0 \/ slots_left e' = Z.max 0 (slots_left e - 8 * Z.of_nat (length budgets)) /\ slots_kept e' = slots_kept e /\ (slots_left e = 0 -> e_size e <> 0 -> advanced (sum budgets) e hs e')) /\
  ((exists b, b ∈ budgets /\ e_total e <= b) -> forall h, is_Some (index_map sc e !! h) -> h ∈ hs).
Lemma sum_nonneg budgets : Forall (fun b => 0 <= b) budgets -> 0 <= sum budgets.
Proof using Type. induction 1; cbn; lia. Qed.
Lemma passes_spec budgets e x : index_ok sc e -> Forall (fun b => 0 <= b) budgets ->
  exists e' hs ns, passes due sc budgets e x = Some (e', x ++ hs, ns) /\ Forall2 (fun b n => 0 <= n <= b) budgets ns /\ passed_over budgets e hs e'.
Proof using Type.
  intros Hok Hb. revert e x Hok. induction Hb as [|b budgets Hb Hbs IH]; intros e x Hok; cbn [passes].
  { exists e, [], []. rewrite app_nil_r. split; [done|]. split; [done|]. split; [done|]. split; [apply reaped_nil|]. split; [done|]. split; [right|intros (b & Hb & _); by apply not_elem_of_nil in Hb]. destruct (total_split e Hok) as (_ & ? & _). split; [cbn; lia|]. split; [done|]. intros _ Hs.
    pose proof (norm_range e Hok Hs). split; [by apply keeps_slots_refl|]. split; [cbn; rewrite Z.add_0_r; symmetry; by apply Z.mod_small|intros j h Hj; cbn in Hj; lia]. }
  destruct (one_pass_spec b e x Hok Hb) as (e1 & hs & n & -> & Hok1 & Hn & R1 & F1 & A1 & B1). rewrite some_bind. destruct (IH e1 (x ++ hs) Hok1) as (e2 & hs2 & ns & -> & Hns & Hok2 & R2 & F2 & A2 & B2). rewrite some_bind.
  exists e2, (hs ++ hs2), (n :: ns). rewrite app_assoc. split; [done|]. split; [by constructor|]. split; [done|]. split; [by eapply reaped_app|]. split; [|split].
  - apply Forall_app_2; [done|]. eapply Forall_impl; [exact F2|]. intros h. by apply reaped_le with hs.
  - destruct A2 as [|(L2 & G2 & A2)]; [by left|]. destruct A1 as [Hz|(L1 & G1 & A1)]; [left; by apply (reaped_empty e1 hs2 e2)|]. destruct (decide (e_size e1 = 0)); [left; by apply (reaped_empty e1 hs2 e2)|right]. split; [cbn [length]; lia|]. split; [congruence|].
    intros Hl Hs. cbn [foldr]. apply (advanced_trans b (sum budgets) e hs e1 hs2 e2); try done; [by apply sum_nonneg|by apply A1|]. apply A2; [lia|done].
  - intros (b' & Hin & Ht) h Hh. apply elem_of_app. apply elem_of_cons in Hin as [->|Hin]; [left; by apply B1|]. destruct (reaped_kept _ _ _ h R1 Hh) as [|Hh1]; [by left|right]. destruct A1 as [Hz|(L1 & G1 & _)].
    + apply (size_zero e1 Hok1) in Hz. rewrite Hz, lookup_empty in Hh1. by destruct Hh1.
    + apply B2; [|done]. exists b'. split; [done|]. destruct (total_split e Hok) as (? & ? & ?), (total_split e1 Hok1) as (? & ? & ?). lia.
Qed.
Lemma passes_app budgets budgets' e x e' x' ns : passes due sc (budgets ++ budgets') e x = Some (e', x', ns) ->
  exists e1 x1 ns1 ns2, passes due sc budgets e x = Some (e1, x1, ns1) /\ passes due sc budgets' e1 x1 = Some (e', x', ns2).
Proof using Type.
  revert e x ns. induction budgets as [|b budgets IH]; intros e x ns E; cbn [passes app] in *; [by eauto 8|]. destruct (sample _ _ _ _ _) as [[[e1 x1] n]|]; [|done]. rewrite some_bind in *. destruct (passes due sc (budgets ++ budgets') e1 x1) as [[[e2 x2] ns2]|] eqn:E2; [|done]. rewrite some_bind in E. injection E as <- <- _.
  destruct (IH e1 x1 ns2 E2) as (e3 & x3 & ns3 & ns4 & -> & H4). rewrite some_bind. by eauto 8.
Qed.
(** Once the move is over, passes that go round the table report everything. *)
Lemma settled_covers budgets e hs e' : index_ok sc e -> slots_left e = 0 -> slots_kept e <= sum budgets -> passed_over budgets e hs e' -> forall h, is_Some (index_map sc e !! h) -> h ∈ hs.
Proof using Type.
  intros Hok Hl Hf (Hok' & R & _ & A & _) h Hh. destruct (decide (e_size e = 0)) as [Hz|Hs]; [apply (size_zero e Hok) in Hz; rewrite Hz, lookup_empty in Hh; by destruct Hh|].
  destruct A as [Hz|(_ & _ & A)]; [by apply (empty_reported e hs e')|]. destruct (A Hl Hs) as (_ & _ & Hcov). destruct (total_split e Hok) as (Et & _). destruct (cursor_covers sc e h Hok Hh) as (pos & Hpos & Hslot). apply (Hcov ((pos - norm_cursor e) mod e_total e) h).
  - pose proof (Z.mod_pos_bound (pos - norm_cursor e) (e_total e)). lia.
  - rewrite Zplus_mod_idemp_r. replace (norm_cursor e + (pos - norm_cursor e)) with pos by lia. by rewrite Z.mod_small.
Qed.
End Passes.

(** C16: Active expiry does not overlook an entry.  Any sequence of sampling passes, whose callback
    erases the hashes that are due, runs without an access outside the tables; each pass examines at
    most its budget of slots; only hashes in the index are reported, and exactly the reported ones
    that are due are gone afterwards.  Every hash of the index is reported when one of the passes
    has a budget that reaches over both tables, and also when there are enough passes, however
    small: eight old slots are moved per pass, and once the move is over the budgets need only add
    up to the table, from whatever position the cursor was left at.  Between the passes the index
    is not changed otherwise. *)
Theorem expire_sample_covers sc due e budgets : index_ok sc e -> Forall (fun b => 0 <= b) budgets ->
  exists e' hs ns, passes due sc budgets e [] = Some (e', hs, ns) /\ Forall2 (fun b n => 0 <= n <= b) budgets ns /\ index_ok sc e' /\
    Forall (fun h => is_Some (index_map sc e !! h)) hs /\
    (forall h, index_map sc e' !! h = if decide (due h = true /\ h ∈ hs) then None else index_map sc e !! h) /\
    ((exists b, b ∈ budgets /\ e_total e <= b) \/
     (exists before after, budgets = before ++ after /\ slots_left e <= 8 * Z.of_nat (length before) /\ slots_kept e <= foldr Z.add 0 after) ->
     forall h, is_Some (index_map sc e !! h) -> h ∈ hs).
Proof.
  intros Hok Hb. destruct (passes_spec sc due budgets e [] Hok Hb) as (e' & hs & ns & E & Hns & Hp). cbn [app] in E. exists e', hs, ns. pose proof Hp as (Hok' & R & F & A & B). split_and!; try done.
  intros [Hbig|(before & after & -> & Hl & Hf)] h Hh; [by apply B|]. apply Forall_app in Hb as [Hb1 Hb2]. destruct (passes_app sc due _ _ _ _ _ _ _ E) as (e1 & x1 & ns1 & ns2 & E1 & E2).
  destruct (passes_spec sc due before e [] Hok Hb1) as (e1' & hs1 & ns1' & E1' & _ & Hok1 & R1 & _ & A1 & _). rewrite E1 in E1'. injection E1' as <- -> _. cbn [app] in E2.
  destruct (passes_spec sc due after e1 hs1 Hok1 Hb2) as (e2 & hs2 & ns2' & E2' & _ & Hp2). rewrite E2 in E2'. injection E2' as <- -> _. apply elem_of_app. destruct (reaped_kept due _ _ _ h R1 Hh) as [|Hh1]; [by left|right].
  destruct A1 as [Hz|(L1 & G1 & _)]; [apply (size_zero sc e1 Hok1) in Hz; rewrite Hz, lookup_empty in Hh1; by destruct Hh1|]. apply (settled_covers sc due after e1 hs2 e'); [done|lia|lia|done|done].
Qed.
(** Twenty-three entries, with a move in flight; the odd hashes are due.  Passes of four slots report all
    of them and leave the even ones. *)
Definition demo_index : ExpireIndex := match run_index true (take 23 witness_ops) e_new with Some (e, _) => e | None => e_new end.
Definition demo_budgets : list Z := replicate (Z.to_nat (slots_left demo_index)) 4 ++ replicate (Z.to_nat (slots_kept demo_index)) 4.
Lemma expire_sample_covers_witness :
  (e_rehashing demo_index = true /\ e_size demo_index = 23) /\
  exists e' hs ns, passes Z.odd true demo_budgets demo_index [] = Some (e', hs, ns) /\ 21 ∈ hs /\ index_map true e' !! 21 = None /\ is_Some (index_map true e' !! 14).
Proof.
  split; [vm_compute; done|]. assert (index_ok true demo_index /\ is_Some (index_map true demo_index !! 21) /\ is_Some (index_map true demo_index !! 14)) as (Hok & H21 & H14).
  { unfold demo_index. destruct (e_new_ok true) as [Hok Hm]. destruct (run_index_spec true (take 23 witness_ops) e_new Hok) as (e & rs & E & Hok' & _); [vm_compute; done|]. rewrite E. split; [done|].
    assert (match run_index true (take 23 witness_ops) e_new with Some (e, _) => bool_decide (is_Some (index_map true e !! 21) /\ is_Some (index_map true e !! 14)) | None => false end = true) as Hc by (vm_compute; reflexivity). rewrite E in Hc. by apply bool_decide_eq_true in Hc. }
  destruct (expire_sample_covers true Z.odd demo_index demo_budgets Hok) as (e' & hs & ns & E & _ & _ & _ & Hmap & Hcov); [apply Forall_app; split; by apply Forall_replicate|].
  assert (forall h, is_Some (index_map true demo_index !! h) -> h ∈ hs) as Hall.
  { apply Hcov. right. eexists _, _. split; [reflexivity|]. vm_compute. split; congruence. }
  exists e', hs, ns. split; [done|]. split; [by apply Hall|]. rewrite !Hmap. rewrite decide_True by (split; [done|by apply Hall]). split; [done|]. rewrite decide_False by (by intros [? _]). done.
Defined.
