(* ===== verification/Borrow.v ===== *)
(** flatstore.h, the borrow registry: which value bytes of a shard are lent to the wire.

    [borrows_] is a vector of entries found by pointer; from 32 entries on an open-addressed index
    over the same vector is kept, and dropped again whenever it cannot be maintained.  An entry may
    hold an object that was logically removed while its bytes were lent ([retired]); the last
    release destroys it.  [mem] answers the allocation of an index.  An access outside a vector is
    [None]. *)
From stdpp Require Import gmap.
From S2P Require Import Prelude Hash Probe.

Definition kNoBorrow : Z := 0xffffffff.
Definition kBorrowTomb : Z := 0xfffffffe.
Definition kBorrowIndexMin : Z := 32.

Record BorrowEntry := mkBorrow { b_ptr : Z; b_refs : Z; b_retired : option Z }.
Record Registry := mkReg { r_list : list BorrowEntry; r_idx : list Z; r_tombs : Z; r_outstanding : Z }.
Definition reg_new : Registry := mkReg [] [] 0 0.

Definition set_list (r : Registry) (l : list BorrowEntry) : Registry :=
  mkReg l (r_idx r) (r_tombs r) (r_outstanding r).
Definition set_idx (r : Registry) (idx : list Z) (tombs : Z) : Registry :=
  mkReg (r_list r) idx tombs (r_outstanding r).
Definition set_outstanding (r : Registry) (n : Z) : Registry :=
  mkReg (r_list r) (r_idx r) (r_tombs r) n.

Definition borrow_hash (ptr : Z) : Z := mix64 ptr.
Definition entry_ptr (r : Registry) (v : Z) : option Z :=
  if 0 <=? v then b_ptr <$> r_list r !! Z.to_nat v else None.

(** * Lookup *)
Fixpoint scan_find (l : list BorrowEntry) (i ptr : Z) : Z :=
  match l with
  | [] => kNoBorrow
  | b :: l => if b_ptr b =? ptr then i else scan_find l (i + 1) ptr
  end.
Fixpoint index_find (n : nat) (r : Registry) (ptr mask pos : Z) : option Z :=
  match n with
  | O => Some kNoBorrow
  | S n =>
      v ← mem_get (r_idx r) pos;
      if v =? kNoBorrow then Some kNoBorrow
      else
        hit ← (if negb (v =? kBorrowTomb) then p ← entry_ptr r v; Some (p =? ptr) else Some false);
        if hit : bool then Some v else index_find n r ptr mask (Z.land (pos + 1) mask)
  end.
Definition borrow_find (r : Registry) (ptr : Z) : option Z :=
  match r_idx r with
  | [] => Some (scan_find (r_list r) 0 ptr)
  | _ =>
      let mask := Z.of_nat (length (r_idx r)) - 1 in
      index_find (length (r_idx r)) r ptr mask (Z.land (borrow_hash ptr) mask)
  end.

(** * Maintaining the index *)
Definition borrow_index_release (r : Registry) : Registry := set_idx r [] 0.
Fixpoint put_loop (n : nat) (r : Registry) (ptr at_ mask pos first_tomb : Z) : option Registry :=
  match n with
  | O => Some (borrow_index_release r)
  | S n =>
      v ← mem_get (r_idx r) pos;
      if v =? kNoBorrow then
        let '(pos, tombs) := if negb (first_tomb =? Z.of_nat (length (r_idx r))) then (first_tomb, u32 (r_tombs r - 1))
                             else (pos, r_tombs r) in
        idx ← put (r_idx r) pos at_;
        Some (set_idx r idx tombs)
      else if v =? kBorrowTomb then
        put_loop n r ptr at_ mask (Z.land (pos + 1) mask)
          (if first_tomb =? Z.of_nat (length (r_idx r)) then pos else first_tomb)
      else
        p ← entry_ptr r v;
        if p =? ptr then idx ← put (r_idx r) pos at_; Some (set_idx r idx (r_tombs r))
        else put_loop n r ptr at_ mask (Z.land (pos + 1) mask) first_tomb
  end.
Definition borrow_index_put (r : Registry) (ptr at_ : Z) : option Registry :=
  match r_idx r with
  | [] => Some r
  | _ =>
      let cap := Z.of_nat (length (r_idx r)) in
      put_loop (length (r_idx r)) r ptr at_ (cap - 1) (Z.land (borrow_hash ptr) (cap - 1)) cap
  end.
Fixpoint dropped_loop (n : nat) (r : Registry) (ptr mask pos : Z) : option Registry :=
  match n with
  | O => Some r
  | S n =>
      v ← mem_get (r_idx r) pos;
      if v =? kNoBorrow then Some r
      else
        hit ← (if negb (v =? kBorrowTomb) then p ← entry_ptr r v; Some (p =? ptr) else Some false);
        if hit : bool then idx ← put (r_idx r) pos kBorrowTomb; Some (set_idx r idx (u32 (r_tombs r + 1)))
        else dropped_loop n r ptr mask (Z.land (pos + 1) mask)
  end.
Definition borrow_index_dropped (r : Registry) (ptr : Z) : option Registry :=
  match r_idx r with
  | [] => Some r
  | _ =>
      let mask := Z.of_nat (length (r_idx r)) - 1 in
      dropped_loop (length (r_idx r)) r ptr mask (Z.land (borrow_hash ptr) mask)
  end.

(** The capacity search of [borrow_index_rebuild]; it doubles at most 64 times. *)
Fixpoint rebuild_cap (fuel : nat) (max_size cap wanted : Z) : option (option Z) :=
  match fuel with
  | O => None
  | S fuel =>
      if UINT64_MAX / 70 <? cap then Some None
      else if wanted <=? cap * 70 then Some (Some cap)
      else if max_size / 2 <? cap then Some None
      else rebuild_cap fuel max_size (cap * 2) wanted
  end.
(** [while (fresh[pos] != kNoBorrow) pos = (pos + 1) & mask]: at most one turn over the table. *)
Fixpoint rebuild_slot (fuel : nat) (fresh : list Z) (mask pos : Z) : option Z :=
  match fuel with
  | O => None
  | S fuel =>
      v ← mem_get fresh pos;
      if negb (v =? kNoBorrow) then rebuild_slot fuel fresh mask (Z.land (pos + 1) mask) else Some pos
  end.
Fixpoint rebuild_fill (l : list BorrowEntry) (i : Z) (fresh : list Z) : option (list Z) :=
  match l with
  | [] => Some fresh
  | b :: l =>
      let mask := Z.of_nat (length fresh) - 1 in
      pos ← rebuild_slot (length fresh) fresh mask (Z.land (borrow_hash (b_ptr b)) mask);
      fresh ← put fresh pos i;
      rebuild_fill l (i + 1) fresh
  end.
Definition vector_max : Z := 2 ^ 61 - 1.   (* std::vector<uint32_t>::max_size() *)
Definition borrow_index_rebuild (mem : bool) (r : Registry) : option (Registry * bool) :=
  let occupancy := Z.of_nat (length (r_list r)) in
  if UINT64_MAX / 200 <? occupancy then Some (r, false)
  else
    c ← rebuild_cap 64 vector_max 64 (occupancy * 200);
    match c with
    | None => Some (r, false)
    | Some cap =>
        if mem then
          fresh ← rebuild_fill (r_list r) 0 (replicate (Z.to_nat cap) kNoBorrow);
          Some (set_idx r fresh 0, true)
        else Some (r, false)
    end.
Definition borrow_index_added (mem : bool) (r : Registry) (ptr at_ : Z) : option Registry :=
  match r_idx r with
  | [] =>
      if Z.of_nat (length (r_list r)) <? kBorrowIndexMin then Some r
      else '(r, _) ← borrow_index_rebuild mem r; Some r
  | _ =>
      '(r, done_) ← (if Z.of_nat (length (r_idx r)) * 70 <=? (Z.of_nat (length (r_list r)) + r_tombs r) * 100
                     then borrow_index_rebuild mem r else Some (r, false));
      if done_ : bool then Some r else borrow_index_put r ptr at_
  end.

(** * Operations *)
Definition borrow (mem : bool) (r : Registry) (ptr : Z) : option Registry :=
  at_ ← borrow_find r ptr;
  if negb (at_ =? kNoBorrow) then
    b ← r_list r !! Z.to_nat at_;
    l ← put (r_list r) at_ (mkBorrow (b_ptr b) (u32 (b_refs b + 1)) (b_retired b));
    Some (set_outstanding (set_list r l) (u32 (r_outstanding r + 1)))
  else
    let r := set_list r (r_list r ++ [mkBorrow ptr 1 None]) in
    r ← borrow_index_added mem r ptr (u32 (Z.of_nat (length (r_list r)) - 1));
    Some (set_outstanding r (u32 (r_outstanding r + 1))).
(** The end of [unborrow]: the entry at [i], whose count is zero, leaves vector and index. *)
Definition remove_entry (r : Registry) (i ptr : Z) : option Registry :=
  r ← borrow_index_dropped r ptr;
  let last_ := u32 (Z.of_nat (length (r_list r)) - 1) in
  r ← (if negb (i =? last_) then
         e ← r_list r !! Z.to_nat last_;
         l ← put (r_list r) i e;
         borrow_index_put (set_list r l) (b_ptr e) i
       else Some r);
  let r := set_list r (take (length (r_list r) - 1) (r_list r)) in
  Some (match r_list r with [] => borrow_index_release r | _ => r end).
(** [unborrow]; the second component is the retired object it destroys. *)
Definition unborrow (r : Registry) (ptr : Z) : option (Registry * option Z) :=
  at_ ← borrow_find r ptr;
  if at_ =? kNoBorrow then Some (r, None)
  else
    b ← r_list r !! Z.to_nat at_;
    if (b_refs b =? 0) || (r_outstanding r =? 0) then Some (r, None)
    else
      let b := mkBorrow (b_ptr b) (b_refs b - 1) (b_retired b) in
      l ← put (r_list r) at_ b;
      let r := set_outstanding (set_list r l) (r_outstanding r - 1) in
      if negb (b_refs b =? 0) then Some (r, None)
      else
        r ← remove_entry r at_ ptr;
        Some (r, b_retired b).
(** [borrows_[at].retired = o] of [retire_obj], when the pointer is lent. *)
Definition mark_retired (r : Registry) (ptr obj : Z) : option (Registry * bool) :=
  at_ ← borrow_find r ptr;
  if negb (at_ =? kNoBorrow) then
    b ← r_list r !! Z.to_nat at_;
    l ← put (r_list r) at_ (mkBorrow (b_ptr b) (b_refs b) (Some obj));
    Some (set_list r l, true)
  else Some (r, false).

(** * The index as a table *)
Definition bview (l : list BorrowEntry) (v : Z) : Slot Z Z :=
  if v =? kNoBorrow then SEmpty
  else if v =? kBorrowTomb then STomb
  else match (if 0 <=? v then l !! Z.to_nat v else None) with Some b => SLive (b_ptr b) v | None => STomb end.
Definition b_slots (l : list BorrowEntry) (idx : list Z) : list (Slot Z Z) := bview l <$> idx.
Definition b_home (n : nat) (ptr : Z) : Z := Z.land (borrow_hash ptr) (Z.of_nat n - 1).
Definition idx_word (l : list BorrowEntry) (v : Z) : Prop :=
  v = kNoBorrow \/ v = kBorrowTomb \/ 0 <= v < Z.of_nat (length l).
(** The index [idx] over the vector [l] stands for the map [M] from pointers to positions. *)
Definition idx_rep (l : list BorrowEntry) (idx : list Z) (tombs : Z) (M : gmap Z Z) : Prop :=
  (exists k, 6 <= k <= 31 /\ Z.of_nat (length idx) = 2 ^ k) /\ Forall (idx_word l) idx /\
  Z.of_nat (length l) <= 2 ^ 28 /\
  probe_ok (b_home (length idx)) (b_slots l idx) /\ slots_map (b_slots l idx) = M /\
  tombs = count_if is_tomb (b_slots l idx).

Section IndexLemmas.
Implicit Types (l : list BorrowEntry) (idx : list Z) (M : gmap Z Z) (p v : Z).

Lemma b_slots_length l idx : length (b_slots l idx) = length idx.
Proof. apply length_fmap. Qed.
Lemma bview_live l v b : Z.of_nat (length l) <= 2 ^ 28 -> 0 <= v -> l !! Z.to_nat v = Some b -> bview l v = SLive (b_ptr b) v.
Proof.
  change (2 ^ 28) with 268435456. intros Hl Hv Hb. pose proof (lookup_lt_Some _ _ _ Hb). unfold bview, kNoBorrow, kBorrowTomb.
  rewrite !(proj2 (Z.eqb_neq v _)), (proj2 (Z.leb_le 0 v)), Hb by lia. done.
Qed.
(** Reading one slot of the index. *)
Lemma idx_slot l idx M tombs pos : idx_rep l idx tombs M -> 0 <= pos < Z.of_nat (length idx) ->
  exists v, mem_get idx pos = Some v /\ b_slots l idx !! Z.to_nat pos = Some (bview l v) /\
    (v = kNoBorrow /\ bview l v = SEmpty \/ v = kBorrowTomb /\ bview l v = STomb \/
     exists b, 0 <= v < Z.of_nat (length l) /\ (v =? kNoBorrow) = false /\ (v =? kBorrowTomb) = false /\
       l !! Z.to_nat v = Some b /\ bview l v = SLive (b_ptr b) v).
Proof.
  intros (_ & Hw & Hl & _) Hpos. destruct (lookup_lt_is_Some_2 idx (Z.to_nat pos)) as [v Hv]; [lia|].
  exists v. split_and!; [apply get_Some; [lia|done]|unfold b_slots; by rewrite list_lookup_fmap, Hv|].
  destruct (Forall_lookup_1 _ _ _ _ Hw Hv) as [->|[->|Hr]]; [by left|by right; left|right; right].
  destruct (lookup_lt_is_Some_2 l (Z.to_nat v)) as [b Hb]; [lia|]. exists b.
  change (2 ^ 28) with 268435456 in Hl. unfold kNoBorrow, kBorrowTomb. rewrite !(proj2 (Z.eqb_neq v _)) by lia.
  split_and!; try done; try lia. apply bview_live; [done|lia|done].
Qed.
Lemma idx_pos l idx M tombs p d : idx_rep l idx tombs M -> 0 <= d ->
  let n := Z.of_nat (length idx) in let pos := (b_home (length idx) p + d) mod n in
  path (b_slots l idx) (b_home (length idx) p) d = Z.to_nat pos /\ 0 <= pos < n /\
  Z.land (pos + 1) (n - 1) = (b_home (length idx) p + (d + 1)) mod n /\ 64 <= n <= 2 ^ 31 /\
  Z.of_nat (length (b_slots l idx)) = n.
Proof.
  intros ((k & Hk & Hn) & _) Hd n pos.
  assert (64 <= n <= 2 ^ 31) as Hb by (unfold n; rewrite Hn; split; [change 64 with (2 ^ 6)|]; apply Z.pow_le_mono_r; lia).
  split_and!; try lia; try (apply Z.mod_pos_bound; lia).
  - unfold path. by rewrite b_slots_length.
  - unfold pos, n. rewrite Hn. by apply next_index; lia.
  - unfold n. by rewrite b_slots_length.
Qed.
Lemma idx_start l idx M tombs p : idx_rep l idx tombs M ->
  Z.land (borrow_hash p) (Z.of_nat (length idx) - 1) = (b_home (length idx) p + 0) mod Z.of_nat (length idx).
Proof.
  intros ((k & Hk & Hn) & _). unfold b_home. rewrite Hn, Z.add_0_r, !land_ones_mod by lia.
  by rewrite Z.mod_mod by (apply Z.pow_nonzero; lia).
Qed.

(** One step of a search for a pointer: what the word at that position says. *)
Inductive idx_look (r : Registry) M p d v : Prop :=
| look_empty : v = kNoBorrow -> M !! p = None -> bview (r_list r) v = SEmpty -> idx_look r M p d v
| look_tomb : v = kBorrowTomb -> bview (r_list r) v = STomb ->
    passed (b_home (length (r_idx r))) (b_slots (r_list r) (r_idx r)) p (d + 1) -> idx_look r M p d v
| look_hit : v <> kNoBorrow -> v <> kBorrowTomb -> entry_ptr r v = Some p -> M !! p = Some v ->
    bview (r_list r) v = SLive p v -> idx_look r M p d v
| look_other q : v <> kNoBorrow -> v <> kBorrowTomb -> entry_ptr r v = Some q -> q <> p ->
    passed (b_home (length (r_idx r))) (b_slots (r_list r) (r_idx r)) p (d + 1) -> idx_look r M p d v.
Lemma idx_cases r M p d :
  let n := Z.of_nat (length (r_idx r)) in let pos := (b_home (length (r_idx r)) p + d) mod n in
  idx_rep (r_list r) (r_idx r) (r_tombs r) M ->
  passed (b_home (length (r_idx r))) (b_slots (r_list r) (r_idx r)) p d -> 0 <= d < n ->
  exists v, mem_get (r_idx r) pos = Some v /\ idx_look r M p d v /\
    b_slots (r_list r) (r_idx r) !! Z.to_nat pos = Some (bview (r_list r) v).
Proof.
  intros n pos Hrep Hp Hd. pose proof Hrep as (_ & _ & _ & Hpr & HM & _).
  destruct (idx_pos (r_list r) (r_idx r) M _ p d Hrep ltac:(lia)) as (Hpath & Hr & _ & _ & Hlen). fold n pos in Hpath, Hr, Hlen.
  destruct (idx_slot (r_list r) (r_idx r) M _ pos Hrep Hr) as (v & Ev & Hv & Hc). exists v. split; [done|]. split; [|done].
  destruct (probe_cases (b_home (length (r_idx r))) (b_slots (r_list r) (r_idx r)) p d Hpr ltac:(lia) Hp) as [E A|w E A|E P|q w E Hne P];
    rewrite Hpath, Hv in E; injection E as E; try (rewrite HM in A);
    destruct Hc as [[-> Hx]|[[-> Hx]|(b & Hvr & E1 & E2 & Hbl & Hx)]]; try congruence.
  - by apply look_empty.
  - rewrite E in Hx. injection Hx as -> ->. zcmp. apply look_hit; try done. unfold entry_ptr.
    by rewrite (proj2 (Z.leb_le 0 v)), Hbl by lia.
  - by apply look_tomb.
  - rewrite E in Hx. injection Hx as -> ->. zcmp. apply (look_other _ _ _ _ _ (b_ptr b)); try done. unfold entry_ptr.
    by rewrite (proj2 (Z.leb_le 0 v)), Hbl by lia.
Qed.
Ltac eqb_rw := repeat match goal with
  | H : ?v <> ?c |- context [?v =? ?c] => rewrite (proj2 (Z.eqb_neq v c) H); cbn [negb]
  | |- context [?v =? ?v] => rewrite (Z.eqb_refl v); cbn [negb] end.

Lemma index_find_spec r M n d p :
  idx_rep (r_list r) (r_idx r) (r_tombs r) M ->
  passed (b_home (length (r_idx r))) (b_slots (r_list r) (r_idx r)) p d -> 0 <= d ->
  d + Z.of_nat n = Z.of_nat (length (r_idx r)) ->
  index_find n r p (Z.of_nat (length (r_idx r)) - 1) ((b_home (length (r_idx r)) p + d) mod Z.of_nat (length (r_idx r))) =
    Some (default kNoBorrow (M !! p)).
Proof.
  intros Hrep. pose proof Hrep as (_ & _ & _ & Hpr & HM & _).
  revert d. induction n as [|n IH]; intros d Hp Hd Hn; cbn [index_find];
    destruct (idx_pos _ _ M _ p d Hrep Hd) as (_ & _ & Hnext & _ & Hlen).
  { rewrite <- HM, (passed_absent (b_home (length (r_idx r))) (b_slots (r_list r) (r_idx r)) p d); [done|done|lia|done|left; lia]. }
  destruct (idx_cases r M p d Hrep Hp ltac:(lia)) as (v & -> & Hc & _). rewrite some_bind.
  destruct Hc as [-> A _| -> _ P|H1 H2 E A _|q H1 H2 E Hne P].
  - by rewrite A.
  - cbn [negb kNoBorrow kBorrowTomb Z.eqb Pos.eqb]. rewrite some_bind, Hnext. apply IH; [done|lia..].
  - eqb_rw. rewrite E, !some_bind. eqb_rw. by rewrite A.
  - eqb_rw. rewrite E, !some_bind. eqb_rw. rewrite Hnext. apply IH; [done|lia..].
Qed.

(** A word of the index overwritten. *)
Lemma b_slots_put l idx i v : b_slots l (<[i := v]> idx) = <[i := bview l v]> (b_slots l idx).
Proof. unfold b_slots. by rewrite list_fmap_insert. Qed.
Lemma tombs_bound l idx M tombs : idx_rep l idx tombs M -> 0 <= tombs <= 2 ^ 31.
Proof.
  intros Hrep. destruct (idx_pos l idx M _ 0 0 Hrep ltac:(lia)) as (_ & _ & _ & Hb & Hlen).
  destruct Hrep as (_ & _ & _ & _ & _ & ->). pose proof (count_if_nonneg is_tomb (b_slots l idx)). lia.
Qed.
Lemma dropped_spec r M n d p :
  idx_rep (r_list r) (r_idx r) (r_tombs r) M ->
  passed (b_home (length (r_idx r))) (b_slots (r_list r) (r_idx r)) p d -> 0 <= d ->
  d + Z.of_nat n = Z.of_nat (length (r_idx r)) ->
  exists idx tombs, dropped_loop n r p (Z.of_nat (length (r_idx r)) - 1)
      ((b_home (length (r_idx r)) p + d) mod Z.of_nat (length (r_idx r))) = Some (set_idx r idx tombs) /\
    idx_rep (r_list r) idx tombs (delete p M).
Proof.
  intros Hrep. pose proof Hrep as (Hk & Hw & Hl & Hpr & HM & Ht).
  assert (M !! p = None -> exists idx tombs, Some r = Some (set_idx r idx tombs) /\ idx_rep (r_list r) idx tombs (delete p M)) as Hnone.
  { intros A. exists (r_idx r), (r_tombs r). rewrite delete_id by done. split; [by destruct r|done]. }
  revert d. induction n as [|n IH]; intros d Hp Hd Hn; cbn [dropped_loop];
    destruct (idx_pos _ _ M _ p d Hrep Hd) as (_ & Hr & Hnext & Hb & Hlen).
  { apply Hnone. rewrite <- HM. apply (passed_absent (b_home (length (r_idx r))) (b_slots (r_list r) (r_idx r)) p d); [done|lia|done|left; lia]. }
  destruct (idx_cases r M p d Hrep Hp ltac:(lia)) as (v & -> & Hc & Hv). rewrite some_bind.
  destruct Hc as [-> A _| -> _ P|H1 H2 E A Hx|q H1 H2 E Hne P].
  - by apply Hnone.
  - cbn [negb kNoBorrow kBorrowTomb Z.eqb Pos.eqb]. rewrite some_bind, Hnext. apply IH; [done|lia..].
  - eqb_rw. rewrite E, !some_bind. eqb_rw. rewrite put_Some by lia. rewrite some_bind. do 2 eexists. split; [done|].
    set (i := Z.to_nat _) in *. rewrite Hx in Hv.
    destruct (probe_remove (b_home (length (r_idx r))) _ i p v Hpr Hv) as [Hpr' HM'].
    pose proof (count_if_insert is_tomb _ _ (bview (r_list r) kBorrowTomb) _ Hv) as Ct. cbn [is_tomb Z.b2z bview] in Ct.
    unfold idx_rep. rewrite length_insert, b_slots_put. change (bview (r_list r) kBorrowTomb) with (@STomb Z Z) in *.
    split_and!; try done.
    + apply Forall_insert; [done|]. by right; left.
    + by rewrite HM', HM.
    + pose proof (tombs_bound _ _ _ _ Hrep) as Htb. change (2 ^ 31) with 2147483648 in Htb. rewrite u32_small by lia.
      rewrite Ht. cbn [is_tomb Z.b2z] in Ct. lia.
  - eqb_rw. rewrite E, !some_bind. eqb_rw. rewrite Hnext. apply IH; [done|lia..].
Qed.

(** What an index operation leaves: a table for [M], or no index at all. *)
Definition index_of (r : Registry) M (r' : Registry) : Prop :=
  exists idx tombs, r' = set_idx r idx tombs /\
    (idx = [] /\ tombs = 0 \/ idx <> [] /\ idx_rep (r_list r) idx tombs M).
Lemma idx_rep_nonempty l idx tombs M : idx_rep l idx tombs M -> idx <> [].
Proof. intros ((k & Hk & Hn) & _) ->. pose proof (Z.pow_pos_nonneg 2 k). cbn in Hn. lia. Qed.

(** The pointer written into slot [e] of its path: over an empty slot, a tombstone or itself. *)
Lemma put_at r M p at_ b e x tombs' :
  idx_rep (r_list r) (r_idx r) (r_tombs r) M -> r_list r !! Z.to_nat at_ = Some b -> b_ptr b = p -> 0 <= at_ ->
  let pos := (b_home (length (r_idx r)) p + e) mod Z.of_nat (length (r_idx r)) in
  0 <= e < Z.of_nat (length (r_idx r)) ->
  b_slots (r_list r) (r_idx r) !! Z.to_nat pos = Some x ->
  (is_live x = false /\ M !! p = None /\ passed (b_home (length (r_idx r))) (b_slots (r_list r) (r_idx r)) p e \/
   exists v, x = SLive p v) ->
  tombs' = r_tombs r - Z.b2z (is_tomb x) ->
  index_of r (<[p := at_]> M) (set_idx r (<[Z.to_nat pos := at_]> (r_idx r)) tombs').
Proof.
  intros Hrep Hat Hb Ha pos He Hx Hc Ht'. pose proof Hrep as (Hk & Hw & Hl & Hpr & HM & Ht).
  destruct (idx_pos _ _ M _ p e Hrep ltac:(lia)) as (Hpath & Hr & _ & Hcap & Hlen). fold pos in Hpath, Hr.
  assert (bview (r_list r) at_ = SLive p at_) as Hv by (rewrite <- Hb; apply bview_live; done).
  pose proof (count_if_insert is_tomb _ _ (SLive p at_) _ Hx) as Ct. cbn [is_tomb Z.b2z] in Ct.
  assert (probe_ok (b_home (length (r_idx r))) (<[Z.to_nat pos := SLive p at_]> (b_slots (r_list r) (r_idx r))) /\
          slots_map (<[Z.to_nat pos := SLive p at_]> (b_slots (r_list r) (r_idx r))) = <[p := at_]> M) as [Hpr' HM'].
  { rewrite <- HM. destruct Hc as [(Hfree & Hn & Hp)|[v ->]]; [|by apply (probe_replace _ _ _ p v)].
    rewrite <- Hpath in Hx |- *. apply (probe_fill _ _ e p at_ x); try done; [by rewrite HM|lia]. }
  do 2 eexists. split; [done|]. right. split.
  { intros E. apply (f_equal length) in E. rewrite length_insert in E. cbn in E. lia. }
  unfold idx_rep. rewrite length_insert, b_slots_put, Hv. split_and!; try done; [|rewrite Ht', Ht; lia].
  apply Forall_insert; [done|]. right; right. apply lookup_lt_Some in Hat. lia.
Qed.
Lemma put_loop_spec r M n d p at_ b ft :
  idx_rep (r_list r) (r_idx r) (r_tombs r) M -> r_list r !! Z.to_nat at_ = Some b -> b_ptr b = p -> 0 <= at_ ->
  let n0 := Z.of_nat (length (r_idx r)) in
  passed (b_home (length (r_idx r))) (b_slots (r_list r) (r_idx r)) p d ->
  (ft = n0 \/ exists e, 0 <= e < d /\ ft = (b_home (length (r_idx r)) p + e) mod n0 /\
     b_slots (r_list r) (r_idx r) !! Z.to_nat ft = Some STomb) ->
  0 <= d -> d + Z.of_nat n = n0 ->
  exists r', put_loop n r p at_ (n0 - 1) ((b_home (length (r_idx r)) p + d) mod n0) ft = Some r' /\
    index_of r (<[p := at_]> M) r'.
Proof.
  intros Hrep Hat Hb Ha n0. pose proof Hrep as (_ & _ & _ & Hpr & HM & Ht).
  pose proof (tombs_bound _ _ _ _ Hrep) as Htb. change (2 ^ 31) with 2147483648 in Htb.
  revert d ft. induction n as [|n IH]; intros d ft Hp Hft Hd Hn; cbn [put_loop].
  { eexists. split; [done|]. exists [], 0. split; [done|by left]. }
  destruct (idx_pos _ _ M _ p d Hrep Hd) as (_ & Hr & Hnext & Hcap & Hlen). fold n0 in Hr, Hnext, Hcap, Hlen.
  destruct (idx_cases r M p d Hrep Hp ltac:(lia)) as (v & Ev & Hc & Hv). fold n0 in Ev, Hv. rewrite Ev, some_bind.
  destruct Hc as [-> A Hx| -> Hx P|H1 H2 E A Hx|q H1 H2 E Hne P].
  - cbn [kNoBorrow Z.eqb Pos.eqb]. rewrite Hx in Hv. destruct Hft as [-> | (e & He & Eft & Htb')].
    + fold n0. rewrite Z.eqb_refl. cbn [negb]. rewrite put_Some by (fold n0; lia). rewrite some_bind. eexists. split; [done|].
      apply (put_at r M p at_ b d SEmpty); try done; [lia|left; done|cbn; lia].
    + destruct (idx_pos _ _ M _ p e Hrep ltac:(lia)) as (_ & Hre & _). fold n0 in Hre. rewrite <- Eft in Hre. fold n0.
      rewrite (proj2 (Z.eqb_neq ft n0)) by lia. cbn [negb]. rewrite put_Some by (fold n0; lia). rewrite some_bind.
      eexists. split; [done|]. rewrite Eft. rewrite Eft in Htb'.
      pose proof (count_if_insert is_tomb _ _ SEmpty _ Htb') as Ct.
      pose proof (count_if_nonneg is_tomb (<[Z.to_nat ((b_home (length (r_idx r)) p + e) mod n0):=SEmpty]> (b_slots (r_list r) (r_idx r)))).
      cbn [is_tomb Z.b2z] in Ct.
      apply (put_at r M p at_ b e STomb); try done; [lia| |rewrite u32_small; cbn [is_tomb Z.b2z]; lia].
      left. split_and!; [done|done|]. intros e' He'. apply Hp. lia.
  - cbn [kNoBorrow kBorrowTomb Z.eqb Pos.eqb]. rewrite Hnext. apply IH; [done| |lia|lia]. fold n0.
    destruct (ft =? n0) eqn:Ef.
    + right. exists d. rewrite Hv, Hx. split_and!; done || lia.
    + destruct Hft as [->|(e & He & ?)]; [by rewrite Z.eqb_refl in Ef|]. right. exists e. split; [lia|done].
  - eqb_rw. rewrite E, some_bind. eqb_rw. rewrite put_Some by (fold n0; lia). rewrite some_bind. eexists. split; [done|].
    rewrite Hx in Hv. apply (put_at r M p at_ b d (SLive p v)); try done; [lia|by right; exists v|cbn; lia].
  - eqb_rw. rewrite E, some_bind. eqb_rw. rewrite Hnext. apply IH; [done| |lia|lia].
    destruct Hft as [->|(e & He & ?)]; [by left|]. right. exists e. split; [lia|done].
Qed.
Lemma index_put_spec r M p at_ b :
  idx_rep (r_list r) (r_idx r) (r_tombs r) M -> r_list r !! Z.to_nat at_ = Some b -> b_ptr b = p -> 0 <= at_ ->
  exists r', borrow_index_put r p at_ = Some r' /\ index_of r (<[p := at_]> M) r'.
Proof.
  intros Hrep Hat Hb Ha. unfold borrow_index_put. pose proof (idx_rep_nonempty _ _ _ _ Hrep) as Hne.
  destruct (r_idx r) as [|x t] eqn:E; [done|]. rewrite <- E in *. rewrite (idx_start _ _ _ _ p Hrep).
  apply (put_loop_spec r M _ 0 p at_ b); try done; (apply passed_0 || by left).
Qed.

(** ** Rebuilding *)
(** The entries before position [i]. *)
Definition ptr_map l (i : nat) : gmap Z Z :=
  list_to_map (imap (fun j b => (b_ptr b, Z.of_nat j)) (take i l)).
Definition ptrs l : list Z := b_ptr <$> l.
Lemma ptr_map_lookup l i p v : NoDup (ptrs l) ->
  ptr_map l i !! p = Some v <-> exists b, 0 <= v < Z.of_nat i /\ l !! Z.to_nat v = Some b /\ b_ptr b = p.
Proof.
  intros Hnd. unfold ptr_map. rewrite <- elem_of_list_to_map.
  - rewrite list_elem_of_lookup. split.
    + intros [j Hj]. rewrite list_lookup_imap in Hj. destruct (take i l !! j) as [b|] eqn:Eb; [|done]. cbn in Hj. injection Hj as <- <-.
      apply lookup_take_Some in Eb as [Eb Hlt]. exists b. rewrite Nat2Z.id. split_and!; done || lia.
    + intros (b & Hr & Hl & <-). exists (Z.to_nat v). rewrite list_lookup_imap, lookup_take_lt, Hl by lia. cbn.
      by rewrite Z2Nat.id by lia.
  - assert ((imap (fun j b => (b_ptr b, Z.of_nat j)) (take i l)).*1 = ptrs (take i l)) as ->.
    { unfold ptrs. generalize (take i l) as t. intros t. apply list_eq. intros j.
      rewrite !list_lookup_fmap, list_lookup_imap. by destruct (t !! j). }
    unfold ptrs. rewrite fmap_take. by apply NoDup_take || (eapply sublist_NoDup; [|apply sublist_take]; done).
Qed.
Lemma ptr_map_S l i b : NoDup (ptrs l) -> l !! i = Some b -> ptr_map l (S i) = <[b_ptr b := Z.of_nat i]> (ptr_map l i) /\
  ptr_map l i !! b_ptr b = None.
Proof.
  intros Hnd Hi. assert (ptr_map l i !! b_ptr b = None) as Hn.
  { apply eq_None_not_Some. intros [v Hv]. apply ptr_map_lookup in Hv as (b' & Hr & Hl & Hp); [|done].
    assert (Z.to_nat v = i) as Heq; [|lia]. eapply NoDup_lookup; [exact Hnd|..]; unfold ptrs; rewrite list_lookup_fmap.
    - rewrite Hl. cbn. by rewrite Hp.
    - by rewrite Hi. }
  split; [|done]. apply map_eq. intros p. apply option_eq. intros v.
  rewrite ptr_map_lookup, lookup_insert_Some, ptr_map_lookup by done. split.
  - intros (b' & Hr & Hl & <-). destruct (decide (v = Z.of_nat i)) as [->|].
    + rewrite Nat2Z.id in Hl. left. split; [congruence|done].
    + right. split; [|exists b'; split_and!; done || lia]. intros Heq.
      assert (Z.to_nat v = i) as Hvi; [|lia]. eapply NoDup_lookup; [exact Hnd|..]; unfold ptrs; rewrite list_lookup_fmap.
      * rewrite Hl. cbn. by rewrite <- Heq.
      * by rewrite Hi.
  - intros [[<- <-]|[_ (b' & Hr & Hl & Hp)]]; [exists b; rewrite Nat2Z.id; split_and!; done || lia|].
    exists b'. split_and!; done || lia.
Qed.

Lemma ptr_map_size l i : NoDup (ptrs l) -> (i <= length l)%nat -> size (ptr_map l i) = i.
Proof.
  intros Hnd. induction i as [|i IH]; intros Hi; [done|].
  destruct (lookup_lt_is_Some_2 l i) as [b Hb]; [lia|]. destruct (ptr_map_S l i b Hnd Hb) as [-> Hn].
  rewrite map_size_insert_None by done. rewrite IH; lia.
Qed.
Lemma rebuild_slot_spec r M n d p :
  idx_rep (r_list r) (r_idx r) 0 M -> r_tombs r = 0 -> M !! p = None -> Z.of_nat (size M) < Z.of_nat (length (r_idx r)) ->
  passed (b_home (length (r_idx r))) (b_slots (r_list r) (r_idx r)) p d -> 0 <= d ->
  d + Z.of_nat n = Z.of_nat (length (r_idx r)) ->
  exists e, 0 <= e < Z.of_nat (length (r_idx r)) /\
    rebuild_slot n (r_idx r) (Z.of_nat (length (r_idx r)) - 1)
      ((b_home (length (r_idx r)) p + d) mod Z.of_nat (length (r_idx r))) =
      Some ((b_home (length (r_idx r)) p + e) mod Z.of_nat (length (r_idx r))) /\
    passed (b_home (length (r_idx r))) (b_slots (r_list r) (r_idx r)) p e /\
    b_slots (r_list r) (r_idx r) !! Z.to_nat ((b_home (length (r_idx r)) p + e) mod Z.of_nat (length (r_idx r))) = Some SEmpty.
Proof.
  intros Hrep0 Ht0 Hn Hsz. assert (idx_rep (r_list r) (r_idx r) (r_tombs r) M) as Hrep by by rewrite Ht0.
  pose proof Hrep0 as (_ & _ & _ & Hpr & HM & Ht). revert d. induction n as [|n IH]; intros d Hp Hd Hl; cbn [rebuild_slot].
  { exfalso. pose proof (count_split (b_slots (r_list r) (r_idx r))) as Hc. rewrite b_slots_length in Hc.
    rewrite <- (slots_map_size _ (proj1 Hpr)), HM, <- Ht in Hc.
    rewrite (passed_round (b_home (length (r_idx r))) (b_slots (r_list r) (r_idx r)) p) in Hc; [lia|].
    rewrite b_slots_length. replace (Z.of_nat (length (r_idx r))) with d by lia. done. }
  destruct (idx_pos _ _ M _ p d Hrep Hd) as (_ & _ & Hnext & _ & _).
  destruct (idx_cases r M p d Hrep Hp ltac:(lia)) as (v & -> & Hc & Hv). rewrite some_bind.
  destruct Hc as [-> A Hx| -> Hx P|H1 H2 E A Hx|q H1 H2 E Hne P].
  - cbn [kNoBorrow Z.eqb Pos.eqb negb]. exists d. rewrite Hx in Hv. split_and!; done || lia.
  - cbn [kNoBorrow kBorrowTomb Z.eqb Pos.eqb negb]. rewrite Hnext. apply IH; [done|lia..].
  - congruence.
  - eqb_rw. rewrite Hnext. apply IH; [done|lia..].
Qed.
Lemma rebuild_fill_spec L l i fresh :
  NoDup (ptrs L) -> drop i L = l -> (i <= length L)%nat -> (length L < length fresh)%nat ->
  idx_rep L fresh 0 (ptr_map L i) ->
  exists fresh', rebuild_fill l (Z.of_nat i) fresh = Some fresh' /\ idx_rep L fresh' 0 (ptr_map L (length L)).
Proof.
  intros Hnd. revert i fresh. induction l as [|b l IH]; intros i fresh Hdrop Hi Hlen Hrep; cbn [rebuild_fill].
  { exists fresh. split; [done|]. apply (f_equal length) in Hdrop. rewrite length_drop in Hdrop. cbn in Hdrop.
    by replace (length L) with i by lia. }
  assert (L !! i = Some b) as Hb by (rewrite <- (Nat.add_0_r i), <- lookup_drop, Hdrop; done).
  destruct (ptr_map_S L i b Hnd Hb) as [HS Hn]. set (r := mkReg L fresh 0 0).
  assert (Z.of_nat (size (ptr_map L i)) < Z.of_nat (length fresh)) as Hsz.
  { rewrite (ptr_map_size L i Hnd Hi). lia. }
  rewrite (idx_start _ _ _ _ (b_ptr b) Hrep).
  destruct (rebuild_slot_spec r (ptr_map L i) (length fresh) 0 (b_ptr b) Hrep eq_refl Hn Hsz) as (e & He & E & Hp & Hx);
    [apply passed_0|lia|done|]. cbn [r r_idx r_list] in E, Hp, Hx, He. rewrite E, some_bind.
  destruct (idx_pos L fresh (ptr_map L i) 0 (b_ptr b) e Hrep ltac:(lia)) as (_ & Hr & _).
  rewrite put_Some by lia. rewrite some_bind.
  destruct (put_at r (ptr_map L i) (b_ptr b) (Z.of_nat i) b e SEmpty 0 Hrep) as (idx & tombs & Er & Hc); try done.
  { cbn [r r_list]. by rewrite Nat2Z.id. }
  { lia. }
  { left. split_and!; done. }
  cbn [r r_idx r_list set_idx] in Er, Hc. injection Er as <- <-.
  destruct Hc as [[Hc _]|[_ Hc]]; [apply (f_equal length) in Hc; rewrite length_insert in Hc; cbn in Hc; lia|].
  replace (Z.of_nat i + 1) with (Z.of_nat (S i)) by lia. apply IH; [|..|by rewrite HS].
  - replace (S i) with (i + 1)%nat by lia. rewrite <- drop_drop, Hdrop. done.
  - apply lookup_lt_Some in Hb. lia.
  - by rewrite length_insert.
Qed.
Lemma rebuild_cap_spec fuel j wanted :
  6 <= j <= 30 -> 30 - j < Z.of_nat fuel -> wanted <= 200 * 2 ^ 28 -> (j = 6 \/ 2 ^ (j - 1) * 70 < wanted) ->
  exists k, 6 <= k <= 30 /\ rebuild_cap fuel vector_max (2 ^ j) wanted = Some (Some (2 ^ k)) /\ wanted <= 2 ^ k * 70.
Proof.
  revert j. induction fuel as [|fuel IH]; intros j Hj Hf Hw Hlow; [lia|]. cbn [rebuild_cap].
  assert (2 ^ j <= 2 ^ 30) by (apply Z.pow_le_mono_r; lia). change (2 ^ 30) with 1073741824 in *. change (2 ^ 28) with 268435456 in *.
  rewrite (proj2 (Z.ltb_ge (UINT64_MAX / 70) _)) by (change (UINT64_MAX / 70) with 263524915338707880; lia).
  zsplit; [exists j; split_and!; done || lia|].
  rewrite (proj2 (Z.ltb_ge (vector_max / 2) _)) by (change (vector_max / 2) with 1152921504606846975; lia).
  assert (j <> 30) by (intros ->; change (2 ^ 30) with 1073741824 in *; lia).
  replace (2 ^ j * 2) with (2 ^ (j + 1)) by (rewrite Z.pow_add_r by lia; lia).
  apply IH; [lia|lia|lia|]. right. by replace (j + 1 - 1) with j by lia.
Qed.
Lemma rebuild_spec mem r : NoDup (ptrs (r_list r)) -> Z.of_nat (length (r_list r)) <= 2 ^ 28 ->
  exists r' ok, borrow_index_rebuild mem r = Some (r', ok) /\
    (ok = true -> index_of r (ptr_map (r_list r) (length (r_list r))) r') /\ (ok = false -> r' = r).
Proof.
  intros Hnd Hlen. unfold borrow_index_rebuild. set (n := Z.of_nat (length (r_list r))) in *.
  rewrite (proj2 (Z.ltb_ge (UINT64_MAX / 200) n)) by (change (UINT64_MAX / 200) with 92233720368547758; change (2 ^ 28) with 268435456 in Hlen; lia).
  destruct (rebuild_cap_spec 64 6 (n * 200)) as (k & Hk & E & Hcap); [lia|lia|lia|by left|].
  change (2 ^ 6) with 64 in E. rewrite E, some_bind. destruct mem; [|exists r, false; done].
  pose proof (Z.pow_pos_nonneg 2 k). assert (64 <= 2 ^ k) by (change 64 with (2 ^ 6); apply Z.pow_le_mono_r; lia).
  set (fresh := replicate (Z.to_nat (2 ^ k)) kNoBorrow).
  assert (b_slots (r_list r) fresh = replicate (Z.to_nat (2 ^ k)) SEmpty) as Hs by (unfold b_slots, fresh; by rewrite fmap_replicate).
  destruct (rebuild_fill_spec (r_list r) (r_list r) 0 fresh) as (fresh' & Ef & Hrep); [done|done|lia| | |].
  - unfold fresh. rewrite length_replicate. lia.
  - destruct (probe_empty (b_home (length fresh)) (Z.to_nat (2 ^ k)) (V := Z)) as [Hp Hm]. unfold idx_rep. rewrite Hs.
    rewrite count_if_replicate. split_and!; try done.
    + exists k. split; [lia|]. unfold fresh. rewrite length_replicate. lia.
    + apply Forall_replicate. by left.
  - change (Z.of_nat 0) with 0 in Ef. rewrite Ef, some_bind. do 2 eexists. split; [done|]. split; [|done]. intros _.
    do 2 eexists. split; [done|]. right. split; [by eapply idx_rep_nonempty|done].
Qed.
End IndexLemmas.

(** * The registry *)
Definition refs_sum (l : list BorrowEntry) : Z := foldr (fun b s => b_refs b + s) 0 l.
Definition loans (r : Registry) : gmap Z (Z * option Z) :=
  list_to_map ((fun b => (b_ptr b, (b_refs b, b_retired b))) <$> r_list r).
Definition whole (l : list BorrowEntry) : gmap Z Z := ptr_map l (length l).
Definition reg_ok (r : Registry) : Prop :=
  NoDup (ptrs (r_list r)) /\ Forall (fun b => 1 <= b_refs b) (r_list r) /\
  r_outstanding r = refs_sum (r_list r) /\ refs_sum (r_list r) <= 2 ^ 28 /\
  (r_idx r = [] /\ r_tombs r = 0 \/ idx_rep (r_list r) (r_idx r) (r_tombs r) (whole (r_list r))).

Section RegistryLemmas.
Implicit Types (l : list BorrowEntry) (r : Registry) (p : Z).

Lemma refs_sum_app l1 l2 : refs_sum (l1 ++ l2) = refs_sum l1 + refs_sum l2.
Proof. induction l1 as [|b l1 IH]; [done|]. cbn. fold (refs_sum l2). unfold refs_sum in *. lia. Qed.
Lemma refs_sum_insert l i b b' : l !! i = Some b -> refs_sum (<[i := b']> l) = refs_sum l - b_refs b + b_refs b'.
Proof.
  intros Hi. pose proof (lookup_lt_Some _ _ _ Hi). rewrite insert_take_drop by done.
  rewrite <- (take_drop_middle l i b Hi) at 3. rewrite !refs_sum_app. cbn [refs_sum foldr]. lia.
Qed.
Lemma refs_sum_bound l : Forall (fun b => 1 <= b_refs b) l -> Z.of_nat (length l) <= refs_sum l.
Proof. induction 1 as [|b l Hb _ IH]; [done|]. cbn [length refs_sum foldr]. fold (refs_sum l). lia. Qed.

Lemma whole_lookup l p v : NoDup (ptrs l) ->
  whole l !! p = Some v <-> exists b, 0 <= v /\ l !! Z.to_nat v = Some b /\ b_ptr b = p.
Proof.
  intros Hnd. unfold whole. rewrite ptr_map_lookup by done. split; intros (b & Hr & Hl & Hp); exists b; [split_and!; done || lia|].
  pose proof (lookup_lt_Some _ _ _ Hl). split_and!; done || lia.
Qed.
Lemma loans_lookup r p x : NoDup (ptrs (r_list r)) ->
  loans r !! p = Some x <-> exists i b, r_list r !! i = Some b /\ b_ptr b = p /\ (b_refs b, b_retired b) = x.
Proof.
  intros Hnd. unfold loans. rewrite <- elem_of_list_to_map.
  - rewrite list_elem_of_fmap. split.
    + intros (b & E & Hb). injection E as -> ->. apply list_elem_of_lookup in Hb as [i Hi]. by exists i, b.
    + intros (i & b & Hi & <- & <-). exists b. split; [done|]. by eapply list_elem_of_lookup_2.
  - rewrite <- list_fmap_compose. exact Hnd.
Qed.
Lemma ptr_inj l i j b b' : NoDup (ptrs l) -> l !! i = Some b -> l !! j = Some b' -> b_ptr b = b_ptr b' -> i = j.
Proof.
  intros Hnd Hi Hj E. eapply NoDup_lookup; [exact Hnd|..]; unfold ptrs; rewrite list_lookup_fmap; [by rewrite Hi|by rewrite Hj, E].
Qed.
(** The vector may change wherever the index does not point. *)
Lemma idx_rep_list l l' idx tombs M :
  idx_rep l idx tombs M -> Z.of_nat (length l') <= 2 ^ 28 ->
  (forall p v, M !! p = Some v -> exists b, 0 <= v /\ l' !! Z.to_nat v = Some b /\ b_ptr b = p) -> idx_rep l' idx tombs M.
Proof.
  intros (Hk & Hw & Hl & Hpr & HM & Ht) Hl' Hsame.
  assert (forall i v, idx !! i = Some v -> bview l' v = bview l v /\ idx_word l' v) as Hview.
  { intros i v Hv. destruct (Forall_lookup_1 _ _ _ _ Hw Hv) as [->|[->|Hr]]; [split; [done|by left]|split; [done|by right; left]|].
    destruct (lookup_lt_is_Some_2 l (Z.to_nat v)) as [b Hb]; [lia|].
    pose proof (bview_live l v b Hl ltac:(lia) Hb) as Hvb.
    assert (M !! b_ptr b = Some v) as HMv.
    { rewrite <- HM. apply slots_map_spec; [apply Hpr|]. exists i. unfold b_slots. by rewrite list_lookup_fmap, Hv, <- Hvb. }
    destruct (Hsame _ _ HMv) as (b' & Hv0 & Hb' & Hp). rewrite Hvb, <- Hp. split; [by apply bview_live|].
    right; right. apply lookup_lt_Some in Hb'. lia. }
  assert (b_slots l' idx = b_slots l idx) as Hs.
  { apply list_eq. intros i. unfold b_slots. rewrite !list_lookup_fmap. destruct (idx !! i) as [v|] eqn:E; [|done].
    cbn. f_equal. by apply (Hview i). }
  unfold idx_rep. rewrite Hs. split_and!; try done. apply Forall_lookup. intros i v Hv. by apply (Hview i).
Qed.

Lemma scan_find_spec l p i : 
  (exists j b, l !! j = Some b /\ b_ptr b = p /\ scan_find l i p = i + Z.of_nat j) \/
  (Forall (fun b => b_ptr b <> p) l /\ scan_find l i p = kNoBorrow).
Proof.
  revert i. induction l as [|b l IH]; intros i; cbn [scan_find]; [right; split; [constructor|done]|].
  destruct (b_ptr b =? p) eqn:E; zcmp.
  - left. exists 0%nat, b. split_and!; [done|done|lia].
  - destruct (IH (i + 1)) as [(j & b' & Hj & Hp & ->)|[Hn ->]].
    + left. exists (S j), b'. split_and!; [done|done|lia].
    + right. split; [by constructor|done].
Qed.
(** The index and the linear scan answer alike. *)
Lemma find_spec r p : reg_ok r ->
  borrow_find r p = Some (scan_find (r_list r) 0 p) /\
  ((exists i b, r_list r !! i = Some b /\ b_ptr b = p /\ scan_find (r_list r) 0 p = Z.of_nat i /\
      (scan_find (r_list r) 0 p =? kNoBorrow) = false) \/
   scan_find (r_list r) 0 p = kNoBorrow /\ forall i b, r_list r !! i = Some b -> b_ptr b <> p).
Proof.
  intros (Hnd & Hf & Ho & Hs & Hidx). pose proof (refs_sum_bound _ Hf) as Hlen. change (2 ^ 28) with 268435456 in Hs.
  assert ((exists i b, r_list r !! i = Some b /\ b_ptr b = p /\ scan_find (r_list r) 0 p = Z.of_nat i /\
      (scan_find (r_list r) 0 p =? kNoBorrow) = false) \/
   scan_find (r_list r) 0 p = kNoBorrow /\ forall i b, r_list r !! i = Some b -> b_ptr b <> p) as Hcase.
  { destruct (scan_find_spec (r_list r) p 0) as [(j & b & Hj & Hp & E)|[Hn E]]; [left|right].
    - exists j, b. pose proof (lookup_lt_Some _ _ _ Hj). rewrite E. unfold kNoBorrow. rewrite (proj2 (Z.eqb_neq _ _)) by lia.
      split_and!; done.
    - split; [done|]. intros i b Hi. by eapply (Forall_lookup_1 _ _ _ _ Hn). }
  split; [|done]. unfold borrow_find. destruct (r_idx r) as [|x t] eqn:E; [done|]. rewrite <- E in *.
  destruct Hidx as [[Hbad _]|Hrep]; [congruence|].
  rewrite (idx_start _ _ _ _ p Hrep), (index_find_spec r _ _ 0 p Hrep); [|apply passed_0|lia|lia]. f_equal.
  destruct Hcase as [(i & b & Hi & Hp & -> & _)|[-> Hn]].
  - assert (whole (r_list r) !! p = Some (Z.of_nat i)) as ->; [|done].
    apply whole_lookup; [done|]. exists b. rewrite Nat2Z.id. split_and!; done || lia.
  - assert (whole (r_list r) !! p = None) as ->; [|done].
    apply eq_None_not_Some. intros [v Hv]. apply whole_lookup in Hv as (b & _ & Hb & Hp); [|done]. by eapply Hn.
Qed.

(** Changing an entry in place. *)
Lemma update_spec r i b b' :
  NoDup (ptrs (r_list r)) -> Z.of_nat (length (r_list r)) <= 2 ^ 28 -> r_list r !! i = Some b -> b_ptr b' = b_ptr b ->
  ptrs (<[i := b']> (r_list r)) = ptrs (r_list r) /\
  (idx_rep (r_list r) (r_idx r) (r_tombs r) (whole (r_list r)) ->
   idx_rep (<[i := b']> (r_list r)) (r_idx r) (r_tombs r) (whole (<[i := b']> (r_list r)))) /\
  loans (set_list r (<[i := b']> (r_list r))) = <[b_ptr b := (b_refs b', b_retired b')]> (loans r).
Proof.
  intros Hnd Hl Hi Hp. pose proof (lookup_lt_Some _ _ _ Hi) as Hlt.
  assert (ptrs (<[i := b']> (r_list r)) = ptrs (r_list r)) as Hpt.
  { unfold ptrs. rewrite list_fmap_insert, Hp. apply list_insert_id. by rewrite list_lookup_fmap, Hi. }
  assert (forall j c, <[i := b']> (r_list r) !! j = Some c <-> (j = i /\ c = b') \/ (j <> i /\ r_list r !! j = Some c)) as Hlk.
  { intros j c. rewrite list_lookup_insert_Some. split; [intros [(-> & -> & _)|[? ?]]; auto|].
    intros [[-> ->]|[? ?]]; [left|right]; auto. }
  split_and!; [done| |].
  - intros Hrep. assert (whole (<[i := b']> (r_list r)) = whole (r_list r)) as ->.
    { unfold whole, ptr_map. rewrite length_insert, !take_ge by (rewrite ?length_insert; lia).
      f_equal. apply list_eq. intros j. rewrite !list_lookup_imap. destruct (decide (j = i)) as [->|Hj].
      - rewrite list_lookup_insert_eq, Hi by done. cbn. by rewrite Hp.
      - by rewrite list_lookup_insert_ne. }
    apply (idx_rep_list (r_list r)); [done|by rewrite length_insert|]. intros p v Hv.
    apply whole_lookup in Hv as (c & Hv0 & Hc & Hcp); [|done]. destruct (decide (Z.to_nat v = i)) as [E|Hne].
    + exists b'. split_and!; [done|apply Hlk; by left|]. rewrite E in Hc. congruence.
    + exists c. split_and!; [done|apply Hlk; by right|done].
  - apply map_eq. intros p. apply option_eq. intros x.
    rewrite lookup_insert_Some, !loans_lookup by (cbn [r_list set_list]; by rewrite ?Hpt). cbn [r_list set_list]. split.
    + intros (j & c & Hj & <- & <-). apply Hlk in Hj as [[-> ->]|[Hj Hc]]; [by left|]. right.
      split; [|by exists j, c]. intros E. apply Hj. by eapply ptr_inj.
    + intros [[<- <-]|[Hne (j & c & Hj & <- & <-)]].
      * exists i, b'. split_and!; [apply Hlk; by left|done|done].
      * exists j, c. split_and!; [|done|done]. apply Hlk. right. split; [|done]. intros ->. congruence.
Qed.

Definition borrow_map (L : gmap Z (Z * option Z)) (p : Z) : gmap Z (Z * option Z) :=
  <[p := match L !! p with Some (n, o) => (n + 1, o) | None => (1, None) end]> L.
Definition unborrow_map (L : gmap Z (Z * option Z)) (p : Z) : gmap Z (Z * option Z) * option Z :=
  match L !! p with
  | None => (L, None)
  | Some (n, o) => if n =? 1 then (delete p L, o) else (<[p := (n - 1, o)]> L, None)
  end.
Definition retire_map (L : gmap Z (Z * option Z)) (p obj : Z) : gmap Z (Z * option Z) * bool :=
  match L !! p with None => (L, false) | Some (n, _) => (<[p := (n, Some obj)]> L, true) end.

Lemma added_spec mem r p : 
  NoDup (ptrs (r_list r)) -> Z.of_nat (length (r_list r)) <= 2 ^ 28 -> (exists l0 b, r_list r = l0 ++ [b] /\ b_ptr b = p /\
    (r_idx r = [] /\ r_tombs r = 0 \/ idx_rep (r_list r) (r_idx r) (r_tombs r) (ptr_map (r_list r) (length l0)))) ->
  exists idx tombs, borrow_index_added mem r p (u32 (Z.of_nat (length (r_list r)) - 1)) = Some (set_idx r idx tombs) /\
    (idx = [] /\ tombs = 0 \/ idx_rep (r_list r) idx tombs (whole (r_list r))).
Proof.
  intros Hnd Hl (l0 & b & El & Hp & Hidx). change (2 ^ 28) with 268435456 in Hl.
  assert (length (r_list r) = S (length l0)) as Hlen by (rewrite El, length_app; cbn; lia).
  assert (r_list r !! length l0 = Some b) as Hb by (rewrite El; by apply list_lookup_middle).
  rewrite u32_small by lia. replace (Z.of_nat (length (r_list r)) - 1) with (Z.of_nat (length l0)) by lia.
  destruct (rebuild_spec mem r Hnd Hl) as (r1 & ok & E & Hok & Hno). unfold borrow_index_added.
  assert (forall M, index_of r M r1 -> exists idx tombs, Some r1 = Some (set_idx r idx tombs) /\
            (idx = [] /\ tombs = 0 \/ idx_rep (r_list r) idx tombs M)) as Hout.
  { intros M (idx & tombs & -> & Hc). exists idx, tombs. split; [done|]. destruct Hc as [?|[_ ?]]; auto. }
  assert (exists idx tombs, Some r = Some (set_idx r idx tombs) /\ idx = r_idx r /\ tombs = r_tombs r) as Hid.
  { exists (r_idx r), (r_tombs r). by destruct r. }
  destruct (r_idx r) as [|x t] eqn:Ei.
  - destruct Hidx as [[_ Ht]|Hrep]; [|by destruct (idx_rep_nonempty _ _ _ _ Hrep)].
    zsplit; [destruct Hid as (idx & tombs & ? & -> & ->); do 2 eexists; split; [done|]; by left|].
    rewrite E, some_bind. destruct ok; [by apply Hout, Hok|]. rewrite (Hno eq_refl).
    destruct Hid as (idx & tombs & ? & -> & ->). do 2 eexists; split; [done|]; by left.
  - rewrite <- Ei in *. destruct Hidx as [[Hbad _]|Hrep]; [congruence|].
    assert (exists idx tombs, borrow_index_put r p (Z.of_nat (length l0)) = Some (set_idx r idx tombs) /\
              (idx = [] /\ tombs = 0 \/ idx_rep (r_list r) idx tombs (whole (r_list r)))) as Hput.
    { destruct (index_put_spec r _ p (Z.of_nat (length l0)) b Hrep) as (r2 & -> & idx & tombs & -> & Hc);
        [by rewrite Nat2Z.id|done|lia|]. exists idx, tombs. split; [done|].
      assert (whole (r_list r) = <[p := Z.of_nat (length l0)]> (ptr_map (r_list r) (length l0))) as ->.
      { unfold whole. rewrite Hlen, <- Hp. by apply ptr_map_S. }
      destruct Hc as [?|[_ ?]]; auto. }
    zsplit; [|by rewrite some_bind]. rewrite E, some_bind. destruct ok; [by apply Hout, Hok|]. by rewrite (Hno eq_refl).
Qed.
Lemma loans_absent r p : NoDup (ptrs (r_list r)) -> (forall i b, r_list r !! i = Some b -> b_ptr b <> p) -> loans r !! p = None.
Proof.
  intros Hnd Hn. apply eq_None_not_Some. intros [x Hx]. apply loans_lookup in Hx as (i & b & Hi & Hp & _); [|done].
  by apply (Hn i b).
Qed.
Lemma borrow_spec mem r p : reg_ok r -> r_outstanding r < 2 ^ 28 ->
  exists r', borrow mem r p = Some r' /\ reg_ok r' /\ r_outstanding r' = r_outstanding r + 1 /\
    loans r' = borrow_map (loans r) p.
Proof.
  intros Hok Hbound. pose proof Hok as (Hnd & Hf & Ho & Hs & Hidx). pose proof (refs_sum_bound _ Hf) as Hlen.
  change (2 ^ 28) with 268435456 in *. unfold borrow.
  destruct (find_spec r p Hok) as [-> Hc]. rewrite some_bind. destruct Hc as [(i & b & Hi & Hp & E & Ene)|[E Hn]].
  - rewrite Ene. cbn [negb]. rewrite E, Nat2Z.id, Hi, some_bind. pose proof (lookup_lt_Some _ _ _ Hi) as Hlt.
    rewrite put_Some by lia. rewrite some_bind, Nat2Z.id. eexists. split; [done|].
    set (b' := mkBorrow (b_ptr b) (u32 (b_refs b + 1)) (b_retired b)).
    destruct (update_spec r i b b' Hnd ltac:(change (2 ^ 28) with 268435456; lia) Hi eq_refl) as (Hpt & Hix & Hlo).
    pose proof (Forall_lookup_1 _ _ _ _ Hf Hi) as Hb1. cbn in Hb1.
    pose proof (refs_sum_insert _ _ _ b' Hi) as Hsum.
    assert (b_refs b <= refs_sum (r_list r)) as Hle.
    { rewrite <- (take_drop_middle (r_list r) i b Hi). rewrite refs_sum_app. cbn [refs_sum foldr]. fold (refs_sum (drop (S i) (r_list r))).
      pose proof (refs_sum_bound (take i (r_list r)) ltac:(by apply Forall_take)).
      pose proof (refs_sum_bound (drop (S i) (r_list r)) ltac:(by apply Forall_drop)). lia. }
    assert (b_refs b' = b_refs b + 1) as Hb' by (cbn; rewrite u32_small; lia). rewrite u32_small by lia.
    split_and!; [|done|].
    + unfold reg_ok; cbn [r_list r_idx r_tombs r_outstanding set_outstanding set_list]. rewrite Hpt. split_and!; try done; try lia.
      * apply Forall_insert; [done|]. lia.
      * destruct Hidx as [?|Hrep]; [by left|right; by apply Hix].
    + unfold borrow_map. rewrite (proj2 (loans_lookup r p (b_refs b, b_retired b) Hnd)) by (by exists i, b).
      change (loans (set_outstanding (set_list r (<[i := b']> (r_list r))) (r_outstanding r + 1)))
        with (loans (set_list r (<[i := b']> (r_list r)))). rewrite Hlo, <- Hp, Hb'. done.
  - rewrite E. cbn [negb]. rewrite Z.eqb_refl. cbn [negb]. set (b := mkBorrow p 1 None). set (r1 := set_list r (r_list r ++ [b])).
    assert (NoDup (ptrs (r_list r1))) as Hnd1.
    { cbn [r1 r_list set_list]. unfold ptrs. rewrite fmap_app. apply NoDup_app. split_and!; [done| |apply NoDup_singleton].
      intros q Hq ->%list_elem_of_singleton. apply list_elem_of_fmap in Hq as (c & Hc & Hin).
      apply list_elem_of_lookup in Hin as [j Hj]. by apply (Hn j c). }
    assert (Z.of_nat (length (r_list r1)) <= 268435456) as Hl1 by (cbn [r1 r_list set_list]; rewrite length_app; cbn; lia).
    assert (ptr_map (r_list r1) (length (r_list r)) = whole (r_list r)) as Hpm.
    { unfold whole, ptr_map. cbn [r1 r_list set_list]. by rewrite take_app_length, take_ge by lia. }
    destruct (added_spec mem r1 p Hnd1 Hl1) as (idx & tombs & -> & Hix).
    { exists (r_list r), b. split_and!; [done|done|]. destruct Hidx as [?|Hrep]; [by left|right]. rewrite Hpm.
      apply (idx_rep_list (r_list r)); [done|done|]. intros q v Hv. apply whole_lookup in Hv as (c & Hv0 & Hc & Hq); [|done].
      exists c. split_and!; [done|by apply lookup_app_l_Some|done]. }
    rewrite some_bind. eexists. split; [done|]. cbn [set_idx r_outstanding r1 set_list]. rewrite u32_small by lia.
    split_and!; [|done|].
    + unfold reg_ok; cbn [r_list r_idx r_tombs r_outstanding set_outstanding set_idx set_list r1]. split_and!; try done.
      * apply Forall_app_2; [done|]. by apply Forall_singleton.
      * rewrite Ho, refs_sum_app. cbn. done.
      * rewrite refs_sum_app. cbn. lia.
    + unfold borrow_map. rewrite (loans_absent r p Hnd Hn). unfold loans at 1. cbn [r_list set_outstanding set_idx r1 set_list].
      rewrite fmap_app, list_to_map_app. cbn. rewrite insert_empty. symmetry. apply (insert_union_singleton_r (loans r)). by apply loans_absent.
Qed.

Lemma retired_spec r p obj : reg_ok r ->
  exists r', mark_retired r p obj = Some (r', (retire_map (loans r) p obj).2) /\ reg_ok r' /\
    r_outstanding r' = r_outstanding r /\ loans r' = (retire_map (loans r) p obj).1.
Proof.
  intros Hok. pose proof Hok as (Hnd & Hf & Ho & Hs & Hidx). pose proof (refs_sum_bound _ Hf) as Hlen.
  unfold mark_retired, retire_map. destruct (find_spec r p Hok) as [-> Hc]. rewrite some_bind.
  destruct Hc as [(i & b & Hi & Hp & E & Ene)|[E Hn]].
  - rewrite (proj2 (loans_lookup r p (b_refs b, b_retired b) Hnd)) by (by exists i, b). cbn [fst snd].
    rewrite Ene. cbn [negb]. rewrite E, Nat2Z.id, Hi, some_bind. pose proof (lookup_lt_Some _ _ _ Hi) as Hlt.
    rewrite put_Some by lia. rewrite some_bind, Nat2Z.id. eexists. split; [done|].
    set (b' := mkBorrow (b_ptr b) (b_refs b) (Some obj)).
    destruct (update_spec r i b b' Hnd ltac:(lia) Hi eq_refl) as (Hpt & Hix & Hlo).
    pose proof (refs_sum_insert _ _ _ b' Hi) as Hsum. cbn [b_refs b'] in Hsum.
    pose proof (Forall_lookup_1 _ _ _ _ Hf Hi) as Hb1. cbn in Hb1.
    split_and!; [|done|by rewrite Hlo, <- Hp].
    unfold reg_ok; cbn [r_list r_idx r_tombs r_outstanding set_list]. rewrite Hpt. split_and!; try done; try lia.
    + by apply Forall_insert.
    + destruct Hidx as [?|Hrep]; [by left|right; by apply Hix].
  - rewrite (loans_absent r p Hnd Hn). cbn [fst snd]. rewrite E, Z.eqb_refl. cbn [negb]. by exists r.
Qed.

(** Removing the entry at [i] by moving the last one over it. *)
Definition swap_out l (i : nat) (e : BorrowEntry) : list BorrowEntry := take (length l - 1) (<[i := e]> l).
Lemma swap_out_lookup l i e j c : (i < length l)%nat -> l !! (length l - 1)%nat = Some e ->
  swap_out l i e !! j = Some c <-> (j < length l - 1)%nat /\ ((j = i /\ c = e) \/ (j <> i /\ l !! j = Some c)).
Proof.
  intros Hi He. unfold swap_out. rewrite lookup_take_Some, list_lookup_insert_Some. split.
  - intros [[(-> & -> & _)|[Hne Hc]] Hlt]; auto.
  - intros [Hlt [[-> ->]|[Hne Hc]]]; split; auto.
Qed.
Lemma swap_out_elem l i e b j c : NoDup (ptrs l) -> l !! i = Some b -> l !! (length l - 1)%nat = Some e ->
  l !! j = Some c -> j <> i -> exists k, swap_out l i e !! k = Some c /\ (k = j \/ k = i).
Proof.
  intros Hnd Hi He Hj Hne. pose proof (lookup_lt_Some _ _ _ Hi) as Hlt. pose proof (lookup_lt_Some _ _ _ Hj) as Hjl.
  destruct (decide (j = length l - 1)%nat) as [->|Hl].
  - exists i. split; [|by right]. apply swap_out_lookup; [done|done|]. split; [lia|]. left. split; congruence.
  - exists j. split; [|by left]. apply swap_out_lookup; [done|done|]. split; [lia|]. by right.
Qed.
Lemma swap_out_spec l i e b : NoDup (ptrs l) -> l !! i = Some b -> l !! (length l - 1)%nat = Some e ->
  NoDup (ptrs (swap_out l i e)) /\
  (forall c, (exists j, swap_out l i e !! j = Some c) <-> exists j, j <> i /\ l !! j = Some c) /\
  refs_sum (swap_out l i e) = refs_sum l - b_refs b /\
  whole (swap_out l i e) = (if decide (i = length l - 1)%nat then delete (b_ptr b) (whole l)
                            else <[b_ptr e := Z.of_nat i]> (delete (b_ptr b) (whole l))).
Proof.
  intros Hnd Hi He. pose proof (lookup_lt_Some _ _ _ Hi) as Hlt. set (n := (length l - 1)%nat) in *.
  assert (forall j c, swap_out l i e !! j = Some c -> exists j', l !! j' = Some c /\ j' <> i /\ (j = i /\ j' = n \/ j = j')) as Hback.
  { intros j c Hj. apply swap_out_lookup in Hj as [Hjl [[-> ->]|[Hne Hc]]]; [| |done|done].
    - exists n. split_and!; [done|lia|by left].
    - exists j. split_and!; try done. by right. }
  assert (NoDup (ptrs (swap_out l i e))) as Hnd'.
  { apply NoDup_alt. intros a c q Ha Hc. unfold ptrs in Ha, Hc. rewrite list_lookup_fmap in Ha, Hc.
    destruct (swap_out l i e !! a) as [x|] eqn:Ea; [|done]. destruct (swap_out l i e !! c) as [y|] eqn:Ec; [|done].
    injection Ha as <-. injection Hc as Hq. pose proof (lookup_lt_Some _ _ _ Ea) as La. pose proof (lookup_lt_Some _ _ _ Ec) as Lc.
    unfold swap_out in La, Lc. rewrite length_take, length_insert in La, Lc. fold n in La, Lc.
    destruct (Hback _ _ Ea) as (a' & Ha' & Hai & Hca). destruct (Hback _ _ Ec) as (c' & Hc' & Hci & Hcc).
    assert (a' = c') as Hac by (by eapply (ptr_inj l)). lia. }
  split_and!; [done| | |].
  - intros c. split; [intros [j Hj]; destruct (Hback j c Hj) as (j' & ? & ? & _); eauto|].
    intros (j & Hne & Hj). destruct (swap_out_elem l i e b j c Hnd Hi He Hj Hne) as (k & Hk & _). eauto.
  - unfold swap_out. fold n. pose proof (refs_sum_insert l i b e Hi) as Hs.
    assert (<[i := e]> l = take n (<[i := e]> l) ++ [e]) as Hsplit.
    { assert (<[i := e]> l !! n = Some e) as Hn.
      { destruct (decide (n = i)) as [->|]; [by apply list_lookup_insert_eq|by rewrite list_lookup_insert_ne]. }
      rewrite <- (take_drop_middle _ _ _ Hn) at 1. f_equal. rewrite drop_ge; [done|]. rewrite length_insert. lia. }
    rewrite Hsplit, refs_sum_app in Hs. cbn [refs_sum foldr] in Hs. fold (refs_sum (take n (<[i := e]> l))) in Hs. lia.
  - apply map_eq. intros q. apply option_eq. intros v. rewrite whole_lookup by done.
    destruct (decide (i = n)) as [Ein|Hin].
    + rewrite lookup_delete_Some, whole_lookup by done. split.
      * intros (c & Hv & Hc & <-). destruct (Hback _ _ Hc) as (j' & Hj' & Hne & [[E1 E2]|E1]); [lia|]. subst j'.
        split; [|exists c; done]. intros E. apply Hne. by eapply (ptr_inj l).
      * intros [Hq (c & Hv & Hc & <-)]. exists c. split_and!; try done. apply swap_out_lookup; [done|done|].
        assert (Z.to_nat v <> i) by (intros E; rewrite E in Hc; congruence). apply lookup_lt_Some in Hc as Hcl.
        split; [fold n; lia|by right].
    + rewrite lookup_insert_Some, lookup_delete_Some, whole_lookup by done. split.
      * intros (c & Hv & Hc & <-). destruct (Hback _ _ Hc) as (j' & Hj' & Hne & [[E1 E2]|E1]).
        -- left. subst j'. split; [congruence|lia].
        -- right. subst j'. apply lookup_lt_Some in Hc as Hcl. unfold swap_out in Hcl. rewrite length_take, length_insert in Hcl. fold n in Hcl.
           split_and!; [|intros E; apply Hne; by eapply (ptr_inj l)|exists c; done].
           intros E. assert (Z.to_nat v = n); [by eapply (ptr_inj l)|lia].
      * intros [[<- <-]|(Hq & Hq' & (c & Hv & Hc & <-))].
        -- exists e. rewrite Nat2Z.id. split_and!; [lia| |done]. apply swap_out_lookup; [done|done|]. split; [fold n; lia|by left].
        -- exists c. split_and!; try done. apply swap_out_lookup; [done|done|]. apply lookup_lt_Some in Hc as Hcl.
           assert (Z.to_nat v <> i) by (intros E; rewrite E in Hc; congruence).
           assert (Z.to_nat v <> n) by (intros E; rewrite E in Hc; congruence). split; [fold n; lia|by right].
Qed.

(** An index over [l] for [M], or none. *)
Definition maybe_index (l : list BorrowEntry) (r : Registry) (M : gmap Z Z) : Prop :=
  r_idx r = [] /\ r_tombs r = 0 \/ idx_rep l (r_idx r) (r_tombs r) M.
Lemma index_dropped_spec r p M : maybe_index (r_list r) r M ->
  exists r', borrow_index_dropped r p = Some r' /\ r_list r' = r_list r /\ r_outstanding r' = r_outstanding r /\
    maybe_index (r_list r) r' (delete p M).
Proof.
  intros [[E1 E2]|Hrep]; unfold borrow_index_dropped.
  - rewrite E1. exists r. split_and!; try done. by left.
  - pose proof (idx_rep_nonempty _ _ _ _ Hrep) as Hne. destruct (r_idx r) as [|x t] eqn:E; [done|]. rewrite <- E in *.
    rewrite (idx_start _ _ _ _ p Hrep).
    destruct (dropped_spec r M (length (r_idx r)) 0 p Hrep) as (idx & tombs & -> & Hrep'); [apply passed_0|lia|lia|].
    eexists. split; [done|]. split_and!; try done. by right.
Qed.
Lemma index_put_maybe r p at_ b M : maybe_index (r_list r) r M ->
  r_list r !! Z.to_nat at_ = Some b -> b_ptr b = p -> 0 <= at_ ->
  exists r', borrow_index_put r p at_ = Some r' /\ r_list r' = r_list r /\ r_outstanding r' = r_outstanding r /\
    maybe_index (r_list r) r' (<[p := at_]> M).
Proof.
  intros [[E1 E2]|Hrep] Hat Hp Ha.
  - unfold borrow_index_put. rewrite E1. exists r. split_and!; try done. by left.
  - destruct (index_put_spec r M p at_ b Hrep Hat Hp Ha) as (r' & -> & idx & tombs & -> & Hc). eexists. split; [done|].
    split_and!; try done. destruct Hc as [?|[_ ?]]; [by left|by right].
Qed.
Lemma remove_entry_spec r i b p :
  NoDup (ptrs (r_list r)) -> Z.of_nat (length (r_list r)) <= 2 ^ 28 -> r_list r !! i = Some b -> b_ptr b = p ->
  maybe_index (r_list r) r (whole (r_list r)) ->
  exists r' e, remove_entry r (Z.of_nat i) p = Some r' /\ r_list r !! (length (r_list r) - 1)%nat = Some e /\
    r_list r' = swap_out (r_list r) i e /\ r_outstanding r' = r_outstanding r /\ maybe_index (r_list r') r' (whole (r_list r')).
Proof.
  intros Hnd Hl Hi Hp Hidx. change (2 ^ 28) with 268435456 in Hl. pose proof (lookup_lt_Some _ _ _ Hi) as Hlt.
  destruct (lookup_lt_is_Some_2 (r_list r) (length (r_list r) - 1)) as [e He]; [lia|].
  destruct (swap_out_spec (r_list r) i e b Hnd Hi He) as (Hnd' & _ & _ & Hw).
  unfold remove_entry. destruct (index_dropped_spec r p _ Hidx) as (r1 & -> & L1 & O1 & I1). rewrite some_bind.
  set (n := (length (r_list r) - 1)%nat) in *. rewrite L1. rewrite u32_small by lia.
  replace (Z.of_nat (length (r_list r)) - 1) with (Z.of_nat n) by lia. rewrite Nat2Z.id.
  assert (exists r2, (if negb (Z.of_nat i =? Z.of_nat n) then
         e ← r_list r1 !! n; l ← put (r_list r1) (Z.of_nat i) e; borrow_index_put (set_list r1 l) (b_ptr e) (Z.of_nat i)
       else Some r1) = Some r2 /\ take (length (r_list r2) - 1) (r_list r2) = swap_out (r_list r) i e /\
       r_outstanding r2 = r_outstanding r /\ maybe_index (r_list r2) r2 (whole (swap_out (r_list r) i e)))
    as (r2 & E2 & L2 & O2 & I2).
  { destruct (Z.eqb_spec (Z.of_nat i) (Z.of_nat n)) as [Ein|Hin]; cbn [negb].
    - exists r1. rewrite decide_True in Hw by lia. rewrite Hw, L1, Hp. split_and!; try done.
      unfold swap_out. f_equal. symmetry. apply list_insert_id. assert (i = n) as -> by lia. done.
    - rewrite decide_False in Hw by lia. rewrite L1, He, some_bind, put_Some by lia. rewrite some_bind, Nat2Z.id.
      set (l2 := <[i := e]> (r_list r)).
      destruct (index_put_maybe (set_list r1 l2) (b_ptr e) (Z.of_nat i) e (delete p (whole (r_list r)))) as (r2 & -> & L2 & O2 & I2);
        [|cbn; rewrite Nat2Z.id; by apply list_lookup_insert_eq|done|lia|].
      + destruct I1 as [?|Hrep]; [by left|right]. apply (idx_rep_list (r_list r)); [done|cbn; unfold l2; by rewrite length_insert|].
        intros q v Hv. apply lookup_delete_Some in Hv as [Hq Hv]. apply whole_lookup in Hv as (c & Hv0 & Hc & Hcq); [|done].
        exists c. split_and!; try done. cbn. unfold l2. rewrite list_lookup_insert_ne; [done|]. intros ->. congruence.
      + exists r2. split_and!; try done; [|by rewrite O2|].
        * rewrite L2. cbn. unfold l2, swap_out. by rewrite length_insert.
        * rewrite Hw, Hp, L2. done. }
  rewrite L1 in E2. rewrite E2, some_bind. cbn [set_list r_list]. rewrite L2. set (l3 := swap_out (r_list r) i e) in *.
  assert (maybe_index l3 r2 (whole l3)) as I3.
  { destruct I2 as [?|Hrep]; [by left|right]. apply (idx_rep_list (r_list r2)); [done| |].
    - unfold l3, swap_out. rewrite length_take, length_insert. change (2 ^ 28) with 268435456. lia.
    - intros q v Hv. by apply whole_lookup in Hv. }
  assert (forall l, maybe_index l r2 (whole l) ->
    let r3 := match l with [] => borrow_index_release (set_list r2 l) | _ => set_list r2 l end in
    r_list r3 = l /\ r_outstanding r3 = r_outstanding r /\ maybe_index (r_list r3) r3 (whole (r_list r3))) as Hfin.
  { intros [|x t] Hm; (split_and!; [done|done|]); [by left|done]. }
  do 2 eexists. split; [done|]. split; [exact He|]. by apply Hfin.
Qed.
Lemma unborrow_spec r p : reg_ok r ->
  exists r', unborrow r p = Some (r', (unborrow_map (loans r) p).2) /\ reg_ok r' /\
    r_outstanding r' <= r_outstanding r /\ loans r' = (unborrow_map (loans r) p).1.
Proof.
  intros Hok. pose proof Hok as (Hnd & Hf & Ho & Hs & Hidx). pose proof (refs_sum_bound _ Hf) as Hlen.
  unfold unborrow, unborrow_map. destruct (find_spec r p Hok) as [-> Hc]. rewrite some_bind.
  destruct Hc as [(i & b & Hi & Hp & E & Ene)|[E Hn]].
  2:{ rewrite (loans_absent r p Hnd Hn). cbn [fst snd]. rewrite E, Z.eqb_refl. exists r. split_and!; done. }
  rewrite (proj2 (loans_lookup r p (b_refs b, b_retired b) Hnd)) by (by exists i, b).
  rewrite Ene, E, Nat2Z.id, Hi, some_bind. pose proof (lookup_lt_Some _ _ _ Hi) as Hlt.
  pose proof (Forall_lookup_1 _ _ _ _ Hf Hi) as Hb1. cbn in Hb1.
  rewrite (proj2 (Z.eqb_neq (b_refs b) 0)), (proj2 (Z.eqb_neq (r_outstanding r) 0)) by lia. cbn [orb].
  rewrite put_Some by lia. rewrite some_bind, Nat2Z.id. cbn [b_refs b_retired].
  set (b1 := mkBorrow (b_ptr b) (b_refs b - 1) (b_retired b)).
  destruct (update_spec r i b b1 Hnd ltac:(lia) Hi eq_refl) as (Hpt & Hix & Hlo).
  pose proof (refs_sum_insert _ _ _ b1 Hi) as Hsum. cbn [b_refs b1] in Hsum.
  assert (maybe_index (<[i := b1]> (r_list r)) r (whole (<[i := b1]> (r_list r)))) as Hix1.
  { destruct Hidx as [?|Hrep]; [by left|right; by apply Hix]. }
  set (r1 := set_outstanding (set_list r (<[i := b1]> (r_list r))) (r_outstanding r - 1)).
  destruct (Z.eqb_spec (b_refs b) 1) as [E1|E1].
  - rewrite (proj2 (Z.eqb_eq (b_refs b - 1) 0)) by lia. cbn [negb fst snd].
    assert (r_list r1 !! i = Some b1) as Hi1 by (by apply list_lookup_insert_eq).
    destruct (remove_entry_spec r1 i b1 p) as (r' & e & Er & He & L' & O' & I'); try done;
      [by rewrite <- Hpt in Hnd|cbn; rewrite length_insert; lia|].
    rewrite Er, some_bind. exists r'. split; [done|].
    destruct (swap_out_spec (r_list r1) i e b1 ltac:(by rewrite <- Hpt in Hnd) Hi1 He) as (Hnd' & Hel & Hsum' & _).
    assert (forall j c, j <> i -> r_list r1 !! j = Some c <-> r_list r !! j = Some c) as Hsame.
    { intros j c Hj. cbn. by rewrite list_lookup_insert_ne. }
    assert (NoDup (ptrs (r_list r'))) as Hndr by (by rewrite L').
    split_and!; [| |].
    + unfold reg_ok. rewrite L', O'. cbn [r1 r_outstanding set_outstanding]. split_and!; try done.
      * apply Forall_lookup. intros j c Hj. destruct (proj1 (Hel c)) as (j' & Hne & Hj'); [eauto|].
        apply Hsame in Hj'; [|done]. by apply (Forall_lookup_1 _ _ _ _ Hf Hj').
      * rewrite Hsum'. cbn [b_refs b1]. cbn [r1 r_list set_outstanding set_list]. lia.
      * rewrite Hsum'. cbn [b_refs b1]. cbn [r1 r_list set_outstanding set_list]. lia.
      * rewrite <- L'. done.
    + rewrite O'. cbn. lia.
    + apply map_eq. intros q. apply option_eq. intros x. rewrite lookup_delete_Some, !loans_lookup by done. rewrite L'. split.
      * intros (j & c & Hj & Hq & Hx). destruct (proj1 (Hel c)) as (j' & Hne & Hj'); [eauto|]. apply Hsame in Hj'; [|done].
        split; [|by exists j', c]. intros Epq. apply Hne. eapply (ptr_inj (r_list r)); [done..|]. congruence.
      * intros [Hq (j & c & Hj & Hcq & Hx)]. destruct (proj2 (Hel c)) as [j' Hj']; [|by exists j', c].
        exists j. assert (j <> i) by (intros ->; congruence). split; [done|]. by apply Hsame.
  - rewrite (proj2 (Z.eqb_neq (b_refs b - 1) 0)) by lia. cbn [negb fst snd]. exists r1. split; [done|]. split_and!.
    + unfold reg_ok; cbn [r1 r_list r_idx r_tombs r_outstanding set_outstanding set_list]. rewrite Hpt. split_and!; try done; try lia.
      apply Forall_insert; [done|]. cbn. lia.
    + cbn. lia.
    + change (loans r1) with (loans (set_list r (<[i := b1]> (r_list r)))). by rewrite Hlo, <- Hp.
Qed.
End RegistryLemmas.

(** * What the registry promises *)
Inductive RegOp := RBorrow (mem : bool) (p : Z) | RUnborrow (p : Z) | RRetire (p obj : Z) | RFind (p : Z).
(** The answer of a call: the object it destroys, or whether (and where) the pointer is lent. *)
Inductive RegRes := ResNone | ResFreed (o : option Z) | ResMarked (ok : bool) | ResLent (ok : bool).
Definition reg_step (op : RegOp) (r : Registry) : option (Registry * RegRes) :=
  match op with
  | RBorrow mem p => r ← borrow mem r p; Some (r, ResNone)
  | RUnborrow p => '(r, o) ← unborrow r p; Some (r, ResFreed o)
  | RRetire p obj => '(r, ok) ← mark_retired r p obj; Some (r, ResMarked ok)
  | RFind p => at_ ← borrow_find r p; Some (r, ResLent (negb (at_ =? kNoBorrow)))
  end.
Definition loan_step (op : RegOp) (L : gmap Z (Z * option Z)) : gmap Z (Z * option Z) * RegRes :=
  match op with
  | RBorrow _ p => (borrow_map L p, ResNone)
  | RUnborrow p => let '(L, o) := unborrow_map L p in (L, ResFreed o)
  | RRetire p obj => let '(L, ok) := retire_map L p obj in (L, ResMarked ok)
  | RFind p => (L, ResLent (bool_decide (is_Some (L !! p))))
  end.
Fixpoint run_reg (ops : list RegOp) (r : Registry) : option (Registry * list RegRes) :=
  match ops with
  | [] => Some (r, [])
  | op :: ops => '(r, x) ← reg_step op r; '(r, xs) ← run_reg ops r; Some (r, x :: xs)
  end.
Fixpoint run_loans (ops : list RegOp) (L : gmap Z (Z * option Z)) : gmap Z (Z * option Z) * list RegRes :=
  match ops with
  | [] => (L, [])
  | op :: ops => let '(L, x) := loan_step op L in let '(L, xs) := run_loans ops L in (L, x :: xs)
  end.

Lemma reg_step_spec op r : reg_ok r -> r_outstanding r < 2 ^ 28 ->
  exists r', reg_step op r = Some (r', (loan_step op (loans r)).2) /\ reg_ok r' /\
    r_outstanding r' <= r_outstanding r + 1 /\ loans r' = (loan_step op (loans r)).1.
Proof.
  intros Hok Hb. destruct op as [mem p|p|p obj|p]; cbn [reg_step loan_step].
  - destruct (borrow_spec mem r p Hok Hb) as (r' & -> & Hok' & Ho & Hl). rewrite some_bind. exists r'. split_and!; done || lia.
  - destruct (unborrow_spec r p Hok) as (r' & -> & Hok' & Ho & Hl). rewrite some_bind. exists r'.
    destruct (unborrow_map (loans r) p) as [L o]. cbn in *. split_and!; done || lia.
  - destruct (retired_spec r p obj Hok) as (r' & -> & Hok' & Ho & Hl). rewrite some_bind. exists r'.
    destruct (retire_map (loans r) p obj) as [L ok]. cbn in *. split_and!; done || lia.
  - pose proof Hok as (Hnd & _). destruct (find_spec r p Hok) as [-> Hc]. rewrite some_bind. exists r. cbn [fst snd].
    split_and!; try done; try lia. do 4 f_equal. destruct Hc as [(i & b & Hi & Hp & _ & ->)|[-> Hn]].
    + symmetry. apply bool_decide_eq_true_2. exists (b_refs b, b_retired b). apply loans_lookup; [done|]. by exists i, b.
    + rewrite Z.eqb_refl. symmetry. apply bool_decide_eq_false_2. rewrite (loans_absent r p Hnd Hn). by intros [].
Qed.
Lemma run_reg_spec ops r : reg_ok r -> r_outstanding r + Z.of_nat (length ops) <= 2 ^ 28 ->
  exists r', run_reg ops r = Some (r', (run_loans ops (loans r)).2) /\ reg_ok r' /\
    loans r' = (run_loans ops (loans r)).1.
Proof.
  revert r. induction ops as [|op ops IH]; intros r Hok Hn; cbn [run_reg run_loans length] in *.
  { exists r. done. }
  destruct (reg_step_spec op r Hok ltac:(lia)) as (r1 & -> & Hok1 & Ho1 & Hl1). rewrite some_bind.
  destruct (IH r1 Hok1 ltac:(lia)) as (r2 & -> & Hok2 & Hl2). rewrite some_bind.
  exists r2. rewrite Hl1 in *. destruct (loan_step op (loans r)) as [L x]. cbn [fst snd] in *.
  destruct (run_loans ops L) as [L' xs]. done.
Qed.
Lemma reg_new_ok : reg_ok reg_new.
Proof. unfold reg_ok; cbn. split_and!; try done; first [apply NoDup_nil_2|by constructor|by left]. Qed.

(** C25: The borrow registry refines a map from lent pointers to their loan counts.  For any
    sequence of loans, releases, retirements and lookups, with or without the hash index and
    through every rebuild, tombstone and failed index allocation, each lookup answers what the map
    says, an object retired while its bytes are lent is destroyed by the release of the last loan
    and by no other call, and the vector holds exactly the pointers with an open loan. *)
Theorem borrow_registry_refines ops : Z.of_nat (length ops) <= 2 ^ 28 ->
  exists r, run_reg ops reg_new = Some (r, (run_loans ops ∅).2) /\ loans r = (run_loans ops ∅).1 /\
    forall p, borrow_find r p = Some (scan_find (r_list r) 0 p).
Proof.
  intros Hn. destruct (run_reg_spec ops reg_new reg_new_ok ltac:(cbn; lia)) as (r & E & Hok & Hl).
  change (loans reg_new) with (∅ : gmap Z (Z * option Z)) in E, Hl. exists r. split_and!; [done|done|].
  intros p. by apply find_spec.
Qed.
(** Forty pointers lent, one of them retired, released and looked up through the index. *)
Definition witness_reg : list RegOp :=
  ((fun i => RBorrow true (Z.of_nat i * 64)) <$> seq 1 40) ++
  [RRetire 128 7; RUnborrow 640; RFind 640; RUnborrow 128; RFind 2560].
Lemma borrow_registry_refines_witness :
  exists r, run_reg witness_reg reg_new = Some (r, (run_loans witness_reg ∅).2) /\
    drop 41 (run_loans witness_reg ∅).2 = [ResFreed None; ResLent false; ResFreed (Some 7); ResLent true].
Proof.
  destruct (borrow_registry_refines witness_reg ltac:(vm_compute; done)) as (r & E & _).
  exists r. split; [exact E|]. vm_compute. reflexivity.
Defined.
