(* ===== verification/FlatStore.v ===== *)
(** flatstore.h, [FlatStore]: the key table of one shard.

    Two tables of 64-bit words; a word is empty (0), a tombstone, or a 15-bit tag and the 48-bit
    address of an object.  Growth and shrinking install a second table and move eight old slots per
    mutation.  Objects live in an explicit heap: following an address that is not allocated, or
    freeing one twice, is [None], and so is an access outside a table.

    The object layout of kvobj.h appears as the decoded fields the store reads.  The model is the
    store in its default configuration: no capture in progress, no memory limit, no foreign
    readers and no open atomic group.  [mem] answers the table allocation of a call, [memi] the
    allocation of the expiry index. *)
From stdpp Require Import gmap.
From S2P Require Import Prelude Slice Hash Probe ExpireIndex Borrow.

(** * Objects *)
(** [o_slot]: a deadline slot exists; [o_bytes]: the accounted footprint; [o_value]: the address of
    the value bytes of a string that is not an integer, the only bytes that can be lent. *)
Record KvObj := mkObj { o_key : bytes; o_slot : bool; o_deadline : Z; o_bytes : Z; o_value : option Z }.
Definition expire_at_ms (o : KvObj) : Z := if o_slot o then o_deadline o else kNoTtlDeadline.
Definition set_expire_at_ms (o : KvObj) (at_ : Z) : KvObj :=
  mkObj (o_key o) (o_slot o) at_ (o_bytes o) (o_value o).

(** * State *)
Record Tab := mkTab { t_words : list Z; t_cap : Z; t_mask : Z; t_live : Z; t_tombs : Z }.
(** [tab_[t] == nullptr]. *)
Definition null_tab : Tab := mkTab [] 0 0 0 0.
Record Store := mkStore {
  s_heap : gmap Z KvObj; s_t0 : Tab; s_t1 : Tab; s_pos : Z;
  s_bytes : Z; s_pending : Z; s_reg : Registry; s_exp : ExpireIndex;
  s_now : Z; s_expired : Z; s_rehashes : Z; s_lag : Z; s_aof : list bytes }.

Definition kPtrMask : Z := 2 ^ 48 - 1.
Definition kTombBit : Z := 2 ^ 48.
Definition kLoadPct : Z := 70.
Definition kMinCap : Z := 64.
Definition kRehashSlotsPerOp : nat := 8.

Definition set_tabs (s : Store) (t0 t1 : Tab) (pos : Z) : Store :=
  mkStore (s_heap s) t0 t1 pos (s_bytes s) (s_pending s) (s_reg s) (s_exp s) (s_now s) (s_expired s)
          (s_rehashes s) (s_lag s) (s_aof s).
Definition set_mem (s : Store) (h : gmap Z KvObj) (bytes_ pending : Z) (r : Registry) : Store :=
  mkStore h (s_t0 s) (s_t1 s) (s_pos s) bytes_ pending r (s_exp s) (s_now s) (s_expired s) (s_rehashes s)
          (s_lag s) (s_aof s).
Definition set_heap (s : Store) (h : gmap Z KvObj) : Store := set_mem s h (s_bytes s) (s_pending s) (s_reg s).
Definition set_exp (s : Store) (e : ExpireIndex) : Store :=
  mkStore (s_heap s) (s_t0 s) (s_t1 s) (s_pos s) (s_bytes s) (s_pending s) (s_reg s) e (s_now s) (s_expired s)
          (s_rehashes s) (s_lag s) (s_aof s).
Definition set_stats (s : Store) (now expired rehashes lag : Z) (aof : list bytes) : Store :=
  mkStore (s_heap s) (s_t0 s) (s_t1 s) (s_pos s) (s_bytes s) (s_pending s) (s_reg s) (s_exp s) now expired
          rehashes lag aof.
Definition add_bytes (s : Store) (n : Z) : Store := set_mem s (s_heap s) (u64 (s_bytes s + n)) (s_pending s) (s_reg s).
Definition count_expired (s : Store) : Store :=
  set_stats s (s_now s) (u64 (s_expired s + 1)) (s_rehashes s) (s_lag s) (s_aof s).
Definition count_rehash (s : Store) : Store :=
  set_stats s (s_now s) (s_expired s) (u64 (s_rehashes s + 1)) (s_lag s) (s_aof s).
Definition record_delete (s : Store) (key : bytes) : Store :=
  set_stats s (s_now s) (s_expired s) (s_rehashes s) (s_lag s) (s_aof s ++ [key]).
Definition set_now (s : Store) (now : Z) : Store :=
  set_stats s now (s_expired s) (s_rehashes s) (s_lag s) (s_aof s).
(** [tab_[t]] and its counters. *)
Definition tab (s : Store) (t : bool) : Tab := if t then s_t1 s else s_t0 s.
Definition set_tab (s : Store) (t : bool) (x : Tab) : Store :=
  if t then set_tabs s (s_t0 s) x (s_pos s) else set_tabs s x (s_t1 s) (s_pos s).

Definition rehashing (s : Store) : bool := negb (t_cap (s_t1 s) =? 0).
Definition store_size (s : Store) : Z := u32 (t_live (s_t0 s) + t_live (s_t1 s)).

(** * Words *)
Definition tag_of (h : Z) : Z := Z.land (Z.shiftr h 49) 0x7fff.
Definition ptr_of (w : Z) : Z := Z.land w kPtrMask.
(** The assertion of [make_word] stays in every build the Makefile produces. *)
Definition make_word (tag p : Z) : option Z :=
  if Z.land p (u64 (Z.lnot kPtrMask)) =? 0 then Some (Z.lor (u64 (Z.shiftl tag 49)) p) else None.
Definition slot_start (t : Tab) (h : Z) : Z := Z.land (u32 (mix64 h)) (t_mask t).
Definition next_slot (t : Tab) (i : Z) : Z := Z.land (u32 (i + 1)) (t_mask t).
Definition empty_table (cap : Z) : Tab := mkTab (replicate (Z.to_nat cap) 0) cap (cap - 1) 0 0.

Fixpoint round_pow2_loop (fuel : nat) (p v : Z) : option Z :=
  match fuel with
  | O => None
  | S fuel =>
      if p <? v then if UINT32_MAX <? p * 2 then Some 0 else round_pow2_loop fuel (p * 2) v
      else Some p
  end.
Definition round_pow2 (v : Z) : option Z := round_pow2_loop 32 kMinCap v.

Section Store.
Context (cfg : HashCfg) (sc : bool).

(** [FlatStore(initial_cap)]; [None] is [std::bad_alloc]. *)
Definition store_new (mem : bool) (initial_cap : Z) : option Store :=
  cap ← round_pow2 initial_cap;
  if (cap =? 0) || negb mem then None
  else Some (mkStore ∅ (empty_table cap) null_tab 0 0 0 reg_new e_new 0 0 0 0 []).

Definition deadline (s : Store) (h : Z) (o : KvObj) : option Z :=
  if negb (o_slot o) then Some kNoTtlDeadline
  else if sc then e_deadline sc (s_exp s) h (expire_at_ms o) else Some (expire_at_ms o).
Definition deadline_elapsed (s : Store) (h : Z) (o : KvObj) (now : Z) : option bool :=
  at_ ← deadline s h o; Some ((0 <=? at_) && (at_ <=? now)).

Definition untrack_expire (s : Store) (h : Z) : option Store :=
  '(e, _) ← e_erase (s_exp s) h; Some (set_exp s e).
Definition track_expire (memi : bool) (s : Store) (h : Z) (o : KvObj) : option Store :=
  let at_ := expire_at_ms o in
  if 0 <=? at_ then
    '(e, ok) ← e_insert memi sc (s_exp s) h at_;
    let s := set_exp s e in
    if ok : bool then Some s else if sc then untrack_expire s h else Some s
  else if e_size (s_exp s) =? 0 then Some s
  else untrack_expire s h.

(** [kvobj_free]: the block must be allocated. *)
Definition kvobj_free (h : gmap Z KvObj) (p : Z) : option (gmap Z KvObj) :=
  _ ← h !! p; Some (delete p h).
Definition retire_obj (s : Store) (p : Z) : option Store :=
  o ← s_heap s !! p;
  let bytes_ := u64 (s_bytes s - o_bytes o) in
  if r_outstanding (s_reg s) =? 0 then
    h ← kvobj_free (s_heap s) p; Some (set_mem s h bytes_ (s_pending s) (s_reg s))
  else
    '(r, lent) ← (match o_value o with Some v => mark_retired (s_reg s) v p | None => Some (s_reg s, false) end);
    if lent : bool then Some (set_mem s (s_heap s) bytes_ (u64 (s_pending s + o_bytes o)) r)
    else h ← kvobj_free (s_heap s) p; Some (set_mem s h bytes_ (s_pending s) r).

(** * Probing *)
(** [tag_of_word(w) == tag && o->key().key_eq(key)]. *)
Definition word_is (heap : gmap Z KvObj) (w tag : Z) (key : bytes) : option bool :=
  if negb (ptr_of w =? 0) && (tag_of w =? tag) then o ← heap !! ptr_of w; key_eq (o_key o) key else Some false.
(** The slot [find_in] stops at, with its object. *)
Fixpoint find_loop (n : nat) (heap : gmap Z KvObj) (t : Tab) (tag : Z) (key : bytes) (i : Z) : option (option (Z * Z)) :=
  match n with
  | O => Some None
  | S n =>
      w ← mem_get (t_words t) i;
      if w =? 0 then Some None
      else
        hit ← word_is heap w tag key;
        if hit : bool then Some (Some (i, ptr_of w)) else find_loop n heap t tag key (next_slot t i)
  end.
Definition find_slot_in (s : Store) (t : bool) (h : Z) (key : bytes) : option (option (Z * Z)) :=
  if t_cap (tab s t) =? 0 then Some None
  else find_loop (S (Z.to_nat (t_cap (tab s t)))) (s_heap s) (tab s t) (tag_of h) key (slot_start (tab s t) h).
Definition find_in (s : Store) (t : bool) (h : Z) (key : bytes) : option (option Z) :=
  r ← find_slot_in s t h key; Some (match r with Some (_, p) => Some p | None => None end).

(** Erasing: the found slot becomes a tombstone.  Answers removed and was-expired. *)
Definition erase_in (s : Store) (t : bool) (h : Z) (key : bytes) : option (Store * bool * bool) :=
  r ← find_slot_in s t h key;
  match r with
  | None => Some (s, false, false)
  | Some (i, p) =>
      o ← s_heap s !! p;
      expired ← deadline_elapsed s h o (s_now s);
      s ← untrack_expire s h;
      s ← retire_obj s p;
      let x := tab s t in
      ws ← put (t_words x) i kTombBit;
      Some (set_tab s t (mkTab ws (t_cap x) (t_mask x) (u32 (t_live x - 1)) (u32 (t_tombs x + 1))), true, expired)
  end.

(** What the insertion loop ends with: an empty slot (the first tombstone, if one was passed), a
    slot that holds the key, or a full turn. *)
Inductive Place := PlaceFree (i : Z) (over_tomb : bool) | PlaceSame (i p : Z) | PlaceNone.
Fixpoint insert_probe (n : nat) (heap : gmap Z KvObj) (t : Tab) (tag : Z) (key : bytes) (i first_tomb : Z) : option Place :=
  match n with
  | O => Some PlaceNone
  | S n =>
      w ← mem_get (t_words t) i;
      if w =? 0 then Some (if 0 <=? first_tomb then PlaceFree first_tomb true else PlaceFree i false)
      else if ptr_of w =? 0 then
        insert_probe n heap t tag key (next_slot t i) (if first_tomb <? 0 then i else first_tomb)
      else
        same ← (if tag_of w =? tag then o ← heap !! ptr_of w; Some (bool_decide (o_key o = key)) else Some false);
        if same : bool then Some (PlaceSame i (ptr_of w))
        else insert_probe n heap t tag key (next_slot t i) first_tomb
  end.
Definition insert_into (memi : bool) (s : Store) (t : bool) (h p : Z) (fresh : bool) : option (Store * bool) :=
  o ← s_heap s !! p;
  let x := tab s t in
  place ← insert_probe (S (Z.to_nat (t_cap x))) (s_heap s) x (tag_of h) (o_key o) (slot_start x h) (-1);
  match place with
  | PlaceNone => Some (s, false)
  | PlaceFree i over_tomb =>
      w ← make_word (tag_of h) p;
      ws ← put (t_words x) i w;
      let s := set_tab s t (mkTab ws (t_cap x) (t_mask x) (u32 (t_live x + 1))
                                  (if over_tomb then u32 (t_tombs x - 1) else t_tombs x)) in
      if fresh then s ← track_expire memi (add_bytes s (o_bytes o)) h o; Some (s, true) else Some (s, true)
  | PlaceSame i cur =>
      c ← s_heap s !! cur;
      elapsed ← (if fresh then deadline_elapsed s h c (s_now s) else Some false);
      let s := if elapsed : bool then count_expired s else s in
      s ← (if fresh then track_expire memi s h o else Some s);
      s ← retire_obj s cur;
      w ← make_word (tag_of h) p;
      ws ← put (t_words (tab s t)) i w;
      let x := tab s t in
      let s := set_tab s t (mkTab ws (t_cap x) (t_mask x) (t_live x) (t_tombs x)) in
      Some (if fresh then add_bytes s (o_bytes o) else s, true)
  end.

Definition live_or_expire (s : Store) (t : bool) (h : Z) (key : bytes) (p : Z) : option (Store * option Z) :=
  o ← s_heap s !! p;
  if negb (o_slot o) then Some (s, Some p)
  else
    at_ ← deadline s h o;
    if (at_ <? 0) || (s_now s <? at_) then Some (s, Some p)
    else
      '(s, _, _) ← erase_in (record_delete s key) t h key;
      Some (count_expired s, None).

(** * Resizing *)
Definition start_rehash (mem : bool) (s : Store) (newcap : Z) : Store * bool :=
  if rehashing s then (s, true)
  else
    let newcap := if newcap <? kMinCap then kMinCap else newcap in
    if negb mem then (s, false)
    else (set_tabs (count_rehash s) (empty_table newcap) (s_t0 s) 0, true).
Definition maybe_start_grow (mem : bool) (s : Store) : Store * bool :=
  let t := s_t0 s in
  if (t_live t + t_tombs t + 1) * 100 <? t_cap t * kLoadPct then (s, true)
  else
    let wanted := if t_cap t * kLoadPct <=? t_live t * 200 then t_cap t * 2 else t_cap t in
    if UINT32_MAX <? wanted then (s, false) else start_rehash mem s wanted.
Definition maybe_start_shrink (mem : bool) (s : Store) : Store :=
  let t := s_t0 s in
  if rehashing s || (t_cap t <=? kMinCap) then s
  else if t_cap t * kLoadPct <? t_live t * 400 then s
  else (start_rehash mem s (t_cap t / 2)).1.

(** The loop of [rehash_step]; [false] is its early return. *)
Fixpoint rehash_loop (n : nat) (s : Store) : option (Store * bool) :=
  match n with
  | O => Some (s, true)
  | S n =>
      let x := s_t1 s in
      w ← mem_get (t_words x) (s_pos s);
      if negb (ptr_of w =? 0) then
        o ← s_heap s !! ptr_of w;
        h ← hash_key cfg (o_key o);
        '(s, ok) ← insert_into true s false h (ptr_of w) false;
        if negb ok then Some (s, false)
        else
          ws ← put (t_words x) (s_pos s) kTombBit;
          rehash_loop n (set_tabs s (s_t0 s) (mkTab ws (t_cap x) (t_mask x) (u32 (t_live x - 1)) (u32 (t_tombs x + 1)))
                                  (s_pos s + 1))
      else rehash_loop n (set_tabs s (s_t0 s) x (s_pos s + 1))
  end.
Definition rehash_step (s : Store) : option Store :=
  let end_ := Z.min (s_pos s + Z.of_nat kRehashSlotsPerOp) (t_cap (s_t1 s)) in
  '(s, ok) ← rehash_loop (Z.to_nat (end_ - s_pos s)) s;
  if ok && (t_cap (s_t1 s) <=? s_pos s) then Some (set_tabs s (s_t0 s) null_tab 0) else Some s.

(** * Operations *)
Definition find (s : Store) (h : Z) (key : bytes) : option (Store * option Z) :=
  r ← find_in s false h key;
  '(s, found) ← (match r with Some p => live_or_expire s false h key p | None => Some (s, None) end);
  if rehashing s && negb (bool_decide (is_Some found)) then
    r ← find_in s true h key;
    match r with Some p => live_or_expire s true h key p | None => Some (s, None) end
  else Some (s, found).
Definition find_resident (s : Store) (h : Z) (key : bytes) : option (option Z) :=
  r ← find_in s false h key;
  match r with
  | Some p => Some (Some p)
  | None => if rehashing s then find_in s true h key else Some None
  end.

Inductive InsertResult := Inserted | Failed.
Definition insert (mem memi : bool) (s : Store) (h p : Z) : option (Store * InsertResult) :=
  '(s, ok) ← (if rehashing s then s ← rehash_step s; Some (s, true) else Some (maybe_start_grow mem s));
  if negb ok then Some (s, Failed)
  else
    o ← s_heap s !! p;
    s ← (if rehashing s then
           '(s, removed, expired) ← erase_in s true h (o_key o);
           Some (if removed && expired then count_expired s else s)
         else Some s);
    '(s, ok) ← insert_into memi s false h p true;
    Some (s, if ok : bool then Inserted else Failed).

Definition erase (mem : bool) (s : Store) (h : Z) (key : bytes) : option (Store * bool) :=
  s ← (if rehashing s then rehash_step s else Some s);
  '(s, removed, expired) ← erase_in s false h key;
  if removed : bool then
    let s := maybe_start_shrink mem s in
    Some (if expired : bool then count_expired s else s, negb expired)
  else if rehashing s then
    '(s, removed, expired) ← erase_in s true h key;
    if removed : bool then
      let s := maybe_start_shrink mem s in
      Some (if expired : bool then count_expired s else s, negb expired)
    else Some (s, false)
  else Some (s, false).

(** * Deadlines *)
Inductive TtlResult := TtlMissing | TtlNoChange | TtlUpdated | TtlOom.
(** What the allocator gives a new object: its address, the footprint of its size class, and the
    address of its value bytes. *)
Record Alloc := mkAlloc { al_addr : Z; al_bytes : Z; al_value : Z }.
(** [kvobj_reheader]: a copy of the object with the given deadline. *)
Definition kvobj_reheader (src : KvObj) (at_ : Z) (a : Alloc) : KvObj :=
  mkObj (o_key src) (o_slot src || (0 <=? at_)) at_ (al_bytes a)
        (match o_value src with Some _ => Some (al_value a) | None => None end).
Definition rewrite_expire (mem memi : bool) (a : option Alloc) (s : Store) (h p at_ : Z) : option (Store * TtlResult) :=
  old ← s_heap s !! p;
  match a with
  | None => Some (s, TtlOom)
  | Some a =>
      let s := set_heap s (<[al_addr a := kvobj_reheader old at_ a]> (s_heap s)) in
      '(s, r) ← insert mem memi s h (al_addr a);
      match r with
      | Inserted => Some (s, TtlUpdated)
      | Failed => heap ← kvobj_free (s_heap s) (al_addr a); Some (set_heap s heap, TtlOom)
      end
  end.
Definition set_expire (mem memi : bool) (a : option Alloc) (s : Store) (h : Z) (key : bytes) (at_ : Z) : option (Store * TtlResult) :=
  '(s, r) ← find s h key;
  match r with
  | None => Some (s, TtlMissing)
  | Some p =>
      old ← s_heap s !! p;
      if o_slot old then
        let o := set_expire_at_ms old at_ in
        s ← track_expire memi (set_heap s (<[p := o]> (s_heap s))) h o;
        Some (s, TtlUpdated)
      else rewrite_expire mem memi a s h p at_
  end.
Definition persist (s : Store) (h : Z) (key : bytes) : option (Store * TtlResult) :=
  '(s, r) ← find s h key;
  match r with
  | None => Some (s, TtlMissing)
  | Some p =>
      old ← s_heap s !! p;
      at_ ← deadline s h old;
      if at_ <? 0 then Some (s, TtlNoChange)
      else s ← untrack_expire (set_heap s (<[p := set_expire_at_ms old kNoTtlDeadline]> (s_heap s))) h; Some (s, TtlUpdated)
  end.
Definition watch_deadline (s : Store) (h : Z) (key : bytes) : option Z :=
  r ← find_resident s h key;
  match r with
  | None => Some (-1)
  | Some p => o ← s_heap s !! p; at_ ← deadline s h o; Some (if s_now s <? at_ then at_ else -1)
  end.

(** * Lent values *)
Definition store_borrow (memv : bool) (s : Store) (v : Z) : option Store :=
  r ← borrow memv (s_reg s) v; Some (set_mem s (s_heap s) (s_bytes s) (s_pending s) r).
Definition store_unborrow (s : Store) (v : Z) : option Store :=
  '(r, freed) ← unborrow (s_reg s) v;
  match freed with
  | None => Some (set_mem s (s_heap s) (s_bytes s) (s_pending s) r)
  | Some q =>
      o ← s_heap s !! q; heap ← kvobj_free (s_heap s) q;
      Some (set_mem s heap (s_bytes s) (u64 (s_pending s - o_bytes o)) r)
  end.

(** * Active expiry *)
Fixpoint find_hash_loop (n : nat) (s : Store) (t : Tab) (h i : Z) : option (option Z) :=
  match n with
  | O => Some None
  | S n =>
      w ← mem_get (t_words t) i;
      if w =? 0 then Some None
      else
        hit ← (if negb (ptr_of w =? 0) && (tag_of w =? tag_of h) then
                 o ← s_heap s !! ptr_of w;
                 if o_slot o then
                   h' ← hash_key cfg (o_key o);
                   if h' =? h then at_ ← deadline s h o; Some (0 <=? at_) else Some false
                 else Some false
               else Some false);
        if hit : bool then Some (Some (ptr_of w)) else find_hash_loop n s t h (next_slot t i)
  end.
Definition find_hash_in (s : Store) (t : bool) (h : Z) : option (option Z) :=
  let x := tab s t in
  if t_cap x =? 0 then Some None else find_hash_loop (S (Z.to_nat (t_cap x))) s x h (slot_start x h).
Definition note_active_expire_reap (s : Store) (at_ : Z) : Store :=
  if (at_ <? 0) || (s_now s <=? at_) then s
  else
    let lag := s_now s - at_ in
    let bounded := if UINT32_MAX <? lag then UINT32_MAX else lag in
    if s_lag s <? bounded then set_stats s (s_now s) (s_expired s) (s_rehashes s) bounded (s_aof s) else s.
(** The callback of the sampling loop. *)
Definition expire_visit (s : Store) (h removed : Z) : option (Store * Z) :=
  r ← find_hash_in s false h;
  r ← (match r with Some p => Some (Some p) | None => if rehashing s then find_hash_in s true h else Some None end);
  match r with
  | None => s ← untrack_expire s h; Some (s, removed)
  | Some p =>
      o ← s_heap s !! p;
      if negb (o_slot o) then s ← untrack_expire s h; Some (s, removed)
      else
        at_ ← deadline s h o;
        if at_ <? 0 then s ← untrack_expire s h; Some (s, removed)
        else if s_now s <? at_ then Some (s, removed)
        else
          '(s, erased, _) ← erase_in (record_delete s (o_key o)) false h (o_key o);
          '(s, erased) ← (if erased : bool then Some (s, true)
                          else if rehashing s then '(s, erased, _) ← erase_in s true h (o_key o); Some (s, erased)
                          else Some (s, false));
          Some (if erased : bool then (count_expired (note_active_expire_reap s at_), u32 (removed + 1)) else (s, removed))
  end.
(** The index is a field of the store the callback works on. *)
Definition expire_cb (h : Z) (e : ExpireIndex) (x : Store * Z) : option (ExpireIndex * (Store * Z)) :=
  '(s, removed) ← expire_visit (set_exp x.1 e) h x.2; Some (s_exp s, (s, removed)).
Definition active_expire (s : Store) (budget : Z) : option (Store * Z) :=
  let resizing := rehashing s in
  s ← (if resizing then rehash_step s else Some s);
  '(e, (s, removed), _) ← sample expire_cb sc budget (s_exp s) (s, if resizing then 1 else 0);
  let s := set_exp s e in
  Some (s, if e_rehashing e then u32 (removed + 1) else removed).

(** * SCAN *)
(** The walkers' callback only reads the object; the model lists the addresses it was shown. *)
Definition scan_visit (s : Store) (t : bool) (h p : Z) (expire_on_visit : bool) : option (Store * list Z) :=
  if negb expire_on_visit then Some (s, [p])
  else
    o ← s_heap s !! p;
    dead ← deadline_elapsed s h o (s_now s);
    if dead : bool then '(s, _, _) ← erase_in (record_delete s (o_key o)) t h (o_key o); Some (count_expired s, [])
    else Some (s, [p]).
Fixpoint scan_home_loop (n : nat) (s : Store) (t : bool) (home : Z) (expire_on_visit : bool) (i examined : Z) (out : list Z) :
  option (Store * Z * list Z) :=
  match n with
  | O => Some (s, examined, out)
  | S n =>
      w ← mem_get (t_words (tab s t)) i;
      if w =? 0 then Some (s, examined, out)
      else
        '(s, shown) ←
          (if negb (ptr_of w =? 0) then
             o ← s_heap s !! ptr_of w;
             h ← hash_key cfg (o_key o);
             if slot_start (tab s t) h =? home then scan_visit s t h (ptr_of w) expire_on_visit else Some (s, [])
           else Some (s, []));
        scan_home_loop n s t home expire_on_visit (next_slot (tab s t) i) (u32 (examined + 1)) (out ++ shown)
  end.
(** Slots examined (never zero) and the objects shown. *)
Definition scan_home (s : Store) (t : bool) (home : Z) (expire_on_visit : bool) : option (Store * Z * list Z) :=
  '(s, examined, out) ← scan_home_loop (S (Z.to_nat (t_cap (tab s t)))) s t home expire_on_visit home 0 [];
  Some (s, if examined =? 0 then 1 else examined, out).
(** The inner [do ... while] over the homes of the larger table. *)
Fixpoint scan_large (fuel : nat) (s : Store) (large : bool) (small_mask : Z) (expire_on_visit : bool) (cursor homes slots : Z)
  (out : list Z) : option (Store * Z * Z * Z * list Z) :=
  match fuel with
  | O => None
  | S fuel =>
      let large_mask := t_mask (tab s large) in
      '(s, n, shown) ← scan_home s large (u32 (Z.land cursor large_mask)) expire_on_visit;
      let cursor := scan_cursor_next cursor large_mask in
      let homes := u32 (homes + 1) in let slots := u64 (slots + n) in let out := out ++ shown in
      if negb (Z.land cursor (Z.lxor small_mask large_mask) =? 0)
      then scan_large fuel s large small_mask expire_on_visit cursor homes slots out
      else Some (s, cursor, homes, slots, out)
  end.
(** One turn of the outer loop. *)
Definition scan_turn (s : Store) (cursor homes slots : Z) (expire_on_visit : bool) (out : list Z) :
  option (Store * Z * Z * Z * list Z) :=
  if negb (rehashing s) then
    '(s, n, shown) ← scan_home s false (Z.land (u32 cursor) (t_mask (s_t0 s))) expire_on_visit;
    Some (s, scan_cursor_next cursor (t_mask (s_t0 s)), u32 (homes + 1), u64 (slots + n), out ++ shown)
  else if t_mask (s_t0 s) =? t_mask (s_t1 s) then
    let home := Z.land (u32 cursor) (t_mask (s_t0 s)) in
    '(s, n0, shown0) ← scan_home s false home expire_on_visit;
    '(s, n1, shown1) ← scan_home s true home expire_on_visit;
    Some (s, scan_cursor_next cursor (t_mask (s_t0 s)), u32 (homes + 2), u64 (u64 (slots + n0) + n1), out ++ shown0 ++ shown1)
  else
    let small := negb (t_cap (s_t0 s) <? t_cap (s_t1 s)) in
    let large := negb small in
    let small_mask := t_mask (tab s small) in
    '(s, n, shown) ← scan_home s small (u32 (Z.land cursor small_mask)) expire_on_visit;
    scan_large (Z.to_nat (t_cap (tab s large))) s large small_mask expire_on_visit cursor (u32 (homes + 1)) (u64 (slots + n))
      (out ++ shown).
Fixpoint scan_loop (fuel : nat) (s : Store) (cursor count homes slots : Z) (expire_on_visit : bool) (out : list Z) :
  option (Store * Z * list Z) :=
  match fuel with
  | O => None
  | S fuel =>
      '(s, cursor, homes, slots, out) ← scan_turn s cursor homes slots expire_on_visit out;
      if negb (cursor =? 0) && (homes <? count) && (slots <? count * 10)
      then scan_loop fuel s cursor count homes slots expire_on_visit out
      else Some (s, cursor, out)
  end.
Definition scan (s : Store) (cursor count : Z) (expire_on_visit : bool) : option (Store * Z * list Z) :=
  if t_cap (s_t0 s) =? 0 then Some (s, 0, [])
  else scan_loop (S (Z.to_nat count)) s cursor count 0 0 expire_on_visit [].
End Store.
