(* ===== verification/FlatTable.v ===== *)
(** The two word tables of flatstore.h as finite maps from keys to object addresses.

    A table is related to a list of slots ([tab_rep]): an empty word, the tombstone, or the word of
    a live object whose key is read in the heap.  The probe loops of the store are then searches in
    the sense of [Probe], and each write of a word is an update of that list. *)
From stdpp Require Import gmap.
From S2P Require Import Prelude Slice Hash Probe ExpireIndex Borrow FlatStore.

(** * Words *)
Definition live_word (h p : Z) : Z := Z.lor (u64 (Z.shiftl (tag_of h) 49)) p.
Definition addr_ok (p : Z) : Prop := 0 < p < 2 ^ 48.

Lemma tag_range h : 0 <= tag_of h < 2 ^ 15.
Proof. unfold tag_of. change 0x7fff with (2 ^ 15 - 1). rewrite land_ones_mod by lia. apply Z.mod_pos_bound. lia. Qed.
Lemma ptr_low p : 0 <= p < 2 ^ 48 -> ptr_of p = p.
Proof. intros Hp. unfold ptr_of, kPtrMask. rewrite land_ones_mod by lia. by apply Z.mod_small. Qed.
Lemma live_word_add h p : 0 <= p < 2 ^ 48 -> live_word h p = tag_of h * 2 ^ 49 + p.
Proof.
  intros Hp. pose proof (tag_range h). unfold live_word. rewrite Z.shiftl_mul_pow2 by lia.
  rewrite u64_small by (change (2 ^ 15) with 32768 in *; change (2 ^ 49) with 562949953421312; lia).
  rewrite <- Z.lxor_lor, <- Z.add_nocarry_lxor; [done|..];
    (apply Z.bits_inj'; intros i Hi; rewrite Z.land_spec, Z.bits_0; destruct (decide (i < 49));
     [by rewrite Z.mul_pow2_bits_low|rewrite <- (Z.mod_small p (2 ^ 48)) by done; rewrite Z.mod_pow2_bits_high by lia;
      apply andb_false_r]).
Qed.
Lemma ptr_live h p : addr_ok p -> ptr_of (live_word h p) = p.
Proof.
  intros Hp. unfold addr_ok in Hp. rewrite live_word_add by lia. unfold ptr_of, kPtrMask.
  rewrite land_ones_mod by lia. replace (tag_of h * 2 ^ 49 + p) with (p + tag_of h * 2 * 2 ^ 48) by lia.
  rewrite Z_mod_plus_full. apply Z.mod_small. lia.
Qed.
Lemma tag_live h p : addr_ok p -> tag_of (live_word h p) = tag_of h.
Proof.
  intros Hp. pose proof (tag_range h). unfold addr_ok in Hp. rewrite live_word_add by lia. unfold tag_of at 1.
  change 0x7fff with (2 ^ 15 - 1). rewrite land_ones_mod, Z.shiftr_div_pow2 by lia.
  rewrite Z.div_add_l by lia. rewrite (Z.div_small p) by (split; [lia|]; eapply Z.lt_trans; [apply Hp|]; by vm_compute).
  rewrite Z.add_0_r. by apply Z.mod_small.
Qed.
Lemma live_word_nonzero h p : addr_ok p -> (live_word h p =? 0) = false.
Proof. intros Hp. pose proof (tag_range h). unfold addr_ok in Hp. rewrite live_word_add by lia. apply Z.eqb_neq. nia. Qed.
Lemma make_word_live h p : addr_ok p -> make_word (tag_of h) p = Some (live_word h p).
Proof.
  intros Hp. unfold make_word, live_word. assert (Z.land p (u64 (Z.lnot kPtrMask)) = 0) as ->; [|done].
  apply Z.bits_inj'. intros i Hi. rewrite Z.land_spec, Z.bits_0. unfold addr_ok in Hp. destruct (decide (i < 48)).
  - assert (Z.testbit (u64 (Z.lnot kPtrMask)) i = false) as ->; [|apply andb_false_r].
    rewrite testbit_u64, Z.lnot_spec by lia. change kPtrMask with (Z.ones 48).
    rewrite Z.testbit_ones_nonneg, (proj2 (Z.ltb_lt i 48)) by lia. apply andb_false_r.
  - rewrite <- (Z.mod_small p (2 ^ 48)) by lia. by rewrite Z.mod_pow2_bits_high by lia.
Qed.

(** * Tables *)
Section Tables.
Context (cfg : HashCfg).
Implicit Types (H : gmap Z KvObj) (t : Tab) (l : list (Slot bytes Z)) (key : bytes).

Definition khash key : Z := default 0 (hash_key cfg key).
Definition f_home (cap : Z) key : Z := Z.land (u32 (mix64 (khash key))) (cap - 1).
Definition word_rep H (w : Z) (x : Slot bytes Z) : Prop :=
  match x with
  | SEmpty => w = 0
  | STomb => w = kTombBit
  | SLive k p => exists o, H !! p = Some o /\ o_key o = k /\ Forall is_byte k /\
                   hash_key cfg k = Some (khash k) /\ addr_ok p /\ w = live_word (khash k) p
  end.
Definition tab_rep H t l : Prop :=
  (exists k, 6 <= k <= 31 /\ t_cap t = 2 ^ k) /\ Z.of_nat (length l) = t_cap t /\ t_mask t = t_cap t - 1 /\
  Forall2 (word_rep H) (t_words t) l /\ probe_ok (f_home (t_cap t)) l /\
  t_live t = count_if is_live l /\ t_tombs t = count_if is_tomb l /\ 0 < count_if is_empty l.
(** The old table: absent, or a table. *)
Definition old_rep H t l : Prop := t = null_tab /\ l = [] \/ tab_rep H t l.

Lemma tab_bounds H t l : tab_rep H t l ->
  64 <= t_cap t <= 2 ^ 31 /\ 0 <= t_live t /\ 0 <= t_tombs t /\ t_live t + t_tombs t < t_cap t /\
  count_if is_empty l + t_tombs t + t_live t = t_cap t /\ l <> [] /\ length (t_words t) = length l /\
  Z.of_nat (size (slots_map l)) = t_live t.
Proof.
  intros ((k & Hk & Hc) & Hl & _ & Hw & Hp & HL & HT & He). rewrite Hc in *.
  pose proof (Z.pow_le_mono_r 2 6 k ltac:(lia) ltac:(lia)). pose proof (Z.pow_le_mono_r 2 k 31 ltac:(lia) ltac:(lia)).
  change (2 ^ 6) with 64 in *. pose proof (count_split l). pose proof (count_if_nonneg is_live l).
  pose proof (count_if_nonneg is_tomb l). rewrite slots_map_size by apply Hp.
  split_and!; try lia; [|by eapply Forall2_length]. intros ->. cbn in Hl. lia.
Qed.
(** A table depends on the heap only through its own objects. *)
Lemma tab_rep_heap H H' t l : tab_rep H t l ->
  (forall i k p o, l !! i = Some (SLive k p) -> H !! p = Some o -> exists o', H' !! p = Some o' /\ o_key o' = o_key o) ->
  tab_rep H' t l.
Proof.
  intros (Hc & Hl & Hm & Hw & Hrest) Hh. split_and!; try done; try apply Hrest.
  apply Forall2_same_length_lookup. split; [by eapply Forall2_length|]. intros i w x Hi Hx.
  pose proof (Forall2_lookup_lr _ _ _ _ _ _ Hw Hi Hx) as Hr. destruct x as [| |k p]; [done|done|].
  destruct Hr as (o & Ho & Hk & Hrest'). destruct (Hh i k p o Hx Ho) as (o' & Ho' & E). exists o'. split; [done|].
  rewrite E. done.
Qed.
(** The word at a slot of the table. *)
Lemma word_at H t l i : tab_rep H t l -> 0 <= i < t_cap t ->
  exists w x, mem_get (t_words t) i = Some w /\ l !! Z.to_nat i = Some x /\ word_rep H w x.
Proof.
  intros Ht Hi. pose proof (tab_bounds H t l Ht) as (_ & _ & _ & _ & _ & _ & Hlen & _).
  destruct Ht as (_ & Hl & _ & Hw & _). destruct (lookup_lt_is_Some_2 l (Z.to_nat i)) as [x Hx]; [lia|].
  destruct (Forall2_lookup_r _ _ _ _ _ Hw Hx) as (w & Hwi & Hr). exists w, x. split_and!; try done.
  apply get_Some; [lia|done].
Qed.
Lemma next_slot_path H t l s d : tab_rep H t l -> next_slot t ((s + d) mod t_cap t) = (s + (d + 1)) mod t_cap t.
Proof.
  intros Ht. pose proof (tab_bounds H t l Ht) as (Hb & _). destruct Ht as ((k & Hk & Hc) & _ & Hm & _).
  unfold next_slot. rewrite Hm. change (2 ^ 31) with 2147483648 in Hb.
  pose proof (Z.mod_pos_bound (s + d) (t_cap t) ltac:(lia)). rewrite u32_small by lia. rewrite Hc. by apply next_index; lia.
Qed.
Lemma home_start H t l key h : tab_rep H t l -> hash_key cfg key = Some h ->
  slot_start t h = (f_home (t_cap t) key + 0) mod t_cap t.
Proof.
  intros Ht Hh. destruct Ht as ((k & Hk & Hc) & _ & Hm & _). assert (khash key = h) as E by (unfold khash; by rewrite Hh).
  unfold slot_start, f_home. rewrite Hm, E, Hc, Z.add_0_r, land_ones_mod by lia. symmetry. apply Z.mod_mod. lia.
Qed.

(** One step of a search, read off the word. *)
Inductive probe_word H t l key (d w : Z) : Prop :=
| pw_empty : w = 0 -> l !! path l (f_home (t_cap t) key) d = Some SEmpty -> slots_map l !! key = None -> probe_word H t l key d w
| pw_tomb : w = kTombBit -> l !! path l (f_home (t_cap t) key) d = Some STomb ->
    passed (f_home (t_cap t)) l key (d + 1) -> probe_word H t l key d w
| pw_hit p o : w = live_word (khash key) p -> addr_ok p -> H !! p = Some o -> o_key o = key ->
    l !! path l (f_home (t_cap t) key) d = Some (SLive key p) -> slots_map l !! key = Some p -> probe_word H t l key d w
| pw_other k p o : w = live_word (khash k) p -> addr_ok p -> H !! p = Some o -> o_key o = k -> Forall is_byte k -> k <> key ->
    passed (f_home (t_cap t)) l key (d + 1) -> probe_word H t l key d w.
Lemma probe_word_cases H t l key d : tab_rep H t l -> 0 <= d < t_cap t -> passed (f_home (t_cap t)) l key d ->
  exists w, mem_get (t_words t) ((f_home (t_cap t) key + d) mod t_cap t) = Some w /\ probe_word H t l key d w.
Proof.
  intros Ht Hd Hp. pose proof (tab_bounds H t l Ht) as (Hb & _). pose proof Ht as (_ & Hl & _ & _ & Hok & _).
  set (i := (f_home (t_cap t) key + d) mod t_cap t).
  assert (0 <= i < t_cap t) as Hi by (apply Z.mod_pos_bound; lia).
  assert (Z.to_nat i = path l (f_home (t_cap t) key) d) as Ei by (unfold path; by rewrite Hl).
  destruct (word_at H t l i Ht Hi) as (w & x & Hw & Hx & Hr). exists w. split; [done|]. rewrite Ei in Hx.
  destruct (probe_cases (f_home (t_cap t)) l key d Hok ltac:(lia) Hp) as [E Hn|v E Hm|E Hn|k v E Hk Hn];
    rewrite E in Hx; injection Hx as <-.
  - by apply pw_empty.
  - destruct Hr as (o & Ho & Hk & Hf & Hh & Ha & ->). by eapply pw_hit.
  - by apply pw_tomb.
  - destruct Hr as (o & Ho & Hk' & Hf & Hh & Ha & ->). by eapply (pw_other _ _ _ _ _ _ k v o).
Qed.
Lemma pass_on H t l key d : tab_rep H t l -> 0 <= d < t_cap t -> passed (f_home (t_cap t)) l key (d + 1) -> d + 1 < t_cap t.
Proof.
  intros Ht Hd Hp. destruct Ht as (_ & Hl & _ & _ & _ & _ & _ & He). destruct (decide (d + 1 = t_cap t)) as [E|]; [|lia].
  rewrite E, <- Hl in Hp. apply passed_round in Hp. lia.
Qed.

(** ** Lookup *)
Definition found l key (r : option (Z * Z)) : Prop :=
  match r with
  | None => slots_map l !! key = None
  | Some (i, p) => 0 <= i < Z.of_nat (length l) /\ l !! Z.to_nat i = Some (SLive key p) /\ slots_map l !! key = Some p
  end.
Lemma find_loop_spec n H t l key h d :
  tab_rep H t l -> Forall is_byte key -> hash_key cfg key = Some h -> 0 <= d < t_cap t ->
  passed (f_home (t_cap t)) l key d -> t_cap t - d <= Z.of_nat n ->
  exists r, find_loop n H t (tag_of h) key ((f_home (t_cap t) key + d) mod t_cap t) = Some r /\ found l key r.
Proof.
  intros Ht Hb Hh. assert (khash key = h) as Hkh by (unfold khash; by rewrite Hh).
  revert d. induction n as [|n IH]; intros d Hd Hp Hn; [lia|]. cbn [find_loop].
  destruct (probe_word_cases H t l key d Ht Hd Hp) as (w & -> & Hc). rewrite some_bind.
  rewrite (next_slot_path H t l _ d Ht). pose proof Ht as (_ & Hl & _).
  destruct Hc as [Ew E Hm|Ew E Hm|p o Ew Ha Ho Hk E Hm|k p o Ew Ha Ho Hk Hf Hne Hm]; subst w.
  - by exists None.
  - change (kTombBit =? 0) with false. change (word_is H kTombBit (tag_of h) key) with (Some false). rewrite some_bind. pose proof (pass_on _ _ _ _ _ Ht Hd Hm). apply IH; [lia|done|lia].
  - rewrite live_word_nonzero by done. unfold word_is. rewrite ptr_live, tag_live, Hkh, Z.eqb_refl by done.
    unfold addr_ok in Ha. rewrite (proj2 (Z.eqb_neq p 0)) by lia. cbn [negb andb]. rewrite Ho, some_bind, Hk, key_eq_answer by done.
    rewrite some_bind, bool_decide_eq_true_2 by done. eexists. split; [done|]. cbn [found].
    rewrite Hl. split_and!; try done; try (apply Z.mod_pos_bound; lia). rewrite <- E. f_equal. unfold path. by rewrite Hl.
  - rewrite live_word_nonzero by done. unfold word_is. rewrite ptr_live, tag_live by done. pose proof (pass_on _ _ _ _ _ Ht Hd Hm).
    match goal with |- context [if ?c then _ else Some false] => destruct c end.
    + rewrite Ho, some_bind, Hk, key_eq_answer by done. rewrite some_bind, bool_decide_eq_false_2 by done. apply IH; [lia|done|lia].
    + rewrite some_bind. apply IH; [lia|done|lia].
Qed.
Lemma find_slot_spec s b l key h :
  old_rep (s_heap s) (tab s b) l -> Forall is_byte key -> hash_key cfg key = Some h ->
  exists r, find_slot_in s b h key = Some r /\ found l key r.
Proof.
  intros [[E ->]|Ht] Hb Hh; unfold find_slot_in.
  - rewrite E. exists None. done.
  - pose proof (tab_bounds _ _ _ Ht) as (Hc & _). rewrite (proj2 (Z.eqb_neq _ 0)) by lia. rewrite (home_start _ _ _ _ _ Ht Hh).
    apply find_loop_spec; try done; [lia|apply passed_0|lia].
Qed.
Lemma find_in_spec s b l key h :
  old_rep (s_heap s) (tab s b) l -> Forall is_byte key -> hash_key cfg key = Some h ->
  find_in s b h key = Some (slots_map l !! key).
Proof.
  intros Hr Hb Hh. destruct (find_slot_spec s b l key h Hr Hb Hh) as (r & E & Hf). unfold find_in. rewrite E, some_bind.
  f_equal. destruct r as [[i p]|]; cbn in Hf; [symmetry; apply Hf|done].
Qed.

(** ** The insertion loop *)
Definition placed t l key (x : Place) : Prop :=
  match x with
  | PlaceNone => False
  | PlaceFree i tomb => slots_map l !! key = None /\
      exists e, 0 <= e < t_cap t /\ passed (f_home (t_cap t)) l key e /\ i = (f_home (t_cap t) key + e) mod t_cap t /\
        l !! path l (f_home (t_cap t) key) e = Some (if tomb then STomb else SEmpty)
  | PlaceSame i p => 0 <= i < t_cap t /\ l !! Z.to_nat i = Some (SLive key p) /\ slots_map l !! key = Some p
  end.
Definition first_tomb_seen t l key (d ft : Z) : Prop :=
  ft = -1 \/ exists e, 0 <= e < d /\ ft = (f_home (t_cap t) key + e) mod t_cap t /\
    l !! path l (f_home (t_cap t) key) e = Some STomb.
Lemma passed_le l t key d e : passed (f_home (t_cap t)) l key d -> e <= d -> passed (f_home (t_cap t)) l key e.
Proof. intros Hp He i Hi. apply Hp. lia. Qed.
Lemma tomb_seen_S t l key d ft : first_tomb_seen t l key d ft -> first_tomb_seen t l key (d + 1) ft.
Proof. intros [->|(e & He & Hr)]; [by left|]. right. exists e. split; [lia|done]. Qed.
Lemma insert_probe_spec n H t l key h d ft :
  tab_rep H t l -> hash_key cfg key = Some h -> 0 <= d < t_cap t ->
  passed (f_home (t_cap t)) l key d -> first_tomb_seen t l key d ft -> t_cap t - d <= Z.of_nat n ->
  exists x, insert_probe n H t (tag_of h) key ((f_home (t_cap t) key + d) mod t_cap t) ft = Some x /\ placed t l key x.
Proof.
  intros Ht Hh. assert (khash key = h) as Hkh by (unfold khash; by rewrite Hh). pose proof Ht as (_ & Hl & _).
  revert d ft. induction n as [|n IH]; intros d ft Hd Hp Hft Hn; [lia|]. cbn [insert_probe].
  destruct (probe_word_cases H t l key d Ht Hd Hp) as (w & -> & Hc). rewrite some_bind.
  rewrite (next_slot_path H t l _ d Ht).
  destruct Hc as [Ew E Hm|Ew E Hm|p o Ew Ha Ho Hk E Hm|k p o Ew Ha Ho Hk Hf Hne Hm]; subst w.
  - rewrite Z.eqb_refl. destruct Hft as [->|(e & He & -> & Ht')]; eexists; (split; [done|]).
    + split; [done|]. exists d. done.
    + rewrite (proj2 (Z.leb_le 0 _)) by (apply Z.mod_pos_bound; lia). split; [done|]. exists e.
      split_and!; try done; [lia|lia|]. apply (passed_le l t key d); [done|lia].
  - change (kTombBit =? 0) with false. change (ptr_of kTombBit =? 0) with true. cbv iota.
    pose proof (pass_on _ _ _ _ _ Ht Hd Hm). apply IH; [lia|done| |lia].
    destruct Hft as [->|(e & He & -> & Ht')].
    + right. exists d. split_and!; done || lia.
    + right. pose proof (Z.mod_pos_bound (f_home (t_cap t) key + e) (t_cap t) ltac:(lia)).
      rewrite (proj2 (Z.ltb_ge _ 0)) by lia. exists e. split_and!; done || lia.
  - rewrite live_word_nonzero, ptr_live, tag_live, Hkh, Z.eqb_refl by done.
    unfold addr_ok in Ha. rewrite (proj2 (Z.eqb_neq p 0)) by lia. rewrite Ho, some_bind, Hk, bool_decide_eq_true_2 by done.
    rewrite some_bind. eexists. split; [done|]. cbn [placed]. split_and!; try done; try (apply Z.mod_pos_bound; lia).
    rewrite <- E. f_equal. unfold path. by rewrite Hl.
  - rewrite live_word_nonzero, ptr_live, tag_live by done. unfold addr_ok in Ha. rewrite (proj2 (Z.eqb_neq p 0)) by lia.
    pose proof (pass_on _ _ _ _ _ Ht Hd Hm). apply tomb_seen_S in Hft.
    match goal with |- context [if ?c then _ else Some false] => destruct c end.
    + rewrite Ho, some_bind, Hk, bool_decide_eq_false_2 by done. rewrite some_bind. apply IH; [lia|done|done|lia].
    + rewrite some_bind. apply IH; [lia|done|done|lia].
Qed.
Lemma insert_place H t l key h : tab_rep H t l -> hash_key cfg key = Some h ->
  exists x, insert_probe (S (Z.to_nat (t_cap t))) H t (tag_of h) key (slot_start t h) (-1) = Some x /\ placed t l key x.
Proof.
  intros Ht Hh. pose proof (tab_bounds _ _ _ Ht) as (Hc & _). rewrite (home_start _ _ _ _ _ Ht Hh).
  apply insert_probe_spec; try done; [lia|apply passed_0|by left|lia].
Qed.

(** ** Writing a word *)
(** The objects of the other slots are still there, with their keys. *)
Definition keeps H H' l (i : Z) : Prop :=
  forall j k p o, j <> Z.to_nat i -> l !! j = Some (SLive k p) -> H !! p = Some o ->
    exists o', H' !! p = Some o' /\ o_key o' = o_key o.
Lemma write_rep H H' t l i x w live tombs :
  tab_rep H t l -> 0 <= i < t_cap t -> word_rep H' w x -> keeps H H' l i ->
  probe_ok (f_home (t_cap t)) (<[Z.to_nat i := x]> l) -> live = count_if is_live (<[Z.to_nat i := x]> l) ->
  tombs = count_if is_tomb (<[Z.to_nat i := x]> l) -> 0 < count_if is_empty (<[Z.to_nat i := x]> l) ->
  exists ws, put (t_words t) i w = Some ws /\
    tab_rep H' (mkTab ws (t_cap t) (t_mask t) live tombs) (<[Z.to_nat i := x]> l).
Proof.
  intros Ht Hi Hx Hk Hp HL HT He. pose proof (tab_bounds _ _ _ Ht) as (_ & _ & _ & _ & _ & _ & Hlen & _).
  destruct Ht as (Hc & Hl & Hm & Hw & _). rewrite put_Some by lia. eexists. split; [done|].
  unfold tab_rep. cbn [t_cap t_mask t_words t_live t_tombs]. rewrite length_insert. split_and!; try done.
  apply Forall2_same_length_lookup. rewrite !length_insert. split; [done|]. intros j w' x' Hj Hj'.
  apply list_lookup_insert_Some in Hj as [(<- & <- & _)|[Hne Hj]].
  - rewrite list_lookup_insert_eq in Hj' by lia. by injection Hj' as <-.
  - rewrite list_lookup_insert_ne in Hj' by done. pose proof (Forall2_lookup_lr _ _ _ _ _ _ Hw Hj Hj') as Hr.
    destruct x' as [| |k p]; [done|done|]. destruct Hr as (o & Ho & Hr).
    destruct (Hk j k p o) as (o' & Ho' & E); [done..|]. exists o'. by rewrite E.
Qed.
Lemma keeps_refl H l i : keeps H H l i.
Proof. intros j k p o _ _ Ho. eauto. Qed.

Lemma write_tomb H H' t l i key p :
  tab_rep H t l -> 0 <= i < t_cap t -> l !! Z.to_nat i = Some (SLive key p) -> keeps H H' l i ->
  exists ws, put (t_words t) i kTombBit = Some ws /\ slots_map (<[Z.to_nat i := STomb]> l) = delete key (slots_map l) /\
    1 <= t_live t /\ tab_rep H' (mkTab ws (t_cap t) (t_mask t) (u32 (t_live t - 1)) (u32 (t_tombs t + 1))) (<[Z.to_nat i := STomb]> l).
Proof.
  intros Ht Hi Hx Hk. pose proof (tab_bounds _ _ _ Ht) as (Hc & L0 & T0 & U0 & _).
  pose proof Ht as (_ & _ & _ & _ & Hp & HL & HT & He). change (2 ^ 31) with 2147483648 in Hc.
  destruct (probe_remove _ _ _ _ _ Hp Hx) as [Hp' Hm].
  pose proof (count_if_insert is_live _ _ STomb _ Hx) as CL. pose proof (count_if_insert is_tomb _ _ STomb _ Hx) as CT.
  pose proof (count_if_insert is_empty _ _ STomb _ Hx) as CE. cbn [is_live is_tomb is_empty Z.b2z] in CL, CT, CE.
  pose proof (count_if_nonneg is_live (<[Z.to_nat i := STomb]> l)).
  destruct (write_rep H H' t l i STomb kTombBit (u32 (t_live t - 1)) (u32 (t_tombs t + 1))) as (ws & -> & Hr); try done;
    [rewrite u32_small; lia|rewrite u32_small; lia|lia|].
  exists ws. split_and!; done || lia.
Qed.
Lemma write_same H H' t l i key p q :
  tab_rep H t l -> 0 <= i < t_cap t -> l !! Z.to_nat i = Some (SLive key p) -> keeps H H' l i ->
  word_rep H' (live_word (khash key) q) (SLive key q) ->
  exists ws, put (t_words t) i (live_word (khash key) q) = Some ws /\
    slots_map (<[Z.to_nat i := SLive key q]> l) = <[key := q]> (slots_map l) /\
    tab_rep H' (mkTab ws (t_cap t) (t_mask t) (t_live t) (t_tombs t)) (<[Z.to_nat i := SLive key q]> l).
Proof.
  intros Ht Hi Hx Hk Hq. pose proof Ht as (_ & _ & _ & _ & Hp & HL & HT & He).
  destruct (probe_replace _ _ _ _ _ q Hp Hx) as [Hp' Hm].
  pose proof (count_if_insert is_live _ _ (SLive key q) _ Hx) as CL. pose proof (count_if_insert is_tomb _ _ (SLive key q) _ Hx) as CT.
  pose proof (count_if_insert is_empty _ _ (SLive key q) _ Hx) as CE. cbn [is_live is_tomb is_empty Z.b2z] in CL, CT, CE.
  destruct (write_rep H H' t l i (SLive key q) (live_word (khash key) q) (t_live t) (t_tombs t)) as (ws & -> & Hr); try done; try lia.
  by exists ws.
Qed.
Lemma write_fill H t l i tomb key q :
  tab_rep H t l -> placed t l key (PlaceFree i tomb) -> word_rep H (live_word (khash key) q) (SLive key q) ->
  t_live t + t_tombs t + 1 < t_cap t ->
  exists ws l', put (t_words t) i (live_word (khash key) q) = Some ws /\ slots_map l' = <[key := q]> (slots_map l) /\
    tab_rep H (mkTab ws (t_cap t) (t_mask t) (u32 (t_live t + 1)) (if tomb then u32 (t_tombs t - 1) else t_tombs t)) l'.
Proof.
  intros Ht [Hn (e & He & Hpe & -> & Hx)] Hq Hroom. pose proof (tab_bounds _ _ _ Ht) as (Hc & L0 & T0 & U0 & C0 & _).
  pose proof Ht as (_ & Hl & _ & _ & Hp & HL & HT & _). change (2 ^ 31) with 2147483648 in Hc.
  destruct (probe_fill _ _ e key q _ Hp Hn ltac:(lia) Hpe Hx) as [Hp' Hm]; [by destruct tomb|].
  set (i := (f_home (t_cap t) key + e) mod t_cap t) in *.
  assert (path l (f_home (t_cap t) key) e = Z.to_nat i) as Ei by (unfold path; by rewrite Hl). rewrite Ei in *.
  assert (0 <= i < t_cap t) as Hi by (apply Z.mod_pos_bound; lia).
  pose proof (count_if_insert is_live _ _ (SLive key q) _ Hx) as CL. pose proof (count_if_insert is_tomb _ _ (SLive key q) _ Hx) as CT.
  pose proof (count_if_insert is_empty _ _ (SLive key q) _ Hx) as CE.
  pose proof (count_if_nonneg is_tomb (<[Z.to_nat i := SLive key q]> l)).
  destruct (write_rep H H t l i (SLive key q) (live_word (khash key) q) (u32 (t_live t + 1)) (if tomb then u32 (t_tombs t - 1) else t_tombs t))
    as (ws & -> & Hr); try done; try apply keeps_refl;
    [destruct tomb; cbn [is_live is_tomb is_empty Z.b2z] in CL, CT, CE; rewrite ?u32_small by lia; lia..|].
  by exists ws, (<[Z.to_nat i := SLive key q]> l).
Qed.
Lemma empty_rep H k : 6 <= k <= 31 ->
  tab_rep H (empty_table (2 ^ k)) (replicate (Z.to_nat (2 ^ k)) SEmpty) /\
  slots_map (replicate (Z.to_nat (2 ^ k)) (@SEmpty bytes Z)) = ∅.
Proof.
  intros Hk. pose proof (Z.pow_pos_nonneg 2 k ltac:(lia) ltac:(lia)).
  destruct (probe_empty (K := bytes) (V := Z) (f_home (2 ^ k)) (Z.to_nat (2 ^ k))) as [Hp Hm]. split; [|done].
  unfold tab_rep, empty_table. cbn [t_cap t_mask t_words t_live t_tombs]. rewrite length_replicate, !count_if_replicate.
  cbn [is_live is_tomb is_empty]. split_and!; try done; try lia; [by exists k|].
  apply Forall2_replicate. done.
Qed.
End Tables.
