(* ===== verification/FlatSpec.v ===== *)
(** What the store of flatstore.h promises: a map from keys to objects with deadlines, and the
    ownership of every object.

    The abstract state holds the live objects by key, the objects that were removed while their
    bytes are lent, the loans, and the observable counters.  [mem_ok] ties the heap, the byte
    counters and the borrow registry to it: the heap holds exactly the objects that somebody owns. *)
From stdpp Require Import gmap.
From S2P Require Import Prelude Slice Hash Probe ExpireIndex Borrow FlatStore.

Record Abs := mkAbs {
  a_live : gmap bytes (Z * KvObj); a_dead : gmap Z KvObj; a_loans : gmap Z (Z * option Z);
  a_now : Z; a_expired : Z; a_aof : list bytes }.
Definition abs_new (now : Z) : Abs := mkAbs ∅ ∅ ∅ now 0 [].
Definition with_live (A : Abs) (L : gmap bytes (Z * KvObj)) : Abs :=
  mkAbs L (a_dead A) (a_loans A) (a_now A) (a_expired A) (a_aof A).
Definition with_dead (A : Abs) (D : gmap Z KvObj) (N : gmap Z (Z * option Z)) : Abs :=
  mkAbs (a_live A) D N (a_now A) (a_expired A) (a_aof A).
Definition with_now (A : Abs) (now : Z) : Abs := mkAbs (a_live A) (a_dead A) (a_loans A) now (a_expired A) (a_aof A).
Definition with_aof (A : Abs) (key : bytes) : Abs :=
  mkAbs (a_live A) (a_dead A) (a_loans A) (a_now A) (a_expired A) (a_aof A ++ [key]).
Definition bump_expired (A : Abs) : Abs :=
  mkAbs (a_live A) (a_dead A) (a_loans A) (a_now A) (u64 (a_expired A + 1)) (a_aof A).

Definition elapsed (now : Z) (o : KvObj) : bool := (0 <=? expire_at_ms o) && (expire_at_ms o <=? now).

(** The loan of the object's bytes, if any. *)
Definition lent (A : Abs) (o : KvObj) : option (Z * Z) :=
  match o_value o with
  | Some v => match a_loans A !! v with Some (n, _) => Some (v, n) | None => None end
  | None => None
  end.
(** A removed object is destroyed, or kept until its last loan is returned. *)
Definition a_retire (A : Abs) (p : Z) (o : KvObj) : Abs :=
  match lent A o with
  | Some (v, n) => with_dead A (<[p := o]> (a_dead A)) (<[v := (n, Some p)]> (a_loans A))
  | None => A
  end.
Definition a_remove (A : Abs) (key : bytes) : Abs :=
  match a_live A !! key with
  | Some (p, o) => a_retire (with_live A (delete key (a_live A))) p o
  | None => A
  end.
Definition a_publish (A : Abs) (p : Z) (o : KvObj) : Abs := with_live A (<[o_key o := (p, o)]> (a_live A)).
Definition a_expire (A : Abs) (key : bytes) : Abs := bump_expired (a_remove (with_aof A key) key).

Definition weight {K} `{Countable K} (f : KvObj -> Z) (m : gmap K KvObj) : Z := map_fold (fun _ o acc => f o + acc) 0 m.
Lemma weight_insert {K} `{Countable K} f (m : gmap K KvObj) k o :
  m !! k = None -> weight f (<[k := o]> m) = f o + weight f m.
Proof. intros Hk. unfold weight. rewrite map_fold_insert_L; [done|intros; lia|done]. Qed.
Lemma weight_delete {K} `{Countable K} f (m : gmap K KvObj) k o :
  m !! k = Some o -> weight f (delete k m) = weight f m - f o.
Proof.
  intros Hk. rewrite <- (insert_delete_id m k o Hk) at 2. rewrite weight_insert by apply lookup_delete_eq. lia.
Qed.
Definition live_bytes (A : Abs) : Z := weight o_bytes (snd <$> a_live A).
Definition dead_bytes (A : Abs) : Z := weight o_bytes (a_dead A).

(** Who owns an object: the table, a loan, or the caller ([X]). *)
Record mem_ok (H : gmap Z KvObj) (nbytes pending : Z) (r : Registry) (A : Abs) (X : gmap Z KvObj) : Prop := mkMem {
  m_reg : reg_ok r;
  m_loans : loans r = a_loans A;
  m_key : forall k p o, a_live A !! k = Some (p, o) -> o_key o = k;
  m_heap : forall p o, H !! p = Some o <->
    (exists k, a_live A !! k = Some (p, o)) \/ a_dead A !! p = Some o \/ X !! p = Some o;
  m_live : forall k p o, a_live A !! k = Some (p, o) -> a_dead A !! p = None /\ X !! p = None;
  m_dead : a_dead A ##ₘ X;
  m_value : forall p q o o' v, H !! p = Some o -> H !! q = Some o' -> o_value o = Some v -> o_value o' = Some v -> p = q;
  m_lent : forall v n q, a_loans A !! v = Some (n, Some q) -> exists o, a_dead A !! q = Some o /\ o_value o = Some v;
  m_held : forall v n, a_loans A !! v = Some (n, None) ->
    exists k p o, a_live A !! k = Some (p, o) /\ o_value o = Some v;
  m_pend : forall q o, a_dead A !! q = Some o -> exists v n, o_value o = Some v /\ a_loans A !! v = Some (n, Some q);
  m_bytes : nbytes = u64 (live_bytes A);
  m_pending : pending = u64 (dead_bytes A) }.

Section Mem.
Implicit Types (H X : gmap Z KvObj) (A : Abs) (r : Registry) (o : KvObj) (s : Store).

Lemma live_heap H nb pd r A X k p o : mem_ok H nb pd r A X -> a_live A !! k = Some (p, o) -> H !! p = Some o.
Proof. intros Hm Hk. apply (m_heap _ _ _ _ _ _ Hm). left. by exists k. Qed.
(** Two live keys never share an object. *)
Lemma live_inj H nb pd r A X k k' p o o' : mem_ok H nb pd r A X ->
  a_live A !! k = Some (p, o) -> a_live A !! k' = Some (p, o') -> k = k'.
Proof.
  intros Hm Hk Hk'. pose proof (live_heap _ _ _ _ _ _ _ _ _ Hm Hk) as E. rewrite (live_heap _ _ _ _ _ _ _ _ _ Hm Hk') in E.
  injection E as ->. rewrite <- (m_key _ _ _ _ _ _ Hm _ _ _ Hk). by apply (m_key _ _ _ _ _ _ Hm _ _ _ Hk').
Qed.
Lemma outstanding_zero r : reg_ok r -> r_outstanding r = 0 -> loans r = ∅.
Proof.
  intros (_ & Hf & Ho & _) E. rewrite Ho in E. unfold loans. destruct (r_list r) as [|b l]; [done|].
  inversion Hf as [|? ? Hb Hl]; subst. pose proof (refs_sum_bound l Hl). change (refs_sum (b :: l)) with (b_refs b + refs_sum l) in E. cbv beta in Hb. lia.
Qed.
Lemma live_bytes_delete A k p o : a_live A !! k = Some (p, o) ->
  live_bytes (with_live A (delete k (a_live A))) = live_bytes A - o_bytes o.
Proof.
  intros Hk. unfold live_bytes. cbn [a_live with_live]. rewrite fmap_delete. apply weight_delete.
  by rewrite lookup_fmap, Hk.
Qed.
Lemma u64_sub_mod a b : u64 (u64 a - b) = u64 (a - b).
Proof. unfold u64. by rewrite Zminus_mod_idemp_l. Qed.

Lemma mem_reg H nb pd r r' A X : mem_ok H nb pd r A X -> reg_ok r' -> loans r' = loans r -> mem_ok H nb pd r' A X.
Proof. intros Hm Hr E. split; try apply Hm; [done|]. rewrite E. apply Hm. Qed.
(** Destroying an object that only the table owns. *)
Lemma mem_free H nb pd r A X k p o : mem_ok H nb pd r A X -> a_live A !! k = Some (p, o) ->
  lent A o = None -> mem_ok (delete p H) (u64 (nb - o_bytes o)) pd r (with_live A (delete k (a_live A))) X.
Proof.
  intros Hm Hk Hl. pose proof (m_live _ _ _ _ _ _ Hm _ _ _ Hk) as [Hd Hx].
  split; cbn [a_live a_dead a_loans with_live].
  - apply Hm.
  - apply Hm.
  - intros k' q o' [Hne Hq]%lookup_delete_Some. by apply (m_key _ _ _ _ _ _ Hm) in Hq.
  - intros q o'. rewrite lookup_delete_Some, (m_heap _ _ _ _ _ _ Hm). split.
    + intros [Hq [[k' Hk']|[?|?]]]; [|by right; left|by right; right]. left. exists k'. apply lookup_delete_Some. split; [|done].
      intros <-. rewrite Hk in Hk'. congruence.
    + intros [[k' Hk']|[Hq|Hq]].
      * apply lookup_delete_Some in Hk' as [Hne Hk']. split; [|by left; exists k']. intros <-. apply Hne. by eapply live_inj.
      * split; [congruence|]. by right; left.
      * split; [congruence|]. by right; right.
  - intros k' q o' [Hne Hq]%lookup_delete_Some. by eapply (m_live _ _ _ _ _ _ Hm).
  - apply Hm.
  - intros a b oa ob v [_ Ha]%lookup_delete_Some [_ Hb]%lookup_delete_Some. by eapply (m_value _ _ _ _ _ _ Hm).
  - apply Hm.
  - intros v n Hv. destruct (m_held _ _ _ _ _ _ Hm v n Hv) as (k' & q & o' & Hk' & Ho'). exists k', q, o'. split; [|done].
    apply lookup_delete_Some. split; [|done]. intros <-. rewrite Hk in Hk'. injection Hk' as <- <-.
    unfold lent in Hl. by rewrite Ho', Hv in Hl.
  - apply Hm.
  - rewrite (live_bytes_delete A k p o Hk), (m_bytes _ _ _ _ _ _ Hm). apply u64_sub_mod.
  - apply Hm.
Qed.
(** Keeping an object whose bytes are lent. *)
Lemma mem_keep H nb pd r r' A X k p o v n : mem_ok H nb pd r A X -> a_live A !! k = Some (p, o) ->
  lent A o = Some (v, n) -> reg_ok r' -> loans r' = <[v := (n, Some p)]> (a_loans A) ->
  mem_ok H (u64 (nb - o_bytes o)) (u64 (pd + o_bytes o)) r' (a_retire (with_live A (delete k (a_live A))) p o) X.
Proof.
  intros Hm Hk Hl Hr Hlo. pose proof (m_live _ _ _ _ _ _ Hm _ _ _ Hk) as [Hd Hx].
  assert (o_value o = Some v /\ exists old, a_loans A !! v = Some (n, old)) as [Hv [old Hold]].
  { unfold lent in Hl. destruct (o_value o) as [v'|]; [|done]. destruct (a_loans A !! v') as [[n' old]|] eqn:E; [|done].
    injection Hl as <- <-. split; [done|]. by exists old. }
  assert (H !! p = Some o) as Hp by (by eapply live_heap).
  unfold a_retire. change (lent (with_live A (delete k (a_live A))) o) with (lent A o). rewrite Hl.
  split; cbn [a_live a_dead a_loans with_live with_dead].
  - done.
  - done.
  - intros k' q o' [Hne Hq]%lookup_delete_Some. by apply (m_key _ _ _ _ _ _ Hm) in Hq.
  - intros q o'. rewrite (m_heap _ _ _ _ _ _ Hm). split.
    + intros [[k' Hk']|[Hq|?]]; [|right; left|by right; right].
      * destruct (decide (k' = k)) as [->|Hne]; [|left; exists k'; by rewrite lookup_delete_ne].
        rewrite Hk in Hk'. injection Hk' as <- <-. right; left. apply lookup_insert_eq.
      * rewrite lookup_insert_ne; [done|]. intros <-. congruence.
    + intros [[k' Hk']|[Hq|Hq]]; [apply lookup_delete_Some in Hk' as [_ Hk']; left; by exists k'| |by right; right].
      apply lookup_insert_Some in Hq as [[<- <-]|[_ Hq]]; [left; by exists k|by right; left].
  - intros k' q o' [Hne Hq]%lookup_delete_Some. destruct (m_live _ _ _ _ _ _ Hm _ _ _ Hq) as [H1 H2]. split; [|done].
    rewrite lookup_insert_ne; [done|]. intros <-. apply Hne. by eapply live_inj.
  - apply map_disjoint_insert_l. split; [done|apply Hm].
  - apply Hm.
  - intros w m q Hw. apply lookup_insert_Some in Hw as [[<- E]|[Hne Hw]].
    + injection E as <- <-. exists o. split; [apply lookup_insert_eq|done].
    + destruct (m_lent _ _ _ _ _ _ Hm _ _ _ Hw) as (o' & Ho' & Hv'). exists o'. split; [|done].
      rewrite lookup_insert_ne; [done|]. intros <-. congruence.
  - intros w m Hw. apply lookup_insert_Some in Hw as [[_ E]|[Hne Hw]]; [done|].
    destruct (m_held _ _ _ _ _ _ Hm w m Hw) as (k' & q & o' & Hk' & Ho'). exists k', q, o'. split; [|done].
    apply lookup_delete_Some. split; [|done]. intros <-. rewrite Hk in Hk'. injection Hk' as <- <-. congruence.
  - intros q o' Hq. apply lookup_insert_Some in Hq as [[<- <-]|[Hne Hq]].
    + exists v, n. split; [done|]. apply lookup_insert_eq.
    + destruct (m_pend _ _ _ _ _ _ Hm q o' Hq) as (w & m & Hw & Hlw). exists w, m. split; [done|].
      rewrite lookup_insert_ne; [done|]. intros <-. apply Hne.
      eapply (m_value _ _ _ _ _ _ Hm); [done| |done|done]. apply (m_heap _ _ _ _ _ _ Hm). by right; left.
  - change (live_bytes (with_dead ?B ?x ?y)) with (live_bytes B). rewrite (live_bytes_delete A k p o Hk), (m_bytes _ _ _ _ _ _ Hm).
    apply u64_sub_mod.
  - unfold dead_bytes. cbn [a_dead with_dead with_live]. rewrite weight_insert by done.
    rewrite (m_pending _ _ _ _ _ _ Hm), u64_add_u64. f_equal. unfold dead_bytes. lia.
Qed.
Lemma retire_obj_spec s A X k p o :
  mem_ok (s_heap s) (s_bytes s) (s_pending s) (s_reg s) A X -> a_live A !! k = Some (p, o) ->
  exists H nb pd r, retire_obj s p = Some (set_mem s H nb pd r) /\ mem_ok H nb pd r (a_remove A k) X /\
    forall q, q <> p -> H !! q = s_heap s !! q.
Proof.
  intros Hm Hk. pose proof (live_heap _ _ _ _ _ _ _ _ _ Hm Hk) as Hp. unfold a_remove, retire_obj. rewrite Hk, Hp, some_bind.
  assert (lent A o = None -> exists H, kvobj_free (s_heap s) p = Some H /\
    mem_ok H (u64 (s_bytes s - o_bytes o)) (s_pending s) (s_reg s) (a_retire (with_live A (delete k (a_live A))) p o) X /\
    forall q, q <> p -> H !! q = s_heap s !! q) as Hfree.
  { intros Hl. unfold kvobj_free. rewrite Hp, some_bind. eexists. split; [done|]. split.
    - unfold a_retire. change (lent (with_live A (delete k (a_live A))) o) with (lent A o). rewrite Hl. by apply mem_free.
    - intros q Hq. by apply lookup_delete_ne. }
  pose proof (m_reg _ _ _ _ _ _ Hm) as Hr. pose proof (m_loans _ _ _ _ _ _ Hm) as Hlo. zsplit.
  { destruct Hfree as (H & -> & Hm' & Hq).
    - unfold lent. rewrite <- Hlo, (outstanding_zero _ Hr E). destruct (o_value o); [by rewrite lookup_empty|done].
    - rewrite some_bind. by do 4 eexists. }
  destruct (o_value o) as [v|] eqn:Ev.
  - destruct (retired_spec (s_reg s) v p Hr) as (r' & -> & Hr' & _ & Hl'). rewrite some_bind. rewrite Hlo in Hl' |- *.
    unfold retire_map in Hl' |- *. destruct (a_loans A !! v) as [[n old]|] eqn:Eo; cbn [fst snd] in *.
    + exists (s_heap s). do 3 eexists. split; [done|]. split; [|done]. apply (mem_keep _ _ _ (s_reg s) _ _ _ _ _ _ v n); try done.
      unfold lent. by rewrite Ev, Eo.
    + destruct Hfree as (H & -> & Hm' & Hq); [unfold lent; by rewrite Ev, Eo|]. rewrite some_bind. do 4 eexists. split; [done|].
      split; [|done]. eapply mem_reg; [done|done|congruence].
  - rewrite some_bind. destruct Hfree as (H & -> & Hm' & Hq); [unfold lent; by rewrite Ev|]. rewrite some_bind. by do 4 eexists.
Qed.

(** The caller's object becomes the table's. *)
Lemma mem_publish H nb pd r A X p o : mem_ok H nb pd r A (<[p := o]> X) -> X !! p = None ->
  a_live A !! o_key o = None -> mem_ok H (u64 (nb + o_bytes o)) pd r (a_publish A p o) X.
Proof.
  intros Hm Hx Hk. pose proof (m_dead _ _ _ _ _ _ Hm) as Hd. apply map_disjoint_insert_r in Hd as [Hdp Hd].
  assert (forall k q o', a_live A !! k = Some (q, o') -> q <> p) as Hnp.
  { intros k q o' Hq. destruct (m_live _ _ _ _ _ _ Hm _ _ _ Hq) as [_ Hn]. intros ->. by rewrite lookup_insert_eq in Hn. }
  split; cbn [a_live a_dead a_loans with_live a_publish].
  - apply Hm.
  - apply Hm.
  - intros k q o' [[<- [= <- <-]]|[_ Hq]]%lookup_insert_Some; [done|]. by apply (m_key _ _ _ _ _ _ Hm) in Hq.
  - intros q o'. rewrite (m_heap _ _ _ _ _ _ Hm). split.
    + intros [[k Hq]|[Hq|Hq]]; [left; exists k; rewrite lookup_insert_ne; [done|congruence]|by right; left|].
      apply lookup_insert_Some in Hq as [[<- <-]|[_ Hq]]; [left; exists (o_key o); apply lookup_insert_eq|by right; right].
    + intros [[k Hq]|[Hq|Hq]]; [|by right; left|right; right; rewrite lookup_insert_ne; [done|congruence]].
      apply lookup_insert_Some in Hq as [[<- [= <- <-]]|[_ Hq]]; [right; right; apply lookup_insert_eq|left; by exists k].
  - intros k q o' [[<- [= <- <-]]|[_ Hq]]%lookup_insert_Some; [done|].
    destruct (m_live _ _ _ _ _ _ Hm _ _ _ Hq) as [H1 H2]. split; [done|]. rewrite lookup_insert_ne in H2; [done|].
    intros <-. by apply (Hnp _ _ _ Hq).
  - done.
  - apply Hm.
  - apply Hm.
  - intros v n Hv. destruct (m_held _ _ _ _ _ _ Hm v n Hv) as (k & q & o' & Hq & Ho). exists k, q, o'. split; [|done].
    rewrite lookup_insert_ne; [done|congruence].
  - apply Hm.
  - rewrite (m_bytes _ _ _ _ _ _ Hm), u64_add_u64. f_equal. unfold live_bytes. cbn [a_live a_publish with_live].
    rewrite fmap_insert, weight_insert by (by rewrite lookup_fmap, Hk). cbn [snd]. lia.
  - apply Hm.
Qed.
(** A new object of the caller, and its release. *)
Lemma mem_alloc H nb pd r A p o : mem_ok H nb pd r A ∅ -> H !! p = None ->
  (forall q o' v, H !! q = Some o' -> o_value o = Some v -> o_value o' <> Some v) ->
  mem_ok (<[p := o]> H) nb pd r A {[p := o]}.
Proof.
  intros Hm Hp Hv. assert (forall q o', H !! q = Some o' -> q <> p) as Hne by congruence.
  split; try apply Hm.
  - intros q o'. rewrite lookup_insert_Some, (m_heap _ _ _ _ _ _ Hm), lookup_singleton_Some, lookup_empty. split.
    + intros [?|[_ [?|[?|?]]]]; [by right; right|by left|by right; left|done].
    + intros [[k Hk]|[Hq|[<- <-]]]; [right|right|by left].
      * split; [|by left; exists k]. apply not_eq_sym, (Hne _ o'), (live_heap _ _ _ _ _ _ _ _ _ Hm Hk).
      * split; [|by right; left]. apply not_eq_sym, (Hne _ o'). apply (m_heap _ _ _ _ _ _ Hm). by right; left.
  - intros k q o' Hk. split; [by apply (m_live _ _ _ _ _ _ Hm) in Hk as []|]. apply lookup_singleton_None, not_eq_sym.
    apply (Hne _ o'), (live_heap _ _ _ _ _ _ _ _ _ Hm Hk).
  - apply map_disjoint_singleton_r. apply eq_None_not_Some. intros [o' Hd]. apply (Hne p o'); [|done].
    apply (m_heap _ _ _ _ _ _ Hm). by right; left.
  - intros a b oa ob v Ha Hb Va Vb. apply lookup_insert_Some in Ha as [[<- <-]|[_ Ha]]; apply lookup_insert_Some in Hb as [[<- <-]|[_ Hb]].
    + done.
    + by destruct (Hv _ _ v Hb).
    + by destruct (Hv _ _ v Ha).
    + by eapply (m_value _ _ _ _ _ _ Hm).
Qed.
Lemma mem_release H nb pd r A p o : mem_ok H nb pd r A {[p := o]} ->
  kvobj_free H p = Some (delete p H) /\ mem_ok (delete p H) nb pd r A ∅.
Proof.
  intros Hm. assert (H !! p = Some o) as Hp by (apply (m_heap _ _ _ _ _ _ Hm); right; right; apply lookup_singleton_eq).
  unfold kvobj_free. rewrite Hp. split; [done|]. split; try apply Hm.
  - intros q o'. rewrite lookup_delete_Some, (m_heap _ _ _ _ _ _ Hm), lookup_singleton_Some, lookup_empty. split.
    + intros [Hne [?|[?|[? ?]]]]; [by left|by right; left|done].
    + intros [[k Hk]|[Hq|?]]; [|..|done].
      * split; [|by left; exists k]. destruct (m_live _ _ _ _ _ _ Hm _ _ _ Hk) as [_ Hn]. by apply lookup_singleton_None in Hn.
      * split; [|by right; left]. intros <-. pose proof (m_dead _ _ _ _ _ _ Hm) as Hd. apply map_disjoint_singleton_r in Hd. congruence.
  - intros k q o' Hk. split; [by apply (m_live _ _ _ _ _ _ Hm) in Hk as []|]. apply lookup_empty.
  - apply map_disjoint_empty_r.
  - intros a b oa ob v [_ Ha]%lookup_delete_Some [_ Hb]%lookup_delete_Some. by eapply (m_value _ _ _ _ _ _ Hm).
Qed.
(** Rewriting the deadline of a live object in place. *)
Lemma mem_touch H nb pd r A X k p o o' : mem_ok H nb pd r A X -> a_live A !! k = Some (p, o) ->
  o_key o' = o_key o -> o_bytes o' = o_bytes o -> o_value o' = o_value o ->
  mem_ok (<[p := o']> H) nb pd r (with_live A (<[k := (p, o')]> (a_live A))) X.
Proof.
  intros Hm Hk Ek Eb Ev. pose proof (live_heap _ _ _ _ _ _ _ _ _ Hm Hk) as Hp.
  pose proof (m_live _ _ _ _ _ _ Hm _ _ _ Hk) as [Hd Hx].
  assert (forall q o1 o2 v, <[p := o']> H !! q = Some o1 -> H !! q = Some o2 -> o_value o1 = Some v -> o_value o2 = Some v) as Hval.
  { intros q o1 o2 v H1 H2 V. apply lookup_insert_Some in H1 as [[<- <-]|[_ H1]]; congruence. }
  split; cbn [a_live a_dead a_loans with_live]; try apply Hm.
  - intros k' q o1 [[<- [= <- <-]]|[_ Hq]]%lookup_insert_Some; [rewrite Ek|]; by eapply (m_key _ _ _ _ _ _ Hm).
  - intros q o1. rewrite lookup_insert_Some, (m_heap _ _ _ _ _ _ Hm). split.
    + intros [[<- <-]|[Hne [[k' Hq]|[?|?]]]]; [left; exists k; apply lookup_insert_eq| |by right; left|by right; right].
      left. exists k'. rewrite lookup_insert_ne; [done|congruence].
    + intros [[k' Hq]|[Hq|Hq]]; [|right; split; [congruence|by right; left]|right; split; [congruence|by right; right]].
      apply lookup_insert_Some in Hq as [[<- [= <- <-]]|[Hne Hq]]; [by left|]. right. split; [|by left; exists k'].
      intros <-. apply Hne. by eapply live_inj.
  - intros k' q o1 [[<- [= <- <-]]|[_ Hq]]%lookup_insert_Some; [done|]. by eapply (m_live _ _ _ _ _ _ Hm).
  - intros a b oa ob v Ha Hb Va Vb.
    assert (forall q o1, <[p := o']> H !! q = Some o1 -> exists o2, H !! q = Some o2) as Hex.
    { intros q o1 H1. apply lookup_insert_Some in H1 as [[<- _]|[_ H1]]; eauto. }
    destruct (Hex _ _ Ha) as [o1 H1], (Hex _ _ Hb) as [o2 H2]. exact (m_value _ _ _ _ _ _ Hm _ _ _ _ v H1 H2 (Hval _ _ _ _ Ha H1 Va) (Hval _ _ _ _ Hb H2 Vb)).
  - intros v n Hv. destruct (m_held _ _ _ _ _ _ Hm v n Hv) as (k' & q & o1 & Hq & Ho).
    destruct (decide (k' = k)) as [->|Hne]; [|exists k', q, o1; by rewrite lookup_insert_ne].
    exists k, p, o'. rewrite lookup_insert_eq. split; [done|]. congruence.
  - rewrite (m_bytes _ _ _ _ _ _ Hm). f_equal. unfold live_bytes. cbn [a_live with_live]. rewrite fmap_insert. cbn [snd].
    rewrite <- insert_delete_eq, weight_insert by apply lookup_delete_eq.
    rewrite (weight_delete _ _ k o) by (by rewrite lookup_fmap, Hk). lia.
Qed.
(** Loans of the bytes of a live object, and their return. *)
Lemma mem_borrow H nb pd r r' A X k p o v : mem_ok H nb pd r A X -> a_live A !! k = Some (p, o) -> o_value o = Some v ->
  reg_ok r' -> loans r' = borrow_map (loans r) v ->
  mem_ok H nb pd r' (with_dead A (a_dead A) (borrow_map (a_loans A) v)) X.
Proof.
  intros Hm Hk Hv Hr Hl. rewrite (m_loans _ _ _ _ _ _ Hm) in Hl.
  assert (forall w n q, borrow_map (a_loans A) v !! w = Some (n, q) -> (exists m, a_loans A !! w = Some (m, q)) \/ w = v /\ q = None) as Hb.
  { intros w n q Hw. unfold borrow_map in Hw. apply lookup_insert_Some in Hw as [[<- E]|[_ Hw]]; [|left; by exists n].
    destruct (a_loans A !! v) as [[m x]|]; injection E as _ <-; [left; by exists m|by right]. }
  split; cbn [a_live a_dead a_loans with_dead]; try apply Hm; try done.
  - intros w n q Hw. destruct (Hb _ _ _ Hw) as [[m Hm']|[_ ?]]; [|done]. by eapply (m_lent _ _ _ _ _ _ Hm).
  - intros w n Hw. destruct (Hb _ _ _ Hw) as [[m Hm']|[-> _]]; [by eapply (m_held _ _ _ _ _ _ Hm)|]. by exists k, p, o.
  - intros q o' Hq. destruct (m_pend _ _ _ _ _ _ Hm q o' Hq) as (w & n & Hw & Hn). unfold borrow_map.
    destruct (decide (w = v)) as [->|Hne]; [|exists w, n; by rewrite lookup_insert_ne].
    exists v, (n + 1). rewrite lookup_insert_eq, Hn. done.
Qed.
Definition a_unborrow A (v : Z) : Abs :=
  match unborrow_map (a_loans A) v with
  | (N, Some q) => with_dead A (delete q (a_dead A)) N
  | (N, None) => with_dead A (a_dead A) N
  end.
Lemma mem_unborrow_kept H nb pd r r' A X v N : mem_ok H nb pd r A X -> unborrow_map (a_loans A) v = (N, None) ->
  reg_ok r' -> loans r' = N -> mem_ok H nb pd r' (with_dead A (a_dead A) N) X.
Proof.
  intros Hm E Hr Hl. unfold unborrow_map in E. destruct (a_loans A !! v) as [[n old]|] eqn:Ev.
  2:{ injection E as E. replace (with_dead A (a_dead A) N) with A by (subst N; by destruct A).
      apply (mem_reg _ _ _ r); [done|done|]. rewrite Hl, <- E. symmetry. apply Hm. }
  assert (N = if n =? 1 then delete v (a_loans A) else <[v := (n - 1, old)]> (a_loans A)) as EN by (destruct (n =? 1); congruence).
  assert ((n =? 1) = true -> old = None) as Eold by (intros En; rewrite En in E; congruence).
  clear E. assert (forall w m q, N !! w = Some (m, q) -> exists m', a_loans A !! w = Some (m', q)) as Hb.
  { intros w m q Hw. rewrite EN in Hw. destruct (n =? 1).
    - apply lookup_delete_Some in Hw as [_ Hw]. by exists m.
    - apply lookup_insert_Some in Hw as [[<- E]|[_ Hw]]; [|by exists m]. injection E as _ <-. by exists n. }
  split; cbn [a_live a_dead a_loans with_dead]; try apply Hm; try done.
  - intros w m q Hw. destruct (Hb _ _ _ Hw) as [m' Hm']. by eapply (m_lent _ _ _ _ _ _ Hm).
  - intros w m Hw. destruct (Hb _ _ _ Hw) as [m' Hm']. by eapply (m_held _ _ _ _ _ _ Hm).
  - intros q o Hq. destruct (m_pend _ _ _ _ _ _ Hm q o Hq) as (w & m & Hw & Hn). exists w.
    destruct (decide (w = v)) as [->|Hne].
    + rewrite Ev in Hn. injection Hn as -> ->. rewrite EN. destruct (m =? 1); [by specialize (Eold eq_refl)|]. exists (m - 1).
      by rewrite lookup_insert_eq.
    + exists m. split; [done|]. rewrite EN. destruct (n =? 1); [by rewrite lookup_delete_ne|by rewrite lookup_insert_ne].
Qed.
Lemma mem_unborrow_freed H nb pd r r' A X v N q : mem_ok H nb pd r A X -> unborrow_map (a_loans A) v = (N, Some q) ->
  reg_ok r' -> loans r' = N ->
  exists o, H !! q = Some o /\ (forall k, (fst <$> a_live A !! k) <> Some q) /\
    mem_ok (delete q H) nb (u64 (pd - o_bytes o)) r' (with_dead A (delete q (a_dead A)) N) X.
Proof.
  intros Hm E Hr Hl. unfold unborrow_map in E. destruct (a_loans A !! v) as [[n old]|] eqn:Ev; [|done].
  destruct (n =? 1) eqn:En; [|done]. injection E as <- ->. destruct (m_lent _ _ _ _ _ _ Hm _ _ _ Ev) as (o & Hq & Hv).
  assert (H !! q = Some o) as Hhq by (apply (m_heap _ _ _ _ _ _ Hm); by right; left).
  assert (forall k p o', a_live A !! k = Some (p, o') -> p <> q) as Hnl.
  { intros k p o' Hk ->. apply (m_live _ _ _ _ _ _ Hm) in Hk as [? _]. congruence. }
  assert (X !! q = None) as Hxq by (apply (map_disjoint_Some_l (a_dead A) X q o); [apply Hm|done]).
  exists o. split; [done|]. split.
  { intros k Hk. destruct (a_live A !! k) as [[p o']|] eqn:Ek; [|done]. injection Hk as ->. by apply (Hnl _ _ _ Ek). }
  split; cbn [a_live a_dead a_loans with_dead]; try apply Hm; try done.
  - intros p o'. rewrite lookup_delete_Some, (m_heap _ _ _ _ _ _ Hm), lookup_delete_Some. split.
    + intros [Hne [?|[?|?]]]; [by left|by right; left|by right; right].
    + intros [[k Hk]|[[Hne Hp]|Hp]]; (split; [|]); try done; try congruence.
      * apply not_eq_sym. by eapply Hnl.
      * left. by exists k.
      * by right; left.
      * by right; right.
  - intros k p o' Hk. destruct (m_live _ _ _ _ _ _ Hm _ _ _ Hk). split; [|done]. by apply lookup_delete_None; right.
  - apply map_disjoint_delete_l. apply Hm.
  - intros a b oa ob w [_ Ha]%lookup_delete_Some [_ Hb]%lookup_delete_Some. by eapply (m_value _ _ _ _ _ _ Hm).
  - intros w m p [Hne Hw]%lookup_delete_Some. destruct (m_lent _ _ _ _ _ _ Hm _ _ _ Hw) as (o' & Ho' & Hw'). exists o'.
    split; [|done]. apply lookup_delete_Some. split; [|done]. intros <-. rewrite Hq in Ho'. congruence.
  - intros w m [Hne Hw]%lookup_delete_Some. by eapply (m_held _ _ _ _ _ _ Hm).
  - intros p o' [Hne Hp]%lookup_delete_Some. destruct (m_pend _ _ _ _ _ _ Hm _ _ Hp) as (w & m & Hw & Hn). exists w, m.
    split; [done|]. apply lookup_delete_Some. split; [|done]. intros <-. rewrite Ev in Hn. congruence.
  - unfold dead_bytes. cbn [a_dead with_dead]. rewrite (weight_delete _ _ q o Hq), (m_pending _ _ _ _ _ _ Hm). apply u64_sub_mod.
Qed.
End Mem.
