(* ===== verification/FlatProof.v ===== *)
(** The store of flatstore.h keeps its promise: every operation preserves the invariant [inv] and
    acts on the abstract state as [FlatSpec] says.

    The invariant has four parts: ownership ([mem_ok]), the two tables as disjoint finite maps that
    together hold the live keys, the load of the tables, and the expiry index.  [n] is the number of
    insertions the tables can take before the next resize step: a resize moves eight slots per
    mutation, which is enough for the new table never to fill up before the old one is empty. *)
From stdpp Require Import gmap.
From S2P Require Import Prelude Slice Hash Probe ExpireIndex Borrow FlatStore FlatTable FlatSpec.

Section Proof.
Context (cfg : HashCfg).
Implicit Types (mem memi : bool) (s : Store) (A : Abs) (X H : gmap Z KvObj) (key : bytes) (l : list (Slot bytes Z)).
Abbreviation khash := (khash cfg).

(** * Invariant *)
Definition idx_ok (e : ExpireIndex) (L : gmap bytes (Z * KvObj)) : Prop :=
  index_ok false e /\ forall h, is_Some (index_map false e !! h) -> exists k, is_Some (L !! k) /\ khash k = h.
Definition moved s l1 : Prop :=
  0 <= s_pos s /\ (if rehashing s then s_pos s < t_cap (s_t1 s) else s_pos s = 0) /\
  forall i x, (i < Z.to_nat (s_pos s))%nat -> l1 !! i = Some x -> is_live x = false.
Definition load s (n : Z) : Prop :=
  let used := t_live (s_t0 s) + t_tombs (s_t0 s) in
  if rehashing s then 8 * (used + t_live (s_t1 s) + n) + (t_cap (s_t1 s) - s_pos s) <= 5 * t_cap (s_t0 s)
  else (used + n) * 100 < 70 * t_cap (s_t0 s).
Record tabs_ok s (M : gmap bytes Z) l0 l1 : Prop := mkTabs {
  t_new : tab_rep cfg (s_heap s) (s_t0 s) l0;
  t_old : old_rep cfg (s_heap s) (s_t1 s) l1;
  t_disj : slots_map l0 ##ₘ slots_map l1;
  t_map : M = slots_map l0 ∪ slots_map l1 }.
Definition ptrs_of A : gmap bytes Z := fst <$> a_live A.
Record inv s A X l0 l1 (n : Z) : Prop := mkInv {
  i_mem : mem_ok (s_heap s) (s_bytes s) (s_pending s) (s_reg s) A X;
  i_tabs : tabs_ok s (ptrs_of A) l0 l1;
  i_moved : moved s l1;
  i_load : load s n;
  i_idx : idx_ok (s_exp s) (a_live A);
  i_now : s_now s = a_now A;
  i_exp : s_expired s = a_expired A;
  i_aof : s_aof s = a_aof A }.
Definition key_ok key (h : Z) : Prop := Forall is_byte key /\ hash_key cfg key = Some h.

Lemma key_hash key h : key_ok key h -> khash key = h.
Proof. intros [_ E]. unfold FlatTable.khash. by rewrite E. Qed.

(** ** Deadlines *)
Lemma deadline_eq s h o : deadline false s h o = Some (expire_at_ms o).
Proof. unfold deadline, expire_at_ms. by destruct (o_slot o). Qed.
Lemma deadline_elapsed_eq s h o now : deadline_elapsed false s h o now = Some (elapsed now o).
Proof. unfold deadline_elapsed. by rewrite deadline_eq. Qed.

(** ** The expiry index *)
Lemma idx_size e L : idx_ok e L -> (size (index_map false e) <= size L)%nat.
Proof.
  intros [_ Hd]. rewrite <- !length_map_to_list. rewrite <- (length_fmap fst (map_to_list (index_map false e))).
  rewrite <- (length_fmap (fun kv => khash kv.1) (map_to_list L)). apply submseteq_length, NoDup_submseteq.
  - apply NoDup_fst_map_to_list.
  - intros h ((h' & d) & -> & Hin)%list_elem_of_fmap. apply elem_of_map_to_list in Hin.
    destruct (Hd h') as (k & [x Hk] & E); [eauto|]. apply list_elem_of_fmap. exists (k, x). cbn. split; [done|].
    by apply elem_of_map_to_list.
Qed.
Lemma untrack_spec s L h : idx_ok (s_exp s) L ->
  exists e, untrack_expire s h = Some (set_exp s e) /\ idx_ok e L /\ index_map false e !! h = None.
Proof.
  intros [Hok Hd]. unfold untrack_expire. destruct (erase_spec false (s_exp s) h Hok) as (e & ok & -> & Hok' & Hm & _).
  rewrite some_bind. exists e. split; [done|]. rewrite Hm. split; [|apply lookup_delete_eq]. split; [done|].
  intros h' [d Hh]. rewrite Hm in Hh. apply lookup_delete_Some in Hh as [_ Hh]. apply Hd. by exists d.
Qed.
Lemma idx_delete e L key : idx_ok e L -> index_map false e !! khash key = None -> idx_ok e (delete key L).
Proof.
  intros [Hok Hd] Hn. split; [done|]. intros h Hh. destruct (Hd h Hh) as (k & Hk & E). exists k. split; [|done].
  rewrite lookup_delete_ne; [done|]. intros <-. rewrite E in Hn. rewrite Hn in Hh. by destruct Hh.
Qed.
Lemma idx_mono e L L' : idx_ok e L -> (forall k, is_Some (L !! k) -> is_Some (L' !! k)) -> idx_ok e L'.
Proof. intros [Hok Hd] Hs. split; [done|]. intros h Hh. destruct (Hd h Hh) as (k & Hk & E). exists k. auto. Qed.
Lemma track_spec memi s L h o key : idx_ok (s_exp s) L -> is_Some (L !! key) -> khash key = h ->
  Z.of_nat (size L) < 2 ^ 30 -> exists e, track_expire false memi s h o = Some (set_exp s e) /\ idx_ok e L.
Proof.
  intros Hidx Hk Eh Hsz. pose proof (idx_size _ _ Hidx) as Hle. unfold track_expire. zsplit; [|zsplit].
  - destruct Hidx as [Hok Hd]. destruct (insert_spec false memi (s_exp s) h (expire_at_ms o) Hok ltac:(lia)) as (e & ok & -> & Hok' & _ & Hm).
    rewrite some_bind. exists e. split; [by destruct ok|]. split; [done|]. intros h' [d Hh]. rewrite Hm in Hh. destruct ok.
    + apply lookup_insert_Some in Hh as [[<- _]|[_ Hh]]; [by exists key|]. apply Hd. by exists d.
    + apply Hd. by exists d.
  - exists (s_exp s). split; [by destruct s|done].
  - destruct (untrack_spec s L h Hidx) as (e & -> & He & _). by exists e.
Qed.

(** ** Slots and live objects *)
Lemma slot_live s A X l0 l1 n (b : bool) i k p : inv s A X l0 l1 n ->
  (if b then l1 else l0) !! i = Some (SLive k p) -> exists o, a_live A !! k = Some (p, o).
Proof.
  intros Hi Hs. destruct (i_tabs _ _ _ _ _ _ Hi) as [T0 T1 Hd Hm].
  assert (ptrs_of A !! k = Some p) as E.
  { rewrite Hm. destruct T0 as (_ & _ & _ & _ & [Hu0 _] & _). apply lookup_union_Some; [done|]. destruct b.
    - right. destruct T1 as [[_ ->]|(_ & _ & _ & _ & [Hu1 _] & _)]; [done|]. apply slots_map_spec; eauto.
    - left. apply slots_map_spec; eauto. }
  unfold ptrs_of in E. rewrite lookup_fmap in E. destruct (a_live A !! k) as [[p' o]|]; [|done].
  injection E as ->. by exists o.
Qed.
Lemma table_live s A X l0 l1 n (b : bool) k p : inv s A X l0 l1 n ->
  slots_map (if b then l1 else l0) !! k = Some p -> exists o, a_live A !! k = Some (p, o).
Proof.
  intros Hi Hs. destruct (i_tabs _ _ _ _ _ _ Hi) as [(_ & _ & _ & _ & [Hu0 _] & _) T1 Hd Hm]. destruct b.
  - destruct T1 as [[_ ->]|(_ & _ & _ & _ & [Hu1 _] & _)]; [done|]. apply slots_map_spec in Hs as [i Hs]; [|done].
    by apply (slot_live s A X l0 l1 n true i).
  - apply slots_map_spec in Hs as [i Hs]; [|done]. by apply (slot_live s A X l0 l1 n false i).
Qed.
Lemma live_table s A X l0 l1 n k : inv s A X l0 l1 n ->
  fst <$> a_live A !! k = (match slots_map l0 !! k with Some p => Some p | None => slots_map l1 !! k end).
Proof.
  intros Hi. pose proof (t_map _ _ _ _ (i_tabs _ _ _ _ _ _ Hi)) as Hm. rewrite <- lookup_fmap. fold (ptrs_of A). rewrite Hm, lookup_union.
  destruct (slots_map l0 !! k), (slots_map l1 !! k); done.
Qed.
(** The address in one slot is in no other slot of either table. *)
Lemma slot_ptr_ne s A X l0 l1 n (b c : bool) i j k k' p p' : inv s A X l0 l1 n ->
  (if b then l1 else l0) !! i = Some (SLive k p) -> (if c then l1 else l0) !! j = Some (SLive k' p') ->
  b <> c \/ i <> j -> p' <> p.
Proof.
  intros Hi Hb Hc Hne ->. destruct (slot_live _ _ _ _ _ _ b i k p Hi Hb) as [o Ho].
  destruct (slot_live _ _ _ _ _ _ c j k' p Hi Hc) as [o' Ho'].
  assert (k = k') as <- by (by eapply live_inj; [apply Hi| |]).
  destruct (i_tabs _ _ _ _ _ _ Hi) as [(_ & _ & _ & _ & [Hu0 _] & _) T1 Hd _].
  assert (unique l1) as Hu1 by (destruct T1 as [[_ ->]|(_ & _ & _ & _ & [Hu1 _] & _)]; [intros ? ? ? ? ? E; done|done]).
  assert (forall i' j', l0 !! i' = Some (SLive k p) -> l1 !! j' = Some (SLive k p) -> False) as Hx.
  { intros i' j' H1 H2. eapply (map_disjoint_spec (slots_map l0) (slots_map l1)); [done|apply slots_map_spec; eauto..]. }
  destruct b, c; [destruct Hne as [?|Hne]; [done|]; apply Hne; by eapply Hu1|by eapply Hx|by eapply Hx|
    destruct Hne as [?|Hne]; [done|]; apply Hne; by eapply Hu0].
Qed.
Definition tabs_of (b : bool) l l0 l1 : list (Slot bytes Z) * list (Slot bytes Z) := if b then (l0, l) else (l, l1).

(** * Removal *)
Definition same_shape s s' : Prop :=
  t_cap (s_t0 s') = t_cap (s_t0 s) /\ t_cap (s_t1 s') = t_cap (s_t1 s) /\ s_pos s' = s_pos s /\
  t_mask (s_t0 s') = t_mask (s_t0 s) /\ t_mask (s_t1 s') = t_mask (s_t1 s).
Lemma shape_rehashing s s' : same_shape s s' -> rehashing s' = rehashing s.
Proof. intros (_ & E & _). unfold rehashing. by rewrite E. Qed.
Lemma retire_keeps s A X l0 l1 n (b : bool) i k p H : inv s A X l0 l1 n ->
  (if b then l1 else l0) !! i = Some (SLive k p) -> (forall q, q <> p -> H !! q = s_heap s !! q) ->
  (forall (c : bool) j k' p' o, b <> c \/ i <> j -> (if c then l1 else l0) !! j = Some (SLive k' p') ->
     s_heap s !! p' = Some o -> exists o', H !! p' = Some o' /\ o_key o' = o_key o).
Proof.
  intros Hi Hs Hq c j k' p' o Hne Hj Ho. exists o. split; [|done]. rewrite Hq; [done|].
  by eapply (slot_ptr_ne s A X l0 l1 n b c i j k k' p p').
Qed.
Lemma tabs_remove s A X l0 l1 n (b : bool) i k p H nb pd r : inv s A X l0 l1 n ->
  0 <= i < t_cap (tab s b) -> (if b then l1 else l0) !! Z.to_nat i = Some (SLive k p) ->
  (forall q, q <> p -> H !! q = s_heap s !! q) ->
  let x := tab s b in
  exists ws, put (t_words x) i kTombBit = Some ws /\
    let s' := set_tab (set_mem s H nb pd r) b (mkTab ws (t_cap x) (t_mask x) (u32 (t_live x - 1)) (u32 (t_tombs x + 1))) in
    let l' := <[Z.to_nat i := STomb]> (if b then l1 else l0) in
    tabs_ok s' (delete k (ptrs_of A)) (tabs_of b l' l0 l1).1 (tabs_of b l' l0 l1).2 /\
    moved s' (tabs_of b l' l0 l1).2 /\ load s' n /\ same_shape s s'.
Proof.
  intros Hi Hr Hs Hq x. pose proof (retire_keeps _ _ _ _ _ _ b _ _ _ H Hi Hs Hq) as Hkeep.
  destruct (i_tabs _ _ _ _ _ _ Hi) as [T0 T1 Hd Hm]. destruct (i_moved _ _ _ _ _ _ Hi) as (P0 & P1 & P2).
  pose proof (i_load _ _ _ _ _ _ Hi) as HL. rewrite Hm, delete_union. subst x. destruct b; cbn [tab tabs_of fst snd] in *.
  - destruct T1 as [[_ ->]|T1]; [done|].
    destruct (write_tomb cfg (s_heap s) H (s_t1 s) l1 i k p T1 Hr Hs) as (ws & E & Em & Hpos & Hrep).
    { intros j k' p' o Hne Hj Ho. apply (Hkeep true j k' p' o); auto. }
    exists ws. split; [done|]. pose proof (tab_bounds _ _ _ _ T1) as (Hb & _ & B2 & B3 & _). change (2 ^ 31) with 2147483648 in Hb.
    assert (slots_map l0 !! k = None) as Hn.
    { apply (map_disjoint_Some_r (slots_map l0) (slots_map l1) k p); [done|]. destruct T1 as (_ & _ & _ & _ & [Hu _] & _).
      apply slots_map_spec; eauto. }
    split; [|split; [|split]].
    + split; cbn [s_heap s_t0 s_t1 set_tab set_tabs set_mem].
      * apply (tab_rep_heap cfg (s_heap s)); [done|]. intros j k' p' o Hj Ho. apply (Hkeep false j k' p' o); auto.
      * by right.
      * rewrite Em. by apply map_disjoint_delete_r.
      * by rewrite Em, (delete_id (slots_map l0)).
    + split_and!; [done|done|]. intros j y Hj Hy. cbn [s_pos set_tab set_tabs] in Hj. apply list_lookup_insert_Some in Hy as [(_ & <- & _)|[_ Hy]]; [done|by eapply P2].
    + unfold load in *. cbn [rehashing s_t0 s_t1 s_pos set_tab set_tabs set_mem t_live t_tombs t_cap] in *. unfold rehashing in *. cbn [s_t1 t_cap] in *.
      destruct (negb _); [|done]. rewrite (u32_small (t_live (s_t1 s) - 1)) by lia. lia.
    + done.
  - destruct (write_tomb cfg (s_heap s) H (s_t0 s) l0 i k p T0 Hr Hs) as (ws & E & Em & Hpos & Hrep).
    { intros j k' p' o Hne Hj Ho. apply (Hkeep false j k' p' o); auto. }
    exists ws. split; [done|]. pose proof (tab_bounds _ _ _ _ T0) as (Hb & _ & B2 & B3 & _). change (2 ^ 31) with 2147483648 in Hb.
    assert (slots_map l1 !! k = None) as Hn.
    { apply (map_disjoint_Some_l (slots_map l0) (slots_map l1) k p); [done|]. destruct T0 as (_ & _ & _ & _ & [Hu _] & _).
      apply slots_map_spec; eauto. }
    split; [|split; [|split]].
    + split; cbn [s_heap s_t0 s_t1 set_tab set_tabs set_mem].
      * done.
      * destruct T1 as [?|T1]; [by left|right]. apply (tab_rep_heap cfg (s_heap s)); [done|]. intros j k' p' o Hj Ho.
        apply (Hkeep true j k' p' o); auto.
      * rewrite Em. by apply map_disjoint_delete_l.
      * by rewrite Em, (delete_id (slots_map l1)).
    + done.
    + unfold load, rehashing in *. cbn [s_t0 s_t1 s_pos set_tab set_tabs set_mem t_live t_tombs t_cap] in *.
      rewrite (u32_small (t_live (s_t0 s) - 1)), (u32_small (t_tombs (s_t0 s) + 1)) by lia. destruct (negb _); lia.
    + done.
Qed.

Lemma a_remove_live A key : a_live (a_remove A key) = delete key (a_live A).
Proof.
  unfold a_remove. destruct (a_live A !! key) as [[p o]|] eqn:E; [|by rewrite delete_id].
  unfold a_retire. by destruct (lent _ o) as [[v m]|].
Qed.
Lemma a_remove_rest A key : a_now (a_remove A key) = a_now A /\ a_expired (a_remove A key) = a_expired A /\
  a_aof (a_remove A key) = a_aof A.
Proof. unfold a_remove. destruct (a_live A !! key) as [[p o]|]; [|done]. unfold a_retire. by destruct (lent _ o) as [[v m]|]. Qed.
Lemma inv_set_exp s A X l0 l1 n e : inv s A X l0 l1 n -> idx_ok e (a_live A) -> inv (set_exp s e) A X l0 l1 n.
Proof. intros [Hm [] Hp Hl Hi Hn He Ha] He'. by split. Qed.
(** The slot [i] of table [b] turned into a tombstone. *)
Definition buried (b : bool) (i : nat) l0 l1 : list (Slot bytes Z) * list (Slot bytes Z) :=
  tabs_of b (<[i := STomb]> (if b then l1 else l0)) l0 l1.
Lemma erase_in_at s A X l0 l1 n (b : bool) key h : inv s A X l0 l1 n -> key_ok key h ->
  match slots_map (if b then l1 else l0) !! key with
  | None => erase_in false s b h key = Some (s, false, false)
  | Some p => exists o s' i, a_live A !! key = Some (p, o) /\ (if b then l1 else l0) !! i = Some (SLive key p) /\
      erase_in false s b h key = Some (s', true, elapsed (a_now A) o) /\
      inv s' (a_remove A key) X (buried b i l0 l1).1 (buried b i l0 l1).2 n /\ same_shape s s'
  end.
Proof.
  intros Hi Hk. pose proof (i_tabs _ _ _ _ _ _ Hi) as HT. unfold erase_in.
  destruct (find_slot_spec cfg s b (if b then l1 else l0) key h) as (r & -> & Hf); [|apply Hk|apply Hk|].
  { destruct b; [apply HT|right; apply HT]. }
  rewrite some_bind. destruct r as [[i p]|]; cbn [found] in Hf; [|by rewrite Hf].
  destruct Hf as (Hr & Hs & Em). rewrite Em. destruct (table_live _ _ _ _ _ _ b _ _ Hi Em) as [o Ho].
  pose proof (live_heap _ _ _ _ _ _ _ _ _ (i_mem _ _ _ _ _ _ Hi) Ho) as Hp. rewrite Hp, some_bind, deadline_elapsed_eq, some_bind.
  destruct (untrack_spec s (a_live A) h (i_idx _ _ _ _ _ _ Hi)) as (e & -> & He & Hn). rewrite some_bind.
  pose proof (inv_set_exp _ _ _ _ _ _ e Hi He) as Hi1.
  destruct (retire_obj_spec (set_exp s e) A X key p o (i_mem _ _ _ _ _ _ Hi1) Ho) as (H & nb & pd & rg & -> & Hm & Hq). rewrite some_bind.
  assert (0 <= i < t_cap (tab s b)) as Hr'.
  { destruct b; cbn [tab]; [destruct (t_old _ _ _ _ HT) as [[_ ->]|(_ & <- & _)]; [by cbn in Hr; lia|done]|].
    by destruct (t_new _ _ _ _ HT) as (_ & <- & _). }
  destruct (tabs_remove (set_exp s e) A X l0 l1 n b i key p H nb pd rg Hi1) as (ws & E & Ht & Hmv & Hl & Hsh); [by destruct b|done|done|].
  assert (tab (set_mem (set_exp s e) H nb pd rg) b = tab s b) as Et by (by destruct b).
  assert (tab (set_exp s e) b = tab s b) as Et' by (by destruct b). rewrite Et' in *.
  rewrite Et, E, some_bind, (i_now _ _ _ _ _ _ Hi). exists o. do 1 eexists. exists (Z.to_nat i). split; [done|]. split; [done|]. split; [done|]. split; [|done].
  destruct (a_remove_rest A key) as (R1 & R2 & R3). split.
  - by destruct b.
  - unfold ptrs_of. rewrite a_remove_live, fmap_delete. exact Ht.
  - exact Hmv.
  - exact Hl.
  - rewrite a_remove_live. destruct b; apply idx_delete; try done; by rewrite (key_hash _ _ Hk).
  - rewrite R1, <- (i_now _ _ _ _ _ _ Hi). by destruct b.
  - rewrite R2, <- (i_exp _ _ _ _ _ _ Hi). by destruct b.
  - rewrite R3, <- (i_aof _ _ _ _ _ _ Hi). by destruct b.
Qed.
Lemma store_erase_in_spec s A X l0 l1 n (b : bool) key h : inv s A X l0 l1 n -> key_ok key h ->
  match slots_map (if b then l1 else l0) !! key with
  | None => erase_in false s b h key = Some (s, false, false)
  | Some p => exists o s' l0' l1', a_live A !! key = Some (p, o) /\
      erase_in false s b h key = Some (s', true, elapsed (a_now A) o) /\
      inv s' (a_remove A key) X l0' l1' n /\ same_shape s s'
  end.
Proof.
  intros Hi Hk. pose proof (erase_in_at s A X l0 l1 n b key h Hi Hk) as He.
  destruct (slots_map _ !! key); [|done]. destruct He as (o & s' & i & Ho & _ & E & Hi' & Hs). by exists o, s', (buried b i l0 l1).1, (buried b i l0 l1).2.
Qed.

(** * Lookup *)
Definition a_find A key : Abs * option Z :=
  match a_live A !! key with
  | Some (p, o) => if elapsed (a_now A) o then (a_expire A key, None) else (A, Some p)
  | None => (A, None)
  end.
Lemma inv_record s A X l0 l1 n key : inv s A X l0 l1 n -> inv (record_delete s key) (with_aof A key) X l0 l1 n.
Proof. intros [[] [] Hp Hl Hi Hn He Ha]. split; try done. cbn. by rewrite Ha. Qed.
Lemma inv_count s A X l0 l1 n : inv s A X l0 l1 n -> inv (count_expired s) (bump_expired A) X l0 l1 n.
Proof. intros [[] [] Hp Hl Hi Hn He Ha]. split; try done. cbn. by rewrite He. Qed.
Lemma expire_spec s A X l0 l1 n (b : bool) key h p : inv s A X l0 l1 n -> key_ok key h ->
  slots_map (if b then l1 else l0) !! key = Some p ->
  exists s' e i, erase_in false (record_delete s key) b h key = Some (s', true, e) /\
    (if b then l1 else l0) !! i = Some (SLive key p) /\
    inv (count_expired s') (a_expire A key) X (buried b i l0 l1).1 (buried b i l0 l1).2 n /\ same_shape s s' /\ s_now s' = s_now s.
Proof.
  intros Hi Hk Hp. pose proof (erase_in_at _ _ _ _ _ _ b key h (inv_record _ _ _ _ _ _ key Hi) Hk) as He. rewrite Hp in He.
  destruct He as (o & s' & i & Ho & Hs & E & Hi' & Hsh). exists s'. eexists. exists i. split; [done|]. split; [done|].
  split; [by apply inv_count|]. split; [done|]. rewrite (i_now _ _ _ _ _ _ Hi'), (i_now _ _ _ _ _ _ Hi).
  by destruct (a_remove_rest (with_aof A key) key) as (-> & _).
Qed.
Lemma live_or_expire_spec s A X l0 l1 n (b : bool) key h p : inv s A X l0 l1 n -> key_ok key h ->
  slots_map (if b then l1 else l0) !! key = Some p ->
  exists s' l0' l1', live_or_expire false s b h key p = Some (s', (a_find A key).2) /\ inv s' (a_find A key).1 X l0' l1' n /\
    same_shape s s' /\ ((a_find A key).2 <> None -> s' = s).
Proof.
  intros Hi Hk Hp. destruct (table_live _ _ _ _ _ _ b _ _ Hi Hp) as [o Ho]. unfold live_or_expire, a_find. rewrite Ho.
  rewrite (live_heap _ _ _ _ _ _ _ _ _ (i_mem _ _ _ _ _ _ Hi) Ho), some_bind, deadline_eq, <- (i_now _ _ _ _ _ _ Hi).
  assert (negb (o_slot o) = true -> elapsed (s_now s) o = false) as Hns.
  { unfold elapsed, expire_at_ms. by destruct (o_slot o). }
  destruct (negb (o_slot o)); [rewrite Hns by done; exists s, l0, l1; done|]. rewrite some_bind.
  destruct (elapsed (s_now s) o) eqn:Ee; unfold elapsed in Ee.
  - zcmp. rewrite (proj2 (Z.ltb_ge (expire_at_ms o) 0)), (proj2 (Z.ltb_ge (s_now s) _)) by lia. cbn [orb].
    destruct (expire_spec _ _ _ _ _ _ b key h p Hi Hk Hp) as (s' & e & i & -> & _ & Hi' & Hsh & _). rewrite some_bind.
    eexists (count_expired s'), _, _. done.
  - assert ((expire_at_ms o <? 0) || (s_now s <? expire_at_ms o) = true) as ->.
    { apply andb_false_iff in Ee as [Ee|Ee]; zcmp; apply orb_true_iff; [left|right]; apply Z.ltb_lt; lia. }
    exists s, l0, l1. done.
Qed.
Lemma find_store_spec s A X l0 l1 n key h : inv s A X l0 l1 n -> key_ok key h ->
  exists s' l0' l1', find false s h key = Some (s', (a_find A key).2) /\ inv s' (a_find A key).1 X l0' l1' n /\ same_shape s s' /\
    ((a_find A key).2 <> None -> s' = s).
Proof.
  intros Hi Hk. pose proof (i_tabs _ _ _ _ _ _ Hi) as HT. unfold find.
  rewrite (find_in_spec cfg s false l0 key h) by (apply Hk || (right; apply HT)). rewrite some_bind.
  pose proof (live_table _ _ _ _ _ _ key Hi) as HL.
  destruct (slots_map l0 !! key) as [p|] eqn:E0.
  - destruct (live_or_expire_spec _ _ _ _ _ _ false key h p Hi Hk E0) as (s1 & m0 & m1 & -> & Hi1 & Hsh). rewrite some_bind.
    destruct (rehashing s1 && negb (bool_decide (is_Some (a_find A key).2))) eqn:Er; [|by exists s1, m0, m1].
    apply andb_prop in Er as [_ Er]. zcmp. apply bool_decide_eq_false in Er.
    assert (slots_map m1 !! key = None) as Em.
    { pose proof (live_table _ _ _ _ _ _ key Hi1) as HL1. unfold a_find in HL1, Er.
      destruct (a_live A !! key) as [[q o]|] eqn:Eq; [|done]. destruct (elapsed (a_now A) o); [|by destruct Er].
      unfold a_expire in HL1. cbn [a_live bump_expired fst] in HL1. rewrite a_remove_live in HL1. cbn [a_live with_aof] in HL1.
      rewrite lookup_delete_eq in HL1. cbn in HL1. by destruct (slots_map m0 !! key). }
    pose proof (i_tabs _ _ _ _ _ _ Hi1) as HT1.
    rewrite (find_in_spec cfg s1 true m1 key h) by (apply Hk || apply HT1). rewrite some_bind, Em.
    exists s1, m0, m1. split; [|done]. do 2 f_equal. destruct (a_find A key).2; [by destruct Er|done].
  - rewrite some_bind. cbv beta iota. change (bool_decide (is_Some (@None Z))) with false. cbn [negb]. rewrite andb_true_r.
    destruct (rehashing s) eqn:Er.
    + rewrite (find_in_spec cfg s true l1 key h) by (apply Hk || apply HT). rewrite some_bind.
      destruct (slots_map l1 !! key) as [p|] eqn:E1; [exact (live_or_expire_spec s A X l0 l1 n true key h p Hi Hk E1)|].
      unfold a_find. destruct (a_live A !! key); [done|]. by exists s, l0, l1.
    + destruct (t_old _ _ _ _ HT) as [[_ ->]|T1].
      * unfold a_find. destruct (a_live A !! key); [done|]. by exists s, l0, [].
      * pose proof (tab_bounds _ _ _ _ T1) as (Hb & _). unfold rehashing in Er. zcmp. lia.
Qed.
Lemma find_resident_spec s A X l0 l1 n key h : inv s A X l0 l1 n -> key_ok key h ->
  find_resident s h key = Some (fst <$> a_live A !! key).
Proof.
  intros Hi Hk. pose proof (i_tabs _ _ _ _ _ _ Hi) as HT. unfold find_resident.
  rewrite (find_in_spec cfg s false l0 key h) by (apply Hk || (right; apply HT)). rewrite some_bind.
  rewrite (live_table _ _ _ _ _ _ key Hi). destruct (slots_map l0 !! key); [done|].
  rewrite (find_in_spec cfg s true l1 key h) by (apply Hk || apply HT). destruct (rehashing s) eqn:Er; [done|].
  destruct (t_old _ _ _ _ HT) as [[_ ->]|T1]; [done|]. pose proof (tab_bounds _ _ _ _ T1) as (Hb & _).
  unfold rehashing in Er. zcmp. lia.
Qed.

(** * Resizing *)
Lemma place_free s l0 p o h : tab_rep cfg (s_heap s) (s_t0 s) l0 -> s_heap s !! p = Some o -> key_ok (o_key o) h -> addr_ok p ->
  slots_map l0 !! o_key o = None -> t_live (s_t0 s) + t_tombs (s_t0 s) + 1 < t_cap (s_t0 s) ->
  exists t l0', (forall memi fresh, insert_into false memi s false h p fresh =
      (if fresh then s ← track_expire false memi (add_bytes (set_tab s false t) (o_bytes o)) h o; Some (s, true)
       else Some (set_tab s false t, true))) /\
    tab_rep cfg (s_heap s) t l0' /\ slots_map l0' = <[o_key o := p]> (slots_map l0) /\ t_cap t = t_cap (s_t0 s) /\
    t_mask t = t_mask (s_t0 s) /\ t_live t + t_tombs t <= t_live (s_t0 s) + t_tombs (s_t0 s) + 1.
Proof.
  intros Ht Ho Hk Ha Hn Hroom. destruct (insert_place cfg _ _ _ (o_key o) h Ht (proj2 Hk)) as (x & E & Hx).
  destruct x as [i tomb|i q|]; [|destruct Hx as (_ & _ & Hx); congruence|done].
  destruct (write_fill cfg _ _ _ i tomb (o_key o) p Ht Hx) as (ws & l0' & Ew & Em & Hrep); [|done|].
  { exists o. split_and!; try done; [apply Hk|]. rewrite (key_hash _ _ Hk). apply Hk. }
  eexists _, l0'. split.
  - intros memi fresh. unfold insert_into. rewrite Ho, some_bind. cbn [tab]. rewrite E, some_bind, make_word_live, some_bind by done.
    rewrite (key_hash _ _ Hk) in Ew. rewrite Ew, some_bind. done.
  - split; [done|]. split; [done|]. split; [done|]. split; [done|]. pose proof (tab_bounds _ _ _ _ Ht) as (Hb & B1 & B2 & _).
    pose proof (tab_bounds _ _ _ _ Hrep) as (_ & _ & B4 & _).
    change (2 ^ 31) with 2147483648 in Hb. cbn [t_live t_tombs] in *. rewrite u32_small by lia.
    destruct tomb; [|lia]. destruct Hx as (_ & e & _ & _ & _ & Hx). destruct Ht as (_ & _ & _ & _ & _ & _ & HT & _).
    assert (t_tombs (s_t0 s) <> 0). { intros E0. rewrite HT in E0. eapply (proj1 (count_if_zero is_tomb l0) E0) in Hx. done. }
    rewrite u32_small by lia. lia.
Qed.
(** A resize in progress; [c] counts the slots moved. *)
Record table_moving s (M : gmap bytes Z) l0 l1 (c : Z) : Prop := mkTableMoving {
  v_tabs : tabs_ok s M l0 l1;
  v_old : tab_rep cfg (s_heap s) (s_t1 s) l1;
  v_count : 0 <= c;
  v_pos : 0 <= s_pos s <= t_cap (s_t1 s);
  v_dead : forall i x, (i < Z.to_nat (s_pos s))%nat -> l1 !! i = Some x -> is_live x = false;
  v_load : 8 * (t_live (s_t0 s) + t_tombs (s_t0 s) + t_live (s_t1 s)) + (t_cap (s_t1 s) - s_pos s) + c <= 5 * t_cap (s_t0 s) }.
Lemma move_one s M l0 l1 c : table_moving s M l0 l1 c -> s_pos s < t_cap (s_t1 s) ->
  exists t0 t1 l0' l1', (forall m, rehash_loop cfg false (S m) s = rehash_loop cfg false m (set_tabs s t0 t1 (s_pos s + 1))) /\
    table_moving (set_tabs s t0 t1 (s_pos s + 1)) M l0' l1' (c + 1) /\ t_cap t0 = t_cap (s_t0 s) /\ t_cap t1 = t_cap (s_t1 s).
Proof.
  intros [[T0 _ Hd Hm] T1 Hc Hpos Hdead Hl] Hlt.
  destruct (word_at cfg _ _ _ (s_pos s) T1 ltac:(lia)) as (w & x & Hw & Hx & Hr).
  pose proof (tab_bounds _ _ _ _ T0) as (B0 & B1 & B2 & B3 & _). pose proof (tab_bounds _ _ _ _ T1) as (C0 & C1 & C2 & C3 & _).
  change (2 ^ 31) with 2147483648 in *.
  assert (forall l2, (forall j, j <> Z.to_nat (s_pos s) -> l2 !! j = l1 !! j) -> (forall y, l2 !! Z.to_nat (s_pos s) = Some y -> is_live y = false) ->
    forall i y, (i < Z.to_nat (s_pos s + 1))%nat -> l2 !! i = Some y -> is_live y = false) as Hdead'.
  { intros l2 Hsame Hy i y Hi Hiy. destruct (decide (i = Z.to_nat (s_pos s))) as [->|]; [by apply Hy|].
    rewrite Hsame in Hiy by done. apply (Hdead i); [lia|done]. }
  assert (is_live x = false -> (ptr_of w =? 0) = true) as Hskip.
  { destruct x as [| |k p]; cbn in Hr |- *; try done; intros _; subst w; done. }
  destruct x as [| |k p].
  1,2: exists (s_t0 s), (s_t1 s), l0, l1; split_and!; try done;
    [intros m; cbn [rehash_loop]; rewrite Hw, some_bind, Hskip by done; by destruct s|];
    split; try done; cbn [s_t0 s_t1 s_pos set_tabs]; try lia; [split; try done; by right|];
    apply Hdead'; [done|intros y Hy; rewrite Hx in Hy; by injection Hy as <-].
  destruct Hr as (o & Ho & Hk & Hf & Hh & Ha & ->).
  assert (slots_map l1 !! k = Some p) as Hkp by (destruct T1 as (_ & _ & _ & _ & [Hu _] & _); apply slots_map_spec; eauto).
  assert (slots_map l0 !! k = None) as Hk0 by (by eapply map_disjoint_Some_r).
  assert (key_ok (o_key o) (khash k)) as Hok by (rewrite Hk; by split).
  destruct (place_free s l0 p o (khash k) T0 Ho Hok Ha) as (t0 & l0' & E & R0 & M0 & Ec0 & Em0 & U0); [by rewrite Hk|lia|].
  destruct (write_tomb cfg _ _ _ _ (s_pos s) k p T1 ltac:(lia) Hx (keeps_refl _ _ _)) as (ws & Ew & M1 & Hpos1 & R1).
  eexists t0, _, l0', _. split; [|split].
  - intros m. cbn [rehash_loop]. rewrite Hw, some_bind, ptr_live by done. unfold addr_ok in Ha.
    rewrite (proj2 (Z.eqb_neq p 0)) by lia. cbn [negb]. rewrite Ho, some_bind, Hk, Hh, some_bind, E, some_bind. cbn [negb].
    change (s_pos (set_tab s false t0)) with (s_pos s). rewrite Ew, some_bind. done.
  - rewrite Hk in M0. split; cbn [s_t0 s_t1 s_pos s_heap set_tabs t_live t_tombs t_cap].
    + split; cbn [s_t0 s_t1 s_heap set_tabs]; [done|by right|..].
      * rewrite M0, M1. apply map_disjoint_insert_l. split; [apply lookup_delete_eq|by apply map_disjoint_delete_r].
      * rewrite M0, M1, Hm. symmetry. by apply union_insert_delete.
    + done.
    + lia.
    + lia.
    + apply Hdead'; [intros j Hj; by apply list_lookup_insert_ne|]. intros y Hy.
      apply list_lookup_insert_Some in Hy as [(_ & <- & _)|[? _]]; done.
    + rewrite (u32_small (t_live (s_t1 s) - 1)) by lia. rewrite Ec0. lia.
  - done.
Qed.
Lemma rehash_loop_spec m s M l0 l1 c : table_moving s M l0 l1 c -> s_pos s + Z.of_nat m <= t_cap (s_t1 s) ->
  exists t0 t1 l0' l1', rehash_loop cfg false m s = Some (set_tabs s t0 t1 (s_pos s + Z.of_nat m), true) /\
    table_moving (set_tabs s t0 t1 (s_pos s + Z.of_nat m)) M l0' l1' (c + Z.of_nat m) /\
    t_cap t0 = t_cap (s_t0 s) /\ t_cap t1 = t_cap (s_t1 s).
Proof.
  revert s l0 l1 c. induction m as [|m IH]; intros s l0 l1 c Hv Hb.
  - exists (s_t0 s), (s_t1 s), l0, l1. rewrite !Z.add_0_r. replace (set_tabs s (s_t0 s) (s_t1 s) (s_pos s)) with s by (by destruct s).
    done.
  - destruct (move_one s M l0 l1 c Hv ltac:(lia)) as (t0 & t1 & m0 & m1 & E & Hv1 & C0 & C1). rewrite E.
    destruct (IH _ _ _ _ Hv1) as (u0 & u1 & k0 & k1 & E2 & Hv2 & D0 & D1); [cbn; lia|].
    exists u0, u1, k0, k1. cbn [s_pos set_tabs s_t0 s_t1] in *.
    replace (s_pos s + 1 + Z.of_nat m) with (s_pos s + Z.of_nat (S m)) in * by lia.
    replace (c + 1 + Z.of_nat m) with (c + Z.of_nat (S m)) in * by lia. split_and!; try congruence; done.
Qed.

Lemma load_weaken s n m : load s n -> m <= n -> load s m.
Proof. unfold load. intros Hl Hm. destruct (rehashing s); lia. Qed.
Lemma inv_weaken s A X l0 l1 n m : inv s A X l0 l1 n -> m <= n -> inv s A X l0 l1 m.
Proof. intros [? ? ? Hl ? ? ? ?] Hm. split; try done. by eapply load_weaken. Qed.
Lemma inv_set_tabs s A X l0 l1 n t0 t1 pos l0' l1' m : inv s A X l0 l1 n ->
  tabs_ok (set_tabs s t0 t1 pos) (ptrs_of A) l0' l1' -> moved (set_tabs s t0 t1 pos) l1' -> load (set_tabs s t0 t1 pos) m ->
  inv (set_tabs s t0 t1 pos) A X l0' l1' m.
Proof. intros [? ? ? ? ? ? ? ?] ? ? ?. by split. Qed.
Lemma rehashing_old s A X l0 l1 n : inv s A X l0 l1 n -> rehashing s = true -> tab_rep cfg (s_heap s) (s_t1 s) l1.
Proof.
  intros Hi Hr. destruct (t_old _ _ _ _ (i_tabs _ _ _ _ _ _ Hi)) as [[E _]|T1]; [|done].
  unfold rehashing in Hr. rewrite E in Hr. done.
Qed.
Lemma idle_old s A X l0 l1 n : inv s A X l0 l1 n -> rehashing s = false -> s_t1 s = null_tab /\ l1 = [].
Proof.
  intros Hi Hr. destruct (t_old _ _ _ _ (i_tabs _ _ _ _ _ _ Hi)) as [?|T1]; [done|].
  pose proof (tab_bounds _ _ _ _ T1) as (Hb & _). unfold rehashing in Hr. zcmp. lia.
Qed.
Lemma all_dead l : (forall i x, l !! i = Some x -> is_live x = false) -> unique l -> slots_map l = ∅.
Proof.
  intros Hd Hu. apply map_eq. intros k. rewrite lookup_empty. apply slots_map_None; [done|]. intros i v Hi.
  apply Hd in Hi. done.
Qed.
Lemma rehash_step_spec s A X l0 l1 : inv s A X l0 l1 0 -> rehashing s = true ->
  exists t0 t1 pos l0' l1', rehash_step cfg false s = Some (set_tabs s t0 t1 pos) /\ inv (set_tabs s t0 t1 pos) A X l0' l1' 1.
Proof.
  intros Hi Hr. pose proof (rehashing_old _ _ _ _ _ _ Hi Hr) as T1. destruct (i_moved _ _ _ _ _ _ Hi) as (P0 & P1 & P2).
  pose proof (i_load _ _ _ _ _ _ Hi) as HL. unfold load in HL. rewrite Hr in HL, P1.
  pose proof (tab_bounds _ _ _ _ T1) as (C0 & _).
  unfold rehash_step. set (m := Z.to_nat _). change (Z.of_nat kRehashSlotsPerOp) with 8 in m.
  destruct (rehash_loop_spec m s (ptrs_of A) l0 l1 0) as (t0 & t1 & m0 & m1 & -> & Hv & E0 & E1).
  { split; try done; try lia. apply Hi. }
  { unfold m. lia. }
  rewrite some_bind. cbn [andb]. pose proof Hv as [HT T1' _ Hp Hd Hl]. cbn [s_t0 s_t1 s_pos set_tabs s_heap] in *.
  pose proof (tab_bounds _ _ _ _ (t_new _ _ _ _ HT)) as (B0 & B1 & B2 & _). cbn [s_t0 set_tabs] in *.
  zsplit.
  - exists t0, null_tab, 0, m0, []. split; [done|]. apply (inv_set_tabs s A X l0 l1 0); [done|..].
    + destruct HT as [R0 _ _ Hm]. split; [done|by left|apply map_disjoint_empty_r|].
      rewrite Hm, (all_dead m1); [done| |apply T1']. intros i x Hix. apply (Hd i x); [|done].
      apply lookup_lt_Some in Hix. destruct T1' as (_ & Hlen & _). lia.
    + by split_and!.
    + unfold load, rehashing. cbn [s_t0 s_t1 set_tabs null_tab t_cap t_live negb]. pose proof (tab_bounds _ _ _ _ T1') as (_ & D1 & _).
      cbn [Z.eqb negb]. lia.
  - exists t0, t1, (s_pos s + Z.of_nat m), m0, m1. split; [done|].
    assert (rehashing (set_tabs s t0 t1 (s_pos s + Z.of_nat m)) = true) as Hr'.
    { unfold rehashing in *. cbn [s_t1 set_tabs]. by rewrite E1. }
    apply (inv_set_tabs s A X l0 l1 0); [done|done|..].
    + unfold moved. rewrite Hr'. cbn [s_pos s_t1 set_tabs]. split_and!; try lia; done.
    + unfold load. rewrite Hr'. cbn [s_t0 s_t1 s_pos set_tabs]. assert (m = 8%nat) by (unfold m in *; lia). lia.
Qed.
Lemma live_size s A X l0 l1 n : inv s A X l0 l1 n ->
  Z.of_nat (size (a_live A)) = t_live (s_t0 s) + t_live (s_t1 s).
Proof.
  intros Hi. destruct (i_tabs _ _ _ _ _ _ Hi) as [T0 T1 Hd Hm]. pose proof (tab_bounds _ _ _ _ T0) as (_ & _ & _ & _ & _ & _ & _ & S0).
  assert (size (a_live A) = size (ptrs_of A)) as -> by (unfold ptrs_of; by rewrite map_size_fmap).
  rewrite Hm, map_size_disj_union by done. destruct T1 as [[-> ->]|T1].
  - rewrite Nat2Z.inj_add, S0. done.
  - pose proof (tab_bounds _ _ _ _ T1) as (_ & _ & _ & _ & _ & _ & _ & S1). lia.
Qed.
(** Installing an empty table; the new capacity [c'] has room for the live entries and the insertions
    of the whole move. *)
Lemma start_rehash_spec mem s A X l0 l1 n c' k m : inv s A X l0 l1 n -> rehashing s = false -> c' = 2 ^ k -> 6 <= k <= 31 ->
  8 * (t_live (s_t0 s) + m) + t_cap (s_t0 s) <= 5 * c' ->
  if mem then exists s' l0' l1', start_rehash mem s c' = (s', true) /\ inv s' A X l0' l1' m
  else start_rehash mem s c' = (s, false).
Proof.
  intros Hi Hr Hc Hk Hl. destruct (idle_old _ _ _ _ _ _ Hi Hr) as [E1 ->]. unfold start_rehash. rewrite Hr.
  pose proof (Z.pow_le_mono_r 2 6 k ltac:(lia) ltac:(lia)) as H6. change (2 ^ 6) with 64 in H6. unfold kMinCap.
  rewrite (proj2 (Z.ltb_ge c' 64)) by lia. destruct mem; cbn [negb]; [|done]. eexists _, _, l0. split; [done|].
  destruct Hi as [Hm [T0 _ Hd Hmap] _ _ Hi Hn He Ha]. pose proof (tab_bounds _ _ _ _ T0) as (B0 & _). rewrite Hc.
  destruct (empty_rep cfg (s_heap s) k Hk) as [Rn Mn].
  assert (forall s', s_t1 s' = s_t0 s -> rehashing s' = true) as Hr'.
  { intros s' E. unfold rehashing. rewrite E. apply negb_true_iff, Z.eqb_neq. lia. }
  split; try done.
  - split; cbn [s_t0 s_t1 s_heap set_tabs set_stats count_rehash]; [exact Rn|by right|rewrite Mn; apply map_disjoint_empty_l|].
    rewrite Mn, map_empty_union, Hmap. apply map_union_empty.
  - unfold moved. rewrite Hr' by done. cbn [s_pos s_t1 set_tabs set_stats count_rehash]. split_and!; [done|lia|]. intros i x Hx. lia.
  - unfold load. rewrite Hr' by done. cbn [s_t0 s_t1 s_pos set_tabs set_stats count_rehash empty_table t_live t_tombs t_cap]. lia.
Qed.
Lemma maybe_start_grow_spec mem s A X l0 l1 : inv s A X l0 l1 0 -> rehashing s = false -> Z.of_nat (size (a_live A)) < 2 ^ 29 ->
  exists s' ok l0' l1', maybe_start_grow mem s = (s', ok) /\ (mem = true -> ok = true) /\
    (if ok then inv s' A X l0' l1' 1 else s' = s).
Proof.
  intros Hi Hr Hsz. pose proof (live_size _ _ _ _ _ _ Hi) as Hls. destruct (idle_old _ _ _ _ _ _ Hi Hr) as [E1 El1].
  rewrite E1 in Hls. cbn [null_tab t_live] in Hls. change (2 ^ 29) with 536870912 in Hsz.
  pose proof (i_load _ _ _ _ _ _ Hi) as HL. unfold load in HL. rewrite Hr in HL.
  pose proof (t_new _ _ _ _ (i_tabs _ _ _ _ _ _ Hi)) as T0. pose proof (tab_bounds _ _ _ _ T0) as (B0 & B1 & B2 & _).
  destruct T0 as ((k & Hk & Hc) & _). unfold maybe_start_grow, kLoadPct. zsplit.
  { exists s, true, l0, l1. split; [done|]. split; [done|]. destruct Hi. split; try done. unfold load. rewrite Hr. lia. }
  assert (exists k', 6 <= k' <= 31 /\ (if t_cap (s_t0 s) * 70 <=? t_live (s_t0 s) * 200 then t_cap (s_t0 s) * 2 else t_cap (s_t0 s)) = 2 ^ k' /\
            8 * (t_live (s_t0 s) + 1) + t_cap (s_t0 s) <= 5 * 2 ^ k') as (k' & Hk' & -> & Hroom).
  { destruct (Z.leb_spec (t_cap (s_t0 s) * 70) (t_live (s_t0 s) * 200)).
    - exists (k + 1). rewrite Hc, Z.pow_add_r by lia. change (2 ^ 1) with 2.
      assert (k < 31); [|split_and!; lia]. destruct (decide (k = 31)) as [->|]; [|lia]. change (2 ^ 31) with 2147483648 in *. lia.
    - exists k. rewrite <- Hc. split_and!; try done; lia. }
  pose proof (Z.pow_le_mono_r 2 k' 31 ltac:(lia) ltac:(lia)) as H31. change (2 ^ 31) with 2147483648 in H31. unfold UINT32_MAX.
  rewrite (proj2 (Z.ltb_ge 4294967295 (2 ^ k'))) by lia.
  pose proof (start_rehash_spec mem s A X l0 l1 0 _ k' 1 Hi Hr eq_refl Hk' Hroom) as Hs. destruct mem.
  - destruct Hs as (s' & l0' & l1' & E' & Hi'). exists s', true, l0', l1'. done.
  - exists s, false, l0, l1. done.
Qed.
Lemma maybe_start_shrink_spec mem s A X l0 l1 : inv s A X l0 l1 0 ->
  exists l0' l1', inv (maybe_start_shrink mem s) A X l0' l1' 0.
Proof.
  intros Hi. pose proof (t_new _ _ _ _ (i_tabs _ _ _ _ _ _ Hi)) as T0. pose proof (tab_bounds _ _ _ _ T0) as (B0 & B1 & _).
  destruct T0 as ((k & Hk & Hc) & _). unfold maybe_start_shrink, kLoadPct, kMinCap.
  destruct (rehashing s) eqn:Hr; cbn [orb]; [by exists l0, l1|]. zsplit; [by exists l0, l1|]. zsplit; [by exists l0, l1|].
  assert (t_cap (s_t0 s) / 2 = 2 ^ (k - 1)) as Eh.
  { rewrite Hc. replace k with (k - 1 + 1) at 1 by lia. rewrite Z.pow_add_r by lia. apply Z.div_mul. lia. }
  assert (6 < k) as Hk6. { destruct (decide (k = 6)) as [->|]; [|lia]. change (2 ^ 6) with 64 in Hc. lia. }
  assert (t_cap (s_t0 s) = 2 * 2 ^ (k - 1)) as Ec by (rewrite Hc; replace k with (k - 1 + 1) at 1 by lia; rewrite Z.pow_add_r by lia; lia).
  pose proof (start_rehash_spec mem s A X l0 l1 0 _ (k - 1) 0 Hi Hr Eh ltac:(lia) ltac:(lia)) as Hs. destruct mem.
  - destruct Hs as (s' & l0' & l1' & -> & Hi'). cbn [fst]. by exists l0', l1'.
  - rewrite Hs. cbn [fst]. by exists l0, l1.
Qed.

(** * Insertion *)
(** The object is the caller's before and the table's after; what it displaces is removed. *)
Definition a_insert A (p : Z) (o : KvObj) : Abs :=
  let A1 := match a_live A !! o_key o with
            | Some (_, c) => if elapsed (a_now A) c then bump_expired A else A
            | None => A
            end in
  a_publish (a_remove A1 (o_key o)) p o.
Lemma bump_remove A key : a_remove (bump_expired A) key = bump_expired (a_remove A key).
Proof.
  unfold a_remove. cbn [a_live bump_expired]. destruct (a_live A !! key) as [[p o]|]; [|done].
  unfold a_retire. change (lent (with_live (bump_expired A) ?L) o) with (lent (with_live A L) o).
  by destruct (lent _ o) as [[v m]|].
Qed.
Lemma caller_heap s A X l0 l1 n p o : inv s A (<[p := o]> X) l0 l1 n -> s_heap s !! p = Some o.
Proof. intros Hi. apply (m_heap _ _ _ _ _ _ (i_mem _ _ _ _ _ _ Hi)). right; right. apply lookup_insert_eq. Qed.
Lemma caller_ne s A X l0 l1 n p o k q c : inv s A (<[p := o]> X) l0 l1 n -> a_live A !! k = Some (q, c) -> q <> p.
Proof.
  intros Hi Hq ->. destruct (m_live _ _ _ _ _ _ (i_mem _ _ _ _ _ _ Hi) _ _ _ Hq) as [_ E]. by rewrite lookup_insert_eq in E.
Qed.
Lemma insert_room memi s A X l0 l1 n p o h : inv s A (<[p := o]> X) l0 l1 n -> t_live (s_t0 s) + t_tombs (s_t0 s) + 1 < t_cap (s_t0 s) -> X !! p = None -> key_ok (o_key o) h -> addr_ok p ->
  slots_map l0 !! o_key o = None -> slots_map l1 !! o_key o = None -> Z.of_nat (size (a_live A)) < 2 ^ 29 ->
  exists s' l0', insert_into false memi s false h p true = Some (s', true) /\ inv s' (a_publish A p o) X l0' l1 (n - 1) /\ s_t1 s' = s_t1 s /\ t_cap (s_t0 s') = t_cap (s_t0 s) /\ s_pos s' = s_pos s.
Proof.
  intros Hi Hroom Hx Hk Ha H0 H1 Hsz. pose proof (caller_heap _ _ _ _ _ _ _ _ Hi) as Hp. pose proof Hi as [Hm [T0 T1 Hd Hmap] Hmv HL Hix Hn He Haof].
  assert (a_live A !! o_key o = None) as Hnone.
  { pose proof (live_table _ _ _ _ _ _ (o_key o) Hi) as E. rewrite H0, H1 in E. by destruct (a_live A !! o_key o). }
  destruct (place_free s l0 p o h T0 Hp Hk Ha H0 Hroom) as (t & l0' & E & R & M0 & Ec & Em & U).
  rewrite E. destruct (track_spec memi (add_bytes (set_tab s false t) (o_bytes o)) (a_live (a_publish A p o)) h o (o_key o)) as (e & -> & He').
  { eapply idx_mono; [exact Hix|]. intros k Hk'. cbn. destruct (decide (k = o_key o)) as [->|]; [by rewrite lookup_insert_eq|by rewrite lookup_insert_ne]. }
  { cbn. by rewrite lookup_insert_eq. }
  { by apply key_hash. }
  { cbn [a_live a_publish with_live]. rewrite map_size_insert, Hnone. change (2 ^ 30) with 1073741824. change (2 ^ 29) with 536870912 in Hsz. lia. }
  rewrite some_bind. eexists _, l0'. split; [done|]. split; [|done].
  assert (forall s', s_t1 s' = s_t1 s -> rehashing s' = rehashing s) as Hr by (intros s' E'; unfold rehashing; by rewrite E').
  split; try done.
  - apply mem_publish; done.
  - split; cbn [s_t0 s_t1 s_heap set_tab set_tabs set_exp add_bytes set_mem]; try done.
    + rewrite M0. by apply map_disjoint_insert_l.
    + unfold ptrs_of in *. cbn [a_live a_publish with_live]. rewrite fmap_insert, Hmap, M0. cbn [fst]. apply insert_union_l.
  - unfold load in *. rewrite Hr by done. cbn [s_t0 s_t1 s_pos set_tab set_tabs set_exp add_bytes set_mem]. rewrite Ec.
    destruct (rehashing s); lia.
Qed.
Lemma insert_new memi s A X l0 l1 p o h : inv s A (<[p := o]> X) l0 l1 1 -> X !! p = None -> key_ok (o_key o) h -> addr_ok p ->
  slots_map l0 !! o_key o = None -> slots_map l1 !! o_key o = None -> Z.of_nat (size (a_live A)) < 2 ^ 29 ->
  exists s' l0', insert_into false memi s false h p true = Some (s', true) /\ inv s' (a_publish A p o) X l0' l1 0.
Proof.
  intros Hi Hx Hk Ha H0 H1 Hsz. destruct (insert_room memi s A X l0 l1 1 p o h Hi) as (s' & l0' & E & Hi' & _); try done; [|by exists s', l0'].
  destruct Hi as [_ [T0 T1 _ _] Hmv HL _ _ _ _]. pose proof (tab_bounds _ _ _ _ T0) as (B0 & B1 & B2 & B3 & _). unfold load in HL. destruct (rehashing s) eqn:Er; [|lia].
  destruct T1 as [[E1 _]|T1]; [unfold rehashing in Er; by rewrite E1 in Er|]. pose proof (tab_bounds _ _ _ _ T1) as (_ & C1 & _). destruct Hmv as (_ & Hpos & _). rewrite Er in Hpos. lia.
Qed.
Lemma insert_over memi s A X l0 l1 n p o h q : inv s A (<[p := o]> X) l0 l1 n -> X !! p = None -> key_ok (o_key o) h -> addr_ok p ->
  slots_map l0 !! o_key o = Some q -> Z.of_nat (size (a_live A)) < 2 ^ 29 ->
  exists s' l0', insert_into false memi s false h p true = Some (s', true) /\ inv s' (a_insert A p o) X l0' l1 n /\ s_t1 s' = s_t1 s /\ t_cap (s_t0 s') = t_cap (s_t0 s) /\ s_pos s' = s_pos s.
Proof.
  intros Hi Hx Hk Ha H0 Hsz. pose proof (caller_heap _ _ _ _ _ _ _ _ Hi) as Hp.
  destruct (table_live _ _ _ _ _ _ false _ _ Hi H0) as [c Hc]. pose proof (caller_ne _ _ _ _ _ _ _ _ _ _ _ Hi Hc) as Hqp.
  pose proof (live_heap _ _ _ _ _ _ _ _ _ (i_mem _ _ _ _ _ _ Hi) Hc) as Hq.
  unfold insert_into, a_insert. rewrite Hp, some_bind, Hc.
  destruct (insert_place cfg _ _ _ (o_key o) h (t_new _ _ _ _ (i_tabs _ _ _ _ _ _ Hi)) (proj2 Hk)) as (x & E & Hpl).
  cbn [tab]. rewrite E, some_bind. destruct x as [i tomb|i q'|]; [destruct Hpl as [Hpl _]; congruence| |done].
  destruct Hpl as (Hr & Hs & Eq). assert (q' = q) as -> by congruence.
  rewrite Hq, some_bind, deadline_elapsed_eq, some_bind, (i_now _ _ _ _ _ _ Hi).
  assert (exists s1 A1, (if elapsed (a_now A) c then count_expired s else s) = s1 /\ (if elapsed (a_now A) c then bump_expired A else A) = A1 /\
    inv s1 A1 (<[p := o]> X) l0 l1 n /\ a_live A1 = a_live A /\ s_heap s1 = s_heap s /\ s_t0 s1 = s_t0 s /\ s_t1 s1 = s_t1 s /\ s_pos s1 = s_pos s) as (s1 & A1 & -> & -> & Hi1 & EL & EH & E0 & E1 & E2).
  { destruct (elapsed (a_now A) c); [exists (count_expired s), (bump_expired A)|exists s, A]; split_and!; try done. by apply inv_count. }
  clear Hi. rewrite <- EL in *. rewrite <- EH, <- E0 in *. rewrite <- E1, <- E2. clear EL EH E0 E1 E2 s A.
  destruct (track_spec memi s1 (a_live A1) h o (o_key o) (i_idx _ _ _ _ _ _ Hi1)) as (e & -> & He);
    [by eexists|by apply key_hash|change (2 ^ 30) with 1073741824; change (2 ^ 29) with 536870912 in Hsz; lia|]. rewrite some_bind.
  pose proof (inv_set_exp _ _ _ _ _ _ e Hi1 He) as Hi2.
  destruct (retire_obj_spec (set_exp s1 e) A1 (<[p := o]> X) (o_key o) q c (i_mem _ _ _ _ _ _ Hi2) Hc) as (H & nb & pd & rg & -> & Hm & Hag).
  rewrite some_bind, make_word_live, some_bind by done.
  pose proof (retire_keeps _ _ _ _ _ _ false _ _ _ H Hi1 Hs Hag) as Hkeep.
  destruct Hi1 as [_ [T0 T1 Hd Hmap] Hmv HL _ Hn Hex Haof].
  destruct (write_same cfg (s_heap s1) H (s_t0 s1) l0 i (o_key o) q p T0 Hr Hs) as (ws & Ew & Em & Hrep).
  { intros j k' p' o' Hne Hj Ho'. apply (Hkeep false j k' p' o'); auto. }
  { exists o. rewrite Hag by done. split_and!; try done; [apply Hk|]. rewrite (key_hash _ _ Hk). apply Hk. }
  rewrite (key_hash _ _ Hk) in Ew. cbn [tab s_t0 set_mem set_exp]. rewrite Ew, some_bind.
  eexists _, _. split; [done|]. split; [|done]. destruct (a_remove_rest A1 (o_key o)) as (R1 & R2 & R3). split.
  - apply mem_publish; try done. rewrite a_remove_live. apply lookup_delete_eq.
  - split; cbn [s_t0 s_t1 s_heap set_tab set_tabs set_exp add_bytes set_mem]; [exact Hrep|..].
    + destruct T1 as [?|T1]; [by left|right]. apply (tab_rep_heap cfg (s_heap s1)); [done|]. intros j k' p' o' Hj Ho'.
      apply (Hkeep true j k' p' o'); auto.
    + rewrite Em. apply map_disjoint_insert_l. split; [|done]. by eapply map_disjoint_Some_l.
    + unfold ptrs_of in *. cbn [a_live a_publish with_live]. rewrite a_remove_live, Em, fmap_insert, fmap_delete, insert_delete_eq, Hmap. cbn [fst].
      apply insert_union_l.
  - exact Hmv.
  - exact HL.
  - cbn [a_live a_publish with_live]. eapply idx_mono; [exact He|]. intros k Hk'. rewrite a_remove_live.
    destruct (decide (k = o_key o)) as [->|]; [by rewrite lookup_insert_eq|by rewrite lookup_insert_ne, lookup_delete_ne].
  - cbn [a_now a_publish with_live]. by rewrite R1.
  - cbn [a_expired a_publish with_live]. by rewrite R2.
  - cbn [a_aof a_publish with_live]. by rewrite R3.
Qed.
Lemma insert_store_spec mem memi s A X l0 l1 p o h : inv s A (<[p := o]> X) l0 l1 0 -> X !! p = None -> key_ok (o_key o) h -> addr_ok p ->
  Z.of_nat (size (a_live A)) < 2 ^ 29 ->
  exists s' r l0' l1', insert cfg false mem memi s h p = Some (s', r) /\ (mem = true -> r = Inserted) /\
    match r with Inserted => inv s' (a_insert A p o) X l0' l1' 0 | Failed => s' = s end.
Proof.
  intros Hi Hx Hk Ha Hsz. unfold insert.
  assert (exists s1 ok m0 m1, (if rehashing s then s ← rehash_step cfg false s; Some (s, true) else Some (maybe_start_grow mem s)) = Some (s1, ok) /\
    (mem = true -> ok = true) /\ if ok then inv s1 A (<[p := o]> X) m0 m1 1 else s1 = s) as (s1 & ok & m0 & m1 & -> & Hok & Hi1).
  { destruct (rehashing s) eqn:Er.
    - destruct (rehash_step_spec _ _ _ _ _ Hi Er) as (t0 & t1 & pos & m0 & m1 & -> & Hi1). rewrite some_bind. by exists (set_tabs s t0 t1 pos), true, m0, m1.
    - destruct (maybe_start_grow_spec mem s A (<[p := o]> X) l0 l1 Hi Er Hsz) as (s1 & ok & m0 & m1 & -> & Hok & Hi1). by exists s1, ok, m0, m1. }
  rewrite some_bind. destruct ok; cbn [negb]; [|exists s1, Failed, l0, l1; split_and!; [done|intros Hmem; by specialize (Hok Hmem)|done]].
  clear Hi Hok. rewrite (caller_heap _ _ _ _ _ _ _ _ Hi1), some_bind.
  assert (forall s2 A2 k0 k1, inv s2 A2 (<[p := o]> X) k0 k1 1 -> slots_map k1 !! o_key o = None -> Z.of_nat (size (a_live A2)) < 2 ^ 29 ->
    exists s' l0', insert_into false memi s2 false h p true = Some (s', true) /\ inv s' (a_insert A2 p o) X l0' k1 0) as Hins.
  { intros s2 A2 k0 k1 Hi2 Hn Hsz2. destruct (slots_map k0 !! o_key o) as [q|] eqn:E0.
    - destruct (insert_over memi _ _ _ _ _ _ _ _ _ _ Hi2 Hx Hk Ha E0 Hsz2) as (s' & l0' & -> & Hi' & _). exists s', l0'. split; [done|]. eapply inv_weaken; [done|lia].
    - destruct (insert_new memi _ _ _ _ _ _ _ _ Hi2 Hx Hk Ha E0 Hn Hsz2) as (s' & l0' & -> & Hi'). exists s', l0'. split; [done|].
      pose proof (live_table _ _ _ _ _ _ (o_key o) Hi2) as E. rewrite E0, Hn in E. unfold a_insert, a_remove.
      destruct (a_live A2 !! o_key o) eqn:E2; [done|]. by rewrite E2. }
  assert (exists s2 A2 k0 k1, (if rehashing s1 then '(s, removed, expired) ← erase_in false s1 true h (o_key o);
      Some (if removed && expired then count_expired s else s) else Some s1) = Some s2 /\ inv s2 A2 (<[p := o]> X) k0 k1 1 /\
      slots_map k1 !! o_key o = None /\ Z.of_nat (size (a_live A2)) < 2 ^ 29 /\ a_insert A2 p o = a_insert A p o)
    as (s2 & A2 & k0 & k1 & -> & Hi2 & Hn & Hsz2 & EA).
  { destruct (rehashing s1) eqn:Er.
    2:{ exists s1, A, m0, m1. split_and!; try done. by destruct (idle_old _ _ _ _ _ _ Hi1 Er) as [_ ->]. }
    pose proof (store_erase_in_spec _ _ _ _ _ _ true (o_key o) h Hi1 Hk) as He. cbv iota in He. destruct (slots_map m1 !! o_key o) as [q|] eqn:E1.
    2:{ rewrite He, some_bind. by exists s1, A, m0, m1. }
    destruct He as (c & s2 & k0 & k1 & Hc & -> & Hi2 & _). rewrite some_bind. cbn [andb].
    assert (slots_map k1 !! o_key o = None) as Hn.
    { pose proof (live_table _ _ _ _ _ _ (o_key o) Hi2) as E. rewrite a_remove_live, lookup_delete_eq in E. cbn in E.
      by destruct (slots_map k0 !! o_key o). }
    assert (Z.of_nat (size (a_live (a_remove A (o_key o)))) < 2 ^ 29) as Hsz2.
    { rewrite a_remove_live, map_size_delete, Hc. lia. }
    assert (forall B, a_live B = a_live (a_remove A (o_key o)) -> a_insert B p o = a_publish B p o) as Hpub.
    { intros B EB. unfold a_insert, a_remove at 1. rewrite EB, a_remove_live, lookup_delete_eq. by rewrite EB, a_remove_live, lookup_delete_eq. }
    destruct (elapsed (a_now A) c) eqn:Ee.
    - exists (count_expired s2), (bump_expired (a_remove A (o_key o))), k0, k1. split_and!; try done; [by apply inv_count|].
      rewrite Hpub by done. unfold a_insert. by rewrite Hc, Ee, bump_remove.
    - exists s2, (a_remove A (o_key o)), k0, k1. split_and!; try done. rewrite Hpub by done. unfold a_insert. by rewrite Hc, Ee. }
  rewrite some_bind. destruct (Hins _ _ _ _ Hi2 Hn Hsz2) as (s' & l0' & -> & Hi'). rewrite some_bind.
  exists s', Inserted, l0', k1. split_and!; try done. by rewrite <- EA.
Qed.

(** * Erasure *)
Definition a_erase A key : Abs * bool :=
  match a_live A !! key with
  | Some (p, o) => if elapsed (a_now A) o then (bump_expired (a_remove A key), false) else (a_remove A key, true)
  | None => (A, false)
  end.
Lemma inv_weaken0 s A X l0 l1 n : inv s A X l0 l1 n -> 0 <= n -> inv s A X l0 l1 0.
Proof. intros. by eapply inv_weaken. Qed.
Lemma erase_store_spec mem s A X l0 l1 key h : inv s A X l0 l1 0 -> key_ok key h ->
  exists s' l0' l1', erase cfg false mem s h key = Some (s', (a_erase A key).2) /\ inv s' (a_erase A key).1 X l0' l1' 0.
Proof.
  intros Hi Hk. unfold erase.
  assert (exists s1 m0 m1, (if rehashing s then rehash_step cfg false s else Some s) = Some s1 /\ inv s1 A X m0 m1 0) as (s1 & m0 & m1 & -> & Hi1).
  { destruct (rehashing s) eqn:Er; [|by exists s, l0, l1].
    destruct (rehash_step_spec _ _ _ _ _ Hi Er) as (t0 & t1 & pos & m0 & m1 & -> & Hi1). do 3 eexists. split; [done|].
    eapply inv_weaken; [done|lia]. }
  rewrite some_bind. clear Hi s. pose proof (live_table _ _ _ _ _ _ key Hi1) as HL. unfold a_erase.
  assert (forall s2 k0 k1 o, inv s2 (a_remove A key) X k0 k1 0 -> a_live A !! key = Some o -> exists s' l0' l1',
    Some (if elapsed (a_now A) o.2 then count_expired (maybe_start_shrink mem s2) else maybe_start_shrink mem s2, negb (elapsed (a_now A) o.2)) =
      Some (s', (a_erase A key).2) /\ inv s' (a_erase A key).1 X l0' l1' 0) as Hfin.
  { intros s2 k0 k1 [p o] Hi2 Ho. destruct (maybe_start_shrink_spec mem _ _ _ _ _ Hi2) as (l0' & l1' & Hi3).
    unfold a_erase. rewrite Ho. cbn [snd]. destruct (elapsed (a_now A) o); do 3 eexists; (split; [done|]); cbn [fst]; [by apply inv_count|done]. }
  pose proof (store_erase_in_spec _ _ _ _ _ _ false key h Hi1 Hk) as He. cbv iota in He. destruct (slots_map m0 !! key) as [p|].
  { destruct He as (o & s2 & k0 & k1 & Ho & -> & Hi2 & _). rewrite some_bind. exact (Hfin _ _ _ (p, o) Hi2 Ho). }
  rewrite He, some_bind. cbv iota. destruct (rehashing s1) eqn:Er.
  - pose proof (store_erase_in_spec _ _ _ _ _ _ true key h Hi1 Hk) as He1. cbv iota in He1. destruct (slots_map m1 !! key) as [p|].
    { destruct He1 as (o & s2 & k0 & k1 & Ho & -> & Hi2 & _). rewrite some_bind. exact (Hfin _ _ _ (p, o) Hi2 Ho). }
    rewrite He1, some_bind. destruct (a_live A !! key); [done|]. by exists s1, m0, m1.
  - destruct (idle_old _ _ _ _ _ _ Hi1 Er) as [_ ->]. destruct (a_live A !! key); [done|]. by exists s1, m0, [].
Qed.

(** * Objects of the caller *)
(** What the allocator promises of a new object. *)
Definition fresh_obj s (p : Z) (o : KvObj) : Prop :=
  s_heap s !! p = None /\ addr_ok p /\
  forall q o' v, s_heap s !! q = Some o' -> o_value o = Some v -> o_value o' <> Some v.
Lemma inv_alloc s A l0 l1 n p o : inv s A ∅ l0 l1 n -> fresh_obj s p o ->
  inv (set_heap s (<[p := o]> (s_heap s))) A {[p := o]} l0 l1 n.
Proof.
  intros [Hm [T0 T1 Hd Hmap] Hmv HL Hx Hn He Ha] (F1 & F2 & F3).
  assert (forall l t, tab_rep cfg (s_heap s) t l -> tab_rep cfg (<[p := o]> (s_heap s)) t l) as Hrep.
  { intros l t Ht. apply (tab_rep_heap cfg (s_heap s)); [done|]. intros i k q o' _ Hq. exists o'. split; [|done].
    rewrite lookup_insert_ne; [done|congruence]. }
  split; try done; [by apply mem_alloc|]. split; try done; [by apply Hrep|]. destruct T1 as [?|T1]; [by left|right]. by apply Hrep.
Qed.
Lemma inv_release s A l0 l1 n p o : inv s A {[p := o]} l0 l1 n ->
  exists H, kvobj_free (s_heap s) p = Some H /\ inv (set_heap s H) A ∅ l0 l1 n.
Proof.
  intros Hi. pose proof Hi as [Hm [T0 T1 Hd Hmap] Hmv HL Hx Hn He Ha]. destruct (mem_release _ _ _ _ _ _ _ Hm) as [-> Hm'].
  exists (delete p (s_heap s)). split; [done|].
  assert (forall (b : bool) i k q o', (if b then l1 else l0) !! i = Some (SLive k q) -> s_heap s !! q = Some o' ->
    exists o'', delete p (s_heap s) !! q = Some o'' /\ o_key o'' = o_key o') as Hk.
  { intros b i k q o' Hs Hq. exists o'. split; [|done]. rewrite lookup_delete_ne; [done|]. intros <-.
    destruct (slot_live _ _ _ _ _ _ b i k p Hi Hs) as [c Hc]. by apply (caller_ne s A ∅ l0 l1 n p o k p c Hi Hc). }
  split; try done. split; try done; cbn [s_heap set_heap set_mem s_t0 s_t1].
  - apply (tab_rep_heap cfg (s_heap s)); [done|]. intros i k q o'. apply (Hk false).
  - destruct T1 as [?|T1]; [by left|right]. apply (tab_rep_heap cfg (s_heap s)); [done|]. intros i k q o'. apply (Hk true).
Qed.
(** Allocate, insert, and give the object back when the insertion fails. *)
Lemma insert_alloc_spec mem memi s A l0 l1 p o h : inv s A ∅ l0 l1 0 -> fresh_obj s p o -> key_ok (o_key o) h ->
  Z.of_nat (size (a_live A)) < 2 ^ 29 ->
  exists s' r, insert cfg false mem memi (set_heap s (<[p := o]> (s_heap s))) h p = Some (s', r) /\ (mem = true -> r = Inserted) /\
    match r with
    | Inserted => exists l0' l1', inv s' (a_insert A p o) ∅ l0' l1' 0
    | Failed => exists H, kvobj_free (s_heap s') p = Some H /\ inv (set_heap s' H) A ∅ l0 l1 0
    end.
Proof.
  intros Hi Hf Hk Hsz. pose proof (inv_alloc _ _ _ _ _ _ _ Hi Hf) as Hi1.
  destruct (insert_store_spec mem memi _ A ∅ l0 l1 p o h Hi1 (lookup_empty _) Hk (proj1 (proj2 Hf)) Hsz) as (s' & r & l0' & l1' & -> & Hr & Hi2).
  exists s', r. split; [done|]. split; [done|]. destruct r; [by exists l0', l1'|]. subst s'. by apply (inv_release _ A l0 l1 0 p o).
Qed.

(** * Deadlines *)
Definition a_touch A key (p : Z) (o : KvObj) : Abs := with_live A (<[key := (p, o)]> (a_live A)).
Lemma inv_touch s A X l0 l1 n key p o o' : inv s A X l0 l1 n -> a_live A !! key = Some (p, o) ->
  o_key o' = o_key o -> o_bytes o' = o_bytes o -> o_value o' = o_value o ->
  inv (set_heap s (<[p := o']> (s_heap s))) (a_touch A key p o') X l0 l1 n.
Proof.
  intros [Hm [T0 T1 Hd Hmap] Hmv HL Hx Hn He Ha] Ho Ek Eb Ev. pose proof (live_heap _ _ _ _ _ _ _ _ _ Hm Ho) as Hp.
  assert (forall l t, tab_rep cfg (s_heap s) t l -> tab_rep cfg (<[p := o']> (s_heap s)) t l) as Hrep.
  { intros l t Ht. apply (tab_rep_heap cfg (s_heap s)); [done|]. intros i k q oq _ Hq.
    destruct (decide (q = p)) as [->|Hne]; [exists o'; rewrite lookup_insert_eq; split; congruence|].
    exists oq. by rewrite lookup_insert_ne. }
  split; try done.
  - by eapply mem_touch.
  - split; try done; cbn [s_heap set_heap set_mem s_t0 s_t1].
    + by apply Hrep.
    + destruct T1 as [?|T1]; [by left|right]. by apply Hrep.
    + unfold ptrs_of in *. cbn [a_live a_touch with_live]. rewrite fmap_insert. cbn [fst]. rewrite insert_id; [done|]. by rewrite lookup_fmap, Ho.
  - eapply idx_mono; [exact Hx|]. intros k Hk. cbn [a_live a_touch with_live].
    destruct (decide (k = key)) as [->|]; [by rewrite lookup_insert_eq|by rewrite lookup_insert_ne].
Qed.
Lemma found_live A key p : (a_find A key).2 = Some p -> (a_find A key).1 = A /\ exists o, a_live A !! key = Some (p, o).
Proof.
  unfold a_find. destruct (a_live A !! key) as [[q o]|]; [|done]. destruct (elapsed (a_now A) o); [done|].
  intros [= ->]. split; [done|]. by exists o.
Qed.
Definition a_persist A key : Abs * TtlResult :=
  match (a_find A key).2, a_live A !! key with
  | Some p, Some (_, o) =>
      if expire_at_ms o <? 0 then (A, TtlNoChange) else (a_touch A key p (set_expire_at_ms o kNoTtlDeadline), TtlUpdated)
  | _, _ => ((a_find A key).1, TtlMissing)
  end.
Lemma persist_spec s A l0 l1 n key h : inv s A ∅ l0 l1 n -> key_ok key h ->
  exists s' l0' l1', persist false s h key = Some (s', (a_persist A key).2) /\ inv s' (a_persist A key).1 ∅ l0' l1' n.
Proof.
  intros Hi Hk. unfold persist, a_persist. destruct (find_store_spec _ _ _ _ _ _ _ _ Hi Hk) as (s1 & m0 & m1 & -> & Hi1 & _).
  rewrite some_bind. destruct (a_find A key).2 as [p|] eqn:Ef; [|by exists s1, m0, m1].
  destruct (found_live _ _ _ Ef) as [E [o Ho]]. rewrite E in *. rewrite Ho.
  rewrite (live_heap _ _ _ _ _ _ _ _ _ (i_mem _ _ _ _ _ _ Hi1) Ho), some_bind, deadline_eq, some_bind.
  destruct (expire_at_ms o <? 0); [by exists s1, m0, m1|].
  pose proof (inv_touch _ _ _ _ _ _ key p o (set_expire_at_ms o kNoTtlDeadline) Hi1 Ho eq_refl eq_refl eq_refl) as Hi2.
  destruct (untrack_spec _ _ h (i_idx _ _ _ _ _ _ Hi2)) as (e & -> & He & _). rewrite some_bind.
  do 3 eexists. split; [done|]. by apply inv_set_exp.
Qed.
(** [set_expire]: the deadline is written in place when the object has a slot for it; otherwise the
    object is replaced by a copy, and nothing happens when memory runs out. *)
Definition a_set_expire A key (at_ : Z) (a : option Alloc) (r : TtlResult) : Abs :=
  match (a_find A key).2, a_live A !! key, r with
  | Some p, Some (_, o), TtlUpdated =>
      if o_slot o then a_touch A key p (set_expire_at_ms o at_)
      else match a with Some a => a_insert A (al_addr a) (kvobj_reheader o at_ a) | None => A end
  | _, _, _ => (a_find A key).1
  end.
Definition a_ttl_result A key (mem : bool) (a : option Alloc) (r : TtlResult) : Prop :=
  match (a_find A key).2, a_live A !! key with
  | Some p, Some (_, o) =>
      r = TtlUpdated \/ r = TtlOom /\ o_slot o = false /\ (mem = false \/ a = None)
  | _, _ => r = TtlMissing
  end.
Lemma set_expire_spec mem memi a s A l0 l1 key h at_ : inv s A ∅ l0 l1 0 -> key_ok key h -> Z.of_nat (size (a_live A)) < 2 ^ 29 ->
  (forall a' p o, a = Some a' -> a_live A !! key = Some (p, o) -> fresh_obj s (al_addr a') (kvobj_reheader o at_ a')) ->
  exists s' r l0' l1', set_expire cfg false mem memi a s h key at_ = Some (s', r) /\ a_ttl_result A key mem a r /\
    inv s' (a_set_expire A key at_ a r) ∅ l0' l1' 0.
Proof.
  intros Hi Hk Hsz Hfresh. unfold set_expire, a_ttl_result, a_set_expire.
  destruct (find_store_spec _ _ _ _ _ _ _ _ Hi Hk) as (s1 & m0 & m1 & -> & Hi1 & _). rewrite some_bind.
  destruct (a_find A key).2 as [p|] eqn:Ef; [|by exists s1, TtlMissing, m0, m1].
  destruct (found_live _ _ _ Ef) as [E [o Ho]]. rewrite E in *. rewrite Ho.
  rewrite (live_heap _ _ _ _ _ _ _ _ _ (i_mem _ _ _ _ _ _ Hi1) Ho), some_bind.
  assert (s_heap s1 = s_heap s) as EH.
  { apply map_eq. intros q. apply option_eq. intros x. by rewrite (m_heap _ _ _ _ _ _ (i_mem _ _ _ _ _ _ Hi1)), (m_heap _ _ _ _ _ _ (i_mem _ _ _ _ _ _ Hi)). }
  destruct (o_slot o) eqn:Es.
  - pose proof (inv_touch _ _ _ _ _ _ key p o (set_expire_at_ms o at_) Hi1 Ho eq_refl eq_refl eq_refl) as Hi2.
    destruct (track_spec memi _ _ h (set_expire_at_ms o at_) key (i_idx _ _ _ _ _ _ Hi2)) as (e & -> & He).
    { cbn. by rewrite lookup_insert_eq. } { by apply key_hash. }
    { cbn [a_live a_touch with_live]. rewrite map_size_insert, Ho. unfold id. change (2 ^ 30) with 1073741824. change (2 ^ 29) with 536870912 in Hsz. lia. }
    rewrite some_bind. do 2 eexists. exists m0, m1. split; [done|]. split; [by left|]. by apply inv_set_exp.
  - unfold rewrite_expire. rewrite (live_heap _ _ _ _ _ _ _ _ _ (i_mem _ _ _ _ _ _ Hi1) Ho), some_bind.
    destruct a as [a|]; [|exists s1, TtlOom, m0, m1; split_and!; try done; right; split_and!; try done; by right].
    assert (o_key o = key) as Eok by (by apply (m_key _ _ _ _ _ _ (i_mem _ _ _ _ _ _ Hi1) _ _ _ Ho)).
    assert (fresh_obj s1 (al_addr a) (kvobj_reheader o at_ a)) as Hf.
    { destruct (Hfresh a p o eq_refl Ho) as (F1 & F2 & F3). unfold fresh_obj. by rewrite EH. }
    destruct (insert_alloc_spec mem memi s1 A m0 m1 (al_addr a) (kvobj_reheader o at_ a) h Hi1 Hf) as (s2 & r & -> & Hr & Hc);
      [by cbn; rewrite Eok|done|]. rewrite some_bind. destruct r.
    + destruct Hc as (k0 & k1 & Hi2). exists s2, TtlUpdated, k0, k1. split_and!; try done. by left.
    + destruct Hc as (H & -> & Hi2). rewrite some_bind. exists (set_heap s2 H), TtlOom, m0, m1. split_and!; try done.
      right. split_and!; try done. left. destruct mem; [by specialize (Hr eq_refl)|done].
Qed.
Lemma watch_deadline_spec s A X l0 l1 n key h : inv s A X l0 l1 n -> key_ok key h ->
  watch_deadline false s h key =
    Some (match a_live A !! key with Some (_, o) => if a_now A <? expire_at_ms o then expire_at_ms o else -1 | None => -1 end).
Proof.
  intros Hi Hk. unfold watch_deadline. rewrite (find_resident_spec _ _ _ _ _ _ _ _ Hi Hk), some_bind.
  destruct (a_live A !! key) as [[p o]|] eqn:Ho; [|done]. cbn [fmap option_fmap option_map fst].
  rewrite (live_heap _ _ _ _ _ _ _ _ _ (i_mem _ _ _ _ _ _ Hi) Ho), some_bind, deadline_eq, some_bind.
  by rewrite (i_now _ _ _ _ _ _ Hi).
Qed.

(** * Lent values *)
Lemma store_borrow_spec memv s A X l0 l1 n key p o v : inv s A X l0 l1 n -> a_live A !! key = Some (p, o) -> o_value o = Some v ->
  r_outstanding (s_reg s) < 2 ^ 28 ->
  exists s', store_borrow memv s v = Some s' /\ inv s' (with_dead A (a_dead A) (borrow_map (a_loans A) v)) X l0 l1 n /\
    r_outstanding (s_reg s') = r_outstanding (s_reg s) + 1.
Proof.
  intros [Hm [T0 T1 Hd Hmap] Hmv HL Hx Hn He Ha] Ho Hv Hout. unfold store_borrow.
  destruct (borrow_spec memv (s_reg s) v (m_reg _ _ _ _ _ _ Hm) Hout) as (r & -> & Hr & Hro & Hl). rewrite some_bind.
  eexists. split; [done|]. split; [|done]. split; try done. by eapply mem_borrow.
Qed.
Lemma store_unborrow_spec s A X l0 l1 n v : inv s A X l0 l1 n ->
  exists s', store_unborrow s v = Some s' /\ inv s' (a_unborrow A v) X l0 l1 n.
Proof.
  intros Hi. pose proof Hi as [Hm [T0 T1 Hd Hmap] Hmv HL Hx Hn He Ha]. unfold store_unborrow, a_unborrow.
  destruct (unborrow_spec (s_reg s) v (m_reg _ _ _ _ _ _ Hm)) as (r & -> & Hr & _ & Hl). rewrite some_bind.
  rewrite (m_loans _ _ _ _ _ _ Hm) in Hl |- *. destruct (unborrow_map (a_loans A) v) as [N [q|]] eqn:Eu; cbn [fst snd] in *.
  - destruct (mem_unborrow_freed _ _ _ _ r _ _ _ _ q Hm Eu Hr Hl) as (o & Hq & Hnl & Hm'). rewrite Hq, some_bind. unfold kvobj_free.
    rewrite Hq, some_bind. eexists. split; [done|].
    assert (forall (b : bool) i k p o', (if b then l1 else l0) !! i = Some (SLive k p) -> s_heap s !! p = Some o' ->
      exists o'', delete q (s_heap s) !! p = Some o'' /\ o_key o'' = o_key o') as Hk.
    { intros b i k p o' Hs Hp. exists o'. split; [|done]. rewrite lookup_delete_ne; [done|]. intros <-.
      destruct (slot_live _ _ _ _ _ _ b i k q Hi Hs) as [c Hc]. apply (Hnl k). by rewrite Hc. }
    split; try done. split; try done; cbn [s_heap set_mem s_t0 s_t1].
    + apply (tab_rep_heap cfg (s_heap s)); [done|]. intros i k p o'. apply (Hk false).
    + destruct T1 as [?|T1]; [by left|right]. apply (tab_rep_heap cfg (s_heap s)); [done|]. intros i k p o'. apply (Hk true).
  - eexists. split; [done|]. split; try done. by eapply mem_unborrow_kept.
Qed.

(** * Active expiry *)
Lemma find_hash_loop_spec m s A X l0 l1 n (b : bool) h i : inv s A X l0 l1 n ->
  tab_rep cfg (s_heap s) (tab s b) (if b then l1 else l0) -> 0 <= i < t_cap (tab s b) ->
  exists r, find_hash_loop cfg false m s (tab s b) h i = Some r /\
    match r with
    | None => True
    | Some p => exists key o, slots_map (if b then l1 else l0) !! key = Some p /\ a_live A !! key = Some (p, o) /\ key_ok key h /\
                  o_slot o = true /\ 0 <= expire_at_ms o
    end.
Proof.
  intros Hi Ht. revert i. induction m as [|m IH]; intros i Hr; cbn [find_hash_loop]; [by exists None|].
  destruct (word_at cfg _ _ _ i Ht Hr) as (w & x & -> & Hx & Hw). rewrite some_bind.
  destruct (w =? 0); [by exists None|].
  assert (0 <= next_slot (tab s b) i < t_cap (tab s b)) as Hnext.
  { pose proof (tab_bounds _ _ _ _ Ht) as (B0 & _). destruct Ht as ((k & Hk & Hc) & _ & Hm & _). unfold next_slot.
    rewrite Hm, Hc, land_ones_mod by lia. apply Z.mod_pos_bound. lia. }
  destruct x as [| |key p]; cbn [word_rep] in Hw.
  1,2: subst w; change (ptr_of 0 =? 0) with true; change (ptr_of kTombBit =? 0) with true; cbn [negb andb]; rewrite some_bind; by apply IH.
  destruct Hw as (o & Ho & Hk & Hf & Hh & Ha & ->). rewrite ptr_live, tag_live by done. unfold addr_ok in Ha.
  rewrite (proj2 (Z.eqb_neq p 0)) by lia. cbn [negb andb].
  destruct (tag_of (khash key) =? tag_of h); [|rewrite some_bind; by apply IH]. rewrite Ho, some_bind.
  destruct (o_slot o) eqn:Es; [|rewrite some_bind; by apply IH]. rewrite Hk, Hh, some_bind.
  destruct (Z.eqb_spec (khash key) h) as [Eh|Eh]; [|rewrite some_bind; by apply IH].
  rewrite deadline_eq, some_bind, some_bind. destruct (Z.leb_spec 0 (expire_at_ms o)); [|by apply IH].
  eexists. split; [done|]. destruct (slot_live _ _ _ _ _ _ b _ _ _ Hi Hx) as [o' Ho']. exists key, o'.
  pose proof (live_heap _ _ _ _ _ _ _ _ _ (i_mem _ _ _ _ _ _ Hi) Ho') as Hp'. rewrite Ho in Hp'. injection Hp' as <-.
  assert (key_ok key h) by (split; [done|congruence]). split_and!; try done. destruct Ht as (_ & _ & _ & _ & [Hu _] & _). apply slots_map_spec; eauto.
Qed.
Lemma find_hash_in_spec s A X l0 l1 n (b : bool) h : inv s A X l0 l1 n ->
  exists r, find_hash_in cfg false s b h = Some r /\
    match r with
    | None => True
    | Some p => exists key o, slots_map (if b then l1 else l0) !! key = Some p /\ a_live A !! key = Some (p, o) /\ key_ok key h /\
                  o_slot o = true /\ 0 <= expire_at_ms o
    end.
Proof.
  intros Hi. unfold find_hash_in.
  assert (old_rep cfg (s_heap s) (tab s b) (if b then l1 else l0)) as [[E ->]|Ht].
  { destruct b; [apply Hi|right; apply Hi]. }
  { rewrite E. by exists None. }
  pose proof (tab_bounds _ _ _ _ Ht) as (B0 & _). rewrite (proj2 (Z.eqb_neq (t_cap (tab s b)) 0)) by lia.
  apply (find_hash_loop_spec _ s A X l0 l1 n); [done|done|]. destruct Ht as ((k & Hk & Hc) & _ & Hm & _). unfold slot_start.
  rewrite Hm, Hc, land_ones_mod by lia. apply Z.mod_pos_bound. lia.
Qed.
Definition reap_one A A' : Prop :=
  exists key p o, a_live A !! key = Some (p, o) /\ elapsed (a_now A) o = true /\ A' = a_expire A key.
Lemma inv_reap_lag s A X l0 l1 n at_ : inv s A X l0 l1 n -> inv (note_active_expire_reap s at_) A X l0 l1 n.
Proof.
  intros Hi. unfold note_active_expire_reap. destruct ((at_ <? 0) || (s_now s <=? at_)); [done|].
  match goal with |- inv (if ?c then _ else _) _ _ _ _ _ => destruct c end; [|done]. by destruct Hi as [[] [] ? ? ? ? ? ?].
Qed.
Lemma expire_visit_spec s A X l0 l1 n h rm : inv s A X l0 l1 n ->
  exists s' rm' A' l0' l1', expire_visit cfg false s h rm = Some (s', rm') /\ inv s' A' X l0' l1' n /\
    (A' = A /\ rm' = rm \/ reap_one A A' /\ rm' = u32 (rm + 1)).
Proof.
  intros Hi. unfold expire_visit.
  assert (exists r, (r ← find_hash_in cfg false s false h;
      match r with Some p => Some (Some p) | None => if rehashing s then find_hash_in cfg false s true h else Some None end) = Some r /\
    match r with
    | None => True
    | Some p => exists (b : bool) key o, slots_map (if b then l1 else l0) !! key = Some p /\ a_live A !! key = Some (p, o) /\ key_ok key h /\
                  o_slot o = true /\ 0 <= expire_at_ms o /\ (b = true -> slots_map l0 !! key = None /\ rehashing s = true)
    end) as (r & E & Hr).
  { destruct (find_hash_in_spec _ _ _ _ _ _ false h Hi) as (r0 & -> & H0). rewrite some_bind. destruct r0 as [p|].
    - exists (Some p). split; [done|]. destruct H0 as (key & o & Hs & Ho & Hk & Hsl & He). by exists false, key, o.
    - destruct (rehashing s) eqn:Er; [|by exists None]. destruct (find_hash_in_spec _ _ _ _ _ _ true h Hi) as (r1 & -> & H1).
      exists r1. split; [done|]. destruct r1 as [p|]; [|done]. destruct H1 as (key & o & Hs & Ho & Hk & Hsl & He). exists true, key, o.
      split_and!; try done. intros _. split; [|done]. eapply map_disjoint_Some_r; [apply Hi|done]. }
  destruct (find_hash_in cfg false s false h) as [r0|] eqn:Ef; rewrite ?Ef in E; [|done]. rewrite some_bind in E. rewrite some_bind.
  rewrite E, some_bind. clear E Ef r0.
  assert (exists s' rm' A' l0' l1', (s ← untrack_expire s h; Some (s, rm)) = Some (s', rm') /\ inv s' A' X l0' l1' n /\
    (A' = A /\ rm' = rm \/ reap_one A A' /\ rm' = u32 (rm + 1))) as Hun.
  { destruct (untrack_spec s (a_live A) h (i_idx _ _ _ _ _ _ Hi)) as (e & -> & He & _). rewrite some_bind.
    exists (set_exp s e), rm, A, l0, l1. split_and!; [done|by apply inv_set_exp|by left]. }
  destruct r as [p|]; [|exact Hun]. destruct Hr as (b & key & o & Hs & Ho & Hk & Hsl & He & Hb).
  rewrite (live_heap _ _ _ _ _ _ _ _ _ (i_mem _ _ _ _ _ _ Hi) Ho), some_bind, Hsl, deadline_eq, some_bind. cbn [negb].
  rewrite (proj2 (Z.ltb_ge (expire_at_ms o) 0)) by lia. destruct (Z.ltb_spec (s_now s) (expire_at_ms o)) as [Hlt|Hge].
  { exists s, rm, A, l0, l1. split_and!; [done|done|by left]. }
  assert (o_key o = key) as -> by (by apply (m_key _ _ _ _ _ _ (i_mem _ _ _ _ _ _ Hi) _ _ _ Ho)).
  destruct (expire_spec _ _ _ _ _ _ b key h p Hi Hk Hs) as (s1 & e & i & E & _ & Hi1 & Hsh & Enow).
  assert (reap_one A (a_expire A key)) as Hreap.
  { exists key, p, o. split_and!; try done. unfold elapsed. rewrite <- (i_now _ _ _ _ _ _ Hi). apply andb_true_intro.
    split; apply Z.leb_le; lia. }
  assert (exists s' rm' A' l0' l1', Some (count_expired (note_active_expire_reap s1 (expire_at_ms o)), u32 (rm + 1)) = Some (s', rm') /\
    inv s' A' X l0' l1' n /\ (A' = A /\ rm' = rm \/ reap_one A A' /\ rm' = u32 (rm + 1))) as Hdone.
  { do 2 eexists. exists (a_expire A key). do 2 eexists. split; [done|]. split; [|by right].
    replace (count_expired (note_active_expire_reap s1 (expire_at_ms o))) with (note_active_expire_reap (count_expired s1) (expire_at_ms o)); [apply inv_reap_lag; exact Hi1|].
    unfold note_active_expire_reap. cbn [s_now s_lag count_expired set_stats]. destruct (_ || _); [done|].
    match goal with |- (if ?c then _ else _) = _ => destruct c end; done. }
  destruct b.
  - destruct (Hb eq_refl) as [H0 Er]. pose proof (store_erase_in_spec _ _ _ _ _ _ false key h (inv_record _ _ _ _ _ _ key Hi) Hk) as He0.
    cbv iota in He0. rewrite H0 in He0. rewrite He0, some_bind. change (rehashing (record_delete s key)) with (rehashing s). rewrite Er, E, !some_bind.
    exact Hdone.
  - rewrite E, !some_bind. exact Hdone.
Qed.
Lemma reap_size A A' : reap_one A A' -> Z.of_nat (size (a_live A')) = Z.of_nat (size (a_live A)) - 1.
Proof.
  intros (key & p & o & Ho & _ & ->). unfold a_expire. cbn [a_live bump_expired]. rewrite a_remove_live. cbn [a_live with_aof].
  rewrite map_size_delete, Ho. assert (0 < size (a_live A))%nat; [|lia]. destruct (decide (size (a_live A) = 0%nat)) as [E|]; [|lia].
  apply map_size_empty_inv in E. rewrite E in Ho. done.
Qed.
Definition sizeZ A : Z := Z.of_nat (size (a_live A)).
Lemma active_expire_spec s A l0 l1 budget : inv s A ∅ l0 l1 0 -> 0 <= budget -> sizeZ A < 2 ^ 29 ->
  exists s' A' r l0' l1', active_expire cfg false s budget = Some (s', r) /\ inv s' A' ∅ l0' l1' 0 /\ rtc reap_one A A' /\
    r = Z.b2z (rehashing s) + (sizeZ A - sizeZ A') + Z.b2z (e_rehashing (s_exp s')).
Proof.
  intros Hi Hb Hsz. unfold active_expire.
  assert (exists s1 m0 m1, (if rehashing s then rehash_step cfg false s else Some s) = Some s1 /\ inv s1 A ∅ m0 m1 0) as (s1 & m0 & m1 & -> & Hi1).
  { destruct (rehashing s) eqn:Er; [|by exists s, l0, l1].
    destruct (rehash_step_spec _ _ _ _ _ Hi Er) as (t0 & t1 & pos & m0 & m1 & -> & Hi1). do 3 eexists. split; [done|].
    eapply inv_weaken; [done|lia]. }
  rewrite some_bind. set (base := if rehashing s then 1 else 0). change (2 ^ 29) with 536870912 in Hsz.
  set (Q := fun (M : gmap Z Z) (x : Store * Z) => exists A' k0 k1, inv x.1 A' ∅ k0 k1 0 /\ rtc reap_one A A' /\ sizeZ A' <= sizeZ A /\
    x.2 = base + (sizeZ A - sizeZ A') /\ forall h, is_Some (M !! h) -> exists k, is_Some (a_live A' !! k) /\ khash k = h).
  destruct (sample_safe false (expire_cb cfg false) Q) with (budget := budget) (e := s_exp s1) (x := (s1, base)) as (e & [s2 rm] & m & -> & Hok & HQ & _).
  { intros h e [s2 rm] Hok (A' & k0 & k1 & Hi2 & Hre & Hle & Erm & Hd) _. cbn [fst snd] in *.
    assert (inv (set_exp s2 e) A' ∅ k0 k1 0) as Hi3 by (apply inv_set_exp; [done|by split]).
    destruct (expire_visit_spec _ _ _ _ _ _ h rm Hi3) as (s3 & rm' & A3 & j0 & j1 & E & Hi4 & Hc). unfold expire_cb. cbn [fst snd]. rewrite E, some_bind.
    eexists _, _. split; [done|]. pose proof (i_idx _ _ _ _ _ _ Hi4) as [Hok4 Hd4]. split; [done|].
    exists A3, j0, j1. cbn [fst snd]. destruct Hc as [[-> ->]|[Hr ->]].
    - split_and!; done.
    - pose proof (reap_size _ _ Hr) as Er. unfold sizeZ in *. split_and!; try done; try lia; [by eapply rtc_r|].
      rewrite u32_small; [lia|]. unfold base in *. destruct (rehashing s); lia. }
  { apply Hi1. }
  { exists A, m0, m1. cbn [fst snd]. split_and!; try done; [lia|]. apply Hi1. }
  { done. }
  rewrite some_bind. destruct HQ as (A' & k0 & k1 & Hi2 & Hre & Hle & Erm & Hd). cbn [fst snd] in *.
  eexists _, A', _, k0, k1. split; [done|]. split; [apply inv_set_exp; [done|by split]|]. split; [done|].
  cbn [s_exp set_exp]. unfold sizeZ, base in *. destruct (e_rehashing e); cbn [Z.b2z].
  - rewrite u32_small; destruct (rehashing s); cbn [Z.b2z]; lia.
  - destruct (rehashing s); cbn [Z.b2z]; lia.
Qed.
End Proof.
