(* ===== verification/FlatRun.v ===== *)
(** Histories of the store of flatstore.h: any sequence of its operations, compared with the
    abstract state of [FlatSpec]. *)
From stdpp Require Import gmap.
From S2P Require Import Prelude Slice Hash Probe ExpireIndex Borrow FlatStore FlatTable FlatSpec FlatProof.

(** [mem], [memi], [memv], [a]: what the allocator answers to the table, the expiry index, the borrow
    index and the object. *)
Inductive StoreOp :=
| OpNow (now : Z)
| OpFind (key : bytes)
| OpInsert (mem memi : bool) (p : Z) (o : KvObj)
| OpErase (mem : bool) (key : bytes)
| OpExpire (mem memi : bool) (a : option Alloc) (key : bytes) (at_ : Z)
| OpPersist (key : bytes)
| OpWatch (key : bytes)
| OpLend (memv : bool) (key : bytes)
| OpReturn (v : Z)
| OpActive (budget : Z).
Inductive StoreRes := ResUnit | ResFound (p : option Z) | ResInserted (ok : bool) | ResErased (ok : bool)
| ResTtl (r : TtlResult) | ResDeadline (at_ : Z) | ResWork (n : Z).

Section Run.
Context (cfg : HashCfg).

(** A lookup whose value bytes are lent to the network when they can be. *)
Definition lend (memv : bool) (s : Store) (h : Z) (key : bytes) : option (Store * option Z) :=
  '(s, r) ← find false s h key;
  match r with
  | None => Some (s, None)
  | Some p =>
      o ← s_heap s !! p;
      match o_value o with Some v => s ← store_borrow memv s v; Some (s, Some p) | None => Some (s, Some p) end
  end.
(** Allocation of the object, insertion, and its release when the store refuses it. *)
Definition insert_new_obj (mem memi : bool) (s : Store) (h p : Z) (o : KvObj) : option (Store * bool) :=
  '(s, r) ← insert cfg false mem memi (set_heap s (<[p := o]> (s_heap s))) h p;
  match r with
  | Inserted => Some (s, true)
  | Failed => heap ← kvobj_free (s_heap s) p; Some (set_heap s heap, false)
  end.
Definition run_store_op (op : StoreOp) (s : Store) : option (Store * StoreRes) :=
  match op with
  | OpNow now => Some (set_now s now, ResUnit)
  | OpFind key => h ← hash_key cfg key; '(s, r) ← find false s h key; Some (s, ResFound r)
  | OpInsert mem memi p o =>
      h ← hash_key cfg (o_key o); '(s, ok) ← insert_new_obj mem memi s h p o; Some (s, ResInserted ok)
  | OpErase mem key => h ← hash_key cfg key; '(s, ok) ← erase cfg false mem s h key; Some (s, ResErased ok)
  | OpExpire mem memi a key at_ =>
      h ← hash_key cfg key; '(s, r) ← set_expire cfg false mem memi a s h key at_; Some (s, ResTtl r)
  | OpPersist key => h ← hash_key cfg key; '(s, r) ← persist false s h key; Some (s, ResTtl r)
  | OpWatch key => h ← hash_key cfg key; at_ ← watch_deadline false s h key; Some (s, ResDeadline at_)
  | OpLend memv key => h ← hash_key cfg key; '(s, r) ← lend memv s h key; Some (s, ResFound r)
  | OpReturn v => s ← store_unborrow s v; Some (s, ResUnit)
  | OpActive budget => '(s, n) ← active_expire cfg false s budget; Some (s, ResWork n)
  end.
Fixpoint run_ops (ops : list StoreOp) (s : Store) : option (Store * list StoreRes) :=
  match ops with
  | [] => Some (s, [])
  | op :: ops => '(s, r) ← run_store_op op s; '(s, rs) ← run_ops ops s; Some (s, r :: rs)
  end.

(** * What may happen *)
Definition a_lend (A : Abs) (p : option Z) (key : bytes) : Abs :=
  match p, a_live A !! key with
  | Some _, Some (_, o) =>
      match o_value o with Some v => with_dead A (a_dead A) (borrow_map (a_loans A) v) | None => A end
  | _, _ => A
  end.
Definition a_watch (A : Abs) (key : bytes) : Z :=
  match a_live A !! key with Some (_, o) => if a_now A <? expire_at_ms o then expire_at_ms o else -1 | None => -1 end.
(** One operation: the answer and the next abstract state.  The only freedom is memory (an insertion
    or a new deadline may fail when an allocation does) and which elapsed keys a sampling pass meets. *)
Inductive a_step : Abs -> StoreOp -> StoreRes -> Abs -> Prop :=
| as_now A now : a_step A (OpNow now) ResUnit (with_now A now)
| as_find A key : a_step A (OpFind key) (ResFound (a_find A key).2) (a_find A key).1
| as_insert A mem memi p o : a_step A (OpInsert mem memi p o) (ResInserted true) (a_insert A p o)
| as_refuse A memi p o : a_step A (OpInsert false memi p o) (ResInserted false) A
| as_erase A mem key : a_step A (OpErase mem key) (ResErased (a_erase A key).2) (a_erase A key).1
| as_expire A mem memi a key at_ r : a_ttl_result A key mem a r ->
    a_step A (OpExpire mem memi a key at_) (ResTtl r) (a_set_expire A key at_ a r)
| as_persist A key : a_step A (OpPersist key) (ResTtl (a_persist A key).2) (a_persist A key).1
| as_watch A key : a_step A (OpWatch key) (ResDeadline (a_watch A key)) A
| as_lend A memv key : a_step A (OpLend memv key) (ResFound (a_find A key).2) (a_lend (a_find A key).1 (a_find A key).2 key)
| as_return A v : a_step A (OpReturn v) ResUnit (a_unborrow A v)
| as_active A budget A' n : rtc reap_one A A' -> sizeZ A - sizeZ A' <= n <= sizeZ A - sizeZ A' + 2 ->
    a_step A (OpActive budget) (ResWork n) A'.
Inductive a_run : Abs -> list StoreOp -> list StoreRes -> Abs -> Prop :=
| ar_nil A : a_run A [] [] A
| ar_cons A op r A1 ops rs A2 : a_step A op r A1 -> a_run A1 ops rs A2 -> a_run A (op :: ops) (r :: rs) A2.

(** What the caller owes: byte strings as keys, addresses the allocator may return, fewer than 2^29
    keys and fewer than 2^28 open loans. *)
Definition small (s : Store) : Prop := t_live (s_t0 s) + t_live (s_t1 s) < 2 ^ 29.
Definition op_ok (op : StoreOp) (s : Store) : Prop :=
  match op with
  | OpNow _ | OpReturn _ => True
  | OpFind key | OpErase _ key | OpPersist key | OpWatch key => Forall is_byte key
  | OpInsert _ _ p o => Forall is_byte (o_key o) /\ fresh_obj s p o /\ small s
  | OpExpire _ _ a key at_ => Forall is_byte key /\ small s /\
      forall a' p o, a = Some a' -> s_heap s !! p = Some o -> fresh_obj s (al_addr a') (kvobj_reheader o at_ a')
  | OpLend _ key => Forall is_byte key /\ r_outstanding (s_reg s) < 2 ^ 28
  | OpActive budget => 0 <= budget /\ small s
  end.
Fixpoint ops_ok (ops : list StoreOp) (s : Store) : Prop :=
  match ops with
  | [] => True
  | op :: ops => op_ok op s /\ forall s' r, run_store_op op s = Some (s', r) -> ops_ok ops s'
  end.

(** * Refinement *)
Definition rep (s : Store) (A : Abs) : Prop := exists l0 l1, inv cfg s A ∅ l0 l1 0.
Context (cfg_valid : cfg_ok cfg).

Lemma key_of key : Forall is_byte key -> exists h, hash_key cfg key = Some h /\ key_ok cfg key h.
Proof. intros Hb. destruct (hash_key_total cfg key cfg_valid Hb) as (h & E & _). by exists h. Qed.
Lemma small_size s A l0 l1 n X : inv cfg s A X l0 l1 n -> small s -> Z.of_nat (size (a_live A)) < 2 ^ 29.
Proof. intros Hi Hs. unfold small in Hs. by rewrite (live_size _ _ _ _ _ _ _ Hi). Qed.
Lemma lend_spec memv s A key h : rep s A -> key_ok cfg key h -> r_outstanding (s_reg s) < 2 ^ 28 ->
  exists s', lend memv s h key = Some (s', (a_find A key).2) /\ rep s' (a_lend (a_find A key).1 (a_find A key).2 key).
Proof.
  intros (l0 & l1 & Hi) Hk Ho. unfold lend, a_lend. destruct (find_store_spec cfg _ _ _ _ _ _ _ _ Hi Hk) as (s1 & m0 & m1 & E & Hi1 & _ & Hsame).
  rewrite E, some_bind. destruct (a_find A key).2 as [p|] eqn:Ef; [|exists s1; split; [done|by exists m0, m1]].
  destruct (found_live A key p Ef) as [EA [o Hlo]]. rewrite EA, Hlo in *. rewrite (Hsame ltac:(done)) in *. clear Hsame s1 E.
  rewrite (live_heap _ _ _ _ _ _ _ _ _ (i_mem _ _ _ _ _ _ _ Hi1) Hlo), some_bind.
  destruct (o_value o) as [v|] eqn:Ev; [|exists s; split; [done|by exists m0, m1]].
  destruct (store_borrow_spec cfg memv s A ∅ m0 m1 0 key p o v Hi1 Hlo Ev Ho) as (s2 & -> & Hi2 & _). rewrite some_bind.
  exists s2. split; [done|]. by exists m0, m1.
Qed.

Lemma insert_new_obj_spec mem memi s A h p o : rep s A -> fresh_obj s p o -> key_ok cfg (o_key o) h -> small s ->
  exists s' ok, insert_new_obj mem memi s h p o = Some (s', ok) /\ (mem = true -> ok = true) /\
    rep s' (if ok : bool then a_insert A p o else A).
Proof.
  intros (l0 & l1 & Hi) Hf Hk Hs. unfold insert_new_obj.
  destruct (insert_alloc_spec cfg mem memi s A l0 l1 p o h Hi Hf Hk (small_size _ _ _ _ _ _ Hi Hs)) as (s1 & r & -> & Hr & Hc).
  rewrite some_bind. destruct r.
  - exists s1, true. split; [done|]. done.
  - destruct Hc as (H & -> & Hi2). rewrite some_bind. exists (set_heap s1 H), false. split_and!; [done| |by exists l0, l1].
    intros Hm. by specialize (Hr Hm).
Qed.
Lemma inv_set_now s A X l0 l1 n now : inv cfg s A X l0 l1 n -> inv cfg (set_now s now) (with_now A now) X l0 l1 n.
Proof. intros [[] [] ? ? ? ? ? ?]. by split. Qed.
Lemma store_step_spec op s A : rep s A -> op_ok op s ->
  exists s' r A', run_store_op op s = Some (s', r) /\ a_step A op r A' /\ rep s' A'.
Proof.
  intros Hrep Hok. pose proof Hrep as (l0 & l1 & Hi). destruct op; cbn [run_store_op op_ok] in *.
  - do 3 eexists. split; [done|]. split; [constructor|]. exists l0, l1. by apply inv_set_now.
  - destruct (key_of key Hok) as (h & -> & Hk). rewrite some_bind.
    destruct (find_store_spec cfg _ _ _ _ _ _ _ _ Hi Hk) as (s1 & m0 & m1 & -> & Hi1 & _). rewrite some_bind.
    do 3 eexists. split; [done|]. split; [constructor|]. by exists m0, m1.
  - destruct Hok as (Hb & Hf & Hs). destruct (key_of _ Hb) as (h & -> & Hk). rewrite some_bind.
    destruct (insert_new_obj_spec mem memi s A h p o Hrep Hf Hk Hs) as (s1 & ok & -> & Hm & Hr). rewrite some_bind.
    do 3 eexists. split; [done|]. split; [|exact Hr]. destruct ok; [constructor|]. destruct mem; [by specialize (Hm eq_refl)|constructor].
  - destruct (key_of key Hok) as (h & -> & Hk). rewrite some_bind.
    destruct (erase_store_spec cfg mem _ _ _ _ _ _ _ Hi Hk) as (s1 & m0 & m1 & -> & Hi1). rewrite some_bind.
    do 3 eexists. split; [done|]. split; [constructor|]. by exists m0, m1.
  - destruct Hok as (Hb & Hs & Hf). destruct (key_of key Hb) as (h & -> & Hk). rewrite some_bind.
    destruct (set_expire_spec cfg mem memi a s A l0 l1 key h at_ Hi Hk (small_size _ _ _ _ _ _ Hi Hs)) as (s1 & r & m0 & m1 & -> & Hr & Hi1).
    { intros a' p o Ea Hp. apply (Hf a' p o Ea). by apply (live_heap _ _ _ _ _ _ _ _ _ (i_mem _ _ _ _ _ _ _ Hi) Hp). }
    rewrite some_bind. do 3 eexists. split; [done|]. split; [by constructor|]. by exists m0, m1.
  - destruct (key_of key Hok) as (h & -> & Hk). rewrite some_bind.
    destruct (persist_spec cfg _ _ _ _ _ _ _ Hi Hk) as (s1 & m0 & m1 & -> & Hi1). rewrite some_bind.
    do 3 eexists. split; [done|]. split; [constructor|]. by exists m0, m1.
  - destruct (key_of key Hok) as (h & -> & Hk). rewrite some_bind. rewrite (watch_deadline_spec cfg _ _ _ _ _ _ _ _ Hi Hk), some_bind.
    do 3 eexists. split; [done|]. split; [|exact Hrep]. apply (as_watch A key).
  - destruct Hok as (Hb & Ho). destruct (key_of key Hb) as (h & -> & Hk). rewrite some_bind.
    destruct (lend_spec memv s A key h Hrep Hk Ho) as (s1 & -> & Hr). rewrite some_bind. do 3 eexists. split; [done|].
    split; [constructor|exact Hr].
  - destruct (store_unborrow_spec cfg _ _ _ _ _ _ v Hi) as (s1 & -> & Hi1). rewrite some_bind. do 3 eexists. split; [done|].
    split; [constructor|]. by exists l0, l1.
  - destruct Hok as (Hb & Hs). destruct (active_expire_spec cfg s A l0 l1 budget Hi Hb (small_size _ _ _ _ _ _ Hi Hs))
      as (s1 & A1 & r & m0 & m1 & -> & Hi1 & Hreap & Er). rewrite some_bind. do 3 eexists. split; [done|]. split; [|by exists m0, m1].
    apply as_active; [done|]. destruct (rehashing s), (e_rehashing (s_exp s1)); cbn [Z.b2z] in Er; lia.
Qed.
Lemma run_spec ops s A : rep s A -> ops_ok ops s ->
  exists s' rs A', run_ops ops s = Some (s', rs) /\ a_run A ops rs A' /\ rep s' A'.
Proof.
  revert s A. induction ops as [|op ops IH]; intros s A Hr Hok; cbn [run_ops ops_ok] in *.
  { do 3 eexists. split; [done|]. split; [constructor|exact Hr]. }
  destruct Hok as [H1 H2]. destruct (store_step_spec op s A Hr H1) as (s1 & r & A1 & E & Hs & Hr1). rewrite E, some_bind.
  destruct (IH s1 A1 Hr1 (H2 _ _ E)) as (s2 & rs & A2 & -> & Hrun & Hr2). rewrite some_bind.
  do 3 eexists. split; [done|]. split; [by econstructor|exact Hr2].
Qed.
End Run.

(** * A new store *)
Lemma round_pow2_loop_spec fuel k v : 6 <= k <= 31 -> 32 <= k + Z.of_nat fuel ->
  exists p, round_pow2_loop fuel (2 ^ k) v = Some p /\ (p = 0 \/ exists j, 6 <= j <= 31 /\ p = 2 ^ j /\ v <= p).
Proof.
  revert k. induction fuel as [|fuel IH]; intros k Hk Hf; [lia|]. cbn [round_pow2_loop]. zsplit.
  - assert (2 ^ k * 2 = 2 ^ (k + 1)) as E2 by (rewrite Z.pow_add_r by lia; lia). rewrite E2. zsplit; [exists 0; split; [done|by left]|].
    assert (k < 31). { destruct (decide (k = 31)) as [->|]; [|lia]. by vm_compute in E0. }
    apply IH; lia.
  - eexists. split; [done|]. right. by exists k.
Qed.
Lemma store_new_rep cfg mem cap s : store_new mem cap = Some s -> rep cfg s (abs_new 0).
Proof.
  unfold store_new, round_pow2. change kMinCap with (2 ^ 6).
  destruct (round_pow2_loop_spec 32 6 cap ltac:(lia) ltac:(lia)) as (p & -> & Hp). rewrite some_bind. intros E.
  destruct Hp as [->|(j & Hj & -> & _)]; [done|]. destruct ((2 ^ j =? 0) || negb mem); [done|]. injection E as <-.
  destruct (empty_rep cfg ∅ j Hj) as [Rn Mn]. pose proof (Z.pow_pos_nonneg 2 j ltac:(lia) ltac:(lia)).
  exists (replicate (Z.to_nat (2 ^ j)) SEmpty), []. split; cbn [s_heap s_bytes s_pending s_reg s_exp s_now s_expired s_aof]; try done.
  - split; cbn [a_live a_dead a_loans abs_new]; try done; try apply reg_new_ok; try apply map_disjoint_empty_l.
    intros q o. rewrite !lookup_empty. split; [done|]. by intros [[k Hk]|[?|?]].
  - split; cbn [s_heap s_t0 s_t1]; [exact Rn|by left|rewrite Mn; apply map_disjoint_empty_l|rewrite Mn; done].
  - unfold load, rehashing; cbn. lia.
  - destruct (e_new_ok false) as [Ho Em]. split; [done|]. intros h [d Hd]. by rewrite Em, lookup_empty in Hd.
Qed.
Lemma rep_resident cfg s A key h : rep cfg s A -> Forall is_byte key -> hash_key cfg key = Some h ->
  find_resident s h key = Some (fst <$> a_live A !! key).
Proof. intros (l0 & l1 & Hi) Hb Hh. apply (find_resident_spec cfg s A ∅ l0 l1 0); [done|by split]. Qed.
Lemma rep_size cfg s A : rep cfg s A -> Z.of_nat (size (a_live A)) < 2 ^ 32 -> store_size s = Z.of_nat (size (a_live A)).
Proof.
  intros (l0 & l1 & Hi) Hs. unfold store_size. rewrite <- (live_size _ _ _ _ _ _ _ Hi). apply u32_small. change (2 ^ 32) with 4294967296 in Hs. lia.
Qed.

(** * Deciding what a caller owes *)
Definition fresh_objb (s : Store) (p : Z) (o : KvObj) : bool :=
  bool_decide (s_heap s !! p = None) && (0 <? p) && (p <? 2 ^ 48) &&
  forallb (fun qo : Z * KvObj => match o_value o with Some v => negb (bool_decide (o_value qo.2 = Some v)) | None => true end)
    (map_to_list (s_heap s)).
Definition bytesb (key : bytes) : bool := forallb (fun b => (0 <=? b) && (b <? 256)) key.
Definition smallb (s : Store) : bool := t_live (s_t0 s) + t_live (s_t1 s) <? 2 ^ 29.
Definition op_okb (op : StoreOp) (s : Store) : bool :=
  match op with
  | OpNow _ | OpReturn _ => true
  | OpFind key | OpErase _ key | OpPersist key | OpWatch key => bytesb key
  | OpInsert _ _ p o => bytesb (o_key o) && fresh_objb s p o && smallb s
  | OpExpire _ _ a key at_ => bytesb key && smallb s &&
      forallb (fun qo : Z * KvObj => match a with Some a => fresh_objb s (al_addr a) (kvobj_reheader qo.2 at_ a) | None => true end)
        (map_to_list (s_heap s))
  | OpLend _ key => bytesb key && (r_outstanding (s_reg s) <? 2 ^ 28)
  | OpActive budget => (0 <=? budget) && smallb s
  end.
Fixpoint ops_okb (cfg : HashCfg) (ops : list StoreOp) (s : Store) : bool :=
  match ops with
  | [] => true
  | op :: ops => op_okb op s && match run_store_op cfg op s with Some (s', _) => ops_okb cfg ops s' | None => true end
  end.
Lemma bytesb_sound key : bytesb key = true -> Forall is_byte key.
Proof.
  unfold bytesb. rewrite forallb_forall. intros Hf. apply Forall_forall. intros b Hb. specialize (Hf b ltac:(by apply list_elem_of_In)).
  zcmp. unfold is_byte. lia.
Qed.
Lemma fresh_objb_sound s p o : fresh_objb s p o = true -> fresh_obj s p o.
Proof.
  unfold fresh_objb. intros [[[H1 H2]%andb_prop H3]%andb_prop H4]%andb_prop. zcmp. apply bool_decide_eq_true in H1.
  rewrite forallb_forall in H4. split; [done|]. split; [by unfold addr_ok|]. intros q o' v Hq Hv.
  specialize (H4 (q, o') ltac:(apply list_elem_of_In; by apply elem_of_map_to_list)). rewrite Hv in H4. cbn [snd] in H4. zcmp.
  by apply bool_decide_eq_false in H4.
Qed.
Lemma op_okb_sound op s : op_okb op s = true -> op_ok op s.
Proof.
  destruct op; cbn [op_okb op_ok]; intros Hb; try by apply bytesb_sound.
  - done.
  - apply andb_prop in Hb as [[H1 H2]%andb_prop H3]. split_and!; [by apply bytesb_sound|by apply fresh_objb_sound|by apply Z.ltb_lt].
  - apply andb_prop in Hb as [[H1 H2]%andb_prop H3]. split_and!; [by apply bytesb_sound|by apply Z.ltb_lt|]. intros a' p o -> Hp.
    rewrite forallb_forall in H3. apply fresh_objb_sound. apply (H3 (p, o)). apply list_elem_of_In. by apply elem_of_map_to_list.
  - apply andb_prop in Hb as [H1 H2]. split; [by apply bytesb_sound|by apply Z.ltb_lt].
  - done.
  - apply andb_prop in Hb as [H1 H2]. zcmp. split; [done|by apply Z.ltb_lt].
Qed.
Lemma ops_okb_sound cfg ops s : ops_okb cfg ops s = true -> ops_ok cfg ops s.
Proof.
  revert s. induction ops as [|op ops IH]; intros s Hb; cbn [ops_okb ops_ok] in *; [done|].
  apply andb_prop in Hb as [H1 H2]. split; [by apply op_okb_sound|]. intros s' r E. rewrite E in H2. by apply IH.
Qed.

(** * Histories *)
Definition demo_cfg : HashCfg := mkHashCfg Mix64Seeded 0x1234 0 0.
Definition demo_key (i : nat) : bytes := str "key:" ++ [48 + Z.of_nat i / 10; 48 + Z.of_nat i mod 10].
Definition demo_obj (i : nat) : KvObj :=
  mkObj (demo_key i) (Nat.even i) (if Nat.even i then 1000 + Z.of_nat i else kNoTtlDeadline) 64 (Some (0x700000 + 64 * Z.of_nat i)).
Definition demo_insert (i : nat) : StoreOp := OpInsert true true (0x10000 + 64 * Z.of_nat i) (demo_obj i).
(** Fifty keys into a table of 64 slots, half of them with a deadline: a resize, a replacement of a
    lent object, deadlines written in place and by copy, an erasure, elapsed keys. *)
Definition store_demo_ops : list StoreOp :=
  (demo_insert <$> seq 0 50) ++
  [OpLend true (demo_key 7); OpInsert true true 0x20000 (mkObj (demo_key 7) false 0 32 None);
   OpExpire true true (Some (mkAlloc 0x30000 80 0x800000)) (demo_key 9) 5000; OpExpire true true None (demo_key 8) 6000;
   OpPersist (demo_key 10); OpErase true (demo_key 11); OpFind (demo_key 12);
   OpNow 2000; OpFind (demo_key 12); OpFind (demo_key 8); OpFind (demo_key 10); OpWatch (demo_key 9);
   OpReturn (0x700000 + 64 * 7); OpActive 40].
Definition demo_store : option Store := store_new true 64.
Definition demo_ok : bool := match demo_store with Some s => ops_okb demo_cfg store_demo_ops s | None => false end.
Definition demo_results : option (list StoreRes) :=
  match demo_store with Some s => match run_ops demo_cfg store_demo_ops s with Some (_, rs) => Some (drop 50 rs) | None => None end | None => None end.
Lemma demo_cfg_ok : cfg_ok demo_cfg.
Proof. by vm_compute. Qed.
Lemma demo_history : exists s, demo_store = Some s /\ ops_ok demo_cfg store_demo_ops s.
Proof.
  assert (demo_ok = true) as E by (by vm_compute). unfold demo_ok in E. destruct demo_store as [s|]; [|done].
  exists s. split; [done|]. by apply ops_okb_sound.
Qed.

(** * Properties *)
(** C2: The store refines a map from keys to objects with deadlines.  Any sequence of lookups,
    insertions, erasures, deadline changes, loans and returns of values, and sampling passes runs to
    its end, through every resize of the tables and every failed allocation; each answer is the one
    the map gives (an elapsed key is absent, and is removed and recorded when it is met), an
    insertion is refused only when an allocation failed, and at the end the table holds exactly the
    keys of the map. *)
Theorem flatstore_refines cfg cap ops s0 :
  cfg_ok cfg -> store_new true cap = Some s0 -> ops_ok cfg ops s0 ->
  exists s rs A, run_ops cfg ops s0 = Some (s, rs) /\ a_run (abs_new 0) ops rs A /\
    (forall key h, Forall is_byte key -> hash_key cfg key = Some h -> find_resident s h key = Some (fst <$> a_live A !! key)) /\
    s_expired s = a_expired A /\ s_aof s = a_aof A.
Proof.
  intros Hc Hn Hok. destruct (run_spec cfg Hc ops s0 (abs_new 0) (store_new_rep cfg true cap s0 Hn) Hok) as (s & rs & A & E & Hr & Hrep).
  exists s, rs, A. split_and!; try done; [|by destruct Hrep as (l0 & l1 & [])..]. intros key h. by apply rep_resident.
Qed.
Lemma flatstore_refines_witness : exists s0 s rs A, demo_store = Some s0 /\ run_ops demo_cfg store_demo_ops s0 = Some (s, rs) /\
  a_run (abs_new 0) store_demo_ops rs A /\
  drop 50 rs = [ResFound (Some 65984); ResInserted true; ResTtl TtlUpdated; ResTtl TtlUpdated; ResTtl TtlUpdated; ResErased true;
    ResFound (Some 66304); ResUnit; ResFound None; ResFound (Some 66048); ResFound (Some 66176); ResDeadline 5000; ResUnit; ResWork 15].
Proof.
  destruct demo_history as (s0 & E0 & Hok). exists s0.
  destruct (flatstore_refines demo_cfg 64 store_demo_ops s0 demo_cfg_ok E0 Hok) as (s & rs & A & E & Hr & _).
  exists s, rs, A. split; [exact E0|]. split; [exact E|]. split; [exact Hr|].
  assert (demo_results = Some (drop 50 rs)) as Er by (unfold demo_results; by rewrite E0, E).
  vm_compute in Er. injection Er as Er. symmetry. exact Er.
Defined.
(** C7: The store owns its objects exactly.  After any history the heap holds the live objects and the
    removed objects whose bytes are still lent, and nothing else, so no object leaks and none is freed
    twice or used after it was freed; a lent object is kept until its last loan is returned; and the
    two byte counters are the footprints of the live and of the kept objects. *)
Theorem flatstore_owns_objects cfg cap ops s0 :
  cfg_ok cfg -> store_new true cap = Some s0 -> ops_ok cfg ops s0 ->
  exists s rs A, run_ops cfg ops s0 = Some (s, rs) /\ a_run (abs_new 0) ops rs A /\
    (forall p o, s_heap s !! p = Some o <-> (exists k, a_live A !! k = Some (p, o)) \/ a_dead A !! p = Some o) /\
    (forall p o, a_dead A !! p = Some o -> exists v n, o_value o = Some v /\ loans (s_reg s) !! v = Some (n, Some p)) /\
    s_bytes s = u64 (live_bytes A) /\ s_pending s = u64 (dead_bytes A).
Proof.
  intros Hc Hn Hok. destruct (run_spec cfg Hc ops s0 (abs_new 0) (store_new_rep cfg true cap s0 Hn) Hok) as (s & rs & A & E & Hr & l0 & l1 & Hi).
  exists s, rs, A. destruct (i_mem _ _ _ _ _ _ _ Hi). split_and!; try done.
  - intros p o. rewrite m_heap, lookup_empty.
    split; [intros [?|[?|?]]; [by left|by right|done]|intros [?|?]; [by left|by right; left]].
  - rewrite m_loans. exact m_pend.
Qed.
Lemma flatstore_owns_objects_witness : exists s0 s rs A, demo_store = Some s0 /\ run_ops demo_cfg store_demo_ops s0 = Some (s, rs) /\
  (forall p o, s_heap s !! p = Some o <-> (exists k, a_live A !! k = Some (p, o)) \/ a_dead A !! p = Some o) /\
  s_bytes s = u64 (live_bytes A).
Proof.
  destruct demo_history as (s0 & E0 & Hok). exists s0.
  destruct (flatstore_owns_objects demo_cfg 64 store_demo_ops s0 demo_cfg_ok E0 Hok) as (s & rs & A & E & _ & Hh & _ & Hb & _).
  exists s, rs, A. split; [exact E0|]. split; [exact E|]. split; [exact Hh|exact Hb].
Defined.
