(* ===== verification/FlatScan.v ===== *)
(** SCAN over the store of flatstore.h.

    A cursor is a position in the bit-reversed order of hashes ([Hash]).  One call shows every
    visible key between its cursor and the one it returns, whichever table the key is in, so that a
    session that returns to cursor 0 has shown every key that was present throughout, across any
    history of the store between the calls. *)
From stdpp Require Import gmap.
From S2P Require Import Prelude Slice Hash Probe ExpireIndex Borrow FlatStore FlatTable FlatSpec FlatProof FlatRun.

Section Scan.
Context (cfg : HashCfg).
Implicit Types (ex : bool) (s : Store) (A : Abs) (X : gmap Z KvObj) (l : list (Slot bytes Z)) (out new : list Z).
Abbreviation inv := (inv cfg).

(** An expiring walk shows the keys that have not elapsed, an accounting walk shows all. *)
Definition visible ex A (o : KvObj) : Prop := ex = false \/ elapsed (a_now A) o = false.
Definition shown ex A (p : Z) : Prop := exists k o, a_live A !! k = Some (p, o) /\ visible ex A o.

(** What a walk may change: elapsed keys disappear, visible keys stay in their table. *)
Record kept ex A l0 l1 A' l0' l1' : Prop := mkKept {
  k_reap : rtc reap_one A A';
  k_tab : forall (b : bool) k p o, slots_map (if b then l1 else l0) !! k = Some p -> a_live A !! k = Some (p, o) ->
    visible ex A o -> slots_map (if b then l1' else l0') !! k = Some p /\ a_live A' !! k = Some (p, o) }.
Lemma reap_live A A' k x : rtc reap_one A A' -> a_live A' !! k = Some x -> a_live A !! k = Some x.
Proof.
  induction 1 as [|A1 A2 A3 (key & p & o & Ho & _ & ->) _ IH]; [done|]. intros Hk. apply IH in Hk. unfold a_expire in Hk.
  cbn [a_live bump_expired] in Hk. rewrite a_remove_live in Hk. by apply lookup_delete_Some in Hk as [_ ?].
Qed.
Lemma reap_now A A' : rtc reap_one A A' -> a_now A' = a_now A.
Proof.
  induction 1 as [|A1 A2 A3 (key & p & o & Ho & _ & ->) _ IH]; [done|]. rewrite IH. unfold a_expire. cbn [a_now bump_expired].
  by destruct (a_remove_rest (with_aof A1 key) key) as (-> & _).
Qed.
Lemma visible_reap ex A A' o : rtc reap_one A A' -> visible ex A' o <-> visible ex A o.
Proof. intros Hr. unfold visible. by rewrite (reap_now _ _ Hr). Qed.
Lemma shown_reap ex A A' p : rtc reap_one A A' -> shown ex A' p -> shown ex A p.
Proof. intros Hr (k & o & Hk & Hv). exists k, o. split; [by eapply reap_live|]. by apply (visible_reap ex A A' o Hr). Qed.
Lemma kept_refl ex A l0 l1 : kept ex A l0 l1 A l0 l1.
Proof. by split. Qed.
Lemma kept_trans ex A l0 l1 A1 m0 m1 A2 k0 k1 : kept ex A l0 l1 A1 m0 m1 -> kept ex A1 m0 m1 A2 k0 k1 -> kept ex A l0 l1 A2 k0 k1.
Proof.
  intros [R1 T1] [R2 T2]. split; [by etrans|]. intros b k p o Hk Ho Hv. destruct (T1 b k p o Hk Ho Hv) as [Hk1 Ho1].
  apply (T2 b); [done|done|]. by apply (visible_reap ex A A1 o R1).
Qed.

(** ** Positions *)
(** The end of the interval a call has covered: a cursor of 0 closes the walk. *)
Definition upper (c : Z) : Z := if c =? 0 then 2 ^ 64 else rv c.
Definition keypos (key : bytes) : Z := rv (mix64 (khash cfg key)).

Lemma block_scale k : 0 <= k <= 64 -> block k * 2 ^ k = 2 ^ 64.
Proof. intros Hk. unfold block. rewrite <- Z.pow_add_r by lia. f_equal. lia. Qed.
Lemma rv_range c : word64 c -> 0 <= rv c < 2 ^ 64.
Proof. intros Hc. exact (rev_word c Hc). Qed.
Lemma rv_0 : rv 0 = 0.
Proof. by vm_compute. Qed.
Lemma next_bound c k : word64 c -> 0 <= k <= 31 ->
  word64 (scan_cursor_next c (2 ^ k - 1)) /\ upper (scan_cursor_next c (2 ^ k - 1)) = (rv c / block k + 1) * block k /\
  rv c < (rv c / block k + 1) * block k <= 2 ^ 64.
Proof.
  intros Hc Hk. destruct (rv_next c k Hc ltac:(lia)) as [Hw E]. split; [done|]. pose proof (block_pos k ltac:(lia)) as Hb.
  pose proof (block_scale k ltac:(lia)) as Hs. pose proof (rv_range c Hc) as Hr. set (q := rv c / block k) in *.
  pose proof (Z.div_mod (rv c) (block k) ltac:(lia)) as Hdm. pose proof (Z.mod_pos_bound (rv c) (block k) Hb). fold q in Hdm.
  assert (0 <= q) by (apply Z.div_pos; lia). assert (q < 2 ^ k) by (apply Z.div_lt_upper_bound; lia).
  split; [|nia]. set (c' := scan_cursor_next c (2 ^ k - 1)) in *. unfold upper. change (u64 ?x) with (x mod 2 ^ 64) in E.
  destruct (decide (q + 1 = 2 ^ k)) as [Eq|Hne].
  - assert ((q + 1) * block k = 2 ^ 64) as Ey by (rewrite Eq; lia). rewrite Ey, Z.mod_same in E by lia.
    assert (c' = 0) as -> by (rewrite <- (rev_involutive c' Hw), E; apply rv_0). by rewrite Ey.
  - assert ((q + 1) * block k < 2 ^ 64) by nia. rewrite Z.mod_small in E by nia. destruct (Z.eqb_spec c' 0) as [E0|]; [|done].
    rewrite E0, rv_0 in E. nia.
Qed.
Lemma low_zero c k : word64 c -> 0 <= k <= 64 ->
  rv c mod block k = 0 <-> forall i, k <= i < 64 -> Z.testbit c i = false.
Proof.
  intros Hc Hk. unfold block. split.
  - intros E i Hi. replace i with (63 - (63 - i)) by lia. rewrite <- rev_bit by (done || lia).
    rewrite <- (Z.mod_pow2_bits_low _ (64 - k)) by lia. by rewrite E, Z.bits_0.
  - intros Hb. apply Z.bits_inj'. intros i Hi. rewrite Z.bits_0. destruct (decide (i < 64 - k)).
    + rewrite Z.mod_pow2_bits_low by lia. rewrite rev_bit by (done || lia). apply Hb. lia.
    + by rewrite Z.mod_pow2_bits_high by lia.
Qed.
(** The test of the inner loop: has the cursor left the home of the smaller table? *)
Lemma small_done c k1 k2 : word64 c -> 0 <= k1 <= k2 -> k2 <= 64 -> rv c mod block k2 = 0 ->
  (Z.land c (Z.lxor (2 ^ k1 - 1) (2 ^ k2 - 1)) =? 0) = (rv c mod block k1 =? 0).
Proof.
  intros Hc Hk Hk2 Hz. assert (forall k, 2 ^ k - 1 = Z.ones k) as Eo by (intros; rewrite Z.ones_equiv; lia). rewrite !Eo.
  apply eq_true_iff_eq. rewrite !Z.eqb_eq, low_zero by lia || done. pose proof (proj1 (low_zero c k2 Hc ltac:(lia)) Hz) as Hz'.
  split.
  - intros E i Hi. destruct (decide (i < k2)); [|apply Hz'; lia]. assert (Z.testbit (Z.land c (Z.lxor (Z.ones k1) (Z.ones k2))) i = false) as Et
      by (by rewrite E, Z.bits_0). rewrite Z.land_spec, Z.lxor_spec, !Z.testbit_ones_nonneg in Et by lia.
    rewrite (proj2 (Z.ltb_ge i k1)), (proj2 (Z.ltb_lt i k2)) in Et by lia. by rewrite andb_true_r in Et.
  - intros Hb. apply Z.bits_inj'. intros i Hi. rewrite Z.bits_0, Z.land_spec, Z.lxor_spec, !Z.testbit_ones_nonneg by lia.
    destruct (Z.ltb_spec i k1), (Z.ltb_spec i k2); cbn [xorb]; rewrite ?andb_false_r; try done; try lia.
    rewrite Hb by lia. done.
Qed.
Lemma mask_u32 c k : 0 <= k <= 31 -> Z.land (u32 c) (2 ^ k - 1) = Z.land c (2 ^ k - 1).
Proof. intros Hk. rewrite !land_ones_mod by lia. apply u32_mod_pow2. lia. Qed.
Lemma u32_mask c k : 0 <= k <= 31 -> u32 (Z.land c (2 ^ k - 1)) = Z.land c (2 ^ k - 1).
Proof.
  intros Hk. rewrite land_ones_mod by lia. pose proof (Z.mod_pos_bound c (2 ^ k) ltac:(apply Z.pow_pos_nonneg; lia)).
  pose proof (Z.pow_le_mono_r 2 k 31 ltac:(lia) ltac:(lia)). change (2 ^ 31) with 2147483648 in *. apply u32_small. lia.
Qed.
Lemma home_block key k c : word64 (khash cfg key) -> word64 c -> 0 <= k <= 31 ->
  f_home cfg (2 ^ k) key = Z.land c (2 ^ k - 1) <-> keypos key / block k = rv c / block k.
Proof.
  intros Hh Hc Hk. unfold f_home, keypos. rewrite mask_u32 by done. apply same_home; [by apply word64_mix64|done|lia].
Qed.

(** ** One home *)
Definition old_or_new s (b : bool) l0 l1 : Prop := tab_rep cfg (s_heap s) (tab s b) (if b then l1 else l0).
Lemma buried_tab (b : bool) i l0 l1 : (if b then (buried b i l0 l1).2 else (buried b i l0 l1).1) = <[i := STomb]> (if b then l1 else l0).
Proof. by destruct b. Qed.
Lemma kept_expire ex s A X l0 l1 n (b : bool) key p o i : inv s A X l0 l1 n -> a_live A !! key = Some (p, o) ->
  elapsed (a_now A) o = true -> ex = true -> (if b then l1 else l0) !! i = Some (SLive key p) -> unique (if b then l1 else l0) ->
  kept ex A l0 l1 (a_expire A key) (buried b i l0 l1).1 (buried b i l0 l1).2.
Proof.
  intros Hi Ho He Hex Hs Hu. split; [apply rtc_once; by exists key, p, o|]. intros c k q o' Hk Hq [?|Hv]; [congruence|].
  assert (k <> key) as Hne by (intros ->; congruence).
  assert (a_live (a_expire A key) !! k = Some (q, o')) as Hl.
  { unfold a_expire. cbn [a_live bump_expired]. rewrite a_remove_live. cbn [a_live with_aof]. by rewrite lookup_delete_ne. }
  split; [|done]. assert (slots_map (<[i := STomb]> (if b then l1 else l0)) = delete key (slots_map (if b then l1 else l0))) as Em.
  { destruct (i_tabs _ _ _ _ _ _ _ Hi) as [T0 T1 _ _]. destruct b.
    - destruct T1 as [[_ ->]|(_ & _ & _ & _ & Hp & _)]; [done|]. by eapply (proj2 (probe_remove _ _ _ _ _ Hp Hs)).
    - destruct T0 as (_ & _ & _ & _ & Hp & _). by eapply (proj2 (probe_remove _ _ _ _ _ Hp Hs)). }
  destruct b, c; cbn [buried tabs_of fst snd]; rewrite ?Em, ?lookup_delete_ne by congruence; done.
Qed.
Lemma tab_unique s A X l0 l1 n (b : bool) : inv s A X l0 l1 n -> unique (if b then l1 else l0).
Proof.
  intros Hi. destruct (i_tabs _ _ _ _ _ _ _ Hi) as [(_ & _ & _ & _ & [Hu _] & _) T1 _ _]. destruct b; [|done].
  destruct T1 as [[_ ->]|(_ & _ & _ & _ & [Hu1 _] & _)]; [intros ? ? ? ? ? E; done|done].
Qed.
(** The visit of one live slot. *)
Lemma scan_visit_spec ex s A X l0 l1 n (b : bool) i key p : inv s A X l0 l1 n -> (if b then l1 else l0) !! i = Some (SLive key p) ->
  key_ok cfg key (khash cfg key) ->
  exists s' sh A' l0' l1', scan_visit false s b (khash cfg key) p ex = Some (s', sh) /\ inv s' A' X l0' l1' n /\ same_shape s s' /\
    kept ex A l0 l1 A' l0' l1' /\ (forall q, q ∈ sh -> shown ex A q) /\
    ((if b then l1' else l0') = <[i := STomb]> (if b then l1 else l0) \/ (if b then l1' else l0') = (if b then l1 else l0) /\ p ∈ sh) /\
    (if b then l0' else l1') = (if b then l0 else l1).
Proof.
  intros Hi Hs Hk. destruct (slot_live _ _ _ _ _ _ _ b i key p Hi Hs) as [o Ho].
  pose proof (live_heap _ _ _ _ _ _ _ _ _ (i_mem _ _ _ _ _ _ _ Hi) Ho) as Hp. unfold scan_visit.
  assert (visible ex A o -> exists s' sh A' l0' l1', Some (s, [p]) = Some (s', sh) /\ inv s' A' X l0' l1' n /\ same_shape s s' /\
    kept ex A l0 l1 A' l0' l1' /\ (forall q, q ∈ sh -> shown ex A q) /\
    ((if b then l1' else l0') = <[i := STomb]> (if b then l1 else l0) \/ (if b then l1' else l0') = (if b then l1 else l0) /\ p ∈ sh) /\
    (if b then l0' else l1') = (if b then l0 else l1)) as Hshow.
  { intros Hv. exists s, [p], A, l0, l1. split; [done|]. split; [done|]. split; [done|]. split; [apply kept_refl|].
    split; [|split; [right; split; [done|by left]|done]]. intros q ->%list_elem_of_singleton. by exists key, o. }
  destruct ex eqn:Eex; cbn [negb]; [|apply Hshow; by left]. rewrite Hp, some_bind, deadline_elapsed_eq, some_bind.
  rewrite (i_now _ _ _ _ _ _ _ Hi). destruct (elapsed (a_now A) o) eqn:Ee; [|apply Hshow; by right].
  assert (o_key o = key) as -> by (by apply (m_key _ _ _ _ _ _ (i_mem _ _ _ _ _ _ _ Hi) _ _ _ Ho)).
  pose proof (tab_unique _ _ _ _ _ _ b Hi) as Hu.
  assert (slots_map (if b then l1 else l0) !! key = Some p) as Hm by (apply slots_map_spec; eauto).
  destruct (expire_spec cfg _ _ _ _ _ _ b key (khash cfg key) p Hi Hk Hm) as (s1 & e & j & -> & Hj & Hi1 & Hsh & _). rewrite some_bind.
  assert (j = i) as -> by (by eapply Hu).
  exists (count_expired s1), [], (a_expire A key), (buried b i l0 l1).1, (buried b i l0 l1).2. split; [done|]. split; [done|]. split; [done|].
  split; [by eapply kept_expire|]. split; [intros q Hq; inversion Hq|]. split; [left; apply buried_tab|by destruct b].
Qed.

Definition seen ex A l (cap home d : Z) out : Prop :=
  forall e k p o, 0 <= e < d -> l !! path l home e = Some (SLive k p) -> f_home cfg cap k = home ->
    a_live A !! k = Some (p, o) -> visible ex A o -> p ∈ out.
Definition home_shown ex A l (cap home : Z) out : Prop :=
  forall k p o, slots_map l !! k = Some p -> f_home cfg cap k = home -> a_live A !! k = Some (p, o) -> visible ex A o -> p ∈ out.
Lemma seen_complete ex H t A l home d out : tab_rep cfg H t l -> 0 <= d -> seen ex A l (t_cap t) home d out ->
  l !! path l home d = Some SEmpty -> home_shown ex A l (t_cap t) home out.
Proof.
  intros (_ & Hl & _ & _ & [Hu Hr] & _) Hd Hs He k p o Hk Hh Ho Hv. apply slots_map_spec in Hk as [i Hi]; [|done].
  destruct (Hr i k p Hi) as (e & Hle & -> & Hne). rewrite Hh in Hi, Hne. destruct (decide (e < d)); [apply (Hs e k p o); done || lia|].
  destruct (decide (e = d)) as [->|]; [congruence|]. by destruct (Hne d ltac:(lia)).
Qed.
Lemma nonempty_pass H t l home d : tab_rep cfg H t l -> 0 <= d < t_cap t ->
  (forall e, 0 <= e < d + 1 -> l !! path l home e <> Some SEmpty) -> d + 1 < t_cap t.
Proof.
  intros (_ & Hl & _ & _ & _ & _ & _ & He) Hd Hn. destruct (decide (d + 1 = t_cap t)) as [E|]; [|lia]. exfalso.
  apply count_if_pos in He as (i & x & Hi & Hx). destruct (path_surj l home i) as (e & He & ->); [by eapply lookup_lt_Some|].
  destruct x; try done. by apply (Hn e ltac:(lia)).
Qed.
Lemma scan_home_loop_spec ex m s A X l0 l1 n (b : bool) home d cnt out :
  inv s A X l0 l1 n -> old_or_new s b l0 l1 -> 0 <= d < t_cap (tab s b) -> t_cap (tab s b) - d <= Z.of_nat m ->
  (forall e, 0 <= e < d -> (if b then l1 else l0) !! path (if b then l1 else l0) home e <> Some SEmpty) ->
  seen ex A (if b then l1 else l0) (t_cap (tab s b)) home d out ->
  exists s' cnt' new A' l0' l1', scan_home_loop cfg false m s b home ex ((home + d) mod t_cap (tab s b)) cnt out = Some (s', cnt', out ++ new) /\
    inv s' A' X l0' l1' n /\ same_shape s s' /\ kept ex A l0 l1 A' l0' l1' /\ (forall q, q ∈ new -> shown ex A q) /\
    home_shown ex A' (if b then l1' else l0') (t_cap (tab s b)) home (out ++ new).
Proof.
  revert s A l0 l1 d cnt out. induction m as [|m IH]; intros s A l0 l1 d cnt out Hi Ht Hd Hm Hne Hseen; [lia|].
  cbn [scan_home_loop]. set (l := if b then l1 else l0) in *. unfold old_or_new in Ht. fold l in Ht.
  pose proof Ht as (_ & Hlen & Hmask & _). assert (0 <= (home + d) mod t_cap (tab s b) < t_cap (tab s b)) as Hr by (apply Z.mod_pos_bound; lia).
  destruct (word_at cfg _ _ _ _ Ht Hr) as (w & x & -> & Hx & Hw). rewrite some_bind.
  assert (Z.to_nat ((home + d) mod t_cap (tab s b)) = path l home d) as Ei by (unfold path; by rewrite Hlen). rewrite Ei in Hx.
  (* The step of the loop, for whatever the visit of the slot does. *)
  assert (forall s1 sh A1 m0 m1, x <> SEmpty -> inv s1 A1 X m0 m1 n -> same_shape s s1 -> kept ex A l0 l1 A1 m0 m1 -> (forall q, q ∈ sh -> shown ex A q) ->
    ((if b then m1 else m0) = <[path l home d := STomb]> l \/ (if b then m1 else m0) = l /\
       (forall k p, x = SLive k p -> f_home cfg (t_cap (tab s b)) k = home -> p ∈ sh)) ->
    exists s' cnt' new A' l0' l1', scan_home_loop cfg false m s1 b home ex (next_slot (tab s1 b) ((home + d) mod t_cap (tab s b))) (u32 (cnt + 1)) (out ++ sh) =
      Some (s', cnt', out ++ new) /\ inv s' A' X l0' l1' n /\ same_shape s s' /\ kept ex A l0 l1 A' l0' l1' /\ (forall q, q ∈ new -> shown ex A q) /\
      home_shown ex A' (if b then l1' else l0') (t_cap (tab s b)) home (out ++ new)) as Hstep.
  { intros s1 sh A1 m0 m1 Hxe Hi1 Hsh Hk1 Hq Hl1. set (l' := if b then m1 else m0) in *.
    assert (t_cap (tab s1 b) = t_cap (tab s b)) as Ec by (destruct Hsh as (E0 & E1 & _); by destruct b).
    assert (old_or_new s1 b m0 m1) as Ht1.
    { unfold old_or_new. destruct b; [|apply Hi1]. destruct (t_old _ _ _ _ _ (i_tabs _ _ _ _ _ _ _ Hi1)) as [[E _]|?]; [|done].
      cbn [tab] in Ec. rewrite E in Ec. cbn in Ec, Hd. lia. }
    assert (forall e, path l' home e = path l home e) as Ep.
    { intros e. destruct Hl1 as [E|[E _]]; rewrite E; [apply path_insert|done]. }
    assert (forall e y, l' !! path l' home e = Some y -> y = STomb \/ l !! path l home e = Some y) as Hback.
    { intros e y Hy. rewrite Ep in Hy. destruct Hl1 as [E|[E _]]; rewrite E in Hy; [|by right].
      apply list_lookup_insert_Some in Hy as [(_ & <- & _)|[_ Hy]]; [by left|by right]. }
    assert (forall e, 0 <= e < d + 1 -> l' !! path l' home e <> Some SEmpty) as Hne1.
    { intros e He Ey. destruct (Hback e _ Ey) as [?|Ey']; [done|]. destruct (decide (e = d)) as [->|]; [congruence|]. by apply (Hne e ltac:(lia)). }
    pose proof (nonempty_pass _ _ _ home d Ht1 ltac:(lia) Hne1) as Hlt. rewrite Ec in Hlt.
    rewrite <- Ec, (next_slot_path cfg (s_heap s1) (tab s1 b) l' home d Ht1).
    destruct (IH s1 A1 m0 m1 (d + 1) (u32 (cnt + 1)) (out ++ sh) Hi1 Ht1 ltac:(lia) ltac:(lia) Hne1) as (s2 & cnt2 & new & A2 & k0 & k1 & E & Hi2 & Hsh2 & Hk2 & Hq2 & Hc2).
    { fold l'. intros e k p o He Hy Hh Ho Hv. rewrite Ec in Hh. destruct (Hback e _ Hy) as [?|Hy']; [done|]. apply elem_of_app.
      pose proof (k_reap _ _ _ _ _ _ _ Hk1) as Hre.
      destruct (decide (e = d)) as [->|]; [right|left].
      - destruct Hl1 as [E|[E Hin]]; [|apply (Hin k p); [congruence|done]].
        rewrite Ep, E, list_lookup_insert_eq in Hy by (by eapply lookup_lt_Some). done.
      - apply (Hseen e k p o); [lia|done|done|by eapply reap_live|]. by apply (visible_reap ex A A1 o Hre). }
    rewrite E. exists s2, cnt2, (sh ++ new), A2, k0, k1. rewrite <- app_assoc in Hc2 |- *. split; [done|]. split; [done|]. split.
    { destruct Hsh as (? & ? & ? & ? & ?), Hsh2 as (? & ? & ? & ? & ?). split_and!; congruence. }
    split; [by eapply kept_trans|]. split; [|by rewrite <- Ec in *].
    intros q [Hq'|Hq']%elem_of_app; [by apply Hq|]. eapply shown_reap; [apply (k_reap _ _ _ _ _ _ _ Hk1)|by apply Hq2]. }
  destruct x as [| |key p]; cbn [word_rep] in Hw.
  - subst w. exists s, cnt, [], A, l0, l1. rewrite app_nil_r. split; [done|]. split; [done|]. split; [done|]. split; [apply kept_refl|].
    split; [intros q Hq; inversion Hq|]. exact (seen_complete ex _ _ A l home d out Ht (proj1 Hd) Hseen Hx).
  - subst w. change (kTombBit =? 0) with false. change (ptr_of kTombBit =? 0) with true. cbn [negb]. rewrite some_bind.
    apply (Hstep s [] A l0 l1); [done|done|done|apply kept_refl|intros q Hq; inversion Hq|]. right. split; [done|]. intros k q ?. done.
  - destruct Hw as (o & Ho & Hk & Hf & Hh & Ha & ->). rewrite live_word_nonzero, ptr_live by done.
    unfold addr_ok in Ha. rewrite (proj2 (Z.eqb_neq p 0)) by lia. cbn [negb]. rewrite Ho, some_bind, Hk, Hh, some_bind.
    assert (slot_start (tab s b) (khash cfg key) = f_home cfg (t_cap (tab s b)) key) as -> by (unfold slot_start, f_home; by rewrite Hmask).
    destruct (Z.eqb_spec (f_home cfg (t_cap (tab s b)) key) home) as [Eh|Eh].
    + destruct (scan_visit_spec ex s A X l0 l1 n b (path l home d) key p Hi Hx ltac:(by split)) as (s1 & sh & A1 & m0 & m1 & -> & Hi1 & Hsh & Hk1 & Hq & Hc & _).
      rewrite some_bind. apply (Hstep s1 sh A1 m0 m1); try done. destruct Hc as [?|[? ?]]; [by left|right]. split; [done|]. intros k q [= <- <-]. done.
    + rewrite some_bind. apply (Hstep s [] A l0 l1); [done|done|done|apply kept_refl|intros q Hq; inversion Hq|]. right. split; [done|].
      intros k q [= <- <-]. done.
Qed.
Lemma scan_home_spec ex s A X l0 l1 n (b : bool) home : inv s A X l0 l1 n -> old_or_new s b l0 l1 -> 0 <= home < t_cap (tab s b) ->
  exists s' cnt new A' l0' l1', scan_home cfg false s b home ex = Some (s', cnt, new) /\
    inv s' A' X l0' l1' n /\ same_shape s s' /\ kept ex A l0 l1 A' l0' l1' /\ (forall q, q ∈ new -> shown ex A q) /\
    home_shown ex A' (if b then l1' else l0') (t_cap (tab s b)) home new.
Proof.
  intros Hi Ht Hh. unfold scan_home.
  destruct (scan_home_loop_spec ex (S (Z.to_nat (t_cap (tab s b)))) s A X l0 l1 n b home 0 0 [] Hi Ht) as (s' & cnt & new & A' & l0' & l1' & E & Hrest);
    [lia|lia|intros e He; lia|intros e k p o He; lia|]. rewrite Z.add_0_r, Z.mod_small in E by lia. rewrite E, some_bind.
  by exists s', (if cnt =? 0 then 1 else cnt), new, A', l0', l1'.
Qed.

(** ** Walks *)
Record walk ex s A X l0 l1 n s' A' l0' l1' new : Prop := mkWalk {
  w_inv : inv s' A' X l0' l1' n;
  w_shape : same_shape s s';
  w_kept : kept ex A l0 l1 A' l0' l1';
  w_sound : forall q, q ∈ new -> shown ex A q }.
(** Every visible key of table [b] with a position in the interval is shown. *)
Definition covers ex A l0 l1 (b : bool) (lo hi : Z) new : Prop :=
  forall k p o, slots_map (if b then l1 else l0) !! k = Some p -> a_live A !! k = Some (p, o) -> visible ex A o ->
    lo <= keypos k < hi -> p ∈ new.
Lemma shape_trans s s1 s2 : same_shape s s1 -> same_shape s1 s2 -> same_shape s s2.
Proof. intros (? & ? & ? & ? & ?) (? & ? & ? & ? & ?). split_and!; congruence. Qed.
Lemma walk_refl ex s A X l0 l1 n : inv s A X l0 l1 n -> walk ex s A X l0 l1 n s A l0 l1 [].
Proof. intros Hi. split; [done|done|apply kept_refl|]. intros q Hq. inversion Hq. Qed.
Lemma walk_trans ex s A X l0 l1 n s1 A1 m0 m1 new1 s2 A2 k0 k1 new2 :
  walk ex s A X l0 l1 n s1 A1 m0 m1 new1 -> walk ex s1 A1 X m0 m1 n s2 A2 k0 k1 new2 ->
  walk ex s A X l0 l1 n s2 A2 k0 k1 (new1 ++ new2).
Proof.
  intros [I1 S1 K1 Q1] [I2 S2 K2 Q2]. split; [done|by eapply shape_trans|by eapply kept_trans|].
  intros q [Hq|Hq]%elem_of_app; [by apply Q1|]. eapply shown_reap; [apply (k_reap _ _ _ _ _ _ _ K1)|by apply Q2].
Qed.
Lemma covers_later ex A l0 l1 A1 m0 m1 b lo hi new : kept ex A l0 l1 A1 m0 m1 -> covers ex A1 m0 m1 b lo hi new -> covers ex A l0 l1 b lo hi new.
Proof.
  intros [R T] Hc k p o Hk Ho Hv Hp. destruct (T b k p o Hk Ho Hv) as [Hk1 Ho1]. apply (Hc k p o); try done.
  by apply (visible_reap ex A A1 o R).
Qed.
Lemma covers_more ex A l0 l1 b lo hi new new' : covers ex A l0 l1 b lo hi new -> (forall q, q ∈ new -> q ∈ new') -> covers ex A l0 l1 b lo hi new'.
Proof. intros Hc Hs k p o Hk Ho Hv Hp. apply Hs. by eapply Hc. Qed.
Lemma covers_split ex A l0 l1 b lo mid hi new1 new2 : covers ex A l0 l1 b lo mid new1 -> covers ex A l0 l1 b mid hi new2 ->
  covers ex A l0 l1 b lo hi (new1 ++ new2).
Proof.
  intros H1 H2 k p o Hk Ho Hv Hp. apply elem_of_app. destruct (decide (keypos k < mid)); [left; apply (H1 k p o)|right; apply (H2 k p o)]; done || lia.
Qed.

Context (cfg_valid : cfg_ok cfg).
Lemma table_key_word s A X l0 l1 n (b : bool) k p : inv s A X l0 l1 n -> slots_map (if b then l1 else l0) !! k = Some p -> word64 (khash cfg k).
Proof.
  intros Hi Hk. apply slots_map_spec in Hk as [i Hk]; [|by eapply tab_unique].
  assert (old_rep cfg (s_heap s) (tab s b) (if b then l1 else l0)) as [[_ E]|(_ & _ & _ & Hw & _)].
  { destruct b; [apply Hi|right; apply Hi]. }
  { by rewrite E in Hk. }
  destruct (Forall2_lookup_r _ _ _ _ _ Hw Hk) as (w & _ & o & _ & _ & Hb & Hh & _).
  destruct (hash_key_total cfg k cfg_valid Hb) as (h & E & Hwd). rewrite Hh in E. by injection E as ->.
Qed.
(** The home of the cursor [c]: the rest of its block. *)
Lemma scan_home_cover ex s A X l0 l1 n (b : bool) k c : inv s A X l0 l1 n -> old_or_new s b l0 l1 -> t_cap (tab s b) = 2 ^ k -> 6 <= k <= 31 ->
  word64 c ->
  exists s' cnt new A' l0' l1', scan_home cfg false s b (Z.land c (2 ^ k - 1)) ex = Some (s', cnt, new) /\
    walk ex s A X l0 l1 n s' A' l0' l1' new /\
    covers ex A l0 l1 b (rv c / block k * block k) ((rv c / block k + 1) * block k) new.
Proof.
  intros Hi Ht Hc Hk Hw. destruct (scan_home_spec ex s A X l0 l1 n b (Z.land c (2 ^ k - 1)) Hi Ht) as (s' & cnt & new & A' & l0' & l1' & E & Hi' & Hsh & Hkp & Hq & Hcm).
  { rewrite Hc, land_ones_mod by lia. apply Z.mod_pos_bound. apply Z.pow_pos_nonneg; lia. }
  exists s', cnt, new, A', l0', l1'. split; [done|]. split; [done|]. apply (covers_later ex A l0 l1 A' l0' l1'); [done|].
  intros key p o Hkey Ho Hv Hp. apply (Hcm key p o); try done. rewrite Hc. apply home_block; [by eapply table_key_word|done|lia|].
  pose proof (block_pos k ltac:(lia)) as Hb. symmetry. apply Z.div_unique with (keypos key - rv c / block k * block k); lia.
Qed.
Lemma in_block x k : k <= 64 -> x / block k * block k <= x < (x / block k + 1) * block k.
Proof. intros Hk. pose proof (block_pos k Hk). pose proof (Z.div_mod x (block k) ltac:(lia)). pose proof (Z.mod_pos_bound x (block k) ltac:(lia)). nia. Qed.

(** The next cursor of the larger table, with [r] of its blocks left in the home of the smaller. *)
Lemma large_next c k1 k2 Q r : word64 c -> 6 <= k1 <= k2 -> k2 <= 31 -> (Q + 1) * block k1 = (rv c / block k2 + r) * block k2 ->
  Q * block k1 <= rv c -> 1 <= r -> (Q + 1) * block k1 <= 2 ^ 64 -> forall c1, c1 = scan_cursor_next c (2 ^ k2 - 1) ->
  word64 c1 /\ upper c1 = (rv c / block k2 + 1) * block k2 /\
  (Z.land c1 (Z.lxor (2 ^ k1 - 1) (2 ^ k2 - 1)) =? 0) = (r =? 1) /\
  (r <> 1 -> rv c1 = (rv c / block k2 + 1) * block k2).
Proof.
  intros Hw Hk Hk2 HQ HQ0 Hr H64 c1 Ec1. destruct (next_bound c k2 Hw ltac:(lia)) as (Hw1 & Hu1 & Hlt1). rewrite <- Ec1 in Hw1, Hu1.
  pose proof (in_block (rv c) k2 ltac:(lia)) as Hin. pose proof (block_pos k1 ltac:(lia)) as B1. pose proof (block_pos k2 ltac:(lia)) as B2.
  destruct (rv_next c k2 Hw ltac:(lia)) as [_ E]. rewrite <- Ec1 in E. clear Ec1.
  assert (upper c1 = if c1 =? 0 then 2 ^ 64 else rv c1) as Eup by done. rewrite Eup in Hu1 |- *.
  set (q2 := rv c / block k2) in *. clearbody q2.
  assert (rv c1 mod block k2 = 0) as Hz2.
  { rewrite E. change (u64 ?x) with (x mod 2 ^ 64).
    rewrite <- (block_scale k2) by lia. rewrite (Z.mul_comm (_ + 1)), Z.mul_mod_distr_l by (lia || (apply Z.pow_nonzero; lia)).
    rewrite Z.mul_comm. apply Z.mod_mul. lia. }
  split; [done|]. split; [done|]. rewrite (small_done c1 k1 k2 Hw1 ltac:(lia) ltac:(lia) Hz2).
  destruct (Z.eqb_spec r 1) as [->|Hr1].
  - split; [|done]. apply Z.eqb_eq. destruct (Z.eqb_spec c1 0) as [Ez|]; [rewrite Ez, rv_0; apply Z.mod_0_l; lia|].
    rewrite Hu1, <- HQ. apply Z.mod_mul. lia.
  - assert ((q2 + 1) * block k2 < (Q + 1) * block k1) as Hlt by nia.
    destruct (Z.eqb_spec c1 0); [lia|]. split; [|done]. apply Z.eqb_neq. rewrite Hu1. intros Em.
    apply Z.mod_divide in Em as [z Em]; [|lia]. assert (Q < z < Q + 1) by nia. lia.
Qed.
Lemma walk_table ex s A X l0 l1 n s' A' l0' l1' new (b : bool) : walk ex s A X l0 l1 n s' A' l0' l1' new -> old_or_new s b l0 l1 ->
  old_or_new s' b l0' l1' /\ t_cap (tab s' b) = t_cap (tab s b) /\ t_mask (tab s' b) = t_mask (tab s b).
Proof.
  intros [I1 (E0 & E1 & _ & E2 & E3) _ _] Ht. split; [|by destruct b]. unfold old_or_new in *. destruct b; [|apply I1].
  destruct (t_old _ _ _ _ _ (i_tabs _ _ _ _ _ _ _ I1)) as [[E _]|?]; [|done]. pose proof (tab_bounds _ _ _ _ Ht) as (Hb & _).
  cbn [tab] in *. rewrite E in E1. cbn [null_tab t_cap] in E1. lia.
Qed.
(** The homes of the larger table inside one home of the smaller. *)
Lemma scan_large_spec ex fuel s A X l0 l1 n (b : bool) k1 k2 Q c homes slots out r :
  inv s A X l0 l1 n -> old_or_new s b l0 l1 -> t_cap (tab s b) = 2 ^ k2 -> t_mask (tab s b) = 2 ^ k2 - 1 -> 6 <= k1 <= k2 -> k2 <= 31 ->
  word64 c -> (Q + 1) * block k1 = (rv c / block k2 + r) * block k2 -> Q * block k1 <= rv c -> 1 <= r <= Z.of_nat fuel ->
  (Q + 1) * block k1 <= 2 ^ 64 -> 0 <= homes -> homes + r < 4294967296 ->
  exists s' c' slots' new A' l0' l1', scan_large cfg false fuel s b (2 ^ k1 - 1) ex c homes slots out = Some (s', c', homes + r, slots', out ++ new) /\
    walk ex s A X l0 l1 n s' A' l0' l1' new /\ word64 c' /\ upper c' = (Q + 1) * block k1 /\
    covers ex A l0 l1 b (rv c) ((Q + 1) * block k1) new.
Proof.
  revert s A l0 l1 c homes slots out r. induction fuel as [|fuel IH]; intros s A l0 l1 c homes slots out r Hi Ht Hc Hm Hk Hk2 Hw HQ HQ0 Hr H64 Hh0 Hh; [lia|].
  cbn [scan_large]. rewrite Hm, u32_mask by lia.
  destruct (scan_home_cover ex s A X l0 l1 n b k2 c Hi Ht Hc ltac:(lia) Hw) as (s1 & cnt & new & A1 & m0 & m1 & -> & W1 & C1). rewrite some_bind.
  pose proof (in_block (rv c) k2 ltac:(lia)) as Hin. pose proof (block_pos k2 ltac:(lia)) as B2.
  destruct (large_next c k1 k2 Q r Hw Hk Hk2 HQ HQ0 ltac:(lia) H64 _ eq_refl) as (Hw1 & Hu1 & -> & Erv). rewrite (u32_small (homes + 1)) by lia.
  assert (covers ex A l0 l1 b (rv c) ((rv c / block k2 + 1) * block k2) new) as C1'.
  { intros k p o Hk' Ho Hv Hp. apply (C1 k p o); try done. lia. }
  destruct (Z.eqb_spec r 1) as [->|Hr1]; cbn [negb].
  - do 7 eexists. split; [done|]. split; [exact W1|]. split; [done|]. split; [congruence|]. by rewrite HQ.
  - destruct (walk_table _ _ _ _ _ _ _ _ _ _ _ _ b W1 Ht) as (Ht1 & Ec & Em). specialize (Erv Hr1).
    destruct (IH s1 A1 m0 m1 (scan_cursor_next c (2 ^ k2 - 1)) (homes + 1) (u64 (slots + cnt)) (out ++ new) (r - 1)) as (s2 & c2 & slots2 & new2 & A2 & j0 & j1 & E & W2 & Hw2 & Hu2 & C2).
    1: apply W1. 1: done. 1-5: congruence || done. 1: rewrite Erv, Z.div_mul by lia; lia. 1: lia. 1: lia. 1: done. 1: lia. 1: lia.
    rewrite E. exists s2, c2, slots2, (new ++ new2), A2, j0, j1. replace (homes + r) with (homes + 1 + (r - 1)) by lia. split; [by rewrite app_assoc|].
    split; [by eapply walk_trans|]. split; [done|]. split; [done|]. apply (covers_split _ _ _ _ _ _ ((rv c / block k2 + 1) * block k2)); [done|].
    rewrite <- Erv. eapply covers_later; [apply W1|done].
Qed.

Definition covers_all ex A (lo hi : Z) new : Prop :=
  forall k p o, a_live A !! k = Some (p, o) -> visible ex A o -> lo <= keypos k < hi -> p ∈ new.
Lemma covers_both ex s A X l0 l1 n lo hi new : inv s A X l0 l1 n -> covers ex A l0 l1 false lo hi new -> covers ex A l0 l1 true lo hi new ->
  covers_all ex A lo hi new.
Proof.
  intros Hi C0 C1 k p o Ho Hv Hp. pose proof (live_table _ _ _ _ _ _ _ k Hi) as E. rewrite Ho in E. cbn in E.
  destruct (slots_map l0 !! k) as [q|] eqn:E0; [injection E as ->; by apply (C0 k q o)|]. symmetry in E. by apply (C1 k p o).
Qed.
Lemma table_pow2 s l0 l1 (b : bool) : old_or_new s b l0 l1 -> exists k, 6 <= k <= 31 /\ t_cap (tab s b) = 2 ^ k /\ t_mask (tab s b) = 2 ^ k - 1.
Proof. intros ((k & Hk & E) & _ & Em & _). exists k. rewrite <- E. done. Qed.
(** How many blocks of the larger table are left in the home of the smaller. *)
Lemma blocks_left x k1 k2 : 0 <= x -> 0 <= k1 <= k2 -> k2 <= 64 ->
  exists r, (x / block k1 + 1) * block k1 = (x / block k2 + r) * block k2 /\ 1 <= r <= 2 ^ (k2 - k1).
Proof.
  intros Hx Hk Hk2. pose proof (in_block x k1 ltac:(lia)) as H1. pose proof (in_block x k2 ltac:(lia)) as H2.
  pose proof (block_pos k2 ltac:(lia)) as B2. assert (block k1 = 2 ^ (k2 - k1) * block k2) as Eb
    by (unfold block; rewrite <- Z.pow_add_r by lia; f_equal; lia).
  pose proof (Z.pow_pos_nonneg 2 (k2 - k1) ltac:(lia) ltac:(lia)) as Hd. set (d := 2 ^ (k2 - k1)) in *. clearbody d.
  set (q1 := x / block k1) in *. set (q2 := x / block k2) in *. clearbody q1 q2. rewrite Eb in *. set (b2 := block k2) in *. clearbody b2.
  exists ((q1 + 1) * d - q2). assert (q2 < (q1 + 1) * d) by nia. assert (q1 * d <= q2) by nia. split_and!; nia.
Qed.
Lemma scan_turn_spec ex s A X l0 l1 n c homes slots out :
  inv s A X l0 l1 n -> word64 c -> 0 <= homes < 2147483648 ->
  exists s' c' homes' slots' new A' l0' l1', scan_turn cfg false s c homes slots ex out = Some (s', c', homes', slots', out ++ new) /\
    walk ex s A X l0 l1 n s' A' l0' l1' new /\ word64 c' /\ rv c < upper c' /\ covers_all ex A (rv c) (upper c') new /\
    homes < homes' < 4294967296.
Proof.
  intros Hi Hw Hh. unfold scan_turn.
  assert (old_or_new s false l0 l1) as T0 by apply Hi. destruct (table_pow2 _ _ _ false T0) as (k & Hk & Ec & Em). cbn [tab] in Ec, Em.
  destruct (rehashing s) eqn:Er; cbn [negb].
  2:{ destruct (idle_old _ _ _ _ _ _ _ Hi Er) as [_ E1]. rewrite Em, mask_u32 by lia.
      destruct (scan_home_cover ex s A X l0 l1 n false k c Hi T0 Ec Hk Hw) as (s1 & cnt & new & A1 & m0 & m1 & -> & W & C). rewrite some_bind.
      destruct (walk_table _ _ _ _ _ _ _ _ _ _ _ _ false W T0) as (_ & _ & Em1). cbn [tab] in Em1. rewrite Em1, Em.
      destruct (next_bound c k Hw ltac:(lia)) as (Hw1 & Hu1 & Hlt1). pose proof (in_block (rv c) k ltac:(lia)) as Hin.
      do 8 eexists. split; [done|]. split; [exact W|]. split; [done|]. rewrite Hu1. split; [lia|]. split; [|rewrite u32_small; lia].
      eapply covers_both; [exact Hi| |].
      - intros key p o Hkey Ho Hv Hp. apply (C key p o); try done. lia.
      - rewrite E1. intros key p o Hkey. done. }
  assert (old_or_new s true l0 l1) as T1 by (by eapply rehashing_old). destruct (table_pow2 _ _ _ true T1) as (j & Hj & Fc & Fm). cbn [tab] in Fc, Fm.
  destruct (next_bound c k Hw ltac:(lia)) as (Hw1 & Hu1 & Hlt1). pose proof (in_block (rv c) k ltac:(lia)) as Hin.
  rewrite Em, Fm. destruct (Z.eqb_spec (2 ^ k - 1) (2 ^ j - 1)) as [Ekj|Ekj].
  - assert (j = k) as -> by (apply (Z.pow_inj_r 2); lia). rewrite mask_u32 by lia.
    destruct (scan_home_cover ex s A X l0 l1 n false k c Hi T0 Ec Hk Hw) as (s1 & cnt & new & A1 & m0 & m1 & -> & W & C). rewrite some_bind.
    destruct (walk_table _ _ _ _ _ _ _ _ _ _ _ _ true W T1) as (T1' & Fc1 & _). cbn [tab] in Fc1.
    destruct (walk_table _ _ _ _ _ _ _ _ _ _ _ _ false W T0) as (T0' & _ & _).
    destruct (scan_home_cover ex s1 A1 X m0 m1 n true k c (w_inv _ _ _ _ _ _ _ _ _ _ _ _ W) T1' ltac:(cbn [tab]; congruence) Hk Hw) as (s2 & cnt2 & new2 & A2 & i0 & i1 & -> & W2 & C2).
    rewrite some_bind. pose proof (walk_trans _ _ _ _ _ _ _ _ _ _ _ _ _ _ _ _ _ W W2) as W12.
    destruct (walk_table _ _ _ _ _ _ _ _ _ _ _ _ false W12 T0) as (_ & _ & Em2). cbn [tab] in Em2. rewrite Em2, Em.
    do 8 eexists. split; [done|]. split; [exact W12|]. split; [done|]. rewrite Hu1. split; [lia|]. split; [|rewrite u32_small; lia].
    eapply covers_both; [exact Hi| |].
    + intros key p o Hkey Ho Hv Hp. apply elem_of_app. left. apply (C key p o); try done. lia.
    + intros key p o Hkey Ho Hv Hp. apply elem_of_app. right.
      apply (covers_later _ _ _ _ _ _ _ _ _ _ _ (w_kept _ _ _ _ _ _ _ _ _ _ _ _ W) C2 key p o); try done. lia.
  - set (small := negb (t_cap (s_t0 s) <? t_cap (s_t1 s))).
    assert (exists k1 k2, 6 <= k1 <= k2 /\ k2 <= 31 /\ t_cap (tab s small) = 2 ^ k1 /\ t_mask (tab s small) = 2 ^ k1 - 1 /\
      t_cap (tab s (negb small)) = 2 ^ k2 /\ t_mask (tab s (negb small)) = 2 ^ k2 - 1) as (k1 & k2 & Hk1 & Hk2 & S1 & S2 & L1 & L2).
    { unfold small. rewrite Ec, Fc. destruct (Z.ltb_spec (2 ^ k) (2 ^ j)) as [Hlt|Hge]; cbn [negb tab].
      - exists k, j. apply Z.pow_lt_mono_r_iff in Hlt; [|lia..]. split_and!; done || lia.
      - exists j, k. apply Z.pow_le_mono_r_iff in Hge; [|lia..]. split_and!; done || lia. }
    assert (forall b, old_or_new s b l0 l1) as TT by (intros []; done). clearbody small. rewrite S2, u32_mask by lia.
    destruct (scan_home_cover ex s A X l0 l1 n small k1 c Hi (TT small) S1 ltac:(lia) Hw) as (s1 & cnt & new & A1 & m0 & m1 & -> & W & C). rewrite some_bind.
    destruct (walk_table _ _ _ _ _ _ _ _ _ _ _ _ (negb small) W (TT _)) as (Tl & El & Eml). rewrite El, L1.
    pose proof (rv_range c Hw) as Hrv. destruct (blocks_left (rv c) k1 k2 ltac:(lia) ltac:(lia) ltac:(lia)) as (r & HQ & Hr).
    assert (2 ^ (k2 - k1) <= 33554432) as H25 by (change 33554432 with (2 ^ 25); apply Z.pow_le_mono_r; lia).
    pose proof (Z.pow_le_mono_r 2 (k2 - k1) k2 ltac:(lia) ltac:(lia)) as Hfuel.
    pose proof (in_block (rv c) k1 ltac:(lia)) as Hin1. destruct (next_bound c k1 Hw ltac:(lia)) as (_ & _ & Hle1). rewrite (u32_small (homes + 1)) by lia.
    destruct (scan_large_spec ex (Z.to_nat (2 ^ k2)) s1 A1 X m0 m1 n (negb small) k1 k2 (rv c / block k1) c (homes + 1) (u64 (slots + cnt)) (out ++ new) r)
      as (s2 & c2 & slots2 & new2 & A2 & i0 & i1 & E & W2 & Hw2 & Hu2 & C2).
    1: apply W. 1: done. 1: congruence. 1: congruence. 1,2,3,4: done || lia. 1: lia. 1: lia. 1: lia. 1: lia. 1: lia.
    rewrite E. exists s2, c2, (homes + 1 + r), slots2, (new ++ new2), A2, i0, i1. split; [by rewrite app_assoc|]. split; [by eapply walk_trans|].
    split; [done|]. rewrite Hu2. split; [lia|]. split; [|lia].
    assert (covers ex A l0 l1 small (rv c) ((rv c / block k1 + 1) * block k1) (new ++ new2)) as Csm.
    { intros key p o Hkey Ho Hv Hp. apply elem_of_app. left. apply (C key p o); try done. lia. }
    assert (covers ex A l0 l1 (negb small) (rv c) ((rv c / block k1 + 1) * block k1) (new ++ new2)) as Clg.
    { intros key p o Hkey Ho Hv Hp. apply elem_of_app. right.
      by apply (covers_later _ _ _ _ _ _ _ _ _ _ _ (w_kept _ _ _ _ _ _ _ _ _ _ _ _ W) C2 key p o). }
    eapply covers_both; [exact Hi| |]; by destruct small.
Qed.
(** A call of [scan] shows every visible key between its cursor and the next. *)
Lemma scan_loop_spec ex fuel s A X l0 l1 n c count homes slots out :
  inv s A X l0 l1 n -> word64 c -> 0 <= homes -> 0 <= count <= 2147483648 -> homes < 2147483648 -> 1 <= Z.of_nat fuel -> count - homes < Z.of_nat fuel ->
  exists s' c' new A' l0' l1', scan_loop cfg false fuel s c count homes slots ex out = Some (s', c', out ++ new) /\
    walk ex s A X l0 l1 n s' A' l0' l1' new /\ word64 c' /\ rv c < upper c' /\ covers_all ex A (rv c) (upper c') new.
Proof.
  revert s A l0 l1 c homes slots out. induction fuel as [|fuel IH]; intros s A l0 l1 c homes slots out Hi Hw H0 Hc Hh Hf1 Hf; [lia|]. cbn [scan_loop].
  destruct (scan_turn_spec ex s A X l0 l1 n c homes slots out Hi Hw ltac:(lia)) as (s1 & c1 & h1 & sl1 & new & A1 & m0 & m1 & -> & W & Hw1 & Hlt & C & Hh1).
  rewrite some_bind. destruct (negb (c1 =? 0) && (h1 <? count) && (sl1 <? count * 10)) eqn:Eb; [|by exists s1, c1, new, A1, m0, m1].
  apply andb_prop in Eb as [[Enz Ehc]%andb_prop _]. zcmp.
  destruct (IH s1 A1 m0 m1 c1 h1 sl1 (out ++ new)) as (s2 & c2 & new2 & A2 & i0 & i1 & -> & W2 & Hw2 & Hlt2 & C2); [apply W|done|lia..|].
  assert (upper c1 = rv c1) as Eu by (unfold upper; by rewrite (proj2 (Z.eqb_neq c1 0))).
  exists s2, c2, (new ++ new2), A2, i0, i1. split; [by rewrite app_assoc|]. split; [by eapply walk_trans|]. split; [done|]. split; [lia|].
  intros k p o Ho Hv Hp. apply elem_of_app. destruct (decide (keypos k < upper c1)); [left; apply (C k p o); done || lia|right].
  destruct W as [I1 _ [R1 T1] _]. pose proof (live_table _ _ _ _ _ _ _ k Hi) as E. rewrite Ho in E. cbn in E.
  assert (a_live A1 !! k = Some (p, o)) as Ho1.
  { destruct (slots_map l0 !! k) as [q|] eqn:E0; [injection E as ->; by apply (T1 false k q o)|]. symmetry in E. by apply (T1 true k p o). }
  apply (C2 k p o); [done| |lia]. by apply (visible_reap ex A A1 o R1).
Qed.
Lemma store_scan_spec ex s A X l0 l1 n c count : inv s A X l0 l1 n -> word64 c -> 0 <= count <= 2147483648 ->
  exists s' c' new A' l0' l1', scan cfg false s c count ex = Some (s', c', new) /\ walk ex s A X l0 l1 n s' A' l0' l1' new /\ word64 c' /\
    rv c < upper c' /\ covers_all ex A (rv c) (upper c') new.
Proof.
  intros Hi Hw Hc. unfold scan. pose proof (tab_bounds _ _ _ _ (t_new _ _ _ _ _ (i_tabs _ _ _ _ _ _ _ Hi))) as (Hb & _).
  rewrite (proj2 (Z.eqb_neq (t_cap (s_t0 s)) 0)) by lia.
  destruct (scan_loop_spec ex (S (Z.to_nat count)) s A X l0 l1 n c count 0 0 []) as (s' & c' & new & A' & l0' & l1' & E & Hrest); [done|done|lia..|].
  by exists s', c', new, A', l0', l1'.
Qed.
End Scan.

(** * Sessions *)
(** A session: before each call the store goes through any history. *)
Fixpoint session (cfg : HashCfg) (calls : list (list StoreOp * Z)) (s : Store) (c : Z) : option (list (Store * list Z) * Z) :=
  match calls with
  | [] => Some ([], c)
  | (ops, count) :: calls =>
      '(s, _) ← run_ops cfg ops s;
      '(s', c, out) ← scan cfg false s c count true;
      '(tr, c) ← session cfg calls s' c;
      Some ((s, out) :: tr, c)
  end.
Fixpoint calls_ok (cfg : HashCfg) (calls : list (list StoreOp * Z)) (s : Store) (c : Z) : Prop :=
  match calls with
  | [] => True
  | (ops, count) :: calls => ops_ok cfg ops s /\ 0 <= count <= 2147483648 /\
      forall s1 rs s2 c2 out, run_ops cfg ops s = Some (s1, rs) -> scan cfg false s1 c count true = Some (s2, c2, out) ->
        calls_ok cfg calls s2 c2
  end.
(** The key is in the store, unexpired, as the object at [p]. *)
Definition present (cfg : HashCfg) (s : Store) (key : bytes) (p : Z) : Prop :=
  find_resident s (khash cfg key) key = Some (Some p) /\ exists o, s_heap s !! p = Some o /\ elapsed (s_now s) o = false.

Lemma present_live cfg s A l0 l1 n key p : cfg_ok cfg -> inv cfg s A ∅ l0 l1 n -> Forall is_byte key ->
  present cfg s key p <-> exists o, a_live A !! key = Some (p, o) /\ visible true A o.
Proof.
  intros Hc Hi Hb. destruct (hash_key_total cfg key Hc Hb) as (h & Eh & _). assert (khash cfg key = h) as Ek by (unfold khash; by rewrite Eh).
  unfold present. rewrite (find_resident_spec cfg s A ∅ l0 l1 n key (khash cfg key)); [|done|rewrite Ek; by split]. rewrite (i_now _ _ _ _ _ _ _ Hi). split.
  - intros [E (o & Ho & He)]. destruct (a_live A !! key) as [[q o']|] eqn:El; [|done]. injection E as ->. exists o'. split; [done|]. right.
    rewrite (live_heap _ _ _ _ _ _ _ _ _ (i_mem _ _ _ _ _ _ _ Hi) El) in Ho. injection Ho as <-. done.
  - intros (o & Ho & [?|He]); [done|]. rewrite Ho. split; [done|]. exists o. split; [|done].
    by apply (live_heap _ _ _ _ _ _ _ _ _ (i_mem _ _ _ _ _ _ _ Hi) Ho).
Qed.
Lemma live_bytes_key cfg s A X l0 l1 n key p o : inv cfg s A X l0 l1 n -> a_live A !! key = Some (p, o) -> Forall is_byte key.
Proof.
  intros Hi Ho. pose proof (live_table _ _ _ _ _ _ _ key Hi) as E. rewrite Ho in E. cbn in E.
  destruct (i_tabs _ _ _ _ _ _ _ Hi) as [T0 T1 _ _].
  assert (forall H t l, tab_rep cfg H t l -> slots_map l !! key = Some p -> Forall is_byte key) as Hk.
  { intros H t l (_ & _ & _ & Hw & [Hu _] & _) Hm. apply slots_map_spec in Hm as [i Hm]; [|done].
    by destruct (Forall2_lookup_r _ _ _ _ _ Hw Hm) as (w & _ & o' & _ & _ & Hb & _). }
  destruct (slots_map l0 !! key) eqn:E0; [injection E as ->; by eapply Hk|]. symmetry in E. destruct T1 as [[_ ->]|T1]; [done|by eapply Hk].
Qed.
Lemma session_spec cfg calls s A c : cfg_ok cfg -> rep cfg s A -> word64 c -> calls_ok cfg calls s c ->
  exists tr c', session cfg calls s c = Some (tr, c') /\
    (forall s' out q, (s', out) ∈ tr -> q ∈ out -> exists key, Forall is_byte key /\ present cfg s' key q) /\
    forall key, Forall is_byte key -> calls <> [] -> c' = 0 -> rv c <= keypos cfg key ->
      (forall s' out, (s', out) ∈ tr -> exists p, present cfg s' key p) ->
      exists s' out p, (s', out) ∈ tr /\ present cfg s' key p /\ p ∈ out.
Proof.
  intros Hc. revert s A c. induction calls as [|[ops count] calls IH]; intros s A c Hrep Hw Hok; cbn [session calls_ok] in *.
  { exists [], c. split; [done|]. split; [intros ? ? ? Hin; inversion Hin|]. done. }
  destruct Hok as (Hops & Hcount & Hrest). destruct (run_spec cfg Hc ops s A Hrep Hops) as (s1 & rs & A1 & E1 & _ & l0 & l1 & Hi1).
  rewrite E1, some_bind.
  destruct (store_scan_spec cfg Hc true s1 A1 ∅ l0 l1 0 c count Hi1 Hw Hcount) as (s2 & c2 & out & A2 & m0 & m1 & E2 & W & Hw2 & Hlt & C). rewrite E2, some_bind.
  assert (rep cfg s2 A2) as Hrep2 by (exists m0, m1; apply W).
  destruct (IH s2 A2 c2 Hrep2 Hw2 (Hrest _ _ _ _ _ E1 E2)) as (tr & c' & E3 & Hsound & Hcomp). rewrite E3, some_bind.
  exists ((s1, out) :: tr), c'. split; [done|]. split.
  - intros s' out' q [[= -> ->]|Hin]%elem_of_cons Hq; [|by eapply Hsound].
    destruct (w_sound _ _ _ _ _ _ _ _ _ _ _ _ _ W q Hq) as (key & o & Ho & Hv). pose proof (live_bytes_key _ _ _ _ _ _ _ _ _ _ Hi1 Ho) as Hb.
    exists key. split; [done|]. apply (present_live cfg s1 A1 l0 l1 0); try done. by exists o.
  - intros key Hb _ E0 Hp Hpres. destruct (Hpres s1 out) as [p Hpr]; [by left|].
    destruct (proj1 (present_live cfg s1 A1 l0 l1 0 key p Hc Hi1 Hb) Hpr) as (o & Ho & Hv).
    destruct (decide (keypos cfg key < upper c2)) as [Hin|Hout].
    { exists s1, out, p. split; [by left|]. split; [done|]. by apply (C key p o). }
    assert (word64 (keypos cfg key)) as Hkw.
    { apply rev_word, word64_mix64. destruct (hash_key_total cfg key Hc Hb) as (h & Eh & Hh). unfold khash. by rewrite Eh. }
    unfold upper in Hout, Hlt. destruct (Z.eqb_spec c2 0) as [->|Hnz]; [unfold word64 in Hkw; change (2 ^ 64) with 18446744073709551616 in Hout; lia|].
    assert (calls <> []) as Hne.
    { intros ->. cbn in E3. congruence. }
    destruct (Hcomp key Hb Hne E0 ltac:(lia)) as (s' & out' & q & Hin & Hq).
    { intros s' out' Hin. apply (Hpres s' out'). by right. }
    exists s', out', q. split; [by right|done].
Qed.

(** C5: A SCAN session misses no key.  Whatever the store goes through between the calls (insertions,
    erasures, expiries, growth, shrinking, a move of the tables half done), when the cursor comes back
    to 0 every key that was present at each call has been shown by one of them, as the object it had
    then; and a call shows only keys that are present and not elapsed. *)
Theorem scan_guarantee cfg cap calls s0 :
  cfg_ok cfg -> store_new true cap = Some s0 -> calls <> [] -> calls_ok cfg calls s0 0 ->
  exists tr c, session cfg calls s0 0 = Some (tr, c) /\
    (forall s out q, (s, out) ∈ tr -> q ∈ out -> exists key, Forall is_byte key /\ present cfg s key q) /\
    (c = 0 -> forall key, Forall is_byte key -> (forall s out, (s, out) ∈ tr -> exists p, present cfg s key p) ->
       exists s out p, (s, out) ∈ tr /\ present cfg s key p /\ p ∈ out).
Proof.
  intros Hc Hn Hne Hok. destruct (session_spec cfg calls s0 (abs_new 0) 0 Hc (store_new_rep cfg true cap s0 Hn) ltac:(by unfold word64) Hok)
    as (tr & c & E & Hs & Hcm). exists tr, c. split; [done|]. split; [done|]. intros E0 key Hb Hp. apply (Hcm key); try done.
  rewrite rv_0. destruct (hash_key_total cfg key Hc Hb) as (h & Eh & Hh).
  apply (rev_word (mix64 (khash cfg key))), word64_mix64. unfold khash. by rewrite Eh.
Qed.
Fixpoint calls_okb (cfg : HashCfg) (calls : list (list StoreOp * Z)) (s : Store) (c : Z) : bool :=
  match calls with
  | [] => true
  | (ops, count) :: calls => ops_okb cfg ops s && (0 <=? count) && (count <=? 2147483648) &&
      match run_ops cfg ops s with
      | Some (s1, _) => match scan cfg false s1 c count true with Some (s2, c2, _) => calls_okb cfg calls s2 c2 | None => true end
      | None => true
      end
  end.
Lemma calls_okb_sound cfg calls s c : calls_okb cfg calls s c = true -> calls_ok cfg calls s c.
Proof.
  revert s c. induction calls as [|[ops count] calls IH]; intros s c Hb; cbn [calls_okb calls_ok] in *; [done|].
  apply andb_prop in Hb as [[[H1 H2]%andb_prop H3]%andb_prop H4]. zcmp. split; [by apply ops_okb_sound|]. split; [done|].
  intros s1 rs s2 c2 out E1 E2. rewrite E1, E2 in H4. by apply IH.
Qed.
(** Forty keys; ten more, an erasure and a deadline while the walk is under way, so that the table
    doubles in the middle of it; then calls until the cursor is back at 0. *)
Definition demo_calls : list (list StoreOp * Z) :=
  [(demo_insert <$> seq 0 40, 8); ([], 8); (demo_insert <$> seq 40 6, 8); (demo_insert <$> seq 46 2, 8);
   ([OpErase true (demo_key 3); OpNow 1001], 8)] ++ replicate 6 ([], 10) ++ [([], 200)].
Definition demo_session : option (list (Store * list Z) * Z) :=
  match demo_store with Some s => if calls_okb demo_cfg demo_calls s 0 then session demo_cfg demo_calls s 0 else None | None => None end.
Lemma demo_session_ok : exists s0 tr, demo_store = Some s0 /\ calls_ok demo_cfg demo_calls s0 0 /\ session demo_cfg demo_calls s0 0 = Some (tr, 0).
Proof.
  assert (match demo_session with Some (_, c) => c =? 0 | None => false end = true) as E by (by vm_compute). unfold demo_session in E.
  destruct demo_store as [s0|]; [|done]. destruct (calls_okb demo_cfg demo_calls s0 0) eqn:Eok; [|done].
  destruct (session demo_cfg demo_calls s0 0) as [[tr c]|] eqn:Es; [|done]. zcmp. subst c. exists s0, tr.
  split; [done|]. split; [by apply calls_okb_sound|done].
Qed.
Lemma scan_guarantee_witness : exists s0 tr, demo_store = Some s0 /\ session demo_cfg demo_calls s0 0 = Some (tr, 0) /\
  forall key, Forall is_byte key -> (forall s out, (s, out) ∈ tr -> exists p, present demo_cfg s key p) ->
    exists s out p, (s, out) ∈ tr /\ present demo_cfg s key p /\ p ∈ out.
Proof.
  destruct demo_session_ok as (s0 & tr & E0 & Hok & Es). exists s0, tr. split; [exact E0|]. split; [exact Es|].
  destruct (scan_guarantee demo_cfg 64 demo_calls s0 demo_cfg_ok E0 ltac:(discriminate) Hok) as (tr' & c & E & _ & Hc).
  rewrite Es in E. injection E as <- <-. exact (Hc eq_refl).
Defined.
