(* ===== verification/ForeignRead.v ===== *)
(** store/foreign_read_safety.h: the filter that tells foreign readers which keys the owner is
    changing, so that a local read of such a key goes to the owner.

    The owner is the only writer; readers load one cell (and one epoch) at any moment.  An owner
    operation is therefore a program that yields the list of states after each of its stores to
    the shared words: a reader may see any of them.  [None] is [abort]. *)
From S2P Require Import Prelude.

Definition kCellCount : Z := 4096.
Definition kCellMask : Z := kCellCount - 1.
Definition kCountBits : Z := 31.
Definition kFingerprintBits : Z := 32.
Definition kCountMask : Z := Z.shiftl 1 kCountBits - 1.
Definition kFingerprintMask : Z := Z.shiftl (Z.shiftl 1 kFingerprintBits - 1) kCountBits.
Definition kWildcardBit : Z := Z.shiftl 1 63.

Definition mixed_hash (h : Z) : Z :=
  let h := Z.lxor h (Z.shiftr h 33) in
  let h := u64 (h * 18397679294719823053) in
  let h := Z.lxor h (Z.shiftr h 33) in
  let h := u64 (h * 14181476777654086739) in
  Z.lxor h (Z.shiftr h 33).
Definition cell_index (h : Z) : Z := Z.land (u32 (mixed_hash h)) kCellMask.
Definition fingerprint (h : Z) : Z :=
  let r := u32 (Z.shiftr (mixed_hash h) 12) in if r =? 0 then 1 else r.

Definition cell_count (cell : Z) : Z := Z.land cell kCountMask.
Definition cell_fingerprint (cell : Z) : Z := u32 (Z.shiftr (Z.land cell kFingerprintMask) kCountBits).
Definition is_wildcard (cell : Z) : bool := negb (Z.land cell kWildcardBit =? 0).
Definition pack (count fp : Z) (wildcard : bool) : Z :=
  Z.lor (Z.lor count (Z.shiftl fp kCountBits)) (if wildcard then kWildcardBit else 0).

Record Filter := mkFilter {
  cells : list Z; epochs : list Z; unsafe_total_refs : Z; saturated_cells : Z; poison_refs : Z }.
Definition cell (f : Filter) (i : Z) : Z := cells f !!! Z.to_nat i.
Definition safety_new : Filter :=
  mkFilter (replicate (Z.to_nat kCellCount) 0) (replicate (Z.to_nat kCellCount) 0) 0 0 0.

(** The reader's side. *)
Definition might_contain (f : Filter) (h : Z) : bool :=
  let c := cell f (cell_index h) in
  if c =? 0 then false else is_wildcard c || (cell_fingerprint c =? fingerprint h).
Definition cell_epoch (f : Filter) (h : Z) : Z := epochs f !!! Z.to_nat (cell_index h).

(** * Programs of stores *)
Definition Prog := Filter -> option (list Filter).
Definition stop (f : Filter) (t : list Filter) : Filter := default f (last t).
Definition done_ : Prog := fun _ => Some [].
Definition abort_ : Prog := fun _ => None.
Definition store (g : Filter -> Filter) : Prog := fun f => Some [g f].
Definition seq_ (p q : Prog) : Prog := fun f => t1 ← p f; t2 ← q (stop f t1); Some (t1 ++ t2).
Definition look (k : Filter -> Prog) : Prog := fun f => k f f.
Notation "p ;; q" := (seq_ p q) (at level 100, right associativity).
Definition each {A} (l : list A) (p : A -> Prog) : Prog := foldr (fun x q => p x ;; q) done_ l.
Definition indices : list Z := Z.of_nat <$> seq 0 (Z.to_nat kCellCount).

Definition set_cell (i v : Z) : Prog :=
  store (fun f => mkFilter (<[Z.to_nat i := v]> (cells f)) (epochs f) (unsafe_total_refs f) (saturated_cells f) (poison_refs f)).
Definition set_total (v : Z) : Prog :=
  store (fun f => mkFilter (cells f) (epochs f) v (saturated_cells f) (poison_refs f)).
Definition set_saturated (v : Z) : Prog :=
  store (fun f => mkFilter (cells f) (epochs f) (unsafe_total_refs f) v (poison_refs f)).
Definition set_poison (v : Z) : Prog :=
  store (fun f => mkFilter (cells f) (epochs f) (unsafe_total_refs f) (saturated_cells f) v).
Definition touch_epoch (i : Z) : Prog :=
  store (fun f => mkFilter (cells f) (<[Z.to_nat i := u32 (epochs f !!! Z.to_nat i + 1)]> (epochs f)) (unsafe_total_refs f) (saturated_cells f) (poison_refs f)).
Definition touch_all_epochs : Prog := each indices touch_epoch.

Definition store_add_cell (i fp : Z) (force_wildcard : bool) : Prog :=
  look (fun f =>
    let old := cell f i in
    if old =? 0 then set_cell i (pack 1 fp force_wildcard)
    else
      let count := cell_count old in
      if count =? kCountMask then done_
      else
        let next := count + 1 in
        let wildcard := force_wildcard || is_wildcard old || negb (cell_fingerprint old =? fp) in
        if next =? kCountMask then
          set_cell i (pack kCountMask (cell_fingerprint old) true) ;; look (fun f => set_saturated (u64 (saturated_cells f + 1)))
        else set_cell i (pack next (cell_fingerprint old) wildcard)).
Definition add_cell (i fp : Z) (force_wildcard : bool) : Prog := store_add_cell i fp force_wildcard ;; touch_epoch i.
Definition add_hash (h : Z) : Prog := add_cell (cell_index h) (fingerprint h) false.
Definition store_close_cell (i : Z) : Prog :=
  look (fun f =>
    let old := cell f i in
    let count := cell_count old in
    if count =? 0 then abort_
    else if count =? kCountMask then done_
    else if count =? 1 then set_cell i 0
    else set_cell i (pack (count - 1) (cell_fingerprint old) (is_wildcard old))).
Definition close_cell (i : Z) : Prog := store_close_cell i ;; touch_epoch i.
Definition close_hash (h : Z) : Prog := close_cell (cell_index h).

Definition rebuild_saturated_if_drained (unsafe_refs : Z) : Prog :=
  look (fun f =>
    if negb (unsafe_refs =? 0) || negb (poison_refs f =? 0) || (saturated_cells f =? 0) then done_
    else each indices (fun i => set_cell i 0) ;; touch_all_epochs ;; set_saturated 0).
Definition poison_permanently : Prog :=
  set_poison UINT64_MAX ;; set_total UINT64_MAX ;;
  each indices (fun i => set_cell i (pack kCountMask 1 true)) ;; touch_all_epochs ;; set_saturated kCellCount.

(** [hs]: the hashes of the span, at most 2^32 - 1. *)
Definition add_span (hs : list Z) : Prog :=
  let count := Z.of_nat (length hs) in
  look (fun f =>
    if count =? 0 then done_
    else
      let total := unsafe_total_refs f in
      if (total =? UINT64_MAX) || (UINT64_MAX - total <? count) then poison_permanently
      else set_total (total + count) ;; each hs add_hash).
Definition close_span (hs : list Z) : Prog :=
  let count := Z.of_nat (length hs) in
  look (fun f =>
    if count =? 0 then done_
    else if poison_refs f =? UINT64_MAX then done_
    else
      each hs close_hash ;;
      look (fun f =>
        let total := unsafe_total_refs f in
        if total <? count then abort_
        else let remaining := total - count in set_total remaining ;; rebuild_saturated_if_drained remaining)).
Definition poison_open : Prog :=
  look (fun f =>
    let refs := poison_refs f in
    if refs =? UINT64_MAX then done_
    else if negb (refs =? 0) then
      if refs =? UINT64_MAX - 1 then poison_permanently else set_poison (refs + 1)
    else set_poison 1 ;; each indices (fun i => add_cell i 1 true)).
Definition poison_close : Prog :=
  look (fun f =>
    let refs := poison_refs f in
    if refs =? 0 then abort_
    else if refs =? UINT64_MAX then done_
    else if 1 <? refs then set_poison (refs - 1)
    else
      each indices close_cell ;; set_poison 0 ;;
      look (fun f => rebuild_saturated_if_drained (unsafe_total_refs f))).
Definition fail_closed_permanently : Prog := poison_permanently.
Definition permanently_poisoned (f : Filter) : bool := poison_refs f =? UINT64_MAX.
Definition occupied_cells (f : Filter) : Z := foldr (fun c n => (if c =? 0 then 0 else 1) + n) 0 (cells f).
Definition wildcard_cells (f : Filter) : Z := foldr (fun c n => (if is_wildcard c then 1 else 0) + n) 0 (cells f).

(** * The packed cell *)
Lemma kCountMask_val : kCountMask = 2147483647.
Proof. reflexivity. Qed.
Section Pack.
Context (n fp : Z) (w : bool) (Hn : 0 <= n <= kCountMask) (Hfp : 0 <= fp < 2 ^ 32).
Let b2 : Z := if w then 1 else 0.
Lemma pack_add : pack n fp w = n + 2 ^ 31 * (fp + 2 ^ 32 * b2).
Proof.
  unfold pack, kCountBits. change kCountMask with (2 ^ 31 - 1) in Hn. rewrite (lor_shiftl_add n fp 31) by lia.
  replace (if w then kWildcardBit else 0) with (Z.shiftl b2 63) by (unfold b2, kWildcardBit; by destruct w).
  rewrite lor_shiftl_add by lia. lia.
Qed.
Lemma pack_count : cell_count (pack n fp w) = n.
Proof.
  unfold cell_count. change kCountMask with (2 ^ 31 - 1) in *. rewrite land_ones_mod, pack_add by lia.
  rewrite Z.mul_comm, Z_mod_plus_full. apply Z.mod_small. lia.
Qed.
Lemma pack_fingerprint : cell_fingerprint (pack n fp w) = fp.
Proof.
  unfold cell_fingerprint, kFingerprintMask, kCountBits, kFingerprintBits. rewrite Z.shiftr_land.
  replace (Z.shiftr (Z.shiftl (Z.shiftl 1 32 - 1) 31) 31) with (2 ^ 32 - 1) by reflexivity. rewrite land_ones_mod by lia.
  change kCountMask with (2 ^ 31 - 1) in Hn. rewrite Z.shiftr_div_pow2, pack_add by lia. rewrite (Z.mul_comm (2 ^ 31)), Z.div_add by lia. rewrite Z.div_small by lia.
  rewrite Z.add_0_l, (Z.mul_comm (2 ^ 32)), Z_mod_plus_full, Z.mod_small by lia. unfold u32. apply Z.mod_small. lia.
Qed.
Lemma pack_wildcard : is_wildcard (pack n fp w) = w.
Proof.
  unfold is_wildcard. assert (Z.testbit (pack n fp w) 63 = w) as Hb.
  { rewrite pack_add. change kCountMask with (2 ^ 31 - 1) in Hn. rewrite Z.testbit_odd, Z.shiftr_div_pow2 by lia.
    replace (n + 2 ^ 31 * (fp + 2 ^ 32 * b2)) with ((n + 2 ^ 31 * fp) + b2 * 2 ^ 63) by lia.
    rewrite Z.div_add, Z.div_small by lia. unfold b2. by destruct w. }
  change kWildcardBit with (2 ^ 63). destruct (Z.eqb_spec (Z.land (pack n fp w) (2 ^ 63)) 0) as [E|Hne]; cbn.
  - apply (f_equal (fun x => Z.testbit x 63)) in E. rewrite Z.land_spec, Hb, Z.pow2_bits_true, andb_true_r, Z.bits_0 in E by lia. done.
  - destruct w; [done|]. exfalso. apply Hne. apply Z.bits_inj'. intros i Hi. rewrite Z.land_spec, Z.bits_0, Z.pow2_bits_eqb by lia.
    destruct (Z.eqb_spec 63 i) as [<-|]; [by rewrite Hb|apply andb_false_r].
Qed.
Lemma pack_nonzero : 0 < n -> pack n fp w <> 0.
Proof. intros H. rewrite pack_add. unfold b2. destruct w; lia. Qed.
End Pack.
Lemma cell_index_bound h : 0 <= cell_index h < kCellCount.
Proof. unfold cell_index. change kCellMask with (2 ^ 12 - 1). rewrite land_ones_mod by lia. by apply (Z.mod_pos_bound _ (2 ^ 12)). Qed.
Lemma fingerprint_bound h : 0 < fingerprint h < 2 ^ 32.
Proof.
  unfold fingerprint. set (r := Z.shiftr _ _). pose proof (Z.mod_pos_bound r 4294967296 ltac:(lia)) as H. fold (u32 r) in H.
  destruct (Z.eqb_spec (u32 r) 0); lia.
Qed.

(** * Runs of stores *)
(** From [f], [p] does not abort, passes only through states of [I], and stops in one of [Q]. *)
Definition triple (f : Filter) (p : Prog) (I Q : Filter -> Prop) : Prop := exists t, p f = Some t /\ Forall I t /\ Q (stop f t).
Lemma triple_done f (I Q : Filter -> Prop) : Q f -> triple f done_ I Q.
Proof. intros H. exists []. by split_and!. Qed.
Lemma triple_store f g (I Q : Filter -> Prop) : I (g f) -> Q (g f) -> triple f (store g) I Q.
Proof. intros. exists [g f]. split_and!; [done|by repeat constructor|done]. Qed.
Lemma stop_app f t1 t2 : stop f (t1 ++ t2) = stop (stop f t1) t2.
Proof.
  unfold stop. destruct t2 as [|x t2] using rev_ind; [by rewrite app_nil_r|]. by rewrite app_assoc, !last_snoc.
Qed.
Lemma triple_seq f p q (I Q R : Filter -> Prop) : triple f p I Q -> (forall f, Q f -> triple f q I R) -> triple f (p ;; q) I R.
Proof.
  intros (t1 & E1 & I1 & Q1) H. destruct (H _ Q1) as (t2 & E2 & I2 & R2). exists (t1 ++ t2). unfold seq_. rewrite E1, some_bind, E2, some_bind.
  split_and!; [done|by apply Forall_app|by rewrite stop_app].
Qed.
Lemma triple_look f k (I Q : Filter -> Prop) : triple f (k f) I Q -> triple f (look k) I Q.
Proof. done. Qed.
Lemma triple_each {A} (l : list A) (p : A -> Prog) (I : Filter -> Prop) (Q : list A -> Filter -> Prop) f :
  Q [] f -> (forall pre x post f, l = pre ++ x :: post -> Q pre f -> triple f (p x) I (Q (pre ++ [x]))) -> triple f (each l p) I (Q l).
Proof.
  intros H0 Hs. assert (forall post pre f, l = pre ++ post -> Q pre f -> triple f (each post p) I (Q l)) as H; [|by apply (H l [] f)].
  induction post as [|x post IH]; intros pre f' E HQ; cbn.
  - apply triple_done. by rewrite E, app_nil_r.
  - eapply triple_seq; [by apply (Hs pre x post f')|]. intros f2 H2. apply (IH (pre ++ [x])); [|done]. by rewrite <- app_assoc.
Qed.
Lemma triple_weaken f p (I I' Q Q' : Filter -> Prop) : triple f p I Q -> (forall f, I f -> I' f) -> (forall f, Q f -> Q' f) -> triple f p I' Q'.
Proof. intros (t & E & HI & HQ) H1 H2. exists t. split_and!; [done|by eapply Forall_impl|by apply H2]. Qed.

(** * The filter's invariant *)
(** What a cell stands for: the open hashes of its bucket and the wildcard references on it.
    A saturated cell has lost its count and stays positive until the filter drains. *)
Inductive cell_ok (hs : list Z) (w : Z) (c : Z) : Prop :=
  | ck_empty : c = 0 -> hs = [] -> w = 0 -> cell_ok hs w c
  | ck_exact fp wild : c = pack (Z.of_nat (length hs) + w) fp wild -> 0 < Z.of_nat (length hs) + w < kCountMask -> 0 <= w -> 0 <= fp < 2 ^ 32 ->
      (wild = false -> w = 0 /\ forall h, h ∈ hs -> fingerprint h = fp) -> cell_ok hs w c
  | ck_full fp : c = pack kCountMask fp true -> 0 <= w -> 0 <= fp < 2 ^ 32 -> cell_ok hs w c.
Definition saturated (c : Z) : bool := cell_count c =? kCountMask.
Definition nfull (cs : list Z) : Z := foldr (fun c n => (if saturated c then 1 else 0) + n) 0 cs.
Definition Ghost := Z -> list Z * Z.
Definition upd (G : Ghost) (i : Z) (x : list Z * Z) : Ghost := fun j => if j =? i then x else G j.
Definition in_range (i : Z) : Prop := 0 <= i < kCellCount.
Record cells_inv (G : Ghost) (f : Filter) : Prop := {
  ci_cells : length (cells f) = Z.to_nat kCellCount;
  ci_epochs : length (epochs f) = Z.to_nat kCellCount;
  ci_ok : forall i, in_range i -> cell_ok (G i).1 (G i).2 (cell f i) }.
Definition regs (f : Filter) : Z * Z := (unsafe_total_refs f, poison_refs f).
Definition inv (G : Ghost) (r : Z * Z) (f : Filter) : Prop := cells_inv G f /\ saturated_cells f = nfull (cells f) /\ regs f = r.

Lemma pack_full fp : 0 <= fp < 2 ^ 32 -> saturated (pack kCountMask fp true) = true.
Proof. intros H. unfold saturated. rewrite pack_count by (done || (rewrite kCountMask_val; lia)). apply Z.eqb_refl. Qed.
Lemma cell_ok_perm hs hs' w c : hs ≡ₚ hs' -> cell_ok hs w c -> cell_ok hs' w c.
Proof.
  intros Hp [E1 E2 E3|fp wild E Hn Hw Hfp Hwild|fp E Hw Hfp].
  - subst. apply Permutation_nil_l in Hp. subst. by constructor 1.
  - rewrite (Permutation_length Hp) in *. econstructor 2; [done..|]. intros Hf. destruct (Hwild Hf) as [? Hall]. split; [done|]. intros h Hh. apply Hall. by rewrite Hp.
  - by econstructor 3.
Qed.
Lemma cells_inv_ext G G' f : (forall i, in_range i -> (G i).1 ≡ₚ (G' i).1 /\ (G i).2 = (G' i).2) -> cells_inv G f -> cells_inv G' f.
Proof.
  intros HG [H1 H2 H3]. split; [done..|]. intros i Hi. destruct (HG i Hi) as [Hp Hw]. rewrite <- Hw. eapply cell_ok_perm; [exact Hp|by apply H3].
Qed.
(** An open hash, or a wildcard reference, is seen by every reader. *)
Lemma covers_open G f h : cells_inv G f -> h ∈ (G (cell_index h)).1 \/ 0 < (G (cell_index h)).2 -> might_contain f h = true.
Proof.
  intros [_ _ H3] Hh. specialize (H3 _ (cell_index_bound h)). unfold might_contain. cbv zeta. destruct H3 as [_ E2 E3|fp wild -> Hn Hw Hfp Hwild|fp -> _ Hfp].
  - rewrite E2, E3 in Hh. destruct Hh as [Hh%elem_of_nil|]; [done|lia].
  - rewrite (proj2 (Z.eqb_neq _ 0)) by (by apply pack_nonzero; lia). rewrite pack_wildcard, pack_fingerprint by lia. destruct wild; [done|].
    destruct (Hwild eq_refl) as [Hw0 Hall]. destruct Hh as [Hh|]; [|lia]. rewrite (Hall h Hh). apply Z.eqb_refl.
  - assert (0 <= kCountMask <= kCountMask) by (rewrite kCountMask_val; lia). rewrite (proj2 (Z.eqb_neq _ 0)) by (apply pack_nonzero; [done..|rewrite kCountMask_val; lia]).
    by rewrite pack_wildcard by lia.
Qed.

(** ** One store *)
Lemma nfull_set cs i v old : cs !! i = Some old -> nfull (<[i := v]> cs) = nfull cs - (if saturated old then 1 else 0) + (if saturated v then 1 else 0).
Proof.
  revert i. induction cs as [|c cs IH]; intros [|i] E; cbn in *; [done..| |].
  - injection E as ->. lia.
  - change (foldr _ 0 (<[i:=v]> cs)) with (nfull (<[i:=v]> cs)). rewrite (IH i E). unfold nfull. lia.
Qed.
Lemma nfull_bounds cs : 0 <= nfull cs <= Z.of_nat (length cs).
Proof. induction cs as [|c cs IH]; cbn; [lia|]. unfold nfull in *. destruct (saturated c); lia. Qed.
Lemma cell_lookup f i : length (cells f) = Z.to_nat kCellCount -> in_range i -> cells f !! Z.to_nat i = Some (cell f i).
Proof. intros Hl Hi. unfold cell, in_range in *. apply list_lookup_lookup_total_lt. lia. Qed.
Lemma cell_set f cs i j v : cells f = cs -> length cs = Z.to_nat kCellCount -> in_range i -> in_range j ->
  <[Z.to_nat i := v]> cs !!! Z.to_nat j = if j =? i then v else cs !!! Z.to_nat j.
Proof.
  intros E Hl Hi Hj. unfold in_range in *. destruct (Z.eqb_spec j i) as [->|Hne].
  - apply list_lookup_total_insert_eq. lia.
  - apply list_lookup_total_insert_ne. lia.
Qed.
Lemma set_cell_inv G f i v x : cells_inv G f -> in_range i -> cell_ok x.1 x.2 v ->
  forall e t s p, length e = Z.to_nat kCellCount -> cells_inv (upd G i x) (mkFilter (<[Z.to_nat i := v]> (cells f)) e t s p).
Proof.
  intros [H1 H2 H3] Hi Hv e t s p He. split; cbn; [by rewrite length_insert|done|]. intros j Hj. unfold cell, upd. cbn.
  rewrite (cell_set f) by done. destruct (Z.eqb_spec j i) as [->|]; [done|]. by apply H3.
Qed.
Lemma touch_spec G r f i : inv G r f -> triple f (touch_epoch i) (cells_inv G) (inv G r).
Proof.
  intros ([H1 H2 H3] & Hs & Hr). assert (inv G r (mkFilter (cells f) (<[Z.to_nat i := u32 (epochs f !!! Z.to_nat i + 1)]> (epochs f)) (unsafe_total_refs f) (saturated_cells f) (poison_refs f))) as Hi.
  { split; [|done]. split; cbn; [done|by rewrite length_insert|done]. }
  apply triple_store; [apply Hi|done].
Qed.
Lemma pack_not_full n fp w : 0 < n < kCountMask -> 0 <= fp < 2 ^ 32 -> saturated (pack n fp w) = false.
Proof. intros Hn Hfp. unfold saturated. rewrite pack_count by lia. apply Z.eqb_neq. lia. Qed.
Lemma full_0 : saturated 0 = false.
Proof. done. Qed.

(** One more reference on cell [i]. *)
Lemma store_add_spec G r f i fp force hs' w' : inv G r f -> in_range i -> 0 <= fp < 2 ^ 32 ->
  Z.of_nat (length hs') + w' = Z.of_nat (length (G i).1) + (G i).2 + 1 -> 0 <= w' ->
  (force = false -> w' = (G i).2 /\ forall h, h ∈ hs' -> h ∈ (G i).1 \/ fingerprint h = fp) ->
  triple f (store_add_cell i fp force) (cells_inv (upd G i (hs', w'))) (inv (upd G i (hs', w')) r).
Proof.
  intros (HC & Hs & Hr) Hi Hfp Hlen Hw' Hforce. pose proof (ci_cells _ _ HC) as Hlc. pose proof (ci_epochs _ _ HC) as Hle. pose proof (ci_ok _ _ HC i Hi) as Hc.
  unfold store_add_cell. apply triple_look. cbv zeta. pose proof (cell_lookup f i Hlc Hi) as El.
  assert (forall v, cell_ok hs' w' v -> saturated v = saturated (cell f i) -> triple f (set_cell i v) (cells_inv (upd G i (hs', w'))) (inv (upd G i (hs', w')) r)) as Hset.
  { intros v Hv Hf. pose proof (set_cell_inv G f i v (hs', w') HC Hi Hv) as Hci. apply triple_store; [by apply Hci|].
    split; [by apply Hci|]. split; [|done]. cbn. rewrite (nfull_set _ _ _ _ El), Hf. lia. }
  destruct Hc as [E0 E1 E2|fpo wild E Hn Hw Hfpo Hwild|fpo E Hw Hfpo].
  - rewrite E0. cbn [Z.eqb]. rewrite E1, E2 in *. cbn [length] in Hlen. pose proof kCountMask_val as Hm. apply Hset; [|rewrite E0; by apply pack_not_full; lia].
    apply (ck_exact _ _ _ fp force); [f_equal; lia|lia|done|done|]. intros ->. destruct (Hforce eq_refl) as [-> Hall]. split; [done|].
    intros h Hh. destruct (Hall h Hh) as [?%elem_of_nil|]; done.
  - rewrite E. rewrite (proj2 (Z.eqb_neq _ 0)) by (by apply pack_nonzero; lia). rewrite pack_count, pack_fingerprint, pack_wildcard by lia.
    rewrite (proj2 (Z.eqb_neq _ kCountMask)) by lia. destruct (Z.eqb_spec (Z.of_nat (length (G i).1) + (G i).2 + 1) kCountMask) as [Efull|Hnf].
    + assert (cell_ok hs' w' (pack kCountMask fpo true)) as Hok by (by econstructor 3).
      pose proof (set_cell_inv G f i _ (hs', w') HC Hi Hok) as Hci.
      eapply (triple_seq _ _ _ _ (fun f' => cells_inv (upd G i (hs', w')) f' /\ saturated_cells f' + 1 = nfull (cells f') /\ regs f' = r)).
      * apply triple_store; [by apply Hci|]. split; [by apply Hci|]. split; [|done]. cbn. rewrite (nfull_set _ _ _ _ El), pack_full by done.
        rewrite E, pack_not_full by lia. lia.
      * intros f' ([C1 C2 C3] & Hsat & Hr'). apply triple_look. pose proof (nfull_bounds (cells f')) as Hb. rewrite C1, <- Hsat in Hb. change (Z.to_nat kCellCount) with 4096%nat in Hb.
        assert (u64 (saturated_cells f' + 1) = saturated_cells f' + 1) as -> by (apply Z.mod_small; lia).
        apply triple_store; [by split|]. split; [by split|]. split; [done|]. exact Hr'.
    + apply Hset; [|rewrite E, !pack_not_full by lia; done]. apply (ck_exact _ _ _ fpo (force || wild || negb (fpo =? fp))); [f_equal; lia|lia|done|done|].
      intros [[-> ->]%orb_false_elim Hfp']%orb_false_elim. destruct (Hforce eq_refl) as [-> Hall]. destruct (Hwild eq_refl) as [Hw0 Hhs]. split; [done|].
      apply negb_false_iff, Z.eqb_eq in Hfp'. intros h Hh. destruct (Hall h Hh) as [Hin| ->]; [by apply Hhs|done].
  - assert (0 <= kCountMask <= kCountMask) by (rewrite kCountMask_val; lia). rewrite E. rewrite (proj2 (Z.eqb_neq _ 0)) by (apply pack_nonzero; [done..|rewrite kCountMask_val; lia]).
    rewrite pack_count, Z.eqb_refl by done. apply triple_done. split; [|done]. split; [done..|]. intros j Hj. unfold upd. destruct (Z.eqb_spec j i) as [->|]; [|by apply HC].
    by econstructor 3.
Qed.
(** One reference fewer. *)
Lemma store_close_spec G r f i hs' w' : inv G r f -> in_range i ->
  Z.of_nat (length hs') + w' + 1 = Z.of_nat (length (G i).1) + (G i).2 -> 0 <= w' <= (G i).2 -> (forall h, h ∈ hs' -> h ∈ (G i).1) ->
  triple f (store_close_cell i) (cells_inv (upd G i (hs', w'))) (inv (upd G i (hs', w')) r).
Proof.
  intros (HC & Hs & Hr) Hi Hlen Hw' Hsub. pose proof (ci_cells _ _ HC) as Hlc. pose proof (ci_epochs _ _ HC) as Hle. pose proof (ci_ok _ _ HC i Hi) as Hc.
  unfold store_close_cell. apply triple_look. cbv zeta. pose proof (cell_lookup f i Hlc Hi) as El. pose proof kCountMask_val as Hm.
  assert (forall v, cell_ok hs' w' v -> saturated v = saturated (cell f i) -> triple f (set_cell i v) (cells_inv (upd G i (hs', w'))) (inv (upd G i (hs', w')) r)) as Hset.
  { intros v Hv Hf. pose proof (set_cell_inv G f i v (hs', w') HC Hi Hv) as Hci. apply triple_store; [by apply Hci|].
    split; [by apply Hci|]. split; [|done]. cbn. rewrite (nfull_set _ _ _ _ El), Hf. lia. }
  destruct Hc as [E0 E1 E2|fpo wild E Hn Hw Hfpo Hwild|fpo E Hw Hfpo].
  - rewrite E1, E2 in Hlen. cbn [length] in Hlen. lia.
  - rewrite E, pack_count, pack_fingerprint, pack_wildcard by lia. rewrite (proj2 (Z.eqb_neq _ 0)), (proj2 (Z.eqb_neq _ kCountMask)) by lia.
    destruct (Z.eqb_spec (Z.of_nat (length (G i).1) + (G i).2) 1) as [E1|Hn1].
    + apply Hset; [|rewrite E, pack_not_full by lia; done]. constructor 1; [done|apply nil_length_inv; lia|lia].
    + apply Hset; [|rewrite E, !pack_not_full by lia; done]. apply (ck_exact _ _ _ fpo wild); [f_equal; lia|lia|lia|done|].
      intros ->. destruct (Hwild eq_refl) as [Hw0 Hall]. split; [lia|]. intros h Hh. by apply Hall, Hsub.
  - rewrite E, pack_count, (proj2 (Z.eqb_neq kCountMask 0)), Z.eqb_refl by lia. apply triple_done. split; [|done]. split; [done..|].
    intros j Hj. unfold upd. destruct (Z.eqb_spec j i) as [->|]; [|by apply HC]. econstructor 3; [exact E|cbn; lia|done].
Qed.
Lemma add_cell_spec G r f i fp force hs' w' : inv G r f -> in_range i -> 0 <= fp < 2 ^ 32 ->
  Z.of_nat (length hs') + w' = Z.of_nat (length (G i).1) + (G i).2 + 1 -> 0 <= w' ->
  (force = false -> w' = (G i).2 /\ forall h, h ∈ hs' -> h ∈ (G i).1 \/ fingerprint h = fp) ->
  triple f (add_cell i fp force) (cells_inv (upd G i (hs', w'))) (inv (upd G i (hs', w')) r).
Proof. intros. eapply triple_seq; [by apply store_add_spec|]. intros f' Hf'. by apply touch_spec. Qed.
Lemma close_cell_spec G r f i hs' w' : inv G r f -> in_range i ->
  Z.of_nat (length hs') + w' + 1 = Z.of_nat (length (G i).1) + (G i).2 -> 0 <= w' <= (G i).2 -> (forall h, h ∈ hs' -> h ∈ (G i).1) ->
  triple f (close_cell i) (cells_inv (upd G i (hs', w'))) (inv (upd G i (hs', w')) r).
Proof. intros. eapply triple_seq; [by apply store_close_spec|]. intros f' Hf'. by apply touch_spec. Qed.

(** ** What readers are promised *)
Definition sub (P : Z -> Prop) (G : Ghost) : Prop := forall h, P h -> h ∈ (G (cell_index h)).1 \/ 0 < (G (cell_index h)).2.
Definition covered (P : Z -> Prop) (f : Filter) : Prop := forall h, P h -> might_contain f h = true.
Lemma inv_covered P G f : sub P G -> cells_inv G f -> covered P f.
Proof. intros Hs Hf h Hh. eapply covers_open; [exact Hf|by apply Hs]. Qed.
Lemma indices_range i : i ∈ indices <-> in_range i.
Proof.
  unfold indices, in_range. rewrite list_elem_of_fmap. split.
  - intros (k & -> & Hk%elem_of_seq). lia.
  - intros Hi. exists (Z.to_nat i). split; [lia|]. apply elem_of_seq. lia.
Qed.
Lemma indices_nodup : NoDup indices.
Proof. unfold indices. apply NoDup_fmap; [intros ? ?; lia|]. apply NoDup_ListNoDup, seq_NoDup. Qed.
(** A walk over all cells takes the ghost state from [G] to [Gs], cell by cell. *)
Lemma walk_cells (J : Ghost -> Filter -> Prop) (p : Z -> Prog) P G Gs f :
  (forall G G' f, (forall i, in_range i -> G i = G' i) -> J G f -> J G' f) ->
  (forall i G' f, in_range i -> G' i = G i -> J G' f -> triple f (p i) (cells_inv (upd G' i (Gs i))) (J (upd G' i (Gs i)))) ->
  sub P G -> sub P Gs -> J G f -> triple f (each indices p) (covered P) (J Gs).
Proof.
  intros Hext Hstep HG HGs Hf. set (mix (pre : list Z) := fun i => if decide (i ∈ pre) then Gs i else G i).
  assert (forall pre, sub P (mix pre)) as Hmix by (intros pre h Hh; unfold mix; destruct (decide _); [by apply HGs|by apply HG]).
  eapply triple_weaken; [apply (triple_each indices p (covered P) (fun pre => J (mix pre)))| |].
  - eapply Hext; [|exact Hf]. intros i _. unfold mix. by rewrite decide_False by (apply not_elem_of_nil).
  - intros pre i post f' E Hf'. assert (in_range i) as Hi by (apply indices_range; rewrite E, elem_of_app; right; by left).
    assert (i ∉ pre) as Hni. { pose proof indices_nodup as Hnd. rewrite E in Hnd. apply NoDup_app in Hnd as (_ & Hd & _). intros Hin. apply (Hd i Hin). by left. }
    assert (forall j, in_range j -> upd (mix pre) i (Gs i) j = mix (pre ++ [i]) j) as Hupd.
    { intros j _. unfold upd, mix. destruct (Z.eqb_spec j i) as [->|Hne]; [by rewrite decide_True by (rewrite elem_of_app; right; by left)|].
      destruct (decide (j ∈ pre)); [by rewrite decide_True by (rewrite elem_of_app; by left)|].
      by rewrite decide_False by (rewrite elem_of_app, list_elem_of_singleton; tauto). }
    eapply triple_weaken; [apply (Hstep i (mix pre) f' Hi); [unfold mix; by rewrite decide_False|exact Hf']| |].
    + intros f2 H2. apply (inv_covered P (mix (pre ++ [i]))); [done|]. eapply cells_inv_ext; [|exact H2]. intros j Hj. by rewrite Hupd.
    + intros f2 H2. by eapply Hext.
  - done.
  - intros f2 H2. eapply Hext; [|exact H2]. intros i Hi. unfold mix. rewrite decide_True; [done|by apply indices_range].
Qed.
Lemma inv_ext G G' r f : (forall i, in_range i -> G i = G' i) -> inv G r f -> inv G' r f.
Proof. intros HG (H1 & H2). split; [|done]. eapply cells_inv_ext; [|exact H1]. intros i Hi. by rewrite (HG i Hi). Qed.

(** * Owner operations against the open keys *)
(** [Live opens depth]: the hashes of the spans that are open, and the nesting of unknown mutations. *)
Inductive Abs := Live (opens : list Z) (depth : Z) | Perm.
Definition at_cell (i : Z) (opens : list Z) : list Z := List.filter (fun h => cell_index h =? i) opens.
Definition live_ghost (opens : list Z) (w : Z) : Ghost := fun i => (at_cell i opens, w).
Definition wild (depth : Z) : Z := if 0 <? depth then 1 else 0.
Definition perm_ghost : Ghost := fun _ => ([], 1).
Definition refines (A : Abs) (f : Filter) : Prop :=
  match A with
  | Live opens depth =>
      inv (live_ghost opens (wild depth)) (Z.of_nat (length opens), depth) f /\ 0 <= depth < UINT64_MAX /\ Z.of_nat (length opens) <= UINT64_MAX /\
      (opens = [] -> depth = 0 -> saturated_cells f = 0)
  | Perm => inv perm_ghost (UINT64_MAX, UINT64_MAX) f
  end.
(** The keys a state protects: a reader must be sent to the owner for them. *)
Definition protects (A : Abs) (h : Z) : Prop :=
  match A with Live opens depth => h ∈ opens \/ 0 < depth | Perm => True end.

Lemma at_cell_in i opens h : h ∈ at_cell i opens <-> h ∈ opens /\ cell_index h = i.
Proof. unfold at_cell. rewrite !list_elem_of_In, filter_In, Z.eqb_eq. done. Qed.
Lemma sub_live opens depth : sub (protects (Live opens depth)) (live_ghost opens (wild depth)).
Proof.
  intros h [Hh|Hd]; cbn [live_ghost fst snd]; [left; by apply at_cell_in|right]. unfold wild. rewrite (proj2 (Z.ltb_lt _ _)) by done. lia.
Qed.
Lemma at_cell_perm i l l' : l ≡ₚ l' -> at_cell i l ≡ₚ at_cell i l'.
Proof.
  intros Hp. unfold at_cell. induction Hp as [|x l l' _ IH|x y l|l1 l2 l3 _ IH1 _ IH2]; cbn; [done| | |by etransitivity].
  - destruct (cell_index x =? i); [by apply Permutation_skip|done].
  - destruct (cell_index x =? i), (cell_index y =? i); [apply perm_swap|done..].
Qed.
Lemma inv_perm opens opens' w r f : opens ≡ₚ opens' -> inv (live_ghost opens w) r f -> inv (live_ghost opens' w) r f.
Proof. intros Hp (H1 & H2). split; [|done]. eapply cells_inv_ext; [|exact H1]. intros i _. split; [by apply at_cell_perm|done]. Qed.

Lemma add_hash_spec opens w r f h : 0 <= w -> inv (live_ghost opens w) r f ->
  triple f (add_hash h) (cells_inv (live_ghost (h :: opens) w)) (inv (live_ghost (h :: opens) w) r).
Proof.
  intros Hw Hf. pose proof (fingerprint_bound h). pose proof (cell_index_bound h) as Hi.
  assert (forall i, in_range i -> upd (live_ghost opens w) (cell_index h) (h :: at_cell (cell_index h) opens, w) i = live_ghost (h :: opens) w i) as E.
  { intros i _. unfold upd, live_ghost, at_cell. cbn [List.filter]. rewrite (Z.eqb_sym (cell_index h)). destruct (Z.eqb_spec i (cell_index h)) as [->|]; done. }
  eapply triple_weaken; [apply (add_cell_spec (live_ghost opens w) r f (cell_index h) (fingerprint h) false (h :: at_cell (cell_index h) opens) w Hf Hi)|..].
  - lia.
  - cbn. lia.
  - done.
  - intros _. split; [done|]. intros h' [->|Hh]%elem_of_cons; [by right|by left].
  - intros f' Hf'. eapply cells_inv_ext; [|exact Hf']. intros i Hi'. by rewrite E.
  - intros f' Hf'. by eapply inv_ext.
Qed.
Lemma close_hash_spec opens w r f h : 0 <= w -> inv (live_ghost (h :: opens) w) r f ->
  triple f (close_hash h) (cells_inv (live_ghost opens w)) (inv (live_ghost opens w) r).
Proof.
  intros Hw Hf. pose proof (cell_index_bound h) as Hi.
  assert (forall i, in_range i -> upd (live_ghost (h :: opens) w) (cell_index h) (at_cell (cell_index h) opens, w) i = live_ghost opens w i) as E.
  { intros i _. unfold upd, live_ghost, at_cell. cbn [List.filter]. rewrite (Z.eqb_sym (cell_index h)). destruct (Z.eqb_spec i (cell_index h)) as [->|]; done. }
  assert (at_cell (cell_index h) (h :: opens) = h :: at_cell (cell_index h) opens) as Eh by (unfold at_cell; cbn; by rewrite Z.eqb_refl).
  eapply triple_weaken; [apply (close_cell_spec (live_ghost (h :: opens) w) r f (cell_index h) (at_cell (cell_index h) opens) w Hf Hi)|..].
  - cbn [live_ghost fst snd]. rewrite Eh. cbn [length]. lia.
  - cbn. lia.
  - intros h' Hh. cbn [live_ghost fst]. rewrite Eh. by right.
  - intros f' Hf'. eapply cells_inv_ext; [|exact Hf']. intros i Hi'. by rewrite E.
  - intros f' Hf'. by eapply inv_ext.
Qed.
Lemma live_ghost_mono P opens opens' w : (forall h, h ∈ opens -> h ∈ opens') -> sub P (live_ghost opens w) -> sub P (live_ghost opens' w).
Proof.
  intros Hs HP h Hh. destruct (HP h Hh) as [H|H]; [left|by right]. cbn in *. apply at_cell_in in H as [? ?]. apply at_cell_in. split; [by apply Hs|done].
Qed.
Lemma add_hashes_spec P hs opens w r f : 0 <= w -> sub P (live_ghost opens w) -> inv (live_ghost opens w) r f ->
  triple f (each hs add_hash) (covered P) (inv (live_ghost (reverse hs ++ opens) w) r).
Proof.
  intros Hw HP Hf. apply (triple_each hs add_hash (covered P) (fun pre => inv (live_ghost (reverse pre ++ opens) w) r)); [done|].
  intros pre h post f' _ Hf'. rewrite reverse_snoc. eapply triple_weaken; [by apply add_hash_spec| |done].
  intros f2 H2. eapply inv_covered; [|exact H2]. eapply live_ghost_mono; [|exact HP]. intros h' Hh'. right. apply elem_of_app. by right.
Qed.
Lemma close_hashes_spec P hs rest w r f : 0 <= w -> sub P (live_ghost rest w) -> inv (live_ghost (hs ++ rest) w) r f ->
  triple f (each hs close_hash) (covered P) (inv (live_ghost rest w) r).
Proof.
  intros Hw HP Hf. eapply triple_weaken; [apply (triple_each hs close_hash (covered P) (fun pre f => exists post, hs = pre ++ post /\ inv (live_ghost (post ++ rest) w) r f))| |].
  - by exists hs.
  - intros pre h post f' E (post' & E' & Hf'). rewrite E in E'. apply app_inv_head in E' as <-.
    eapply triple_weaken; [by apply close_hash_spec| |].
    + intros f2 H2. eapply inv_covered; [|exact H2]. eapply live_ghost_mono; [|exact HP]. intros h' Hh'. apply elem_of_app. by right.
    + intros f2 H2. exists post. split; [by rewrite E, <- app_assoc|done].
  - done.
  - intros f2 (post & E & H2). rewrite <- (app_nil_r hs) in E at 1. apply app_inv_head in E as <-. done.
Qed.
Lemma set_total_spec G t p f v : inv G (t, p) f -> triple f (set_total v) (cells_inv G) (inv G (v, p)).
Proof. intros ([H1 H2 H3] & Hs & [= _ Hp]). apply triple_store; [by split|]. split; [by split|]. split; [done|]. unfold regs. cbn. by rewrite Hp. Qed.
Lemma set_poison_spec G t p f v : inv G (t, p) f -> triple f (set_poison v) (cells_inv G) (inv G (t, v)).
Proof. intros ([H1 H2 H3] & Hs & [= Ht _]). apply triple_store; [by split|]. split; [by split|]. split; [done|]. unfold regs. cbn. by rewrite Ht. Qed.
Lemma touch_all_spec G r (R : list Z -> Prop) f : cells_inv G f -> regs f = r -> R (cells f) ->
  triple f touch_all_epochs (cells_inv G) (fun f' => cells_inv G f' /\ regs f' = r /\ R (cells f')).
Proof.
  intros HC Hr HR. apply (triple_each indices touch_epoch (cells_inv G) (fun _ f' => cells_inv G f' /\ regs f' = r /\ R (cells f'))); [done|].
  clear f HC Hr HR. intros _ i _ f _ ([H1 H2 H3] & Hr & HR).
  assert (cells_inv G (mkFilter (cells f) (<[Z.to_nat i := u32 (epochs f !!! Z.to_nat i + 1)]> (epochs f)) (unsafe_total_refs f) (saturated_cells f) (poison_refs f))) as Hi
    by (split; cbn; [done|by rewrite length_insert|done]).
  by apply triple_store.
Qed.
Lemma nfull_all b cs : Forall (fun c => saturated c = b) cs -> nfull cs = if b then Z.of_nat (length cs) else 0.
Proof. induction 1 as [|c cs Hc _ IH]; [by destruct b|]. unfold nfull in *. cbn [foldr length]. rewrite Hc, IH. destruct b; lia. Qed.
Lemma all_cells (Q : Z -> Prop) f : length (cells f) = Z.to_nat kCellCount -> (forall i, in_range i -> Q (cell f i)) -> Forall Q (cells f).
Proof.
  intros Hl H. apply Forall_lookup. intros k c Hk. pose proof (lookup_lt_Some _ _ _ Hk). specialize (H (Z.of_nat k) ltac:(unfold in_range; lia)).
  unfold cell in H. rewrite Nat2Z.id, (list_lookup_total_correct _ _ _ Hk) in H. done.
Qed.
Lemma triple_conj f p (I I' Q Q' : Filter -> Prop) : triple f p I Q -> triple f p I' Q' -> triple f p I (fun f => Q f /\ Q' f).
Proof. intros (t & E & HI & HQ) (t' & E' & _ & HQ'). rewrite E in E'. injection E' as <-. by exists t. Qed.
(** A walk that stores [v] in every cell. *)
Lemma set_all_cells v f : length (cells f) = Z.to_nat kCellCount ->
  triple f (each indices (fun i => set_cell i v)) (fun _ => True) (fun f' => Forall (eq v) (cells f')).
Proof.
  intros Hl. eapply triple_weaken; [apply (triple_each indices _ (fun _ => True)
    (fun pre f' => length (cells f') = Z.to_nat kCellCount /\ forall i, i ∈ pre -> v = cell f' i))|done|].
  - split; [done|]. by intros i Hi%elem_of_nil.
  - intros pre i post f' E [Hl' Hpre]. assert (in_range i) as Hi by (apply indices_range; rewrite E, elem_of_app; right; by left).
    apply triple_store; [done|]. cbn. split; [by rewrite length_insert|]. intros j [Hj|Hj]%elem_of_app.
    + assert (in_range j) by (apply indices_range; rewrite E, elem_of_app; by left). unfold cell. cbn. rewrite (cell_set f') by done.
      destruct (j =? i); [done|by apply Hpre].
    + apply list_elem_of_singleton in Hj as ->. unfold cell. cbn. rewrite (cell_set f'), Z.eqb_refl by done. done.
  - intros f' [Hl' H]. apply all_cells; [done|]. intros i Hi. apply H. by apply indices_range.
Qed.
Lemma set_all_spec P G Gs v r f : sub P G -> sub P Gs -> (forall i, in_range i -> cell_ok (Gs i).1 (Gs i).2 v) -> cells_inv G f -> regs f = r ->
  triple f (each indices (fun i => set_cell i v)) (covered P) (fun f' => (cells_inv Gs f' /\ regs f' = r) /\ Forall (eq v) (cells f')).
Proof.
  intros HG HGs Hv HC Hr. eapply triple_conj; [|apply set_all_cells, HC].
  apply (walk_cells (fun G' f' => cells_inv G' f' /\ regs f' = r) _ P G Gs); [..|done|done|done].
  - intros G1 G2 f' E (H1 & H2). split; [|done]. eapply cells_inv_ext; [|exact H1]. intros i Hi. by rewrite (E i Hi).
  - intros i G' f' Hi _ (H1 & H2). pose proof (set_cell_inv G' f' i v (Gs i) H1 Hi (Hv i Hi)) as Hc.
    apply triple_store; [apply Hc, H1|]. split; [apply Hc, H1|exact H2].
Qed.
Lemma poison_permanently_spec P G r f : sub P G -> cells_inv G f -> regs f = r ->
  triple f poison_permanently (covered P) (inv perm_ghost (UINT64_MAX, UINT64_MAX)).
Proof.
  intros HG HC Hr. assert (sub P perm_ghost) as HP by (intros h _; right; cbn; lia). pose proof kCountMask_val.
  assert (forall i, in_range i -> cell_ok (perm_ghost i).1 (perm_ghost i).2 (pack kCountMask 1 true)) as Hv by (intros i _; econstructor 3; [done|cbn; lia..]).
  unfold poison_permanently. eapply (triple_seq _ _ _ _ (fun f' => cells_inv G f' /\ poison_refs f' = UINT64_MAX)).
  { apply triple_store; [eapply inv_covered; [exact HG|]|split; [|done]]; by destruct HC. }
  intros f1 [H1 E1]. eapply (triple_seq _ _ _ _ (fun f' => cells_inv G f' /\ regs f' = (UINT64_MAX, UINT64_MAX))).
  { apply triple_store; [eapply inv_covered; [exact HG|]|split; [|by unfold regs; cbn; rewrite E1]]; by destruct H1. }
  intros f2 [H2 E2]. eapply triple_seq; [by apply (set_all_spec P G perm_ghost)|]. intros f3 [[H3 E3] F3].
  eapply triple_seq; [eapply triple_weaken; [apply (touch_all_spec _ _ (Forall (eq (pack kCountMask 1 true))) _ H3 E3 F3)| |]|].
  - intros f' Hf'. by eapply inv_covered.
  - intros f' Hf'. exact Hf'.
  - intros f4 (H4 & E4 & F4). assert (nfull (cells f4) = kCellCount) as Hn.
    { rewrite (nfull_all true), (ci_cells _ _ H4); [done|]. eapply Forall_impl; [exact F4|]. intros c <-. apply pack_full. lia. }
    apply triple_store; [eapply inv_covered; [exact HP|]|split; [|split; [cbn [saturated_cells cells]; by rewrite Hn|done]]]; by destruct H4.
Qed.
Lemma drained_cells f r : inv (live_ghost [] 0) r f -> saturated_cells f = 0 -> Forall (eq 0) (cells f).
Proof.
  intros ([H1 H2 H3] & Hs & _) H0. apply all_cells; [done|]. intros i Hi. destruct (H3 i Hi) as [-> _ _|fp wild _ Hn _ _ _|fp E _ Hfp]; [done|cbn in Hn; lia|].
  exfalso. assert (1 <= nfull (cells f)); [|lia]. pose proof (nfull_set (cells f) (Z.to_nat i) 0 (cell f i) (cell_lookup f i H1 Hi)) as Hset.
  rewrite E, pack_full, full_0 in Hset by done. pose proof (nfull_bounds (<[Z.to_nat i := 0]> (cells f))). lia.
Qed.
Lemma rebuild_drained_spec P opens depth n f : inv (live_ghost opens (wild depth)) (n, depth) f -> Z.of_nat (length opens) = n -> sub P (live_ghost opens (wild depth)) ->
  triple f (rebuild_saturated_if_drained n) (covered P) (fun f' => inv (live_ghost opens (wild depth)) (n, depth) f' /\ (opens = [] -> depth = 0 -> saturated_cells f' = 0)).
Proof.
  intros Hf Hn HP. unfold rebuild_saturated_if_drained. apply triple_look. pose proof Hf as (HC & Hs & [= Ht Hp]). rewrite Hp.
  destruct (Z.eqb_spec n 0) as [->|]; cbn [negb orb]; [|apply triple_done; split; [done|intros ->; cbn in Hn; lia]].
  destruct (Z.eqb_spec depth 0) as [->|]; cbn [negb orb]; [|apply triple_done; by split].
  destruct (Z.eqb_spec (saturated_cells f) 0) as [|]; [apply triple_done; by split|].
  assert (opens = []) as -> by (apply nil_length_inv; lia). set (G := live_ghost [] (wild 0)) in *.
  eapply triple_seq; [apply (set_all_spec P G G 0 (0, 0)); [done|done| |done|by unfold regs; rewrite Ht, Hp]|].
  { intros i _. by constructor 1. }
  intros f1 [[H1 E1] F1]. eapply triple_seq; [eapply triple_weaken; [apply (touch_all_spec _ _ (Forall (eq 0)) _ H1 E1 F1)| |]|].
  - intros f' Hf'. by eapply inv_covered.
  - intros f' Hf'. exact Hf'.
  - intros f2 (H2 & E2 & F2). assert (nfull (cells f2) = 0) as Hnf by (apply (nfull_all false); eapply Forall_impl; [exact F2|]; by intros c <-).
    apply triple_store; [eapply inv_covered; [exact HP|]; by destruct H2|]. split; [|done]. split; [by destruct H2|]. split; [cbn [saturated_cells cells]; by rewrite Hnf|done].
Qed.

(** * The machine *)
Inductive OwnerOp := OAdd (hs : list Z) | OClose (hs : list Z) | OPoisonOpen | OPoisonClose | OFailClosed.
Definition run_op (o : OwnerOp) : Prog :=
  match o with
  | OAdd hs => add_span hs
  | OClose hs => close_span hs
  | OPoisonOpen => poison_open
  | OPoisonClose => poison_close
  | OFailClosed => fail_closed_permanently
  end.
(** The owner closes only what is open; a counter about to overflow fails closed for good. *)
Inductive astep : Abs -> OwnerOp -> Abs -> Prop :=
  | as_add opens d hs : Z.of_nat (length hs) + Z.of_nat (length opens) <= UINT64_MAX -> astep (Live opens d) (OAdd hs) (Live (hs ++ opens) d)
  | as_add_full opens d hs : UINT64_MAX < Z.of_nat (length hs) + Z.of_nat (length opens) -> astep (Live opens d) (OAdd hs) Perm
  | as_close opens d hs rest : opens ≡ₚ hs ++ rest -> astep (Live opens d) (OClose hs) (Live rest d)
  | as_open opens d : d + 1 < UINT64_MAX -> astep (Live opens d) OPoisonOpen (Live opens (d + 1))
  | as_open_full opens d : d + 1 = UINT64_MAX -> astep (Live opens d) OPoisonOpen Perm
  | as_poison_close opens d : 0 < d -> astep (Live opens d) OPoisonClose (Live opens (d - 1))
  | as_fail opens d : astep (Live opens d) OFailClosed Perm
  | as_perm o : astep Perm o Perm.
Definition both (A A' : Abs) (h : Z) : Prop := protects A h /\ protects A' h.

Lemma sub_perm P : sub P perm_ghost.
Proof. intros h _. right. cbn. lia. Qed.
Lemma wild_bounds d : 0 <= wild d <= 1.
Proof. unfold wild. destruct (0 <? d); lia. Qed.
Lemma add_op P opens d hs f : refines (Live opens d) f -> Z.of_nat (length hs) + Z.of_nat (length opens) <= UINT64_MAX -> sub P (live_ghost opens (wild d)) ->
  triple f (add_span hs) (covered P) (refines (Live (hs ++ opens) d)).
Proof.
  intros (Hf & Hd & Hl & Hz) Hov HP. unfold add_span. apply triple_look. pose proof (wild_bounds d). pose proof Hf as (_ & _ & [= Ht _]).
  destruct (Z.eqb_spec (Z.of_nat (length hs)) 0) as [E|Hn].
  { apply triple_done. assert (hs = []) as -> by (apply nil_length_inv; lia). done. }
  cbv zeta. rewrite Ht. rewrite (proj2 (Z.eqb_neq _ UINT64_MAX)), (proj2 (Z.ltb_ge _ _)) by lia. cbn [orb].
  eapply triple_seq; [eapply triple_weaken; [by eapply set_total_spec| |]|].
  - intros f' Hf'. by eapply inv_covered.
  - intros f' Hf'. exact Hf'.
  - intros f1 H1. eapply triple_weaken; [apply (add_hashes_spec P hs opens (wild d)); [lia|done|exact H1]|done|].
    intros f2 H2. split; [|split; [done|]].
    + apply (inv_perm (reverse hs ++ opens)); [by rewrite (reverse_Permutation hs)|].
      by replace (Z.of_nat (length (hs ++ opens))) with (Z.of_nat (length opens) + Z.of_nat (length hs)) by (rewrite length_app; lia).
    + rewrite length_app. split; [lia|]. intros E. apply app_eq_nil in E as [-> _]. cbn in Hn. lia.
Qed.
Lemma close_op P opens d hs rest f : refines (Live opens d) f -> opens ≡ₚ hs ++ rest -> sub P (live_ghost rest (wild d)) ->
  triple f (close_span hs) (covered P) (refines (Live rest d)).
Proof.
  intros (Hf & Hd & Hl & Hz) Hp HP. unfold close_span. apply triple_look. pose proof (wild_bounds d). pose proof Hf as (_ & _ & [= Ht Hr]).
  pose proof (Permutation_length Hp) as Hlen. rewrite length_app in Hlen. destruct (Z.eqb_spec (Z.of_nat (length hs)) 0) as [E|Hn].
  { apply triple_done. assert (hs = []) as -> by (apply nil_length_inv; lia). cbn in *. rewrite Hlen in *. split; [by eapply inv_perm|]. split; [done|]. split; [done|].
    intros ->. apply Hz. apply nil_length_inv. cbn in *. lia. }
  rewrite Hr, (proj2 (Z.eqb_neq _ UINT64_MAX)) by lia. eapply triple_seq; [by apply (close_hashes_spec P hs rest (wild d)); [lia|done|by eapply inv_perm]|].
  intros f1 H1. apply triple_look. pose proof H1 as (_ & _ & [= Ht1 Hr1]). cbv zeta. rewrite Ht1, (proj2 (Z.ltb_ge _ _)) by lia.
  replace (Z.of_nat (length opens) - Z.of_nat (length hs)) with (Z.of_nat (length rest)) by lia.
  eapply triple_seq; [eapply triple_weaken; [by eapply set_total_spec| |]|].
  - intros f' Hf'. by eapply inv_covered.
  - intros f' Hf'. exact Hf'.
  - intros f2 H2. eapply triple_weaken; [by apply (rebuild_drained_spec P rest d)|done|]. intros f3 [H3 H3']. split; [done|]. split; [done|]. split; [lia|done].
Qed.
Lemma open_op P opens d f : refines (Live opens d) f -> d + 1 < UINT64_MAX -> sub P (live_ghost opens (wild d)) ->
  triple f poison_open (covered P) (refines (Live opens (d + 1))).
Proof.
  intros (Hf & Hd & Hl & Hz) Hlt HP. unfold poison_open. apply triple_look. pose proof Hf as (_ & _ & [= Ht Hr]). cbv zeta.
  rewrite Hr, (proj2 (Z.eqb_neq _ UINT64_MAX)) by lia. assert (wild (d + 1) = 1) as Hw1 by (unfold wild; by rewrite (proj2 (Z.ltb_lt _ _)) by lia).
  destruct (Z.eqb_spec d 0) as [->|Hn]; cbn [negb].
  - eapply triple_seq; [eapply triple_weaken; [by eapply (set_poison_spec _ _ _ _ 1)| |]|].
    + intros f' Hf'. by eapply inv_covered.
    + intros f' Hf'. exact Hf'.
    + intros f1 H1. eapply triple_weaken; [apply (walk_cells (fun G f => inv G (Z.of_nat (length opens), 1) f) _ P (live_ghost opens (wild 0)) (live_ghost opens 1))|done|].
      * intros G G' f'. apply inv_ext.
      * intros i G' f' Hi EG Hf'. pose proof (f_equal fst EG) as E1. pose proof (f_equal snd EG) as E2. cbn in E1, E2.
        apply (add_cell_spec G' _ f' i 1 true (at_cell i opens) 1 Hf' Hi); [lia|rewrite E1, E2; lia|lia|done].
      * done.
      * intros h Hh. right. cbn. lia.
      * exact H1.
      * intros f2 H2. cbn [refines]. rewrite Hw1. split; [done|]. split; [unfold UINT64_MAX; lia|]. split; [done|]. lia.
  - rewrite (proj2 (Z.eqb_neq _ _)) by lia. assert (wild d = 1) as Hw by (unfold wild; by rewrite (proj2 (Z.ltb_lt _ _)) by lia).
    eapply triple_weaken; [by eapply set_poison_spec|intros f' Hf'; by eapply inv_covered|]. intros f1 H1. cbn [refines]. rewrite Hw1. rewrite Hw in H1.
    split; [done|]. split; [lia|]. split; [done|]. lia.
Qed.
Lemma poison_close_op P opens d f : refines (Live opens d) f -> 0 < d -> sub P (live_ghost opens (wild (d - 1))) ->
  triple f poison_close (covered P) (refines (Live opens (d - 1))).
Proof.
  intros (Hf & Hd & Hl & Hz) Hlt HP. unfold poison_close. apply triple_look. pose proof Hf as (_ & _ & [= Ht Hr]). cbv zeta.
  rewrite Hr, (proj2 (Z.eqb_neq _ 0)), (proj2 (Z.eqb_neq _ UINT64_MAX)) by lia. assert (wild d = 1) as Hw by (unfold wild; by rewrite (proj2 (Z.ltb_lt _ _)) by lia).
  rewrite Hw in Hf. destruct (Z.ltb_spec 1 d) as [H1|H1].
  - assert (wild (d - 1) = 1) as Hw1 by (unfold wild; by rewrite (proj2 (Z.ltb_lt _ _)) by lia). rewrite Hw1 in HP.
    eapply triple_weaken; [by eapply set_poison_spec|intros f' Hf'; by eapply inv_covered|]. intros f1 Hf1. cbn [refines]. rewrite Hw1.
    split; [done|]. split; [lia|]. split; [done|]. lia.
  - assert (d = 1) as -> by lia. change (wild (1 - 1)) with 0 in HP. change (1 - 1) with 0.
    eapply triple_seq; [apply (walk_cells (fun G f => inv G (Z.of_nat (length opens), 1) f) _ P (live_ghost opens 1) (live_ghost opens 0))|].
    + intros G G' f'. apply inv_ext.
    + intros i G' f' Hi EG Hf'. pose proof (f_equal fst EG) as E1. pose proof (f_equal snd EG) as E2. cbn in E1, E2.
      apply (close_cell_spec G' _ f' i (at_cell i opens) 0 Hf' Hi); [rewrite E1, E2; lia|rewrite E2; lia|by rewrite E1].
    + intros h Hh. right. cbn. lia.
    + done.
    + exact Hf.
    + intros f1 Hf1. eapply triple_seq; [eapply triple_weaken; [by eapply (set_poison_spec _ _ _ _ 0)| |]|].
      * intros f' Hf'. by eapply inv_covered.
      * intros f' Hf'. exact Hf'.
      * intros f2 H2. apply triple_look. pose proof H2 as (_ & _ & [= Ht2 _]). rewrite Ht2.
        eapply triple_weaken; [by apply (rebuild_drained_spec P opens 0)|done|]. intros f3 [H3 H3']. split; [done|]. split; [unfold UINT64_MAX; lia|]. split; [done|done].
Qed.
Lemma sub_both_l A A' G : sub (protects A) G -> sub (both A A') G.
Proof. intros H h [Hh _]. by apply H. Qed.
Lemma sub_both_r A A' G : sub (protects A') G -> sub (both A A') G.
Proof. intros H h [_ Hh]. by apply H. Qed.
#[local] Hint Resolve sub_both_l sub_both_r sub_live sub_perm : tomo.
Lemma refines_covered A f : refines A f -> covered (protects A) f.
Proof. destruct A as [opens d|]; intros Hf; [eapply inv_covered; [apply sub_live|apply Hf]|eapply inv_covered; [apply sub_perm|apply Hf]]. Qed.
Lemma perm_stays P o f : refines Perm f -> triple f (run_op o) (covered P) (refines Perm).
Proof.
  intros Hf. pose proof Hf as (HC & _ & [= Ht Hr]). pose proof (poison_permanently_spec P perm_ghost _ f (sub_perm P) HC eq_refl) as Hperm.
  destruct o as [hs|hs| | |]; cbn [run_op]; [..|exact Hperm]; apply triple_look.
  - destruct (_ =? 0); [by apply triple_done|]. cbv zeta. rewrite Ht, Z.eqb_refl. exact Hperm.
  - destruct (_ =? 0); [by apply triple_done|]. rewrite Hr, Z.eqb_refl. by apply triple_done.
  - cbv zeta. rewrite Hr, Z.eqb_refl. by apply triple_done.
  - cbv zeta. rewrite Hr, (proj2 (Z.eqb_neq UINT64_MAX 0)), Z.eqb_refl by done. by apply triple_done.
Qed.
Lemma op_spec A o A' f : refines A f -> astep A o A' -> triple f (run_op o) (covered (both A A')) (refines A').
Proof.
  intros Hf Hs. destruct Hs as [opens d hs Hn|opens d hs Hn|opens d hs rest Hp|opens d Hn|opens d Hn|opens d Hn|opens d|o]; cbn [run_op].
  - apply add_op; [done..|]. by auto with tomo.
  - destruct Hf as (Hf & _ & Hl & _). pose proof Hf as (HC & _ & [= Ht _]). apply triple_look. rewrite (proj2 (Z.eqb_neq _ 0)) by lia. cbv zeta. rewrite Ht.
    rewrite (proj2 (Z.ltb_lt _ _)), orb_true_r by lia. eapply poison_permanently_spec; [|exact HC|done]. by auto with tomo.
  - eapply close_op; [done..|]. by auto with tomo.
  - apply open_op; [done..|]. by auto with tomo.
  - destruct Hf as (Hf & Hd & _). pose proof Hf as (HC & _ & [= _ Hr]). apply triple_look. cbv zeta. rewrite Hr. rewrite (proj2 (Z.eqb_neq _ UINT64_MAX)) by lia.
    destruct (Z.eqb_spec d 0) as [->|]; cbn [negb]; [done|]. rewrite (proj2 (Z.eqb_eq d _)) by lia. eapply poison_permanently_spec; [|exact HC|done]. by auto with tomo.
  - apply poison_close_op; [done..|]. by auto with tomo.
  - destruct Hf as (Hf & _). eapply poison_permanently_spec; [|apply Hf|done]. by auto with tomo.
  - by apply perm_stays.
Qed.
Inductive aruns : Abs -> list OwnerOp -> Abs -> Prop :=
  | ar_nil A : aruns A [] A
  | ar_cons A o A1 os A2 : astep A o A1 -> aruns A1 os A2 -> aruns A (o :: os) A2.
Lemma machine_runs A os A' f : refines A f -> aruns A os A' -> triple f (each os run_op) (fun _ => True) (refines A').
Proof.
  intros Hf Hr. revert f Hf. induction Hr as [A|A o A1 os A2 Hs _ IH]; intros f Hf; cbn; [by apply triple_done|].
  eapply triple_seq; [eapply triple_weaken; [by eapply op_spec|done|]|exact IH]. by intros f' Hf'.
Qed.
Lemma filter_new_refines : refines (Live [] 0) safety_new.
Proof.
  assert (Forall (eq 0) (cells safety_new)) as H0 by (apply Forall_replicate; done). split; [|split; [unfold UINT64_MAX; lia|split; [unfold UINT64_MAX; cbn; lia|done]]].
  split; [|split; [|done]].
  - split; [apply length_replicate|apply length_replicate|]. intros i Hi. constructor 1; [|done|done]. unfold cell, safety_new, in_range in *. cbn [cells].
    apply lookup_total_replicate_2. lia.
  - symmetry. change (saturated_cells safety_new) with 0. apply (nfull_all false). eapply Forall_impl; [exact H0|]. by intros c <-.
Qed.

(** C8: The filter fails closed.  Along every run of the owner's operations in which only open
    spans are closed: no operation aborts; between operations every key of an open span, and
    every key at all while an unknown mutation is open or after an overflow, is reported to
    readers; the same holds after each single store inside the next operation, for the keys that
    are open before and after it; and once everything is closed no key is reported. *)
Theorem foreign_reads_fail_closed os A : aruns (Live [] 0) os A ->
  exists t, each os run_op safety_new = Some t /\
    let f := stop safety_new t in
    covered (protects A) f /\
    (forall o A', astep A o A' -> exists t', run_op o f = Some t' /\ Forall (covered (both A A')) t') /\
    (A = Live [] 0 -> forall h, might_contain f h = false).
Proof.
  intros Hr. destruct (machine_runs _ os A _ filter_new_refines Hr) as (t & E & _ & Hf). exists t. split; [done|]. cbv zeta. split; [by apply refines_covered|]. split.
  - intros o A' Hs. destruct (op_spec A o A' _ Hf Hs) as (t' & E' & HI & _). by exists t'.
  - intros -> h. destruct Hf as (Hf & _ & _ & Hz). pose proof (drained_cells _ _ Hf (Hz eq_refl eq_refl)) as H0. unfold might_contain.
    assert (cell (stop safety_new t) (cell_index h) = 0) as ->; [|done]. pose proof (cell_index_bound h) as Hi.
    pose proof (cell_lookup _ _ (ci_cells _ _ (proj1 Hf)) Hi) as El. rewrite Forall_lookup in H0. by rewrite <- (H0 _ _ El).
Qed.
Lemma foreign_reads_fail_closed_witness :
  let os := [OAdd [11; 12]; OPoisonOpen; OClose [12]; OPoisonClose] in
  aruns (Live [] 0) os (Live [11] 0) /\
  exists t, each os run_op safety_new = Some t /\
    let f := stop safety_new t in
    covered (protects (Live [11] 0)) f /\
    (forall o A', astep (Live [11] 0) o A' -> exists t', run_op o f = Some t' /\ Forall (covered (both (Live [11] 0) A')) t') /\
    (Live [11] 0 = Live [] 0 -> forall h, might_contain f h = false).
Proof.
  intros os. assert (aruns (Live [] 0) os (Live [11] 0)) as Hr; [|split; [exact Hr|exact (foreign_reads_fail_closed os (Live [11] 0) Hr)]].
  repeat (econstructor; [econstructor; (lia || (unfold UINT64_MAX; cbn; lia) || (apply Permutation_swap) || reflexivity)|]). constructor.
Defined.

(** * Touch epochs *)
Definition epoch (f : Filter) (i : Z) : Z := epochs f !!! Z.to_nat i.
Definition sized (f : Filter) : Prop := length (cells f) = Z.to_nat kCellCount /\ length (epochs f) = Z.to_nat kCellCount.
(** Along the stores of [t], bucket [i] is either left alone or its epoch advances. *)
Definition left_alone (f : Filter) (i : Z) (t : list Filter) : Prop := Forall (fun f' => cell f' i = cell f i /\ epoch f' i = epoch f i) t.
Definition advanced (f : Filter) (i : Z) (t : list Filter) : Prop :=
  exists k, 1 <= k <= Z.of_nat (length t) /\ epoch (stop f t) i = u32 (epoch f i + k).
Definition tracked (p : Prog) : Prop := forall f t, sized f -> p f = Some t ->
  Forall sized t /\ forall i, in_range i -> left_alone f i t \/ advanced f i t.
Lemma stop_in (Q : Filter -> Prop) f t : Q f -> Forall Q t -> Q (stop f t).
Proof. intros Hf Ht. unfold stop. destruct (last t) as [x|] eqn:E; [|done]. apply last_Some in E as (l & ->). apply Forall_app in Ht as [_ Hx]. by inversion Hx. Qed.
Lemma tracked_done : tracked done_.
Proof. intros f t _ [= <-]. split; [constructor|]. intros i _. left. constructor. Qed.
Lemma tracked_abort : tracked abort_.
Proof. by intros f t _ ?. Qed.
Lemma tracked_look k : (forall f, tracked (k f)) -> tracked (look k).
Proof. intros H f t Hf E. by apply (H f f t). Qed.
Lemma tracked_seq p q : tracked p -> tracked q -> tracked (p ;; q).
Proof.
  intros Hp Hq f t Hf E. unfold seq_ in E. destruct (p f) as [t1|] eqn:E1; [|done]. rewrite some_bind in E. destruct (q (stop f t1)) as [t2|] eqn:E2; [|done].
  rewrite some_bind in E. injection E as <-. destruct (Hp f t1 Hf E1) as [S1 A1]. assert (sized (stop f t1)) as Hf1 by (by apply stop_in).
  destruct (Hq _ t2 Hf1 E2) as [S2 A2]. split; [by apply Forall_app|]. intros i Hi.
  destruct (A1 i Hi) as [L1|(k1 & Hk1 & Ek1)].
  - assert (cell (stop f t1) i = cell f i /\ epoch (stop f t1) i = epoch f i) as [Ec Ee] by (by apply (stop_in (fun f' => cell f' i = cell f i /\ epoch f' i = epoch f i))).
    destruct (A2 i Hi) as [L2|(k2 & Hk2 & Ek2)].
    + left. apply Forall_app. split; [done|]. eapply Forall_impl; [exact L2|]. cbn. intros f' [-> ->]. done.
    + right. exists k2. rewrite length_app, stop_app. split; [lia|]. by rewrite Ek2, Ee.
  - right. destruct (A2 i Hi) as [L2|(k2 & Hk2 & Ek2)].
    + exists k1. rewrite length_app, stop_app. split; [lia|]. rewrite <- Ek1.
      by apply (stop_in (fun f' => cell f' i = cell (stop f t1) i /\ epoch f' i = epoch (stop f t1) i)).
    + exists (k1 + k2). rewrite length_app, stop_app. split; [lia|]. rewrite Ek2, Ek1. unfold u32. rewrite Zplus_mod_idemp_l. f_equal. lia.
Qed.
Lemma tracked_each {A} (l : list A) (p : A -> Prog) : (forall x, x ∈ l -> tracked (p x)) -> tracked (each l p).
Proof.
  induction l as [|x l IH]; intros H; cbn; [apply tracked_done|]. apply tracked_seq; [apply H; by left|]. apply IH. intros y Hy. apply H. by right.
Qed.
Lemma tracked_register g : (forall f, cells (g f) = cells f /\ epochs (g f) = epochs f) -> tracked (store g).
Proof.
  intros Hg f t [H1 H2] [= <-]. destruct (Hg f) as [E1 E2]. split; [constructor; [|constructor]; unfold sized; by rewrite E1, E2|].
  intros i _. left. constructor; [|constructor]. unfold cell, epoch. by rewrite E1, E2.
Qed.
(** Stores to one bucket, then its epoch. *)
Definition only_cell (i : Z) (p : Prog) : Prop := forall f t, sized f -> p f = Some t ->
  Forall sized t /\ forall f', f' ∈ t -> epochs f' = epochs f /\ forall j, in_range j -> j <> i -> cell f' j = cell f j.
Lemma tracked_touched i p : in_range i -> only_cell i p -> tracked (p ;; touch_epoch i).
Proof.
  intros Hi Hp f t Hf E. unfold seq_ in E. destruct (p f) as [t1|] eqn:E1; [|done]. rewrite some_bind in E. cbn in E. injection E as <-.
  destruct (Hp f t1 Hf E1) as [S1 O1]. assert (sized (stop f t1)) as [Hs1 Hs2] by (by apply stop_in).
  assert (epochs (stop f t1) = epochs f /\ forall j, in_range j -> j <> i -> cell (stop f t1) j = cell f j) as [Eep Ecell].
  { apply (stop_in (fun f' => epochs f' = epochs f /\ forall j, in_range j -> j <> i -> cell f' j = cell f j)); [done|]. apply Forall_forall. exact O1. }
  split; [apply Forall_app; split; [done|]; constructor; [|constructor]; split; cbn; [done|by rewrite length_insert]|]. intros j Hj.
  unfold in_range in *. destruct (decide (j = i)) as [->|Hne].
  - right. exists 1. rewrite length_app, stop_app. split; [cbn; lia|]. unfold epoch. cbn. rewrite list_lookup_total_insert_eq by lia. by rewrite Eep.
  - left. apply Forall_app. split.
    + apply Forall_forall. intros f' Hf'. destruct (O1 f' Hf') as [Ee Ec]. split; [by apply Ec|]. unfold epoch. by rewrite Ee.
    + constructor; [|constructor]. unfold epoch, cell in *. cbn. split; [by apply Ecell|]. rewrite list_lookup_total_insert_ne by lia. by rewrite Eep.
Qed.
Lemma only_done i : only_cell i done_.
Proof. intros f t _ [= <-]. split; [constructor|]. by intros f' ?%elem_of_nil. Qed.
Lemma only_look i k : (forall f, only_cell i (k f)) -> only_cell i (look k).
Proof. intros H f t Hf E. by apply (H f f t). Qed.
Lemma only_store i g : (forall f, sized f -> sized (g f) /\ epochs (g f) = epochs f /\ forall j, in_range j -> j <> i -> cell (g f) j = cell f j) -> only_cell i (store g).
Proof. intros H f t Hf [= <-]. destruct (H f Hf) as (H1 & H2). split; [by apply Forall_singleton|]. by intros f' ->%list_elem_of_singleton. Qed.
Lemma only_set_cell i v : in_range i -> only_cell i (set_cell i v).
Proof.
  intros Hi. apply only_store. intros f [H1 H2]. split_and!; [split; cbn; by rewrite ?length_insert|done|]. intros j Hj Hne. unfold cell. cbn. unfold in_range in *.
  apply list_lookup_total_insert_ne. lia.
Qed.
Lemma only_seq i p q : only_cell i p -> only_cell i q -> only_cell i (p ;; q).
Proof.
  intros Hp Hq f t Hf E. unfold seq_ in E. destruct (p f) as [t1|] eqn:E1; [|done]. rewrite some_bind in E. destruct (q (stop f t1)) as [t2|] eqn:E2; [|done].
  rewrite some_bind in E. injection E as <-. destruct (Hp f t1 Hf E1) as [S1 O1].
  assert (sized (stop f t1)) as Hs1 by (by apply stop_in). destruct (Hq _ t2 Hs1 E2) as [S2 O2].
  split; [by apply Forall_app|]. assert (epochs (stop f t1) = epochs f /\ forall j, in_range j -> j <> i -> cell (stop f t1) j = cell f j) as [Ee Ec].
  { apply (stop_in (fun f' => epochs f' = epochs f /\ forall j, in_range j -> j <> i -> cell f' j = cell f j)); [done|]. apply Forall_forall. exact O1. }
  intros f' [Hf'|Hf']%elem_of_app; [by apply O1|]. destruct (O2 f' Hf') as [E' C']. split; [by rewrite E'|]. intros j Hj Hne. by rewrite C', Ec.
Qed.
Lemma tracked_add_cell i fp w : in_range i -> tracked (add_cell i fp w).
Proof.
  intros Hi. apply tracked_touched; [done|]. apply only_look. intros f. cbv zeta. destruct (_ =? 0); [by apply only_set_cell|]. destruct (_ =? kCountMask); [apply only_done|].
  destruct (_ =? kCountMask); [|by apply only_set_cell]. apply only_seq; [by apply only_set_cell|]. apply only_look. intros f'. apply only_store. intros f2 Hs. by split_and!.
Qed.
Lemma tracked_close_cell i : in_range i -> tracked (close_cell i).
Proof.
  intros Hi. apply tracked_touched; [done|]. apply only_look. intros f. cbv zeta. destruct (_ =? 0); [by intros ? ? _ ?|].
  destruct (_ =? kCountMask); [apply only_done|]. destruct (_ =? 1); by apply only_set_cell.
Qed.
Lemma touch_all_epoch f t i : sized f -> touch_all_epochs f = Some t -> in_range i ->
  Forall sized t /\ epoch (stop f t) i = u32 (epoch f i + 1) /\ (1 <= length t)%nat.
Proof.
  intros Hf E Hi.
  set (Q (pre : list Z) (f' : Filter) := sized f' /\ forall j, in_range j -> epoch f' j = if decide (j ∈ pre) then u32 (epoch f j + 1) else epoch f j).
  assert (triple f touch_all_epochs sized (Q indices)) as (t' & E' & HI & [_ HQ]).
  { apply (triple_each indices touch_epoch sized Q).
    - split; [done|]. intros j _. by rewrite decide_False by apply not_elem_of_nil.
    - intros pre x post f' El [[H1 H2] H3]. assert (in_range x) as Hx by (apply indices_range; rewrite El, elem_of_app; right; by left).
      assert (x ∉ pre) as Hnx. { pose proof indices_nodup as Hnd. rewrite El in Hnd. apply NoDup_app in Hnd as (_ & Hd & _). intros Hin. apply (Hd x Hin). by left. }
      pose proof (H3 x Hx) as Hex. rewrite decide_False in Hex by done. unfold in_range in *.
      apply triple_store; [split; cbn; by rewrite ?length_insert|]. split; [split; cbn; by rewrite ?length_insert|]. intros j Hj. unfold epoch in *. cbn.
      destruct (decide (j = x)) as [->|Hne].
      + rewrite list_lookup_total_insert_eq by lia. rewrite decide_True by (rewrite elem_of_app; right; by left). by rewrite Hex.
      + rewrite list_lookup_total_insert_ne by lia. rewrite (H3 j Hj). destruct (decide (j ∈ pre)); [by rewrite decide_True by (rewrite elem_of_app; by left)|].
        by rewrite decide_False by (rewrite elem_of_app, list_elem_of_singleton; tauto). }
  rewrite E in E'. injection E' as <-. rewrite (HQ i Hi), decide_True by (by apply indices_range). split_and!; [done|done|].
  destruct t as [|x t]; [|cbn; lia]. exfalso. specialize (HQ i Hi). rewrite decide_True in HQ by (by apply indices_range). cbn [stop last default] in HQ.
  unfold u32 in HQ. set (e := epoch f i) in *. pose proof (Z.mod_pos_bound (e + 1) 4294967296 ltac:(lia)).
  destruct (decide (e + 1 < 4294967296)); [rewrite Z.mod_small in HQ by lia; lia|]. assert (e + 1 = 4294967296) as Ee by lia. rewrite Ee in HQ.
  rewrite Z_mod_same_full in HQ. lia.
Qed.
Lemma tracked_touch_all p : (forall f t, sized f -> p f = Some t -> Forall (fun f' => sized f' /\ epochs f' = epochs f) t) -> tracked (p ;; touch_all_epochs).
Proof.
  intros Hp f t Hf E. unfold seq_ in E. destruct (p f) as [t1|] eqn:E1; [|done]. rewrite some_bind in E. destruct (touch_all_epochs (stop f t1)) as [t2|] eqn:E2; [|done].
  rewrite some_bind in E. injection E as <-. pose proof (Hp f t1 Hf E1) as H1. assert (sized (stop f t1) /\ epochs (stop f t1) = epochs f) as [Hs Ee]
    by (apply (stop_in (fun f' => sized f' /\ epochs f' = epochs f)); [split; [exact Hf|reflexivity]|exact H1]).
  split.
  - apply Forall_app. split; [eapply Forall_impl; [exact H1|]; by intros ? [? _]|]. apply (touch_all_epoch _ t2 0 Hs E2). unfold in_range, kCellCount. lia.
  - intros i Hi. destruct (touch_all_epoch _ t2 i Hs E2 Hi) as (_ & Ei & Hl). right. exists 1. rewrite length_app, stop_app. split; [lia|]. rewrite Ei. unfold epoch. by rewrite Ee.
Qed.
Lemma tracked_assoc p q r : tracked ((p ;; q) ;; r) -> tracked (p ;; q ;; r).
Proof.
  intros H f t Hf E. apply H; [done|]. rewrite <- E. unfold seq_. destruct (p f) as [t1|]; [|done]. rewrite !some_bind. destruct (q (stop f t1)) as [t2|]; [|done].
  rewrite !some_bind, stop_app. destruct (r _); [|done]. rewrite !some_bind. by rewrite app_assoc.
Qed.
Lemma set_all_quiet v f t : sized f -> each indices (fun i => set_cell i v) f = Some t -> Forall (fun f' => sized f' /\ epochs f' = epochs f) t.
Proof.
  intros Hf E. assert (triple f (each indices (fun i => set_cell i v)) (fun f' => sized f' /\ epochs f' = epochs f) (fun f' => sized f' /\ epochs f' = epochs f)) as (t' & E' & HI & _).
  { apply (triple_each indices _ _ (fun _ f' => sized f' /\ epochs f' = epochs f)); [split; [exact Hf|reflexivity]|]. intros _ i _ f' _ [[H1 H2] He].
    apply triple_store; (split; [split; cbn; [rewrite length_insert; exact H1|exact H2]|exact He]). }
  rewrite E in E'. injection E' as <-. exact HI.
Qed.
Lemma tracked_rebuild n : tracked (rebuild_saturated_if_drained n).
Proof.
  apply tracked_look. intros f. destruct (_ || _); [apply tracked_done|]. apply tracked_assoc, tracked_seq; [apply tracked_touch_all, set_all_quiet|].
  by apply tracked_register.
Qed.
Lemma tracked_poison_permanently : tracked poison_permanently.
Proof.
  unfold poison_permanently. apply tracked_seq; [by apply tracked_register|]. apply tracked_seq; [by apply tracked_register|].
  apply tracked_assoc, tracked_seq; [apply tracked_touch_all, set_all_quiet|]. by apply tracked_register.
Qed.
Lemma tracked_op o : tracked (run_op o).
Proof.
  destruct o as [hs|hs| | |]; cbn [run_op]; [apply tracked_look; intros f; cbv zeta..|apply tracked_poison_permanently].
  - destruct (_ =? 0); [apply tracked_done|]. destruct (_ || _); [apply tracked_poison_permanently|]. apply tracked_seq; [by apply tracked_register|].
    apply tracked_each. intros h _. apply tracked_add_cell, cell_index_bound.
  - destruct (_ =? 0); [apply tracked_done|]. destruct (_ =? UINT64_MAX); [apply tracked_done|]. apply tracked_seq.
    + apply tracked_each. intros h _. apply tracked_close_cell, cell_index_bound.
    + apply tracked_look. intros f'. cbv zeta. destruct (_ <? _); [apply tracked_abort|]. apply tracked_seq; [by apply tracked_register|apply tracked_rebuild].
  - destruct (_ =? UINT64_MAX); [apply tracked_done|]. destruct (negb _); [destruct (_ =? _); [apply tracked_poison_permanently|by apply tracked_register]|].
    apply tracked_seq; [by apply tracked_register|]. apply tracked_each. intros i Hi%indices_range. by apply tracked_add_cell.
  - destruct (_ =? 0); [apply tracked_abort|]. destruct (_ =? UINT64_MAX); [apply tracked_done|]. destruct (1 <? _); [by apply tracked_register|].
    apply tracked_seq; [apply tracked_each; intros i Hi%indices_range; by apply tracked_close_cell|]. apply tracked_seq; [by apply tracked_register|].
    apply tracked_look. intros f'. apply tracked_rebuild.
Qed.
(** C26: The touch epochs validate a reader's window.  If the epoch of a key's bucket reads the
    same before and after a window of owner operations with fewer than 2^32 stores, then at every
    store inside the window the filter answered for that key as it did at the start: a bucket
    that was opened and closed again inside the window cannot go unnoticed. *)
Theorem epoch_window_sound os f t h : sized f -> 0 <= cell_epoch f h < 4294967296 -> each os run_op f = Some t ->
  Z.of_nat (length t) < 4294967296 -> cell_epoch (stop f t) h = cell_epoch f h ->
  Forall (fun f' => might_contain f' h = might_contain f h) t.
Proof.
  intros Hf He E Hl Heq. destruct (tracked_each os run_op (fun o _ => tracked_op o) f t Hf E) as [_ H]. destruct (H _ (cell_index_bound h)) as [L|(k & Hk & Ek)].
  - eapply Forall_impl; [exact L|]. cbn. intros f' [Ec _]. unfold might_contain. by rewrite Ec.
  - exfalso. unfold cell_epoch, epoch in *. rewrite Heq in Ek. set (e := epochs f !!! _) in *. unfold u32 in Ek.
    destruct (decide (e + k < 4294967296)); [rewrite Z.mod_small in Ek by lia; lia|].
    replace (e + k) with ((e + k - 4294967296) + 1 * 4294967296) in Ek by lia. rewrite Z_mod_plus_full, Z.mod_small in Ek by lia. lia.
Qed.
Lemma epoch_window_sound_witness :
  let f := safety_new in
  exists t, each [OAdd [11]; OClose [11]] run_op f = Some t /\ cell_epoch (stop f t) 12 = cell_epoch f 12 /\
    Forall (fun f' => might_contain f' 12 = might_contain f 12) t.
Proof.
  intros f. destruct (each [OAdd [11]; OClose [11]] run_op f) as [t|] eqn:E; [|exfalso; vm_compute in E; done]. exists t.
  assert ((length <$> each [OAdd [11]; OClose [11]] run_op f) = Some 6%nat /\ ((fun t => cell_epoch (stop f t) 12) <$> each [OAdd [11]; OClose [11]] run_op f) = Some 0) as [Hl He]
    by (split; vm_compute; reflexivity).
  rewrite E in Hl, He. injection Hl as Hl. injection He as He. split; [reflexivity|]. split; [exact He|].
  apply (epoch_window_sound [OAdd [11]; OClose [11]] f t 12); [split; apply length_replicate|vm_compute; split; [discriminate|reflexivity]|exact E|rewrite Hl; reflexivity|exact He].
Defined.
