(* ===== verification/Glob.v ===== *)
(** cmd/glob.cc: the glob matcher of KEYS, SCAN, PSUBSCRIBE and CONFIG GET.

    The routine walks pattern and text by pointers; both are bytes behind [mem_get], so an answer
    also says that no byte outside them is read.  [std::tolower] is a parameter: the reference
    meaning uses the same function.  The recursion through a star carries a flag that cuts off
    retries once an inner star has run out of text, and a nesting limit of 1000. *)
From S2P Require Import Prelude.

Definition STAR : Z := 42.
Definition QMARK : Z := 63.
Definition LBRACK : Z := 91.
Definition RBRACK : Z := 93.
Definition CARET : Z := 94.
Definition BSLASH : Z := 92.
Definition DASH : Z := 45.
Definition kMaxNesting : Z := 1000.
(** [static_cast<signed char>]. *)
Definition schar (b : Z) : Z := if b <? 128 then b else b - 256.

Section Glob.
Context (tolower : Z -> Z) (nocase : bool) (pattern text : bytes).

Definition same_char (a b : Z) : bool :=
  if nocase then tolower (schar a) =? tolower (schar b) else a =? b.
Definition in_range (a b c : Z) : bool :=
  let '(start, end_, candidate) := (schar a, schar b, schar c) in
  let '(start, end_) := if end_ <? start then (end_, start) else (start, end_) in
  let '(start, end_, candidate) := if nocase then (tolower start, tolower end_, tolower candidate) else (start, end_, candidate) in
  (start <=? candidate) && (candidate <=? end_).

(** The body of a class, from the byte after [[] or [[^]: where the pattern stands after the loop. *)
Fixpoint class_loop (fuel : nat) (p plen c : Z) (matched : bool) : option (Z * Z * bool) :=
  match fuel with
  | O => None
  | S fuel =>
      if plen =? 0 then Some (p - 1, plen + 1, matched)
      else
        p0 ← mem_get pattern p;
        if (2 <=? plen) && (p0 =? BSLASH) then
          p1 ← mem_get pattern (p + 1);
          class_loop fuel (p + 2) (plen - 2) c (matched || (p1 =? c))
        else if p0 =? RBRACK then Some (p, plen, matched)
        else
          dash ← (if 3 <=? plen then p1 ← mem_get pattern (p + 1); Some (p1 =? DASH) else Some false);
          if dash : bool then
            p2 ← mem_get pattern (p + 2);
            class_loop fuel (p + 3) (plen - 3) c (matched || in_range p0 p2 c)
          else class_loop fuel (p + 1) (plen - 1) c (matched || same_char p0 c)
  end.
(** [while (pattern_len > 1 && pattern[1] == '*')]. *)
Fixpoint skip_stars (fuel : nat) (p plen : Z) : option (Z * Z) :=
  match fuel with
  | O => None
  | S fuel =>
      if 1 <? plen then p1 ← mem_get pattern (p + 1); if p1 =? STAR then skip_stars fuel (p + 1) (plen - 1) else Some (p, plen)
      else Some (p, plen)
  end.
(** [while (pattern_len && pattern[0] == '*')], at the end of the text. *)
Fixpoint drop_stars (fuel : nat) (p plen : Z) : option (Z * Z) :=
  match fuel with
  | O => None
  | S fuel =>
      if plen =? 0 then Some (p, plen)
      else p0 ← mem_get pattern p; if p0 =? STAR then drop_stars fuel (p + 1) (plen - 1) else Some (p, plen)
  end.
(** The retries of a star: [rec] is the recursive call on the rest of the pattern. *)
Fixpoint star_loop (n : nat) (rec : Z -> Z -> bool -> option (bool * bool)) (s slen : Z) (skip : bool) : option (bool * bool) :=
  match n with
  | O => Some (false, true)
  | S n =>
      '(r, skip) ← rec s slen skip;
      if r : bool then Some (true, skip)
      else if skip : bool then Some (false, skip)
      else star_loop n rec (s + 1) (slen - 1) skip
  end.
(** One turn of the outer loop: where pattern and text stand, or the text did not match. *)
Definition one_char (p plen s slen p0 : Z) : option (option (Z * Z * Z * Z)) :=
  s0 ← mem_get text s;
  if p0 =? QMARK then Some (Some (p + 1, plen - 1, s + 1, slen - 1))
  else if p0 =? LBRACK then
    let p := p + 1 in let plen := plen - 1 in
    negate ← (if negb (plen =? 0) then c ← mem_get pattern p; Some (c =? CARET) else Some false);
    let '(p, plen) := if negate : bool then (p + 1, plen - 1) else (p, plen) in
    '(p, plen, matched) ← class_loop (S (Z.to_nat plen)) p plen s0 false;
    if (if negate : bool then negb matched else matched) : bool then Some (Some (p + 1, plen - 1, s + 1, slen - 1)) else Some None
  else
    let '(p, plen) := if (p0 =? BSLASH) && (2 <=? plen) then (p + 1, plen - 1) else (p, plen) in
    c ← mem_get pattern p;
    if same_char c s0 then Some (Some (p + 1, plen - 1, s + 1, slen - 1)) else Some None.
Fixpoint glob_loop (fuel : nat) (p plen s slen : Z) (skip : bool) (nesting : Z) : option (bool * bool) :=
  match fuel with
  | O => None
  | S fuel =>
      if negb (plen =? 0) && negb (slen =? 0) then
        p0 ← mem_get pattern p;
        if p0 =? STAR then
          '(p, plen) ← skip_stars (S (Z.to_nat plen)) p plen;
          if plen =? 1 then Some (true, skip)
          else
            star_loop (Z.to_nat slen)
              (fun s slen skip => if kMaxNesting <? nesting + 1 then Some (false, skip)
                                  else glob_loop fuel (p + 1) (plen - 1) s slen skip (nesting + 1)) s slen skip
        else
          next ← one_char p plen s slen p0;
          match next with
          | None => Some (false, skip)
          | Some (p, plen, s, slen) =>
              if slen =? 0 then '(p, plen) ← drop_stars (S (Z.to_nat plen)) p plen; Some (plen =? 0, skip)
              else glob_loop fuel p plen s slen skip nesting
          end
      else Some ((plen =? 0) && (slen =? 0), skip)
  end.
Definition glob_match_impl : option (bool * bool) :=
  glob_loop (S (length pattern)) 0 (Z.of_nat (length pattern)) 0 (Z.of_nat (length text)) false 0.
End Glob.
Definition command_glob_match (tolower : Z -> Z) (pattern text : bytes) (nocase : bool) : option bool :=
  '(r, _) ← glob_match_impl tolower nocase pattern text; Some r.

(** * The meaning of a pattern *)
Inductive Item := IExact (c : Z) | IRange (a b : Z) | IChar (c : Z).
Inductive Tok := TStar | TAny | TClass (negate : bool) (items : list Item) | TLit (c : Z).

(** The items of a class and the pattern behind it; a class may end with the pattern. *)
Fixpoint class_items (l : bytes) : list Item * bytes :=
  match l with
  | [] => ([], [])
  | c :: t =>
      match t with
      | e :: t' =>
          if c =? BSLASH then let '(is_, r) := class_items t' in (IExact e :: is_, r)
          else if c =? RBRACK then ([], t)
          else
            match t' with
            | f :: t'' => if e =? DASH then let '(is_, r) := class_items t'' in (IRange c f :: is_, r)
                          else let '(is_, r) := class_items t in (IChar c :: is_, r)
            | [] => let '(is_, r) := class_items t in (IChar c :: is_, r)
            end
      | [] => if c =? RBRACK then ([], []) else ([IChar c], [])
      end
  end.
(** The first token and the rest. *)
Definition next_tok (c : Z) (t : bytes) : Tok * bytes :=
  if c =? STAR then (TStar, t)
  else if c =? QMARK then (TAny, t)
  else if c =? LBRACK then
    match t with
    | n :: t' => if n =? CARET then let '(is_, r) := class_items t' in (TClass true is_, r)
                 else let '(is_, r) := class_items t in (TClass false is_, r)
    | [] => (TClass false [], [])
    end
  else if c =? BSLASH then match t with e :: t' => (TLit e, t') | [] => (TLit c, []) end
  else (TLit c, t).
Fixpoint tokens_of (fuel : nat) (l : bytes) : list Tok :=
  match fuel, l with
  | S fuel, c :: t => let '(k, r) := next_tok c t in k :: tokens_of fuel r
  | _, _ => []
  end.
Definition tokens (l : bytes) : list Tok := tokens_of (length l) l.

Section Meaning.
Context (tolower : Z -> Z) (nocase : bool).
Definition item_ok (c : Z) (i : Item) : bool :=
  match i with
  | IExact e => e =? c
  | IRange a b => in_range tolower nocase a b c
  | IChar d => same_char tolower nocase d c
  end.
Definition tok_ok (k : Tok) (c : Z) : bool :=
  match k with
  | TStar => false
  | TAny => true
  | TClass negate is_ => if negate then negb (existsb (item_ok c) is_) else existsb (item_ok c) is_
  | TLit d => same_char tolower nocase d c
  end.
(** A star stands for any string, every other token for one byte. *)
Fixpoint matches (ks : list Tok) (s : bytes) : bool :=
  match ks with
  | [] => match s with [] => true | _ => false end
  | TStar :: ks => existsb (fun i => matches ks (drop i s)) (seq 0 (S (length s)))
  | k :: ks => match s with c :: s => tok_ok k c && matches ks s | [] => false end
  end.
End Meaning.

(** * Pointers into a string *)
(** [p] and [plen] stand for the suffix [w] of [l]. *)
Definition view (l : bytes) (p plen : Z) (w : bytes) : Prop := 0 <= p /\ w = drop (Z.to_nat p) l /\ plen = Z.of_nat (length w).
Lemma view_cons l p plen c t : view l p plen (c :: t) -> mem_get l p = Some c /\ view l (p + 1) (plen - 1) t /\ 1 <= plen.
Proof.
  intros (Hp & E & ->). cbn [length]. split_and!; [|split_and!|]; try lia.
  - unfold mem_get. rewrite (proj2 (Z.leb_le 0 p)) by lia. by rewrite <- (Nat.add_0_r (Z.to_nat p)), <- lookup_drop, <- E.
  - replace (Z.to_nat (p + 1)) with (Z.to_nat p + 1)%nat by lia. by rewrite <- drop_drop, <- E.
Qed.
Lemma view_nil l p plen : view l p plen [] -> plen = 0.
Proof. by intros (_ & _ & ->). Qed.
Lemma view_step l p plen p' plen' w : view l p plen w -> p' = p -> plen' = plen -> view l p' plen' w.
Proof. by intros ? -> ->. Qed.

(** * Tokens *)
Lemma class_items_2 c e t : class_items (c :: e :: t) =
  if c =? BSLASH then (IExact e :: (class_items t).1, (class_items t).2)
  else if c =? RBRACK then ([], e :: t)
  else match t with
       | f :: t'' => if e =? DASH then (IRange c f :: (class_items t'').1, (class_items t'').2)
                     else (IChar c :: (class_items (e :: t)).1, (class_items (e :: t)).2)
       | [] => (IChar c :: (class_items [e]).1, (class_items [e]).2)
       end.
Proof.
  change (class_items (c :: e :: t)) with
    (if c =? BSLASH then let '(is_, r) := class_items t in (IExact e :: is_, r)
     else if c =? RBRACK then ([], e :: t)
     else match t with
       | f :: t'' => if e =? DASH then let '(is_, r) := class_items t'' in (IRange c f :: is_, r)
                     else let '(is_, r) := class_items (e :: t) in (IChar c :: is_, r)
       | [] => let '(is_, r) := class_items (e :: t) in (IChar c :: is_, r)
       end).
  destruct (c =? BSLASH); [by destruct (class_items t)|]. destruct (c =? RBRACK); [done|].
  destruct t as [|f t'']; [by destruct (class_items [e])|].
  destruct (e =? DASH); [by destruct (class_items t'')|by destruct (class_items (e :: f :: t''))].
Qed.
Lemma class_items_length l : (length (class_items l).2 <= length l)%nat.
Proof.
  remember (length l) as n eqn:En. revert l En. induction (lt_wf n) as [n _ IH]. intros l ->.
  assert (forall l', (length l' < length l)%nat -> (length (class_items l').2 <= length l')%nat) as IH'.
  { intros l' Hl. by apply (IH (length l') Hl l'). }
  clear IH. destruct l as [|c [|e t]]; [done|cbn; destruct (c =? RBRACK); cbn; lia|]. rewrite class_items_2.
  pose proof (IH' t ltac:(cbn; lia)) as H1. pose proof (IH' (e :: t) ltac:(cbn; lia)) as H2. cbn [length] in *.
  destruct (c =? BSLASH); [cbn [snd]; lia|]. destruct (c =? RBRACK); [cbn; lia|].
  destruct t as [|f t]; [cbn [snd length] in *; lia|]. pose proof (IH' t ltac:(cbn; lia)).
  destruct (e =? DASH); cbn [snd length] in *; lia.
Qed.
Lemma next_tok_length c t : (length (next_tok c t).2 <= length t)%nat.
Proof.
  unfold next_tok. destruct (c =? STAR), (c =? QMARK); try done. destruct (c =? LBRACK).
  - destruct t as [|n t']; [done|]. pose proof (class_items_length t') as H1. pose proof (class_items_length (n :: t')) as H2.
    destruct (n =? CARET); [destruct (class_items t')|destruct (class_items (n :: t'))]; cbn in *; lia.
  - destruct (c =? BSLASH); [|done]. destruct t; cbn; lia.
Qed.
Lemma tokens_of_enough fuel l : (length l <= fuel)%nat -> tokens_of fuel l = tokens l.
Proof.
  unfold tokens. remember (length l) as n eqn:En. revert fuel l En. induction (lt_wf n) as [n _ IH]. intros fuel l -> Hf.
  destruct l as [|c t]; [by destruct fuel|]. destruct fuel as [|fuel]; [cbn in Hf; lia|]. cbn [tokens_of length].
  pose proof (next_tok_length c t) as Hl. destruct (next_tok c t) as [k r]. cbn [snd] in Hl. f_equal. cbn [length] in *.
  rewrite (IH (length r) ltac:(lia) fuel r eq_refl) by lia. symmetry. apply (IH (length r)); lia.
Qed.
Lemma tokens_cons c t : tokens (c :: t) = (next_tok c t).1 :: tokens (next_tok c t).2.
Proof.
  unfold tokens at 1. cbn [tokens_of length]. pose proof (next_tok_length c t). destruct (next_tok c t) as [k r]. cbn [fst snd] in *.
  f_equal. by apply tokens_of_enough.
Qed.

Section Proof.
Context (tolower : Z -> Z) (nocase : bool).
Abbreviation matches := (matches tolower nocase).
Abbreviation tok_ok := (tok_ok tolower nocase).

Lemma existsb_orb {A} (f : A -> bool) x l m : (m || f x) || existsb f l = m || existsb f (x :: l).
Proof. cbn. by rewrite orb_assoc. Qed.
Lemma class_loop_spec pattern fuel p plen c m w : view pattern p plen w -> plen < Z.of_nat fuel ->
  exists p' plen', class_loop tolower nocase pattern fuel p plen c m = Some (p', plen', m || existsb (item_ok tolower nocase c) (class_items w).1) /\
    view pattern (p' + 1) (plen' - 1) (class_items w).2.
Proof.
  revert p plen m w. induction fuel as [|fuel IH]; intros p plen m w Hv Hf; [destruct Hv as (_ & _ & ->); lia|]. cbn [class_loop].
  destruct w as [|c0 t].
  { pose proof (view_nil _ _ _ Hv) as ->. cbn [Z.eqb class_items fst snd existsb]. exists (p - 1), (0 + 1). rewrite orb_false_r. split; [done|].
    eapply view_step; [exact Hv|lia|lia]. }
  destruct (view_cons _ _ _ _ _ Hv) as (E0 & Hv1 & Hp1). rewrite (proj2 (Z.eqb_neq plen 0)), E0, some_bind by lia.
  assert (length (c0 :: t) = Z.to_nat plen) as Hlen by (destruct Hv as (_ & _ & ->); lia). cbn [length] in Hlen.
  assert (forall w' x, view pattern (p + 1) (plen - 1) w' -> exists p' plen', class_loop tolower nocase pattern fuel (p + 1) (plen - 1) c (m || item_ok tolower nocase c x) =
     Some (p', plen', m || existsb (item_ok tolower nocase c) (x :: (class_items w').1)) /\ view pattern (p' + 1) (plen' - 1) (class_items w').2) as Hnext.
  { intros w' x Hw. destruct (IH (p + 1) (plen - 1) (m || item_ok tolower nocase c x) w' Hw ltac:(lia)) as (p' & plen' & -> & Hv'). exists p', plen'.
    by rewrite existsb_orb. }
  destruct t as [|e t].
  { rewrite (proj2 (Z.leb_gt 2 plen)), (proj2 (Z.leb_gt 3 plen)) by (cbn in Hlen; lia). cbn [andb class_items]. rewrite some_bind.
    destruct (c0 =? RBRACK); cbn [fst snd].
    - exists p, plen. cbn [existsb]. by rewrite orb_false_r.
    - exact (Hnext [] (IChar c0) Hv1). }
  rewrite (proj2 (Z.leb_le 2 plen)) by (cbn in Hlen; lia). cbn [andb]. destruct (view_cons _ _ _ _ _ Hv1) as (E1 & Hv2 & _). rewrite E1, some_bind.
  rewrite class_items_2. destruct (c0 =? BSLASH).
  { destruct (IH (p + 2) (plen - 2) (m || (e =? c)) t) as (p' & plen' & -> & Hv'); [eapply view_step; [exact Hv2|lia..]|lia|].
    exists p', plen'. cbn [fst snd] in *. by rewrite <- (existsb_orb _ (IExact e)). }
  destruct (c0 =? RBRACK). { exists p, plen. cbn [fst snd existsb]. by rewrite orb_false_r. }
  destruct t as [|f t].
  { rewrite (proj2 (Z.leb_gt 3 plen)) by (cbn in Hlen; lia). rewrite !some_bind. exact (Hnext [e] (IChar c0) Hv1). }
  rewrite (proj2 (Z.leb_le 3 plen)) by (cbn in Hlen; lia). rewrite some_bind.
  destruct (e =? DASH); [|exact (Hnext (e :: f :: t) (IChar c0) Hv1)].
  destruct (view_cons _ _ _ _ _ Hv2) as (E2 & Hv3 & _). replace (p + 2) with (p + 1 + 1) by lia. rewrite E2, !some_bind.
  destruct (IH (p + 3) (plen - 3) (m || in_range tolower nocase c0 f c) t) as (p' & plen' & -> & Hv'); [eapply view_step; [exact Hv3|lia..]|lia|].
  exists p', plen'. cbn [fst snd] in *. by rewrite <- (existsb_orb _ (IRange c0 f)).
Qed.

(** * One turn and the star loops *)
Definition is_star (k : Tok) : bool := match k with TStar => true | _ => false end.
Definition stars (ks : list Tok) : Z := Z.of_nat (length (List.filter is_star ks)).
Lemma stars_cons k ks : stars (k :: ks) = (if is_star k then 1 else 0) + stars ks.
Proof. unfold stars. cbn. destruct (is_star k); cbn [length]; lia. Qed.
Lemma next_tok_star t : next_tok STAR t = (TStar, t).
Proof. done. Qed.
Lemma next_tok_no_star c t : c <> STAR -> is_star (next_tok c t).1 = false.
Proof.
  intros Hc. unfold next_tok. rewrite (proj2 (Z.eqb_neq c STAR)) by done. destruct (c =? QMARK); [done|]. destruct (c =? LBRACK).
  - destruct t as [|n t']; [done|]. destruct (n =? CARET); [by destruct (class_items t')|by destruct (class_items (n :: t'))].
  - destruct (c =? BSLASH); [by destruct t|done].
Qed.
Lemma matches_tok k ks c v : is_star k = false -> matches (k :: ks) (c :: v) = tok_ok k c && matches ks v.
Proof. by destruct k. Qed.
Lemma matches_tok_nil k ks : is_star k = false -> matches (k :: ks) [] = false.
Proof. by destruct k. Qed.
Lemma matches_star ks v : matches (TStar :: ks) v = true <-> exists i, matches ks (drop i v) = true.
Proof.
  cbn [Glob.matches]. rewrite existsb_exists. split.
  - intros (i & _ & H). by exists i.
  - intros (i & H). destruct (decide (i <= length v)%nat).
    + exists i. split; [|done]. apply in_seq. lia.
    + exists (length v). split; [apply in_seq; lia|]. rewrite drop_all. by rewrite drop_ge in H by lia.
Qed.
Lemma matches_star_false ks v : matches (TStar :: ks) v = false <-> forall i, matches ks (drop i v) = false.
Proof.
  rewrite <- not_true_iff_false, matches_star. split.
  - intros H i. apply not_true_iff_false. intros Hi. apply H. by exists i.
  - intros H (i & Hi). by rewrite H in Hi.
Qed.
Lemma matches_star_star ks v : matches (TStar :: TStar :: ks) v = matches (TStar :: ks) v.
Proof.
  apply eq_true_iff_eq. rewrite !matches_star. split.
  - intros (i & (j & H)%matches_star). exists (i + j)%nat. by rewrite <- drop_drop.
  - intros (i & H). exists i. apply matches_star. by exists 0%nat.
Qed.

Lemma one_char_spec pattern text p plen s slen c t s0 v :
  view pattern p plen (c :: t) -> view text s slen (s0 :: v) -> c <> STAR ->
  exists p' plen', view pattern p' plen' (next_tok c t).2 /\
    one_char tolower nocase pattern text p plen s slen c = Some (if tok_ok (next_tok c t).1 s0 then Some (p', plen', s + 1, slen - 1) else None).
Proof.
  intros Hp Hs Hc. destruct (view_cons _ _ _ _ _ Hp) as (E0 & Hp1 & Hlen), (view_cons _ _ _ _ _ Hs) as (Es & _ & _).
  unfold one_char, next_tok. rewrite Es, some_bind, (proj2 (Z.eqb_neq c STAR)) by done.
  destruct (c =? QMARK); [by exists (p + 1), (plen - 1)|]. destruct (c =? LBRACK).
  - destruct t as [|n t'].
    { assert (plen = 1) as -> by (pose proof (view_nil _ _ _ Hp1); lia). replace (1 - 1) with 0 in * by lia. cbn [Z.eqb negb]. rewrite some_bind.
      destruct (class_loop_spec pattern (S (Z.to_nat 0)) (p + 1) 0 s0 false [] Hp1 ltac:(lia)) as (p' & plen' & -> & Hv). rewrite some_bind.
      by exists (p' + 1), (plen' - 1). }
    destruct (view_cons _ _ _ _ _ Hp1) as (En & Hp2 & ?). rewrite (proj2 (Z.eqb_neq (plen - 1) 0)) by lia. cbn [negb].
    rewrite En, !some_bind. destruct (n =? CARET).
    + destruct (class_loop_spec pattern (S (Z.to_nat (plen - 1 - 1))) _ _ s0 false _ Hp2 ltac:(lia)) as (p' & plen' & -> & Hv). rewrite some_bind.
      exists (p' + 1), (plen' - 1). destruct (class_items t') as [is_ r]. split; [exact Hv|]. cbn. by destruct (existsb _ is_).
    + destruct (class_loop_spec pattern (S (Z.to_nat (plen - 1))) _ _ s0 false _ Hp1 ltac:(lia)) as (p' & plen' & -> & Hv). rewrite some_bind.
      exists (p' + 1), (plen' - 1). destruct (class_items (n :: t')) as [is_ r]. split; [exact Hv|]. cbn. by destruct (existsb _ is_).
  - destruct (c =? BSLASH) eqn:Eb; cbn [andb]; [destruct t as [|e t']|].
    + pose proof (view_nil _ _ _ Hp1). rewrite (proj2 (Z.leb_gt 2 plen)), E0, some_bind by lia. exists (p + 1), (plen - 1). split; [exact Hp1|].
      cbn [fst Glob.tok_ok]. by destruct (same_char _ _ c s0).
    + destruct (view_cons _ _ _ _ _ Hp1) as (E1 & Hp2 & ?). rewrite (proj2 (Z.leb_le 2 plen)), E1, some_bind by lia.
      exists (p + 1 + 1), (plen - 1 - 1). split; [exact Hp2|]. cbn [fst Glob.tok_ok]. by destruct (same_char _ _ e s0).
    + rewrite E0, some_bind. exists (p + 1), (plen - 1). split; [exact Hp1|]. cbn [fst Glob.tok_ok]. by destruct (same_char _ _ c s0).
Qed.

(** Neighbouring stars collapse into the last one. *)
Lemma skip_stars_spec pattern fuel p plen t : view pattern p plen (STAR :: t) -> plen < Z.of_nat fuel ->
  exists p' plen' t', skip_stars pattern fuel p plen = Some (p', plen') /\ view pattern p' plen' (STAR :: t') /\ (length t' <= length t)%nat /\
    (forall v, matches (TStar :: tokens t) v = matches (TStar :: tokens t') v) /\ stars (tokens t') <= stars (tokens t) /\ hd_error t' <> Some STAR.
Proof.
  revert p plen t. induction fuel as [|fuel IH]; intros p plen t Hv Hf; [destruct Hv as (_ & _ & ->); lia|]. cbn [skip_stars].
  destruct (view_cons _ _ _ _ _ Hv) as (_ & Hv1 & Hl). destruct t as [|e t].
  { pose proof (view_nil _ _ _ Hv1). rewrite (proj2 (Z.ltb_ge 1 plen)) by lia. by exists p, plen, []. }
  destruct (view_cons _ _ _ _ _ Hv1) as (E1 & _ & ?). rewrite (proj2 (Z.ltb_lt 1 plen)), E1, some_bind by lia.
  destruct (Z.eqb_spec e STAR) as [->|Hne].
  - destruct (IH (p + 1) (plen - 1) t Hv1 ltac:(lia)) as (p' & plen' & t' & -> & Hv' & Hl' & Hm & Hst & Hh). exists p', plen', t'.
    split_and!; [done|done|cbn; lia| | |done].
    + intros v. by rewrite tokens_cons, next_tok_star, matches_star_star.
    + rewrite tokens_cons, next_tok_star. rewrite stars_cons. cbn [fst snd is_star]. lia.
  - exists p, plen, (e :: t). split_and!; try done; try lia. cbn. by intros [= ->].
Qed.
Lemma drop_stars_spec pattern fuel p plen w : view pattern p plen w -> plen < Z.of_nat fuel ->
  exists p' plen', drop_stars pattern fuel p plen = Some (p', plen') /\ (plen' =? 0) = matches (tokens w) [].
Proof.
  revert p plen w. induction fuel as [|fuel IH]; intros p plen w Hv Hf; [destruct Hv as (_ & _ & ->); lia|]. cbn [drop_stars].
  destruct w as [|c t]; [pose proof (view_nil _ _ _ Hv) as ->; by exists p, 0|].
  destruct (view_cons _ _ _ _ _ Hv) as (E0 & Hv1 & Hl). rewrite (proj2 (Z.eqb_neq plen 0)), E0, some_bind, tokens_cons by lia.
  destruct (Z.eqb_spec c STAR) as [->|Hne].
  - destruct (IH (p + 1) (plen - 1) t Hv1 ltac:(lia)) as (p' & plen' & -> & Hm). exists p', plen'. split; [done|]. rewrite Hm, next_tok_star.
    cbn. by rewrite orb_false_r.
  - exists p, plen. split; [done|]. rewrite matches_tok_nil by (by apply next_tok_no_star). by apply Z.eqb_neq; lia.
Qed.

(** * The matcher *)
(** What a call on the rest [w] of the pattern and [v] of the text may answer; [bound] says that the nesting limit is out of reach. *)
Definition answer (bound : Prop) (ks : list Tok) (v : bytes) (a : option (bool * bool)) : Prop :=
  exists r sk, a = Some (r, sk) /\ (r = true -> matches ks v = true) /\
    (bound -> r = matches ks v /\ (sk = true -> r = false -> forall j, matches ks (drop j v) = false)).
Lemma answer_exact bound ks v r sk : r = matches ks v -> (sk = true -> r = false -> forall j, matches ks (drop j v) = false) ->
  answer bound ks v (Some (r, sk)).
Proof. intros -> H. eexists _, _. by split_and!. Qed.

Lemma star_loop_spec text bound ks rec v s slen : matches ks [] = false -> view text s slen v ->
  (forall s slen c v, view text s slen (c :: v) -> answer bound ks (c :: v) (rec s slen false)) ->
  answer bound (TStar :: ks) v (star_loop (length v) rec s slen false).
Proof.
  intros Hnil Hv Hrec. revert s slen Hv. induction v as [|c v IH]; intros s slen Hv; cbn [length star_loop].
  - apply answer_exact; [cbn; by rewrite Hnil|]. intros _ _ j. rewrite drop_nil. cbn. by rewrite Hnil.
  - destruct (Hrec _ _ _ _ Hv) as (r & sk & -> & Hs & Hb). rewrite some_bind. destruct r.
    { eexists _, _. split; [done|]. assert (matches (TStar :: ks) (c :: v) = true) as Hm by (apply matches_star; exists 0%nat; by apply Hs).
      split_and!; [done|]. intros _. by rewrite Hm. }
    assert ((forall i, matches ks (drop i (c :: v)) = false) -> forall j, matches (TStar :: ks) (drop j (c :: v)) = false) as Hall.
    { intros H j. apply matches_star_false. intros i. by rewrite drop_drop. }
    destruct sk.
    { eexists _, _. split; [done|]. split; [done|]. intros HB. destruct (Hb HB) as [_ Hj]. specialize (Hj eq_refl eq_refl).
      split; [symmetry; exact (Hall Hj 0%nat)|]. intros _ _. by apply Hall. }
    destruct (view_cons _ _ _ _ _ Hv) as (_ & Hv1 & _). destruct (IH _ _ Hv1) as (r & sk & -> & Hs' & Hb'). eexists _, _. split; [done|]. split.
    { intros Hr. apply matches_star. destruct (proj1 (matches_star _ _) (Hs' Hr)) as (i & Hi). by exists (S i). }
    intros HB. destruct (Hb HB) as [H0 _]. destruct (Hb' HB) as [H1 _].
    assert (r = false -> forall i, matches ks (drop i (c :: v)) = false) as Hf.
    { intros ->. symmetry in H1. rewrite matches_star_false in H1. intros [|i]; [done|]. cbn [drop]. apply H1. }
    split; [|intros _ Hr; by apply Hall, Hf]. destruct r.
    + symmetry. apply matches_star. destruct (proj1 (matches_star _ _) (Hs' eq_refl)) as (i & Hi). by exists (S i).
    + symmetry. exact (Hall (Hf eq_refl) 0%nat).
Qed.
Lemma answer_star_ext bound ks ks' v a : (forall v, matches ks v = matches ks' v) -> answer bound ks' v a -> answer bound ks v a.
Proof. intros Hm (r & sk & -> & Hs & Hb). eexists _, _. setoid_rewrite Hm. by split_and!. Qed.
Lemma answer_bound (P Q : Prop) ks v a : (Q -> P) -> answer P ks v a -> answer Q ks v a.
Proof. intros HPQ (r & sk & -> & Hs & Hb). eexists _, _. split_and!; [done..|]. intros HQ. by apply Hb, HPQ. Qed.
Lemma answer_tok bound k ks c v a : is_star k = false -> tok_ok k c = true -> answer bound ks v a -> answer bound (k :: ks) (c :: v) a.
Proof.
  intros Hk Hc (r & sk & -> & Hs & Hb). eexists _, _. split; [done|]. rewrite matches_tok, Hc by done. split; [done|].
  intros HB. destruct (Hb HB) as [? Hj]. split; [done|]. intros Hsk Hr j. specialize (Hj Hsk Hr).
  destruct (drop j (c :: v)) as [|d v'] eqn:Ed; [by apply matches_tok_nil|]. rewrite matches_tok by done.
  assert (v' = drop j v) as ->; [|by rewrite Hj, andb_false_r].
  rewrite <- (drop_0 v'). change (drop 0 v') with (drop 1 (d :: v')). rewrite <- Ed, drop_drop. by rewrite Nat.add_1_r.
Qed.

Lemma glob_loop_spec pattern text fuel p plen s slen nesting w c v :
  view pattern p plen w -> view text s slen (c :: v) -> (length w < fuel)%nat ->
  answer (nesting + stars (tokens w) <= kMaxNesting) (tokens w) (c :: v)
    (glob_loop tolower nocase pattern text fuel p plen s slen false nesting).
Proof.
  revert p plen s slen nesting w c v. induction fuel as [|fuel IH]; intros p plen s slen nesting w c v Hp Hs Hf; [lia|]. cbn [glob_loop].
  destruct (view_cons _ _ _ _ _ Hs) as (Es & Hs1 & Hsl). rewrite (proj2 (Z.eqb_neq slen 0)) by lia. cbn [negb].
  destruct w as [|p0 t].
  { pose proof (view_nil _ _ _ Hp) as ->. by apply answer_exact. }
  destruct (view_cons _ _ _ _ _ Hp) as (Ep & Hp1 & Hpl). rewrite (proj2 (Z.eqb_neq plen 0)) by lia. cbn [negb andb]. rewrite Ep, some_bind, tokens_cons.
  cbn [length] in Hf. destruct (Z.eqb_spec p0 STAR) as [->|Hne].
  - rewrite next_tok_star. cbn [fst snd].
    destruct (skip_stars_spec pattern (S (Z.to_nat plen)) p plen t Hp ltac:(lia)) as (p' & plen' & t' & -> & Hv' & Hl & Hm & Hst & Hh). rewrite some_bind.
    apply (answer_star_ext _ _ _ _ _ Hm). destruct (view_cons _ _ _ _ _ Hv') as (_ & Hv1 & Hpl'). destruct t' as [|d t'].
    { pose proof (view_nil _ _ _ Hv1). rewrite (proj2 (Z.eqb_eq plen' 1)) by lia. apply answer_exact; [|done]. symmetry. apply matches_star.
      exists (length (c :: v)). by rewrite drop_all. }
    destruct (view_cons _ _ _ _ _ Hv1) as (_ & _ & ?). rewrite (proj2 (Z.eqb_neq plen' 1)) by lia.
    replace (Z.to_nat slen) with (length (c :: v)) by (destruct Hs as (_ & _ & ->); lia).
    apply (star_loop_spec text _ _ _ _ _ _); [|exact Hs|].
    { rewrite tokens_cons. apply matches_tok_nil, next_tok_no_star. intros ->. by apply Hh. }
    intros s' slen' c' v' Hs'. destruct (Z.ltb_spec kMaxNesting (nesting + 1)).
    { eexists _, _. split_and!; [done..|]. rewrite stars_cons. cbn [is_star]. assert (0 <= stars (tokens t)) by (unfold stars; lia). lia. }
    eapply answer_bound; [|exact (IH _ _ _ _ (nesting + 1) _ _ _ Hv1 Hs' ltac:(lia))]. rewrite stars_cons. cbn [is_star]. lia.
  - destruct (one_char_spec _ _ _ _ _ _ _ _ _ _ Hp Hs Hne) as (p' & plen' & Hv' & ->). rewrite some_bind.
    pose proof (next_tok_no_star _ t Hne) as Hk. destruct (tok_ok (next_tok p0 t).1 c) eqn:Eok.
    2:{ apply answer_exact; [by rewrite matches_tok, Eok|done]. }
    pose proof (next_tok_length p0 t) as Hl. apply answer_tok; [done..|]. destruct v as [|c' v].
    + pose proof (view_nil _ _ _ Hs1) as Hs0. rewrite (proj2 (Z.eqb_eq _ _) Hs0).
      destruct (drop_stars_spec pattern (S (Z.to_nat plen')) p' plen' _ Hv' ltac:(lia)) as (p'' & plen'' & -> & Hm). rewrite some_bind.
      by apply answer_exact.
    + destruct (view_cons _ _ _ _ _ Hs1) as (_ & _ & ?). rewrite (proj2 (Z.eqb_neq (slen - 1) 0)) by lia.
      eapply answer_bound; [|exact (IH _ _ _ _ nesting _ _ _ Hv' Hs1 ltac:(lia))]. rewrite stars_cons, Hk. lia.
Qed.
End Proof.

(** C27: The matcher answers on every pattern and text, reading no byte outside them.  Against a
    non-empty text, "yes" is always right; with at most 1000 stars in the pattern, the answer is
    exactly the meaning of the pattern, although retries are cut off.  An empty text matches the
    empty pattern only. *)
Theorem glob_match_exact tolower nocase pattern text :
  exists b, command_glob_match tolower pattern text nocase = Some b /\
    match text with
    | [] => b = true <-> pattern = []
    | _ => (b = true -> matches tolower nocase (tokens pattern) text = true) /\
           (stars (tokens pattern) <= kMaxNesting -> b = matches tolower nocase (tokens pattern) text)
    end.
Proof.
  unfold command_glob_match, glob_match_impl. destruct text as [|c text].
  - exists (Z.of_nat (length pattern) =? 0). cbn [glob_loop Z.of_nat length]. rewrite Z.eqb_refl. cbn [negb].
    rewrite andb_false_r, some_bind, andb_true_r. split; [done|]. rewrite Z.eqb_eq. destruct pattern; [done|]. split; [cbn; lia|done].
  - destruct (glob_loop_spec tolower nocase pattern (c :: text) (S (length pattern)) 0 (Z.of_nat (length pattern)) 0
      (Z.of_nat (length (c :: text))) 0 pattern c text) as (r & sk & -> & Hs & Hb); [done..|lia|].
    exists r. split; [done|]. split; [done|]. intros Hn. by apply Hb.
Qed.

(** [tolower] in the C locale, on patterns with every kind of token. *)
Definition ascii_tolower (c : Z) : Z := if (65 <=? c) && (c <=? 90) then c + 32 else c.
Example glob_star_retry : command_glob_match ascii_tolower (str "a*b?[^x-z]*") (str "aXXbbbqtail") false = Some true.
Proof. reflexivity. Qed.
Example glob_nocase : command_glob_match ascii_tolower (str "H[A-C]\*?") (str "hb*!") true = Some true.
Proof. reflexivity. Qed.
Example glob_star_empty : command_glob_match ascii_tolower (str "*") [] false = Some false.
Proof. reflexivity. Qed.
