(* ===== verification/Lcs.v ===== *)
(** cmd/lcs.cc: the LCS command: its option grammar, the dynamic program with its traceback, and
    the reply.

    The table is a flat list of (n+1)*(m+1) 32-bit words behind [!!], as the code indexes it; the
    allocator is a parameter.  A [size_t] index is a [nat]: the guards of the code keep every
    index below 2^62.  Replies go through the sink interface of RespReply.v. *)
From S2P Require Import Prelude Slice Decimal RespReply.
From Stdlib Require Import Sorted.


Record LcsOptions := mkLcsOptions { o_len : bool; o_idx : bool; o_withmatchlen : bool; o_minmatchlen : Z }.
Record LcsMatch := mkLcsMatch { a_start : Z; a_end : Z; b_start : Z; b_end : Z; m_length : Z }.
Record LcsResult := mkLcsResult { r_value : bytes; r_length : Z; r_matches : list LcsMatch }.

(** * Options *)
Fixpoint parse_u64_loop (value : Z) (s : bytes) : option Z :=
  match s with
  | [] => Some value
  | ch :: s =>
      if (ch <? 48) || (57 <? ch) then None
      else
        let digit := ch - 48 in
        if (INT64_MAX - digit) / 10 <? value then None else parse_u64_loop (u64 (value * 10 + digit)) s
  end.
Definition parse_u64 (s : bytes) : option Z :=
  match s with
  | [] => None
  | c :: t => if (c =? 48) && negb (Z.of_nat (length s) =? 1) then None else parse_u64_loop 0 s
  end.
Definition parse_minmatchlen (s : bytes) : option Z :=
  if 19 <? Z.of_nat (length s) then None
  else
    match s with
    | c :: t =>
        if c =? 45 then
          if (Z.of_nat (length s) =? 2) && (match t with d :: _ => d =? 48 | [] => false end) then None
          else _ ← parse_u64 t; Some 0
        else parse_u64 s
    | [] => parse_u64 s
    end.

Section Reply.
Context {S : Type} `{!ReplySink S}.
(** The words behind the two keys; the sink holds the error reply when there is one. *)
Fixpoint lcs_option_loop (sink : S) (out : LcsOptions) (args : list bytes) : option (S * option LcsOptions) :=
  match args with
  | [] => Some (sink, Some out)
  | w :: args =>
      if eq_icase w (str "len") then lcs_option_loop sink (mkLcsOptions true (o_idx out) (o_withmatchlen out) (o_minmatchlen out)) args
      else if eq_icase w (str "idx") then lcs_option_loop sink (mkLcsOptions (o_len out) true (o_withmatchlen out) (o_minmatchlen out)) args
      else if eq_icase w (str "withmatchlen") then lcs_option_loop sink (mkLcsOptions (o_len out) (o_idx out) true (o_minmatchlen out)) args
      else if eq_icase w (str "minmatchlen") then
        match args with
        | [] => sink ← reply_syntax sink; Some (sink, None)
        | v :: args =>
            match parse_minmatchlen v with
            | None => sink ← reply_err sink (str "ERR value is not an integer or out of range"); Some (sink, None)
            | Some n => lcs_option_loop sink (mkLcsOptions (o_len out) (o_idx out) (o_withmatchlen out) n) args
            end
        end
      else sink ← reply_syntax sink; Some (sink, None)
  end.
Definition lcs_parse_options (sink : S) (args : list bytes) : option (S * option LcsOptions) :=
  '(sink, out) ← lcs_option_loop sink (mkLcsOptions false false false 0) (drop 3 args);
  match out with
  | Some o =>
      if o_len o && o_idx o then
        sink ← reply_err sink (str "ERR If you want both the length and indexes, please just use IDX."); Some (sink, None)
      else Some (sink, Some o)
  | None => Some (sink, None)
  end.

Fixpoint reply_matches (sink : S) (withmatchlen : bool) (ms : list LcsMatch) : option S :=
  match ms with
  | [] => Some sink
  | m :: ms =>
      sink ← reply_array_header sink (if withmatchlen then 3 else 2);
      sink ← reply_array_header sink 2; sink ← reply_int sink (a_start m); sink ← reply_int sink (a_end m);
      sink ← reply_array_header sink 2; sink ← reply_int sink (b_start m); sink ← reply_int sink (b_end m);
      sink ← (if withmatchlen then reply_int sink (m_length m) else Some sink);
      reply_matches sink withmatchlen ms
  end.
Definition lcs_reply (sink : S) (resp3 : bool) (options : LcsOptions) (result : LcsResult) : option S :=
  if o_idx options then
    sink ← reply_map_header sink 2 resp3;
    sink ← reply_bulk sink (str "matches");
    sink ← reply_array_header sink (Z.of_nat (length (r_matches result)));
    sink ← reply_matches sink (o_withmatchlen options) (r_matches result);
    sink ← reply_bulk sink (str "len");
    reply_int sink (r_length result)
  else if o_len options then reply_int sink (r_length result)
  else reply_bulk sink (r_value result).
End Reply.

(** * The dynamic program *)
Section Compute.
Context (a b : bytes).

(** One cell; [up], [left] and the diagonal are read from the table. *)
Definition fill_cell (cols : nat) (table : list Z) (i j : nat) : option (list Z) :=
  x ← a !! (i - 1)%nat; y ← b !! (j - 1)%nat;
  v ← (if x =? y then d ← table !! ((i - 1) * cols + (j - 1))%nat; Some (u32 (d + 1))
       else
         up ← table !! ((i - 1) * cols + j)%nat; left ← table !! (i * cols + (j - 1))%nat;
         Some (if left <=? up then up else left));
  if decide (i * cols + j < length table)%nat then Some (<[(i * cols + j)%nat := v]> table) else None.
(** [k] more columns, from column [j]. *)
Fixpoint fill_row (cols : nat) (table : list Z) (i j k : nat) : option (list Z) :=
  match k with
  | O => Some table
  | S k => table ← fill_cell cols table i j; fill_row cols table i (S j) k
  end.
Fixpoint fill_rows (cols : nat) (table : list Z) (i k : nat) : option (list Z) :=
  match k with
  | O => Some table
  | S k => table ← fill_row cols table i 1 (length b); fill_rows cols table (S i) k
  end.

Record Walk := mkWalk { run_end_a : Z; run_end_b : Z; run : Z; reversed : bytes; emitted : list LcsMatch }.
Context (options : LcsOptions).
Definition want_value : bool := negb (o_len options) && negb (o_idx options).
Definition flush_run (w : Walk) : Walk :=
  if run w =? 0 then w
  else
    let out := if o_idx options && (o_minmatchlen options <=? run w)
               then emitted w ++ [mkLcsMatch (u32 (run_end_a w + 1 - run w)) (run_end_a w) (u32 (run_end_b w + 1 - run w)) (run_end_b w) (run w)]
               else emitted w in
    mkWalk (run_end_a w) (run_end_b w) 0 (reversed w) out.
Definition take_pair (w : Walk) (i j : nat) (c : Z) : Walk :=
  let reversed' := if want_value then reversed w ++ [c] else reversed w in
  if run w =? 0 then mkWalk (u32 (Z.of_nat (i - 1))) (u32 (Z.of_nat (j - 1))) (u32 (run w + 1)) reversed' (emitted w)
  else mkWalk (run_end_a w) (run_end_b w) (u32 (run w + 1)) reversed' (emitted w).
Fixpoint walk_back (fuel cols : nat) (table : list Z) (i j : nat) (w : Walk) : option Walk :=
  match fuel with
  | O => None
  | S fuel =>
      match i, j with
      | O, _ | _, O => Some w
      | S _, S _ =>
          x ← a !! (i - 1)%nat; y ← b !! (j - 1)%nat;
          if x =? y then walk_back fuel cols table (i - 1) (j - 1) (take_pair w i j x)
          else
            let w := flush_run w in
            up ← table !! ((i - 1) * cols + j)%nat; left ← table !! (i * cols + (j - 1))%nat;
            if left <? up then walk_back fuel cols table (i - 1) j w else walk_back fuel cols table i (j - 1) w
      end
  end.

Definition SIZE_MAX : Z := UINT64_MAX.
(** [inl] is the error text; [alloc bytes] says whether the table can be allocated. *)
Definition lcs_compute (alloc : Z -> bool) : option (bytes + LcsResult) :=
  let n := Z.of_nat (length a) in let m := Z.of_nat (length b) in
  if (n =? 0) || (m =? 0) then Some (inr (mkLcsResult [] 0 []))
  else if UINT32_MAX / (if m =? 0 then 1 else m) <? n then Some (inl (str "ERR String too long for LCS"))
  else
    let rows := n + 1 in let cols := m + 1 in
    if (SIZE_MAX / cols <? rows) || (SIZE_MAX / 4 <? rows * cols) then Some (inl (str "ERR String too long for LCS"))
    else if negb (alloc (rows * cols * 4)) then
      Some (inl (str "ERR Insufficient memory, failed allocating transient memory for LCS"))
    else
      let cols := Z.to_nat cols in
      table ← fill_rows cols (replicate (Z.to_nat rows * cols) 0) 1 (length a);
      len ← table !! (length a * cols + length b)%nat;
      w ← walk_back (S (length a + length b)) cols table (length a) (length b) (mkWalk 0 0 0 [] []);
      let w := flush_run w in
      Some (inr (mkLcsResult (if want_value then reverse (reversed w) else []) len (emitted w))).
End Compute.

(** * The reference: alignments and their runs *)
(** The length of a longest common subsequence of the first [i] and the first [j] bytes. *)
Fixpoint lcs_len (a b : bytes) (i : nat) : nat -> Z :=
  match i with
  | O => fun _ => 0
  | S i' =>
      fix row (j : nat) : Z :=
        match j with
        | O => 0
        | S j' =>
            if match a !! i', b !! j' with Some x, Some y => x =? y | _, _ => false end then lcs_len a b i' j' + 1
            else Z.max (lcs_len a b i' j) (row j')
        end
  end.
(** Pairs of equal bytes, from the end of both strings backwards. *)
Definition before (p q : nat * nat) : Prop := (q.1 < p.1 /\ q.2 < p.2)%nat.
Definition alignment (a b : bytes) (ps : list (nat * nat)) : Prop :=
  StronglySorted before ps /\ Forall (fun p => exists c, a !! p.1 = Some c /\ b !! p.2 = Some c) ps.
(** The maximal diagonal runs: closed ones and the last one (its first pair and its length). *)
Definition add_pair (st : list LcsMatch * option (nat * nat * nat)) (p : nat * nat) : list LcsMatch * option (nat * nat * nat) :=
  match st with
  | (closed, None) => (closed, Some (p.1, p.2, 1%nat))
  | (closed, Some (ea, eb, len)) =>
      if ((p.1 + len =? ea) && (p.2 + len =? eb))%nat then (closed, Some (ea, eb, S len))
      else (closed ++ [mkLcsMatch (Z.of_nat (ea + 1 - len)) (Z.of_nat ea) (Z.of_nat (eb + 1 - len)) (Z.of_nat eb) (Z.of_nat len)], Some (p.1, p.2, 1%nat))
  end.
Definition close_run (st : list LcsMatch * option (nat * nat * nat)) : list LcsMatch :=
  match st with
  | (closed, None) => closed
  | (closed, Some (ea, eb, len)) =>
      closed ++ [mkLcsMatch (Z.of_nat (ea + 1 - len)) (Z.of_nat ea) (Z.of_nat (eb + 1 - len)) (Z.of_nat eb) (Z.of_nat len)]
  end.
Definition runs (ps : list (nat * nat)) : list LcsMatch := close_run (fold_left add_pair ps ([], None)).

(** * Longest common subsequences *)
Lemma lcs_len_0_r a b i : lcs_len a b i 0 = 0.
Proof. by destruct i. Qed.
Lemma lcs_len_S a b i j x y : a !! i = Some x -> b !! j = Some y ->
  lcs_len a b (S i) (S j) = if x =? y then lcs_len a b i j + 1 else Z.max (lcs_len a b i (S j)) (lcs_len a b (S i) j).
Proof. intros Ha Hb. cbn [lcs_len]. by rewrite Ha, Hb. Qed.
Lemma lcs_len_bounds a b i j : 0 <= lcs_len a b i j <= Z.of_nat i.
Proof.
  revert j. induction i as [|i IHi]; intros j; [done|]. induction j as [|j IHj]; [cbn; lia|].
  pose proof (IHi j). pose proof (IHi (S j)). cbn [lcs_len] in *.
  destruct (match a !! i with Some x => match b !! j with Some y => x =? y | None => false end | None => false end); lia.
Qed.

Lemma sublist_snoc_inv (l k : bytes) z x : l ++ [z] `sublist_of` k ++ [x] -> l `sublist_of` k.
Proof.
  intros (l1 & l2 & E & H1 & H2)%sublist_app_r. apply sublist_cons_r in H2 as [H2|(l' & -> & H2)].
  - apply sublist_nil_r in H2 as ->. rewrite app_nil_r in E. subst. etransitivity; [|exact H1]. by apply sublist_inserts_r.
  - apply sublist_nil_r in H2 as ->. by apply app_inj_tail in E as [-> _].
Qed.
Lemma sublist_snoc_neq (l k : bytes) z x : z <> x -> l ++ [z] `sublist_of` k ++ [x] -> l ++ [z] `sublist_of` k.
Proof.
  intros Hn (l1 & l2 & E & H1 & H2)%sublist_app_r. apply sublist_cons_r in H2 as [H2|(l' & -> & H2)].
  - apply sublist_nil_r in H2 as ->. by rewrite app_nil_r in E; subst.
  - apply sublist_nil_r in H2 as ->. apply app_inj_tail in E as [_ ?]. by subst.
Qed.
Lemma lcs_len_upper a b i j l : (i <= length a)%nat -> (j <= length b)%nat ->
  l `sublist_of` take i a -> l `sublist_of` take j b -> Z.of_nat (length l) <= lcs_len a b i j.
Proof.
  revert j l. induction i as [|i IHi]; intros j l Hi Hj Ha Hb.
  { rewrite take_0 in Ha. apply sublist_nil_r in Ha as ->. done. }
  revert l Ha Hb. induction j as [|j IHj]; intros l Ha Hb.
  { rewrite take_0 in Hb. apply sublist_nil_r in Hb as ->. done. }
  destruct (lookup_lt_is_Some_2 a i ltac:(lia)) as [x Ex], (lookup_lt_is_Some_2 b j ltac:(lia)) as [y Ey].
  rewrite (lcs_len_S a b i j x y) by done. rewrite (take_S_r _ _ _ Ex) in Ha. rewrite (take_S_r _ _ _ Ey) in Hb.
  destruct l as [|z l] using rev_ind.
  { pose proof (lcs_len_bounds a b i j). pose proof (lcs_len_bounds a b i (S j)). cbn [length]. destruct (x =? y); lia. }
  destruct (Z.eqb_spec x y) as [->|Hne].
  - apply sublist_snoc_inv in Ha, Hb. rewrite length_app. cbn [length]. pose proof (IHi j l ltac:(lia) ltac:(lia) Ha Hb). lia.
  - destruct (decide (z = x)) as [->|Hx].
    + apply sublist_snoc_neq in Hb; [|done]. specialize (IHj ltac:(lia) (l ++ [x])). rewrite (take_S_r _ _ _ Ex) in IHj.
      specialize (IHj Ha Hb). lia.
    + apply sublist_snoc_neq in Ha; [|done]. pose proof (IHi (S j) (l ++ [z]) ltac:(lia) ltac:(lia) Ha) as H. rewrite (take_S_r _ _ _ Ey) in H.
      specialize (H Hb). lia.
Qed.

(** * The table *)
Section Table.
Context (a b : bytes) (Hsize : Z.of_nat (length a) <= UINT32_MAX).
Let cols : nat := S (length b).

(** Every cell before (i, j) in row-major order, and the borders, hold their length. *)
Definition filled (i j : nat) (table : list Z) : Prop :=
  length table = (S (length a) * cols)%nat /\
  forall i' j', (i' <= length a)%nat -> (j' <= length b)%nat -> (i' < i \/ (i' = i /\ j' < j) \/ i' = 0 \/ j' = 0)%nat ->
    table !! (i' * cols + j')%nat = Some (lcs_len a b i' j').
Lemma cell_inj i j i' j' : (j <= length b)%nat -> (j' <= length b)%nat -> (i * cols + j = i' * cols + j')%nat -> i = i' /\ j = j'.
Proof.
  intros. assert (i = i'); [|subst; lia].
  assert (forall x y, (y <= length b)%nat -> ((x * cols + y) / cols = x)%nat) as Hd.
  { intros x y Hy. rewrite Nat.div_add_l by (unfold cols; lia). rewrite Nat.div_small by (unfold cols; lia). lia. }
  rewrite <- (Hd i j), <- (Hd i' j') by done. by f_equal.
Qed.
Lemma cell_in i j : (i <= length a)%nat -> (j <= length b)%nat -> (i * cols + j < S (length a) * cols)%nat.
Proof. unfold cols. nia. Qed.
Lemma fill_cell_spec table i j : (1 <= i <= length a)%nat -> (1 <= j <= length b)%nat -> filled i j table ->
  exists table', fill_cell a b cols table i j = Some table' /\ filled i (S j) table'.
Proof.
  intros Hi Hj [Hl Hf]. destruct i as [|i]; [lia|]. destruct j as [|j]; [lia|]. unfold fill_cell. rewrite !Nat.sub_1_r. cbn [Nat.pred].
  destruct (lookup_lt_is_Some_2 a i ltac:(lia)) as [x Ex], (lookup_lt_is_Some_2 b j ltac:(lia)) as [y Ey]. rewrite Ex, Ey, !some_bind.
  rewrite (Hf i j) by lia. rewrite (Hf i (S j)) by lia. rewrite (Hf (S i) j) by lia. rewrite !some_bind.
  set (v := if x =? y then _ else _). assert (v = Some (lcs_len a b (S i) (S j))) as ->.
  { subst v. rewrite (lcs_len_S a b i j x y Ex Ey). pose proof (lcs_len_bounds a b i j). unfold UINT32_MAX in Hsize.
    destruct (x =? y); f_equal; [unfold u32; apply Z.mod_small; lia|]. destruct (Z.leb_spec (lcs_len a b (S i) j) (lcs_len a b i (S j))); lia. }
  rewrite some_bind. pose proof (cell_in (S i) (S j) ltac:(lia) ltac:(lia)). rewrite decide_True by lia.
  eexists. split; [done|]. split; [by rewrite length_insert|]. intros i' j' Hi' Hj' Hb.
  destruct (decide (i' * cols + j' = S i * cols + S j)%nat) as [E|Hn].
  - rewrite E. destruct (cell_inj _ _ _ _ Hj' (proj2 Hj) E) as [-> ->]. apply list_lookup_insert_eq. lia.
  - rewrite list_lookup_insert_ne by done. apply Hf; [done..|]. destruct (decide (i' = S i /\ j' = S j)) as [[-> ->]|]; [done|lia].
Qed.
Lemma fill_row_spec table i k : (1 <= i <= length a)%nat -> (k <= length b)%nat -> filled i (S (length b) - k) table ->
  exists table', fill_row a b cols table i (S (length b) - k) k = Some table' /\ filled i (S (length b)) table'.
Proof.
  intros Hi. revert table. induction k as [|k IH]; intros table Hk Hf; [rewrite Nat.sub_0_r in Hf; by exists table|]. cbn [fill_row].
  destruct (fill_cell_spec table i (S (length b) - S k) Hi ltac:(lia) Hf) as (t1 & -> & H1). rewrite some_bind.
  replace (S (S (length b) - S k)) with (S (length b) - k)%nat in * by lia. by apply IH; [lia|].
Qed.
Lemma fill_rows_spec table k : (k <= length a)%nat -> filled (S (length a) - k) 1 table ->
  exists table', fill_rows a b cols table (S (length a) - k) k = Some table' /\ filled (S (length a)) 1 table'.
Proof.
  revert table. induction k as [|k IH]; intros table Hk Hf; [rewrite Nat.sub_0_r in Hf; by exists table|]. cbn [fill_rows].
  destruct (fill_row_spec table (S (length a) - S k) (length b) ltac:(lia) ltac:(lia)) as (t1 & E & H1).
  { by replace (S (length b) - length b)%nat with 1%nat by lia. }
  replace (S (length b) - length b)%nat with 1%nat in E by lia. rewrite E, some_bind.
  replace (S (S (length a) - S k)) with (S (length a) - k)%nat by lia. apply IH; [lia|]. destruct H1 as [Hl H1]. split; [done|].
  intros i' j' Hi' Hj' Hb. apply H1; [done..|]. lia.
Qed.
Lemma filled_start : filled 1 1 (replicate (S (length a) * cols) 0).
Proof.
  split; [apply length_replicate|]. intros i' j' Hi' Hj' Hb. rewrite lookup_replicate_2 by (by apply cell_in). f_equal.
  assert (i' = 0 \/ j' = 0)%nat as [-> | ->] by lia; [done|by rewrite lcs_len_0_r].
Qed.
End Table.

(** * The traceback *)
Section Walk.
Context (a b : bytes) (options : LcsOptions).
Context (Ha : Z.of_nat (length a) <= UINT32_MAX) (Hb : Z.of_nat (length b) <= UINT32_MAX).

(** The matches a reply shows: all with IDX, from MINMATCHLEN bytes on. *)
Definition kept (ms : list LcsMatch) : list LcsMatch :=
  if o_idx options then List.filter (fun m => o_minmatchlen options <=? m_length m) ms else [].
Lemma kept_snoc ms m : kept (ms ++ [m]) = kept ms ++ (if o_idx options && (o_minmatchlen options <=? m_length m) then [m] else []).
Proof. unfold kept. destruct (o_idx options); [|done]. rewrite List.filter_app. cbn. by destruct (_ <=? _). Qed.

(** How the open run of the code relates to the runs of the pairs emitted so far. *)
Definition run_closed (i j : nat) (st : list LcsMatch * option (nat * nat * nat)) (w : Walk) : Prop :=
  run w = 0 /\ emitted w = kept (close_run st) /\
  match st.2 with
  | Some (ea, eb, len) => (i + len <= ea + 1 /\ j + len <= eb + 1 /\ (i + len < ea + 1 \/ j + len < eb + 1))%nat
  | None => True
  end.
Definition run_open (i j : nat) (st : list LcsMatch * option (nat * nat * nat)) (w : Walk) : Prop :=
  exists closed ea eb len, st = (closed, Some (ea, eb, len)) /\ (1 <= len /\ ea < length a /\ eb < length b)%nat /\
    run w = Z.of_nat len /\ run_end_a w = Z.of_nat ea /\ run_end_b w = Z.of_nat eb /\ emitted w = kept closed /\
    (i + len = ea + 1 /\ j + len = eb + 1)%nat.
Definition run_inv i j st w : Prop := run_closed i j st w \/ run_open i j st w.

Lemma flush_open i j st w : run_open i j st w ->
  run (flush_run options w) = 0 /\ emitted (flush_run options w) = kept (close_run st) /\ reversed (flush_run options w) = reversed w.
Proof.
  intros (closed & ea & eb & len & -> & (Hl & Hea & Heb) & Hr & Hra & Hrb & He & Hi & Hj). unfold flush_run.
  rewrite (proj2 (Z.eqb_neq (run w) 0)) by lia. cbn [run emitted reversed close_run]. split_and!; [done| |done].
  rewrite kept_snoc. cbn [m_length]. rewrite Hr, Hra, Hrb, He.
  unfold UINT32_MAX in *. unfold u32. rewrite !Z.mod_small by lia. rewrite !Nat2Z.inj_sub, !Nat2Z.inj_add by lia.
  by destruct (o_idx options && _); rewrite ?app_nil_r.
Qed.
Lemma flush_inv i j st w : run_inv i j st w ->
  run (flush_run options w) = 0 /\ emitted (flush_run options w) = kept (close_run st) /\ reversed (flush_run options w) = reversed w.
Proof.
  intros [(Hr & He & _)|H]; [|by eapply flush_open]. unfold flush_run. by rewrite Hr.
Qed.
Lemma flush_step i j i' j' st w : run_inv i j st w -> (i' <= i /\ j' <= j /\ (i' < i \/ j' < j))%nat -> run_inv i' j' st (flush_run options w).
Proof.
  intros H Hlt. pose proof (flush_inv _ _ _ _ H) as (Hr & He & _). left. split_and!; [done..|].
  destruct H as [(_ & _ & H)|(closed & ea & eb & len & -> & _ & _ & _ & _ & _ & H)]; [|cbn; lia]. destruct st as [? [[[ea eb] len]|]]; cbn in *; [lia|done].
Qed.
Lemma take_pair_inv i j st w c : (S i <= length a)%nat -> (S j <= length b)%nat -> run_inv (S i) (S j) st w ->
  run_inv i j (add_pair st (i, j)) (take_pair options w (S i) (S j) c).
Proof.
  intros Hi Hj H. right. unfold UINT32_MAX in *. unfold take_pair. rewrite !Nat.sub_1_r. cbn [Nat.pred].
  destruct H as [(Hr & He & H)|(closed & ea & eb & len & -> & (Hl & Hea & Heb) & Hr & Hra & Hrb & He & Hi' & Hj')].
  - rewrite Hr. cbn [Z.eqb]. exists (close_run st), i, j, 1%nat. cbn [run run_end_a run_end_b emitted].
    split_and!; try lia; try done; try (unfold u32; rewrite Z.mod_small by lia; lia).
    destruct st as [closed [[[ea eb] len]|]]; cbn [add_pair close_run fst snd] in *; [|done].
    destruct (Nat.eqb_spec (i + len) ea); cbn [andb]; [|done]. destruct (Nat.eqb_spec (j + len) eb); [lia|done].
  - rewrite (proj2 (Z.eqb_neq (run w) 0)) by lia. exists closed, ea, eb, (S len). cbn [run run_end_a run_end_b emitted add_pair fst snd].
    rewrite (proj2 (Nat.eqb_eq (i + len) ea)), (proj2 (Nat.eqb_eq (j + len) eb)) by lia. cbn [andb].
    split_and!; try lia; try done. rewrite Hr. unfold u32. rewrite Z.mod_small by lia. lia.
Qed.

(** The pairs and bytes emitted so far, at (i, j). *)
Record walk_inv (i j : nat) (ps : list (nat * nat)) (vs : bytes) (w : Walk) : Prop := {
  wi_sorted : alignment a b ps;
  wi_above : Forall (fun p => i <= p.1 /\ j <= p.2)%nat ps;
  wi_values : length vs = length ps /\ reverse vs `sublist_of` drop i a /\ reverse vs `sublist_of` drop j b;
  wi_reversed : reversed w = if want_value options then vs else [];
  wi_count : Z.of_nat (length ps) + lcs_len a b i j = lcs_len a b (length a) (length b);
  wi_runs : run_inv i j (fold_left add_pair ps ([], None)) w }.

Lemma walk_take i j ps vs w c : a !! i = Some c -> b !! j = Some c -> walk_inv (S i) (S j) ps vs w ->
  walk_inv i j (ps ++ [(i, j)]) (vs ++ [c]) (take_pair options w (S i) (S j) c).
Proof.
  intros Ea Eb [[Hs1 Hs2] Hab (Hv & Hva & Hvb) Hr Hc Hruns]. pose proof (lookup_lt_Some _ _ _ Ea). pose proof (lookup_lt_Some _ _ _ Eb). split.
  - split.
    + clear -Hs1 Hab. induction Hs1 as [|p ps Hps IH Hp]; cbn; [by repeat constructor|]. apply Forall_cons in Hab as [Hp' Hab].
      constructor; [by apply IH|]. apply Forall_app. split; [done|]. constructor; [|done]. unfold before. cbn. lia.
    + apply Forall_app. split; [done|]. constructor; [by exists c|done].
  - apply Forall_app. split; [|by repeat constructor]. eapply Forall_impl; [exact Hab|]. cbn. intros; lia.
  - rewrite !length_app, reverse_app, (drop_S a c i), (drop_S b c j) by done. cbn. split_and!; [lia|by apply sublist_skip..].
  - unfold take_pair. rewrite Hr. by destruct (run w =? 0), (want_value options).
  - rewrite length_app. cbn [length]. rewrite (lcs_len_S a b i j c c) in Hc by done. rewrite Z.eqb_refl in Hc. lia.
  - rewrite fold_left_app. by apply take_pair_inv; [lia|lia|].
Qed.
Lemma walk_skip i j i' j' ps vs w : walk_inv i j ps vs w -> (i' <= i /\ j' <= j /\ (i' < i \/ j' < j))%nat -> lcs_len a b i j = lcs_len a b i' j' ->
  walk_inv i' j' ps vs (flush_run options w).
Proof.
  intros [Hs Hab (Hv & Hva & Hvb) Hr Hc Hruns] Hlt Hl. split; [done|..].
  - eapply Forall_impl; [exact Hab|]. cbn. intros; lia.
  - split_and!; [done| |].
    + etransitivity; [exact Hva|]. replace i with (i' + (i - i'))%nat by lia. rewrite <- drop_drop. apply sublist_drop.
    + etransitivity; [exact Hvb|]. replace j with (j' + (j - j'))%nat by lia. rewrite <- drop_drop. apply sublist_drop.
  - destruct (flush_inv _ _ _ _ Hruns) as (_ & _ & ->). done.
  - lia.
  - by eapply flush_step.
Qed.
Lemma walk_back_spec table fuel i j ps vs w :
  filled a b (S (length a)) 1 table -> (i <= length a)%nat -> (j <= length b)%nat -> (i + j < fuel)%nat -> walk_inv i j ps vs w ->
  exists ps' vs' w' i' j', walk_back a b options fuel (S (length b)) table i j w = Some w' /\ walk_inv i' j' ps' vs' w' /\ (i' = 0 \/ j' = 0)%nat.
Proof.
  intros [Hlen Hf]. revert i j ps vs w. induction fuel as [|fuel IH]; intros i j ps vs w Hi Hj Hfu Hw; [lia|]. cbn [walk_back].
  destruct i as [|i]; [eexists _, _, _, 0%nat, j; split; [done|]; split; [exact Hw|by left]|].
  destruct j as [|j]; [eexists _, _, _, (S i), 0%nat; split; [done|]; split; [exact Hw|by right]|].
  rewrite !Nat.sub_1_r. cbn [Nat.pred].
  destruct (lookup_lt_is_Some_2 a i ltac:(lia)) as [x Ex], (lookup_lt_is_Some_2 b j ltac:(lia)) as [y Ey]. rewrite Ex, Ey, !some_bind.
  pose proof (lcs_len_S a b i j x y Ex Ey) as HL. destruct (Z.eqb_spec x y) as [<-|Hne].
  - apply (IH i j (ps ++ [(i, j)]) (vs ++ [x])); [lia..|]. by apply walk_take.
  - rewrite (Hf i (S j)) by lia. rewrite (Hf (S i) j) by lia. rewrite !some_bind.
    destruct (Z.ltb_spec (lcs_len a b (S i) j) (lcs_len a b i (S j))).
    + apply (IH i (S j) ps vs); [lia..|]. eapply walk_skip; [exact Hw|lia|lia].
    + apply (IH (S i) j ps vs); [lia..|]. eapply walk_skip; [exact Hw|lia|lia].
Qed.
End Walk.

(** * The runs of an alignment *)
Definition equal_run (a b : bytes) (m : LcsMatch) : Prop :=
  1 <= m_length m /\ 0 <= a_start m /\ 0 <= b_start m /\ a_end m = a_start m + m_length m - 1 /\ b_end m = b_start m + m_length m - 1 /\
  a_end m < Z.of_nat (length a) /\ b_end m < Z.of_nat (length b) /\
  take (Z.to_nat (m_length m)) (drop (Z.to_nat (a_start m)) a) = take (Z.to_nat (m_length m)) (drop (Z.to_nat (b_start m)) b).
Definition total_length (ms : list LcsMatch) : Z := foldr (fun m n => m_length m + n) 0 ms.
Lemma total_length_snoc ms m : total_length (ms ++ [m]) = total_length ms + m_length m.
Proof. induction ms as [|x ms IH]; unfold total_length in *; cbn in *; lia. Qed.
Definition open_ok (a b : bytes) (st : list LcsMatch * option (nat * nat * nat)) : Prop :=
  match st.2 with Some (ea, eb, len) => (1 <= len <= ea + 1 /\ len <= eb + 1)%nat | None => True end.
Lemma runs_step a b st p c : a !! p.1 = Some c -> b !! p.2 = Some c -> open_ok a b st -> Forall (equal_run a b) (close_run st) ->
  open_ok a b (add_pair st p) /\ Forall (equal_run a b) (close_run (add_pair st p)) /\
  total_length (close_run (add_pair st p)) = total_length (close_run st) + 1.
Proof.
  intros Ea Eb Ho Hc. destruct p as [x y]. cbn [fst snd] in *. pose proof (lookup_lt_Some _ _ _ Ea). pose proof (lookup_lt_Some _ _ _ Eb).
  assert (equal_run a b (mkLcsMatch (Z.of_nat (x + 1 - 1)) (Z.of_nat x) (Z.of_nat (y + 1 - 1)) (Z.of_nat y) (Z.of_nat 1))) as H1.
  { unfold equal_run. cbn [a_start a_end b_start b_end m_length]. split_and!; try lia. rewrite !Nat2Z.id, !Nat.add_sub, (drop_S a c x), (drop_S b c y) by done. done. }
  destruct st as [closed [[[ea eb] len]|]]; cbn [add_pair close_run open_ok fst snd] in *.
  2:{ rewrite total_length_snoc. split_and!; [cbn; lia..| |cbn; lia]. apply Forall_app. split; [done|by apply Forall_singleton]. }
  destruct (Nat.eqb_spec (x + len) ea); cbn [andb]; [destruct (Nat.eqb_spec (y + len) eb); cbn [andb]|].
  2,3: cbn [close_run fst snd]; rewrite (total_length_snoc (_ ++ _)); split_and!; [cbn; lia..| |cbn [m_length]; lia];
    (apply Forall_app; split; [done|by apply Forall_singleton]).
  cbn [close_run fst snd]. rewrite !total_length_snoc. cbn [m_length]. split_and!; [cbn; lia..| |lia].
  apply Forall_app in Hc as [Hc Hl]. apply Forall_app. split; [done|]. apply Forall_cons in Hl as [Hl _]. apply Forall_singleton.
  unfold equal_run in Hl |- *. cbn [a_start a_end b_start b_end m_length] in *. destruct Hl as (? & ? & ? & ? & ? & ? & ? & Hseg). split_and!; try lia.
  rewrite !Nat2Z.id in *. replace (ea + 1 - S len)%nat with x by lia. replace (eb + 1 - S len)%nat with y by lia.
  rewrite (drop_S a c x), (drop_S b c y) by done. cbn [take]. f_equal.
  by replace (S x) with (ea + 1 - len)%nat by lia; replace (S y) with (eb + 1 - len)%nat by lia.
Qed.
Lemma runs_spec a b ps : alignment a b ps -> Forall (equal_run a b) (runs ps) /\ total_length (runs ps) = Z.of_nat (length ps).
Proof.
  intros [_ Hps]. unfold runs.
  assert (forall st, open_ok a b st -> Forall (equal_run a b) (close_run st) ->
    Forall (equal_run a b) (close_run (fold_left add_pair ps st)) /\
    total_length (close_run (fold_left add_pair ps st)) = total_length (close_run st) + Z.of_nat (length ps)) as H.
  { induction Hps as [|p ps (c & Ea & Eb) Hps IH]; intros st Ho Hc; cbn [fold_left length]; [split; [done|lia]|].
    destruct (runs_step a b st p c Ea Eb Ho Hc) as (Ho' & Hc' & Ht'). destruct (IH _ Ho' Hc') as [? ->]. split; [done|lia]. }
  by apply (H ([], None)); constructor.
Qed.

Lemma guard_product n m : 0 < m -> 0 <= n -> ((UINT32_MAX / m <? n) = true) <-> UINT32_MAX < n * m.
Proof.
  intros. rewrite Z.ltb_lt. split; intros.
  - apply Z.nle_gt. intros Hle. pose proof (Z.div_le_lower_bound UINT32_MAX m n ltac:(lia) ltac:(nia)). lia.
  - apply Z.div_lt_upper_bound; nia.
Qed.
(** C28: LCS answers on every pair of strings.  It refuses exactly products above 2^32-1, or a
    failed allocation.  Otherwise the reported length is that of a longest common subsequence,
    the value is one, and the reported matches are the maximal diagonal runs, of at least
    MINMATCHLEN bytes, of one alignment of that length, from the end of both strings; each run
    names equal stretches of both strings. *)
Theorem lcs_longest a b options alloc :
  let n := Z.of_nat (length a) in let m := Z.of_nat (length b) in
  exists r, lcs_compute a b options alloc = Some r /\
    match r with
    | inl e => (e = str "ERR String too long for LCS" /\ UINT32_MAX < n * m) \/
               (e = str "ERR Insufficient memory, failed allocating transient memory for LCS" /\ n * m <= UINT32_MAX /\ alloc ((n + 1) * (m + 1) * 4) = false)
    | inr res =>
        n * m <= UINT32_MAX /\
        (forall l, l `sublist_of` a -> l `sublist_of` b -> Z.of_nat (length l) <= r_length res) /\
        exists ps v, alignment a b ps /\ Z.of_nat (length ps) = r_length res /\
          v `sublist_of` a /\ v `sublist_of` b /\ Z.of_nat (length v) = r_length res /\
          r_value res = (if want_value options then v else []) /\
          r_matches res = kept options (runs ps) /\ Forall (equal_run a b) (runs ps) /\ total_length (runs ps) = r_length res
    end.
Proof.
  cbv zeta. unfold lcs_compute.
  destruct (Z.eqb_spec (Z.of_nat (length a)) 0) as [E|Hn]; [|destruct (Z.eqb_spec (Z.of_nat (length b)) 0) as [E|Hm]]; cbn [orb].
  1,2: eexists; split; [done|]; cbn [r_length r_value r_matches]; split; [unfold UINT32_MAX; nia|]; split;
    [by intros l Hla%sublist_length Hlb%sublist_length; lia|]; exists [], []; unfold runs, kept; cbn;
    split_and!; try done; try apply sublist_nil_l; try (by split; constructor); by destruct (want_value options), (o_idx options).
  pose proof (guard_product (Z.of_nat (length a)) (Z.of_nat (length b)) ltac:(lia) ltac:(lia)) as Hg. destruct (_ <? _).
  { eexists. split; [done|]. left. split; [done|]. by apply Hg. }
  assert (Z.of_nat (length a) * Z.of_nat (length b) <= UINT32_MAX) as Hp by (apply Z.nlt_ge; intros H%Hg; done).
  unfold SIZE_MAX, UINT64_MAX, UINT32_MAX in *.
  rewrite (proj2 (Z.ltb_ge _ (Z.of_nat (length a) + 1))) by (apply Z.div_le_lower_bound; nia).
  rewrite (proj2 (Z.ltb_ge (_ / 4) _)) by (apply Z.div_le_lower_bound; nia). cbn [orb].
  destruct (alloc _) eqn:Eal; cbn [negb]; [|eexists; split; [done|]; right; done].
  replace (Z.to_nat (Z.of_nat (length a) + 1)) with (S (length a)) by lia. replace (Z.to_nat (Z.of_nat (length b) + 1)) with (S (length b)) by lia.
  assert (Z.of_nat (length a) <= UINT32_MAX /\ Z.of_nat (length b) <= UINT32_MAX) as [Ha Hb] by (unfold UINT32_MAX; nia).
  destruct (fill_rows_spec a b Ha (replicate (S (length a) * S (length b)) 0) (length a) ltac:(lia)) as (table & E & Hf).
  { replace (S (length a) - length a)%nat with 1%nat by lia. apply filled_start. }
  replace (S (length a) - length a)%nat with 1%nat in E by lia. rewrite E, some_bind, (proj2 Hf (length a) (length b)), some_bind by lia.
  destruct (walk_back_spec a b options Ha Hb table (S (length a + length b)) (length a) (length b) [] [] (mkWalk 0 0 0 [] []) Hf
    ltac:(lia) ltac:(lia) ltac:(lia)) as (ps & vs & w & i & j & -> & [Hs _ (Hv & Hva & Hvb) Hr Hc Hruns] & H0).
  { split; [by split; constructor|constructor| | |cbn; lia|].
    - split_and!; [done|apply sublist_nil_l..].
    - by destruct (want_value options).
    - left. split_and!; [done| |done]. unfold kept. cbn. by destruct (o_idx options). }
  rewrite some_bind. eexists. split; [done|]. cbn [r_length r_value r_matches]. split; [done|]. split.
  { intros l Hla Hlb. apply lcs_len_upper; [done..| |]; by rewrite firstn_all. }
  destruct (flush_inv a b options Ha Hb i j _ w Hruns) as (_ & He & Hre).
  assert (lcs_len a b i j = 0) as Hz by (destruct H0 as [-> | ->]; [done|by rewrite lcs_len_0_r]).
  destruct (runs_spec a b ps Hs) as [Hrs Hrt]. exists ps, (reverse vs). rewrite length_reverse, Hre, Hr, He, Hv.
  split_and!; try done; try lia.
  - etransitivity; [exact Hva|apply sublist_drop].
  - etransitivity; [exact Hvb|apply sublist_drop].
  - by destruct (want_value options).
Qed.
Example lcs_value_ex : lcs_compute (str "ohmytext") (str "mynewtext") (mkLcsOptions false false false 0) (fun _ => true)
  = Some (inr (mkLcsResult (str "mytext") 6 [])).
Proof. reflexivity. Qed.
Example lcs_idx_ex : lcs_compute (str "ohmytext") (str "mynewtext") (mkLcsOptions false true false 4) (fun _ => true)
  = Some (inr (mkLcsResult [] 6 [mkLcsMatch 4 7 5 8 4])).
Proof. reflexivity. Qed.

(** * The reply *)
Definition match_calls (withmatchlen : bool) (m : LcsMatch) : list ReplyCall :=
  [CArrayHeader (if withmatchlen then 3 else 2); CArrayHeader 2; CInt (a_start m); CInt (a_end m); CArrayHeader 2; CInt (b_start m); CInt (b_end m)]
  ++ (if withmatchlen then [CInt (m_length m)] else []).
Definition lcs_calls (resp3 : bool) (o : LcsOptions) (r : LcsResult) : list ReplyCall :=
  if o_idx o then
    [CMapHeader 2 resp3; CBulk (str "matches"); CArrayHeader (Z.of_nat (length (r_matches r)))]
    ++ mjoin (match_calls (o_withmatchlen o) <$> r_matches r) ++ [CBulk (str "len"); CInt (r_length r)]
  else if o_len o then [CInt (r_length r)] else [CBulk (r_value r)].
Section ReplyBytes.
Context {S : Type} `{!ReplySink S, !ReplySinkLaws S}.
Lemma run_calls_app (sink : S) cs cs' : run_calls sink (cs ++ cs') = sink ← run_calls sink cs; run_calls sink cs'.
Proof. revert sink. induction cs as [|c cs IH]; intros sink; [done|]. cbn. destruct (run_call sink c); [apply IH|done]. Qed.
Lemma run_calls_1 (sink : S) c : run_calls sink [c] = run_call sink c.
Proof. cbn. by destruct (run_call sink c). Qed.
(** One call of both sides. *)
Ltac same_call := match goal with |- mbind _ ?x = _ => destruct x as [?|]; [rewrite !some_bind|done] end.
Lemma reply_matches_calls (sink : S) wml ms : reply_matches sink wml ms = run_calls sink (mjoin (match_calls wml <$> ms)).
Proof.
  revert sink. induction ms as [|m ms IH]; intros sink; [done|].
  change (mjoin (match_calls wml <$> m :: ms)) with (match_calls wml m ++ mjoin (match_calls wml <$> ms)).
  set (rest := mjoin _) in *. clearbody rest. rewrite run_calls_app. unfold match_calls. destruct wml; cbn [app run_calls run_call reply_matches]; repeat same_call; apply IH.
Qed.
Lemma lcs_reply_calls (sink : S) resp3 o r : lcs_reply sink resp3 o r = run_calls sink (lcs_calls resp3 o r).
Proof.
  unfold lcs_reply, lcs_calls. destruct (o_idx o); [|destruct (o_len o); by rewrite run_calls_1].
  cbn [app run_calls run_call]. do 3 same_call. rewrite reply_matches_calls, run_calls_app. cbn [run_calls run_call]. do 2 same_call.
  match goal with |- ?x = _ => by destruct x end.
Qed.
(** On a lawful sink the reply is exactly the encoding of its calls. *)
Lemma lcs_reply_adds (sink : S) resp3 o r k : rs_ok sink -> Forall call_ok (lcs_calls resp3 o r) ->
  rs_room sink (calls_room (lcs_calls resp3 o r) + k) -> 0 <= k ->
  adds sink (concat (encode <$> lcs_calls resp3 o r)) k (lcs_reply sink resp3 o r).
Proof. rewrite lcs_reply_calls. apply run_calls_adds. Qed.
End ReplyBytes.
