(* ===== verification/WeightedLb.v ===== *)
(** core/weighted_lb.h: the placement policy shared by FLIP and the load-balancing controller.

    Weights are IEEE doubles ([spec_float], rounded to 53 bits).  A vector indexed by target or
    item is a list read with [!!!]: every index of the code comes from a loop over the same
    vector.  The sentinel UINT32_MAX of [target_index], [destination] and [best] is [None].
    [std::stable_sort] is the stable insertion sort of the same comparison. *)
From Stdlib Require Import SpecFloat.
From S2P Require Import Prelude.

(** * Doubles *)
Abbreviation double := spec_float.
Definition d_zero : double := S754_zero false.
Definition d_eps : double := S754_finite false 4835703278458517 (-82). (* 1e-9 *)
Definition d_add (x y : double) : double := SFadd 53 1024 x y.
Definition d_sub (x y : double) : double := SFsub 53 1024 x y.
Definition d_lt (x y : double) : bool := SFltb x y.
Definition d_le (x y : double) : bool := SFleb x y.
Definition d_eq (x y : double) : bool := SFeqb x y.
Definition d_of_Z (z : Z) : double := binary_normalize 53 1024 z 0 false.
(** [std::max(0.0, x)]. *)
Definition max0 (x : double) : double := if d_lt d_zero x then x else d_zero.
#[export] Instance double_inhabited : Inhabited spec_float := populate S754_nan.

(** [std::minmax_element]: the first smallest and the last largest. *)
Definition minmax (vs : list double) : double * double :=
  match vs with
  | [] => (d_zero, d_zero)
  | v :: vs => fold_left (fun '(lo, hi) x => (if d_lt x lo then x else lo, if d_lt x hi then hi else x)) vs (v, v)
  end.
Definition spread (vs : list double) : double :=
  match vs with [] => d_zero | _ => let '(lo, hi) := minmax vs in d_sub hi lo end.

Record WeightedLbItem := mkItem { it_id : Z; it_owner : Z; it_weight : double; it_pinned : bool; it_secondary : double }.
Record WeightedLbAssignment := mkAssign { as_id : Z; as_source : Z; as_destination : Z; as_weight : double; as_secondary : double }.
#[export] Instance item_inhabited : Inhabited WeightedLbItem := populate (mkItem 0 0 d_zero false d_zero).

Fixpoint index_from (i : nat) (targets : list Z) (tid : Z) : option nat :=
  match targets with
  | [] => None
  | t :: targets => if t =? tid then Some i else index_from (S i) targets tid
  end.
Definition target_index (targets : list Z) (tid : Z) : option nat := index_from 0 targets tid.

(** * The partition *)
Record Plan := mkPlan { count : list Z; load : list double; secondary_load : list double; destination : list (option nat) }.
(** Item [i] goes to target [at_]. *)
Definition place (p : Plan) (i at_ : nat) (it : WeightedLbItem) : Plan :=
  mkPlan (<[at_ := u32 (count p !!! at_ + 1)]> (count p)) (<[at_ := d_add (load p !!! at_) (max0 (it_weight it))]> (load p))
    (<[at_ := d_add (secondary_load p !!! at_) (max0 (it_secondary it))]> (secondary_load p)) (<[i := Some at_]> (destination p)).

Section Partition.
Context (items : list WeightedLbItem) (targets : list Z).
Definition low : Z := u32 (Z.of_nat (length items) / Z.of_nat (length targets)).
Definition high : Z := u32 (low + (if negb (Z.of_nat (length items) mod Z.of_nat (length targets) =? 0) then 1 else 0)).

(** The first loop, over the items from index [i] on; [None] is [return false]. *)
Fixpoint place_pinned (i : nat) (its : list WeightedLbItem) (p : Plan) : option Plan :=
  match its with
  | [] => Some p
  | it :: its =>
      if negb (it_pinned it) then place_pinned (S i) its p
      else
        at_ ← target_index targets (it_owner it);
        if count p !!! at_ =? high then None else place_pinned (S i) its (place p i at_ it)
  end.

(** The comparison of the sort, on item indices. *)
Definition order_before (x y : nat) : bool :=
  let a := items !!! x in let b := items !!! y in
  if negb (d_eq (it_weight a) (it_weight b)) then d_lt (it_weight b) (it_weight a)
  else if negb (d_eq (it_secondary a) (it_secondary b)) then d_lt (it_secondary b) (it_secondary a)
  else it_id a <? it_id b.
Fixpoint sort_insert (x : nat) (l : list nat) : list nat :=
  match l with
  | [] => [x]
  | y :: l => if order_before y x then y :: sort_insert x l else x :: y :: l
  end.
Definition stable_sort (l : list nat) : list nat := foldr sort_insert [] l.
Definition order : list nat :=
  stable_sort (List.filter (fun i => negb (it_pinned (items !!! i))) (seq 0 (length items))).

Definition deficit (cs : list Z) : Z := u32 (foldr (fun c d => (if c <? low then low - c else 0) + d) 0 cs).
(** Target [t] is better than [best] for [it]. *)
Definition better (p : Plan) (it : WeightedLbItem) (t best : nat) : bool :=
  let mine x := (targets !!! x) =? it_owner it in
  d_lt (load p !!! t) (load p !!! best) ||
  (d_eq (load p !!! t) (load p !!! best) && d_lt (secondary_load p !!! t) (secondary_load p !!! best)) ||
  (d_eq (load p !!! t) (load p !!! best) && d_eq (secondary_load p !!! t) (secondary_load p !!! best) && (count p !!! t <? count p !!! best)) ||
  (d_eq (load p !!! t) (load p !!! best) && d_eq (secondary_load p !!! t) (secondary_load p !!! best) && (count p !!! t =? count p !!! best)
    && mine t && negb (mine best)) ||
  (d_eq (load p !!! t) (load p !!! best) && d_eq (secondary_load p !!! t) (secondary_load p !!! best) && (count p !!! t =? count p !!! best)
    && eqb (mine t) (mine best) && (targets !!! t <? targets !!! best)).
Definition choose (p : Plan) (it : WeightedLbItem) (must_fill_low : bool) : option nat :=
  fold_left (fun best t =>
    if (high <=? count p !!! t) || (must_fill_low && (low <=? count p !!! t)) then best
    else match best with
         | None => Some t
         | Some b => if better p it t b then Some t else best
         end) (seq 0 (length targets)) None.
Fixpoint place_rest (os : list nat) (p : Plan) : option Plan :=
  match os with
  | [] => Some p
  | o :: os' =>
      let remaining := u32 (Z.of_nat (length os)) in
      best ← choose p (items !!! o) (remaining =? deficit (count p));
      place_rest os' (place p o best (items !!! o))
  end.

(** The incumbent: every item at its owner; [None] when an owner is no target. *)
Fixpoint incumbent (i : nat) (its : list WeightedLbItem) (p : Plan) : option Plan :=
  match its with
  | [] => Some p
  | it :: its => at_ ← target_index targets (it_owner it); incumbent (S i) its (place p i at_ it)
  end.
Definition within (cs : list Z) : bool := forallb (fun c => negb (c <? low) && negb (high <? c)) cs.
Definition empty_plan : Plan :=
  mkPlan (replicate (length targets) 0) (replicate (length targets) d_zero) (replicate (length targets) d_zero) (replicate (length items) None).
Definition prefer_incumbent (p : Plan) : Plan :=
  match incumbent 0 items empty_plan with
  | Some inc =>
      if within (count inc) && d_le (spread (load inc)) (d_add (spread (load p)) d_eps)
         && d_le (spread (secondary_load inc)) (d_add (spread (secondary_load p)) d_eps)
      then mkPlan (count p) (load p) (secondary_load p) (destination inc) else p
  | None => p
  end.
Fixpoint assignments (its : list WeightedLbItem) (dest : list (option nat)) : option (list WeightedLbAssignment) :=
  match its, dest with
  | it :: its, d :: dest =>
      d ← d; rest ← assignments its dest;
      Some (mkAssign (it_id it) (it_owner it) (targets !!! d) (max0 (it_weight it)) (max0 (it_secondary it)) :: rest)
  | _, _ => Some []
  end.
(** [Some out]: the call returned true. *)
Definition weighted_lb_partition : option (list WeightedLbAssignment) :=
  if Z.of_nat (length targets) =? 0 then (if Z.of_nat (length items) =? 0 then Some [] else None)
  else
    p ← place_pinned 0 items empty_plan;
    p ← place_rest order p;
    if negb (within (count p)) then None else assignments items (destination (prefer_incumbent p)).
End Partition.

(** * One incremental move *)
Record WeightedLbMoveChoice := mkChoice {
  item_index : option nat; ch_source : Z; ch_destination : Z; before_weight_spread : double; after_weight_spread : double;
  before_secondary_spread : double; after_secondary_spread : double }.
(** The loads under trial and the best move so far. *)
Record Trial := mkTrial {
  t_load : list double; t_secondary : list double; t_count : list Z; choice : WeightedLbMoveChoice;
  best_weight : double; best_secondary : double; best_count : Z }.

Section Move.
Context (items : list WeightedLbItem) (targets : list Z) (demand_hot : bool).
Fixpoint owner_loads (its : list WeightedLbItem) (ls ss : list double) (cs : list Z) : option (list double * list double * list Z) :=
  match its with
  | [] => Some (ls, ss, cs)
  | it :: its =>
      owner ← target_index targets (it_owner it);
      owner_loads its (<[owner := d_add (ls !!! owner) (max0 (it_weight it))]> ls)
        (<[owner := d_add (ss !!! owner) (max0 (it_secondary it))]> ss) (<[owner := u32 (cs !!! owner + 1)]> cs)
  end.
(** [v[from] -= x; v[to] += x]. *)
Definition shift (v : list double) (from to : nat) (x : double) : list double :=
  let v := <[from := d_sub (v !!! from) x]> v in <[to := d_add (v !!! to) x]> v.
Definition shift_count (v : list Z) (from to : nat) : list Z :=
  let v := <[from := u32 (v !!! from - 1)]> v in <[to := u32 (v !!! to + 1)]> v.
Definition count_spread (v : list Z) : Z :=
  match v with [] => 0 | c :: v => u32 (foldr Z.max c v - foldr Z.min c v) end.
Definition improves (old_weight old_secondary next_weight next_secondary : double) : bool :=
  if demand_hot then d_lt (d_add next_weight d_eps) old_weight
  else d_le next_weight (d_add old_weight d_eps) && d_lt (d_add next_secondary d_eps) old_secondary.
(** The candidate beats the best one so far. *)
Definition beats (tr : Trial) (it : WeightedLbItem) (destination : nat) (nw ns : double) (nc : Z) : bool :=
  match item_index (choice tr) with
  | None => true
  | Some k =>
      let id := it_id (items !!! k) in
      let same := d_eq nw (best_weight tr) && d_eq ns (best_secondary tr) in
      d_lt nw (best_weight tr) || (d_eq nw (best_weight tr) && d_lt ns (best_secondary tr)) ||
      (same && (nc <? best_count tr)) || (same && (nc =? best_count tr) && (it_id it <? id)) ||
      (same && (nc =? best_count tr) && (it_id it =? id) && (targets !!! destination <? ch_destination (choice tr)))
  end.
(** One turn of the inner loop: the loads move there and back. *)
Definition try_move (old_weight old_secondary : double) (i : nat) (it : WeightedLbItem) (source : nat) (tr : Trial) (destination : nat) : Trial :=
  if (destination =? source)%nat then tr
  else
    let w := max0 (it_weight it) in let sw := max0 (it_secondary it) in
    let ls := shift (t_load tr) source destination w in
    let ss := shift (t_secondary tr) source destination sw in
    let cs := shift_count (t_count tr) source destination in
    let '(nw, ns, nc) := (spread ls, spread ss, count_spread cs) in
    let cs := shift_count cs destination source in
    let ss := shift ss destination source sw in
    let ls := shift ls destination source w in
    let tr := mkTrial ls ss cs (choice tr) (best_weight tr) (best_secondary tr) (best_count tr) in
    if negb (improves old_weight old_secondary nw ns) then tr
    else if beats tr it destination nw ns nc then
      mkTrial ls ss cs (mkChoice (Some i) (it_owner it) (targets !!! destination) (before_weight_spread (choice tr)) nw
                          (before_secondary_spread (choice tr)) ns) nw ns nc
    else tr.
Definition try_item (old_weight old_secondary : double) (tr : Trial) (i : nat) : Trial :=
  let it := items !!! i in
  if it_pinned it then tr
  else match target_index targets (it_owner it) with
       | Some source => fold_left (try_move old_weight old_secondary i it source) (seq 0 (length targets)) tr
       | None => tr
       end.
Definition no_choice : WeightedLbMoveChoice := mkChoice None UINT32_MAX UINT32_MAX d_zero d_zero d_zero d_zero.
Definition weighted_lb_best_incremental_move (secondary_hot : bool) : bool * WeightedLbMoveChoice :=
  if (Z.of_nat (length targets) <? 2) || (negb demand_hot && negb secondary_hot) then (false, no_choice)
  else
    let zero := replicate (length targets) d_zero in
    match owner_loads items zero zero (replicate (length targets) 0) with
    | None => (false, no_choice)
    | Some (ls, ss, cs) =>
        let '(old_weight, old_secondary) := (spread ls, spread ss) in
        let start := mkChoice None UINT32_MAX UINT32_MAX old_weight d_zero old_secondary d_zero in
        let tr := fold_left (try_item old_weight old_secondary) (seq 0 (length items)) (mkTrial ls ss cs start old_weight old_secondary UINT32_MAX) in
        (match item_index (choice tr) with Some _ => true | None => false end, choice tr)
    end.
End Move.

(** * The pace of the controller *)
Definition kTickMs : Z := 1000.
Definition kDecisionTicks : Z := 3.
Definition kWindowMs : Z := kTickMs * kDecisionTicks.
Definition kSamplesPerDecision : Z := 4096.
Definition d_ceil_clamp (x : double) : option Z :=
  match x with
  | S754_nan => None
  | S754_infinity s => Some (if s then 1 else UINT32_MAX)
  | S754_zero _ => Some 1
  | S754_finite s m e =>
      let v := if s then Z.neg m else Z.pos m in
      let c := if 0 <=? e then v * 2 ^ e else - ((- v) / 2 ^ (- e)) in
      Some (Z.max 1 (Z.min c UINT32_MAX))
  end.
(** [None]: a NaN is converted to an integer. *)
Definition sample_every (visits elapsed_ms : double) (window_ms : Z) : option Z :=
  if negb (d_lt d_zero elapsed_ms) then Some 1
  else d_ceil_clamp (SFdiv 53 1024 (SFdiv 53 1024 (SFmul 53 1024 visits (d_of_Z window_ms)) elapsed_ms) (d_of_Z kSamplesPerDecision)).
Record LbAutotune := mkTune { sample_rate : Z; last_fold_ns : Z; transfer_ns : Z; transfers : Z }.
Definition observe_visits (a : LbAutotune) (visits now : Z) : option LbAutotune :=
  if negb (last_fold_ns a =? 0) && (last_fold_ns a <? now) then
    rate ← sample_every (d_of_Z visits) (SFdiv 53 1024 (d_of_Z (u64 (now - last_fold_ns a))) (d_of_Z 1000000)) kWindowMs;
    Some (mkTune rate now (transfer_ns a) (transfers a))
  else Some (mkTune (sample_rate a) now (transfer_ns a) (transfers a)).
Record QuietJitter := mkJitter { previous : double; jitter : double; windows : Z }.
Definition d_2 : double := d_of_Z 2.
Definition d_quarter : double := SFdiv 53 1024 (d_of_Z 1) (d_of_Z 4).
Definition d_three_quarters : double := SFdiv 53 1024 (d_of_Z 3) (d_of_Z 4).
Definition jitter_observe (q : QuietJitter) (value : double) : bool * QuietJitter :=
  let delta := SFabs (d_sub value (previous q)) in
  let j := if negb (windows q =? 0) && ((windows q <=? kDecisionTicks) || d_le delta (SFmul 53 1024 d_2 (jitter q)))
           then if windows q =? 1 then delta else d_add (SFmul 53 1024 d_quarter delta) (SFmul 53 1024 d_three_quarters (jitter q))
           else jitter q in
  let w := Z.min (u32 (windows q + 1)) (kDecisionTicks + 1) in
  (kDecisionTicks <? w, mkJitter value j w).
Definition jitter_band (q : QuietJitter) : double := SFmul 53 1024 d_2 (jitter q).
Definition note_transfer (a : LbAutotune) (elapsed_ns n : Z) : LbAutotune :=
  if n =? 0 then a else mkTune (sample_rate a) (last_fold_ns a) (u64 (transfer_ns a + Z.max elapsed_ns 1)) (u64 (transfers a + n)).
Definition move_cost_ns (a : LbAutotune) : Z := if transfers a =? 0 then 0 else Z.max 1 (transfer_ns a / transfers a).
Definition move_cap (a : LbAutotune) (candidates : Z) : Z :=
  let cost := move_cost_ns a in
  let cap := if cost =? 0 then 1 else kTickMs * 1000000 / cost / kDecisionTicks in
  Z.min candidates (Z.max 1 cap).
Definition cooldown_ms (a : LbAutotune) : Z :=
  let ticks := u64 (u64 (move_cost_ns a * kDecisionTicks) + kTickMs * 1000000 - 1) / (kTickMs * 1000000) in
  u64 (Z.max 1 ticks * kTickMs).

(** * What a plan promises *)
(** How many items go to target [t]. *)
Definition cnt (t : nat) (dest : list (option nat)) : Z :=
  foldr (fun d n => (if decide (d = Some t) then 1 else 0) + n) 0 dest.
Definition counts (T : nat) (dest : list (option nat)) : list Z := (fun t => cnt t dest) <$> seq 0 T.
Definition nsome (dest : list (option nat)) : Z := foldr (fun d n => (match d with Some _ => 1 | None => 0 end) + n) 0 dest.
Definition sumZ (l : list Z) : Z := foldr Z.add 0 l.
(** An assignment of items to target positions that keeps the pinned items at their owner and gives every target the floor or the ceiling of the mean. *)
Record balanced (items : list WeightedLbItem) (targets : list Z) (asg : list nat) : Prop := {
  ba_length : length asg = length items;
  ba_target : Forall (fun d => d < length targets)%nat asg;
  ba_pinned : forall i it d, items !! i = Some it -> asg !! i = Some d -> it_pinned it = true -> target_index targets (it_owner it) = Some d;
  ba_share : forall t, (t < length targets)%nat ->
    let N := Z.of_nat (length items) in let T := Z.of_nat (length targets) in
    N / T <= cnt t (Some <$> asg) <= (N + T - 1) / T }.

(** ** Counting *)
Lemma cnt_bounds t dest : 0 <= cnt t dest <= Z.of_nat (length dest).
Proof. induction dest as [|d dest IH]; cbn; [lia|]. destruct (decide _); unfold cnt in IH; lia. Qed.
Lemma cnt_none t n : cnt t (replicate n None) = 0.
Proof. induction n as [|n IH]; [done|]. cbn. rewrite decide_False by done. exact IH. Qed.
Lemma cnt_set t i d dest : dest !! i = Some None -> cnt t (<[i := Some d]> dest) = cnt t dest + (if decide (t = d) then 1 else 0).
Proof.
  revert i. induction dest as [|e dest IH]; intros [|i] H; cbn in *; [done..| |].
  - injection H as ->. rewrite (decide_False (P := None = Some t)) by done.
    destruct (decide (t = d)) as [->|Hn]; [rewrite decide_True by done; lia|rewrite decide_False by congruence; lia].
  - change (foldr _ 0 (<[i:=Some d]> dest)) with (cnt t (<[i:=Some d]> dest)). rewrite IH by done. unfold cnt. lia.
Qed.
Lemma nsome_set i d dest : dest !! i = Some None -> nsome (<[i := Some d]> dest) = nsome dest + 1.
Proof.
  revert i. induction dest as [|e dest IH]; intros [|i] H; cbn in *; [done..| |].
  - injection H as ->. lia.
  - change (foldr _ 0 (<[i:=Some d]> dest)) with (nsome (<[i:=Some d]> dest)). rewrite IH by done. unfold nsome. lia.
Qed.
Lemma sum_add {A} (f g : A -> Z) l : sumZ ((fun x => f x + g x) <$> l) = sumZ (f <$> l) + sumZ (g <$> l).
Proof. induction l as [|x l IH]; cbn; unfold sumZ in *; cbn in *; lia. Qed.
Lemma sum_le {A} (f g : A -> Z) l : (forall x, x ∈ l -> f x <= g x) -> sumZ (f <$> l) <= sumZ (g <$> l).
Proof.
  induction l as [|x l IH]; intros H; [done|]. specialize (IH (fun y Hy => H y (list_elem_of_further _ _ _ Hy))).
  pose proof (H x (list_elem_of_here _ _)). unfold sumZ in *. cbn in *. lia.
Qed.
Lemma sum_indicator a n d : sumZ ((fun t => if decide (Some d = Some t) then 1 else 0) <$> seq a n) = if decide (a <= d < a + n)%nat then 1 else 0.
Proof.
  revert a. induction n as [|n IH]; intros a; cbn [seq fmap list_fmap sumZ foldr].
  - rewrite decide_False by lia. done.
  - change (foldr Z.add 0 ?l) with (sumZ l). rewrite IH. destruct (decide (Some d = Some a)) as [[= ->]|Hn].
    + rewrite decide_False, decide_True by lia. done.
    + assert (d <> a) by congruence. destruct (decide (S a <= d < S a + n)%nat); [rewrite decide_True by lia|rewrite decide_False by lia]; done.
Qed.
Lemma sum_counts T dest : (forall d, Some d ∈ dest -> d < T)%nat -> sumZ (counts T dest) = nsome dest.
Proof.
  unfold counts. induction dest as [|[d|] dest IH]; intros H.
  - cbn [cnt foldr nsome]. induction (seq 0 T); [done|]. unfold sumZ in *. cbn in *. lia.
  - change (nsome (Some d :: dest)) with (1 + nsome dest). rewrite <- IH by (intros d' Hd'; apply H; by right).
    change (fun t => cnt t (Some d :: dest)) with (fun t => (if decide (Some d = Some t) then 1 else 0) + cnt t dest).
    rewrite sum_add, sum_indicator, decide_True; [done|]. split; [lia|]. apply H. by left.
  - change (nsome (None :: dest)) with (0 + nsome dest). rewrite <- IH by (intros d' Hd'; apply H; by right). f_equal.
Qed.
Lemma counts_lookup T dest t : (t < T)%nat -> counts T dest !!! t = cnt t dest.
Proof. intros H. unfold counts. apply list_lookup_total_correct. rewrite list_lookup_fmap, lookup_seq_lt by done. done. Qed.
Lemma counts_set T dest i d : dest !! i = Some None -> (d < T)%nat ->
  counts T (<[i := Some d]> dest) = <[d := cnt d dest + 1]> (counts T dest).
Proof.
  intros Hi Hd. apply list_eq. intros t. destruct (decide (t < T)%nat) as [Ht|Ht].
  - unfold counts. rewrite list_lookup_fmap, lookup_seq_lt by done. cbn. rewrite cnt_set by done. destruct (decide (t = d)) as [->|Hn].
    + rewrite list_lookup_insert_eq by (by rewrite length_fmap, length_seq). done.
    + rewrite list_lookup_insert_ne, list_lookup_fmap, lookup_seq_lt by done. cbn. f_equal. lia.
  - rewrite !lookup_ge_None_2; [done| |]; rewrite ?length_insert; unfold counts; rewrite length_fmap, length_seq; lia.
Qed.

(** ** The passes of the partition *)
Section PartitionProof.
Context (items : list WeightedLbItem) (targets : list Z).
Context (HN : Z.of_nat (length items) < 4294967296) (HT : 0 < Z.of_nat (length targets) < 4294967296).
Abbreviation N := (Z.of_nat (length items)).
Abbreviation T := (Z.of_nat (length targets)).
Abbreviation low := (low items targets).
Abbreviation high := (high items targets).

Lemma share_bounds : low = N / T /\ high = (N + T - 1) / T /\ low * T <= N <= high * T /\ 0 <= low <= high /\ high <= N.
Proof.
  assert (0 <= N / T <= N) as Hq by (split; [apply Z.div_pos|apply Z.div_le_upper_bound]; nia).
  pose proof (Z.div_mod N T ltac:(lia)) as E. pose proof (Z.mod_pos_bound N T ltac:(lia)).
  assert (low = N / T) as El by (unfold WeightedLb.low, u32; apply Z.mod_small; lia).
  assert (high = (N + T - 1) / T /\ high = low + (if N mod T =? 0 then 0 else 1)) as [Eh Eh'].
  { unfold WeightedLb.high. rewrite El. destruct (Z.eqb_spec (N mod T) 0) as [E0|Hn]; cbn [negb]; unfold u32; rewrite Z.mod_small by nia; (split; [|lia]).
    - apply Z.div_unique with (T - 1); lia.
    - apply Z.div_unique with (N mod T - 1); lia. }
  rewrite Eh', El in *. split; [done|]. split; [done|]. destruct (Z.eqb_spec (N mod T) 0); nia.
Qed.

Record plan_ok (p : Plan) : Prop := {
  po_count : count p = counts (length targets) (destination p);
  po_length : length (destination p) = length items;
  po_target : forall d, Some d ∈ destination p -> (d < length targets)%nat }.
Lemma count_at p t : plan_ok p -> (t < length targets)%nat -> count p !!! t = cnt t (destination p).
Proof. intros [E _ _] Ht. by rewrite E, counts_lookup. Qed.
Lemma place_ok p i d it : plan_ok p -> destination p !! i = Some None -> (d < length targets)%nat -> plan_ok (place p i d it).
Proof.
  intros Hp Hi Hd. destruct Hp as [Hc Hl Ht] eqn:Ep. split; cbn.
  - rewrite counts_set by done. rewrite (count_at p d Hp Hd), Hc. f_equal. unfold u32. apply Z.mod_small.
    pose proof (cnt_bounds d (<[i := Some d]> (destination p))) as Hb. rewrite cnt_set, decide_True, length_insert, Hl in Hb by done.
    pose proof (cnt_bounds d (destination p)). lia.
  - by rewrite length_insert.
  - intros d' [k Hk]%list_elem_of_lookup. destruct (decide (k = i)) as [->|Hne].
    + rewrite list_lookup_insert_eq in Hk by (by eapply lookup_lt_Some). by injection Hk as <-.
    + rewrite list_lookup_insert_ne in Hk by done. apply Ht. by eapply list_elem_of_lookup_2.
Qed.
Lemma index_from_lt a l tid d : index_from a l tid = Some d -> (a <= d < a + length l)%nat.
Proof.
  revert a. induction l as [|t l IH]; intros a H; cbn in *; [done|]. destruct (t =? tid); [injection H as <-; lia|]. specialize (IH _ H). lia.
Qed.
Lemma target_index_lt tid d : target_index targets tid = Some d -> (d < length targets)%nat.
Proof. intros H%index_from_lt. lia. Qed.
Lemma empty_plan_ok : plan_ok (empty_plan items targets).
Proof.
  split; cbn.
  - apply list_eq. intros t. destruct (decide (t < length targets)%nat).
    + unfold counts. rewrite lookup_replicate_2, list_lookup_fmap, lookup_seq_lt by done. cbn. f_equal.
      by rewrite cnt_none.
    + rewrite !lookup_ge_None_2; [done| |]; unfold counts; rewrite ?length_fmap, ?length_seq, ?length_replicate; lia.
  - apply length_replicate.
  - intros d Hd. apply elem_of_replicate in Hd as [? _]. done.
Qed.

(** [dest] holds [want] below [i] and is free from there on. *)
Definition filled_to (i : nat) (want : WeightedLbItem -> option nat) (dest : list (option nat)) : Prop :=
  forall k it, items !! k = Some it -> dest !! k = Some (if decide (k < i)%nat then want it else None).
Lemma filled_to_place i want p it d : plan_ok p -> items !! i = Some it -> filled_to i want (destination p) -> want it = Some d -> (d < length targets)%nat ->
  plan_ok (place p i d it) /\ filled_to (S i) want (destination (place p i d it)) /\ destination p !! i = Some None.
Proof.
  intros Hp Ei Hf Hw Hd. assert (destination p !! i = Some None) as Hn by (rewrite (Hf i it Ei), decide_False by lia; done).
  split; [by apply place_ok|]. split; [|done]. intros k it' Hk. cbn. destruct (decide (k = i)) as [->|Hne].
  - rewrite list_lookup_insert_eq by (by eapply lookup_lt_Some). rewrite decide_True by lia. congruence.
  - rewrite list_lookup_insert_ne by done. rewrite (Hf k it' Hk).
    destruct (decide (k < i)%nat); [rewrite decide_True by lia|rewrite decide_False by lia]; done.
Qed.
Definition pin (it : WeightedLbItem) : option nat := if it_pinned it then target_index targets (it_owner it) else None.
Definition pins_known : Prop := forall it, it ∈ items -> it_pinned it = true -> is_Some (target_index targets (it_owner it)).
Definition at_most_high (p : Plan) : Prop := forall t, (t < length targets)%nat -> cnt t (destination p) <= high.

Lemma drop_lookup_cons {A} (l : list A) i x rest : drop i l = x :: rest -> l !! i = Some x /\ drop (S i) l = rest.
Proof.
  intros E. split.
  - rewrite <- (Nat.add_0_r i), <- lookup_drop, E. done.
  - rewrite <- Nat.add_1_r, <- drop_drop, E. done.
Qed.
Lemma place_pinned_sound i its p p' : its = drop i items -> plan_ok p -> at_most_high p -> filled_to i pin (destination p) ->
  place_pinned items targets i its p = Some p' ->
  plan_ok p' /\ at_most_high p' /\ filled_to (length items) pin (destination p') /\
  (forall k it, (i <= k)%nat -> items !! k = Some it -> it_pinned it = true -> is_Some (target_index targets (it_owner it))).
Proof.
  revert i p. induction its as [|it its IH]; intros i p Hd Hp Hm Hf; cbn [place_pinned].
  - intros [= <-]. assert (length items <= i)%nat as Hle.
    { apply (f_equal length) in Hd. rewrite length_drop in Hd. cbn in Hd. lia. }
    split_and!; [done|done| |].
    + intros k it Hk. pose proof (lookup_lt_Some _ _ _ Hk). rewrite (Hf k it Hk). by rewrite !decide_True by lia.
    + intros k it Hk Hl%lookup_lt_Some. lia.
  - symmetry in Hd. apply drop_lookup_cons in Hd as [Ei Hd]. symmetry in Hd. destruct (it_pinned it) eqn:Epin; cbn [negb].
    + destruct (target_index targets (it_owner it)) as [d|] eqn:Et; [|done]. rewrite some_bind. pose proof (target_index_lt _ _ Et) as Hlt.
      destruct (Z.eqb_spec (count p !!! d) high) as [|Hne]; [done|]. intros H.
      destruct (filled_to_place i pin p it d Hp Ei Hf) as (Hp1 & Hf1 & Hn); [unfold pin; by rewrite Epin|done|].
      destruct (IH (S i) _ Hd Hp1) as (H1 & H2 & H3 & H4); [|done|exact H|].
      { intros t Ht. unfold place. cbn [destination]. rewrite cnt_set by done. rewrite (count_at p d Hp Hlt) in Hne. pose proof (Hm t Ht).
        destruct (decide (t = d)) as [->|]; lia. }
      split_and!; [done..|]. intros k it' Hk Hit' Hpin'. destruct (decide (k = i)) as [->|]; [|by apply (H4 k it'); [lia|..]].
      rewrite Ei in Hit'. injection Hit' as <-. by rewrite Et.
    + intros H. destruct (IH (S i) p Hd Hp Hm) as (H1 & H2 & H3 & H4); [|exact H|].
      { intros k it' Hk. rewrite (Hf k it' Hk). destruct (decide (k < i)%nat); [rewrite decide_True by lia; done|].
        destruct (decide (k < S i)%nat); [|done]. assert (k = i) as -> by lia. rewrite Ei in Hk. injection Hk as <-. unfold pin. by rewrite Epin. }
      split_and!; [done..|]. intros k it' Hk Hit' Hpin'. destruct (decide (k = i)) as [->|]; [congruence|by apply (H4 k it'); [lia|..]].
Qed.

(** ** The order of the rest *)
Lemma sort_insert_perm x l : sort_insert items x l ≡ₚ x :: l.
Proof. induction l as [|y l IH]; cbn; [done|]. destruct (order_before items y x); [|done]. rewrite IH. apply Permutation_swap. Qed.
Lemma stable_sort_perm l : stable_sort items l ≡ₚ l.
Proof. induction l as [|x l IH]; cbn; [done|]. by rewrite sort_insert_perm, IH. Qed.
Definition free_items : list nat := List.filter (fun i => negb (it_pinned (items !!! i))) (seq 0 (length items)).
Lemma order_perm : order items ≡ₚ free_items.
Proof. apply stable_sort_perm. Qed.
Lemma order_in o : o ∈ order items <-> exists it, items !! o = Some it /\ it_pinned it = false.
Proof.
  rewrite order_perm. unfold free_items. rewrite list_elem_of_In, filter_In, in_seq. split.
  - intros [Ho Hp]. destruct (lookup_lt_is_Some_2 items o ltac:(lia)) as [it E]. exists it. split; [done|].
    rewrite (list_lookup_total_correct _ _ _ E) in Hp. by destruct (it_pinned it).
  - intros (it & E & Hp). pose proof (lookup_lt_Some _ _ _ E). rewrite (list_lookup_total_correct _ _ _ E), Hp. split; [lia|done].
Qed.
Lemma order_nodup : NoDup (order items).
Proof. rewrite order_perm. apply NoDup_ListNoDup, List.NoDup_filter, seq_NoDup. Qed.
Lemma filter_seq_length {A} `{!Inhabited A} (f : A -> bool) (l : list A) :
  length (List.filter (fun i => f (l !!! i)) (seq 0 (length l))) = length (List.filter f l).
Proof.
  induction l as [|x l IH]; [done|]. cbn [length seq List.filter]. rewrite <- seq_shift.
  assert (forall ns, length (List.filter (fun i => f ((x :: l) !!! i)) (map S ns)) = length (List.filter (fun i => f (l !!! i)) ns)) as Hs.
  { induction ns as [|n ns IHn]; [done|]. cbn. destruct (f (l !!! n)); cbn; by rewrite IHn. }
  change ((x :: l) !!! 0%nat) with x. destruct (f x); cbn [length]; by rewrite Hs, IH.
Qed.

(** ** The greedy pass *)
Definition eligible (p : Plan) (must_fill_low : bool) (t : nat) : Prop :=
  count p !!! t < high /\ (must_fill_low = true -> count p !!! t < low).
Lemma choose_spec p it m :
  match choose items targets p it m with
  | Some t => (t < length targets)%nat /\ eligible p m t
  | None => forall t, (t < length targets)%nat -> ~ eligible p m t
  end.
Proof.
  unfold choose.
  assert (forall l best, (match best with Some t => (t < length targets)%nat /\ eligible p m t | None => True end) -> (forall t, t ∈ l -> t < length targets)%nat ->
    match fold_left (fun best t => if (high <=? count p !!! t) || (m && (low <=? count p !!! t)) then best
       else match best with None => Some t | Some b => if better targets p it t b then Some t else best end) l best with
    | Some t => (t < length targets)%nat /\ eligible p m t
    | None => best = None /\ forall t, t ∈ l -> ~ eligible p m t end) as H.
  { induction l as [|t l IH]; intros best Hb Hl; cbn [fold_left]; [destruct best; [done|]; split; [done|]; by intros ? ?%elem_of_nil|].
    assert (forall t', t' ∈ l -> (t' < length targets)%nat) as Hl' by (intros t' ?; apply Hl; by right).
    destruct ((high <=? count p !!! t) || (m && (low <=? count p !!! t))) eqn:E.
    - specialize (IH best Hb Hl'). destruct (fold_left _ l best); [done|]. destruct IH as [? IH]. split; [done|].
      intros t' [->|Ht]%elem_of_cons; [|by apply IH]. intros [H1 H2]. apply orb_prop in E as [E|E]; zcmp; [lia|]. specialize (H2 ltac:(done)). lia.
    - apply orb_false_elim in E as [E1 E2]. assert ((t < length targets)%nat /\ eligible p m t) as Ht.
      { split; [apply Hl; by left|]. zcmp. split; [done|]. intros ->. cbn in E2. zcmp. done. }
      specialize (IH (match best with None => Some t | Some b => if better targets p it t b then Some t else best end)).
      destruct best as [b|]; [destruct (better targets p it t b)|];
        (specialize (IH ltac:(assumption) Hl'); destruct (fold_left _ l _); [done|]; by destruct IH). }
  specialize (H (seq 0 (length targets)) None I ltac:(intros t [_ ?]%elem_of_seq; lia)). destruct (fold_left _ _ None); [done|].
  destruct H as [_ H]. intros t Ht. apply H. apply elem_of_seq. lia.
Qed.

Lemma place_rest_sound os p p' : plan_ok p -> NoDup os -> (forall o, o ∈ os -> destination p !! o = Some None) -> place_rest items targets os p = Some p' ->
  plan_ok p' /\ (forall k d, destination p !! k = Some (Some d) -> destination p' !! k = Some (Some d)) /\
  (forall o, o ∈ os -> exists d, destination p' !! o = Some (Some d)).
Proof.
  revert p. induction os as [|o os IH]; intros p Hp Hnd Hfree; cbn [place_rest].
  - intros [= <-]. split_and!; [done..|]. by intros ? ?%elem_of_nil.
  - apply NoDup_cons in Hnd as [Hno Hnd]. set (m := u32 _ =? _). pose proof (choose_spec p (items !!! o) m) as Hc.
    destruct (choose _ _ _ _ m) as [t|]; [|done]. destruct Hc as [Hlt _]. rewrite some_bind. intros H. pose proof (Hfree o ltac:(by left)) as Ho.
    destruct (IH (place p o t (items !!! o))) as (Hp' & Hk & Hos); [by apply place_ok|done| |done|].
    { intros o' Ho'. cbn. rewrite list_lookup_insert_ne; [apply Hfree; by right|]. by intros ->. }
    assert (destination p' !! o = Some (Some t)) as Hot by (apply Hk; cbn; apply list_lookup_insert_eq; by eapply lookup_lt_Some).
    split_and!; [done| |].
    + intros k d E. apply Hk. cbn. rewrite list_lookup_insert_ne; [done|]. intros ->. congruence.
    + intros o' [->|Ho']%elem_of_cons; [by exists t|by apply Hos].
Qed.

Definition missing (c : Z) : Z := if c <? low then low - c else 0.
Definition lack (dest : list (option nat)) : Z := sumZ ((fun t => missing (cnt t dest)) <$> seq 0 (length targets)).
Lemma sum_zero {A} (f : A -> Z) l : (forall x, 0 <= f x) -> sumZ (f <$> l) <= 0 -> forall x, x ∈ l -> f x = 0.
Proof.
  intros Hf. induction l as [|y l IH]; intros Hs x Hx; [by apply elem_of_nil in Hx|]. assert (0 <= sumZ (f <$> l)) as Hl.
  { clear -Hf. induction l as [|z l IHl]; [done|]. specialize (Hf z). unfold sumZ in *. cbn in *. lia. }
  change (sumZ (f <$> y :: l)) with (f y + sumZ (f <$> l)) in Hs. specialize (Hf y). apply elem_of_cons in Hx as [->|Hx]; [lia|]. apply IH; [lia|done].
Qed.
Lemma sum_const {A} (c : Z) (l : list A) : sumZ ((fun _ => c) <$> l) = c * Z.of_nat (length l).
Proof. induction l as [|x l IH]; [cbn; lia|]. unfold sumZ in *. cbn [fmap list_fmap foldr length] in *. lia. Qed.
Lemma missing_nonneg c : 0 <= missing c.
Proof. unfold missing. destruct (Z.ltb_spec c low); lia. Qed.
Lemma deficit_lack p : plan_ok p -> deficit items targets (count p) = u32 (lack (destination p)).
Proof.
  intros [-> _ _]. unfold deficit, lack, counts, missing, sumZ. f_equal. induction (seq 0 (length targets)) as [|t l IH]; [done|].
  cbn [fmap list_fmap foldr]. by rewrite IH.
Qed.
Lemma lack_place dest i d : dest !! i = Some None -> (d < length targets)%nat ->
  lack (<[i := Some d]> dest) = lack dest - (if cnt d dest <? low then 1 else 0).
Proof.
  intros Hi Hd. unfold lack.
  assert (forall t, missing (cnt t dest) = missing (cnt t (<[i:=Some d]> dest)) + (if cnt d dest <? low then 1 else 0) * (if decide (Some d = Some t) then 1 else 0)) as Hm.
  { intros t. rewrite cnt_set by done. destruct (decide (t = d)) as [->|Hne].
    - rewrite decide_True by done. unfold missing. destruct (Z.ltb_spec (cnt d dest) low), (Z.ltb_spec (cnt d dest + 1) low); lia.
    - rewrite decide_False by congruence. rewrite Z.add_0_r. lia. }
  pose proof (sum_add (fun t => missing (cnt t (<[i:=Some d]> dest)))
    (fun t => (if cnt d dest <? low then 1 else 0) * (if decide (Some d = Some t) then 1 else 0)) (seq 0 (length targets))) as Hs.
  assert (sumZ ((fun t => (if cnt d dest <? low then 1 else 0) * (if decide (Some d = Some t) then 1 else 0)) <$> seq 0 (length targets))
    = if cnt d dest <? low then 1 else 0) as Hi1.
  { pose proof (sum_indicator 0 (length targets) d) as H1. rewrite decide_True in H1 by lia. destruct (cnt d dest <? low).
    - etransitivity; [|exact H1]. f_equal. apply list_fmap_ext. intros ? ? _. by destruct (decide _).
    - etransitivity; [|exact (sum_const 0 (seq 0 (length targets)))]. f_equal. }
  rewrite Hi1 in Hs. rewrite <- (list_fmap_ext _ _ _ (fun _ t _ => Hm t)) in Hs. lia.
Qed.

Lemma place_rest_complete os p : plan_ok p -> at_most_high p -> NoDup os -> (forall o, o ∈ os -> destination p !! o = Some None) ->
  nsome (destination p) + Z.of_nat (length os) = N -> lack (destination p) <= Z.of_nat (length os) ->
  exists p', place_rest items targets os p = Some p' /\ plan_ok p' /\ at_most_high p' /\ (forall t, (t < length targets)%nat -> low <= cnt t (destination p')).
Proof.
  revert p. induction os as [|o os IH]; intros p Hp Hm Hnd Hfree Hsum Hlack; cbn [place_rest].
  - exists p. split_and!; [done..|]. intros t Ht. assert (missing (cnt t (destination p)) = 0) as H0.
    { apply (sum_zero (fun t => missing (cnt t (destination p))) (seq 0 (length targets))); [intros; apply missing_nonneg|exact Hlack|].
      apply elem_of_seq. lia. }
    unfold missing in H0. destruct (Z.ltb_spec (cnt t (destination p)) low); lia.
  - apply NoDup_cons in Hnd as [Hno Hnd]. cbn [length] in *. pose proof share_bounds as (_ & _ & Hshare & Hlh & Hhn).
    assert (0 <= lack (destination p)) as Hl0.
    { unfold lack. clear. induction (seq 0 (length targets)) as [|t l IHl]; [done|]. pose proof (missing_nonneg (cnt t (destination p))).
      unfold sumZ in *. cbn in *. lia. }
    assert (0 <= nsome (destination p)) as Hns by (clear; induction (destination p) as [|[d|] l IHl]; [done|unfold nsome in *; cbn in *; lia..]).
    rewrite (deficit_lack p Hp). unfold u32 at 2. rewrite (Z.mod_small (lack _)) by lia. unfold u32. rewrite (Z.mod_small (Z.of_nat _)) by lia.
    set (m := _ =? _). pose proof (choose_spec p (items !!! o) m) as Hc. destruct (choose _ _ _ _ m) as [t|] eqn:Ec.
    2:{ exfalso. assert (forall t, (t < length targets)%nat -> ~ (cnt t (destination p) < high /\ (m = true -> cnt t (destination p) < low))) as Hc'.
        { intros t Ht. rewrite <- (count_at p t Hp Ht). by apply Hc. }
        destruct (Z.eqb_spec (Z.of_nat (S (length os))) (lack (destination p))) as [E|Hne].
        - assert (lack (destination p) = 0); [|lia]. unfold lack.
          rewrite <- (Z.mul_0_l (Z.of_nat (length (seq 0 (length targets))))), <- sum_const. f_equal. apply list_fmap_ext. intros i t Ht.
          apply list_elem_of_lookup_2, elem_of_seq in Ht. specialize (Hc' t ltac:(lia)). unfold missing.
          destruct (Z.ltb_spec (cnt t (destination p)) low); [|done]. exfalso. apply Hc'. split; [lia|done].
        - assert (high * T <= nsome (destination p)); [|lia]. rewrite <- (sum_counts (length targets)) by apply Hp. unfold counts.
          rewrite <- (length_seq (length targets) 0), <- sum_const. rewrite length_seq. apply sum_le. intros t Ht%elem_of_seq.
          specialize (Hc' t ltac:(lia)). apply Z.nlt_ge. intros Hlt. apply Hc'. split; [done|]. by subst m. }
    destruct Hc as [Ht [He1 He2]]. rewrite (count_at p t Hp Ht) in *. rewrite some_bind. pose proof (Hfree o ltac:(by left)) as Ho.
    apply IH; [by apply place_ok| |done| | |].
    + intros t' Ht'. unfold place. cbn [destination]. rewrite cnt_set by done. pose proof (Hm t' Ht'). destruct (decide (t' = t)) as [->|]; lia.
    + intros o' Ho'. cbn. rewrite list_lookup_insert_ne; [apply Hfree; by right|]. by intros ->.
    + unfold place. cbn [destination]. rewrite nsome_set by done. lia.
    + unfold place. cbn [destination]. rewrite lack_place by done. subst m.
      destruct (Z.eqb_spec (Z.of_nat (S (length os))) (lack (destination p))); [|destruct (_ <? _); lia].
      rewrite (proj2 (Z.ltb_lt _ _)) by (by apply He2). lia.
Qed.

(** ** A balanced assignment is within reach of both passes *)
Lemma cnt_agree t dest asg : length dest = length asg -> (forall k d, dest !! k = Some (Some d) -> asg !! k = Some d) -> cnt t dest <= cnt t (Some <$> asg).
Proof.
  revert asg. induction dest as [|e dest IH]; intros [|a asg] Hl H; try done. specialize (IH asg ltac:(by injection Hl) (fun k => H (S k))).
  unfold cnt in *. cbn. destruct (decide (e = Some t)) as [->|]; [|destruct (decide (Some a = Some t)); lia].
  pose proof (H 0%nat t eq_refl) as [= ->]. rewrite decide_True by done. lia.
Qed.
Lemma nsome_all asg : nsome (Some <$> asg) = Z.of_nat (length asg).
Proof. induction asg as [|a asg IH]; [done|]. unfold nsome in *. cbn [fmap list_fmap foldr length] in *. lia. Qed.
Lemma pins_agree i asg dest : balanced items targets asg -> filled_to i pin dest -> length dest = length items ->
  forall k d, dest !! k = Some (Some d) -> asg !! k = Some d.
Proof.
  intros Hb Hf Hl k d Hk. pose proof (lookup_lt_Some _ _ _ Hk) as Hlt. destruct (lookup_lt_is_Some_2 items k ltac:(lia)) as [it Ei].
  pose proof (ba_length _ _ _ Hb). destruct (lookup_lt_is_Some_2 asg k ltac:(lia)) as [a Ea]. rewrite (Hf k it Ei) in Hk. destruct (decide (k < i)%nat); [|done].
  unfold pin in Hk. destruct (it_pinned it) eqn:Ep; [|done]. pose proof (ba_pinned _ _ _ Hb k it a Ei Ea Ep). congruence.
Qed.
Lemma place_pinned_complete asg i its p : balanced items targets asg -> its = drop i items -> plan_ok p -> filled_to i pin (destination p) ->
  exists p', place_pinned items targets i its p = Some p'.
Proof.
  intros Hb. pose proof share_bounds as (_ & Ehigh & _). revert i p. induction its as [|it its IH]; intros i p Hd Hp Hf; cbn [place_pinned]; [by eexists|].
  symmetry in Hd. apply drop_lookup_cons in Hd as [Ei Hd]. symmetry in Hd. destruct (it_pinned it) eqn:Epin; cbn [negb].
  - pose proof (lookup_lt_Some _ _ _ Ei). pose proof (ba_length _ _ _ Hb). destruct (lookup_lt_is_Some_2 asg i ltac:(lia)) as [d Ed].
    pose proof (ba_pinned _ _ _ Hb i it d Ei Ed Epin) as Et. rewrite Et, some_bind. pose proof (target_index_lt _ _ Et) as Hlt.
    destruct (filled_to_place i pin p it d Hp Ei Hf) as (Hp1 & Hf1 & Hn); [unfold pin; by rewrite Epin|done|].
    rewrite (count_at p d Hp Hlt). pose proof (ba_share _ _ _ Hb d Hlt) as Hs. cbv zeta in Hs. rewrite <- Ehigh in Hs.
    pose proof (cnt_agree d _ asg ltac:(rewrite (po_length _ Hp1); lia) (pins_agree _ asg _ Hb Hf1 (po_length _ Hp1))) as Hc.
    unfold place in Hc. cbn [destination] in Hc. rewrite cnt_set, decide_True in Hc by done.
    rewrite (proj2 (Z.eqb_neq _ _)) by lia. by apply IH.
  - apply IH; [done..|]. intros k it' Hk. rewrite (Hf k it' Hk). destruct (decide (k < i)%nat); [rewrite decide_True by lia; done|].
    destruct (decide (k < S i)%nat); [|done]. assert (k = i) as -> by lia. rewrite Ei in Hk. injection Hk as <-. unfold pin. by rewrite Epin.
Qed.
Lemma lack_bound asg p : balanced items targets asg -> plan_ok p -> filled_to (length items) pin (destination p) -> lack (destination p) + nsome (destination p) <= N.
Proof.
  intros Hb Hp Hf. rewrite <- (ba_length _ _ _ Hb), <- nsome_all. rewrite <- (sum_counts (length targets) (Some <$> asg)), <- (sum_counts (length targets) (destination p)).
  - unfold lack, counts. rewrite <- sum_add. apply sum_le. intros t Ht%elem_of_seq. pose proof share_bounds as (Elow & _).
    pose proof (ba_share _ _ _ Hb t ltac:(lia)) as Hs. cbv zeta in Hs. rewrite <- Elow in Hs. pose proof (ba_length _ _ _ Hb).
    pose proof (cnt_agree t _ asg ltac:(rewrite (po_length _ Hp); lia) (pins_agree _ asg _ Hb Hf (po_length _ Hp))).
    unfold missing. destruct (Z.ltb_spec (cnt t (destination p)) low); lia.
  - apply Hp.
  - intros d Hd. apply list_elem_of_fmap in Hd as (d' & [= ->] & Hd). pose proof (ba_target _ _ _ Hb) as HF. rewrite Forall_forall in HF. by apply HF.
Qed.
Lemma nsome_pins p : plan_ok p -> filled_to (length items) pin (destination p) ->
  (forall it, it ∈ items -> it_pinned it = true -> is_Some (target_index targets (it_owner it))) ->
  nsome (destination p) + Z.of_nat (length (order items)) = N.
Proof.
  intros Hp Hf Hk. assert (destination p = pin <$> items) as ->.
  { apply list_eq. intros k. rewrite list_lookup_fmap. destruct (items !! k) as [it|] eqn:E; cbn.
    - rewrite (Hf k it E), decide_True; [done|by eapply lookup_lt_Some].
    - apply lookup_ge_None_2. rewrite (po_length _ Hp). by apply lookup_ge_None_1. }
  rewrite order_perm. unfold free_items. rewrite (filter_seq_length (fun it => negb (it_pinned it)) items).
  clear -Hk. induction items as [|it its IH]; [done|]. cbn [length]. rewrite Nat2Z.inj_succ, <- IH by (intros ? ?; apply Hk; by right).
  change (nsome (pin <$> it :: its)) with ((match pin it with Some _ => 1 | None => 0 end) + nsome (pin <$> its)). cbn [List.filter].
  unfold pin at 1. destruct (it_pinned it) eqn:Ep; cbn [negb length]; [|lia]. destruct (Hk it ltac:(by left) Ep) as [d ->]. lia.
Qed.

(** ** The result *)
Definition describe (it : WeightedLbItem) (d : nat) : WeightedLbAssignment :=
  mkAssign (it_id it) (it_owner it) (targets !!! d) (max0 (it_weight it)) (max0 (it_secondary it)).
Lemma assignments_all its asg : length its = length asg -> assignments targets its (Some <$> asg) = Some (zip_with describe its asg).
Proof. revert asg. induction its as [|it its IH]; intros [|d asg] Hl; try done. cbn. by rewrite IH by (by injection Hl). Qed.
Lemma incumbent_spec i its p inc : its = drop i items -> plan_ok p -> filled_to i (fun it => target_index targets (it_owner it)) (destination p) ->
  incumbent targets i its p = Some inc -> plan_ok inc /\
  forall k it, items !! k = Some it -> destination inc !! k = Some (target_index targets (it_owner it)) /\
    ((i <= k)%nat -> is_Some (target_index targets (it_owner it))).
Proof.
  revert i p. induction its as [|it its IH]; intros i p Hd Hp Hf; cbn [incumbent].
  - intros [= <-]. split; [done|]. intros k it Hk. pose proof (lookup_lt_Some _ _ _ Hk). apply (f_equal length) in Hd. rewrite length_drop in Hd. cbn in Hd.
    split; [|lia]. rewrite (Hf k it Hk), decide_True by lia. done.
  - symmetry in Hd. apply drop_lookup_cons in Hd as [Ei Hd]. symmetry in Hd.
    destruct (target_index targets (it_owner it)) as [d|] eqn:Et; [|done]. rewrite some_bind. intros H.
    destruct (filled_to_place i _ p it d Hp Ei Hf Et (target_index_lt _ _ Et)) as (Hp1 & Hf1 & _).
    destruct (IH (S i) _ Hd Hp1 Hf1 H) as [H1 H2]. split; [done|]. intros k it' Hk. destruct (H2 k it' Hk) as [H3 H4]. split; [done|]. intros Hik.
    destruct (decide (k = i)) as [->|]; [|apply H4; lia]. rewrite Ei in Hk. injection Hk as <-. by rewrite Et.
Qed.
Lemma all_some (dest : list (option nat)) : (forall k, (k < length dest)%nat -> exists d, dest !! k = Some (Some d)) -> exists asg, dest = Some <$> asg.
Proof.
  induction dest as [|e dest IH]; intros H; [by exists []|]. destruct (H 0%nat ltac:(cbn; lia)) as [d [= ->]].
  destruct IH as [asg ->]; [intros k Hk; apply (H (S k)); cbn; lia|]. by exists (d :: asg).
Qed.
Lemma within_spec p t : plan_ok p -> within items targets (count p) = true -> (t < length targets)%nat -> low <= cnt t (destination p) <= high.
Proof.
  intros [Hc _ _] Hw Ht. unfold within in Hw. rewrite forallb_forall in Hw. specialize (Hw (cnt t (destination p))).
  rewrite andb_true_iff, !negb_true_iff, !Z.ltb_ge in Hw. apply Hw. rewrite Hc. apply list_elem_of_In, list_elem_of_fmap. exists t. split; [done|]. apply elem_of_seq. lia.
Qed.
Lemma balanced_plan p dest : plan_ok p -> within items targets (count p) = true -> destination p = dest ->
  (forall k it, items !! k = Some it -> exists d, dest !! k = Some (Some d) /\ (it_pinned it = true -> target_index targets (it_owner it) = Some d)) ->
  exists asg, balanced items targets asg /\ dest = Some <$> asg.
Proof.
  intros Hp Hw <- H. destruct (all_some (destination p)) as [asg E].
  { intros k Hk. rewrite (po_length _ Hp) in Hk. destruct (lookup_lt_is_Some_2 items k Hk) as [it Ei]. destruct (H k it Ei) as (d & Hd & _). by exists d. }
  exists asg. split; [|done]. split.
  - by rewrite <- (po_length _ Hp), E, length_fmap.
  - apply Forall_forall. intros d Hd. apply (po_target _ Hp). rewrite E. by apply list_elem_of_fmap_2.
  - intros i it d Ei Ed Epin. destruct (H i it Ei) as (d' & Hd' & Hpin). rewrite E, list_lookup_fmap, Ed in Hd'. injection Hd' as <-. by apply Hpin.
  - intros t Ht. cbv zeta. pose proof share_bounds as (<- & <- & _). rewrite <- E. by apply within_spec.
Qed.
Lemma pinned_start : at_most_high (empty_plan items targets) /\ filled_to 0 pin (destination (empty_plan items targets)).
Proof.
  split.
  - intros t Ht. unfold empty_plan. cbn [destination]. rewrite cnt_none. pose proof share_bounds. lia.
  - intros k it Hk. cbn. rewrite lookup_replicate_2 by (by eapply lookup_lt_Some). done.
Qed.
Lemma prefer_incumbent_balanced p : plan_ok p -> within items targets (count p) = true ->
  (forall k it, items !! k = Some it -> exists d, destination p !! k = Some (Some d) /\ (it_pinned it = true -> target_index targets (it_owner it) = Some d)) ->
  exists asg, balanced items targets asg /\ destination (prefer_incumbent items targets p) = Some <$> asg.
Proof.
  intros Hp Hw Hd. unfold prefer_incumbent. destruct (incumbent targets 0 items (empty_plan items targets)) as [inc|] eqn:Einc; [|by apply (balanced_plan p)].
  destruct (within items targets (count inc) && _ && _) eqn:Ec; [|by apply (balanced_plan p)]. apply andb_prop in Ec as [[Hwi _]%andb_prop _]. cbn [destination].
  destruct (incumbent_spec 0 items (empty_plan items targets) inc eq_refl empty_plan_ok) as [Hpi Hi]; [|done|].
  { intros k it Hk. cbn. rewrite lookup_replicate_2 by (by eapply lookup_lt_Some). done. }
  apply (balanced_plan inc); [done..|]. intros k it Hk. destruct (Hi k it Hk) as [H1 H2]. destruct (H2 ltac:(lia)) as [d Hdk]. exists d. by rewrite H1, Hdk.
Qed.
Lemma order_free p : filled_to (length items) pin (destination p) -> forall o, o ∈ order items -> destination p !! o = Some None.
Proof. intros Hf o (it & Ei & Epin)%order_in. rewrite (Hf o it Ei), decide_True by (by eapply lookup_lt_Some). unfold pin. by rewrite Epin. Qed.
Lemma rest_assigned p p' : plan_ok p -> filled_to (length items) pin (destination p) ->
  (forall k it, (0 <= k)%nat -> items !! k = Some it -> it_pinned it = true -> is_Some (target_index targets (it_owner it))) ->
  place_rest items targets (order items) p = Some p' ->
  forall k it, items !! k = Some it -> exists d, destination p' !! k = Some (Some d) /\ (it_pinned it = true -> target_index targets (it_owner it) = Some d).
Proof.
  intros Hp Hf Hk E k it Ei. destruct (place_rest_sound _ p p' Hp order_nodup (order_free p Hf) E) as (_ & Hkeep & Hall). destruct (it_pinned it) eqn:Epin.
  - destruct (Hk k it ltac:(lia) Ei Epin) as [d Hd]. exists d. split; [|done]. apply Hkeep.
    rewrite (Hf k it Ei), decide_True by (by eapply lookup_lt_Some). unfold pin. by rewrite Epin, Hd.
  - destruct (Hall k) as [d Hd]; [apply order_in; by exists it|]. by exists d.
Qed.
Lemma partition_sound out : weighted_lb_partition items targets = Some out -> exists asg, balanced items targets asg /\ out = zip_with describe items asg.
Proof.
  unfold weighted_lb_partition. rewrite (proj2 (Z.eqb_neq T 0)) by lia. destruct pinned_start as [Hm0 Hf0].
  destruct (place_pinned items targets 0 items (empty_plan items targets)) as [p|] eqn:E1; [|done]. rewrite some_bind.
  destruct (place_pinned_sound 0 items _ p eq_refl empty_plan_ok Hm0 Hf0 E1) as (Hp & Hm & Hf & Hk).
  destruct (place_rest items targets (order items) p) as [p'|] eqn:E2; [|done]. rewrite some_bind.
  pose proof (order_free p Hf) as Hfree.
  destruct (place_rest_sound _ p p' Hp order_nodup Hfree E2) as (Hp' & _).
  destruct (within items targets (count p')) eqn:Ew; cbn [negb]; [|done].
  destruct (prefer_incumbent_balanced p' Hp' Ew) as (asg & Hb & ->).
  { by apply (rest_assigned p p'). }
  rewrite assignments_all by (symmetry; apply Hb). intros [= <-]. by exists asg.
Qed.
Lemma partition_complete asg : balanced items targets asg -> weighted_lb_partition items targets <> None.
Proof.
  intros Hb. unfold weighted_lb_partition. rewrite (proj2 (Z.eqb_neq T 0)) by lia. destruct pinned_start as [Hm0 Hf0].
  destruct (place_pinned_complete asg 0 items _ Hb eq_refl empty_plan_ok Hf0) as [p E1]. rewrite E1, some_bind.
  destruct (place_pinned_sound 0 items _ p eq_refl empty_plan_ok Hm0 Hf0 E1) as (Hp & Hm & Hf & Hk).
  pose proof (order_free p Hf) as Hfree.
  pose proof (nsome_pins p Hp Hf) as Hn. specialize (Hn ltac:(intros it [k Hit]%list_elem_of_lookup ?; by apply (Hk k it); [lia|..])).
  destruct (place_rest_complete _ p Hp Hm order_nodup Hfree Hn) as (p' & E2 & Hp' & Hm' & Hl'); [pose proof (lack_bound asg p Hb Hp Hf); lia|].
  rewrite E2, some_bind. assert (within items targets (count p') = true) as Hw.
  { unfold within. apply forallb_forall. intros c Hc. rewrite (po_count _ Hp') in Hc. apply list_elem_of_In, list_elem_of_fmap in Hc as (t & -> & Ht%elem_of_seq).
    pose proof (Hm' t ltac:(lia)). pose proof (Hl' t ltac:(lia)). by rewrite (proj2 (Z.ltb_ge _ _)), (proj2 (Z.ltb_ge _ _)) by lia. }
  rewrite Hw. cbn [negb].
  destruct (prefer_incumbent_balanced p' Hp' Hw) as (asg' & Hb' & ->).
  { by apply (rest_assigned p p'). }
  by rewrite assignments_all by (symmetry; apply Hb').
Qed.
End PartitionProof.

(** C29: The partition is exact.  When the call returns true, every item goes to one of the
    targets, pinned items stay with their owner and every target holds the floor or the ceiling
    of the mean number of items; when it returns false, no such assignment exists, so demand
    never makes the policy give up a feasible placement. *)
Theorem weighted_lb_partition_exact items targets :
  Z.of_nat (length items) < 4294967296 -> 0 < Z.of_nat (length targets) < 4294967296 ->
  match weighted_lb_partition items targets with
  | Some out => exists asg, balanced items targets asg /\ out = zip_with (describe targets) items asg
  | None => ~ exists asg, balanced items targets asg
  end.
Proof.
  intros HN HT. destruct (weighted_lb_partition items targets) as [out|] eqn:E; [by apply partition_sound|].
  intros (asg & Hb). by apply (partition_complete items targets HN HT asg Hb).
Qed.
(** Five items, the first pinned, on two targets. *)
Definition demo_items : list WeightedLbItem :=
  [mkItem 1 7 (d_of_Z 9) true d_zero; mkItem 2 7 (d_of_Z 5) false d_zero; mkItem 3 9 (d_of_Z 4) false d_zero;
   mkItem 4 9 (d_of_Z 1) false d_zero; mkItem 5 7 (d_of_Z 1) false d_zero].
Lemma weighted_lb_partition_exact_witness :
  weighted_lb_partition demo_items [7; 9] = Some (zip_with (describe [7; 9]) demo_items [0; 1; 1; 0; 1]%nat) /\
  exists asg, balanced demo_items [7; 9] asg /\ zip_with (describe [7; 9]) demo_items [0; 1; 1; 0; 1]%nat = zip_with (describe [7; 9]) demo_items asg.
Proof.
  pose proof (weighted_lb_partition_exact demo_items [7; 9] ltac:(reflexivity) ltac:(split; reflexivity)) as H.
  assert (weighted_lb_partition demo_items [7; 9] = Some (zip_with (describe [7; 9]) demo_items [0; 1; 1; 0; 1]%nat)) as E by (vm_compute; reflexivity).
  rewrite E in H. split; [exact E|exact H].
Defined.

(** ** Incremental moves *)
Lemma fold_left_inv {A B} (P : A -> Prop) (f : A -> B -> A) l a : (forall a x, x ∈ l -> P a -> P (f a x)) -> P a -> P (fold_left f l a).
Proof.
  revert a. induction l as [|x l IH]; intros a Hf Ha; [done|]. cbn. apply IH; [intros a' y Hy; apply Hf; by right|]. apply Hf; [by left|done].
Qed.
(** A chosen move is allowed and improves on the spreads before. *)
Definition good_move (items : list WeightedLbItem) (targets : list Z) (demand_hot : bool) (c : WeightedLbMoveChoice) : Prop :=
  exists i it s d, item_index c = Some i /\ items !! i = Some it /\ it_pinned it = false /\
    target_index targets (it_owner it) = Some s /\ (d < length targets)%nat /\ d <> s /\ ch_source c = it_owner it /\ ch_destination c = targets !!! d /\
    improves demand_hot (before_weight_spread c) (before_secondary_spread c) (after_weight_spread c) (after_secondary_spread c) = true.
Lemma try_item_good items targets dh ow os tr i : (i < length items)%nat ->
  let P (tr : Trial) := before_weight_spread (choice tr) = ow /\ before_secondary_spread (choice tr) = os /\
    (item_index (choice tr) = None \/ good_move items targets dh (choice tr)) in
  P tr -> P (try_item items targets dh ow os tr i).
Proof.
  intros Hi P HP. destruct (lookup_lt_is_Some_2 items i Hi) as [it Ei]. unfold try_item. rewrite (list_lookup_total_correct _ _ _ Ei).
  destruct (it_pinned it) eqn:Ep; [done|]. destruct (target_index targets (it_owner it)) as [s|] eqn:Et; [|done].
  apply fold_left_inv; [|done]. clear tr HP. intros tr d Hd%elem_of_seq (Hw & Hs & Hc). unfold try_move.
  destruct (Nat.eqb_spec d s); [done|]. destruct (improves dh ow os _ _) eqn:Eimp; cbn [negb]; [|done].
  destruct (beats items targets _ it d _ _ _); [|done]. split_and!; [done..|]. right. exists i, it, s, d. cbn [item_index ch_source ch_destination
    before_weight_spread after_weight_spread before_secondary_spread after_secondary_spread choice]. rewrite Hw, Hs. split_and!; try done; lia.
Qed.
(** When the incremental policy proposes a move, the item is not pinned, it leaves its owner
    for a different target, and the reported spread after the move improves on the spread before
    it by more than the tolerance: strictly in demand when demand is hot, otherwise without
    worsening demand and strictly in the secondary load. *)
Theorem incremental_move_improves items targets demand_hot secondary_hot :
  let '(moved, c) := weighted_lb_best_incremental_move items targets demand_hot secondary_hot in
  if moved then good_move items targets demand_hot c else item_index c = None.
Proof.
  unfold weighted_lb_best_incremental_move. destruct (_ || _); [done|]. destruct (owner_loads _ _ _ _ _) as [[[ls ss] cs]|]; [|done].
  set (tr := fold_left _ _ _). assert (before_weight_spread (choice tr) = spread ls /\ before_secondary_spread (choice tr) = spread ss /\
    (item_index (choice tr) = None \/ good_move items targets demand_hot (choice tr))) as (_ & _ & H).
  { subst tr. apply fold_left_inv; [|cbn; split_and!; [done..|by left]]. intros tr i Hi%elem_of_seq. apply try_item_good. lia. }
  destruct (item_index (choice tr)) eqn:E; [|done]. destruct H as [|H]; [done|exact H].
Qed.

Example move_ex : let '(moved, c) := weighted_lb_best_incremental_move demo_items [7; 9] true false in (moved, item_index c, ch_source c, ch_destination c) = (true, Some 1%nat, 7, 9).
Proof. vm_compute. reflexivity. Qed.

(** ** Pace *)
Lemma sample_every_bounds visits elapsed window r : sample_every visits elapsed window = Some r -> 1 <= r <= UINT32_MAX.
Proof.
  unfold sample_every, d_ceil_clamp, UINT32_MAX. destruct (negb _); [intros [= <-]; lia|]. destruct (SFdiv _ _ _ _) as [s|s| |s m e]; intros; simplify_eq; try destruct s; lia.
Qed.
(** One decision admits at most a decision tick's share of the measured transfer capacity, or one move. *)
Lemma move_cap_share a candidates : 1 <= candidates -> 0 <= transfer_ns a -> 0 <= transfers a ->
  1 <= move_cap a candidates <= candidates /\ (move_cap a candidates = 1 \/ move_cap a candidates * move_cost_ns a * kDecisionTicks <= kTickMs * 1000000).
Proof.
  intros. unfold move_cap. set (cost := move_cost_ns a). assert (0 <= cost) by (unfold cost, move_cost_ns; destruct (_ =? _); lia).
  destruct (Z.eqb_spec cost 0) as [->|]; [lia|]. split; [lia|]. unfold kTickMs, kDecisionTicks.
  pose proof (Z.mul_div_le (1000 * 1000000 / cost) 3 ltac:(lia)). pose proof (Z.mul_div_le (1000 * 1000000) cost ltac:(lia)).
  destruct (decide (1000 * 1000000 / cost / 3 <= 1)); [left; lia|right]. nia.
Qed.
