(* ===== verification/LiveConfig.v ===== *)
(** core/live_config.h and the publication protocol of core/server.h: CONFIG writers serialised by
    an odd/even version, and one three-slot mailbox per reader.

    The machine interleaves the single atomic accesses and slot writes of any number of writers and
    of one reader per mailbox.  The specification is the list of committed configurations. *)
From stdpp Require Import relations.
From S2P Require Import Prelude.

Record ClientBufferLimit := mkLimit { hard_bytes : Z; soft_bytes : Z; soft_seconds : Z }.
Record LiveConfigSnapshot := mkSnapshot {
  version : Z; maxmemory : Z; policy : Z; samples : Z; notify_events : Z; tracking_armed : bool;
  slowlog_log_slower_than : Z; latency_monitor_threshold : Z; save_armed : bool; proto_max_bulk_len : Z; debug_fanout_defer_us : Z }.
Record ClientLimitsConfigSnapshot := mkLimits { cl_version : Z; timeout : Z; normal : ClientBufferLimit; pubsub : ClientBufferLimit }.
Record LiveConfigValues := mkValues { live : LiveConfigSnapshot; clients : ClientLimitsConfigSnapshot }.
(** The mutable words behind a capture. *)
Record LiveAtomics := mkAtomics {
  live_maxmemory : Z; live_maxmemory_policy : Z; live_maxmemory_samples : Z; live_notify_events : Z; climon_armed : Z;
  live_slowlog_us : Z; live_latency_ms : Z; live_save_armed : bool; live_proto_max_bulk_len : Z; debug_atomic_fanout_defer : Z;
  live_timeout : Z; live_obuf_normal : ClientBufferLimit; live_obuf_pubsub : ClientBufferLimit }.
Definition kClimonMonitor : Z := 1.
Definition kClimonTracking : Z := 2.
Definition kClimonPause : Z := 4.
Definition kClimonReply : Z := 8.
Definition capture_live_config (f : LiveAtomics) (v : Z) : LiveConfigValues :=
  mkValues
    (mkSnapshot v (live_maxmemory f) (live_maxmemory_policy f) (live_maxmemory_samples f) (live_notify_events f)
       (negb (Z.land (climon_armed f) kClimonTracking =? 0)) (live_slowlog_us f) (live_latency_ms f) (live_save_armed f)
       (live_proto_max_bulk_len f) (debug_atomic_fanout_defer f))
    (mkLimits v (live_timeout f) (live_obuf_normal f) (live_obuf_pubsub f)).

(** * The mailbox *)
Definition kDirty : Z := 4.
Definition kIndex : Z := 3.
Record Publication := mkPub { previous : LiveConfigValues; next : LiveConfigValues }.
Record LiveConfigMailbox := mkBox { slots : list Publication; front : Z; back : Z; middle : Z }.
Definition box_init (initial : LiveConfigValues) : LiveConfigMailbox := mkBox (replicate 3 (mkPub initial initial)) 0 1 2.
(** [publish]: the slot write and the exchange. *)
Definition publish_put (p n : LiveConfigValues) (b : LiveConfigMailbox) : LiveConfigMailbox :=
  mkBox (<[Z.to_nat (back b) := mkPub p n]> (slots b)) (front b) (back b) (middle b).
Definition publish_swap (b : LiveConfigMailbox) : LiveConfigMailbox :=
  mkBox (slots b) (front b) (Z.land (middle b) kIndex) (Z.lor (back b) kDirty).
Definition publish (p n : LiveConfigValues) (b : LiveConfigMailbox) : LiveConfigMailbox := publish_swap (publish_put p n b).
(** [read]: the load, the exchange, and the choice after the version load. *)
Definition dirty (b : LiveConfigMailbox) : bool := negb (Z.land (middle b) kDirty =? 0).
Definition read_take (b : LiveConfigMailbox) : LiveConfigMailbox :=
  mkBox (slots b) (Z.land (middle b) kIndex) (back b) (front b).
Definition read_choose (observed : Z) (b : LiveConfigMailbox) : option LiveConfigValues :=
  slot ← slots b !! Z.to_nat (front b);
  Some (if observed =? u64 (version (live (next slot)) - 1) then previous slot else next slot).
Definition read (observed : Z) (b : LiveConfigMailbox) : option (LiveConfigValues * LiveConfigMailbox) :=
  let b := if dirty b then read_take b else b in
  v ← read_choose observed b; Some (v, b).

(** * Writers and readers *)
Record Shared := mkShared { live_config_version : Z; atomics : LiveAtomics; committed : LiveConfigValues; boxes : list LiveConfigMailbox }.
Inductive Writer :=
  | WOut
  | WLoad
  | WTry (v : Z)
  | WHold (w : Z)
  | WPut (w : Z) (n : LiveConfigValues) (k : nat)
  | WSwap (w : Z) (n : LiveConfigValues) (k : nat)
  | WCommit (w : Z) (n : LiveConfigValues)
  | WRelease (w : Z) (n : LiveConfigValues).
(** [since] and [obs] are auxiliary: the version when the read loads the middle word, and the version it observes. *)
Inductive Reader :=
  | ROut
  | RTake (since : Z)
  | RObserve (since : Z)
  | RHas (since obs : Z) (v : LiveConfigValues).

Definition set_boxes (s : Shared) (b : list LiveConfigMailbox) : Shared := mkShared (live_config_version s) (atomics s) (committed s) b.
Definition set_version (s : Shared) (v : Z) : Shared := mkShared v (atomics s) (committed s) (boxes s).
(** [begin_live_config_update] and [end_live_config_update]; the exchange may fail for no reason. *)
Definition writer_step (spurious : bool) (s : Shared) (w : Writer) : option (Shared * Writer) :=
  match w with
  | WOut => None
  | WLoad => Some (s, WTry (live_config_version s))
  | WTry v =>
      if Z.odd v then Some (s, WTry (live_config_version s))
      else if (live_config_version s =? v) && negb spurious then Some (set_version s (u64 (v + 1)), WHold (u64 (v + 1)))
      else Some (s, WTry (live_config_version s))
  | WHold w => Some (s, WPut w (capture_live_config (atomics s) (u64 (w + 1))) 0)
  | WPut w n k =>
      match boxes s !! k with
      | Some b => Some (set_boxes s (<[k := publish_put (committed s) n b]> (boxes s)), WSwap w n k)
      | None => Some (s, WCommit w n)
      end
  | WSwap w n k => b ← boxes s !! k; Some (set_boxes s (<[k := publish_swap b]> (boxes s)), WPut w n (S k))
  | WCommit w n => Some (mkShared (live_config_version s) (atomics s) n (boxes s), WRelease w n)
  | WRelease w n => Some (set_version s (u64 (w + 1)), WOut)
  end.
Definition reader_step (k : nat) (s : Shared) (r : Reader) : option (Shared * Reader) :=
  b ← boxes s !! k;
  match r with
  | ROut | RHas _ _ _ => Some (s, (if dirty b then RTake else RObserve) (live_config_version s))
  | RTake since => Some (set_boxes s (<[k := read_take b]> (boxes s)), RObserve since)
  | RObserve since => v ← read_choose (live_config_version s) b; Some (s, RHas since (live_config_version s) v)
  end.
(** A writer stores words only between begin and end; the armed word may change at any time. *)
Inductive Action :=
  | Begin (i : nat)
  | Write (i : nat) (spurious : bool)
  | Store (i : nat) (f : LiveAtomics)
  | Armed (word : Z)
  | Read (k : nat).
Definition System : Type := Shared * list Writer * list Reader.
Definition set_armed (f : LiveAtomics) (w : Z) : LiveAtomics :=
  mkAtomics (live_maxmemory f) (live_maxmemory_policy f) (live_maxmemory_samples f) (live_notify_events f) w (live_slowlog_us f) (live_latency_ms f)
    (live_save_armed f) (live_proto_max_bulk_len f) (debug_atomic_fanout_defer f) (live_timeout f) (live_obuf_normal f) (live_obuf_pubsub f).
Definition set_atomics (s : Shared) (f : LiveAtomics) : Shared := mkShared (live_config_version s) f (committed s) (boxes s).
Definition act (x : System) (a : Action) : option System :=
  let '(s, ws, rs) := x in
  match a with
  | Begin i => w ← ws !! i; match w with WOut => Some (s, <[i := WLoad]> ws, rs) | _ => None end
  | Write i spurious => w ← ws !! i; '(s', w') ← writer_step spurious s w; Some (s', <[i := w']> ws, rs)
  | Store i f => w ← ws !! i; match w with WHold _ => Some (set_atomics s f, ws, rs) | _ => None end
  | Armed word => Some (set_atomics s (set_armed (atomics s) word), ws, rs)
  | Read k => r ← rs !! k; '(s', r') ← reader_step k s r; Some (s', ws, <[k := r']> rs)
  end.
Fixpoint run_actions (x : System) (as' : list Action) : option System :=
  match as' with [] => Some x | a :: as' => y ← act x a; run_actions y as' end.
(** Boot: [n] writers, one mailbox and one reader per thread and one for the coordinator. *)
Definition boot (f : LiveAtomics) (n m : nat) : System :=
  let c := capture_live_config f 2 in
  (mkShared 2 f c (replicate m (box_init c)), replicate n WOut, replicate m ROut).

(** * The specification *)
(** Committed configurations, newest first: each is one capture. *)
Inductive spec_step : list LiveConfigValues -> list LiveConfigValues -> Prop :=
  | spec_commit c old f : spec_step (c :: old) (capture_live_config f (version (live c) + 2) :: c :: old).
Abbreviation ver c := (version (live c)).
(** The newest committed version while the version word is [v]. *)
Definition stable (v : Z) : Z := 2 * (v / 2).

(** * The mailboxes *)
Definition index_ok (i : Z) : Prop := 0 <= i <= 2.
(** [pend]: the publication the current writer has already put here. *)
Definition latest (c : LiveConfigValues) (pend : option LiveConfigValues) (p : Publication) : Prop :=
  match pend with Some n => p = mkPub c n | None => next p = c end.
Record box_ok (c : LiveConfigValues) (old : list LiveConfigValues) (pend : option LiveConfigValues) (b : LiveConfigMailbox) : Prop := {
  bo_length : length (slots b) = 3%nat;
  bo_index : index_ok (front b) /\ index_ok (back b) /\ index_ok (Z.land (middle b) kIndex) /\ front b <> back b /\ front b <> Z.land (middle b) kIndex /\ back b <> Z.land (middle b) kIndex;
  bo_latest : exists p, slots b !! Z.to_nat (if dirty b then Z.land (middle b) kIndex else front b) = Some p /\ latest c pend p;
  bo_front : dirty b = true -> exists p, slots b !! Z.to_nat (front b) = Some p /\ next p ∈ c :: old }.
Lemma index_bits i : index_ok i -> Z.land (Z.lor i kDirty) kIndex = i /\ (Z.land (Z.lor i kDirty) kDirty =? 0) = false /\ (Z.land i kDirty =? 0) = true /\ Z.land i kIndex = i.
Proof. unfold index_ok. intros H. assert (i = 0 \/ i = 1 \/ i = 2) as [->|[->| ->]] by lia; by vm_compute. Qed.
Lemma box_init_ok c : box_ok c [] None (box_init c).
Proof. split; [done|unfold index_ok; cbn [front back middle box_init]; change (Z.land 2 kIndex) with 2; lia|by eexists|done]. Qed.
Lemma put_ok c old b n : box_ok c old None b -> box_ok c old None (publish_put c n b) /\ slots (publish_put c n b) !! Z.to_nat (back b) = Some (mkPub c n).
Proof.
  intros [Hl (Hf & Hb & Hm & Hfb & Hfm & Hbm) (p & Ep & Hp) Hfr]. unfold index_ok in *. split; [|cbn; apply list_lookup_insert_eq; lia].
  split; [cbn; by rewrite length_insert|cbn; unfold index_ok; lia| |].
  - exists p. split; [|done]. cbn. change (dirty (publish_put c n b)) with (dirty b). rewrite list_lookup_insert_ne; [done|]. destruct (dirty b); lia.
  - intros Hd. destruct (Hfr Hd) as (q & Eq & Hq). exists q. split; [|done]. cbn. rewrite list_lookup_insert_ne; [done|lia].
Qed.
Lemma swap_ok c old b n : box_ok c old None b -> slots b !! Z.to_nat (back b) = Some (mkPub c n) -> box_ok c old (Some n) (publish_swap b).
Proof.
  intros [Hl (Hf & Hb & Hm & Hfb & Hfm & Hbm) (p & Ep & Hp) Hfr] Eb. destruct (index_bits (back b) Hb) as (B1 & B2 & _).
  assert (dirty (publish_swap b) = true) as Hd by (unfold dirty; cbn; by rewrite B2). split; [done| | |].
  - cbn. rewrite B1. split_and!; (done || lia).
  - rewrite Hd. cbn. rewrite B1. by exists (mkPub c n).
  - intros _. cbn. destruct (dirty b) eqn:Ed; [by apply Hfr|]. exists p. split; [done|]. cbn in Hp. rewrite Hp. left.
Qed.
Lemma take_ok c old pend b : box_ok c old pend b -> dirty b = true -> box_ok c old pend (read_take b) /\ dirty (read_take b) = false.
Proof.
  intros [Hl (Hf & Hb & Hm & Hfb & Hfm & Hbm) (p & Ep & Hp) Hfr] Hd. destruct (index_bits (front b) Hf) as (_ & _ & B3 & B4).
  assert (dirty (read_take b) = false) as Hd' by (unfold dirty; cbn; by rewrite B3). split; [|done]. split; [done| | |by rewrite Hd'].
  - cbn. rewrite B4. split_and!; (done || lia).
  - rewrite Hd'. cbn. rewrite Hd in Ep. by exists p.
Qed.
Lemma commit_ok c old n b : box_ok c old (Some n) b -> box_ok n (c :: old) None b.
Proof.
  intros [Hl Hi (p & Ep & Hp) Hfr]. split; [done|done| |].
  - exists p. split; [done|]. cbn in *. by rewrite Hp.
  - intros Hd. destruct (Hfr Hd) as (q & Eq & Hq). exists q. split; [done|]. by right.
Qed.
(** What the consumer's slot may hold. *)
Lemma front_slot c old pend b : box_ok c old pend b -> exists p, slots b !! Z.to_nat (front b) = Some p /\ (next p ∈ c :: old \/ exists n, pend = Some n /\ p = mkPub c n).
Proof.
  intros [Hl Hi (p & Ep & Hp) Hfr]. destruct (dirty b); [destruct (Hfr eq_refl) as (q & Eq & Hq); eauto|]. exists p. split; [done|]. destruct pend as [n|]; cbn in Hp; [right; eauto|left; rewrite Hp; left].
Qed.

(** * Writers *)
Definition writer_holds (w : Writer) : bool := match w with WOut | WLoad | WTry _ => false | _ => true end.
Definition boxes_ok (c : LiveConfigValues) (old : list LiveConfigValues) (pend : nat -> option LiveConfigValues) (s : Shared) : Prop :=
  forall k b, boxes s !! k = Some b -> box_ok c old (pend k) b.
Definition put_upto (n : LiveConfigValues) (k j : nat) : option LiveConfigValues := if decide (j < k)%nat then Some n else None.
Definition unlocked (s : Shared) (c : LiveConfigValues) (old : list LiveConfigValues) : Prop :=
  live_config_version s = ver c /\ committed s = c /\ boxes_ok c old (fun _ => None) s.
Definition next_of (c n : LiveConfigValues) : Prop := exists f, n = capture_live_config f (ver c + 2).
Definition locked (w : Writer) (s : Shared) (c : LiveConfigValues) (old : list LiveConfigValues) : Prop :=
  live_config_version s = ver c + 1 /\
  match w with
  | WOut | WLoad | WTry _ => False
  | WHold v => v = ver c + 1 /\ committed s = c /\ boxes_ok c old (fun _ => None) s
  | WPut v n k => v = ver c + 1 /\ committed s = c /\ next_of c n /\ boxes_ok c old (put_upto n k) s
  | WSwap v n k => v = ver c + 1 /\ committed s = c /\ next_of c n /\ boxes_ok c old (put_upto n k) s /\ exists b, boxes s !! k = Some b /\ slots b !! Z.to_nat (back b) = Some (mkPub c n)
  | WCommit v n => v = ver c + 1 /\ next_of c n /\ boxes_ok c old (fun _ => Some n) s
  | WRelease v n => v = ver c + 1 /\ committed s = n /\ next_of c n /\ boxes_ok c old (fun _ => Some n) s
  end.
Definition held (w : Writer) (s : Shared) (c : LiveConfigValues) (old : list LiveConfigValues) : Prop := if writer_holds w then locked w s c old else unlocked s c old.
(** The consumers' slots are untouched. *)
Definition front_same (s s' : Shared) : Prop := forall k b, boxes s !! k = Some b -> exists b', boxes s' !! k = Some b' /\ front b' = front b /\
  slots b' !! Z.to_nat (front b) = slots b !! Z.to_nat (front b) /\ (dirty b = true -> dirty b' = true).
Lemma front_same_refl s s' : boxes s' = boxes s -> front_same s s'.
Proof. intros E k b Hb. exists b. by rewrite E. Qed.
Lemma front_same_set s k b b' : boxes s !! k = Some b -> front b' = front b -> slots b' !! Z.to_nat (front b) = slots b !! Z.to_nat (front b) -> (dirty b = true -> dirty b' = true) ->
  front_same s (set_boxes s (<[k := b']> (boxes s))).
Proof.
  intros Ek Hf Hs Hd j x Ej. cbn. destruct (decide (j = k)) as [->|Hne].
  - rewrite Ek in Ej. injection Ej as <-. exists b'. split; [by eapply list_lookup_insert_eq, lookup_lt_Some|done].
  - exists x. rewrite list_lookup_insert_ne by done. done.
Qed.
Lemma boxes_ok_set c old p p' s k b' : boxes_ok c old p s -> (forall j, j <> k -> p' j = p j) -> box_ok c old (p' k) b' -> boxes_ok c old p' (set_boxes s (<[k := b']> (boxes s))).
Proof.
  intros H Hp Hb j x Hj. cbn in Hj. apply lookup_insert_cases in Hj as [[-> ->]|[Hne Hj]]; [done|]. rewrite Hp by done. eauto.
Qed.
Lemma put_upto_at n k : put_upto n k k = None.
Proof. unfold put_upto. by rewrite decide_False by lia. Qed.
Lemma put_upto_S n k j : j <> k -> put_upto n (S k) j = put_upto n k j.
Proof. intros H. unfold put_upto. destruct (decide _), (decide _); (done || lia). Qed.
Section Holder.
Context (s : Shared) (c : LiveConfigValues) (old : list LiveConfigValues) (Hc : 2 <= ver c) (Hmax : ver c < 2 ^ 63).
Lemma step_hold v : locked (WHold v) s c old -> held (WPut v (capture_live_config (atomics s) (u64 (v + 1))) 0) s c old.
Proof.
  intros (Hv & -> & Hcm & Hb). split; [done|]. split_and!; [done|done| |].
  - exists (atomics s). f_equal. unfold u64. rewrite Z.mod_small; lia.
  - intros k b Hk. apply (Hb k b Hk).
Qed.
Lemma step_put v n k b : locked (WPut v n k) s c old -> boxes s !! k = Some b ->
  let s' := set_boxes s (<[k := publish_put (committed s) n b]> (boxes s)) in held (WSwap v n k) s' c old /\ front_same s s'.
Proof.
  intros (Hv & -> & Hcm & Hn & Hb) Ek. rewrite Hcm. pose proof (Hb k b Ek) as Hbk. rewrite put_upto_at in Hbk. destruct (put_ok c old b n Hbk) as [Hput Eb].
  split; [split; [done|]; split_and!; [done..| |]|].
  - apply (boxes_ok_set _ _ (put_upto n k)); [done|done|]. by rewrite put_upto_at.
  - exists (publish_put c n b). split; [cbn; by eapply list_lookup_insert_eq, lookup_lt_Some|exact Eb].
  - apply front_same_set with b; [done|done| |done]. cbn. destruct (bo_index _ _ _ _ Hbk) as (Hf & Hba & _ & Hne & _). unfold index_ok in *. rewrite list_lookup_insert_ne; [done|lia].
Qed.
Lemma step_swap v n k b : locked (WSwap v n k) s c old -> boxes s !! k = Some b ->
  let s' := set_boxes s (<[k := publish_swap b]> (boxes s)) in held (WPut v n (S k)) s' c old /\ front_same s s'.
Proof.
  intros (Hv & -> & Hcm & Hn & Hb & b0 & Ek0 & Eb0) Ek. rewrite Ek in Ek0. injection Ek0 as <-. pose proof (Hb k b Ek) as Hbk. rewrite put_upto_at in Hbk. pose proof (swap_ok c old b n Hbk Eb0) as Hsw.
  split; [split; [done|]; split_and!; [done..|]|].
  - apply (boxes_ok_set _ _ (put_upto n k)); [done|by intros j; apply put_upto_S|]. unfold put_upto. by rewrite decide_True by lia.
  - apply front_same_set with b; [done|done|done|]. intros _. unfold dirty. cbn. destruct (bo_index _ _ _ _ Hbk) as (_ & Hba & _). by rewrite (proj1 (proj2 (index_bits _ Hba))).
Qed.
Lemma holder_write sp w s' w' : locked w s c old -> writer_step sp s w = Some (s', w') ->
  exists c' old', rtc spec_step (c :: old) (c' :: old') /\ held w' s' c' old' /\ front_same s s' /\ live_config_version s <= live_config_version s' <= live_config_version s + 1.
Proof.
  intros Hl Hw. pose proof Hl as [Hv Hl']. destruct w; try done; cbn [writer_step] in Hw.
  - injection Hw as <- <-. exists c, old. split; [done|]. split; [by apply step_hold|]. split; [by apply front_same_refl|lia].
  - destruct (boxes s !! k) as [b|] eqn:Ek.
    + injection Hw as <- <-. exists c, old. destruct (step_put _ _ _ _ Hl Ek). split; [done|]. split; [done|]. split; [done|cbn; lia].
    + injection Hw as <- <-. exists c, old. split; [done|]. split; [|split; [by apply front_same_refl|lia]]. destruct Hl' as (-> & Hcm & Hn & Hb). split; [done|]. split_and!; [done..|].
      intros j b Hj. specialize (Hb j b Hj). unfold put_upto in Hb. rewrite decide_True in Hb; [done|]. apply lookup_lt_Some in Hj. apply lookup_ge_None in Ek. lia.
  - destruct (boxes s !! k) as [b|] eqn:Ek; [|done]. injection Hw as <- <-. exists c, old. destruct (step_swap _ _ _ _ Hl Ek). split; [done|]. split; [done|]. split; [done|cbn; lia].
  - injection Hw as <- <-. exists c, old. split; [done|]. split; [|split; [by apply front_same_refl|cbn; lia]]. destruct Hl' as (-> & Hn & Hb). by split_and!.
  - injection Hw as <- <-. destruct Hl' as (-> & Hcm & (f & ->) & Hb). eexists _, _. split; [apply rtc_once, (spec_commit c old f)|].
    assert (u64 (ver c + 1 + 1) = ver c + 2) as E by (unfold u64; rewrite Z.mod_small; lia).
    split; [|split; [by apply front_same_refl|cbn; lia]]. split_and!; [cbn; by rewrite E|done|]. intros k b Hk. by apply commit_ok, (Hb k b Hk).
Qed.
End Holder.

(** * Readers *)
Definition reader_ok (s : Shared) (hist : list LiveConfigValues) (k : nat) (r : Reader) : Prop :=
  match r with
  | ROut => True
  | RTake since => since <= live_config_version s /\ exists b, boxes s !! k = Some b /\ dirty b = true
  | RObserve since => since <= live_config_version s /\ exists b p, boxes s !! k = Some b /\ slots b !! Z.to_nat (front b) = Some p /\ stable since <= ver (next p)
  | RHas since obs v =>
      since <= obs <= live_config_version s /\ v ∈ hist /\ stable since <= ver v <= obs /\
      exists b p, boxes s !! k = Some b /\ slots b !! Z.to_nat (front b) = Some p /\ (v = next p \/ v = previous p)
  end.
Lemma reader_ok_mono s s' hist hist' k r : reader_ok s hist k r -> front_same s s' -> live_config_version s <= live_config_version s' -> (forall v, v ∈ hist -> v ∈ hist') -> reader_ok s' hist' k r.
Proof.
  intros H Hf Hv Hh. destruct r as [|since|since|since obs v]; cbn in *; [done| | |].
  - destruct H as (H1 & b & Hb & Hd). destruct (Hf k b Hb) as (b' & Hb' & _ & _ & Hd'). split; [lia|]. eauto.
  - destruct H as (H1 & b & p & Hb & Hp & Hs). destruct (Hf k b Hb) as (b' & Hb' & E1 & E2 & _). split; [lia|]. exists b', p. rewrite E1, E2. done.
  - destruct H as (H1 & H2 & H3 & b & p & Hb & Hp & Hs). destruct (Hf k b Hb) as (b' & Hb' & E1 & E2 & _). split; [lia|]. split; [by apply Hh|]. split; [done|]. exists b', p. rewrite E1, E2. done.
Qed.
(** The boxes as a reader finds them, whoever writes. *)
Definition readable (s : Shared) (c : LiveConfigValues) (old : list LiveConfigValues) : Prop :=
  (live_config_version s = ver c \/ live_config_version s = ver c + 1) /\
  exists pend, boxes_ok c old pend s /\ forall k n, pend k = Some n -> ver n = ver c + 2 /\ live_config_version s = ver c + 1.
Lemma held_readable w s c old : held w s c old -> readable s c old.
Proof.
  unfold held. assert (forall n, next_of c n -> live_config_version s = ver c + 1 -> ver n = ver c + 2 /\ live_config_version s = ver c + 1) as Hn by (by intros n (f & ->) Hv).
  destruct (writer_holds w) eqn:Ew; [|intros (Hv & _ & Hb); split; [by left|by exists (fun _ => None)]].
  intros [Hv Hl]. split; [by right|]. destruct w as [| | |v|v n k|v n k|v n|v n]; try done.
  - exists (fun _ => None). by destruct Hl as (_ & _ & Hb).
  - exists (put_upto n k). destruct Hl as (_ & _ & Hnx & Hb). split; [done|]. intros j m E. unfold put_upto in E. destruct (decide _); [|done]. injection E as <-. by apply Hn.
  - exists (put_upto n k). destruct Hl as (_ & _ & Hnx & Hb & _). split; [done|]. intros j m E. unfold put_upto in E. destruct (decide _); [|done]. injection E as <-. by apply Hn.
  - exists (fun _ => Some n). destruct Hl as (_ & Hnx & Hb). split; [done|]. intros j m [= <-]. by apply Hn.
  - exists (fun _ => Some n). destruct Hl as (_ & _ & Hnx & Hb). split; [done|]. intros j m [= <-]. by apply Hn.
Qed.
Lemma take_boxes c old pend s k b : boxes_ok c old pend s -> boxes s !! k = Some b -> dirty b = true -> boxes_ok c old pend (set_boxes s (<[k := read_take b]> (boxes s))).
Proof. intros H Ek Hd. apply (boxes_ok_set _ _ pend); [done|done|]. by apply take_ok, Hd; apply H. Qed.
Lemma take_held w s c old k b : held w s c old -> boxes s !! k = Some b -> dirty b = true -> held w (set_boxes s (<[k := read_take b]> (boxes s))) c old.
Proof.
  unfold held, unlocked, locked. intros Hw Ek Hd. pose proof (fun pend H => take_boxes c old pend s k b H Ek Hd) as Ht.
  destruct w as [| | |v|v n j|v n j|v n|v n]; cbn [writer_holds] in *; destruct_and!; split_and!; try done; try (by apply Ht).
  destruct H5 as (b0 & E0 & Eb). destruct (decide (j = k)) as [->|Hne]; cbn.
  - rewrite Ek in E0. injection E0 as <-. exists (read_take b). split; [by eapply list_lookup_insert_eq, lookup_lt_Some|exact Eb].
  - exists b0. by rewrite list_lookup_insert_ne.
Qed.
Section ReaderStep.
Context (s : Shared) (c : LiveConfigValues) (old : list LiveConfigValues) (Hr : readable s c old).
Context (Heven : stable (ver c) = ver c) (Hc : 2 <= ver c < 2 ^ 63) (Hold : forall v, v ∈ old -> 2 <= ver v < ver c).
Lemma stable_version : stable (live_config_version s) = ver c.
Proof.
  destruct Hr as [[-> | ->] _]; [done|]. unfold stable in *. replace (ver c + 1) with (ver c / 2 * 2 + 1) by lia. rewrite Z.div_add_l by lia. change (1 / 2) with 0. lia.
Qed.
Lemma stable_le a b : a <= b -> stable a <= stable b.
Proof. intros H. unfold stable. pose proof (Z.div_le_mono a b 2 ltac:(lia) H). lia. Qed.
Lemma hist_le v : v ∈ c :: old -> 2 <= ver v <= ver c.
Proof. intros [->|H]%elem_of_cons; [lia|]. specialize (Hold v H). lia. Qed.
(** The newest publication of a box is at least as new as the committed configuration. *)
Lemma latest_new pend k b p : boxes_ok c old pend s -> (forall k n, pend k = Some n -> ver n = ver c + 2 /\ live_config_version s = ver c + 1) -> boxes s !! k = Some b ->
  slots b !! Z.to_nat (if dirty b then Z.land (middle b) kIndex else front b) = Some p -> ver c <= ver (next p).
Proof.
  intros Hb Hp Ek E. destruct (bo_latest _ _ _ _ (Hb k b Ek)) as (q & Eq & Hq). rewrite E in Eq. injection Eq as <-. destruct (pend k) as [n|] eqn:En; cbn in Hq.
  - rewrite Hq. cbn. destruct (Hp k n En). lia.
  - by rewrite Hq.
Qed.
Lemma reader_step_ok k r s' r' : reader_ok s (c :: old) k r -> reader_step k s r = Some (s', r') ->
  reader_ok s' (c :: old) k r' /\ (s' = s \/ exists b, boxes s !! k = Some b /\ dirty b = true /\ s' = set_boxes s (<[k := read_take b]> (boxes s))).
Proof.
  intros Hok Hs. unfold reader_step in Hs. destruct (boxes s !! k) as [b|] eqn:Ek; [|done]. rewrite some_bind in Hs. pose proof Hr as (Hver & pend & Hb & Hp).
  assert (forall q, slots b !! Z.to_nat (if dirty b then Z.land (middle b) kIndex else front b) = Some q -> stable (live_config_version s) <= ver (next q)) as Hnew
    by (intros q Eq; rewrite stable_version; by eapply latest_new).
  assert (reader_ok s (c :: old) k ((if dirty b then RTake else RObserve) (live_config_version s))) as Hstart.
  { destruct (bo_latest _ _ _ _ (Hb k b Ek)) as (q & Eq & _). specialize (Hnew q Eq). destruct (dirty b) eqn:Ed; cbn; (split; [done|]); eauto 6. }
  destruct r as [|since|since|since obs v].
  - injection Hs as <- <-. split; [done|by left].
  - injection Hs as <- <-. destruct Hok as (Hsince & b0 & E0 & Hd). rewrite Ek in E0. injection E0 as <-. split; [|right; by exists b].
    destruct (bo_latest _ _ _ _ (Hb k b Ek)) as (q & Eq & _). specialize (Hnew q Eq). cbn. split; [done|]. exists (read_take b), q. rewrite Hd in Eq.
    split; [by eapply list_lookup_insert_eq, lookup_lt_Some|]. split; [done|]. pose proof (stable_le _ _ Hsince). lia.
  - destruct Hok as (Hsince & b0 & q & E0 & Eq & Hst). rewrite Ek in E0. injection E0 as <-. unfold read_choose in Hs. rewrite Eq, some_bind in Hs. cbn [mbind option_bind] in Hs. injection Hs as <- <-. split; [|by left].
    pose proof (stable_le _ _ Hsince) as Hle. rewrite stable_version in Hle. destruct (front_slot _ _ _ _ (Hb k b Ek)) as (q' & Eq' & Hq'). rewrite Eq in Eq'. injection Eq' as <-.
    assert (exists v, (if live_config_version s =? u64 (ver (next q) - 1) then previous q else next q) = v /\ v ∈ c :: old /\ stable since <= ver v <= live_config_version s /\ (v = next q \/ v = previous q)) as (v & -> & Hv & Hvs & Hvq); [|cbn; split; [lia|]; split; [done|]; split; [done|]; by exists b, q].
    destruct Hq' as [Hin|(n & En & ->)].
    + pose proof (hist_le _ Hin). exists (next q). rewrite (proj2 (Z.eqb_neq _ _)); [split_and!; (done || lia || by left)|]. unfold u64. rewrite Z.mod_small; lia.
    + destruct (Hp k n En) as [Hn Hv]. exists c. cbn in *. rewrite (proj2 (Z.eqb_eq _ _)); [|unfold u64; rewrite Z.mod_small; lia]. split_and!; [done|by left|lia|lia|by right].
  - injection Hs as <- <-. split; [done|by left].
Qed.
End ReaderStep.

(** * The whole system *)
Record sys_ok (t : Z) (x : System) (c : LiveConfigValues) (old : list LiveConfigValues) : Prop := {
  so_stable : stable (ver c) = ver c;
  so_version : 2 <= ver c /\ ver c <= live_config_version x.1.1 <= 2 + t;
  so_old : forall v, v ∈ old -> 2 <= ver v < ver c;
  so_writer : exists w, held w x.1.1 c old /\ sole writer_holds x.1.2 w;
  so_reader : forall k r, x.2 !! k = Some r -> reader_ok x.1.1 (c :: old) k r }.
Lemma spec_keeps c old c' old' : rtc spec_step (c :: old) (c' :: old') -> stable (ver c) = ver c -> 2 <= ver c -> (forall v, v ∈ old -> 2 <= ver v < ver c) ->
  stable (ver c') = ver c' /\ ver c <= ver c' /\ (forall v, v ∈ old' -> 2 <= ver v < ver c') /\ forall v, v ∈ c :: old -> v ∈ c' :: old'.
Proof.
  intros H. remember (c :: old) as x eqn:Ex. remember (c' :: old') as y eqn:Ey. revert c old c' old' Ex Ey. induction H as [x|x y z H _ IH]; intros c old c' old' -> Ey Hs Hc Ho.
  { injection Ey as <- <-. by split_and!. }
  inversion H as [c0 old0 f E1 E2]. subst. destruct (IH _ _ c' old' eq_refl eq_refl) as (H1 & H2 & H3 & H4).
  - unfold stable in *. cbn. replace (ver c + 2) with (ver c + 1 * 2) by lia. rewrite Z.div_add by lia. lia.
  - cbn. lia.
  - intros v [->|Hv]%elem_of_cons; cbn; [lia|]. specialize (Ho v Hv). lia.
  - cbn in H2. split_and!; [done|lia|done|]. intros v Hv. apply H4. by right.
Qed.
(** A step that leaves the consumers' slots alone. *)
Lemma sys_ok_writer t s ws rs c old s' ws' w' c' old' : sys_ok t (s, ws, rs) c old -> rtc spec_step (c :: old) (c' :: old') -> held w' s' c' old' -> sole writer_holds ws' w' -> front_same s s' ->
  live_config_version s <= live_config_version s' <= live_config_version s + 1 -> sys_ok (t + 1) (s', ws', rs) c' old'.
Proof.
  intros [Hs Hv Ho _ Hr] Hspec Hh Hu Hf Hvs. cbn [fst snd] in *. destruct (spec_keeps _ _ _ _ Hspec Hs (proj1 Hv) Ho) as (H1 & H2 & H3 & H4). destruct (held_readable _ _ _ _ Hh) as [Hver _].
  split; cbn [fst snd]; [done|lia|done|eauto|]. intros k r Hk. apply (reader_ok_mono s s' (c :: old)); [by apply Hr|done|lia|done].
Qed.
Lemma reader_ok_other s hist j r s' : reader_ok s hist j r -> live_config_version s' = live_config_version s -> boxes s' !! j = boxes s !! j -> reader_ok s' hist j r.
Proof. intros H Hv Hb. destruct r; cbn in *; rewrite ?Hv, ?Hb; done. Qed.
Lemma act_ok t x c old a y : sys_ok t x c old -> t + 2 < 2 ^ 63 -> act x a = Some y -> exists c' old', rtc spec_step (c :: old) (c' :: old') /\ sys_ok (t + 1) y c' old'.
Proof.
  destruct x as [[s ws] rs]. intros Hok Ht Ha. pose proof Hok as [Hs [Hc Hv] Ho (h & Hh & Hu) Hr]. cbn [fst snd] in *.
  destruct a as [i|i sp|i f|word|k]; cbn [act] in Ha.
  - destruct (ws !! i) as [w|] eqn:Ei; [|done]. rewrite some_bind in Ha. destruct w; try done. injection Ha as <-. exists c, old. split; [done|].
    apply (sys_ok_writer t s ws rs c old s _ h); [done..|by apply (sole_other _ _ _ _ WOut)|by apply front_same_refl|lia].
  - destruct (ws !! i) as [w|] eqn:Ei; [|done]. rewrite some_bind in Ha. destruct (writer_step sp s w) as [[s' w']|] eqn:Ew; [|done]. rewrite some_bind in Ha. injection Ha as <-.
    pose proof (lookup_lt_Some _ _ _ Ei) as Hlt. destruct (writer_holds w) eqn:Ehw.
    + destruct (sole_at _ _ _ _ _ Hu Ei Ehw) as [-> Hoth]. unfold held in Hh. rewrite Ehw in Hh.
      destruct (holder_write s c old Hc ltac:(lia) sp h s' w' Hh Ew) as (c' & old' & Hspec & Hh' & Hf & Hvs). exists c', old'. split; [done|].
      apply (sys_ok_writer t s ws rs c old s' _ w'); [done..|by apply sole_insert|done|done].
    + destruct (writer_holds w') eqn:Ehw'.
      * (* the exchange succeeded *) destruct w as [| |v|v|v n k|v n k|v n|v n]; try done; cbn [writer_step] in Ew; [by injection Ew as <- <-|]. destruct (Z.odd v) eqn:Eodd; [by injection Ew as <- <-|].
        destruct ((live_config_version s =? v) && negb sp) eqn:Ecas; [|by injection Ew as <- <-]. injection Ew as <- <-. apply andb_prop in Ecas as [Ecas _]. apply Z.eqb_eq in Ecas. subst v.
        assert (live_config_version s = ver c /\ committed s = c /\ boxes_ok c old (fun _ => None) s /\ forall j q, ws !! j = Some q -> writer_holds q = false) as (Hve & Hcm & Hb & Hnone).
        { unfold held, sole in *. destruct (writer_holds h); [|by destruct Hh as (? & ? & ?)]. exfalso. destruct Hh as [Hl _]. rewrite Hl, Z.add_1_r, Z.odd_succ in Eodd. unfold stable in Hs. rewrite <- Hs, Z.even_mul in Eodd. done. }
        assert (u64 (live_config_version s + 1) = ver c + 1) as Eu by (unfold u64; rewrite Z.mod_small; lia). exists c, old. split; [done|].
        apply (sys_ok_writer t s ws rs c old _ _ (WHold (u64 (live_config_version s + 1)))); [done|done| | |by apply front_same_refl|cbn; lia].
        -- rewrite Eu. split; [done|]. by split_and!.
        -- apply sole_insert; [done|intros j q _; apply Hnone].
      * assert (s' = s) as ->. { destruct w; try done; cbn [writer_step] in Ew; [by injection Ew as <- <-|]. destruct (Z.odd v); [by injection Ew as <- <-|]. destruct (_ && _); injection Ew as <- <-; [done|done]. }
        exists c, old. split; [done|]. apply (sys_ok_writer t s ws rs c old s _ h); [done..|by apply (sole_other _ _ _ _ w)|by apply front_same_refl|lia].
  - destruct (ws !! i) as [w|] eqn:Ei; [|done]. rewrite some_bind in Ha. destruct w; try done. injection Ha as <-. exists c, old. split; [done|].
    apply (sys_ok_writer t s ws rs c old _ _ h); [done..|by apply front_same_refl|cbn; lia].
  - injection Ha as <-. exists c, old. split; [done|]. apply (sys_ok_writer t s ws rs c old _ _ h); [done..|by apply front_same_refl|cbn; lia].
  - destruct (rs !! k) as [r|] eqn:Ek; [|done]. rewrite some_bind in Ha. destruct (reader_step k s r) as [[s' r']|] eqn:Er; [|done]. rewrite some_bind in Ha. injection Ha as <-.
    exists c, old. split; [done|]. destruct (reader_step_ok s c old (held_readable _ _ _ _ Hh) Hs ltac:(lia) Ho k r s' r' (Hr k r Ek) Er) as [Hr' Hs'].
    assert (held h s' c old /\ live_config_version s' = live_config_version s /\ forall j, j <> k -> boxes s' !! j = boxes s !! j) as (Hh' & Hv' & Hb').
    { destruct Hs' as [->|(b & Eb & Hd & ->)]; [done|]. split; [by apply take_held|]. split; [done|]. intros j Hne. cbn. by rewrite list_lookup_insert_ne. }
    split; cbn [fst snd]; [done|lia|done|by exists h|]. intros j q Hj. apply lookup_insert_cases in Hj as [[-> ->]|[Hne Hj]]; [done|]. apply (reader_ok_other s); [by apply Hr|done|by apply Hb'].
Qed.

Lemma run_ok as' t x c old y : sys_ok t x c old -> t + Z.of_nat (length as') + 2 < 2 ^ 63 -> run_actions x as' = Some y ->
  exists c' old', rtc spec_step (c :: old) (c' :: old') /\ sys_ok (t + Z.of_nat (length as')) y c' old'.
Proof.
  revert t x c old. induction as' as [|a as' IH]; intros t x c old Hok Ht Hy; cbn [run_actions] in Hy; [injection Hy as <-; exists c, old; split; [done|]; cbn; by rewrite Z.add_0_r|].
  destruct (act x a) as [z|] eqn:E; [|done]. rewrite some_bind in Hy. cbn [length] in *. destruct (act_ok t x c old a z Hok ltac:(lia) E) as (c1 & old1 & H1 & Hok1).
  destruct (IH (t + 1) z c1 old1 Hok1 ltac:(lia) Hy) as (c2 & old2 & H2 & Hok2). exists c2, old2. split; [by etrans|]. by replace (t + Z.of_nat (S (length as'))) with (t + 1 + Z.of_nat (length as')) by lia.
Qed.
Lemma boot_ok f n m : sys_ok 0 (boot f n m) (capture_live_config f 2) [].
Proof.
  split; cbn [fst snd boot live_config_version]; [done|cbn; lia|by intros v ?%elem_of_nil| |].
  - exists WOut. split; [|by apply sole_replicate]. split_and!; [done|done|]. intros k b Hb. apply lookup_replicate in Hb as [-> _]. apply box_init_ok.
  - intros k r Hk. by apply lookup_replicate in Hk as [-> _].
Qed.

(** C20: Live configuration is published coherently.  In every interleaving of CONFIG writers and of
    one reader per mailbox, at most one writer is between begin and end, and what a read returns is
    one committed capture, never a mix and never one a stopped writer has not committed: at least as
    new as the configuration committed when the read began, at most as new as the version it
    observed, and its slot stays untouched until that reader reads again.  The bound keeps the
    version word from wrapping; accesses are interleaved one at a time. *)
Theorem live_config_coherent f n m as' s ws rs :
  Z.of_nat (length as') < 2 ^ 62 -> run_actions (boot f n m) as' = Some (s, ws, rs) ->
  exists c old, rtc spec_step [capture_live_config f 2] (c :: old) /\ stable (live_config_version s) = version (live c) /\
    (forall i j w w', ws !! i = Some w -> ws !! j = Some w' -> writer_holds w = true -> writer_holds w' = true -> i = j) /\
    forall k since obs v, rs !! k = Some (RHas since obs v) ->
      v ∈ c :: old /\ stable since <= version (live v) <= obs /\
      exists b p, boxes s !! k = Some b /\ slots b !! Z.to_nat (front b) = Some p /\ (v = next p \/ v = previous p).
Proof.
  intros Hlen Hrun. destruct (run_ok as' 0 (boot f n m) _ _ _ (boot_ok f n m) ltac:(lia) Hrun) as (c & old & Hspec & [Hs [Hc Hv] Ho (h & Hh & Hu) Hr]). cbn [fst snd] in *. exists c, old.
  split; [done|]. split; [by apply (stable_version s c old (held_readable _ _ _ _ Hh))|]. split.
  - intros i j w w' Ei Ej Hw Hw'. destruct (decide (j = i)) as [|Hne]; [done|]. destruct (sole_at _ _ _ _ _ Hu Ei Hw) as [_ Hoth]. by rewrite (Hoth j w' Hne Ej) in Hw'.
  - intros k since obs v Hk. destruct (Hr k _ Hk) as (_ & H1 & H2 & H3). done.
Qed.
(** One writer raises the memory limit and stops before the commit: the reader gets the old configuration. *)
Definition demo_atomics : LiveAtomics := mkAtomics 0 0 5 0 0 10000 0 false 512 0 0 (mkLimit 0 0 0) (mkLimit 0 0 0).
Definition demo_raised : LiveAtomics := mkAtomics 100 0 5 0 0 10000 0 false 512 0 0 (mkLimit 0 0 0) (mkLimit 0 0 0).
Definition demo_actions : list Action :=
  [Begin 0; Write 0 false; Write 0 false; Store 0 demo_raised; Write 0 false; Write 0 false; Write 0 false; Begin 1; Write 1 false; Write 1 false; Read 0; Read 0; Read 0].
Definition demo_final : System := default (boot demo_atomics 0 0) (run_actions (boot demo_atomics 2 1) demo_actions).
Lemma live_config_coherent_witness :
  (demo_final.2 = [RHas 3 3 (capture_live_config demo_atomics 2)]) /\
  exists c old, rtc spec_step [capture_live_config demo_atomics 2] (c :: old) /\ stable (live_config_version demo_final.1.1) = version (live c) /\
    (forall i j w w', demo_final.1.2 !! i = Some w -> demo_final.1.2 !! j = Some w' -> writer_holds w = true -> writer_holds w' = true -> i = j) /\
    forall k since obs v, demo_final.2 !! k = Some (RHas since obs v) ->
      v ∈ c :: old /\ stable since <= version (live v) <= obs /\
      exists b p, boxes demo_final.1.1 !! k = Some b /\ slots b !! Z.to_nat (front b) = Some p /\ (v = next p \/ v = previous p).
Proof.
  split; [vm_compute; reflexivity|]. apply (live_config_coherent demo_atomics 2 1 demo_actions); [reflexivity|vm_compute; reflexivity].
Defined.

(** * The armed word *)
(** [refresh_climon_armed] loads the four counts and then stores the word, without a lock. *)
Record Climon := mkClimon { monitors : Z; tracking : Z; pause_end_ms : Z; replies : Z; armed : Z }.
Definition refresh_word (c : Climon) : Z :=
  Z.lor (if monitors c =? 0 then 0 else kClimonMonitor) (Z.lor (if tracking c =? 0 then 0 else kClimonTracking)
    (Z.lor (if pause_end_ms c =? 0 then 0 else kClimonPause) (if replies c =? 0 then 0 else kClimonReply))).
Inductive ClimonStep := MonitorAdded | TrackingAdded | LoadCounts (i : nat) | StoreArmed (i : nat).
(** [loaded]: the word each thread has computed and not yet stored. *)
Definition climon_step (x : Climon * list (option Z)) (a : ClimonStep) : option (Climon * list (option Z)) :=
  let '(c, loaded) := x in
  match a with
  | MonitorAdded => Some (mkClimon (u64 (monitors c + 1)) (tracking c) (pause_end_ms c) (replies c) (armed c), loaded)
  | TrackingAdded => Some (mkClimon (monitors c) (u64 (tracking c + 1)) (pause_end_ms c) (replies c) (armed c), loaded)
  | LoadCounts i => Some (c, <[i := Some (refresh_word c)]> loaded)
  | StoreArmed i => w ← loaded !! i; w ← w; Some (mkClimon (monitors c) (tracking c) (pause_end_ms c) (replies c) w, <[i := None]> loaded)
  end.
(** Two concurrent arms: the monitor's thread loads, the tracking client's thread loads and stores,
    the first thread stores its older word.  Every call has returned, a tracking client exists, and
    the tracking bit is clear. *)
Lemma climon_armed_lost_update :
  foldl (fun x a => x ≫= fun x => climon_step x a) (Some (mkClimon 0 0 0 0 0, [None; None]))
    [MonitorAdded; LoadCounts 0; TrackingAdded; LoadCounts 1; StoreArmed 1; StoreArmed 0] =
  Some (mkClimon 1 1 0 0 kClimonMonitor, [None; None]).
Proof. reflexivity. Qed.
