(* ===== verification/Router.v ===== *)
(** core/shard.h: the router, one atomic word per bucket holding the physical shard and the
    executor that owns it, and the transfer of a bucket range between executors.

    The operations are given twice: as the functions a single caller sees, and as a machine whose
    steps are the single atomic accesses of [begin_transfer], [commit_transfer] and
    [finish_transfer], for any number of threads.  The abstract specification is an owner map that
    a transfer changes in one step, labelled with the calls and their answers.  [None] is [abort]
    or an access out of bounds. *)
From stdpp Require Import relations gmap.
From S2P Require Import Prelude.

Definition kNumBuckets : Z := 16384.
Definition kBucketMask : Z := kNumBuckets - 1.
Definition bucket_of (hash : Z) : Z := Z.land (u32 hash) kBucketMask.

Definition kNoOwner : Z := 65535.
Inductive TransferPhase := Idle | Preparing | Committed.
#[export] Instance phase_eq_dec : EqDecision TransferPhase.
Proof. solve_decision. Defined.
Record Router := mkRouter {
  nshards_ : Z; owner_ : list Z; phase_ : TransferPhase;
  transfer_begin_ : Z; transfer_end_ : Z; transfer_source_ : Z; transfer_destination_ : Z; transfer_writer_ : bool }.

Definition pack (shard owner : Z) : Z := Z.lor (u32 (Z.shiftl owner 16)) (u32 shard).
Definition unpack_shard (entry : Z) : Z := Z.land entry 65535.
Definition unpack_owner (entry : Z) : Z := Z.shiftr entry 16.

Definition set_owner (r : Router) (o : list Z) : Router :=
  mkRouter (nshards_ r) o (phase_ r) (transfer_begin_ r) (transfer_end_ r) (transfer_source_ r) (transfer_destination_ r) (transfer_writer_ r).
Definition set_phase (r : Router) (p : TransferPhase) : Router :=
  mkRouter (nshards_ r) (owner_ r) p (transfer_begin_ r) (transfer_end_ r) (transfer_source_ r) (transfer_destination_ r) (transfer_writer_ r).
Definition set_writer (r : Router) (w : bool) : Router :=
  mkRouter (nshards_ r) (owner_ r) (phase_ r) (transfer_begin_ r) (transfer_end_ r) (transfer_source_ r) (transfer_destination_ r) w.
Definition set_transfer (r : Router) (b e s d : Z) : Router :=
  mkRouter (nshards_ r) (owner_ r) (phase_ r) b e s d (transfer_writer_ r).

(** * The operations *)
Definition empty_router : Router := mkRouter 0 (replicate (Z.to_nat kNumBuckets) 0) Idle 0 0 kNoOwner kNoOwner false.
Definition uniform_entry (nshards per : Z) (b : nat) : Z :=
  let s := Z.of_nat b / per in
  pack (if nshards <=? s then nshards - 1 else s) kNoOwner.
Definition build_uniform (nshards : Z) (r : Router) : option Router :=
  let per := kNumBuckets / nshards in
  if per <=? 0 then None
  else
    let r := mkRouter nshards (owner_ r) (phase_ r) (transfer_begin_ r) (transfer_end_ r) (transfer_source_ r) (transfer_destination_ r) (transfer_writer_ r) in
    Some (set_owner r (uniform_entry nshards per <$> seq 0 (Z.to_nat kNumBuckets))).

Definition shard_of (r : Router) (hash : Z) : option Z := unpack_shard <$> owner_ r !! Z.to_nat (bucket_of hash).
Definition shard_of_bucket (r : Router) (bucket : Z) : Z :=
  if bucket <? kNumBuckets then default (-1) (unpack_shard <$> owner_ r !! Z.to_nat bucket) else -1.
Definition owner_of_bucket (r : Router) (bucket : Z) : option Z := unpack_owner <$> owner_ r !! Z.to_nat bucket.
Definition owner_of (r : Router) (hash : Z) : option Z := owner_of_bucket r (bucket_of hash).

(** [k] buckets from [bucket] on get the owner; each keeps its shard. *)
Fixpoint set_owners (k : nat) (bucket : Z) (thread : Z) (o : list Z) : option (list Z) :=
  match k with
  | O => Some o
  | S k =>
      entry ← o !! Z.to_nat bucket;
      set_owners k (bucket + 1) thread (<[Z.to_nat bucket := pack (unpack_shard entry) thread]> o)
  end.
Definition set_initial_owner (begin end' thread_id : Z) (r : Router) : option Router :=
  if (end' <=? begin) || (kNumBuckets <? end') || (kNoOwner <=? thread_id) then None
  else if decide (phase_ r = Idle) then
    o ← set_owners (Z.to_nat (end' - begin)) begin thread_id (owner_ r); Some (set_owner r o)
  else None.

Fixpoint all_owned (k : nat) (bucket source : Z) (o : list Z) : option bool :=
  match k with
  | O => Some true
  | S k =>
      entry ← o !! Z.to_nat bucket;
      if unpack_owner entry =? source then all_owned k (bucket + 1) source o else Some false
  end.
Definition bad_range (begin end' source destination : Z) : bool :=
  (end' <=? begin) || (kNumBuckets <? end') || (source =? destination) || (kNoOwner <=? source) || (kNoOwner <=? destination).
Definition begin_transfer (begin end' source destination : Z) (r : Router) : option (bool * Router) :=
  if bad_range begin end' source destination then Some (false, r)
  else if transfer_writer_ r then Some (false, set_writer r true)
  else
    let r := set_writer r true in
    if decide (phase_ r = Idle) then
      ok ← all_owned (Z.to_nat (end' - begin)) begin source (owner_ r);
      if ok : bool then Some (true, set_phase (set_transfer r begin end' source destination) Preparing)
      else Some (false, set_writer r false)
    else Some (false, set_writer r false).
Definition commit_transfer (r : Router) : option Router :=
  if decide (phase_ r = Preparing) then
    let r := set_phase r Committed in
    o ← set_owners (Z.to_nat (transfer_end_ r - transfer_begin_ r)) (transfer_begin_ r) (transfer_destination_ r) (owner_ r);
    Some (set_owner r o)
  else None.
Definition finish_transfer (r : Router) : option Router :=
  if decide (phase_ r = Committed) then Some (set_writer (set_phase r Idle) false) else None.

(** * The atomic accesses *)
(** Where a thread is inside the three calls; the arguments are its locals. *)
Inductive Pc :=
  | Outside
  | TakeFlag (b e s d : Z)
  | LoadPhase (b e s d : Z)
  | CheckOwner (k b e s d : Z)
  | DropFlag
  | StoreBegin (b e s d : Z)
  | StoreEnd (e s d : Z)
  | StoreSource (s d : Z)
  | StoreDestination (d : Z)
  | StorePreparing
  | Prepared
  | CommitPhase
  | CommitBegin
  | CommitEnd (b : Z)
  | CommitDestination (b e : Z)
  | StoreCommitted (b e d : Z)
  | LoadEntry (k e d : Z)
  | StoreEntry (k e d entry : Z)
  | Moved
  | FinishPhase
  | StoreIdle
  | ClearFlag
  | Aborted.
(** The next access of a thread; [None] while it waits for its caller. *)
Definition micro (r : Router) (p : Pc) : option (Router * Pc) :=
  match p with
  | Outside | Prepared | Moved | Aborted => None
  | TakeFlag b e s d => Some (set_writer r true, if transfer_writer_ r then Outside else LoadPhase b e s d)
  | LoadPhase b e s d => Some (r, if decide (phase_ r = Idle) then CheckOwner b b e s d else DropFlag)
  | CheckOwner k b e s d =>
      Some (r, if k <? e then
                 match owner_ r !! Z.to_nat k with
                 | None => Aborted
                 | Some entry => if unpack_owner entry =? s then CheckOwner (k + 1) b e s d else DropFlag
                 end
               else StoreBegin b e s d)
  | DropFlag => Some (set_writer r false, Outside)
  | StoreBegin b e s d => Some (set_transfer r b (transfer_end_ r) (transfer_source_ r) (transfer_destination_ r), StoreEnd e s d)
  | StoreEnd e s d => Some (set_transfer r (transfer_begin_ r) e (transfer_source_ r) (transfer_destination_ r), StoreSource s d)
  | StoreSource s d => Some (set_transfer r (transfer_begin_ r) (transfer_end_ r) s (transfer_destination_ r), StoreDestination d)
  | StoreDestination d => Some (set_transfer r (transfer_begin_ r) (transfer_end_ r) (transfer_source_ r) d, StorePreparing)
  | StorePreparing => Some (set_phase r Preparing, Prepared)
  | CommitPhase => Some (r, if decide (phase_ r = Preparing) then CommitBegin else Aborted)
  | CommitBegin => Some (r, CommitEnd (transfer_begin_ r))
  | CommitEnd b => Some (r, CommitDestination b (transfer_end_ r))
  | CommitDestination b e => Some (r, StoreCommitted b e (transfer_destination_ r))
  | StoreCommitted b e d => Some (set_phase r Committed, LoadEntry b e d)
  | LoadEntry k e d =>
      Some (r, if k <? e then match owner_ r !! Z.to_nat k with None => Aborted | Some entry => StoreEntry k e d entry end else Moved)
  | StoreEntry k e d entry => Some (set_owner r (<[Z.to_nat k := pack (unpack_shard entry) d]> (owner_ r)), LoadEntry (k + 1) e d)
  | FinishPhase => Some (r, if decide (phase_ r = Committed) then StoreIdle else Aborted)
  | StoreIdle => Some (set_phase r Idle, ClearFlag)
  | ClearFlag => Some (set_writer r false, Outside)
  end.
(** The calls: a transfer is committed and finished by the thread whose begin returned true. *)
Inductive Call := CallBegin (b e s d : Z) | CallCommit | CallFinish.
Definition call (c : Call) (p : Pc) : option Pc :=
  match c, p with
  | CallBegin b e s d, Outside =>
      let '(b, e, s, d) := (u32 b, u32 e, u32 s, u32 d) in
      Some (if bad_range b e s d then Outside else TakeFlag b e s d)
  | CallCommit, Prepared => Some CommitPhase
  | CallFinish, Moved => Some FinishPhase
  | _, _ => None
  end.
Inductive Action := Step (i : nat) | Calls (i : nat) (c : Call).
Definition System : Type := Router * list Pc.
Definition act (x : System) (a : Action) : option System :=
  let '(r, pcs) := x in
  match a with
  | Step i => p ← pcs !! i; '(r', p') ← micro r p; Some (r', <[i := p']> pcs)
  | Calls i c => p ← pcs !! i; p' ← call c p; Some (r, <[i := p']> pcs)
  end.
Fixpoint run_actions (x : System) (as' : list Action) : option System :=
  match as' with [] => Some x | a :: as' => y ← act x a; run_actions y as' end.

(** The calls and returns of a run; the boolean is what [begin_transfer] answers, and [true] when
    one of the other two returns. *)
Inductive Event := Called (i : nat) (c : Call) | Returned (i : nat) (ok : bool).
Definition returns (i : nat) (p p' : Pc) : list Event :=
  match p' with
  | Prepared | Moved => [Returned i true]
  | Outside => [Returned i (match p with ClearFlag => true | _ => false end)]
  | _ => []
  end.
Definition events (a : Action) (p p' : Pc) : list Event :=
  match a with
  | Step i => returns i p p'
  | Calls i c => Called i c :: match p' with Outside => [Returned i false] | _ => [] end
  end.
Definition actor (a : Action) : nat := match a with Step i | Calls i _ => i end.
Fixpoint trace (x : System) (as' : list Action) : list Event :=
  match as' with
  | [] => []
  | a :: as' =>
      match act x a with
      | Some y => match x.2 !! actor a, y.2 !! actor a with Some p, Some p' => events a p p' | _, _ => [] end ++ trace y as'
      | None => []
      end
  end.

(** * The specification *)
(** The owner of every bucket; the transfer under way: who began it, its range, source and
    destination, and whether the ownership has moved; and the call each thread is inside. *)
Record Transfer := mkTransfer { t_begin : Z; t_end : Z; t_source : Z; t_destination : Z; t_moved : bool }.
Record Owners := mkOwners { current : list Z; pending : option (nat * Transfer); doing : gmap nat Call }.
Definition in_range (b e : Z) (i : nat) : Prop := b <= Z.of_nat i < e.
#[export] Instance in_range_dec b e i : Decision (in_range b e i).
Proof. unfold in_range. apply _. Defined.
Definition set_range (b e d : Z) (l : list Z) : list Z := imap (fun i x => if decide (in_range b e i) then d else x) l.
Arguments set_range : simpl never.
(** The owners of [b, e) are all [s]. *)
Definition all_at (b e s : Z) (l : list Z) : Prop := forall i x, l !! i = Some x -> in_range b e i -> x = s.
(** A call with its arguments at their width. *)
Definition narrow (c : Call) : Call := match c with CallBegin b e s d => CallBegin (u32 b) (u32 e) (u32 s) (u32 d) | c => c end.
Definition may_call (i : nat) (c : Call) (a : Owners) : Prop :=
  doing a !! i = None /\
  match c with
  | CallBegin _ _ _ _ => forall t, pending a <> Some (i, t)
  | CallCommit => exists t, pending a = Some (i, t) /\ t_moved t = false
  | CallFinish => exists t, pending a = Some (i, t) /\ t_moved t = true
  end.
(** Another thread is inside a call or has a transfer under way. *)
Definition others_busy (i : nat) (a : Owners) : Prop := exists j, j <> i /\ (is_Some (doing a !! j) \/ exists t, pending a = Some (j, t)).
(** A step is a call, a return, or, without a label, the moment a call takes effect.  The transfer
    that takes effect is the one the thread's call asked for; a begin is answered true once it took
    effect, and false only for a bad range, for another thread's activity, or for a bucket of the
    range that is not the source's. *)
Inductive spec_step : option Event -> Owners -> Owners -> Prop :=
  | spec_call i c a : may_call i c a -> spec_step (Some (Called i c)) a (mkOwners (current a) (pending a) (<[i := narrow c]> (doing a)))
  | spec_begin i l m b e s d : m !! i = Some (CallBegin b e s d) -> bad_range b e s d = false -> all_at b e s l ->
      spec_step None (mkOwners l None m) (mkOwners l (Some (i, mkTransfer b e s d false)) m)
  | spec_commit i l m b e s d : m !! i = Some CallCommit ->
      spec_step None (mkOwners l (Some (i, mkTransfer b e s d false)) m) (mkOwners (set_range b e d l) (Some (i, mkTransfer b e s d true)) m)
  | spec_finish i l m t : m !! i = Some CallFinish -> t_moved t = true -> spec_step None (mkOwners l (Some (i, t)) m) (mkOwners l None m)
  | spec_began i l m b e s d : m !! i = Some (CallBegin b e s d) ->
      spec_step (Some (Returned i true)) (mkOwners l (Some (i, mkTransfer b e s d false)) m) (mkOwners l (Some (i, mkTransfer b e s d false)) (delete i m))
  | spec_refused i a b e s d : doing a !! i = Some (CallBegin b e s d) -> (forall t, pending a <> Some (i, t)) ->
      bad_range b e s d = true \/ others_busy i a \/ ~ all_at b e s (current a) ->
      spec_step (Some (Returned i false)) a (mkOwners (current a) (pending a) (delete i (doing a)))
  | spec_committed i l m t : m !! i = Some CallCommit -> t_moved t = true ->
      spec_step (Some (Returned i true)) (mkOwners l (Some (i, t)) m) (mkOwners l (Some (i, t)) (delete i m))
  | spec_finished i a : doing a !! i = Some CallFinish -> (forall t, pending a <> Some (i, t)) ->
      spec_step (Some (Returned i true)) a (mkOwners (current a) (pending a) (delete i (doing a))).
Inductive spec_trace : Owners -> list Event -> Owners -> Prop :=
  | spec_nil a : spec_trace a [] a
  | spec_silent a b c es : spec_step None a b -> spec_trace b es c -> spec_trace a es c
  | spec_event a b c ev es : spec_step (Some ev) a b -> spec_trace b es c -> spec_trace a (ev :: es) c.
Lemma spec_trace_app a es b es' c : spec_trace a es b -> spec_trace b es' c -> spec_trace a (es ++ es') c.
Proof. induction 1; intros; cbn; eauto using spec_trace. Qed.
(** What a reader of bucket [i] may see: the current owner, or the source of a transfer that has just moved it. *)
Definition may_see (a : Owners) (i : nat) (o : Z) : Prop :=
  current a !! i = Some o \/
  exists j t, pending a = Some (j, t) /\ t_moved t = true /\ in_range (t_begin t) (t_end t) i /\ o = t_source t /\ current a !! i = Some (t_destination t).

(** * Words *)
Lemma unpack_pack s o : 0 <= s < 65536 -> 0 <= o < 65536 -> unpack_shard (pack s o) = s /\ unpack_owner (pack s o) = o /\ 0 <= pack s o < 2 ^ 32.
Proof.
  intros Hs Ho. unfold pack, unpack_shard, unpack_owner, u32. rewrite (Z.mod_small s) by lia.
  rewrite Z.mod_small by (rewrite Z.shiftl_mul_pow2; lia). rewrite Z.lor_comm, lor_shiftl_add by lia.
  change 65535 with (2 ^ 16 - 1). rewrite land_ones_mod, Z.shiftr_div_pow2 by lia. rewrite (Z.mul_comm (2 ^ 16)). split; [|split; [|lia]].
  - rewrite Z.mod_add by lia. apply Z.mod_small. lia.
  - rewrite Z.div_add, Z.div_small by lia. lia.
Qed.
Definition entry_ok (x : Z) : Prop := 0 <= x < 2 ^ 32.
Lemma unpack_range x : entry_ok x -> 0 <= unpack_shard x < 65536 /\ 0 <= unpack_owner x < 65536.
Proof.
  intros Hx. unfold entry_ok, unpack_shard, unpack_owner in *. change 65535 with (2 ^ 16 - 1). rewrite land_ones_mod, Z.shiftr_div_pow2 by lia.
  pose proof (Z.mod_pos_bound x (2 ^ 16) ltac:(lia)). pose proof (Z.div_mod x (2 ^ 16) ltac:(lia)). lia.
Qed.
Lemma lookup_set_range b e d l i : set_range b e d l !! i = (fun x => if decide (in_range b e i) then d else x) <$> l !! i.
Proof. unfold set_range. by rewrite list_lookup_imap. Qed.
Lemma set_range_length b e d l : length (set_range b e d l) = length l.
Proof. apply length_imap. Qed.
Lemma set_range_empty b e d l : e <= b -> set_range b e d l = l.
Proof. intros H. apply list_eq. intros i. rewrite lookup_set_range. destruct (l !! i); cbn; [|done]. rewrite decide_False; [done|]. unfold in_range. lia. Qed.
Lemma set_range_same b e d l : (forall i x, l !! i = Some x -> in_range b e i -> x = d) -> set_range b e d l = l.
Proof. intros H. apply list_eq. intros i. rewrite lookup_set_range. destruct (l !! i) as [x|] eqn:E; cbn; [|done]. destruct (decide _); [|done]. f_equal. symmetry. eauto. Qed.
Lemma set_range_twice b e s d l : set_range b e s (set_range b e d l) = set_range b e s l.
Proof. apply list_eq. intros i. rewrite !lookup_set_range. destruct (l !! i); cbn; [|done]. by destruct (decide _). Qed.
Lemma set_range_step k e s d l : 0 <= k < e -> (Z.to_nat k < length l)%nat -> l !! Z.to_nat k = Some d -> <[Z.to_nat k := d]> (set_range k e s l) = set_range (k + 1) e s l.
Proof.
  intros Hk Hl E. apply list_eq. intros i. destruct (decide (i = Z.to_nat k)) as [->|Hne].
  - rewrite list_lookup_insert_eq by (by rewrite set_range_length). rewrite lookup_set_range, E. cbn. rewrite decide_False; [done|]. unfold in_range. lia.
  - rewrite list_lookup_insert_ne, !lookup_set_range by done. destruct (l !! i); cbn; [|done]. f_equal. unfold in_range. destruct (decide _), (decide _); (done || lia).
Qed.
Lemma set_range_grow b k d l : 0 <= b <= k -> <[Z.to_nat k := d]> (set_range b k d l) = set_range b (k + 1) d l.
Proof.
  intros Hk. apply list_eq. intros i. destruct (decide (i = Z.to_nat k)) as [->|Hne].
  - destruct (decide (Z.to_nat k < length l)%nat) as [Hl|Hl].
    + rewrite list_lookup_insert_eq by (by rewrite set_range_length). destruct (lookup_lt_is_Some_2 l (Z.to_nat k) Hl) as [x E]. rewrite lookup_set_range, E. cbn. rewrite decide_True; [done|]. unfold in_range. lia.
    + rewrite !lookup_ge_None_2; [done|rewrite set_range_length; lia|rewrite length_insert, set_range_length; lia].
  - rewrite list_lookup_insert_ne, !lookup_set_range by done. destruct (l !! i); cbn; [|done]. f_equal. unfold in_range. destruct (decide _), (decide _); (done || lia).
Qed.

(** * The machine implements the specification *)
Record base (sh : list Z) (r : Router) : Prop := {
  ba_length : length (owner_ r) = Z.to_nat kNumBuckets;
  ba_entries : Forall entry_ok (owner_ r);
  ba_shards : unpack_shard <$> owner_ r = sh }.
Abbreviation owners r := (unpack_owner <$> owner_ r).
Definition range_ok (b e s d : Z) : Prop := 0 <= b < e /\ e <= kNumBuckets /\ 0 <= s < kNoOwner /\ 0 <= d < kNoOwner.
Definition fields (r : Router) (b e s d : Z) : Prop := transfer_begin_ r = b /\ transfer_end_ r = e /\ transfer_source_ r = s /\ transfer_destination_ r = d.
(** No transfer is visible. *)
Definition quiet (r : Router) (a : Owners) : Prop := phase_ r = Idle /\ pending a = None /\ owners r = current a.
Definition checked (i : nat) (b e s d : Z) (r : Router) (a : Owners) : Prop :=
  quiet r a /\ range_ok b e s d /\ bad_range b e s d = false /\ all_at b e s (current a) /\ doing a !! i = Some (CallBegin b e s d).
Definition preparing (i : nat) (b e s d : Z) (r : Router) (a : Owners) : Prop :=
  phase_ r = Preparing /\ pending a = Some (i, mkTransfer b e s d false) /\ owners r = current a /\ fields r b e s d /\ range_ok b e s d /\ all_at b e s (current a).
(** From [k] on the entries of the range still name the source. *)
Definition committing (i : nat) (k b e s d : Z) (r : Router) (a : Owners) : Prop :=
  phase_ r = Committed /\ pending a = Some (i, mkTransfer b e s d true) /\ owners r = set_range k e s (current a) /\ range_ok b e s d /\ b <= k <= e /\ all_at b e d (current a).
Definition holds (p : Pc) : bool := match p with Outside | TakeFlag _ _ _ _ | Aborted => false | _ => true end.
Definition holder_inv (i : nat) (p : Pc) (r : Router) (a : Owners) : Prop :=
  match p with
  | Outside | TakeFlag _ _ _ _ | Aborted => False
  | LoadPhase b e s d => quiet r a /\ range_ok b e s d /\ bad_range b e s d = false /\ doing a !! i = Some (CallBegin b e s d)
  | CheckOwner k b e s d => quiet r a /\ range_ok b e s d /\ bad_range b e s d = false /\ doing a !! i = Some (CallBegin b e s d) /\ b <= k <= e /\ all_at b k s (current a)
  | DropFlag => quiet r a /\ exists b e s d, doing a !! i = Some (CallBegin b e s d) /\ ~ all_at b e s (current a)
  | ClearFlag => quiet r a /\ doing a !! i = Some CallFinish
  | StoreBegin b e s d => checked i b e s d r a
  | StoreEnd e s d => checked i (transfer_begin_ r) e s d r a
  | StoreSource s d => checked i (transfer_begin_ r) (transfer_end_ r) s d r a
  | StoreDestination d => checked i (transfer_begin_ r) (transfer_end_ r) (transfer_source_ r) d r a
  | StorePreparing => checked i (transfer_begin_ r) (transfer_end_ r) (transfer_source_ r) (transfer_destination_ r) r a
  | Prepared => doing a !! i = None /\ exists b e s d, preparing i b e s d r a
  | CommitPhase | CommitBegin => doing a !! i = Some CallCommit /\ exists b e s d, preparing i b e s d r a
  | CommitEnd b => doing a !! i = Some CallCommit /\ exists e s d, preparing i b e s d r a
  | CommitDestination b e => doing a !! i = Some CallCommit /\ exists s d, preparing i b e s d r a
  | StoreCommitted b e d => doing a !! i = Some CallCommit /\ exists s, preparing i b e s d r a
  | LoadEntry k e d => doing a !! i = Some CallCommit /\ exists b s, committing i k b e s d r a
  | StoreEntry k e d entry => doing a !! i = Some CallCommit /\ exists b s, committing i k b e s d r a /\ k < e /\ owner_ r !! Z.to_nat k = Some entry
  | Moved => doing a !! i = None /\ exists b e s d, committing i e b e s d r a
  | FinishPhase | StoreIdle => doing a !! i = Some CallFinish /\ exists b e s d, committing i e b e s d r a
  end.
Definition thread_ok (a : Owners) (i : nat) (p : Pc) : Prop :=
  match p with
  | Outside => doing a !! i = None
  | TakeFlag b e s d => range_ok b e s d /\ bad_range b e s d = false /\ doing a !! i = Some (CallBegin b e s d)
  | Aborted => False
  | _ => True
  end.
(** The flag, and the state as thread [i] at [p] sees it when it holds the flag, or anyone when it does not. *)
Definition held (i : nat) (p : Pc) (r : Router) (a : Owners) : Prop :=
  if holds p then transfer_writer_ r = true /\ holder_inv i p r a else transfer_writer_ r = false /\ quiet r a.

Lemma store_entry_base sh r k entry d : base sh r -> 0 <= d < kNoOwner -> owner_ r !! k = Some entry ->
  base sh (set_owner r (<[k := pack (unpack_shard entry) d]> (owner_ r))) /\
  unpack_owner <$> <[k := pack (unpack_shard entry) d]> (owner_ r) = <[k := d]> (owners r).
Proof.
  intros [Hl He Hs] Hd E. pose proof (Forall_lookup_1 _ _ _ _ He E) as Hx. destruct (unpack_range entry Hx) as [Hsh _]. unfold kNoOwner in Hd.
  destruct (unpack_pack (unpack_shard entry) d) as (E1 & E2 & E3); [lia..|]. split; [split; cbn [owner_ set_owner]|].
  - by rewrite length_insert.
  - by apply Forall_insert.
  - rewrite list_fmap_insert, E1, <- Hs. apply list_insert_id. by rewrite list_lookup_fmap, E.
  - by rewrite list_fmap_insert, E2.
Qed.
Lemma owners_lookup r a k entry : owners r = current a -> owner_ r !! k = Some entry -> current a !! k = Some (unpack_owner entry).
Proof. intros <- E. by rewrite list_lookup_fmap, E. Qed.
(** The specification changes only what its actor [i] is doing. *)
Definition same_others (i : nat) (a a' : Owners) : Prop := forall j, j <> i -> doing a' !! j = doing a !! j.
Lemma same_delete i a : same_others i a (mkOwners (current a) (pending a) (delete i (doing a))).
Proof. intros j Hne. cbn. by rewrite lookup_delete_ne. Qed.
(** What one access of the thread [i] that holds the flag achieves. *)
Definition holder_goal (i : nat) (p : Pc) (r' : Router) (p' : Pc) (a : Owners) : Prop :=
  exists a', spec_trace a (returns i p p') a' /\ same_others i a a' /\ thread_ok a' i p' /\ held i p' r' a'.
Section Holder.
Context (sh : list Z) (i : nat) (r : Router) (a : Owners) (Hb : base sh r) (Hw : transfer_writer_ r = true).
Lemma entry_at (k : Z) : 0 <= k < kNumBuckets -> exists entry, owner_ r !! Z.to_nat k = Some entry.
Proof using Hb. intros Hk. apply lookup_lt_is_Some_2. rewrite (ba_length _ _ Hb). lia. Qed.
Lemma base_same r2 : owner_ r2 = owner_ r -> base sh r2.
Proof using Hb. intros E. destruct Hb. split; by rewrite E. Qed.
Lemma quiet_not_pending t : quiet r a -> pending a <> Some (i, t).
Proof. intros (_ & -> & _). done. Qed.
(** A thread that keeps the flag and answers nothing. *)
Lemma holder_stays p r' p' : holds p' = true -> returns i p p' = [] -> p' <> Aborted -> transfer_writer_ r' = true -> holder_inv i p' r' a -> holder_goal i p r' p' a.
Proof.
  intros Hh Hn Ha Hw' Hi. exists a. rewrite Hn. split; [apply spec_nil|]. split; [done|]. split; [by destruct p'|]. unfold held. by rewrite Hh.
Qed.
Lemma check_step k b e s d r' p' : holder_inv i (CheckOwner k b e s d) r a -> micro r (CheckOwner k b e s d) = Some (r', p') -> base sh r' /\ holder_goal i (CheckOwner k b e s d) r' p' a.
Proof using Hb Hw.
  intros (Hq & Hr & Hbad & Hd & Hk & Hat) Hm. cbn [micro] in Hm. destruct (Z.ltb_spec k e) as [Hlt|Hge].
  - destruct (entry_at k) as (entry & E); [unfold range_ok in Hr; lia|]. rewrite E in Hm. pose proof (owners_lookup r a _ _ (proj2 (proj2 Hq)) E) as Ec. destruct (Z.eqb_spec (unpack_owner entry) s) as [Es|Hne]; injection Hm as <- <-; (split; [done|]); apply holder_stays; try done.
    + cbn. unfold range_ok in *. split_and!; try done; try lia. intros j x Ex Hx. destruct (decide (j = Z.to_nat k)) as [->|]; [congruence|apply (Hat j x Ex)]. unfold in_range in *. lia.
    + cbn. split; [done|]. exists b, e, s, d. split; [done|]. intros H. apply Hne, (H _ _ Ec). unfold in_range, range_ok in *. lia.
  - injection Hm as <- <-. split; [done|]. apply holder_stays; try done. cbn. replace e with k in * by lia. by split_and!.
Qed.
Lemma begin_steps p r' p' : holder_inv i p r a -> micro r p = Some (r', p') ->
  match p with LoadPhase _ _ _ _ | DropFlag | StoreBegin _ _ _ _ | StoreEnd _ _ _ | StoreSource _ _ | StoreDestination _ | StorePreparing => base sh r' /\ holder_goal i p r' p' a | _ => True end.
Proof using Hb Hw.
  intros Hi Hm. destruct p; try done; cbn [holder_inv micro] in Hi, Hm.
  - (* LoadPhase *) destruct Hi as (Hq & Hr & Hbad & Hd). pose proof Hq as (Hp & _). rewrite decide_True in Hm by done. injection Hm as <- <-. split; [done|]. apply holder_stays; try done.
    cbn. unfold range_ok in *. split_and!; try done; try lia. intros j x _ Hx. unfold in_range in Hx. lia.
  - (* DropFlag *) injection Hm as <- <-. split; [by apply base_same|]. destruct Hi as (Hq & b & e & s & d & Hd & Hno). eexists. split; [eapply spec_event; [|apply spec_nil]; eapply spec_refused; [exact Hd|intros t; by apply quiet_not_pending|by right; right]|].
    split; [apply same_delete|]. split; [cbn; apply lookup_delete_eq|]. by split.
  - injection Hm as <- <-. split; [by apply base_same|]. by apply holder_stays.
  - injection Hm as <- <-. split; [by apply base_same|]. by apply holder_stays.
  - injection Hm as <- <-. split; [by apply base_same|]. by apply holder_stays.
  - injection Hm as <- <-. split; [by apply base_same|]. by apply holder_stays.
  - (* StorePreparing *) injection Hm as <- <-. split; [by apply base_same|]. destruct Hi as ((Hp & Hpe & Ho) & Hr & Hbad & Hat & Hd). destruct a as [l pd m]. cbn in *. subst pd.
    eexists. split; [eapply spec_silent; [eapply spec_begin; [exact Hd|exact Hbad|exact Hat]|]; eapply spec_event; [|apply spec_nil]; apply spec_began; exact Hd|].
    split; [intros j Hne; cbn; by rewrite lookup_delete_ne|]. split; [done|]. split; [done|]. cbn. split; [apply lookup_delete_eq|]. eexists _, _, _, _. by split_and!.
Qed.
Lemma commit_steps p r' p' : holder_inv i p r a -> micro r p = Some (r', p') ->
  match p with CommitPhase | CommitBegin | CommitEnd _ | CommitDestination _ _ | StoreCommitted _ _ _ => base sh r' /\ holder_goal i p r' p' a | _ => True end.
Proof using Hb Hw.
  intros Hi Hm. destruct p; try done; cbn [holder_inv micro] in Hi, Hm; destruct Hi as [Hdo Hi].
  - (* CommitPhase *) destruct Hi as (b & e & s & d & Hpr). rewrite decide_True in Hm by apply Hpr. injection Hm as <- <-. split; [done|]. apply holder_stays; try done. split; [done|]. by exists b, e, s, d.
  - (* CommitBegin *) destruct Hi as (b & e & s & d & Hpr). injection Hm as <- <-. split; [done|]. apply holder_stays; try done. split; [done|]. exists e, s, d. pose proof Hpr as (_ & _ & _ & (-> & _) & _). done.
  - (* CommitEnd *) destruct Hi as (e & s & d & Hpr). injection Hm as <- <-. split; [done|]. apply holder_stays; try done. split; [done|]. exists s, d. pose proof Hpr as (_ & _ & _ & (_ & -> & _) & _). done.
  - (* CommitDestination *) destruct Hi as (s & d & Hpr). injection Hm as <- <-. split; [done|]. apply holder_stays; try done. split; [done|]. exists s. pose proof Hpr as (_ & _ & _ & (_ & _ & _ & ->) & _). done.
  - (* StoreCommitted *) destruct Hi as (s & Hp & Hpe & Ho & Hf & Hr & Hat). injection Hm as <- <-. split; [by apply base_same|]. destruct a as [l pd m]. cbn in *. subst pd.
    eexists. split; [eapply spec_silent; [by apply spec_commit|apply spec_nil]|]. split; [done|]. split; [done|]. split; [done|]. cbn. split; [done|]. exists b, s. unfold committing, range_ok in *. cbn. split_and!; try done; try lia.
    + rewrite set_range_twice, set_range_same; done.
    + intros j x E Hx. rewrite lookup_set_range in E. destruct (l !! j); [|done]. cbn in E. rewrite decide_True in E by done. congruence.
Qed.
Lemma publish_steps p r' p' : holder_inv i p r a -> micro r p = Some (r', p') ->
  match p with LoadEntry _ _ _ | StoreEntry _ _ _ _ => base sh r' /\ holder_goal i p r' p' a | _ => True end.
Proof using Hb Hw.
  intros Hi Hm. destruct p; try done; cbn [holder_inv micro] in Hi, Hm; destruct Hi as (Hdo & b & s & Hi).
  - (* LoadEntry *) pose proof Hi as (Hp & Hpe & Ho & Hr & Hk & Hat). destruct (Z.ltb_spec k e) as [Hlt|Hge].
    + destruct (entry_at k) as (entry & E); [unfold range_ok in Hr; lia|]. rewrite E in Hm. injection Hm as <- <-. split; [done|]. apply holder_stays; try done. split; [done|]. by exists b, s.
    + injection Hm as <- <-. split; [done|]. assert (k = e) as -> by lia. destruct a as [l pd m]. cbn in Hpe, Hdo. subst pd. eexists. split; [eapply spec_event; [|apply spec_nil]; by apply spec_committed|].
      split; [intros j Hne; cbn; by rewrite lookup_delete_ne|]. split; [done|]. split; [done|]. cbn. split; [apply lookup_delete_eq|]. by exists b, e, s, d.
  - (* StoreEntry *) destruct Hi as ((Hp & Hpe & Ho & Hr & Hk & Hat) & Hlt & E). injection Hm as <- <-. pose proof Hr as (? & ? & ? & ?).
    destruct (store_entry_base sh r (Z.to_nat k) entry d Hb ltac:(lia) E) as [Hb' Ho']. split; [done|]. apply holder_stays; try done. cbn. split; [done|]. exists b, s. unfold committing. split_and!; try done; try lia.
    cbn. rewrite Ho', Ho. assert (length (current a) = Z.to_nat kNumBuckets) as Hlc by (by rewrite <- (set_range_length k e s), <- Ho, length_fmap, (ba_length _ _ Hb)).
    destruct (lookup_lt_is_Some_2 (current a) (Z.to_nat k) ltac:(lia)) as [x Ex]. apply set_range_step; [lia|lia|]. rewrite Ex. f_equal. apply (Hat _ _ Ex). unfold in_range. lia.
Qed.
Lemma finish_steps p r' p' : holder_inv i p r a -> micro r p = Some (r', p') -> match p with FinishPhase | StoreIdle | ClearFlag => base sh r' /\ holder_goal i p r' p' a | _ => True end.
Proof using Hb Hw.
  intros Hi Hm. destruct p; try done; cbn [holder_inv micro] in Hi, Hm.
  - (* FinishPhase *) destruct Hi as (Hdo & b & e & s & d & Hc). rewrite decide_True in Hm by apply Hc. injection Hm as <- <-. split; [done|]. apply holder_stays; try done. split; [done|]. by exists b, e, s, d.
  - (* StoreIdle *) destruct Hi as (Hdo & b & e & s & d & Hp & Hpe & Ho & _). injection Hm as <- <-. split; [by apply base_same|]. destruct a as [l pd m]. cbn in *. subst pd.
    eexists. split; [eapply spec_silent; [by apply spec_finish|apply spec_nil]|]. split; [done|]. split; [done|]. split; [done|]. cbn. split; [|done]. split_and!; [done|done|]. cbn. by rewrite Ho, set_range_empty.
  - (* ClearFlag *) destruct Hi as [Hq Hdo]. injection Hm as <- <-. split; [by apply base_same|]. eexists. split; [eapply spec_event; [|apply spec_nil]; apply spec_finished; [exact Hdo|intros t; by apply quiet_not_pending]|].
    split; [apply same_delete|]. split; [cbn; apply lookup_delete_eq|]. by split.
Qed.
Lemma holder_step p r' p' : holder_inv i p r a -> micro r p = Some (r', p') -> base sh r' /\ holder_goal i p r' p' a.
Proof using Hb Hw.
  intros Hi Hm. pose proof (begin_steps p r' p' Hi Hm) as H1. pose proof (commit_steps p r' p' Hi Hm) as H2. pose proof (publish_steps p r' p' Hi Hm) as H3. pose proof (finish_steps p r' p' Hi Hm) as H4. destruct p; try done. by apply check_step.
Qed.
(** The holder is inside a call or has a transfer under way. *)
Lemma holder_busy p : holder_inv i p r a -> is_Some (doing a !! i) \/ exists t, pending a = Some (i, t).
Proof.
  destruct p; cbn [holder_inv]; try done; intros Hi; try (left; by eexists; apply Hi); try (left; destruct Hi as (_ & ? & ? & ? & ? & Hd & _); by eexists);
    right; destruct Hi as [_ Hi]; repeat match type of Hi with ex _ => destruct Hi as [? Hi] end; eexists; apply Hi.
Qed.
Lemma holder_pending p j t : holder_inv i p r a -> pending a = Some (j, t) -> j = i.
Proof.
  intros Hi Ht. destruct p; cbn [holder_inv] in Hi; try done; unfold checked, quiet in Hi; try (destruct_and! Hi; congruence);
    destruct Hi as [_ Hi]; repeat match type of Hi with ex _ => destruct Hi as [? Hi] | committing _ _ _ _ _ _ _ _ /\ _ => destruct Hi as [Hi _] end; destruct Hi as (_ & Hpe & _); congruence.
Qed.
End Holder.

(** The whole system: at most one thread, [h], holds the flag. *)
Definition holder (h : option nat) (x : System) (a : Owners) : Prop :=
  (forall j q, x.2 !! j = Some q -> holds q = bool_decide (h = Some j)) /\
  match h with
  | Some i => exists p, x.2 !! i = Some p /\ transfer_writer_ x.1 = true /\ holder_inv i p x.1 a
  | None => transfer_writer_ x.1 = false /\ quiet x.1 a
  end.
Definition sys_inv (sh : list Z) (x : System) (a : Owners) : Prop :=
  base sh x.1 /\ (forall j q, x.2 !! j = Some q -> thread_ok a j q) /\ exists h, holder h x a.
Lemma thread_ok_same a a' j q : doing a' !! j = doing a !! j -> thread_ok a j q -> thread_ok a' j q.
Proof. intros E. unfold thread_ok. by destruct q; rewrite ?E. Qed.
Lemma threads_insert a a' i p' (pcs : list Pc) : (forall j q, pcs !! j = Some q -> thread_ok a j q) -> same_others i a a' -> thread_ok a' i p' -> forall j q, <[i := p']> pcs !! j = Some q -> thread_ok a' j q.
Proof. intros Hall Hs Hp j q E. apply lookup_insert_cases in E as [[-> ->]|[Hne E]]; [done|]. apply (thread_ok_same a); [by apply Hs|by apply Hall]. Qed.
(** The thread that steps is the only one that may hold the flag afterwards. *)
Lemma sys_inv_intro sh r' (pcs : list Pc) a a' i p' : base sh r' -> (i < length pcs)%nat -> (forall j q, pcs !! j = Some q -> thread_ok a j q) -> (forall j q, j <> i -> pcs !! j = Some q -> holds q = false) ->
  same_others i a a' -> thread_ok a' i p' -> held i p' r' a' -> sys_inv sh (r', <[i := p']> pcs) a'.
Proof.
  intros Hb Hi Hall Hoth Hs Hp Hh. split; [done|]. split; [by apply (threads_insert a)|]. unfold held in Hh. destruct (holds p') eqn:Ep.
  - exists (Some i). split; [|exists p'; split; [by apply list_lookup_insert_eq|done]]. intros j q E. apply lookup_insert_cases in E as [[-> ->]|[Hne E]]; [by rewrite bool_decide_eq_true_2|]. rewrite bool_decide_eq_false_2 by congruence. by eapply Hoth.
  - exists None. split; [|done]. intros j q E. rewrite bool_decide_eq_false_2 by done. apply lookup_insert_cases in E as [[-> ->]|[Hne E]]; [done|by eapply Hoth].
Qed.
(** A thread that does not hold the flag moves without taking it. *)
Lemma sys_inv_other sh r (pcs : list Pc) a a' i p q : sys_inv sh (r, pcs) a -> pcs !! i = Some p -> holds p = false -> holds q = false -> thread_ok a' i q ->
  current a' = current a -> pending a' = pending a -> same_others i a a' -> sys_inv sh (r, <[i := q]> pcs) a'.
Proof.
  intros (Hb & Hok & h & Hu & Hh) Ei Hp Hq Hqok Ec Epe Hs. cbn [fst snd] in *. split; [done|]. split; [by apply (threads_insert a)|]. exists h. split.
  - intros j q' E. apply lookup_insert_cases in E as [[-> ->]|[Hne E]]; [rewrite <- (Hu _ _ Ei); by rewrite Hp|by apply Hu].
  - destruct h as [k|]; cbn [fst snd]; [|destruct Hh as [? Hq']; split; [done|]; unfold quiet in *; by rewrite Ec, Epe]. destruct Hh as (p1 & Ek & Hw & Hi).
    assert (k <> i) as Hne by (intros ->; pose proof (Hu _ _ Ei) as Hx; rewrite bool_decide_eq_true_2 in Hx by done; congruence).
    exists p1. split; [by rewrite list_lookup_insert_ne|]. split; [done|]. specialize (Hs k Hne). unfold holder_inv, checked, preparing, committing, quiet in *. destruct p1; rewrite ?Ec, ?Epe, ?Hs; done.
Qed.
Lemma sys_holder sh r (pcs : list Pc) a i p : sys_inv sh (r, pcs) a -> pcs !! i = Some p -> holds p = true -> transfer_writer_ r = true /\ holder_inv i p r a /\ forall j q, j <> i -> pcs !! j = Some q -> holds q = false.
Proof.
  intros (Hb & Hok & h & Hu & Hh) Ei Hp. cbn [fst snd] in *. pose proof (Hu _ _ Ei) as Hx. rewrite Hp in Hx. symmetry in Hx. apply bool_decide_eq_true in Hx as ->. destruct Hh as (p1 & E1 & Hw & Hi). simplify_eq. split; [done|]. split; [done|].
  intros j q Hne E. rewrite (Hu j q E). by apply bool_decide_eq_false_2; intros [= ->].
Qed.
(** A thread asks for the flag. *)
Lemma take_flag_inv sh r (pcs : list Pc) a i b e s d r' p' : sys_inv sh (r, pcs) a -> pcs !! i = Some (TakeFlag b e s d) -> micro r (TakeFlag b e s d) = Some (r', p') ->
  exists a', spec_trace a (returns i (TakeFlag b e s d) p') a' /\ sys_inv sh (r', <[i := p']> pcs) a'.
Proof.
  intros Hs Ei Em. pose proof Hs as (Hb & Hok & h & Hu & Hh). cbn [fst snd micro] in *. destruct (Hok _ _ Ei) as (Hr & Hbad & Hd). pose proof (Hu _ _ Ei) as Hx. symmetry in Hx. apply bool_decide_eq_false in Hx. pose proof (lookup_lt_Some _ _ _ Ei) as Hlt.
  destruct (transfer_writer_ r) eqn:Ew; injection Em as <- <-.
  - destruct h as [k|]; [|by destruct Hh]. destruct Hh as (p1 & E1 & _ & Hi). assert (k <> i) as Hne by congruence. destruct (holder_busy k r a p1 Hi) as [Hbusy|[t Ht]].
    all: eexists; split; [eapply spec_event; [|apply spec_nil]; eapply spec_refused; [exact Hd| |right; left; exists k; split; [done|eauto]]|].
    all: try (replace (set_writer r true) with r by (destruct r; cbn in *; by subst); apply (sys_inv_other _ _ _ a _ _ (TakeFlag b e s d)); try done; [cbn; apply lookup_delete_eq|apply same_delete]).
    + intros t Ht. apply Hne. symmetry. by apply (holder_pending k r a p1 _ t).
    + intros t' Ht'. congruence.
  - destruct h as [k|]; [by destruct Hh as (? & ? & ? & ?)|]. destruct Hh as [_ Hq]. exists a. split; [apply spec_nil|]. apply (sys_inv_intro _ _ _ a); try done; [by destruct Hb|intros j q _ E; by rewrite (Hu _ _ E)].
Qed.
(** A thread calls. *)
Lemma call_inv sh r (pcs : list Pc) a i c p p' : sys_inv sh (r, pcs) a -> pcs !! i = Some p -> call c p = Some p' -> exists a', spec_trace a (events (Calls i c) p p') a' /\ sys_inv sh (r, <[i := p']> pcs) a'.
Proof.
  intros Hs Ei Ec. pose proof Hs as (Hb & Hok & h & Hu & Hh). cbn [fst snd] in *. pose proof (lookup_lt_Some _ _ _ Ei) as Hlt. destruct c as [b e s d| |], p; try done; cbn [call] in Ec.
  - pose proof (Hok _ _ Ei) as Hd. cbn in Hd. assert (forall t, pending a <> Some (i, t)) as Hnp.
    { intros t Ht. destruct h as [k|]; [|destruct Hh as [_ (_ & Hpe & _)]; congruence]. destruct Hh as (p1 & E1 & _ & Hi). assert (k <> i) as Hne by (intros ->; rewrite Ei in E1; injection E1 as <-; done). apply Hne. symmetry. by apply (holder_pending k r a p1 _ t). }
    assert (spec_step (Some (Called i (CallBegin b e s d))) a (mkOwners (current a) (pending a) (<[i := CallBegin (u32 b) (u32 e) (u32 s) (u32 d)]> (doing a)))) as Hcall by (apply spec_call; by split).
    destruct (bad_range (u32 b) (u32 e) (u32 s) (u32 d)) eqn:Eb; injection Ec as <-.
    + eexists. split; [eapply spec_event; [exact Hcall|]; eapply spec_event; [|apply spec_nil]; eapply spec_refused; [cbn; apply lookup_insert_eq|done|by left]|].
      apply (sys_inv_other _ _ _ a _ _ Outside); try done; [cbn; apply lookup_delete_eq|]. intros j Hne. cbn. by rewrite lookup_delete_ne, lookup_insert_ne.
    + eexists. split; [eapply spec_event; [exact Hcall|apply spec_nil]|]. apply (sys_inv_other _ _ _ a _ _ Outside); try done; [|intros j Hne; cbn; by rewrite lookup_insert_ne]. cbn. rewrite lookup_insert_eq. split; [|done].
      unfold bad_range in Eb. rewrite !orb_false_iff in Eb. pose proof (u32_range b). pose proof (u32_range e). pose proof (u32_range s). pose proof (u32_range d). unfold range_ok. zcmp. lia.
  - injection Ec as <-. destruct (sys_holder sh r pcs a i _ Hs Ei eq_refl) as (Hw & (Hd & b & e & s & d & Hpr) & Hoth). eexists. split; [eapply spec_event; [apply spec_call|apply spec_nil]|].
    + split; [done|]. eexists. split; [apply Hpr|done].
    + apply (sys_inv_intro _ _ _ a); try done; [intros j Hne; cbn; by rewrite lookup_insert_ne|]. split; [done|]. split; [cbn; apply lookup_insert_eq|]. by exists b, e, s, d.
  - injection Ec as <-. destruct (sys_holder sh r pcs a i _ Hs Ei eq_refl) as (Hw & (Hd & b & e & s & d & Hpr) & Hoth). eexists. split; [eapply spec_event; [apply spec_call|apply spec_nil]|].
    + split; [done|]. eexists. split; [apply Hpr|done].
    + apply (sys_inv_intro _ _ _ a); try done; [intros j Hne; cbn; by rewrite lookup_insert_ne|]. split; [done|]. split; [cbn; apply lookup_insert_eq|]. by exists b, e, s, d.
Qed.
Lemma step_inv sh r (pcs : list Pc) a i p r' p' : sys_inv sh (r, pcs) a -> pcs !! i = Some p -> micro r p = Some (r', p') -> exists a', spec_trace a (returns i p p') a' /\ sys_inv sh (r', <[i := p']> pcs) a'.
Proof.
  intros Hs Ei Em. destruct (holds p) eqn:Ep.
  - destruct (sys_holder sh r pcs a i p Hs Ei Ep) as (Hw & Hi & Hoth). destruct Hs as (Hb & Hok & _). destruct (holder_step sh i r a Hb Hw p r' p' Hi Em) as (Hb' & a' & Ha & Hsame & Hok' & Hh). exists a'. split; [done|].
    apply (sys_inv_intro _ _ _ a); try done. by eapply lookup_lt_Some.
  - destruct p; try done. by eapply take_flag_inv.
Qed.
Lemma act_inv sh x a ac y : sys_inv sh x a -> act x ac = Some y ->
  exists a', spec_trace a (match x.2 !! actor ac, y.2 !! actor ac with Some p, Some p' => events ac p p' | _, _ => [] end) a' /\ sys_inv sh y a'.
Proof.
  destruct x as [r pcs]. intros Hs Hy. destruct ac as [i|i c]; cbn [act actor snd] in *; (destruct (pcs !! i) as [p|] eqn:Ei; [|done]); rewrite some_bind in Hy.
  - destruct (micro r p) as [[r' p']|] eqn:Em; [|done]. rewrite some_bind in Hy. injection Hy as <-. cbn [snd]. rewrite list_lookup_insert_eq by (by eapply lookup_lt_Some). by apply (step_inv sh r pcs a i p).
  - destruct (call c p) as [p'|] eqn:Ec; [|done]. rewrite some_bind in Hy. injection Hy as <-. cbn [snd]. rewrite list_lookup_insert_eq by (by eapply lookup_lt_Some). by apply (call_inv sh r pcs a i c p).
Qed.
Lemma run_inv sh as' x a y : sys_inv sh x a -> run_actions x as' = Some y -> exists a', spec_trace a (trace x as') a' /\ sys_inv sh y a'.
Proof.
  revert x a. induction as' as [|c as' IH]; intros x a Hs Hy; cbn [run_actions trace] in *; [injection Hy as <-; exists a; split; [apply spec_nil|done]|]. destruct (act x c) as [z|] eqn:E; [|done]. rewrite some_bind in Hy.
  destruct (act_inv _ _ _ _ _ Hs E) as (a1 & H1 & Hz). destruct (IH z a1 Hz Hy) as (a2 & H2 & Hy'). exists a2. split; [by eapply spec_trace_app|done].
Qed.

(** The three views of the router. *)
Lemma sys_view sh x a : sys_inv sh x a -> quiet x.1 a \/ (exists i b e s d, preparing i b e s d x.1 a) \/ exists i k b e s d, committing i k b e s d x.1 a.
Proof.
  intros (_ & _ & [i|] & _ & Hh); [|by left; apply Hh]. destruct Hh as (p & _ & _ & Hi).
  destruct p; cbn in Hi; try done; try (by left; apply Hi); destruct Hi as [_ Hi];
    repeat match type of Hi with ex _ => destruct Hi as [? Hi] | committing _ _ _ _ _ _ _ _ /\ _ => destruct Hi as [Hi _] end;
    first [solve [right; left; eauto 6]|solve [right; right; eauto 8]].
Qed.
Lemma sees sh x a i entry : sys_inv sh x a -> owner_ x.1 !! i = Some entry -> may_see a i (unpack_owner entry).
Proof.
  intros Hh E. assert (owners x.1 = current a -> may_see a i (unpack_owner entry)) as Hexact by (intros Ho; left; by rewrite <- Ho, list_lookup_fmap, E).
  destruct (sys_view sh x a Hh) as [Hq|[(j & b & e & s & d & Hpr)|(j & k & b & e & s & d & _ & Hp & Ho & Hr & Hk & Hat)]]; [apply Hexact, Hq|apply Hexact, Hpr|].
  assert (set_range k e s (current a) !! i = Some (unpack_owner entry)) as Hl by (by rewrite <- Ho, list_lookup_fmap, E).
  rewrite lookup_set_range in Hl. destruct (current a !! i) as [y|] eqn:Ec; [|done]. cbn in Hl. destruct (decide (in_range k e i)) as [Hir|]; [|left; congruence].
  right. eexists _, _. split; [exact Hp|]. cbn. injection Hl as <-. assert (in_range b e i) as Hbe by (unfold in_range in *; lia). rewrite Ec, (Hat i y Ec Hbe). by split_and!.
Qed.
Lemma idle_exact sh x a : sys_inv sh x a -> phase_ x.1 = Idle -> owners x.1 = current a /\ pending a = None.
Proof.
  intros Hh Hp. destruct (sys_view sh x a Hh) as [(_ & ? & ?)|[(i & b & e & s & d & Hpr)|(i & k & b & e & s & d & Hc)]]; [done|destruct Hpr; congruence|destruct Hc; congruence].
Qed.
Lemma moved_exact sh r (pcs : list Pc) a i : sys_inv sh (r, pcs) a -> pcs !! i = Some Moved -> owners r = current a.
Proof. intros Hs Ei. destruct (sys_holder sh r pcs a i _ Hs Ei eq_refl) as (_ & (_ & b & e & s & d & _ & _ & Ho & _) & _). by rewrite Ho, set_range_empty. Qed.

(** C21: Transfers of bucket ranges refine an owner map that a transfer changes in one step.  In
    every interleaving of the atomic accesses of any number of threads that begin, commit and
    finish transfers, the calls and their answers are a run of that map: the range a transfer moves,
    its source and its destination are the arguments of its begin; a begin is answered true when it
    took effect, and false only for a bad range, because another thread is inside a call or has a
    transfer under way, or because a bucket of the range is not the source's.  No call aborts; every
    bucket keeps its shard; and a reader of a bucket sees its current owner, or, between the commit
    point and the return of that commit, the source the bucket has just left.  Once a commit has
    returned, and while no transfer is prepared or committed, the entries are exactly the owner
    map.  Accesses are interleaved one at a time. *)
Theorem transfer_refines_owner_map sh r0 n as' r pcs :
  base sh r0 -> phase_ r0 = Idle -> transfer_writer_ r0 = false -> run_actions (r0, replicate n Outside) as' = Some (r, pcs) ->
  (Aborted ∉ pcs) /\ (unpack_shard <$> owner_ r) = sh /\
  exists a, spec_trace (mkOwners (unpack_owner <$> owner_ r0) None ∅) (trace (r0, replicate n Outside) as') a /\
    (forall i entry, owner_ r !! i = Some entry -> may_see a i (unpack_owner entry)) /\
    (forall i, pcs !! i = Some Moved -> unpack_owner <$> owner_ r = current a) /\
    (phase_ r = Idle -> unpack_owner <$> owner_ r = current a /\ pending a = None).
Proof.
  intros Hb Hp Hw Hrun. destruct (run_inv sh as' (r0, replicate n Outside) (mkOwners (unpack_owner <$> owner_ r0) None ∅) (r, pcs)) as (a & Ha & Hs); [|done|].
  - split; [done|]. split; [intros j q E; by apply lookup_replicate in E as [-> _]|]. exists None. split; [|done]. intros j q E. apply lookup_replicate in E as [-> _]. done.
  - pose proof Hs as (Hb' & Hok & _). cbn [fst snd] in *. split; [intros [j E]%list_elem_of_lookup_1; exact (Hok j Aborted E)|]. split; [apply Hb'|]. exists a. split; [done|].
    split; [intros i entry; by apply (sees sh (r, pcs))|]. split; [intros i; by apply (moved_exact sh)|by apply (idle_exact sh (r, pcs))].
Qed.
(** Two threads race for two buckets of executor 3: the first moves them to executor 5, the second
    finds the flag taken; the state is taken after the first of the two entries is published. *)
Definition demo_router : Router := mkRouter 1 (replicate (Z.to_nat kNumBuckets) (pack 0 3)) Idle 0 0 kNoOwner kNoOwner false.
Definition demo_actions : list Action :=
  [Calls 0 (CallBegin 6 8 3 5); Calls 1 (CallBegin 7 9 3 4); Step 0; Step 1] ++ replicate 9 (Step 0) ++ [Calls 0 CallCommit] ++ replicate 7 (Step 0).
Definition demo_final : System := default (demo_router, []) (run_actions (demo_router, replicate 2 Outside) demo_actions).
Lemma demo_base : base (replicate (Z.to_nat kNumBuckets) 0) demo_router.
Proof. split; [apply length_replicate|apply Forall_replicate; split; vm_compute; congruence|apply fmap_replicate]. Qed.
Lemma transfer_refines_owner_map_witness :
  (phase_ demo_final.1 = Committed /\ owner_of_bucket demo_final.1 6 = Some 5 /\ owner_of_bucket demo_final.1 7 = Some 3 /\
   trace (demo_router, replicate 2 Outside) demo_actions = [Called 0 (CallBegin 6 8 3 5); Called 1 (CallBegin 7 9 3 4); Returned 1 false; Returned 0 true; Called 0 CallCommit]) /\
  (Aborted ∉ demo_final.2) /\ (unpack_shard <$> owner_ demo_final.1) = replicate (Z.to_nat kNumBuckets) 0 /\
  exists a, spec_trace (mkOwners (unpack_owner <$> owner_ demo_router) None ∅) (trace (demo_router, replicate 2 Outside) demo_actions) a /\
    (forall i entry, owner_ demo_final.1 !! i = Some entry -> may_see a i (unpack_owner entry)) /\
    (forall i, demo_final.2 !! i = Some Moved -> unpack_owner <$> owner_ demo_final.1 = current a) /\
    (phase_ demo_final.1 = Idle -> unpack_owner <$> owner_ demo_final.1 = current a /\ pending a = None).
Proof.
  split; [vm_compute; done|]. apply (transfer_refines_owner_map _ demo_router 2 demo_actions demo_final.1 demo_final.2); [apply demo_base|reflexivity|reflexivity|vm_compute; reflexivity].
Defined.

(** * One caller at a time *)
(** A thread running alone does what the function does. *)
Definition alone (x y : Router * Pc) : Prop := micro x.1 x.2 = Some y.
Lemma alone_actions i r p r' p' pcs : rtc alone (r, p) (r', p') -> pcs !! i = Some p -> exists n, run_actions (r, pcs) (replicate n (Step i)) = Some (r', <[i := p']> pcs).
Proof.
  intros H. remember (r, p) as x eqn:Ex. remember (r', p') as y eqn:Ey. revert r p r' p' pcs Ex Ey. induction H as [x|x [r1 p1] y H _ IH]; intros r p r' p' pcs -> Ey Hp.
  - injection Ey as <- <-. exists 0%nat. cbn. by rewrite list_insert_id.
  - destruct (IH r1 p1 r' p' (<[i := p1]> pcs) eq_refl Ey) as (n & Hn); [by eapply list_lookup_insert_eq, lookup_lt_Some|]. exists (S n). cbn. rewrite Hp, some_bind. unfold alone in H. cbn in H. rewrite H, some_bind.
    by rewrite list_insert_insert_eq in Hn.
Qed.
Lemma check_alone k bucket b e s d r ok : e - bucket = Z.of_nat k -> all_owned k bucket s (owner_ r) = Some ok ->
  rtc alone (r, CheckOwner bucket b e s d) (r, if ok then StoreBegin b e s d else DropFlag).
Proof.
  revert bucket. induction k as [|k IH]; intros bucket Hk H; cbn in H.
  - injection H as <-. apply rtc_once. unfold alone. cbn. by rewrite (proj2 (Z.ltb_ge _ _)) by lia.
  - destruct (owner_ r !! Z.to_nat bucket) as [entry|] eqn:E; [|done]. cbn in H. eapply (rtc_l _ _ (r, if unpack_owner entry =? s then CheckOwner (bucket + 1) b e s d else DropFlag)).
    { unfold alone. cbn. rewrite (proj2 (Z.ltb_lt _ _)) by lia. by rewrite E. }
    destruct (unpack_owner entry =? s); [apply IH; [lia|done]|by injection H as <-].
Qed.
Lemma begin_alone b e s d r ok r' : bad_range b e s d = false -> begin_transfer b e s d r = Some (ok, r') -> rtc alone (r, TakeFlag b e s d) (r', if ok then Prepared else Outside).
Proof.
  intros Hbad H. unfold begin_transfer in H. rewrite Hbad in H. destruct (transfer_writer_ r) eqn:Ew.
  { injection H as <- <-. apply rtc_once. unfold alone. cbn. by rewrite Ew. }
  eapply rtc_l; [unfold alone; cbn; by rewrite Ew|]. set (r1 := set_writer r true) in *. destruct (decide (phase_ r1 = Idle)) as [Hp|Hp].
  - eapply rtc_l; [unfold alone; cbn [micro fst snd]; by rewrite decide_True|]. destruct (all_owned _ _ _ _) as [[]|] eqn:E; [| |done]; cbn in H; injection H as <- <-.
    + etrans; [eapply check_alone; [|exact E]; unfold bad_range in Hbad; rewrite !orb_false_iff in Hbad; zcmp; lia|]. cbn iota.
      eapply rtc_l; [done|]. eapply rtc_l; [done|]. eapply rtc_l; [done|]. eapply rtc_l; [done|]. by eapply rtc_l; [done|].
    + etrans; [eapply check_alone; [|exact E]; unfold bad_range in Hbad; rewrite !orb_false_iff in Hbad; zcmp; lia|]. by apply rtc_once.
  - injection H as <- <-. eapply rtc_l; [unfold alone; cbn [micro fst snd]; by rewrite decide_False|]. by apply rtc_once.
Qed.
Lemma publish_alone k bucket e d r o : e - bucket = Z.of_nat k -> set_owners k bucket d (owner_ r) = Some o -> rtc alone (r, LoadEntry bucket e d) (set_owner r o, Moved).
Proof.
  revert bucket r. induction k as [|k IH]; intros bucket r Hk H; cbn in H.
  - injection H as <-. apply rtc_once. unfold alone. cbn. rewrite (proj2 (Z.ltb_ge _ _)) by lia. by destruct r.
  - destruct (owner_ r !! Z.to_nat bucket) as [entry|] eqn:E; [|done]. cbn in H. eapply rtc_l; [unfold alone; cbn; rewrite (proj2 (Z.ltb_lt _ _)) by lia; by rewrite E|].
    eapply rtc_l; [done|]. apply (IH (bucket + 1) (set_owner r _)); [lia|done].
Qed.
Lemma commit_alone r r' : transfer_begin_ r <= transfer_end_ r -> commit_transfer r = Some r' -> rtc alone (r, CommitPhase) (r', Moved).
Proof.
  intros Hr H. unfold commit_transfer in H. destruct (decide (phase_ r = Preparing)) as [Hp|]; [|done]. destruct (set_owners _ _ _ _) as [o|] eqn:E; [|done]. cbn in H. injection H as <-.
  eapply rtc_l; [unfold alone; cbn [micro fst snd]; by rewrite decide_True|]. eapply rtc_l; [done|]. eapply rtc_l; [done|]. eapply rtc_l; [done|]. eapply rtc_l; [done|].
  eapply (publish_alone _ _ _ _ (set_phase r Committed)); [|exact E]. cbn. lia.
Qed.
Lemma finish_alone r r' : finish_transfer r = Some r' -> rtc alone (r, FinishPhase) (r', Outside).
Proof.
  intros H. unfold finish_transfer in H. destruct (decide (phase_ r = Committed)) as [Hp|]; [|done]. injection H as <-.
  eapply rtc_l; [unfold alone; cbn [micro fst snd]; by rewrite decide_True|]. eapply rtc_l; [done|]. by apply rtc_once.
Qed.

(** What the calls do when nobody interferes. *)
Lemma set_owners_spec sh k bucket d r : base sh r -> 0 <= d < kNoOwner -> 0 <= bucket -> bucket + Z.of_nat k <= kNumBuckets ->
  exists o, set_owners k bucket d (owner_ r) = Some o /\ base sh (set_owner r o) /\ (unpack_owner <$> o) = set_range bucket (bucket + Z.of_nat k) d (owners r).
Proof.
  revert bucket r. induction k as [|k IH]; intros bucket r Hb Hd H0 Hk; cbn [set_owners].
  - exists (owner_ r). split; [done|]. split; [by destruct Hb|]. rewrite set_range_empty by lia. done.
  - destruct (lookup_lt_is_Some_2 (owner_ r) (Z.to_nat bucket)) as [entry E]; [rewrite (ba_length _ _ Hb); lia|]. rewrite E, some_bind.
    destruct (store_entry_base sh r _ entry d Hb Hd E) as [Hb' Ho']. destruct (IH (bucket + 1) _ Hb' Hd ltac:(lia) ltac:(lia)) as (o & Eo & Hbo & Hoo). cbn [owner_ set_owner] in *. exists o. split; [done|]. split; [by destruct Hbo|].
    rewrite Hoo, Ho'. apply list_eq. intros i. rewrite !lookup_set_range. destruct (decide (i = Z.to_nat bucket)) as [->|Hne].
    + rewrite list_lookup_insert_eq by (rewrite length_fmap; by eapply lookup_lt_Some). rewrite list_lookup_fmap, E. cbn. rewrite (decide_True (P := in_range bucket _ _)) by (unfold in_range; lia). by destruct (decide _).
    + rewrite list_lookup_insert_ne by done. destruct (_ !! i); cbn; [|done]. f_equal. unfold in_range. destruct (decide _), (decide _); (done || lia).
Qed.
Lemma all_owned_spec k bucket s o : 0 <= bucket -> (Z.to_nat bucket + k <= length o)%nat ->
  exists ok, all_owned k bucket s o = Some ok /\ (ok = true <-> all_at bucket (bucket + Z.of_nat k) s (unpack_owner <$> o)).
Proof.
  revert bucket. induction k as [|k IH]; intros bucket H0 Hk; cbn [all_owned].
  - exists true. split; [done|]. split; [|done]. intros _ i x _ Hi. unfold in_range in Hi. lia.
  - destruct (lookup_lt_is_Some_2 o (Z.to_nat bucket)) as [entry E]; [lia|]. rewrite E, some_bind. assert ((unpack_owner <$> o) !! Z.to_nat bucket = Some (unpack_owner entry)) as Eo by (by rewrite list_lookup_fmap, E).
    destruct (Z.eqb_spec (unpack_owner entry) s) as [<-|Hne].
    + destruct (IH (bucket + 1) ltac:(lia) ltac:(lia)) as (ok & -> & Hok). exists ok. split; [done|]. rewrite Hok. unfold all_at, in_range. split; intros H i x Ex Hi.
      * destruct (decide (i = Z.to_nat bucket)) as [->|]; [congruence|apply (H i x Ex); lia].
      * apply (H i x Ex). lia.
    + exists false. split; [done|]. split; [done|]. intros H. exfalso. apply Hne, (H _ _ Eo). unfold in_range. lia.
Qed.
Lemma bad_range_ok b e s d : 0 <= b -> 0 <= s -> 0 <= d -> bad_range b e s d = false -> range_ok b e s d /\ s <> d.
Proof. intros Hb Hs Hd H. unfold bad_range in H. rewrite !orb_false_iff in H. unfold range_ok. zcmp. lia. Qed.
(** Begin succeeds exactly when the range is good and wholly the source's; it moves nothing. *)
Lemma begin_transfer_spec sh b e s d r : base sh r -> 0 <= b -> 0 <= s -> 0 <= d -> phase_ r = Idle -> transfer_writer_ r = false ->
  exists ok r', begin_transfer b e s d r = Some (ok, r') /\ (ok = true <-> bad_range b e s d = false /\ all_at b e s (owners r)) /\
    if ok then r' = set_phase (set_transfer (set_writer r true) b e s d) Preparing else r' = r.
Proof.
  intros Hba Hb Hs Hd Hp Hw. unfold begin_transfer. destruct (bad_range b e s d) eqn:Ebad; [exists false, r; split_and!; [done|by split; [|intros [? _]]|done]|].
  destruct (bad_range_ok b e s d Hb Hs Hd Ebad) as [Hr _]. rewrite Hw, decide_True by done. cbn [owner_ set_writer].
  destruct (all_owned_spec (Z.to_nat (e - b)) b s (owner_ r) Hb) as (ok & -> & Hok); [rewrite (ba_length _ _ Hba); unfold range_ok in Hr; lia|]. rewrite some_bind.
  replace (b + Z.of_nat (Z.to_nat (e - b))) with e in Hok by (unfold range_ok in Hr; lia).
  assert (ok = true <-> false = false /\ all_at b e s (owners r)) as Hok' by (rewrite Hok; split; [done|by intros [_ ?]]).
  destruct ok; eexists _, _; (split; [done|]); (split; [exact Hok'|]); [done|destruct r; cbn in *; by subst].
Qed.
Lemma transfer_spec sh b e s d r : base sh r -> phase_ r = Idle -> transfer_writer_ r = false -> range_ok b e s d ->
  let r1 := set_phase (set_transfer (set_writer r true) b e s d) Preparing in
  exists r2 r3, commit_transfer r1 = Some r2 /\ finish_transfer r2 = Some r3 /\ base sh r3 /\ phase_ r3 = Idle /\ transfer_writer_ r3 = false /\ nshards_ r3 = nshards_ r /\
    owners r3 = set_range b e d (owners r).
Proof.
  intros Hba Hp Hw (Hb & He & Hs & Hd) r1. unfold commit_transfer. rewrite decide_True by done. cbn [owner_ set_phase transfer_end_ transfer_begin_ transfer_destination_ r1 set_transfer set_writer].
  destruct (set_owners_spec sh (Z.to_nat (e - b)) b d r Hba Hd ltac:(lia) ltac:(lia)) as (o & -> & Hbo & Ho). rewrite some_bind. eexists _, _. split; [done|]. unfold finish_transfer. rewrite decide_True by done.
  split; [done|]. split; [by destruct Hbo|]. split_and!; try done. cbn. rewrite Ho. f_equal. lia.
Qed.

(** * The uniform layout *)
(** [Server::init]: the range of shard [i] of [n]. *)
Definition shard_begin (n i : Z) : Z := i * (kNumBuckets / n).
Definition shard_end (n i : Z) : Z := if i + 1 =? n then kNumBuckets else (i + 1) * (kNumBuckets / n).
Definition owns (n i bucket : Z) : bool := (shard_begin n i <=? bucket) && (bucket <? shard_end n i).
Definition uniform_shard (n b : Z) : Z := if n <=? b / (kNumBuckets / n) then n - 1 else b / (kNumBuckets / n).
Section Uniform.
Context (n : Z) (Hn : 1 <= n <= 256).
Abbreviation per := (kNumBuckets / n).
Lemma per_bounds : 64 <= per /\ n * per <= kNumBuckets.
Proof. split; [apply Z.div_le_lower_bound; unfold kNumBuckets; lia|apply Z.mul_div_le; lia]. Qed.
(** The shard of a bucket is the one shard whose range holds it. *)
Lemma uniform_shard_owns b i : 0 <= b < kNumBuckets -> 0 <= i < n -> owns n i b = (i =? uniform_shard n b).
Proof.
  intros Hb Hi. destruct per_bounds as [Hp Hnp]. unfold owns, shard_begin, shard_end, uniform_shard. pose proof (Z.div_mod b per ltac:(lia)) as E. pose proof (Z.mod_pos_bound b per ltac:(lia)) as Hm.
  set (q := b / per) in *. destruct (Z.eqb_spec (i + 1) n), (Z.leb_spec n q), (Z.leb_spec (i * per) b); cbn [andb]; zcmp;
    repeat match goal with |- context [?x <? ?y] => destruct (Z.ltb_spec x y) | |- context [?x =? ?y] => destruct (Z.eqb_spec x y) end; try done; try lia; exfalso; nia.
Qed.
Lemma uniform_shard_range b : 0 <= b < kNumBuckets -> 0 <= uniform_shard n b < n.
Proof.
  intros Hb. destruct per_bounds. unfold uniform_shard. pose proof (Z.div_pos b per ltac:(lia) ltac:(lia)). destruct (Z.leb_spec n (b / per)); lia.
Qed.
Lemma shard_range_ok i : 0 <= i < n -> 0 <= shard_begin n i < shard_end n i /\ shard_end n i <= kNumBuckets.
Proof. intros Hi. destruct per_bounds. unfold shard_begin, shard_end. destruct (Z.eqb_spec (i + 1) n); nia. Qed.
Definition uniform_shards : list Z := (fun b => uniform_shard n (Z.of_nat b)) <$> seq 0 (Z.to_nat kNumBuckets).
Lemma build_uniform_spec r : exists r', build_uniform n r = Some r' /\ base uniform_shards r' /\ phase_ r' = phase_ r /\ transfer_writer_ r' = transfer_writer_ r /\ nshards_ r' = n.
Proof.
  unfold build_uniform. destruct per_bounds as [Hp _]. rewrite (proj2 (Z.leb_gt _ _)) by lia. eexists. split; [done|]. split_and!; try done.
  assert (forall b, b ∈ seq 0 (Z.to_nat kNumBuckets) -> uniform_entry n per b = pack (uniform_shard n (Z.of_nat b)) kNoOwner /\ entry_ok (uniform_entry n per b) /\ unpack_shard (uniform_entry n per b) = uniform_shard n (Z.of_nat b)) as Hent.
  { intros b Hb. apply elem_of_seq in Hb. destruct (unpack_pack (uniform_shard n (Z.of_nat b)) kNoOwner) as (E1 & _ & E3); [pose proof (uniform_shard_range (Z.of_nat b)); lia|by unfold kNoOwner|]. done. }
  split; cbn [owner_ set_owner].
  - by rewrite length_fmap, length_seq.
  - apply Forall_fmap, Forall_forall. intros b Hb. apply (Hent b Hb).
  - rewrite <- list_fmap_compose. apply list_fmap_ext. intros i b Hb. cbn. apply (Hent b). by eapply list_elem_of_lookup_2.
Qed.
Lemma uniform_shards_lookup b : 0 <= b < kNumBuckets -> uniform_shards !! Z.to_nat b = Some (uniform_shard n b).
Proof. intros Hb. unfold uniform_shards. rewrite list_lookup_fmap, lookup_seq_lt by lia. cbn. by rewrite Z2Nat.id by lia. Qed.
Lemma bucket_of_range hash : 0 <= bucket_of hash < kNumBuckets.
Proof. unfold bucket_of. change kBucketMask with (2 ^ 14 - 1). rewrite land_ones_mod by lia. apply Z.mod_pos_bound. done. Qed.
(** With these shard bits a hash is routed to the shard whose range holds its bucket. *)
Lemma route_owns r hash : base uniform_shards r -> exists s, shard_of r hash = Some s /\ 0 <= s < n /\ forall i, 0 <= i < n -> owns n i (bucket_of hash) = (i =? s).
Proof.
  intros Hb. pose proof (bucket_of_range hash) as Hr. exists (uniform_shard n (bucket_of hash)). split; [|split; [by apply uniform_shard_range|intros i Hi; by apply uniform_shard_owns]].
  unfold shard_of. rewrite <- list_lookup_fmap, (ba_shards _ _ Hb). by apply uniform_shards_lookup.
Qed.
End Uniform.
