(* ===== verification/Ownership.v ===== *)
(** core/server.h: which executor owns which shard, and the transfer of whole shards between
    executors at the quiesced safe point.

    Ownership is recorded four times: in the router's bucket entries, in [shard_owner_], in the
    shard vectors of the threads, and in the retire sink and notification flag each shard is bound
    to.  A [Shard] pointer is the shard's index.  Inputs are the configuration read from the
    coordinator's mailbox, the resident bytes of each store, and whether an allocation succeeds.
    [None] is [abort]. *)
From S2P Require Import Prelude WeightedLb LiveConfig Router.

Definition kNoDomain : Z := 4294967295.
Definition NOTIFY_TRACKING : Z := 1048576.
Definition NOTIFY_SAVE : Z := 2097152.
Inductive Role := RoleIdle | RoleIfid | RoleEx.
#[export] Instance role_eq_dec : EqDecision Role.
Proof. solve_decision. Defined.
Record Maxmemory := mkMaxmemory { mm_enabled : bool; mm_limit : Z; mm_policy : Z; mm_samples : Z }.
(** [sink] and [pending_of]: the threads whose retire sink and notification flag the shard uses. *)
Record Shard := mkShard {
  id : Z; bucket_begin : Z; bucket_end : Z; home_domain : Z; migrations : Z; migrated_bytes : Z;
  sink : option Z; limits : Maxmemory; notify_mask : Z; pending_of : option Z }.
(** [notify_pending]: the flag the thread registered. *)
Record Thread := mkThread { role : Role; owned : list nat; capacity : nat; executor : bool; domain : Z; retire_sink : bool; notify_pending : option bool }.
Record Server := mkServer {
  router_ : Router; shards_ : list Shard; shard_owner_ : list Z; threads_ : list Thread;
  fused : bool; flip_active : bool; flip_convert_ : list Role; read_local : bool }.

Definition set_router (r : Router) (v : Server) : Server := mkServer r (shards_ v) (shard_owner_ v) (threads_ v) (fused v) (flip_active v) (flip_convert_ v) (read_local v).
Definition set_shards (l : list Shard) (v : Server) : Server := mkServer (router_ v) l (shard_owner_ v) (threads_ v) (fused v) (flip_active v) (flip_convert_ v) (read_local v).
Definition set_shard_owner (l : list Z) (v : Server) : Server := mkServer (router_ v) (shards_ v) l (threads_ v) (fused v) (flip_active v) (flip_convert_ v) (read_local v).
Definition set_threads (l : list Thread) (v : Server) : Server := mkServer (router_ v) (shards_ v) (shard_owner_ v) l (fused v) (flip_active v) (flip_convert_ v) (read_local v).
Definition set_owned (l : list nat) (t : Thread) : Thread := mkThread (role t) l (capacity t) (executor t) (domain t) (retire_sink t) (notify_pending t).
Definition set_capacity (n : nat) (t : Thread) : Thread := mkThread (role t) (owned t) n (executor t) (domain t) (retire_sink t) (notify_pending t).
Definition set_notify (b : bool) (t : Thread) : Thread := mkThread (role t) (owned t) (capacity t) (executor t) (domain t) (retire_sink t) (Some b).
Definition upd_thread (tid : Z) (f : Thread -> Thread) (v : Server) : Server := set_threads (alter f (Z.to_nat tid) (threads_ v)) v.
Definition upd_shard (sid : nat) (f : Shard -> Shard) (v : Server) : Server := set_shards (alter f sid (shards_ v)) v.

Definition nthreads (v : Server) : Z := Z.of_nat (length (threads_ v)).
Definition nshards (v : Server) : Z := Z.of_nat (length (shards_ v)).
Definition thread_at (v : Server) (tid : Z) : option Thread := threads_ v !! Z.to_nat tid.
Definition live_executor (v : Server) (tid : Z) : bool :=
  if nthreads v <=? tid then false
  else match thread_at v tid with Some t => if fused v then executor t else bool_decide (role t = RoleEx) | None => false end.
Definition flip_final_role (v : Server) (tid : Z) : Role :=
  if nthreads v <=? tid then RoleIdle
  else match flip_convert_ v !! Z.to_nat tid, thread_at v tid with
       | Some c, Some t => if decide (c = RoleIdle) then role t else c
       | _, _ => RoleIdle
       end.
Definition worker_of_shard (v : Server) (sid : nat) : option Z := shard_owner_ v !! sid.

Section Transfers.
Context (config : LiveConfigSnapshot) (resident : nat -> Z).

Definition configure_maxmemory (enabled : bool) (limit policy samples : Z) (s : Shard) : Shard :=
  mkShard (id s) (bucket_begin s) (bucket_end s) (home_domain s) (migrations s) (migrated_bytes s) (sink s)
    (mkMaxmemory enabled limit policy (if samples =? 0 then 1 else if 64 <? samples then 64 else samples)) (notify_mask s) (pending_of s).
Definition set_notify_mask (mask : Z) (s : Shard) : Shard :=
  mkShard (id s) (bucket_begin s) (bucket_end s) (home_domain s) (migrations s) (migrated_bytes s) (sink s) (limits s) mask (pending_of s).
Definition bind_notify_pending (tid : Z) (s : Shard) : Shard :=
  mkShard (id s) (bucket_begin s) (bucket_end s) (home_domain s) (migrations s) (migrated_bytes s) (sink s) (limits s) (notify_mask s) (Some tid).
Definition rebind_retire_sink (tid : Z) (s : Shard) : Shard :=
  mkShard (id s) (bucket_begin s) (bucket_end s) (home_domain s) (migrations s) (migrated_bytes s) (Some tid) (limits s) (notify_mask s) (pending_of s).
Definition note_migration (bytes new_domain : Z) (s : Shard) : Shard :=
  if negb (new_domain =? home_domain s) then
    mkShard (id s) (bucket_begin s) (bucket_end s) new_domain (u64 (migrations s + 1)) (u64 (migrated_bytes s + bytes)) (sink s) (limits s) (notify_mask s) (pending_of s)
  else s.

Definition adopt_read_local_retire_sink (sid : nat) (destination : Z) (v : Server) : option Server :=
  if negb (read_local v) then Some v
  else t ← thread_at v destination; if retire_sink t then Some (upd_shard sid (rebind_retire_sink destination) v) else None.
Definition adopt_shard_owner_state (sid : nat) (destination : Z) (v : Server) : option Server :=
  v ← adopt_read_local_retire_sink sid destination v;
  let v := upd_shard sid (configure_maxmemory (negb (maxmemory config =? 0)) (maxmemory config / nshards v) (policy config) (samples config)) v in
  let v := upd_shard sid (set_notify_mask (Z.lor (notify_events config) (Z.lor (if tracking_armed config then NOTIFY_TRACKING else 0) (if save_armed config then NOTIFY_SAVE else 0)))) v in
  t ← thread_at v destination;
  match notify_pending t with
  | None => None
  | Some _ => Some (upd_thread destination (set_notify true) (upd_shard sid (bind_notify_pending destination) v))
  end.

(** [*found = from.back(); from.pop_back();] *)
Definition swap_remove (i : nat) (l : list nat) : list nat := removelast (<[i := List.last l 0%nat]> l).
Definition position (sid : nat) (l : list nat) : option nat := fst <$> list_find (eq sid) l.
Definition transfer_shard_quiesced (shard_id source destination : Z) (v : Server) : option (bool * Server) :=
  if (shard_id <? 0) || (nshards v <=? shard_id) then Some (false, v)
  else
    let sid := Z.to_nat shard_id in
    sh ← shards_ v !! sid;
    if (nthreads v <=? source) || (nthreads v <=? destination) || (source =? destination) || negb (live_executor v source)
       || (negb (live_executor v destination) && negb (flip_active v && bool_decide (flip_final_role v destination = RoleEx))) then Some (false, v)
    else
      w ← worker_of_shard v sid;
      if negb (w =? source) then Some (false, v)
      else
        from ← thread_at v source; to ← thread_at v destination;
        match position sid (owned from) with
        | None => Some (false, v)
        | Some found =>
            if bool_decide (sid ∈ owned to) || (length (owned to) =? capacity to)%nat then Some (false, v)
            else
              '(ok, r) ← begin_transfer (bucket_begin sh) (bucket_end sh) source destination (router_ v);
              let v := set_router r v in
              if negb ok then Some (false, v)
              else
                let v := upd_thread destination (fun t => set_owned (owned t ++ [sid]) t) v in
                let v := upd_thread source (fun t => set_owned (swap_remove found (owned t)) t) v in
                v ← adopt_shard_owner_state sid destination v;
                r ← commit_transfer (router_ v);
                let v := set_shard_owner (<[sid := destination]> (shard_owner_ v)) (set_router r v) in
                r ← finish_transfer (router_ v);
                let v := set_router r v in
                Some (true, upd_shard sid (note_migration (resident sid) (domain to)) v)
        end.

(** The shards of a range: every one whole, adjacent and the source's. *)
Fixpoint moving_loop (v : Server) (begin end' source : Z) (sids : list nat) (cursor : Z) : option (option (list nat * Z)) :=
  match sids with
  | [] => Some (Some ([], cursor))
  | sid :: sids =>
      sh ← shards_ v !! sid;
      if (bucket_end sh <=? begin) || (end' <=? bucket_begin sh) then moving_loop v begin end' source sids cursor
      else
        w ← worker_of_shard v (Z.to_nat (id sh));
        if negb (bucket_begin sh =? cursor) || (end' <? bucket_end sh) || negb (w =? source) then Some None
        else
          res ← moving_loop v begin end' source sids (bucket_end sh);
          Some (match res with None => None | Some (m, c) => Some (sid :: m, c) end)
  end.
Fixpoint adopt_all (sids : list nat) (destination : Z) (v : Server) : option Server :=
  match sids with [] => Some v | sid :: sids => v ← adopt_shard_owner_state sid destination v; adopt_all sids destination v end.
(** [store_owners]: [shard_owner_] by the shards' ids. *)
Definition store_owners (sids : list nat) (destination : Z) (v : Server) : list Z :=
  foldl (fun l sid => match shards_ v !! sid with Some sh => <[Z.to_nat (id sh) := destination]> l | None => l end) (shard_owner_ v) sids.
(** [oom_list], [oom_reserve]: the two allocations fail. *)
Definition transfer_bucket_range_quiesced (oom_list oom_reserve : bool) (begin end' source destination : Z) (v : Server) : option (bool * Server) :=
  if (end' <=? begin) || (kNumBuckets <? end') || (nthreads v <=? source) || (nthreads v <=? destination) || (source =? destination) then Some (false, v)
  else if negb (live_executor v source) || negb (live_executor v destination) then Some (false, v)
  else if oom_list then Some (false, v)
  else
    res ← moving_loop v begin end' source (seq 0 (length (shards_ v))) begin;
    match res with
    | None => Some (false, v)
    | Some (moving, cursor) =>
        if bool_decide (moving = []) || negb (cursor =? end') then Some (false, v)
        else
          from ← thread_at v source; to ← thread_at v destination;
          if negb (forallb (fun sid => bool_decide (sid ∈ owned from) && bool_decide (sid ∉ owned to)) moving) then Some (false, v)
          else if oom_reserve then Some (false, v)
          else
            let v := upd_thread destination (fun t => set_capacity (max (capacity t) (length (owned t) + length moving)) t) v in
            '(ok, r) ← begin_transfer begin end' source destination (router_ v);
            let v := set_router r v in
            if negb ok then Some (false, v)
            else
              let v := upd_thread destination (fun t => set_owned (owned t ++ moving) t) v in
              let v := upd_thread source (fun t => set_owned (filter (fun sid => sid ∉ moving) (owned t)) t) v in
              v ← adopt_all moving destination v;
              r ← commit_transfer (router_ v);
              let v := set_router r v in
              let v := set_shard_owner (store_owners moving destination v) v in
              r ← finish_transfer (router_ v);
              let v := set_router r v in
              Some (true, foldl (fun v sid => upd_shard sid (note_migration (resident sid) (domain to)) v) v moving)
    end.
End Transfers.

Definition reserve_shard_capacity (oom : bool) (tid : Z) (incoming : nat) (v : Server) : option (bool * Server) :=
  if nthreads v <=? tid then Some (false, v)
  else if oom then Some (false, v)
  else Some (true, upd_thread tid (fun t => set_capacity (max (capacity t) (length (owned t) + incoming)) t) v).
(** Boot: the owner of a shard. *)
Definition set_worker_of_shard (shard_id thread_id : Z) (v : Server) : option Server :=
  if (shard_id <? 0) || (nshards v <=? shard_id) then None
  else
    sh ← shards_ v !! Z.to_nat shard_id;
    r ← set_initial_owner (bucket_begin sh) (bucket_end sh) thread_id (router_ v);
    Some (set_shard_owner (<[Z.to_nat shard_id := thread_id]> (shard_owner_ v)) (set_router r v)).

(** * The invariant *)
(** Every shard has one owner, and the router, [shard_owner_] and the threads' vectors agree on it. *)
Record own_inv (v : Server) : Prop := {
  oi_count : 1 <= nshards v <= 256 /\ nthreads v <= kNoOwner;
  oi_router : base (uniform_shards (nshards v)) (router_ v) /\ phase_ (router_ v) = Idle /\ transfer_writer_ (router_ v) = false;
  oi_shards : forall i sh, shards_ v !! i = Some sh -> id sh = Z.of_nat i /\ bucket_begin sh = shard_begin (nshards v) (Z.of_nat i) /\ bucket_end sh = shard_end (nshards v) (Z.of_nat i);
  oi_length : length (shard_owner_ v) = length (shards_ v);
  oi_owner : forall i t, shard_owner_ v !! i = Some t -> 0 <= t < nthreads v;
  oi_entries : forall i t b, shard_owner_ v !! i = Some t -> shard_begin (nshards v) (Z.of_nat i) <= b < shard_end (nshards v) (Z.of_nat i) -> owner_of_bucket (router_ v) b = Some t;
  oi_owned : forall tid th, threads_ v !! tid = Some th -> NoDup (owned th) /\ (length (owned th) <= capacity th)%nat /\ forall i, i ∈ owned th <-> shard_owner_ v !! i = Some (Z.of_nat tid) }.
(** Every shard uses the retire sink and the notification flag of its owner; the threads have registered theirs. *)
Record bound (v : Server) : Prop := {
  bn_shard : forall i sh t, shards_ v !! i = Some sh -> shard_owner_ v !! i = Some t -> (read_local v = true -> sink sh = Some t) /\ pending_of sh = Some t;
  bn_thread : forall tid th, threads_ v !! tid = Some th -> (read_local v = true -> retire_sink th = true) /\ is_Some (notify_pending th) }.

(** * What a transfer changes *)
Record moved (sids : list nat) (s d : Z) (v v' : Server) : Prop := {
  mv_router : base (uniform_shards (nshards v)) (router_ v') /\ phase_ (router_ v') = Idle /\ transfer_writer_ (router_ v') = false;
  mv_entries : forall i b, (i < length (shards_ v))%nat -> shard_begin (nshards v) (Z.of_nat i) <= b < shard_end (nshards v) (Z.of_nat i) ->
    owner_of_bucket (router_ v') b = if decide (i ∈ sids) then Some d else owner_of_bucket (router_ v) b;
  mv_owner : length (shard_owner_ v') = length (shard_owner_ v) /\ forall i, (i < length (shards_ v))%nat -> shard_owner_ v' !! i = if decide (i ∈ sids) then Some d else shard_owner_ v !! i;
  mv_shards : length (shards_ v') = length (shards_ v) /\ forall i sh', shards_ v' !! i = Some sh' -> exists sh, shards_ v !! i = Some sh /\
    id sh' = id sh /\ bucket_begin sh' = bucket_begin sh /\ bucket_end sh' = bucket_end sh /\
    if decide (i ∈ sids) then (read_local v = true -> sink sh' = Some d) /\ pending_of sh' = Some d else sh' = sh;
  mv_threads : length (threads_ v') = length (threads_ v) /\ forall tid th', threads_ v' !! tid = Some th' -> exists th, threads_ v !! tid = Some th /\
    role th' = role th /\ executor th' = executor th /\ domain th' = domain th /\ retire_sink th' = retire_sink th /\ (is_Some (notify_pending th) -> is_Some (notify_pending th')) /\
    (capacity th <= capacity th')%nat /\
    if decide (Z.of_nat tid = d) then owned th' = owned th ++ sids /\ (length (owned th') <= capacity th')%nat
    else if decide (Z.of_nat tid = s) then owned th' ≡ₚ filter (fun i => i ∉ sids) (owned th) else owned th' = owned th;
  mv_rest : fused v' = fused v /\ flip_active v' = flip_active v /\ flip_convert_ v' = flip_convert_ v /\ read_local v' = read_local v }.

Section Moved.
Context (sids : list nat) (s d : Z) (v v' : Server) (Hi : own_inv v) (Hm : moved sids s d v v').
Context (Hnd : NoDup sids) (Hsd : s <> d) (Hd : 0 <= d < nthreads v) (Hown : forall i, i ∈ sids -> shard_owner_ v !! i = Some s).
Lemma moved_counts : nshards v' = nshards v /\ nthreads v' = nthreads v.
Proof. unfold nshards, nthreads. by rewrite (proj1 (mv_shards _ _ _ _ _ Hm)), (proj1 (mv_threads _ _ _ _ _ Hm)). Qed.
Lemma owner_lookup_new i t : shard_owner_ v' !! i = Some t -> (i < length (shards_ v))%nat /\ (if decide (i ∈ sids) then Some d else shard_owner_ v !! i) = Some t.
Proof.
  intros E. destruct (mv_owner _ _ _ _ _ Hm) as [Hl Ho]. pose proof (lookup_lt_Some _ _ _ E) as Hlt. rewrite Hl, (oi_length v Hi) in Hlt. split; [done|]. by rewrite <- Ho.
Qed.
Lemma sids_in i : i ∈ sids -> (i < length (shards_ v))%nat.
Proof. intros H. rewrite <- (oi_length v Hi). by eapply lookup_lt_Some, Hown. Qed.
Lemma moved_own_inv : own_inv v'.
Proof.
  destruct moved_counts as [En Et]. destruct (mv_owner _ _ _ _ _ Hm) as [Hol Hov]. split.
  - rewrite En, Et. apply Hi.
  - rewrite En. apply Hm.
  - intros i sh' E. rewrite En. destruct (proj2 (mv_shards _ _ _ _ _ Hm) i sh' E) as (sh & Esh & -> & -> & -> & _). by apply Hi.
  - rewrite Hol, (proj1 (mv_shards _ _ _ _ _ Hm)). apply Hi.
  - intros i t E. rewrite Et. destruct (owner_lookup_new i t E) as [_ E']. destruct (decide _); [by injection E' as <-|by apply (oi_owner v Hi i)].
  - intros i t b E Hb. rewrite En in Hb. destruct (owner_lookup_new i t E) as [Hlt E']. rewrite (mv_entries _ _ _ _ _ Hm i b Hlt Hb). destruct (decide _); [done|by apply (oi_entries v Hi i)].
  - intros tid th' E. destruct (proj2 (mv_threads _ _ _ _ _ Hm) tid th' E) as (th & Eth & _ & _ & _ & _ & _ & Hcap & Ho). destruct (oi_owned v Hi tid th Eth) as (Hndo & Hlen & Hin).
    assert (forall i, shard_owner_ v' !! i = Some (Z.of_nat tid) <-> (i ∈ sids /\ d = Z.of_nat tid) \/ ((i ∉ sids) /\ i ∈ owned th)) as Hiff.
    { intros i. rewrite Hin. split.
      - intros Ei. destruct (owner_lookup_new i _ Ei) as [_ E']. destruct (decide (i ∈ sids)); [left; by injection E' as ->|by right].
      - intros [[H1 ->]|[H1 H2]]; [rewrite Hov, decide_True by (done || by apply sids_in); done|]. rewrite Hov, decide_False; [done|done|]. rewrite <- (oi_length v Hi). by eapply lookup_lt_Some. }
    assert (Z.of_nat tid <> s -> forall i, i ∈ owned th -> i ∉ sids) as Hnot by (intros Hts i Ho1 Hs1; apply Hin in Ho1; specialize (Hown i Hs1); congruence).
    destruct (decide (Z.of_nat tid = d)) as [Ed|Ed].
    + destruct Ho as [-> Hle]. split; [apply NoDup_app; split_and!; [done|by apply Hnot; lia|done]|]. split; [done|]. intros i. rewrite elem_of_app, Hiff. split; [intros [H1|H1]; [right; split; [by apply Hnot; [lia|]|done]|by left]|by intros [[H1 _]|[_ H1]]; [right|left]].
    + destruct (decide (Z.of_nat tid = s)) as [Es|Es].
      * split; [rewrite Ho; by apply NoDup_filter|]. split; [rewrite Ho; pose proof (length_filter (fun i => i ∉ sids) (owned th)); lia|]. intros i. rewrite Ho, list_elem_of_filter, Hiff. split; [by right|intros [[_ ?]|?]; [congruence|done]].
      * rewrite Ho. split; [done|]. split; [lia|]. intros i. rewrite Hiff. split; [intros H1; right; split; [by apply Hnot|done]|intros [[_ ?]|[_ ?]]; [congruence|done]].
Qed.
Lemma moved_bound : bound v -> bound v'.
Proof.
  intros [Hb Ht]. destruct (mv_rest _ _ _ _ _ Hm) as (_ & _ & _ & Erl). split.
  - intros i sh' t E Eo. destruct (owner_lookup_new i t Eo) as [_ E']. destruct (proj2 (mv_shards _ _ _ _ _ Hm) i sh' E) as (sh & Esh & _ & _ & _ & H). rewrite Erl.
    destruct (decide (i ∈ sids)); [by injection E' as <-|]. subst sh'. by apply (Hb i).
  - intros tid th' E. destruct (proj2 (mv_threads _ _ _ _ _ Hm) tid th' E) as (th & Eth & _ & _ & _ & E4 & E5 & _). rewrite Erl, E4. destruct (Ht tid th Eth). split; [done|by apply E5].
Qed.
End Moved.

(** * The transfers *)
Section Quiesced.
Context (config : LiveConfigSnapshot) (resident : nat -> Z).
(** What adoption makes of a shard. *)
Definition adopted (rl : bool) (n d : Z) (sh : Shard) : Shard :=
  bind_notify_pending d (set_notify_mask (Z.lor (notify_events config) (Z.lor (if tracking_armed config then NOTIFY_TRACKING else 0) (if save_armed config then NOTIFY_SAVE else 0)))
    (configure_maxmemory (negb (maxmemory config =? 0)) (maxmemory config / n) (policy config) (samples config) (if rl then rebind_retire_sink d sh else sh))).
Lemma upd_shard_compose sid f g v : upd_shard sid f (upd_shard sid g v) = upd_shard sid (fun x => f (g x)) v.
Proof. unfold upd_shard. cbn. unfold set_shards. cbn. f_equal. apply list_alter_alter_eq. Qed.
Lemma upd_shard_id sid v : upd_shard sid (fun x => x) v = v.
Proof. unfold upd_shard, set_shards. destruct v. cbn. f_equal. by apply list_alter_id. Qed.
Lemma nshards_upd sid f v : nshards (upd_shard sid f v) = nshards v.
Proof. unfold nshards. cbn. by rewrite length_alter. Qed.
Lemma adopt_eq v sid d th : thread_at v d = Some th -> (read_local v = true -> retire_sink th = true) -> is_Some (notify_pending th) ->
  adopt_shard_owner_state config sid d v = Some (upd_thread d (set_notify true) (upd_shard sid (adopted (read_local v) (nshards v) d) v)).
Proof.
  intros Eth Hsink [b Hb]. unfold adopt_shard_owner_state.
  assert (adopt_read_local_retire_sink sid d v = Some (upd_shard sid (fun sh => if read_local v then rebind_retire_sink d sh else sh) v)) as ->.
  { unfold adopt_read_local_retire_sink. destruct (read_local v); cbn [negb]; [|by rewrite upd_shard_id]. by rewrite Eth, some_bind, Hsink. }
  rewrite some_bind, !upd_shard_compose, !nshards_upd. change (thread_at (upd_shard _ _ v) d) with (thread_at v d). rewrite Eth, some_bind, Hb. done.
Qed.
Lemma thread_lookup v tid : 0 <= tid < nthreads v -> is_Some (thread_at v tid).
Proof. intros H. apply lookup_lt_is_Some_2. unfold nthreads in H. lia. Qed.
Lemma swap_remove_perm i x l : l !! i = Some x -> x :: swap_remove i l ≡ₚ l.
Proof.
  intros E. unfold swap_remove. destruct (exists_last (l := l)) as (l' & y & ->); [by intros ->|]. rewrite List.last_last. apply lookup_app_Some in E as [E|[Hge E]].
  - rewrite insert_app_l by (by eapply lookup_lt_Some). rewrite removelast_last, insert_take_drop by (by eapply lookup_lt_Some). rewrite <- (take_drop_middle l' i x E) at 3.
    set (A := take i l'). set (D := drop (S i) l'). rewrite <- Permutation_cons_append, <- !Permutation_middle. apply perm_swap.
  - replace i with (length l' + 0)%nat in * by (apply lookup_lt_Some in E; cbn in E; lia). rewrite insert_app_r. cbn. rewrite removelast_last. rewrite Nat.add_sub_swap, Nat.sub_diag in E by lia. cbn in E. injection E as ->. by rewrite Permutation_cons_append.
Qed.
Lemma position_Some sid l i : position sid l = Some i -> l !! i = Some sid.
Proof. unfold position. intros H. apply fmap_Some in H as ([j x] & H & ->). apply list_find_Some in H as (H & <- & _). done. Qed.
Lemma position_In sid l : sid ∈ l -> is_Some (position sid l).
Proof. intros H. unfold position. destruct (list_find_elem_of (eq sid) l sid H eq_refl) as [[j x] ->]. by eexists. Qed.

(** Steps that touch the shards of [sids] only. *)
Definition geometry (sh sh' : Shard) : Prop := id sh' = id sh /\ bucket_begin sh' = bucket_begin sh /\ bucket_end sh' = bucket_end sh.
Definition touched (sids : list nat) (Q : Shard -> Shard -> Prop) (l l' : list Shard) : Prop :=
  length l' = length l /\ forall i sh', l' !! i = Some sh' -> exists sh, l !! i = Some sh /\ if decide (i ∈ sids) then Q sh sh' else sh' = sh.
Lemma touched_alter Q sid f l : (forall sh, Q sh (f sh)) -> touched [sid] Q l (alter f sid l).
Proof.
  intros HQ. split; [apply length_alter|]. intros i sh' E. rewrite list_lookup_alter in E. destruct (decide (sid = i)) as [->|Hne].
  - apply fmap_Some in E as (sh & -> & ->). exists sh. split; [done|]. rewrite decide_True by (by apply list_elem_of_singleton). done.
  - exists sh'. split; [done|]. rewrite decide_False; [done|]. by intros ->%list_elem_of_singleton.
Qed.
Lemma touched_trans (Q1 Q2 Q : Shard -> Shard -> Prop) sids1 sids2 l1 l2 l3 : touched sids1 Q1 l1 l2 -> touched sids2 Q2 l2 l3 ->
  (forall a b c, Q1 a b -> Q2 b c -> Q a c) -> (forall a b, Q1 a b -> Q a b) -> (forall a b, Q2 a b -> Q a b) -> touched (sids1 ++ sids2) Q l1 l3.
Proof.
  intros [L1 H1] [L2 H2] H12 H1q H2q. split; [congruence|]. intros i c Ec. destruct (H2 i c Ec) as (b & Eb & Hb). destruct (H1 i b Eb) as (a & Ea & Ha). exists a. split; [done|].
  destruct (decide (i ∈ sids1 ++ sids2)) as [Hin|Hin]; rewrite elem_of_app in Hin.
  - destruct (decide (i ∈ sids1)), (decide (i ∈ sids2)); subst; eauto; tauto.
  - rewrite decide_False in Ha by tauto. rewrite decide_False in Hb by tauto. congruence.
Qed.
Definition Qadopt (rl : bool) (d : Z) (sh sh' : Shard) : Prop := geometry sh sh' /\ (rl = true -> sink sh' = Some d) /\ pending_of sh' = Some d.
Definition Qnote (sh sh' : Shard) : Prop := geometry sh sh' /\ sink sh' = sink sh /\ pending_of sh' = pending_of sh.
Definition rest_same (v v' : Server) : Prop := fused v' = fused v /\ flip_active v' = flip_active v /\ flip_convert_ v' = flip_convert_ v /\ read_local v' = read_local v.
(** The flags of the threads may have been raised. *)
Definition notified (l l' : list Thread) : Prop := length l' = length l /\ forall tid th', l' !! tid = Some th' -> exists th, l !! tid = Some th /\
  role th' = role th /\ executor th' = executor th /\ domain th' = domain th /\ retire_sink th' = retire_sink th /\ (is_Some (notify_pending th) -> is_Some (notify_pending th')) /\ capacity th' = capacity th /\ owned th' = owned th.
Lemma notified_alter d l : notified l (alter (set_notify true) d l).
Proof.
  split; [apply length_alter|]. intros tid th' E. rewrite list_lookup_alter in E. destruct (decide (d = tid)) as [->|]; [|by exists th'].
  apply fmap_Some in E as (th & -> & ->). exists th. split_and!; try done.
Qed.
Lemma notified_trans l1 l2 l3 : notified l1 l2 -> notified l2 l3 -> notified l1 l3.
Proof.
  intros [L1 H1] [L2 H2]. split; [congruence|]. intros tid c Ec. destruct (H2 tid c Ec) as (b & Eb & ? & ? & ? & ? & ? & ? & ?). destruct (H1 tid b Eb) as (a & Ea & ? & ? & ? & ? & ? & ? & ?). exists a. split_and!; try congruence. auto.
Qed.
Definition sinks_ready (v : Server) (d : Z) : Prop := exists th, thread_at v d = Some th /\ (read_local v = true -> retire_sink th = true) /\ is_Some (notify_pending th).
Lemma adopt_all_spec sids d v : sinks_ready v d ->
  exists v', adopt_all config sids d v = Some v' /\ router_ v' = router_ v /\ shard_owner_ v' = shard_owner_ v /\ rest_same v v' /\ touched sids (Qadopt (read_local v) d) (shards_ v) (shards_ v') /\ notified (threads_ v) (threads_ v').
Proof.
  revert v. induction sids as [|sid sids IH]; intros v (th & Eth & Hsink & Hn); cbn [adopt_all].
  { exists v. split_and!; try done; (split; [done|]); [intros i sh' E; by exists sh'|intros tid th' E; by exists th']. }
  rewrite (adopt_eq v sid d th Eth Hsink Hn), some_bind. set (v1 := upd_thread _ _ _).
  destruct (IH v1) as (v' & -> & E1 & E2 & E3 & E4 & E5).
  { exists (set_notify true th). unfold thread_at in *. cbn. rewrite list_lookup_alter_eq, Eth. split_and!; [done|done|by eexists]. }
  exists v'. split; [done|]. split; [done|]. split; [done|]. split; [done|]. split.
  - apply (touched_trans (Qadopt (read_local v) d) (Qadopt (read_local v) d) (Qadopt (read_local v) d) [sid] sids _ (shards_ v1)); [|exact E4| |done|done].
    + cbn. apply touched_alter. intros sh. unfold adopted. destruct (read_local v); by split_and!.
    + intros a b c [(Ha1 & Ha2 & Ha3) _] [(Hb1 & Hb2 & Hb3) Hb4]. split; [split_and!; congruence|done].
  - eapply notified_trans; [|exact E5]. cbn. apply notified_alter.
Qed.
Lemma notes_spec dom sids v : let v' := foldl (fun v sid => upd_shard sid (note_migration (resident sid) dom) v) v sids in
  router_ v' = router_ v /\ shard_owner_ v' = shard_owner_ v /\ threads_ v' = threads_ v /\ rest_same v v' /\ touched sids Qnote (shards_ v) (shards_ v').
Proof.
  revert v. induction sids as [|sid sids IH]; intros v; cbn [foldl]; [split_and!; try done; split; [done|]; intros i sh' E; by exists sh'|].
  destruct (IH (upd_shard sid (note_migration (resident sid) dom) v)) as (E1 & E2 & E3 & E4 & E5). split; [done|]. split; [done|]. split; [done|]. split; [done|].
  apply (touched_trans Qnote Qnote Qnote [sid] sids _ (shards_ (upd_shard sid (note_migration (resident sid) dom) v))); [|exact E5| |done|done].
  - cbn. apply touched_alter. intros sh. unfold note_migration. destruct (negb _); by split_and!.
  - intros a b c ((Ha1 & Ha2 & Ha3) & Ha4 & Ha5) ((Hb1 & Hb2 & Hb3) & Hb4 & Hb5). split; [split_and!; congruence|split; congruence].
Qed.

Lemma store_owners_spec sids d v : (forall i, i ∈ sids -> exists sh, shards_ v !! i = Some sh /\ id sh = Z.of_nat i) ->
  length (store_owners sids d v) = length (shard_owner_ v) /\ forall i, (i < length (shard_owner_ v))%nat -> store_owners sids d v !! i = if decide (i ∈ sids) then Some d else shard_owner_ v !! i.
Proof.
  unfold store_owners. generalize (shard_owner_ v) as l. induction sids as [|sid sids IH]; intros l H; cbn [foldl].
  { split; [done|]. intros i _. rewrite decide_False; [done|]. by intros ?%elem_of_nil. }
  destruct (H sid) as (sh & -> & Eid); [by left|]. rewrite Eid, Nat2Z.id. destruct (IH (<[sid := d]> l)) as [Hl Hi]; [intros i Hi; apply H; by right|]. rewrite length_insert in *. split; [done|]. intros i Hlt. rewrite (Hi i Hlt).
  destruct (decide (i ∈ sids)); [rewrite decide_True; [done|by right]|]. destruct (decide (i = sid)) as [->|Hne]; [rewrite list_lookup_insert_eq, decide_True by (done || by left); done|].
  rewrite list_lookup_insert_ne, decide_False; [done| |done]. intros [?|?]%elem_of_cons; done.
Qed.
(** The owner entries after a transfer of [b, e). *)
Lemma entries_set_range r r' b e d x : (unpack_owner <$> owner_ r') = set_range b e d (unpack_owner <$> owner_ r) -> base (unpack_shard <$> owner_ r) r -> 0 <= x < kNumBuckets ->
  owner_of_bucket r' x = if decide (b <= x < e) then Some d else owner_of_bucket r x.
Proof.
  intros E Hb Hx. unfold owner_of_bucket. rewrite <- !list_lookup_fmap, E, lookup_set_range. destruct (lookup_lt_is_Some_2 (unpack_owner <$> owner_ r) (Z.to_nat x)) as [o Eo].
  { rewrite length_fmap, (ba_length _ _ Hb). lia. }
  assert (in_range b e (Z.to_nat x) <-> b <= x < e) as Hiff by (unfold in_range; lia). rewrite Eo. cbn. destruct (decide (in_range b e (Z.to_nat x))), (decide (b <= x < e)); tauto.
Qed.
Section Complete.
Context (v : Server) (sids : list nat) (b e s d : Z) (cap : nat) (rem : list nat -> list nat) (from to : Thread).
Context (Hi : own_inv v) (Hready : sinks_ready v d) (Hsd : s <> d) (Hs : 0 <= s < nthreads v) (Hd : 0 <= d < nthreads v) (Hr : range_ok b e s d).
Context (Hcover : forall i x, (i < length (shards_ v))%nat -> shard_begin (nshards v) (Z.of_nat i) <= x < shard_end (nshards v) (Z.of_nat i) -> (b <= x < e <-> i ∈ sids)).
Context (Hsids : forall i, i ∈ sids -> (i < length (shards_ v))%nat).
Context (Hfrom : thread_at v s = Some from) (Hto : thread_at v d = Some to) (Hrem : rem (owned from) ≡ₚ filter (fun i => i ∉ sids) (owned from)).
Context (Hcap : (capacity to <= cap)%nat /\ (length (owned to) + length sids <= cap)%nat).
Definition begun : Server :=
  let v := upd_thread d (set_capacity cap) v in
  let v := set_router (set_phase (set_transfer (set_writer (router_ v) true) b e s d) Preparing) v in
  upd_thread s (fun t => set_owned (rem (owned t)) t) (upd_thread d (fun t => set_owned (owned t ++ sids) t) v).
Lemma begun_threads tid th' : threads_ begun !! tid = Some th' -> exists th, threads_ v !! tid = Some th /\
  role th' = role th /\ executor th' = executor th /\ domain th' = domain th /\ retire_sink th' = retire_sink th /\ notify_pending th' = notify_pending th /\ (capacity th <= capacity th')%nat /\
  if decide (Z.of_nat tid = d) then owned th' = owned th ++ sids /\ (length (owned th') <= capacity th')%nat
  else if decide (Z.of_nat tid = s) then owned th' ≡ₚ filter (fun i => i ∉ sids) (owned th) else owned th' = owned th.
Proof.
  unfold begun, thread_at in *. cbn. assert (Z.to_nat d <> Z.to_nat s) as Hds by lia. intros E. destruct (decide (tid = Z.to_nat s)) as [->|Hns]; [|destruct (decide (tid = Z.to_nat d)) as [->|Hnd]].
  - rewrite list_lookup_alter_eq, !list_lookup_alter_ne, Hfrom in E by done. injection E as <-. exists from. cbn. rewrite (decide_False (P := Z.of_nat (Z.to_nat s) = d)), decide_True by lia. by split_and!.
  - rewrite list_lookup_alter_ne, !list_lookup_alter_eq, Hto in E by done. injection E as <-. exists to. cbn. rewrite decide_True by lia. rewrite length_app. split_and!; (done || lia).
  - rewrite !list_lookup_alter_ne in E by done. exists th'. rewrite (decide_False (P := Z.of_nat tid = d)), (decide_False (P := Z.of_nat tid = s)) by lia. by split_and!.
Qed.
Lemma begun_ready : sinks_ready begun d.
Proof.
  destruct Hready as (th & Eth & H1 & H2). unfold sinks_ready, begun, thread_at in *. cbn. rewrite list_lookup_alter_ne by lia. rewrite !list_lookup_alter_eq, Eth. cbn. eexists. split; [done|]. by cbn.
Qed.
(** From the begin on: the transfer completes and moves exactly the shards of the range. *)
Lemma transfer_completes dom : exists v4 r2 r3, adopt_all config sids d begun = Some v4 /\ commit_transfer (router_ v4) = Some r2 /\
  (forall i, i ∈ sids -> exists sh, shards_ v4 !! i = Some sh /\ id sh = Z.of_nat i) /\
  let v5 := set_shard_owner (store_owners sids d (set_router r2 v4)) (set_router r2 v4) in
  finish_transfer (router_ v5) = Some r3 /\ moved sids s d v (foldl (fun v sid => upd_shard sid (note_migration (resident sid) dom) v) (set_router r3 v5) sids).
Proof.
  destruct (adopt_all_spec sids d begun begun_ready) as (v4 & E4 & Hr4 & Ho4 & Hrest4 & Hsh4 & Hth4). destruct (oi_router v Hi) as (Hba & Hidle & Hw).
  destruct (transfer_spec (uniform_shards (nshards v)) b e s d (router_ v) Hba Hidle Hw Hr) as (r2 & r3 & Ec & Ef & Hba3 & Hp3 & Hw3 & _ & Hown3).
  exists v4, r2, r3. split; [done|]. rewrite Hr4. split; [exact Ec|]. cbn zeta.
  assert (forall i, i ∈ sids -> exists sh, shards_ v4 !! i = Some sh /\ id sh = Z.of_nat i) as Hids4.
  { intros i Hin. destruct Hsh4 as [L4 H4]. destruct (lookup_lt_is_Some_2 (shards_ v4) i) as [sh' Esh']; [rewrite L4; by apply Hsids|]. destruct (H4 i sh' Esh') as (sh & Esh & Hq).
    rewrite decide_True in Hq by done. destruct Hq as ((Eid & _) & _). exists sh'. split; [done|]. rewrite Eid. by apply (oi_shards v Hi). }
  split; [done|]. split; [exact Ef|]. destruct (store_owners_spec sids d (set_router r2 v4) Hids4) as [Hsl Hsl'].
  destruct (notes_spec dom sids (set_router r3 (set_shard_owner (store_owners sids d (set_router r2 v4)) (set_router r2 v4)))) as (N1 & N2 & N3 & N4 & N5). set (w := foldl _ _ _) in *. clearbody w. cbn in N1, N2, N3.
  split.
  - by rewrite N1.
  - intros i x Hlt Hx. rewrite N1. pose proof (shard_range_ok (nshards v) ltac:(apply (oi_count v Hi)) (Z.of_nat i) ltac:(unfold nshards; lia)) as Hrg.
    rewrite (entries_set_range (router_ v) r3 b e d x Hown3); [|destruct Hba; by split|lia]. pose proof (Hcover i x Hlt Hx) as Hc. destruct (decide (b <= x < e)), (decide (i ∈ sids)); tauto.
  - rewrite N2. cbn in Hsl, Hsl'. rewrite Hsl, Ho4. split; [done|]. intros i Hlt. rewrite Hsl'; [by rewrite Ho4|]. rewrite Ho4. cbn. by rewrite (oi_length v Hi).
  - assert (touched sids (Qadopt (read_local v) d) (shards_ v) (shards_ w)) as [L H].
    { destruct Hsh4 as [L4 H4], N5 as [L5 H5]. split; [by rewrite L5|]. intros i c Ec'. destruct (H5 i c Ec') as (sh1 & E1 & Q1). destruct (H4 i sh1 E1) as (sh0 & E0 & Q0). exists sh0. split; [done|].
      destruct (decide (i ∈ sids)); [|congruence]. destruct Q0 as ((A1 & A2 & A3) & A4 & A5), Q1 as ((B1 & B2 & B3) & B4 & B5). split; [split_and!; congruence|]. rewrite B4, B5. done. }
    split; [done|]. intros i sh' E. destruct (H i sh' E) as (sh & Esh & Hq). exists sh. split; [done|]. destruct (decide (i ∈ sids)); [destruct Hq as ((? & ? & ?) & ? & ?); by split_and!|by subst].
  - rewrite N3. cbn. destruct Hth4 as [L H]. split; [rewrite L; cbn; by rewrite !length_alter|]. intros tid th' E. destruct (H tid th' E) as (th1 & E1 & ? & ? & ? & ? & Hn1 & Ecap & Eow).
    destruct (begun_threads tid th1 E1) as (th & Eth & ? & ? & ? & ? & Hn & Hcp & Ho). exists th. rewrite Eow, Ecap. split_and!; try congruence; try done. intros Hsome. apply Hn1. by rewrite Hn.
  - destruct N4 as (? & ? & ? & ?), Hrest4 as (? & ? & ? & ?). split_and!; cbn in *; congruence.
Qed.
End Complete.

Definition moved_ok (sids : list nat) (s d : Z) (v v' : Server) : Prop :=
  moved sids s d v v' /\ NoDup sids /\ s <> d /\ 0 <= d < nthreads v /\ forall i, i ∈ sids -> shard_owner_ v !! i = Some s.
Lemma moved_ok_inv sids s d v v' : moved_ok sids s d v v' -> own_inv v -> bound v -> own_inv v' /\ bound v'.
Proof. intros (Hm & Hnd & Hsd & Hd & Ho) Hi Hb. split; [by apply (moved_own_inv sids s d v)|by apply (moved_bound sids s d v)]. Qed.
Lemma range_unique n i j x : 1 <= n <= 256 -> 0 <= i < n -> 0 <= j < n -> shard_begin n i <= x < shard_end n i -> (shard_begin n j <= x < shard_end n j <-> i = j).
Proof.
  intros Hn Hi Hj Hx. destruct (shard_range_ok n Hn i Hi) as [Hr1 Hr2]. pose proof (uniform_shard_owns n Hn x i ltac:(lia) Hi) as H1. pose proof (uniform_shard_owns n Hn x j ltac:(lia) Hj) as H2.
  unfold owns in *. rewrite (proj2 (Z.leb_le _ _)), (proj2 (Z.ltb_lt _ _)) in H1 by lia. cbn in H1. symmetry in H1. apply Z.eqb_eq in H1. split.
  - intros Hx'. rewrite (proj2 (Z.leb_le _ _)), (proj2 (Z.ltb_lt _ _)) in H2 by lia. cbn in H2. symmetry in H2. apply Z.eqb_eq in H2. congruence.
  - intros ->. done.
Qed.
Lemma bound_ready v d : bound v -> 0 <= d < nthreads v -> sinks_ready v d.
Proof. intros [_ Ht] Hd. destruct (thread_lookup v d Hd) as [th E]. exists th. split; [done|]. apply (Ht _ _ E). Qed.
Lemma range_owned v b e s : own_inv v -> 0 <= b -> e <= kNumBuckets -> (forall x, b <= x < e -> owner_of_bucket (router_ v) x = Some s) -> all_at b e s (unpack_owner <$> owner_ (router_ v)).
Proof.
  intros Hi Hb He H k x E Hk. unfold in_range in Hk. specialize (H (Z.of_nat k) Hk). unfold owner_of_bucket in H. rewrite <- list_lookup_fmap, Nat2Z.id, E in H. congruence.
Qed.
Lemma same_capacity v d to : thread_at v d = Some to -> upd_thread d (set_capacity (capacity to)) v = v.
Proof.
  unfold upd_thread, set_threads, thread_at. intros E. destruct v. cbn in *. f_equal. apply list_eq. intros i. rewrite list_lookup_alter. destruct (decide (Z.to_nat d = i)) as [<-|]; [|done]. rewrite E. by destruct to.
Qed.
Definition may_receive (v : Server) (d : Z) : bool := live_executor v d || (flip_active v && bool_decide (flip_final_role v d = RoleEx)).
Lemma transfer_shard_spec shard_id s d v : own_inv v -> bound v -> 0 <= s -> 0 <= d ->
  exists ok v', transfer_shard_quiesced config resident shard_id s d v = Some (ok, v') /\ (if ok : bool then moved_ok [Z.to_nat shard_id] s d v v' else v' = v) /\
    (forall to, 0 <= shard_id < nshards v -> s < nthreads v -> d < nthreads v -> s <> d -> live_executor v s = true -> may_receive v d = true -> shard_owner_ v !! Z.to_nat shard_id = Some s ->
      thread_at v d = Some to -> (length (owned to) < capacity to)%nat -> ok = true).
Proof.
  intros Hi Hb Hs Hd. unfold transfer_shard_quiesced. destruct (oi_count v Hi) as [Hn Hnt].
  destruct (Z.ltb_spec shard_id 0); cbn [orb]; [exists false, v; split_and!; [done..|lia]|]. destruct (Z.leb_spec (nshards v) shard_id); [exists false, v; split_and!; [done..|lia]|].
  destruct (lookup_lt_is_Some_2 (shards_ v) (Z.to_nat shard_id)) as [sh Esh]; [unfold nshards in *; lia|]. rewrite Esh, some_bind.
  destruct (Z.leb_spec (nthreads v) s); cbn [orb]; [exists false, v; split_and!; [done..|lia]|]. destruct (Z.leb_spec (nthreads v) d); cbn [orb]; [exists false, v; split_and!; [done..|lia]|].
  destruct (Z.eqb_spec s d); cbn [orb]; [exists false, v; by split_and!|]. destruct (live_executor v s) eqn:Els; cbn [negb orb]; [|exists false, v; by split_and!].
  destruct (negb (live_executor v d) && _) eqn:Erecv; [exists false, v; split_and!; [done..|]; intros; unfold may_receive in *; destruct (live_executor v d), (flip_active v && _); done|].
  destruct (lookup_lt_is_Some_2 (shard_owner_ v) (Z.to_nat shard_id)) as [w Ew]; [rewrite (oi_length v Hi); unfold nshards in *; lia|]. unfold worker_of_shard. rewrite Ew, some_bind.
  destruct (Z.eqb_spec w s) as [->|]; cbn [negb]; [|exists false, v; split_and!; [done..|congruence]].
  destruct (thread_lookup v s ltac:(lia)) as [from Efrom], (thread_lookup v d ltac:(lia)) as [to Eto]. rewrite Efrom, Eto, !some_bind. destruct (oi_owned v Hi _ _ Efrom) as (Hnd1 & _ & Hin1), (oi_owned v Hi _ _ Eto) as (Hnd2 & Hcap2 & Hin2).
  rewrite Z2Nat.id in Hin1, Hin2 by lia. destruct (position_In (Z.to_nat shard_id) (owned from)) as [found Ef]; [by apply Hin1|]. rewrite Ef.
  rewrite (bool_decide_false (Z.to_nat shard_id ∈ owned to)) by (rewrite Hin2; congruence). cbn [orb]. destruct (Nat.eqb_spec (length (owned to)) (capacity to)); [exists false, v; split_and!; [done..|]; intros; simplify_eq; lia|].
  destruct (oi_shards v Hi _ _ Esh) as (Eid & Ebb & Ebe). rewrite Z2Nat.id in Eid, Ebb, Ebe by lia. destruct (shard_range_ok (nshards v) Hn shard_id ltac:(lia)) as [Hr1 Hr2]. destruct (oi_router v Hi) as (Hba & Hidle & Hw).
  assert (range_ok (bucket_begin sh) (bucket_end sh) s d) as Hrange by (rewrite Ebb, Ebe; unfold range_ok, kNoOwner in *; lia).
  destruct (begin_transfer_spec _ (bucket_begin sh) (bucket_end sh) s d (router_ v) Hba ltac:(lia) Hs Hd Hidle Hw) as (ok & r1 & Eb & Hok & Hr). rewrite Eb, some_bind.
  assert (ok = true) as ->. { apply Hok. split; [unfold bad_range; rewrite !orb_false_iff; unfold range_ok in Hrange; zcmp; lia|]. apply range_owned; [done|lia|lia|]. intros x Hx. apply (oi_entries v Hi _ _ x Ew). rewrite Z2Nat.id by lia. lia. }
  cbn [negb]. subst r1. destruct (transfer_completes v [Z.to_nat shard_id] (bucket_begin sh) (bucket_end sh) s d (capacity to) (swap_remove found) from to) with (dom := domain to) as (v4 & r2 & r3 & E4 & E2 & Hids & E3 & Hm); try done; try lia.
  - by apply bound_ready; [|lia].
  - intros i x Hlt Hx. rewrite Ebb, Ebe, list_elem_of_singleton. rewrite (range_unique (nshards v) (Z.of_nat i) shard_id x); unfold nshards in *; lia.
  - intros i ->%list_elem_of_singleton. unfold nshards in *. lia.
  - pose proof (swap_remove_perm found _ _ (position_Some _ _ _ Ef)) as Hperm. rewrite <- Hperm at 2. rewrite filter_cons_False by (intros Hc; apply Hc; by apply list_elem_of_singleton).
    rewrite filter_all; [done|]. apply Forall_forall. intros i Hin ->%list_elem_of_singleton. assert (NoDup (Z.to_nat shard_id :: swap_remove found (owned from))) as Hnd by (by rewrite Hperm). by apply NoDup_cons in Hnd as [? _].
  - cbn. lia.
  - unfold begun in E4. rewrite (same_capacity v d to Eto) in E4. cbn [adopt_all] in E4.
    destruct (adopt_shard_owner_state _ _ _ _) as [w4|]; [|done]. cbn in E4. injection E4 as ->. rewrite some_bind, E2, some_bind. cbn [router_ set_router set_shard_owner] in *. rewrite E3, some_bind.
    eexists true, _. split; [done|]. split; [|done]. split_and!; try done; try lia.
    + destruct (Hids (Z.to_nat shard_id)) as (sh4 & Esh4 & Eid4); [by apply list_elem_of_singleton|]. unfold store_owners in Hm. cbn [foldl shards_ set_router shard_owner_] in Hm. by rewrite Esh4, Eid4, Nat2Z.id in Hm.
    + by apply NoDup_singleton.
    + by intros i ->%list_elem_of_singleton.
Qed.

(** * Ranges of whole shards *)
Definition meets (v : Server) (b e : Z) (i : nat) : Prop := b < shard_end (nshards v) (Z.of_nat i) /\ shard_begin (nshards v) (Z.of_nat i) < e.
Lemma moving_loop_spec v b e s sids cursor : own_inv v -> (forall i, i ∈ sids -> (i < length (shards_ v))%nat) -> NoDup sids ->
  exists res, moving_loop v b e s sids cursor = Some res /\
    forall m c, res = Some (m, c) -> NoDup m /\ (forall i, i ∈ m <-> i ∈ sids /\ meets v b e i) /\
      forall i, i ∈ m -> cursor <= shard_begin (nshards v) (Z.of_nat i) /\ shard_end (nshards v) (Z.of_nat i) <= e /\ shard_owner_ v !! i = Some s.
Proof.
  intros Hi. revert cursor. induction sids as [|sid sids IH]; intros cursor Hin Hnd; cbn [moving_loop].
  { eexists. split; [done|]. intros m c [= <- <-]. split_and!; [constructor|intros i; split; [by intros ?%elem_of_nil|by intros [?%elem_of_nil _]]|by intros i ?%elem_of_nil]. }
  apply NoDup_cons in Hnd as [Hns Hnd]. assert (sid < length (shards_ v))%nat as Hlt by (apply Hin; by left). destruct (lookup_lt_is_Some_2 _ _ Hlt) as [sh Esh]. rewrite Esh, some_bind.
  destruct (oi_shards v Hi _ _ Esh) as (Eid & Eb & Ee). pose proof (shard_range_ok (nshards v) (proj1 (oi_count v Hi)) (Z.of_nat sid) ltac:(unfold nshards; lia)) as Hrg.
  destruct ((bucket_end sh <=? b) || (e <=? bucket_begin sh)) eqn:Emiss.
  - assert (~ meets v b e sid) as Hmiss by (unfold meets; rewrite <- Eb, <- Ee; apply orb_true_iff in Emiss; zcmp; lia).
    destruct (IH cursor) as (res & -> & Hres); [intros i Hi'; apply Hin; by right|done|]. exists res. split; [done|]. intros m c Em. destruct (Hres m c Em) as (H1 & H2 & H3). split_and!; [done| |done].
    intros i. rewrite H2, elem_of_cons. split; [tauto|intros [[->|?] ?]; tauto].
  - assert (meets v b e sid) as Hmeet by (unfold meets; rewrite <- Eb, <- Ee; apply orb_false_iff in Emiss as [? ?]; zcmp; lia).
    destruct (lookup_lt_is_Some_2 (shard_owner_ v) sid) as [w Ew]; [by rewrite (oi_length v Hi)|]. unfold worker_of_shard. rewrite Eid, Nat2Z.id, Ew, some_bind.
    destruct (negb (bucket_begin sh =? cursor) || _ || _) eqn:Ebad; [by exists None|]. rewrite !orb_false_iff, !negb_false_iff in Ebad. destruct Ebad as [[Ec Eend] Eow]. zcmp. subst w.
    destruct (IH (bucket_end sh)) as (res & -> & Hres); [intros i Hi'; apply Hin; by right|done|]. rewrite some_bind. eexists. split; [done|]. intros m c Em. destruct res as [[m' c']|]; [|done]. injection Em as <- <-.
    destruct (Hres m' c' eq_refl) as (H1 & H2 & H3). split_and!.
    + apply NoDup_cons. split; [rewrite H2; tauto|done].
    + intros i. rewrite !elem_of_cons, H2. split; [intros [->|[? ?]]; tauto|intros [[->|?] ?]; tauto].
    + intros i [->|Hm']%elem_of_cons; [split_and!; (lia || done)|]. destruct (H3 i Hm') as (? & ? & ?). split_and!; (lia || done).
Qed.
Lemma shard_of_bucket_meets v b e x : own_inv v -> 0 <= b -> e <= kNumBuckets -> b <= x < e -> exists i, (i < length (shards_ v))%nat /\ shard_begin (nshards v) (Z.of_nat i) <= x < shard_end (nshards v) (Z.of_nat i) /\ meets v b e i.
Proof.
  intros Hi Hb He Hx. destruct (oi_count v Hi) as [Hn _]. pose proof (uniform_shard_range (nshards v) Hn x ltac:(lia)) as Hr. pose proof (uniform_shard_owns (nshards v) Hn x (uniform_shard (nshards v) x) ltac:(lia) Hr) as Ho.
  rewrite Z.eqb_refl in Ho. unfold owns in Ho. apply andb_prop in Ho as [H1 H2]. exists (Z.to_nat (uniform_shard (nshards v) x)). unfold meets, nshards in *. rewrite !Z2Nat.id by lia. zcmp. lia.
Qed.
Lemma transfer_range_spec oom1 oom2 b e s d v : own_inv v -> bound v -> 0 <= b -> 0 <= s -> 0 <= d ->
  exists ok v', transfer_bucket_range_quiesced config resident oom1 oom2 b e s d v = Some (ok, v') /\
    if ok : bool then exists sids, moved_ok sids s d v v' /\ forall i x, (i < length (shards_ v))%nat -> shard_begin (nshards v) (Z.of_nat i) <= x < shard_end (nshards v) (Z.of_nat i) -> (b <= x < e <-> i ∈ sids)
    else v' = v.
Proof.
  intros Hi Hb H0 Hs Hd. unfold transfer_bucket_range_quiesced. destruct (oi_count v Hi) as [Hn Hnt].
  destruct (_ || _ || _ || _ || _) eqn:Eguard; [by exists false, v|]. rewrite !orb_false_iff in Eguard. destruct Eguard as [[[[G1 G2] G3] G4] G5]. zcmp.
  destruct (negb (live_executor v s) || _); [by exists false, v|]. destruct oom1; [by exists false, v|].
  destruct (moving_loop_spec v b e s (seq 0 (length (shards_ v))) b Hi) as (res & -> & Hres); [intros i [_ ?]%elem_of_seq; lia|apply NoDup_seq|]. rewrite some_bind. destruct res as [[moving cursor]|]; [|by exists false, v].
  destruct (Hres _ _ eq_refl) as (Hnd & Hmeet & Hmv). destruct (bool_decide (moving = []) || _); [by exists false, v|].
  destruct (thread_lookup v s ltac:(lia)) as [from Efrom], (thread_lookup v d ltac:(lia)) as [to Eto]. rewrite Efrom, Eto, !some_bind. destruct (negb (forallb _ moving)); [by exists false, v|]. destruct oom2; [by exists false, v|].
  assert (forall i x, (i < length (shards_ v))%nat -> shard_begin (nshards v) (Z.of_nat i) <= x < shard_end (nshards v) (Z.of_nat i) -> (b <= x < e <-> i ∈ moving)) as Hcover.
  { intros i x Hlt Hx. rewrite Hmeet. split; [intros Hxe; split; [apply elem_of_seq; lia|unfold meets; lia]|]. intros Hin. apply Hmeet in Hin. destruct (Hmv i Hin) as (? & ? & _). lia. }
  destruct (oi_router v Hi) as (Hba & Hidle & Hw). change (router_ (upd_thread d _ v)) with (router_ v).
  destruct (begin_transfer_spec _ b e s d (router_ v) Hba H0 Hs Hd Hidle Hw) as (ok & r1 & Eb & Hok & Hr). rewrite Eb, some_bind.
  assert (ok = true) as ->. { apply Hok. split; [unfold bad_range; rewrite !orb_false_iff; unfold kNoOwner in *; zcmp; lia|]. apply range_owned; [done|lia|lia|]. intros x Hx. destruct (shard_of_bucket_meets v b e x Hi H0 ltac:(lia) Hx) as (i & Hlt & Hxi & _).
    apply (oi_entries v Hi i); [|done]. by apply (Hmv i), (Hcover i x). }
  cbn [negb]. subst r1. set (cap := max (capacity to) (length (owned to) + length moving)).
  destruct (transfer_completes v moving b e s d cap (filter (fun sid => sid ∉ moving)) from to) with (dom := domain to) as (v4 & r2 & r3 & E4 & E2 & _ & E3 & Hm); try done; try lia.
  - by apply bound_ready; [|lia].
  - unfold range_ok, kNoOwner in *. lia.
  - intros i [Hin _]%Hmeet. apply elem_of_seq in Hin. lia.
  - unfold begun in E4. change (router_ (upd_thread d _ v)) with (router_ v) in E4. replace (upd_thread d (fun t => set_capacity (max (capacity t) (length (owned t) + length moving)) t) v) with (upd_thread d (set_capacity cap) v).
    2:{ unfold upd_thread. f_equal. apply list_alter_ext; [|done]. intros th Eth. unfold thread_at in Eto. rewrite Eto in Eth. by injection Eth as <-. }
    rewrite E4, some_bind, E2, some_bind. cbn [router_ set_router set_shard_owner] in *. rewrite E3, some_bind. eexists true, _. split; [done|]. exists moving. split; [|exact Hcover].
    split; [exact Hm|]. split_and!; [done|lia|lia|lia|]. intros i Hin. apply (Hmv i Hin).
Qed.
End Quiesced.

(** * The ownership audit *)
(** [flip_shard_ownership_conserved]; [None] inside the loops is [return false]. *)
Definition route_ok (v : Server) (sh : Shard) (tid : Z) : bool :=
  forallb (fun b => (shard_of_bucket (router_ v) b =? id sh) && bool_decide (owner_of_bucket (router_ v) b = Some tid)) (seqZ (bucket_begin sh) (bucket_end sh - bucket_begin sh)).
Fixpoint audit_thread (v : Server) (tid : Z) (l : list nat) (seen : list Z) : option (list Z) :=
  match l with
  | [] => Some seen
  | sid :: l =>
      sh ← shards_ v !! sid;
      if (id sh <? 0) || (nshards v <=? id sh) || negb (Z.to_nat (id sh) =? sid)%nat then None
      else
        count ← seen !! Z.to_nat (id sh);
        if negb (count =? 0) then None
        else
          let seen := <[Z.to_nat (id sh) := u8 (count + 1)]> seen in
          w ← worker_of_shard v (Z.to_nat (id sh));
          if negb (w =? tid) then None else if route_ok v sh tid then audit_thread v tid l seen else None
  end.
Fixpoint audit_threads (v : Server) (tid : Z) (ths : list Thread) (seen : list Z) : option (list Z) :=
  match ths with
  | [] => Some seen
  | th :: ths =>
      if negb (bool_decide (role th = RoleEx)) && negb (bool_decide (owned th = [])) then None
      else seen ← audit_thread v tid (owned th) seen; audit_threads v (tid + 1) ths seen
  end.
Definition flip_shard_ownership_conserved (v : Server) : bool :=
  if (256 <? nshards v) || negb (bool_decide (phase_ (router_ v) = Idle)) then false
  else
    match audit_threads v 0 (threads_ v) (replicate 256 0) with
    | None => false
    | Some seen => forallb (fun c => c =? 1) (take (length (shards_ v)) seen)
    end.
Section Audit.
Context (v : Server) (Hi : own_inv v).
Lemma route_ok_true sid sh tid : shards_ v !! sid = Some sh -> shard_owner_ v !! sid = Some tid -> route_ok v sh tid = true.
Proof.
  intros Esh Eo. destruct (oi_shards v Hi _ _ Esh) as (Eid & Eb & Ee). pose proof (lookup_lt_Some _ _ _ Esh) as Hlt. destruct (oi_count v Hi) as [Hn _].
  pose proof (shard_range_ok (nshards v) Hn (Z.of_nat sid) ltac:(unfold nshards; lia)) as Hr. unfold route_ok. apply forallb_forall. intros b Hb. apply list_elem_of_In, elem_of_seqZ in Hb. apply andb_true_intro. split.
  - apply Z.eqb_eq. rewrite Eid. unfold shard_of_bucket. rewrite (proj2 (Z.ltb_lt _ _)) by lia. rewrite <- list_lookup_fmap, (ba_shards _ _ (proj1 (oi_router v Hi))), uniform_shards_lookup by lia. cbn.
    pose proof (uniform_shard_owns (nshards v) Hn b (Z.of_nat sid) ltac:(lia) ltac:(unfold nshards; lia)) as Ho. unfold owns in Ho. rewrite (proj2 (Z.leb_le _ _)), (proj2 (Z.ltb_lt _ _)) in Ho by lia. cbn in Ho. symmetry in Ho. apply Z.eqb_eq in Ho. done.
  - apply bool_decide_eq_true. apply (oi_entries v Hi sid); [done|lia].
Qed.
Lemma audit_thread_ok tid l seen : NoDup l -> (forall i, i ∈ l -> shard_owner_ v !! i = Some tid /\ seen !! i = Some 0) ->
  exists seen', audit_thread v tid l seen = Some seen' /\ forall i, seen' !! i = if decide (i ∈ l) then Some 1 else seen !! i.
Proof.
  revert seen. induction l as [|sid l IH]; intros seen Hnd H; cbn [audit_thread].
  { exists seen. split; [done|]. intros i. rewrite decide_False; [done|]. by intros ?%elem_of_nil. }
  apply NoDup_cons in Hnd as [Hns Hnd]. destruct (H sid) as [Eo Es]; [by left|]. destruct (lookup_lt_is_Some_2 (shards_ v) sid) as [sh Esh]; [rewrite <- (oi_length v Hi); by eapply lookup_lt_Some|]. rewrite Esh, some_bind.
  destruct (oi_shards v Hi _ _ Esh) as (Eid & _). pose proof (lookup_lt_Some _ _ _ Esh). rewrite Eid, Nat2Z.id, (proj2 (Z.ltb_ge _ _)), (proj2 (Z.leb_gt _ _)), Nat.eqb_refl by (unfold nshards; lia). cbn [orb negb].
  rewrite Es, some_bind. cbn [Z.eqb negb]. unfold worker_of_shard. rewrite Eo, some_bind, Z.eqb_refl. cbn [negb]. rewrite (route_ok_true sid sh tid Esh Eo). change (u8 (0 + 1)) with 1.
  destruct (IH (<[sid := 1]> seen) Hnd) as (seen' & -> & Hs).
  { intros i Hil. destruct (H i) as [H1 H2]; [by right|]. split; [done|]. rewrite list_lookup_insert_ne; [done|]. by intros ->. }
  exists seen'. split; [done|]. intros i. rewrite Hs. destruct (decide (i ∈ l)); [rewrite decide_True; [done|by right]|]. destruct (decide (i = sid)) as [->|Hne].
  - rewrite list_lookup_insert_eq, decide_True; [done|by left|by eapply lookup_lt_Some].
  - rewrite list_lookup_insert_ne, decide_False; [done| |done]. intros [?|?]%elem_of_cons; done.
Qed.
Lemma audit_threads_ok ths k seen : (forall j, ths !! j = threads_ v !! (k + j)%nat) -> (forall th, th ∈ ths -> role th = RoleEx \/ owned th = []) ->
  (forall i t, shard_owner_ v !! i = Some t -> seen !! i = Some (if t <? Z.of_nat k then 1 else 0)) ->
  exists seen', audit_threads v (Z.of_nat k) ths seen = Some seen' /\ forall i t, shard_owner_ v !! i = Some t -> seen' !! i = Some (if t <? Z.of_nat (k + length ths) then 1 else 0).
Proof.
  revert k seen. induction ths as [|th ths IH]; intros k seen Hths Hrole Hseen; cbn [audit_threads]; [exists seen; split; [done|]; by rewrite Nat.add_0_r|].
  pose proof (Hths 0%nat) as Eth. rewrite Nat.add_0_r in Eth. symmetry in Eth. cbn in Eth. destruct (oi_owned v Hi _ _ Eth) as (Hnd & _ & Hin).
  assert (negb (bool_decide (role th = RoleEx)) && negb (bool_decide (owned th = [])) = false) as ->.
  { destruct (Hrole th) as [->| ->]; [by left|by rewrite bool_decide_true|]. rewrite (bool_decide_true ([] = [])) by done. apply andb_false_r. }
  destruct (audit_thread_ok (Z.of_nat k) (owned th) seen Hnd) as (s1 & -> & Hs1).
  { intros i Hio. apply Hin in Hio. split; [done|]. rewrite (Hseen i _ Hio). by rewrite Z.ltb_irrefl. }
  rewrite some_bind. replace (Z.of_nat k + 1) with (Z.of_nat (S k)) by lia. destruct (IH (S k) s1) as (s2 & -> & Hs2).
  - intros j. pose proof (Hths (S j)) as E. change ((th :: ths) !! S j) with (ths !! j) in E. rewrite E. f_equal. lia.
  - intros th' Ht. apply Hrole. by right.
  - intros i t Et. rewrite Hs1. destruct (decide (i ∈ owned th)) as [Hio|Hio]; rewrite Hin, Et in Hio.
    + injection Hio as ->. by rewrite (proj2 (Z.ltb_lt _ _)) by lia.
    + rewrite (Hseen i t Et). assert (t <> Z.of_nat k) by congruence. destruct (Z.ltb_spec t (Z.of_nat k)), (Z.ltb_spec t (Z.of_nat (S k))); (done || lia).
  - exists s2. split; [done|]. intros i t Et. rewrite (Hs2 i t Et). cbn [length]. by replace (S k + length ths)%nat with (k + S (length ths))%nat by lia.
Qed.
Lemma audit_passes : (forall th, th ∈ threads_ v -> role th = RoleEx \/ owned th = []) -> flip_shard_ownership_conserved v = true.
Proof.
  intros Hrole. unfold flip_shard_ownership_conserved. destruct (oi_count v Hi) as [Hn _], (oi_router v Hi) as (_ & Hp & _).
  rewrite (proj2 (Z.ltb_ge _ _)), bool_decide_true by (done || lia). cbn [orb negb]. change 0 with (Z.of_nat 0) at 1. destruct (audit_threads_ok (threads_ v) 0 (replicate 256 0)) as (seen & -> & Hs); [done|done| |].
  - intros i t Et. pose proof (oi_owner v Hi i t Et). rewrite (proj2 (Z.ltb_ge _ _)) by lia. apply lookup_replicate. split; [done|]. apply lookup_lt_Some in Et. rewrite (oi_length v Hi) in Et. unfold nshards in Hn. lia.
  - apply forallb_forall. intros c Hc. apply list_elem_of_In, list_elem_of_lookup in Hc as [i Hc]. pose proof (lookup_lt_Some _ _ _ Hc) as Hlt. rewrite length_take in Hlt. rewrite lookup_take_lt in Hc by lia.
    destruct (lookup_lt_is_Some_2 (shard_owner_ v) i) as [t Et]; [rewrite (oi_length v Hi); lia|]. rewrite (Hs i t Et) in Hc. injection Hc as <-. pose proof (oi_owner v Hi i t Et). unfold nthreads in *. rewrite (proj2 (Z.ltb_lt _ _)) by (cbn; lia). done.
Qed.
End Audit.

(** * Boot *)
(** [std::vector] growth on a push into a full vector. *)
Definition push_owned (sid : nat) (t : Thread) : Thread :=
  set_owned (owned t ++ [sid]) (if (length (owned t) =? capacity t)%nat then set_capacity (max 1 (2 * capacity t)) t else t).
(** [Server::init]: shard after shard gets its home thread. *)
Fixpoint assign_homes (resident : nat -> Z) (sid : nat) (homes : list Z) (v : Server) : option Server :=
  match homes with
  | [] => Some v
  | tid :: homes =>
      th ← thread_at v tid;
      let v := upd_thread tid (push_owned sid) v in
      v ← set_worker_of_shard (Z.of_nat sid) tid v;
      assign_homes resident (S sid) homes (upd_shard sid (note_migration (resident sid) (domain th)) v)
  end.
Record boot_inv (k : nat) (v : Server) : Prop := {
  bi_count : 1 <= nshards v <= 256 /\ nthreads v <= kNoOwner;
  bi_router : base (uniform_shards (nshards v)) (router_ v) /\ phase_ (router_ v) = Idle /\ transfer_writer_ (router_ v) = false;
  bi_shards : forall i sh, shards_ v !! i = Some sh -> id sh = Z.of_nat i /\ bucket_begin sh = shard_begin (nshards v) (Z.of_nat i) /\ bucket_end sh = shard_end (nshards v) (Z.of_nat i);
  bi_length : length (shard_owner_ v) = length (shards_ v);
  bi_owner : forall i t, (i < k)%nat -> shard_owner_ v !! i = Some t -> 0 <= t < nthreads v;
  bi_entries : forall i t b, (i < k)%nat -> shard_owner_ v !! i = Some t -> shard_begin (nshards v) (Z.of_nat i) <= b < shard_end (nshards v) (Z.of_nat i) -> owner_of_bucket (router_ v) b = Some t;
  bi_owned : forall tid th, threads_ v !! tid = Some th -> NoDup (owned th) /\ (length (owned th) <= capacity th)%nat /\ forall i, i ∈ owned th <-> (i < k)%nat /\ shard_owner_ v !! i = Some (Z.of_nat tid) }.
Lemma set_initial_spec sh b e t r : base sh r -> phase_ r = Idle -> 0 <= b < e -> e <= kNumBuckets -> 0 <= t < kNoOwner ->
  exists r', set_initial_owner b e t r = Some r' /\ base sh r' /\ phase_ r' = Idle /\ transfer_writer_ r' = transfer_writer_ r /\ (unpack_owner <$> owner_ r') = set_range b e t (unpack_owner <$> owner_ r).
Proof.
  intros Hb Hp Hbe He Ht. unfold set_initial_owner. rewrite (proj2 (Z.leb_gt _ _)), (proj2 (Z.ltb_ge _ _)), (proj2 (Z.leb_gt _ _)) by lia. cbn [orb]. rewrite decide_True by done.
  destruct (set_owners_spec sh (Z.to_nat (e - b)) b t r Hb Ht ltac:(lia) ltac:(lia)) as (o & -> & Hbo & Ho). rewrite some_bind. eexists. split; [done|]. split_and!; try done. cbn. rewrite Ho. f_equal. lia.
Qed.
Lemma assign_step resident k tid v : boot_inv k v -> (k < length (shards_ v))%nat -> 0 <= tid < nthreads v ->
  exists th v1, thread_at v tid = Some th /\ set_worker_of_shard (Z.of_nat k) tid (upd_thread tid (push_owned k) v) = Some v1 /\
    let v' := upd_shard k (note_migration (resident k) (domain th)) v1 in
    boot_inv (S k) v' /\ shard_owner_ v' = <[k := tid]> (shard_owner_ v) /\ length (shards_ v') = length (shards_ v) /\ nthreads v' = nthreads v.
Proof.
  intros Hi Hk Ht. destruct (thread_lookup v tid Ht) as [th Eth]. exists th. unfold set_worker_of_shard. change (nshards (upd_thread tid (push_owned k) v)) with (nshards v).
  rewrite (proj2 (Z.ltb_ge _ _)), (proj2 (Z.leb_gt _ _)) by (unfold nshards; lia). cbn [orb]. rewrite Nat2Z.id. cbn [shards_ router_ shard_owner_ upd_thread set_threads].
  destruct (lookup_lt_is_Some_2 _ _ Hk) as [sh Esh]. rewrite Esh, some_bind. destruct (bi_shards k v Hi _ _ Esh) as (Eid & Eb & Ee). destruct (bi_router k v Hi) as (Hba & Hp & Hw), (bi_count k v Hi) as [Hn Hnt].
  pose proof (shard_range_ok (nshards v) Hn (Z.of_nat k) ltac:(unfold nshards; lia)) as Hr.
  destruct (set_initial_spec _ (bucket_begin sh) (bucket_end sh) tid (router_ v) Hba Hp ltac:(lia) ltac:(lia) ltac:(lia)) as (r' & -> & Hba' & Hp' & Hw' & Ho'). rewrite some_bind.
  eexists. split; [done|]. split; [done|]. cbn zeta. set (v' := upd_shard _ _ _).
  assert (nshards v' = nshards v) as En by (unfold nshards; cbn; by rewrite length_alter). assert (nthreads v' = nthreads v) as Et by (unfold nthreads; cbn; by rewrite length_alter).
  assert (forall i, shard_owner_ v' !! i = if decide (i = k) then Some tid else shard_owner_ v !! i) as Hov.
  { intros i. cbn. destruct (decide (i = k)) as [->|]; [apply list_lookup_insert_eq; by rewrite (bi_length k v Hi)|by rewrite list_lookup_insert_ne]. }
  split; [|split; [done|split; [cbn; apply length_alter|done]]]. split; rewrite ?En, ?Et.
  - done.
  - cbn. by rewrite Hw'.
  - intros i sh' E. cbn in E. rewrite list_lookup_alter in E. destruct (decide (k = i)) as [<-|]; [|by apply (bi_shards k v Hi)]. rewrite Esh in E. injection E as <-. unfold note_migration. by destruct (negb _).
  - cbn. rewrite length_insert, length_alter. apply Hi.
  - intros i t Hlt E. rewrite Hov in E. destruct (decide (i = k)); [by injection E as <-|]. apply (bi_owner k v Hi i); [lia|done].
  - intros i t b Hlt E Hb. rewrite Hov in E. cbn [router_ v' upd_shard set_shards set_shard_owner set_router]. pose proof (shard_range_ok (nshards v) Hn (Z.of_nat i) ltac:(unfold nshards; lia)).
    rewrite (entries_set_range (router_ v) r' _ _ tid b Ho'); [|destruct Hba; by split|lia]. rewrite Eb, Ee. pose proof (range_unique (nshards v) (Z.of_nat i) (Z.of_nat k) b Hn ltac:(unfold nshards; lia) ltac:(unfold nshards; lia) Hb) as Hu.
    destruct (decide (i = k)) as [->|]; [rewrite decide_True by lia; done|]. rewrite decide_False by lia. apply (bi_entries k v Hi i); [lia|done|done].
  - intros j th' E. cbn in E. rewrite list_lookup_alter in E. assert (forall i, (i < S k)%nat /\ shard_owner_ v' !! i = Some (Z.of_nat j) <-> (i = k /\ tid = Z.of_nat j) \/ ((i < k)%nat /\ shard_owner_ v !! i = Some (Z.of_nat j))) as Hiff.
    { intros i. rewrite Hov. destruct (decide (i = k)) as [->|]; [split; [intros [_ [= ->]]; by left|intros [[_ ->]|[? _]]; [split; [lia|done]|lia]]|]. split; [intros [? ?]; right; split; [lia|done]|intros [[? _]|[? ?]]; [done|split; [lia|done]]]. }
    destruct (decide (Z.to_nat tid = j)) as [<-|Hne].
    + unfold thread_at in Eth. rewrite Eth in E. injection E as <-. destruct (bi_owned k v Hi _ _ Eth) as (Hnd & Hcap & Hin).
      assert (k ∉ owned th) as Hnk by (rewrite Hin; lia). unfold push_owned. split; [cbn; apply NoDup_app; split_and!; [done|intros i Hio ->%list_elem_of_singleton; done|apply NoDup_singleton]|]. split.
      * cbn. rewrite length_app. cbn. destruct (Nat.eqb_spec (length (owned th)) (capacity th)); cbn; lia.
      * intros i. cbn [owned set_owned]. rewrite elem_of_app, list_elem_of_singleton, Hiff, Hin, Z2Nat.id by lia. tauto.
    + destruct (bi_owned k v Hi _ _ E) as (Hnd & Hcap & Hin). split; [done|]. split; [done|]. intros i. rewrite Hiff, Hin. split; [by right|intros [[_ ?]|?]; [lia|done]].
Qed.
(** Boot assigns every shard to its home. *)
Lemma assign_homes_spec resident homes k v : boot_inv k v -> (k + length homes)%nat = length (shards_ v) -> Forall (fun t => 0 <= t < nthreads v) homes ->
  exists v', assign_homes resident k homes v = Some v' /\ own_inv v'.
Proof.
  revert k v. induction homes as [|tid homes IH]; intros k v Hi Hk Hh; cbn [assign_homes length] in *.
  - exists v. split; [done|]. rewrite Nat.add_0_r in Hk. assert (forall i t, shard_owner_ v !! i = Some t -> (i < k)%nat) as Hlt by (intros i t E; apply lookup_lt_Some in E; rewrite (bi_length k v Hi) in E; lia).
    split; try apply Hi; [intros i t E; apply (bi_owner k v Hi i); eauto|intros i t b E; apply (bi_entries k v Hi i); eauto|].
    intros j th E. destruct (bi_owned k v Hi j th E) as (H1 & H2 & H3). split; [done|]. split; [done|]. intros i. rewrite H3. split; [tauto|]. eauto.
  - apply Forall_cons in Hh as [Ht Hh]. destruct (assign_step resident k tid v Hi ltac:(lia) Ht) as (th & v1 & -> & E1 & Hb & _ & Hl & Hnt). rewrite some_bind, E1, some_bind. apply IH; [done|rewrite Hl; lia|by rewrite Hnt].
Qed.

(** What boot leaves alone, and the owners it sets. *)
Lemma assign_homes_keeps resident homes k v v' : length (shard_owner_ v) = length (shards_ v) -> assign_homes resident k homes v = Some v' ->
  read_local v' = read_local v /\ (forall i sh', shards_ v' !! i = Some sh' -> exists sh, shards_ v !! i = Some sh /\ sink sh' = sink sh /\ pending_of sh' = pending_of sh) /\
  (forall tid th', threads_ v' !! tid = Some th' -> exists th, threads_ v !! tid = Some th /\ retire_sink th' = retire_sink th /\ notify_pending th' = notify_pending th /\ role th' = role th) /\
  (forall i, (i < k)%nat -> shard_owner_ v' !! i = shard_owner_ v !! i) /\ forall i t, homes !! i = Some t -> shard_owner_ v' !! (k + i)%nat = Some t.
Proof.
  revert k v. induction homes as [|tid homes IH]; intros k v Hl E; cbn [assign_homes] in E.
  { injection E as <-. split_and!; [done|eauto 6|eauto 7|done|done]. }
  destruct (thread_at v tid) as [th|]; [|done]. rewrite some_bind in E. destruct (set_worker_of_shard _ _ _) as [v1|] eqn:E1; [|done]. rewrite some_bind in E.
  unfold set_worker_of_shard in E1. destruct (_ || _) eqn:Eg; [done|]. rewrite Nat2Z.id in E1. cbn [shards_ router_ shard_owner_ upd_thread set_threads] in E1.
  destruct (shards_ v !! k) as [sh|] eqn:Esh; [|done]. rewrite some_bind in E1. destruct (set_initial_owner _ _ _ _) as [r|]; [|done]. rewrite some_bind in E1. injection E1 as <-.
  destruct (fun Hl => IH _ _ Hl E) as (H1 & H2 & H3 & H4 & H5); [cbn; by rewrite length_insert, length_alter|]. cbn [read_local shards_ threads_ shard_owner_ upd_shard set_shards set_shard_owner set_router upd_thread set_threads] in *. split_and!.
  - done.
  - intros i sh' Ei. destruct (H2 i sh' Ei) as (sh1 & Ei1 & -> & ->). rewrite list_lookup_alter in Ei1. destruct (decide (k = i)) as [<-|]; [|eauto].
    rewrite Esh in Ei1. injection Ei1 as <-. exists sh. split; [done|]. unfold note_migration. by destruct (negb _).
  - intros j th' Ej. destruct (H3 j th' Ej) as (th1 & Ej1 & -> & -> & ->). rewrite list_lookup_alter in Ej1. destruct (decide (Z.to_nat tid = j)) as [<-|]; [|eauto].
    apply fmap_Some in Ej1 as (th0 & E0 & ->). exists th0. split; [done|]. unfold push_owned. by destruct (_ =? _)%nat.
  - intros i Hi. rewrite H4 by lia. by rewrite list_lookup_insert_ne by lia.
  - intros [|i] t Ht.
    + injection Ht as ->. rewrite Nat.add_0_r, H4 by lia. apply list_lookup_insert_eq. rewrite Hl. by eapply lookup_lt_Some.
    + rewrite <- (H5 i t Ht). f_equal. lia.
Qed.
(** * Sequences of transfers *)
Inductive Op :=
  | TransferShard (config : LiveConfigSnapshot) (resident : nat -> Z) (sid s d : Z)
  | TransferRange (config : LiveConfigSnapshot) (resident : nat -> Z) (oom_list oom_reserve : bool) (b e s d : Z)
  | Reserve (oom : bool) (tid : Z) (incoming : nat).
Definition run_op (v : Server) (o : Op) : option (bool * Server) :=
  match o with
  | TransferShard c r sid s d => transfer_shard_quiesced c r sid (u32 s) (u32 d) v
  | TransferRange c r o1 o2 b e s d => transfer_bucket_range_quiesced c r o1 o2 (u32 b) (u32 e) (u32 s) (u32 d) v
  | Reserve oom tid n => reserve_shard_capacity oom (u32 tid) n v
  end.
Fixpoint run_ops (v : Server) (os : list Op) : option Server :=
  match os with [] => Some v | o :: os => '(_, v) ← run_op v o; run_ops v os end.
Lemma reserve_capacity_spec oom tid n v : own_inv v -> 0 <= tid -> exists ok v', reserve_shard_capacity oom tid n v = Some (ok, v') /\ if ok : bool then moved_ok [] (-1) tid v v' else v' = v.
Proof.
  intros Hi Ht. unfold reserve_shard_capacity. destruct (Z.leb_spec (nthreads v) tid); [by exists false, v|]. destruct oom; [by exists false, v|]. eexists true, _. split; [done|].
  split; [|split; [constructor|split; [lia|split; [lia|by intros i ?%elem_of_nil]]]].
  split; cbn [router_ shards_ shard_owner_ threads_ upd_thread set_threads fused flip_active flip_convert_ read_local].
  - apply Hi.
  - intros i b _ _. by rewrite decide_False by apply not_elem_of_nil.
  - split; [done|]. intros i _. by rewrite decide_False by apply not_elem_of_nil.
  - split; [done|]. intros i sh' E. exists sh'. by rewrite decide_False by apply not_elem_of_nil.
  - split; [apply length_alter|]. intros j th' E. rewrite list_lookup_alter in E. destruct (decide (Z.to_nat tid = j)) as [<-|Hne].
    + apply fmap_Some in E as (th & Eth & ->). exists th. rewrite Eth, app_nil_r, decide_True by lia. split_and!; cbn; try done; lia.
    + exists th'. rewrite (decide_False (P := Z.of_nat j = tid)), (decide_False (P := Z.of_nat j = -1)) by lia. split_and!; try done; lia.
  - done.
Qed.
Lemma run_op_ok v o : own_inv v -> bound v -> exists ok v', run_op v o = Some (ok, v') /\ own_inv v' /\ bound v'.
Proof.
  intros Hi Hb. pose proof u32_range as Hu. destruct o as [c r sid s d|c r o1 o2 b e s d|oom tid n]; cbn [run_op].
  - destruct (transfer_shard_spec c r sid (u32 s) (u32 d) v Hi Hb ltac:(apply Hu) ltac:(apply Hu)) as ([] & v' & -> & H & _); eexists _, _; (split; [done|]); [by eapply moved_ok_inv|by subst].
  - destruct (transfer_range_spec c r o1 o2 (u32 b) (u32 e) (u32 s) (u32 d) v Hi Hb ltac:(apply Hu) ltac:(apply Hu) ltac:(apply Hu)) as ([] & v' & -> & H); eexists _, _; (split; [done|]); [destruct H as (sids & H & _); by eapply moved_ok_inv|by subst].
  - destruct (reserve_capacity_spec oom (u32 tid) n v Hi ltac:(apply Hu)) as ([] & v' & -> & H); eexists _, _; (split; [done|]); [by eapply moved_ok_inv|by subst].
Qed.
Lemma run_ops_ok os v : own_inv v -> bound v -> exists v', run_ops v os = Some v' /\ own_inv v' /\ bound v'.
Proof.
  revert v. induction os as [|o os IH]; intros v Hi Hb; cbn [run_ops]; [by exists v|]. destruct (run_op_ok v o Hi Hb) as (ok & v' & -> & Hi' & Hb'). rewrite some_bind. by apply IH.
Qed.
(** A hash is routed to a shard and to the executor that alone has that shard. *)
Lemma routed v hash : own_inv v -> exists s t th, shard_of (router_ v) hash = Some s /\ owner_of (router_ v) hash = Some t /\ shard_owner_ v !! Z.to_nat s = Some t /\ thread_at v t = Some th /\
  Z.to_nat s ∈ owned th /\ forall tid th', threads_ v !! tid = Some th' -> Z.to_nat s ∈ owned th' -> Z.of_nat tid = t.
Proof.
  intros Hi. destruct (oi_count v Hi) as [Hn Hnt]. destruct (route_owns (nshards v) Hn (router_ v) hash (proj1 (oi_router v Hi))) as (s & Es & Hs & Ho). specialize (Ho s Hs). rewrite Z.eqb_refl in Ho. unfold owns in Ho. apply andb_prop in Ho as [H1 H2]. zcmp.
  destruct (lookup_lt_is_Some_2 (shard_owner_ v) (Z.to_nat s)) as [t Et]; [rewrite (oi_length v Hi); unfold nshards in *; lia|]. pose proof (oi_owner v Hi _ _ Et) as Ht. destruct (thread_lookup v t Ht) as [th Eth].
  exists s, t, th. split; [done|]. split; [apply (oi_entries v Hi _ _ (bucket_of hash) Et); rewrite Z2Nat.id by lia; lia|]. split; [done|]. split; [done|]. split.
  - apply (oi_owned v Hi _ _ Eth). by rewrite Z2Nat.id by lia.
  - intros tid th' Etid Hin. apply (oi_owned v Hi _ _ Etid) in Hin. congruence.
Qed.

(** C19: Ownership stays a partition.  From a server where every shard has one owner, any sequence of
    shard transfers, range transfers and capacity reservations, with any arguments and any failed
    allocations, returns without an abort; afterwards every hash is routed to a shard and to the one
    executor that has that shard in its vector, every shard uses the retire sink and the
    notification flag of its owner (adopt_shard_owner_state rebinds both inside the transfer, so
    the later control pass finds nothing to repair), and the ownership audit passes whenever only
    executors own shards. *)
Theorem ownership_partition_kept os v :
  own_inv v -> bound v ->
  exists v', run_ops v os = Some v' /\ own_inv v' /\
    (forall hash, exists s t th, shard_of (router_ v') hash = Some s /\ owner_of (router_ v') hash = Some t /\ shard_owner_ v' !! Z.to_nat s = Some t /\ thread_at v' t = Some th /\
      Z.to_nat s ∈ owned th /\ forall tid th', threads_ v' !! tid = Some th' -> Z.to_nat s ∈ owned th' -> Z.of_nat tid = t) /\
    (forall i sh t, shards_ v' !! i = Some sh -> shard_owner_ v' !! i = Some t -> (read_local v' = true -> sink sh = Some t) /\ pending_of sh = Some t) /\
    ((forall th, th ∈ threads_ v' -> role th = RoleEx \/ owned th = []) -> flip_shard_ownership_conserved v' = true).
Proof.
  intros Hi Hb. destruct (run_ops_ok os v Hi Hb) as (v' & -> & Hi' & Hb'). exists v'. split; [done|]. split; [done|]. split; [intros hash; by apply routed|]. split; [apply Hb'|by apply audit_passes].
Qed.
(** Two shards on two executors and an IO thread. *)
Definition demo_config : LiveConfigSnapshot := mkSnapshot 2 1000 1 5 0 false 10000 0 false 512 0.
Definition demo_shard (i : Z) : Shard := mkShard i (shard_begin 2 i) (shard_end 2 i) kNoDomain 0 0 (Some i) (mkMaxmemory false 0 0 0) 0 (Some i).
Definition demo_thread (r : Role) : Thread := mkThread r [] 0 true 0 true (Some false).
Definition demo_boot : Server :=
  mkServer (default empty_router (build_uniform 2 empty_router)) [demo_shard 0; demo_shard 1] [0; 0] [demo_thread RoleEx; demo_thread RoleEx; demo_thread RoleIfid] false false [] true.
Definition demo_server : Server := default demo_boot (assign_homes (fun _ => 0) 0 [0; 1] demo_boot).
Definition demo_ops : list Op := [TransferShard demo_config (fun _ => 0) 0 0 1; Reserve false 1 1; TransferShard demo_config (fun _ => 0) 0 0 1; TransferRange demo_config (fun _ => 0) false false 0 16384 1 0].
Lemma demo_boot_inv : boot_inv 0 demo_boot.
Proof.
  destruct (build_uniform_spec 2 ltac:(lia) empty_router) as (r & Er & Hb & Hp & Hw & _). assert (router_ demo_boot = r) as Er' by (unfold demo_boot; cbn [router_]; by rewrite Er).
  split; rewrite ?Er'.
  - unfold nshards, nthreads, kNoOwner. cbn [shards_ threads_ demo_boot length]. lia.
  - by rewrite Hp, Hw.
  - intros [|[|i]] sh E; [by injection E as <-..|done].
  - done.
  - lia.
  - lia.
  - intros [|[|[|j]]] th E; try done; injection E as <-; (split; [constructor|]); (split; [done|]); intros i; (split; [by intros ?%not_elem_of_nil|lia]).
Qed.
Lemma demo_server_inv : own_inv demo_server.
Proof.
  destruct (assign_homes_spec (fun _ => 0) [0; 1] 0 demo_boot demo_boot_inv) as (v & E & Hi); [done|repeat constructor; cbn; lia|]. unfold demo_server. by rewrite E.
Qed.
Lemma demo_bound : bound demo_server.
Proof.
  destruct (assign_homes_spec (fun _ => 0) [0; 1] 0 demo_boot demo_boot_inv) as (v & E & Hi); [done|repeat constructor; cbn; lia|].
  destruct (assign_homes_keeps _ _ _ _ _ (eq_refl : length (shard_owner_ demo_boot) = length (shards_ demo_boot)) E) as (Hrl & Hsh & Hth & _ & Hown). unfold demo_server. rewrite E. change (default demo_boot (Some v)) with v. clear E Hi. split.
  - intros i sh t Esh Et. destruct (Hsh i sh Esh) as (sh0 & E0 & -> & ->). destruct i as [|[|i]]; [| |done]; injection E0 as <-.
    + pose proof (Hown 0%nat 0 eq_refl : shard_owner_ v !! 0%nat = Some 0) as Eo. rewrite Eo in Et. by injection Et as <-.
    + pose proof (Hown 1%nat 1 eq_refl : shard_owner_ v !! 1%nat = Some 1) as Eo. rewrite Eo in Et. by injection Et as <-.
  - intros tid th Eth. destruct (Hth tid th Eth) as (th0 & E0 & -> & -> & _). destruct tid as [|[|[|tid]]]; try done; injection E0 as <-; split; (done || by eexists).
Qed.
Lemma ownership_partition_kept_witness :
  exists v', run_ops demo_server demo_ops = Some v' /\ own_inv v' /\
    (forall hash, exists s t th, shard_of (router_ v') hash = Some s /\ owner_of (router_ v') hash = Some t /\ shard_owner_ v' !! Z.to_nat s = Some t /\ thread_at v' t = Some th /\
      Z.to_nat s ∈ owned th /\ forall tid th', threads_ v' !! tid = Some th' -> Z.to_nat s ∈ owned th' -> Z.of_nat tid = t) /\
    (forall i sh t, shards_ v' !! i = Some sh -> shard_owner_ v' !! i = Some t -> (read_local v' = true -> sink sh = Some t) /\ pending_of sh = Some t) /\
    ((forall th, th ∈ threads_ v' -> role th = RoleEx \/ owned th = []) -> flip_shard_ownership_conserved v' = true).
Proof.
  apply (ownership_partition_kept demo_ops demo_server); [apply demo_server_inv|apply demo_bound].
Defined.
