(* ===== verification/Flip.v ===== *)
(** core/server.h and core/io_loop.h: the shard half of a FLIP, which changes the roles of threads.
    The plan places every shard on one of the final executors with [weighted_lb_partition] and
    reserves the room; the commit moves each shard to its planned owner and changes the roles; the
    completion checks the counts.  Weights, bytes, SMT siblings, failed allocations and the
    configurations read at each transfer are inputs; [None] is [abort].  The published spreads, the
    runtime role lists of the placement and the client half are left out. *)

From S2P Require Import Prelude WeightedLb LiveConfig Router Ownership.

Definition flip_shard_destination (dest : list Z) (v : Server) (sid : nat) : Z :=
  if Z.of_nat sid <? nshards v then default UINT32_MAX (dest !! sid) else UINT32_MAX.
(** The shard loop of [flip_commit_roles_and_evacuate_shards]; [k] shards are left. *)
Fixpoint evacuate (configs : nat -> LiveConfigSnapshot) (resident : nat -> Z) (k sid : nat) (dest : list Z) (v : Server) (transfers : Z) : option (Server * Z) :=
  match k with
  | O => Some (v, transfers)
  | S k =>
      source ← worker_of_shard v sid;
      let destination := flip_shard_destination dest v sid in
      if source =? destination then evacuate configs resident k (S sid) dest v transfers
      else
        '(ok, v) ← transfer_shard_quiesced (configs sid) resident (Z.of_nat sid) source destination v;
        if negb ok then None
        else if negb (flip_active v) then None
        else evacuate configs resident k (S sid) dest v (u64 (transfers + 1))
  end.

(** * The plan *)
Inductive PlanError := NotAPartition | NoBucketOwner | InvalidThread | Unsatisfiable | CountBalance | NoRoom | NoMemory.
Definition final_executors (v : Server) : list Z := filter (fun tid => flip_final_role v tid = RoleEx) (seqZ 0 (nthreads v)).
(** [Some None]: a shard names an invalid thread. *)
Fixpoint plan_items (v : Server) (weight bytes : nat -> double) (k sid : nat) : option (option (list WeightedLbItem)) :=
  match k with
  | O => Some (Some [])
  | S k =>
      owner ← worker_of_shard v sid;
      if nthreads v <=? owner then Some None
      else rest ← plan_items v weight bytes k (S sid); Some (option_map (cons (mkItem (Z.of_nat sid) owner (weight sid) false (bytes sid))) rest)
  end.
(** The destinations, the quotas and the arrivals of the assignments. *)
Record Shares := mkShares { destinations : list Z; quota : list Z; incoming : list Z; moves : Z }.
Fixpoint take_assignments (v : Server) (asg : list WeightedLbAssignment) (p : Shares) : option Shares :=
  match asg with
  | [] => Some p
  | a :: asg =>
      if (nshards v <=? as_id a) || (nthreads v <=? as_destination a) then None
      else
        let d := Z.to_nat (as_destination a) in
        let moving := negb (as_source a =? as_destination a) in
        take_assignments v asg
          (mkShares (<[Z.to_nat (as_id a) := as_destination a]> (destinations p)) (alter (fun q => u32 (q + 1)) d (quota p))
             (if moving then alter (fun q => u32 (q + 1)) d (incoming p) else incoming p) (if moving then u32 (moves p + 1) else moves p))
  end.
Fixpoint reserve_all (oom : Z -> bool) (low high : Z) (p : Shares) (tids : list Z) (v : Server) : option (option PlanError * Server) :=
  match tids with
  | [] => Some (None, v)
  | tid :: tids =>
      q ← quota p !! Z.to_nat tid;
      if (q <? low) || (high <? q) then Some (Some CountBalance, v)
      else
        n ← incoming p !! Z.to_nat tid;
        '(ok, v) ← reserve_shard_capacity (oom tid) tid (Z.to_nat n) v;
        if negb ok then Some (Some NoRoom, v) else reserve_all oom low high p tids v
  end.
Definition kMaxThreads : nat := 128.
(** [oom_plan]: an allocation of the plan's own vectors fails; [oom tid]: the reservation at [tid] does. *)
Definition flip_reserve_shard_plan (weight bytes : nat -> double) (oom_plan : bool) (oom : Z -> bool) (v : Server) : option (sum PlanError Shares * Server) :=
  if negb (flip_shard_ownership_conserved v) then Some (inl NotAPartition, v)
  else
    let executors := final_executors v in
    if bool_decide (executors = []) then Some (inl NoBucketOwner, v)
    else if oom_plan then Some (inl NoMemory, v)
    else
      items ← plan_items v weight bytes (length (shards_ v)) 0;
      match items with
      | None => Some (inl InvalidThread, v)
      | Some items =>
          match weighted_lb_partition items executors with
          | None => Some (inl Unsatisfiable, v)
          | Some assignments =>
              if negb (length assignments =? length items)%nat then Some (inl Unsatisfiable, v)
              else
                p ← take_assignments v assignments (mkShares (replicate (length (shards_ v)) UINT32_MAX) (replicate kMaxThreads 0) (replicate kMaxThreads 0) 0);
                let n := Z.of_nat (length executors) in
                let low := nshards v / n in
                let high := low + (if negb (nshards v mod n =? 0) then 1 else 0) in
                '(err, v) ← reserve_all oom low high p executors v;
                Some (match err with Some e => inl e | None => inr p end, v)
          end
      end.

(** * Commit and completion *)
(** [smt]: the sibling of each thread when threads run in SMT pairs. *)
Definition kNoThread : Z := 4294967295.
Definition smt_peer (peers : list Z) (tid : Z) : Z := default kNoThread (peers !! Z.to_nat tid).
Definition flip_candidate_target (v : Server) (tid : Z) : Role := if tid <? nthreads v then default RoleIdle (flip_convert_ v !! Z.to_nat tid) else RoleIdle.
Definition role_at (v : Server) (tid : Z) : option Role := role <$> thread_at v tid.
Definition role_count (v : Server) (r : Role) : Z := Z.of_nat (length (filter (fun t => role t = r) (threads_ v))).
Section Commit.
Context (smt : option (list Z)).
Definition flip_live_pairs_conserved (v : Server) : bool :=
  match smt with
  | None => true
  | Some peers => forallb (fun tid => let peer := smt_peer peers tid in negb (nthreads v <=? peer) && bool_decide (role_at v tid = role_at v peer)) (seqZ 0 (nthreads v))
  end.
Definition flip_candidate_pairs_conserved (v : Server) : bool :=
  match smt with
  | None => true
  | Some peers => forallb (fun tid => let peer := smt_peer peers tid in negb (nthreads v <=? peer) && bool_decide (flip_final_role v tid = flip_final_role v peer)) (seqZ 0 (nthreads v))
  end.
(** Whether the check lets the server go on. *)
Definition flip_conservation_check (v : Server) : bool := (role_count v RoleIfid + role_count v RoleEx =? nthreads v) && flip_live_pairs_conserved v.
Definition set_role (r : Role) (t : Thread) : Thread := mkThread r (owned t) (capacity t) (executor t) (domain t) (retire_sink t) (notify_pending t).
Definition change (tid : Z) (r : Role) (v : Server) : option Server :=
  if (nthreads v <=? tid) || negb (bool_decide (r = RoleIfid) || bool_decide (r = RoleEx)) then None else Some (upd_thread tid (set_role r) v).
Definition flip_change_role (tid : Z) (r : Role) (v : Server) : option Server :=
  if negb (flip_conservation_check v) then None
  else
    v ← match smt with
        | None => change tid r v
        | Some peers =>
            let peer := smt_peer peers tid in
            if (nthreads v <=? peer) || negb (bool_decide (flip_candidate_target v peer = r)) then None else v ← change tid r v; change peer r v
        end;
    if flip_conservation_check v then Some v else None.
(** [k] threads are left. *)
Fixpoint commit_roles (k : nat) (tid : Z) (v : Server) : option Server :=
  match k with
  | O => Some v
  | S k =>
      let target := flip_candidate_target v tid in
      if bool_decide (target = RoleIdle) then commit_roles k (tid + 1) v
      else if bool_decide (role_at v tid = Some target) then commit_roles k (tid + 1) v
      else v ← flip_change_role tid target v; commit_roles k (tid + 1) v
  end.
Definition flip_commit_roles_and_evacuate_shards (configs : nat -> LiveConfigSnapshot) (resident : nat -> Z) (dest : list Z) (v : Server) (transfers : Z) : option (Server * Z) :=
  '(v, transfers) ← evacuate configs resident (length (shards_ v)) 0 dest v transfers;
  v ← commit_roles (length (threads_ v)) 0 v; Some (v, transfers).
End Commit.
Fixpoint count_buckets (v : Server) (k sid : nat) (buckets : list Z) : option (list Z) :=
  match k with
  | O => Some buckets
  | S k => owner ← worker_of_shard v sid; if nthreads v <=? owner then None else count_buckets v k (S sid) (alter (fun q => u32 (q + 1)) (Z.to_nat owner) buckets)
  end.
(** The executors' bucket counts against their quotas, with the least and the largest count. *)
Fixpoint check_quotas (ths : list Thread) (tid : nat) (buckets quotas : list Z) (lo hi : Z) : option (Z * Z) :=
  match ths with
  | [] => Some (lo, hi)
  | th :: ths =>
      if bool_decide (role th = RoleEx) then
        b ← buckets !! tid; q ← quotas !! tid;
        if negb (b =? q) then None else check_quotas ths (S tid) buckets quotas (Z.min lo b) (Z.max hi b)
      else check_quotas ths (S tid) buckets quotas lo hi
  end.
(** The shard half of [flip_complete_active]; the number of transfers it records. *)
Definition flip_complete_shards (p : Shares) (planned_clients transfers : Z) (v : Server) : option Z :=
  if negb (flip_shard_ownership_conserved v) then None
  else
    buckets ← count_buckets v (length (shards_ v)) 0 (replicate kMaxThreads 0);
    '(lo, hi) ← check_quotas (threads_ v) 0 buckets (quota p) UINT32_MAX 0;
    if (lo =? UINT32_MAX) || (1 <? u32 (hi - lo)) then None
    else if negb (transfers =? u64 (moves p + planned_clients)) then None
    else Some transfers.

(** * Evacuation *)
(** Arrivals still due at [tid]. *)
Definition arrivals (o dest : list Z) (tid : Z) : nat := length (filter (fun x => x.2 = tid /\ x.1 <> tid) (zip o dest)).
Definition moving_count (o dest : list Z) : nat := length (filter (fun x => x.1 <> x.2) (zip o dest)).
Lemma arrivals_cons a b o dest tid : arrivals (a :: o) (b :: dest) tid = ((if decide (b = tid /\ a <> tid) then 1 else 0) + arrivals o dest tid)%nat.
Proof. unfold arrivals. cbn [zip zip_with]. rewrite filter_cons. cbn [fst snd]. by destruct (decide _). Qed.
Lemma moving_count_cons a b o dest : moving_count (a :: o) (b :: dest) = ((if decide (a <> b) then 1 else 0) + moving_count o dest)%nat.
Proof. unfold moving_count. cbn [zip zip_with]. rewrite filter_cons. cbn [fst snd]. by destruct (decide _). Qed.
(** The roles of a server decide who is live and who may receive. *)
Lemma moved_roles sids s d v v' tid : moved sids s d v v' -> 0 <= tid -> live_executor v' tid = live_executor v tid /\ flip_final_role v' tid = flip_final_role v tid.
Proof.
  intros Hm Ht. destruct (mv_threads _ _ _ _ _ Hm) as [Hl Hth], (mv_rest _ _ _ _ _ Hm) as (Ef & Ea & Ec & _). unfold live_executor, flip_final_role, nthreads, thread_at. rewrite Hl, Ef, Ec.
  destruct (Z.leb_spec (Z.of_nat (length (threads_ v))) tid); [done|]. destruct (lookup_lt_is_Some_2 (threads_ v') (Z.to_nat tid)) as [th' E']; [lia|].
  destruct (Hth _ _ E') as (th & E & Er & Ex & _). rewrite E', E, Er, Ex. done.
Qed.
Lemma moved_receive sids s d v v' tid : moved sids s d v v' -> 0 <= tid -> may_receive v' tid = may_receive v tid.
Proof. intros Hm Ht. unfold may_receive. destruct (moved_roles _ _ _ _ _ tid Hm Ht) as [-> ->]. by rewrite (proj1 (proj2 (mv_rest _ _ _ _ _ Hm))). Qed.
Lemma moved_drop k s d v v' : own_inv v -> moved [k] s d v v' -> drop (S k) (shard_owner_ v') = drop (S k) (shard_owner_ v).
Proof.
  intros Hi Hm. destruct (mv_owner _ _ _ _ _ Hm) as [Hol Hov]. apply list_eq. intros i. rewrite !lookup_drop. destruct (decide (S k + i < length (shards_ v))%nat) as [Hlt|Hge].
  - rewrite Hov, decide_False by (done || intros ?%list_elem_of_singleton; lia). done.
  - rewrite !lookup_ge_None_2; [done|rewrite (oi_length v Hi); lia|rewrite Hol, (oi_length v Hi); lia].
Qed.
(** Neither a transfer nor a reservation touches a role. *)
Definition same_roles (v v' : Server) : Prop := rest_same v v' /\ nthreads v' = nthreads v /\ forall t, 0 <= t -> role_at v' t = role_at v t.
Lemma same_roles_refl v : same_roles v v.
Proof. split; [by split_and!|done]. Qed.
Lemma same_roles_trans v1 v2 v3 : same_roles v1 v2 -> same_roles v2 v3 -> same_roles v1 v3.
Proof.
  intros ((A1 & A2 & A3 & A4) & A5 & A6) ((B1 & B2 & B3 & B4) & B5 & B6). split; [split_and!; congruence|]. split; [congruence|]. intros t Ht. rewrite B6, A6; done.
Qed.
Lemma moved_same_roles sids s d v v' : moved sids s d v v' -> same_roles v v'.
Proof.
  intros Hm. destruct (mv_threads _ _ _ _ _ Hm) as [Hl Hth]. split; [apply (mv_rest _ _ _ _ _ Hm)|]. split; [apply (moved_counts _ _ _ _ _ Hm)|]. intros t Ht. unfold role_at, thread_at. destruct (threads_ v' !! Z.to_nat t) as [th'|] eqn:E.
  - destruct (Hth _ _ E) as (th & -> & Er & _). cbn. by rewrite Er.
  - apply lookup_ge_None in E. rewrite lookup_ge_None_2 by lia. done.
Qed.
Lemma same_final v v' t : same_roles v v' -> 0 <= t -> flip_final_role v' t = flip_final_role v t.
Proof.
  intros ((_ & _ & Ec & _) & Et & Hr) Ht. specialize (Hr t Ht). unfold flip_final_role, role_at in *. rewrite Et, Ec. destruct (_ <=? _); [done|]. destruct (thread_at v' t) as [a|], (thread_at v t) as [b|]; cbn in Hr; try done. by injection Hr as ->.
Qed.
Section Evacuate.
Context (configs : nat -> LiveConfigSnapshot) (resident : nat -> Z) (dest : list Z).
Record ready (k : nat) (v : Server) : Prop := {
  re_inv : own_inv v /\ bound v /\ flip_active v = true;
  re_length : length dest = length (shards_ v);
  re_dest : forall i t, dest !! i = Some t -> 0 <= t < nthreads v /\ may_receive v t = true;
  re_source : forall i t, (k <= i)%nat -> shard_owner_ v !! i = Some t -> live_executor v t = true;
  re_room : forall tid th, threads_ v !! tid = Some th -> (length (owned th) + arrivals (drop k (shard_owner_ v)) (drop k dest) (Z.of_nat tid) <= capacity th)%nat;
  re_done : forall i, (i < k)%nat -> shard_owner_ v !! i = dest !! i }.
Lemma ready_heads k v : ready k v -> (k < length (shards_ v))%nat -> exists s d, shard_owner_ v !! k = Some s /\ dest !! k = Some d /\
  drop k (shard_owner_ v) = s :: drop (S k) (shard_owner_ v) /\ drop k dest = d :: drop (S k) dest.
Proof.
  intros Hr Hk. destruct (lookup_lt_is_Some_2 (shard_owner_ v) k) as [s Es]; [rewrite (oi_length v); [lia|apply Hr]|]. destruct (lookup_lt_is_Some_2 dest k) as [d Ed]; [rewrite (re_length k v Hr); lia|].
  exists s, d. split_and!; [done..|by apply drop_S|by apply drop_S].
Qed.
Lemma ready_stay k v s : ready k v -> (k < length (shards_ v))%nat -> shard_owner_ v !! k = Some s -> dest !! k = Some s -> ready (S k) v.
Proof.
  intros Hr Hk Es Ed. destruct (ready_heads k v Hr Hk) as (s' & d' & Es' & Ed' & E1 & E2). rewrite Es in Es'. rewrite Ed in Ed'. injection Es' as <-. injection Ed' as <-. split; try apply Hr.
  - intros i t Hi. apply (re_source k v Hr). lia.
  - intros tid th Eth. pose proof (re_room k v Hr tid th Eth) as Hroom. rewrite E1, E2, arrivals_cons in Hroom. lia.
  - intros i Hi. destruct (decide (i = k)) as [->|]; [congruence|apply (re_done k v Hr); lia].
Qed.
Lemma ready_move k v s d v' : ready k v -> (k < length (shards_ v))%nat -> shard_owner_ v !! k = Some s -> dest !! k = Some d -> s <> d -> moved_ok [k] s d v v' -> ready (S k) v'.
Proof.
  intros Hr Hk Es Ed Hsd Hmo. destruct (ready_heads k v Hr Hk) as (s' & d' & Es' & Ed' & E1 & E2). rewrite Es in Es'. rewrite Ed in Ed'. injection Es' as <-. injection Ed' as <-.
  destruct (re_inv k v Hr) as (Hi & Hb & Ha). destruct (moved_ok_inv _ _ _ _ _ Hmo Hi Hb) as [Hi' Hb']. destruct Hmo as (Hm & _). destruct (moved_counts _ _ _ _ _ Hm) as [En Et].
  destruct (mv_owner _ _ _ _ _ Hm) as [Hol Hov]. pose proof (moved_drop k s d v v' Hi Hm) as Edrop.
  split.
  - split; [done|]. split; [done|]. rewrite (proj1 (proj2 (mv_rest _ _ _ _ _ Hm))). done.
  - rewrite (proj1 (mv_shards _ _ _ _ _ Hm)). apply Hr.
  - intros i t E. rewrite Et. destruct (re_dest k v Hr i t E). split; [done|]. rewrite (moved_receive _ _ _ _ _ _ Hm); [done|lia].
  - intros i t Hle E. assert (shard_owner_ v !! i = Some t) as Eo.
    { rewrite <- E, Hov, decide_False; [done|intros ?%list_elem_of_singleton; lia|]. apply lookup_lt_Some in E. rewrite Hol, (oi_length v Hi) in E. lia. }
    pose proof (oi_owner v Hi i t Eo). rewrite (proj1 (moved_roles _ _ _ _ _ t Hm ltac:(lia))). apply (re_source k v Hr i); [lia|done].
  - intros tid th' E. rewrite Edrop. destruct (proj2 (mv_threads _ _ _ _ _ Hm) tid th' E) as (th & Eth & _ & _ & _ & _ & _ & Hcap & Ho). pose proof (re_room k v Hr tid th Eth) as Hroom. rewrite E1, E2, arrivals_cons in Hroom.
    destruct (decide (Z.of_nat tid = d)) as [Ed'|Ed'].
    + rewrite decide_True in Hroom by lia. destruct Ho as [-> _]. rewrite length_app. cbn. lia.
    + rewrite decide_False in Hroom by lia. destruct (decide (Z.of_nat tid = s)); [rewrite Ho; pose proof (length_filter (fun i => i ∉ [k]) (owned th)); lia|rewrite Ho; lia].
  - intros i Hi0. rewrite Hov by lia. destruct (decide (i = k)) as [->|Hne]; [rewrite decide_True by (by apply list_elem_of_singleton); done|].
    rewrite decide_False by (by intros ?%list_elem_of_singleton). apply (re_done k v Hr). lia.
Qed.
Lemma evacuate_spec n k v transfers : ready k v -> (k + n)%nat = length (shards_ v) -> 0 <= transfers -> transfers + Z.of_nat n < 2 ^ 64 ->
  exists v' t', evacuate configs resident n k dest v transfers = Some (v', t') /\ ready (k + n) v' /\ length (shards_ v') = length (shards_ v) /\ same_roles v v' /\
    t' = transfers + Z.of_nat (moving_count (drop k (shard_owner_ v)) (drop k dest)).
Proof.
  revert k v transfers. induction n as [|n IH]; intros k v transfers Hr Hn H0 Ht; cbn [evacuate].
  { exists v, transfers. rewrite Nat.add_0_r in *. split; [done|]. split; [done|]. split; [done|]. split; [apply same_roles_refl|]. rewrite drop_ge; [unfold moving_count; cbn; lia|]. rewrite (oi_length v); [lia|apply Hr]. }
  destruct (ready_heads k v Hr ltac:(lia)) as (s & d & Es & Ed & E1 & E2). unfold worker_of_shard. rewrite Es, some_bind. unfold flip_shard_destination. rewrite (proj2 (Z.ltb_lt _ _)) by (unfold nshards; lia). rewrite Ed. change (default UINT32_MAX (Some d)) with d.
  rewrite E1, E2, moving_count_cons. replace (k + S n)%nat with (S k + n)%nat by lia. destruct (Z.eqb_spec s d) as [->|Hsd].
  - rewrite decide_False by congruence. apply IH; [by apply (ready_stay k v d); [|lia|..]|lia|lia|lia].
  - rewrite decide_True by done. destruct (re_inv k v Hr) as (Hi & Hb & Ha). destruct (re_dest k v Hr k d Ed) as [Hd Hrecv]. pose proof (oi_owner v Hi k s Es) as Hs.
    destruct (transfer_shard_spec (configs k) resident (Z.of_nat k) s d v Hi Hb ltac:(lia) ltac:(lia)) as (ok & v1 & E & Hm & Hok). rewrite Nat2Z.id in Hm, Hok. rewrite E, some_bind.
    destruct (thread_lookup v d Hd) as [to Eto]. pose proof (re_room k v Hr _ _ Eto) as Hroom. rewrite E1, E2, arrivals_cons, Z2Nat.id, decide_True in Hroom by (done || lia).
    assert (ok = true) as ->. { apply (Hok to); try done; try lia; [unfold nshards; lia|by apply (re_source k v Hr k)]. }
    cbn [negb]. pose proof (ready_move k v s d v1 Hr ltac:(lia) Es Ed Hsd Hm) as Hr1. destruct (re_inv _ _ Hr1) as (_ & _ & ->). cbn [negb].
    destruct Hm as (Hm & _). destruct (moved_counts _ _ _ _ _ Hm) as [En Et]. unfold nshards in En. assert (u64 (transfers + 1) = transfers + 1) as -> by (unfold u64; rewrite Z.mod_small; lia).
    destruct (IH (S k) v1 (transfers + 1) Hr1 ltac:(lia) ltac:(lia) ltac:(lia)) as (v' & t' & -> & Hr' & Hl & Hnt & ->). exists v', (transfers + 1 + Z.of_nat (moving_count (drop (S k) (shard_owner_ v1)) (drop (S k) dest))).
    split; [done|]. split; [done|]. split; [lia|]. split; [eapply same_roles_trans; [by eapply moved_same_roles|done]|]. rewrite (moved_drop k s d v v1 Hi Hm). lia.
Qed.
End Evacuate.

(** * Counting shards *)
Definition tally (t : Z) (l : list Z) : Z := foldr (fun d n => (if decide (d = t) then 1 else 0) + n) 0 l.
Lemma tally_bounds t l : 0 <= tally t l <= Z.of_nat (length l).
Proof. induction l as [|x l IH]; unfold tally in *; cbn [foldr length]; [lia|]. destruct (decide _); lia. Qed.
Lemma lookup_filter_S x (l : list Z) t (ns : list nat) : length (filter (fun i => (x :: l) !! i = Some t) (S <$> ns)) = length (filter (fun i => l !! i = Some t) ns).
Proof. induction ns as [|i ns IH]; [done|]. rewrite fmap_cons, !filter_cons. change ((x :: l) !! S i) with (l !! i). destruct (decide (l !! i = Some t)); cbn [length]; by rewrite IH. Qed.
Lemma tally_positions t l : Z.of_nat (length (filter (fun i => l !! i = Some t) (seq 0 (length l)))) = tally t l.
Proof.
  induction l as [|x l IH]; [done|]. cbn [length seq]. rewrite <- fmap_S_seq, filter_cons. unfold tally in *. cbn [foldr]. rewrite <- IH.
  destruct (decide ((x :: l) !! 0%nat = Some t)) as [E|E]; cbn in E; cbn [length]; rewrite lookup_filter_S; [rewrite decide_True by congruence|rewrite decide_False by congruence]; lia.
Qed.
(** The number of shards a thread owns. *)
Lemma owned_tally v tid th : own_inv v -> threads_ v !! tid = Some th -> Z.of_nat (length (owned th)) = tally (Z.of_nat tid) (shard_owner_ v).
Proof.
  intros Hi E. destruct (oi_owned v Hi _ _ E) as (Hnd & _ & Hin). rewrite <- tally_positions. f_equal. apply Permutation_length, NoDup_Permutation; [done|apply NoDup_filter, NoDup_seq|].
  intros i. rewrite Hin, list_elem_of_filter, elem_of_seq. split; [intros Ei; split; [done|apply lookup_lt_Some in Ei; lia]|tauto].
Qed.
Lemma tally_targets (ex : list Z) asg t tid : NoDup ex -> Forall (fun d => d < length ex)%nat asg -> ex !! t = Some tid -> tally tid ((fun d => ex !!! d) <$> asg) = cnt t (Some <$> asg).
Proof.
  intros Hnd Ha Et. induction Ha as [|d asg Hd _ IH]; [done|]. rewrite !fmap_cons. unfold tally, cnt in *. cbn [foldr]. rewrite IH. f_equal.
  destruct (lookup_lt_is_Some_2 ex d Hd) as [x Ex]. rewrite (list_lookup_total_correct _ _ _ Ex). destruct (decide (x = tid)) as [->|], (decide (Some d = Some t)) as [E|E]; try done.
  - exfalso. apply E. f_equal. by eapply NoDup_lookup.
  - injection E as ->. congruence.
Qed.
Lemma tally_outside (ex : list Z) asg tid : tid ∉ ex -> Forall (fun d => d < length ex)%nat asg -> tally tid ((fun d => ex !!! d) <$> asg) = 0.
Proof.
  intros Hn Ha. induction Ha as [|d asg Hd _ IH]; [done|]. rewrite fmap_cons. unfold tally in *. cbn [foldr]. rewrite IH, decide_False; [done|].
  destruct (lookup_lt_is_Some_2 ex d Hd) as [x Ex]. rewrite (list_lookup_total_correct _ _ _ Ex). intros ->. apply Hn. by eapply list_elem_of_lookup_2.
Qed.

(** Dealing the shards round is a balanced assignment. *)
Lemma deal_step n T t : 0 <= t < T -> 0 <= n -> (n + 1 + T - 1 - t) / T = (n + T - 1 - t) / T + (if decide (n mod T = t) then 1 else 0).
Proof.
  intros Ht Hn. pose proof (Z.div_mod n T ltac:(lia)) as E. pose proof (Z.mod_pos_bound n T ltac:(lia)) as Hm. set (q := n / T) in *. set (r := n mod T) in *.
  assert (forall x, 0 <= x < T -> (T * q + x) / T = q) as H0 by (intros x Hx; symmetry; apply (Z.div_unique _ _ q x); lia). assert (forall x, 0 <= x < T -> (T * q + T + x) / T = q + 1) as H1 by (intros x Hx; symmetry; apply (Z.div_unique _ _ (q + 1) x); lia).
  destruct (decide (r = t)); [|destruct (decide (r < t))].
  - replace (n + 1 + T - 1 - t) with (T * q + T + (r - t)) by lia. replace (n + T - 1 - t) with (T * q + (r + T - 1 - t)) by lia. rewrite H0, H1; lia.
  - replace (n + 1 + T - 1 - t) with (T * q + (r + T - t)) by lia. replace (n + T - 1 - t) with (T * q + (r + T - 1 - t)) by lia. rewrite !H0; lia.
  - replace (n + 1 + T - 1 - t) with (T * q + T + (r - t)) by lia. replace (n + T - 1 - t) with (T * q + T + (r - 1 - t)) by lia. rewrite !H1; lia.
Qed.
Lemma cnt_app t l1 l2 : cnt t (l1 ++ l2) = cnt t l1 + cnt t l2.
Proof. induction l1 as [|x l1 IH]; [done|]. unfold cnt in *. cbn [foldr app]. lia. Qed.
Lemma deal_count (T n t : nat) : (t < T)%nat -> cnt t (Some <$> ((fun i => i mod T)%nat <$> seq 0 n)) = (Z.of_nat n + Z.of_nat T - 1 - Z.of_nat t) / Z.of_nat T.
Proof.
  intros Ht. induction n as [|n IH]; [cbn; symmetry; apply Z.div_small; lia|]. rewrite seq_S, !fmap_app, cnt_app, IH. cbn [fmap list_fmap Nat.add]. unfold cnt at 1. cbn [foldr].
  replace (Z.of_nat (S n) + Z.of_nat T - 1 - Z.of_nat t) with (Z.of_nat n + 1 + Z.of_nat T - 1 - Z.of_nat t) by lia. rewrite deal_step by lia. rewrite <- Nat2Z.inj_mod. rewrite Z.add_0_r. f_equal.
  destruct (decide (Some (n mod T)%nat = Some t)) as [E|E], (decide (Z.of_nat (n mod T) = Z.of_nat t)); try done; [injection E as E; lia|exfalso; apply E; f_equal; lia].
Qed.
Lemma deal_balanced items targets : (forall it, it ∈ items -> it_pinned it = false) -> targets <> [] -> balanced items targets ((fun i => i mod length targets)%nat <$> seq 0 (length items)).
Proof.
  intros Hp Ht. assert (0 < length targets)%nat as HT by (destruct targets; [done|cbn; lia]). split.
  - by rewrite length_fmap, length_seq.
  - apply Forall_fmap, Forall_forall. intros i _. apply Nat.mod_upper_bound. lia.
  - intros i it d Ei _ Hpin. rewrite Hp in Hpin; [done|]. by eapply list_elem_of_lookup_2.
  - intros t Hlt. cbn zeta. rewrite deal_count by done. split; apply Z.div_le_mono; lia.
Qed.

(** * The plan's loops *)
Lemma audit_roles v ths tid seen seen' : audit_threads v tid ths seen = Some seen' -> forall th, th ∈ ths -> role th = RoleEx \/ owned th = [].
Proof.
  revert tid seen. induction ths as [|t ths IH]; intros tid seen E th; cbn [audit_threads] in E; [by intros ?%elem_of_nil|].
  destruct (negb (bool_decide (role t = RoleEx)) && _) eqn:Eg; [done|]. destruct (audit_thread v tid (owned t) seen) as [s1|]; [|done]. rewrite some_bind in E. intros [->|Hin]%elem_of_cons; [|by eapply IH].
  apply andb_false_iff in Eg as [Eg|Eg]; apply negb_false_iff, bool_decide_eq_true in Eg; auto.
Qed.
Lemma conserved_roles v : flip_shard_ownership_conserved v = true -> forall th, th ∈ threads_ v -> role th = RoleEx \/ owned th = [].
Proof.
  unfold flip_shard_ownership_conserved. destruct (_ || _); [done|]. destruct (audit_threads v 0 (threads_ v) (replicate 256 0)) as [seen|] eqn:E; [|done]. intros _. by eapply audit_roles.
Qed.
Lemma final_executors_spec v tid : tid ∈ final_executors v <-> 0 <= tid < nthreads v /\ flip_final_role v tid = RoleEx.
Proof. unfold final_executors. rewrite list_elem_of_filter, elem_of_seqZ. intuition lia. Qed.
Lemma final_executors_nodup v : NoDup (final_executors v).
Proof. apply NoDup_filter, NoDup_seqZ. Qed.

Section Plan.
Context (v : Server) (weight bytes : nat -> double) (Hi : own_inv v).
Definition item_of (i : nat) (o : Z) : WeightedLbItem := mkItem (Z.of_nat i) o (weight i) false (bytes i).
Lemma plan_items_spec n k : (k + n)%nat = length (shards_ v) -> plan_items v weight bytes n k = Some (Some (zip_with item_of (seq k n) (drop k (shard_owner_ v)))).
Proof.
  revert k. induction n as [|n IH]; intros k Hk; cbn [plan_items seq zip_with]; [done|].
  destruct (lookup_lt_is_Some_2 (shard_owner_ v) k) as [o Eo]; [rewrite (oi_length v Hi); lia|]. unfold worker_of_shard. rewrite Eo, some_bind. pose proof (oi_owner v Hi k o Eo). rewrite (proj2 (Z.leb_gt _ _)) by lia.
  rewrite IH by lia. rewrite some_bind. cbn [option_map]. by rewrite (drop_S _ _ _ Eo).
Qed.
Context (ex : list Z) (Hex : forall t, t ∈ ex -> 0 <= t < nthreads v).
Abbreviation dests asg := ((fun d => ex !!! d) <$> asg).
Lemma target_ok d : (d < length ex)%nat -> 0 <= ex !!! d < nthreads v.
Proof. intros Hd. destruct (lookup_lt_is_Some_2 ex d Hd) as [x Ex]. rewrite (list_lookup_total_correct _ _ _ Ex). apply Hex. by eapply list_elem_of_lookup_2. Qed.
Lemma take_assignments_spec os asg k p : length os = length asg -> (k + length asg)%nat = length (shards_ v) -> Forall (fun d => d < length ex)%nat asg -> length (destinations p) = length (shards_ v) ->
  (forall t q, quota p !! t = Some q -> 0 <= q /\ q + Z.of_nat (length asg) < 2 ^ 32) -> (forall t q, incoming p !! t = Some q -> 0 <= q /\ q + Z.of_nat (length asg) < 2 ^ 32) -> 0 <= moves p -> moves p + Z.of_nat (length asg) < 2 ^ 32 ->
  exists p', take_assignments v (zip_with (describe ex) (zip_with item_of (seq k (length asg)) os) asg) p = Some p' /\
    destinations p' = take k (destinations p) ++ dests asg /\
    (forall t, quota p' !! t = (fun q => q + tally (Z.of_nat t) (dests asg)) <$> quota p !! t) /\
    (forall t, incoming p' !! t = (fun q => q + Z.of_nat (arrivals os (dests asg) (Z.of_nat t))) <$> incoming p !! t) /\ moves p' = moves p + Z.of_nat (moving_count os (dests asg)).
Proof.
  revert os k p. induction asg as [|d asg IH]; intros [|o os] k p Hl Hk Ha Hd Hq Hin Hm0 Hm; try done; cbn [length seq zip_with take_assignments] in *.
  { exists p. split; [done|]. rewrite fmap_nil, app_nil_r, take_ge by lia. split; [done|]. split; [|split]; [intros t; destruct (quota p !! t)|intros t; destruct (incoming p !! t)|]; cbn; try done; f_equal; unfold tally, arrivals, moving_count; cbn; lia. }
  apply Forall_cons in Ha as [Hd0 Ha]. pose proof (target_ok d Hd0) as Ht. cbn [describe as_id as_destination as_source item_of it_id it_owner]. rewrite (proj2 (Z.leb_gt _ _)), (proj2 (Z.leb_gt _ _)) by (unfold nshards; lia). cbn [orb]. rewrite Nat2Z.id.
  assert (forall (l : list Z) t q, (forall t q, l !! t = Some q -> 0 <= q /\ q + Z.of_nat (S (length asg)) < 2 ^ 32) -> alter (fun q => u32 (q + 1)) (Z.to_nat (ex !!! d)) l !! t = Some q ->
    exists q0, l !! t = Some q0 /\ q = q0 + (if decide (ex !!! d = Z.of_nat t) then 1 else 0)) as Halt.
  { intros l t q Hb E. rewrite list_lookup_alter in E. destruct (decide (Z.to_nat (ex !!! d) = t)) as [<-|Hne].
    - apply fmap_Some in E as (q0 & E0 & ->). exists q0. split; [done|]. destruct (Hb _ _ E0). rewrite decide_True by lia. unfold u32. rewrite Z.mod_small; lia.
    - exists q. rewrite decide_False by lia. split; [done|lia]. }
  set (moving := negb (o =? ex !!! d)). set (p1 := mkShares _ _ _ _).
  assert (forall t, quota p1 !! t = (fun q => q + (if decide (ex !!! d = Z.of_nat t) then 1 else 0)) <$> quota p !! t) as Hq1.
  { intros t. cbn. destruct (alter _ _ (quota p) !! t) as [q|] eqn:E; [destruct (Halt _ _ _ Hq E) as (q0 & -> & ->); done|]. apply lookup_ge_None in E. rewrite length_alter in E. by rewrite lookup_ge_None_2. }
  assert (forall t, incoming p1 !! t = (fun q => q + (if decide (ex !!! d = Z.of_nat t /\ o <> Z.of_nat t) then 1 else 0)) <$> incoming p !! t) as Hin1.
  { intros t. cbn. unfold moving. destruct (Z.eqb_spec o (ex !!! d)) as [E0|Hne]; cbn [negb].
    - destruct (incoming p !! t); cbn; [|done]. f_equal. rewrite decide_False by lia. lia.
    - destruct (alter _ _ (incoming p) !! t) as [q|] eqn:E; [destruct (Halt _ _ _ Hin E) as (q0 & -> & ->); cbn; f_equal; f_equal; destruct (decide _), (decide _); lia|]. apply lookup_ge_None in E. rewrite length_alter in E. by rewrite lookup_ge_None_2. }
  assert (moves p1 = moves p + (if decide (o <> ex !!! d) then 1 else 0)) as Em.
  { cbn [moves p1]. unfold moving. destruct (Z.eqb_spec o (ex !!! d)); cbn [negb]; [rewrite decide_False by congruence; lia|rewrite decide_True by done; unfold u32; rewrite Z.mod_small; lia]. }
  destruct (IH os (S k) p1) as (p' & -> & H1 & H2 & H3 & H4); [by injection Hl|lia|done|cbn; by rewrite length_insert| | |rewrite Em; destruct (decide _); lia..|].
  - intros t q E. rewrite Hq1 in E. apply fmap_Some in E as (q0 & E0 & ->). destruct (Hq _ _ E0). clear Em. destruct (decide _); lia.
  - intros t q E. rewrite Hin1 in E. apply fmap_Some in E as (q0 & E0 & ->). destruct (Hin _ _ E0). clear Em. destruct (decide _); lia.
  - exists p'. split; [done|]. split; [|split; [|split]].
    + rewrite H1, fmap_cons. cbn [destinations p1]. rewrite (take_S_r _ _ (ex !!! d)) by (apply list_lookup_insert_eq; lia). rewrite take_insert_ge by lia. by rewrite <- app_assoc.
    + intros t. rewrite H2, Hq1, fmap_cons. destruct (quota p !! t); cbn; [|done]. f_equal. unfold tally. cbn [foldr]. lia.
    + intros t. rewrite H3, Hin1, fmap_cons, arrivals_cons. clear Em. destruct (incoming p !! t); cbn; [|done]. f_equal. destruct (decide _); lia.
    + rewrite H4, Em, fmap_cons, moving_count_cons. destruct (decide _); lia.
Qed.
End Plan.

(** Only capacities have grown. *)
Definition roomier (v v' : Server) : Prop :=
  router_ v' = router_ v /\ shards_ v' = shards_ v /\ shard_owner_ v' = shard_owner_ v /\ rest_same v v' /\ length (threads_ v') = length (threads_ v) /\
  forall tid th', threads_ v' !! tid = Some th' -> exists th, threads_ v !! tid = Some th /\ th' = set_capacity (capacity th') th /\ (capacity th <= capacity th')%nat.
Lemma roomier_refl v : roomier v v.
Proof.
  split; [done|]. split; [done|]. split; [done|]. split; [by split_and!|]. split; [done|]. intros tid th' E. exists th'. split; [done|]. split; [by destruct th'|done].
Qed.
Lemma roomier_trans v1 v2 v3 : roomier v1 v2 -> roomier v2 v3 -> roomier v1 v3.
Proof.
  intros (A1 & A2 & A3 & (A4 & A5 & A6 & A7) & A8 & A9) (B1 & B2 & B3 & (B4 & B5 & B6 & B7) & B8 & B9). split; [congruence|]. split; [congruence|]. split; [congruence|]. split; [split_and!; congruence|]. split; [congruence|].
  intros tid th' E. destruct (B9 tid th' E) as (th2 & E2 & Hth & Hc). destruct (A9 tid th2 E2) as (th1 & E1 & Hth2 & Hc2). exists th1. split; [done|]. split; [|lia]. rewrite Hth. rewrite Hth2. by destruct th1.
Qed.
Lemma roomier_counts v v' : roomier v v' -> nshards v' = nshards v /\ nthreads v' = nthreads v.
Proof. intros (_ & E & _ & _ & El & _). unfold nshards, nthreads. by rewrite E, El. Qed.
Lemma roomier_inv v v' : roomier v v' -> own_inv v -> bound v -> own_inv v' /\ bound v'.
Proof.
  intros Hr Hi Hb. destruct (roomier_counts v v' Hr) as [En Et]. destruct Hr as (E1 & E2 & E3 & (_ & _ & _ & E7) & El & Hth). split.
  - split; rewrite ?En, ?Et, ?E1, ?E2, ?E3; try apply Hi. intros tid th' E. destruct (Hth tid th' E) as (th & Eth & Hsc & Hc). destruct (oi_owned v Hi _ _ Eth) as (H1 & H2 & H3). rewrite Hsc. cbn. split; [done|]. split; [lia|done].
  - split; rewrite ?E2, ?E3, ?E7; [apply Hb|]. intros tid th' E. destruct (Hth tid th' E) as (th & Eth & Hsc & _). rewrite Hsc. cbn. by apply (bn_thread v Hb tid).
Qed.
Lemma roomier_roles v v' tid : roomier v v' -> live_executor v' tid = live_executor v tid /\ flip_final_role v' tid = flip_final_role v tid /\ flip_active v' = flip_active v.
Proof.
  intros Hr. destruct (roomier_counts v v' Hr) as [_ Et]. destruct Hr as (_ & _ & _ & (Ef & Ea & Ec & _) & El & Hth). unfold live_executor, flip_final_role, thread_at. rewrite Et, Ef, Ec, Ea.
  destruct (threads_ v' !! Z.to_nat tid) as [th'|] eqn:E.
  - destruct (Hth _ _ E) as (th & -> & Hsc & _). rewrite Hsc. done.
  - apply lookup_ge_None in E. rewrite lookup_ge_None_2 by lia. done.
Qed.
Lemma reserve_one oom tid n v : 0 <= tid < nthreads v -> exists v', reserve_shard_capacity oom tid n v = Some (negb oom, v') /\ roomier v v' /\
  (oom = false -> forall th', threads_ v' !! Z.to_nat tid = Some th' -> (length (owned th') + n <= capacity th')%nat).
Proof.
  intros Ht. unfold reserve_shard_capacity. rewrite (proj2 (Z.leb_gt _ _)) by lia. destruct oom; [exists v; split_and!; [done|apply roomier_refl|done]|]. eexists. split; [done|]. split.
  - split; [done|]. split; [done|]. split; [done|]. split; [by split_and!|]. split; [apply length_alter|]. intros j th' E. cbn in E. rewrite list_lookup_alter in E. destruct (decide (Z.to_nat tid = j)) as [<-|]; [|exists th'; split; [done|]; split; [by destruct th'|done]].
    apply fmap_Some in E as (th & Eth & ->). exists th. split; [done|]. split; [done|cbn; lia].
  - intros _ th' E. cbn in E. rewrite list_lookup_alter_eq in E. apply fmap_Some in E as (th & Eth & ->). cbn. lia.
Qed.
Lemma reserve_all_spec oom low high p tids v : (forall t, t ∈ tids -> 0 <= t < nthreads v /\ exists q n, quota p !! Z.to_nat t = Some q /\ low <= q <= high /\ incoming p !! Z.to_nat t = Some n) ->
  exists err v', reserve_all oom low high p tids v = Some (err, v') /\ roomier v v' /\
    match err with
    | Some e => e = NoRoom /\ exists t, t ∈ tids /\ oom t = true
    | None => forall t n th, t ∈ tids -> incoming p !! Z.to_nat t = Some n -> threads_ v' !! Z.to_nat t = Some th -> (length (owned th) + Z.to_nat n <= capacity th)%nat
    end.
Proof.
  revert v. induction tids as [|t tids IH]; intros v H; cbn [reserve_all]; [exists None, v; split_and!; [done|apply roomier_refl|by intros ??? ?%elem_of_nil]|].
  destruct (H t) as (Ht & q & n & Eq & Hq & En); [by left|]. rewrite Eq, some_bind, (proj2 (Z.ltb_ge _ _)), (proj2 (Z.ltb_ge _ _)) by lia. cbn [orb]. rewrite En, some_bind.
  destruct (reserve_one (oom t) t (Z.to_nat n) v Ht) as (v1 & -> & Hr1 & Hcap). rewrite some_bind, negb_involutive. destruct (oom t) eqn:Eo; [exists (Some NoRoom), v1; split_and!; [done..|]; exists t; split; [by left|done]|].
  destruct (roomier_counts _ _ Hr1) as [_ Et]. destruct (IH v1) as (err & v' & -> & Hr & Herr); [intros x Hx; rewrite Et; apply H; by right|]. exists err, v'. split; [done|]. split; [by eapply roomier_trans|].
  destruct err as [e|]; [destruct Herr as (-> & x & Hx & Ex); split; [done|]; exists x; split; [by right|done]|]. intros x m th [->|Hx]%elem_of_cons Em Eth; [|by eapply Herr].
  destruct Hr as (_ & _ & _ & _ & _ & Hth). destruct (Hth _ _ Eth) as (th1 & Eth1 & Hsc & Hc). rewrite Hsc. cbn. rewrite En in Em. injection Em as <-. specialize (Hcap eq_refl th1 Eth1). lia.
Qed.


(** * Roles *)
(** Only roles have changed, each to its planned one. *)
Definition recast (v v' : Server) : Prop :=
  router_ v' = router_ v /\ shards_ v' = shards_ v /\ shard_owner_ v' = shard_owner_ v /\ rest_same v v' /\ length (threads_ v') = length (threads_ v) /\
  forall tid th', threads_ v' !! tid = Some th' -> exists th, threads_ v !! tid = Some th /\ th' = set_role (role th') th /\ (role th' = role th \/ role th' = flip_final_role v (Z.of_nat tid)).
Lemma recast_refl v : recast v v.
Proof. split; [done|]. split; [done|]. split; [done|]. split; [by split_and!|]. split; [done|]. intros tid th' E. exists th'. split; [done|]. split; [by destruct th'|by left]. Qed.
Lemma recast_counts v v' : recast v v' -> nshards v' = nshards v /\ nthreads v' = nthreads v.
Proof. intros (_ & E & _ & _ & El & _). unfold nshards, nthreads. by rewrite E, El. Qed.
Lemma recast_inv v v' : recast v v' -> own_inv v -> own_inv v'.
Proof.
  intros Hr Hi. destruct (recast_counts v v' Hr) as [En Et]. destruct Hr as (E1 & E2 & E3 & _ & El & Hth).
  split; rewrite ?En, ?Et, ?E1, ?E2, ?E3; try apply Hi. intros tid th' E. destruct (Hth tid th' E) as (th & Eth & Hsr & _). rewrite Hsr. exact (oi_owned v Hi _ _ Eth).
Qed.
Lemma recast_bound v v' : recast v v' -> bound v -> bound v'.
Proof.
  intros (E1 & E2 & E3 & (_ & _ & _ & E7) & El & Hth) Hb. split; rewrite ?E2, ?E3, ?E7; [apply Hb|]. intros tid th' E. destruct (Hth tid th' E) as (th & Eth & Hsr & _). rewrite Hsr. exact (bn_thread v Hb _ _ Eth).
Qed.
Lemma recast_change tid v0 v : recast v0 v -> 0 <= tid < nthreads v0 -> recast v0 (upd_thread tid (set_role (flip_final_role v0 tid)) v).
Proof.
  intros (E1 & E2 & E3 & E4 & El & Hth) Ht. split; [done|]. split; [done|]. split; [done|]. split; [done|]. split; [cbn; by rewrite length_alter|]. intros t th' E. cbn in E. rewrite list_lookup_alter in E.
  destruct (decide (Z.to_nat tid = t)) as [<-|]; [|by apply Hth]. apply fmap_Some in E as (th1 & E & ->). destruct (Hth _ _ E) as (th & Eth & Hsr & _). exists th. split; [done|]. split; [rewrite Hsr; by destruct th|]. right. cbn. by rewrite Z2Nat.id by lia.
Qed.
Lemma role_at_change tid r v t : 0 <= tid < nthreads v -> 0 <= t -> role_at (upd_thread tid (set_role r) v) t = if decide (t = tid) then Some r else role_at v t.
Proof.
  intros Ht H0. unfold role_at, thread_at. cbn. rewrite list_lookup_alter. destruct (decide (t = tid)) as [->|]; [|by rewrite decide_False by lia].
  rewrite decide_True by done. destruct (thread_lookup v tid Ht) as [th E]. unfold thread_at in E. by rewrite E.
Qed.

Section Roles.
Context (smt : option (list Z)) (v0 : Server).
Definition paired : Prop := match smt with None => True | Some peers => forall t, 0 <= t < nthreads v0 -> 0 <= smt_peer peers t < nthreads v0 /\ smt_peer peers (smt_peer peers t) = t end.
Context (Hp : paired) (Hrole : forall th, th ∈ threads_ v0 -> role th <> RoleIdle) (Hconv : length (flip_convert_ v0) = kMaxThreads) (Hmax : nthreads v0 <= Z.of_nat kMaxThreads) (Hcand : flip_candidate_pairs_conserved smt v0 = true).
Lemma role_at_some t : 0 <= t < nthreads v0 -> exists r, role_at v0 t = Some r /\ r <> RoleIdle /\ flip_final_role v0 t = if decide (flip_candidate_target v0 t = RoleIdle) then r else flip_candidate_target v0 t.
Proof.
  intros Ht. destruct (thread_lookup v0 t Ht) as [th E]. exists (role th). unfold role_at. rewrite E. split; [done|]. split; [apply Hrole; exact (list_elem_of_lookup_2 _ _ _ E)|].
  unfold flip_final_role, flip_candidate_target. rewrite (proj2 (Z.leb_gt _ _)), (proj2 (Z.ltb_lt _ _)), E by lia. destruct (lookup_lt_is_Some_2 (flip_convert_ v0) (Z.to_nat t)) as [c Ec]; [unfold kMaxThreads in *; lia|]. by rewrite Ec.
Qed.
Lemma final_not_idle t : 0 <= t < nthreads v0 -> flip_final_role v0 t <> RoleIdle.
Proof. intros Ht. destruct (role_at_some t Ht) as (r & _ & Hr & ->). by destruct (decide _). Qed.
Lemma recast_role v t : recast v0 v -> 0 <= t < nthreads v0 -> role_at v t = role_at v0 t \/ role_at v t = Some (flip_final_role v0 t).
Proof.
  intros Hr Ht. destruct (recast_counts _ _ Hr) as [_ Et]. destruct (thread_lookup v t ltac:(lia)) as [th' E]. unfold role_at. rewrite E. destruct Hr as (_ & _ & _ & _ & _ & Hth). destruct (Hth _ _ E) as (th & Eth & _ & Hor). unfold thread_at. rewrite Eth. cbn. rewrite Z2Nat.id in Hor by lia. destruct Hor as [->| ->]; auto.
Qed.
Lemma recast_target v t : recast v0 v -> flip_candidate_target v t = flip_candidate_target v0 t.
Proof. intros Hr. destruct (recast_counts _ _ Hr) as [_ Et]. destruct Hr as (_ & _ & _ & (_ & _ & Ec & _) & _). unfold flip_candidate_target. by rewrite Et, Ec. Qed.
Lemma roles_partition (l : list Thread) : (forall th, th ∈ l -> role th <> RoleIdle) -> (length (filter (fun t => role t = RoleIfid) l) + length (filter (fun t => role t = RoleEx) l) = length l)%nat.
Proof.
  induction l as [|th l IH]; intros H; [done|]. rewrite !filter_cons. specialize (IH (fun x Hx => H x (list_elem_of_further _ _ _ Hx))). specialize (H th (list_elem_of_here _ _)).
  destruct (role th); [done|rewrite decide_True, decide_False by done|rewrite decide_False, decide_True by done]; cbn [length]; lia.
Qed.
Definition pairs (v : Server) : Prop := match smt with None => True | Some peers => forall t, 0 <= t < nthreads v0 -> role_at v t = role_at v (smt_peer peers t) end.
Lemma pairs_live v : nthreads v = nthreads v0 -> flip_live_pairs_conserved smt v = true <-> pairs v.
Proof.
  intros Et. unfold flip_live_pairs_conserved, pairs. unfold paired in Hp. destruct smt as [peers|]; [|done]. rewrite forallb_forall, Et. split.
  - intros H t Ht. specialize (H t (proj1 (list_elem_of_In _ _) (proj2 (elem_of_seqZ 0 (nthreads v0) t) ltac:(lia)))). cbn zeta in H. apply andb_prop in H as [_ H]. by apply bool_decide_eq_true in H.
  - intros H t Ht%list_elem_of_In%elem_of_seqZ. cbn zeta. destruct (Hp t ltac:(lia)) as [Hr _]. rewrite (proj2 (Z.leb_gt _ _)) by lia. cbn [negb andb]. apply bool_decide_eq_true, H. lia.
Qed.
Lemma check_passes v : recast v0 v -> pairs v -> flip_conservation_check smt v = true.
Proof.
  intros Hr Hpv. destruct (recast_counts _ _ Hr) as [_ Et]. unfold flip_conservation_check. rewrite (proj2 (pairs_live v Et) Hpv), andb_true_r. apply Z.eqb_eq. unfold role_count, nthreads. rewrite <- Nat2Z.inj_add, roles_partition; [done|].
  intros th Hin. apply list_elem_of_lookup in Hin as [t E]. pose proof (lookup_lt_Some _ _ _ E). assert (0 <= Z.of_nat t < nthreads v0) as Ht by (rewrite <- Et; unfold nthreads; lia).
  assert (role_at v (Z.of_nat t) = Some (role th)) as Ea by (unfold role_at, thread_at; rewrite Nat2Z.id, E; done). destruct (role_at_some _ Ht) as (r & Er & Hr0 & _).
  destruct (recast_role v _ Hr Ht) as [E'|E']; rewrite E' in Ea; [congruence|]. injection Ea as <-. by apply final_not_idle.
Qed.
Lemma final_pairs peers t : smt = Some peers -> 0 <= t < nthreads v0 -> flip_final_role v0 (smt_peer peers t) = flip_final_role v0 t.
Proof.
  intros E Ht. pose proof Hcand as H. unfold flip_candidate_pairs_conserved in H. rewrite E, forallb_forall in H. specialize (H t (proj1 (list_elem_of_In _ _) (proj2 (elem_of_seqZ 0 (nthreads v0) t) ltac:(lia)))). cbn zeta in H. apply andb_prop in H as [_ H]. by apply bool_decide_eq_true in H.
Qed.
(** A thread that still has another role than its target is changed, with its sibling. *)
Lemma change_role_spec tid v : recast v0 v -> pairs v -> 0 <= tid < nthreads v0 -> flip_candidate_target v0 tid <> RoleIdle -> role_at v tid <> Some (flip_candidate_target v0 tid) ->
  exists v', flip_change_role smt tid (flip_candidate_target v0 tid) v = Some v' /\ recast v0 v' /\ pairs v' /\ role_at v' tid = Some (flip_final_role v0 tid) /\
    forall t, 0 <= t < nthreads v0 -> role_at v' t = role_at v t \/ role_at v' t = Some (flip_final_role v0 t).
Proof.
  intros Hr Hpv Ht Hc Hne. destruct (recast_counts _ _ Hr) as [_ Et]. destruct (role_at_some tid Ht) as (r & Er & Hr0 & Ef). rewrite decide_False in Ef by done. unfold flip_change_role. rewrite check_passes by done. cbn [negb].
  assert (forall t w, recast v0 w -> 0 <= t < nthreads v0 -> flip_final_role v0 t = flip_candidate_target v0 tid -> change t (flip_candidate_target v0 tid) w = Some (upd_thread t (set_role (flip_final_role v0 t)) w)) as Hch.
  { intros t w Hw Hlt Eft. destruct (recast_counts _ _ Hw) as [_ Etw]. unfold change. rewrite (proj2 (Z.leb_gt _ _)), Eft by lia. destruct (flip_candidate_target v0 tid); done. }
  pose proof (recast_change tid v0 v Hr Ht) as Hr1. set (v1 := upd_thread tid _ v) in *. assert (forall t, 0 <= t -> role_at v1 t = if decide (t = tid) then Some (flip_final_role v0 tid) else role_at v t) as E1 by (intros t H0; apply role_at_change; lia).
  pose proof Hp as Hpeer. unfold paired in Hpeer. pose proof Hpv as Hpv'. unfold pairs in Hpv'. pose proof (fun peers E => final_pairs peers tid E Ht) as Hfp. pose proof check_passes as Hck. destruct smt as [peers|] eqn:Es.
  - destruct (Hpeer tid Ht) as [Hpr Hinv]. set (peer := smt_peer peers tid) in *. pose proof (Hfp peers eq_refl) as Efp. fold peer in Efp. rewrite (proj2 (Z.leb_gt _ _)) by lia. cbn [orb].
    assert (flip_candidate_target v peer = flip_candidate_target v0 tid) as ->.
    { rewrite (recast_target v peer Hr). destruct (role_at_some peer Hpr) as (rp & Erp & _ & Efp'). destruct (decide _) as [Ei|]; [|congruence]. exfalso. apply Hne. rewrite (Hpv' tid Ht). fold peer. destruct (recast_role v peer Hr Hpr) as [->| ->]; congruence. }
    rewrite bool_decide_true by done. cbn [negb]. rewrite (Hch tid v Hr Ht Ef), some_bind. fold v1. rewrite (Hch peer v1 Hr1 Hpr) by congruence. rewrite some_bind. pose proof (recast_change peer v0 v1 Hr1 Hpr) as Hr2. set (v2 := upd_thread peer _ v1) in *.
    assert (forall t, 0 <= t -> role_at v2 t = if decide (t = peer) then Some (flip_final_role v0 peer) else role_at v1 t) as E2 by (intros t H0; apply role_at_change; [destruct (recast_counts _ _ Hr1); lia|done]).
    assert (pairs v2) as Hp2.
    { unfold pairs. rewrite Es. intros t Hlt. destruct (Hpeer t Hlt) as [Hpt Hit]. rewrite !E2, !E1 by lia. destruct (decide (t = tid)) as [->|Hn1].
      - fold peer. rewrite (decide_True _ _ (eq_refl peer)). destruct (decide (tid = peer)); congruence.
      - assert (smt_peer peers t <> peer) as Hn2 by (intros E; apply Hn1; rewrite <- Hit, E; exact Hinv). rewrite (decide_False _ _ Hn2). destruct (decide (t = peer)) as [->|Hn3].
        + rewrite Hinv, decide_True by done. congruence.
        + rewrite (decide_False (P := smt_peer peers t = tid)) by (intros E; apply Hn3; unfold peer; congruence). by apply Hpv'. }
    rewrite Hck by done. exists v2. split; [done|]. split; [done|]. split; [done|]. split; [rewrite E2, E1 by lia; rewrite (decide_True (P := tid = tid)) by done; destruct (decide _); congruence|].
    intros t Hlt. rewrite E2, E1 by lia. destruct (decide (t = peer)) as [->|]; [by right|]. destruct (decide (t = tid)) as [->|]; [by right|by left].
  - rewrite (Hch tid v Hr Ht Ef), some_bind. fold v1. assert (pairs v1) as Hp1 by (unfold pairs; by rewrite Es). rewrite Hck by done. exists v1. split; [done|]. split; [done|]. split; [done|]. split; [rewrite E1, decide_True by (done || lia); done|].
    intros t Hlt. rewrite E1 by lia. destruct (decide (t = tid)) as [->|]; [by right|by left].
Qed.
Lemma commit_roles_spec n k v : recast v0 v -> pairs v -> 0 <= k -> k + Z.of_nat n = nthreads v0 -> (forall t, 0 <= t < k -> role_at v t = Some (flip_final_role v0 t)) ->
  exists v', commit_roles smt n k v = Some v' /\ recast v0 v' /\ forall t, 0 <= t < nthreads v0 -> role_at v' t = Some (flip_final_role v0 t).
Proof.
  revert k v. induction n as [|n IH]; intros k v Hr Hpv H0 Hn Hd; cbn [commit_roles]; [exists v; split; [done|]; split; [done|]; intros t Ht; apply Hd; lia|].
  rewrite (recast_target v k Hr). assert (0 <= k < nthreads v0) as Hk by lia. destruct (role_at_some k Hk) as (r & Er & _ & Ef).
  assert (forall w, (forall t, 0 <= t < nthreads v0 -> role_at w t = role_at v t \/ role_at w t = Some (flip_final_role v0 t)) -> role_at w k = Some (flip_final_role v0 k) -> forall t, 0 <= t < k + 1 -> role_at w t = Some (flip_final_role v0 t)) as Hnext.
  { intros w Hw Ek t Ht. destruct (decide (t = k)) as [->|]; [done|]. destruct (Hw t ltac:(lia)) as [->| ->]; [apply Hd; lia|done]. }
  destruct (bool_decide_reflect (flip_candidate_target v0 k = RoleIdle)) as [Ei|Hi].
  - apply IH; [done|done|lia|lia|]. apply Hnext; [by left|]. rewrite decide_True in Ef by done. destruct (recast_role v k Hr Hk) as [->| ->]; congruence.
  - rewrite decide_False in Ef by done. destruct (bool_decide_reflect (role_at v k = Some (flip_candidate_target v0 k))) as [E|Hne]; [apply IH; [done|done|lia|lia|]; apply Hnext; [by left|congruence]|].
    destruct (change_role_spec k v Hr Hpv Hk Hi Hne) as (v' & -> & Hr' & Hp' & Ek & Hw). rewrite some_bind. apply IH; [done|done|lia|lia|]. by apply Hnext.
Qed.
End Roles.

(** * Plan and evacuation together *)
Lemma ceil_share N T : 0 <= N -> 0 < T -> N / T + (if negb (N mod T =? 0) then 1 else 0) = (N + T - 1) / T.
Proof.
  intros HN HT. pose proof (Z.div_mod N T ltac:(lia)) as E. pose proof (Z.mod_pos_bound N T ltac:(lia)). destruct (Z.eqb_spec (N mod T) 0); cbn [negb].
  - apply (Z.div_unique _ _ _ (T - 1)); lia.
  - apply (Z.div_unique _ _ _ (N mod T - 1)); lia.
Qed.
Section Placed.
Context (weight bytes : nat -> double) (oom_plan : bool) (oom : Z -> bool) (v : Server) (Hi : own_inv v) (Hb : bound v) (Hsplit : fused v = false) (Hactive : flip_active v = true) (Hmax : nthreads v <= Z.of_nat kMaxThreads).
Abbreviation ex := (final_executors v).
Abbreviation N := (nshards v).
Abbreviation T := (Z.of_nat (length ex)).
Definition shared_out (dest : list Z) : Prop := length dest = length (shards_ v) /\ (forall t, t ∈ dest -> t ∈ ex) /\ forall t, t ∈ ex -> N / T <= tally t dest <= (N + T - 1) / T.
(** The partition of the plan's items: it exists, and the loop over it fills the tables. *)
Lemma plan_partition items : items = zip_with (item_of weight bytes) (seq 0 (length (shards_ v))) (shard_owner_ v) -> ex <> [] ->
  exists asg p, weighted_lb_partition items ex = Some (zip_with (describe ex) items asg) /\ length (zip_with (describe ex) items asg) = length items /\
    take_assignments v (zip_with (describe ex) items asg) (mkShares (replicate (length (shards_ v)) UINT32_MAX) (replicate kMaxThreads 0) (replicate kMaxThreads 0) 0) = Some p /\
    shared_out (destinations p) /\ (forall t, 0 <= t < nthreads v -> quota p !! Z.to_nat t = Some (tally t (destinations p)) /\ incoming p !! Z.to_nat t = Some (Z.of_nat (arrivals (shard_owner_ v) (destinations p) t))) /\ moves p = Z.of_nat (moving_count (shard_owner_ v) (destinations p)).
Proof.
  intros -> Hne. pose proof (oi_length v Hi) as Hlen. destruct (oi_count v Hi) as [Hn _]. set (items := zip_with _ _ _). assert (length items = length (shards_ v)) as Hli by (unfold items; rewrite length_zip_with, length_seq; lia).
  assert (Z.of_nat (length items) < 4294967296) as HN by (unfold nshards in Hn; lia).
  assert (length ex <= length (seqZ 0 (nthreads v)))%nat as Hle by apply length_filter. rewrite length_seqZ in Hle.
  assert (0 < T < 4294967296) as HT by (destruct ex; [done|]; cbn [length] in *; unfold kMaxThreads in Hmax; lia).
  assert (forall it, it ∈ items -> it_pinned it = false) as Hpin by (intros it [i Ei]%list_elem_of_lookup; unfold items in Ei; apply lookup_zip_with_Some in Ei as (a & o & -> & _); done).
  destruct (weighted_lb_partition items ex) as [out|] eqn:E; [|by destruct (partition_complete items ex HN HT _ (deal_balanced items ex Hpin Hne))].
  destruct (partition_sound items ex HN HT out E) as (asg & Hbal & ->). pose proof (WeightedLb.ba_length _ _ _ Hbal) as Hla. pose proof (ba_target _ _ _ Hbal) as Hta.
  assert (forall t, t ∈ ex -> 0 <= t < nthreads v) as Hex by (intros t Ht; by apply final_executors_spec).
  destruct (take_assignments_spec v weight bytes ex Hex (shard_owner_ v) asg 0 (mkShares (replicate (length (shards_ v)) UINT32_MAX) (replicate kMaxThreads 0) (replicate kMaxThreads 0) 0)) as (p & Ep & Hd & Hq & Hin & Hm);
    [lia|lia|done|apply length_replicate|intros t q Et; apply lookup_replicate in Et as [-> _]; unfold nshards in Hn; lia..|cbn; lia|cbn; unfold nshards in Hn; lia|].
  exists asg, p. split; [done|]. split; [rewrite length_zip_with; lia|]. split; [replace (length asg) with (length (shards_ v)) in Ep by lia; exact Ep|]. rewrite take_0, app_nil_l in Hd. rewrite Hd. split; [|split].
  - split_and!; [rewrite length_fmap; lia|intros t Ht; apply list_elem_of_fmap in Ht as (d & -> & Hd'); rewrite Forall_forall in Hta; specialize (Hta d Hd'); apply list_elem_of_lookup; exists d; by apply list_lookup_lookup_total_lt|].
    intros t Ht. apply list_elem_of_lookup in Ht as [j Ej]. rewrite (tally_targets ex asg j t (final_executors_nodup v) Hta Ej). pose proof (ba_share _ _ _ Hbal j ltac:(by eapply lookup_lt_Some)) as Hs. cbn zeta in Hs. rewrite Hli in Hs. exact Hs.
  - intros t Ht. rewrite Hq, Hin. cbn [quota incoming]. rewrite lookup_replicate_2 by (unfold kMaxThreads in *; lia). cbn. rewrite Z2Nat.id by lia. done.
  - rewrite Hm. done.
Qed.
Lemma plan_spec : exists res v1, flip_reserve_shard_plan weight bytes oom_plan oom v = Some (res, v1) /\ roomier v v1 /\
  match res with
  | inl e => (e = NotAPartition /\ exists th, th ∈ threads_ v /\ role th <> RoleEx /\ owned th <> []) \/ (e = NoBucketOwner /\ ex = []) \/ (e = NoRoom /\ exists t, oom t = true) \/ (e = NoMemory /\ oom_plan = true)
  | inr p => shared_out (destinations p) /\ (forall t, 0 <= t < nthreads v -> quota p !! Z.to_nat t = Some (tally t (destinations p))) /\ moves p = Z.of_nat (moving_count (shard_owner_ v) (destinations p)) /\ (forall th, th ∈ threads_ v -> role th = RoleEx \/ owned th = []) /\
      forall t th, t ∈ ex -> threads_ v1 !! Z.to_nat t = Some th -> (length (owned th) + arrivals (shard_owner_ v) (destinations p) t <= capacity th)%nat
  end.
Proof.
  unfold flip_reserve_shard_plan. destruct (flip_shard_ownership_conserved v) eqn:Ec; cbn [negb].
  2:{ eexists _, v. split; [done|]. split; [apply roomier_refl|]. left. split; [done|]. destruct (decide (Forall (fun th => role th = RoleEx \/ owned th = []) (threads_ v))) as [Hall|Hex].
      - rewrite audit_passes in Ec; [done|done|]. by apply Forall_forall.
      - pose proof (not_Forall_Exists _ _ Hex) as Hx. apply Exists_exists in Hx as (th & Hth & Hn). exists th. split; [done|]. split; intros E; apply Hn; first [by left|by right]. }
  destruct (bool_decide_reflect (ex = [])) as [He|Hne]; [eexists _, v; split; [done|]; split; [apply roomier_refl|]; right; left; done|].
  destruct oom_plan eqn:Eop; [eexists _, v; split; [done|]; split; [apply roomier_refl|]; right; right; right; done|].
  rewrite (plan_items_spec v weight bytes Hi _ 0) by done. rewrite some_bind, drop_0. set (items := zip_with _ _ _).
  destruct (plan_partition items eq_refl Hne) as (asg & p & -> & Hl & Ep & Hsh & Hqi & Hmv). rewrite Hl, Nat.eqb_refl. cbn [negb]. rewrite Ep, some_bind. destruct (oi_count v Hi) as [Hn _].
  rewrite ceil_share by (destruct ex; [done|cbn [length]; lia]).
  destruct (reserve_all_spec oom (N / T) ((N + T - 1) / T) p ex v) as (err & v1 & -> & Hr & Herr).
  { intros t Ht. pose proof (proj1 (final_executors_spec v t) Ht) as [Hrange _]. split; [done|]. destruct (Hqi t Hrange) as [-> ->]. eexists _, _. split; [done|]. split; [by apply Hsh|done]. }
  rewrite some_bind. eexists _, v1. split; [done|]. split; [done|]. destruct err as [e|].
  - destruct Herr as (-> & t & _ & Ht). right. right. left. eauto.
  - split; [done|]. split; [intros t Ht; by apply Hqi|]. split; [done|]. split; [by apply conserved_roles|]. intros t th Ht Eth. pose proof (proj1 (final_executors_spec v t) Ht) as [Hrange _]. destruct (Hqi t Hrange) as [_ Ein]. specialize (Herr t _ th Ht Ein Eth). by rewrite Nat2Z.id in Herr.
Qed.
Lemma placed_ready dest v1 : roomier v v1 -> shared_out dest -> (forall th, th ∈ threads_ v -> role th = RoleEx \/ owned th = []) ->
  (forall t th, t ∈ ex -> threads_ v1 !! Z.to_nat t = Some th -> (length (owned th) + arrivals (shard_owner_ v) dest t <= capacity th)%nat) -> ready dest 0 v1.
Proof.
  intros Hr (Hl & Hin & _) Hroles Hroom. destruct (roomier_inv v v1 Hr Hi Hb) as [Hi1 Hb1]. destruct (roomier_counts v v1 Hr) as [En Et]. pose proof Hr as (E1 & E2 & E3 & (_ & Ea & _) & El & Hth). split.
  - split; [done|]. split; [done|]. by rewrite Ea.
  - by rewrite E2.
  - intros i t Ed. rewrite Et. assert (t ∈ ex) as Ht by (apply Hin; by eapply list_elem_of_lookup_2). apply final_executors_spec in Ht as [Ht Hrole]. split; [done|].
    unfold may_receive. destruct (roomier_roles v v1 t Hr) as (_ & -> & ->). rewrite Hactive, bool_decide_true by done. apply orb_true_r.
  - intros i t _ Eo. rewrite E3 in Eo. pose proof (oi_owner v Hi i t Eo) as Ht. destruct (roomier_roles v v1 t Hr) as (-> & _). destruct (thread_lookup v t Ht) as [th Eth]. unfold live_executor. rewrite (proj2 (Z.leb_gt _ _)), Eth, Hsplit by lia.
    apply bool_decide_eq_true. destruct (Hroles th) as [|Hnil]; [by eapply list_elem_of_lookup_2|done|]. destruct (oi_owned v Hi _ _ Eth) as (_ & _ & Ho). exfalso. apply (not_elem_of_nil i). rewrite <- Hnil. apply Ho. by rewrite Z2Nat.id by lia.
  - intros tid th' Eth'. rewrite !drop_0, E3. destruct (decide (Z.of_nat tid ∈ ex)) as [Hex|Hex]; [apply (Hroom _ th' Hex); by rewrite Nat2Z.id|].
    assert (arrivals (shard_owner_ v) dest (Z.of_nat tid) = 0%nat) as ->; [|destruct (oi_owned v1 Hi1 _ _ Eth') as (_ & ? & _); lia].
    unfold arrivals. apply length_zero_iff_nil.  destruct (filter _ _) as [|[a b] l] eqn:Ef; [done|]. exfalso. assert ((a, b) ∈ filter (fun x => x.2 = Z.of_nat tid /\ x.1 <> Z.of_nat tid) (zip (shard_owner_ v) dest)) as Hx by (rewrite Ef; left).
    apply list_elem_of_filter in Hx as [[Hx _] Hz]. cbn in Hx. apply Hex, Hin. rewrite <- Hx. apply list_elem_of_lookup in Hz as [i Hz]. apply lookup_zip_with_Some in Hz as (? & ? & [= <- <-] & _ & Hz). by eapply list_elem_of_lookup_2.
  - lia.
Qed.
End Placed.

(** * Completion *)
Lemma roomier_same_roles v v' : roomier v v' -> same_roles v v'.
Proof.
  intros Hr. destruct (roomier_counts v v' Hr) as [_ Et]. destruct Hr as (_ & _ & _ & Hrest & El & Hth). split; [done|]. split; [done|]. intros t Ht. unfold role_at, thread_at. destruct (threads_ v' !! Z.to_nat t) as [th'|] eqn:E.
  - destruct (Hth _ _ E) as (th & -> & Hsc & _). rewrite Hsc. done.
  - apply lookup_ge_None in E. rewrite lookup_ge_None_2 by lia. done.
Qed.
Lemma same_paired smt v v' : same_roles v v' -> paired smt v -> paired smt v'.
Proof. intros (_ & Et & _) Hp. unfold paired in *. by rewrite Et. Qed.
Lemma same_pairs smt v v' : paired smt v -> same_roles v v' -> pairs smt v v -> pairs smt v' v'.
Proof.
  intros Hp (_ & Et & Hr) H. unfold paired, pairs in *. destruct smt as [peers|]; [|done]. intros t Ht. rewrite Et in Ht. destruct (Hp t Ht) as [Hpr _]. rewrite !Hr by lia. by apply H.
Qed.
Lemma same_candidates smt v v' : paired smt v -> same_roles v v' -> flip_candidate_pairs_conserved smt v = true -> flip_candidate_pairs_conserved smt v' = true.
Proof.
  intros Hp Hs. pose proof Hs as (_ & Et & _). unfold paired, flip_candidate_pairs_conserved in *. destruct smt as [peers|]; [|done]. rewrite !forallb_forall, Et. intros H t Hin. specialize (H t Hin). cbn zeta in *. apply list_elem_of_In, elem_of_seqZ in Hin. destruct (Hp t ltac:(lia)) as [Hpr _].
  rewrite !(same_final v v') by (done || lia). done.
Qed.
Lemma role_at_thread v tid th : threads_ v !! tid = Some th -> role_at v (Z.of_nat tid) = Some (role th).
Proof. intros E. unfold role_at, thread_at. by rewrite Nat2Z.id, E. Qed.
Lemma count_owners_spec v n k b : own_inv v -> (k + n)%nat = length (shards_ v) -> (forall t q, b !! t = Some q -> 0 <= q /\ q + Z.of_nat n < 2 ^ 32) ->
  exists b', count_buckets v n k b = Some b' /\ forall t, b' !! t = (fun q => q + tally (Z.of_nat t) (drop k (shard_owner_ v))) <$> b !! t.
Proof.
  intros Hi. revert k b. induction n as [|n IH]; intros k b Hk Hb; cbn [count_buckets].
  { exists b. split; [done|]. intros t. rewrite drop_ge by (rewrite (oi_length v Hi); lia). destruct (b !! t); cbn; [f_equal; unfold tally; cbn; lia|done]. }
  destruct (lookup_lt_is_Some_2 (shard_owner_ v) k) as [o Eo]; [rewrite (oi_length v Hi); lia|]. unfold worker_of_shard. rewrite Eo, some_bind. pose proof (oi_owner v Hi k o Eo). rewrite (proj2 (Z.leb_gt _ _)) by lia. set (b1 := alter _ _ b).
  assert (forall t, b1 !! t = (fun q => q + (if decide (o = Z.of_nat t) then 1 else 0)) <$> b !! t) as E1.
  { intros t. unfold b1. rewrite list_lookup_alter. destruct (decide (Z.to_nat o = t)) as [<-|Hne]; destruct (b !! _) as [q|] eqn:E; cbn; try done; f_equal; [destruct (Hb _ _ E); rewrite decide_True by lia; unfold u32; rewrite Z.mod_small; lia|rewrite decide_False by lia; lia]. }
  destruct (IH (S k) b1) as (b' & -> & Hb'); [lia|intros t q E; rewrite E1 in E; apply fmap_Some in E as (q0 & E0 & ->); destruct (Hb _ _ E0); destruct (decide _); lia|]. exists b'. split; [done|].
  intros t. rewrite Hb', E1, (drop_S _ _ _ Eo). destruct (b !! t); cbn; [|done]. f_equal. unfold tally. cbn [foldr]. lia.
Qed.
Lemma check_quotas_spec (L H : Z) buckets quotas ths tid lo hi : (forall j th, ths !! j = Some th -> role th = RoleEx -> exists x, buckets !! (tid + j)%nat = Some x /\ quotas !! (tid + j)%nat = Some x /\ L <= x <= H) ->
  exists lo' hi', check_quotas ths tid buckets quotas lo hi = Some (lo', hi') /\ Z.min lo L <= lo' <= lo /\ hi <= hi' <= Z.max hi H /\ ((exists th, th ∈ ths /\ role th = RoleEx) -> lo' <= hi' /\ lo' <= H).
Proof.
  revert tid lo hi. induction ths as [|th ths IH]; intros tid lo hi Hx; cbn [check_quotas]; [exists lo, hi; split; [done|]; split; [lia|]; split; [lia|]; intros (th & []%elem_of_nil & _)|].
  assert (forall j t, ths !! j = Some t -> role t = RoleEx -> exists x, buckets !! (S tid + j)%nat = Some x /\ quotas !! (S tid + j)%nat = Some x /\ L <= x <= H) as Hx' by (intros j t E Er; replace (S tid + j)%nat with (tid + S j)%nat by lia; by apply (Hx (S j) t)).
  destruct (bool_decide_reflect (role th = RoleEx)) as [Er|Hn].
  - destruct (Hx 0%nat th eq_refl Er) as (x & Eb & Eq & Hr). rewrite Nat.add_0_r in Eb, Eq. rewrite Eb, some_bind, Eq, some_bind, Z.eqb_refl. cbn [negb].
    destruct (IH (S tid) (Z.min lo x) (Z.max hi x) Hx') as (lo' & hi' & -> & H1 & H2 & _). exists lo', hi'. split; [done|]. split; [lia|]. split; [lia|]. intros _. lia.
  - destruct (IH (S tid) lo hi Hx') as (lo' & hi' & -> & H1 & H2 & H3). exists lo', hi'. split; [done|]. split; [lia|]. split; [lia|]. intros (t & [->|Ht]%elem_of_cons & Et); [done|]. apply H3. eauto.
Qed.
Lemma tally_absent t l : t ∉ l -> tally t l = 0.
Proof. intros Hn. induction l as [|x l IH]; [done|]. apply not_elem_of_cons in Hn as [? Hn]. unfold tally in *. cbn [foldr]. rewrite IH, decide_False by done. done. Qed.
Section Complete.
Context (v v2 : Server) (p : Shares) (Hi2 : own_inv v2) (En : length (shards_ v2) = length (shards_ v)) (Et : nthreads v2 = nthreads v) (Hmax : nthreads v <= Z.of_nat kMaxThreads).
Context (Hown : shard_owner_ v2 = destinations p) (Hroles : forall t, 0 <= t < nthreads v -> role_at v2 t = Some (flip_final_role v t)) (Hsh : shared_out v (destinations p)).
Lemma placed_threads tid th : threads_ v2 !! tid = Some th ->
  if decide (role th = RoleEx) then nshards v / Z.of_nat (length (final_executors v)) <= Z.of_nat (length (owned th)) <= (nshards v + Z.of_nat (length (final_executors v)) - 1) / Z.of_nat (length (final_executors v)) else owned th = [].
Proof.
  intros E. pose proof (lookup_lt_Some _ _ _ E). assert (0 <= Z.of_nat tid < nthreads v) as Ht by (rewrite <- Et; unfold nthreads; lia). pose proof (Hroles _ Ht) as Er. rewrite (role_at_thread _ _ _ E) in Er. injection Er as Er.
  pose proof (owned_tally v2 tid th Hi2 E) as Eo. rewrite Hown in Eo. destruct Hsh as (_ & Hin & Hq). destruct (decide (role th = RoleEx)) as [Ex|Hn].
  - rewrite Eo. apply Hq, final_executors_spec. split; [done|congruence].
  - rewrite tally_absent in Eo; [destruct (owned th); [done|cbn in Eo; lia]|]. intros Hd%Hin%final_executors_spec. destruct Hd. congruence.
Qed.
Lemma completes clients moved : moves p + clients < 2 ^ 64 -> 0 <= moves p + clients -> moved = moves p + clients -> (forall t, 0 <= t < nthreads v -> quota p !! Z.to_nat t = Some (tally t (destinations p))) -> flip_complete_shards p clients moved v2 = Some moved.
Proof.
  intros Hc H0 -> Hq. unfold flip_complete_shards. rewrite audit_passes; [|done|intros th [tid E]%list_elem_of_lookup; pose proof (placed_threads tid th E) as Hp; destruct (decide (role th = RoleEx)); auto]. cbn [negb].
  destruct (oi_count v2 Hi2) as [Hn _]. unfold nshards in Hn. destruct (count_owners_spec v2 (length (shards_ v2)) 0 (replicate kMaxThreads 0) Hi2 ltac:(lia)) as (b & -> & Hb); [intros t q E; apply lookup_replicate in E as [-> _]; lia|]. rewrite some_bind.
  set (T := Z.of_nat (length (final_executors v))). set (N := nshards v).
  destruct (check_quotas_spec (N / T) ((N + T - 1) / T) b (quota p) (threads_ v2) 0 UINT32_MAX 0) as (lo & hi & -> & Hlo & Hhi & Hex).
  { intros j th E Er. pose proof (lookup_lt_Some _ _ _ E). assert (0 <= Z.of_nat j < nthreads v) as Ht by (rewrite <- Et; unfold nthreads; lia). exists (tally (Z.of_nat j) (destinations p)). cbn [Nat.add]. split; [|split].
    - rewrite Hb, drop_0, Hown, lookup_replicate_2 by (unfold kMaxThreads in *; lia). cbn. done.
    - rewrite <- (Nat2Z.id j) at 1. by apply Hq.
    - apply Hsh, final_executors_spec. split; [done|]. pose proof (Hroles _ Ht) as Er'. rewrite (role_at_thread _ _ _ E) in Er'. congruence. }
  rewrite some_bind. assert (0 < T) as HT.
  { destruct Hsh as (Hl & Hin & _). unfold T. destruct (destinations p) as [|d l]; [cbn in Hl; lia|]. specialize (Hin d (list_elem_of_here _ _)). destruct (final_executors v); [by apply elem_of_nil in Hin|cbn; lia]. }
  destruct Hex as [H1 H2].
  { assert (exists t, t ∈ final_executors v) as [t Ht] by (destruct (final_executors v) as [|t l] eqn:E; [unfold T in HT; cbn in HT; lia|exists t; left]). apply final_executors_spec in Ht as [Hr Hf]. destruct (thread_lookup v2 t ltac:(lia)) as [th Eth].
    exists th. split; [exact (list_elem_of_lookup_2 _ _ _ Eth)|]. pose proof (Hroles t Hr) as E. unfold role_at in E. rewrite Eth in E. cbn in E. congruence. }
  pose proof (ceil_share N T ltac:(unfold N, nshards; lia) HT) as Ec. assert (N / T <= N) by (apply Z.div_le_upper_bound; unfold N, nshards in *; nia). assert (0 <= N / T) by (apply Z.div_pos; unfold N, nshards; lia).
  assert (N <= 256) by (unfold N, nshards; lia). assert ((N + T - 1) / T <= N / T + 1) by (rewrite <- Ec; destruct (negb _); lia).
  rewrite (proj2 (Z.eqb_neq lo UINT32_MAX)) by (unfold UINT32_MAX; lia). cbn [orb]. unfold u32. rewrite Z.mod_small by (unfold UINT32_MAX in *; lia). rewrite (proj2 (Z.ltb_ge _ _)) by (unfold UINT32_MAX in *; lia).
  unfold u64. rewrite (Z.mod_small (moves p + clients)) by lia. by rewrite Z.eqb_refl.
Qed.
End Complete.

(** * A FLIP on two executors, which turns the second into an IO thread *)
Lemma assign_homes_same resident homes k v v' : assign_homes resident k homes v = Some v' -> same_roles v v' /\ length (shards_ v') = length (shards_ v).
Proof.
  revert k v. induction homes as [|tid homes IH]; intros k v E; cbn [assign_homes] in E; [injection E as <-; split; [apply same_roles_refl|done]|].
  destruct (thread_at v tid) as [th|]; [|done]. rewrite some_bind in E. destruct (set_worker_of_shard _ _ _) as [v1|] eqn:E1; [|done]. rewrite some_bind in E.
  unfold set_worker_of_shard in E1. destruct (_ || _); [done|]. destruct (_ !! Z.to_nat (Z.of_nat k)); [|done]. rewrite some_bind in E1. destruct (set_initial_owner _ _ _ _) as [r|]; [|done]. rewrite some_bind in E1. injection E1 as <-.
  destruct (IH _ _ E) as [Hs Hl]. split; [|rewrite Hl; cbn; by rewrite length_alter]. eapply same_roles_trans; [|exact Hs]. split; [by split_and!|]. split; [unfold nthreads; cbn; by rewrite length_alter|].
  intros t Ht. unfold role_at, thread_at. cbn. rewrite list_lookup_alter. destruct (decide _) as [<-|]; [|done]. destruct (threads_ v !! _) as [t0|]; [|done]. cbn. unfold push_owned. by destruct (_ =? _)%nat.
Qed.
Definition with_flip (convert : list Role) (v : Server) : Server := mkServer (router_ v) (shards_ v) (shard_owner_ v) (threads_ v) (fused v) true convert (read_local v).
Definition demo_flip : Server := with_flip (RoleIdle :: RoleIfid :: replicate 126 RoleIdle) demo_server.
Lemma demo_same : same_roles demo_boot demo_server.
Proof.
  destruct (assign_homes_spec (fun _ => 0) [0; 1] 0 demo_boot demo_boot_inv) as (v & E & _); [done|repeat constructor; cbn; lia|]. unfold demo_server. rewrite E. change (default demo_boot (Some v)) with v. by apply (assign_homes_same _ _ _ _ _ E).
Qed.
#[local] Opaque demo_server.
Lemma with_flip_inv convert v : own_inv v -> bound v -> own_inv (with_flip convert v) /\ bound (with_flip convert v).
Proof. intros [H1 H2 H3 H4 H5 H6 H7] [B1 B2]. split; by split. Qed.
Lemma demo_flip_inv : own_inv demo_flip /\ bound demo_flip.
Proof. apply with_flip_inv; [apply demo_server_inv|apply demo_bound]. Qed.
Lemma with_flip_flags convert v : fused (with_flip convert v) = fused v /\ flip_active (with_flip convert v) = true /\ flip_convert_ (with_flip convert v) = convert.
Proof. by split. Qed.
Lemma with_flip_threads convert v : threads_ (with_flip convert v) = threads_ v.
Proof. done. Qed.
Lemma demo_flip_threads : nthreads demo_flip = 3.
Proof. rewrite <- (proj1 (proj2 demo_same) : nthreads demo_server = 3). unfold demo_flip, nthreads. by rewrite with_flip_threads. Qed.
Lemma demo_flip_flags : fused demo_flip = false /\ flip_active demo_flip = true /\ length (flip_convert_ demo_flip) = kMaxThreads.
Proof. destruct demo_same as ((E & _) & _). unfold demo_flip. destruct (with_flip_flags (RoleIdle :: RoleIfid :: replicate 126 RoleIdle) demo_server) as (-> & -> & ->). rewrite E. clear E. split; [reflexivity|split; reflexivity]. Qed.
Lemma demo_flip_role t : 0 <= t -> role_at demo_flip t = role_at demo_boot t.
Proof. intros Ht. transitivity (role_at demo_server t); [unfold demo_flip, role_at, thread_at; by rewrite with_flip_threads|exact (proj2 (proj2 demo_same) t Ht)]. Qed.
Lemma demo_flip_roles th : th ∈ threads_ demo_flip -> role th <> RoleIdle.
Proof.
  intros [t E]%list_elem_of_lookup. pose proof demo_flip_threads as Hn. unfold nthreads in Hn. pose proof (lookup_lt_Some _ _ _ E) as Hlt. pose proof (role_at_thread _ _ _ E) as Er. rewrite demo_flip_role in Er by lia.
  clear E. destruct t as [|[|[|t]]]; [by injection Er as <-..|lia].
Qed.

(** C18: A FLIP gives every shard an owner and completes.  For a server whose shards each have one
    owner and whose SMT siblings agree, the plan answers; it refuses only when a thread that is no
    executor owns shards, when no executor would be left, or when an allocation fails, and then the
    owners are as before.  Otherwise the commit reaches its end without an abort: every thread has
    its final role, every shard the owner the plan gave it, every executor owns the floor or the
    ceiling of its share and the other threads own nothing, and the checks of the completion pass
    with exactly the transfers that were planned. *)
Theorem flip_places_every_shard smt configs resident weight bytes oom_plan oom clients v :
  own_inv v -> bound v -> fused v = false -> flip_active v = true -> nthreads v <= Z.of_nat kMaxThreads -> length (flip_convert_ v) = kMaxThreads -> (forall th, th ∈ threads_ v -> role th <> RoleIdle) ->
  paired smt v -> flip_live_pairs_conserved smt v = true -> flip_candidate_pairs_conserved smt v = true -> 0 <= clients < 2 ^ 32 ->
  let N := nshards v in let T := Z.of_nat (length (final_executors v)) in
  exists res v1, flip_reserve_shard_plan weight bytes oom_plan oom v = Some (res, v1) /\ own_inv v1 /\ bound v1 /\ shard_owner_ v1 = shard_owner_ v /\
  match res with
  | inl e => (e = NotAPartition /\ exists th, th ∈ threads_ v /\ role th <> RoleEx /\ owned th <> []) \/ (e = NoBucketOwner /\ final_executors v = []) \/ (e = NoRoom /\ exists t, oom t = true) \/ (e = NoMemory /\ oom_plan = true)
  | inr p => exists v2 moved, flip_commit_roles_and_evacuate_shards smt configs resident (destinations p) v1 clients = Some (v2, moved) /\ own_inv v2 /\ bound v2 /\ shard_owner_ v2 = destinations p /\
      (forall tid, 0 <= tid < nthreads v -> role_at v2 tid = Some (flip_final_role v tid)) /\
      (forall tid th, threads_ v2 !! tid = Some th -> if decide (role th = RoleEx) then N / T <= Z.of_nat (length (owned th)) <= (N + T - 1) / T else owned th = []) /\
      flip_complete_shards p clients moved v2 = Some moved /\ moved = clients + Z.of_nat (moving_count (shard_owner_ v) (shard_owner_ v2))
  end.
Proof.
  intros Hi Hb Hsplit Hactive Hmax Hconv Hrole Hp Hlive Hcand Hc N T.
  destruct (plan_spec weight bytes oom_plan oom v Hi Hmax) as (res & v1 & E & Hr & Hres). destruct (roomier_inv v v1 Hr Hi Hb) as [Hi1 Hb1]. pose proof (proj1 (proj2 (proj2 Hr))) as Eo. exists res, v1. split; [done|]. split; [done|]. split; [done|]. split; [done|].
  destruct res as [e|p]; [done|]. destruct Hres as (Hsh & Hq & Hmv & Hroles & Hroom). pose proof (placed_ready v Hi Hb Hsplit Hactive (destinations p) v1 Hr Hsh Hroles Hroom) as Hready. destruct (oi_count v1 Hi1) as [Hn _]. unfold nshards in Hn.
  destruct (evacuate_spec configs resident (destinations p) (length (shards_ v1)) 0 v1 clients Hready eq_refl ltac:(lia) ltac:(lia)) as (w & moved & Ew & Hrw & Hlw & Hsw & Hmoved). destruct (re_inv _ _ _ Hrw) as (Hiw & Hbw & _).
  rewrite !drop_0, Eo in Hmoved. pose proof (same_roles_trans _ _ _ (roomier_same_roles v v1 Hr) Hsw) as Hs. pose proof Hs as ((_ & _ & Ec & _) & Et & Hra).
  assert (forall th, th ∈ threads_ w -> role th <> RoleIdle) as Hrw'.
  { intros th [t E']%list_elem_of_lookup. pose proof (lookup_lt_Some _ _ _ E'). pose proof (role_at_thread _ _ _ E') as Er. rewrite Hra in Er by lia. unfold role_at in Er. destruct (thread_at v (Z.of_nat t)) as [th0|] eqn:E0; [|done]. injection Er as <-. apply Hrole. exact (list_elem_of_lookup_2 _ _ _ E0). }
  destruct (commit_roles_spec smt w (same_paired smt v w Hs Hp) Hrw' ltac:(congruence) ltac:(lia) (same_candidates smt v w Hp Hs Hcand) (length (threads_ w)) 0 w (recast_refl w)) as (v2 & E2 & Hr2 & Hfin);
    [apply (same_pairs smt v w Hp Hs), (pairs_live smt v Hp Hconv Hcand v eq_refl), Hlive|lia|unfold nthreads; lia|lia|].
  pose proof (recast_inv w v2 Hr2 Hiw) as Hi2. destruct (recast_counts w v2 Hr2) as [_ Et2]. pose proof Hr2 as (_ & Es2 & Eo2 & _). rewrite Et in Et2, Hfin.
  assert (forall t, 0 <= t < nthreads v -> role_at v2 t = Some (flip_final_role v t)) as Hf by (intros t Ht; rewrite Hfin, (same_final v w t Hs) by (done || lia); done).
  assert (shard_owner_ v2 = destinations p) as Ed.
  { rewrite Eo2. apply list_eq. intros i. destruct (decide (i < length (shards_ v1))%nat); [by apply (re_done _ _ _ Hrw); lia|]. pose proof (re_length _ _ _ Hready). rewrite !lookup_ge_None_2 by (rewrite ?(oi_length w Hiw); lia). done. }
  assert (length (shards_ v2) = length (shards_ v)) as El by (rewrite Es2, Hlw; by rewrite (proj1 (proj2 Hr))).
  exists v2, moved. unfold flip_commit_roles_and_evacuate_shards. rewrite Ew, some_bind, E2, some_bind. split; [done|]. split; [done|]. split; [by apply (recast_bound w)|]. split; [done|]. split; [done|].
  split; [intros tid th Eth; exact (placed_threads v v2 p Hi2 El Et2 Ed Hf Hsh tid th Eth)|]. rewrite Ed, Hmoved. split; [|done]. apply (completes v v2 p Hi2 El Et2 Hmax Ed Hf Hsh); [|lia|lia|done].
  assert (moving_count (shard_owner_ v) (destinations p) <= length (zip (shard_owner_ v) (destinations p)))%nat as Hle by apply length_filter. rewrite length_zip_with, (oi_length v Hi) in Hle. rewrite <- (proj1 (proj2 Hr)) in Hle. lia.
Qed.
Lemma flip_places_every_shard_witness :
  let v := demo_flip in let N := nshards v in let T := Z.of_nat (length (final_executors v)) in
  exists res v1, flip_reserve_shard_plan (fun _ => d_zero) (fun _ => d_zero) false (fun _ => false) v = Some (res, v1) /\ own_inv v1 /\ bound v1 /\ shard_owner_ v1 = shard_owner_ v /\
  match res with
  | inl e => (e = NotAPartition /\ exists th, th ∈ threads_ v /\ role th <> RoleEx /\ owned th <> []) \/ (e = NoBucketOwner /\ final_executors v = []) \/ (e = NoRoom /\ exists t : Z, false = true) \/ (e = NoMemory /\ false = true)
  | inr p => exists v2 moved, flip_commit_roles_and_evacuate_shards None (fun _ => demo_config) (fun _ => 0) (destinations p) v1 3 = Some (v2, moved) /\ own_inv v2 /\ bound v2 /\ shard_owner_ v2 = destinations p /\
      (forall tid, 0 <= tid < nthreads v -> role_at v2 tid = Some (flip_final_role v tid)) /\
      (forall tid th, threads_ v2 !! tid = Some th -> if decide (role th = RoleEx) then N / T <= Z.of_nat (length (owned th)) <= (N + T - 1) / T else owned th = []) /\
      flip_complete_shards p 3 moved v2 = Some moved /\ moved = 3 + Z.of_nat (moving_count (shard_owner_ v) (shard_owner_ v2))
  end.
Proof.
  apply (flip_places_every_shard None (fun _ => demo_config) (fun _ => 0) (fun _ => d_zero) (fun _ => d_zero) false (fun _ => false) 3 demo_flip);
    [apply demo_flip_inv|apply demo_flip_inv|apply demo_flip_flags|apply demo_flip_flags|rewrite demo_flip_threads; unfold kMaxThreads; lia|apply demo_flip_flags|apply demo_flip_roles|exact I|reflexivity|reflexivity|lia].
Defined.
