(* ===== verification/Admission.v ===== *)
(** core/atomic_admission.h: the credits that bound the atomic groups in flight.

    One 64-bit word holds the window (high half, 0 for no limit) and the number of active groups
    (low half).  The operations are functions of the word, and the machine interleaves their single
    atomic accesses: any number of threads admit and retire, one writer sets the window.  The
    specification is a pair of numbers, run on the same calls and answers. *)
From stdpp Require Import gmap.
From S2P Require Import Prelude.

Definition pack (window active : Z) : Z := Z.lor (u64 (Z.shiftl window 32)) active.
Definition used (state : Z) : Z := u32 state.
Definition limit (state : Z) : Z := u32 (Z.shiftr state 32).
Definition has_room (state : Z) : bool := negb (used state =? UINT32_MAX) && ((limit state =? 0) || (used state <? limit state)).
Definition pool (state : Z) : Z := if limit state >? used state then u32 (limit state - used state) else 0.
Definition debt (state : Z) : Z := if negb (limit state =? 0) && (used state >? limit state) then u32 (used state - limit state) else 0.
Inductive Attempt := Admitted_ | Full | Contended.

(** * The machine *)
Inductive Pc := Out (last : option Attempt) | Loaded (state : Z).
(** [groups]: the groups a thread has admitted and not yet retired. *)
Record Admitter := mkAdmitter { pc : Pc; groups : Z }.
(** [config]: the window being installed and the limit its writer has loaded. *)
Record System := mkSystem { word : Z; admitters : list Admitter; config : option (Z * Z); aborted : bool }.
Inductive Action := TryLoad (i : nat) | TryExchange (i : nat) | Retire (i : nat) | WindowLoad (window : Z) | WindowAdd.
(** The first access of [try_admit], and its exchange. *)
Definition try_load (state : Z) : Pc := if has_room state then Loaded state else Out (Some Full).
Definition try_exchange (state seen : Z) : Z * Attempt := if state =? seen then (u64 (seen + 1), Admitted_) else (state, Contended).
(** [retire]: the word after, and whether it aborts. *)
Definition retire (state : Z) : Z * bool := (u64 (state - 1), used state =? 0).
Definition set_window (state window old : Z) : Z := u64 (state + u64 (Z.shiftl (u32 (window - old)) 32)).
Definition act (x : System) (a : Action) : option System :=
  match a with
  | TryLoad i =>
      t ← admitters x !! i;
      match pc t with
      | Out _ => Some (mkSystem (word x) (<[i := mkAdmitter (try_load (word x)) (groups t)]> (admitters x)) (config x) (aborted x))
      | Loaded _ => None
      end
  | TryExchange i =>
      t ← admitters x !! i;
      match pc t with
      | Out _ => None
      | Loaded seen =>
          let '(w, r) := try_exchange (word x) seen in
          Some (mkSystem w (<[i := mkAdmitter (Out (Some r)) (match r with Admitted_ => groups t + 1 | _ => groups t end)]> (admitters x)) (config x) (aborted x))
      end
  | Retire i =>
      t ← admitters x !! i;
      if groups t =? 0 then None
      else
        let '(w, bad) := retire (word x) in
        Some (mkSystem w (<[i := mkAdmitter (pc t) (groups t - 1)]> (admitters x)) (config x) (aborted x || bad))
  | WindowLoad w => match config x with Some _ => None | None => if (0 <=? w) && (w <? 2 ^ 32) then Some (mkSystem (word x) (admitters x) (Some (w, limit (word x))) (aborted x)) else None end
  | WindowAdd => '(w, old) ← config x; Some (mkSystem (set_window (word x) w old) (admitters x) None (aborted x))
  end.
Fixpoint run (x : System) (as' : list Action) : option System :=
  match as' with [] => Some x | a :: as' => y ← act x a; run y as' end.
Definition boot (window : Z) (n : nat) : System := mkSystem (pack window 0) (replicate n (mkAdmitter (Out None) 0)) None false.
Definition in_flight (l : list Admitter) : Z := foldr (fun t n => groups t + n) 0 l.

(** What the caller of an action has been told, and the calls of a run with their answers. *)
Definition told (a : Action) (y : System) : option Attempt :=
  match a with
  | TryLoad i | TryExchange i => t ← admitters y !! i; match pc t with Out r => r | Loaded _ => None end
  | _ => None
  end.
Fixpoint trace (x : System) (as' : list Action) : list (Action * option Attempt) :=
  match as' with
  | [] => []
  | a :: as' => match act x a with Some y => (a, told a y) :: trace y as' | None => [] end
  end.

(** * The specification *)
(** The window and the active groups as two numbers; [asked]: the window a writer is about to
    install; [saw]: the two numbers each admission under way found.  A step is labelled with the
    action and its answer, and [None] refuses the label: a try is refused exactly when there is no
    room, admitted exactly when the numbers are still those it saw, contended otherwise; a window
    change installs the window that was asked for. *)
Record Credits := mkCredits { window : Z; active : Z; asked : option Z; saw : gmap nat (Z * Z) }.
Definition room (c : Credits) : Prop := active c < UINT32_MAX /\ (window c = 0 \/ active c < window c).
#[export] Instance room_dec c : Decision (room c).
Proof. unfold room. apply _. Defined.
Definition spec_step (c : Credits) (l : Action * option Attempt) : option Credits :=
  match l with
  | (TryLoad i, None) => if decide (room c) then Some (mkCredits (window c) (active c) (asked c) (<[i := (window c, active c)]> (saw c))) else None
  | (TryLoad i, Some Full) => if decide (room c) then None else Some c
  | (TryExchange i, Some Admitted_) =>
      if decide (saw c !! i = Some (window c, active c) /\ room c) then Some (mkCredits (window c) (active c + 1) (asked c) (delete i (saw c))) else None
  | (TryExchange i, Some Contended) =>
      p ← saw c !! i; if decide (p = (window c, active c)) then None else Some (mkCredits (window c) (active c) (asked c) (delete i (saw c)))
  | (Retire i, None) => if decide (0 < active c) then Some (mkCredits (window c) (active c - 1) (asked c) (saw c)) else None
  | (WindowLoad w, None) => match asked c with Some _ => None | None => Some (mkCredits (window c) (active c) (Some w) (saw c)) end
  | (WindowAdd, None) => w ← asked c; Some (mkCredits w (active c) None (saw c))
  | _ => None
  end.
Fixpoint spec_run (c : Credits) (ls : list (Action * option Attempt)) : option Credits :=
  match ls with [] => Some c | l :: ls => c ← spec_step c l; spec_run c ls end.

(** * The word *)
Definition halves (w a : Z) : Prop := 0 <= w < 2 ^ 32 /\ 0 <= a < 2 ^ 32.
Lemma pack_sum w a : halves w a -> pack w a = 2 ^ 32 * w + a.
Proof.
  intros [Hw Ha]. unfold pack, u64. rewrite Z.shiftl_mul_pow2 by lia. rewrite Z.mod_small by lia. rewrite Z.lor_comm, <- Z.shiftl_mul_pow2, lor_shiftl_add by lia. lia.
Qed.
Lemma used_pack w a : halves w a -> used (pack w a) = a.
Proof. intros H. rewrite pack_sum by done. destruct H. unfold used, u32. symmetry. apply (Z.mod_unique _ _ w); lia. Qed.
Lemma limit_pack w a : halves w a -> limit (pack w a) = w.
Proof. intros H. rewrite pack_sum by done. destruct H. unfold limit, u32. rewrite Z.shiftr_div_pow2 by lia. rewrite <- (Z.div_unique (2 ^ 32 * w + a) (2 ^ 32) w a) by lia. apply Z.mod_small. lia. Qed.
Lemma has_room_pack w a q m : halves w a -> has_room (pack w a) = bool_decide (room (mkCredits w a q m)).
Proof.
  intros H. unfold has_room, room. rewrite used_pack, limit_pack by done. destruct H. cbn [window active]. unfold UINT32_MAX. apply eq_true_iff_eq. rewrite bool_decide_eq_true, andb_true_iff, orb_true_iff, negb_true_iff. zcmp. lia.
Qed.
Lemma pack_inj w a w' a' : halves w a -> halves w' a' -> pack w a = pack w' a' -> (w, a) = (w', a').
Proof. intros H H' E. pose proof (limit_pack w a H) as E1. pose proof (used_pack w a H) as E2. rewrite E, limit_pack in E1 by done. rewrite E, used_pack in E2 by done. congruence. Qed.
Lemma admit_word w a : halves w a -> a < UINT32_MAX -> u64 (pack w a + 1) = pack w (a + 1).
Proof. intros H Ha. destruct H. unfold UINT32_MAX in Ha. rewrite !pack_sum by (split; lia). unfold u64. rewrite Z.mod_small; lia. Qed.
Lemma retire_word w a : halves w a -> 0 < a -> u64 (pack w a - 1) = pack w (a - 1).
Proof. intros H Ha. destruct H. rewrite !pack_sum by (split; lia). unfold u64. rewrite Z.mod_small; lia. Qed.
Lemma window_word w a w' : halves w a -> 0 <= w' < 2 ^ 32 -> set_window (pack w a) w' w = pack w' a.
Proof.
  intros H Hw'. destruct H as [Hw Ha]. unfold set_window. rewrite !pack_sum by (split; lia). rewrite Z.shiftl_mul_pow2 by lia. unfold u32, u64.
  destruct (decide (w <= w')).
  - rewrite (Z.mod_small (w' - w)) by lia. rewrite (Z.mod_small ((w' - w) * 2 ^ 32)) by lia. rewrite Z.mod_small; lia.
  - assert ((w' - w) mod 4294967296 = w' - w + 4294967296) as -> by (symmetry; apply (Z.mod_unique _ _ (-1)); lia). rewrite (Z.mod_small ((w' - w + 4294967296) * 2 ^ 32)) by lia. symmetry. apply (Z.mod_unique _ _ 1); lia.
Qed.

(** * Every interleaving *)
Lemma in_flight_insert (l : list Admitter) i t t' : l !! i = Some t -> in_flight (<[i := t']> l) = in_flight l - groups t + groups t'.
Proof. revert i. induction l as [|x l IH]; intros [|i] E; try done; [injection E as ->; cbn; lia|]. specialize (IH i E). change (groups x + in_flight (<[i := t']> l) = groups x + in_flight l - groups t + groups t'). lia. Qed.
Lemma in_flight_le (l : list Admitter) i t : Forall (fun t => 0 <= groups t) l -> l !! i = Some t -> groups t <= in_flight l.
Proof.
  intros Hf. revert i. induction Hf as [|x l Hx Hf IH]; intros i E; [done|]. assert (0 <= in_flight l) as H0 by (clear -Hf; unfold in_flight; induction Hf; cbn [foldr]; lia). change (in_flight (x :: l)) with (groups x + in_flight l). destruct i as [|i]; [injection E as ->; lia|]. specialize (IH i E). lia.
Qed.
(** What the specification knows of a thread inside [try_admit]. *)
Definition seen_ok (m : gmap nat (Z * Z)) (i : nat) (t : Admitter) : Prop :=
  match pc t with Loaded s => exists w a, m !! i = Some (w, a) /\ halves w a /\ s = pack w a /\ has_room s = true | Out _ => True end.
Record sys_ok (x : System) (c : Credits) : Prop := {
  so_word : halves (window c) (active c) /\ word x = pack (window c) (active c);
  so_sum : active c = in_flight (admitters x);
  so_groups : Forall (fun t => 0 <= groups t) (admitters x);
  so_config : match config x with Some (w, old) => asked c = Some w /\ 0 <= w < 2 ^ 32 /\ old = window c | None => asked c = None end;
  so_seen : forall i t, admitters x !! i = Some t -> seen_ok (saw c) i t;
  so_abort : aborted x = false }.
(** Only the stepping thread's entry of [saw] changes. *)
Lemma seen_insert (l : list Admitter) (m m' : gmap nat (Z * Z)) i t' : (forall j t, l !! j = Some t -> seen_ok m j t) -> seen_ok m' i t' -> (forall j, j <> i -> m' !! j = m !! j) ->
  forall j t, <[i := t']> l !! j = Some t -> seen_ok m' j t.
Proof. intros Hl Hi Hm j t E. apply lookup_insert_cases in E as [[-> ->]|[Hne E]]; [done|]. specialize (Hl j t E). unfold seen_ok in *. by rewrite Hm by done. Qed.
(** While the window stands, groups in flight within it stay within it. *)
Definition stays_within (c c' : Credits) : Prop := window c' = window c /\ (window c <> 0 -> active c <= window c -> active c' <= window c).
Lemma try_load_ok x c i y : sys_ok x c -> act x (TryLoad i) = Some y -> exists c', spec_step c (TryLoad i, told (TryLoad i) y) = Some c' /\ sys_ok y c' /\ stays_within c c'.
Proof.
  intros [[Hh Ew] Hs Hg Hc Hseen Ha] E. cbn [act] in E. destruct (admitters x !! i) as [t|] eqn:Ei; [|done]. rewrite some_bind in E. destruct (pc t) as [r|]; [|done]. injection E as <-.
  pose proof (lookup_lt_Some _ _ _ Ei) as Hlt. pose proof (Forall_lookup_1 _ _ _ _ Hg Ei) as Hgt. cbn beta in Hgt. unfold told. cbn [admitters]. rewrite list_lookup_insert_eq by done. rewrite some_bind. cbn [pc]. unfold try_load. pose proof (has_room_pack _ _ (asked c) (saw c) Hh) as Hroom. rewrite <- Ew in Hroom.
  destruct c as [w a q m]. cbn [window active asked saw] in *. destruct (has_room (word x)) eqn:Er; symmetry in Hroom.
  - apply bool_decide_eq_true in Hroom. cbn [spec_step]. rewrite decide_True by done. eexists. split; [done|]. split; [|by split]. split; cbn; try done.
    + rewrite (in_flight_insert _ _ t) by done. cbn. lia.
    + by apply Forall_insert.
    + apply (seen_insert _ m); [done| |intros j Hne; by rewrite lookup_insert_ne]. exists w, a. rewrite lookup_insert_eq. by split_and!.
  - apply bool_decide_eq_false in Hroom. cbn [spec_step]. rewrite decide_False by done. eexists. split; [done|]. split; [|by split]. split; cbn; try done.
    + rewrite (in_flight_insert _ _ t) by done. cbn. lia.
    + by apply Forall_insert.
    + by apply (seen_insert _ m).
Qed.
Lemma try_exchange_ok x c i y : sys_ok x c -> act x (TryExchange i) = Some y -> exists c', spec_step c (TryExchange i, told (TryExchange i) y) = Some c' /\ sys_ok y c' /\ stays_within c c'.
Proof.
  intros [[Hh Ew] Hs Hg Hc Hseen Ha] E. cbn [act] in E. destruct (admitters x !! i) as [t|] eqn:Ei; [|done]. rewrite some_bind in E. destruct (pc t) as [|s] eqn:Ep; [done|].
  pose proof (lookup_lt_Some _ _ _ Ei) as Hlt. pose proof (Forall_lookup_1 _ _ _ _ Hg Ei) as Hgt. cbn beta in Hgt. pose proof (Hseen i t Ei) as Hst. unfold seen_ok in Hst. rewrite Ep in Hst. destruct Hst as (w1 & a1 & Em & Hh1 & -> & Hr).
  destruct c as [w a q m]. cbn [window active asked saw] in *. unfold try_exchange in E. destruct (Z.eqb_spec (word x) (pack w1 a1)) as [Eq|Hne]; injection E as <-; unfold told; cbn [admitters]; rewrite list_lookup_insert_eq by done; rewrite some_bind; cbn [pc spec_step window active asked saw].
  - rewrite Ew in Eq. apply pack_inj in Eq as [= <- <-]; [|done..]. rewrite (has_room_pack w a q m) in Hr by done. apply bool_decide_eq_true in Hr. rewrite decide_True by done. pose proof Hr as [Hlt' Hor]. cbn in Hlt', Hor. destruct Hh. unfold UINT32_MAX in Hlt'.
    eexists. split; [done|]. split; [|split; cbn; [done|lia]]. split; cbn; try done.
    + split; [split; lia|]. apply admit_word; [split; lia|unfold UINT32_MAX; lia].
    + rewrite (in_flight_insert _ _ t) by done. cbn. lia.
    + apply Forall_insert; [done|cbn; lia].
    + apply (seen_insert _ m); [done|done|intros j Hj; by rewrite lookup_delete_ne].
  - rewrite Em, some_bind, decide_False by (intros [= -> ->]; congruence). eexists. split; [done|]. split; [|by split]. split; cbn; try done.
    + rewrite (in_flight_insert _ _ t) by done. cbn. lia.
    + by apply Forall_insert.
    + apply (seen_insert _ m); [done|done|intros j Hj; by rewrite lookup_delete_ne].
Qed.
Lemma retire_ok x c i y : sys_ok x c -> act x (Retire i) = Some y -> exists c', spec_step c (Retire i, told (Retire i) y) = Some c' /\ sys_ok y c' /\ stays_within c c'.
Proof.
  intros [[Hh Ew] Hs Hg Hc Hseen Ha] E. cbn [act] in E. destruct (admitters x !! i) as [t|] eqn:Ei; [|done]. rewrite some_bind in E. destruct (Z.eqb_spec (groups t) 0) as [|Hne]; [done|]. cbn [retire] in E. injection E as <-.
  pose proof (Forall_lookup_1 _ _ _ _ Hg Ei) as Hgt. cbn in Hgt. pose proof (in_flight_le _ _ _ Hg Ei) as Hle. destruct c as [w a q m]. cbn [window active asked saw told spec_step] in *. rewrite decide_True by lia.
  eexists. split; [done|]. split; [|split; cbn; [done|lia]]. destruct Hh. split; cbn; try done.
  - split; [split; lia|]. rewrite Ew. apply retire_word; [split; lia|lia].
  - rewrite (in_flight_insert _ _ t) by done. cbn. lia.
  - apply Forall_insert; [done|cbn; lia].
  - apply (seen_insert _ m); [done|by apply (Hseen i t)|done].
  - rewrite Ha, Ew, used_pack by (split; lia). cbn. apply Z.eqb_neq. lia.
Qed.
Lemma window_ok x c a y : sys_ok x c -> a = WindowAdd \/ (exists w, a = WindowLoad w) -> act x a = Some y -> exists c', spec_step c (a, told a y) = Some c' /\ sys_ok y c' /\ (a <> WindowAdd -> stays_within c c').
Proof.
  intros [[Hh Ew] Hs Hg Hc Hseen Ha] [->|[w' ->]] E; cbn [act] in E; destruct c as [w a0 q m]; cbn [window active asked saw told spec_step] in *.
  - destruct (config x) as [[w' old]|]; [|done]. rewrite some_bind in E. injection E as <-. destruct Hc as (-> & Hw' & ->). eexists. split; [done|]. split; [|done]. split; cbn; try done. destruct Hh. split; [split; lia|]. rewrite Ew. apply window_word; [split; lia|lia].
  - destruct (config x); [done|]. destruct (_ && _) eqn:Eb; [|done]. injection E as <-. apply andb_prop in Eb as [Eb1 Eb2]. zcmp. subst q. eexists. split; [done|]. split; [|by split]. split; cbn; try done. split; [done|]. split; [lia|]. by rewrite Ew, limit_pack.
Qed.
Lemma admission_act_ok x c a y : sys_ok x c -> act x a = Some y -> exists c', spec_step c (a, told a y) = Some c' /\ sys_ok y c' /\ (a <> WindowAdd -> stays_within c c').
Proof.
  intros Hx E. destruct a as [i|i|i|w|]; [destruct (try_load_ok x c i y Hx E) as (c' & ? & ? & ?)|destruct (try_exchange_ok x c i y Hx E) as (c' & ? & ? & ?)|destruct (retire_ok x c i y Hx E) as (c' & ? & ? & ?)|..];
    try (by exists c'); apply (window_ok x); eauto.
Qed.
Lemma admission_run_ok as' x c y : sys_ok x c -> run x as' = Some y -> exists c', spec_run c (trace x as') = Some c' /\ sys_ok y c' /\ (WindowAdd ∉ as' -> stays_within c c').
Proof.
  revert x c. induction as' as [|a as' IH]; intros x c Hx E; cbn [run trace] in *; [injection E as <-; exists c; split; [done|]; split; [done|]; by split|].
  destruct (act x a) as [x1|] eqn:Ea; [|done]. rewrite some_bind in E. destruct (admission_act_ok x c a x1 Hx Ea) as (c1 & Hs1 & Hx1 & Hw1). destruct (IH x1 c1 Hx1 E) as (c' & Hs & Hy & Hw). exists c'. cbn [spec_run]. rewrite Hs1, some_bind. split; [done|]. split; [done|].
  intros Hn. apply not_elem_of_cons in Hn as [Hna Hn]. destruct (Hw Hn) as [Ew Ha], (Hw1 ltac:(done)) as [Ew1 Ha1]. unfold stays_within. rewrite Ew1 in *. split; [done|]. auto.
Qed.
Lemma in_flight_idle n t : groups t = 0 -> in_flight (replicate n t) = 0.
Proof. intros E. induction n as [|n IH]; [done|]. change (groups t + in_flight (replicate n t) = 0). lia. Qed.
Lemma admission_boot_ok w n : 0 <= w < 2 ^ 32 -> sys_ok (boot w n) (mkCredits w 0 None ∅).
Proof.
  intros Hw. split; [split; [split; cbn; lia|done]|symmetry; by apply (in_flight_idle n (mkAdmitter (Out None) 0))|by apply Forall_replicate|done| |done].
  intros i t E. apply lookup_replicate in E as [-> _]. done.
Qed.
(** C24: Admission is exact.  In every interleaving of admissions, retirements and window changes, in
    which only admitted groups are retired: nothing aborts, and the calls and their answers are a
    run of the specification, in which a try is refused exactly when the window of its moment has no
    room, is admitted exactly when nothing changed since it looked, and a window change installs the
    window it was given.  The word always holds the window so installed and the number of groups in
    flight, both exact although they change concurrently, and while the window is not changed the
    groups in flight never exceed it.  What the readers compute from the word is what is left of the
    window, or what exceeds it. *)
Theorem admission_exact win n as' x :
  0 <= win < 2 ^ 32 -> run (boot win n) as' = Some x ->
  aborted x = false /\ exists c, spec_run (mkCredits win 0 None ∅) (trace (boot win n) as') = Some c /\ word x = pack (window c) (active c) /\ limit (word x) = window c /\ used (word x) = active c /\
    active c = in_flight (admitters x) /\
    pool (word x) = Z.max 0 (window c - active c) /\ debt (word x) = (if window c =? 0 then 0 else Z.max 0 (active c - window c)) /\
    (WindowAdd ∉ as' -> window c = win /\ (win <> 0 -> active c <= win)).
Proof.
  intros Hw E. destruct (admission_run_ok as' _ _ x (admission_boot_ok win n Hw) E) as ([w a q m] & Hstep & [[Hh Ew] Hs _ _ _ Ha] & Hn). unfold stays_within in Hn. cbn [window active] in *. split; [done|]. exists (mkCredits w a q m). cbn [window active]. rewrite Ew. split; [done|]. split; [done|]. unfold pool, debt. rewrite limit_pack, used_pack by done.
  split; [done|]. split; [done|]. split; [done|]. destruct Hh. split; [rewrite Z.gtb_ltb; destruct (Z.ltb_spec a w); [unfold u32; rewrite Z.mod_small|]; lia|]. split.
  - rewrite Z.gtb_ltb. destruct (Z.eqb_spec w 0); cbn [negb andb]; [done|]. destruct (Z.ltb_spec w a); [unfold u32; rewrite Z.mod_small|]; lia.
  - intros Hnw. destruct (Hn Hnw) as [-> Hle]. split; [done|]. intros. apply Hle; lia.
Qed.
(** Two threads race for a window of one, which is then widened. *)
Definition demo_race : list Action := [TryLoad 0; TryLoad 1; TryExchange 1; TryExchange 0; TryLoad 0; WindowLoad 2; TryLoad 0; WindowAdd; TryLoad 0; TryExchange 0; Retire 1].
Definition demo_end : System := mkSystem (pack 2 1) [mkAdmitter (Out (Some Admitted_)) 1; mkAdmitter (Out (Some Admitted_)) 0] None false.
Lemma admission_exact_witness :
  (run (boot 1 2) demo_race = Some demo_end /\
   trace (boot 1 2) demo_race = [(TryLoad 0, None); (TryLoad 1, None); (TryExchange 1, Some Admitted_); (TryExchange 0, Some Contended); (TryLoad 0, Some Full); (WindowLoad 2, None);
     (TryLoad 0, Some Full); (WindowAdd, None); (TryLoad 0, None); (TryExchange 0, Some Admitted_); (Retire 1, None)]) /\
  aborted demo_end = false /\ exists c, spec_run (mkCredits 1 0 None ∅) (trace (boot 1 2) demo_race) = Some c /\ word demo_end = pack (window c) (active c) /\ limit (word demo_end) = window c /\ used (word demo_end) = active c /\
    active c = in_flight (admitters demo_end) /\
    pool (word demo_end) = Z.max 0 (window c - active c) /\ debt (word demo_end) = (if window c =? 0 then 0 else Z.max 0 (active c - window c)) /\
    (WindowAdd ∉ demo_race -> window c = 1 /\ (1 <> 0 -> active c <= 1)).
Proof. split; [split; vm_compute; reflexivity|]. apply (admission_exact 1 2 demo_race); [lia|vm_compute; reflexivity]. Defined.
