(* ===== verification/Snapshot.v ===== *)
(** snapshot/format.h and the type hooks that save and load a value (cmd/t_string.cc, t_set.cc,
    t_list.cc, t_hash.cc, t_zset.cc): how a value becomes a payload that is read out in chunks of
    any size, and how a payload becomes a value again.

    A collection is the list of elements its walk visits; the routines that insert an element into
    the collection under construction, and those that turn it into an object, are parameters.  A
    pointer into a payload is the rest of the payload.  Streams are not modelled. *)
From S2P Require Import Prelude.

#[local] Abbreviation blen b := (Z.of_nat (length b)).
(** * Fixed-width numbers *)
Definition put_le (n : nat) (v : Z) : bytes := (fun i => u8 (Z.shiftr v (8 * Z.of_nat i))) <$> seq 0 n.
(** [None]: a read past the end. *)
Definition get_le (n : nat) (p : bytes) : option Z :=
  if (length p <? n)%nat then None else Some (foldl (fun v i => Z.lor v (Z.shiftl (nth i p 0) (8 * Z.of_nat i))) 0 (seq 0 n)).
Definition snapshot_put_u32 (v : Z) : bytes := put_le 4 v.
Definition snapshot_put_u64 (v : Z) : bytes := put_le 8 v.
Definition snapshot_get_u32 (p : bytes) : option Z := get_le 4 p.
Definition snapshot_get_u64 (p : bytes) : option Z := get_le 8 p.
Definition snapshot_checksum (p : bytes) : Z := foldl (fun h b => u64 (Z.lxor h b * 1099511628211)) 1469598103934665603 p.

(** * The emitter *)
(** [emitted]: what has been written to the destination; its length is [out]. *)
Record SnapshotElementEmitter := mkEmitter { cap : Z; emitted : bytes; pos : Z; resume : Z; full : bool }.
Definition put (b : bytes) (e : SnapshotElementEmitter) : bool * SnapshotElementEmitter :=
  if full e then (false, e)
  else
    let start := pos e in
    let end' := u64 (start + blen b) in
    let from := if start <? resume e then resume e else start in
    if end' <=? from then (true, mkEmitter (cap e) (emitted e) end' (resume e) (full e))
    else
      let want := u64 (end' - from) in
      let can := u64 (cap e - blen (emitted e)) in
      let take' := if want <? can then want else can in
      let out := emitted e ++ take (Z.to_nat take') (drop (Z.to_nat (from - start)) b) in
      if take' <? want then (false, mkEmitter (cap e) out (u64 (from + take')) (resume e) true)
      else (true, mkEmitter (cap e) out end' (resume e) (full e)).
(** The puts of one element, joined by [&&]. *)
Fixpoint puts (rs : list bytes) (e : SnapshotElementEmitter) : bool * SnapshotElementEmitter :=
  match rs with
  | [] => (true, e)
  | r :: rs => let '(ok, e) := put r e in if ok then puts rs e else (false, e)
  end.
Definition restart (r : Z) (e : SnapshotElementEmitter) : SnapshotElementEmitter := mkEmitter (cap e) (emitted e) 0 r (full e).

(** * Saving *)
Inductive SnapshotHookStatus := Ok | Unsupported | Corrupt | Oom.
Record SnapshotSaveCursor := mkCursor { offset : Z; total : Z; lane0 : Z; lane1 : Z; lane2 : Z }.
Section Walks.
Context {A : Type} (ranges : A -> list bytes).
(** The visitor of the set and hash hooks: the walk cannot be stopped. *)
Record Visit := mkVisit { idx : Z; stopped : bool; v_lane0 : Z; v_lane1 : Z; em : SnapshotElementEmitter }.
Definition visit (s : Visit) (a : A) : Visit :=
  if stopped s then mkVisit (u64 (idx s + 1)) (stopped s) (v_lane0 s) (v_lane1 s) (em s)
  else if idx s <? v_lane0 s then mkVisit (u64 (idx s + 1)) (stopped s) (v_lane0 s) (v_lane1 s) (em s)
  else
    let '(ok, e) := puts (ranges a) (restart (if idx s =? v_lane0 s then v_lane1 s else 0) (em s)) in
    if ok then mkVisit (u64 (idx s + 1)) (stopped s) (v_lane0 s) (v_lane1 s) e
    else mkVisit (u64 (idx s + 1)) true (idx s) (pos e) e.
(** The end of every read hook. *)
Definition finish (c : SnapshotSaveCursor) (s : Visit) : SnapshotSaveCursor * bytes :=
  let '(l0, l1) := if stopped s then (v_lane0 s, v_lane1 s) else (idx s, 0) in
  (mkCursor (u64 (offset c + blen (emitted (em s)))) (total c) l0 l1 (lane2 c), emitted (em s)).
Definition start_visit (i : Z) (c : SnapshotSaveCursor) (capacity : Z) : Visit := mkVisit i false (lane0 c) (lane1 c) (mkEmitter capacity [] 0 0 false).
Definition read_visiting (l : list A) (c : SnapshotSaveCursor) (capacity : Z) : SnapshotSaveCursor * bytes :=
  finish c (foldl visit (start_visit 0 c capacity) l).
(** The loop of the list hook, from the element the cursor names. *)
Fixpoint seek_loop (l : list A) (s : Visit) : Visit :=
  match l with
  | [] => s
  | a :: l =>
      let '(ok, e) := puts (ranges a) (restart (if idx s =? v_lane0 s then v_lane1 s else 0) (em s)) in
      if ok then seek_loop l (mkVisit (u64 (idx s + 1)) (stopped s) (v_lane0 s) (v_lane1 s) e)
      else mkVisit (idx s) true (idx s) (pos e) e
  end.
Definition read_seeking (l : list A) (c : SnapshotSaveCursor) (capacity : Z) : SnapshotSaveCursor * bytes :=
  finish c (seek_loop (drop (Z.to_nat (u32 (lane0 c))) l) (start_visit (lane0 c) c capacity)).
(** The walk of the sorted-set hook, which its visitor stops. *)
Fixpoint stop_loop (l : list A) (s : Visit) : Visit :=
  match l with
  | [] => s
  | a :: l =>
      if idx s <? v_lane0 s then stop_loop l (mkVisit (u64 (idx s + 1)) (stopped s) (v_lane0 s) (v_lane1 s) (em s))
      else
        let '(ok, e) := puts (ranges a) (restart (if idx s =? v_lane0 s then v_lane1 s else 0) (em s)) in
        if ok then stop_loop l (mkVisit (u64 (idx s + 1)) (stopped s) (v_lane0 s) (v_lane1 s) e)
        else mkVisit (idx s) true (idx s) (pos e) e
  end.
Definition read_stopping (l : list A) (c : SnapshotSaveCursor) (capacity : Z) : SnapshotSaveCursor * bytes :=
  finish c (stop_loop l (start_visit 0 c capacity)).
End Walks.

(** * The hooks of each type *)
(** What a save goes through: the status, the cursor and the encoding of [begin_save]; the status, the cursor and the bytes of [read_save]. *)
Record SaveHooks := mkHooks { begin_save : SnapshotHookStatus * SnapshotSaveCursor * Z; read_save : SnapshotSaveCursor -> Z -> SnapshotHookStatus * SnapshotSaveCursor * bytes }.
Definition no_cursor (t : Z) : SnapshotSaveCursor := mkCursor 0 t 0 0 0.
Definition EncRaw : Z := 0.
Definition EncInt : Z := 1.
Definition EncExtern : Z := 2.
(** A string object: an integer, or bytes in the block or outside it. *)
Inductive StringValue := IntValue (z : Z) | RawValue (external : bool) (b : bytes).
Definition string_bytes (v : StringValue) : bytes := match v with IntValue z => snapshot_put_u64 (u64 z) | RawValue _ b => b end.
Definition string_snapshot_begin (v : StringValue) : SnapshotHookStatus * SnapshotSaveCursor * Z :=
  match v with
  | IntValue _ => (Ok, no_cursor 8, EncInt)
  | RawValue x b => (Ok, no_cursor (blen b), if x then EncExtern else EncRaw)
  end.
Definition string_snapshot_read (v : StringValue) (c : SnapshotSaveCursor) (capacity : Z) : SnapshotHookStatus * SnapshotSaveCursor * bytes :=
  if total c <? offset c then (Corrupt, c, [])
  else
    let n := Z.min capacity (total c - offset c) in
    if n =? 0 then (Ok, c, [])
    else (Ok, mkCursor (u64 (offset c + n)) (total c) (lane0 c) (lane1 c) (lane2 c), take (Z.to_nat n) (drop (Z.to_nat (offset c)) (string_bytes v))).
Definition member_ranges (m : bytes) : list bytes := [snapshot_put_u32 (blen m); m].
Definition set_snapshot_begin (l : list bytes) : SnapshotHookStatus * SnapshotSaveCursor * Z := (Ok, no_cursor (foldl (fun t m => u64 (t + (4 + blen m))) 0 l), 0).
Definition set_snapshot_read (l : list bytes) (c : SnapshotSaveCursor) (capacity : Z) : SnapshotHookStatus * SnapshotSaveCursor * bytes :=
  let '(c, b) := read_visiting member_ranges l c capacity in (Ok, c, b).
(** [payload_bytes]: the sum the collection keeps of the lengths of its entries. *)
Definition payload_bytes (l : list bytes) : Z := foldr (fun m t => blen m + t) 0 l.
Definition list_snapshot_begin (l : list bytes) : SnapshotHookStatus * SnapshotSaveCursor * Z := (Ok, no_cursor (u64 (4 * Z.of_nat (length l) + payload_bytes l)), 0).
Definition list_snapshot_read (l : list bytes) (c : SnapshotSaveCursor) (capacity : Z) : SnapshotHookStatus * SnapshotSaveCursor * bytes :=
  let '(c, b) := read_seeking member_ranges l c capacity in (Ok, c, b).
(** A field, its value and its deadline, -1 for none. *)
Record Pair := mkPair { field : bytes; value : bytes; deadline : Z }.
Definition pair_ranges (with_ttl : bool) (p : Pair) : list bytes :=
  [snapshot_put_u32 (blen (field p)); field p; snapshot_put_u32 (blen (value p)); value p] ++ (if with_ttl then [snapshot_put_u64 (u64 (deadline p))] else []).
Definition hash_snapshot_begin (with_ttl : bool) (l : list Pair) : SnapshotHookStatus * SnapshotSaveCursor * Z :=
  let t := foldl (fun t p => u64 (t + ((if with_ttl then 16 else 8) + blen (field p) + blen (value p)))) 0 l in
  (Ok, mkCursor 0 t 0 0 (if with_ttl then 1 else 0), if with_ttl then 1 else 0).
Definition hash_snapshot_read (l : list Pair) (c : SnapshotSaveCursor) (capacity : Z) : SnapshotHookStatus * SnapshotSaveCursor * bytes :=
  let '(c, b) := read_visiting (pair_ranges (negb (lane2 c =? 0))) l c capacity in (Ok, c, b).
(** A member and the bits of its score. *)
Record Scored := mkScored { score : Z; member : bytes }.
Definition scored_ranges (s : Scored) : list bytes := [snapshot_put_u64 (score s); snapshot_put_u32 (blen (member s)); member s].
Definition zset_snapshot_begin (l : list Scored) : SnapshotHookStatus * SnapshotSaveCursor * Z := (Ok, no_cursor (foldl (fun t s => u64 (t + (12 + blen (member s)))) 0 l), 0).
Definition zset_snapshot_read (l : list Scored) (c : SnapshotSaveCursor) (capacity : Z) : SnapshotHookStatus * SnapshotSaveCursor * bytes :=
  let '(c, b) := read_stopping scored_ranges l c capacity in (Ok, c, b).
Definition string_hooks (v : StringValue) : SaveHooks := mkHooks (string_snapshot_begin v) (string_snapshot_read v).
Definition set_hooks (l : list bytes) : SaveHooks := mkHooks (set_snapshot_begin l) (set_snapshot_read l).
Definition list_hooks (l : list bytes) : SaveHooks := mkHooks (list_snapshot_begin l) (list_snapshot_read l).
Definition hash_hooks (with_ttl : bool) (l : list Pair) : SaveHooks := mkHooks (hash_snapshot_begin with_ttl l) (hash_snapshot_read l).
Definition zset_hooks (l : list Scored) : SaveHooks := mkHooks (zset_snapshot_begin l) (zset_snapshot_read l).

(** * Loading *)
Section Loading.
Context {A S : Type} (parse : bytes -> option (A * bytes)) (step : S -> A -> SnapshotHookStatus + S).
(** [while (left)]: an element that does not parse is [Corrupt]; [None] is out of fuel. *)
Fixpoint load_loop (fuel : nat) (p : bytes) (s : S) : option (SnapshotHookStatus + S) :=
  match p with
  | [] => Some (inr s)
  | _ =>
      match fuel with
      | O => None
      | Datatypes.S fuel =>
          match parse p with
          | None => Some (inl Corrupt)
          | Some (a, p) => match step s a with inl e => Some (inl e) | inr s => load_loop fuel p s end
          end
      end
  end.
End Loading.
Definition parse_member (p : bytes) : option (bytes * bytes) :=
  if blen p <? 4 then None
  else
    len ← snapshot_get_u32 p;
    let p := drop 4 p in
    if blen p <? len then None else Some (take (Z.to_nat len) p, drop (Z.to_nat len) p).
Definition to_i64 (v : Z) : Z := if v <? 2 ^ 63 then v else v - 2 ^ 64.
Definition parse_pair (with_ttl : bool) (p : bytes) : option (Pair * bytes) :=
  if blen p <? 4 then None
  else
    flen ← snapshot_get_u32 p;
    let p := drop 4 p in
    if blen p <? flen + 4 then None
    else
      let f := take (Z.to_nat flen) p in
      let p := drop (Z.to_nat flen) p in
      vlen ← snapshot_get_u32 p;
      let p := drop 4 p in
      if blen p <? vlen then None
      else
        let v := take (Z.to_nat vlen) p in
        let p := drop (Z.to_nat vlen) p in
        if with_ttl then
          if blen p <? 8 then None else bits ← snapshot_get_u64 p; Some (mkPair f v (to_i64 bits), drop 8 p)
        else Some (mkPair f v (-1), p).
Definition is_nan (bits : Z) : bool := (Z.land (Z.shiftr bits 52) 2047 =? 2047) && negb (Z.land bits (2 ^ 52 - 1) =? 0).
Definition parse_scored (p : bytes) : option (Scored * bytes) :=
  if blen p <? 12 then None
  else
    bits ← snapshot_get_u64 p;
    mlen ← snapshot_get_u32 (drop 8 p);
    let p := drop 12 p in
    if (blen p <? mlen) || is_nan bits then None else Some (mkScored bits (take (Z.to_nat mlen) p), drop (Z.to_nat mlen) p).
(** [empty]: the collection before the first insertion, [None] when it cannot be allocated. *)
Section Loads.
Context {S R : Type} (empty : option S).
Definition or_oom (r : option R) : SnapshotHookStatus + R := match r with Some r => inr r | None => inl Oom end.
Definition string_snapshot_load (new : StringValue -> option R) (encoding : Z) (payload : bytes) : option (SnapshotHookStatus + R) :=
  if encoding =? EncInt then
    if negb (blen payload =? 8) then Some (inl Corrupt) else bits ← snapshot_get_u64 payload; Some (or_oom (new (IntValue (to_i64 bits))))
  else if (encoding =? EncRaw) || (encoding =? EncExtern) then Some (or_oom (new (RawValue false payload)))
  else Some (inl Corrupt).
(** [add] answers [None] when it runs out of memory. *)
Definition add_step {A} (add : S -> A -> option S) (s : S) (a : A) : SnapshotHookStatus + S := match add s a with Some s => inr s | None => inl Oom end.
Definition set_snapshot_load (add : S -> bytes -> option S) (adopt : S -> option R) (encoding : Z) (payload : bytes) : option (SnapshotHookStatus + R) :=
  if negb (encoding =? 0) then Some (inl Corrupt)
  else
    match empty with
    | None => Some (inl Oom)
    | Some s => r ← load_loop parse_member (add_step add) (length payload) payload s; Some (match r with inl e => inl e | inr s => or_oom (adopt s) end)
    end.
(** The first pass counts; [fits] picks the representation; [note] accounts an element of the expanded one. *)
Definition count_step (t : Z * Z) (v : bytes) : SnapshotHookStatus + (Z * Z) := inr (u64 (t.1 + 1), u64 (t.2 + blen v)).
Definition list_snapshot_load (fits : Z -> Z -> bool) (push : bool -> S -> bytes -> option S) (promote : S -> S) (note : S -> Z -> S) (adopt : S -> option R) (encoding : Z) (payload : bytes) : option (SnapshotHookStatus + R) :=
  if negb (encoding =? 0) then Some (inl Corrupt)
  else
    match empty with
    | None => Some (inl Oom)
    | Some s =>
        counted ← load_loop parse_member count_step (length payload) payload (0, 0);
        match counted with
        | inl e => Some (inl e)
        | inr (count, total_bytes) =>
            let compact := fits (u32 count) total_bytes in
            r ← load_loop parse_member (add_step (push compact)) (length payload) payload s;
            match r with
            | inl e => Some (inl e)
            | inr s =>
                if compact then Some (or_oom (adopt s))
                else
                  r ← load_loop parse_member (fun s v => inr (note s (blen v))) (length payload) payload (promote s);
                  Some (match r with inl e => inl e | inr s => or_oom (adopt s) end)
            end
        end
    end.
(** [skipped] counts the lapsed fields; [has_ttls] whether a deadline was recorded. *)
Record HashLoad := mkHashLoad { built : S; skipped : Z; has_ttls : bool }.
Definition pair_step (set : S -> bytes -> bytes -> option S) (set_ttl : S -> bytes -> Z -> option S) (now_ms : Z) (with_ttl : bool) (h : HashLoad) (p : Pair) : SnapshotHookStatus + HashLoad :=
  if with_ttl && (0 <=? deadline p) && (deadline p <=? now_ms) then inr (mkHashLoad (built h) (u32 (skipped h + 1)) (has_ttls h))
  else
    match set (built h) (field p) (value p) with
    | None => inl Oom
    | Some s =>
        if 0 <=? deadline p then match set_ttl s (field p) (deadline p) with None => inl Oom | Some s => inr (mkHashLoad s (skipped h) true) end
        else inr (mkHashLoad s (skipped h) (has_ttls h))
    end.
Definition hash_snapshot_load (set : S -> bytes -> bytes -> option S) (set_ttl : S -> bytes -> Z -> option S) (entries : S -> Z) (new adopt : S -> Z -> option R)
    (now_ms expire_at_ms encoding : Z) (payload : bytes) : option (SnapshotHookStatus + R) :=
  if 1 <? encoding then Some (inl Corrupt)
  else
    let with_ttl := encoding =? 1 in
    match empty with
    | None => Some (inl Oom)
    | Some s =>
        r ← load_loop (parse_pair with_ttl) (pair_step set set_ttl now_ms with_ttl) (length payload) payload (mkHashLoad s 0 false);
        Some (match r with
              | inl e => inl e
              | inr h =>
                  let key_expire := if negb (skipped h =? 0) && (entries (built h) =? 0) then 1 else expire_at_ms in
                  or_oom (if has_ttls h then new (built h) key_expire else adopt (built h) key_expire)
              end)
    end.
(** [add] answers [None] when the member was not added. *)
Definition zset_snapshot_load (add : S -> Scored -> option S) (adopt : S -> option R) (encoding : Z) (payload : bytes) : option (SnapshotHookStatus + R) :=
  if negb (encoding =? 0) then Some (inl Corrupt)
  else
    match empty with
    | None => Some (inl Oom)
    | Some s =>
        r ← load_loop parse_scored (fun s a => match add s a with Some s => inr s | None => inl Corrupt end) (length payload) payload s;
        Some (match r with inl e => inl e | inr s => or_oom (adopt s) end)
    end.
End Loads.

(** * The image of a value (cmd/serialize.cc) *)
(** [None]: out of fuel; [Some None]: no image. *)
Fixpoint image_loop (h : SaveHooks) (fuel : nat) (c : SnapshotSaveCursor) (payload : bytes) : option (option bytes) :=
  if offset c <? total c then
    match fuel with
    | O => None
    | S fuel =>
        let remaining := total c - offset c in
        match read_save h c remaining with
        | (Ok, c, b) => if (blen b =? 0) || (remaining <? blen b) then Some None else image_loop h fuel c (payload ++ b)
        | _ => Some None
        end
    end
  else Some (Some payload).
Definition snapshot_image (h : SaveHooks) : option (option (bytes * Z)) :=
  match begin_save h with
  | (Ok, c, encoding) => if UINT32_MAX <? total c then Some None else r ← image_loop h (Z.to_nat (total c)) c []; Some (option_map (fun p => (p, encoding)) r)
  | _ => Some None
  end.

(** * Numbers read back *)
Lemma put_le_length n v : length (put_le n v) = n.
Proof. unfold put_le. by rewrite length_fmap, length_seq. Qed.
Lemma put_le_nth n v rest i : (i < n)%nat -> nth i (put_le n v ++ rest) 0 = u8 (Z.shiftr v (8 * Z.of_nat i)).
Proof.
  intros Hi. rewrite app_nth1 by (by rewrite put_le_length). apply nth_lookup_Some. unfold put_le. rewrite list_lookup_fmap, lookup_seq_lt by done. done.
Qed.
Lemma get_le_put n v rest : 0 <= v -> get_le n (put_le n v ++ rest) = Some (v mod 2 ^ (8 * Z.of_nat n)).
Proof.
  intros Hv. unfold get_le. rewrite length_app, put_le_length. destruct (Nat.ltb_spec (n + length rest) n); [lia|]. f_equal.
  assert (forall k, (k <= n)%nat -> foldl (fun v' i => Z.lor v' (Z.shiftl (nth i (put_le n v ++ rest) 0) (8 * Z.of_nat i))) 0 (seq 0 k) = v mod 2 ^ (8 * Z.of_nat k)) as Hpre; [|by apply Hpre].
  intros k. induction k as [|k IH]; intros Hk; [cbn; by rewrite Z.mod_1_r|]. rewrite seq_S, foldl_app, IH by lia. cbn [foldl Nat.add]. rewrite put_le_nth by lia.
  assert (0 < 2 ^ (8 * Z.of_nat k)) as Hp by (apply Z.pow_pos_nonneg; lia). rewrite lor_shiftl_add by (try apply Z.mod_pos_bound; lia). unfold u8. rewrite Z.shiftr_div_pow2 by lia.
  replace (8 * Z.of_nat (S k)) with (8 * Z.of_nat k + 8) by lia. rewrite Z.pow_add_r by lia. change (2 ^ 8) with 256. rewrite Z.rem_mul_r by lia. done.
Qed.
Lemma get_u32_put v rest : 0 <= v < 2 ^ 32 -> snapshot_get_u32 (snapshot_put_u32 v ++ rest) = Some v.
Proof. intros Hv. unfold snapshot_get_u32, snapshot_put_u32. rewrite get_le_put by lia. f_equal. apply Z.mod_small. done. Qed.
Lemma get_u64_put v rest : 0 <= v < 2 ^ 64 -> snapshot_get_u64 (snapshot_put_u64 v ++ rest) = Some v.
Proof. intros Hv. unfold snapshot_get_u64, snapshot_put_u64. rewrite get_le_put by lia. f_equal. apply Z.mod_small. done. Qed.

(** * The emitter *)
(** What an element leaves after its first [r - p] bytes are skipped. *)
Definition rest_of (p r : Z) (b : bytes) : bytes := drop (Z.to_nat (r - p)) b.
Definition room (e : SnapshotElementEmitter) : Z := cap e - blen (emitted e).
Definition emits (b : bytes) (e : SnapshotElementEmitter) (ok : bool) (e' : SnapshotElementEmitter) : Prop :=
  let rest := rest_of (pos e) (resume e) b in
  cap e' = cap e /\ resume e' = resume e /\ emitted e' = emitted e ++ take (Z.to_nat (room e)) rest /\ full e' = negb ok /\
  if ok then blen rest <= room e /\ pos e' = pos e + blen b else room e < blen rest /\ pos e' = Z.max (pos e) (resume e) + room e.
Definition sane (e : SnapshotElementEmitter) : Prop := full e = false /\ 0 <= pos e /\ 0 <= resume e /\ 0 <= room e /\ cap e < 2 ^ 64.
Lemma put_spec b e : sane e -> pos e + blen b < 2 ^ 64 -> emits b e (put b e).1 (put b e).2.
Proof.
  intros (Hf & Hp & Hr & Hroom & Hc) Hb. unfold put, emits, rest_of. rewrite Hf. unfold room in *. assert (u64 (pos e + blen b) = pos e + blen b) as -> by (apply Z.mod_small; lia).
  set (from := if pos e <? resume e then resume e else pos e). assert (from = Z.max (pos e) (resume e)) as Ef by (unfold from; destruct (Z.ltb_spec (pos e) (resume e)); lia).
  destruct (Z.leb_spec (pos e + blen b) from) as [Hle|Hgt]; cbn.
  - rewrite drop_ge by lia. rewrite take_nil, app_nil_r. cbn. split_and!; try done; lia.
  - assert (u64 (pos e + blen b - from) = pos e + blen b - from) as -> by (apply Z.mod_small; lia). assert (u64 (cap e - blen (emitted e)) = cap e - blen (emitted e)) as -> by (apply Z.mod_small; lia).
    set (want := pos e + blen b - from). set (can := cap e - blen (emitted e)). replace (Z.to_nat (from - pos e)) with (Z.to_nat (resume e - pos e)) by lia.
    assert (Z.of_nat (length (drop (Z.to_nat (resume e - pos e)) b)) = want) as El by (rewrite length_drop; lia).
    destruct (Z.ltb_spec want can) as [Hlt|Hge].
    + rewrite (proj2 (Z.ltb_ge want want)) by lia. cbn. split_and!; try done; [|lia]. f_equal. rewrite !take_ge by lia. done.
    + destruct (Z.ltb_spec can want) as [Hlt|Hge']; cbn.
      * split_and!; try done; [lia|]. rewrite Ef. apply Z.mod_small. lia.
      * split_and!; try done; lia.
Qed.
Lemma puts_spec rs e : sane e -> pos e + blen (concat rs) < 2 ^ 64 -> resume e <= pos e + blen (concat rs) -> emits (concat rs) e (puts rs e).1 (puts rs e).2.
Proof.
  revert e. induction rs as [|b rs IH]; intros e Hs Hb Hr; cbn [puts concat].
  - destruct Hs as (Hf & Hp & Hr0 & Hroom & Hc). unfold emits, rest_of, room in *. rewrite drop_nil, take_nil, app_nil_r. cbn in *. split_and!; try done; lia.
  - cbn [concat] in Hb, Hr. rewrite length_app in Hb, Hr. pose proof (put_spec b e Hs ltac:(lia)) as Hput. destruct (put b e) as [ok e1] eqn:Ep. cbn [fst snd] in Hput. destruct Hput as (Ec & Er & Eem & Ef & Hok). destruct Hs as (Hf & Hp & Hr0 & Hroom & Hc).
    unfold rest_of in *. assert (forall X Y : bytes, (length X <= Z.to_nat (room e))%nat -> take (Z.to_nat (room e)) (X ++ Y) = X ++ take (Z.to_nat (room e) - length X) Y) as Htake by (intros X Y HX; by rewrite take_app, take_ge by lia).
    destruct ok; cbn [negb] in *.
    + destruct Hok as [Hfit Ep1]. rewrite take_ge in Eem by lia. assert (room e1 = room e - blen (drop (Z.to_nat (resume e - pos e)) b)) as Eroom by (unfold room in *; rewrite Ec, Eem, length_app; lia).
      assert (sane e1) as Hs1 by (unfold sane; rewrite Eroom, Ec, Er, Ep1, Ef; lia).
      pose proof (IH e1 Hs1 ltac:(lia) ltac:(lia)) as (Jc & Jr & Jem & Jf & Jok). destruct (puts rs e1) as [ok e2]. cbn [fst snd] in *. unfold rest_of in Jem, Jok. unfold emits, rest_of. rewrite drop_app. rewrite Ep1, Er in *.
      replace (Z.to_nat (resume e - (pos e + blen b))) with (Z.to_nat (resume e - pos e) - length b)%nat in * by lia. rewrite length_app in *. split_and!; [congruence|congruence| |done|].
      * rewrite Jem, Eem, <- app_assoc. f_equal. rewrite Htake by lia. replace (Z.to_nat (room e1)) with (Z.to_nat (room e) - length (drop (Z.to_nat (resume e - pos e)) b))%nat by lia. done.
      * rewrite length_app. destruct ok; [split; lia|]. destruct Jok as [Hgt Epos]. split; [lia|]. rewrite Epos, Eroom. rewrite length_drop in Hgt |- *. rewrite length_drop in Hfit. lia.
    + destruct Hok as [Hgt Ep1]. unfold emits, rest_of. rewrite drop_app, !length_app. cbn [fst snd negb]. split_and!; try done; [|lia]. rewrite Eem. f_equal. rewrite take_app. replace (Z.to_nat (room e) - length (drop (Z.to_nat (resume e - pos e)) b))%nat with 0%nat by lia. by rewrite take_0, app_nil_r.
Qed.

(** * The walks *)
Section WalkProofs.
Context {A : Type} (ranges : A -> list bytes).
Definition enc (a : A) : bytes := concat (ranges a).
Definition image (l : list A) : bytes := concat (enc <$> l).
Lemma image_cons a l : image (a :: l) = enc a ++ image l.
Proof. done. Qed.
Lemma image_app l k : image (l ++ k) = image l ++ image k.
Proof. unfold image. by rewrite fmap_app, concat_app. Qed.
Lemma image_split k l a : l !! k = Some a -> image l = image (take k l) ++ enc a ++ image (drop (S k) l).
Proof. intros E. rewrite <- (take_drop k l) at 1. by rewrite image_app, (drop_S _ _ _ E), image_cons. Qed.
(** Where a stopped walk stands. *)
Definition stands (i : Z) (suf : list A) (done' : Z) (s : Visit) : Prop :=
  exists k a, suf !! k = Some a /\ v_lane0 s = i + Z.of_nat k /\ 0 <= v_lane1 s <= blen (enc a) /\ blen (image (take k suf)) + v_lane1 s = done'.
Definition idle (s : Visit) : Prop := stopped s = false /\ full (em s) = false /\ 0 <= room (em s) /\ cap (em s) < 2 ^ 64.
Lemma seek_loop_spec suf s r : idle s -> v_lane0 s <= idx s -> 0 <= idx s -> idx s + Z.of_nat (length suf) < 2 ^ 64 -> r = (if idx s =? v_lane0 s then v_lane1 s else 0) ->
  0 <= r -> r <= blen (image (take 1 suf)) -> blen (image suf) < 2 ^ 64 ->
  let s' := seek_loop ranges suf s in let B := drop (Z.to_nat r) (image suf) in
  emitted (em s') = emitted (em s) ++ take (Z.to_nat (room (em s))) B /\
  if decide (blen B <= room (em s)) then stopped s' = false /\ idx s' = idx s + Z.of_nat (length suf) else stopped s' = true /\ stands (idx s) suf (r + room (em s)) s'.
Proof.
  revert s r. induction suf as [|a suf IH]; intros s r (Hst & Hf & Hroom & Hcap) Hl Hi Hn Er Hr Hra Hlen; cbn [seek_loop].
  { cbn in Hra. assert (r = 0) as -> by lia. change (image []) with (@nil Z). rewrite drop_nil, take_nil, app_nil_r. split; [done|]. rewrite decide_True by (cbn; lia). split; [done|cbn; lia]. }
  cbn [take] in Hra. rewrite image_cons, take_0 in Hra. change (image []) with (@nil Z) in Hra. rewrite app_nil_r in Hra. rewrite image_cons, length_app in Hlen. rewrite <- Er. set (e0 := restart r (em s)).
  assert (sane e0) as Hs0 by (unfold sane, e0, room in *; cbn; split; [done|lia]). pose proof (puts_spec (ranges a) e0 Hs0) as Hputs. cbn [restart pos resume e0] in Hputs. change (concat (ranges a)) with (enc a) in Hputs. specialize (Hputs ltac:(lia) ltac:(lia)).
  destruct (puts (ranges a) e0) as [ok e1]. destruct Hputs as (Ec & _ & Eem & Ef & Hok). cbn [fst snd] in *. unfold rest_of in *. cbn [pos resume restart e0 emitted cap] in *. rewrite Z.sub_0_r in *. change (room e0) with (room (em s)) in *.
  rewrite image_cons, drop_app, length_app. replace (Z.to_nat r - length (enc a))%nat with 0%nat by lia. rewrite drop_0. destruct ok; cbn [negb] in Ef.
  - destruct Hok as [Hfit Ep]. rewrite take_ge in Eem by lia. set (s1 := mkVisit _ _ _ _ _). assert (u64 (idx s + 1) = idx s + 1) as Ei by (apply Z.mod_small; cbn [length] in Hn; lia).
    assert (room e1 = room (em s) - blen (drop (Z.to_nat r) (enc a))) as Eroom by (unfold room; rewrite Ec, Eem, length_app; lia).
    destruct (IH s1 0) as [Hem Hd]; unfold s1, idle; cbn [stopped em idx v_lane0 v_lane1]; rewrite ?Ei, ?Eroom, ?Ec; try done; try lia; [split; [done|]; split; [done|lia]|cbn [length] in Hn; lia|rewrite (proj2 (Z.eqb_neq _ _)) by lia; done|]. unfold s1 in *. clear s1. cbn [em idx] in Hem, Hd. rewrite Z.add_0_l, Eroom, Ei in *. change (drop (Z.to_nat 0) (image suf)) with (image suf) in *. split.
    + rewrite Hem, Eem, <- app_assoc. f_equal. rewrite take_app, (take_ge (drop _ _)) by lia. f_equal. f_equal. lia.
    + rewrite Nat2Z.inj_add. destruct (decide (blen (image suf) <= room (em s) - blen (drop (Z.to_nat r) (enc a)))); [rewrite decide_True by lia; cbn [length]; destruct Hd; split; [done|lia]|].
      rewrite decide_False by lia. destruct Hd as [Hd1 (k & b & Ek & Hl0 & Hl1 & Hsum)]. split; [done|]. exists (S k), b. cbn [take]. rewrite image_cons, length_app. rewrite length_drop in Hsum. split; [done|]. split; [lia|]. split; [done|]. lia.
  - destruct Hok as [Hgt Ep]. cbn [em stopped idx]. split; [rewrite Eem; f_equal; rewrite take_app; replace (Z.to_nat (room (em s)) - length (drop (Z.to_nat r) (enc a)))%nat with 0%nat by lia; by rewrite take_0, app_nil_r|].
    rewrite decide_False by lia. split; [done|]. exists 0%nat, a. cbn. rewrite length_drop in Hgt. rewrite Ep. split; [done|]. split; [lia|]. split; [lia|]. lia.
Qed.
(** The elements before the cursor are skipped. *)
Definition moved_to (i : Z) (s : Visit) : Visit := mkVisit i (stopped s) (v_lane0 s) (v_lane1 s) (em s).
Lemma skip_visit l s : stopped s = false -> 0 <= idx s -> idx s + Z.of_nat (length l) <= v_lane0 s -> v_lane0 s < 2 ^ 64 -> foldl (visit ranges) s l = moved_to (idx s + Z.of_nat (length l)) s.
Proof.
  revert s. induction l as [|a l IH]; intros s Hs Hi Hl Hb; cbn [foldl length]; [unfold moved_to; destruct s; cbn; f_equal; lia|]. cbn [length] in Hl.
  assert (visit ranges s a = moved_to (idx s + 1) s) as -> by (unfold visit; rewrite Hs, (proj2 (Z.ltb_lt _ _)) by lia; unfold moved_to, u64; rewrite Hs, Z.mod_small by lia; done).
  rewrite IH by (cbn; lia || done). unfold moved_to. cbn. f_equal. lia.
Qed.
Lemma skip_stop l k s : stopped s = false -> 0 <= idx s -> idx s + Z.of_nat (length l) <= v_lane0 s -> v_lane0 s < 2 ^ 64 -> stop_loop ranges (l ++ k) s = stop_loop ranges k (moved_to (idx s + Z.of_nat (length l)) s).
Proof.
  revert s. induction l as [|a l IH]; intros s Hs Hi Hl Hb; cbn [stop_loop app length]; [f_equal; unfold moved_to; destruct s; cbn; f_equal; lia|]. cbn [length] in Hl.
  rewrite (proj2 (Z.ltb_lt _ _)) by lia. rewrite IH by (cbn; unfold u64; rewrite ?Z.mod_small; done || lia). cbn. unfold moved_to. cbn. f_equal. f_equal. unfold u64. rewrite Z.mod_small; lia.
Qed.
Lemma visit_stopped l s : stopped s = true -> exists i, foldl (visit ranges) s l = moved_to i s.
Proof.
  revert s. induction l as [|a l IH]; intros s Hs; cbn [foldl]; [exists (idx s); by destruct s|]. unfold visit at 2. rewrite Hs. destruct (IH (mkVisit (u64 (idx s + 1)) (stopped s) (v_lane0 s) (v_lane1 s) (em s))) as [i Ei]; [done|]. rewrite Hs in Ei. rewrite Ei. exists i. unfold moved_to. cbn. by rewrite Hs.
Qed.
(** From the cursor on, the three walks agree. *)
Lemma visit_seek c suf s : stopped s = false -> v_lane0 s <= idx s -> 0 <= idx s -> idx s + Z.of_nat (length suf) < 2 ^ 64 -> finish c (foldl (visit ranges) s suf) = finish c (seek_loop ranges suf s).
Proof.
  revert s. induction suf as [|a suf IH]; intros s Hs Hl Hi Hn; [done|]. cbn [foldl seek_loop length] in *. unfold visit at 2. rewrite Hs, (proj2 (Z.ltb_ge _ _)) by lia. destruct (puts _ _) as [ok e]. destruct ok.
  - assert (u64 (idx s + 1) = idx s + 1) as -> by (apply Z.mod_small; lia). apply IH; cbn; done || lia.
  - destruct (visit_stopped suf (mkVisit (u64 (idx s + 1)) true (idx s) (pos e) e) eq_refl) as [i ->]. done.
Qed.
Lemma stop_seek suf s : v_lane0 s <= idx s -> 0 <= idx s -> idx s + Z.of_nat (length suf) < 2 ^ 64 -> stop_loop ranges suf s = seek_loop ranges suf s.
Proof.
  revert s. induction suf as [|a suf IH]; intros s Hl Hi Hn; [done|]. cbn [stop_loop seek_loop length] in *. rewrite (proj2 (Z.ltb_ge _ _)) by lia. destruct (puts _ _) as [ok e]. destruct ok; [|done].
  assert (u64 (idx s + 1) = idx s + 1) as -> by (apply Z.mod_small; lia). apply IH; cbn; lia.
Qed.
(** The cursor has given out [o] bytes of the image. *)
Definition cur_at (l : list A) (c : SnapshotSaveCursor) (o : nat) : Prop :=
  exists k, lane0 c = Z.of_nat k /\ (k <= length l)%nat /\ 0 <= lane1 c <= blen (image (take 1 (drop k l))) /\ Z.of_nat o = blen (image (take k l)) + lane1 c /\ offset c = Z.of_nat o.
Context (l : list A) (Hsmall : Z.of_nat (length l) < 2 ^ 32) (Himage : blen (image l) < 2 ^ 64).
Definition walk_read (c : SnapshotSaveCursor) (capacity : Z) : SnapshotSaveCursor * bytes :=
  finish c (seek_loop ranges (drop (Z.to_nat (lane0 c)) l) (start_visit (lane0 c) c capacity)).
Lemma walks_agree c o capacity : cur_at l c o -> read_visiting ranges l c capacity = walk_read c capacity /\ read_seeking ranges l c capacity = walk_read c capacity /\ read_stopping ranges l c capacity = walk_read c capacity.
Proof.
  intros (k & El0 & Hk & _). unfold read_visiting, read_seeking, read_stopping, walk_read. rewrite El0, Nat2Z.id. assert (length (take k l) = k) as Hlt by (rewrite length_take; lia).
  assert (moved_to (0 + Z.of_nat k) (start_visit 0 c capacity) = start_visit (Z.of_nat k) c capacity) as Em by (unfold moved_to, start_visit; cbn; f_equal; lia). split_and!.
  - rewrite <- (take_drop k l) at 1. rewrite foldl_app, (skip_visit (take k l)) by (cbn; rewrite ?Hlt, ?El0; done || lia). rewrite Hlt. cbn [idx start_visit]. rewrite Em. apply visit_seek; cbn; rewrite ?El0, ?length_drop; done || lia.
  - unfold u32. rewrite Z.mod_small, Nat2Z.id by lia. done.
  - rewrite <- (take_drop k l) at 1. rewrite skip_stop by (cbn; rewrite ?Hlt, ?El0; done || lia). rewrite Hlt. cbn [idx start_visit]. rewrite Em, stop_seek; [done|cbn; rewrite ?El0, ?length_drop; lia..].
Qed.
Lemma image_from k r : 0 <= r <= blen (image (take 1 (drop k l))) -> drop (length (image (take k l)) + Z.to_nat r) (image l) = drop (Z.to_nat r) (image (drop k l)).
Proof. intros _. rewrite <- (take_drop k l) at 2. rewrite image_app, <- drop_drop, drop_app_length. done. Qed.
Lemma walk_read_spec c o capacity : cur_at l c o -> 0 <= capacity < 2 ^ 64 ->
  exists c', walk_read c capacity = (c', take (Z.to_nat capacity) (drop o (image l))) /\ cur_at l c' (o + length (take (Z.to_nat capacity) (drop o (image l)))) /\ total c' = total c /\ lane2 c' = lane2 c.
Proof.
  intros (k & El0 & Hk & Hr & Eo & Eoff) Hcap. unfold walk_read. rewrite El0, Nat2Z.id. set (suf := drop k l). set (s := start_visit _ c capacity). assert (o = length (image (take k l)) + Z.to_nat (lane1 c))%nat as Eo' by lia. rewrite Eo', image_from by done. rewrite <- Eo'. fold suf. fold suf in Hr.
  assert (length (image l) = length (image (take k l)) + length (image suf))%nat as Eil by (unfold suf; rewrite <- length_app, <- image_app, take_drop; done).
  assert (length (image (take 1 suf)) <= length (image suf))%nat as Hone by (rewrite <- (take_drop 1 suf) at 2; rewrite image_app, length_app; lia).
  assert (room (em s) = capacity) as Eroom by (unfold room; cbn; lia). destruct (seek_loop_spec suf s (lane1 c)) as [Hem Hcase].
  { split; [done|]. split; [done|]. rewrite Eroom. cbn. lia. }
  { cbn. lia. }
  { cbn. lia. }
  { cbn. unfold suf. rewrite length_drop. lia. }
  { cbn. by rewrite El0, Z.eqb_refl. }
  { lia. }
  { apply Hr. }
  { lia. }
  rewrite Eroom in Hem, Hcase. set (s' := seek_loop ranges suf s) in *. cbn [start_visit em emitted app idx s] in Hem, Hcase.
  unfold finish. rewrite Hem. set (B := drop (Z.to_nat (lane1 c)) (image suf)) in *. assert (u64 (offset c + blen (take (Z.to_nat capacity) B)) = Z.of_nat (o + length (take (Z.to_nat capacity) B))) as Eoff'.
  { rewrite Eoff, length_take. unfold u64. rewrite Z.mod_small; [lia|]. unfold B. rewrite length_drop. lia. }
  rewrite Eoff'. destruct (decide (blen B <= capacity)) as [Hfit|Hno]; destruct Hcase as [-> Hcase].
  - eexists. split; [done|]. split; [|done]. exists (length l). cbn [lane0 lane1 offset]. rewrite Hcase. split; [unfold suf; rewrite length_drop; lia|]. split; [lia|]. split; [lia|]. split; [|done]. rewrite take_ge, firstn_all by lia. unfold B. rewrite length_drop. lia.
  - destruct Hcase as (j & a & Ej & Hl0 & Hl1 & Hsum). eexists. split; [done|]. split; [|done]. exists (k + j)%nat. cbn [lane0 lane1 offset]. pose proof (lookup_lt_Some _ _ _ Ej) as Hj. unfold suf in Hj. rewrite length_drop in Hj.
    assert (l !! (k + j)%nat = Some a) as Ea by (unfold suf in Ej; by rewrite lookup_drop in Ej). split; [lia|]. split; [lia|]. rewrite (drop_S _ _ _ Ea). cbn [take]. rewrite take_0, image_cons, app_nil_r. split; [done|]. split; [|done].
    rewrite <- (take_take_drop l k j), image_app, length_app. fold suf. rewrite length_take. lia.
Qed.
End WalkProofs.

(** * What a save hook promises: it hands out its image piece by piece *)
Class Streams (h : SaveHooks) (img : bytes) (encoding : Z) := {
  given : SnapshotSaveCursor -> nat -> Prop;
  streams_begin : exists c, begin_save h = (Ok, c, encoding) /\ given c 0;
  streams_read c o capacity : given c o -> 0 <= capacity < 2 ^ 64 ->
    exists c', read_save h c capacity = (Ok, c', take (Z.to_nat capacity) (drop o img)) /\ given c' (o + length (take (Z.to_nat capacity) (drop o img)));
  streams_at c o : given c o -> offset c = Z.of_nat o /\ total c = blen img /\ (o <= length img)%nat }.
(** Reads with the given capacities. *)
Fixpoint read_all (h : SaveHooks) (c : SnapshotSaveCursor) (caps : list Z) : option (list bytes * SnapshotSaveCursor) :=
  match caps with
  | [] => Some ([], c)
  | k :: caps => match read_save h c k with (Ok, c, b) => '(bs, c) ← read_all h c caps; Some (b :: bs, c) | _ => None end
  end.
Section Streaming.
Context (h : SaveHooks) (img : bytes) (encoding : Z) `{!Streams h img encoding}.
Lemma read_all_spec caps c o : given c o -> Forall (fun k => 0 <= k < 2 ^ 64) caps -> exists bs c', read_all h c caps = Some (bs, c') /\ concat bs = take (Z.to_nat (foldr Z.add 0 caps)) (drop o img) /\ given c' (o + length (concat bs)) /\ Forall2 (fun k b => blen b <= k) caps bs.
Proof.
  intros Hg Hc. revert c o Hg. induction Hc as [|k caps Hk Hc IH]; intros c o Hg; cbn [read_all foldr]; [exists [], c; cbn; rewrite Nat.add_0_r; by split_and!|].
  destruct (streams_read c o k Hg Hk) as (c1 & -> & Hg1). set (b := take (Z.to_nat k) (drop o img)) in *. destruct (IH c1 _ Hg1) as (bs & c' & -> & Ebs & Hg' & Hcap). exists (b :: bs), c'. split; [done|]. cbn [concat]. rewrite length_app, Nat.add_assoc. split; [|split; [done|]; constructor; [unfold b; rewrite length_take; lia|done]].
  assert (0 <= foldr Z.add 0 caps) as H0 by (clear -Hc; induction Hc; cbn [foldr]; lia). rewrite Ebs, Z2Nat.inj_add by lia. rewrite <- drop_drop. set (X := drop o img) in *. unfold b. rewrite length_take. destruct (decide (Z.to_nat k <= length X)%nat).
  - rewrite Nat.min_l by lia. by rewrite take_take_drop.
  - rewrite Nat.min_r, drop_all, take_nil, app_nil_r by lia. rewrite !take_ge by lia. done.
Qed.
Lemma image_loop_spec fuel c o : given c o -> (length img - o <= fuel)%nat -> blen img < 2 ^ 64 -> image_loop h fuel c (take o img) = Some (Some img).
Proof.
  revert c o. induction fuel as [|fuel IH]; intros c o Hg Hf Hb; cbn [image_loop]; destruct (streams_at c o Hg) as (-> & -> & Ho).
  { rewrite (proj2 (Z.ltb_ge _ _)) by lia. by rewrite take_ge by lia. }
  destruct (Z.ltb_spec (Z.of_nat o) (blen img)) as [Hlt|Hge]; [|by rewrite take_ge by lia]. destruct (streams_read c o (blen img - Z.of_nat o) Hg ltac:(lia)) as (c' & -> & Hg').
  rewrite take_ge in * by (rewrite length_drop; lia). rewrite length_drop in *. rewrite (proj2 (Z.eqb_neq _ _)), (proj2 (Z.ltb_ge _ _)) by lia. cbn [orb]. rewrite take_drop. pose proof (IH c' _ Hg' ltac:(lia) Hb) as E. by rewrite take_ge in E by lia.
Qed.
Lemma snapshot_image_spec : blen img <= UINT32_MAX -> snapshot_image h = Some (Some (img, encoding)).
Proof.
  intros Hb. unfold snapshot_image. destruct streams_begin as (c & -> & Hg). destruct (streams_at c 0 Hg) as (_ & Et & _). rewrite Et, (proj2 (Z.ltb_ge _ _)) by lia. unfold UINT32_MAX in Hb.
  change (@nil Z) with (take 0 img). rewrite (image_loop_spec _ c 0 Hg) by lia. done.
Qed.
End Streaming.

(** * The five types keep the promise *)
Lemma total_sum {A} (ranges : A -> list bytes) (f : A -> Z) l t : (forall a, f a = blen (enc ranges a)) -> 0 <= t -> t + blen (image ranges l) < 2 ^ 64 -> foldl (fun t a => u64 (t + f a)) t l = t + blen (image ranges l).
Proof.
  intros Hf. revert t. induction l as [|a l IH]; intros t Ht Hb; cbn [foldl]; [cbn; lia|]. rewrite image_cons, length_app in Hb. assert (u64 (t + f a) = t + f a) as -> by (apply Z.mod_small; rewrite Hf; lia). rewrite IH, image_cons, length_app; rewrite ?Hf; lia.
Qed.
Lemma cur_at_begin {A} (ranges : A -> list bytes) l t x : cur_at ranges l (mkCursor 0 t 0 0 x) 0.
Proof. exists 0%nat. cbn. split; [done|]. split; [lia|]. split; [lia|]. done. Qed.
Lemma cur_at_le {A} (ranges : A -> list bytes) l c o : cur_at ranges l c o -> offset c = Z.of_nat o /\ (o <= length (image ranges l))%nat.
Proof.
  intros (k & _ & Hk & Hr & Eo & Eoff). split; [done|]. rewrite <- (take_drop k l), image_app, length_app. rewrite <- (take_drop 1 (drop k l)), image_app, length_app. lia.
Qed.
Lemma member_enc m : blen (enc member_ranges m) = 4 + blen m.
Proof. unfold enc, member_ranges. cbn [concat]. rewrite app_nil_r, length_app. unfold snapshot_put_u32. rewrite put_le_length. lia. Qed.
Lemma pair_enc t p : blen (enc (pair_ranges t) p) = (if t then 16 else 8) + blen (field p) + blen (value p).
Proof.
  unfold enc, pair_ranges, snapshot_put_u32, snapshot_put_u64. destruct t; cbn [app concat]; rewrite !length_app, !put_le_length; cbn [length]; lia.
Qed.
Lemma scored_enc s : blen (enc scored_ranges s) = 12 + blen (member s).
Proof. unfold enc, scored_ranges, snapshot_put_u32, snapshot_put_u64. cbn [concat]. rewrite !length_app, !put_le_length. cbn [length]. lia. Qed.
Lemma payload_sum l : blen (image member_ranges l) = 4 * Z.of_nat (length l) + payload_bytes l.
Proof. induction l as [|m l IH]; [done|]. rewrite image_cons, length_app, Nat2Z.inj_add, IH, member_enc. cbn [length payload_bytes foldr]. unfold payload_bytes. cbn [foldr]. lia. Qed.
Definition small {A} (ranges : A -> list bytes) (l : list A) : Prop := Z.of_nat (length l) < 2 ^ 32 /\ blen (image ranges l) < 2 ^ 64.
(** The walks of a collection stream its image. *)
Lemma walk_streams {A} (ranges : A -> list bytes) l c o capacity : small ranges l -> cur_at ranges l c o -> 0 <= capacity < 2 ^ 64 -> forall read, read = walk_read ranges l c capacity ->
  exists c', read = (c', take (Z.to_nat capacity) (drop o (image ranges l))) /\ cur_at ranges l c' (o + length (take (Z.to_nat capacity) (drop o (image ranges l)))) /\ total c' = total c /\ lane2 c' = lane2 c.
Proof. intros [Hn Hi] Hc Hk read ->. by apply walk_read_spec. Qed.
Definition whole {A} (ranges : A -> list bytes) (l : list A) (c : SnapshotSaveCursor) (o : nat) : Prop := cur_at ranges l c o /\ total c = blen (image ranges l).
#[export] Program Instance string_streams v : blen (string_bytes v) < 2 ^ 64 -> Streams (string_hooks v) (string_bytes v) (string_snapshot_begin v).2 := fun Hb => {|
  given c o := offset c = Z.of_nat o /\ total c = blen (string_bytes v) /\ (o <= length (string_bytes v))%nat |}.
Next Obligation. intros v Hb. destruct v as [z|x b]; eexists; (split; [done|]); cbn; split_and!; try done; lia. Qed.
Next Obligation.
  intros v Hb c o k (Eo & Et & Ho) Hk. cbn. unfold string_snapshot_read. rewrite Eo, Et, (proj2 (Z.ltb_ge _ _)) by lia. destruct (Z.eqb_spec (Z.min k (blen (string_bytes v) - Z.of_nat o)) 0) as [E|E].
  - exists c. assert (take (Z.to_nat k) (drop o (string_bytes v)) = []) as -> by (destruct (decide (k = 0)) as [->|]; [done|]; rewrite drop_ge by lia; apply take_nil). split; [done|]. cbn. rewrite Nat.add_0_r. done.
  - eexists. rewrite Nat2Z.id. assert (take (Z.to_nat (Z.min k (blen (string_bytes v) - Z.of_nat o))) (drop o (string_bytes v)) = take (Z.to_nat k) (drop o (string_bytes v))) as ->.
    { destruct (decide (k <= blen (string_bytes v) - Z.of_nat o)); [by rewrite Z.min_l by lia|]. rewrite !take_ge by (rewrite length_drop; lia). done. }
    split; [done|]. cbn. rewrite length_take, length_drop. split; [unfold u64; rewrite Z.mod_small; lia|]. split; [done|lia].
Qed.
Next Obligation. by intros v Hb c o H. Qed.
#[export] Program Instance set_streams l : small member_ranges l -> Streams (set_hooks l) (image member_ranges l) 0 := fun Hs => {| given := whole member_ranges l |}.
Next Obligation. intros l [Hn Hi]. eexists. split; [done|]. split; [apply cur_at_begin|]. cbn. rewrite (total_sum member_ranges); [lia|intros a; by rewrite member_enc|lia|lia]. Qed.
Next Obligation.
  intros l Hs c o k [Hc Et] Hk. cbn. unfold set_snapshot_read. destruct (walk_streams member_ranges l c o k Hs Hc Hk _ (proj1 (walks_agree member_ranges l (proj1 Hs) c o k Hc))) as (c' & -> & Hc' & Et' & _). exists c'. split; [done|]. split; [done|congruence].
Qed.
Next Obligation. intros l Hs c o [Hc Et]. destruct (cur_at_le _ _ _ _ Hc). by split. Qed.
#[export] Program Instance list_streams l : small member_ranges l -> Streams (list_hooks l) (image member_ranges l) 0 := fun Hs => {| given := whole member_ranges l |}.
Next Obligation. intros l [Hn Hi]. eexists. split; [done|]. split; [apply cur_at_begin|]. cbn. rewrite payload_sum in *. apply Z.mod_small. split; [|done]. rewrite <- payload_sum. lia. Qed.
Next Obligation.
  intros l Hs c o k [Hc Et] Hk. cbn. unfold list_snapshot_read. destruct (walk_streams member_ranges l c o k Hs Hc Hk _ (proj1 (proj2 (walks_agree member_ranges l (proj1 Hs) c o k Hc)))) as (c' & -> & Hc' & Et' & _). exists c'. split; [done|]. split; [done|congruence].
Qed.
Next Obligation. intros l Hs c o [Hc Et]. destruct (cur_at_le _ _ _ _ Hc). by split. Qed.
#[export] Program Instance zset_streams l : small scored_ranges l -> Streams (zset_hooks l) (image scored_ranges l) 0 := fun Hs => {| given := whole scored_ranges l |}.
Next Obligation. intros l [Hn Hi]. eexists. split; [done|]. split; [apply cur_at_begin|]. cbn. rewrite (total_sum scored_ranges); [lia|intros a; by rewrite scored_enc|lia|lia]. Qed.
Next Obligation.
  intros l Hs c o k [Hc Et] Hk. cbn. unfold zset_snapshot_read. destruct (walk_streams scored_ranges l c o k Hs Hc Hk _ (proj2 (proj2 (walks_agree scored_ranges l (proj1 Hs) c o k Hc)))) as (c' & -> & Hc' & Et' & _). exists c'. split; [done|]. split; [done|congruence].
Qed.
Next Obligation. intros l Hs c o [Hc Et]. destruct (cur_at_le _ _ _ _ Hc). by split. Qed.
#[export] Program Instance hash_streams t l : small (pair_ranges t) l -> Streams (hash_hooks t l) (image (pair_ranges t) l) (if t then 1 else 0) := fun Hs => {|
  given c o := whole (pair_ranges t) l c o /\ lane2 c = (if t then 1 else 0) |}.
Next Obligation. intros t l [Hn Hi]. eexists. split; [done|]. split; [|done]. split; [apply cur_at_begin|]. cbn. rewrite (total_sum (pair_ranges t)); [lia|intros a; by rewrite pair_enc|lia|lia]. Qed.
Next Obligation.
  intros t l Hs c o k [[Hc Et] El] Hk. cbn. unfold hash_snapshot_read. assert (negb (lane2 c =? 0) = t) as -> by (rewrite El; by destruct t).
  destruct (walk_streams (pair_ranges t) l c o k Hs Hc Hk _ (proj1 (walks_agree (pair_ranges t) l (proj1 Hs) c o k Hc))) as (c' & -> & Hc' & Et' & El'). exists c'. split; [done|]. split; [split; [done|congruence]|congruence].
Qed.
Next Obligation. intros t l Hs c o [[Hc Et] _]. destruct (cur_at_le _ _ _ _ Hc). by split. Qed.

(** * Payloads parse back *)
Fixpoint fold_step {A S} (step : S -> A -> SnapshotHookStatus + S) (l : list A) (s : S) : SnapshotHookStatus + S :=
  match l with [] => inr s | a :: l => match step s a with inl e => inl e | inr s => fold_step step l s end end.
Lemma load_loop_image {A S} (ranges : A -> list bytes) parse (step : S -> A -> SnapshotHookStatus + S) l fuel s :
  Forall (fun a => enc ranges a <> [] /\ forall rest, parse (enc ranges a ++ rest) = Some (a, rest)) l -> (length (image ranges l) <= fuel)%nat -> load_loop parse step fuel (image ranges l) s = Some (fold_step step l s).
Proof.
  intros Hl. revert fuel s. induction Hl as [|a l [Hne Hp] Hl IH]; intros fuel s Hf; [by destruct fuel|]. rewrite image_cons, length_app in *. cbn [fold_step]. assert (0 < length (enc ranges a))%nat by (destruct (enc ranges a); [done|cbn; lia]).
  destruct fuel as [|fuel]; [lia|]. cbn [load_loop]. destruct (enc ranges a ++ image ranges l) as [|b p] eqn:E; [apply app_eq_nil in E as [E _]; done|]. rewrite <- E, Hp. destruct (step s a) as [e|s']; [done|]. apply IH. lia.
Qed.
Lemma parse_member_enc m rest : blen m < 2 ^ 32 -> parse_member (enc member_ranges m ++ rest) = Some (m, rest).
Proof.
  intros Hm. unfold enc, member_ranges, parse_member. cbn [concat]. rewrite app_nil_r, <- app_assoc, length_app. pose proof (put_le_length 4 (blen m)) as H4. rewrite (proj2 (Z.ltb_ge _ _)) by (unfold snapshot_put_u32; lia). rewrite get_u32_put, some_bind by lia.
  rewrite (drop_app_length' (snapshot_put_u32 (blen m))) by (unfold snapshot_put_u32; lia). rewrite length_app, (proj2 (Z.ltb_ge _ _)) by lia. rewrite Nat2Z.id, take_app_length, drop_app_length. done.
Qed.
Definition pair_ok (t : bool) (p : Pair) : Prop := blen (field p) < 2 ^ 32 /\ blen (value p) < 2 ^ 32 /\ -1 <= deadline p < 2 ^ 63 /\ (t = false -> deadline p = -1).
Lemma to_i64_u64 d : - 2 ^ 63 <= d < 2 ^ 63 -> to_i64 (u64 d) = d.
Proof.
  intros Hd. unfold to_i64, u64. destruct (decide (0 <= d)).
  - rewrite Z.mod_small by lia. rewrite (proj2 (Z.ltb_lt _ _)); lia.
  - assert (d mod 18446744073709551616 = d + 2 ^ 64) as -> by (symmetry; apply (Z.mod_unique _ _ (-1)); lia). rewrite (proj2 (Z.ltb_ge _ _)); lia.
Qed.
Lemma parse_pair_enc t p rest : pair_ok t p -> parse_pair t (enc (pair_ranges t) p ++ rest) = Some (p, rest).
Proof.
  intros (Hf & Hv & Hd & Ht). destruct p as [f v d]. cbn [field value deadline] in *. set (tail := if t then snapshot_put_u64 (u64 d) else []).
  assert (enc (pair_ranges t) (mkPair f v d) ++ rest = snapshot_put_u32 (blen f) ++ f ++ snapshot_put_u32 (blen v) ++ v ++ tail ++ rest) as ->.
  { unfold enc, pair_ranges, tail. cbn [field value deadline]. destruct t; cbn [app concat]; rewrite ?app_nil_r, <- !app_assoc; done. }
  pose proof (put_le_length 4 (blen f)) as H4. pose proof (put_le_length 4 (blen v)) as H4'. pose proof (put_le_length 8 (u64 d)) as H8. unfold parse_pair. rewrite length_app, (proj2 (Z.ltb_ge _ _)) by (unfold snapshot_put_u32; lia). rewrite get_u32_put, some_bind by lia.
  rewrite (drop_app_length' (snapshot_put_u32 (blen f))) by (unfold snapshot_put_u32; lia). rewrite !length_app, (proj2 (Z.ltb_ge _ _)) by (unfold snapshot_put_u32; lia). rewrite Nat2Z.id, take_app_length, drop_app_length, get_u32_put, some_bind by lia.
  rewrite (drop_app_length' (snapshot_put_u32 (blen v))) by (unfold snapshot_put_u32; lia). rewrite !length_app, (proj2 (Z.ltb_ge _ _)) by lia. rewrite Nat2Z.id, take_app_length, drop_app_length. unfold tail. destruct t; [|by rewrite Ht].
  rewrite length_app, (proj2 (Z.ltb_ge _ _)) by (unfold snapshot_put_u64; lia). rewrite get_u64_put, some_bind by (apply Z.mod_pos_bound; lia). rewrite to_i64_u64 by lia. rewrite (drop_app_length' (snapshot_put_u64 _)) by (unfold snapshot_put_u64; lia). done.
Qed.
Definition scored_ok (s : Scored) : Prop := 0 <= score s < 2 ^ 64 /\ is_nan (score s) = false /\ blen (member s) < 2 ^ 32.
Lemma parse_scored_enc s rest : scored_ok s -> parse_scored (enc scored_ranges s ++ rest) = Some (s, rest).
Proof.
  intros (Hs & Hnan & Hm). destruct s as [b m]. cbn [score member] in *. unfold enc, scored_ranges, parse_scored. cbn [concat score member]. rewrite app_nil_r, <- !app_assoc. pose proof (put_le_length 8 b) as H8. pose proof (put_le_length 4 (blen m)) as H4.
  rewrite !length_app, (proj2 (Z.ltb_ge _ _)) by (unfold snapshot_put_u32, snapshot_put_u64; lia). rewrite get_u64_put, some_bind by lia. change 12%nat with (8 + 4)%nat. rewrite <- !drop_drop, (drop_app_length' (snapshot_put_u64 b)) by (unfold snapshot_put_u64; lia). rewrite get_u32_put, some_bind by lia.
  rewrite (drop_app_length' (snapshot_put_u32 (blen m))) by (unfold snapshot_put_u32; lia). rewrite length_app, (proj2 (Z.ltb_ge _ _)), Hnan by lia. cbn [orb]. rewrite Nat2Z.id, take_app_length, drop_app_length. done.
Qed.

(** * Values *)
Inductive Value := VString (v : StringValue) | VSet (l : list bytes) | VList (l : list bytes) | VHash (with_ttl : bool) (l : list Pair) | VZset (l : list Scored).
Definition hooks_of (v : Value) : SaveHooks :=
  match v with VString v => string_hooks v | VSet l => set_hooks l | VList l => list_hooks l | VHash t l => hash_hooks t l | VZset l => zset_hooks l end.
Definition image_of (v : Value) : bytes :=
  match v with VString v => string_bytes v | VSet l | VList l => image member_ranges l | VHash t l => image (pair_ranges t) l | VZset l => image scored_ranges l end.
Definition encoding_of (v : Value) : Z := match v with VString v => (string_snapshot_begin v).2 | VHash t _ => if t then 1 else 0 | _ => 0 end.
Definition value_ok (v : Value) : Prop :=
  match v with
  | VString (IntValue z) => - 2 ^ 63 <= z < 2 ^ 63
  | VString (RawValue _ b) => blen b < 2 ^ 64
  | VSet l | VList l => small member_ranges l /\ Forall (fun m => blen m < 2 ^ 32) l
  | VHash t l => small (pair_ranges t) l /\ Forall (pair_ok t) l
  | VZset l => small scored_ranges l /\ Forall scored_ok l
  end.
Lemma value_streams v : value_ok v -> exists _ : Streams (hooks_of v) (image_of v) (encoding_of v), True.
Proof.
  destruct v as [[z|x b]|l|l|t l|l]; cbn [value_ok]; intros H; (eexists; [|done]).
  - apply (string_streams (IntValue z)). cbn. lia.
  - by apply (string_streams (RawValue x b)).
  - apply set_streams, H.
  - apply list_streams, H.
  - apply hash_streams, H.
  - apply zset_streams, H.
Qed.
(** The routines a load builds with. *)
Record Builders (S R : Type) := mkBuilders {
  b_empty : option S; b_string : StringValue -> option R;
  b_set_add : S -> bytes -> option S; b_adopt : S -> option R;
  b_fits : Z -> Z -> bool; b_push : bool -> S -> bytes -> option S; b_promote : S -> S; b_note : S -> Z -> S;
  b_hash_set : S -> bytes -> bytes -> option S; b_hash_ttl : S -> bytes -> Z -> option S; b_entries : S -> Z; b_new_hash : S -> Z -> option R; b_adopt_hash : S -> Z -> option R;
  b_zset_add : S -> Scored -> option S; now : Z; expire_at : Z }.
Section Rebuild.
Context {S R : Type} (b : Builders S R).
(** The load hook of the value's type. *)
Definition load_value (v : Value) (encoding : Z) (payload : bytes) : option (SnapshotHookStatus + R) :=
  match v with
  | VString _ => string_snapshot_load (b_string _ _ b) encoding payload
  | VSet _ => set_snapshot_load (b_empty _ _ b) (b_set_add _ _ b) (b_adopt _ _ b) encoding payload
  | VList _ => list_snapshot_load (b_empty _ _ b) (b_fits _ _ b) (b_push _ _ b) (b_promote _ _ b) (b_note _ _ b) (b_adopt _ _ b) encoding payload
  | VHash _ _ => hash_snapshot_load (b_empty _ _ b) (b_hash_set _ _ b) (b_hash_ttl _ _ b) (b_entries _ _ b) (b_new_hash _ _ b) (b_adopt_hash _ _ b) (now _ _ b) (expire_at _ _ b) encoding payload
  | VZset _ => zset_snapshot_load (b_empty _ _ b) (b_zset_add _ _ b) (b_adopt _ _ b) encoding payload
  end.
(** * What a load should build *)
(** The edits in order; the first that is refused ends the load with [fail]. *)
Fixpoint edit_all (fail : SnapshotHookStatus) (edits : list (S -> option S)) (s : S) : SnapshotHookStatus + S :=
  match edits with [] => inr s | f :: edits => match f s with None => inl fail | Some s => edit_all fail edits s end end.
(** A new collection that went through the edits, made an object. *)
Definition built_by (fail : SnapshotHookStatus) (edits : list (S -> option S)) (make : S -> option R) : SnapshotHookStatus + R :=
  match b_empty _ _ b with
  | None => inl Oom
  | Some s => match edit_all fail edits s with inl e => inl e | inr s => match make s with None => inl Oom | Some r => inr r end end
  end.
(** A field whose deadline has passed does not exist any more. *)
Definition lapsed (p : Pair) : Prop := 0 <= deadline p <= now _ _ b.
#[export] Instance lapsed_dec p : Decision (lapsed p).
Proof. unfold lapsed. apply _. Defined.
Definition expires (p : Pair) : Prop := 0 <= deadline p.
#[export] Instance expires_dec p : Decision (expires p).
Proof. unfold expires. apply _. Defined.
Definition living (l : list Pair) : list Pair := filter (fun p => ~ lapsed p) l.
(** A living field gets its value, and its deadline if it has one. *)
Definition field_edits (p : Pair) : list (S -> option S) :=
  (fun s => b_hash_set _ _ b s (field p) (value p)) :: (if decide (expires p) then [fun s => b_hash_ttl _ _ b s (field p) (deadline p)] else []).
(** The value built from its elements alone: a hash from its living fields, as an object that can
    carry deadlines if one of them has one, and already expired if every field has lapsed. *)
Definition rebuild (v : Value) : SnapshotHookStatus + R :=
  match v with
  | VString (IntValue z) => match b_string _ _ b (IntValue z) with None => inl Oom | Some r => inr r end
  | VString (RawValue _ x) => match b_string _ _ b (RawValue false x) with None => inl Oom | Some r => inr r end
  | VSet l => built_by Oom ((fun m s => b_set_add _ _ b s m) <$> l) (b_adopt _ _ b)
  | VList l =>
      let compact := b_fits _ _ b (Z.of_nat (length l)) (payload_bytes l) in
      built_by Oom ((fun m s => b_push _ _ b compact s m) <$> l)
        (fun s => b_adopt _ _ b (if compact then s else foldl (fun s v => b_note _ _ b s (blen v)) (b_promote _ _ b s) l))
  | VHash _ l =>
      built_by Oom (living l ≫= field_edits)
        (fun s => (if decide (Exists expires (living l)) then b_new_hash _ _ b else b_adopt_hash _ _ b) s
                    (if decide (Exists lapsed l /\ b_entries _ _ b s = 0) then 1 else expire_at _ _ b))
  | VZset l => built_by Corrupt ((fun a s => b_zset_add _ _ b s a) <$> l) (b_adopt _ _ b)
  end.
Lemma add_edits {A} (add : S -> A -> option S) fail (l : list A) s : fold_step (fun s a => match add s a with Some s => inr s | None => inl fail end) l s = edit_all fail ((fun a s => add s a) <$> l) s.
Proof. revert s. induction l as [|a l IH]; intros s; [done|]. cbn. by destruct (add s a). Qed.
Lemma edit_all_app fail fs gs s : edit_all fail (fs ++ gs) s = match edit_all fail fs s with inl e => inl e | inr s => edit_all fail gs s end.
Proof. revert s. induction fs as [|f fs IH]; intros s; [done|]. cbn. by destruct (f s). Qed.
(** One field of the load. *)
Lemma pair_step_edits t h p : pair_ok t p -> pair_step (b_hash_set _ _ b) (b_hash_ttl _ _ b) (now _ _ b) t h p =
  if decide (lapsed p) then inr (mkHashLoad (built h) (u32 (skipped h + 1)) (has_ttls h))
  else match edit_all Oom (field_edits p) (built h) with inl e => inl e | inr s => inr (mkHashLoad s (skipped h) (has_ttls h || bool_decide (expires p))) end.
Proof.
  intros (_ & _ & Hd & Ht). unfold pair_step, field_edits, lapsed, expires. assert (t && (0 <=? deadline p) && (deadline p <=? now _ _ b) = bool_decide (0 <= deadline p <= now _ _ b)) as ->.
  { apply eq_true_iff_eq. rewrite bool_decide_eq_true, !andb_true_iff. zcmp. destruct t; [lia|]. rewrite Ht by done. lia. }
  destruct (decide (0 <= deadline p <= now _ _ b)) as [Hl|Hl]; [by rewrite bool_decide_eq_true_2|]. rewrite bool_decide_eq_false_2 by done. cbn [edit_all]. destruct (b_hash_set _ _ b _ _ _) as [s|]; [|done]. destruct (decide (0 <= deadline p)) as [H0|H0].
  - rewrite (proj2 (Z.leb_le _ _)) by done. rewrite bool_decide_eq_true_2, orb_true_r by done. cbn. by destruct (b_hash_ttl _ _ b _ _ _).
  - rewrite (proj2 (Z.leb_gt _ _)) by lia. rewrite bool_decide_eq_false_2, orb_false_r by done. done.
Qed.
Lemma hash_edits t l h : Forall (pair_ok t) l -> 0 <= skipped h -> skipped h + Z.of_nat (length l) < 2 ^ 32 ->
  fold_step (pair_step (b_hash_set _ _ b) (b_hash_ttl _ _ b) (now _ _ b) t) l h =
  match edit_all Oom (living l ≫= field_edits) (built h) with
  | inl e => inl e
  | inr s => inr (mkHashLoad s (skipped h + Z.of_nat (length (filter lapsed l))) (has_ttls h || bool_decide (Exists expires (living l))))
  end.
Proof.
  intros Hl. revert h. induction Hl as [|p l Hp Hl IH]; intros h H0 Hb; cbn [fold_step length] in *; [cbn; by rewrite Z.add_0_r, orb_false_r; destruct h|]. rewrite (pair_step_edits t h p Hp). unfold living in *. destruct (decide (lapsed p)) as [Hlap|Hlap].
  - assert (u32 (skipped h + 1) = skipped h + 1) as -> by (apply Z.mod_small; lia). rewrite IH by (cbn; lia). cbn [built skipped has_ttls]. rewrite (filter_cons_False _ p) by (intros Hn; by apply Hn). rewrite filter_cons_True by done. cbn [length].
    destruct (edit_all Oom _ _); [done|]. do 2 f_equal. lia.
  - rewrite (filter_cons_True (fun p => ~ lapsed p)) by done. rewrite (filter_cons_False lapsed) by done. change ((p :: filter (fun p => ~ lapsed p) l) ≫= field_edits) with (field_edits p ++ (filter (fun p => ~ lapsed p) l ≫= field_edits)). rewrite edit_all_app. destruct (edit_all Oom (field_edits p) (built h)) as [e|s]; [done|]. rewrite IH by (cbn; lia). cbn [built skipped has_ttls].
    destruct (edit_all Oom _ s); [done|]. do 2 f_equal. rewrite <- orb_assoc. f_equal. rewrite <- bool_decide_or. apply bool_decide_ext. by rewrite Exists_cons.
Qed.
Lemma members_parse l : Forall (fun m => blen m < 2 ^ 32) l -> Forall (fun m => enc member_ranges m <> [] /\ forall rest, parse_member (enc member_ranges m ++ rest) = Some (m, rest)) l.
Proof. intros Hl. eapply Forall_impl; [exact Hl|]. intros m Hm. split; [intros E; pose proof (member_enc m) as H; rewrite E in H; cbn in H; lia|]. intros rest. by apply parse_member_enc. Qed.
Lemma count_fold l n t : 0 <= n -> 0 <= t -> n + Z.of_nat (length l) < 2 ^ 64 -> t + payload_bytes l < 2 ^ 64 -> fold_step count_step l (n, t) = inr (n + Z.of_nat (length l), t + payload_bytes l).
Proof.
  revert n t. induction l as [|m l IH]; intros n t Hn Ht Hl Hb; cbn [fold_step payload_bytes foldr length] in *; [f_equal; f_equal; unfold payload_bytes; cbn; lia|]. unfold payload_bytes in *. cbn [foldr] in *. cbn [count_step fst snd].
  assert (0 <= foldr (fun m t => blen m + t) 0 l) as H0 by (clear; induction l; cbn [foldr]; lia). assert (u64 (n + 1) = n + 1) as -> by (apply Z.mod_small; lia). assert (u64 (t + blen m) = t + blen m) as -> by (apply Z.mod_small; lia).
  rewrite IH by lia. f_equal. f_equal; lia.
Qed.
Lemma note_fold (l : list bytes) (s : S) : fold_step (fun s v => inr (b_note _ _ b s (blen v))) l s = inr (foldl (fun s v => b_note _ _ b s (blen v)) s l).
Proof. revert s. induction l as [|m l IH]; intros s; [done|]. cbn [fold_step foldl]. apply IH. Qed.
(** The end of a hash load. *)
Lemma load_end (l : list Pair) (x : SnapshotHookStatus + S) :
  Some (match match x with inl e => inl e | inr s => inr (mkHashLoad s (0 + Z.of_nat (length (filter lapsed l))) (false || bool_decide (Exists expires (living l)))) end with
        | inl e => inl e
        | inr h => or_oom (if has_ttls h then b_new_hash _ _ b (built h) (if negb (skipped h =? 0) && (b_entries _ _ b (built h) =? 0) then 1 else expire_at _ _ b)
                           else b_adopt_hash _ _ b (built h) (if negb (skipped h =? 0) && (b_entries _ _ b (built h) =? 0) then 1 else expire_at _ _ b))
        end) =
  Some (match x with
        | inl e => inl e
        | inr s => match (if decide (Exists expires (living l)) then b_new_hash _ _ b else b_adopt_hash _ _ b) s (if decide (Exists lapsed l /\ b_entries _ _ b s = 0) then 1 else expire_at _ _ b) with None => inl Oom | Some r => inr r end
        end).
Proof.
  f_equal. destruct x as [e|s]; [done|]. cbn [built skipped has_ttls orb]. assert (negb (0 + Z.of_nat (length (filter lapsed l)) =? 0) && (b_entries _ _ b s =? 0) = bool_decide (Exists lapsed l /\ b_entries _ _ b s = 0)) as ->.
  { apply eq_true_iff_eq. rewrite bool_decide_eq_true, andb_true_iff, negb_true_iff, Z.eqb_neq, Z.eqb_eq. split; (intros [H1 H2]; split; [|done]).
    - destruct (filter lapsed l) as [|p k] eqn:E; [done|]. apply Exists_exists. exists p. assert (p ∈ filter lapsed l) as Hin by (rewrite E; apply list_elem_of_here). apply list_elem_of_filter in Hin as [? ?]. by split.
    - apply Exists_exists in H1 as (p & Hin & Hp). assert (p ∈ filter lapsed l) as Hf by (by apply list_elem_of_filter). destruct (filter lapsed l); [by apply not_elem_of_nil in Hf|cbn; lia]. }
  unfold or_oom. rewrite !bool_decide_decide. destruct (decide (Exists expires (living l))); destruct (decide (Exists lapsed l /\ b_entries _ _ b s = 0)); done.
Qed.
Lemma load_rebuilds v : value_ok v -> load_value v (encoding_of v) (image_of v) = Some (rebuild v).
Proof.
  destruct v as [[z|x y]|l|l|t l|l]; cbn [value_ok load_value encoding_of image_of rebuild string_bytes]; intros H.
  - unfold string_snapshot_load. cbn [string_snapshot_begin snd]. rewrite Z.eqb_refl. pose proof (put_le_length 8 (u64 z)) as H8. rewrite (proj2 (Z.eqb_eq _ _)) by (unfold snapshot_put_u64; lia). cbn [negb]. rewrite <- (app_nil_r (snapshot_put_u64 (u64 z))), get_u64_put, some_bind by (apply Z.mod_pos_bound; lia). by rewrite to_i64_u64 by lia.
  - unfold string_snapshot_load. cbn [string_snapshot_begin snd]. by destruct x.
  - destruct H as [_ Hl]. unfold set_snapshot_load, built_by, add_step. rewrite Z.eqb_refl. cbn [negb]. destruct (b_empty _ _ b); [|done]. rewrite (load_loop_image member_ranges) by (apply members_parse, Hl || done). by rewrite some_bind, add_edits.
  - destruct H as [[Hn Hi] Hl]. pose proof (members_parse l Hl) as Hp. unfold list_snapshot_load, built_by, add_step. rewrite Z.eqb_refl. cbn [negb]. destruct (b_empty _ _ b); [|done]. rewrite (load_loop_image member_ranges) by done. rewrite some_bind, count_fold by (rewrite payload_sum in Hi; lia). rewrite !Z.add_0_l.
    assert (u32 (Z.of_nat (length l)) = Z.of_nat (length l)) as -> by (apply Z.mod_small; lia). rewrite (load_loop_image member_ranges) by done. rewrite some_bind, add_edits. destruct (edit_all _ _ _); [done|]. destruct (b_fits _ _ b _ _); [done|]. rewrite (load_loop_image member_ranges) by done. rewrite some_bind, note_fold. done.
  - destruct H as [[Hn Hi] Hl]. unfold hash_snapshot_load, built_by. rewrite (proj2 (Z.ltb_ge _ _)) by (destruct t; lia). assert (((if t then 1 else 0) =? 1) = t) as -> by (by destruct t). destruct (b_empty _ _ b); [|done]. rewrite (load_loop_image (pair_ranges t)); [rewrite some_bind, hash_edits by (cbn; done || lia); by apply load_end| |done].
    eapply Forall_impl; [exact Hl|]. intros p Hp. split; [intros E; pose proof (pair_enc t p) as H; rewrite E in H; cbn in H; destruct t; lia|]. intros rest. by apply parse_pair_enc.
  - destruct H as [_ Hl]. unfold zset_snapshot_load, built_by. rewrite Z.eqb_refl. cbn [negb]. destruct (b_empty _ _ b); [|done]. rewrite (load_loop_image scored_ranges); [by rewrite some_bind, add_edits| |done].
    eapply Forall_impl; [exact Hl|]. intros a Ha. split; [intros E; pose proof (scored_enc a) as H; rewrite E in H; cbn in H; lia|]. intros rest. by apply parse_scored_enc.
Qed.
End Rebuild.
(** C23: A saved value loads as itself.  For strings, sets, lists, hashes (with or without field
    deadlines) and sorted sets: begin announces the exact size and encoding; whatever the capacities
    of the reads, every chunk fits its capacity and the chunks together are the prefix of the
    payload of that length, wherever they cut an element; the one-piece image is the payload; and
    the load hook, given the payload, makes exactly the insertions of the value's elements in order
    and fails only when one of them does.  A hash is built from the fields that have not lapsed,
    each with its value and its deadline; it becomes an object that can carry deadlines exactly when
    one of those fields has one, and an already expired one when fields lapsed and none is left. *)
Theorem snapshot_value_roundtrip {S R} (b : Builders S R) v caps :
  value_ok v -> Forall (fun k => 0 <= k < 2 ^ 64) caps ->
  exists c bs c', begin_save (hooks_of v) = (Ok, c, encoding_of v) /\ total c = Z.of_nat (length (image_of v)) /\
    read_all (hooks_of v) c caps = Some (bs, c') /\ concat bs = take (Z.to_nat (foldr Z.add 0 caps)) (image_of v) /\ offset c' = Z.of_nat (length (concat bs)) /\ Forall2 (fun k ch => Z.of_nat (length ch) <= k) caps bs /\
    (Z.of_nat (length (image_of v)) <= UINT32_MAX -> snapshot_image (hooks_of v) = Some (Some (image_of v, encoding_of v))) /\
    load_value b v (encoding_of v) (image_of v) = Some (rebuild b v).
Proof.
  intros Hv Hc. destruct (value_streams v Hv) as [Hs _]. destruct (streams_begin (Streams := Hs)) as (c & Eb & Hg). destruct (streams_at c 0 Hg) as (_ & Et & _).
  destruct (read_all_spec _ _ _ caps c 0 Hg Hc) as (bs & c' & Er & Ebs & Hg' & Hcap). exists c, bs, c'. split; [done|]. split; [done|]. split; [done|]. split; [done|]. split; [by apply (streams_at c')|]. split; [done|]. split; [by apply snapshot_image_spec|by apply load_rebuilds].
Qed.
(** A hash with one lapsed field, one that lives and one without a deadline, read in pieces. *)
Definition demo_hash : Value := VHash true [mkPair [97] [49; 50] 5; mkPair [98; 98] [] 100; mkPair [] [51] (-1)].
Definition demo_builders : Builders (list (bytes * bytes) * list (bytes * Z)) (list (bytes * bytes) * list (bytes * Z) * bool * Z) :=
  mkBuilders _ _ (Some ([], [])) (fun _ => None) (fun s m => Some (s.1 ++ [(m, [])], s.2)) (fun s => Some (s, false, 0)) (fun _ _ => true) (fun _ s m => Some (s.1 ++ [(m, [])], s.2)) (fun s => s) (fun s _ => s)
    (fun s f v => Some (s.1 ++ [(f, v)], s.2)) (fun s f d => Some (s.1, s.2 ++ [(f, d)])) (fun s => Z.of_nat (length s.1)) (fun s e => Some (s, true, e)) (fun s e => Some (s, false, e)) (fun s a => Some (s.1 ++ [(member a, [])], s.2)) 10 (-1).
Definition demo_caps : list Z := [3; 20; 0; 1; 100].
Lemma snapshot_value_roundtrip_witness :
  rebuild demo_builders demo_hash = inr ([([98; 98], []); ([], [51])], [([98; 98], 100)], true, -1) /\
  exists c bs c', begin_save (hooks_of demo_hash) = (Ok, c, encoding_of demo_hash) /\ total c = Z.of_nat (length (image_of demo_hash)) /\
    read_all (hooks_of demo_hash) c demo_caps = Some (bs, c') /\ concat bs = take (Z.to_nat (foldr Z.add 0 demo_caps)) (image_of demo_hash) /\ offset c' = Z.of_nat (length (concat bs)) /\ Forall2 (fun k ch => Z.of_nat (length ch) <= k) demo_caps bs /\
    (Z.of_nat (length (image_of demo_hash)) <= UINT32_MAX -> snapshot_image (hooks_of demo_hash) = Some (Some (image_of demo_hash, encoding_of demo_hash))) /\
    load_value demo_builders demo_hash (encoding_of demo_hash) (image_of demo_hash) = Some (rebuild demo_builders demo_hash).
Proof.
  split; [vm_compute; reflexivity|]. apply (snapshot_value_roundtrip demo_builders demo_hash demo_caps); [split; [split; vm_compute; reflexivity|]|unfold demo_caps; repeat constructor; lia].
  repeat constructor; cbn; done || lia.
Defined.
