(* ===== verification/Capture.v ===== *)
(** store/flatstore.h: the capture of one record of a snapshot.

    A record is a 32-byte header, the key and the payload of its value.  The owner writes it in
    steps, each with a byte budget, into chunks of 64 KiB; a full chunk is handed to the IO thread
    before the capture goes on.  The value comes from any hook that keeps the promise of [Streams].
    Of a chunk only its bytes are kept; [None] is a loop that does not end. *)
From S2P Require Import Prelude Snapshot.

#[local] Abbreviation blen b := (Z.of_nat (length b)).
Definition kSnapshotChunkBytes : Z := 65536.
Definition kSnapshotRecordTag : Z := 1145259346.
Definition kSnapshotRecordHeader : Z := 32.
Record RecordState := mkRecord { active : bool; header_offset : Z; key_offset : Z; cursor : SnapshotSaveCursor }.
Record Capture := mkCapture { build : option bytes; ready : option bytes; failed : bool; rec : RecordState }.
Definition set_build (b : option bytes) (s : Capture) : Capture := mkCapture b (ready s) (failed s) (rec s).
Definition set_failed (s : Capture) : Capture := mkCapture (build s) (ready s) true (rec s).
Definition set_rec (r : RecordState) (s : Capture) : Capture := mkCapture (build s) (ready s) (failed s) r.
Definition snapshot_seal (s : Capture) : Capture :=
  match build s, ready s with Some b, None => mkCapture None (Some b) (failed s) (rec s) | _, _ => s end.
(** The chunk being built, made when there is none; [oom]: it cannot be allocated. *)
Definition need_chunk (oom : bool) (s : Capture) : option bytes * Capture :=
  match build s with
  | Some b => (Some b, s)
  | None => if oom then (None, set_failed s) else (Some [], set_build (Some []) s)
  end.
Definition append_chunk (b : bytes) (s : Capture) : Capture :=
  let s := set_build (Some b) s in if blen b =? kSnapshotChunkBytes then snapshot_seal s else s.
(** The bytes emitted, the budget left and the state. *)
Fixpoint snapshot_emit (oom : bool) (fuel : nat) (source : bytes) (budget : Z) (s : Capture) (emitted : Z) : option (Z * Z * Capture) :=
  if (blen source =? 0) || (budget =? 0) || bool_decide (is_Some (ready s)) || failed s then Some (emitted, budget, s)
  else
    match fuel with
    | O => None
    | S fuel =>
        let '(chunk, s) := need_chunk oom s in
        match chunk with
        | None => Some (emitted, budget, s)
        | Some b =>
            let n := Z.min (blen source) (Z.min budget (kSnapshotChunkBytes - blen b)) in
            snapshot_emit oom fuel (drop (Z.to_nat n) source) (budget - n) (append_chunk (b ++ take (Z.to_nat n) source) s) (emitted + n)
        end
    end.
Section Record.
Context (key : bytes) (h : SaveHooks).
Definition record_header (type encoding total expire_at_ms : Z) : bytes :=
  snapshot_put_u32 kSnapshotRecordTag ++ [type; encoding; 0; 0] ++ snapshot_put_u32 (blen key) ++ snapshot_put_u32 0 ++ snapshot_put_u64 total ++ snapshot_put_u64 (u64 expire_at_ms).
(** The record state and the header; [None]: the capture fails. *)
Definition snapshot_start_record (type expire_at_ms : Z) : option (RecordState * bytes) :=
  match begin_save h with
  | (Ok, c, encoding) => Some (mkRecord true 0 0 c, record_header type encoding (total c) expire_at_ms)
  | _ => None
  end.
Context (header : bytes).
(** The flag: the loop ended by its condition, not by a return. *)
Fixpoint value_loop (oom : bool) (fuel : nat) (budget : Z) (s : Capture) : option (bool * Z * Capture) :=
  let c := cursor (rec s) in
  if negb (offset c <? total c) || (budget =? 0) || bool_decide (is_Some (ready s)) then Some (true, budget, s)
  else
    match fuel with
    | O => None
    | S fuel =>
        let '(chunk, s) := need_chunk oom s in
        match chunk with
        | None => Some (false, budget, s)
        | Some b =>
            let capacity := Z.min (kSnapshotChunkBytes - blen b) budget in
            let '(status, c, got) := read_save h c capacity in
            let s := set_rec (mkRecord (active (rec s)) (header_offset (rec s)) (key_offset (rec s)) c) s in
            match status with
            | Ok =>
                if (capacity <? blen got) || ((blen got =? 0) && (offset c <? total c)) then Some (false, budget, set_failed s)
                else value_loop oom fuel (budget - blen got) (append_chunk (b ++ got) s)
            | _ => Some (false, budget, set_failed s)
            end
        end
    end.
Definition finish_record (budget : Z) (s : Capture) : Z * Capture :=
  let c := cursor (rec s) in
  if negb (offset c =? total c) || bool_decide (is_Some (ready s)) then (budget, s)
  else (budget, set_rec (mkRecord false 0 0 (mkCursor 0 0 0 0 0)) s).
Definition value_phase (oom : bool) (budget : Z) (s : Capture) : option (Z * Capture) :=
  '(ended, budget, s) ← value_loop oom (Z.to_nat (total (cursor (rec s)))) budget s; Some (if ended : bool then finish_record budget s else (budget, s)).
Definition key_phase (oom : bool) (budget : Z) (s : Capture) : option (Z * Capture) :=
  let r := rec s in
  if key_offset r <? blen key then
    '(n, budget, s) ← snapshot_emit oom (length key) (drop (Z.to_nat (key_offset r)) key) budget s 0;
    let s := set_rec (mkRecord (active r) (header_offset r) (key_offset r + n) (cursor r)) s in
    if negb (key_offset (rec s) =? blen key) || bool_decide (is_Some (ready s)) then Some (budget, s) else value_phase oom budget s
  else value_phase oom budget s.
Definition snapshot_progress_record (oom : bool) (budget : Z) (s : Capture) : option (Z * Capture) :=
  let r := rec s in
  if negb (active r) then Some (budget, set_failed s)
  else if header_offset r <? kSnapshotRecordHeader then
    '(n, budget, s) ← snapshot_emit oom (length header) (drop (Z.to_nat (header_offset r)) header) budget s 0;
    let s := set_rec (mkRecord (active r) (header_offset r + n) (key_offset r) (cursor r)) s in
    if negb (header_offset (rec s) =? kSnapshotRecordHeader) || bool_decide (is_Some (ready s)) then Some (budget, s) else key_phase oom budget s
  else key_phase oom budget s.
End Record.

(** * What a step writes *)
Definition stream (s : Capture) : bytes := default [] (ready s) ++ default [] (build s).
Definition tidy (s : Capture) : Prop := failed s = false /\ (match build s with Some b => blen b < kSnapshotChunkBytes | None => True end) /\ (match ready s with Some b => blen b = kSnapshotChunkBytes | None => True end).
Lemma append_chunk_spec b s : ready s = None -> failed s = false -> blen b <= kSnapshotChunkBytes -> tidy (append_chunk b s) /\ stream (append_chunk b s) = b /\ rec (append_chunk b s) = rec s.
Proof.
  intros Hr Hf Hb. unfold append_chunk, snapshot_seal, tidy, stream. cbn. rewrite Hr. destruct (Z.eqb_spec (blen b) kSnapshotChunkBytes); cbn; rewrite ?Hr; cbn; rewrite ?app_nil_r; split_and!; try done; lia.
Qed.
Lemma need_chunk_spec s : ready s = None -> tidy s -> exists b s', need_chunk false s = (Some b, s') /\ b = stream s /\ blen b < kSnapshotChunkBytes /\ ready s' = None /\ failed s' = false /\ rec s' = rec s.
Proof.
  intros Hr (Hf & Hb & _). unfold need_chunk, stream. rewrite Hr. destruct (build s) as [b|] eqn:E; eexists _, _; (split; [done|]); cbn; rewrite ?Hr; by split_and!.
Qed.
Lemma emit_spec fuel src budget s e : ready s = None -> tidy s -> 0 <= budget -> (length src <= fuel)%nat ->
  exists n s', snapshot_emit false fuel src budget s e = Some (e + Z.of_nat n, budget - Z.of_nat n, s') /\ tidy s' /\ stream s' = stream s ++ take n src /\ rec s' = rec s /\ (n <= length src)%nat /\ Z.of_nat n <= budget /\
    (is_Some (ready s') \/ n = length src \/ Z.of_nat n = budget) /\ ((0 < length src)%nat -> 0 < budget -> (0 < n)%nat).
Proof.
  revert src budget s e. induction fuel as [|fuel IH]; intros src budget s e Hr Ht Hb Hf; cbn [snapshot_emit]; rewrite Hr, (proj1 Ht), (bool_decide_false (is_Some None)) by (by intros [? ?]); rewrite !orb_false_r.
  { rewrite (proj2 (Z.eqb_eq _ _)) by lia. exists 0%nat, s. rewrite Z.add_0_r, Z.sub_0_r, take_0, app_nil_r. split_and!; done || lia. }
  destruct (Z.eqb_spec (blen src) 0) as [E0|E0]; cbn [orb]; [|destruct (Z.eqb_spec budget 0) as [E1|E1]].
  - exists 0%nat, s. rewrite Z.add_0_r, Z.sub_0_r, take_0, app_nil_r. split_and!; done || lia.
  - exists 0%nat, s. rewrite Z.add_0_r, Z.sub_0_r, take_0, app_nil_r. split_and!; try done; try lia.
  - destruct (need_chunk_spec s Hr Ht) as (b & s1 & -> & Eb & Hlt & Hr1 & Hf1 & Erec). set (n := Z.min (blen src) (Z.min budget (kSnapshotChunkBytes - blen b))).
    destruct (append_chunk_spec (b ++ take (Z.to_nat n) src) s1 Hr1 Hf1) as (Ht2 & Es2 & Erec2); [rewrite length_app, length_take; lia|]. set (s2 := append_chunk _ s1) in *.
    destruct (ready s2) as [full'|] eqn:Er2.
    + assert (snapshot_emit false fuel (drop (Z.to_nat n) src) (budget - n) s2 (e + n) = Some (e + n, budget - n, s2)) as ->.
      { destruct fuel; cbn [snapshot_emit]; rewrite Er2, bool_decide_true by done; by rewrite orb_true_r. }
      exists (Z.to_nat n), s2. rewrite Z2Nat.id by lia. rewrite Es2, Erec2, Erec, Eb, Er2. split_and!; try done; try lia. left. done.
    + destruct (IH (drop (Z.to_nat n) src) (budget - n) s2 (e + n) Er2 Ht2 ltac:(lia)) as (m & s3 & -> & Ht3 & Es3 & Erec3 & Hm & Hmb & Hend & _); [rewrite length_drop; lia|]. rewrite length_drop in *.
      exists (Z.to_nat n + m)%nat, s3. split; [replace (e + n + Z.of_nat m) with (e + Z.of_nat (Z.to_nat n + m)) by lia; replace (budget - n - Z.of_nat m) with (budget - Z.of_nat (Z.to_nat n + m)) by lia; done|]. rewrite Es3, Es2, Erec3, Erec2, Erec, Eb, <- app_assoc, take_take_drop. split_and!; try done; try lia. destruct Hend as [?|[?|?]]; [by left|right; left; lia|right; right; lia].
Qed.
Section Value.
Context (h : SaveHooks) (img : bytes) (encoding : Z) `{!Streams h img encoding} (Himg : blen img < 2 ^ 64).
Definition at_value (s : Capture) (o : nat) : Prop := given (cursor (rec s)) o.
Lemma value_loop_spec fuel budget s o : ready s = None -> tidy s -> 0 <= budget < 2 ^ 32 -> at_value s o -> (length img - o <= fuel)%nat ->
  exists n s', value_loop h false fuel budget s = Some (true, budget - Z.of_nat n, s') /\ tidy s' /\ stream s' = stream s ++ take n (drop o img) /\ at_value s' (o + n) /\ (n <= length img - o)%nat /\ Z.of_nat n <= budget /\
    (exists c, rec s' = mkRecord (active (rec s)) (header_offset (rec s)) (key_offset (rec s)) c) /\
    (is_Some (ready s') \/ n = (length img - o)%nat \/ Z.of_nat n = budget) /\ ((0 < length img - o)%nat -> 0 < budget -> (0 < n)%nat).
Proof.
  revert budget s o. induction fuel as [|fuel IH]; intros budget s o Hr Ht Hb Hv Hf; cbn [value_loop]; destruct (streams_at _ _ Hv) as (Eo & Et & Ho); rewrite Eo, Et, Hr, (bool_decide_false (is_Some None)) by (by intros [? ?]); rewrite orb_false_r.
  { rewrite (proj2 (Z.ltb_ge _ _)) by lia. cbn [negb orb]. exists 0%nat, s. rewrite Z.sub_0_r, take_0, app_nil_r, Nat.add_0_r. split_and!; first [done|lia|exists (cursor (rec s)); by destruct (rec s)]. }
  destruct (Z.ltb_spec (Z.of_nat o) (blen img)) as [Hlt|Hge]; cbn [negb orb]; [destruct (Z.eqb_spec budget 0) as [E1|E1]|].
  - exists 0%nat, s. rewrite Z.sub_0_r, take_0, app_nil_r, Nat.add_0_r. split_and!; try done; try lia. exists (cursor (rec s)); by destruct (rec s).
  - destruct (need_chunk_spec s Hr Ht) as (b & s1 & -> & Eb & Hbl & Hr1 & Hf1 & Erec). set (k := Z.min (kSnapshotChunkBytes - blen b) budget). destruct (streams_read _ o k Hv ltac:(unfold kSnapshotChunkBytes in *; lia)) as (c' & -> & Hg').
    set (got := take (Z.to_nat k) (drop o img)) in *. assert (length got = Z.to_nat (Z.min k (blen img - Z.of_nat o))) as El by (unfold got; rewrite length_take, length_drop; lia). assert (got = take (length got) (drop o img)) as Egot.
    { rewrite El. unfold got. destruct (decide (k <= blen img - Z.of_nat o)); [by rewrite Z.min_l by lia|]. rewrite !take_ge by (rewrite length_drop; lia). done. }
    rewrite (proj2 (Z.ltb_ge _ _)) by lia. cbn [orb]. rewrite (proj2 (Z.eqb_neq _ _)) by lia. cbn [andb]. rewrite Erec.
    set (s2 := set_rec _ s1). destruct (append_chunk_spec (b ++ got) s2 Hr1 Hf1) as (Ht3 & Es3 & Erec3); [rewrite length_app; lia|]. set (s3 := append_chunk _ s2) in *. assert (at_value s3 (o + length got)) as Hv3 by (unfold at_value; rewrite Erec3; done).
    destruct (ready s3) as [full'|] eqn:Er3.
    + assert (value_loop h false fuel (budget - blen got) s3 = Some (true, budget - blen got, s3)) as ->.
      { destruct fuel; cbn [value_loop]; rewrite Er3, bool_decide_true by done; by rewrite !orb_true_r. }
      exists (length got), s3. rewrite Es3, Er3, Eb. split_and!; first [done|lia|by left|by eexists; rewrite Erec3|by rewrite <- Egot].
    + destruct (IH (budget - blen got) s3 (o + length got)%nat Er3 Ht3 ltac:(lia) Hv3 ltac:(lia)) as (m & s4 & -> & Ht4 & Es4 & Hv4 & Hm & Hmb & (c4 & Erec4) & Hend & _).
      exists (length got + m)%nat, s4. split; [replace (budget - blen got - Z.of_nat m) with (budget - Z.of_nat (length got + m)) by lia; done|]. rewrite Nat.add_assoc, Es4, Es3, Eb, <- app_assoc, <- drop_drop. split_and!; try done; try lia.
      * rewrite <- take_take_drop, <- Egot. done.
      * exists c4. rewrite Erec4, Erec3. done.
      * destruct Hend as [?|[?|?]]; [by left|right; left; lia|right; right; lia].
  - exists 0%nat, s. rewrite Z.sub_0_r, take_0, app_nil_r, Nat.add_0_r. split_and!; first [done|lia|exists (cursor (rec s)); by destruct (rec s)].
Qed.
End Value.

(** * The steps of a record *)
Section Steps.
Context (key : bytes) (h : SaveHooks) (header img : bytes) (encoding : Z) `{!Streams h img encoding} (Himg : blen img < 2 ^ 64) (Hheader : blen header = kSnapshotRecordHeader).
Definition record_bytes : bytes := header ++ key ++ img.
(** The record is under way and its first [n] bytes are written. *)
Definition under_way (s : Capture) (n : nat) : Prop :=
  exists ho ko o, rec s = mkRecord true (Z.of_nat ho) (Z.of_nat ko) (cursor (rec s)) /\ given (cursor (rec s)) o /\ n = (ho + ko + o)%nat /\ (ho <= length header)%nat /\ (ko <= length key)%nat /\
    ((0 < ko)%nat -> ho = length header) /\ ((0 < o)%nat -> ho = length header /\ ko = length key).
Definition advances (may : Prop) (n : nat) (s s' : Capture) : Prop :=
  tidy s' /\ exists m, stream s' = stream s ++ take m (drop n record_bytes) /\ (n + m <= length record_bytes)%nat /\ (under_way s' (n + m) \/ active (rec s') = false /\ (n + m)%nat = length record_bytes) /\ (may -> (0 < m)%nat \/ active (rec s') = false).
Lemma drop_header n o : n = (length header + o)%nat -> drop n record_bytes = drop o (key ++ img).
Proof. intros ->. unfold record_bytes. by rewrite <- drop_drop, drop_app_length. Qed.
Lemma drop_value n o : n = (length header + length key + o)%nat -> drop n record_bytes = drop o img.
Proof. intros ->. rewrite (drop_header _ (length key + o)) by lia. by rewrite <- drop_drop, drop_app_length. Qed.
Lemma record_length : length record_bytes = (length header + length key + length img)%nat.
Proof. unfold record_bytes. rewrite !length_app. lia. Qed.
Lemma advances_after may n m s s1 s2 : stream s1 = stream s ++ take m (drop n record_bytes) -> (may -> (0 < m)%nat) -> advances False (n + m) s1 s2 -> advances may n s s2.
Proof.
  intros E1 Hm (Ht & k & E2 & Hk & Hst & _). split; [done|]. exists (m + k)%nat. rewrite E2, E1, <- app_assoc, <- drop_drop, take_take_drop, Nat.add_assoc. split; [done|]. split; [done|]. split; [done|]. intros Hmay. left. specialize (Hm Hmay). lia.
Qed.
Lemma advances_weaken (may : Prop) n s s' : advances True n s s' -> advances may n s s'.
Proof. intros (Ht & m & H1 & H2 & H3 & H4). split; [done|]. exists m. split_and!; try done. intros _. by apply H4. Qed.
Lemma advances_stop may n m s s' : tidy s' -> stream s' = stream s ++ take m (drop n record_bytes) -> (n + m <= length record_bytes)%nat -> under_way s' (n + m) -> (may -> (0 < m)%nat) -> advances may n s s'.
Proof. intros Ht E Hle Hu Hm. split; [done|]. exists m. split_and!; try done; [by left|]. intros H. left. by apply Hm. Qed.
Lemma value_phase_spec budget s o : ready s = None -> tidy s -> 0 <= budget < 2 ^ 32 -> rec s = mkRecord true (blen header) (blen key) (cursor (rec s)) -> given (cursor (rec s)) o ->
  exists b' s', value_phase h false budget s = Some (b', s') /\ 0 <= b' <= budget /\ advances (0 < budget) (length header + length key + o) s s'.
Proof.
  intros Hr Ht Hb Erec Hg. destruct (streams_at _ _ Hg) as (_ & Et & Ho). unfold value_phase. destruct (value_loop_spec h img encoding (Z.to_nat (total (cursor (rec s)))) budget s o Hr Ht Hb Hg ltac:(lia)) as (n & s' & -> & Ht' & Es' & Hv' & Hn & Hnb & (c & Erec') & Hend & Hpos). rewrite some_bind. unfold at_value in Hv'.
  rewrite Erec in Erec'. cbn [active header_offset key_offset] in Erec'. destruct (streams_at _ _ Hv') as (Eo' & Et' & _). unfold finish_record. rewrite Eo', Et'. pose proof record_length as Hlen.
  assert (stream s' = stream s ++ take n (drop (length header + length key + o) record_bytes)) as Es by (by rewrite (drop_value _ o)). assert (under_way s' (length header + length key + o + n)) as Hu.
  { exists (length header), (length key), (o + n)%nat. split; [rewrite Erec' at 1; rewrite Erec'; done|]. split; [done|]. split_and!; try lia; done. }
  assert (0 < budget -> (0 < n)%nat \/ n = 0%nat /\ o = length img) as Hprog by lia.
  destruct (Z.eqb_spec (Z.of_nat (o + n)) (blen img)) as [Efin|Hne]; cbn [negb orb].
  - destruct (ready s') as [f|] eqn:Er'; [rewrite bool_decide_true by done|rewrite bool_decide_false by (by intros [? ?])]; eexists _, _; (split; [done|]); (split; [lia|]).
    + split; [done|]. exists n. split_and!; try done; [lia|by left|]. intros Hbud. left. destruct (Hprog Hbud) as [|[-> _]]; [done|]. destruct Ht' as (_ & _ & Hfull). rewrite Er' in Hfull. exfalso.
      assert (stream s' = stream s) as E0 by (rewrite Es', take_0, app_nil_r; done). unfold stream in E0. rewrite Er', Hr in E0. cbn in E0. destruct Ht as (_ & Hbs & _). apply (f_equal length) in E0. rewrite length_app in E0. destruct (build s); cbn in E0; unfold kSnapshotChunkBytes in *; lia.
    + split; [destruct Ht' as (? & ? & ?); split; [done|]; split; [done|]; cbn; by rewrite Er'|]. exists n. split; [exact Es|]. split; [lia|]. split; [right; split; [done|lia]|]. intros _. by right.
  - eexists _, _. split; [done|]. split; [lia|]. apply (advances_stop _ _ n); try done; [lia|]. intros Hbud. destruct (Hprog Hbud) as [|[-> ->]]; [done|lia].
Qed.
Lemma key_phase_spec budget s ko o : ready s = None -> tidy s -> 0 <= budget < 2 ^ 32 -> rec s = mkRecord true (blen header) (Z.of_nat ko) (cursor (rec s)) -> (ko <= length key)%nat -> given (cursor (rec s)) o -> ((0 < o)%nat -> ko = length key) ->
  exists b' s', key_phase key h false budget s = Some (b', s') /\ 0 <= b' <= budget /\ advances (0 < budget) (length header + ko + o) s s'.
Proof.
  intros Hr Ht Hb Erec Hko Hg Ho. unfold key_phase. rewrite Erec. cbn [key_offset active header_offset cursor]. destruct (Z.ltb_spec (Z.of_nat ko) (blen key)) as [Hlt|Hge].
  2:{ assert (ko = length key) as -> by lia. by apply value_phase_spec. }
  assert (o = 0%nat) as -> by lia. rewrite Nat2Z.id. destruct (emit_spec (length key) (drop ko key) budget s 0 Hr Ht ltac:(lia)) as (n & s1 & -> & Ht1 & Es1 & Erec1 & Hn & Hnb & Hend & Hpos); [rewrite length_drop; lia|]. rewrite some_bind. rewrite length_drop in *. rewrite Z.add_0_l. set (s2 := set_rec _ s1).
  assert (stream s2 = stream s ++ take n (drop (length header + ko + 0) record_bytes)) as Es.
  { change (stream s2) with (stream s1). rewrite Es1, Nat.add_0_r, (drop_header _ ko) by lia. rewrite drop_app. replace (ko - length key)%nat with 0%nat by lia. rewrite drop_0, take_app. rewrite length_drop. replace (n - (length key - ko))%nat with 0%nat by lia. by rewrite take_0, app_nil_r. }
  assert (rec s2 = mkRecord true (blen header) (Z.of_nat (ko + n)) (cursor (rec s2))) as Erec2 by (cbn; f_equal; lia). assert (given (cursor (rec s2)) 0) as Hg2 by done. pose proof record_length as Hlen.
  assert (under_way s2 (length header + ko + 0 + n)) as Hu by (exists (length header), (ko + n)%nat, 0%nat; split; [done|]; split; [done|]; split_and!; try lia; done).
  change (ready s2) with (ready s1). cbn [key_offset rec s2 set_rec]. destruct (Z.eqb_spec (Z.of_nat ko + Z.of_nat n) (blen key)) as [Efin|Hne]; cbn [negb orb].
  - destruct (ready s1) as [f|] eqn:Er1; [rewrite bool_decide_true by done|rewrite bool_decide_false by (by intros [? ?])].
    + eexists _, _. split; [done|]. split; [lia|]. apply (advances_stop _ _ n); try done; [lia|]. intros Hbud. apply Hpos; lia.
    + destruct (value_phase_spec (budget - Z.of_nat n) s2 0) as (b' & s' & E & Hb' & Hadv); [done|done|lia| |done|]. { rewrite Erec2 at 1. f_equal. lia. }
      fold s2. rewrite E. eexists _, _. split; [done|]. split; [lia|]. apply (advances_after _ _ n s s2); [done|intros Hbud; apply Hpos; lia|]. replace (length header + ko + 0 + n)%nat with (length header + length key + 0)%nat by lia. destruct Hadv as (H1 & m & H2 & H3 & H4 & _). split; [done|]. exists m. by split_and!.
  - eexists _, _. split; [done|]. split; [lia|]. apply (advances_stop _ _ n); try done; [lia|]. intros Hbud. apply Hpos; lia.
Qed.
Lemma progress_spec budget s n : ready s = None -> tidy s -> 0 <= budget < 2 ^ 32 -> under_way s n -> exists b' s', snapshot_progress_record key h header false budget s = Some (b', s') /\ 0 <= b' <= budget /\ advances (0 < budget) n s s'.
Proof.
  intros Hr Ht Hb (ho & ko & o & Erec & Hg & -> & Hho & Hko & Hkh & Hoh). unfold snapshot_progress_record. rewrite Erec. cbn [active header_offset key_offset cursor negb]. rewrite <- Hheader. destruct (Z.ltb_spec (Z.of_nat ho) (blen header)) as [Hlt|Hge].
  2:{ assert (ho = length header) as -> by lia. apply key_phase_spec; try done. intros H. by apply Hoh. }
  assert (ko = 0%nat) as -> by lia. assert (o = 0%nat) as -> by lia. rewrite Nat2Z.id. destruct (emit_spec (length header) (drop ho header) budget s 0 Hr Ht ltac:(lia)) as (n & s1 & -> & Ht1 & Es1 & Erec1 & Hn & Hnb & Hend & Hpos); [rewrite length_drop; lia|]. rewrite some_bind. rewrite length_drop in *. rewrite Z.add_0_l. set (s2 := set_rec _ s1).
  assert (stream s2 = stream s ++ take n (drop (ho + 0 + 0) record_bytes)) as Es.
  { change (stream s2) with (stream s1). rewrite Es1, !Nat.add_0_r. unfold record_bytes. rewrite drop_app. replace (ho - length header)%nat with 0%nat by lia. rewrite drop_0, take_app. rewrite length_drop. replace (n - (length header - ho))%nat with 0%nat by lia. by rewrite take_0, app_nil_r. }
  assert (rec s2 = mkRecord true (Z.of_nat (ho + n)) 0 (cursor (rec s2))) as Erec2 by (cbn; f_equal; lia). assert (given (cursor (rec s2)) 0) as Hg2 by done. pose proof record_length as Hlen.
  assert (under_way s2 (ho + 0 + 0 + n)) as Hu by (exists (ho + n)%nat, 0%nat, 0%nat; split; [done|]; split; [done|]; split_and!; try lia; done).
  change (ready s2) with (ready s1). cbn [header_offset rec s2 set_rec]. destruct (Z.eqb_spec (Z.of_nat ho + Z.of_nat n) (blen header)) as [Efin|Hne]; cbn [negb orb].
  - destruct (ready s1) as [f|] eqn:Er1; [rewrite bool_decide_true by done|rewrite bool_decide_false by (by intros [? ?])].
    + eexists _, _. split; [done|]. split; [lia|]. apply (advances_stop _ _ n); try done; [lia|]. intros Hbud. apply Hpos; lia.
    + destruct (key_phase_spec (budget - Z.of_nat n) s2 0 0) as (b' & s' & E & Hb' & Hadv); [done|done|lia| |lia|done|lia|]. { rewrite Erec2 at 1. f_equal. lia. }
      fold s2. rewrite E. eexists _, _. split; [done|]. split; [lia|]. apply (advances_after _ _ n s s2); [done|intros Hbud; apply Hpos; lia|]. replace (ho + 0 + 0 + n)%nat with (length header + 0 + 0)%nat by lia. destruct Hadv as (H1 & m & H2 & H3 & H4 & _). split; [done|]. exists m. by split_and!.
  - eexists _, _. split; [done|]. split; [lia|]. apply (advances_stop _ _ n); try done; [lia|]. intros Hbud. apply Hpos; lia.
Qed.
End Steps.

(** * A whole record
    [Progress]: a call of [snapshot_progress] that finds the record under way (it does nothing while
    a full chunk waits or the capture has failed); [TakeChunk]: [snapshot_take_chunk]. *)
Inductive CaptureAct := Progress (budget : Z) | TakeChunk.
Definition Handed : Type := list bytes * Capture.
Definition snapshot_take_chunk (x : Handed) : Handed :=
  let '(taken, s) := x in (taken ++ option_list (ready s), mkCapture (build s) None (failed s) (rec s)).
Definition capture_step (key : bytes) (h : SaveHooks) (header : bytes) (a : CaptureAct) (x : Handed) : option Handed :=
  match a with
  | TakeChunk => Some (snapshot_take_chunk x)
  | Progress budget =>
      let '(taken, s) := x in
      if failed s || bool_decide (is_Some (ready s)) || (budget =? 0) || negb (active (rec s)) then Some x
      else '(_, s) ← snapshot_progress_record key h header false budget s; Some (taken, s)
  end.
Fixpoint capture_run (key : bytes) (h : SaveHooks) (header : bytes) (acts : list CaptureAct) (x : Handed) : option Handed :=
  match acts with [] => Some x | a :: acts => x ← capture_step key h header a x; capture_run key h header acts x end.
Definition act_in_range (a : CaptureAct) : Prop := match a with Progress budget => 0 <= budget < 2 ^ 32 | TakeChunk => True end.
(** The IO thread takes what is ready, then the owner goes on with a budget. *)
Definition rounds (k : nat) (budget : Z) : list CaptureAct := mjoin (replicate k [TakeChunk; Progress budget]).
Definition handed_bytes (x : Handed) : bytes := concat x.1 ++ stream x.2.
Section Runs.
Context (key : bytes) (h : SaveHooks) (header img : bytes) (encoding : Z) `{!Streams h img encoding} (Hheader : blen header = kSnapshotRecordHeader) (base : bytes).
#[local] Abbreviation record := (record_bytes key header img).
(** The first [n] bytes of the record are out, and it is under way or over. *)
Definition captured (n : nat) (x : Handed) : Prop :=
  tidy x.2 /\ Forall (fun c => blen c = kSnapshotChunkBytes) x.1 /\ handed_bytes x = base ++ take n record /\ (n <= length record)%nat /\
  (under_way key h header img encoding x.2 n \/ active (rec x.2) = false /\ n = length record).
Lemma take_chunk_captured n x : captured n x -> captured n (snapshot_take_chunk x) /\ active (rec (snapshot_take_chunk x).2) = active (rec x.2) /\ ready (snapshot_take_chunk x).2 = None.
Proof.
  destruct x as [taken s]. intros ((Hf & Hb & Hr) & Hc & Hbytes & Hn & Hst). cbn in *. split; [|done]. split; [done|]. split; [|split; [|done]].
  - cbn. apply Forall_app. split; [done|]. destruct (ready s); repeat constructor. done.
  - rewrite <- Hbytes. unfold handed_bytes, stream. cbn. rewrite concat_app. destruct (ready s); cbn; by rewrite ?app_nil_r, <- ?app_assoc.
Qed.
Lemma captured_active n x : captured n x -> active (rec x.2) = true -> under_way key h header img encoding x.2 n.
Proof. intros (_ & _ & _ & _ & [H|[H _]]) Ha; [done|congruence]. Qed.
Lemma step_captured a n x : act_in_range a -> captured n x -> exists x' m, capture_step key h header a x = Some x' /\ captured (n + m) x' /\
  (forall budget, a = Progress budget -> 0 < budget -> ready x.2 = None -> active (rec x.2) = true -> (0 < m)%nat \/ active (rec x'.2) = false) /\ (active (rec x.2) = false -> active (rec x'.2) = false).
Proof.
  intros Ha H. destruct a as [budget|].
  - destruct x as [taken s]. cbn [capture_step]. pose proof H as ((Hf & _) & Hc & Hbytes & Hn & Hst). cbn in Hf, Hc, Hbytes, Hst |- *. rewrite Hf. cbn [orb]. destruct (ready s) as [f|] eqn:Er.
    { rewrite bool_decide_true by done. exists (taken, s), 0%nat. rewrite Nat.add_0_r. by split_and!. }
    rewrite bool_decide_false by (by intros [? ?]). cbn [orb]. destruct (Z.eqb_spec budget 0) as [->|Hb].
    { exists (taken, s), 0%nat. rewrite Nat.add_0_r. split_and!; try done. intros ? [= <-]. lia. }
    destruct (active (rec s)) eqn:Eact; cbn [negb orb].
    + destruct (progress_spec key h header img encoding Hheader budget s n Er (proj1 H) Ha (captured_active _ _ H Eact)) as (b' & s' & -> & _ & Ht' & m & Es' & Hm & Hst' & Hprog). rewrite some_bind. exists (taken, s'), m. split; [done|]. split; [|split; [intros ? [= <-] Hpos _ _; by apply Hprog|done]].
      split; [done|]. split; [done|]. split; [|split; [done|exact Hst']]. unfold handed_bytes in *. cbn in *. rewrite Es', app_assoc, Hbytes, <- app_assoc, take_take_drop. done.
    + exists (taken, s), 0%nat. rewrite Nat.add_0_r. by split_and!.
  - cbn. destruct (take_chunk_captured n x H) as (H' & Ea & _). exists (snapshot_take_chunk x), 0%nat. rewrite Nat.add_0_r. split_and!; try done. by rewrite Ea.
Qed.
Lemma run_captured acts n x : Forall act_in_range acts -> captured n x -> exists x' m, capture_run key h header acts x = Some x' /\ captured (n + m) x'.
Proof.
  revert n x. induction acts as [|a acts IH]; intros n x Hin H; cbn [capture_run].
  - exists x, 0%nat. by rewrite Nat.add_0_r.
  - apply Forall_cons in Hin as [Ha Hin]. destruct (step_captured a n x Ha H) as (x1 & m & -> & H1 & _). rewrite some_bind. destruct (IH _ _ Hin H1) as (x2 & m2 & -> & H2). exists x2, (m + m2)%nat. by rewrite Nat.add_assoc.
Qed.
Lemma over_captured k budget x : captured (length record) x -> active (rec x.2) = false -> exists x', capture_run key h header (rounds k budget) x = Some x' /\ captured (length record) x' /\ active (rec x'.2) = false.
Proof.
  revert x. induction k as [|k IH]; intros x Hx Hax; [by exists x|]. change (rounds (S k) budget) with ([TakeChunk; Progress budget] ++ rounds k budget). cbn [app capture_run]. cbn [capture_step]. rewrite some_bind. destruct (take_chunk_captured _ x Hx) as (Hx1 & Eax & _).
  destruct (snapshot_take_chunk x) as [t1 s1]. cbn in Eax |- *. rewrite Eax, Hax. cbn [negb]. rewrite orb_true_r, some_bind. apply IH; [done|]. cbn. congruence.
Qed.
Lemma rounds_captured k budget n x : 0 < budget < 2 ^ 32 -> captured n x -> (length record < n + k)%nat -> exists x', capture_run key h header (rounds k budget) x = Some x' /\ captured (length record) x' /\ active (rec x'.2) = false.
Proof.
  intros Hb. revert n x. induction k as [|k IH]; intros n x H Hk; [destruct H as (_ & _ & _ & Hn & _); lia|].
  change (rounds (S k) budget) with ([TakeChunk; Progress budget] ++ rounds k budget). cbn [app capture_run]. cbn [capture_step]. rewrite some_bind. destruct (take_chunk_captured n x H) as (H1 & Ea & Er). set (x1 := snapshot_take_chunk x) in *.
  destruct (step_captured (Progress budget) n x1 ltac:(cbn; lia) H1) as (x2 & m & E2 & H2 & Hprog & Hover). unfold capture_step in E2. rewrite E2, some_bind.
  destruct (active (rec x2.2)) eqn:Ea2.
  - destruct (active (rec x1.2)) eqn:Ea1; [|by specialize (Hover eq_refl)]. destruct (Hprog budget eq_refl ltac:(lia) Er eq_refl) as [Hm|?]; [|congruence]. apply (IH (n + m)%nat); [done|lia].
  - assert ((n + m)%nat = length record) as En. { destruct H2 as (_ & _ & _ & _ & [(ho & ko & o & E & _)|[_ ?]]); [rewrite E in Ea2; discriminate|done]. }
    rewrite En in H2. by apply over_captured.
Qed.
End Runs.
Lemma record_header_length key type encoding total expire : blen (record_header key type encoding total expire) = kSnapshotRecordHeader.
Proof. unfold record_header, snapshot_put_u32, snapshot_put_u64. rewrite !length_app, !put_le_length. done. Qed.
Lemma started_captured key h img encoding `{!Streams h img encoding} type expire taken s : tidy s -> Forall (fun c => blen c = kSnapshotChunkBytes) taken ->
  exists r, snapshot_start_record key h type expire = Some (r, record_header key type encoding (blen img) expire) /\ active r = true /\
    captured key h (record_header key type encoding (blen img) expire) img encoding (handed_bytes (taken, s)) 0 (taken, set_rec r s).
Proof.
  intros Ht Hf. destruct streams_begin as (c & Eb & Hg). destruct (streams_at _ _ Hg) as (_ & Et & _). unfold snapshot_start_record. rewrite Eb, Et. eexists. split; [done|]. split; [done|]. split; [done|]. split; [done|]. split; [by rewrite take_0, app_nil_r|]. split; [lia|]. left. exists 0%nat, 0%nat, 0%nat. split; [done|]. split; [done|]. split_and!; lia.
Qed.
(** C22: A record is captured whole, in full chunks.  Take a value of any of the five types and the
    state in which the walk starts its record.  The start succeeds, with the size and encoding the
    hook announces in the header.  Then, for any sequence of steps with any byte budgets and of
    hand-overs, nothing hangs or fails; every chunk handed over has exactly 64 KiB; the bytes handed
    over and those still held are the bytes there were before followed by a prefix of header, key and
    payload; when the record is over, by all of it.  A hand-over and a step with a positive budget,
    repeated more often than the record has bytes, end it. *)
Theorem record_captured v key type expire s : value_ok v -> tidy s ->
  exists r, let header := record_header key type (encoding_of v) (Z.of_nat (length (image_of v))) expire in
    let record := header ++ key ++ image_of v in let started := ([], set_rec r s) in
    snapshot_start_record key (hooks_of v) type expire = Some (r, header) /\
    (forall acts, Forall act_in_range acts -> exists taken s' n, capture_run key (hooks_of v) header acts started = Some (taken, s') /\ failed s' = false /\
       Forall (fun c => Z.of_nat (length c) = kSnapshotChunkBytes) taken /\ concat taken ++ stream s' = stream s ++ take n record /\ (active (rec s') = false -> take n record = record)) /\
    (forall k budget, (length record < k)%nat -> 0 < budget < 2 ^ 32 -> exists taken s', capture_run key (hooks_of v) header (rounds k budget) started = Some (taken, s') /\
       active (rec s') = false /\ concat taken ++ stream s' = stream s ++ record).
Proof.
  intros Hv Ht. destruct (value_streams v Hv) as [Hs _]. destruct (started_captured key (hooks_of v) (image_of v) (encoding_of v) type expire [] s Ht (Forall_nil_2 _)) as (r & Er & _ & Hc). exists r. cbn zeta. split; [done|].
  pose proof (record_header_length key type (encoding_of v) (blen (image_of v)) expire) as Hh. split.
  - intros acts Ha. destruct (run_captured key _ _ _ _ Hh _ acts _ _ Ha Hc) as ([taken s'] & n & -> & (Hf & _) & Hchunks & Hbytes & _ & Hst). cbn in Hst. exists taken, s', n. split_and!; try done. intros Hover. destruct Hst as [(ho & ko & o & E & _)|[_ En]]; [by rewrite E in Hover|]. by apply take_ge; rewrite En.
  - intros k budget Hk Hb. destruct (rounds_captured key _ _ _ _ Hh _ k budget _ _ Hb Hc) as ([taken s'] & -> & (_ & _ & Hbytes & _) & Hover); [done|]. exists taken, s'. split; [done|]. split; [done|]. cbn in Hbytes. unfold handed_bytes in Hbytes. cbn in Hbytes. rewrite Hbytes, take_ge by done. done.
Qed.
(** The hash of three fields, after a chunk that lacks nine bytes: steps of twenty bytes. *)
Definition demo_capture : Capture := mkCapture (Some (replicate (Z.to_nat 65527) 0)) None false (mkRecord false 0 0 (mkCursor 0 0 0 0 0)).
Lemma record_captured_witness :
  exists r, let header := record_header [107] 1 (encoding_of demo_hash) (Z.of_nat (length (image_of demo_hash))) (-1) in
    let record := header ++ [107] ++ image_of demo_hash in let started := ([], set_rec r demo_capture) in
    snapshot_start_record [107] (hooks_of demo_hash) 1 (-1) = Some (r, header) /\
    (forall acts, Forall act_in_range acts -> exists taken s' n, capture_run [107] (hooks_of demo_hash) header acts started = Some (taken, s') /\ failed s' = false /\
       Forall (fun c => Z.of_nat (length c) = kSnapshotChunkBytes) taken /\ concat taken ++ stream s' = stream demo_capture ++ take n record /\ (active (rec s') = false -> take n record = record)) /\
    (forall k budget, (length record < k)%nat -> 0 < budget < 2 ^ 32 -> exists taken s', capture_run [107] (hooks_of demo_hash) header (rounds k budget) started = Some (taken, s') /\
       active (rec s') = false /\ concat taken ++ stream s' = stream demo_capture ++ record).
Proof.
  apply (record_captured demo_hash [107] 1 (-1) demo_capture).
  - split; [split; vm_compute; reflexivity|]. repeat constructor; cbn; done || lia.
  - split; [done|]. split; [vm_compute; reflexivity|done].
Defined.
