(* ===== verification/SnapshotWalk.v ===== *)
(** store/flatstore.h: the capture of a whole table, while the store goes on serving.

    At the cut the table becomes the old one of the two and a fresh table takes the new keys.  The
    owner walks the old table slot by slot and writes a record for each live object.  A write to a
    key the walk has not reached first has the object recorded, and its slot marked with the
    tombstone bit, so that the walk passes it by.

    The store is the one of [FlatStore], with the operations as they run during a capture (no
    resizing, no eviction, no removal of an expired object from the old table).  [contents] gives the
    value behind each address.  Allocations of chunks succeed; the count of work that the progress
    call returns and the numbering of chunks are not represented. *)
From stdpp Require Import gmap.
From S2P Require Import Prelude Slice Hash Probe ExpireIndex Borrow FlatStore FlatTable FlatSpec FlatProof FlatRun Snapshot Capture.

#[local] Abbreviation blen b := (Z.of_nat (length b)).
Inductive SnapshotWriteResult := Ready | Pending | Error.
Record Walk := mkWalk {
  store : Store; contents : gmap Z Value; snapshot_pos : Z; snapshot_cut_ms : Z; capture : Capture;
  r_slot : Z; r_preimage : bool; r_object : Z; r_header : bytes; snapshot_finished : bool; handed : list bytes }.
Definition set_store (s : Store) (w : Walk) : Walk :=
  mkWalk s (contents w) (snapshot_pos w) (snapshot_cut_ms w) (capture w) (r_slot w) (r_preimage w) (r_object w) (r_header w) (snapshot_finished w) (handed w).
Definition set_contents (m : gmap Z Value) (w : Walk) : Walk :=
  mkWalk (store w) m (snapshot_pos w) (snapshot_cut_ms w) (capture w) (r_slot w) (r_preimage w) (r_object w) (r_header w) (snapshot_finished w) (handed w).
Definition set_pos (p : Z) (w : Walk) : Walk :=
  mkWalk (store w) (contents w) p (snapshot_cut_ms w) (capture w) (r_slot w) (r_preimage w) (r_object w) (r_header w) (snapshot_finished w) (handed w).
Definition set_capture (c : Capture) (w : Walk) : Walk :=
  mkWalk (store w) (contents w) (snapshot_pos w) (snapshot_cut_ms w) c (r_slot w) (r_preimage w) (r_object w) (r_header w) (snapshot_finished w) (handed w).
Definition set_record (c : Capture) (slot : Z) (preimage : bool) (p : Z) (header : bytes) (w : Walk) : Walk :=
  mkWalk (store w) (contents w) (snapshot_pos w) (snapshot_cut_ms w) c slot preimage p header (snapshot_finished w) (handed w).
Definition is_ready (w : Walk) : bool := bool_decide (is_Some (ready (capture w))).
Definition in_record (w : Walk) : bool := active (rec (capture w)).
Definition type_code (v : Value) : Z := match v with VString _ => 0 | VHash _ _ => 1 | VList _ => 2 | VSet _ => 3 | VZset _ => 4 end.

Section Walk.
Context (cfg : HashCfg).
(** * The cut *)
(** The size of the fresh table, if there can be one. *)
Definition snapshot_prepared_cap (s : Store) : option (option Z) :=
  let wanted := t_cap (s_t0 s) * 2 in
  if UINT32_MAX <? wanted then Some None else cap ← round_pow2 (u32 wanted); Some (if cap =? 0 then None else Some cap).
(** [prepared]: the size of the table already allocated; [mem]: an allocation succeeds. *)
Definition snapshot_prepare (mem : bool) (prepared : option Z) (s : Store) : option (SnapshotWriteResult * option Z * Store) :=
  if rehashing s then s ← rehash_step cfg false s; Some (Pending, prepared, s)
  else
    match prepared with
    | Some cap => Some (Ready, Some cap, s)
    | None =>
        cap ← snapshot_prepared_cap s;
        Some (match cap with Some cap => if mem then (Ready, Some cap, s) else (Error, None, s) | None => (Error, None, s) end)
    end.
(** On the table of size [cap] that [snapshot_prepare] allocated. *)
Definition snapshot_mark (s : Store) (m : gmap Z Value) (cap cut_ms : Z) : option Walk :=
  if rehashing s then None
  else Some (mkWalk (set_tabs s (empty_table cap) (s_t0 s) 0) m 0 cut_ms (mkCapture (Some []) None false (mkRecord false 0 0 (mkCursor 0 0 0 0 0))) 0 false 0 [] false []).

(** * The walk *)
Definition marked (w : Z) : bool := negb (Z.land w kTombBit =? 0).
Definition write_slot (w : Walk) (slot word : Z) : option Walk :=
  let t := s_t1 (store w) in
  ws ← Probe.put (t_words t) slot word;
  Some (set_store (set_tab (store w) true (mkTab ws (t_cap t) (t_mask t) (t_live t) (t_tombs t))) w).
Definition mark_slot (w : Walk) (slot : Z) : option Walk :=
  word ← mem_get (t_words (s_t1 (store w))) slot; write_slot w slot (Z.lor word kTombBit).
(** [snapshot_start_record] on the object at [p]. *)
Definition start_record (w : Walk) (slot : Z) (preimage : bool) (p : Z) : option (bool * Walk) :=
  o ← s_heap (store w) !! p;
  v ← contents w !! p;
  match snapshot_start_record (o_key o) (hooks_of v) (type_code v) (expire_at_ms o) with
  | None => Some (false, set_capture (set_failed (capture w)) w)
  | Some (r, header) => Some (true, set_record (set_rec r (capture w)) slot preimage p header w)
  end.
(** [snapshot_progress_record], with the end of the record; the budget left. *)
Definition progress_record (w : Walk) (budget : Z) : option (Z * Walk) :=
  o ← s_heap (store w) !! r_object w;
  v ← contents w !! r_object w;
  '(budget, c) ← snapshot_progress_record (o_key o) (hooks_of v) (r_header w) false budget (capture w);
  let ended := in_record w && negb (active (rec c)) in
  let w := set_capture c w in
  if ended then
    if r_preimage w then w ← mark_slot w (r_slot w); Some (budget, w) else Some (budget, set_pos (snapshot_pos w + 1) w)
  else Some (budget, w).
Definition snapshot_finish_stream (w : Walk) : Walk :=
  if snapshot_finished w || is_ready w || in_record w then w
  else
    let '(chunk, c) := need_chunk false (capture w) in
    match chunk with
    | None => set_capture c w
    | Some _ =>
        mkWalk (store w) (contents w) (snapshot_pos w) (snapshot_cut_ms w) (snapshot_seal c) (r_slot w) (r_preimage w) (r_object w) (r_header w) true (handed w)
    end.
Fixpoint progress_loop (fuel : nat) (byte_budget slot_budget : Z) (w : Walk) : option Walk :=
  if (byte_budget =? 0) || is_ready w || failed (capture w) then Some w
  else
    match fuel with
    | O => None
    | S fuel =>
        let t := s_t1 (store w) in
        if in_record w then
          '(byte_budget, w) ← progress_record w byte_budget;
          if in_record w || is_ready w then Some w else progress_loop fuel byte_budget slot_budget w
        else if t_cap t <=? snapshot_pos w then Some (snapshot_finish_stream w)
        else if slot_budget =? 0 then Some w
        else
          word ← mem_get (t_words t) (snapshot_pos w);
          let passed := set_pos (snapshot_pos w + 1) w in
          if ptr_of word =? 0 then progress_loop fuel byte_budget (slot_budget - 1) passed
          else if marked word then
            w ← write_slot w (snapshot_pos w) (Z.land word (Z.lnot kTombBit));
            progress_loop fuel byte_budget (slot_budget - 1) (set_pos (snapshot_pos w + 1) w)
          else
            o ← s_heap (store w) !! ptr_of word;
            h ← hash_key cfg (o_key o);
            gone ← deadline_elapsed false (store w) h o (snapshot_cut_ms w);
            if gone : bool then progress_loop fuel byte_budget (slot_budget - 1) passed
            else
              '(started, w) ← start_record w (snapshot_pos w) false (ptr_of word);
              if started : bool then progress_loop fuel byte_budget (slot_budget - 1) w else Some w
    end.
Definition snapshot_progress (byte_budget slot_budget : Z) (w : Walk) : option Walk :=
  if failed (capture w) || is_ready w then Some w
  else progress_loop (Z.to_nat (2 * (t_cap (s_t1 (store w)) - snapshot_pos w) + 3)) byte_budget slot_budget w.
Definition take_chunk (w : Walk) : Walk :=
  let '(taken, c) := snapshot_take_chunk (handed w, capture w) in
  mkWalk (store w) (contents w) (snapshot_pos w) (snapshot_cut_ms w) c (r_slot w) (r_preimage w) (r_object w) (r_header w) (snapshot_finished w) taken.

(** * Writes *)
Definition snapshot_prepare_write (w : Walk) (h : Z) (key : bytes) : option (SnapshotWriteResult * Walk) :=
  if failed (capture w) then Some (Error, w)
  else
    fresh ← find_in (store w) false h key;
    if bool_decide (is_Some fresh) then Some (Ready, w)
    else
      frozen ← find_slot_in (store w) true h key;
      match frozen with
      | None => Some (Ready, w)
      | Some (slot, p) =>
          word ← mem_get (t_words (s_t1 (store w))) slot;
          if (slot <? snapshot_pos w) || marked word then Some (Ready, w)
          else
            o ← s_heap (store w) !! p;
            gone ← deadline_elapsed false (store w) h o (snapshot_cut_ms w);
            if gone : bool then w ← mark_slot w slot; Some (Ready, w)
            else if in_record w then Some (Pending, w)
            else '(started, w) ← start_record w slot true p; Some (if started : bool then Pending else Error, w)
      end.
(** [find], [insert] and [erase] while a capture is on. *)
Definition find_capturing (s : Store) (h : Z) (key : bytes) : option (Store * option Z) :=
  r ← find_in s false h key;
  '(s, found) ← (match r with Some p => live_or_expire false s false h key p | None => Some (s, None) end);
  if bool_decide (is_Some found) then Some (s, found)
  else
    r ← find_in s true h key;
    match r with
    | None => Some (s, None)
    | Some p =>
        o ← s_heap s !! p;
        if negb (o_slot o) then Some (s, Some p)
        else at_ ← FlatStore.deadline false s h o; Some (s, if (at_ <? 0) || (s_now s <? at_) then Some p else None)
    end.
Definition insert_capturing (memi : bool) (s : Store) (h p : Z) : option (Store * InsertResult) :=
  o ← s_heap s !! p;
  fresh ← find_in s false h (o_key o);
  frozen ← find_in s true h (o_key o);
  let exists_ := bool_decide (is_Some fresh) || bool_decide (is_Some frozen) in
  if negb exists_ && (t_cap (s_t0 s) <=? t_live (s_t0 s) + t_tombs (s_t0 s) + t_live (s_t1 s) + 1) then Some (s, Failed)
  else
    '(s, removed, expired) ← erase_in false s true h (o_key o);
    let s := if removed && expired then count_expired s else s in
    '(s, ok) ← insert_into false memi s false h p true;
    Some (s, if ok : bool then Inserted else Failed).
Definition erase_capturing (s : Store) (h : Z) (key : bytes) : option (Store * bool) :=
  '(s, removed, expired) ← erase_in false s false h key;
  if removed : bool then Some (if expired : bool then count_expired s else s, negb expired)
  else
    '(s, removed, expired) ← erase_in false s true h key;
    if removed : bool then Some (if expired : bool then count_expired s else s, negb expired) else Some (s, false).
(** What the owner does during a capture: a share of the walk, a chunk given away, the clock, a
    lookup, and the writes of commands, each behind [snapshot_prepare_write]: an object replaced or
    created, removed, or its value changed in place. *)
Inductive WalkAct :=
  | Step (byte_budget slot_budget : Z) | Take | Now (now : Z) | Find (h : Z) (key : bytes)
  | Insert (memi : bool) (h p : Z) (o : KvObj) (v : Value) | Erase (h : Z) (key : bytes) | Edit (h : Z) (key : bytes) (v : Value).
(** The command runs if its write is prepared, and waits otherwise. *)
Definition behind_gate (w : Walk) (h : Z) (key : bytes) (command : Walk -> option Walk) : option Walk :=
  '(r, w) ← snapshot_prepare_write w h key; match r with Ready => command w | _ => Some w end.
Definition walk_act (w : Walk) (a : WalkAct) : option Walk :=
  match a with
  | Step b n => snapshot_progress b n w
  | Take => Some (take_chunk w)
  | Now now => Some (set_store (set_now (store w) now) w)
  | Find h key => '(s, _) ← find_capturing (store w) h key; Some (set_store s w)
  | Insert memi h p o v =>
      behind_gate w h (o_key o) (fun w =>
        let w := set_contents (<[p := v]> (contents w)) (set_store (set_heap (store w) (<[p := o]> (s_heap (store w)))) w) in
        '(s, r) ← insert_capturing memi (store w) h p;
        match r with Inserted => Some (set_store s w) | Failed => heap ← kvobj_free (s_heap s) p; Some (set_store (set_heap s heap) w) end)
  | Erase h key => behind_gate w h key (fun w => '(s, _) ← erase_capturing (store w) h key; Some (set_store s w))
  | Edit h key v => behind_gate w h key (fun w => r ← find_resident (store w) h key; Some (match r with Some p => set_contents (<[p := v]> (contents w)) w | None => w end))
  end.
End Walk.

(** * Marks
    The store without the marks of its old table is an ordinary store, and the operations agree. *)
Definition unmark (w : Z) : Z := if ptr_of w =? 0 then w else Z.land w (Z.lnot kTombBit).
Definition unmark_tab (t : Tab) : Tab := mkTab (unmark <$> t_words t) (t_cap t) (t_mask t) (t_live t) (t_tombs t).
Definition plain (s : Store) : Store := set_tabs s (s_t0 s) (unmark_tab (s_t1 s)) (s_pos s).
Lemma tomb_bit i : 0 <= i -> Z.testbit kTombBit i = (i =? 48).
Proof. intros Hi. unfold kTombBit. rewrite Z.pow2_bits_eqb by lia. apply Z.eqb_sym. Qed.
Lemma mask_bit i : 0 <= i -> Z.testbit kPtrMask i = (i <? 48).
Proof. intros Hi. change kPtrMask with (Z.ones 48). rewrite Z.testbit_ones_nonneg by lia. done. Qed.
Lemma ptr_mark w b : ptr_of (if b : bool then Z.lor w kTombBit else Z.land w (Z.lnot kTombBit)) = ptr_of w.
Proof.
  apply Z.bits_inj'. intros i Hi. unfold ptr_of. destruct b; rewrite !Z.land_spec, ?Z.lor_spec, ?Z.land_spec, ?Z.lnot_spec, tomb_bit, mask_bit by lia; destruct (Z.eqb_spec i 48), (Z.ltb_spec i 48); try lia; cbn; by rewrite ?orb_false_r, ?andb_true_r, ?andb_false_r.
Qed.
Lemma tag_mark w b : tag_of (if b : bool then Z.lor w kTombBit else Z.land w (Z.lnot kTombBit)) = tag_of w.
Proof.
  unfold tag_of. f_equal. apply Z.bits_inj'. intros i Hi. rewrite !Z.shiftr_spec by lia. destruct b; rewrite ?Z.lor_spec, ?Z.land_spec, ?Z.lnot_spec, tomb_bit by lia; destruct (Z.eqb_spec (i + 49) 48); try lia; by rewrite ?orb_false_r, ?andb_true_r.
Qed.
Lemma ptr_unmark w : ptr_of (unmark w) = ptr_of w.
Proof. unfold unmark. destruct (ptr_of w =? 0); [done|apply (ptr_mark w false)]. Qed.
Lemma tag_unmark w : tag_of (unmark w) = tag_of w.
Proof. unfold unmark. destruct (ptr_of w =? 0); [done|apply (tag_mark w false)]. Qed.
Lemma zero_unmark w : (unmark w =? 0) = (w =? 0).
Proof.
  pose proof (ptr_unmark w) as E. unfold unmark in *. destruct (Z.eqb_spec (ptr_of w) 0) as [|Hp]; [done|]. rewrite !(proj2 (Z.eqb_neq _ _)); [done|by intros ->|]. intros E0. rewrite E0 in E. done.
Qed.
(** Setting a mark on a live word changes nothing once marks are off; clearing it is [unmark]. *)
Lemma unmark_mark w : ptr_of w <> 0 -> unmark (Z.lor w kTombBit) = unmark w /\ unmark (Z.land w (Z.lnot kTombBit)) = unmark w.
Proof.
  intros Hp. unfold unmark. rewrite (ptr_mark w true), (ptr_mark w false), (proj2 (Z.eqb_neq _ _)) by done. split; apply Z.bits_inj'; intros i Hi; rewrite !Z.land_spec, ?Z.lor_spec, ?Z.land_spec, Z.lnot_spec, tomb_bit by lia; destruct (Z.eqb_spec i 48); cbn; by rewrite ?orb_false_r, ?andb_true_r, ?andb_false_r.
Qed.
Lemma marked_bit w : marked w = Z.testbit w 48.
Proof.
  unfold marked. destruct (Z.testbit w 48) eqn:E.
  - apply negb_true_iff, Z.eqb_neq. intros E0. apply (f_equal (fun x => Z.testbit x 48)) in E0. rewrite Z.land_spec, E, tomb_bit, Z.bits_0 in E0 by lia. done.
  - apply negb_false_iff, Z.eqb_eq, Z.bits_inj'. intros i Hi. rewrite Z.land_spec, tomb_bit, Z.bits_0 by lia. destruct (Z.eqb_spec i 48) as [->|]; [by rewrite E|apply andb_false_r].
Qed.
Lemma marked_mark w : marked (Z.lor w kTombBit) = true /\ marked (Z.land w (Z.lnot kTombBit)) = false.
Proof. rewrite !marked_bit, Z.lor_spec, Z.land_spec, Z.lnot_spec, tomb_bit by lia. cbn. by rewrite orb_true_r, andb_false_r. Qed.
Lemma get_unmark (ws : list Z) i : mem_get (unmark <$> ws) i = unmark <$> mem_get ws i.
Proof. unfold mem_get. destruct (0 <=? i); [|done]. apply list_lookup_fmap. Qed.
Lemma put_unmark (ws : list Z) i x : Probe.put (fmap (M:=list) unmark ws) i (unmark x) = fmap (M:=option) (fmap (M:=list) unmark) (Probe.put ws i x).
Proof. unfold Probe.put. rewrite length_fmap. destruct (_ && _); [|done]. cbn. by rewrite list_fmap_insert. Qed.
Lemma find_loop_plain n heap t tag key i : find_loop n heap (unmark_tab t) tag key i = find_loop n heap t tag key i.
Proof.
  revert i. induction n as [|n IH]; intros i; [done|]. cbn [find_loop unmark_tab t_words]. rewrite get_unmark. destruct (mem_get (t_words t) i) as [w|]; [|done]. cbn [fmap option_fmap option_map]. rewrite !some_bind, zero_unmark. destruct (w =? 0); [done|].
  unfold word_is. rewrite ptr_unmark, tag_unmark. change (next_slot (unmark_tab t) i) with (next_slot t i). destruct (if negb (ptr_of w =? 0) && (tag_of w =? tag) then _ else _) as [[|]|]; [done|apply IH|done].
Qed.
Lemma find_slot_plain s b h key : find_slot_in (plain s) b h key = find_slot_in s b h key.
Proof. destruct b; [|done]. unfold find_slot_in. cbn [tab plain s_t1 set_tabs s_heap unmark_tab t_cap]. by rewrite find_loop_plain. Qed.
Lemma find_in_plain s b h key : find_in (plain s) b h key = find_in s b h key.
Proof. unfold find_in. by rewrite find_slot_plain. Qed.

(** The routines that leave the old table alone. *)
Lemma untrack_plain s h : untrack_expire (plain s) h = plain <$> untrack_expire s h.
Proof. unfold untrack_expire. cbn [plain set_tabs s_exp]. destruct (e_erase (s_exp s) h) as [[e b]|]; done. Qed.
Lemma track_plain memi s h o : track_expire false memi (plain s) h o = plain <$> track_expire false memi s h o.
Proof.
  unfold track_expire. cbn [plain set_tabs s_exp]. destruct (0 <=? expire_at_ms o); [|destruct (e_size (s_exp s) =? 0); [done|apply untrack_plain]].
  destruct (e_insert memi false (s_exp s) h (expire_at_ms o)) as [[e ok]|]; [|done]. rewrite !some_bind. by destruct ok.
Qed.
Lemma retire_plain s p : retire_obj (plain s) p = plain <$> retire_obj s p.
Proof.
  unfold retire_obj. cbn [plain set_tabs s_heap s_bytes s_reg s_pending]. destruct (s_heap s !! p) as [o|]; [|done]. rewrite !some_bind. destruct (r_outstanding (s_reg s) =? 0); [by destruct (kvobj_free (s_heap s) p)|].
  destruct (match o_value o with Some v => _ | None => _ end) as [[r lent]|]; [|done]. rewrite !some_bind. destruct lent; [done|]. by destruct (kvobj_free (s_heap s) p).
Qed.
Definition plain3 (x : Store * bool * bool) : Store * bool * bool := (plain x.1.1, x.1.2, x.2).
Definition plain2 {A} (x : Store * A) : Store * A := (plain x.1, x.2).
Lemma erase_in_plain s b h key : erase_in false (plain s) b h key = plain3 <$> erase_in false s b h key.
Proof.
  unfold erase_in. rewrite find_slot_plain. destruct (find_slot_in s b h key) as [[[i p]|]|]; [|done|done]. rewrite !some_bind. change (s_heap (plain s)) with (s_heap s). destruct (s_heap s !! p) as [o|]; [|done]. rewrite !some_bind, !deadline_elapsed_eq, !some_bind. change (s_now (plain s)) with (s_now s). rewrite untrack_plain.
  destruct (untrack_expire s h) as [s1|]; [|done]. cbn [fmap option_fmap option_map]. rewrite !some_bind, retire_plain. destruct (retire_obj s1 p) as [s2|]; [|done]. cbn [fmap option_fmap option_map]. rewrite !some_bind. destruct b; cbn [tab plain set_tabs s_t0 s_t1 unmark_tab t_words t_cap t_mask t_live t_tombs].
  - change kTombBit with (unmark kTombBit) at 1. rewrite put_unmark. by destruct (Probe.put (t_words (s_t1 s2)) i kTombBit).
  - by destruct (Probe.put (t_words (s_t0 s2)) i kTombBit).
Qed.
Lemma insert_into_plain memi s h p : insert_into false memi (plain s) false h p true = plain2 <$> insert_into false memi s false h p true.
Proof.
  unfold insert_into. change (s_heap (plain s)) with (s_heap s). destruct (s_heap s !! p) as [o|]; [|done]. rewrite !some_bind. change (tab (plain s) false) with (tab s false). destruct (insert_probe _ _ _ _ _ _ _) as [[i tomb|i q|]|]; [| |done|done]; rewrite !some_bind.
  - destruct (make_word (tag_of h) p) as [w|]; [|done]. rewrite !some_bind. destruct (Probe.put (t_words (tab s false)) i w) as [ws|]; [|done]. rewrite !some_bind. match goal with |- (track_expire false memi (add_bytes (set_tab (plain s) false ?t) ?n) h o ≫= _) = _ => change (add_bytes (set_tab (plain s) false t) n) with (plain (add_bytes (set_tab s false t) n)) end.
    rewrite track_plain. by destruct (track_expire false memi _ h o).
  - destruct (s_heap s !! q) as [c|]; [|done]. rewrite !some_bind, !deadline_elapsed_eq, !some_bind. change (s_now (plain s)) with (s_now s).
    assert ((if elapsed (s_now s) c then count_expired (plain s) else plain s) = plain (if elapsed (s_now s) c then count_expired s else s)) as -> by (by destruct (elapsed _ _)). rewrite track_plain. destruct (track_expire false memi _ h o) as [s1|]; [|done]. cbn [fmap option_fmap option_map]. rewrite !some_bind, retire_plain.
    destruct (retire_obj s1 q) as [s2|]; [|done]. cbn [fmap option_fmap option_map]. rewrite !some_bind. destruct (make_word (tag_of h) p) as [w|]; [|done]. rewrite !some_bind. change (tab (plain s2) false) with (tab s2 false). by destruct (Probe.put (t_words (tab s2 false)) i w).
Qed.

(** * The invariant
    [cut_records]: for each slot of the old table, the record it had at the cut, if it had one. *)
Definition record_of (v : Value) (o : KvObj) : bytes :=
  record_header (o_key o) (type_code v) (encoding_of v) (blen (image_of v)) (expire_at_ms o) ++ o_key o ++ image_of v.
Definition key_record (cut_ms : Z) (m : gmap Z Value) (A : Abs) (key : bytes) : option bytes :=
  '(p, o) ← a_live A !! key; v ← m !! p; if elapsed cut_ms o then None else Some (record_of v o).
Section Invariant.
Context (cfg : HashCfg) (cfg_valid : cfg_ok cfg) (cut_records : list (option bytes)).
Implicit Types (w : Walk) (A : Abs) (l : list (Slot bytes Z)) (written : list nat).
Definition words w : list Z := t_words (s_t1 (store w)).
(** The walk still has to come to slot [i]. *)
Definition open_at w l1 (i : nat) (k : bytes) (p : Z) : Prop :=
  snapshot_pos w <= Z.of_nat i /\ l1 !! i = Some (SLive k p) /\ exists word, words w !! i = Some word /\ marked word = false.
Definition records (written : list nat) : bytes := concat ((fun i => default [] (mjoin (cut_records !! i))) <$> written).
(** The insertions the new table has room for, the whole old table counted; as [load] counts them. *)
Definition slack w : Z := (5 * t_cap (s_t0 (store w)) - t_cap (s_t1 (store w))) / 8 - t_cap (s_t0 (store w)) + 1.
Record walk_inv w A l0 l1 written : Prop := mkWalkInv {
  wi_store : inv cfg (plain (store w)) A ∅ l0 l1 (slack w);
  wi_old : rehashing (store w) = true;
  wi_still : s_pos (store w) = 0;
  wi_len : length cut_records = length l1;
  wi_pos : 0 <= snapshot_pos w <= t_cap (s_t1 (store w));
  wi_values : forall k p o, a_live A !! k = Some (p, o) -> exists v, contents w !! p = Some v /\ value_ok v;
  wi_open : forall i k p, open_at w l1 i k p -> cut_records !! i = Some (key_record (snapshot_cut_ms w) (contents w) A k) /\ i ∉ written;
  wi_closed : forall i r, cut_records !! i = Some (Some r) -> i ∈ written \/ exists k p, open_at w l1 i k p;
  wi_nodup : NoDup written;
  wi_done : forall i, i ∈ written -> exists r, cut_records !! i = Some (Some r) }.
Definition full_chunk (c : bytes) : Prop := blen c = kSnapshotChunkBytes.
(** The record under way is that of the open slot [i]. *)
Definition recording w A l1 written : Prop := exists i k p o v n (St : Streams (hooks_of v) (image_of v) (encoding_of v)),
  r_slot w = Z.of_nat i /\ r_object w = p /\ open_at w l1 i k p /\ (r_preimage w = false -> snapshot_pos w = Z.of_nat i) /\
  a_live A !! k = Some (p, o) /\ contents w !! p = Some v /\ elapsed (snapshot_cut_ms w) o = false /\
  r_header w = record_header k (type_code v) (encoding_of v) (blen (image_of v)) (expire_at_ms o) /\
  captured k (hooks_of v) (r_header w) (image_of v) (encoding_of v) (records written) n (handed w, capture w).
Definition cap_inv w A l1 written : Prop :=
  if snapshot_finished w then
    in_record w = false /\ failed (capture w) = false /\ snapshot_pos w = t_cap (s_t1 (store w)) /\ build (capture w) = None /\ handed_bytes (handed w, capture w) = records written /\
    exists front last, handed w ++ option_list (ready (capture w)) = front ++ [last] /\ Forall full_chunk front /\ blen last <= kSnapshotChunkBytes
  else
    tidy (capture w) /\ Forall full_chunk (handed w) /\
    if in_record w then recording w A l1 written else handed_bytes (handed w, capture w) = records written.
Definition walk_ok w : Prop := exists A l0 l1 written, walk_inv w A l0 l1 written /\ cap_inv w A l1 written.

(** ** Slots and words *)
Lemma old_tab w A l0 l1 written : walk_inv w A l0 l1 written -> tab_rep cfg (s_heap (store w)) (unmark_tab (s_t1 (store w))) l1.
Proof. intros H. exact (rehashing_old cfg _ _ _ _ _ _ (wi_store _ _ _ _ _ H) (wi_old _ _ _ _ _ H)). Qed.
Lemma old_shape w A l0 l1 written : walk_inv w A l0 l1 written -> length (words w) = length l1 /\ Z.of_nat (length l1) = t_cap (s_t1 (store w)).
Proof. intros H. destruct (old_tab _ _ _ _ _ H) as (_ & Hl & _ & Hf & _). apply Forall2_length in Hf. cbn in Hf. rewrite length_fmap in Hf. done. Qed.
Lemma slot_word w A l0 l1 written i x word : walk_inv w A l0 l1 written -> l1 !! i = Some x -> words w !! i = Some word -> word_rep cfg (s_heap (store w)) (unmark word) x.
Proof. intros H Hx Hw. destruct (old_tab _ _ _ _ _ H) as (_ & _ & _ & Hf & _). eapply Forall2_lookup_lr; [exact Hf| |exact Hx]. cbn. rewrite list_lookup_fmap. unfold words in Hw. by rewrite Hw. Qed.
Lemma live_word_at w A l0 l1 written i k p word : walk_inv w A l0 l1 written -> l1 !! i = Some (SLive k p) -> words w !! i = Some word ->
  ptr_of word = p /\ p <> 0 /\ exists o, a_live A !! k = Some (p, o) /\ s_heap (store w) !! p = Some o /\ o_key o = k /\ hash_key cfg k = Some (khash cfg k).
Proof.
  intros H Hx Hw. destruct (slot_word _ _ _ _ _ _ _ _ H Hx Hw) as (o & Ho & Hk & _ & Hh & Ha & E). split; [rewrite <- ptr_unmark, E; by apply ptr_live|]. split; [destruct Ha; lia|].
  destruct (slot_live cfg _ _ _ _ _ _ true i k p (wi_store _ _ _ _ _ H) Hx) as [o' Ho']. pose proof (live_heap _ _ _ _ _ _ _ _ _ (i_mem _ _ _ _ _ _ _ (wi_store _ _ _ _ _ H)) Ho') as E'. cbn in E'. assert (o' = o) as -> by congruence. by exists o.
Qed.
Lemma dead_word_at w A l0 l1 written i x word : walk_inv w A l0 l1 written -> l1 !! i = Some x -> words w !! i = Some word -> is_live x = false -> ptr_of word = 0.
Proof. intros H Hx Hw Hd. pose proof (slot_word _ _ _ _ _ _ _ _ H Hx Hw) as R. rewrite <- ptr_unmark. destruct x; [by rewrite R|by rewrite R|done]. Qed.
Lemma word_exists w A l0 l1 written i x : walk_inv w A l0 l1 written -> l1 !! i = Some x -> exists word, words w !! i = Some word.
Proof. intros H Hx. apply lookup_lt_is_Some_2. rewrite (proj1 (old_shape _ _ _ _ _ H)). by eapply lookup_lt_Some. Qed.

(** ** Closing slots *)
(** The same store, marks apart, behind a walk that has moved. *)
Definition same_but_marks w w' : Prop :=
  plain (store w') = plain (store w) /\ contents w' = contents w /\ snapshot_cut_ms w' = snapshot_cut_ms w /\ 0 <= snapshot_pos w' <= t_cap (s_t1 (store w')).
Lemma plain_caps s s' : plain s' = plain s -> t_cap (s_t0 s') = t_cap (s_t0 s) /\ t_cap (s_t1 s') = t_cap (s_t1 s) /\ s_pos s' = s_pos s /\ s_heap s' = s_heap s.
Proof. intros E. split_and!; [exact (f_equal (fun x => t_cap (s_t0 x)) E)|exact (f_equal (fun x => t_cap (s_t1 x)) E)|exact (f_equal s_pos E)|exact (f_equal s_heap E)]. Qed.
Lemma skip_slot w w' A l0 l1 written : walk_inv w A l0 l1 written -> same_but_marks w w' -> (forall j k p, open_at w' l1 j k p <-> open_at w l1 j k p) -> walk_inv w' A l0 l1 written.
Proof.
  intros [] (E & Ec & Em & Hp) Ho. destruct (plain_caps _ _ E) as (C0 & C1 & Cp & _). split; try done.
  - unfold slack. rewrite E, C0, C1. done.
  - unfold rehashing in *. by rewrite C1.
  - by rewrite Cp.
  - by rewrite Ec.
  - intros i k p H. rewrite Ec, Em. eapply wi_open0. by apply Ho.
  - intros i r H. destruct (wi_closed0 i r H) as [|(k & p & H')]; [by left|right; exists k, p; by apply Ho].
Qed.
Lemma close_slot w w' A l0 l1 written i (r : option bytes) : walk_inv w A l0 l1 written -> same_but_marks w w' ->
  (forall j k p, open_at w' l1 j k p <-> open_at w l1 j k p /\ j <> i) -> cut_records !! i = Some r -> i ∉ written ->
  walk_inv w' A l0 l1 (match r with Some _ => written ++ [i] | None => written end).
Proof.
  intros [] (E & Ec & Em & Hp) Ho Hr Hi. destruct (plain_caps _ _ E) as (C0 & C1 & Cp & _). split; try done.
  - unfold slack. rewrite E, C0, C1. done.
  - unfold rehashing in *. by rewrite C1.
  - by rewrite Cp.
  - by rewrite Ec.
  - intros j k p [H Hne]%Ho. destruct (wi_open0 j k p H) as [H1 H2]. rewrite Ec, Em. split; [done|]. destruct r; [|done]. rewrite elem_of_app, list_elem_of_singleton. by intros [?|?].
  - intros j rj H. destruct (wi_closed0 j rj H) as [Hj|(k & p & H')]; [left; destruct r; [apply elem_of_app; by left|done]|]. destruct (decide (j = i)) as [->|Hne]; [|right; exists k, p; by apply Ho]. assert (r = Some rj) as -> by congruence. left. apply elem_of_app. right. by apply list_elem_of_singleton.
  - destruct r; [|done]. apply NoDup_app. split; [done|]. split; [by intros j Hj ->%list_elem_of_singleton|apply NoDup_singleton].
  - intros j Hj. destruct r as [r|]; [|by apply wi_done0]. apply elem_of_app in Hj as [Hj| ->%list_elem_of_singleton]; [by apply wi_done0|by exists r].
Qed.
Lemma skip_same w w' A l0 l1 written : walk_inv w A l0 l1 written -> store w' = store w -> contents w' = contents w -> snapshot_cut_ms w' = snapshot_cut_ms w -> snapshot_pos w' = snapshot_pos w -> walk_inv w' A l0 l1 written.
Proof.
  intros H Es Ec Em Ep. apply (skip_slot w); [done|split; [by rewrite Es|]; split; [done|]; split; [done|]; rewrite Ep, Es; apply H|]. intros j k p. unfold open_at, words. by rewrite Ep, Es.
Qed.
Lemma open_at_pos w l1 j k p i : snapshot_pos w = Z.of_nat i -> open_at (set_pos (snapshot_pos w + 1) w) l1 j k p <-> open_at w l1 j k p /\ j <> i.
Proof. intros E. unfold open_at. cbn. split; [intros (H1 & H2); split; [split; [lia|done]|lia]|intros ((H1 & H2) & Hne); split; [lia|done]]. Qed.
(** Setting or clearing the mark of a live slot. *)
Lemma write_mark w A l0 l1 written i k p word (b : bool) : walk_inv w A l0 l1 written -> l1 !! i = Some (SLive k p) -> words w !! i = Some word ->
  exists w', write_slot w (Z.of_nat i) (if b then Z.lor word kTombBit else Z.land word (Z.lnot kTombBit)) = Some w' /\ w' = set_store (store w') w /\ same_but_marks w w' /\
    words w' = <[i := if b then Z.lor word kTombBit else Z.land word (Z.lnot kTombBit)]> (words w).
Proof.
  intros H Hx Hw. pose proof (lookup_lt_Some _ _ _ Hw) as Hlt. unfold write_slot. rewrite Probe.put_Some by (unfold words in Hlt; lia). rewrite some_bind, Nat2Z.id. eexists. split; [done|]. split; [done|]. split; [|done]. split; [|split; [done|split; [done|apply (wi_pos _ _ _ _ _ H)]]].
  destruct (live_word_at _ _ _ _ _ _ _ _ _ H Hx Hw) as (Ep & Hp & _). destruct (unmark_mark word ltac:(congruence)) as [E1 E2]. unfold plain, set_tab. cbn. unfold unmark_tab. cbn. rewrite list_fmap_insert. replace (unmark (if b then Z.lor word kTombBit else Z.land word (Z.lnot kTombBit))) with (unmark word) by (by destruct b).
  rewrite (list_insert_id (unmark <$> t_words (s_t1 (store w)))); [done|]. rewrite list_lookup_fmap. unfold words in Hw. by rewrite Hw.
Qed.
Lemma mark_slot_spec w A l0 l1 written i k p word : walk_inv w A l0 l1 written -> l1 !! i = Some (SLive k p) -> words w !! i = Some word ->
  exists w', mark_slot w (Z.of_nat i) = Some w' /\ w' = set_store (store w') w /\ same_but_marks w w' /\ (forall j k p, open_at w' l1 j k p <-> open_at w l1 j k p /\ j <> i) /\ exists word', words w' !! i = Some word' /\ marked word' = true.
Proof.
  intros H Hx Hw. destruct (write_mark w A l0 l1 written i k p word true H Hx Hw) as (w' & E & Ew & Hs & Ewords). unfold mark_slot. rewrite (Probe.get_Some _ _ word) by (try lia; rewrite Nat2Z.id; exact Hw). rewrite some_bind. exists w'. split; [done|]. split; [done|]. split; [done|]. pose proof (lookup_lt_Some _ _ _ Hw) as Hlt. split.
  - intros j k' p'. unfold open_at. rewrite Ewords. assert (snapshot_pos w' = snapshot_pos w) as -> by (rewrite Ew; done). destruct (decide (j = i)) as [->|Hne].
    + rewrite list_lookup_insert_eq by done. split; [|by intros [_ ?]]. intros (_ & _ & x & [= <-] & Hm). by rewrite (proj1 (marked_mark word)) in Hm.
    + rewrite list_lookup_insert_ne by done. split; [by intros ?|by intros [? _]].
  - eexists. rewrite Ewords, list_lookup_insert_eq by done. split; [done|apply marked_mark].
Qed.

(** ** The steps of the walk *)
Definition walks w A l0 l1 : Prop := exists written, walk_inv w A l0 l1 written /\ cap_inv w A l1 written.
Definition idle_walk w : Prop := in_record w = false /\ snapshot_finished w = false.
(** What grows: the slots passed, the records written and the bytes. *)
Definition score w written : Z := snapshot_pos w + Z.of_nat (length written) + blen (handed_bytes (handed w, capture w)).
Lemma idle_bytes w A l1 written : cap_inv w A l1 written -> in_record w = false -> handed_bytes (handed w, capture w) = records written.
Proof. unfold cap_inv. intros Hc Hr. rewrite Hr in Hc. destruct (snapshot_finished w); [by destruct Hc as (_ & _ & _ & _ & ? & _)|by destruct Hc as (_ & _ & ?)]. Qed.
Lemma records_snoc written i r : cut_records !! i = Some (Some r) -> records (written ++ [i]) = records written ++ r.
Proof. intros E. unfold records. rewrite fmap_app, concat_app. cbn. by rewrite E, app_nil_r. Qed.
Lemma open_record w A l0 l1 written i k p : walk_inv w A l0 l1 written -> open_at w l1 i k p -> exists o v, a_live A !! k = Some (p, o) /\ s_heap (store w) !! p = Some o /\ o_key o = k /\ hash_key cfg k = Some (khash cfg k) /\
  contents w !! p = Some v /\ value_ok v /\ (i ∉ written) /\ cut_records !! i = Some (if elapsed (snapshot_cut_ms w) o then None else Some (record_of v o)).
Proof.
  intros H Ho. pose proof Ho as (_ & Hx & word & Hw & _). destruct (live_word_at _ _ _ _ _ _ _ _ _ H Hx Hw) as (_ & _ & o & Hl & Hh & Hk & Hhash). destruct (wi_values _ _ _ _ _ H _ _ _ Hl) as (v & Hv & Hok). destruct (wi_open _ _ _ _ _ H _ _ _ Ho) as [Hc Hn].
  exists o, v. split_and!; try done. rewrite Hc. unfold key_record. rewrite Hl. cbn. by rewrite Hv.
Qed.
Lemma start_spec w A l0 l1 written i k p o pre : walk_inv w A l0 l1 written -> cap_inv w A l1 written -> idle_walk w -> open_at w l1 i k p -> a_live A !! k = Some (p, o) -> elapsed (snapshot_cut_ms w) o = false ->
  (pre = false -> snapshot_pos w = Z.of_nat i) ->
  exists c header, start_record w (Z.of_nat i) pre p = Some (true, set_record c (Z.of_nat i) pre p header w) /\ active (rec c) = true /\ ready c = ready (capture w) /\ stream c = stream (capture w) /\
    walk_inv (set_record c (Z.of_nat i) pre p header w) A l0 l1 written /\ cap_inv (set_record c (Z.of_nat i) pre p header w) A l1 written.
Proof.
  intros H Hc [Hr Hf] Ho Hl He Hpre. destruct (open_record _ _ _ _ _ _ _ _ H Ho) as (o' & v & Hl' & Hh & Hk & _ & Hv & Hok & _). assert (o' = o) as -> by congruence. unfold start_record. rewrite Hh, some_bind, Hv, some_bind. destruct (value_streams v Hok) as [St _]. unfold cap_inv in Hc. rewrite Hf, Hr in Hc. destruct Hc as (Ht & Hfull & Hb).
  destruct (started_captured (o_key o) (hooks_of v) (image_of v) (encoding_of v) (type_code v) (expire_at_ms o) (handed w) (capture w) Ht Hfull) as (r & -> & Ha & Hcap). eexists _, _. split; [done|]. split; [done|]. split; [done|]. split; [done|]. split.
  - by apply (skip_same w).
  - unfold cap_inv. cbn [snapshot_finished set_record]. rewrite Hf. split; [done|]. split; [done|]. unfold in_record. cbn [capture set_record set_rec rec]. rewrite Ha. exists i, k, p, o, v, 0%nat, St. cbn. rewrite <- Hk, <- Hb in *. by split_and!.
Qed.
Lemma finish_stream_spec w A l0 l1 written : walk_inv w A l0 l1 written -> cap_inv w A l1 written -> in_record w = false -> ready (capture w) = None -> t_cap (s_t1 (store w)) <= snapshot_pos w -> 
  walk_inv (snapshot_finish_stream w) A l0 l1 written /\ cap_inv (snapshot_finish_stream w) A l1 written /\ snapshot_finished (snapshot_finish_stream w) = true /\ snapshot_pos (snapshot_finish_stream w) = snapshot_pos w /\ in_record (snapshot_finish_stream w) = false.
Proof.
  intros H Hc Hr Hready Hp. unfold snapshot_finish_stream, is_ready. rewrite Hr, Hready, (bool_decide_false (is_Some None)) by (by intros [? ?]). destruct (snapshot_finished w) eqn:Hf; [by cbn; split_and!|]. cbn [orb]. unfold cap_inv in Hc. rewrite Hf, Hr in Hc. destruct Hc as (Ht & Hfull & Hb).
  destruct (need_chunk_spec (capture w) Hready Ht) as (b & c & E & Eb & Hbl & Hrc & Hfc & Erec). rewrite E. assert (build c = Some b) as Ebuild by (unfold need_chunk in E; destruct (build (capture w)) eqn:Eb0; injection E as <- <-; done). split; [by apply (skip_same w)|].
  unfold cap_inv, in_record, snapshot_seal. cbn [snapshot_finished capture handed store snapshot_pos]. rewrite Ebuild, Hrc. cbn [rec failed build ready]. rewrite Erec. split; [|split; [done|split; [done|exact Hr]]]. split; [exact Hr|]. split; [done|]. pose proof (wi_pos _ _ _ _ _ H). split; [lia|]. split; [done|]. split.
  - rewrite <- Hb. unfold handed_bytes, stream. cbn [fst snd ready build default]. rewrite Hready. cbn [default id]. rewrite app_nil_r, Eb. unfold stream. by rewrite Hready.
  - exists (handed w), b. split; [done|]. split; [done|lia].
Qed.
Lemma progress_record_spec w A l0 l1 written budget : walk_inv w A l0 l1 written -> cap_inv w A l1 written -> in_record w = true -> ready (capture w) = None -> 0 < budget < 2 ^ 32 ->
  exists b' w' written', progress_record w budget = Some (b', w') /\ 0 <= b' <= budget /\ walk_inv w' A l0 l1 written' /\ cap_inv w' A l1 written' /\ score w written < score w' written' /\ snapshot_finished w' = false /\ t_cap (s_t1 (store w')) = t_cap (s_t1 (store w)) /\
    (in_record w' = true \/ in_record w' = false /\ (snapshot_pos w' = if r_preimage w then snapshot_pos w else snapshot_pos w + 1)).
Proof.
  intros H Hc Hr Hready Hbud. unfold cap_inv in Hc. rewrite Hr in Hc. destruct (snapshot_finished w) eqn:Hf; [by destruct Hc|]. destruct Hc as (Ht & Hfull & i & k & p & o & v & n & St & Eslot & Eobj & Ho & Hpos & Hl & Hv & He & Eh & Hcap).
  destruct (open_record _ _ _ _ _ _ _ _ H Ho) as (o' & v' & Hl' & Hh & Hk & _ & Hv' & Hok & Hni & Hcut). assert (o' = o) as -> by congruence. assert (v' = v) as -> by congruence. rewrite He in Hcut. unfold progress_record. rewrite Eobj, Hh, some_bind, Hv, some_bind, Hk.
  pose proof Hcap as (_ & _ & Hbytes & Hn & _). pose proof (captured_active _ _ _ _ _ _ _ _ Hcap Hr) as Hu. assert (blen (r_header w) = kSnapshotRecordHeader) as Hhl by (rewrite Eh; apply record_header_length).
  destruct (progress_spec k (hooks_of v) (r_header w) (image_of v) (encoding_of v) Hhl budget (capture w) n Hready Ht ltac:(lia) Hu) as (b' & c & -> & Hb' & Ht' & m & Es & Hm & Hst & Hmove). rewrite some_bind, Hr. cbn [andb].
  assert (handed_bytes (handed w, c) = records written ++ take (n + m) (record_bytes k (r_header w) (image_of v))) as Hbytes' by (unfold handed_bytes in *; cbn [fst snd] in *; rewrite Es, app_assoc, Hbytes, <- app_assoc, take_take_drop; done).
  destruct (active (rec c)) eqn:Ea; cbn [negb].
  - exists b', (set_capture c w), written. split; [done|]. split; [done|]. split; [by apply (skip_same w)|]. split; [|split; [|split; [done|split; [done|left; exact Ea]]]].
    2:{ unfold score. cbn [set_capture snapshot_pos handed capture]. rewrite Hbytes', Hbytes, !length_app, !length_take. destruct (Hmove ltac:(lia)); [lia|congruence]. }
    unfold cap_inv, in_record. cbn [snapshot_finished capture set_capture]. rewrite Hf, Ea. split; [done|]. split; [done|]. exists i, k, p, o, v, (n + m)%nat, St. cbn [set_capture r_slot r_object r_preimage snapshot_pos contents snapshot_cut_ms r_header handed capture]. do 8 (split; [done|]). split; [exact Ht'|]. split; [done|]. split; [exact Hbytes'|]. split; [done|]. destruct Hst as [?|[? _]]; [by left|congruence].
  - destruct Hst as [(? & ? & ? & E & _)|[_ Hend]]; [rewrite E in Ea; discriminate|]. rewrite take_ge in Hbytes' by lia. assert (record_bytes k (r_header w) (image_of v) = record_of v o) as Erec by (unfold record_bytes, record_of; rewrite Eh, Hk; done). rewrite Erec, <- (records_snoc written i) in Hbytes' by done.
    cbn [r_preimage set_capture r_slot]. rewrite Eslot. assert (walk_inv (set_capture c w) A l0 l1 written) as H1 by (by apply (skip_same w)). pose proof Ho as (Hge & Hx & word & Hw & Hmk).
    destruct (r_preimage w) eqn:Epre.
    + destruct (mark_slot_spec (set_capture c w) A l0 l1 written i k p word H1 Hx Hw) as (w2 & -> & Ew2 & Hs2 & Hopen & _). rewrite some_bind. exists b', w2, (written ++ [i]). split; [done|]. split; [done|]. pose proof (close_slot _ w2 _ _ _ _ i _ H1 Hs2 Hopen Hcut Hni) as H2. cbv iota in H2. split; [done|]. split; [|split; [unfold score; rewrite Ew2; cbn [set_capture set_store snapshot_pos handed capture]; rewrite Hbytes', Hbytes, (records_snoc _ _ _ Hcut), !length_app, length_take; cbn [length]; rewrite <- Erec; lia|split; [by rewrite Ew2|split; [exact (proj1 (proj2 (plain_caps _ _ (proj1 Hs2))))|right; split; [rewrite Ew2; exact Ea|by rewrite Ew2]]]]].
      unfold cap_inv, in_record. rewrite Ew2. cbn [snapshot_finished capture set_capture set_store handed]. by rewrite Hf, Ea.
    + specialize (Hpos eq_refl). exists b', (set_pos (snapshot_pos w + 1) (set_capture c w)), (written ++ [i]). split; [done|]. split; [done|]. split; [|split; [|split; [unfold score; cbn [set_pos set_capture snapshot_pos handed capture]; rewrite Hbytes', Hbytes, (records_snoc _ _ _ Hcut), !length_app, length_take; cbn [length]; rewrite <- Erec; lia|split; [done|split; [done|right; split; [exact Ea|done]]]]]].
      * apply (close_slot (set_capture c w) _ A l0 l1 written i (Some (record_of v o))); try done; [|intros; by apply (open_at_pos (set_capture c w))]. split; [done|]. split; [done|]. split; [done|]. cbn. pose proof (lookup_lt_Some _ _ _ Hx). destruct (old_shape _ _ _ _ _ H). lia.
      * unfold cap_inv, in_record. cbn [snapshot_finished capture set_capture set_pos handed]. by rewrite Hf, Ea.
Qed.
Definition steps_left w : Z := 2 * (t_cap (s_t1 (store w)) - snapshot_pos w) + (if in_record w then if r_preimage w then 2 else 0 else 1).
Lemma not_ready w : is_ready w = false -> ready (capture w) = None.
Proof. unfold is_ready. intros E. apply bool_decide_eq_false in E. destruct (ready (capture w)); [|done]. exfalso. by apply E. Qed.
Lemma never_failed w A l1 written : cap_inv w A l1 written -> failed (capture w) = false.
Proof. unfold cap_inv. destruct (snapshot_finished w); [by intros (_ & ? & _)|by intros ((? & _) & _)]. Qed.
(** A slot the walk passes by without a record. *)
Lemma pass_spec w A l0 l1 written i : walk_inv w A l0 l1 written -> cap_inv w A l1 written -> idle_walk w -> snapshot_pos w = Z.of_nat i -> (i < length l1)%nat ->
  (forall k p, ~ open_at w l1 i k p) \/ cut_records !! i = Some None /\ (i ∉ written) ->
  walk_inv (set_pos (snapshot_pos w + 1) w) A l0 l1 written /\ cap_inv (set_pos (snapshot_pos w + 1) w) A l1 written.
Proof.
  intros H Hc [Hr Hf] Ep Hlt Hwhy. destruct (old_shape _ _ _ _ _ H) as [_ Hcap]. assert (same_but_marks w (set_pos (snapshot_pos w + 1) w)) as Hs by (split; [done|]; split; [done|]; split; [done|]; cbn; lia). split.
  - destruct Hwhy as [Hno|[Hcut Hn]].
    + apply (skip_slot w); [done|done|]. intros j k p. rewrite (open_at_pos w l1 j k p i Ep). split; [by intros [? _]|]. intros Ho. split; [done|]. intros ->. by apply (Hno k p).
    + apply (close_slot w _ A l0 l1 written i None); try done. intros j k p. by apply open_at_pos.
  - unfold cap_inv, in_record in *. cbn [snapshot_finished capture set_pos handed]. rewrite Hf in *. unfold in_record in Hr. by rewrite Hr in *.
Qed.
Lemma progress_loop_spec fuel b n w A l0 l1 written : walk_inv w A l0 l1 written -> cap_inv w A l1 written -> 0 <= b < 2 ^ 32 -> steps_left w < Z.of_nat fuel ->
  exists w' written', progress_loop cfg fuel b n w = Some w' /\ walk_inv w' A l0 l1 written' /\ cap_inv w' A l1 written' /\ score w written <= score w' written' /\
    (0 < b -> is_ready w = false -> in_record w = true \/ n <> 0 -> snapshot_finished w' = true \/ score w written < score w' written').
Proof.
  revert b n w written. induction fuel as [|fuel IH]; intros b n w written H Hc Hb Hfuel; cbn [progress_loop]; pose proof (wi_pos _ _ _ _ _ H) as Hpos.
  { exfalso. unfold steps_left in Hfuel. destruct (in_record w); [destruct (r_preimage w)|]; lia. }
  rewrite (never_failed _ _ _ _ Hc), orb_false_r. destruct (Z.eqb_spec b 0) as [|Hb0]; [exists w, written; split_and!; (done || lia)|]. cbn [orb]. destruct (is_ready w) eqn:Erd; [by exists w, written|]. pose proof (not_ready _ Erd) as Er. destruct (in_record w) eqn:Ein.
  { destruct (progress_record_spec w A l0 l1 written b H Hc Ein Er ltac:(lia)) as (b' & w' & wr' & -> & Hb' & H' & Hc' & Hsc & Hf' & Ecap & Hcase). rewrite some_bind. destruct (in_record w') eqn:Ein'; [exists w', wr'; split_and!; try done; [lia|by right]|]. cbn [orb]. destruct (is_ready w'); [exists w', wr'; split_and!; try done; [lia|by right]|]. destruct Hcase as [?|[_ Ep]]; [done|].
    destruct (IH b' n w' wr' H' Hc' ltac:(lia)) as (w2 & wr2 & -> & H2 & Hc2 & Hs2 & _); [unfold steps_left in *; rewrite Ein', Ecap, Ep; rewrite Ein in Hfuel; destruct (r_preimage w); lia|]. exists w2, wr2. split_and!; try done; [lia|intros; right; lia]. }
  destruct (Z.leb_spec (t_cap (s_t1 (store w))) (snapshot_pos w)) as [Hend|Hlt].
  { destruct (finish_stream_spec w A l0 l1 written H Hc Ein Er Hend) as (H' & Hc' & Hf' & Ep & Ein'). exists (snapshot_finish_stream w), written. split_and!; try done; [|by left]. unfold score. rewrite Ep, (idle_bytes _ _ _ _ Hc Ein), (idle_bytes _ _ _ _ Hc' Ein'). lia. }
  destruct (Z.eqb_spec n 0) as [|Hn0]; [exists w, written; split_and!; try done; intros _ _ [?|?]; done|]. assert (snapshot_finished w = false) as Hf by (unfold cap_inv in Hc; destruct (snapshot_finished w); [|done]; destruct Hc as (_ & _ & E & _); lia).
  destruct (old_shape _ _ _ _ _ H) as [Hlw Hcap]. set (i := Z.to_nat (snapshot_pos w)). assert (snapshot_pos w = Z.of_nat i) as Ei by lia. destruct (lookup_lt_is_Some_2 l1 i ltac:(lia)) as [x Hx]. destruct (word_exists _ _ _ _ _ _ _ H Hx) as [word Hword].
  assert (forall w', snapshot_pos w' = snapshot_pos w + 1 -> capture w' = capture w -> handed w' = handed w -> t_cap (s_t1 (store w')) = t_cap (s_t1 (store w)) -> walk_inv w' A l0 l1 written -> cap_inv w' A l1 written ->
    exists w2 written', progress_loop cfg fuel b (n - 1) w' = Some w2 /\ walk_inv w2 A l0 l1 written' /\ cap_inv w2 A l1 written' /\ score w written <= score w2 written' /\ (0 < b -> false = false -> false = true \/ n <> 0 -> snapshot_finished w2 = true \/ score w written < score w2 written')) as Hnext.
  { intros w' E1 E2 E3 E4 H' Hc'. destruct (IH b (n - 1) w' written H' Hc' Hb) as (w2 & wr2 & -> & H2 & Hc2 & Hs2 & _); [unfold steps_left, in_record in *; rewrite E1, E2, E4; rewrite Ein in *; lia|]. assert (score w' written = score w written + 1) as Esc by (unfold score; rewrite E1, E2, E3; lia). exists w2, wr2. split_and!; try done; [lia|intros; right; lia]. }
  assert (((forall k p, ~ open_at w l1 i k p) \/ cut_records !! i = Some None /\ (i ∉ written)) -> walk_inv (set_pos (snapshot_pos w + 1) w) A l0 l1 written /\ cap_inv (set_pos (snapshot_pos w + 1) w) A l1 written) as Hpass.
  { intros Hwhy. apply (pass_spec w A l0 l1 written i); [done|done|by split|done|by eapply lookup_lt_Some|done]. }
  rewrite (Probe.get_Some _ _ word) by (try lia; exact Hword). rewrite some_bind. destruct (Z.eqb_spec (ptr_of word) 0) as [E0|Hne].
  { apply Hnext; try done; apply Hpass; left; intros k p (_ & Hk & _); destruct (live_word_at _ _ _ _ _ _ _ _ _ H Hk Hword) as (E & Hp & _); congruence. }
  destruct x as [| |k p]; [by destruct Hne; eapply dead_word_at|by destruct Hne; eapply dead_word_at|]. destruct (live_word_at _ _ _ _ _ _ _ _ _ H Hx Hword) as (Eptr & _ & o & Hl & Hh & Hk & Hhash). rewrite Eptr.
  destruct (marked word) eqn:Em.
  { destruct (write_mark w A l0 l1 written i k p word false H Hx Hword) as (w1 & E1 & Ew1 & Hs1 & Ewords). rewrite Ei, E1, some_bind. pose proof (proj1 (proj2 (plain_caps _ _ (proj1 Hs1)))) as Ecap1. assert (snapshot_pos w1 = snapshot_pos w) as Ep1 by (by rewrite Ew1). apply Hnext; [cbn; lia|by rewrite Ew1|by rewrite Ew1|exact Ecap1| |].
    - apply (skip_slot w); [done|split; [apply Hs1|]; split; [apply Hs1|]; split; [apply Hs1|]; cbn; lia|]. intros j k' p'. rewrite (open_at_pos w1 l1 j k' p' i) by lia. unfold open_at. rewrite Ep1, Ewords. destruct (decide (j = i)) as [->|Hj].
      + split; [by intros [_ ?]|]. intros (_ & _ & wd & Hwd & Hmk). congruence.
      + rewrite list_lookup_insert_ne by done. split; [by intros [? _]|done].
    - unfold cap_inv, in_record in *. rewrite Ew1. cbn [snapshot_finished capture set_pos set_store handed]. rewrite Hf in *. by rewrite Ein in *. }
  assert (open_at w l1 i k p) as Ho by (split; [lia|]; split; [done|]; by exists word). destruct (open_record _ _ _ _ _ _ _ _ H Ho) as (o' & v & Hl' & _ & _ & _ & Hv & Hok & Hni & Hcut). assert (o' = o) as -> by congruence.
  rewrite Hh, some_bind, Hk, Hhash, some_bind, deadline_elapsed_eq, some_bind. destruct (elapsed (snapshot_cut_ms w) o) eqn:Ee; [apply Hnext; try done; apply Hpass; by right|].
  destruct (start_spec w A l0 l1 written i k p o false H Hc (conj Ein Hf) Ho Hl Ee ltac:(done)) as (c & hd & Es & Ha & Hrc & Hsc & H2 & Hc2). rewrite Ei, Es, some_bind. set (w1 := set_record c (Z.of_nat i) false p hd w) in *. destruct (IH b (n - 1) w1 written H2 Hc2 Hb) as (w2 & wr2 & -> & H3 & Hc3 & Hs3 & Hstrict).
  { unfold steps_left, in_record in *. cbn [capture set_record store snapshot_pos r_preimage w1]. rewrite Ha. rewrite Ein in Hfuel. lia. }
  assert (score w1 written = score w written) as Esc by (unfold score, handed_bytes; cbn; by rewrite Hsc). rewrite Esc in *. exists w2, wr2. split_and!; try done. intros Hbpos _ _. apply Hstrict; [done| |by left]. unfold is_ready. cbn [capture set_record w1]. rewrite Hrc, Er. by apply bool_decide_false; intros [? ?].
Qed.
Lemma snapshot_progress_spec b n w A l0 l1 written : walk_inv w A l0 l1 written -> cap_inv w A l1 written -> 0 <= b < 2 ^ 32 ->
  exists w' written', snapshot_progress cfg b n w = Some w' /\ walk_inv w' A l0 l1 written' /\ cap_inv w' A l1 written' /\ score w written <= score w' written' /\
    (0 < b -> n <> 0 -> is_ready w = false -> snapshot_finished w' = true \/ score w written < score w' written').
Proof.
  intros H Hc Hb. unfold snapshot_progress. rewrite (never_failed _ _ _ _ Hc). cbn [orb]. destruct (is_ready w) eqn:Er; [by exists w, written|]. destruct (progress_loop_spec (Z.to_nat (2 * (t_cap (s_t1 (store w)) - snapshot_pos w) + 3)) b n w A l0 l1 written H Hc Hb) as (w' & wr & -> & H' & Hc' & Hs & Hst); [|exists w', wr; split_and!; try done; intros; by apply Hst; auto].
  pose proof (wi_pos _ _ _ _ _ H). unfold steps_left. destruct (in_record w); [destruct (r_preimage w)|]; lia.
Qed.

(** ** What a write may do *)
Definition guarded w l1 key : Prop := forall i p, l1 !! i = Some (SLive key p) -> forall k' p', ~ open_at w l1 i k' p'.
(** The old table is left alone, or the key is removed from it. *)
Definition old_effect key l1 (ws : list Z) l1' (ws' : list Z) : Prop :=
  l1' = l1 /\ ws' = ws \/ exists i q, l1 !! i = Some (SLive key q) /\ l1' = <[i := STomb]> l1 /\ ws' = <[i := kTombBit]> ws.
Lemma write_keeps w w' A l0 l1 written A' l0' l1' : walk_inv w A l0 l1 written -> cap_inv w A l1 written -> w' = set_contents (contents w') (set_store (store w') w) ->
  inv cfg (plain (store w')) A' ∅ l0' l1' (slack w) -> same_shape (store w) (store w') -> length l1' = length l1 ->
  (forall k p o, a_live A' !! k = Some (p, o) -> exists v, contents w' !! p = Some v /\ value_ok v) ->
  (forall i k p, open_at w' l1' i k p -> open_at w l1 i k p /\ a_live A' !! k = a_live A !! k /\ contents w' !! p = contents w !! p) ->
  (forall i k p r, open_at w l1 i k p -> cut_records !! i = Some (Some r) -> open_at w' l1' i k p /\ a_live A' !! k = a_live A !! k /\ contents w' !! p = contents w !! p) ->
  walk_inv w' A' l0' l1' written /\ cap_inv w' A' l1' written.
Proof.
  intros H Hc Ew Hi (C0 & C1 & Cp & _) Hlen Hval Hback Hforth. assert (snapshot_pos w' = snapshot_pos w /\ snapshot_cut_ms w' = snapshot_cut_ms w /\ capture w' = capture w /\ r_slot w' = r_slot w /\ r_preimage w' = r_preimage w /\ r_object w' = r_object w /\ r_header w' = r_header w /\ snapshot_finished w' = snapshot_finished w /\ handed w' = handed w) as (E1 & E2 & E3 & E4 & E5 & E6 & E7 & E8 & E9) by (rewrite Ew; done).
  split.
  - pose proof H as []. split; try done.
    + unfold slack in *. by rewrite C0, C1.
    + unfold rehashing in *. by rewrite C1.
    + by rewrite Cp.
    + by rewrite Hlen.
    + by rewrite E1, C1.
    + intros i k p Ho. destruct (Hback i k p Ho) as (Ho1 & EA & EC). destruct (wi_open0 i k p Ho1) as [Hcut Hn]. split; [|done]. rewrite Hcut, E2. f_equal. unfold key_record. rewrite EA. destruct (open_record _ _ _ _ _ _ _ _ H Ho1) as (o & v & Hl & _). rewrite Hl. cbn. by rewrite EC.
    + intros i r Hr. destruct (wi_closed0 i r Hr) as [|(k & p & Ho)]; [by left|right; exists k, p; by apply (Hforth i k p r)].
  - unfold cap_inv, in_record in *. rewrite E8, E3, E1, E9, C1. destruct (snapshot_finished w); [exact Hc|]. destruct Hc as (Ht & Hfull & Hrest). split; [done|]. split; [done|]. destruct (active (rec (capture w))); [|done].
    destruct Hrest as (i & k & p & o & v & n & St & R1 & R2 & R3 & R4 & R5 & R6 & R7 & R8 & R9). destruct (open_record _ _ _ _ _ _ _ _ H R3) as (o' & v' & Hl' & _ & _ & _ & _ & _ & _ & Hcut). assert (o' = o) as -> by congruence. rewrite R7 in Hcut. destruct (Hforth i k p _ R3 Hcut) as (Ho' & EA & EC).
    exists i, k, p, o, v, n, St. unfold recording. rewrite E1, E2, E4, E5, E6, E7, E9, E3, EA, EC. split_and!; try done; apply R9.
Qed.
Lemma write_effect w w' A l0 l1 written A' l0' l1' key : walk_inv w A l0 l1 written -> cap_inv w A l1 written -> w' = set_contents (contents w') (set_store (store w') w) ->
  inv cfg (plain (store w')) A' ∅ l0' l1' (slack w) -> same_shape (store w) (store w') -> guarded w l1 key -> old_effect key l1 (words w) l1' (words w') ->
  (forall k p o, a_live A' !! k = Some (p, o) -> exists v, contents w' !! p = Some v /\ value_ok v) ->
  (forall k, k <> key -> a_live A' !! k = a_live A !! k) -> (forall k p o, k <> key -> a_live A !! k = Some (p, o) -> contents w' !! p = contents w !! p) ->
  walk_inv w' A' l0' l1' written /\ cap_inv w' A' l1' written.
Proof.
  intros H Hc Ew Hi Hs Hg Heff Hval HA HC. assert (snapshot_pos w' = snapshot_pos w) as Ep by (rewrite Ew; done). pose proof (old_tab _ _ _ _ _ H) as (_ & _ & _ & _ & [Hu _] & _).
  assert (forall i k p, open_at w l1 i k p -> k <> key /\ a_live A' !! k = a_live A !! k /\ contents w' !! p = contents w !! p) as Hother.
  { intros i k p Ho. assert (k <> key) as Hk by (intros ->; apply (Hg i p (proj1 (proj2 Ho)) _ _ Ho)). destruct (open_record _ _ _ _ _ _ _ _ H Ho) as (o & v & Hl & _). split; [done|]. split; [by apply HA|by eapply HC]. }
  apply (write_keeps w w' A l0 l1 written A' l0' l1'); try done.
  - destruct Heff as [[-> _]|(i & q & _ & -> & _)]; [done|apply length_insert].
  - intros i k p Ho. assert (open_at w l1 i k p) as Ho1; [|by destruct (Hother _ _ _ Ho1)]. unfold open_at in *. rewrite Ep in Ho. destruct Ho as (Hge & Hx & word & Hw & Hm). destruct Heff as [[E3 E4]|(j & q & Hj & E3 & E4)]; rewrite E3 in Hx; rewrite E4 in Hw; [split; [done|]; split; [done|]; by exists word|]. destruct (decide (i = j)) as [->|Hne]; [rewrite list_lookup_insert_eq in Hx by (by eapply lookup_lt_Some); done|]. rewrite list_lookup_insert_ne in Hx by done. rewrite list_lookup_insert_ne in Hw by done. split; [done|]. split; [done|]. by exists word.
  - intros i k p r Ho _. destruct (Hother _ _ _ Ho) as (Hk & E1 & E2). split; [|done]. unfold open_at in *. rewrite Ep. destruct Heff as [[-> ->]|(j & q & Hj & -> & ->)]; [done|]. destruct Ho as (Hge & Hx & word & Hw & Hm). assert (i <> j) as Hne by (intros ->; congruence). rewrite !list_lookup_insert_ne by done. split; [done|]. split; [done|]. by exists word.
Qed.
Lemma take_bytes w : handed_bytes (handed (take_chunk w), capture (take_chunk w)) = handed_bytes (handed w, capture w).
Proof. unfold take_chunk, snapshot_take_chunk, handed_bytes, stream. cbn. rewrite concat_app. destruct (ready (capture w)); cbn; by rewrite ?app_nil_r, <- ?app_assoc. Qed.
Lemma take_spec w A l0 l1 written : walk_inv w A l0 l1 written -> cap_inv w A l1 written -> walk_inv (take_chunk w) A l0 l1 written /\ cap_inv (take_chunk w) A l1 written.
Proof.
  intros H Hc. pose proof (take_bytes w) as Eb. unfold take_chunk, snapshot_take_chunk in *. split; [by apply (skip_same w)|]. unfold cap_inv, in_record in *. cbn [snapshot_finished capture handed store snapshot_pos rec failed build ready option_list]. destruct (snapshot_finished w).
  - destruct Hc as (H1 & H2 & H3 & H4 & H5 & front & last & H6 & H7 & H8). split_and!; try done; [|exists front, last; by rewrite app_nil_r]. rewrite <- H5. exact Eb.
  - destruct Hc as ((T1 & T2 & T3) & Hfull & Hrest). split; [done|]. assert (Forall full_chunk (handed w ++ option_list (ready (capture w)))) as Hf2 by (apply Forall_app; split; [done|]; destruct (ready (capture w)); repeat constructor; done). split; [done|]. destruct (active (rec (capture w))) eqn:Ea.
    + destruct Hrest as (i & k & p & o & v & n & St & R1 & R2 & R3 & R4 & R5 & R6 & R7 & R8 & R9). exists i, k, p, o, v, n, St. cbn. do 8 (split; [done|]). exact (proj1 (take_chunk_captured _ _ _ _ _ _ _ _ R9)).
    + rewrite <- Hrest. exact Eb.
Qed.

(** ** Preparing a write *)
Lemma no_open w A l0 l1 written key : walk_inv w A l0 l1 written -> slots_map l1 !! key = None -> guarded w l1 key.
Proof.
  intros H Hn i p Hx. destruct (old_tab _ _ _ _ _ H) as (_ & _ & _ & _ & [Hu _] & _). assert (slots_map l1 !! key = Some p) as E by (apply slots_map_spec; eauto). congruence.
Qed.
Lemma new_not_old w A l0 l1 written key q : walk_inv w A l0 l1 written -> slots_map l0 !! key = Some q -> slots_map l1 !! key = None.
Proof. intros H Hq. by eapply map_disjoint_Some_l; [apply (t_disj _ _ _ _ _ (i_tabs _ _ _ _ _ _ _ (wi_store _ _ _ _ _ H)))|]. Qed.
Lemma find_new w A l0 l1 written key h : walk_inv w A l0 l1 written -> key_ok cfg key h -> find_in (store w) false h key = Some (slots_map l0 !! key).
Proof. intros H Hk. rewrite <- find_in_plain. apply (find_in_spec cfg); [right; apply (i_tabs _ _ _ _ _ _ _ (wi_store _ _ _ _ _ H))|apply Hk|apply Hk]. Qed.
Lemma find_old w A l0 l1 written key h : walk_inv w A l0 l1 written -> key_ok cfg key h -> exists r, find_slot_in (store w) true h key = Some r /\ found l1 key r.
Proof. intros H Hk. rewrite <- find_slot_plain. apply (find_slot_spec cfg); [right; apply (old_tab _ _ _ _ _ H)|apply Hk|apply Hk]. Qed.
Lemma guarded_slot w A l0 l1 written key i p : walk_inv w A l0 l1 written -> l1 !! i = Some (SLive key p) -> (forall k p, ~ open_at w l1 i k p) -> guarded w l1 key.
Proof.
  intros H Hx Hno j q Hj. destruct (old_tab _ _ _ _ _ H) as (_ & _ & _ & _ & [Hu _] & _). by rewrite (Hu j i key q p Hj Hx).
Qed.
Lemma prepare_spec w A l0 l1 key h : walks w A l0 l1 -> key_ok cfg key h ->
  exists r w', snapshot_prepare_write w h key = Some (r, w') /\ walks w' A l0 l1 /\ plain (store w') = plain (store w) /\ contents w' = contents w /\ r <> Error /\ (r = Ready -> guarded w' l1 key).
Proof.
  intros (written & H & Hc) Hk. unfold snapshot_prepare_write. rewrite (never_failed _ _ _ _ Hc), (find_new _ _ _ _ _ _ _ H Hk), some_bind. destruct (slots_map l0 !! key) as [q|] eqn:E0.
  { rewrite bool_decide_true by done. exists Ready, w. split; [done|]. split; [by exists written|]. split_and!; try done. intros _. eapply no_open; [done|]. by eapply new_not_old. }
  rewrite bool_decide_false by (by intros [? ?]). destruct (find_old _ _ _ _ _ _ _ H Hk) as (r & -> & Hf). rewrite some_bind. destruct r as [[slot p]|]; cbn [found] in Hf.
  2:{ exists Ready, w. split; [done|]. split; [by exists written|]. split_and!; try done. intros _. by eapply no_open. }
  destruct Hf as (Hslot & Hx & _). set (i := Z.to_nat slot) in *. assert (slot = Z.of_nat i) as Es by lia. destruct (word_exists _ _ _ _ _ _ _ H Hx) as [word Hword]. rewrite (Probe.get_Some _ _ word) by (try lia; exact Hword). rewrite some_bind.
  destruct (_ || _) eqn:Epast.
  { exists Ready, w. split; [done|]. split; [by exists written|]. split_and!; try done. intros _. apply (guarded_slot w A l0 l1 written key i p); [done|done|]. intros k' p' (Hge & _ & word' & Hw' & Hm). apply orb_prop in Epast as [Elt|Em]; [zcmp; lia|congruence]. }
  apply orb_false_iff in Epast as [Ege Em]. zcmp. assert (open_at w l1 i key p) as Ho by (split; [lia|]; split; [done|]; by exists word). destruct (open_record _ _ _ _ _ _ _ _ H Ho) as (o & v & Hl & Hh & _ & _ & _ & _ & Hni & Hcut). rewrite Hh, some_bind, deadline_elapsed_eq, some_bind.
  destruct (elapsed (snapshot_cut_ms w) o) eqn:Ee.
  { rewrite Es. destruct (mark_slot_spec w A l0 l1 written i key p word H Hx Hword) as (w' & -> & Ew & Hs & Hopen & _). rewrite some_bind. exists Ready, w'. split; [done|]. pose proof (close_slot w w' A l0 l1 written i None H Hs Hopen Hcut Hni) as H'. cbv iota in H'. split; [|split_and!; [apply Hs|apply Hs|done|]].
    - exists written. assert (same_shape (store w) (store w')) as Hsh.
      { pose proof (proj1 Hs) as Ep. destruct (plain_caps _ _ Ep) as (C0 & C1 & Cp & _). split_and!; try done; [exact (f_equal (fun x => t_mask (s_t0 x)) Ep)|exact (f_equal (fun x => t_mask (s_t1 x)) Ep)]. }
      assert (contents w' = contents w) as Ec by apply Hs. apply (write_keeps w w' A l0 l1 written A l0 l1); try done; [by rewrite Ew|rewrite (proj1 Hs); apply H|rewrite Ec; apply H|by intros j k' p' [? _]%Hopen; rewrite Ec|]. intros j k' p' r Hoj Hr. rewrite Ec. split; [|done]. apply Hopen. split; [done|]. intros ->. congruence.
    - intros _. apply (guarded_slot w' A l0 l1 written key i p H' Hx). intros k' p' [_ ?]%Hopen. done. }
  destruct (in_record w) eqn:Ein.
  { exists Pending, w. split; [done|]. split; [by exists written|]. by split_and!. }
  assert (snapshot_finished w = false) as Hfin. { destruct (snapshot_finished w) eqn:E; [|done]. unfold cap_inv in Hc. rewrite E in Hc. destruct Hc as (_ & _ & Ep & _). pose proof (lookup_lt_Some _ _ _ Hx). destruct (old_shape _ _ _ _ _ H). lia. }
  destruct (start_spec w A l0 l1 written i key p o true H Hc (conj Ein Hfin) Ho Hl Ee ltac:(done)) as (c & hd & Est & _ & _ & _ & H2 & Hc2). rewrite Es, Est, some_bind. eexists Pending, _. split; [done|]. split; [by exists written|]. by split_and!.
Qed.

(** ** The store operations during a capture *)
Lemma untrack_tabs s h s' : untrack_expire s h = Some s' -> s_t0 s' = s_t0 s /\ s_t1 s' = s_t1 s.
Proof. unfold untrack_expire. destruct (e_erase (s_exp s) h) as [[e b]|]; [|done]. by intros [= <-]. Qed.
Lemma track_tabs memi s h o s' : track_expire false memi s h o = Some s' -> s_t1 s' = s_t1 s.
Proof.
  unfold track_expire. destruct (0 <=? expire_at_ms o).
  - destruct (e_insert memi false (s_exp s) h (expire_at_ms o)) as [[e ok]|]; [|done]. rewrite some_bind. destruct ok; by intros [= <-].
  - destruct (e_size (s_exp s) =? 0); [by intros [= <-]|]. intros E. by apply untrack_tabs in E as [_ E].
Qed.
Lemma retire_tabs s p s' : retire_obj s p = Some s' -> s_t0 s' = s_t0 s /\ s_t1 s' = s_t1 s.
Proof.
  unfold retire_obj. destruct (s_heap s !! p) as [o|]; [|done]. rewrite some_bind. destruct (r_outstanding (s_reg s) =? 0); [destruct (kvobj_free (s_heap s) p); [|done]; by intros [= <-]|].
  destruct (match o_value o with Some v => _ | None => _ end) as [[r lent]|]; [|done]. rewrite some_bind. destruct lent; [by intros [= <-]|]. destruct (kvobj_free (s_heap s) p); [|done]. by intros [= <-].
Qed.
Lemma insert_tabs memi s h p s' ok : insert_into false memi s false h p true = Some (s', ok) -> s_t1 s' = s_t1 s.
Proof.
  unfold insert_into. destruct (s_heap s !! p) as [o|]; [|done]. rewrite some_bind. destruct (insert_probe _ _ _ _ _ _ _) as [[i tomb|i q|]|]; [| |by intros [= <- _]|done]; rewrite some_bind.
  - destruct (make_word (tag_of h) p) as [w|]; [|done]. rewrite some_bind. destruct (Probe.put _ i w) as [ws|]; [|done]. rewrite some_bind. destruct (track_expire _ _ _ _ _) as [s1|] eqn:E; [|done]. rewrite some_bind. intros [= <- _]. by apply track_tabs in E.
  - destruct (s_heap s !! q) as [c|]; [|done]. rewrite some_bind, deadline_elapsed_eq, some_bind. destruct (track_expire _ _ _ _ _) as [s1|] eqn:E; [|done]. rewrite some_bind. destruct (retire_obj s1 q) as [s2|] eqn:E2; [|done]. rewrite some_bind. destruct (make_word (tag_of h) p) as [w|]; [|done]. rewrite some_bind.
    destruct (Probe.put _ i w) as [ws|]; [|done]. rewrite some_bind. intros [= <- _]. apply track_tabs in E. apply retire_tabs in E2 as [_ E2]. cbn. rewrite E2, E. by destruct (elapsed _ _).
Qed.
Lemma erase_tabs s b h key s' e : erase_in false s b h key = Some (s', true, e) -> exists i p, find_slot_in s b h key = Some (Some (i, p)) /\
  if b then 0 <= i /\ t_words (s_t1 s') = <[Z.to_nat i := kTombBit]> (t_words (s_t1 s)) else s_t1 s' = s_t1 s.
Proof.
  unfold erase_in. destruct (find_slot_in s b h key) as [[[i p]|]|]; [|done|done]. rewrite some_bind. destruct (s_heap s !! p) as [o|]; [|done]. rewrite some_bind, deadline_elapsed_eq, some_bind. destruct (untrack_expire s h) as [s1|] eqn:E1; [|done]. rewrite some_bind. destruct (retire_obj s1 p) as [s2|] eqn:E2; [|done]. rewrite some_bind.
  apply untrack_tabs in E1 as [_ E1]. apply retire_tabs in E2 as [_ E2]. unfold Probe.put. destruct ((0 <=? i) && (i <? _)) eqn:Eb; [|done]. rewrite some_bind. intros [= <- _]. exists i, p. split; [done|]. destruct b; cbn; [|congruence]. apply andb_prop in Eb as [Eb _]. zcmp. split; [done|]. by rewrite E2, E1.
Qed.
Lemma erase_effect s A X l0 l1 n (b : bool) key h : inv cfg (plain s) A X l0 l1 n -> key_ok cfg key h ->
  match slots_map (if b then l1 else l0) !! key with
  | None => erase_in false s b h key = Some (s, false, false)
  | Some p => exists s' e l0' l1', erase_in false s b h key = Some (s', true, e) /\ inv cfg (plain s') (a_remove A key) X l0' l1' n /\ same_shape s s' /\
      if b then l0' = l0 /\ exists i, l1 !! i = Some (SLive key p) /\ l1' = <[i := STomb]> l1 /\ t_words (s_t1 s') = <[i := kTombBit]> (t_words (s_t1 s))
      else l1' = l1 /\ s_t1 s' = s_t1 s
  end.
Proof.
  intros Hi Hk. pose proof (erase_in_at cfg (plain s) A X l0 l1 n b key h Hi Hk) as He. destruct (slots_map (if b then l1 else l0) !! key) as [p|] eqn:Em.
  - destruct He as (o & s1 & i & Ho & Hx & E & Hi' & Hs). rewrite erase_in_plain in E. apply fmap_Some in E as ([[s' r] e] & E & Eq). unfold plain3 in Eq. cbn in Eq. injection Eq as -> <- <-. exists s', (elapsed (a_now A) o). destruct (erase_tabs s b h key s' _ E) as (j & q & Ef & Ht). destruct b; cbn [buried tabs_of fst snd] in Hi'.
    + exists l0, (<[i := STomb]> l1). split; [done|]. split; [done|]. split; [exact Hs|]. split; [done|]. exists i. split; [done|]. split; [done|]. destruct Ht as [Hj ->]. f_equal.
      destruct (find_slot_spec cfg (plain s) true l1 key h) as (r & Ef' & Hf); [apply (t_old _ _ _ _ _ (i_tabs _ _ _ _ _ _ _ Hi))|apply Hk|apply Hk|]. rewrite find_slot_plain, Ef in Ef'. injection Ef' as <-. destruct Hf as (_ & Hq & _). destruct (t_old _ _ _ _ _ (i_tabs _ _ _ _ _ _ _ Hi)) as [[_ ->]|(_ & _ & _ & _ & [Hu _] & _)]; [done|]. by apply (Hu _ _ key q p).
    + exists (<[i := STomb]> l0), l1. split; [done|]. split; [done|]. split; [exact Hs|]. done.
  - destruct (find_slot_spec cfg (plain s) b (if b then l1 else l0) key h) as (r & Ef & Hf); [destruct b; [|right]; apply (i_tabs _ _ _ _ _ _ _ Hi)|apply Hk|apply Hk|]. rewrite find_slot_plain in Ef. unfold erase_in. rewrite Ef, some_bind. destruct r as [[i p]|]; [|done]. destruct Hf as (_ & _ & Hf). congruence.
Qed.
Lemma plain_count s : plain (count_expired s) = count_expired (plain s).
Proof. done. Qed.
Lemma effect_none key l1 (ws : list Z) : old_effect key l1 ws l1 ws.
Proof. by left. Qed.
Lemma erase_capturing_spec s A l0 l1 n key h : inv cfg (plain s) A ∅ l0 l1 n -> key_ok cfg key h ->
  exists s' ok A' l0' l1', erase_capturing s h key = Some (s', ok) /\ inv cfg (plain s') A' ∅ l0' l1' n /\ same_shape s s' /\ old_effect key l1 (t_words (s_t1 s)) l1' (t_words (s_t1 s')) /\ a_live A' = delete key (a_live A).
Proof.
  intros Hi Hk. unfold erase_capturing. pose proof (erase_effect s A ∅ l0 l1 n false key h Hi Hk) as E0. cbv iota in E0. pose proof (live_table cfg _ _ _ _ _ _ key Hi) as Hlive. destruct (slots_map l0 !! key) as [p|].
  - destruct E0 as (s' & e & l0' & l1' & -> & Hi' & Hs & -> & Et). rewrite some_bind. exists (if e then count_expired s' else s'), (negb e), (if e then bump_expired (a_remove A key) else a_remove A key), l0', l1. split; [done|]. split; [destruct e; [by apply (inv_count cfg (plain s'))|done]|]. split; [by destruct e|]. split; [destruct e; cbn; rewrite Et; apply effect_none|]. rewrite <- a_remove_live. by destruct e.
  - rewrite E0, some_bind. pose proof (erase_effect s A ∅ l0 l1 n true key h Hi Hk) as E1. cbv iota in E1. destruct (slots_map l1 !! key) as [p|].
    + destruct E1 as (s' & e & l0' & l1' & -> & Hi' & Hs & -> & i & Hx & -> & Et). rewrite some_bind. exists (if e then count_expired s' else s'), (negb e), (if e then bump_expired (a_remove A key) else a_remove A key), l0, (<[i := STomb]> l1). split; [done|]. split; [destruct e; [by apply (inv_count cfg (plain s'))|done]|]. split; [by destruct e|]. split; [right; exists i, p; split; [done|]; split; [done|]; by destruct e|]. rewrite <- a_remove_live. by destruct e.
    + rewrite E1, some_bind. exists s, false, A, l0, l1. split; [done|]. split; [done|]. split; [done|]. split; [apply effect_none|]. rewrite delete_id; [done|]. by destruct (a_live A !! key).
Qed.
Lemma load_slack s d : rehashing s = true -> s_pos s = 0 -> load s ((5 * t_cap (s_t0 s) - t_cap (s_t1 s)) / 8 - t_cap (s_t0 s) + 1 + d) <-> t_live (s_t0 s) + t_tombs (s_t0 s) + t_live (s_t1 s) + d < t_cap (s_t0 s).
Proof.
  intros Hr Hp. unfold load. rewrite Hr, Hp. pose proof (Z.div_mod (5 * t_cap (s_t0 s) - t_cap (s_t1 s)) 8 ltac:(lia)). pose proof (Z.mod_pos_bound (5 * t_cap (s_t0 s) - t_cap (s_t1 s)) 8 ltac:(lia)). lia.
Qed.
Lemma inv_reload s A X l0 l1 n m : inv cfg s A X l0 l1 n -> load s m -> inv cfg s A X l0 l1 m.
Proof. intros [] Hl. by split. Qed.
Lemma a_insert_live A p o : a_live (a_insert A p o) = <[o_key o := (p, o)]> (a_live A).
Proof.
  unfold a_insert. cbn. rewrite a_remove_live, insert_delete_eq. f_equal. destruct (a_live A !! o_key o) as [[q c]|]; [|done]. by destruct (elapsed (a_now A) c).
Qed.
(** The object goes into the new table, and the copy of its key in the old one, if any, is gone. *)
Lemma insert_place_new memi s A l0 l1 n h p o : inv cfg (plain s) A {[p := o]} l0 l1 (n + 1) -> rehashing s = true -> s_pos s = 0 -> n = (5 * t_cap (s_t0 s) - t_cap (s_t1 s)) / 8 - t_cap (s_t0 s) + 1 ->
  key_ok cfg (o_key o) h -> addr_ok p -> slots_map l0 !! o_key o = None -> slots_map l1 !! o_key o = None -> Z.of_nat (size (a_live A)) < 2 ^ 29 ->
  exists s' l0', insert_into false memi s false h p true = Some (s', true) /\ inv cfg (plain s') (a_publish A p o) ∅ l0' l1 n /\ same_shape s s' /\ s_t1 s' = s_t1 s.
Proof.
  intros Hi Hr Hp En Hk Ha H0 H1 Hsz. pose proof (i_load _ _ _ _ _ _ _ Hi) as Hl. rewrite En in Hl. apply (load_slack (plain s) 1 Hr Hp) in Hl. pose proof (tab_bounds _ _ _ _ (rehashing_old cfg _ _ _ _ _ _ Hi Hr)) as (_ & Hl1 & _).
  destruct (insert_room cfg memi (plain s) A ∅ l0 l1 (n + 1) p o h Hi) as (s1 & l0' & E & Hi' & _ & Ec & Ep); try done; [cbn [plain set_tabs s_t0 s_t1] in *; lia|]. rewrite insert_into_plain in E. apply fmap_Some in E as ([s' ok] & E & Eq). unfold plain2 in Eq. injection Eq as -> <-. pose proof (insert_tabs _ _ _ _ _ _ E) as Et. exists s', l0'. split; [done|]. split; [by replace (n + 1 - 1) with n in Hi' by lia|]. split; [|done].
  pose proof (t_new _ _ _ _ _ (i_tabs _ _ _ _ _ _ _ Hi)) as (_ & _ & M0 & _). pose proof (t_new _ _ _ _ _ (i_tabs _ _ _ _ _ _ _ Hi')) as (_ & _ & M1 & _). cbn in *. split_and!; congruence.
Qed.
Lemma insert_capturing_spec memi s A l0 l1 n h p o : inv cfg (plain s) A {[p := o]} l0 l1 n -> rehashing s = true -> s_pos s = 0 -> n = (5 * t_cap (s_t0 s) - t_cap (s_t1 s)) / 8 - t_cap (s_t0 s) + 1 ->
  key_ok cfg (o_key o) h -> addr_ok p -> Z.of_nat (size (a_live A)) < 2 ^ 29 ->
  exists s' r, insert_capturing memi s h p = Some (s', r) /\
    match r with
    | Failed => s' = s
    | Inserted => exists A' l0' l1', inv cfg (plain s') A' ∅ l0' l1' n /\ same_shape s s' /\ old_effect (o_key o) l1 (t_words (s_t1 s)) l1' (t_words (s_t1 s')) /\ a_live A' = <[o_key o := (p, o)]> (a_live A)
    end.
Proof.
  intros Hi Hr Hp En Hk Ha Hsz. unfold insert_capturing. pose proof (caller_heap cfg _ _ ∅ _ _ _ _ _ Hi) as Hh. cbn [plain set_tabs s_heap] in Hh. rewrite Hh, some_bind. pose proof (i_tabs _ _ _ _ _ _ _ Hi) as HT. pose proof (rehashing_old cfg _ _ _ _ _ _ Hi Hr) as Told.
  rewrite <- (find_in_plain s false), <- (find_in_plain s true). rewrite (find_in_spec cfg (plain s) false l0) by (apply Hk || (right; apply HT)). rewrite (find_in_spec cfg (plain s) true l1) by (apply Hk || apply HT). rewrite !some_bind.
  pose proof (i_load _ _ _ _ _ _ _ Hi) as Hl. rewrite En, <- (Z.add_0_r (_ + 1)) in Hl. apply (load_slack (plain s) 0 Hr Hp) in Hl. cbn [plain set_tabs s_t0 s_t1 unmark_tab t_live t_tombs t_cap] in Hl. pose proof (erase_effect s A {[p := o]} l0 l1 n true (o_key o) h Hi Hk) as He. cbv iota in He.
  destruct (slots_map l0 !! o_key o) as [q|] eqn:E0.
  { rewrite (bool_decide_true (is_Some (Some q))) by done. cbn [orb negb andb]. assert (slots_map l1 !! o_key o = None) as E1 by (eapply map_disjoint_Some_l; [apply HT|done]). rewrite E1 in He. rewrite He, some_bind. cbn [andb]. destruct (insert_over cfg memi (plain s) A ∅ l0 l1 n p o h q Hi (lookup_empty _) Hk Ha E0 Hsz) as (s1 & l0' & E & Hi' & _ & Ec & Ep). rewrite insert_into_plain in E. apply fmap_Some in E as ([s' ok] & E & Eq). unfold plain2 in Eq. injection Eq as -> <-. rewrite E, some_bind. exists s', Inserted. split; [done|].
    pose proof (insert_tabs _ _ _ _ _ _ E) as Et. exists (a_insert A p o), l0', l1. split; [done|]. split; [|split; [rewrite Et; apply effect_none|apply a_insert_live]]. pose proof (t_new _ _ _ _ _ HT) as (_ & _ & M0 & _). pose proof (t_new _ _ _ _ _ (i_tabs _ _ _ _ _ _ _ Hi')) as (_ & _ & M1 & _). cbn in *. split_and!; congruence. }
  rewrite (bool_decide_false (is_Some (@None Z))) by (by intros [? ?]). cbn [orb]. destruct (slots_map l1 !! o_key o) as [q|] eqn:E1.
  - rewrite (bool_decide_true (is_Some (Some q))) by done. cbn [negb andb]. destruct He as (s1 & e & l0' & l1' & -> & Hi1 & Hs1 & -> & i & Hx & El1 & Ew1). rewrite some_bind. cbn [andb].
    set (s2 := if e then count_expired s1 else s1). set (A2 := if e then bump_expired (a_remove A (o_key o)) else a_remove A (o_key o)). assert (inv cfg (plain s2) A2 {[p := o]} l0 l1' n) as Hi2 by (unfold s2, A2; destruct e; [by apply (inv_count cfg (plain s1))|done]). assert (same_shape s s2) as Hs2 by (unfold s2; by destruct e). assert (a_live A2 = delete (o_key o) (a_live A)) as EA by (rewrite <- a_remove_live; unfold A2; by destruct e).
    pose proof Hs2 as (C0 & C1 & Cp & _). assert (rehashing s2 = true) as Hr2 by (unfold rehashing in *; by rewrite C1). assert (n = (5 * t_cap (s_t0 s2) - t_cap (s_t1 s2)) / 8 - t_cap (s_t0 s2) + 1) as En2 by (by rewrite C0, C1).
    assert (inv cfg (plain s2) A2 {[p := o]} l0 l1' (n + 1)) as Hi3.
    { eapply inv_reload; [exact Hi2|]. rewrite En2. apply (load_slack (plain s2) 1 Hr2); [cbn; by rewrite Cp|]. pose proof Told as (_ & _ & _ & _ & _ & L1 & _). pose proof (rehashing_old cfg _ _ _ _ _ _ Hi2 Hr2) as (_ & _ & _ & _ & _ & L2 & _). pose proof (t_new _ _ _ _ _ HT) as (_ & _ & _ & _ & _ & N1 & N2 & _). pose proof (t_new _ _ _ _ _ (i_tabs _ _ _ _ _ _ _ Hi2)) as (_ & _ & _ & _ & _ & N3 & N4 & _).
      rewrite El1, (count_if_insert is_live l1 i STomb (SLive (o_key o) q)) in L2 by done. cbn [plain set_tabs s_t0 s_t1 unmark_tab t_live t_tombs t_cap is_live Z.b2z] in *. lia. }
    assert (slots_map l1' !! o_key o = None) as E2. { pose proof (live_table cfg _ _ _ _ _ _ (o_key o) Hi2) as E. rewrite EA, lookup_delete_eq, E0 in E. cbn in E. done. }
    destruct (insert_place_new memi s2 A2 l0 l1' n h p o Hi3 Hr2) as (s' & l0' & -> & Hi' & Hs' & Et); try done; [by rewrite Cp|rewrite EA; destruct (table_live cfg _ _ _ _ _ _ true _ _ Hi E1) as [c Hc]; rewrite map_size_delete, Hc; lia|]. rewrite some_bind. exists s', Inserted. split; [done|]. exists (a_publish A2 p o), l0', l1'. split; [done|].
    split; [destruct Hs' as (D0 & D1 & Dp & D2 & D3); destruct Hs2 as (? & ? & ? & F2 & F3); split_and!; congruence|]. split; [right; exists i, q; split; [done|]; split; [done|]; rewrite Et; unfold s2; by destruct e|]. cbn. by rewrite EA, insert_delete_eq.
  - rewrite (bool_decide_false (is_Some (@None Z))) by (by intros [? ?]). cbn [negb andb]. destruct (Z.leb_spec (t_cap (s_t0 s)) (t_live (s_t0 s) + t_tombs (s_t0 s) + t_live (s_t1 s) + 1)); [exists s, Failed; done|]. rewrite He, some_bind. cbn [andb].
    assert (inv cfg (plain s) A {[p := o]} l0 l1 (n + 1)) as Hi3 by (eapply inv_reload; [exact Hi|]; rewrite En; apply (load_slack (plain s) 1 Hr Hp); cbn; lia).
    destruct (insert_place_new memi s A l0 l1 n h p o Hi3 Hr Hp En) as (s' & l0' & -> & Hi' & Hs' & Et); try done. rewrite some_bind. exists s', Inserted. split; [done|]. exists (a_publish A p o), l0', l1. split; [done|]. split; [done|]. split; [rewrite Et; apply effect_none|done].
Qed.
Lemma find_capturing_spec s A l0 l1 n key h : inv cfg (plain s) A ∅ l0 l1 n -> rehashing s = true -> key_ok cfg key h ->
  exists s' r, find_capturing s h key = Some (s', r) /\
    (s' = s \/ exists A' l0' p, inv cfg (plain s') A' ∅ l0' l1 n /\ same_shape s s' /\ s_t1 s' = s_t1 s /\ slots_map l0 !! key = Some p /\ a_live A' = delete key (a_live A)).
Proof.
  intros Hi Hr Hk. unfold find_capturing. pose proof (i_tabs _ _ _ _ _ _ _ Hi) as HT. rewrite <- (find_in_plain s false). rewrite (find_in_spec cfg (plain s) false l0) by (apply Hk || (right; apply HT)). rewrite some_bind.
  assert (forall p, slots_map l1 !! key = Some p -> exists o, s_heap s !! p = Some o) as Hheap by (intros p Hp; destruct (table_live cfg _ _ _ _ _ _ true _ _ Hi Hp) as [o Ho]; exists o; exact (live_heap _ _ _ _ _ _ _ _ _ (i_mem _ _ _ _ _ _ _ Hi) Ho)).
  assert (exists r, (r0 ← find_in s true h key; match r0 with None => Some (s, None) | Some p => o ← s_heap s !! p; if negb (o_slot o) then Some (s, Some p) else at_ ← FlatStore.deadline false s h o; Some (s, if (at_ <? 0) || (s_now s <? at_) then Some p else None) end) = Some (s, r)) as [rold Hold].
  { rewrite <- (find_in_plain s true). rewrite (find_in_spec cfg (plain s) true l1) by (apply Hk || apply HT). rewrite some_bind. destruct (slots_map l1 !! key) as [p|] eqn:E; [|by eexists]. destruct (Hheap p eq_refl) as [o ->]. rewrite some_bind. destruct (negb (o_slot o)); [by eexists|]. rewrite deadline_eq, some_bind. by eexists. }
  destruct (slots_map l0 !! key) as [p|] eqn:E0.
  2:{ rewrite some_bind, (bool_decide_false (is_Some (@None Z))) by (by intros [? ?]). exists s, rold. split; [exact Hold|by left]. }
  destruct (table_live cfg _ _ _ _ _ _ false _ _ Hi E0) as [o Ho]. pose proof (live_heap _ _ _ _ _ _ _ _ _ (i_mem _ _ _ _ _ _ _ Hi) Ho) as Hh. cbn [plain set_tabs s_heap] in Hh. unfold live_or_expire. rewrite Hh, some_bind. destruct (negb (o_slot o)).
  { rewrite some_bind, bool_decide_true by done. exists s, (Some p). split; [done|by left]. }
  rewrite deadline_eq, some_bind. destruct (_ || _).
  { rewrite some_bind, bool_decide_true by done. exists s, (Some p). split; [done|by left]. }
  pose proof (erase_effect (record_delete s key) (with_aof A key) ∅ l0 l1 n false key h (inv_record cfg (plain s) A ∅ l0 l1 n key Hi) Hk) as He. cbv iota in He. rewrite E0 in He. destruct He as (s1 & e & l0' & l1' & -> & Hi1 & Hs1 & -> & Et). rewrite !some_bind, (bool_decide_false (is_Some (@None Z))) by (by intros [? ?]).
  change (find_in (count_expired s1) true h key) with (find_in s1 true h key). rewrite <- (find_in_plain s1 true). rewrite (find_in_spec cfg (plain s1) true l1) by (apply Hk || apply (i_tabs _ _ _ _ _ _ _ Hi1)). assert (slots_map l1 !! key = None) as -> by (eapply map_disjoint_Some_l; [apply HT|done]). rewrite some_bind. exists (count_expired s1), None. split; [done|]. right.
  exists (bump_expired (a_remove (with_aof A key) key)), l0', p. split; [by apply (inv_count cfg (plain s1))|]. split; [done|]. split; [done|]. split; [done|]. cbn. by rewrite a_remove_live.
Qed.

(** ** Every action *)
(** What the environment owes: budgets of 32 bits, keys with their hash, fresh addresses, values within
    the limits of the format, fewer than 2^29 keys. *)
Definition act_ok w (a : WalkAct) : Prop :=
  match a with
  | Step b _ => 0 <= b < 2 ^ 32
  | Take | Now _ => True
  | Find h key | Erase h key => key_ok cfg key h
  | Insert _ h p o v => key_ok cfg (o_key o) h /\ fresh_obj (store w) p o /\ FlatRun.small (store w) /\ value_ok v
  | Edit h key v => key_ok cfg key h /\ value_ok v
  end.
Lemma set_store_id w : set_store (store w) w = w.
Proof. by destruct w. Qed.
Lemma command_spec w A l0 l1 key h command : walks w A l0 l1 -> key_ok cfg key h ->
  (forall w1 written, plain (store w1) = plain (store w) -> contents w1 = contents w -> walk_inv w1 A l0 l1 written -> cap_inv w1 A l1 written -> guarded w1 l1 key -> exists w', command w1 = Some w' /\ walk_ok w') ->
  exists w', behind_gate w h key command = Some w' /\ walk_ok w'.
Proof.
  intros Hw Hk Hcmd. unfold behind_gate. destruct (prepare_spec w A l0 l1 key h Hw Hk) as (r & w1 & -> & (written & H & Hc) & Ep & Ec & Hne & Hg). rewrite some_bind. destruct r; [by apply (Hcmd w1 written); auto|exists w1; split; [done|]; by exists A, l0, l1, written|done].
Qed.
Lemma insert_ok w A l0 l1 written memi h p o v : walk_inv w A l0 l1 written -> cap_inv w A l1 written -> guarded w l1 (o_key o) -> key_ok cfg (o_key o) h -> fresh_obj (store w) p o -> FlatRun.small (plain (store w)) -> value_ok v ->
  let w1 := set_contents (<[p := v]> (contents w)) (set_store (set_heap (store w) (<[p := o]> (s_heap (store w)))) w) in
  exists w', ('(s, r) ← insert_capturing memi (store w1) h p; match r with Inserted => Some (set_store s w1) | Failed => heap ← kvobj_free (s_heap s) p; Some (set_store (set_heap s heap) w1) end) = Some w' /\ walk_ok w'.
Proof.
  intros H Hc Hg Hk Hf Hs Hv w1. pose proof (wi_store _ _ _ _ _ H) as Hi. pose proof (inv_alloc cfg (plain (store w)) A l0 l1 _ p o Hi Hf) as Hi1. change (set_heap (plain (store w)) (<[p := o]> (s_heap (plain (store w))))) with (plain (store w1)) in Hi1. assert (Z.of_nat (size (a_live A)) < 2 ^ 29) as Hsz by (by eapply small_size).
  assert (forall k q o', a_live A !! k = Some (q, o') -> q <> p) as Hne by (intros k q o' Hl ->; pose proof (live_heap _ _ _ _ _ _ _ _ _ (i_mem _ _ _ _ _ _ _ Hi) Hl) as E; destruct Hf as [Hf _]; cbn in E; congruence).
  destruct (insert_capturing_spec memi (store w1) A l0 l1 _ h p o Hi1) as (s' & r & -> & Hr); try done; [apply H|apply H|apply Hf|]. rewrite some_bind. destruct r.
  - destruct Hr as (A' & l0' & l1' & Hi' & Hsh & Heff & EA). eexists. split; [done|]. exists A', l0', l1', written. apply (write_effect w _ A l0 l1 written A' l0' l1' (o_key o)); try done; cbn [set_store set_contents contents w1].
    + intros k q o' Hl. rewrite EA in Hl. apply lookup_insert_Some in Hl as [[<- [= <- <-]]|[Hk' Hl]]; [exists v; by rewrite lookup_insert_eq|]. rewrite lookup_insert_ne by (apply not_eq_sym; by eapply Hne). by eapply (wi_values _ _ _ _ _ H).
    + intros k Hk'. by rewrite EA, lookup_insert_ne.
    + intros k q o' _ Hl. apply lookup_insert_ne, not_eq_sym. by eapply Hne.
  - subst s'. destruct (inv_release cfg (plain (store w1)) A l0 l1 _ p o Hi1) as (heap & Eh & Hi2). change (s_heap (plain (store w1))) with (s_heap (store w1)) in Eh. rewrite Eh, some_bind. eexists. split; [done|]. exists A, l0, l1, written. apply (write_effect w _ A l0 l1 written A l0 l1 (o_key o)); try done; cbn [set_store set_contents contents w1].
    + apply effect_none.
    + intros k q o' Hl. rewrite lookup_insert_ne by (apply not_eq_sym; by eapply Hne). by eapply (wi_values _ _ _ _ _ H).
    + intros k q o' _ Hl. apply lookup_insert_ne, not_eq_sym. by eapply Hne.
Qed.
Lemma act_spec w a : walk_ok w -> act_ok w a -> exists w', walk_act cfg w a = Some w' /\ walk_ok w'.
Proof.
  intros (A & l0 & l1 & written & H & Hc) Ha. assert (walks w A l0 l1) as Hw by (by exists written). pose proof (wi_store _ _ _ _ _ H) as Hi. assert (forall w', walks w' A l0 l1 -> walk_ok w') as Hok by (intros w' (x & ?); by exists A, l0, l1, x).
  destruct a as [b n| |now|h key|memi h p o v|h key|h key v]; cbn [walk_act act_ok] in *.
  - destruct (snapshot_progress_spec b n w A l0 l1 written H Hc Ha) as (w' & wr & -> & H' & Hc' & _). exists w'. split; [done|]. by exists A, l0, l1, wr.
  - eexists. split; [done|]. exists A, l0, l1, written. by apply take_spec.
  - eexists. split; [done|]. exists (with_now A now), l0, l1, written. apply (write_keeps w _ A l0 l1 written); try done; [apply (inv_set_now cfg (plain (store w))), Hi|apply H].
  - destruct (find_capturing_spec (store w) A l0 l1 _ key h Hi (wi_old _ _ _ _ _ H) Ha) as (s' & r & -> & Hs). rewrite some_bind. eexists. split; [done|]. destruct Hs as [->|(A' & l0' & p & Hi' & Hsh & Et & Ep & EA)]; [rewrite set_store_id; by apply Hok|].
    exists A', l0', l1, written. apply (write_effect w _ A l0 l1 written A' l0' l1 key); try done; cbn [set_store contents].
    + eapply no_open; [done|]. by eapply new_not_old.
    + unfold words. cbn. rewrite Et. apply effect_none.
    + intros k q o Hl. rewrite EA in Hl. apply lookup_delete_Some in Hl as [_ Hl]. by eapply (wi_values _ _ _ _ _ H).
    + intros k Hk. by rewrite EA, lookup_delete_ne.
  - destruct Ha as (Hk & Hf & Hs & Hv). apply (command_spec w A l0 l1 (o_key o) h); [done|done|]. intros w1 wr Ep Ec H1 Hc1 Hg. apply (insert_ok w1 A l0 l1 wr); try done.
    + unfold fresh_obj in *. by rewrite (proj2 (proj2 (proj2 (plain_caps _ _ Ep)))).
    + by rewrite Ep.
  - apply (command_spec w A l0 l1 key h); [done|done|]. intros w1 wr Ep Ec H1 Hc1 Hg. destruct (erase_capturing_spec (store w1) A l0 l1 _ key h (wi_store _ _ _ _ _ H1) Ha) as (s' & ok & A' & l0' & l1' & -> & Hi' & Hsh & Heff & EA). rewrite some_bind. eexists. split; [done|]. exists A', l0', l1', wr. apply (write_effect w1 _ A l0 l1 wr A' l0' l1' key); try done; cbn [set_store contents].
    + intros k q o Hl. rewrite EA in Hl. apply lookup_delete_Some in Hl as [_ Hl]. by eapply (wi_values _ _ _ _ _ H1).
    + intros k Hk. by rewrite EA, lookup_delete_ne.
  - destruct Ha as [Hk Hv]. apply (command_spec w A l0 l1 key h); [done|done|]. intros w1 wr Ep Ec H1 Hc1 Hg. assert (find_resident (store w1) h key = Some (fst <$> a_live A !! key)) as ->.
    { rewrite <- (find_resident_spec cfg (plain (store w1)) A ∅ l0 l1 _ key h (wi_store _ _ _ _ _ H1) Hk). unfold find_resident. rewrite !find_in_plain. done. }
    rewrite some_bind. destruct (a_live A !! key) as [[p o]|] eqn:El; cbn [fmap option_fmap option_map fst]; [|eexists; split; [done|]; by exists A, l0, l1, wr]. eexists. split; [done|]. exists A, l0, l1, wr.
    apply (write_effect w1 _ A l0 l1 wr A l0 l1 key); try done; cbn [set_contents store contents].
    + apply H1.
    + apply effect_none.
    + intros k q o' Hl. destruct (decide (q = p)) as [->|Hq]; [exists v; by rewrite lookup_insert_eq|rewrite lookup_insert_ne by done; by eapply (wi_values _ _ _ _ _ H1)].
    + intros k q o' Hk' Hl. apply lookup_insert_ne. intros <-. apply Hk'. by eapply live_inj; [apply (i_mem _ _ _ _ _ _ _ (wi_store _ _ _ _ _ H1))| |].
Qed.

(** ** What has been written *)
Lemma concat_length (l l' : list bytes) : l ≡ₚ l' -> length (concat l) = length (concat l').
Proof. induction 1; cbn; rewrite ?length_app in *; lia. Qed.
Lemma concat_member (l : list bytes) r : r ∈ l -> (length r <= length (concat l))%nat.
Proof. induction 1; cbn; rewrite length_app; lia. Qed.
Lemma omap_slots : omap (fun i => mjoin (cut_records !! i)) (seq 0 (length cut_records)) = omap id cut_records.
Proof.
  apply list_omap_ext, Forall2_same_length_lookup. split; [by rewrite length_seq|]. intros i j x Hj Hx. apply lookup_seq in Hj as [-> _]. cbn. by rewrite Hx.
Qed.
Lemma written_shape w A l0 l1 written : walk_inv w A l0 l1 written -> cap_inv w A l1 written ->
  exists recs rest part, recs ++ rest ≡ₚ omap id cut_records /\ handed_bytes (handed w, capture w) = concat recs ++ part /\ (part = [] \/ exists r n, r ∈ rest /\ part = take n r) /\
    (length written <= length cut_records)%nat /\ (snapshot_finished w = true -> rest = [] /\ part = []).
Proof.
  intros H Hc. set (f := fun i => mjoin (cut_records !! i)). pose proof (wi_nodup _ _ _ _ _ H) as Hnd. assert (written ⊆+ seq 0 (length cut_records)) as Hsub.
  { apply NoDup_submseteq; [done|]. intros i Hi. destruct (wi_done _ _ _ _ _ H i Hi) as [r Hr]. apply elem_of_seq. apply lookup_lt_Some in Hr. lia. }
  pose proof (submseteq_length _ _ Hsub) as Hlen. rewrite length_seq in Hlen. destruct (submseteq_Permutation _ _ Hsub) as [rest Hp]. assert (forall i, i ∈ rest -> i ∉ written) as Hdisj by (intros i Hi Hw; pose proof (NoDup_seq 0 (length cut_records)) as Hn; rewrite Hp in Hn; apply NoDup_app in Hn as (_ & Hn & _); by apply (Hn i)).
  assert (records written = concat (omap f written)) as Er.
  { pose proof (wi_done _ _ _ _ _ H) as Hd. clear -Hd. unfold records. induction written as [|i l IH]; [done|]. cbn. destruct (Hd i ltac:(by left)) as [r Hr]. unfold f at 1. rewrite Hr. cbn. f_equal. apply IH. intros j Hj. apply Hd. by right. }
  assert (omap f written ++ omap f rest ≡ₚ omap id cut_records) as Hperm by (rewrite <- omap_slots, <- omap_app; fold f; by rewrite Hp).
  assert (snapshot_finished w = true -> omap f rest = []) as Hdone.
  { intros Ef. unfold cap_inv in Hc. rewrite Ef in Hc. destruct Hc as (_ & _ & Epos & _). destruct (omap f rest) as [|r l] eqn:E; [done|]. assert (r ∈ omap f rest) as Hr by (rewrite E; by left). apply list_elem_of_omap in Hr as (i & Hi & Hfi). unfold f in Hfi. destruct (cut_records !! i) as [x|] eqn:Ei; [|done]. cbn in Hfi. subst x. destruct (wi_closed _ _ _ _ _ H i r Ei) as [Hw|(k & p & Hge & _)]; [by destruct (Hdisj i Hi)|]. apply lookup_lt_Some in Ei. pose proof (wi_len _ _ _ _ _ H). destruct (old_shape _ _ _ _ _ H). lia. }
  destruct (in_record w) eqn:Ein.
  - assert (snapshot_finished w = false) as Hf by (unfold cap_inv in Hc; destruct (snapshot_finished w); [|done]; destruct Hc; congruence). unfold cap_inv in Hc. rewrite Hf, Ein in Hc. destruct Hc as (_ & _ & i & k & p & o & v & n & St & _ & _ & Ho & _ & Hl & Hv & He & Eh & (_ & _ & Hbytes & _)). destruct (open_record _ _ _ _ _ _ _ _ H Ho) as (o' & v' & Hl' & _ & Hk & _ & Hv' & _ & Hni & Hcut). assert (o' = o) as -> by congruence. assert (v' = v) as -> by congruence. rewrite He in Hcut.
    exists (omap f written), (omap f rest), (take n (record_of v o)). split; [done|]. split; [rewrite <- Er, Hbytes; unfold record_bytes, record_of; by rewrite Eh, Hk|]. split; [|split; [done|congruence]]. right. exists (record_of v o), n. split; [|done]. apply list_elem_of_omap. exists i. split; [|unfold f; by rewrite Hcut]. assert (i ∈ seq 0 (length cut_records)) as Hi by (apply elem_of_seq; apply lookup_lt_Some in Hcut; lia). rewrite Hp in Hi. apply elem_of_app in Hi as [?|?]; done.
  - exists (omap f written), (omap f rest), []. split; [done|]. split; [rewrite app_nil_r, <- Er; by eapply idle_bytes|]. split; [by left|]. split; [done|]. intros Ef. by rewrite Hdone.
Qed.
Definition most : Z := 2 * Z.of_nat (length cut_records) + blen (concat (omap id cut_records)).
Lemma score_most w A l0 l1 written : walk_inv w A l0 l1 written -> cap_inv w A l1 written -> score w written <= most.
Proof.
  intros H Hc. destruct (written_shape _ _ _ _ _ H Hc) as (recs & rest & part & Hp & Eb & Hpart & Hlen & _). pose proof (wi_pos _ _ _ _ _ H). pose proof (wi_len _ _ _ _ _ H). destruct (old_shape _ _ _ _ _ H). unfold score, most. rewrite Eb, <- (concat_length _ _ Hp), concat_app, !length_app. destruct Hpart as [->|(r & n & Hr & ->)]; [cbn; lia|]. pose proof (concat_member _ _ Hr). rewrite length_take. lia.
Qed.
(** The walk comes to its end: a chunk taken and a share of the walk, often enough. *)
Fixpoint walk_run w (acts : list WalkAct) : option Walk := match acts with [] => Some w | a :: acts => w ← walk_act cfg w a; walk_run w acts end.
Definition walk_rounds (k : nat) (b n : Z) : list WalkAct := mjoin (replicate k [Take; Step b n]).
Lemma rounds_end fuel b n w A l0 l1 written : 0 < b < 2 ^ 32 -> n <> 0 -> walk_inv w A l0 l1 written -> cap_inv w A l1 written -> most - score w written < Z.of_nat fuel ->
  exists k w' written', walk_run w (walk_rounds k b n) = Some w' /\ snapshot_finished w' = true /\ walk_inv w' A l0 l1 written' /\ cap_inv w' A l1 written'.
Proof.
  intros Hb Hn. revert w written. induction fuel as [|fuel IH]; intros w written H Hc Hf; [pose proof (score_most _ _ _ _ _ H Hc); lia|]. destruct (take_spec w A l0 l1 written H Hc) as [H1 Hc1]. destruct (snapshot_progress_spec b n (take_chunk w) A l0 l1 written H1 Hc1 ltac:(lia)) as (w2 & wr & E & H2 & Hc2 & _ & Hst).
  assert (score (take_chunk w) written = score w written) as Esc by (unfold score; by rewrite take_bytes). destruct Hst as [Hfin|Hlt]; [lia|done|done| |].
  - exists 1%nat, w2, wr. split; [|by split_and!]. change (walk_rounds 1 b n) with [Take; Step b n]. cbn [walk_run walk_act]. by rewrite some_bind, E, some_bind.
  - destruct (IH w2 wr H2 Hc2 ltac:(lia)) as (k & w' & wr' & Ek & Hfin & H' & Hc'). exists (S k), w', wr'. split; [|by split_and!]. change (walk_rounds (S k) b n) with ([Take; Step b n] ++ walk_rounds k b n). cbn [app walk_run walk_act]. rewrite !some_bind, E, some_bind. done.
Qed.
End Invariant.

(** * The cut *)
Lemma live_unmarked h p : addr_ok p -> marked (live_word h p) = false /\ unmark (live_word h p) = live_word h p.
Proof.
  intros Hp. assert (Z.testbit (live_word h p) 48 = false) as E.
  { unfold live_word. rewrite Z.lor_spec, testbit_u64, Z.shiftl_spec_low by lia. rewrite andb_false_r. cbn [orb]. destruct Hp. rewrite <- (Z.mod_small p (2 ^ 48)) by lia. apply Z.mod_pow2_bits_high. lia. }
  split; [by rewrite marked_bit|]. unfold unmark. destruct (ptr_of _ =? 0); [done|]. apply Z.bits_inj'. intros i Hi. rewrite Z.land_spec, Z.lnot_spec, tomb_bit by lia. destruct (Z.eqb_spec i 48) as [->|]; [by rewrite E|by rewrite andb_true_r].
Qed.
Definition cut_image (cut_ms : Z) (m : gmap Z Value) (A : Abs) : list bytes := omap (key_record cut_ms m A) (map_to_list (a_live A)).*1.
Definition slot_cut (cut_ms : Z) (m : gmap Z Value) (A : Abs) (x : Slot bytes Z) : option bytes := match x with SLive k _ => key_record cut_ms m A k | _ => None end.
Section Cut.
Context (cfg : HashCfg) (cfg_valid : cfg_ok cfg).
Lemma cut_slots s A l0 n cut_ms m : inv cfg s A ∅ l0 [] n -> omap id (slot_cut cut_ms m A <$> l0) ≡ₚ cut_image cut_ms m A.
Proof.
  intros Hi. destruct (i_tabs _ _ _ _ _ _ _ Hi) as [(_ & _ & _ & _ & [Hu _] & _) _ _ Hm]. unfold cut_image. assert ((map_to_list (a_live A)).*1 ≡ₚ (slot_entries l0).*1) as ->.
  { transitivity ((map_to_list (ptrs_of A)).*1); [unfold ptrs_of; rewrite map_to_list_fmap, <- list_fmap_compose; by apply reflexive_eq, list_fmap_ext|]. assert (ptrs_of A = slots_map l0) as -> by (rewrite Hm; apply (right_id_L ∅ (∪))). unfold slots_map. by rewrite map_to_list_to_map by (by apply entries_nodup). }
  apply reflexive_eq. clear. induction l0 as [|[| |k p] l IH]; [done|exact IH|exact IH|]. cbn. destruct (key_record cut_ms m A k); [f_equal; exact IH|exact IH].
Qed.
Lemma marked_start s A l0 n m newcap cut_ms : inv cfg s A ∅ l0 [] n -> rehashing s = false -> (forall p o, s_heap s !! p = Some o -> exists v, m !! p = Some v /\ value_ok v) -> snapshot_prepared_cap s = Some (Some newcap) ->
  exists w0 l, snapshot_mark s m newcap cut_ms = Some w0 /\ walk_inv cfg (slot_cut cut_ms m A <$> l0) w0 A l l0 [] /\ cap_inv (slot_cut cut_ms m A <$> l0) w0 A l0 [].
Proof.
  intros Hi Hr Hval Hcap. pose proof (i_tabs _ _ _ _ _ _ _ Hi) as [T0 _ _ Hm]. unfold snapshot_mark. rewrite Hr. pose proof (tab_bounds _ _ _ _ T0) as (Hb & L0 & L1 & Hload & _ & _ & Hlw & _). unfold snapshot_prepared_cap, round_pow2 in Hcap. destruct (Z.ltb_spec UINT32_MAX (t_cap (s_t0 s) * 2)); [done|]. change kMinCap with (2 ^ 6) in Hcap.
  destruct (round_pow2_loop_spec 32 6 (u32 (t_cap (s_t0 s) * 2)) ltac:(lia) ltac:(lia)) as (c & Ec & Hc). rewrite Ec, some_bind in Hcap. destruct (Z.eqb_spec c 0); [done|]. injection Hcap as ->. destruct Hc as [?|(j & Hj & -> & Hge)]; [done|]. unfold UINT32_MAX in *. rewrite u32_small in Hge by lia. destruct (empty_rep cfg (s_heap s) j Hj) as [Rn Mn].
  set (s1 := set_tabs s (empty_table (2 ^ j)) (s_t0 s) 0). set (l := replicate (Z.to_nat (2 ^ j)) SEmpty) in *. pose proof T0 as (_ & Hlen & _ & Hf2 & [Hu _] & _).
  assert (Forall2 (fun w x => unmark w = w /\ (is_live x = true -> marked w = false)) (t_words (s_t0 s)) l0) as Hun.
  { eapply Forall2_impl; [exact Hf2|]. intros w [| |k p]; cbn; [by intros ->|by intros ->|]. intros (o & _ & _ & _ & _ & Ha & ->). destruct (live_unmarked (khash cfg k) p Ha). done. }
  assert (unmark <$> t_words (s_t0 s) = t_words (s_t0 s)) as Eun by (clear -Hun; induction Hun as [|? ? ? ? [E _] ? IH]; [done|]; cbn; rewrite E; f_equal; exact IH). assert (plain s1 = s1) as Epl by (unfold plain, s1, unmark_tab; cbn; rewrite Eun; by destruct (s_t0 s)).
  assert (inv cfg s1 A ∅ l l0 ((5 * t_cap (s_t0 s1) - t_cap (s_t1 s1)) / 8 - t_cap (s_t0 s1) + 1 + 0)) as Hi1.
  { apply (inv_set_tabs cfg s A ∅ l0 [] n); [done| | |].
    - split; cbn [s_heap s_t0 s_t1 set_tabs]; [exact Rn|by right|rewrite Mn; apply map_disjoint_empty_l|]. rewrite Hm, Mn, (left_id_L ∅ (∪)). apply (right_id_L ∅ (∪)).
    - split; [done|]. unfold rehashing. cbn [s_pos s_t1 set_tabs]. rewrite (proj2 (Z.eqb_neq _ _)) by lia. cbn [negb]. split; [lia|]. intros i x Hlt. cbn in Hlt. lia.
    - apply load_slack; [unfold rehashing, s1; cbn; by rewrite (proj2 (Z.eqb_neq _ _)) by lia|done|]. cbn. lia. }
  rewrite Z.add_0_r in Hi1. eexists _, l. split; [done|]. split.
  - split; cbn [store snapshot_pos contents snapshot_cut_ms].
    + change (set_tabs s (empty_table (2 ^ j)) (s_t0 s) 0) with s1. rewrite Epl. exact Hi1.
    + unfold rehashing. cbn. by rewrite (proj2 (Z.eqb_neq _ _)) by lia.
    + done.
    + apply length_fmap.
    + cbn. lia.
    + intros k p o Hl. apply (Hval p o). exact (live_heap _ _ _ _ _ _ _ _ _ (i_mem _ _ _ _ _ _ _ Hi) Hl).
    + intros i k p (_ & Hx & _). split; [|apply not_elem_of_nil]. by rewrite list_lookup_fmap, Hx.
    + intros i r Hr'. right. rewrite list_lookup_fmap in Hr'. destruct (l0 !! i) as [[| |k p]|] eqn:Hx; try done. exists k, p. split; [cbn; lia|]. split; [done|]. destruct (Forall2_lookup_r _ _ _ _ _ Hun Hx) as (w & Hw & _ & Hmk). exists w. split; [exact Hw|by apply Hmk].
    + constructor.
    + intros i Hi'. by apply not_elem_of_nil in Hi'.
  - unfold cap_inv. cbn. split; [|split; [constructor|done]]. done.
Qed.
End Cut.
Lemma prepared_start cfg s newcap : snapshot_prepare cfg true None s = Some (Ready, Some newcap, s) -> rehashing s = false /\ snapshot_prepared_cap s = Some (Some newcap).
Proof.
  unfold snapshot_prepare. destruct (rehashing s); [destruct (rehash_step cfg false s); done|]. destruct (snapshot_prepared_cap s) as [[c|]|]; [|done|done]. rewrite some_bind. by intros [= ->].
Qed.
(** What the owner can come to from the cut. *)
Inductive reached (cfg : HashCfg) (w0 : Walk) : Walk -> Prop :=
  | reached_cut : reached cfg w0 w0
  | reached_act w a w' : reached cfg w0 w -> act_ok cfg w a -> walk_act cfg w a = Some w' -> reached cfg w0 w'.
Lemma reached_ok cfg cuts w0 w : walk_ok cfg cuts w0 -> reached cfg w0 w -> walk_ok cfg cuts w.
Proof. intros H0. induction 1 as [|w a w' _ IH Ha E]; [done|]. destruct (act_spec cfg cuts w a IH Ha) as (w2 & E2 & H2). congruence. Qed.
Lemma room_kept cfg cuts w A l0 l1 written : walk_inv cfg cuts w A l0 l1 written -> t_live (s_t0 (store w)) + t_tombs (s_t0 (store w)) + t_live (s_t1 (store w)) < t_cap (s_t0 (store w)).
Proof.
  intros H. pose proof (i_load _ _ _ _ _ _ _ (wi_store _ _ _ _ _ _ _ H)) as Hl. unfold slack in Hl. rewrite <- (Z.add_0_r (_ + 1)) in Hl. apply (load_slack (plain (store w)) 0 (wi_old _ _ _ _ _ _ _ H) (wi_still _ _ _ _ _ _ _ H)) in Hl. cbn in Hl. lia.
Qed.
(** C4: The snapshot is the store at the cut.  Take a store that any history has led to and that is prepared
    for the cut, and the cut.  Then let the owner serve: any sequence of shares of the walk with any
    budgets, of chunks taken, of lookups, and of insertions, removals and changes in place, each
    behind the preparation of its write.  Every such step succeeds.  At every moment the bytes that
    are out are whole records of the cut, each key's at most once and with the value and deadline of
    the cut, followed by a prefix of one more; when the walk has finished they are the records of
    exactly the keys alive at the cut.  From every moment a positive budget finishes the walk.  All
    chunks but the last have 64 KiB, and the new table always has room for the keys of both. *)
Theorem snapshot_is_the_cut cfg cap ops s0 s rs m newcap cut_ms :
  cfg_ok cfg -> store_new true cap = Some s0 -> ops_ok cfg ops s0 -> run_ops cfg ops s0 = Some (s, rs) ->
  (forall p o, s_heap s !! p = Some o -> exists v, m !! p = Some v /\ value_ok v) -> snapshot_prepare cfg true None s = Some (Ready, Some newcap, s) ->
  exists A w0, a_run (abs_new 0) ops rs A /\ snapshot_mark s m newcap cut_ms = Some w0 /\
    forall w, reached cfg w0 w ->
      (forall a, act_ok cfg w a -> is_Some (walk_act cfg w a)) /\ failed (capture w) = false /\
      (snapshot_finished w = false -> Forall full_chunk (handed w)) /\
      t_live (s_t0 (store w)) + t_tombs (s_t0 (store w)) + t_live (s_t1 (store w)) < t_cap (s_t0 (store w)) /\
      (exists recs rest part, recs ++ rest ≡ₚ cut_image cut_ms m A /\ handed_bytes (handed w, capture w) = concat recs ++ part /\
         (part = [] \/ exists r n, r ∈ rest /\ part = take n r) /\ (snapshot_finished w = true -> rest = [] /\ part = [])) /\
      (forall b n, 0 < b < 2 ^ 32 -> 0 < n -> exists k w' recs, walk_run cfg w (walk_rounds k b n) = Some w' /\ snapshot_finished w' = true /\
         recs ≡ₚ cut_image cut_ms m A /\ handed_bytes (handed w', capture w') = concat recs).
Proof.
  intros Hcfg Hnew Hops Hrun Hval Hprep. destruct (prepared_start _ _ _ Hprep) as [Hr Hcap]. destruct (run_spec cfg Hcfg ops s0 (abs_new 0) (store_new_rep cfg true cap s0 Hnew) Hops) as (s' & rs' & A & E & Ha & l0 & l1 & Hi). rewrite Hrun in E. injection E as <- <-. destruct (idle_old cfg _ _ _ _ _ _ Hi Hr) as [_ ->].
  destruct (marked_start cfg s A l0 0 m newcap cut_ms Hi Hr Hval Hcap) as (w0 & l & Em & H0 & Hc0). exists A, w0. split; [done|]. split; [done|]. intros w Hw. pose proof (cut_slots cfg s A l0 0 cut_ms m Hi) as Hcut. assert (walk_ok cfg (slot_cut cut_ms m A <$> l0) w) as Hok by (eapply reached_ok; [|exact Hw]; by exists A, l, l0, []).
  pose proof Hok as (A' & k0 & k1 & written & H & Hc). destruct (written_shape cfg _ w A' k0 k1 written H Hc) as (recs & rest & part & Hp & Eb & Hpart & _ & Hfin). split; [intros a Hact; destruct (act_spec cfg _ w a Hok Hact) as (w' & -> & _); by eexists|]. split; [by eapply never_failed|]. split; [|split; [by eapply room_kept|split]].
  - intros Ef. unfold cap_inv in Hc. rewrite Ef in Hc. apply Hc.
  - exists recs, rest, part. rewrite <- Hcut. by split_and!.
  - intros b n Hb Hn. destruct (rounds_end cfg _ (S (Z.to_nat (most (slot_cut cut_ms m A <$> l0) - score w written))) b n w A' k0 k1 written Hb ltac:(lia) H Hc ltac:(lia)) as (k & w' & wr' & Ek & Ef & H' & Hc').
    destruct (written_shape cfg _ w' A' k0 k1 wr' H' Hc') as (recs' & rest' & part' & Hp' & Eb' & _ & _ & Hfin'). destruct (Hfin' Ef) as [-> ->]. rewrite !app_nil_r in *. exists k, w', recs'. split_and!; try done. by rewrite <- Hcut.
Qed.
(** Three keys, the first of them past its deadline at the cut. *)
Definition demo_walk_ops : list StoreOp := demo_insert <$> seq 0 3.
Definition demo_contents : gmap Z Value := <[0x10000 := VString (RawValue false [120; 121])]> (<[0x10040 := demo_hash]> (<[0x10080 := VSet [[97]; [98]]]> ∅)).
Definition demo_walk_ok : bool :=
  match demo_store with
  | None => false
  | Some s0 =>
      ops_okb demo_cfg demo_walk_ops s0 &&
      match run_ops demo_cfg demo_walk_ops s0 with
      | None => false
      | Some (s, _) => negb (rehashing s) && bool_decide (snapshot_prepared_cap s = Some (Some 128)) && forallb (fun po : Z * KvObj => bool_decide (is_Some (demo_contents !! po.1))) (map_to_list (s_heap s))
      end
  end.
Lemma demo_contents_ok p v : demo_contents !! p = Some v -> value_ok v.
Proof.
  unfold demo_contents. rewrite !lookup_insert_Some, lookup_empty. intros [[_ <-]|[_ [[_ <-]|[_ [[_ <-]|[_ ?]]]]]]; [cbn; lia| | |done].
  - split; [split; vm_compute; reflexivity|]. repeat constructor; cbn; done || lia.
  - split; [split; vm_compute; reflexivity|]. repeat constructor.
Qed.
Lemma snapshot_is_the_cut_witness : exists s0 s rs A w0, demo_store = Some s0 /\ run_ops demo_cfg demo_walk_ops s0 = Some (s, rs) /\ a_run (abs_new 0) demo_walk_ops rs A /\ snapshot_mark s demo_contents 128 1001 = Some w0 /\
  forall w, reached demo_cfg w0 w ->
    (forall a, act_ok demo_cfg w a -> is_Some (walk_act demo_cfg w a)) /\ failed (capture w) = false /\
    exists k w' recs, walk_run demo_cfg w (walk_rounds k 7 2) = Some w' /\ snapshot_finished w' = true /\ recs ≡ₚ cut_image 1001 demo_contents A /\ handed_bytes (handed w', capture w') = concat recs.
Proof.
  assert (demo_walk_ok = true) as E by (by vm_compute). unfold demo_walk_ok in E. destruct demo_store as [s0|] eqn:E0; [|done]. apply andb_prop in E as [Eok E]. destruct (run_ops demo_cfg demo_walk_ops s0) as [[s rs]|] eqn:Er; [|done]. apply andb_prop in E as [E Eval]. apply andb_prop in E as [Eidle Ecap]. apply negb_true_iff in Eidle. apply bool_decide_eq_true in Ecap. rewrite forallb_forall in Eval.
  exists s0, s, rs. destruct (snapshot_is_the_cut demo_cfg 64 demo_walk_ops s0 s rs demo_contents 128 1001 demo_cfg_ok E0 (ops_okb_sound _ _ _ Eok) Er) as (A & w0 & Ha & Em & Hw).
  - intros p o Hp. specialize (Eval (p, o) ltac:(apply list_elem_of_In; by apply elem_of_map_to_list)). apply bool_decide_eq_true in Eval as [v Hv]. exists v. split; [done|by eapply demo_contents_ok].
  - unfold snapshot_prepare. by rewrite Eidle, Ecap, some_bind.
  - exists A, w0. split; [done|]. split; [done|]. split; [done|]. split; [done|]. intros w Hreach. destruct (Hw w Hreach) as (H1 & H2 & _ & _ & _ & H3). split; [done|]. split; [done|]. apply H3; lia.
Defined.
