(* ===== verification/Reorder.v ===== *)
(** core/reorder.h: latency scheduling of one gathered executor batch.

    A batch is a list of tasks; a maximal stretch of ordinary tasks is a run, everything else is
    a barrier.  A run of several connections is sorted by (distance to the head of the
    connection's window, command length) with a counting sort over 192 buckets.  What the test
    for ordinary tasks reads of an operation is a parameter, and so is the head of a
    connection's window: the IO thread advances it while the samples are taken, so it is given
    per sample.  [None] is [abort], an uninitialised read or a probe that never ends. *)
From S2P Require Import Prelude Rob ReadLocal ReadSlots.

Definition kExSchedClasses : Z := 3.
Definition kExSchedBuckets : Z := kRobWindow * kExSchedClasses.
Definition kExSchedBucketWords : Z := (kExSchedBuckets + 63) / 64.
Definition kLong : Z := 2.

(** Pointers are addresses; 0 is null. *)
Record Task := mkTask { client : Z; op_id : Z; shard : Z; enqueue_us_low : Z; scatter : Z }.
#[export] Instance task_eq_dec : EqDecision Task.
Proof. solve_decision. Defined.
(** What the scheduler reads of the operation behind a task. *)
Record OpView := mkView { v_flags : option Z; v_length : Z; v_blocking : bool; v_hazard : bool }.
Record ReorderResult := mkResult { multi_client_runs : Z; permuted_runs : Z }.
Record ExScheduleKey := mkKey { rank : Z; len : Z }.
#[export] Instance key_inhabited : Inhabited ExScheduleKey := populate (mkKey 0 0).
#[export] Instance task_inhabited : Inhabited Task := populate (mkTask 0 0 (-1) 0 0).

(** Admin, ConnLocal, AllShards, RandomShard, CursorShard, ConfigRoute, ScriptRoute, PubSub,
    Blocking, Transaction, StreamRoute, SubcmdRoute, FlipAsync. *)
Definition kSpecial : Z :=
  foldr Z.lor 0 (Z.shiftl 1 <$> [2; 3; 4; 5; 6; 7; 11; 12; 13; 14; 17; 20; 25]).

Section Reorder.
Context (op_at : Z -> Z -> OpView).

(** The length class of an ordinary task. *)
Definition ex_sched_candidate (t : Task) : option Z :=
  if (client t =? 0) || negb (scatter t =? 0) then None
  else
    let op := op_at (client t) (op_id t) in
    match v_flags op with
    | None => None
    | Some flags =>
        if v_blocking op then None
        else if negb (Z.land flags kSpecial =? 0) then None
        else if kExSchedClasses <=? v_length op then None
        else Some (if v_hazard op then kLong else v_length op)
    end.

Section Run.
Context (BatchOps : nat) (head : nat -> Z -> Z) (tasks : list Task).

(** Sampling, newest to oldest; [i] tasks are left.  [None]: keep FIFO. *)
Record Sampled := mkSampled { keys : list ExScheduleKey; min_rank : Z; max_rank : Z; first_length : Z; one_length : bool }.
Fixpoint sample_heads (base_lengths : list Z) (i : nat) (sampled_client sampled_head : Z) (s : Sampled) : option Sampled :=
  match i with
  | O => Some s
  | S i =>
      let t := tasks !!! i in
      let '(c, h) := if negb (client t =? sampled_client) then (client t, head i (client t)) else (sampled_client, sampled_head) in
      let distance := u64 (op_id t - h) in
      if kRobWindow <=? distance then None
      else
        let k := mkKey (u8 distance) (base_lengths !!! i) in
        let newest := (i =? length tasks - 1)%nat in
        sample_heads base_lengths i c h
          (mkSampled (k :: keys s) (Z.min (min_rank s) (rank k)) (Z.max (max_rank s) (rank k))
             (if newest then len k else first_length s) (if newest then one_length s else one_length s && (len k =? first_length s)))
  end.

(** The per-connection chains: an open-addressed table from client to its last task. *)
Definition kChainSlots : Z := Z.of_nat BatchOps * 2.
Definition chain_hash (c : Z) : Z :=
  let h := Z.lxor c (Z.shiftr c 33) in
  let h := u64 (h * 18397679294719823053) in
  Z.lxor h (Z.shiftr h 33).
Fixpoint chain_find (fuel : nat) (ch : list (option (Z * nat))) (c slot : Z) : option Z :=
  match fuel with
  | O => None
  | S fuel =>
      e ← ch !! Z.to_nat slot;
      match e with
      | None => Some slot
      | Some (c', _) => if c' =? c then Some slot else chain_find fuel ch c (Z.land (slot + 1) (kChainSlots - 1))
      end
  end.
(** [Some None]: the gather contract is broken, keep FIFO. *)
Fixpoint widen (k i : nat) (ch : list (option (Z * nat))) (ks : list ExScheduleKey) : option (option (list ExScheduleKey)) :=
  match k with
  | O => Some (Some ks)
  | S k =>
      let t := tasks !!! i in let key := ks !!! i in
      slot ← chain_find (length ch) ch (client t) (Z.land (u32 (chain_hash (client t))) (kChainSlots - 1));
      e ← ch !! Z.to_nat slot;
      match e with
      | None =>
          let key := if negb (rank key =? 0) then mkKey (rank key) kLong else key in
          widen k (S i) (<[Z.to_nat slot := Some (client t, i)]> ch) (<[i := key]> ks)
      | Some (_, previous) =>
          let before := tasks !!! previous in
          if op_id t <=? op_id before then Some None
          else
            let l := Z.max (len key) (len (ks !!! previous)) in
            let l := if negb (op_id t =? u64 (op_id before + 1)) then kLong else l in
            widen k (S i) (<[Z.to_nat slot := Some (client t, i)]> ch) (<[i := mkKey (rank key) l]> ks)
      end
  end.

Definition bucket (k : ExScheduleKey) : Z := rank k * kExSchedClasses + len k.
Fixpoint already_ordered (previous : Z) (ks : list ExScheduleKey) : bool :=
  match ks with
  | [] => true
  | k :: ks => (previous <=? bucket k) && already_ordered (bucket k) ks
  end.

(** The counting sort.  [counts] and [cursors] start uninitialised. *)
Fixpoint count_buckets (ks : list ExScheduleKey) (occupied : list Z) (counts : list (option Z)) : option (list Z * list (option Z)) :=
  match ks with
  | [] => Some (occupied, counts)
  | k :: ks =>
      let b := bucket k in
      let word := Z.shiftr b 6 in let bit := Z.shiftl 1 (Z.land b 63) in
      w ← occupied !! Z.to_nat word;
      let '(occupied, counts) :=
        if Z.land w bit =? 0 then (<[Z.to_nat word := Z.lor w bit]> occupied, <[Z.to_nat b := Some 0]> counts) else (occupied, counts) in
      c ← counts !! Z.to_nat b; c ← c;
      count_buckets ks occupied (<[Z.to_nat b := Some (u8 (c + 1))]> counts)
  end.
Fixpoint word_cursors (fuel : nat) (word bits : Z) (counts : list (option Z)) (out : Z) (cursors : list (option Z)) : option (Z * list (option Z)) :=
  if bits =? 0 then Some (out, cursors)
  else
    match fuel with
    | O => None
    | S fuel =>
        let bit := ctzll bits in
        let b := word * 64 + bit in
        c ← counts !! Z.to_nat b; c ← c;
        word_cursors fuel word (Z.land bits (bits - 1)) counts (u8 (out + c)) (<[Z.to_nat b := Some out]> cursors)
    end.
Fixpoint all_cursors (word : Z) (occupied : list Z) (counts : list (option Z)) (out : Z) (cursors : list (option Z)) : option (list (option Z)) :=
  match occupied with
  | [] => Some cursors
  | bits :: occupied =>
      '(out, cursors) ← word_cursors 64 word bits counts out cursors;
      all_cursors (word + 1) occupied counts out cursors
  end.
Fixpoint place_tasks (ts : list Task) (ks : list ExScheduleKey) (cursors : list (option Z)) (ordered : list (option Task)) : option (list (option Task)) :=
  match ts, ks with
  | t :: ts, k :: ks =>
      c ← cursors !! Z.to_nat (bucket k); c ← c;
      if decide (Z.to_nat c < length ordered)%nat then
        place_tasks ts ks (<[Z.to_nat (bucket k) := Some (u8 (c + 1))]> cursors) (<[Z.to_nat c := Some t]> ordered)
      else None
  | _, _ => Some ordered
  end.
Definition counting_sort (ks : list ExScheduleKey) : option (list Task) :=
  let none := replicate (Z.to_nat kExSchedBuckets) (None : option Z) in
  '(occupied, counts) ← count_buckets ks (replicate (Z.to_nat kExSchedBucketWords) 0) none;
  cursors ← all_cursors 0 occupied counts 0 none;
  ordered ← place_tasks tasks ks cursors (replicate BatchOps None);
  mapM id (take (length tasks) ordered).

Definition all_same_length (ks : list ExScheduleKey) : bool :=
  forallb (fun k => len k =? len (ks !!! 0%nat)) (tail ks).
Definition same_client (n : nat) : bool := forallb (fun t => client t =? client (tasks !!! 0%nat)) (take n tasks).
(** [ex_schedule_run]: the witness and the tasks. *)
Definition ex_schedule_run (base_lengths : list Z) : option (Z * list Task) :=
  let n := length tasks in
  if (n <? 2)%nat then Some (0, tasks)
  else if same_client n then Some (0, tasks)
  else
    match sample_heads base_lengths n 0 0 (mkSampled [] 255 0 0 true) with
    | None => Some (1, tasks)
    | Some s =>
        let close := max_rank s - min_rank s <=? 1 in
        if one_length s && close then Some (1, tasks)
        else
          ks ← widen n 0 (replicate (Z.to_nat kChainSlots) None) (keys s);
          match ks with
          | None => Some (1, tasks)
          | Some ks =>
              if all_same_length ks && close then Some (1, tasks)
              else if already_ordered (bucket (ks !!! 0%nat)) (tail ks) then Some (1, tasks)
              else ordered ← counting_sort ks; Some (2, ordered)
          end
    end.
End Run.

(** * A batch *)
Context (BatchOps : nat) (head : nat -> nat -> Z -> Z).
(** The ordinary tasks at the front, with their lengths. *)
Fixpoint run_of (ts : list Task) : list Task * list Z * list Task :=
  match ts with
  | [] => ([], [], [])
  | t :: ts' =>
      match ex_sched_candidate t with
      | None => ([], [], ts)
      | Some l => let '(run, ls, rest) := run_of ts' in (t :: run, l :: ls, rest)
      end
  end.
(** The batch from [begin] on: [pos] names the run for its samples. *)
Fixpoint schedule_from (fuel pos : nat) (ts : list Task) (r : ReorderResult) : option (ReorderResult * list Task) :=
  match fuel with
  | O => None
  | S fuel =>
      match ts with
      | [] => Some (r, [])
      | t :: ts' =>
          match ex_sched_candidate t with
          | None => '(r, out) ← schedule_from fuel (S pos) ts' r; Some (r, t :: out)
          | Some _ =>
              let '(run, ls, rest) := run_of ts in
              '(witness, run) ← ex_schedule_run BatchOps (head pos) run ls;
              let r := mkResult (u32 (multi_client_runs r + (if witness =? 0 then 0 else 1))) (u32 (permuted_runs r + (if witness =? 2 then 1 else 0))) in
              match rest with
              | [] => Some (r, run)
              | barrier :: rest => '(r, out) ← schedule_from fuel (S (pos + length run)) rest r; Some (r, run ++ barrier :: out)
              end
          end
      end
  end.
Definition ex_schedule_batch (ts : list Task) : option (ReorderResult * list Task) :=
  if (BatchOps <? length ts)%nat then None else schedule_from (S (length ts)) 0 ts (mkResult 0 0).
End Reorder.

(** * The counting sort is a stable bucket sort *)
Definition nlt (b : Z) (ks : list ExScheduleKey) : Z := foldr (fun k n => (if bucket k <? b then 1 else 0) + n) 0 ks.
Definition neq (b : Z) (ks : list ExScheduleKey) : Z := foldr (fun k n => (if bucket k =? b then 1 else 0) + n) 0 ks.
Definition key_ok (k : ExScheduleKey) : Prop := 0 <= rank k < kRobWindow /\ 0 <= len k < kExSchedClasses.
(** The tasks of one bucket, in order. *)
Fixpoint in_bucket (b : Z) (ts : list Task) (ks : list ExScheduleKey) : list Task :=
  match ts, ks with
  | t :: ts, k :: ks => if bucket k =? b then t :: in_bucket b ts ks else in_bucket b ts ks
  | _, _ => []
  end.
Definition bucket_sort (m : nat) (ts : list Task) (ks : list ExScheduleKey) : list Task :=
  mjoin ((fun b => in_bucket (Z.of_nat b) ts ks) <$> seq 0 m).

Lemma bucket_bounds k : key_ok k -> 0 <= bucket k < kExSchedBuckets.
Proof. unfold key_ok, bucket, kExSchedBuckets, kRobWindow, kExSchedClasses. lia. Qed.
Lemma nlt_neq b ks : nlt (b + 1) ks = nlt b ks + neq b ks.
Proof.
  induction ks as [|k ks IH]; [done|]. unfold nlt, neq in *. cbn [foldr].
  destruct (Z.ltb_spec (bucket k) (b + 1)), (Z.ltb_spec (bucket k) b), (Z.eqb_spec (bucket k) b); lia.
Qed.
Lemma nlt_bounds b ks : 0 <= nlt b ks <= Z.of_nat (length ks).
Proof. induction ks as [|k ks IH]; unfold nlt in *; cbn [foldr length]; [lia|]. destruct (_ <? _); lia. Qed.
Lemma neq_bounds b ks : 0 <= neq b ks <= Z.of_nat (length ks).
Proof. induction ks as [|k ks IH]; unfold neq in *; cbn [foldr length]; [lia|]. destruct (_ =? _); lia. Qed.
Lemma nlt_mono b b' ks : b <= b' -> nlt b ks <= nlt b' ks.
Proof. intros H. induction ks as [|k ks IH]; [done|]. unfold nlt in *. cbn [foldr]. destruct (Z.ltb_spec (bucket k) b), (Z.ltb_spec (bucket k) b'); lia. Qed.
Lemma nlt_gap u v ks : u <= v -> (forall b, u <= b < v -> neq b ks = 0) -> nlt u ks = nlt v ks.
Proof.
  intros Huv H. replace v with (u + Z.of_nat (Z.to_nat (v - u))) in * by lia. clear Huv. induction (Z.to_nat (v - u)) as [|n IH]; [f_equal; lia|].
  assert (nlt u ks = nlt (u + Z.of_nat n) ks) as E by (apply IH; intros b Hb; apply H; lia).
  replace (u + Z.of_nat (S n)) with ((u + Z.of_nat n) + 1) by lia. rewrite nlt_neq, (H (u + Z.of_nat n)) by lia. lia.
Qed.
Lemma neq_app b ks ks' : neq b (ks ++ ks') = neq b ks + neq b ks'.
Proof. induction ks as [|k ks IH]; [done|]. unfold neq in *. cbn [foldr app]. lia. Qed.
Lemma neq_one b k : neq b [k] = if bucket k =? b then 1 else 0.
Proof. unfold neq. cbn. destruct (_ =? _); done. Qed.
Lemma nlt_top ks : Forall key_ok ks -> nlt kExSchedBuckets ks = Z.of_nat (length ks).
Proof. induction 1 as [|k ks Hk _ IH]; [done|]. unfold nlt in *. cbn [foldr length]. pose proof (bucket_bounds k Hk). rewrite (proj2 (Z.ltb_lt _ _)) by lia. lia. Qed.
Lemma nlt_0 ks : Forall key_ok ks -> nlt 0 ks = 0.
Proof. induction 1 as [|k ks Hk _ IH]; [done|]. unfold nlt in *. cbn [foldr]. pose proof (bucket_bounds k Hk). rewrite (proj2 (Z.ltb_ge _ _)) by lia. lia. Qed.

Lemma in_bucket_length b ts ks : length ts = length ks -> Z.of_nat (length (in_bucket b ts ks)) = neq b ks.
Proof.
  revert ks. induction ts as [|t ts IH]; intros [|k ks] Hl; try done. specialize (IH ks ltac:(by injection Hl)). unfold neq in *. cbn. destruct (_ =? b); cbn [length]; lia.
Qed.
Lemma in_bucket_app b ts1 ts2 ks1 ks2 : length ts1 = length ks1 -> in_bucket b (ts1 ++ ts2) (ks1 ++ ks2) = in_bucket b ts1 ks1 ++ in_bucket b ts2 ks2.
Proof. revert ks1. induction ts1 as [|t ts1 IH]; intros [|k ks1] Hl; try done. cbn. rewrite IH by (by injection Hl). by destruct (_ =? b). Qed.
Lemma bucket_sort_S m ts ks : bucket_sort (S m) ts ks = bucket_sort m ts ks ++ in_bucket (Z.of_nat m) ts ks.
Proof. unfold bucket_sort. rewrite seq_S, fmap_app, join_app. cbn. by rewrite app_nil_r. Qed.
Lemma bucket_sort_length m ts ks : length ts = length ks -> Forall key_ok ks -> Z.of_nat (length (bucket_sort m ts ks)) = nlt (Z.of_nat m) ks.
Proof.
  intros Hl Hk. induction m as [|m IH]; [by rewrite nlt_0|]. rewrite bucket_sort_S, length_app, Nat2Z.inj_add, IH, in_bucket_length by done.
  rewrite Nat2Z.inj_succ, <- Z.add_1_r, nlt_neq. done.
Qed.
Lemma bucket_sort_prefix m m' ts ks : (m <= m')%nat -> exists l, bucket_sort m' ts ks = bucket_sort m ts ks ++ l.
Proof.
  induction 1 as [|m' _ (l & IH)]; [exists []; by rewrite app_nil_r|]. exists (l ++ in_bucket (Z.of_nat m') ts ks). by rewrite bucket_sort_S, IH, app_assoc.
Qed.
Lemma bucket_sort_lookup m ts ks b j x : length ts = length ks -> Forall key_ok ks -> 0 <= b < Z.of_nat m ->
  in_bucket b ts ks !! j = Some x -> bucket_sort m ts ks !! (Z.to_nat (nlt b ks) + j)%nat = Some x.
Proof.
  intros Hl Hk Hb Hj. destruct (bucket_sort_prefix (S (Z.to_nat b)) m ts ks ltac:(lia)) as (l & ->). rewrite bucket_sort_S.
  pose proof (bucket_sort_length (Z.to_nat b) ts ks Hl Hk) as Hlen. rewrite Z2Nat.id in * by lia.
  rewrite <- app_assoc, lookup_app_r by lia. replace (Z.to_nat (nlt b ks) + j - length (bucket_sort (Z.to_nat b) ts ks))%nat with j by lia. by apply lookup_app_l_Some.
Qed.
Lemma bucket_sort_elem m ts ks p x : length ts = length ks -> Forall key_ok ks -> bucket_sort m ts ks !! p = Some x ->
  exists b j, 0 <= b < Z.of_nat m /\ in_bucket b ts ks !! j = Some x /\ p = (Z.to_nat (nlt b ks) + j)%nat.
Proof.
  intros Hl Hk. induction m as [|m IH]; [done|]. rewrite bucket_sort_S. pose proof (bucket_sort_length m ts ks Hl Hk) as Hlen. intros H.
  apply lookup_app_Some in H as [H|[Hge H]].
  - destruct (IH H) as (b & j & Hb & Hj & ->). exists b, j. split_and!; [lia..|done|done].
  - exists (Z.of_nat m), (p - length (bucket_sort m ts ks))%nat. split_and!; [lia..|done|lia].
Qed.

Lemma land_bit_zero w k : 0 <= k -> (Z.land w (Z.shiftl 1 k) =? 0) = negb (Z.testbit w k).
Proof.
  intros Hk. rewrite Z.shiftl_1_l. destruct (Z.testbit w k) eqn:E; cbn.
  - apply Z.eqb_neq. intros H. apply (f_equal (fun x => Z.testbit x k)) in H. rewrite Z.land_spec, E, Z.pow2_bits_true, Z.bits_0 in H by done. done.
  - apply Z.eqb_eq. apply Z.bits_inj'. intros i Hi. rewrite Z.land_spec, Z.bits_0, Z.pow2_bits_eqb by done. destruct (Z.eqb_spec k i) as [<-|]; [by rewrite E|apply andb_false_r].
Qed.
Definition occurs (occ : list Z) (b : Z) : bool := Z.testbit (occ !!! Z.to_nat (b / 64)) (b mod 64).
Record counted (ks : list ExScheduleKey) (occ : list Z) (cts : list (option Z)) : Prop := {
  cd_occ : length occ = Z.to_nat kExSchedBucketWords /\ Forall word64 occ;
  cd_cts : length cts = Z.to_nat kExSchedBuckets;
  cd_bit : forall b, 0 <= b < kExSchedBuckets -> occurs occ b = (0 <? neq b ks);
  cd_cnt : forall b, 0 <= b < kExSchedBuckets -> 0 < neq b ks -> cts !! Z.to_nat b = Some (Some (neq b ks)) }.
Lemma word_index b : 0 <= b < kExSchedBuckets -> Z.shiftr b 6 = b / 64 /\ Z.land b 63 = b mod 64 /\ 0 <= b / 64 < 3 /\ 0 <= b mod 64 < 64.
Proof.
  intros Hb. unfold kExSchedBuckets, kRobWindow, kExSchedClasses in Hb. rewrite Z.shiftr_div_pow2 by lia. change 63 with (2 ^ 6 - 1). rewrite land_ones_mod by lia.
  split; [done|]. split; [done|]. pose proof (Z.mod_pos_bound b 64 ltac:(lia)). pose proof (Z.div_mod b 64 ltac:(lia)). lia.
Qed.
Lemma occurs_set occ b b' : length occ = 3%nat -> 0 <= b < kExSchedBuckets -> 0 <= b' < kExSchedBuckets ->
  occurs (<[Z.to_nat (b / 64) := Z.lor (occ !!! Z.to_nat (b / 64)) (Z.shiftl 1 (b mod 64))]> occ) b' = (b =? b') || occurs occ b'.
Proof.
  intros Hl Hb Hb'. destruct (word_index b Hb) as (_ & _ & H1 & H2), (word_index b' Hb') as (_ & _ & H3 & H4).
  pose proof (Z.div_mod b 64 ltac:(lia)). pose proof (Z.div_mod b' 64 ltac:(lia)). unfold occurs. destruct (decide (b / 64 = b' / 64)) as [E|Hne].
  - rewrite <- E, list_lookup_total_insert_eq by lia. rewrite Z.lor_spec, Z.shiftl_1_l, Z.pow2_bits_eqb by lia.
    destruct (Z.eqb_spec (b mod 64) (b' mod 64)), (Z.eqb_spec b b'); try lia; by rewrite ?orb_true_r, ?orb_false_r.
  - rewrite list_lookup_total_insert_ne by lia. rewrite (proj2 (Z.eqb_neq b b')); [done|]. intros ->. lia.
Qed.
Lemma count_buckets_spec ks2 ks1 occ cts : Forall key_ok (ks1 ++ ks2) -> Z.of_nat (length (ks1 ++ ks2)) <= 255 -> counted ks1 occ cts ->
  exists occ' cts', count_buckets ks2 occ cts = Some (occ', cts') /\ counted (ks1 ++ ks2) occ' cts'.
Proof.
  revert ks1 occ cts. induction ks2 as [|k ks2 IH]; intros ks1 occ cts Hok Hlen Hc; cbn [count_buckets]; [eexists _, _; by rewrite app_nil_r|].
  assert (key_ok k) as Hk by (rewrite Forall_app, Forall_cons in Hok; tauto). pose proof (bucket_bounds k Hk) as Hb.
  destruct (word_index (bucket k) Hb) as (-> & -> & Hw & Hm). destruct Hc as [[Hl Hwd] Hcl Hbit Hcnt]. change (Z.to_nat kExSchedBucketWords) with 3%nat in Hl.
  set (w := occ !!! Z.to_nat (bucket k / 64)). assert (occ !! Z.to_nat (bucket k / 64) = Some w) as -> by (apply list_lookup_lookup_total_lt; lia). rewrite some_bind.
  assert (word64 w) as Hww by (rewrite Forall_lookup in Hwd; eapply Hwd, list_lookup_lookup_total_lt; lia).
  rewrite land_bit_zero by lia. change (Z.testbit w (bucket k mod 64)) with (occurs occ (bucket k)). rewrite (Hbit _ Hb).
  pose proof (neq_bounds (bucket k) ks1) as Hnb. rewrite length_app in Hlen. cbn [length] in Hlen.
  assert (forall b, neq b (ks1 ++ [k]) = neq b ks1 + (if bucket k =? b then 1 else 0)) as Hn by (intros b; by rewrite neq_app, neq_one).
  assert (length cts = 192%nat) as Hcl' by done. unfold kExSchedBuckets, kRobWindow, kExSchedClasses in Hb.
  assert (forall occ1 cts1 c, occ1 = (if 0 <? neq (bucket k) ks1 then occ else <[Z.to_nat (bucket k / 64) := Z.lor w (Z.shiftl 1 (bucket k mod 64))]> occ) ->
    length cts1 = 192%nat -> (forall b, 0 <= b < 192 -> bucket k <> b -> cts1 !! Z.to_nat b = cts !! Z.to_nat b) -> c = neq (bucket k) ks1 ->
    exists occ' cts', count_buckets ks2 occ1 (<[Z.to_nat (bucket k) := Some (u8 (c + 1))]> cts1) = Some (occ', cts') /\ counted (ks1 ++ k :: ks2) occ' cts') as Hnext.
  { intros occ1 cts1 c E1 Hl1 Hsame ->. rewrite cons_middle, app_assoc. apply IH; [by rewrite <- app_assoc|rewrite !length_app; cbn [length]; lia|]. split.
    - rewrite E1. destruct (0 <? _); [done|]. rewrite length_insert. split; [done|]. apply Forall_insert; [done|]. apply word64_lor; [done|].
      rewrite Z.shiftl_1_l. unfold word64. split; [apply Z.pow_nonneg; lia|]. change 18446744073709551616 with (2 ^ 64). apply Z.pow_lt_mono_r; lia.
    - by rewrite length_insert.
    - intros b Hb'. rewrite Hn, E1. destruct (Z.ltb_spec 0 (neq (bucket k) ks1)).
      + rewrite (Hbit b Hb'). destruct (Z.eqb_spec (bucket k) b) as [<-|]; [|by rewrite Z.add_0_r]. rewrite !(proj2 (Z.ltb_lt _ _)) by lia. done.
      + subst w. rewrite occurs_set, (Hbit b Hb') by done. destruct (Z.eqb_spec (bucket k) b) as [<-|]; [|by rewrite Z.add_0_r]. rewrite (proj2 (Z.ltb_lt _ (_ + 1))) by lia. done.
    - intros b Hb' Hpos. rewrite Hn in *. destruct (Z.eqb_spec (bucket k) b) as [<-|Hne].
      + rewrite list_lookup_insert_eq by lia. do 2 f_equal. unfold u8. apply Z.mod_small. lia.
      + rewrite list_lookup_insert_ne by lia. rewrite Hsame by (try done; lia). rewrite Z.add_0_r in *. by apply Hcnt. }
  destruct (Z.ltb_spec 0 (neq (bucket k) ks1)) as [Hpos|Hz]; cbn [negb].
  - rewrite (Hcnt _ ltac:(done) Hpos), !some_bind. by apply Hnext.
  - rewrite list_lookup_insert_eq by lia. rewrite !some_bind. apply Hnext; [done|by rewrite length_insert| |lia]. intros b Hb' Hne. apply list_lookup_insert_ne. lia.
Qed.

Section Cursors.
Context (ks : list ExScheduleKey) (occ : list Z) (cts : list (option Z)) (Hks : Forall key_ok ks) (Hn : Z.of_nat (length ks) <= 255) (Hc : counted ks occ cts).
(** Every occupied bucket below [x] has its cursor at its first place. *)
Definition cursored (x : Z) (curs : list (option Z)) : Prop :=
  length curs = Z.to_nat kExSchedBuckets /\ forall b, 0 <= b < kExSchedBuckets -> b < x -> 0 < neq b ks -> curs !! Z.to_nat b = Some (Some (nlt b ks)).
Lemma word_cursors_spec fuel word bits x curs : 0 <= word < 3 -> word64 bits -> 0 <= x <= 64 -> 64 - x <= Z.of_nat fuel ->
  (forall j, 0 <= j < 64 -> Z.testbit bits j = (x <=? j) && (0 <? neq (word * 64 + j) ks)) -> cursored (word * 64 + x) curs ->
  exists curs', word_cursors fuel word bits cts (nlt (word * 64 + x) ks) curs = Some (nlt ((word + 1) * 64) ks, curs') /\ cursored ((word + 1) * 64) curs'.
Proof.
  intros Hw. revert bits x curs. induction fuel as [|fuel IH]; intros bits x curs Hb Hx Hf Hbits [Hcl Hcv].
  all: assert (bits = 0 -> nlt (word * 64 + x) ks = nlt ((word + 1) * 64) ks /\ cursored ((word + 1) * 64) curs) as Hzero.
  1,3: intros ->; assert (forall b, word * 64 + x <= b < (word + 1) * 64 -> neq b ks = 0) as H0.
  1,3: (intros b Hb'; specialize (Hbits (b - word * 64) ltac:(lia)); rewrite Z.bits_0, (proj2 (Z.leb_le x _)) in Hbits by lia;
        cbn [andb] in Hbits; replace (word * 64 + (b - word * 64)) with b in Hbits by lia; symmetry in Hbits; apply Z.ltb_ge in Hbits; pose proof (neq_bounds b ks); lia).
  1,2: split; [apply nlt_gap; [lia|exact H0]|split; [done|]; intros b Hb1 Hb2 Hb3; apply Hcv; [done| |done];
        destruct (decide (b < word * 64 + x)); [done|]; rewrite H0 in Hb3 by lia; lia].
  - cbn [word_cursors]. assert (bits = 0) as ->.
    { apply Z.bits_inj'. intros j Hj. rewrite Z.bits_0. destruct (decide (j < 64)); [|by apply word64_high; [|lia]]. rewrite Hbits by lia.
      rewrite (proj2 (Z.leb_gt x j)) by lia. done. }
    destruct (Hzero eq_refl) as [-> H]. by exists curs.
  - cbn [word_cursors]. destruct (Z.eqb_spec bits 0) as [E|Hne]; [destruct (Hzero E) as [-> H]; by exists curs|].
    destruct (ctzll_spec bits Hb Hne) as (Ht & Htb & Htz). pose proof (land_pred bits) as Hlp. set (bit := ctzll bits) in *. clearbody bit. rewrite Hbits in Htb by lia.
    apply andb_prop in Htb as [Hxb%Z.leb_le Hpos%Z.ltb_lt]. set (b := word * 64 + bit) in *.
    assert (0 <= b < kExSchedBuckets) as Hbb by (unfold kExSchedBuckets, kRobWindow, kExSchedClasses; lia).
    rewrite (cd_cnt _ _ _ Hc b Hbb Hpos), !some_bind.
    assert (nlt (word * 64 + x) ks = nlt b ks) as Eb.
    { apply nlt_gap; [lia|]. intros b' Hb'. specialize (Htz (b' - word * 64) ltac:(lia)). rewrite Hbits, (proj2 (Z.leb_le x _)) in Htz by lia. cbn [andb] in Htz.
      replace (word * 64 + (b' - word * 64)) with b' in Htz by lia. apply Z.ltb_ge in Htz. pose proof (neq_bounds b' ks). lia. }
    rewrite Eb. pose proof (nlt_neq b ks) as Hnn. pose proof (nlt_bounds (b + 1) ks). pose proof (nlt_bounds b ks).
    assert (u8 (nlt b ks + neq b ks) = nlt (word * 64 + (bit + 1)) ks) as ->.
    { unfold u8. rewrite <- Hnn, Z.mod_small by lia. f_equal. lia. }
    apply IH; [by apply land_pred_word|lia|lia| |].
    + intros j Hj. rewrite Hlp, Hbits by (try done; lia). destruct (Z.leb_spec x j), (Z.leb_spec (bit + 1) j), (Z.eqb_spec bit j); cbn [andb negb]; try lia; rewrite ?andb_true_r, ?andb_false_r; try done.
      specialize (Htz j ltac:(lia)). rewrite Hbits, (proj2 (Z.leb_le x j)) in Htz by lia. exact Htz.
    + split; [by rewrite length_insert|]. intros b' Hb1 Hb2 Hb3. assert (length curs = 192%nat) as Hcl' by done. unfold kExSchedBuckets, kRobWindow, kExSchedClasses in *.
      destruct (decide (b' = b)) as [->|Hnb]; [apply list_lookup_insert_eq; lia|]. rewrite list_lookup_insert_ne by lia. apply Hcv; [done| |done].
      destruct (decide (b' < word * 64 + x)); [done|]. exfalso. pose proof (nlt_mono (b' + 1) b ks ltac:(lia)). pose proof (nlt_neq b' ks). pose proof (nlt_mono (word * 64 + x) b' ks ltac:(lia)). lia.
Qed.
Lemma all_cursors_spec : exists curs, all_cursors 0 occ cts 0 (replicate (Z.to_nat kExSchedBuckets) None) = Some curs /\ cursored kExSchedBuckets curs.
Proof.
  assert (forall l pre curs, occ = pre ++ l -> cursored (Z.of_nat (length pre) * 64) curs ->
    exists curs', all_cursors (Z.of_nat (length pre)) l cts (nlt (Z.of_nat (length pre) * 64) ks) curs = Some curs' /\ cursored kExSchedBuckets curs') as H.
  { induction l as [|bits l IH]; intros pre curs E Hcur; cbn [all_cursors].
    - destruct (cd_occ _ _ _ Hc) as [Hl _]. rewrite E, app_nil_r in Hl. rewrite Hl in Hcur. by exists curs.
    - destruct (cd_occ _ _ _ Hc) as [Hl Hwd]. rewrite E, length_app in Hl. cbn [length] in Hl. change (Z.to_nat kExSchedBucketWords) with 3%nat in Hl.
      assert (word64 bits) as Hb by (rewrite E, Forall_app, Forall_cons in Hwd; tauto).
      destruct (word_cursors_spec 64 (Z.of_nat (length pre)) bits 0 curs) as (curs1 & E1 & H1); [lia|done|lia|lia| |by rewrite Z.add_0_r|].
      + intros j Hj. rewrite (proj2 (Z.leb_le 0 j)) by lia. cbn [andb]. rewrite <- (cd_bit _ _ _ Hc) by (unfold kExSchedBuckets, kRobWindow, kExSchedClasses; lia). unfold occurs.
        rewrite Z.div_add_l, (Z.div_small j), Z.add_0_r, Nat2Z.id by lia. rewrite Z.add_comm, Z_mod_plus_full, Z.mod_small by lia. f_equal. rewrite E.
        symmetry. apply list_lookup_total_correct. rewrite lookup_app_r, Nat.sub_diag by done. done.
      + rewrite Z.add_0_r in E1. rewrite E1, some_bind. specialize (IH (pre ++ [bits]) curs1). rewrite length_app in IH. cbn [length] in IH.
        replace (Z.of_nat (length pre + 1)) with (Z.of_nat (length pre) + 1) in IH by lia. apply IH; [by rewrite <- app_assoc|done]. }
  destruct (H occ [] (replicate (Z.to_nat kExSchedBuckets) None) eq_refl) as (curs & E & Hcur).
  - split; [apply length_replicate|]. cbn [length]. intros b Hb1 Hb2. lia.
  - cbn [length] in E. change (Z.of_nat 0 * 64) with 0 in E. rewrite nlt_0 in E by done. by exists curs.
Qed.
End Cursors.

Lemma place_tasks_spec B ts ks ts2 ts1 ks1 ks2 curs ordered : Forall key_ok ks -> Z.of_nat (length ks) <= 255 -> (length ks <= B)%nat ->
  ks = ks1 ++ ks2 -> ts = ts1 ++ ts2 -> length ts1 = length ks1 -> length ts2 = length ks2 ->
  length curs = Z.to_nat kExSchedBuckets -> (forall b, 0 <= b < kExSchedBuckets -> 0 < neq b ks -> curs !! Z.to_nat b = Some (Some (nlt b ks + neq b ks1))) ->
  length ordered = B -> (forall b j x, 0 <= b < kExSchedBuckets -> in_bucket b ts1 ks1 !! j = Some x -> ordered !! (Z.to_nat (nlt b ks) + j)%nat = Some (Some x)) ->
  exists out, place_tasks ts2 ks2 curs ordered = Some out /\ length out = B /\
    forall b j x, 0 <= b < kExSchedBuckets -> in_bucket b ts ks !! j = Some x -> out !! (Z.to_nat (nlt b ks) + j)%nat = Some (Some x).
Proof.
  intros Hok Hn HB. revert ts1 ks1 ks2 curs ordered. induction ts2 as [|t ts2 IH]; intros ts1 ks1 [|k ks2] curs ordered Eks Ets Hl1 Hl2 Hcl Hcv Hol Hov; try done; cbn [place_tasks].
  - exists ordered. rewrite !app_nil_r in *. by subst.
  - assert (key_ok k) as Hk by (rewrite Eks, Forall_app, Forall_cons in Hok; tauto). pose proof (bucket_bounds k Hk) as Hb. set (b := bucket k) in *.
    assert (neq b ks = neq b ks1 + 1 + neq b ks2) as Hnb by (rewrite Eks, cons_middle, !neq_app, neq_one; fold b; rewrite Z.eqb_refl; lia).
    pose proof (neq_bounds b ks1). pose proof (neq_bounds b ks2). pose proof (nlt_bounds b ks). pose proof (nlt_bounds (b + 1) ks). pose proof (nlt_neq b ks).
    rewrite (Hcv b Hb) by lia. rewrite !some_bind. rewrite decide_True by lia.
    assert (forall b', neq b' (ks1 ++ [k]) = neq b' ks1 + (if b =? b' then 1 else 0)) as Hsn by (intros b'; by rewrite neq_app, neq_one).
    assert (length curs = 192%nat) as Hcl' by done. assert (0 <= b < 192) as Hb192 by done.
    apply (IH (ts1 ++ [t]) (ks1 ++ [k]) ks2); [by rewrite <- app_assoc|by rewrite <- app_assoc|rewrite !length_app; cbn; lia|by injection Hl2|by rewrite length_insert| |by rewrite length_insert|].
    + intros b' Hb' Hpos. rewrite Hsn. destruct (Z.eqb_spec b b') as [<-|Hne].
      * rewrite list_lookup_insert_eq by lia. do 2 f_equal. unfold u8. rewrite Z.mod_small by lia. lia.
      * rewrite list_lookup_insert_ne by lia. rewrite Z.add_0_r. by apply Hcv.
    + intros b' j x Hb' Hj. rewrite in_bucket_app in Hj by done. cbn [in_bucket] in Hj. fold b in Hj.
      pose proof (in_bucket_length b' ts1 ks1 Hl1) as Hlb. apply lookup_app_Some in Hj as [Hj|[Hge Hj]].
      * rewrite list_lookup_insert_ne; [by apply (Hov b' j x)|]. pose proof (lookup_lt_Some _ _ _ Hj). pose proof (nlt_neq b' ks). pose proof (nlt_bounds b' ks).
        assert (neq b' ks1 <= neq b' ks) by (rewrite Eks, neq_app; pose proof (neq_bounds b' (k :: ks2)); lia).
        destruct (Z.lt_trichotomy b' b) as [Hlt|[->|Hgt]]; [|lia|].
        -- pose proof (nlt_mono (b' + 1) b ks ltac:(lia)). lia.
        -- pose proof (nlt_mono (b + 1) b' ks ltac:(lia)). lia.
      * destruct (Z.eqb_spec b b') as [<-|]; [|done]. destruct (j - length (in_bucket b ts1 ks1))%nat as [|?] eqn:Ej; [|done]. injection Hj as <-.
        replace (Z.to_nat (nlt b ks) + j)%nat with (Z.to_nat (nlt b ks + neq b ks1)) by lia. apply list_lookup_insert_eq. lia.
Qed.
Lemma counting_sort_spec B ts ks : length ts = length ks -> Forall key_ok ks -> Z.of_nat (length ks) <= 255 -> (length ks <= B)%nat ->
  counting_sort B ts ks = Some (bucket_sort (Z.to_nat kExSchedBuckets) ts ks).
Proof.
  intros Hl Hok Hn HB. unfold counting_sort. destruct (count_buckets_spec ks [] (replicate (Z.to_nat kExSchedBucketWords) 0) (replicate (Z.to_nat kExSchedBuckets) None)) as (occ & cts & E & Hc); [done..| |].
  { split; [split; [done|by repeat constructor]|done| |]; intros b Hb; [|done]. change (neq b []) with 0. unfold occurs. destruct (word_index b Hb) as (_ & _ & Hw & _).
    change (replicate _ 0) with [0; 0; 0]. assert (b / 64 = 0 \/ b / 64 = 1 \/ b / 64 = 2) as [->|[->| ->]] by lia; apply Z.bits_0. }
  rewrite E, some_bind. cbn [app] in Hc. destruct (all_cursors_spec ks occ cts Hok Hn Hc) as (curs & E2 & Hcl & Hcv). rewrite E2, some_bind.
  destruct (place_tasks_spec B ts ks ts [] [] ks curs (replicate B None)) as (out & E3 & Hol & Hov); [done..| | | |].
  { intros b Hb Hpos. change (neq b []) with 0. rewrite Z.add_0_r. apply Hcv; [done|lia|done]. }
  { apply length_replicate. }
  { done. }
  rewrite E3, some_bind. set (R := bucket_sort (Z.to_nat kExSchedBuckets) ts ks). assert (take (length ts) out = Some <$> R) as ->.
  { pose proof (bucket_sort_length (Z.to_nat kExSchedBuckets) ts ks Hl Hok) as HR. rewrite Z2Nat.id, nlt_top in HR by done. fold R in HR.
    apply list_eq. intros p. rewrite list_lookup_fmap. destruct (R !! p) as [x|] eqn:Ex; cbn.
    - pose proof (lookup_lt_Some _ _ _ Ex). rewrite lookup_take_lt by lia. destruct (bucket_sort_elem _ _ _ _ _ Hl Hok Ex) as (b & j & Hb & Hj & ->). apply Hov; [|done].
      rewrite Z2Nat.id in Hb by done. done.
    - apply lookup_ge_None in Ex. apply lookup_ge_None_2. rewrite length_take. lia. }
  clear. induction R as [|x R IH]; [done|]. cbn. by rewrite IH.
Qed.

(** * The chain table *)
Section Chain.
Context (BatchOps : nat) (e : Z) (He : 0 <= e) (Hpow : kChainSlots BatchOps = 2 ^ e) (tasks : list Task) (Hn : (length tasks <= BatchOps)%nat).
Abbreviation N := (kChainSlots BatchOps).
Abbreviation find := (chain_find BatchOps).
Definition chain_start (c : Z) : Z := Z.land (u32 (chain_hash c)) (N - 1).

Lemma slots_pos : 0 < N.
Proof. rewrite Hpow. by apply Z.pow_pos_nonneg. Qed.
Lemma mask_mod x : Z.land x (N - 1) = x mod N.
Proof. rewrite Hpow. by apply land_ones_mod. Qed.
Lemma start_range c : 0 <= chain_start c < N.
Proof. unfold chain_start. rewrite mask_mod. apply Z.mod_pos_bound, slots_pos. Qed.
Lemma find_some fuel ch c x s : length ch = Z.to_nat N -> 0 <= x < N -> find fuel ch c x = Some s ->
  0 <= s < N /\ (ch !! Z.to_nat s = Some None \/ exists j, ch !! Z.to_nat s = Some (Some (c, j))).
Proof.
  intros Hl. revert x. induction fuel as [|fuel IH]; intros x Hx; [done|]. cbn [chain_find]. destruct (ch !! Z.to_nat x) as [[[c' j]|]|] eqn:E; cbn [mbind option_bind]; [|intros H; injection H as <-; by auto|done].
  destruct (Z.eqb_spec c' c) as [->|]; [intros H; injection H as <-; split; [done|right; by exists j]|]. rewrite mask_mod. apply IH, Z.mod_pos_bound, slots_pos.
Qed.
Lemma find_none fuel ch c x : length ch = Z.to_nat N -> 0 <= x < N -> find fuel ch c x = None ->
  forall k, 0 <= k < Z.of_nat fuel -> exists q, ch !! Z.to_nat ((x + k) mod N) = Some (Some q).
Proof.
  intros Hl. revert x. induction fuel as [|fuel IH]; intros x Hx; [lia|]. cbn [chain_find].
  destruct (lookup_lt_is_Some_2 ch (Z.to_nat x) ltac:(lia)) as [[[c' j]|] E]; rewrite E; cbn [mbind option_bind]; [|done].
  destruct (Z.eqb_spec c' c); [done|]. rewrite mask_mod. pose proof slots_pos as Hp. intros H k Hk. destruct (decide (k = 0)) as [->|].
  - rewrite Z.add_0_r, Z.mod_small by lia. by eexists.
  - destruct (IH _ (Z.mod_pos_bound _ _ slots_pos) H (k - 1) ltac:(lia)) as (q & Hq). exists q. rewrite Zplus_mod_idemp_l in Hq. by replace (x + 1 + (k - 1)) with (x + k) in Hq by lia.
Qed.
Definition nocc (ch : list (option (Z * nat))) : Z := foldr (fun e n => (match e with Some _ => 1 | None => 0 end) + n) 0 ch.
Lemma nocc_full ch : (forall i, (i < length ch)%nat -> exists q, ch !! i = Some (Some q)) -> nocc ch = Z.of_nat (length ch).
Proof.
  induction ch as [|q ch IH]; intros H; [done|]. destruct (H 0%nat ltac:(cbn; lia)) as (q' & [= ->]). unfold nocc in *. cbn [foldr length].
  rewrite IH by (intros i Hi; apply (H (S i)); cbn; lia). lia.
Qed.
Lemma nocc_set ch s q old : ch !! s = Some old -> nocc (<[s := Some q]> ch) = nocc ch + (match old with Some _ => 0 | None => 1 end).
Proof.
  revert s. induction ch as [|x ch IH]; intros [|s] E; cbn in *; [done..| |].
  - injection E as ->. destruct old; lia.
  - change (foldr _ 0 (<[s:=Some q]> ch)) with (nocc (<[s:=Some q]> ch)). rewrite (IH s E). unfold nocc. lia.
Qed.
Lemma find_total ch c : length ch = Z.to_nat N -> nocc ch < N -> is_Some (find (length ch) ch c (chain_start c)).
Proof.
  intros Hl Ho. destruct (find (length ch) ch c (chain_start c)) as [s|] eqn:E; [done|]. exfalso. pose proof slots_pos as Hp.
  pose proof (find_none _ ch c _ Hl (start_range c) E) as H. rewrite (nocc_full ch) in Ho; [lia|]. intros i Hi.
  destruct (H ((Z.of_nat i - chain_start c) mod N)) as (q & Hq); [pose proof (Z.mod_pos_bound (Z.of_nat i - chain_start c) N ltac:(lia)); lia|]. exists q. rewrite <- Hq. f_equal.
  rewrite Zplus_mod_idemp_r. replace (chain_start c + (Z.of_nat i - chain_start c)) with (Z.of_nat i) by lia. rewrite Z.mod_small by lia. lia.
Qed.
Lemma find_set_self fuel ch c x s j : length ch = Z.to_nat N -> 0 <= x < N -> find fuel ch c x = Some s -> find fuel (<[Z.to_nat s := Some (c, j)]> ch) c x = Some s.
Proof.
  intros Hl. revert x. induction fuel as [|fuel IH]; intros x Hx H; [done|]. pose proof (find_some (S fuel) ch c x s Hl Hx H) as [Hs _]. cbn [chain_find] in *.
  destruct (decide (x = s)) as [->|Hne]; [rewrite list_lookup_insert_eq by lia; rewrite some_bind; by rewrite Z.eqb_refl|].
  rewrite list_lookup_insert_ne by lia. destruct (ch !! Z.to_nat x) as [[[c' j']|]|]; cbn [mbind option_bind] in *; [|congruence|done].
  destruct (c' =? c); [congruence|]. apply IH; [|done]. rewrite mask_mod. apply Z.mod_pos_bound, slots_pos.
Qed.
Lemma find_set_other fuel ch c c' x s s' j j' : length ch = Z.to_nat N -> 0 <= x < N -> 0 <= s < N -> c <> c' ->
  (ch !! Z.to_nat s = Some None \/ exists q, ch !! Z.to_nat s = Some (Some (c, q))) ->
  find fuel ch c' x = Some s' -> ch !! Z.to_nat s' = Some (Some (c', j')) -> find fuel (<[Z.to_nat s := Some (c, j)]> ch) c' x = Some s'.
Proof.
  intros Hl Hx Hs Hcc Hold. revert x Hx. induction fuel as [|fuel IH]; intros x Hx H Hs'; [done|]. cbn [chain_find] in *.
  assert (0 <= Z.land (x + 1) (N - 1) < N) as Hnx by (rewrite mask_mod; apply Z.mod_pos_bound, slots_pos).
  destruct (decide (x = s)) as [->|Hne].
  - rewrite list_lookup_insert_eq by lia. rewrite some_bind, (proj2 (Z.eqb_neq c c')) by done. destruct Hold as [Ho|(q & Ho)]; rewrite Ho in H; cbn [mbind option_bind] in H.
    + injection H as <-. congruence.
    + rewrite (proj2 (Z.eqb_neq c c')) in H by done. by apply IH.
  - rewrite list_lookup_insert_ne by lia. destruct (ch !! Z.to_nat x) as [[[c2 j2]|]|]; cbn [mbind option_bind] in *; [|done|done].
    destruct (c2 =? c'); [done|]. by apply IH.
Qed.

Abbreviation cl := (fun i : nat => client (tasks !!! i)).
Record chain_inv (i : nat) (ch : list (option (Z * nat))) : Prop := {
  ch_length : length ch = Z.to_nat N;
  ch_occ : nocc ch <= Z.of_nat i;
  ch_last : forall s c j, ch !! Z.to_nat s = Some (Some (c, j)) -> 0 <= s -> (j < i)%nat /\ cl j = c /\ forall j', (j < j' < i)%nat -> cl j' <> c;
  ch_seen : forall j, (j < i)%nat -> exists s q, find (length ch) ch (cl j) (chain_start (cl j)) = Some s /\ ch !! Z.to_nat s = Some (Some (cl j, q));
  ch_unique : forall s s' c j j', 0 <= s -> 0 <= s' -> ch !! Z.to_nat s = Some (Some (c, j)) -> ch !! Z.to_nat s' = Some (Some (c, j')) -> s = s' }.
Lemma chain_step i ch s : chain_inv i ch -> find (length ch) ch (cl i) (chain_start (cl i)) = Some s -> chain_inv (S i) (<[Z.to_nat s := Some (cl i, i)]> ch).
Proof.
  intros [Hl Ho Hlast Hseen Huniq] Hf. destruct (find_some _ _ _ _ _ Hl (start_range _) Hf) as [Hs Hold].
  assert (forall s' q, 0 <= s' -> ch !! Z.to_nat s' = Some (Some (cl i, q)) -> s' = s) as Hown.
  { intros s' q Hs' E. destruct (Hlast s' _ q E Hs') as (Hq & Eq & _). destruct (Hseen q Hq) as (s2 & q2 & E2 & E3). rewrite Eq in *. rewrite Hf in E2. injection E2 as <-.
    eapply (Huniq s' s _ q q2); [lia|lia|exact E|exact E3]. }
  split.
  - by rewrite length_insert.
  - destruct Hold as [E|(q & E)]; rewrite (nocc_set _ _ _ _ E); lia.
  - intros s' c j E Hs'. destruct (decide (s' = s)) as [->|Hne].
    + rewrite list_lookup_insert_eq in E by lia. injection E as <- <-. split_and!; [lia|done|]. intros j' Hj'. lia.
    + rewrite list_lookup_insert_ne in E by lia. destruct (Hlast s' c j E Hs') as (Hj & Ej & Hafter). split_and!; [lia|done|]. intros j' Hj'. destruct (decide (j' = i)) as [->|]; [|apply Hafter; lia].
      intros Ec. apply Hne. eapply Hown; [done|]. by rewrite Ec.
  - intros j Hj. rewrite length_insert. destruct (decide (cl j = cl i)) as [Ec|Hnc].
    + exists s, i. rewrite Ec. split; [by apply find_set_self; [|apply start_range|]|]. rewrite list_lookup_insert_eq by lia. done.
    + destruct (Hseen j) as (s' & q & E1 & E2). { destruct (decide (j = i)) as [->|]; [done|lia]. }
      exists s', q. assert (s' <> s) as Hne. { intros ->. destruct Hold as [E|(q' & E)]; rewrite E in E2; [done|]. injection E2 as E2 _. by rewrite E2 in Hnc. }
      destruct (find_some _ _ _ _ _ Hl (start_range _) E1) as [Hs' _].
      split; [eapply (find_set_other _ _ _ _ _ s s' i q); [done|apply start_range|done|by apply not_eq_sym|done|done|done]|].
      rewrite list_lookup_insert_ne by lia. done.
  - intros s1 s2 c j1 j2 H1 H2 E1 E2. destruct (decide (s1 = s)) as [->|N1], (decide (s2 = s)) as [->|N2]; [done| | |].
    + rewrite list_lookup_insert_eq in E1 by lia. injection E1 as <- <-. rewrite list_lookup_insert_ne in E2 by lia. symmetry. by eapply Hown.
    + rewrite list_lookup_insert_eq in E2 by lia. injection E2 as <- <-. rewrite list_lookup_insert_ne in E1 by lia. by eapply Hown.
    + rewrite list_lookup_insert_ne in E1, E2 by lia. by eapply Huniq.
Qed.

Abbreviation oid := (fun i : nat => op_id (tasks !!! i)).
Definition ids_increase (i : nat) : Prop := forall a b, (a < b < i)%nat -> cl a = cl b -> oid a < oid b.
Lemma ids_first i ch s : chain_inv i ch -> ids_increase i -> find (length ch) ch (cl i) (chain_start (cl i)) = Some s -> ch !! Z.to_nat s = Some None -> ids_increase (S i).
Proof.
  intros Hi Hinc Hf Hs a b Hab Hc. destruct (decide (b = i)) as [->|]; [|apply Hinc; [lia|done]].
  destruct (ch_seen i ch Hi a ltac:(lia)) as (s' & q & E1 & E2). rewrite Hc, Hf in E1. injection E1 as <-. by rewrite Hs in E2.
Qed.
Lemma ids_next i ch s c j : chain_inv i ch -> ids_increase i -> 0 <= s -> ch !! Z.to_nat s = Some (Some (c, j)) -> c = cl i -> oid j < oid i -> ids_increase (S i).
Proof.
  intros Hi Hinc Hs E -> Hlt a b Hab Hc. destruct (decide (b = i)) as [->|]; [|apply Hinc; [lia|done]].
  destruct (ch_last i ch Hi s _ j E Hs) as (Hj & Ej & Hafter). destruct (decide (a = j)) as [->|]; [done|].
  assert (a < j)%nat by (destruct (decide (j < a)%nat); [exfalso; apply (Hafter a); [lia|done]|lia]). pose proof (Hinc a j ltac:(lia) ltac:(congruence)) as Haj. cbn beta in *. lia.
Qed.
Lemma set_len ks i l : length ks = length tasks -> (i < length tasks)%nat -> Forall key_ok ks -> 0 <= l < kExSchedClasses ->
  Forall key_ok (<[i := mkKey (rank (ks !!! i)) l]> ks) /\ rank <$> <[i := mkKey (rank (ks !!! i)) l]> ks = rank <$> ks.
Proof.
  intros Hl Hi Hok Hr. destruct (lookup_lt_is_Some_2 ks i ltac:(lia)) as [k E]. rewrite (list_lookup_total_correct _ _ _ E). split.
  - apply Forall_insert; [done|]. split; [|done]. apply (proj1 (Forall_lookup_1 _ _ _ _ Hok E)).
  - rewrite list_fmap_insert. cbn. apply list_insert_id. by rewrite list_lookup_fmap, E.
Qed.
Lemma len_ok ks i : Forall key_ok ks -> (i < length ks)%nat -> 0 <= len (ks !!! i) < kExSchedClasses.
Proof. intros Hok Hi. destruct (lookup_lt_is_Some_2 ks i Hi) as [k E]. rewrite (list_lookup_total_correct _ _ _ E). apply (proj2 (Forall_lookup_1 _ _ _ _ Hok E)). Qed.
Lemma widen_spec k i ch ks : (i + k)%nat = length tasks -> length ks = length tasks -> Forall key_ok ks -> chain_inv i ch -> ids_increase i ->
  exists r, widen BatchOps tasks k i ch ks = Some r /\
    match r with None => True | Some ks' => length ks' = length tasks /\ Forall key_ok ks' /\ rank <$> ks' = rank <$> ks /\ ids_increase (length tasks) end.
Proof.
  revert i ch ks. induction k as [|k IH]; intros i ch ks Hik Hl Hok Hi Hinc; cbn [widen].
  { exists (Some ks). rewrite Nat.add_0_r in Hik. subst i. done. }
  assert (nocc ch < N) as Hocc by (pose proof (ch_occ i ch Hi); unfold kChainSlots; lia).
  destruct (find_total ch (cl i) (ch_length i ch Hi) Hocc) as [s Hf]. unfold chain_start in Hf at 1. rewrite Hf, some_bind. fold (chain_start (cl i)) in Hf.
  pose proof (chain_step i ch s Hi Hf) as Hstep. destruct (find_some _ _ _ _ _ (ch_length i ch Hi) (start_range _) Hf) as [Hs [E|(j & E)]]; rewrite E, some_bind.
  - pose proof (ids_first i ch s Hi Hinc Hf E) as Hinc'. set (key' := if negb _ then _ else _).
    assert (exists l, 0 <= l < kExSchedClasses /\ key' = mkKey (rank (ks !!! i)) l) as (l & Hr & ->).
    { unfold key'. destruct (negb _); [by exists kLong|]. exists (len (ks !!! i)). split; [apply len_ok; [done|lia]|by destruct (ks !!! i)]. }
    destruct (set_len ks i l Hl ltac:(lia) Hok Hr) as [Hok' Hrk]. rewrite <- Hrk. apply IH; [lia|by rewrite length_insert|done..].
  - destruct (Z.leb_spec (oid i) (oid j)) as [|Hlt]; [by exists None|]. pose proof (ids_next i ch s _ j Hi Hinc ltac:(lia) E eq_refl Hlt) as Hinc'.
    set (l := if negb _ then _ else _). destruct (ch_last i ch Hi s _ j E ltac:(lia)) as (Hj & _).
    assert (0 <= l < kExSchedClasses) as Hr. { unfold l. destruct (negb _); [done|]. pose proof (len_ok ks i Hok ltac:(lia)). pose proof (len_ok ks j Hok ltac:(lia)). lia. }
    destruct (set_len ks i l Hl ltac:(lia) Hok Hr) as [Hok' Hrk]. rewrite <- Hrk. apply IH; [lia|by rewrite length_insert|done..].
Qed.
Lemma chain_empty : chain_inv 0 (replicate (Z.to_nat N) None).
Proof.
  split; [apply length_replicate| |intros s c j E _; by apply lookup_replicate in E as [? _]|lia|intros s s' c j j' _ _ E; by apply lookup_replicate in E as [? _]].
  induction (Z.to_nat N) as [|m IH]; [done|]. done.
Qed.
End Chain.

(** * The samples *)
Section Sample.
Context (tasks : list Task) (head : nat -> Z -> Z) (ls : list Z).
(** The window head of a connection only advances; the samples go from the newest task to the oldest. *)
Context (Hhead : forall i c, 0 <= head i c < 2 ^ 63) (Hadv : forall i j c, (i <= j)%nat -> head j c <= head i c).
Context (Hids : Forall (fun t => client t <> 0 /\ 0 <= op_id t < 2 ^ 63) tasks) (Hls : length ls = length tasks) (Hcls : Forall (fun l => 0 <= l < kExSchedClasses) ls).
Abbreviation n := (length tasks).

Record sampled_at (i : nat) (c h : Z) (ks : list ExScheduleKey) (hs : nat -> Z) : Prop := {
  sa_length : (length ks + i = n)%nat;
  sa_key : forall j k, ks !! j = Some k -> key_ok k /\ rank k = op_id (tasks !!! (i + j)%nat) - hs (i + j)%nat;
  sa_mono : forall a b, (i <= a < b)%nat -> (b < n)%nat -> client (tasks !!! a) = client (tasks !!! b) -> hs b <= hs a;
  sa_next : forall b j, (i <= b < n)%nat -> (j < i)%nat -> hs b <= head j (client (tasks !!! b));
  sa_last : c <> 0 -> 0 <= h < 2 ^ 63 /\ (forall j, (j < i)%nat -> h <= head j c) /\ forall b, (i <= b < n)%nat -> client (tasks !!! b) = c -> hs b <= h }.
Lemma distance_exact o h : 0 <= o < 2 ^ 63 -> 0 <= h < 2 ^ 63 -> u64 (o - h) < kRobWindow -> u8 (u64 (o - h)) = o - h /\ 0 <= o - h < kRobWindow.
Proof.
  intros Ho Hh. unfold u64, u8, kRobWindow. destruct (decide (0 <= o - h)).
  - rewrite (Z.mod_small (o - h)) by lia. intros H. rewrite Z.mod_small by lia. lia.
  - rewrite <- (Z.mod_add _ 1) by lia. rewrite Z.mod_small by lia. lia.
Qed.
Lemma sample_step i c h ks hs : sampled_at (S i) c h ks hs ->
  let t := tasks !!! i in
  let '(c', h') := if negb (client t =? c) then (client t, head i (client t)) else (c, h) in
  u64 (op_id t - h') < kRobWindow -> sampled_at i c' h' (mkKey (u8 (u64 (op_id t - h'))) (ls !!! i) :: ks) (fun j => if decide (j = i) then h' else hs j).
Proof.
  intros [Hl Hk Hm Hn Hla]. cbn zeta. destruct (lookup_lt_is_Some_2 tasks i ltac:(lia)) as [t Et]. rewrite (list_lookup_total_correct _ _ _ Et).
  destruct (lookup_lt_is_Some_2 ls i ltac:(lia)) as [l El]. rewrite (list_lookup_total_correct _ _ _ El). pose proof (Forall_lookup_1 _ _ _ _ Hcls El) as Hcl.
  destruct (Forall_lookup_1 _ _ _ _ Hids Et) as [Hnz Hop]. assert (tasks !!! i = t) as Eti by (by apply list_lookup_total_correct).
  destruct (if negb (client t =? c) then _ else _) as [c' h'] eqn:E.
  assert (c' = client t /\ 0 <= h' < 2 ^ 63 /\ (forall j, (j <= i)%nat -> h' <= head j c') /\ forall b, (i < b < n)%nat -> client (tasks !!! b) = c' -> hs b <= h') as (-> & Hh & Hhj & Hhb).
  { destruct (Z.eqb_spec (client t) c) as [Ec|Ec]; cbn in E; injection E as <- <-.
    - destruct (Hla ltac:(congruence)) as (H1 & H2 & H3). split_and!; [done|lia|lia| |]; [intros j Hj; apply H2; lia|intros b Hb; apply H3; lia].
    - split_and!; [done|apply Hhead|apply Hhead| |]; [intros j Hj; by apply Hadv|intros b Hb <-; apply Hn; lia]. }
  intros Hd. destruct (distance_exact _ _ Hop Hh Hd) as [Hrk Hrg]. split.
  - cbn [length]. lia.
  - intros [|j] k Ek; cbn in Ek.
    + injection Ek as <-. rewrite Nat.add_0_r, decide_True by done. rewrite Eti. cbn. split; [split; cbn; [lia|done]|lia].
    + destruct (Hk j k Ek) as [H1 H2]. rewrite decide_False by lia. replace (i + S j)%nat with (S i + j)%nat by lia. done.
  - intros a b Hab Hb Hc. rewrite (decide_False (P := b = i)) by lia. destruct (decide (a = i)) as [->|]; [|apply Hm; [lia..|done]]. apply Hhb; [lia|]. by rewrite <- Hc, Eti.
  - intros b j Hb Hj. destruct (decide (b = i)) as [->|]; [rewrite Eti; apply Hhj; lia|apply Hn; lia].
  - intros _. split; [done|]. split; [intros j Hj; apply Hhj; lia|]. intros b Hb Hc. destruct (decide (b = i)) as [->|]; [done|apply Hhb; [lia|done]].
Qed.
Lemma sample_spec i c h s hs : sampled_at i c h (keys s) hs -> forall s', sample_heads head tasks ls i c h s = Some s' -> exists c' h' hs', sampled_at 0 c' h' (keys s') hs'.
Proof.
  revert c h s hs. induction i as [|i IH]; intros c h s hs Hs s'; cbn [sample_heads]; [intros [= <-]; by exists c, h, hs|].
  pose proof (sample_step i c h (keys s) hs Hs) as Hst. cbn zeta in Hst. destruct (if negb _ then _ else _) as [c' h'].
  destruct (Z.leb_spec kRobWindow (u64 (op_id (tasks !!! i) - h'))) as [|Hd]; [done|]. intros H. eapply IH; [|exact H]. cbn [keys]. by apply Hst.
Qed.
(** Within a connection whose ids increase, so do the ranks. *)
Lemma sample_ranks s' : sample_heads head tasks ls n 0 0 (mkSampled [] 255 0 0 true) = Some s' ->
  length (keys s') = n /\ Forall key_ok (keys s') /\
  forall a b ka kb, (a < b)%nat -> keys s' !! a = Some ka -> keys s' !! b = Some kb -> client (tasks !!! a) = client (tasks !!! b) ->
    op_id (tasks !!! a) < op_id (tasks !!! b) -> rank ka < rank kb.
Proof.
  intros H. destruct (sample_spec n 0 0 (mkSampled [] 255 0 0 true) (fun _ => 0)) with (s' := s') as (c & h & hs & [Hl Hk Hm _ _]); [|done|].
  { split; [done|done|lia|lia|done]. }
  split; [lia|]. split; [apply Forall_lookup_2; intros j k E; apply (Hk j k E)|]. intros a b ka kb Hab Ea Eb Hc Hop.
  destruct (Hk a ka Ea) as [_ Ra], (Hk b kb Eb) as [_ Rb]. pose proof (lookup_lt_Some _ _ _ Eb). pose proof (Hm a b ltac:(lia) ltac:(lia) Hc). cbn in Ra, Rb. lia.
Qed.
End Sample.

(** * What the bucket sort keeps *)
Lemma bucket_sort_late m t k ts ks : Z.of_nat m <= bucket k -> bucket_sort m (t :: ts) (k :: ks) = bucket_sort m ts ks.
Proof. induction m as [|m IH]; intros H; [done|]. rewrite !bucket_sort_S, IH by lia. cbn [in_bucket]. by rewrite (proj2 (Z.eqb_neq _ _)) by lia. Qed.
Lemma bucket_sort_perm m ts ks : length ts = length ks -> Forall (fun k => 0 <= bucket k < Z.of_nat m) ks -> bucket_sort m ts ks ≡ₚ ts.
Proof.
  revert ks. induction ts as [|t ts IH]; intros [|k ks] Hl Hb; try done.
  { clear. induction m as [|m IH]; [done|]. rewrite bucket_sort_S. cbn. by rewrite IH. }
  apply Forall_cons in Hb as [Hk Hb]. rewrite <- (IH ks) at 2 by (done || by injection Hl). clear IH Hl Hb. induction m as [|m IH]; [lia|]. rewrite !bucket_sort_S. cbn [in_bucket].
  destruct (Z.eqb_spec (bucket k) (Z.of_nat m)) as [E|]; [rewrite bucket_sort_late by lia; by rewrite Permutation_middle|]. rewrite IH by lia. done.
Qed.
Definition of_client (c : Z) (ts : list Task) : list Task := filter (fun t => client t = c) ts.
Lemma of_client_app c ts ts' : of_client c (ts ++ ts') = of_client c ts ++ of_client c ts'.
Proof. apply filter_app. Qed.
Lemma of_client_none c m ts ks : length ts = length ks -> (forall j t k, ts !! j = Some t -> ks !! j = Some k -> client t = c -> Z.of_nat m <= bucket k) ->
  of_client c (bucket_sort m ts ks) = [].
Proof.
  intros Hl H. induction m as [|m IH]; [done|]. rewrite bucket_sort_S, of_client_app, IH by (intros j t k E1 E2 E3; specialize (H j t k E1 E2 E3); lia). cbn [app]. clear IH.
  revert ks Hl H. induction ts as [|t ts IH]; intros [|k ks] Hl H; try done. cbn [in_bucket].
  assert (of_client c (in_bucket (Z.of_nat m) ts ks) = []) as E by (apply IH; [by injection Hl|intros j; apply (H (S j))]).
  destruct (Z.eqb_spec (bucket k) (Z.of_nat m)) as [Eb|]; [|done]. unfold of_client in *. rewrite filter_cons_False; [done|]. intros Hc. specialize (H 0%nat t k eq_refl eq_refl Hc). lia.
Qed.
Lemma of_client_bucket_sort c m ts ks : length ts = length ks -> Forall (fun k => 0 <= bucket k < Z.of_nat m) ks ->
  (forall a b ta tb ka kb, (a < b)%nat -> ts !! a = Some ta -> ts !! b = Some tb -> ks !! a = Some ka -> ks !! b = Some kb -> client ta = client tb -> bucket ka < bucket kb) ->
  of_client c (bucket_sort m ts ks) = of_client c ts.
Proof.
  revert ks. induction ts as [|t ts IH]; intros [|k ks] Hl Hb Hs; try done.
  { clear. induction m as [|m IH]; [done|]. rewrite bucket_sort_S, of_client_app, IH. done. }
  apply Forall_cons in Hb as [Hk Hb]. injection Hl as Hl. specialize (IH ks Hl Hb (fun a b ta tb ka kb Hab => Hs (S a) (S b) ta tb ka kb ltac:(lia))).
  assert (client t = c -> forall j t' k', ts !! j = Some t' -> ks !! j = Some k' -> client t' = c -> bucket k < bucket k') as Hlate
    by (intros Hc j t' k' E1 E2 E3; apply (Hs 0%nat (S j) t t'); [lia|done..|congruence]).
  assert (of_client c (bucket_sort m (t :: ts) (k :: ks)) = (if decide (client t = c) then [t] else []) ++ of_client c (bucket_sort m ts ks)) as ->.
  2:{ rewrite IH. unfold of_client. rewrite filter_cons. by destruct (decide _). }
  clear IH Hs Hb. induction m as [|m IH]; [lia|]. rewrite !bucket_sort_S, !of_client_app. cbn [in_bucket]. destruct (Z.eqb_spec (bucket k) (Z.of_nat m)) as [E|].
  - rewrite bucket_sort_late by lia. unfold of_client at 2. rewrite filter_cons. fold (of_client c (in_bucket (Z.of_nat m) ts ks)). destruct (decide (client t = c)) as [Hc|]; [|done].
    rewrite of_client_none; [done..|]. intros j t' k' E1 E2 E3. pose proof (Hlate Hc j t' k' E1 E2 E3). lia.
  - rewrite IH by lia. by rewrite app_assoc.
Qed.

(** * Runs and batches *)
(** What scheduling keeps: the tasks, the order within each connection, and every barrier with the set of tasks before it. *)
Definition rearranged (op_at : Z -> Z -> OpView) (ts out : list Task) : Prop :=
  out ≡ₚ ts /\ (forall c, of_client c out = of_client c ts) /\
  forall i t, ts !! i = Some t -> ex_sched_candidate op_at t = None -> out !! i = Some t /\ take i out ≡ₚ take i ts.
Lemma rearranged_refl op_at ts : rearranged op_at ts ts.
Proof. done. Qed.
Lemma rearranged_app op_at ts1 ts2 out1 out2 : rearranged op_at ts1 out1 -> rearranged op_at ts2 out2 -> rearranged op_at (ts1 ++ ts2) (out1 ++ out2).
Proof.
  intros (Hp1 & Hc1 & Hb1) (Hp2 & Hc2 & Hb2). pose proof (Permutation_length Hp1) as Hl. split; [by rewrite Hp1, Hp2|]. split; [intros c; by rewrite !of_client_app, Hc1, Hc2|].
  intros i t Ht Hb. apply lookup_app_Some in Ht as [Ht|[Hge Ht]].
  - destruct (Hb1 i t Ht Hb) as [H1 H2]. pose proof (lookup_lt_Some _ _ _ Ht). split; [by apply lookup_app_l_Some|]. rewrite !take_app_le by lia. done.
  - destruct (Hb2 _ t Ht Hb) as [H1 H2]. split; [rewrite lookup_app_r by lia; by rewrite Hl|].
    rewrite !take_app, Hl. rewrite (take_ge out1), (take_ge ts1) by lia. by rewrite Hp1, H2.
Qed.

Definition task_ok (t : Task) : Prop := 0 <= op_id t < 2 ^ 63.
Section Scheduling.
Context (op_at : Z -> Z -> OpView) (Hop : forall c o, 0 <= v_length (op_at c o)).
Context (BatchOps : nat) (e : Z) (He : 0 <= e) (Hpow : kChainSlots BatchOps = 2 ^ e) (HB : (BatchOps <= 255)%nat).

Lemma candidate_ok t l : ex_sched_candidate op_at t = Some l -> client t <> 0 /\ 0 <= l < kExSchedClasses.
Proof.
  unfold ex_sched_candidate. destruct (Z.eqb_spec (client t) 0); [done|]. cbn [orb]. set (op := op_at _ _). cbn zeta. destruct (negb (scatter t =? 0)), (v_flags op), (v_blocking op); try done. destruct (negb _); [done|].
  destruct (Z.leb_spec kExSchedClasses (v_length op)); [done|]. intros [= <-]. split; [done|]. destruct (v_hazard op); [done|]. specialize (Hop (client t) (op_id t)). fold op in Hop. lia.
Qed.
Lemma run_of_spec ts run ls rest : run_of op_at ts = (run, ls, rest) ->
  ts = run ++ rest /\ length ls = length run /\ Forall (fun t => client t <> 0 /\ ex_sched_candidate op_at t <> None) run /\ Forall (fun l => 0 <= l < kExSchedClasses) ls /\
  match rest with [] => True | b :: _ => ex_sched_candidate op_at b = None end.
Proof.
  revert run ls rest. induction ts as [|t ts IH]; intros run ls rest; cbn [run_of]; [by intros [= <- <- <-]|]. destruct (ex_sched_candidate op_at t) as [l|] eqn:E; [|by intros [= <- <- <-]].
  destruct (run_of op_at ts) as [[run' ls'] rest']. intros [= <- <- <-]. destruct (IH _ _ _ eq_refl) as (-> & Hl & Hr & Hls & Hb). destruct (candidate_ok t l E) as [Hc Hlen].
  split_and!; [done|cbn; lia|constructor; [split; [done|by rewrite E]|done]|by constructor|done].
Qed.
(** A run of ordinary tasks: it returns, and what it returns is the same tasks with every connection in order. *)
Lemma schedule_run_spec head tasks ls : (forall i c, 0 <= head i c < 2 ^ 63) -> (forall i j c, (i <= j)%nat -> head j c <= head i c) ->
  Forall (fun t => client t <> 0 /\ task_ok t) tasks -> length ls = length tasks -> Forall (fun l => 0 <= l < kExSchedClasses) ls -> (length tasks <= BatchOps)%nat ->
  exists w out, ex_schedule_run BatchOps head tasks ls = Some (w, out) /\ out ≡ₚ tasks /\ forall c, of_client c out = of_client c tasks.
Proof.
  intros Hh Hadv Hids Hls Hcls Hn. unfold ex_schedule_run. destruct (_ <? 2)%nat; [by exists 0, tasks|]. destruct (same_client _ _); [by exists 0, tasks|].
  destruct (sample_heads _ _ _ _ _ _ _) as [s|] eqn:Es; [|by exists 1, tasks]. destruct (sample_ranks tasks head ls Hh Hadv Hids Hls Hcls s Es) as (Hl & Hok & Hrank).
  destruct (one_length s && _); [by exists 1, tasks|].
  destruct (widen_spec BatchOps e He Hpow tasks Hn (length tasks) 0 (replicate (Z.to_nat (kChainSlots BatchOps)) None) (keys s)) as (r & -> & Hr);
    [done|done|done|by apply (chain_empty BatchOps e)|intros ??; lia|]. rewrite some_bind. destruct r as [ks|]; [|by exists 1, tasks].
  destruct Hr as (Hkl & Hkok & Hrk & Hinc). destruct (all_same_length ks && _); [by exists 1, tasks|]. destruct (already_ordered _ _); [by exists 1, tasks|].
  rewrite counting_sort_spec by (done || lia). rewrite some_bind. eexists 2, _. split; [done|].
  assert (Forall (fun k => 0 <= bucket k < Z.of_nat (Z.to_nat kExSchedBuckets)) ks) as Hbk by (eapply Forall_impl; [exact Hkok|apply bucket_bounds]).
  split; [apply bucket_sort_perm; [done|exact Hbk]|]. intros c. apply of_client_bucket_sort; [done|exact Hbk|].
  intros a b ta tb ka kb Hab Ea Eb Eka Ekb Hc. assert (rank ka < rank kb) as Hlt.
  { assert (forall j k, ks !! j = Some k -> exists k', keys s !! j = Some k' /\ rank k' = rank k) as Hget.
    { intros j k E. apply (f_equal (fun l => l !! j)) in Hrk. rewrite !list_lookup_fmap, E in Hrk. destruct (keys s !! j) as [k'|]; [|done]. injection Hrk as Hrk. by exists k'. }
    destruct (Hget a ka Eka) as (ka' & Ea' & <-), (Hget b kb Ekb) as (kb' & Eb' & <-). pose proof (lookup_lt_Some _ _ _ Eb).
    rewrite <- (list_lookup_total_correct _ _ _ Ea), <- (list_lookup_total_correct _ _ _ Eb) in Hc. apply (Hrank a b ka' kb' Hab Ea' Eb' Hc). apply Hinc; [lia|done]. }
  destruct (Forall_lookup_1 _ _ _ _ Hkok Eka) as [_ Hla], (Forall_lookup_1 _ _ _ _ Hkok Ekb) as [_ Hlb]. unfold bucket, kExSchedClasses in *. lia.
Qed.

Context (head : nat -> nat -> Z -> Z) (Hhead : forall p i c, 0 <= head p i c < 2 ^ 63) (Hadv : forall p i j c, (i <= j)%nat -> head p j c <= head p i c).
Lemma schedule_from_spec fuel pos ts r : (length ts < fuel)%nat -> (length ts <= BatchOps)%nat -> Forall task_ok ts ->
  exists r' out, schedule_from op_at BatchOps head fuel pos ts r = Some (r', out) /\ rearranged op_at ts out.
Proof.
  revert pos ts r. induction fuel as [|fuel IH]; intros pos ts r Hf Hn Hids; [lia|]. cbn [schedule_from]. destruct ts as [|t ts]; [by eexists _, _|].
  destruct (ex_sched_candidate op_at t) as [l|] eqn:E.
  - destruct (run_of op_at (t :: ts)) as [[run ls] rest] eqn:Er. destruct (run_of_spec _ _ _ _ Er) as (Ets & Hls & Hr & Hcls & Hb). rewrite Ets in *.
    apply Forall_app in Hids as [Hid1 Hid2]. rewrite length_app in *.
    destruct (schedule_run_spec (head pos) run ls) as (w & out & -> & Hp & Hc); [intros; apply Hhead|intros; by apply Hadv| |done|done|lia|].
    { apply Forall_and. split; [eapply Forall_impl; [exact Hr|by intros ? [? _]]|done]. }
    rewrite some_bind. cbn beta iota.
    assert (rearranged op_at run out) as Hro.
    { split; [done|]. split; [done|]. intros i x Hx Hn'. destruct (Forall_lookup_1 _ _ _ _ Hr Hx) as [_ ?]. done. }
    destruct rest as [|b rest]; [rewrite app_nil_r; by eexists _, _|].
    apply Forall_cons in Hid2 as [_ Hid2]. cbn [length] in *. edestruct (IH (S (pos + length out)) rest) as (r' & out' & -> & Hre); [lia|lia|done|].
    rewrite some_bind. eexists _, _. split; [done|]. apply rearranged_app; [done|]. apply (rearranged_app op_at [b] rest [b] out'); [apply rearranged_refl|done].
  - apply Forall_cons in Hids as [_ Hids]. cbn [length] in *. destruct (IH (S pos) ts r) as (r' & out' & -> & Hre); [lia|lia|done|]. rewrite some_bind. eexists _, _. split; [done|].
    apply (rearranged_app op_at [t] ts [t] out'); [apply rearranged_refl|done].
Qed.
(** C17: Scheduling a gathered batch always returns (no abort, uninitialised read or endless
    probe) and yields the batch's own tasks: every connection's tasks keep their order, whatever
    the producers delivered, and every barrier stays at its index with the same tasks before it.
    It holds for any batch that fits, with operation ids and window heads below 2^63, while the
    heads advance between the samples. *)
Theorem reorder_keeps_connection_order ts : (length ts <= BatchOps)%nat -> Forall task_ok ts ->
  exists r out, ex_schedule_batch op_at BatchOps head ts = Some (r, out) /\ out ≡ₚ ts /\ (forall c, of_client c out = of_client c ts) /\
    forall i t, ts !! i = Some t -> ex_sched_candidate op_at t = None -> out !! i = Some t /\ take i out ≡ₚ take i ts.
Proof.
  intros Hn Hids. unfold ex_schedule_batch. rewrite (proj2 (Nat.ltb_ge _ _)) by done. apply schedule_from_spec; [lia|done|done].
Qed.
End Scheduling.

(** Two connections; the long command of connection 8 goes behind the short one of connection 16. *)
Definition demo_view (c o : Z) : OpView := mkView (Some 0) (if c =? 8 then 2 else 0) false false.
Definition demo_tasks : list Task := [mkTask 8 0 (-1) 0 0; mkTask 8 1 (-1) 1 0; mkTask 16 0 (-1) 2 0; mkTask 0 0 (-1) 3 0; mkTask 8 2 (-1) 4 0].
Lemma reorder_keeps_connection_order_witness :
  (ex_schedule_batch demo_view 32 (fun _ _ _ => 0) demo_tasks = Some (mkResult 1 1, [mkTask 16 0 (-1) 2 0; mkTask 8 0 (-1) 0 0; mkTask 8 1 (-1) 1 0; mkTask 0 0 (-1) 3 0; mkTask 8 2 (-1) 4 0])) /\
  exists r out, ex_schedule_batch demo_view 32 (fun _ _ _ => 0) demo_tasks = Some (r, out) /\ out ≡ₚ demo_tasks /\ (forall c, of_client c out = of_client c demo_tasks) /\
    forall i t, demo_tasks !! i = Some t -> ex_sched_candidate demo_view t = None -> out !! i = Some t /\ take i out ≡ₚ take i demo_tasks.
Proof.
  split; [vm_compute; reflexivity|]. apply (reorder_keeps_connection_order demo_view) with (e := 6); [|lia|reflexivity|lia|intros; lia|intros; lia|cbn; lia|].
  - intros c o. unfold demo_view. cbn. destruct (c =? 8); lia.
  - repeat constructor; cbn; lia.
Defined.
