(* ===== verification/SegQueue.v ===== *)
(** conn.h, [SegmentQueue]: the queue of reply segments behind one connection's socket.

    A segment names bytes elsewhere in memory: an owned heap block ([Buf]), a value lent by a
    shard until it is released ([Borrow]) or a constant ([Static]).  Blocks live in an explicit
    memory, so reading or freeing a block that is not allocated is [None]; the queue itself is the
    array [segs_] with its frontier [head_], [size_], [cap_] and the byte offset into the head
    segment.  The release callback is recorded as the list of (shard, pointer) pairs it was
    called with, in order. *)
From stdpp Require Import gmap.
From S2P Require Import Prelude.

(** * Memory blocks *)
Record Mem := mkMem { m_blocks : gmap Z bytes; m_next : Z }.

(** [malloc] followed by the [memcpy] that fills the block; [free]; a read of [n] bytes. *)
Definition m_alloc (m : Mem) (bs : bytes) : Mem * Z :=
  (mkMem (<[m_next m := bs]> (m_blocks m)) (m_next m + 1), m_next m).
Definition m_free (m : Mem) (p : Z) : option Mem :=
  _ ← m_blocks m !! p; Some (mkMem (delete p (m_blocks m)) (m_next m)).
Definition m_read (m : Mem) (p off n : Z) : option bytes :=
  b ← m_blocks m !! p; mem_read b off n.

Inductive SegmentKind := Buf | Borrow | Static.
#[global] Instance SegmentKind_eq_dec : EqDecision SegmentKind.
Proof. solve_decision. Defined.

Record ReplySegment := mkSeg { sg_kind : SegmentKind; sg_ptr : Z; sg_len : Z; sg_shard : Z }.
Definition seg_default : ReplySegment := mkSeg Static 0 0 (-1).

(** [segs_] has [cap_] entries; [sq_heap] is [segs_ != inline_]. *)
Record SegmentQueue := mkSQ {
  sq_segs : list ReplySegment; sq_heap : bool;
  sq_head : Z; sq_size : Z; sq_cap : Z; sq_offset : Z }.

(** One entry of the iovec array: [iov_base = ptr + off]. *)
Record IoVec := mkIov { iov_ptr : Z; iov_off : Z; iov_len : Z }.
Abbreviation Releases := (list (Z * Z)).

Section SegmentQueue.
Context (Inline MaxSegmentBytes : Z).

Definition sq_new : SegmentQueue :=
  mkSQ (replicate (Z.to_nat Inline) seg_default) false 0 0 Inline 0.
Definition sq_empty (q : SegmentQueue) : bool := sq_size q =? 0.

(** [segs_[i]], and the frontier updates the operations share. *)
Definition sq_at (q : SegmentQueue) (i : Z) : option ReplySegment := sq_segs q !! Z.to_nat i.
Definition set_front (q : SegmentQueue) (head size offset : Z) : SegmentQueue :=
  mkSQ (sq_segs q) (sq_heap q) head size (sq_cap q) offset.

Definition byte_size_term (q : SegmentQueue) (i : Z) : option Z :=
  s ← sq_at q (u32 (sq_head q + i));
  Some (u32 (sg_len s - (if i =? 0 then sq_offset q else 0))).
Fixpoint byte_size_loop (n : nat) (q : SegmentQueue) (i bytes : Z) : option Z :=
  match n with
  | O => Some bytes
  | S n => t ← byte_size_term q i; byte_size_loop n q (i + 1) (u64 (bytes + t))
  end.
Definition byte_size (q : SegmentQueue) : option Z :=
  byte_size_loop (Z.to_nat (sq_size q)) q 0 0.

(** ** Appending *)
Definition make_tail_room (q : SegmentQueue) : option SegmentQueue :=
  let live := take (Z.to_nat (sq_size q)) (drop (Z.to_nat (sq_head q)) (sq_segs q)) in
  if negb (sq_head q =? 0) then
    Some (mkSQ (live ++ drop (length live) (sq_segs q)) (sq_heap q) 0 (sq_size q) (sq_cap q)
               (sq_offset q))
  else
    let ncap := u32 (sq_cap q * 2) in
    if ncap <? sq_size q then None
    else Some (mkSQ (live ++ replicate (Z.to_nat (ncap - sq_size q)) seg_default) true
                    (sq_head q) (sq_size q) ncap (sq_offset q)).

Definition sq_push (q : SegmentQueue) (s : ReplySegment) : option SegmentQueue :=
  q ← (if u32 (sq_head q + sq_size q) =? sq_cap q then make_tail_room q else Some q);
  let i := u32 (sq_head q + sq_size q) in
  _ ← sq_at q i;
  Some (mkSQ (<[Z.to_nat i := s]> (sq_segs q)) (sq_heap q) (sq_head q) (u32 (sq_size q + 1))
             (sq_cap q) (sq_offset q)).

(** [append_buf(ptr, len)]: one owned copy per [MaxSegmentBytes] bytes.  A round takes at least
    one byte, so [length bs] rounds are enough. *)
Fixpoint append_buf_loop (fuel : nat) (m : Mem) (q : SegmentQueue) (bs : bytes)
  : option (Mem * SegmentQueue) :=
  match bs with
  | [] => Some (m, q)
  | _ =>
      match fuel with
      | O => None
      | S fuel =>
          let n := Z.min (Z.of_nat (length bs)) MaxSegmentBytes in
          let (m, copy) := m_alloc m (take (Z.to_nat n) bs) in
          q ← sq_push q (mkSeg Buf copy (u32 n) (-1));
          append_buf_loop fuel m q (drop (Z.to_nat n) bs)
      end
  end.
Definition append_buf (m : Mem) (q : SegmentQueue) (bs : bytes) : option (Mem * SegmentQueue) :=
  append_buf_loop (length bs) m q bs.

(** [append_buf(a, an, b, bn)]: one segment for both halves when it fits. *)
Definition append_buf2 (m : Mem) (q : SegmentQueue) (a b : bytes) : option (Mem * SegmentQueue) :=
  let an := Z.of_nat (length a) in
  let bn := Z.of_nat (length b) in
  if (MaxSegmentBytes <? an) || (MaxSegmentBytes - an <? bn) then
    '(m, q) ← append_buf m q a; append_buf m q b
  else if an + bn =? 0 then Some (m, q)
  else
    let (m, copy) := m_alloc m (a ++ b) in
    q ← sq_push q (mkSeg Buf copy (u32 (an + bn)) (-1)); Some (m, q).

Definition append_borrow (q : SegmentQueue) (ptr len shard : Z) : option SegmentQueue :=
  sq_push q (mkSeg Borrow ptr len shard).
Definition append_static (q : SegmentQueue) (ptr len : Z) : option SegmentQueue :=
  sq_push q (mkSeg Static ptr len (-1)).

(** ** The iovec window *)
Fixpoint build_iov_loop (fuel : nat) (q : SegmentQueue) (cap byte_cap : Z) (i : Z)
  (out : list IoVec) (has_borrow : bool) (bytes : Z) : option (list IoVec * bool * Z) :=
  match fuel with
  | O => Some (out, has_borrow, bytes)
  | S fuel =>
      if (Z.of_nat (length out) <? cap) && (bytes <? byte_cap) then
        s ← sq_at q (u32 (sq_head q + i));
        let off := if i =? 0 then sq_offset q else 0 in
        if sg_len s <=? off then build_iov_loop fuel q cap byte_cap (i + 1) out has_borrow bytes
        else
          let len := Z.min (u32 (sg_len s - off)) (u32 (byte_cap - bytes)) in
          build_iov_loop fuel q cap byte_cap (i + 1) (out ++ [mkIov (sg_ptr s) off len])
            (has_borrow || bool_decide (sg_kind s = Borrow)) (u32 (bytes + len))
      else Some (out, has_borrow, bytes)
  end.
Definition build_iov (q : SegmentQueue) (cap byte_cap : Z) : option (list IoVec * bool * Z) :=
  build_iov_loop (Z.to_nat (sq_size q)) q cap byte_cap 0 [] false 0.

(** ** Consuming *)
(** [release(s.shard, s.ptr)] for a borrowed segment, [free(s.ptr)] for an owned one. *)
Definition release_of (s : ReplySegment) : Releases :=
  if bool_decide (sg_kind s = Borrow) then [(sg_shard s, sg_ptr s)] else [].
Definition free_of (m : Mem) (s : ReplySegment) : option Mem :=
  if bool_decide (sg_kind s = Buf) then m_free m (sg_ptr s) else Some m.

Definition pop_front (m : Mem) (q : SegmentQueue) : option (Mem * SegmentQueue) :=
  s ← sq_at q (sq_head q);
  m ← free_of m s;
  let size := u32 (sq_size q - 1) in
  Some (m, set_front q (if size =? 0 then 0 else u32 (sq_head q + 1)) size 0).

Fixpoint consume_loop (fuel : nat) (m : Mem) (q : SegmentQueue) (bytes borrowed : Z)
  (rel : Releases) : option (Mem * SegmentQueue * Z * Releases) :=
  if negb (bytes =? 0) && negb (sq_size q =? 0) then
    match fuel with
    | O => None
    | S fuel =>
        s ← sq_at q (sq_head q);
        let avail := u32 (sg_len s - sq_offset q) in
        let take := Z.min bytes avail in
        let borrowed :=
          if bool_decide (sg_kind s = Borrow) then u64 (borrowed + take) else borrowed in
        let offset := u32 (sq_offset q + take) in
        let bytes := u32 (bytes - take) in
        let q := set_front q (sq_head q) (sq_size q) offset in
        if negb (offset =? sg_len s) then Some (m, q, borrowed, rel)
        else
          '(m, q) ← pop_front m q;
          consume_loop fuel m q bytes borrowed (rel ++ release_of s)
    end
  else Some (m, q, borrowed, rel).
Definition consume (m : Mem) (q : SegmentQueue) (bytes : Z)
  : option (Mem * SegmentQueue * Z * Releases) :=
  consume_loop (Z.to_nat (sq_size q)) m q bytes 0 [].

Fixpoint release_all_loop (n : nat) (m : Mem) (q : SegmentQueue) (i : Z) (rel : Releases)
  : option (Mem * Releases) :=
  match n with
  | O => Some (m, rel)
  | S n =>
      s ← sq_at q (u32 (sq_head q + i));
      m ← free_of m s;
      release_all_loop n m q (i + 1) (rel ++ release_of s)
  end.
Definition release_all (m : Mem) (q : SegmentQueue) : option (Mem * SegmentQueue * Releases) :=
  '(m, rel) ← release_all_loop (Z.to_nat (sq_size q)) m q 0 [];
  Some (m, set_front q 0 0 0, rel).

(** [clear_without_releases], the destructor's half: owned blocks only. *)
Fixpoint clear_loop (n : nat) (m : Mem) (q : SegmentQueue) (i : Z) : option Mem :=
  match n with
  | O => Some m
  | S n => s ← sq_at q (u32 (sq_head q + i)); m ← free_of m s; clear_loop n m q (i + 1)
  end.
Definition clear_without_releases (m : Mem) (q : SegmentQueue) : option (Mem * SegmentQueue) :=
  m ← clear_loop (Z.to_nat (sq_size q)) m q 0; Some (m, set_front q 0 0 0).

(** [truncate(keep)]; [std::abort()] on a partially sent sole segment is [None]. *)
Fixpoint truncate_loop (fuel : nat) (m : Mem) (q : SegmentQueue) (keep bytes : Z) (rel : Releases)
  : option (Mem * SegmentQueue * Z * Releases) :=
  if keep <? sq_size q then
    match fuel with
    | O => None
    | S fuel =>
        s ← sq_at q (u32 (sq_head q + sq_size q - 1));
        if (sq_size q =? 1) && negb (sq_offset q =? 0) then None
        else
          m ← free_of m s;
          truncate_loop fuel m (set_front q (sq_head q) (u32 (sq_size q - 1)) (sq_offset q)) keep
            (u64 (bytes + sg_len s)) (rel ++ release_of s)
    end
  else Some (m, q, bytes, rel).
Definition truncate (m : Mem) (q : SegmentQueue) (keep : Z)
  : option (Mem * SegmentQueue * Z * Releases) :=
  '(m, q, bytes, rel) ← truncate_loop (Z.to_nat (sq_size q)) m q keep 0 [];
  Some (m, if sq_size q =? 0 then set_front q 0 (sq_size q) 0 else q, bytes, rel).
End SegmentQueue.

(** * Representation

    The live segments, oldest first; the bytes they stand for; what is owned and what is lent. *)
Definition sq_live (q : SegmentQueue) : list ReplySegment :=
  take (Z.to_nat (sq_size q)) (drop (Z.to_nat (sq_head q)) (sq_segs q)).
Definition seg_bytes (m : Mem) (s : ReplySegment) : bytes :=
  default [] (m_read m (sg_ptr s) 0 (sg_len s)).
Definition segs_wire (m : Mem) (l : list ReplySegment) : bytes := concat (seg_bytes m <$> l).
Definition sq_wire (m : Mem) (q : SegmentQueue) : bytes :=
  drop (Z.to_nat (sq_offset q)) (segs_wire m (sq_live q)).
Definition borrows (l : list ReplySegment) : Releases := concat (release_of <$> l).
Definition seg_owned (s : ReplySegment) : list Z := if bool_decide (sg_kind s = Buf) then [sg_ptr s] else [].
Definition owned (l : list ReplySegment) : list Z := concat (seg_owned <$> l).

(** Every pointer is readable for its length, ... *)
Definition seg_ok (m : Mem) (s : ReplySegment) : Prop :=
  0 <= sg_len s < 2 ^ 32 /\ exists b, m_read m (sg_ptr s) 0 (sg_len s) = Some b.
(** ... and an owned block has one owner and is nobody else's. *)
Definition segs_ok (m : Mem) (l : list ReplySegment) : Prop :=
  Forall (seg_ok m) l /\ NoDup (owned l) /\
  Forall (fun s => sg_kind s <> Buf -> sg_ptr s ∉ owned l) l.
Definition mem_wf (m : Mem) : Prop := forall p, m_next m <= p -> m_blocks m !! p = None.

Definition sq_geom (q : SegmentQueue) : Prop :=
  Z.of_nat (length (sq_segs q)) = sq_cap q /\ 0 < sq_cap q <= 2 ^ 31 /\
  0 <= sq_head q /\ 0 <= sq_size q /\ sq_head q + sq_size q <= sq_cap q.
Definition sq_front (l : list ReplySegment) (offset : Z) : Prop :=
  match l with
  | [] => offset = 0
  | s :: _ => 0 <= offset /\ (offset = 0 \/ offset < sg_len s)
  end.
Definition sq_inv (m : Mem) (q : SegmentQueue) : Prop :=
  sq_geom q /\ mem_wf m /\ segs_ok m (sq_live q) /\ sq_front (sq_live q) (sq_offset q).

(** * Lemmas on memory *)
Lemma m_alloc_lookup m bs p :
  mem_wf m -> is_Some (m_blocks m !! p) -> m_blocks (fst (m_alloc m bs)) !! p = m_blocks m !! p.
Proof.
  intros Hwf [b Hb]. cbn. apply lookup_insert_ne. intros <-. by rewrite (Hwf (m_next m) (Z.le_refl _)) in Hb.
Qed.
Lemma m_alloc_wf m bs : mem_wf m -> mem_wf (fst (m_alloc m bs)).
Proof. intros Hwf p Hp. cbn -[Z.add] in *. rewrite lookup_insert_ne by lia. apply Hwf. lia. Qed.
Lemma m_alloc_read m bs :
  m_read (fst (m_alloc m bs)) (snd (m_alloc m bs)) 0 (Z.of_nat (length bs)) = Some bs.
Proof.
  unfold m_read. cbn. rewrite lookup_insert_eq. cbn. rewrite mem_read_Some by lia.
  by rewrite drop_0, Nat2Z.id, firstn_all.
Qed.
Lemma m_read_is_Some m p off n b : m_read m p off n = Some b -> is_Some (m_blocks m !! p).
Proof. unfold m_read. destruct (m_blocks m !! p); [by eexists|done]. Qed.
Lemma m_read_length m p n b : m_read m p 0 n = Some b -> Z.of_nat (length b) = n.
Proof.
  unfold m_read, mem_read. destruct (m_blocks m !! p) as [c|]; [cbn [mbind option_bind]|done].
  intros H. destruct (_ && _) eqn:E in H; [|done]. injection H as <-. zcmp.
  rewrite drop_0, length_take. lia.
Qed.
(** Reading a middle part of what a longer read returns. *)
Lemma m_read_sub m p n b off k :
  m_read m p 0 n = Some b -> 0 <= off -> 0 <= k -> off + k <= n ->
  m_read m p off k = Some (take (Z.to_nat k) (drop (Z.to_nat off) b)).
Proof.
  unfold m_read, mem_read. destruct (m_blocks m !! p) as [c|]; [cbn [mbind option_bind]|done].
  intros H Ho Hk Hn. destruct (_ && _) eqn:E in H; [|done]. injection H as <-. zcmp.
  repeat rewrite (proj2 (Z.leb_le _ _)) by lia. cbn [andb]. f_equal.
  rewrite drop_0, skipn_firstn_comm, take_take. f_equal. lia.
Qed.

(** * Lemmas on segment lists *)
Section Segs.
Implicit Types (m : Mem) (l : list ReplySegment) (s : ReplySegment).

Lemma borrows_app l1 l2 : borrows (l1 ++ l2) = borrows l1 ++ borrows l2.
Proof. unfold borrows. by rewrite fmap_app, concat_app. Qed.
Lemma owned_app l1 l2 : owned (l1 ++ l2) = owned l1 ++ owned l2.
Proof. unfold owned. by rewrite fmap_app, concat_app. Qed.
Lemma segs_wire_app m l1 l2 : segs_wire m (l1 ++ l2) = segs_wire m l1 ++ segs_wire m l2.
Proof. unfold segs_wire. by rewrite fmap_app, concat_app. Qed.

(** The memories agree on every block the segments name. *)
Definition agree m m' l : Prop :=
  Forall (fun s => m_blocks m' !! sg_ptr s = m_blocks m !! sg_ptr s) l.

Lemma seg_bytes_agree m m' s :
  m_blocks m' !! sg_ptr s = m_blocks m !! sg_ptr s -> seg_bytes m' s = seg_bytes m s.
Proof. unfold seg_bytes, m_read. by intros ->. Qed.
Lemma segs_wire_agree m m' l : agree m m' l -> segs_wire m' l = segs_wire m l.
Proof.
  unfold segs_wire. induction 1 as [|s l Hs Hl IH]; [done|]. cbn. by rewrite (seg_bytes_agree m m'), IH.
Qed.
Lemma segs_ok_agree m m' l : agree m m' l -> segs_ok m l -> segs_ok m' l.
Proof.
  intros Ha (Hf & Hn & Hx). split; [|done]. unfold agree in Ha. rewrite Forall_forall in *. intros s Hs. destruct (Hf s Hs) as [Hl [b Hb]].
  split; [done|]. exists b. unfold m_read in *. by rewrite (Ha s Hs).
Qed.
Lemma seg_bytes_length m s : seg_ok m s -> Z.of_nat (length (seg_bytes m s)) = sg_len s.
Proof. intros [_ [b Hb]]. unfold seg_bytes. rewrite Hb. by apply (m_read_length m (sg_ptr s)). Qed.

Lemma owned_alive m l p : Forall (seg_ok m) l -> p ∈ owned l -> is_Some (m_blocks m !! p).
Proof.
  induction 1 as [|s l [_ [b Hb]] Hl IH]; [by intros ?%elem_of_nil|].
  unfold owned; cbn [fmap list_fmap concat]. fold (owned l). intros [Hp|Hp]%elem_of_app; [|by apply IH].
  unfold seg_owned in Hp. case_bool_decide; [|by apply elem_of_nil in Hp].
  apply list_elem_of_singleton in Hp as ->. by eapply m_read_is_Some.
Qed.

(** Appending a segment that owns nothing, and one that owns a fresh block. *)
Lemma segs_ok_snoc_lent m l s :
  segs_ok m l -> seg_ok m s -> sg_kind s <> Buf -> sg_ptr s ∉ owned l -> segs_ok m (l ++ [s]).
Proof.
  intros (Hf & Hn & Hx) Hs Hk Hp. unfold segs_ok. rewrite owned_app.
  assert (owned [s] = []) as -> by (unfold owned, seg_owned; cbn; by rewrite bool_decide_eq_false_2).
  rewrite app_nil_r. rewrite !Forall_app, !Forall_singleton. done.
Qed.
Lemma segs_ok_snoc_owned m l s :
  segs_ok m l -> seg_ok m s -> sg_kind s = Buf -> Forall (fun t => sg_ptr t <> sg_ptr s) l ->
  segs_ok m (l ++ [s]).
Proof.
  intros (Hf & Hn & Hx) Hs Hk Hp.
  assert (E : owned [s] = [sg_ptr s]) by (unfold owned, seg_owned; cbn; by rewrite bool_decide_eq_true_2).
  assert (Hnin : sg_ptr s ∉ owned l).
  { clear Hn Hx Hf. induction Hp as [|t l Ht _ IH]; [apply not_elem_of_nil|].
    change (owned (t :: l)) with (seg_owned t ++ owned l). rewrite not_elem_of_app. split; [|done].
    unfold seg_owned. case_bool_decide; [|apply not_elem_of_nil].
    rewrite list_elem_of_singleton. congruence. }
  unfold segs_ok. rewrite owned_app, E, !Forall_app, !Forall_singleton. split; [done|].
  split; [apply NoDup_app; split_and!; [done| |apply NoDup_singleton]|].
  - intros x Hx1 ->%list_elem_of_singleton. done.
  - split; [|done]. rewrite Forall_forall in *. intros t Ht Hkt.
    rewrite not_elem_of_app, list_elem_of_singleton. auto.
Qed.

Lemma segs_ok_remove m l1 s l2 : segs_ok m (l1 ++ s :: l2) -> segs_ok m (l1 ++ l2).
Proof.
  unfold segs_ok. rewrite !owned_app. change (owned (s :: l2)) with (seg_owned s ++ owned l2).
  rewrite !Forall_app, !Forall_cons. intros ((Hf1 & _ & Hf2) & Hn & (Hx1 & _ & Hx2)).
  split; [done|]. split.
  - apply NoDup_app in Hn as (Hn1 & Hn2 & Hn3). apply NoDup_app in Hn3 as (_ & _ & Hn3).
    apply NoDup_app. split_and!; try done. intros x Hx Hy. apply (Hn2 x Hx), elem_of_app. by right.
  - split; [apply (Forall_impl _ _ _ Hx1)|apply (Forall_impl _ _ _ Hx2)]; cbn;
      intros t Ht Hk; specialize (Ht Hk); rewrite !not_elem_of_app in *; tauto.
Qed.

Lemma owned_elem l s : s ∈ l -> sg_kind s = Buf -> sg_ptr s ∈ owned l.
Proof.
  intros Hs Hk. apply list_elem_of_lookup in Hs as [i Hi].
  rewrite <- (take_drop_middle _ _ _ Hi), owned_app. apply elem_of_app; right.
  change (owned (s :: ?x)) with (seg_owned s ++ owned x). apply elem_of_app; left.
  unfold seg_owned. rewrite bool_decide_eq_true_2 by done. by left.
Qed.

(** No other segment names a block that one segment owns. *)
Lemma owned_unique m l1 s l2 t :
  segs_ok m (l1 ++ s :: l2) -> sg_kind s = Buf -> t ∈ l1 ++ l2 -> sg_ptr s <> sg_ptr t.
Proof.
  intros (_ & Hn & Hx) Hk Ht E. rewrite owned_app in *.
  change (owned (s :: l2)) with (seg_owned s ++ owned l2) in *.
  assert (seg_owned s = [sg_ptr s]) as E' by (unfold seg_owned; by rewrite bool_decide_eq_true_2).
  rewrite E' in *. destruct (decide (sg_kind t = Buf)) as [Ek|Ek].
  - pose proof (owned_elem _ _ Ht Ek) as Ht'. rewrite owned_app, <- E, elem_of_app in Ht'.
    apply NoDup_app in Hn as (_ & H2 & H3). apply NoDup_app in H3 as (_ & H4 & _).
    destruct Ht' as [Ht'|Ht']; [|by apply (H4 (sg_ptr s)); [left|]].
    apply (H2 _ Ht'), elem_of_app. left. by left.
  - rewrite Forall_forall in Hx. apply (Hx t); [|done|].
    + rewrite elem_of_app, elem_of_cons in *. tauto.
    + rewrite <- E, !elem_of_app. right; left. by left.
Qed.

(** Freeing what one segment owns leaves the others readable. *)
Lemma free_of_spec m l1 s l2 :
  mem_wf m -> segs_ok m (l1 ++ s :: l2) ->
  exists m', free_of m s = Some m' /\ mem_wf m' /\ segs_ok m' (l1 ++ l2) /\
    agree m m' (l1 ++ l2) /\ (forall p, p ∉ seg_owned s -> m_blocks m' !! p = m_blocks m !! p).
Proof.
  intros Hwf Hok. pose proof (segs_ok_remove _ _ _ _ Hok) as Hsub.
  unfold free_of, seg_owned. case_bool_decide as Hk.
  - assert (is_Some (m_blocks m !! sg_ptr s)) as [b Hb].
    { destruct Hok as [Hf _]. rewrite Forall_app, Forall_cons in Hf.
      destruct Hf as (_ & [_ [b Hb]] & _). by eapply m_read_is_Some. }
    unfold m_free. rewrite Hb. cbn.
    assert (Ha : agree m (mkMem (delete (sg_ptr s) (m_blocks m)) (m_next m)) (l1 ++ l2)).
    { unfold agree. apply Forall_forall. intros t Ht. cbn. apply lookup_delete_ne.
      by apply (owned_unique m l1 s l2 t). }
    eexists. split; [done|]. split; [|split; [by eapply segs_ok_agree|split; [done|]]].
    + intros p Hp. cbn in *. rewrite lookup_delete_None. right. by apply Hwf.
    + intros p Hp. cbn. apply lookup_delete_ne. intros <-. apply Hp. by left.
  - exists m. split; [done|]. split; [done|]. split; [done|]. split; [|done]. by apply Forall_true.
Qed.
End Segs.

(** * Lemmas on the array *)
Section Array.
Implicit Types (q : SegmentQueue) (m : Mem).

Lemma sq_live_length q : sq_geom q -> Z.of_nat (length (sq_live q)) = sq_size q.
Proof. intros (Hl & Hc & Hh & Hs & Hb). unfold sq_live. rewrite length_take, length_drop. lia. Qed.

Lemma sq_at_live q i s :
  sq_geom q -> sq_live q !! i = Some s -> sq_at q (u32 (sq_head q + Z.of_nat i)) = Some s.
Proof.
  intros Hg Hi. pose proof (lookup_lt_Some _ _ _ Hi) as Hlt. pose proof (sq_live_length q Hg).
  destruct Hg as (Hl & Hc & Hh & Hs & Hb). change (2 ^ 31) with 2147483648 in *.
  unfold sq_at. rewrite u32_small by lia. unfold sq_live in *. rewrite length_take, length_drop in Hlt.
  rewrite lookup_take_lt, lookup_drop in Hi by lia. rewrite <- Hi. f_equal. lia.
Qed.

Lemma sq_at_head q s l : sq_geom q -> sq_live q = s :: l -> sq_at q (sq_head q) = Some s.
Proof.
  intros Hg El. pose proof (sq_at_live q 0 s Hg) as E. rewrite El, Z.add_0_r in E. rewrite <- E by done.
  f_equal. destruct Hg as (_ & Hc & Hh & Hs & Hb). change (2 ^ 31) with 2147483648 in *.
  symmetry. apply u32_small. lia.
Qed.

Lemma make_tail_room_spec q :
  sq_geom q -> sq_head q + sq_size q = sq_cap q -> sq_size q < 2 ^ 30 ->
  exists q', make_tail_room q = Some q' /\ sq_geom q' /\ sq_live q' = sq_live q /\
    sq_size q' = sq_size q /\ sq_offset q' = sq_offset q /\ sq_head q' + sq_size q' < sq_cap q'.
Proof.
  intros Hg Hfull Hsz. pose proof (sq_live_length q Hg) as Hlen.
  destruct Hg as (Hl & Hc & Hh & Hs & Hb). unfold make_tail_room. fold (sq_live q).
  change (2 ^ 31) with 2147483648 in *. change (2 ^ 30) with 1073741824 in *.
  assert (Htk : forall x, take (Z.to_nat (sq_size q)) (sq_live q ++ x) = sq_live q).
  { intros x. rewrite take_app_le by lia. apply take_ge. lia. }
  destruct (Z.eqb_spec (sq_head q) 0) as [E|E]; cbn [negb].
  - rewrite u32_small by lia. rewrite (proj2 (Z.ltb_ge _ _)) by lia. eexists. split; [done|].
    unfold sq_geom, sq_live; cbn [sq_segs sq_head sq_size sq_cap sq_offset]. fold (sq_live q).
    rewrite E, drop_0, Htk, length_app, length_replicate. change (2 ^ 31) with 2147483648. 
    split; [lia|]. split; [done|]. split; [done|]. split; [done|lia].
  - eexists. split; [done|].
    unfold sq_geom, sq_live; cbn [sq_segs sq_head sq_size sq_cap sq_offset]. fold (sq_live q).
    rewrite drop_0, Htk, length_app, length_drop. change (2 ^ 31) with 2147483648. 
    split; [lia|]. split; [done|]. split; [done|]. split; [done|lia].
Qed.

Lemma sq_push_spec q s :
  sq_geom q -> sq_size q < 2 ^ 30 ->
  exists q', sq_push q s = Some q' /\ sq_geom q' /\ sq_live q' = sq_live q ++ [s] /\
    sq_size q' = sq_size q + 1 /\ sq_offset q' = sq_offset q.
Proof.
  intros Hg Hsz. unfold sq_push.
  assert (exists q1, (if u32 (sq_head q + sq_size q) =? sq_cap q then make_tail_room q else Some q) = Some q1 /\
    sq_geom q1 /\ sq_live q1 = sq_live q /\ sq_size q1 = sq_size q /\ sq_offset q1 = sq_offset q /\
    sq_head q1 + sq_size q1 < sq_cap q1) as (q1 & -> & Hg1 & <- & <- & <- & Hr).
  { pose proof Hg as (Hl & Hc & Hh & Hs & Hb). change (2 ^ 31) with 2147483648 in *.
    rewrite u32_small by lia. destruct (Z.eqb_spec (sq_head q + sq_size q) (sq_cap q)).
    - by apply make_tail_room_spec.
    - exists q. split_and!; try done. lia. }
  pose proof (sq_live_length q1 Hg1) as Hlen. destruct Hg1 as (Hl & Hc & Hh & Hs & Hb).
  change (2 ^ 31) with 2147483648 in *. change (2 ^ 30) with 1073741824 in *.
  cbn [mbind option_bind]. rewrite !u32_small by lia. unfold sq_at.
  destruct (lookup_lt_is_Some_2 (sq_segs q1) (Z.to_nat (sq_head q1 + sq_size q1))) as [x ->]; [lia|].
  cbn [mbind option_bind]. eexists. split; [done|].
  unfold sq_geom, sq_live; cbn [sq_segs sq_head sq_size sq_cap sq_offset].
  rewrite length_insert. change (2 ^ 31) with 2147483648. split; [lia|]. split; [|done].
  rewrite drop_insert_ge by lia.
  replace (Z.to_nat (sq_size q1 + 1)) with (S (Z.to_nat (sq_size q1))) by lia.
  replace (Z.to_nat (sq_head q1 + sq_size q1) - Z.to_nat (sq_head q1))%nat with (Z.to_nat (sq_size q1)) by lia.
  rewrite (take_S_r _ _ s); [by rewrite take_insert_ge by lia|].
  apply list_lookup_insert_eq. rewrite length_drop. lia.
Qed.
End Array.

(** * Specifications of the operations *)
Section Ops.
Context (MaxSegmentBytes : Z) (HMax : 0 < MaxSegmentBytes <= UINT32_MAX).
Implicit Types (q : SegmentQueue) (m : Mem).

Lemma sq_front_snoc l s off : sq_front l off -> sq_front (l ++ [s]) off.
Proof. destruct l; cbn; [|done]. intros ->. lia. Qed.

Lemma sq_wire_snoc m q q' s :
  sq_inv m q -> sq_live q' = sq_live q ++ [s] -> sq_offset q' = sq_offset q ->
  sq_wire m q' = sq_wire m q ++ seg_bytes m s.
Proof.
  intros (_ & _ & (Hf & _) & Hfr) El Eo. unfold sq_wire. rewrite El, Eo, segs_wire_app.
  unfold segs_wire at 2; cbn. rewrite app_nil_r. apply drop_app_le.
  destruct (sq_live q) as [|t l]; cbn in Hfr; [subst; cbn; lia|].
  apply Forall_cons in Hf as [Ht _]. pose proof (seg_bytes_length m t Ht).
  unfold segs_wire; cbn. rewrite length_app. lia.
Qed.

(** A block the queue does not own stays as it is, and stays not owned. *)
Definition frame m q m' q' : Prop :=
  forall p b, m_blocks m !! p = Some b -> p ∉ owned (sq_live q) ->
    m_blocks m' !! p = Some b /\ p ∉ owned (sq_live q').

(** What an append promises: the bytes [bs] behind the queue, [lent] behind the borrows. *)
Definition appended m q m' q' (bs : bytes) (lent : Releases) : Prop :=
  sq_inv m' q' /\ sq_wire m' q' = sq_wire m q ++ bs /\
  (exists new, sq_live q' = sq_live q ++ new /\ borrows new = lent) /\
  sq_offset q' = sq_offset q /\ agree m m' (sq_live q) /\ frame m q m' q'.

Lemma appended_refl m q : sq_inv m q -> appended m q m q [] [].
Proof.
  intros Hi. split; [done|]. split; [by rewrite app_nil_r|]. split; [exists []; by rewrite app_nil_r|].
  split; [done|]. split; [by apply Forall_true|done].
Qed.
Lemma appended_trans m1 q1 m2 q2 m3 q3 bs bs' lent lent' :
  appended m1 q1 m2 q2 bs lent -> appended m2 q2 m3 q3 bs' lent' ->
  appended m1 q1 m3 q3 (bs ++ bs') (lent ++ lent').
Proof.
  intros (_ & Hw & (n & Hl & Hb) & Ho & Ha & Hf) (Hi' & Hw' & (n' & Hl' & Hb') & Ho' & Ha' & Hf').
  split; [done|]. split; [by rewrite Hw', Hw, app_assoc|].
  split; [exists (n ++ n'); by rewrite Hl', Hl, app_assoc, borrows_app, Hb, Hb'|].
  split; [by rewrite Ho'|]. split.
  - unfold agree in *. rewrite Hl, Forall_app in Ha'. destruct Ha' as [Ha' _].
    rewrite Forall_forall in *. intros s Hs. by rewrite Ha', Ha.
  - intros p b Hp Hn. destruct (Hf p b Hp Hn). by apply Hf'.
Qed.

Lemma sq_push_lent m q s :
  sq_inv m q -> sq_size q < 2 ^ 30 -> seg_ok m s -> sg_kind s <> Buf -> sg_ptr s ∉ owned (sq_live q) ->
  exists q', sq_push q s = Some q' /\ appended m q m q' (seg_bytes m s) (release_of s) /\
    sq_size q' = sq_size q + 1.
Proof.
  intros Hi Hsz Hs Hk Hp. pose proof Hi as (Hg & Hwf & Hok & Hfr).
  destruct (sq_push_spec q s Hg Hsz) as (q' & E & Hg' & El & Es & Eo).
  exists q'. split; [done|]. split; [|done]. split.
  { unfold sq_inv. rewrite El, Eo. split; [done|]. split; [done|].
    split; [by apply segs_ok_snoc_lent|by apply sq_front_snoc]. }
  split; [by apply sq_wire_snoc|]. split; [exists [s]; unfold borrows; cbn; by rewrite app_nil_r|].
  split; [done|]. split; [by apply Forall_true|]. intros p b Hb Hn. split; [done|].
  rewrite El, owned_app, not_elem_of_app. split; [done|].
  unfold owned, seg_owned; cbn. rewrite bool_decide_eq_false_2 by done. apply not_elem_of_nil.
Qed.

(** Every segment names an allocated block. *)
Lemma segs_alive m l : segs_ok m l -> Forall (fun s => is_Some (m_blocks m !! sg_ptr s)) l.
Proof. intros [H _]. apply (Forall_impl _ _ _ H). intros s [_ [b Hb]]. by eapply m_read_is_Some. Qed.

(** Allocation alone changes nothing the queue can see. *)
Lemma m_alloc_agree m q bs : sq_inv m q -> agree m (fst (m_alloc m bs)) (sq_live q).
Proof.
  intros (_ & Hwf & Hok & _). unfold agree. apply (Forall_impl _ _ _ (segs_alive _ _ Hok)).
  intros s Hs. by apply m_alloc_lookup.
Qed.
Lemma sq_inv_alloc m q bs :
  sq_inv m q -> sq_inv (fst (m_alloc m bs)) q /\ sq_wire (fst (m_alloc m bs)) q = sq_wire m q.
Proof.
  intros Hi. pose proof (m_alloc_agree m q bs Hi) as Ha. destruct Hi as (Hg & Hwf & Hok & Hfr).
  split; [split_and!; [done|by apply m_alloc_wf|by eapply segs_ok_agree|done]|].
  unfold sq_wire. by rewrite (segs_wire_agree m).
Qed.

(** Pushing a segment that owns a fresh copy of [bs]. *)
Lemma sq_push_copy m q bs :
  sq_inv m q -> sq_size q < 2 ^ 30 -> Z.of_nat (length bs) < 2 ^ 32 ->
  exists q', sq_push q (mkSeg Buf (snd (m_alloc m bs)) (u32 (Z.of_nat (length bs))) (-1)) = Some q' /\
    appended m q (fst (m_alloc m bs)) q' bs [] /\ sq_size q' = sq_size q + 1.
Proof.
  intros Hi Hsz Hlen. change (2 ^ 32) with 4294967296 in Hlen. rewrite u32_small by lia.
  set (s := mkSeg Buf _ _ _). set (m' := fst (m_alloc m bs)).
  pose proof (m_alloc_agree m q bs Hi) as Ha. pose proof (sq_inv_alloc m q bs Hi) as [Hi' Hw']. fold m' in Ha, Hi', Hw'.
  destruct Hi as (Hg & Hwf & Hok & Hfr).
  destruct (sq_push_spec q s Hg Hsz) as (q' & E & Hg' & El & Es & Eo).
  assert (Hs : seg_ok m' s).
  { split; [cbn -[Z.of_nat Z.pow]; change (2 ^ 32) with 4294967296; lia|]. exists bs. apply m_alloc_read. }
  exists q'. split; [done|]. split; [|done]. split.
  { destruct Hi' as (_ & Hwf' & Hok' & _). unfold sq_inv. rewrite El, Eo.
    split; [done|]. split; [done|]. split; [|by apply sq_front_snoc].
    apply segs_ok_snoc_owned; [done..|]. apply (Forall_impl _ _ _ (segs_alive _ _ Hok)). cbn.
    intros t [b Hb] Et. by rewrite Et, (Hwf (m_next m) (Z.le_refl _)) in Hb. }
  split; [|split; [exists [s]; done|split; [done|split; [done|]]]].
  - rewrite (sq_wire_snoc m' q q' s), Hw' by done. f_equal. unfold seg_bytes.
    change (sg_ptr s) with (snd (m_alloc m bs)). change (sg_len s) with (Z.of_nat (length bs)).
    unfold m'. by rewrite m_alloc_read.
  - intros p b Hb Hn. assert (p <> m_next m) by (intros ->; by rewrite (Hwf (m_next m) (Z.le_refl _)) in Hb).
    split; [unfold m'; cbn; by rewrite lookup_insert_ne|].
    rewrite El, owned_app, not_elem_of_app. split; [done|]. change (owned [s]) with [m_next m].
    by rewrite list_elem_of_singleton.
Qed.

(** Segments an owned copy of [n] bytes may need. *)
Definition n_segs (n : nat) : Z := Z.of_nat n / MaxSegmentBytes + 1.

Lemma n_segs_pos n : 0 < n_segs n.
Proof. unfold n_segs. pose proof (Z.div_pos (Z.of_nat n) MaxSegmentBytes). lia. Qed.
(** Taking one full segment away leaves one segment less to make. *)
Lemma n_segs_drop n : MaxSegmentBytes < Z.of_nat n -> n_segs (n - Z.to_nat MaxSegmentBytes) + 1 = n_segs n.
Proof.
  intros H. unfold n_segs.
  replace (Z.of_nat (n - Z.to_nat MaxSegmentBytes)) with (Z.of_nat n + (-1) * MaxSegmentBytes) by lia.
  rewrite Z.div_add by lia. lia.
Qed.

Lemma append_buf_loop_spec fuel m q bs :
  sq_inv m q -> (length bs <= fuel)%nat -> sq_size q + n_segs (length bs) <= 2 ^ 30 ->
  exists m' q', append_buf_loop MaxSegmentBytes fuel m q bs = Some (m', q') /\
    appended m q m' q' bs [] /\ sq_size q' <= sq_size q + n_segs (length bs).
Proof.
  unfold UINT32_MAX in HMax. revert m q bs. induction fuel as [|fuel IH]; intros m q bs Hi Hf Hsz;
    pose proof (n_segs_pos (length bs)).
  { destruct bs; [|cbn in Hf; lia]. exists m, q. split; [done|]. split; [by apply appended_refl|lia]. }
  destruct bs as [|c bs']; [exists m, q; split; [done|]; split; [by apply appended_refl|lia]|].
  cbn [append_buf_loop]. assert (0 < Z.of_nat (length (c :: bs'))) as Hpos by (cbn; lia).
  generalize dependent (c :: bs'). clear c bs'. intros bs Hf Hsz Hpos Hbs.
  set (n := Z.min (Z.of_nat (length bs)) MaxSegmentBytes).
  assert (Hn : Z.of_nat (length (take (Z.to_nat n) bs)) = n) by (rewrite length_take; lia).
  rewrite (surjective_pairing (m_alloc m (take (Z.to_nat n) bs))).
  destruct (sq_push_copy m q (take (Z.to_nat n) bs) Hi) as (q1 & E & Ha & Hs1); [lia|rewrite Hn; lia|].
  rewrite Hn in E. rewrite E, some_bind.
  destruct (decide (Z.of_nat (length bs) <= MaxSegmentBytes)) as [Hd|Hd].
  - rewrite drop_ge by lia. rewrite take_ge in Ha |- * by lia.
    exists (fst (m_alloc m bs)), q1. split; [by destruct fuel|]. split; [done|lia].
  - replace n with MaxSegmentBytes in * by lia. pose proof (n_segs_drop (length bs)).
    destruct (IH (fst (m_alloc m (take (Z.to_nat MaxSegmentBytes) bs))) q1 (drop (Z.to_nat MaxSegmentBytes) bs))
      as (m' & q' & E' & Ha' & Hs'); rewrite ?length_drop in *; [apply Ha|lia|lia|].
    exists m', q'. split; [done|]. split; [|lia].
    rewrite <- (take_drop (Z.to_nat MaxSegmentBytes) bs). by apply (appended_trans _ _ _ _ _ _ _ _ [] [] Ha).
Qed.

Lemma append_buf_spec m q bs :
  sq_inv m q -> sq_size q + n_segs (length bs) <= 2 ^ 30 ->
  exists m' q', append_buf MaxSegmentBytes m q bs = Some (m', q') /\
    appended m q m' q' bs [] /\ sq_size q' <= sq_size q + n_segs (length bs).
Proof. intros Hi Hs. by apply append_buf_loop_spec. Qed.

Lemma append_buf2_spec m q a b :
  sq_inv m q -> sq_size q + n_segs (length a) + n_segs (length b) <= 2 ^ 30 ->
  exists m' q', append_buf2 MaxSegmentBytes m q a b = Some (m', q') /\
    appended m q m' q' (a ++ b) [] /\ sq_size q' <= sq_size q + n_segs (length a) + n_segs (length b).
Proof.
  intros Hi Hs. unfold append_buf2. pose proof (n_segs_pos (length a)). pose proof (n_segs_pos (length b)).
  unfold UINT32_MAX in HMax. destruct (_ || _) eqn:E.
  - destruct (append_buf_spec m q a Hi) as (m1 & q1 & -> & Ha1 & Hs1); [lia|]. rewrite some_bind.
    destruct (append_buf_spec m1 q1 b) as (m2 & q2 & -> & Ha2 & Hs2); [apply Ha1|lia|].
    exists m2, q2. split; [done|]. split; [by apply (appended_trans _ _ _ _ _ _ _ _ [] [] Ha1)|lia].
  - apply orb_false_iff in E as [E1 E2]. zcmp. destruct (Z.eqb_spec (Z.of_nat (length a) + Z.of_nat (length b)) 0).
    + destruct a, b; cbn in *; try lia. exists m, q. split; [done|]. split; [by apply appended_refl|lia].
    + rewrite <- Nat2Z.inj_add, <- length_app. rewrite (surjective_pairing (m_alloc m (a ++ b))).
      destruct (sq_push_copy m q (a ++ b) Hi) as (q1 & -> & Ha & Hs1); [lia|rewrite length_app; lia|].
      rewrite some_bind. eexists _, q1. split; [done|]. split; [done|lia].
Qed.
End Ops.

(** ** The wire frontier *)
Section Front.
Implicit Types (q : SegmentQueue) (m : Mem).

Lemma set_front_live_tail q s l off :
  sq_geom q -> sq_live q = s :: l ->
  let size := u32 (sq_size q - 1) in
  let q' := set_front q (if size =? 0 then 0 else u32 (sq_head q + 1)) size off in
  sq_geom q' /\ sq_live q' = l /\ sq_size q' = sq_size q - 1.
Proof.
  intros Hg El. pose proof (sq_live_length q Hg) as Hlen. rewrite El in Hlen. cbn [length] in Hlen.
  destruct Hg as (Hl & Hc & Hh & Hs & Hb). change (2 ^ 31) with 2147483648 in *. cbv zeta.
  rewrite u32_small by lia. unfold sq_geom, sq_live in *; cbn [set_front sq_segs sq_head sq_size sq_cap].
  change (2 ^ 31) with 2147483648. destruct (Z.eqb_spec (sq_size q - 1) 0) as [E|E].
  - rewrite E. destruct l; [|cbn [length] in Hlen; lia]. split; [lia|]. done.
  - rewrite u32_small by lia. split; [lia|]. split; [|done].
    replace (Z.to_nat (sq_size q)) with (S (Z.to_nat (sq_size q - 1))) in El by lia.
    replace (Z.to_nat (sq_head q + 1)) with (S (Z.to_nat (sq_head q))) by lia.
    destruct (drop (Z.to_nat (sq_head q)) (sq_segs q)) as [|x r] eqn:Ed; [done|].
    cbn [take] in El. injection El as -> El. rewrite <- El. f_equal.
    replace (S (Z.to_nat (sq_head q))) with (Z.to_nat (sq_head q) + 1)%nat by lia.
    by rewrite <- drop_drop, Ed.
Qed.

Lemma pop_front_spec m q s l :
  sq_geom q -> mem_wf m -> sq_live q = s :: l -> segs_ok m (s :: l) ->
  exists m' q', pop_front m q = Some (m', q') /\ sq_inv m' q' /\ sq_live q' = l /\ sq_offset q' = 0 /\
    agree m m' l /\ (forall p, p ∉ seg_owned s -> m_blocks m' !! p = m_blocks m !! p).
Proof.
  intros Hg Hwf El Hok. unfold pop_front.
  rewrite (sq_at_head q s l Hg El), some_bind.
  destruct (free_of_spec m [] s l Hwf Hok) as (m' & -> & Hwf' & Hok' & Ha & Hp). rewrite some_bind.
  destruct (set_front_live_tail q s l 0 Hg El) as (Hg' & El' & Es').
  eexists m', _. split; [done|]. split; [|done]. unfold sq_inv. rewrite El'.
  split; [done|]. split; [done|]. split; [done|]. unfold sq_front. destruct l; cbn; lia.
Qed.

(** What consuming promises: [n] bytes off the front of the wire, and the borrows that are done,
    in order, each of them with all of its bytes among those consumed. *)
Definition consumed m q m' q' (n : Z) (rel : Releases) : Prop :=
  sq_inv m' q' /\ sq_wire m' q' = drop (Z.to_nat n) (sq_wire m q) /\ frame m q m' q' /\
  exists k, sq_live q' = drop k (sq_live q) /\ rel = borrows (take k (sq_live q)) /\
    Z.of_nat (length (segs_wire m (take k (sq_live q)))) <= sq_offset q + n.

Lemma consumed_nothing m q : sq_inv m q -> consumed m q m q 0 [].
Proof.
  intros Hi. split; [done|]. split; [done|]. split; [by intros p b|]. exists 0%nat. split; [done|].
  split; [done|]. destruct Hi as (_ & _ & _ & Hf). rewrite take_0. change (length (segs_wire m [])) with 0%nat.
  destruct (sq_live q); cbn in Hf; lia.
Qed.

Lemma sq_wire_head m q s l :
  sq_live q = s :: l -> seg_ok m s -> sq_front (s :: l) (sq_offset q) ->
  sq_wire m q = drop (Z.to_nat (sq_offset q)) (seg_bytes m s) ++ segs_wire m l /\
  0 <= sq_offset q <= sg_len s.
Proof.
  intros El Hs Hfr. pose proof (seg_bytes_length m s Hs) as Hlen. destruct Hs as [Hl _].
  assert (0 <= sq_offset q <= sg_len s) as Ho by (cbn in Hfr; lia). split; [|done].
  unfold sq_wire. rewrite El. change (segs_wire m (s :: l)) with (seg_bytes m s ++ segs_wire m l).
  apply drop_app_le. lia.
Qed.

(** The head segment takes the whole request and stays. *)
Lemma consumed_partial m q s l n :
  sq_inv m q -> sq_live q = s :: l -> 0 <= n -> sq_offset q + n < sg_len s ->
  consumed m q m (set_front q (sq_head q) (sq_size q) (sq_offset q + n)) n [].
Proof.
  intros (Hg & Hwf & Hok & Hfr) El Hn Hlt.
  assert (El' : sq_live (set_front q (sq_head q) (sq_size q) (sq_offset q + n)) = s :: l) by exact El.
  assert (Ho : 0 <= sq_offset q) by (rewrite El in Hfr; cbn in Hfr; lia).
  split; [|split; [|split]].
  - unfold sq_inv. rewrite El'. rewrite El in Hok. split; [exact Hg|]. split; [done|]. split; [done|].
    cbn. lia.
  - unfold sq_wire. rewrite El', El. cbn [set_front sq_offset]. rewrite drop_drop. f_equal. lia.
  - intros p b Hp Hq. split; [done|]. by rewrite El', <- El.
  - exists 0%nat. rewrite El', El. split; [done|]. split; [done|].
    rewrite take_0. change (length (segs_wire m [])) with 0%nat. lia.
Qed.

(** The head segment is finished, and the rest of the request continues behind it. *)
Lemma consumed_step m q s l m1 q1 m2 q2 n rel :
  sq_inv m q -> sq_live q = s :: l -> sq_live q1 = l -> sq_offset q1 = 0 -> agree m m1 l ->
  (forall p, p ∉ seg_owned s -> m_blocks m1 !! p = m_blocks m !! p) -> 0 <= n ->
  consumed m1 q1 m2 q2 n rel ->
  consumed m q m2 q2 (sg_len s - sq_offset q + n) (release_of s ++ rel).
Proof.
  intros (Hg & Hwf & Hok & Hfr) El El1 Eo1 Ha Hp Hn (Hi & Hw & Hf & k & Hk & Hr & Hlen).
  rewrite El in Hok, Hfr. pose proof Hok as (Hfs & _ & _). apply Forall_cons in Hfs as [Hs _].
  destruct (sq_wire_head m q s l El Hs Hfr) as [Ew Ho]. pose proof (seg_bytes_length m s Hs) as Hsl.
  split; [done|]. split; [|split].
  - rewrite Hw, Ew. unfold sq_wire. rewrite El1, Eo1, (segs_wire_agree m m1 l Ha). cbn [Z.to_nat].
    rewrite drop_0. replace (Z.to_nat (sg_len s - sq_offset q + n))
      with (length (drop (Z.to_nat (sq_offset q)) (seg_bytes m s)) + Z.to_nat n)%nat
      by (rewrite length_drop; lia).
    by rewrite drop_app_add.
  - intros p b Hb Hnp. rewrite El in Hnp. change (owned (s :: l)) with (seg_owned s ++ owned l) in Hnp.
    rewrite not_elem_of_app in Hnp. destruct Hnp as [Hnp1 Hnp2]. apply Hf; [by rewrite Hp|by rewrite El1].
  - exists (S k). rewrite El, El1 in *. cbn [drop take]. split; [done|].
    split; [by rewrite Hr|]. change (segs_wire m (s :: take k l)) with (seg_bytes m s ++ segs_wire m (take k l)).
    rewrite length_app. rewrite <- (segs_wire_agree m m1 (take k l)) by (by apply Forall_take).
    lia.
Qed.

Lemma consume_loop_spec fuel m q n bor rel :
  sq_inv m q -> 0 <= n < 2 ^ 32 -> n <= Z.of_nat (length (sq_wire m q)) ->
  (length (sq_live q) <= fuel)%nat ->
  exists m' q' bor' rs, consume_loop fuel m q n bor rel = Some (m', q', bor', rel ++ rs) /\
    consumed m q m' q' n rs.
Proof.
  change (2 ^ 32) with 4294967296. revert m q n bor rel.
  induction fuel as [|fuel IH]; intros m q n bor rel Hi Hn Hw Hf; pose proof Hi as (Hg & Hwf & Hok & Hfr);
    pose proof (sq_live_length q Hg) as Hlen; cbn [consume_loop].
  { destruct (sq_live q) as [|s l] eqn:El; [|cbn in Hf; lia]. cbn in Hlen.
    rewrite <- Hlen, andb_false_r. exists m, q, bor, []. rewrite app_nil_r. split; [done|].
    unfold sq_wire in Hw. rewrite El in Hw. cbn in Hw. rewrite drop_nil in Hw. cbn in Hw.
    replace n with 0 by lia. by apply consumed_nothing. }
  destruct (Z.eqb_spec n 0) as [->|Hn0]; cbn [negb andb].
  { exists m, q, bor, []. rewrite app_nil_r. split; [done|]. by apply consumed_nothing. }
  destruct (sq_live q) as [|s l] eqn:El.
  { unfold sq_wire in Hw. rewrite El in Hw. cbn in Hw. rewrite drop_nil in Hw. cbn in Hw. lia. }
  cbn [length] in *. rewrite (proj2 (Z.eqb_neq (sq_size q) 0)) by lia. cbn [negb].
  pose proof Hok as (Hfs & _ & _). apply Forall_cons in Hfs as [Hs _].
  destruct (sq_wire_head m q s l El Hs Hfr) as [Ew Ho]. pose proof (seg_bytes_length m s Hs) as Hsl.
  assert (sg_len s < 4294967296) by (destruct Hs as [[_ ?] _]; done).
  rewrite (sq_at_head q s l Hg El), some_bind. rewrite (u32_small (sg_len s - _)) by lia. cbv zeta.
  rewrite (u32_small (sq_offset q + _)) by lia.
  destruct (decide (n < sg_len s - sq_offset q)) as [Hd|Hd].
  - rewrite Z.min_l by lia. rewrite (proj2 (Z.eqb_neq _ _)) by lia. cbn [negb].
    eexists _, _, _, []. rewrite app_nil_r. split; [done|]. apply (consumed_partial m q s l); [done|done|lia|lia].
  - rewrite Z.min_r by lia. replace (sq_offset q + (sg_len s - sq_offset q)) with (sg_len s) by lia.
    rewrite Z.eqb_refl. cbn [negb].
    destruct (pop_front_spec m (set_front q (sq_head q) (sq_size q) (sg_len s)) s l Hg Hwf El Hok)
      as (m1 & q1 & -> & Hi1 & El1 & Eo1 & Ha1 & Hp1). rewrite some_bind. cbv iota beta.
    rewrite u32_small by lia.
    destruct (IH m1 q1 (n - (sg_len s - sq_offset q))
      (if bool_decide (sg_kind s = Borrow) then u64 (bor + (sg_len s - sq_offset q)) else bor)
      (rel ++ release_of s)) as (m' & q' & bor' & rs & E' & Hc'); [done|lia| |rewrite El1; lia|].
    { unfold sq_wire. rewrite El1, Eo1, (segs_wire_agree m m1 l Ha1). cbn [Z.to_nat]. rewrite drop_0.
      rewrite Ew, length_app, length_drop in Hw. lia. }
    exists m', q', bor', (release_of s ++ rs). rewrite E', app_assoc. split; [done|].
    replace n with (sg_len s - sq_offset q + (n - (sg_len s - sq_offset q))) by lia.
    eapply consumed_step; [done|exact El|exact El1|done|done|done|lia|done].
Qed.
End Front.

(** ** Reading, releasing, truncating *)
Section Rest.
Implicit Types (q : SegmentQueue) (m : Mem).

(** What the kernel reads through an iovec array. *)
Fixpoint iov_read m (v : list IoVec) : option bytes :=
  match v with
  | [] => Some []
  | x :: v => b ← m_read m (iov_ptr x) (iov_off x) (iov_len x); bs ← iov_read m v; Some (b ++ bs)
  end.
Lemma iov_read_app m v1 v2 b1 b2 :
  iov_read m v1 = Some b1 -> iov_read m v2 = Some b2 -> iov_read m (v1 ++ v2) = Some (b1 ++ b2).
Proof.
  revert b1. induction v1 as [|x v IH]; intros b1 H1 H2; cbn in *.
  - by injection H1 as <-.
  - destruct (m_read m _ _ _) as [b|]; [|done]. cbn in *. destruct (iov_read m v) as [bs|]; [|done].
    cbn in H1. injection H1 as <-. rewrite (IH bs) by done. cbn. by rewrite app_assoc.
Qed.

(** The offset that applies to segment [i] of the window. *)
Definition off_at q (i : nat) : Z := if Z.of_nat i =? 0 then sq_offset q else 0.

Definition wire_at m q (i : nat) : bytes :=
  drop (Z.to_nat (off_at q i)) (segs_wire m (drop i (sq_live q))).

Lemma wire_at_end m q i : (length (sq_live q) <= i)%nat -> wire_at m q i = [].
Proof. intros H. unfold wire_at. rewrite (drop_ge (sq_live q)) by done. apply drop_nil. Qed.
Lemma wire_at_head m q i s :
  sq_inv m q -> sq_live q !! i = Some s ->
  seg_ok m s /\ 0 <= off_at q i <= sg_len s /\
  wire_at m q i = drop (Z.to_nat (off_at q i)) (seg_bytes m s) ++ wire_at m q (S i).
Proof.
  intros (Hg & Hwf & Hok & Hfr) Hs. pose proof Hok as (Hf & _).
  assert (Hs' : seg_ok m s) by (rewrite Forall_lookup in Hf; by eapply Hf).
  assert (Ho : 0 <= off_at q i <= sg_len s).
  { destruct Hs' as [Hl _]. unfold off_at. destruct (Z.eqb_spec (Z.of_nat i) 0); [|lia]. destruct i; [|lia].
    destruct (sq_live q) as [|s' l]; [done|]. injection Hs as ->. cbn in Hfr. lia. }
  split; [done|]. split; [done|]. unfold wire_at. rewrite (drop_S _ _ _ Hs).
  change (segs_wire m (s :: ?l)) with (seg_bytes m s ++ segs_wire m l).
  pose proof (seg_bytes_length m s Hs'). rewrite drop_app_le by lia.
  f_equal.
Qed.

(** Every entry points into a live segment. *)
Definition iov_live q (v : list IoVec) : Prop :=
  Forall (fun x => exists s, s ∈ sq_live q /\ iov_ptr x = sg_ptr s) v.

Lemma build_iov_loop_spec fuel m q cap byte_cap i out hb n :
  sq_inv m q -> 0 <= n -> 0 <= byte_cap < 2 ^ 32 -> (fuel = length (sq_live q) - i)%nat ->
  exists out' hb' t,
    build_iov_loop fuel q cap byte_cap (Z.of_nat i) out hb n =
      Some (out ++ out', hb', n + Z.of_nat (length t)) /\
    iov_read m out' = Some t /\ t `prefix_of` wire_at m q i /\
    (n <= byte_cap -> n + Z.of_nat (length t) <= byte_cap) /\
    (Z.of_nat (length out) < cap -> n < byte_cap -> wire_at m q i <> [] -> t <> []) /\ iov_live q out'.
Proof.
  change (2 ^ 32) with 4294967296. intros Hi. revert i out hb n.
  assert (Hstop : forall i out (hb : bool) n, (Z.of_nat (length out) < cap -> n < byte_cap -> wire_at m q i = []) ->
    exists out' hb' t, Some (out, hb, n) = Some (out ++ out', hb', n + Z.of_nat (length t)) /\
    iov_read m out' = Some t /\ t `prefix_of` wire_at m q i /\
    (n <= byte_cap -> n + Z.of_nat (length t) <= byte_cap) /\
    (Z.of_nat (length out) < cap -> n < byte_cap -> wire_at m q i <> [] -> t <> []) /\ iov_live q out').
  { intros i out hb n H. exists [], hb, []. rewrite app_nil_r, Z.add_0_r. split; [done|]. split; [done|].
    split; [apply prefix_nil|]. split; [done|].
    split; [intros H1 H2 H3; by destruct H3; apply H|constructor]. }
  induction fuel as [|fuel IH]; intros i out hb n Hn Hc Hf; cbn [build_iov_loop].
  { apply Hstop. intros _ _. apply wire_at_end. lia. }
  destruct (_ && _) eqn:Eg.
  2:{ apply Hstop. intros H1 H2. apply andb_false_iff in Eg as [Eg|Eg]; zcmp; lia. }
  zcmp. destruct (lookup_lt_is_Some_2 (sq_live q) i) as [s Hs]; [lia|].
  destruct (wire_at_head m q i s Hi Hs) as (Hok & Ho & Ew). pose proof (seg_bytes_length m s Hok) as Hsl.
  rewrite (sq_at_live q i s) by (done || apply Hi). rewrite some_bind. cbv zeta. fold (off_at q i).
  replace (Z.of_nat i + 1) with (Z.of_nat (S i)) by lia.
  destruct (Z.leb_spec (sg_len s) (off_at q i)) as [Hz|Hz].
  { destruct (IH (S i) out hb n) as (out' & hb' & t & E & Hr & Hp & Hb & Hq & Hv); [lia|lia|lia|].
    exists out', hb', t. rewrite Ew, drop_ge by lia. done. }
  destruct Hok as [Hl [b Hb]]. change (2 ^ 32) with 4294967296 in Hl. rewrite !u32_small by lia.
  set (k := Z.min (sg_len s - off_at q i) (byte_cap - n)).
  set (piece := take (Z.to_nat k) (drop (Z.to_nat (off_at q i)) (seg_bytes m s))).
  assert (Hpl : Z.of_nat (length piece) = k) by (unfold piece; rewrite length_take, length_drop; lia).
  destruct (IH (S i) (out ++ [mkIov (sg_ptr s) (off_at q i) k])
     (hb || bool_decide (sg_kind s = Borrow)) (n + k)) as (out' & hb' & t & E & Hr & Hp & Hcap & Hq & Hv); [lia|lia|lia|].
  exists (mkIov (sg_ptr s) (off_at q i) k :: out'), hb', (piece ++ t). rewrite E.
  split; [rewrite <- app_assoc, length_app; f_equal; f_equal; lia|]. split; [|split; [|split; [|split]]].
  - cbn [iov_read iov_ptr iov_off iov_len]. rewrite (m_read_sub m (sg_ptr s) (sg_len s) b) by (done || lia).
    rewrite some_bind, Hr, some_bind. unfold piece, seg_bytes. by rewrite Hb.
  - rewrite Ew. destruct (decide (k = sg_len s - off_at q i)) as [Ek|Ek].
    + unfold piece. rewrite take_ge by (rewrite length_drop; lia). by apply prefix_app.
    + assert (t = []) as -> by (apply nil_length_inv; lia). rewrite app_nil_r.
      apply prefix_app_r. unfold piece. apply prefix_take.
  - rewrite length_app. lia.
  - intros _ _ _ Et. apply app_eq_nil in Et as [Et _]. rewrite Et in Hpl. cbn in Hpl. lia.
  - constructor; [|done]. exists s. split; [by eapply list_elem_of_lookup_2|done].
Qed.

(** The same window after a change that leaves the live blocks alone. *)
Lemma iov_read_agree m m' q v : iov_live q v -> agree m m' (sq_live q) -> iov_read m' v = iov_read m v.
Proof.
  intros Hv Ha. unfold agree in Ha. rewrite Forall_forall in Ha. induction Hv as [|x v (s & Hs & Ep) _ IH]; [done|].
  cbn. unfold m_read. by rewrite Ep, (Ha s Hs), IH.
Qed.

(** The window the kernel is given: a prefix of the wire, within the byte cap, and not empty
    while the wire is not. *)
Lemma build_iov_spec m q cap byte_cap :
  sq_inv m q -> 0 < cap -> 0 < byte_cap < 2 ^ 32 ->
  exists out hb t, build_iov q cap byte_cap = Some (out, hb, Z.of_nat (length t)) /\
    iov_read m out = Some t /\ t `prefix_of` sq_wire m q /\ Z.of_nat (length t) <= byte_cap /\
    (sq_wire m q <> [] -> t <> []) /\ iov_live q out.
Proof.
  intros Hi Hc Hb. pose proof Hi as (Hg & _). pose proof (sq_live_length q Hg).
  destruct (build_iov_loop_spec (Z.to_nat (sq_size q)) m q cap byte_cap 0 [] false 0)
    as (out & hb & t & E & Hr & Hp & Hcap & Hq & Hv); [done|lia|lia|lia|].
  exists out, hb, t. split; [exact E|]. split; [done|]. split; [exact Hp|]. split; [lia|].
  split; [|done]. intros Hw. apply Hq; [cbn; lia|lia|exact Hw].
Qed.

Lemma byte_size_loop_spec n m q i acc :
  sq_inv m q -> (n = length (sq_live q) - i)%nat -> 0 <= acc ->
  acc + Z.of_nat (length (wire_at m q i)) < 2 ^ 64 ->
  byte_size_loop n q (Z.of_nat i) acc = Some (acc + Z.of_nat (length (wire_at m q i))).
Proof.
  change (2 ^ 64) with 18446744073709551616. intros Hi. revert i acc.
  induction n as [|n IH]; intros i acc Hn Ha Hb; cbn [byte_size_loop].
  { rewrite wire_at_end by lia. f_equal. cbn [length]. lia. }
  destruct (lookup_lt_is_Some_2 (sq_live q) i) as [s Hs]; [lia|].
  destruct (wire_at_head m q i s Hi Hs) as (Hok & Ho & Ew). pose proof (seg_bytes_length m s Hok) as Hsl.
  destruct Hok as [Hl _]. change (2 ^ 32) with 4294967296 in Hl.
  unfold byte_size_term. rewrite (sq_at_live q i s) by (done || apply Hi). rewrite !some_bind. fold (off_at q i).
  rewrite Ew, length_app, length_drop in Hb |- *. rewrite (u32_small (sg_len s - _)) by lia.
  rewrite u64_small by lia. replace (Z.of_nat i + 1) with (Z.of_nat (S i)) by lia.
  rewrite IH by lia. f_equal. lia.
Qed.
Lemma byte_size_spec m q :
  sq_inv m q -> Z.of_nat (length (sq_wire m q)) < 2 ^ 64 ->
  byte_size q = Some (Z.of_nat (length (sq_wire m q))).
Proof.
  intros Hi Hb. pose proof Hi as (Hg & _). pose proof (sq_live_length q Hg).
  unfold byte_size. by rewrite (byte_size_loop_spec _ m q 0 0) by (done || lia).
Qed.

(** Releasing everything: each borrow once, in order, and every owned block freed. *)
Lemma release_all_loop_spec n m q i rel :
  sq_geom q -> (n = length (sq_live q) - i)%nat -> mem_wf m -> segs_ok m (drop i (sq_live q)) ->
  exists m', release_all_loop n m q (Z.of_nat i) rel = Some (m', rel ++ borrows (drop i (sq_live q))) /\
    mem_wf m' /\ (forall p, p ∈ owned (drop i (sq_live q)) -> m_blocks m' !! p = None) /\
    (forall p, p ∉ owned (drop i (sq_live q)) -> m_blocks m' !! p = m_blocks m !! p).
Proof.
  intros Hg. revert m i rel. induction n as [|n IH]; intros m i rel Hn Hwf Hok; cbn [release_all_loop].
  { rewrite drop_ge by lia. exists m. unfold borrows; cbn. rewrite app_nil_r.
    split; [done|]. split; [done|]. split; [by intros p ?%elem_of_nil|done]. }
  destruct (lookup_lt_is_Some_2 (sq_live q) i) as [s Hs]; [lia|].
  rewrite (sq_at_live q i s), some_bind by done. rewrite (drop_S _ _ _ Hs) in Hok |- *.
  destruct (free_of_spec m [] s (drop (S i) (sq_live q)) Hwf Hok) as (m1 & E1 & Hwf1 & Hok1 & _ & Hp1).
  rewrite E1, some_bind. replace (Z.of_nat i + 1) with (Z.of_nat (S i)) by lia.
  destruct (IH m1 (S i) (rel ++ release_of s)) as (m' & -> & Hwf' & Hfr & Hp'); [lia|done|done|].
  change (owned (s :: ?l)) with (seg_owned s ++ owned l).
  change (borrows (s :: ?l)) with (release_of s ++ borrows l).
  exists m'. rewrite app_assoc. split; [done|]. split; [done|]. split.
  - intros p Hp. apply elem_of_app in Hp as [Hp|Hp]; [|by apply Hfr].
    destruct Hok as (_ & Hnd & _). change (owned (s :: ?l)) with (seg_owned s ++ owned l) in Hnd.
    apply NoDup_app in Hnd as (_ & Hnd & _). rewrite Hp' by (by apply Hnd).
    unfold seg_owned, free_of, m_free in *. case_bool_decide; [|by apply elem_of_nil in Hp].
    apply list_elem_of_singleton in Hp as ->. destruct (m_blocks m !! sg_ptr s); [|done].
    injection E1 as <-. apply lookup_delete_eq.
  - intros p Hp. rewrite not_elem_of_app in Hp. destruct Hp. by rewrite Hp', Hp1.
Qed.

Lemma release_all_spec m q :
  sq_inv m q ->
  exists m' q', release_all m q = Some (m', q', borrows (sq_live q)) /\ sq_inv m' q' /\
    sq_live q' = [] /\ frame m q m' q' /\ (forall p, p ∈ owned (sq_live q) -> m_blocks m' !! p = None).
Proof.
  intros (Hg & Hwf & Hok & Hfr). pose proof (sq_live_length q Hg). unfold release_all.
  destruct (release_all_loop_spec (Z.to_nat (sq_size q)) m q 0 [] Hg) as (m' & E & Hwf' & Hd & Hp);
    [lia|done|by rewrite drop_0|].
  change (Z.of_nat 0) with 0 in E. rewrite drop_0 in *. rewrite E, some_bind. cbv iota beta.
  eexists m', _. split; [done|]. destruct Hg as (Hl & Hc & Hh & Hs & Hb).
  split; [|split; [done|split; [|done]]].
  - split_and!; [unfold sq_geom; cbn [set_front sq_segs sq_cap sq_head sq_size]; lia|done| |done].
    split; [constructor|]. split; [constructor|constructor].
  - intros p b Hpb Hn. rewrite Hp by done. split; [done|]. apply not_elem_of_nil.
Qed.

Lemma clear_loop_release n m q i rel : clear_loop n m q i = fst <$> release_all_loop n m q i rel.
Proof.
  revert m i rel. induction n as [|n IH]; intros m i rel; cbn [clear_loop release_all_loop]; [done|].
  destruct (sq_at q _) as [s|]; [|done]. rewrite !some_bind.
  destruct (free_of m s) as [m1|]; [|done]. rewrite !some_bind. apply IH.
Qed.

(** ** Truncation *)
Lemma set_front_live_init q l s :
  sq_geom q -> sq_live q = l ++ [s] ->
  let q' := set_front q (sq_head q) (u32 (sq_size q - 1)) (sq_offset q) in
  sq_geom q' /\ sq_live q' = l /\ sq_size q' = sq_size q - 1 /\
  sq_at q (u32 (sq_head q + sq_size q - 1)) = Some s.
Proof.
  intros Hg El. pose proof (sq_live_length q Hg) as Hlen. rewrite El, length_app in Hlen. cbn [length] in Hlen.
  assert (E : sq_at q (u32 (sq_head q + Z.of_nat (length l))) = Some s).
  { apply sq_at_live; [done|]. rewrite El. by apply list_lookup_middle. }
  replace (sq_head q + Z.of_nat (length l)) with (sq_head q + sq_size q - 1) in E by lia.
  destruct Hg as (Hl & Hc & Hh & Hs & Hb). change (2 ^ 31) with 2147483648 in *. cbv zeta.
  rewrite (u32_small (sq_size q - 1)) by lia.
  unfold sq_geom, sq_live in *; cbn [set_front sq_segs sq_head sq_size sq_cap].
  change (2 ^ 31) with 2147483648. split; [lia|]. split; [|done].
  rewrite <- (take_app_length l [s]), <- El, take_take. f_equal. lia.
Qed.

Definition truncated m q m' q' (keep : nat) (rel : Releases) : Prop :=
  sq_inv m' q' /\ sq_live q' = take keep (sq_live q) /\
  sq_wire m q = sq_wire m' q' ++ segs_wire m (drop keep (sq_live q)) /\
  rel = borrows (reverse (drop keep (sq_live q))) /\ frame m q m' q'.

Lemma truncated_all m q : sq_inv m q -> truncated m q m q (length (sq_live q)) [].
Proof.
  intros Hi. unfold truncated. rewrite firstn_all, drop_all, app_nil_r.
  split; [done|]. split; [done|]. split; [done|]. split; [done|by intros p b].
Qed.

(** The segment before the tail: [off] may only concern an older one. *)
Lemma sq_front_init l s off : sq_front (l ++ [s]) off -> (l = [] -> off = 0) -> sq_front l off.
Proof. destruct l; cbn; [auto|done]. Qed.
Lemma sq_wire_init m q l s :
  sq_live q = l ++ [s] -> segs_ok m l -> sq_front l (sq_offset q) ->
  sq_wire m q = drop (Z.to_nat (sq_offset q)) (segs_wire m l) ++ seg_bytes m s.
Proof.
  intros El [Hf _] Hfr. unfold sq_wire. rewrite El, segs_wire_app.
  change (segs_wire m [s]) with (seg_bytes m s ++ []). rewrite app_nil_r. apply drop_app_le.
  destruct l as [|t l]; cbn in Hfr; [rewrite Hfr; cbn; lia|].
  apply Forall_cons in Hf as [Ht _]. pose proof (seg_bytes_length m t Ht).
  change (segs_wire m (t :: l)) with (seg_bytes m t ++ segs_wire m l). rewrite length_app. lia.
Qed.

Lemma truncated_step m q l s m1 q1 m2 q2 keep rs :
  sq_live q = l ++ [s] -> sq_live q1 = l -> sq_offset q1 = sq_offset q -> agree m m1 l ->
  (forall p, p ∉ seg_owned s -> m_blocks m1 !! p = m_blocks m !! p) ->
  segs_ok m l -> sq_front l (sq_offset q) -> (keep <= length l)%nat ->
  truncated m1 q1 m2 q2 keep rs -> truncated m q m2 q2 keep (release_of s ++ rs).
Proof.
  intros El El1 Eo1 Ha Hp Hok Hfr Hk (Hi & Hl & Hw & Hr & Hf). unfold truncated.
  rewrite El, take_app_le, drop_app_le by done. rewrite El1 in *.
  split; [done|]. split; [done|]. split; [|split].
  - rewrite (sq_wire_init m q l s) by done. rewrite segs_wire_app, app_assoc.
    change (segs_wire m [s]) with (seg_bytes m s ++ []). rewrite app_nil_r. f_equal.
    rewrite <- (segs_wire_agree m m1 (drop keep l)) by (by apply Forall_drop). rewrite <- Hw.
    unfold sq_wire. by rewrite El1, Eo1, (segs_wire_agree m m1 l).
  - rewrite reverse_app, borrows_app, Hr. f_equal. unfold borrows; cbn. by rewrite app_nil_r.
  - intros p b Hb Hn. rewrite El, owned_app, not_elem_of_app in Hn. destruct Hn as [Hn1 Hn2].
    apply Hf; [|by rewrite El1]. rewrite Hp; [done|].
    change (owned [s]) with (seg_owned s ++ []) in Hn2. by rewrite app_nil_r in Hn2.
Qed.

Lemma truncate_loop_spec fuel m q (keep : nat) acc rel :
  sq_inv m q -> (length (sq_live q) <= fuel)%nat -> (keep <= length (sq_live q))%nat ->
  (keep = 0%nat -> sq_offset q = 0) -> 0 <= acc ->
  acc + Z.of_nat (length (segs_wire m (drop keep (sq_live q)))) < 2 ^ 64 ->
  exists m' q' rs, truncate_loop fuel m q (Z.of_nat keep) acc rel =
      Some (m', q', acc + Z.of_nat (length (segs_wire m (drop keep (sq_live q)))), rel ++ rs) /\
    truncated m q m' q' keep rs.
Proof.
  change (2 ^ 64) with 18446744073709551616.
  revert m q acc rel. induction fuel as [|fuel IH]; intros m q acc rel Hi Hf Hk Ho Ha Hb;
    pose proof Hi as (Hg & Hwf & Hok & Hfr); pose proof (sq_live_length q Hg) as Hlen; cbn [truncate_loop].
  all: destruct (decide (keep = length (sq_live q))) as [->|Ek];
    [rewrite (proj2 (Z.ltb_ge _ _)) by lia; exists m, q, []; rewrite drop_all, app_nil_r, Z.add_0_r;
     split; [done|by apply truncated_all]|].
  { lia. }
  rewrite (proj2 (Z.ltb_lt _ _)) by lia.
  destruct (sq_live q) as [|s l _] eqn:El using rev_ind; [cbn in *; lia|].
  destruct (set_front_live_init q l s Hg El) as (Hg' & El' & Es' & Eat). rewrite Eat, some_bind.
  rewrite length_app in Hf, Hk, Hlen, Ek. cbn [length] in Hf, Hk, Hlen, Ek.
  assert ((sq_size q =? 1) && negb (sq_offset q =? 0) = false) as ->.
  { apply andb_false_iff. destruct (Z.eqb_spec (sq_size q) 1); [right|by left]. rewrite Ho by lia. done. }
  pose proof (segs_ok_remove m l s [] Hok) as Hokl. rewrite app_nil_r in Hokl.
  assert (Hfrl : sq_front l (sq_offset q)).
  { apply (sq_front_init l s); [done|]. intros ->. apply Ho. cbn [length] in Hk, Ek. lia. }
  destruct (free_of_spec m l s [] Hwf Hok) as (m1 & -> & Hwf1 & Hok1 & Ha1 & Hp1). rewrite some_bind.
  rewrite app_nil_r in Hok1, Ha1. set (q1 := set_front q _ _ _) in *.
  assert (Hs : seg_ok m s) by (destruct Hok as [Hfo _]; rewrite Forall_app, Forall_singleton in Hfo; apply Hfo).
  pose proof (seg_bytes_length m s Hs) as Hsl.
  rewrite drop_app_le, segs_wire_app, length_app in Hb |- * by lia.
  change (segs_wire m [s]) with (seg_bytes m s ++ []) in Hb |- *. rewrite app_nil_r in Hb |- *.
  rewrite u64_small by lia. rewrite <- (segs_wire_agree m m1 (drop keep l)) in Hb |- * by (by apply Forall_drop).
  destruct (IH m1 q1 (acc + sg_len s) (rel ++ release_of s)) as (m' & q' & rs & E & Ht);
    rewrite ?El'; [unfold sq_inv; rewrite El'; by split_and!|lia|lia|done|lia|lia|].
  exists m', q', (release_of s ++ rs). rewrite E, El', app_assoc. split; [f_equal; f_equal; f_equal; lia|].
  apply (truncated_step m q l s m1 q1); [done|done|done|done|done|done|done|lia|done].
Qed.

Lemma truncate_spec m q (keep : nat) :
  sq_inv m q -> (keep <= length (sq_live q))%nat -> (keep = 0%nat -> sq_offset q = 0) ->
  Z.of_nat (length (segs_wire m (drop keep (sq_live q)))) < 2 ^ 64 ->
  exists m' q' rs, truncate m q (Z.of_nat keep) =
      Some (m', q', Z.of_nat (length (segs_wire m (drop keep (sq_live q)))), rs) /\
    truncated m q m' q' keep rs.
Proof.
  intros Hi Hk Ho Hb. pose proof Hi as (Hg & _). pose proof (sq_live_length q Hg).
  destruct (truncate_loop_spec (Z.to_nat (sq_size q)) m q keep 0 []) as (m' & q' & rs & E & Ht);
    [done|lia|done|done|lia|lia|].
  unfold truncate. rewrite E, some_bind. cbv beta iota.
  eexists m', _, rs. split; [done|]. destruct (Z.eqb_spec (sq_size q') 0) as [E0|]; [|done].
  pose proof Ht as ((Hg' & Hwf & Hok & Hfr) & Hl & Hw & Hr & Hf).
  pose proof (sq_live_length q' Hg') as Hlen. rewrite E0 in Hlen.
  destruct (sq_live q') as [|s l] eqn:El; [|cbn in Hlen; lia]. rewrite E0 in *.
  assert (El' : sq_live (set_front q' 0 0 0) = []) by done.
  unfold truncated. rewrite El'. split; [|split; [done|split; [|split; [done|]]]].
  - split_and!; [|done|by rewrite El'|by rewrite El'].
    destruct Hg' as (H1 & H2 & H3 & H4 & H5). unfold sq_geom; cbn [set_front sq_segs sq_cap sq_head sq_size]. lia.
  - rewrite Hw. f_equal. unfold sq_wire. rewrite El, El'.
    change (segs_wire m' []) with (@nil Z). by rewrite !drop_nil.
  - intros p b Hb' Hn. destruct (Hf p b Hb' Hn). split; [done|]. rewrite El'. apply not_elem_of_nil.
Qed.
End Rest.
