(* ===== verification/OutBuf.v ===== *)
(** conn.h, the write side of [Client]: two staging buffers, the segment queue and the output
    accounting.

    Replies are appended to the fill buffer, sends read the send buffer, and the two swap only
    when no send is outstanding.  Once a segment is queued every later reply is queued behind it,
    so the bytes still to be sent are always: what is left of the send buffer, the segments, the
    fill buffer.  Blocks outside the two buffers live in the memory of SegQueue.v. *)
From stdpp Require Import gmap.
From S2P Require Import Prelude Slice RespReply SegQueue.

Definition kWbufInline : Z := 512.
Definition kWbufShed : Z := 64 * 1024.
Definition kMaxSendBytes : Z := 2147479552.   (* 0x7ffff000 *)
Definition kMaxSendIov : Z := 16.
Definition kSegInline : Z := 8.               (* SegmentQueue<8> *)
Definition kMaxSegmentBytes : Z := UINT32_MAX.

(** [w_fill] is the index [fill_]: [false] selects [buf_[0]].  [w_iov] is the iovec array
    [send_msg_] points at, which the kernel reads asynchronously. *)
Record Out := mkOut {
  w_buf0 : SmallBuf; w_buf1 : SmallBuf; w_fill : bool; w_sent : Z;
  w_inflight : bool; w_segmented : bool; w_requested : Z;
  w_segs : SegmentQueue; w_iov : list IoVec;
  w_obuf : Z; w_tracking : bool; w_soft_since : Z }.

Definition out_new : Out :=
  mkOut (sb_new kWbufInline) (sb_new kWbufInline) false 0 false false 0 (sq_new kSegInline) [] 0 false 0.

Definition out_buf (w : Out) (i : bool) : SmallBuf := if i then w_buf1 w else w_buf0 w.
Definition set_buf (w : Out) (i : bool) (b : SmallBuf) : Out :=
  mkOut (if i then w_buf0 w else b) (if i then b else w_buf1 w) (w_fill w) (w_sent w) (w_inflight w)
        (w_segmented w) (w_requested w) (w_segs w) (w_iov w) (w_obuf w) (w_tracking w) (w_soft_since w).
Definition set_segs (w : Out) (q : SegmentQueue) : Out :=
  mkOut (w_buf0 w) (w_buf1 w) (w_fill w) (w_sent w) (w_inflight w) (w_segmented w) (w_requested w)
        q (w_iov w) (w_obuf w) (w_tracking w) (w_soft_since w).
Definition set_obuf (w : Out) (n : Z) : Out :=
  mkOut (w_buf0 w) (w_buf1 w) (w_fill w) (w_sent w) (w_inflight w) (w_segmented w) (w_requested w)
        (w_segs w) (w_iov w) n (w_tracking w) (w_soft_since w).
Definition set_send_inflight (w : Out) (v : bool) : Out :=
  mkOut (w_buf0 w) (w_buf1 w) (w_fill w) (w_sent w) v (w_segmented w) (w_requested w)
        (w_segs w) (w_iov w) (w_obuf w) (w_tracking w) (w_soft_since w).
(** [set_segmented_send] and [set_send_requested], always called together. *)
Definition set_request (w : Out) (seg : bool) (n : Z) : Out :=
  mkOut (w_buf0 w) (w_buf1 w) (w_fill w) (w_sent w) (w_inflight w) seg n
        (w_segs w) (w_iov w) (w_obuf w) (w_tracking w) (w_soft_since w).

Definition set_iov (w : Out) (v : list IoVec) : Out :=
  mkOut (w_buf0 w) (w_buf1 w) (w_fill w) (w_sent w) (w_inflight w) (w_segmented w) (w_requested w)
        (w_segs w) v (w_obuf w) (w_tracking w) (w_soft_since w).

Definition fill_buf (w : Out) : SmallBuf := out_buf w (w_fill w).
Definition send_buf (w : Out) : SmallBuf := out_buf w (negb (w_fill w)).
Definition set_fill_buf (w : Out) (b : SmallBuf) : Out := set_buf w (w_fill w) b.

(** [if (obuf_tracking_) obuf_bytes_ += n], and the checked subtraction, which aborts. *)
Definition obuf_add (w : Out) (n : Z) : Out :=
  if w_tracking w then set_obuf w (u64 (w_obuf w + n)) else w.
Definition obuf_sub (w : Out) (n : Z) : option Out :=
  if w_tracking w then
    if w_obuf w <? n then None else Some (set_obuf w (u64 (w_obuf w - n)))
  else Some w.

(** * Staging *)
Definition append_fill (w : Out) (bs : bytes) : option Out :=
  b ← sb_append (fill_buf w) bs;
  Some (obuf_add (set_fill_buf w b) (Z.of_nat (length bs))).
Definition commit_fill (w : Out) (n : Z) : Out :=
  obuf_add (set_fill_buf w (sb_commit_raw (fill_buf w) n)) n.
Definition reserve_fill (w : Out) (n : Z) : option Out :=
  b ← sb_reserve (fill_buf w) n; Some (set_fill_buf w b).
Definition has_pending_fill (w : Out) : bool := 0 <? sb_len (fill_buf w).

Definition commit_write (w : Out) (n : Z) : option Out :=
  obuf_sub (mkOut (w_buf0 w) (w_buf1 w) (w_fill w) (u64 (w_sent w + n)) (w_inflight w)
                  (w_segmented w) (w_requested w) (w_segs w) (w_iov w) (w_obuf w) (w_tracking w)
                  (w_soft_since w)) n.
Definition write_drained (w : Out) : bool := sb_len (send_buf w) <=? w_sent w.
Definition swap_buffers (w : Out) : Out :=
  let w := set_buf w (negb (w_fill w)) (sb_clear (send_buf w)) in
  mkOut (w_buf0 w) (w_buf1 w) (negb (w_fill w)) 0 (w_inflight w) (w_segmented w) (w_requested w)
        (w_segs w) (w_iov w) (w_obuf w) (w_tracking w) (w_soft_since w).
Definition has_pending_segments (w : Out) : bool := negb (sq_empty (w_segs w)).
Definition nothing_to_write (w : Out) : bool :=
  (sb_len (fill_buf w) =? 0) && write_drained w && sq_empty (w_segs w).
Definition send_remaining (w : Out) : Z :=
  if w_sent w <? sb_len (send_buf w) then sb_len (send_buf w) - w_sent w else 0.
Definition buffered_output_bytes (w : Out) : option Z :=
  seg ← byte_size (w_segs w); Some (u64 (sb_len (fill_buf w) + send_remaining w + seg)).
Definition output_list_length (w : Out) : Z := sq_size (w_segs w).

(** ** Segments *)
Definition seal_fill_segment (m : Mem) (w : Out) : option (Mem * Out) :=
  let b := fill_buf w in
  if negb (sb_empty b) then
    '(m, q) ← append_buf kMaxSegmentBytes m (w_segs w) (sb_bytes b);
    Some (m, set_fill_buf (set_segs w q) (sb_clear b))
  else Some (m, w).
Definition append_buf_segment (m : Mem) (w : Out) (bs : bytes) : option (Mem * Out) :=
  '(m, q) ← append_buf kMaxSegmentBytes m (w_segs w) bs;
  Some (m, obuf_add (set_segs w q) (Z.of_nat (length bs))).
Definition append_buf_segment2 (m : Mem) (w : Out) (a b : bytes) : option (Mem * Out) :=
  '(m, q) ← append_buf2 kMaxSegmentBytes m (w_segs w) a b;
  Some (m, obuf_add (set_segs w q) (Z.of_nat (length a) + Z.of_nat (length b))).
Definition append_borrow_segment (w : Out) (ptr len shard : Z) : option Out :=
  q ← append_borrow (w_segs w) ptr len shard; Some (obuf_add (set_segs w q) len).
Definition append_static_segment (w : Out) (ptr len : Z) : option Out :=
  q ← append_static (w_segs w) ptr len; Some (obuf_add (set_segs w q) len).

(** [append_oob(a, b)] with [quiesced = rob_.quiesced()]; the flag says the segment channel was
    taken. *)
Definition append_oob (quiesced : bool) (m : Mem) (w : Out) (a b : bytes)
  : option (Mem * Out * bool) :=
  if sq_empty (w_segs w) && quiesced then
    w ← append_fill w a;
    w ← (match b with [] => Some w | _ => append_fill w b end);
    Some (m, w, false)
  else
    '(m, w) ← seal_fill_segment m w;
    '(m, w) ← append_buf_segment2 m w a b;
    Some (m, w, true).

(** * Sending *)
Definition build_segment_iov (w : Out) : option (Out * bool * Z) :=
  '(v, has_borrow, total) ← build_iov (w_segs w) kMaxSendIov kMaxSendBytes;
  Some (set_iov w v, has_borrow, total).
Definition consume_segments (m : Mem) (w : Out) (n : Z) : option (Mem * Out * Z * Releases) :=
  '(m, q, borrowed, rel) ← consume m (w_segs w) n;
  w ← obuf_sub (set_segs w q) n; Some (m, w, borrowed, rel).
Definition release_all_segments (m : Mem) (w : Out) : option (Mem * Out * Releases) :=
  '(m, q, rel) ← release_all m (w_segs w); Some (m, set_obuf (set_segs w q) 0, rel).
Definition truncate_segments (m : Mem) (w : Out) (keep : Z) : option (Mem * Out * Releases) :=
  '(m, q, n, rel) ← truncate m (w_segs w) keep;
  w ← obuf_sub (set_segs w q) n; Some (m, w, rel).

Definition start_obuf_tracking (w : Out) : option Out :=
  if w_tracking w then Some w
  else
    seg ← byte_size (w_segs w);
    Some (mkOut (w_buf0 w) (w_buf1 w) (w_fill w) (w_sent w) (w_inflight w) (w_segmented w)
                (w_requested w) (w_segs w) (w_iov w)
                (u64 (sb_len (fill_buf w) + u64 (sb_len (send_buf w) - w_sent w) + seg)) true
                (w_soft_since w)).
Definition stop_obuf_tracking (w : Out) : Out :=
  if negb (w_tracking w) then w
  else mkOut (w_buf0 w) (w_buf1 w) (w_fill w) (w_sent w) (w_inflight w) (w_segmented w)
             (w_requested w) (w_segs w) (w_iov w) 0 false 0.

(** [reset_rbuf_at_quiescence] also sheds burst-grown empty write buffers. *)
Definition shed_buf (b : SmallBuf) : SmallBuf :=
  if (sb_len b =? 0) && (kWbufShed <? sb_cap b) then sb_shrink_to_inline kWbufInline b else b.
Definition shed_out (w : Out) : Out := set_buf (set_buf w false (shed_buf (w_buf0 w))) true (shed_buf (w_buf1 w)).

(** * Representation *)
Definition send_rest (w : Out) : bytes := drop (Z.to_nat (w_sent w)) (sb_bytes (send_buf w)).
(** The bytes still to be sent, in wire order. *)
Definition out_pending (m : Mem) (w : Out) : bytes :=
  send_rest w ++ sq_wire m (w_segs w) ++ sb_bytes (fill_buf w).
Definition out_borrows (w : Out) : Releases := borrows (sq_live (w_segs w)).

(** Replies behind a segment are segments too: the fill buffer is empty while any is queued. *)
Definition out_ordered (w : Out) : Prop := sq_size (w_segs w) <> 0 -> sb_len (fill_buf w) = 0.
Definition out_inv (m : Mem) (w : Out) : Prop :=
  sb_ok (w_buf0 w) /\ sb_ok (w_buf1 w) /\ sq_inv m (w_segs w) /\
  0 <= w_sent w <= sb_len (send_buf w) /\ out_ordered w /\
  (w_tracking w = true -> w_obuf w = Z.of_nat (length (out_pending m w))).
(** Room for [n] more bytes: buffer, segment and counter widths. *)
Definition out_room (m : Mem) (w : Out) (n : Z) : Prop :=
  0 <= n /\ Z.of_nat (length (out_pending m w)) + n <= 2 ^ 40 /\
  sq_size (w_segs w) <= 2 ^ 28.

(** * Lemmas *)
Section OutLemmas.
Implicit Types (m : Mem) (w : Out) (bs : bytes).

Lemma fill_set_fill w b : fill_buf (set_fill_buf w b) = b.
Proof. unfold fill_buf, set_fill_buf, set_buf, out_buf. cbn. by destruct (w_fill w). Qed.
Lemma send_set_fill w b : send_buf (set_fill_buf w b) = send_buf w.
Proof. unfold send_buf, set_fill_buf, set_buf, out_buf. cbn. by destruct (w_fill w). Qed.
Lemma obuf_add_out w n : exists x, obuf_add w n = set_obuf w x.
Proof.
  unfold obuf_add. destruct (w_tracking w) eqn:E; [by eexists|]. exists (w_obuf w). by destruct w.
Qed.
Lemma out_bufs_ok m w : out_inv m w -> sb_ok (fill_buf w) /\ sb_ok (send_buf w).
Proof.
  intros (H0 & H1 & _). unfold fill_buf, send_buf, out_buf. by destruct (w_fill w).
Qed.
Lemma pending_length m w :
  out_inv m w -> Z.of_nat (length (out_pending m w)) =
    sb_len (send_buf w) - w_sent w + Z.of_nat (length (sq_wire m (w_segs w))) + sb_len (fill_buf w).
Proof.
  intros Hi. destruct (out_bufs_ok m w Hi) as [Hf Hs]. destruct Hi as (_ & _ & _ & Hw & _).
  unfold out_pending, send_rest. rewrite !length_app, length_drop.
  pose proof (sb_bytes_length _ Hf). pose proof (sb_bytes_length _ Hs). lia.
Qed.

(** What staging leaves alone: the send side and everything a send in flight may be reading. *)
Definition send_same m w m' w' : Prop :=
  w_fill w' = w_fill w /\ send_buf w' = send_buf w /\ w_sent w' = w_sent w /\
  w_inflight w' = w_inflight w /\ w_segmented w' = w_segmented w /\ w_requested w' = w_requested w /\
  w_iov w' = w_iov w /\ w_tracking w' = w_tracking w /\
  agree m m' (sq_live (w_segs w)) /\ sq_offset (w_segs w') = sq_offset (w_segs w) /\
  sq_live (w_segs w) `prefix_of` sq_live (w_segs w').

(** What staging promises. *)
Definition staged m w m' w' (bs : bytes) (lent : Releases) : Prop :=
  out_inv m' w' /\ out_pending m' w' = out_pending m w ++ bs /\ out_borrows w' = out_borrows w ++ lent /\
  send_same m w m' w' /\ frame m (w_segs w) m' (w_segs w').

Lemma send_same_refl m w : send_same m w m w.
Proof. unfold send_same. split_and!; try done. by apply Forall_true. Qed.
Lemma send_same_trans m1 w1 m2 w2 m3 w3 :
  send_same m1 w1 m2 w2 -> send_same m2 w2 m3 w3 -> send_same m1 w1 m3 w3.
Proof.
  intros (? & ? & ? & ? & ? & ? & ? & ? & Ha & ? & Hp) (? & ? & ? & ? & ? & ? & ? & ? & Ha' & ? & Hp').
  unfold send_same. split_and!; try congruence; [|by etrans].
  destruct Hp as [k Hk]. unfold agree in *. rewrite Hk, Forall_app in Ha'. destruct Ha' as [Ha' _].
  rewrite Forall_forall in *. intros s Hs. by rewrite Ha', Ha.
Qed.
Lemma staged_refl m w : out_inv m w -> staged m w m w [] [].
Proof.
  intros Hi. unfold staged. rewrite !app_nil_r. split_and!; try done. apply send_same_refl.
Qed.
Lemma staged_trans m1 w1 m2 w2 m3 w3 bs bs' l l' :
  staged m1 w1 m2 w2 bs l -> staged m2 w2 m3 w3 bs' l' -> staged m1 w1 m3 w3 (bs ++ bs') (l ++ l').
Proof.
  intros (_ & Hp & Hb & Hs & Hf) (Hi & Hp' & Hb' & Hs' & Hf'). unfold staged.
  rewrite Hp', Hp, Hb', Hb, !app_assoc. split_and!; try done; [by eapply send_same_trans|].
  intros p b H1 H2. destruct (Hf p b H1 H2). by apply Hf'.
Qed.
(** Room left after staging part of what there was room for. *)
Lemma room_after m w m' w' bs lent n k :
  staged m w m' w' bs lent -> out_room m w n -> 0 <= k -> k + Z.of_nat (length bs) <= n ->
  sq_size (w_segs w') <= 2 ^ 28 -> out_room m' w' k.
Proof.
  intros (_ & Hp & _) (H1 & H2 & H3) Hk Hn Hs. split_and!; [lia| |done]. rewrite Hp, length_app. lia.
Qed.

(** ** The fill buffer *)
Lemma set_fill_staged m w b bs :
  out_inv m w -> sq_size (w_segs w) = 0 \/ bs = [] -> sb_ok b -> sb_bytes b = sb_bytes (fill_buf w) ++ bs ->
  Z.of_nat (length (out_pending m w)) + Z.of_nat (length bs) <= 2 ^ 40 ->
  staged m w m (obuf_add (set_fill_buf w b) (Z.of_nat (length bs))) bs [].
Proof.
  intros Hi Hq Hb Eb Hroom. pose proof Hi as (H0 & H1 & Hsq & Hws & Ho & Htr).
  destruct (out_bufs_ok m w Hi) as [Hf Hs]. set (n := Z.of_nat (length bs)).
  assert (Hlen : sb_len b = sb_len (fill_buf w) + n).
  { rewrite <- (sb_bytes_length b), Eb, length_app, <- (sb_bytes_length (fill_buf w)) by done. lia. }
  assert (Hp : forall x, out_pending m (set_obuf (set_fill_buf w b) x) = out_pending m w ++ bs).
  { intros x. unfold out_pending, send_rest. change (send_buf (set_obuf ?w x)) with (send_buf w).
    change (fill_buf (set_obuf ?w x)) with (fill_buf w). rewrite fill_set_fill, send_set_fill, Eb.
    by rewrite !app_assoc. }
  destruct (obuf_add_out (set_fill_buf w b) n) as [x Ex]. rewrite Ex.
  unfold staged. rewrite Hp, app_nil_r. split_and!; try done.
  - split_and!.
    + unfold set_fill_buf, set_buf. cbn. by destruct (w_fill w).
    + unfold set_fill_buf, set_buf. cbn. by destruct (w_fill w).
    + done.
    + apply Hws.
    + change (send_buf (set_obuf ?w x)) with (send_buf w). rewrite send_set_fill. apply Hws.
    + unfold out_ordered. change (fill_buf (set_obuf ?w x)) with (fill_buf w). rewrite fill_set_fill, Hlen.
      intros Hne. destruct Hq as [|E]; [done|]. unfold n. rewrite E. cbn. rewrite Ho; done.
    + intros Ht. rewrite Hp, length_app. change (w_tracking w = true) in Ht.
      unfold obuf_add in Ex. change (w_tracking (set_fill_buf w b)) with (w_tracking w) in Ex.
      rewrite Ht in Ex. injection Ex as <-. change (w_obuf (set_fill_buf w b)) with (w_obuf w).
      cbn [w_obuf set_obuf]. rewrite Htr by done. unfold n in *. change (2 ^ 40) with 1099511627776 in *.
      rewrite u64_small by lia. lia.
  - unfold send_same. split_and!; try done; [apply send_set_fill|by apply Forall_true].
Qed.

Lemma append_fill_spec m w bs :
  out_inv m w -> sq_size (w_segs w) = 0 -> out_room m w (Z.of_nat (length bs)) ->
  exists w', append_fill w bs = Some w' /\ staged m w m w' bs [] /\ w_segs w' = w_segs w.
Proof.
  intros Hi Hq (_ & Hroom & _). pose proof (pending_length m w Hi) as Hpl.
  destruct (out_bufs_ok m w Hi) as [Hf _]. pose proof Hi as (_ & _ & _ & Hws & _).
  change (2 ^ 40) with 1099511627776 in *.
  destruct (sb_append_spec (fill_buf w) bs Hf) as (b & E & Hb & Eb & _).
  { unfold sb_fits. change (2 ^ 60) with 1152921504606846976. lia. }
  unfold append_fill. rewrite E, some_bind. eexists. split; [done|].
  split; [apply set_fill_staged; auto; by change (2 ^ 40) with 1099511627776|].
  destruct (obuf_add_out (set_fill_buf w b) (Z.of_nat (length bs))) as [x ->]. done.
Qed.

(** ** Segments *)
(** Replacing the queue by one with more behind it. *)
Lemma set_segs_staged m w m' q bs lent :
  out_inv m w -> sb_len (fill_buf w) = 0 -> appended m (w_segs w) m' q bs lent ->
  Z.of_nat (length (out_pending m w)) + Z.of_nat (length bs) <= 2 ^ 40 ->
  staged m w m' (obuf_add (set_segs w q) (Z.of_nat (length bs))) bs lent.
Proof.
  intros Hi Hf0 (Hi' & Hw & (new & El & Eb) & Eo & Ha & Hfr) Hroom.
  pose proof Hi as (H0 & H1 & Hsq & Hws & Ho & Htr). set (n := Z.of_nat (length bs)).
  assert (Hfn : sb_bytes (fill_buf w) = []) by (unfold sb_bytes; by rewrite Hf0).
  assert (Hp : forall x, out_pending m' (set_obuf (set_segs w q) x) = out_pending m w ++ bs).
  { intros x. unfold out_pending. change (fill_buf (set_obuf (set_segs w q) x)) with (fill_buf w).
    rewrite Hfn, !app_nil_r. cbn [w_segs set_obuf set_segs]. by rewrite Hw, app_assoc. }
  destruct (obuf_add_out (set_segs w q) n) as [x Ex]. rewrite Ex. unfold staged. rewrite Hp. split_and!; try done.
  - split_and!; try done; try apply Hws; [by intros _|]. intros Ht. rewrite Hp, length_app.
    change (w_tracking w = true) in Ht. unfold obuf_add in Ex.
    change (w_tracking (set_segs w q)) with (w_tracking w) in Ex. rewrite Ht in Ex. injection Ex as <-.
    change (w_obuf (set_segs w q)) with (w_obuf w). cbn [w_obuf set_obuf]. rewrite Htr by done.
    unfold n in *. change (2 ^ 40) with 1099511627776 in *. rewrite u64_small by lia. lia.
  - unfold out_borrows. cbn [w_segs set_obuf set_segs]. by rewrite El, borrows_app, Eb.
  - unfold send_same. split_and!; try done. cbn [w_segs set_obuf set_segs]. rewrite El. by apply prefix_app_r.
Qed.

Lemma kMaxSegment_ok : 0 < kMaxSegmentBytes <= UINT32_MAX.
Proof. done. Qed.
Lemma n_segs_le k : Z.of_nat k <= 2 ^ 40 -> n_segs kMaxSegmentBytes k <= 258.
Proof.
  intros H. unfold n_segs, kMaxSegmentBytes, UINT32_MAX. change (2 ^ 40) with 1099511627776 in H.
  pose proof (Z.div_le_mono (Z.of_nat k) 1099511627776 4294967295 ltac:(lia) H).
  change (1099511627776 / 4294967295) with 256 in *. lia.
Qed.

Lemma append_buf_segment_spec m w bs :
  out_inv m w -> sb_len (fill_buf w) = 0 -> out_room m w (Z.of_nat (length bs)) ->
  exists m' w', append_buf_segment m w bs = Some (m', w') /\ staged m w m' w' bs [] /\
    fill_buf w' = fill_buf w /\ sq_size (w_segs w') <= sq_size (w_segs w) + 600.
Proof.
  intros Hi Hf (_ & Hroom & Hsz). pose proof (n_segs_le (length bs)) as Hn. pose proof Hi as (_ & _ & Hsq & _).
  change (2 ^ 28) with 268435456 in *.
  destruct (append_buf_spec _ kMaxSegment_ok m (w_segs w) bs Hsq) as (m' & q & E & Ha & Hs).
  { change (2 ^ 30) with 1073741824. lia. }
  unfold append_buf_segment. rewrite E, some_bind. cbv beta iota. eexists m', _. split; [done|].
  split; [by apply set_segs_staged|]. destruct (obuf_add_out (set_segs w q) (Z.of_nat (length bs))) as [x ->].
  split; [done|]. cbn [w_segs set_obuf set_segs]. lia.
Qed.

Lemma append_buf_segment2_spec m w a b :
  out_inv m w -> sb_len (fill_buf w) = 0 -> out_room m w (Z.of_nat (length a) + Z.of_nat (length b)) ->
  exists m' w', append_buf_segment2 m w a b = Some (m', w') /\ staged m w m' w' (a ++ b) [] /\
    fill_buf w' = fill_buf w /\ sq_size (w_segs w') <= sq_size (w_segs w) + 600.
Proof.
  intros Hi Hf (_ & Hroom & Hsz). pose proof Hi as (_ & _ & Hsq & _).
  pose proof (n_segs_le (length a)) as Hn. pose proof (n_segs_le (length b)) as Hn'.
  change (2 ^ 28) with 268435456 in *.
  destruct (append_buf2_spec _ kMaxSegment_ok m (w_segs w) a b Hsq) as (m' & q & E & Ha & Hs).
  { change (2 ^ 30) with 1073741824. lia. }
  unfold append_buf_segment2. rewrite E, some_bind. cbv beta iota.
  rewrite <- Nat2Z.inj_add, <- length_app in *. eexists m', _. split; [done|].
  split; [by apply set_segs_staged|]. destruct (obuf_add_out (set_segs w q) (Z.of_nat (length (a ++ b)))) as [x ->].
  split; [done|]. cbn [w_segs set_obuf set_segs]. rewrite length_app in Hroom. lia.
Qed.

(** A block readable for [len] bytes that the queue does not own. *)
Definition lent_ok m w (ptr len : Z) (bs : bytes) : Prop :=
  0 <= len < 2 ^ 32 /\ m_read m ptr 0 len = Some bs /\ ptr ∉ owned (sq_live (w_segs w)).
Lemma lent_ok_staged m w m' w' bs lent ptr len v :
  staged m w m' w' bs lent -> lent_ok m w ptr len v -> lent_ok m' w' ptr len v.
Proof.
  intros (_ & _ & _ & _ & Hf) (Hl & Hr & Hn). pose proof (m_read_is_Some _ _ _ _ _ Hr) as [b Hb].
  destruct (Hf ptr b Hb Hn) as [Hb' Hn']. split; [done|]. split; [|done].
  unfold m_read in *. by rewrite Hb', <- Hb.
Qed.

Lemma push_lent_staged m w k ptr len shard v :
  k <> Buf -> out_inv m w -> sb_len (fill_buf w) = 0 -> out_room m w len -> lent_ok m w ptr len v ->
  exists q, sq_push (w_segs w) (mkSeg k ptr len shard) = Some q /\
    let w' := obuf_add (set_segs w q) len in
    staged m w m w' v (release_of (mkSeg k ptr len shard)) /\
    fill_buf w' = fill_buf w /\ sq_size (w_segs w') <= sq_size (w_segs w) + 600.
Proof.
  intros Hk Hi Hf (_ & Hroom & Hsz) (Hl & Hr & Hn). pose proof Hi as (_ & _ & Hsq & _).
  pose proof (m_read_length _ _ _ _ Hr) as Hlen. change (2 ^ 28) with 268435456 in *.
  destruct (sq_push_lent m (w_segs w) (mkSeg k ptr len shard)) as (q & E & Ha & Hs); [done| |split; [done|by eexists]|done|done|].
  { change (2 ^ 30) with 1073741824. lia. }
  assert (seg_bytes m (mkSeg k ptr len shard) = v) as Ev by (unfold seg_bytes; cbn; by rewrite Hr).
  rewrite Ev in Ha. exists q. split; [done|]. cbv zeta. rewrite <- Hlen.
  split; [apply set_segs_staged; [done|done| |lia]; by rewrite Hlen|].
  destruct (obuf_add_out (set_segs w q) (Z.of_nat (length v))) as [x ->].
  split; [done|]. cbn [w_segs set_obuf set_segs]. lia.
Qed.
Lemma append_borrow_segment_spec m w ptr len shard v :
  out_inv m w -> sb_len (fill_buf w) = 0 -> out_room m w len -> lent_ok m w ptr len v ->
  exists w', append_borrow_segment w ptr len shard = Some w' /\ staged m w m w' v [(shard, ptr)] /\
    fill_buf w' = fill_buf w /\ sq_size (w_segs w') <= sq_size (w_segs w) + 600.
Proof.
  intros Hi Hf Hroom Hl. destruct (push_lent_staged m w Borrow ptr len shard v) as (q & E & H); [done..|].
  unfold append_borrow_segment, append_borrow. rewrite E, some_bind. eexists. split; [done|]. exact H.
Qed.
Lemma append_static_segment_spec m w ptr len v :
  out_inv m w -> sb_len (fill_buf w) = 0 -> out_room m w len -> lent_ok m w ptr len v ->
  exists w', append_static_segment w ptr len = Some w' /\ staged m w m w' v [] /\
    fill_buf w' = fill_buf w /\ sq_size (w_segs w') <= sq_size (w_segs w) + 600.
Proof.
  intros Hi Hf Hroom Hl. destruct (push_lent_staged m w Static ptr len (-1) v) as (q & E & H); [done..|].
  unfold append_static_segment, append_static. rewrite E, some_bind. eexists. split; [done|]. exact H.
Qed.

(** Sealing moves the fill buffer behind the queue and changes nothing on the wire. *)
Lemma seal_fill_segment_spec m w :
  out_inv m w -> out_room m w 0 ->
  exists m' w', seal_fill_segment m w = Some (m', w') /\ staged m w m' w' [] [] /\
    sb_len (fill_buf w') = 0 /\ sq_size (w_segs w') <= sq_size (w_segs w) + 600 /\
    sb_mem (fill_buf w') = sb_mem (fill_buf w) /\ sb_ok (fill_buf w') /\
    (w_segs w' = w_segs w /\ m' = m /\ w' = w \/ sb_len (fill_buf w) <> 0).
Proof.
  intros Hi (_ & Hroom & Hsz). unfold seal_fill_segment, sb_empty.
  destruct (out_bufs_ok m w Hi) as [Hf Hs]. pose proof (pending_length m w Hi) as Hpl.
  destruct (Z.eqb_spec (sb_len (fill_buf w)) 0) as [E0|E0]; cbn [negb].
  { exists m, w. split; [done|]. split; [by apply staged_refl|]. split; [done|]. split; [lia|].
    split; [done|]. split; [done|]. by left. }
  pose proof Hi as (H0 & H1 & Hsq & Hws & Ho & Htr). pose proof (sb_bytes_length _ Hf) as Hlen.
  assert (Hfl : sb_ok (sb_clear (fill_buf w))) by (unfold sb_ok, sb_clear in *; cbn -[Z.pow]; lia).
  pose proof (n_segs_le (length (sb_bytes (fill_buf w)))) as Hn. change (2 ^ 28) with 268435456 in *.
  destruct (append_buf_spec _ kMaxSegment_ok m (w_segs w) (sb_bytes (fill_buf w)) Hsq) as (m' & q & E & Ha & Hsz').
  { change (2 ^ 30) with 1073741824. lia. }
  rewrite E, some_bind. cbv beta iota. destruct Ha as (Hi' & Hw & (new & El & Eb) & Eo & Ha & Hfr).
  set (w' := set_fill_buf (set_segs w q) (sb_clear (fill_buf w))).
  assert (Ef : fill_buf w' = sb_clear (fill_buf w)) by apply fill_set_fill.
  assert (Es : send_buf w' = send_buf w) by (unfold w'; by rewrite send_set_fill).
  assert (Hp : out_pending m' w' = out_pending m w).
  { unfold out_pending, send_rest. rewrite Ef, Es. change (w_segs w') with q. rewrite Hw.
    change (sb_bytes (sb_clear (fill_buf w))) with (@nil Z). by rewrite app_nil_r. }
  exists m', w'. split; [done|]. rewrite Ef. unfold staged. rewrite Hp, !app_nil_r.
  split_and!; try done; [| | |cbn; lia|by right].
  - split; [unfold w', set_fill_buf, set_buf; cbn; by destruct (w_fill w)|].
    split; [unfold w', set_fill_buf, set_buf; cbn; by destruct (w_fill w)|].
    split; [done|]. rewrite Es, Hp. split; [done|]. split; [|done]. intros _. by rewrite Ef.
  - unfold out_borrows. change (w_segs w') with q. rewrite El, borrows_app, Eb. by rewrite app_nil_r.
  - unfold send_same. split_and!; try done. change (w_segs w') with q. rewrite El. by apply prefix_app_r.
Qed.

(** An out-of-band frame lands whole, behind everything staged so far. *)
Lemma append_oob_spec quiesced m w a b :
  out_inv m w -> out_room m w (Z.of_nat (length a) + Z.of_nat (length b)) ->
  sq_size (w_segs w) + 600 <= 2 ^ 28 ->
  exists m' w' flag, append_oob quiesced m w a b = Some (m', w', flag) /\ staged m w m' w' (a ++ b) [] /\
    sq_size (w_segs w') <= sq_size (w_segs w) + 1200.
Proof.
  intros Hi Hroom Hsz. unfold append_oob. destruct (sq_empty (w_segs w) && quiesced) eqn:E.
  - apply andb_prop in E as [E0 _]. unfold sq_empty in E0. zcmp.
    destruct (append_fill_spec m w a Hi E0) as (w1 & -> & Hst1 & Es1).
    { destruct Hroom as (H1 & H2 & H3). split_and!; lia. }
    rewrite some_bind. destruct b as [|c b'].
    { rewrite some_bind, app_nil_r. eexists m, w1, _. split; [done|]. split; [done|]. rewrite Es1. lia. }
    destruct (append_fill_spec m w1 (c :: b')) as (w2 & -> & Hst2 & Es2); [apply Hst1|by rewrite Es1| |].
    { eapply room_after; [done|done|lia|lia|]. rewrite Es1. lia. }
    rewrite some_bind. eexists m, w2, _. split; [done|]. split; [|rewrite Es2, Es1; lia].
    by apply (staged_trans _ _ _ _ _ _ _ _ [] [] Hst1).
  - destruct (seal_fill_segment_spec m w Hi) as (m1 & w1 & -> & Hst1 & Hf1 & Hs1 & _).
    { destruct Hroom as (H1 & H2 & H3). split_and!; lia. }
    rewrite some_bind. cbv beta iota.
    destruct (append_buf_segment2_spec m1 w1 a b) as (m2 & w2 & -> & Hst2 & _ & Hs2); [apply Hst1|done| |].
    { eapply room_after; [done|done|lia|cbn [length]; lia|lia]. }
    rewrite some_bind. cbv beta iota. eexists m2, w2, _. split; [done|]. split; [|lia].
    by apply (staged_trans _ _ _ _ _ _ [] _ [] [] Hst1).
Qed.

(** ** Sending *)
(** What accepting [n] bytes promises: they leave the front of the pending bytes, and the borrows
    that are finished are released in order. *)
Definition accepted m w m' w' (n : Z) (rel : Releases) : Prop :=
  out_inv m' w' /\ out_pending m' w' = drop (Z.to_nat n) (out_pending m w) /\
  out_borrows w = rel ++ out_borrows w' /\ frame m (w_segs w) m' (w_segs w') /\
  w_inflight w' = w_inflight w /\ w_tracking w' = w_tracking w.

(** The checked subtraction never aborts while the counter is exact. *)
Lemma obuf_sub_spec m m' w w0 n :
  w_obuf w0 = w_obuf w -> w_tracking w0 = w_tracking w ->
  (w_tracking w = true -> w_obuf w = Z.of_nat (length (out_pending m w))) ->
  (forall x, out_pending m' (set_obuf w0 x) = drop (Z.to_nat n) (out_pending m w)) ->
  0 <= n <= Z.of_nat (length (out_pending m w)) -> Z.of_nat (length (out_pending m w)) < 2 ^ 64 ->
  exists x, obuf_sub w0 n = Some (set_obuf w0 x) /\
    (w_tracking (set_obuf w0 x) = true -> x = Z.of_nat (length (out_pending m' (set_obuf w0 x)))).
Proof.
  intros Eo Et Htr Hp Hn Hlt. change (2 ^ 64) with 18446744073709551616 in Hlt. unfold obuf_sub.
  change (w_tracking (set_obuf w0 ?x)) with (w_tracking w0). rewrite Et, Eo.
  destruct (w_tracking w) eqn:Ew.
  - rewrite Htr by done. rewrite (proj2 (Z.ltb_ge _ _)) by lia. eexists. split; [done|]. intros _.
    rewrite Hp, length_drop, u64_small by lia. lia.
  - exists (w_obuf w). split; [|done]. rewrite <- Eo. by destruct w0.
Qed.

Lemma commit_write_spec m w n :
  out_inv m w -> Z.of_nat (length (out_pending m w)) < 2 ^ 64 -> 0 <= n <= Z.of_nat (length (send_rest w)) ->
  exists w', commit_write w n = Some w' /\ accepted m w m w' n [] /\ w_segs w' = w_segs w.
Proof.
  intros Hi Hlt Hn. pose proof Hi as (H0 & H1 & Hsq & Hws & Ho & Htr).
  destruct (out_bufs_ok m w Hi) as [Hf Hs]. pose proof (sb_bytes_length _ Hs) as Hlen.
  assert (Hn' : w_sent w + n <= sb_len (send_buf w)) by (unfold send_rest in Hn; rewrite length_drop in Hn; lia).
  unfold commit_write. assert (sb_len (send_buf w) < 18446744073709551616).
  { destruct Hs as (Hc & _ & Hl). change (2 ^ 61) with 2305843009213693952 in Hc. lia. }
  rewrite u64_small by lia. set (w0 := mkOut _ _ _ (w_sent w + n) _ _ _ _ _ _ _ _).
  assert (Hp : forall x, out_pending m (set_obuf w0 x) = drop (Z.to_nat n) (out_pending m w)).
  { intros x. unfold out_pending. rewrite drop_app_le by lia. f_equal. unfold send_rest.
    change (send_buf (set_obuf w0 x)) with (send_buf w). change (w_sent (set_obuf w0 x)) with (w_sent w + n).
    rewrite drop_drop. f_equal. lia. }
  destruct (obuf_sub_spec m m w w0 n) as (x & -> & Hx); [done|done|done|done| |done|].
  { unfold out_pending. rewrite length_app. lia. }
  exists (set_obuf w0 x). split; [done|]. split; [|done]. split; [|by rewrite Hp].
  split_and!; [done|done|done|cbn -[Z.add]; lia| |done|exact Hx].
  change (send_buf (set_obuf w0 x)) with (send_buf w). cbn -[Z.add]. lia.
Qed.

Lemma swap_buffers_spec m w :
  out_inv m w -> write_drained w = true -> sq_size (w_segs w) = 0 ->
  out_inv m (swap_buffers w) /\ out_pending m (swap_buffers w) = out_pending m w /\
  w_segs (swap_buffers w) = w_segs w /\ send_rest (swap_buffers w) = sb_bytes (fill_buf w) /\
  sb_len (fill_buf (swap_buffers w)) = 0.
Proof.
  intros Hi Hd Hq. pose proof Hi as (H0 & H1 & Hsq & Hws & Ho & Htr). destruct (out_bufs_ok m w Hi) as [Hf Hs].
  unfold write_drained in Hd. zcmp.
  assert (Es : send_buf (swap_buffers w) = fill_buf w).
  { unfold send_buf, fill_buf, swap_buffers, out_buf, set_buf. cbn. by destruct (w_fill w). }
  assert (Ef : fill_buf (swap_buffers w) = sb_clear (send_buf w)).
  { unfold fill_buf, swap_buffers, send_buf, out_buf, set_buf. cbn. by destruct (w_fill w). }
  assert (Hp : out_pending m (swap_buffers w) = out_pending m w).
  { unfold out_pending, send_rest. rewrite Es, Ef. change (w_segs (swap_buffers w)) with (w_segs w).
    change (w_sent (swap_buffers w)) with 0. change (sb_bytes (sb_clear (send_buf w))) with (@nil Z).
    pose proof (sb_bytes_length _ Hs). rewrite (drop_ge (sb_bytes (send_buf w))) by lia.
    assert (Hl : sq_live (w_segs w) = []) by (unfold sq_live; by rewrite Hq).
    unfold sq_wire. rewrite Hl. change (segs_wire m []) with (@nil Z). rewrite drop_nil. cbn [Z.to_nat]. rewrite drop_0.
    by rewrite !app_nil_r. }
  assert (sb_ok (sb_clear (send_buf w))) by (unfold sb_ok, sb_clear in *; cbn -[Z.pow]; lia).
  split; [|split; [done|split; [done|split; [|by rewrite Ef]]]].
  - unfold out_inv. rewrite Hp. split_and!; try done.
    + unfold swap_buffers, set_buf, send_buf, out_buf in *. cbn. by destruct (w_fill w).
    + unfold swap_buffers, set_buf, send_buf, out_buf in *. cbn. by destruct (w_fill w).
    + rewrite Es. destruct Hf as (_ & _ & ?). cbn. lia.
    + intros _. by rewrite Ef.
  - unfold send_rest. rewrite Es. change (w_sent (swap_buffers w)) with 0. cbn [Z.to_nat]. apply drop_0.
Qed.

Lemma consume_segments_spec m w n :
  out_inv m w -> Z.of_nat (length (out_pending m w)) < 2 ^ 64 -> send_rest w = [] -> n < 2 ^ 32 ->
  0 <= n <= Z.of_nat (length (sq_wire m (w_segs w))) ->
  exists m' w' bor rel, consume_segments m w n = Some (m', w', bor, rel) /\ accepted m w m' w' n rel.
Proof.
  intros Hi Hlt Hr Hn32 Hn. pose proof Hi as (H0 & H1 & Hsq & Hws & Ho & Htr). pose proof Hsq as (Hg & _).
  pose proof (sq_live_length _ Hg). unfold consume_segments, consume.
  destruct (consume_loop_spec (Z.to_nat (sq_size (w_segs w))) m (w_segs w) n 0 []) as
    (m' & q & bor & rel & E & (Hi' & Hw & Hfr & k & Hk & Hrel & Hkl)); [done|lia|lia|lia|].
  rewrite E, some_bind. cbv beta iota.
  assert (Hp : forall x, out_pending m' (set_obuf (set_segs w q) x) = drop (Z.to_nat n) (out_pending m w)).
  { intros x. unfold out_pending. change (send_rest (set_obuf (set_segs w q) x)) with (send_rest w).
    rewrite Hr. cbn [app]. rewrite drop_app_le by lia. f_equal. exact Hw. }
  destruct (obuf_sub_spec m m' w (set_segs w q) n) as (x & -> & Hx); [done|done|done|done| |done|].
  { unfold out_pending. rewrite !length_app. lia. }
  rewrite some_bind. eexists m', _, bor, _. split; [done|]. split; [|split; [by rewrite Hp|]].
  - split_and!; [done|done|exact Hi'|apply Hws|apply Hws| |exact Hx].
    intros Hne. apply Ho. intros E0. apply Hne. cbn [w_segs set_obuf set_segs].
    pose proof (sq_live_length q) as Hql. rewrite Hk, length_drop in Hql. destruct Hi' as [Hg' _].
    specialize (Hql Hg'). lia.
  - unfold out_borrows. cbn [w_segs set_obuf set_segs app]. rewrite Hk, Hrel, <- borrows_app, take_drop. done.
Qed.

(** Taking back the segments staged behind [keep]: their borrows are released, youngest first. *)
Lemma truncate_segments_spec m w (keep : nat) old bs lent :
  out_inv m w -> sb_len (fill_buf w) = 0 -> Z.of_nat (length (out_pending m w)) < 2 ^ 64 ->
  (keep <= length (sq_live (w_segs w)))%nat -> (keep = 0%nat -> sq_offset (w_segs w) = 0) ->
  segs_wire m (drop keep (sq_live (w_segs w))) = bs -> out_pending m w = old ++ bs ->
  borrows (drop keep (sq_live (w_segs w))) = lent ->
  exists m' w' rel, truncate_segments m w (Z.of_nat keep) = Some (m', w', rel) /\ out_inv m' w' /\
    out_pending m' w' = old /\ rel ≡ₚ lent /\ out_borrows w ≡ₚ out_borrows w' ++ rel /\
    frame m (w_segs w) m' (w_segs w').
Proof.
  intros Hi Hf0 Hlt Hk Hk0 Ebs Eold El. pose proof Hi as (H0 & H1 & Hsq & Hws & Ho & Htr).
  change (2 ^ 64) with 18446744073709551616 in Hlt. rewrite Eold, length_app in Hlt.
  destruct (truncate_spec m (w_segs w) keep) as (m' & q & rel & E & (Hi' & Hl' & Hw' & Hr' & Hf'));
    [done|done|done|rewrite Ebs; change (2 ^ 64) with 18446744073709551616; lia|].
  rewrite Ebs in *. unfold truncate_segments. rewrite E, some_bind. cbv beta iota.
  assert (Hfn : sb_bytes (fill_buf w) = []) by (unfold sb_bytes; by rewrite Hf0).
  assert (Hp0 : forall x, out_pending m' (set_obuf (set_segs w q) x) = old).
  { intros x. unfold out_pending in *. change (fill_buf (set_obuf (set_segs w q) x)) with (fill_buf w).
    rewrite Hfn, app_nil_r in *. change (send_rest (set_obuf (set_segs w q) x)) with (send_rest w).
    cbn [w_segs set_obuf set_segs]. rewrite Hw', app_assoc in Eold. by apply app_inv_tail in Eold. }
  assert (exists x, obuf_sub (set_segs w q) (Z.of_nat (length bs)) = Some (set_obuf (set_segs w q) x) /\
    (w_tracking w = true -> x = Z.of_nat (length old))) as (x & -> & Hx).
  { unfold obuf_sub. change (w_tracking (set_segs w q)) with (w_tracking w). destruct (w_tracking w) eqn:Ew.
    - change (w_obuf (set_segs w q)) with (w_obuf w). rewrite Htr, Eold, length_app by done.
      rewrite (proj2 (Z.ltb_ge _ _)) by lia. eexists. split; [done|]. intros _. rewrite u64_small by lia. lia.
    - exists (w_obuf w). split; [by destruct w|done]. }
  rewrite some_bind. eexists m', _, rel. split; [done|].
  assert (Hperm : rel ≡ₚ lent).
  { rewrite Hr', <- El. unfold borrows. rewrite fmap_reverse.
    induction (release_of <$> drop keep (sq_live (w_segs w))) as [|a l IH]; [done|].
    rewrite reverse_cons, concat_app. cbn. rewrite app_nil_r, IH. by rewrite Permutation_app_comm. }
  split; [|split; [done|split; [done|split; [|done]]]].
  - split_and!; [done|done|exact Hi'|apply Hws|apply Hws| |by rewrite Hp0]. by intros _.
  - unfold out_borrows. cbn [w_segs set_obuf set_segs]. rewrite Hl', Hperm, <- El, <- borrows_app, take_drop. done.
Qed.

Lemma release_all_segments_spec m w :
  out_inv m w -> w_tracking w = false ->
  exists m' w', release_all_segments m w = Some (m', w', out_borrows w) /\ out_inv m' w' /\
    out_borrows w' = [] /\ frame m (w_segs w) m' (w_segs w').
Proof.
  intros (H0 & H1 & Hsq & Hws & Ho & Htr) Ht. unfold release_all_segments.
  destruct (release_all_spec m (w_segs w) Hsq) as (m' & q & -> & Hi' & Hl & Hf & _). rewrite some_bind.
  cbv beta iota. eexists m', _. split; [done|].
  split; [|split; [unfold out_borrows; cbn [w_segs set_obuf set_segs]; by rewrite Hl|done]].
  split_and!; [done|done|exact Hi'|apply Hws|apply Hws| |].
  - intros Hne. destruct Hne. cbn [w_segs set_obuf set_segs]. destruct Hi' as [Hg _].
    pose proof (sq_live_length q Hg) as Hlen. rewrite Hl in Hlen. by rewrite <- Hlen.
  - change (w_tracking w = true -> 0 = Z.of_nat (length (out_pending m' (set_obuf (set_segs w q) 0)))). by rewrite Ht.
Qed.

(** ** Accounting *)
Lemma byte_size_pending m w :
  out_inv m w -> Z.of_nat (length (out_pending m w)) < 2 ^ 64 ->
  byte_size (w_segs w) = Some (Z.of_nat (length (sq_wire m (w_segs w)))).
Proof.
  intros (_ & _ & Hsq & _) Hlt. apply byte_size_spec; [done|]. unfold out_pending in Hlt.
  rewrite !length_app in Hlt. lia.
Qed.
Lemma buffered_output_bytes_spec m w :
  out_inv m w -> Z.of_nat (length (out_pending m w)) < 2 ^ 64 ->
  buffered_output_bytes w = Some (Z.of_nat (length (out_pending m w))).
Proof.
  intros Hi Hlt. unfold buffered_output_bytes, send_remaining. rewrite (byte_size_pending m w), some_bind by done.
  rewrite (pending_length m w Hi) in Hlt |- *. pose proof Hi as (_ & _ & _ & Hws & _).
  destruct (out_bufs_ok m w Hi) as [(_ & _ & Hf) _]. change (2 ^ 64) with 18446744073709551616 in Hlt.
  destruct (Z.ltb_spec (w_sent w) (sb_len (send_buf w))); rewrite u64_small by lia; f_equal; lia.
Qed.
Lemma start_obuf_tracking_spec m w :
  out_inv m w -> Z.of_nat (length (out_pending m w)) < 2 ^ 64 ->
  exists w', start_obuf_tracking w = Some w' /\ out_inv m w' /\ w_tracking w' = true /\
    out_pending m w' = out_pending m w /\ w_segs w' = w_segs w /\ fill_buf w' = fill_buf w /\
    send_buf w' = send_buf w /\ w_sent w' = w_sent w /\ w_fill w' = w_fill w /\
    w_inflight w' = w_inflight w /\ w_segmented w' = w_segmented w /\ w_requested w' = w_requested w /\
    w_iov w' = w_iov w.
Proof.
  intros Hi Hlt. unfold start_obuf_tracking. destruct (w_tracking w) eqn:Et.
  { exists w. by split_and!. }
  rewrite (byte_size_pending m w), some_bind by done. eexists. split; [done|].
  pose proof (pending_length m w Hi) as Hpl. pose proof Hi as (H0 & H1 & Hsq & Hws & Ho & _).
  destruct (out_bufs_ok m w Hi) as [(_ & _ & Hf) (Hc & _ & Hs)]. change (2 ^ 64) with 18446744073709551616 in Hlt.
  change (2 ^ 61) with 2305843009213693952 in Hc. split; [|by split_and!].
  split_and!; [done|done|done|apply Hws|apply Hws|done|]. intros _.
  change (out_pending m (mkOut _ _ _ _ _ _ _ _ _ _ _ _)) with (out_pending m w). cbn [w_obuf].
  rewrite (u64_small (sb_len (send_buf w) - w_sent w)) by lia. rewrite u64_small by lia. lia.
Qed.
Lemma stop_obuf_tracking_spec m w :
  out_inv m w ->
  let w' := stop_obuf_tracking w in
  out_inv m w' /\ w_tracking w' = false /\
    out_pending m w' = out_pending m w /\ w_segs w' = w_segs w /\ fill_buf w' = fill_buf w /\
    send_buf w' = send_buf w /\ w_sent w' = w_sent w /\ w_fill w' = w_fill w /\
    w_inflight w' = w_inflight w /\ w_segmented w' = w_segmented w /\ w_requested w' = w_requested w /\
    w_iov w' = w_iov w.
Proof.
  intros Hi. unfold stop_obuf_tracking. destruct (w_tracking w) eqn:Et; cbn [negb]; [|by split_and!].
  destruct Hi as (H0 & H1 & Hsq & Hws & Ho & _). cbv zeta. split; [|by split_and!].
  split_and!; [done|done|done|apply Hws|apply Hws|done|done].
Qed.
End OutLemmas.
