(* ===== verification/WriteBack.v ===== *)
(** wb.h, the send engine of one plaintext connection: retiring replies into the write side of the
    client ([serve_impl]), and moving bytes from there to the socket with io_uring ([pump],
    [on_send_complete]) or with epoll ([pump_epoll]).

    The kernel is explicit.  [wb_sock] is what the socket has accepted so far; a submitted send
    holds the location it was given ([wb_sqe]) and reads it when it completes, so a buffer that
    moved in between would be a fault; a synchronous send answers through a parameter.  The release callback
    appends to [wb_released]. *)
From stdpp Require Import gmap.
From S2P Require Import Prelude Slice Op RespReply Rob SegQueue OutBuf.

(** * State *)
Inductive Stat :=
| sends_submitted | sends_completed | short_writes | send_errors | peer_aborts | serves
| serves_empty | bytes_sent | st_retired | st_direct | zc_sends | zc_bytes | zc_releases
| net_output_bytes.
Definition stat_index (k : Stat) : nat :=
  match k with
  | sends_submitted => 0 | sends_completed => 1 | short_writes => 2 | send_errors => 3
  | peer_aborts => 4 | serves => 5 | serves_empty => 6 | bytes_sent => 7 | st_retired => 8
  | st_direct => 9 | zc_sends => 10 | zc_bytes => 11 | zc_releases => 12 | net_output_bytes => 13
  end.
(** The counters, in this order. *)
Definition Stats := list Z.
Definition stats_new : Stats := replicate 14 0.

#[global] Instance SmallBuf_eq_dec : EqDecision SmallBuf.
Proof. solve_decision. Defined.

(** A send in the ring: a range of one staging buffer (with the buffer as it was when its address
    was taken), or the client's iovec array. *)
Inductive Sqe := SqeSend (ix : bool) (block : SmallBuf) (off len : Z) | SqeSendmsg.

Record Wb := mkWb {
  wb_mem : Mem; wb_out : Out; wb_stats : Stats; wb_oob : list (Z * bytes);
  wb_draining : bool; wb_failed : bool; wb_closing : bool; wb_last_s : Z;
  wb_sqe : option Sqe; wb_sock : bytes; wb_released : Releases }.

Definition set_out (s : Wb) (m : Mem) (w : Out) : Wb :=
  mkWb m w (wb_stats s) (wb_oob s) (wb_draining s) (wb_failed s) (wb_closing s) (wb_last_s s)
       (wb_sqe s) (wb_sock s) (wb_released s).
Definition bump (k : Stat) (n : Z) (s : Wb) : Wb :=
  mkWb (wb_mem s) (wb_out s) (alter (fun x => u64 (x + n)) (stat_index k) (wb_stats s))
       (wb_oob s) (wb_draining s) (wb_failed s) (wb_closing s) (wb_last_s s) (wb_sqe s) (wb_sock s)
       (wb_released s).
Definition set_oob (s : Wb) (q : list (Z * bytes)) : Wb :=
  mkWb (wb_mem s) (wb_out s) (wb_stats s) q (wb_draining s) (wb_failed s) (wb_closing s)
       (wb_last_s s) (wb_sqe s) (wb_sock s) (wb_released s).
Definition set_draining (s : Wb) (v : bool) : Wb :=
  mkWb (wb_mem s) (wb_out s) (wb_stats s) (wb_oob s) v (wb_failed s) (wb_closing s) (wb_last_s s)
       (wb_sqe s) (wb_sock s) (wb_released s).
Definition set_failed (s : Wb) (v : bool) : Wb :=
  mkWb (wb_mem s) (wb_out s) (wb_stats s) (wb_oob s) (wb_draining s) v (wb_closing s) (wb_last_s s)
       (wb_sqe s) (wb_sock s) (wb_released s).
Definition set_last_s (s : Wb) (now : Z) : Wb :=
  mkWb (wb_mem s) (wb_out s) (wb_stats s) (wb_oob s) (wb_draining s) (wb_failed s) (wb_closing s) now
       (wb_sqe s) (wb_sock s) (wb_released s).
Definition set_sqe (s : Wb) (e : option Sqe) : Wb :=
  mkWb (wb_mem s) (wb_out s) (wb_stats s) (wb_oob s) (wb_draining s) (wb_failed s) (wb_closing s)
       (wb_last_s s) e (wb_sock s) (wb_released s).
(** The kernel takes [bs]. *)
Definition accept (s : Wb) (bs : bytes) : Wb :=
  mkWb (wb_mem s) (wb_out s) (wb_stats s) (wb_oob s) (wb_draining s) (wb_failed s) (wb_closing s)
       (wb_last_s s) (wb_sqe s) (wb_sock s ++ bs) (wb_released s).

Definition wb_release (s : Wb) (shard ptr : Z) : Wb :=
  let s := bump zc_releases 1 s in
  mkWb (wb_mem s) (wb_out s) (wb_stats s) (wb_oob s) (wb_draining s) (wb_failed s) (wb_closing s)
       (wb_last_s s) (wb_sqe s) (wb_sock s) (wb_released s ++ [(shard, ptr)]).
Definition wb_releases (s : Wb) (rel : Releases) : Wb :=
  foldl (fun s r => wb_release s (fst r) (snd r)) s rel.

(** * Out-of-band frames *)
(** [defer_oob(c, a, b)]: [rob] is the connection's, [blocked] its flag; [false] means the caller
    appends the frame itself. *)
Definition defer_oob (r : Rob) (blocked : bool) (s : Wb) (a b : bytes) : option (Wb * bool) :=
  park ← (if negb (wb_draining s) then
            if rob_quiesced r then Some false
            else if blocked then
              o ← at_ kRobWindow r (flush_id r); Some (bool_decide (op_state o = Done))
            else Some true
          else Some true);
  if negb (park : bool) then Some (s, false)
  else
    let after := dispatch_id r in
    let fresh := match last (wb_oob s) with Some (x, _) => negb (x =? after) | None => true end in
    let q := if fresh then wb_oob s ++ [(after, [])] else wb_oob s in
    match reverse q with
    | (x, bs) :: rest => Some (set_oob s (reverse rest ++ [(x, bs ++ a ++ b)]), true)
    | [] => None
    end.

Definition deferred_output_bytes (s : Wb) : Z :=
  foldl (fun n (f : Z * bytes) => u64 (n + Z.of_nat (length (snd f)))) 0 (wb_oob s).

Fixpoint flush_oob_loop (q : list (Z * bytes)) (retired_through : Z) (quiesced : bool) (m : Mem)
  (w : Out) (flushed : bool) : option (list (Z * bytes) * Mem * Out * bool) :=
  match q with
  | (after, bs) :: q' =>
      if after <=? retired_through then
        '(m, w, _) ← append_oob quiesced m w bs [];
        flush_oob_loop q' retired_through quiesced m w true
      else Some (q, m, w, flushed)
  | [] => Some ([], m, w, flushed)
  end.
Definition flush_deferred_oob (r : Rob) (s : Wb) : option (Wb * bool) :=
  '(q, m, w, flushed) ←
    flush_oob_loop (wb_oob s) (flush_id r) (rob_quiesced r) (wb_mem s) (wb_out s) false;
  Some (set_oob (set_out s m w) q, flushed).

(** * Staging one retired operation *)
(** [CR LF] as the static block the engine names. *)
Definition kCrlf : Z := 1.

(** The retirement hook: the states that have an owner of their own go to [special]. *)
Definition has_special_state (z : Zc) : bool :=
  has_scatter_state z || has_blocking_state z || has_multi_state z || has_notify_state z.

Section Stage.
Context (special : Wb -> Op -> option (Wb * Op)).

Definition retire_hook (s : Wb) (o : Op) : option (Wb * Op) :=
  if has_special_state (op_zc o) then special s o else Some (s, o).

Definition op_set_reply (o : Op) (p : OpReply) : Op :=
  mkOp (op_argv o) (op_shard o) (op_cut o) (op_hash o) (rbuf_off o) p (op_zc o) (op_state o).
Definition materialise (Coded : bool) (o : Op) : option Op :=
  if Coded && negb (bool_decide (reply_code (op_reply o) = RNone))
  then p ← op_materialise_code (op_reply o); Some (op_set_reply o p) else Some o.
(** The bytes [op.direct, op.direct + op.direct_len). *)
Definition direct_bytes (fill : SmallBuf) (p : OpReply) : option bytes :=
  match direct p with Some d => mem_read (sb_mem fill) d (direct_len p) | None => Some [] end.
Definition count_direct (o : Op) (s : Wb) : Wb :=
  if negb (direct_len (op_reply o) =? 0) then bump st_direct 1 s else s.

(** [append_buf_segment(op.direct, op.direct_len, op.reply.data(), op.reply.size())]. *)
Definition stage_segment (Coded : bool) (s : Wb) (o : Op) : option (Wb * Op) :=
  o ← materialise Coded o;
  d ← direct_bytes (fill_buf (wb_out s)) (op_reply o);
  '(m, w) ← append_buf_segment2 (wb_mem s) (wb_out s) d (sb_bytes (reply (op_reply o)));
  Some (set_out s m w, o).

(** The fill path.  [TrackOutput] selects between the accounted and the bare buffer calls. *)
Definition fill_commit (TrackOutput : bool) (w : Out) (n : Z) : Out :=
  if TrackOutput then commit_fill w n else set_fill_buf w (sb_commit_raw (fill_buf w) n).
Definition fill_append (TrackOutput : bool) (w : Out) (bs : bytes) : option Out :=
  if TrackOutput then append_fill w bs
  else b ← sb_append (fill_buf w) bs; Some (set_fill_buf w b).
Definition stage_coded (TrackOutput : bool) (w : Out) (p : OpReply) : option Out :=
  w ← reserve_fill w kReplyCodeMax;
  '(text, n) ← format_reply_code (reply_code p) (reply_ival p);
  b ← sb_poke (fill_buf w) 0 text;
  Some (fill_commit TrackOutput (set_fill_buf w b) n).
Definition fill_spill (TrackOutput : bool) (w : Out) (p : OpReply) : option Out :=
  if negb (sb_empty (reply p)) then fill_append TrackOutput w (sb_bytes (reply p)) else Some w.
Definition stage_fill (TrackOutput Coded : bool) (s : Wb) (o : Op) : option (Wb * Op) :=
  let p := op_reply o in
  if Coded && negb (bool_decide (reply_code p = RNone)) then
    w ← stage_coded TrackOutput (wb_out s) p;
    w ← fill_spill TrackOutput w p;
    Some (set_out s (wb_mem s) w, o)
  else
    let w := if negb (direct_len p =? 0) then fill_commit TrackOutput (wb_out s) (direct_len p)
             else wb_out s in
    w ← fill_spill TrackOutput w p;
    Some (count_direct o (set_out s (wb_mem s) w), o).

(** A borrowed value: [header][value][CRLF] behind a sealed fill buffer. *)
Definition stage_borrow (Coded : bool) (s : Wb) (o : Op) : option (Wb * Op) :=
  '(m, w) ← seal_fill_segment (wb_mem s) (wb_out s);
  '(s, o) ← stage_segment Coded (set_out s m w) o;
  let z := op_zc o in
  w ← append_borrow_segment (wb_out s) (zc_ptr z) (zc_len z) (zc_shard z);
  w ← append_static_segment w kCrlf 2;
  Some (set_out s (wb_mem s) w, o).

(** The lambda [serve_impl] drains the ROB with. *)
Definition serve_sink (TrackOutput Coded : bool) (s : Wb) (o : Op) : option (Wb * Op) :=
  '(s, o) ← (if negb (zc_ptr (op_zc o) =? 0) then retire_hook s o else Some (s, o));
  if negb (zc_ptr (op_zc o) =? 0) then
    '(s, o) ← stage_borrow Coded s o; Some (count_direct o s, o)
  else if has_pending_segments (wb_out s) then
    '(s, o) ← stage_segment Coded s o; Some (count_direct o s, o)
  else stage_fill TrackOutput Coded s o.

(** The lambda of [serve_suppressing_impl]; [skip] is [op.reply_skip()]. *)
Definition suppress_sink (skip : Op -> bool) (s : Wb) (o : Op) : option (Wb * Op) :=
  let segments_before := output_list_length (wb_out s) in
  let fill_was_staged := has_pending_fill (wb_out s) in
  '(s, o) ← (if negb (zc_ptr (op_zc o) =? 0) then retire_hook s o else Some (s, o));
  let z := op_zc o in
  if skip o then
    let s := if negb (zc_ptr z =? 0) && (0 <=? zc_shard z) then wb_release s (zc_shard z) (zc_ptr z)
             else s in
    let keep := u32 (segments_before +
                     (if fill_was_staged && negb (has_pending_fill (wb_out s)) then 1 else 0)) in
    '(m, w, rel) ← truncate_segments (wb_mem s) (wb_out s) keep;
    Some (wb_releases (set_out s m w) rel, o)
  else if negb (zc_ptr z =? 0) then stage_borrow true s o
  else if has_pending_segments (wb_out s) then stage_segment true s o
  else
    let p := op_reply o in
    w ← (if negb (bool_decide (reply_code p = RNone)) then stage_coded true (wb_out s) p
         else Some (if negb (direct_len p =? 0) then commit_fill (wb_out s) (direct_len p)
                    else wb_out s));
    w ← fill_spill true w p;
    Some (set_out s (wb_mem s) w, o).
End Stage.

(** * Sending *)
Inductive Errno := EAGAIN | EINTR | ECONNRESET | EPIPE | ECONNABORTED | EOther (n : Z).
#[global] Instance Errno_eq_dec : EqDecision Errno.
Proof. solve_decision. Defined.
(** The result of one send: bytes accepted, or an error. *)
Inductive SendRes := SrOk (n : Z) | SrErr (e : Errno).

Definition peer_abort (e : Errno) : bool :=
  bool_decide (e = ECONNRESET) || bool_decide (e = EPIPE) || bool_decide (e = ECONNABORTED).
Definition would_block (e : Errno) : bool := bool_decide (e = EAGAIN) || bool_decide (e = EINTR).

(** ** epoll: the write happens here *)
(** [note_send_stop(c, n)] for a result that is not a positive count. *)
Definition note_send_stop (s : Wb) (r : SendRes) : Wb :=
  match r with
  | SrOk _ => s
  | SrErr e =>
      if would_block e then s
      else set_failed (bump (if peer_abort e || wb_closing s then peer_aborts else send_errors) 1 s) true
  end.

Definition take_send_failure (s : Wb) : Wb * bool := (set_failed s false, wb_failed s).

(** [Some (s, true)]: keep going; [Some (s, false)]: stop. *)
Definition write_legacy_epoll (now : Z) (s : Wb) (total sent : Z) (send : Z -> SendRes)
  : option (Wb * bool) :=
  let request := Z.min (total - sent) kMaxSendBytes in
  let r := send request in
  let s := bump sends_submitted 1
             (set_out s (wb_mem s) (set_request (wb_out s) false (u32 request))) in
  data ← mem_read (sb_mem (send_buf (wb_out s))) sent request;
  match r with
  | SrOk n =>
      if n <=? 0 then Some (note_send_stop s r, false)
      else
        let s := accept s (take (Z.to_nat n) data) in
        w ← commit_write (wb_out s) (u32 n);
        let s := bump bytes_sent (u64 n) (set_out s (wb_mem s) w) in
        let s := if n <? request then bump short_writes 1 s
                 else if write_drained w then bump sends_completed 1 s else s in
        Some (set_last_s s now, true)
  | SrErr _ => Some (note_send_stop s r, false)
  end.

(** The segment half of one round of [pump_epoll]. *)
Definition write_segments_epoll (now : Z) (s : Wb) (send : Z -> SendRes) : option (Wb * bool) :=
  '(w, has_borrow, total) ← build_segment_iov (wb_out s);
  match w_iov w with
  | [] => Some (set_out s (wb_mem s) w, false)
  | v =>
      let s := bump sends_submitted 1 (set_out s (wb_mem s) (set_request w true total)) in
      let s := if has_borrow : bool then bump zc_sends 1 s else s in
      data ← iov_read (wb_mem s) v;
      let r := send total in
      match r with
      | SrOk n =>
          if n <=? 0 then Some (note_send_stop s r, false)
          else
            let s := accept s (take (Z.to_nat n) data) in
            '(m, w, borrowed, rel) ← consume_segments (wb_mem s) (wb_out s) (u32 n);
            let s := bump zc_bytes borrowed (wb_releases (set_out s m w) rel) in
            let s := bump bytes_sent (u64 n) s in
            let s := bump (if u32 n <? total then short_writes else sends_completed) 1 s in
            Some (set_last_s s now, true)
      | SrErr _ => Some (note_send_stop s r, false)
      end
  end.

(** [pump_epoll(c)]: [kernel i] answers the [i]-th system call for a number of bytes; the
    boolean is [did]. *)
Fixpoint pump_epoll_loop (fuel : nat) (now : Z) (kernel : nat -> Z -> SendRes) (i : nat) (s : Wb)
  (did : bool) : option (Wb * bool) :=
  match fuel with
  | O => None
  | S fuel =>
      let w := wb_out s in
      let legacy_total := sb_len (send_buf w) in
      let legacy_sent := w_sent w in
      if legacy_sent <? legacy_total then
        '(s, go) ← write_legacy_epoll now s legacy_total legacy_sent (kernel i);
        if go : bool then pump_epoll_loop fuel now kernel (S i) s true else Some (s, did)
      else if has_pending_segments w then
        '(s, go) ← write_segments_epoll now s (kernel i);
        if go : bool then pump_epoll_loop fuel now kernel (S i) s true else Some (s, did)
      else if write_drained w && has_pending_fill w then
        pump_epoll_loop fuel now kernel i (set_out s (wb_mem s) (swap_buffers w)) did
      else Some (s, did)
  end.

(** ** io_uring: the write is submitted, and completes later *)
Definition submit_legacy (sqe_ok : bool) (s : Wb) (total sent : Z) : Wb * bool :=
  let request := Z.min (total - sent) kMaxSendBytes in
  if negb sqe_ok then (s, false)
  else
    let w := wb_out s in
    let s := set_sqe s (Some (SqeSend (negb (w_fill w)) (send_buf w) sent request)) in
    let w := set_send_inflight (set_request w false (u32 request)) true in
    (bump sends_submitted 1 (set_out s (wb_mem s) w), true).

(** The segment arm of [pump]. *)
Definition submit_segments (sqe_ok : bool) (s : Wb) : option (Wb * bool) :=
  '(w, has_borrow, total) ← build_segment_iov (wb_out s);
  let s := set_out s (wb_mem s) w in
  match w_iov w with
  | [] => Some (s, false)
  | _ =>
      if negb sqe_ok then Some (s, false)
      else
        let s := set_sqe s (Some SqeSendmsg) in
        let s := set_out s (wb_mem s) (set_send_inflight (set_request w true total) true) in
        let s := bump sends_submitted 1 s in
        Some (if has_borrow : bool then bump zc_sends 1 s else s, true)
  end.
(** The arm that may promote the fill buffer. *)
Definition submit_fill (sqe_ok : bool) (s : Wb) : Wb * bool :=
  let w := wb_out s in
  let w := if write_drained w && has_pending_fill w then swap_buffers w else w in
  let s := set_out s (wb_mem s) w in
  if w_sent w <? sb_len (send_buf w) then submit_legacy sqe_ok s (sb_len (send_buf w)) (w_sent w)
  else (s, false).

(** [pump(c)]; [sqe_ok] says whether the ring has a free entry. *)
Definition pump (sqe_ok : bool) (s : Wb) : option (Wb * bool) :=
  let w := wb_out s in
  if w_inflight w then Some (s, false)
  else if w_sent w <? sb_len (send_buf w) then
    Some (submit_legacy sqe_ok s (sb_len (send_buf w)) (w_sent w))
  else if has_pending_segments w then submit_segments sqe_ok s
  else Some (submit_fill sqe_ok s).

(** The kernel's half of a completion: the bytes behind the submitted location.  A staging buffer
    that was touched since its address was taken cannot be read. *)
Definition sqe_data (s : Wb) : option bytes :=
  match wb_sqe s with
  | Some (SqeSend ix block off len) =>
      if decide (out_buf (wb_out s) ix = block) then mem_read (sb_mem block) off len else None
  | Some SqeSendmsg => iov_read (wb_mem s) (w_iov (wb_out s))
  | None => None
  end.
Definition kernel_complete (s : Wb) (n : Z) : option Wb :=
  data ← sqe_data s; Some (set_sqe (accept s (take (Z.to_nat n) data)) None).

(** Accounting of [res] accepted bytes, shared by the live and the dead completion. *)
Definition consume_completed (s : Wb) (n : Z) : option Wb :=
  s ← (if w_segmented (wb_out s) then
         '(m, w, borrowed, rel) ← consume_segments (wb_mem s) (wb_out s) (u32 n);
         Some (bump zc_bytes borrowed (wb_releases (set_out s m w) rel))
       else
         w ← commit_write (wb_out s) (u32 n); Some (set_out s (wb_mem s) w));
  Some (bump net_output_bytes (u64 n) (bump bytes_sent (u64 n) s)).

(** [on_send_complete(c, res)] behind the kernel's part; the boolean is [false] for a connection
    to be torn down. *)
Definition on_send_complete (now : Z) (sqe_ok : bool) (s : Wb) (r : SendRes) : option (Wb * bool) :=
  let s := set_out s (wb_mem s) (set_send_inflight (wb_out s) false) in
  match r with
  | SrErr e =>
      if would_block e then '(s, _) ← pump sqe_ok s; Some (s, true)
      else if peer_abort e || wb_closing s then Some (bump peer_aborts 1 s, false)
      else Some (bump send_errors 1 s, false)
  | SrOk n =>
      s ← consume_completed s n;
      let w := wb_out s in
      let s := set_last_s s now in
      let s := if u32 n <? w_requested w then bump short_writes 1 s else s in
      let drained := if w_segmented w then negb (has_pending_segments w) else write_drained w in
      if drained then
        let s := bump sends_completed 1 s in
        if has_pending_fill w || has_pending_segments w
        then '(s, _) ← pump sqe_ok s; Some (s, true) else Some (s, true)
      else '(s, _) ← pump sqe_ok s; Some (s, true)
  end.

(** One completion: the kernel's half, then the handler. *)
Definition complete (now : Z) (sqe_ok : bool) (s : Wb) (r : SendRes) : option (Wb * bool) :=
  match r with
  | SrOk n => s ← kernel_complete s n; on_send_complete now sqe_ok s r
  | SrErr _ => on_send_complete now sqe_ok (set_sqe s None) r
  end.

(** ** Teardown *)
Definition teardown (s : Wb) : option Wb :=
  let s := set_oob s [] in
  if w_inflight (wb_out s) then Some s
  else
    '(m, w, rel) ← release_all_segments (wb_mem s) (wb_out s);
    Some (wb_releases (set_out s m w) rel).
Definition on_dead_send_complete (s : Wb) (r : SendRes) : option Wb :=
  let s := set_out s (wb_mem s) (set_send_inflight (wb_out s) false) in
  s ← (match r with SrOk n => if 0 <? n then consume_completed s n else Some s | SrErr _ => Some s end);
  teardown s.
Definition migration_ready (s : Wb) : bool :=
  negb (wb_draining s) && match wb_oob s with [] => true | _ => false end.

(** * Serving *)
Section Serve.
Context (special : Wb -> Op -> option (Wb * Op)) (limit : Wb -> bool).

(** [serve_impl<TrackOutput, false, false, Submit, _, Coded>] on io_uring: drain, flush parked
    frames, enforce the output limit, submit.  [limit_fn_] reads the state; the connection it
    closes is the caller's concern. *)
Definition serve_impl (TrackOutput Coded Submit sqe_ok : bool) (r : Rob) (s : Wb)
  : option (Rob * Wb * bool) :=
  let s := bump serves 1 s in
  w ← (if TrackOutput then start_obuf_tracking (wb_out s) else Some (stop_obuf_tracking (wb_out s)));
  let s := set_draining (set_out s (wb_mem s) w) true in
  '(r, n, s) ← drain kRobWindow (serve_sink special TrackOutput Coded) r s;
  let s := set_draining s false in
  '(s, flushed) ← flush_deferred_oob r s;
  let did := negb (n =? 0) || flushed in
  let count (s : Wb) := (if n =? 0 then bump serves_empty 1 else id) (bump st_retired n s) in
  if TrackOutput && limit s then Some (r, count s, true)
  else
    '(s, sent) ← (if Submit && negb (nothing_to_write (wb_out s)) then pump sqe_ok s
                  else Some (s, false));
    Some (r, count s, did || sent).
End Serve.
