(* ===== verification/Send.v ===== *)
(** The send engine is exact: invariant of the write-back state, specifications of staging, of the
    io_uring and the epoll send paths, and the run of a whole connection. *)
From stdpp Require Import gmap.
From S2P Require Import Prelude Slice Op RespReply Rob SegQueue OutBuf WriteBack.

(** * Staging one reply *)
Section StageLemmas.
Implicit Types (s : Wb) (w : Out) (m : Mem).

(** The fill buffer replaced, and the difference in length accounted. *)
Definition upd_fill w (b : SmallBuf) : Out :=
  obuf_add (set_fill_buf w b) (sb_len b - sb_len (fill_buf w)).

Lemma upd_fill_fill w b : fill_buf (upd_fill w b) = b.
Proof.
  unfold upd_fill. destruct (obuf_add_out (set_fill_buf w b) (sb_len b - sb_len (fill_buf w))) as [x ->].
  apply fill_set_fill.
Qed.
Lemma upd_fill_tracking w b : w_tracking (upd_fill w b) = w_tracking w.
Proof.
  unfold upd_fill. by destruct (obuf_add_out (set_fill_buf w b) (sb_len b - sb_len (fill_buf w))) as [x ->].
Qed.
Lemma upd_fill_twice w b1 b2 : upd_fill (upd_fill w b1) b2 = upd_fill w b2.
Proof.
  unfold upd_fill at 1. rewrite upd_fill_fill. unfold upd_fill, obuf_add.
  destruct (w_tracking w) eqn:E; repeat (cbn [w_tracking w_obuf set_obuf set_fill_buf set_buf]; rewrite ?E).
  - rewrite u64_add_u64.
    replace (w_obuf w + (sb_len b1 - sb_len (fill_buf w)) + (sb_len b2 - sb_len b1))
      with (w_obuf w + (sb_len b2 - sb_len (fill_buf w))) by lia.
    unfold set_fill_buf, set_buf, set_obuf; cbn. by destruct (w_fill w).
  - unfold set_fill_buf, set_buf; cbn. by destruct (w_fill w).
Qed.

(** The accounted and the bare calls agree with the state of the tracking flag. *)
Lemma fill_commit_upd w n : fill_commit (w_tracking w) w n = upd_fill w (sb_commit_raw (fill_buf w) n).
Proof.
  unfold fill_commit, commit_fill, upd_fill, obuf_add. cbn [w_tracking set_fill_buf set_buf].
  cbn [sb_commit_raw sb_advance sb_len].
  destruct (w_tracking w) eqn:E; rewrite ?E; [|done].
  by replace (sb_len (fill_buf w) + n - sb_len (fill_buf w)) with n by lia.
Qed.
Lemma sb_reserve_len b n b' : sb_reserve b n = Some b' -> sb_len b' = sb_len b.
Proof.
  unfold sb_reserve, sb_grow. destruct (sb_cap b <? sb_len b + n); [|by intros [= ->]].
  destruct (grow_cap _ _ _) as [c|]; [rewrite some_bind|done].
  destruct (mem_read _ _ _) as [x|]; [rewrite some_bind|done].
  destruct (mem_write _ _ _) as [y|]; [rewrite some_bind|done]. by intros [= <-].
Qed.
Lemma sb_poke_len b k bs b' : sb_poke b k bs = Some b' -> sb_len b' = sb_len b.
Proof. unfold sb_poke. destruct (mem_write _ _ _) as [x|]; [rewrite some_bind|done]. by intros [= <-]. Qed.
Lemma sb_append_len b bs b' : sb_append b bs = Some b' -> sb_len b' = sb_len b + Z.of_nat (length bs).
Proof.
  unfold sb_append. destruct (sb_reserve _ _) as [b1|] eqn:E1; [rewrite some_bind|done].
  destruct (sb_poke _ _ _) as [b2|] eqn:E2; [rewrite some_bind|done]. intros [= <-].
  cbn [sb_advance sb_len]. by rewrite (sb_poke_len _ _ _ _ E2), (sb_reserve_len _ _ _ E1).
Qed.
Lemma fill_append_upd w bs :
  fill_append (w_tracking w) w bs = (b ← sb_append (fill_buf w) bs; Some (upd_fill w b)).
Proof.
  unfold fill_append, append_fill. destruct (w_tracking w) eqn:E;
    (destruct (sb_append (fill_buf w) bs) as [b|] eqn:Eb; [rewrite !some_bind|done]);
    unfold upd_fill, obuf_add; cbn [w_tracking set_fill_buf set_buf]; rewrite E; [|done].
  rewrite (sb_append_len _ _ _ Eb). do 4 f_equal. lia.
Qed.

Lemma upd_fill_id m w :
  out_inv m w -> Z.of_nat (length (out_pending m w)) < 2 ^ 64 -> upd_fill w (fill_buf w) = w.
Proof.
  intros (_ & _ & _ & _ & _ & Htr) Hlt. change (2 ^ 64) with 18446744073709551616 in Hlt.
  unfold upd_fill. rewrite Z.sub_diag.
  assert (set_fill_buf w (fill_buf w) = w) as ->.
  { unfold set_fill_buf, set_buf, fill_buf, out_buf. destruct w as [b0 b1 f]; cbn. by destruct f. }
  unfold obuf_add. destruct (w_tracking w) eqn:E; [|done]. rewrite Z.add_0_r, u64_small.
  - by destruct w.
  - rewrite Htr by done. lia.
Qed.

Lemma fill_spill_upd w b1 p :
  fill_spill (w_tracking w) (upd_fill w b1) p =
    (b ← (if negb (sb_empty (reply p)) then sb_append b1 (sb_bytes (reply p)) else Some b1);
     Some (upd_fill w b)).
Proof.
  unfold fill_spill. destruct (negb (sb_empty (reply p))); [|done].
  rewrite <- (upd_fill_tracking w b1), fill_append_upd, upd_fill_fill.
  destruct (sb_append b1 _) as [b|]; [rewrite !some_bind|done]. by rewrite upd_fill_twice.
Qed.
Lemma stage_coded_upd w p :
  stage_coded (w_tracking w) w p = (b ← stage_coded_reply (fill_buf w) p; Some (upd_fill w b)).
Proof.
  unfold stage_coded, stage_coded_reply, render_code, reserve_fill.
  destruct (sb_reserve _ _) as [b1|] eqn:E1; [rewrite !some_bind|done].
  destruct (format_reply_code _ _) as [[text n]|]; [rewrite !some_bind; cbv beta iota|done].
  rewrite fill_set_fill. destruct (sb_poke b1 0 text) as [b2|] eqn:E2; [rewrite !some_bind|done].
  f_equal. set (w1 := set_fill_buf (set_fill_buf w b1) b2).
  change (w_tracking w) with (w_tracking w1). rewrite fill_commit_upd.
  assert (fill_buf w1 = b2) as -> by apply fill_set_fill.
  unfold upd_fill, obuf_add. change (w_tracking (set_fill_buf w1 ?b)) with (w_tracking w).
  change (w_tracking (set_fill_buf w ?b)) with (w_tracking w). change (w_obuf (set_fill_buf w1 ?b)) with (w_obuf w).
  change (w_obuf (set_fill_buf w ?b)) with (w_obuf w).
  assert (fill_buf w1 = b2) as -> by apply fill_set_fill.
  rewrite (sb_poke_len _ _ _ _ E2), (sb_reserve_len _ _ _ E1).
  unfold w1, set_fill_buf, set_buf, set_obuf; cbn. destruct (w_fill w), (w_tracking w); reflexivity.
Qed.

(** The fill path of a retirement is [retire_fill] on the fill buffer. *)
Definition plain_out (TrackOutput : bool) w (p : OpReply) : option Out :=
  w ← (if negb (bool_decide (reply_code p = RNone)) then stage_coded TrackOutput w p
       else Some (if negb (direct_len p =? 0) then fill_commit TrackOutput w (direct_len p) else w));
  fill_spill TrackOutput w p.
Lemma plain_out_retire m w p :
  out_inv m w -> Z.of_nat (length (out_pending m w)) < 2 ^ 64 ->
  plain_out (w_tracking w) w p = (b ← retire_fill (fill_buf w) p; Some (upd_fill w b)).
Proof.
  intros Hi Hlt. unfold plain_out, retire_fill. destruct (negb (bool_decide (reply_code p = RNone))).
  - rewrite stage_coded_upd. destruct (stage_coded_reply _ _) as [b|]; [rewrite !some_bind|done].
    apply fill_spill_upd.
  - rewrite some_bind. destruct (negb (direct_len p =? 0)).
    + rewrite fill_commit_upd. apply fill_spill_upd.
    + rewrite <- (upd_fill_id m w Hi Hlt) at 2. apply fill_spill_upd.
Qed.

(** The text a reply stands for: its code, or its direct and spilled bytes. *)
Definition reply_text (fill : SmallBuf) (p : OpReply) : bytes :=
  let k := mkSink fill p false in sink_code_text k ++ sink_out k.
Definition reply_ok_in (fill : SmallBuf) (p : OpReply) : Prop :=
  sink_inv (mkSink fill p false) /\ (reply_code p = RNone \/ sb_empty (reply p) = true).

Lemma plain_out_spec m w p :
  out_inv m w -> sq_size (w_segs w) = 0 -> reply_ok_in (fill_buf w) p ->
  out_room m w (Z.of_nat (length (reply_text (fill_buf w) p)) + kReplyCodeMax) ->
  exists w', plain_out (w_tracking w) w p = Some w' /\
    staged m w m w' (reply_text (fill_buf w) p) [] /\ w_segs w' = w_segs w.
Proof.
  intros Hi Hq [Hs _] (Hn & Hroom & _). change (2 ^ 40) with 1099511627776 in Hroom.
  unfold kReplyCodeMax in *. destruct (out_bufs_ok m w Hi) as [Hf _].
  rewrite (plain_out_retire m) by (done || (change (2 ^ 64) with 18446744073709551616; lia)).
  destruct (retire_fill_spec (mkSink (fill_buf w) p false) Hs) as (b & E & Hb & Eb).
  { pose proof (pending_length m w Hi) as Hpl. pose proof Hi as (_ & _ & _ & Hws & _).
    pose proof (sb_bytes_length _ Hf). pose proof Hs as [(Hr & _) _].
    unfold reply_text in Hroom. rewrite length_app in Hroom. pose proof (sink_out_length _ (proj1 Hs)) as Hol.
    pose proof Hs as [(_ & _ & Hdl & _) _]. cbn [sk_fill sk_op] in *.
    unfold sink_room, sink_fits, sb_fits. cbn [sk_fill sk_op].
    split; [split; [lia|]; change (2 ^ 60) with 1152921504606846976; lia|].
    unfold kReplyCodeMax. rewrite Nat2Z.inj_add. cbn [sk_fill]. change (2 ^ 60) with 1152921504606846976. lia. }
  cbn [sk_fill sk_op] in E. rewrite E, some_bind. eexists. split; [done|].
  unfold sink_wire in Eb. cbn [sk_fill] in Eb. fold (reply_text (fill_buf w) p) in Eb.
  assert (Hlen : sb_len b - sb_len (fill_buf w) = Z.of_nat (length (reply_text (fill_buf w) p))).
  { rewrite <- (sb_bytes_length b), Eb, length_app, <- (sb_bytes_length (fill_buf w)) by done. lia. }
  unfold upd_fill. rewrite Hlen. split; [apply set_fill_staged; [done|by left|done|done|]|].
  - change (2 ^ 40) with 1099511627776. lia.
  - destruct (obuf_add_out (set_fill_buf w b) (Z.of_nat (length (reply_text (fill_buf w) p)))) as [x ->]. done.
Qed.

(** The two pieces the segment path copies; the direct piece is read from the fill block, whatever
    its length says by then. *)
Lemma segment_parts Coded fill fill' o :
  reply_ok_in fill (op_reply o) -> Coded = true \/ reply_code (op_reply o) = RNone ->
  sb_mem fill' = sb_mem fill ->
  exists o' d, materialise Coded o = Some o' /\ direct_bytes fill' (op_reply o') = Some d /\
    d ++ sb_bytes (reply (op_reply o')) = reply_text fill (op_reply o) /\ op_zc o' = op_zc o /\
    direct_len (op_reply o') = direct_len (op_reply o).
Proof.
  intros [Hs Hor] Hc Em. pose proof (retire_segment_spec _ Hs Hor) as Er. cbn [sk_fill sk_op] in Er.
  fold (reply_text fill (op_reply o)) in Er. unfold retire_segment in Er. unfold materialise.
  replace (Coded && negb (bool_decide (reply_code (op_reply o) = RNone)))
    with (negb (bool_decide (reply_code (op_reply o) = RNone))).
  2:{ destruct Hc as [->| ->]; [done|]. rewrite bool_decide_eq_true_2 by done. by destruct Coded. }
  assert (Hdl : forall p, op_materialise_code (op_reply o) = Some p -> direct_len p = direct_len (op_reply o)).
  { unfold op_materialise_code. intros p. case_bool_decide; [by intros [= ->]|].
    destruct (render_code _ _ _); [rewrite some_bind|done]. by intros [= <-]. }
  destruct (negb _).
  - destruct (op_materialise_code (op_reply o)) as [p|] eqn:Ep; [rewrite some_bind; rewrite some_bind in Er|done].
    exists (op_set_reply o p). unfold direct_bytes. rewrite Em. cbn [op_reply op_set_reply].
    destruct (match direct p with Some d => _ | None => _ end) as [d|]; [rewrite some_bind in Er|done].
    exists d. split_and!; try done; [by injection Er|by apply Hdl].
  - rewrite some_bind in Er. exists o. unfold direct_bytes. rewrite Em.
    destruct (match direct (op_reply o) with Some d => _ | None => _ end) as [d|]; [rewrite some_bind in Er|done].
    exists d. split_and!; try done. by injection Er.
Qed.

(** What staging promises of the engine state. *)
Definition same_env s s' : Prop :=
  wb_oob s' = wb_oob s /\ wb_draining s' = wb_draining s /\ wb_failed s' = wb_failed s /\
  wb_closing s' = wb_closing s /\ wb_sqe s' = wb_sqe s /\ wb_sock s' = wb_sock s /\
  wb_released s' = wb_released s.
Definition wb_staged s s' (bs : bytes) (lent : Releases) : Prop :=
  staged (wb_mem s) (wb_out s) (wb_mem s') (wb_out s') bs lent /\ same_env s s'.
Lemma wb_staged_trans s1 s2 s3 b1 b2 l1 l2 :
  wb_staged s1 s2 b1 l1 -> wb_staged s2 s3 b2 l2 -> wb_staged s1 s3 (b1 ++ b2) (l1 ++ l2).
Proof.
  intros [Hst1 (? & ? & ? & ? & ? & ? & ?)] [Hst2 (? & ? & ? & ? & ? & ? & ?)].
  split; [by eapply staged_trans|]. split_and!; congruence.
Qed.
Lemma wb_staged_out s m w bs lent :
  staged (wb_mem s) (wb_out s) m w bs lent -> wb_staged s (set_out s m w) bs lent.
Proof. intros H. split; [done|by split_and!]. Qed.
Lemma wb_staged_count s s' o bs lent : wb_staged s s' bs lent -> wb_staged s (count_direct o s') bs lent.
Proof. intros H. unfold count_direct. by destruct (negb _). Qed.

Abbreviation nsegs s := (sq_size (w_segs (wb_out s))).

Lemma stage_segment_spec Coded s o fill :
  out_inv (wb_mem s) (wb_out s) -> sb_len (fill_buf (wb_out s)) = 0 ->
  reply_ok_in fill (op_reply o) -> Coded = true \/ reply_code (op_reply o) = RNone ->
  sb_mem (fill_buf (wb_out s)) = sb_mem fill ->
  out_room (wb_mem s) (wb_out s) (Z.of_nat (length (reply_text fill (op_reply o)))) ->
  exists s' o', stage_segment Coded s o = Some (s', o') /\
    wb_staged s s' (reply_text fill (op_reply o)) [] /\ op_zc o' = op_zc o /\
    sb_len (fill_buf (wb_out s')) = 0 /\ nsegs s' <= nsegs s + 600.
Proof.
  intros Hi Hf0 Hok Hc Em Hroom. unfold stage_segment.
  destruct (segment_parts Coded fill (fill_buf (wb_out s)) o) as (o' & d & -> & Ed & Et & Ez & _); [done..|].
  rewrite some_bind, Ed, some_bind.
  destruct (append_buf_segment2_spec (wb_mem s) (wb_out s) d (sb_bytes (reply (op_reply o'))))
    as (m & w & -> & Hst & Ef & Hsz); [done|done|by rewrite <- Nat2Z.inj_add, <- length_app, Et|].
  rewrite some_bind. cbv beta iota. eexists _, o'. split; [done|]. rewrite Et in Hst.
  split; [by apply wb_staged_out|]. split; [done|]. cbn [set_out wb_out]. rewrite Ef. done.
Qed.

(** The frame an operation puts on the wire, and what it lends. *)
Definition zc_value m (o : Op) : bytes := default [] (m_read m (zc_ptr (op_zc o)) 0 (zc_len (op_zc o))).
Definition op_frame m (fill : SmallBuf) (o : Op) : bytes :=
  reply_text fill (op_reply o) ++ (if zc_ptr (op_zc o) =? 0 then [] else zc_value m o ++ CRLF).
Definition op_lent (o : Op) : Releases :=
  if zc_ptr (op_zc o) =? 0 then [] else [(zc_shard (op_zc o), zc_ptr (op_zc o))].

(** An operation the engine can stage: a well-formed reply, no state owned by another retirement,
    and a borrowed value that is readable and not the queue's own. *)
Definition zc_ok s (o : Op) : Prop :=
  has_special_state (op_zc o) = false /\
  (zc_ptr (op_zc o) <> 0 ->
   lent_ok (wb_mem s) (wb_out s) (zc_ptr (op_zc o)) (zc_len (op_zc o)) (zc_value (wb_mem s) o)).
Definition stageable (Coded : bool) s (fill : SmallBuf) (o : Op) : Prop :=
  reply_ok_in fill (op_reply o) /\ (Coded = true \/ reply_code (op_reply o) = RNone) /\ zc_ok s o.
(** The constant the engine names is in memory and never the queue's. *)
Definition crlf_ok s : Prop := lent_ok (wb_mem s) (wb_out s) kCrlf 2 CRLF.

Lemma stage_fill_plain TrackOutput Coded s o :
  Coded = true \/ reply_code (op_reply o) = RNone ->
  exists c, forall w, plain_out TrackOutput (wb_out s) (op_reply o) = Some w ->
    stage_fill TrackOutput Coded s o = Some (if c : bool then count_direct o (set_out s (wb_mem s) w)
                                             else set_out s (wb_mem s) w, o).
Proof.
  intros Hc. unfold stage_fill, plain_out.
  replace (Coded && negb (bool_decide (reply_code (op_reply o) = RNone)))
    with (negb (bool_decide (reply_code (op_reply o) = RNone))).
  2:{ destruct Hc as [->| ->]; [done|]. rewrite bool_decide_eq_true_2 by done. by destruct Coded. }
  destruct (negb (bool_decide _)).
  - exists false. intros w. destruct (stage_coded _ _ _) as [w1|]; [rewrite !some_bind|done]. intros ->. done.
  - exists true. intros w. rewrite some_bind. intros ->. done.
Qed.

Lemma stage_borrow_spec Coded s o :
  out_inv (wb_mem s) (wb_out s) -> crlf_ok s -> stageable Coded s (fill_buf (wb_out s)) o ->
  zc_ptr (op_zc o) <> 0 ->
  out_room (wb_mem s) (wb_out s) (Z.of_nat (length (op_frame (wb_mem s) (fill_buf (wb_out s)) o))) ->
  nsegs s + 2400 <= 2 ^ 28 ->
  exists s' o', stage_borrow Coded s o = Some (s', o') /\
    wb_staged s s' (op_frame (wb_mem s) (fill_buf (wb_out s)) o) (op_lent o) /\ nsegs s' <= nsegs s + 2400.
Proof.
  intros Hi Hcr (Hok & Hc & Hsp & Hz) Hp Hroom Hsz. specialize (Hz Hp). unfold stage_borrow.
  unfold op_frame, op_lent in *. rewrite (proj2 (Z.eqb_neq _ _) Hp) in *.
  rewrite !length_app in Hroom. set (txt := reply_text _ _) in *. set (v := zc_value _ _) in *.
  assert (Hvl : Z.of_nat (length v) = zc_len (op_zc o)) by (destruct Hz as (_ & Hr & _); by apply (m_read_length _ _ _ _ Hr)).
  assert (Hcl : length CRLF = 2%nat) by done. rewrite Hcl in Hroom.
  destruct (seal_fill_segment_spec (wb_mem s) (wb_out s) Hi) as (m1 & w1 & -> & Hst1 & Hf1 & Hs1 & Em1 & _).
  { destruct Hroom as (H1 & H2 & H3). split_and!; lia. }
  rewrite some_bind. cbv beta iota.
  destruct (stage_segment_spec Coded (set_out s m1 w1) o (fill_buf (wb_out s))) as (s2 & o2 & -> & Hst2 & Ez2 & Hf2 & Hs2);
    [apply Hst1|done|done|done|done| |]; cbn [set_out wb_mem wb_out] in *.
  { fold txt. eapply room_after; [done|done|lia|cbn [length]; lia|lia]. }
  rewrite some_bind. cbv beta iota. rewrite Ez2. fold txt in Hst2.
  pose proof (wb_staged_out s m1 w1 _ _ Hst1) as Hw1.
  pose proof (wb_staged_trans _ _ _ _ _ _ _ Hw1 Hst2) as Hw2. cbn [app] in Hw2.
  pose proof (lent_ok_staged _ _ _ _ _ _ _ _ _ (proj1 Hw2) Hz) as Hz2.
  destruct (append_borrow_segment_spec (wb_mem s2) (wb_out s2) (zc_ptr (op_zc o)) (zc_len (op_zc o))
    (zc_shard (op_zc o)) v) as (w3 & -> & Hst3 & Ef3 & Hs3); [apply Hw2|done| |done|].
  { eapply room_after; [apply Hw2|done|lia|lia|lia]. }
  rewrite some_bind. pose proof (wb_staged_out s2 _ w3 _ _ Hst3) as Hw3.
  pose proof (wb_staged_trans _ _ _ _ _ _ _ Hw2 Hw3) as Hw3'.
  pose proof (lent_ok_staged _ _ _ _ _ _ _ _ _ (proj1 Hw3') Hcr) as Hcr3. cbn [set_out wb_mem wb_out] in Hcr3.
  destruct (append_static_segment_spec (wb_mem s2) w3 kCrlf 2 CRLF) as (w4 & -> & Hst4 & Ef4 & Hs4);
    [apply Hst3|by rewrite Ef3| |done|].
  { eapply room_after; [apply Hw3'|done|lia|rewrite length_app; lia|cbn [set_out wb_out]; lia]. }
  rewrite some_bind. eexists _, o2. split; [done|]. cbn [set_out wb_mem wb_out]. split; [|lia].
  pose proof (wb_staged_out (set_out s2 (wb_mem s2) w3) (wb_mem s2) w4 _ _ Hst4) as Hw4.
  pose proof (wb_staged_trans _ _ _ _ _ _ _ Hw3' Hw4) as Hw4'.
  by rewrite <- app_assoc, app_nil_r in Hw4'.
Qed.

Context (special : Wb -> Op -> option (Wb * Op)).

(** Staging any operation the engine can stage appends its frame, whichever of the three channels
    it takes. *)
Lemma serve_sink_spec Coded s o :
  out_inv (wb_mem s) (wb_out s) -> crlf_ok s -> stageable Coded s (fill_buf (wb_out s)) o ->
  out_room (wb_mem s) (wb_out s)
    (Z.of_nat (length (op_frame (wb_mem s) (fill_buf (wb_out s)) o)) + kReplyCodeMax) ->
  nsegs s + 2400 <= 2 ^ 28 ->
  exists s' o', serve_sink special (w_tracking (wb_out s)) Coded s o = Some (s', o') /\
    wb_staged s s' (op_frame (wb_mem s) (fill_buf (wb_out s)) o) (op_lent o) /\ nsegs s' <= nsegs s + 2400.
Proof.
  intros Hi Hcr Hok Hroom Hsz. pose proof Hok as (Hr & Hc & Hsp & Hz). unfold serve_sink, retire_hook. rewrite Hsp.
  assert (Hroom' : out_room (wb_mem s) (wb_out s)
    (Z.of_nat (length (op_frame (wb_mem s) (fill_buf (wb_out s)) o)))).
  { destruct Hroom as (H1 & H2 & H3). unfold kReplyCodeMax in H2. split_and!; lia. }
  destruct (Z.eqb_spec (zc_ptr (op_zc o)) 0) as [E|E]; cbn [negb]; rewrite some_bind; cbv beta iota;
    rewrite ?E; cbn [negb Z.eqb].
  - assert (Ef : op_frame (wb_mem s) (fill_buf (wb_out s)) o = reply_text (fill_buf (wb_out s)) (op_reply o)).
    { unfold op_frame. rewrite E. cbn. by rewrite app_nil_r. }
    assert (El : op_lent o = []) by (unfold op_lent; by rewrite E). rewrite Ef, El in *.
    unfold has_pending_segments, sq_empty.
    destruct (Z.eqb_spec (nsegs s) 0) as [E0|E0]; cbn [negb].
    + destruct (plain_out_spec (wb_mem s) (wb_out s) (op_reply o)) as (w & Ew & Hst & Es); [done..|].
      destruct (stage_fill_plain (w_tracking (wb_out s)) Coded s o Hc) as [c Hc'].
      rewrite (Hc' w Ew). eexists _, o. split; [done|].
      pose proof (wb_staged_out s _ w _ _ Hst) as Hst'.
      destruct c; [|split; [done|cbn [set_out wb_out]; rewrite Es; lia]].
      split; [by apply wb_staged_count|]. unfold count_direct. destruct (negb _); cbn [set_out wb_out bump]; rewrite Es; lia.
    + assert (Hf0 : sb_len (fill_buf (wb_out s)) = 0) by (destruct Hi as (_ & _ & _ & _ & Ho & _); by apply Ho).
      destruct (stage_segment_spec Coded s o (fill_buf (wb_out s))) as (s1 & o1 & -> & Hst & _ & _ & Hs); [done..|].
      rewrite some_bind. cbv beta iota. eexists _, o1. split; [done|]. split; [by apply wb_staged_count|].
      unfold count_direct. destruct (negb _); cbn [bump wb_out]; lia.
  - rewrite (proj2 (Z.eqb_neq _ _) E). cbn [negb].
    destruct (stage_borrow_spec Coded s o) as (s1 & o1 & -> & Hst & Hs); [done..|].
    rewrite some_bind. cbv beta iota. eexists _, o1. split; [done|]. split; [by apply wb_staged_count|].
    unfold count_direct. destruct (negb _); cbn [bump wb_out]; lia.
Qed.

(** Without a direct region a reply does not depend on the fill buffer. *)
Lemma reply_ok_in_any fill fill' p :
  direct p = None -> sb_ok fill' -> reply_ok_in fill p ->
  reply_ok_in fill' p /\ reply_text fill' p = reply_text fill p.
Proof.
  intros Hd Hf [[(Hr & _ & Hl & Hc & Hm) Hv] Hor]. cbn [sk_op sk_fill] in *. rewrite Hd in Hm. split.
  - split; [|done]. split; [|done]. unfold sink_ok. cbn [sk_op sk_fill]. rewrite Hd. done.
  - unfold reply_text, sink_out. cbn [sk_op sk_fill]. by rewrite Hd.
Qed.

Lemma staged_later Coded s s' fill o bs lent :
  wb_staged s s' bs lent -> direct (op_reply o) = None -> stageable Coded s fill o ->
  stageable Coded s' (fill_buf (wb_out s')) o /\
  op_frame (wb_mem s') (fill_buf (wb_out s')) o = op_frame (wb_mem s) fill o.
Proof.
  intros [Hst _] Hd (Hr & Hc & Hsp & Hz). pose proof Hst as (Hi' & _).
  destruct (out_bufs_ok _ _ Hi') as [Hf' _].
  destruct (reply_ok_in_any fill (fill_buf (wb_out s')) (op_reply o) Hd Hf' Hr) as [Hr' Et].
  assert (Hv : zc_ptr (op_zc o) <> 0 -> zc_value (wb_mem s') o = zc_value (wb_mem s) o /\
    lent_ok (wb_mem s') (wb_out s') (zc_ptr (op_zc o)) (zc_len (op_zc o)) (zc_value (wb_mem s) o)).
  { intros H0. specialize (Hz H0). pose proof (lent_ok_staged _ _ _ _ _ _ _ _ _ Hst Hz) as Hz'.
    split; [|done]. destruct Hz' as (_ & Hz' & _). unfold zc_value at 1. by rewrite Hz'. }
  split.
  - split; [done|]. split; [done|]. split; [done|]. intros H0. destruct (Hv H0) as [-> ?]. done.
  - unfold op_frame. rewrite Et. destruct (Z.eqb_spec (zc_ptr (op_zc o)) 0) as [|H0]; [done|].
    by destruct (Hv H0) as [-> _].
Qed.

(** A whole drain: only the oldest operation may have written into the fill buffer directly. *)
Definition stageable_all (Coded : bool) s (l : list Op) : Prop :=
  Forall (stageable Coded s (fill_buf (wb_out s))) l /\
  Forall (fun o => direct (op_reply o) = None) (tail l).
Definition frames s (l : list Op) : bytes := concat (op_frame (wb_mem s) (fill_buf (wb_out s)) <$> l).
Definition lents (l : list Op) : Releases := concat (op_lent <$> l).
Definition wb_room s (n : Z) (k : nat) : Prop :=
  out_room (wb_mem s) (wb_out s) n /\ nsegs s + 2400 * Z.of_nat k <= 2 ^ 28.

Lemma run_sink_spec Coded l s :
  out_inv (wb_mem s) (wb_out s) -> crlf_ok s -> stageable_all Coded s l ->
  wb_room s (Z.of_nat (length (frames s l)) + kReplyCodeMax) (length l) ->
  exists s' l', run_sink (serve_sink special (w_tracking (wb_out s)) Coded) s l = Some (s', l') /\
    wb_staged s s' (frames s l) (lents l) /\ nsegs s' <= nsegs s + 2400 * Z.of_nat (length l).
Proof.
  revert s. induction l as [|o l IH]; intros s Hi Hcr [Hok Hd] [Hroom Hsz].
  { exists s, []. split; [done|]. split; [split; [by apply staged_refl|by split_and!]|cbn [length]; lia]. }
  apply Forall_cons in Hok as [Ho Hl]. cbn [tail] in Hd.
  change (frames s (o :: l)) with (op_frame (wb_mem s) (fill_buf (wb_out s)) o ++ frames s l) in *.
  change (lents (o :: l)) with (op_lent o ++ lents l). rewrite length_app in Hroom. cbn [length] in *.
  unfold kReplyCodeMax in *.
  destruct (serve_sink_spec Coded s o) as (s1 & o1 & E1 & Hst1 & Hs1); [done|done|done| |lia|].
  { destruct Hroom as (H1 & H2 & H3). unfold kReplyCodeMax. split_and!; lia. }
  assert (Hl1 : stageable_all Coded s1 l /\ frames s1 l = frames s l).
  { split; [split|].
    - rewrite Forall_forall in *. intros x Hx. eapply staged_later; [done|by apply Hd|by apply Hl].
    - destruct l; [done|]. cbn [tail]. by apply Forall_cons in Hd as [_ Hd].
    - unfold frames. f_equal. apply list_fmap_ext. intros i x Hx%list_elem_of_lookup_2.
      rewrite Forall_forall in *. eapply staged_later; [done|by apply Hd|by apply Hl]. }
  destruct Hl1 as [Hl1 Ef1].
  assert (Et : w_tracking (wb_out s) = w_tracking (wb_out s1)) by (destruct Hst1 as [(_ & _ & _ & Hss & _) _]; symmetry; apply Hss).
  destruct (IH s1) as (s2 & l2 & E2 & Hst2 & Hs2); [apply Hst1|by eapply lent_ok_staged; [apply Hst1|]|done| |].
  { rewrite Ef1. split; [|lia]. eapply room_after; [apply Hst1|exact Hroom|lia|lia|lia]. }
  cbn [run_sink]. rewrite E1, some_bind. cbv beta iota. rewrite Et, E2, some_bind. cbv beta iota.
  exists s2, (o1 :: l2). split; [done|]. rewrite Ef1 in Hst2. split; [by eapply wb_staged_trans|lia].
Qed.

(** Frames parked for older replies are flushed whole, in order. *)
Fixpoint due (q : list (Z * bytes)) (through : Z) : list (Z * bytes) :=
  match q with
  | f :: q => if fst f <=? through then f :: due q through else []
  | [] => []
  end.
Definition oob_bytes (q : list (Z * bytes)) : bytes := concat (snd <$> q).

Lemma flush_oob_loop_spec q through quiesced m w fl :
  out_inv m w -> out_room m w (Z.of_nat (length (oob_bytes (due q through)))) ->
  sq_size (w_segs w) + 1200 * Z.of_nat (length (due q through)) <= 2 ^ 28 ->
  exists m' w' fl', flush_oob_loop q through quiesced m w fl
      = Some (drop (length (due q through)) q, m', w', fl') /\
    staged m w m' w' (oob_bytes (due q through)) [] /\
    sq_size (w_segs w') <= sq_size (w_segs w) + 1200 * Z.of_nat (length (due q through)).
Proof.
  change (2 ^ 28) with 268435456. revert m w fl. induction q as [|[after bs] q IH]; intros m w fl Hi Hroom Hsz.
  { exists m, w, fl. split; [done|]. split; [by apply staged_refl|cbn; lia]. }
  cbn [flush_oob_loop due fst] in *. destruct (after <=? through).
  2:{ exists m, w, fl. split; [done|]. split; [by apply staged_refl|cbn; lia]. }
  change (oob_bytes ((after, bs) :: ?q)) with (bs ++ oob_bytes q) in *. rewrite length_app in Hroom.
  cbn [length] in *.
  destruct (append_oob_spec quiesced m w bs [] Hi) as (m1 & w1 & f1 & -> & Hst1 & Hs1).
  { destruct Hroom as (H1 & H2 & H3). cbn [length]. split_and!; lia. }
  { change (2 ^ 28) with 268435456. lia. }
  rewrite some_bind. cbv beta iota. rewrite app_nil_r in Hst1.
  destruct (IH m1 w1 true) as (m2 & w2 & f2 & -> & Hst2 & Hs2); [apply Hst1| |lia|].
  { eapply room_after; [done|done|lia|lia|]. change (2 ^ 28) with 268435456. lia. }
  exists m2, w2, f2. split; [done|]. split; [by apply (staged_trans _ _ _ _ _ _ _ _ [] [] Hst1)|lia].
Qed.
End StageLemmas.

(** * The engine invariant *)
Section Invariant.
Implicit Types (s : Wb).

(** A send in the ring was given exactly the front of the pending bytes. *)
Definition ring_ok s : Prop :=
  let w := wb_out s in
  match wb_sqe s with
  | None => w_inflight w = false
  | Some (SqeSend ix block off len) =>
      w_inflight w = true /\ w_segmented w = false /\ ix = negb (w_fill w) /\ block = send_buf w /\
      off = w_sent w /\ len = w_requested w /\
      0 < len <= Z.min kMaxSendBytes (Z.of_nat (length (send_rest w)))
  | Some SqeSendmsg =>
      w_inflight w = true /\ w_segmented w = true /\ send_rest w = [] /\
      iov_live (w_segs w) (w_iov w) /\
      exists t, iov_read (wb_mem s) (w_iov w) = Some t /\ t `prefix_of` sq_wire (wb_mem s) (w_segs w) /\
        Z.of_nat (length t) = w_requested w /\ w_requested w <= kMaxSendBytes
  end.

(** [T] is everything staged so far and [L] everything lent: what the socket has accepted and what
    is pending make up [T], what was released and what is still named by a segment make up [L]. *)
Definition env_ok s : Prop :=
  crlf_ok s /\ Z.of_nat (length (out_pending (wb_mem s) (wb_out s))) <= 2 ^ 40.
Definition wb_inv s (T : bytes) (L : Releases) : Prop :=
  out_inv (wb_mem s) (wb_out s) /\ env_ok s /\ ring_ok s /\
  wb_sock s ++ out_pending (wb_mem s) (wb_out s) = T /\
  wb_released s ++ out_borrows (wb_out s) = L.

(** Staging does not touch what the kernel may be reading. *)
Lemma sq_wire_prefix m w m' w' :
  out_inv m w -> send_same m w m' w' -> sq_wire m (w_segs w) `prefix_of` sq_wire m' (w_segs w').
Proof.
  intros (_ & _ & (_ & _ & Hok & Hfr) & _) (_ & _ & _ & _ & _ & _ & _ & _ & Ha & Eo & [k Hk]).
  unfold sq_wire. rewrite Hk, Eo, segs_wire_app, (segs_wire_agree m m') by done.
  destruct (sq_live (w_segs w)) as [|x l] eqn:El.
  - cbn in Hfr. rewrite Hfr. cbn [Z.to_nat]. rewrite !drop_0. by apply prefix_app_r.
  - destruct Hok as [Hf _]. apply Forall_cons in Hf as [Hx _]. pose proof (seg_bytes_length m x Hx).
    rewrite drop_app_le; [by apply prefix_app_r|].
    change (segs_wire m (x :: l)) with (seg_bytes m x ++ segs_wire m l). rewrite length_app. cbn in Hfr. lia.
Qed.
Lemma ring_ok_staged s s' bs lent :
  out_inv (wb_mem s) (wb_out s) -> wb_staged s s' bs lent -> ring_ok s -> ring_ok s'.
Proof.
  intros Hi [(Hi' & _ & _ & Hss & _) (_ & _ & _ & _ & Eq & _ & _)] Hr. unfold ring_ok in *. rewrite Eq.
  pose proof (sq_wire_prefix _ _ _ _ Hi Hss) as Hpre.
  destruct Hss as (E1 & E2 & E3 & E4 & E5 & E6 & E7 & E8 & Ha & Eo & Hp).
  unfold send_rest in *. rewrite E1, E2, E3, E4, E5, E6, E7.
  destruct (wb_sqe s) as [[ix block off len|]|]; [done| |done].
  destruct Hr as (H1 & H2 & H3 & H4 & t & H5 & H6 & H7). split_and!; try done.
  - destruct Hp as [k Hk]. unfold iov_live. rewrite Hk. eapply Forall_impl; [exact H4|]. cbn.
    intros x (g & Hg & Ex). exists g. split; [|done]. apply elem_of_app. by left.
  - exists t. rewrite (iov_read_agree (wb_mem s) (wb_mem s') (w_segs (wb_out s))) by done.
    split; [done|]. split; [by etrans|done].
Qed.
Lemma wb_inv_staged s s' T L bs lent n :
  wb_inv s T L -> wb_staged s s' bs lent -> out_room (wb_mem s) (wb_out s) n ->
  Z.of_nat (length bs) <= n -> wb_inv s' (T ++ bs) (L ++ lent).
Proof.
  intros (Hi & [Hc _] & Hr & <- & <-) Hst (_ & Hroom & _) Hn. pose proof Hst as [(Hi' & Hp & Hb & _) (_ & _ & _ & _ & _ & Es & Er)].
  split; [done|].
  split; [split; [by eapply lent_ok_staged; [apply Hst|]|rewrite Hp, length_app; lia]|]. split; [by apply (ring_ok_staged s s' bs lent)|].
  by rewrite Es, Er, Hp, Hb, !app_assoc.
Qed.

(** ** Submitting *)
Lemma submit_legacy_spec sqe_ok s T L :
  wb_inv s T L -> w_inflight (wb_out s) = false -> w_sent (wb_out s) < sb_len (send_buf (wb_out s)) ->
  exists s', submit_legacy sqe_ok s (sb_len (send_buf (wb_out s))) (w_sent (wb_out s)) = (s', sqe_ok) /\
    wb_inv s' T L /\ wb_sock s' = wb_sock s.
Proof.
  intros Hinv Hin Hlt. unfold submit_legacy. destruct sqe_ok; cbn [negb]; [|by exists s].
  eexists. split; [done|]. split; [|done]. destruct Hinv as (Hi & Hc & Hr & HT & HL).
  assert (Hk : 0 < kMaxSendBytes < 4294967296) by done.
  split; [exact Hi|]. split; [exact Hc|]. split; [|done].
  destruct (out_bufs_ok _ _ Hi) as [_ Hs]. pose proof (sb_bytes_length _ Hs) as Hlen. destruct Hi as (_ & _ & _ & Hws & _).
  unfold ring_ok. cbn [bump set_out set_sqe wb_sqe wb_out wb_mem]. rewrite u32_small by lia.
  split_and!; try done; [lia|]. unfold send_rest.
  change (sb_bytes (send_buf (set_send_inflight ?w ?b))) with (sb_bytes (send_buf w)). rewrite length_drop.
  change (w_sent (set_send_inflight (set_request ?w ?a ?b) ?c)) with (w_sent w).
  change (send_buf (set_request ?w ?a ?b)) with (send_buf w). lia.
Qed.

Lemma build_segment_iov_spec m w :
  out_inv m w ->
  exists v hb t, build_segment_iov w = Some (set_iov w v, hb, Z.of_nat (length t)) /\
    iov_read m v = Some t /\ t `prefix_of` sq_wire m (w_segs w) /\ Z.of_nat (length t) <= kMaxSendBytes /\
    (sq_wire m (w_segs w) <> [] -> t <> []) /\ iov_live (w_segs w) v.
Proof.
  intros (_ & _ & Hsq & _). unfold build_segment_iov.
  destruct (build_iov_spec m (w_segs w) kMaxSendIov kMaxSendBytes Hsq) as (v & hb & t & -> & H); [done|done|].
  rewrite some_bind. by exists v, hb, t.
Qed.

(** While no segment is queued the segment bytes are empty; while one is, the fill buffer is. *)
Lemma no_segments_wire m w : sq_size (w_segs w) = 0 -> sq_wire m (w_segs w) = [].
Proof.
  intros H. unfold sq_wire, sq_live. rewrite H. cbn [Z.to_nat]. rewrite take_0.
  change (segs_wire m []) with (@nil Z). apply drop_nil.
Qed.
Lemma drained_rest m w : out_inv m w -> sb_len (send_buf w) <= w_sent w -> send_rest w = [].
Proof.
  intros Hi H. destruct (out_bufs_ok _ _ Hi) as [_ Hs]. pose proof (sb_bytes_length _ Hs).
  unfold send_rest. apply drop_ge. lia.
Qed.
Lemma empty_fill w : sb_len (fill_buf w) <= 0 -> sb_bytes (fill_buf w) = [].
Proof. intros H. unfold sb_bytes. by replace (Z.to_nat (sb_len (fill_buf w))) with 0%nat by lia. Qed.
Lemma segments_fill m w : out_inv m w -> sq_size (w_segs w) <> 0 -> sb_bytes (fill_buf w) = [].
Proof. intros (_ & _ & _ & _ & Ho & _) H. apply empty_fill. by rewrite Ho. Qed.

Lemma submit_segments_spec sqe_ok s T L :
  wb_inv s T L -> wb_sqe s = None -> send_rest (wb_out s) = [] -> sq_size (w_segs (wb_out s)) <> 0 ->
  exists s' b, submit_segments sqe_ok s = Some (s', b) /\ wb_inv s' T L /\ wb_sock s' = wb_sock s /\
    (sqe_ok = true -> out_pending (wb_mem s) (wb_out s) <> [] -> b = true).
Proof.
  intros (Hi & Hc & Hr & HT & HL) Hsqe Hrest Hne0. unfold submit_segments.
  destruct (build_segment_iov_spec (wb_mem s) (wb_out s) Hi) as (v & hb & t & -> & Hv & Hp & Hk & Hne & Hl).
  rewrite some_bind. cbv beta iota zeta. cbn [w_iov set_iov].
  assert (Hinv' : wb_inv (set_out s (wb_mem s) (set_iov (wb_out s) v)) T L).
  { split; [exact Hi|]. split; [exact Hc|]. split; [|done].
    unfold ring_ok in *. cbn [set_out wb_sqe]. by rewrite Hsqe in *. }
  destruct v as [|x v].
  { eexists _, false. split; [done|]. split; [done|]. split; [done|]. intros _ H. injection Hv as <-. destruct H.
    unfold out_pending. rewrite Hrest, (segments_fill _ _ Hi Hne0), app_nil_r. cbn [app].
    destruct (decide (sq_wire (wb_mem s) (w_segs (wb_out s)) = [])) as [|Hx]; [done|]. by destruct (Hne Hx). }
  destruct sqe_ok; cbn [negb]; [|by eexists _, false].
  set (s1 := set_out (set_sqe _ _) _ _). eexists _, true. split; [done|]. split; [|by destruct hb].
  assert (wb_inv s1 T L) as Hfin; [|by destruct hb].
  split; [exact Hi|]. split; [exact Hc|]. split; [|done].
  unfold ring_ok. cbn [s1 set_out set_sqe wb_sqe wb_out wb_mem]. split_and!; try done. by exists t.
Qed.

Lemma submit_fill_spec sqe_ok s T L :
  wb_inv s T L -> w_inflight (wb_out s) = false -> send_rest (wb_out s) = [] ->
  sb_len (send_buf (wb_out s)) <= w_sent (wb_out s) -> sq_size (w_segs (wb_out s)) = 0 ->
  exists s' b, submit_fill sqe_ok s = (s', b) /\ wb_inv s' T L /\ wb_sock s' = wb_sock s /\
    (sqe_ok = true -> out_pending (wb_mem s) (wb_out s) <> [] -> b = true).
Proof.
  intros Hinv Hin Hrest Hge E0. pose proof Hinv as (Hi & Hc & Hr & HT & HL). unfold submit_fill.
  unfold write_drained, has_pending_fill. rewrite (proj2 (Z.leb_le _ _)) by done. cbn [andb].
  destruct (Z.ltb_spec 0 (sb_len (fill_buf (wb_out s)))) as [Hf|Hf].
  - destruct (swap_buffers_spec (wb_mem s) (wb_out s)) as (Hi' & Hp' & Hsg & Hrs & _); [done|by apply Z.leb_le|done|].
    assert (Hinv' : wb_inv (set_out s (wb_mem s) (swap_buffers (wb_out s))) T L).
    { split; [exact Hi'|]. split; [split; [apply Hc|cbn [set_out wb_mem wb_out]; rewrite Hp'; apply Hc]|].
      split; [|split; [cbn [set_out wb_sock wb_mem wb_out]; by rewrite Hp'|exact HL]].
      unfold ring_ok in *. cbn [set_out wb_sqe]. destruct (wb_sqe s) as [[]|]; [| |done]; destruct Hr as [Hr _]; congruence. }
    assert (Hlt : w_sent (swap_buffers (wb_out s)) < sb_len (send_buf (swap_buffers (wb_out s)))).
    { assert (send_buf (swap_buffers (wb_out s)) = fill_buf (wb_out s)) as ->
        by (unfold send_buf, fill_buf, swap_buffers, out_buf, set_buf; cbn; by destruct (w_fill (wb_out s))).
      cbn. lia. }
    rewrite (proj2 (Z.ltb_lt _ _)) by done.
    destruct (submit_legacy_spec sqe_ok _ T L Hinv' Hin Hlt) as (s' & E & H' & Hk).
    cbn [set_out wb_out] in E. exists s', sqe_ok. split; [exact E|]. done.
  - rewrite (proj2 (Z.ltb_ge _ _)) by done. eexists _, false. split; [done|]. split; [done|]. split; [done|].
    intros _ Hne. destruct Hne. unfold out_pending. by rewrite Hrest, no_segments_wire, empty_fill by done.
Qed.

(** [pump] moves nothing and loses nothing; with a free ring entry it submits whenever bytes are
    pending and no send is outstanding. *)
Lemma pump_spec sqe_ok s T L :
  wb_inv s T L ->
  exists s' b, pump sqe_ok s = Some (s', b) /\ wb_inv s' T L /\ wb_sock s' = wb_sock s /\
    (w_inflight (wb_out s) = false -> sqe_ok = true -> out_pending (wb_mem s) (wb_out s) <> [] -> b = true).
Proof.
  intros Hinv. pose proof Hinv as (Hi & Hc & Hr & HT & HL). unfold pump.
  destruct (w_inflight (wb_out s)) eqn:Hin; [by exists s, false|].
  destruct (Z.ltb_spec (w_sent (wb_out s)) (sb_len (send_buf (wb_out s)))) as [Hlt|Hge].
  { destruct (submit_legacy_spec sqe_ok s T L Hinv Hin Hlt) as (s' & -> & H' & Hk). by exists s', sqe_ok. }
  pose proof (drained_rest _ _ Hi Hge) as Hrest.
  assert (Hsqe : wb_sqe s = None).
  { unfold ring_ok in Hr. destruct (wb_sqe s) as [[]|]; [| |done]; destruct Hr as [Hr _]; congruence. }
  unfold has_pending_segments, sq_empty. destruct (Z.eqb_spec (sq_size (w_segs (wb_out s))) 0) as [E0|E0]; cbn [negb].
  - destruct (submit_fill_spec sqe_ok s T L) as (s' & b & -> & H' & Hk & Hb); [done..|]. by exists s', b.
  - destruct (submit_segments_spec sqe_ok s T L) as (s' & b & -> & H' & Hk & Hb); [done..|]. by exists s', b.
Qed.

(** ** Completing *)
(** The bytes behind a submitted send are the front of the pending bytes. *)
Lemma sqe_data_spec s T L :
  wb_inv s T L -> wb_sqe s <> None ->
  exists t, sqe_data s = Some t /\ t `prefix_of` out_pending (wb_mem s) (wb_out s) /\
    Z.of_nat (length t) = w_requested (wb_out s) /\ w_requested (wb_out s) <= kMaxSendBytes /\
    if w_segmented (wb_out s)
    then send_rest (wb_out s) = [] /\ Z.of_nat (length t) <= Z.of_nat (length (sq_wire (wb_mem s) (w_segs (wb_out s))))
    else Z.of_nat (length t) <= Z.of_nat (length (send_rest (wb_out s))).
Proof.
  intros (Hi & _ & Hr & _ & _) Hs. unfold ring_ok, sqe_data in *.
  destruct (wb_sqe s) as [[ix block off len|]|]; [| |done].
  - destruct Hr as (_ & -> & -> & -> & -> & -> & Hl). rewrite decide_True by done.
    destruct (out_bufs_ok _ _ Hi) as [_ (Hc & Hm & Hsl)]. pose proof Hi as (_ & _ & _ & Hws & _).
    unfold send_rest in *. rewrite length_drop in Hl. unfold sb_bytes in *. rewrite length_take in Hl.
    rewrite mem_read_Some by lia. eexists. split; [done|]. rewrite length_take, length_drop.
    split; [|split; [lia|split; [lia|]]].
    + unfold out_pending, send_rest, sb_bytes. apply prefix_app_r. rewrite skipn_firstn_comm.
      exists (drop (Z.to_nat (w_requested (wb_out s))) (take (Z.to_nat (sb_len (send_buf (wb_out s))) - Z.to_nat (w_sent (wb_out s)))
         (drop (Z.to_nat (w_sent (wb_out s))) (sb_mem (send_buf (wb_out s)))))).
      rewrite <- (take_drop (Z.to_nat (w_requested (wb_out s))) (take (_ - _) _)) at 1. f_equal.
      rewrite take_take. f_equal. lia.
    + rewrite length_drop, length_take. lia.
  - destruct Hr as (_ & -> & Hrest & _ & t & Ht & Hp & Hl & Hk). exists t. split; [done|].
    split; [unfold out_pending; rewrite Hrest; cbn [app]; by apply prefix_app_r|].
    split; [done|]. split; [done|]. split; [done|]. pose proof (prefix_length _ _ Hp). lia.
Qed.

Lemma wb_releases_spec s rel :
  wb_mem (wb_releases s rel) = wb_mem s /\ wb_out (wb_releases s rel) = wb_out s /\
  wb_released (wb_releases s rel) = wb_released s ++ rel /\ wb_sock (wb_releases s rel) = wb_sock s /\
  wb_sqe (wb_releases s rel) = wb_sqe s /\ wb_failed (wb_releases s rel) = wb_failed s.
Proof.
  unfold wb_releases. revert s. induction rel as [|r rel IH]; intros s; [by rewrite app_nil_r|].
  cbn [foldl]. destruct (IH (wb_release s (fst r) (snd r))) as (-> & -> & -> & -> & -> & ->).
  cbn [wb_release bump wb_mem wb_out wb_released wb_sock wb_sqe wb_failed]. rewrite <- app_assoc. by destruct r.
Qed.

(** What the handler does with [n] accepted bytes. *)
Definition took s s' (n : Z) : Prop :=
  exists rel, accepted (wb_mem s) (wb_out s) (wb_mem s') (wb_out s') n rel /\
    wb_released s' = wb_released s ++ rel /\ wb_sock s' = wb_sock s /\ wb_sqe s' = wb_sqe s /\
    wb_failed s' = wb_failed s.

Lemma took_releases s m w n rel :
  accepted (wb_mem s) (wb_out s) m w n rel -> took s (wb_releases (set_out s m w) rel) n.
Proof.
  intros Ha. destruct (wb_releases_spec (set_out s m w) rel) as (E1 & E2 & E3 & E4 & E5 & E6).
  exists rel. rewrite E1, E2, E3, E4, E5, E6. done.
Qed.

Lemma consume_completed_spec s n :
  out_inv (wb_mem s) (wb_out s) -> Z.of_nat (length (out_pending (wb_mem s) (wb_out s))) <= 2 ^ 40 ->
  0 <= n <= kMaxSendBytes ->
  (if w_segmented (wb_out s)
   then send_rest (wb_out s) = [] /\ n <= Z.of_nat (length (sq_wire (wb_mem s) (w_segs (wb_out s))))
   else n <= Z.of_nat (length (send_rest (wb_out s)))) ->
  exists s', consume_completed s n = Some s' /\ took s s' n.
Proof.
  intros Hi Hlt Hn Hseg. unfold kMaxSendBytes in Hn. change (2 ^ 40) with 1099511627776 in Hlt.
  unfold consume_completed. rewrite u32_small by lia. destruct (w_segmented (wb_out s)).
  - destruct Hseg as [Hrest Hw].
    destruct (consume_segments_spec (wb_mem s) (wb_out s) n Hi) as (m & w & bor & rel & -> & Ha);
      [change (2 ^ 64) with 18446744073709551616; lia|done|change (2 ^ 32) with 4294967296; lia|lia|].
    rewrite some_bind. cbv beta iota. rewrite some_bind. eexists. split; [done|]. by apply took_releases.
  - destruct (commit_write_spec (wb_mem s) (wb_out s) n Hi) as (w & -> & Ha & _);
      [change (2 ^ 64) with 18446744073709551616; lia|lia|].
    rewrite !some_bind. eexists. split; [done|]. exists []. rewrite app_nil_r. done.
Qed.

(** Bytes move from the front of what is pending to the socket, and nowhere else. *)
Lemma wb_inv_took s s' T L n t :
  out_inv (wb_mem s) (wb_out s) -> env_ok s -> wb_sqe s = None -> w_inflight (wb_out s) = false ->
  wb_sock s ++ out_pending (wb_mem s) (wb_out s) = T -> wb_released s ++ out_borrows (wb_out s) = L ->
  t `prefix_of` out_pending (wb_mem s) (wb_out s) -> 0 <= n <= Z.of_nat (length t) ->
  took (accept s (take (Z.to_nat n) t)) s' n ->
  wb_inv s' T L /\ wb_sock s' = wb_sock s ++ take (Z.to_nat n) t.
Proof.
  intros Hi [Hc Hsm] Hsqe Hin HT HL [k Ht] Hn (rel & (Hi' & Hp & Hb & Hf & Hin' & Htr) & Er & Es & Eq & Ef).
  cbn [accept wb_mem wb_out wb_sock wb_released wb_sqe wb_failed] in *.
  split; [|done]. split; [done|]. split; [split|].
  - destruct Hc as (H1 & H2 & H3). pose proof (m_read_is_Some _ _ _ _ _ H2) as [b Hb'].
    destruct (Hf kCrlf b Hb' H3) as [H4 H5]. split; [done|]. split; [|done].
    unfold m_read in *. by rewrite H4, <- Hb'.
  - rewrite Hp, length_drop. lia.
  - split; [unfold ring_ok; rewrite Eq, Hsqe; congruence|]. split.
    + rewrite Es, Hp, <- HT, <- app_assoc. f_equal. rewrite Ht, drop_app_le, app_assoc, take_drop by lia. done.
    + by rewrite Er, <- app_assoc, <- Hb.
Qed.

Lemma pump_after sqe_ok s T L :
  wb_inv s T L -> exists s', ('(s, _) ← pump sqe_ok s; Some (s, true)) = Some (s', true) /\
    wb_inv s' T L /\ wb_sock s' = wb_sock s.
Proof.
  intros H. destruct (pump_spec sqe_ok s T L H) as (s1 & b & -> & H1 & H2 & _).
  rewrite some_bind. cbv beta iota. by exists s1.
Qed.

(** A completion: the socket gains exactly the accepted bytes, in stream order; an error loses
    nothing. *)
Lemma complete_spec now sqe_ok s r T L :
  wb_inv s T L -> wb_sqe s <> None ->
  match r with SrOk n => 0 <= n <= w_requested (wb_out s) | SrErr _ => True end ->
  exists s' b, complete now sqe_ok s r = Some (s', b) /\ wb_inv s' T L /\
    wb_sock s' = wb_sock s ++ match r with
      | SrOk n => take (Z.to_nat n) (out_pending (wb_mem s) (wb_out s)) | SrErr _ => [] end.
Proof.
  intros Hinv Hs Hok. destruct (sqe_data_spec s T L Hinv Hs) as (t & Et & Hp & Hl & Hk & Hseg).
  pose proof Hinv as (Hi & Hc & Hr & HT & HL). unfold complete. destruct r as [n|e].
  - unfold kernel_complete. rewrite Et, !some_bind. unfold on_send_complete.
    set (s0 := set_out s (wb_mem s) (set_send_inflight (wb_out s) false)).
    set (s1 := set_out (set_sqe _ _) _ _).
    assert (Hn : 0 <= n <= Z.of_nat (length t)) by lia.
    destruct (consume_completed_spec s1 n) as (s2 & E2 & Ht2); [exact Hi|apply Hc|lia| |].
    { change (w_segmented (wb_out s1)) with (w_segmented (wb_out s)).
      change (send_rest (wb_out s1)) with (send_rest (wb_out s)).
      change (sq_wire (wb_mem s1) (w_segs (wb_out s1))) with (sq_wire (wb_mem s) (w_segs (wb_out s))).
      destruct (w_segmented (wb_out s)); [split; [apply Hseg|]; lia|lia]. }
    rewrite E2, some_bind. cbv zeta.
    destruct (wb_inv_took (set_sqe s0 None) s2 T L n t) as [H2 Hsk]; [exact Hi|exact Hc|done|done|done|done|exact Hp|done|exact Ht2|].
    assert (Etake : take (Z.to_nat n) t = take (Z.to_nat n) (out_pending (wb_mem s) (wb_out s))).
    { destruct Hp as [k ->]. by rewrite take_app_le by lia. }
    rewrite Etake in Hsk. change (wb_sock (set_sqe s0 None)) with (wb_sock s) in Hsk. rewrite <- Hsk.
    set (s3 := if u32 n <? _ then _ else _).
    assert (H3 : wb_inv s3 T L /\ wb_sock s3 = wb_sock s2) by (unfold s3; destruct (u32 n <? _); split; done || exact H2).
    clearbody s3. clear E2 Ht2 Hsk. destruct H3 as [H3 <-].
    destruct (if w_segmented (wb_out s2) then _ else _); [destruct (_ || _)|].
    + destruct (pump_after sqe_ok (bump sends_completed 1 s3) T L H3) as (s4 & E4 & H4). by exists s4, true.
    + by exists (bump sends_completed 1 s3), true.
    + destruct (pump_after sqe_ok s3 T L H3) as (s4 & E4 & H4). by exists s4, true.
  - unfold on_send_complete. set (s1 := set_out _ _ _). rewrite app_nil_r.
    assert (H1 : wb_inv s1 T L) by (split; [exact Hi|]; split; [exact Hc|]; split; done).
    destruct (would_block e).
    + destruct (pump_after sqe_ok s1 T L H1) as (s4 & E4 & H4). by exists s4, true.
    + destruct (_ || _); by eexists _, false.
Qed.

(** ** The epoll loop *)
Definition stops (r : SendRes) : bool := match r with SrOk n => n <=? 0 | SrErr _ => true end.
Definition fatal (r : SendRes) : bool := match r with SrErr e => negb (would_block e) | SrOk _ => false end.

Lemma note_send_stop_spec s r T L :
  wb_inv s T L -> wb_inv (note_send_stop s r) T L /\ wb_sqe (note_send_stop s r) = wb_sqe s /\
    wb_out (note_send_stop s r) = wb_out s /\ wb_failed (note_send_stop s r) = wb_failed s || fatal r.
Proof.
  intros H. unfold note_send_stop, fatal. destruct r as [n|e]; [by rewrite orb_false_r|].
  destruct (would_block e); cbn [negb]; [by rewrite orb_false_r|]. rewrite orb_true_r. done.
Qed.

Lemma wb_inv_request s b n T L :
  wb_inv s T L -> wb_sqe s = None -> w_inflight (wb_out s) = false ->
  wb_inv (bump sends_submitted 1 (set_out s (wb_mem s) (set_request (wb_out s) b n))) T L.
Proof.
  intros (Hi & Hc & _ & HT & HL) Hsqe Hin. split; [exact Hi|]. split; [exact Hc|]. split; [|done].
  unfold ring_ok. cbn [bump set_out wb_sqe]. by rewrite Hsqe.
Qed.

(** One system call of the loop: it stops where the kernel does, and otherwise moves a positive
    number of bytes from the front of what is pending to the socket. *)
Definition epoll_step s s' (go : bool) (r : SendRes) T L : Prop :=
  wb_inv s' T L /\ wb_sqe s' = None /\ w_inflight (wb_out s') = false /\
  if go then wb_failed s' = wb_failed s /\
    (length (out_pending (wb_mem s') (wb_out s')) < length (out_pending (wb_mem s) (wb_out s)))%nat
  else stops r = true /\ wb_failed s' = wb_failed s || fatal r.

Lemma epoll_stop s s1 r T L :
  wb_inv s1 T L -> wb_sqe s1 = None -> w_inflight (wb_out s1) = false -> wb_failed s1 = wb_failed s ->
  stops r = true -> epoll_step s (note_send_stop s1 r) false r T L.
Proof.
  intros H1 Hq Hin Hf Hst. destruct (note_send_stop_spec s1 r T L H1) as (Hn & E1 & E2 & Hfl).
  split; [done|]. by rewrite E1, E2, Hfl, Hf.
Qed.

Lemma epoll_accept s s1 s' T L n t :
  wb_inv s T L -> wb_sqe s = None -> w_inflight (wb_out s) = false ->
  t `prefix_of` out_pending (wb_mem s) (wb_out s) -> 0 < n <= Z.of_nat (length t) ->
  wb_mem s1 = wb_mem s -> out_inv (wb_mem s) (wb_out s1) -> out_pending (wb_mem s) (wb_out s1) = out_pending (wb_mem s) (wb_out s) ->
  w_segs (wb_out s1) = w_segs (wb_out s) -> w_inflight (wb_out s1) = false ->
  wb_sock s1 = wb_sock s -> wb_sqe s1 = None -> wb_released s1 = wb_released s -> wb_failed s1 = wb_failed s ->
  took (accept s1 (take (Z.to_nat n) t)) s' n ->
  epoll_step s s' true (SrOk n) T L.
Proof.
  intros (Hi & Hc & Hr & HT & HL) Hsqe Hin Hp Hn Em Hi1 Ep Eg Ein Es Eq Er Ef Ht.
  destruct (wb_inv_took s1 s' T L n t) as [H' Hsk]; rewrite ?Em, ?Ep, ?Es, ?Er; try done.
  - destruct Hc as [(H1 & H2 & H3) H4]. unfold env_ok, crlf_ok, lent_ok. by rewrite Em, Eg, Ep.
  - unfold out_borrows. by rewrite Eg.
  - lia.
  - destruct Ht as (rel & (_ & Hp' & _ & _ & Hin' & _) & _ & _ & Eq' & Ef').
    cbn [accept wb_mem wb_out wb_sqe wb_failed] in *.
    split; [done|]. split; [congruence|]. split; [congruence|]. split; [congruence|].
    rewrite Hp', Em, Ep, length_drop. pose proof (prefix_length _ _ Hp). lia.
Qed.

Lemma write_legacy_epoll_spec now s send T L :
  wb_inv s T L -> wb_sqe s = None -> w_inflight (wb_out s) = false ->
  w_sent (wb_out s) < sb_len (send_buf (wb_out s)) ->
  (forall req, match send req with SrOk n => n <= req | SrErr _ => True end) ->
  exists s' go req, write_legacy_epoll now s (sb_len (send_buf (wb_out s))) (w_sent (wb_out s)) send = Some (s', go) /\
    epoll_step s s' go (send req) T L.
Proof.
  intros Hinv Hsqe Hin Hlt Hk. pose proof Hinv as (Hi & Hc & _). unfold write_legacy_epoll.
  set (req := Z.min _ _). set (s1 := bump _ _ _).
  assert (Hreq : 0 < req <= 2147479552) by (unfold req, kMaxSendBytes; lia).
  destruct (out_bufs_ok _ _ Hi) as [_ (Hcap & Hm & Hsl)]. pose proof Hi as (_ & _ & _ & Hws & _).
  change (sb_mem (send_buf (wb_out s1))) with (sb_mem (send_buf (wb_out s))).
  rewrite mem_read_Some by lia. rewrite some_bind. set (data := take _ _).
  assert (Hd : data `prefix_of` send_rest (wb_out s) /\ Z.of_nat (length data) = req).
  { unfold data. split; [|rewrite length_take, length_drop; lia]. unfold send_rest, sb_bytes.
    rewrite skipn_firstn_comm.
    replace (Z.to_nat req) with (Z.to_nat req `min` (Z.to_nat (sb_len (send_buf (wb_out s))) - Z.to_nat (w_sent (wb_out s))))%nat by lia.
    rewrite <- take_take. apply prefix_take. }
  destruct Hd as [Hd Hdl]. specialize (Hk req).
  assert (Hstop : stops (send req) = true -> epoll_step s (note_send_stop s1 (send req)) false (send req) T L).
  { apply epoll_stop; [|done..]. by apply wb_inv_request. }
  destruct (send req) as [n|e] eqn:Er; [|eexists _, false, req; rewrite Er; split; [done|by apply Hstop]].
  destruct (Z.leb_spec n 0) as [H0|H0].
  { eexists _, false, req. rewrite Er. split; [done|]. apply Hstop. cbn. by apply Z.leb_le. }
  rewrite u32_small by lia.
  destruct (commit_write_spec (wb_mem s) (wb_out s1) n) as (w & E & Ha & _); [exact Hi| | |].
  { destruct Hc as [_ Hsm]. change (2 ^ 64) with 18446744073709551616. change (2 ^ 40) with 1099511627776 in Hsm.
    change (out_pending (wb_mem s) (wb_out s1)) with (out_pending (wb_mem s) (wb_out s)). lia. }
  { change (send_rest (wb_out s1)) with (send_rest (wb_out s)). pose proof (prefix_length _ _ Hd). lia. }
  change (wb_out (accept s1 ?x)) with (wb_out s1). rewrite E, some_bind. cbv zeta.
  eexists _, true, req. split; [done|]. rewrite Er.
  apply (epoll_accept s s1 _ T L n data); try done; [|lia|].
  { unfold out_pending. by apply prefix_app_r. }
  exists []. rewrite app_nil_r. destruct (n <? req); [done|]. by destruct (write_drained w).
Qed.

Lemma write_segments_epoll_spec now s send T L :
  wb_inv s T L -> wb_sqe s = None -> w_inflight (wb_out s) = false -> send_rest (wb_out s) = [] ->
  sq_size (w_segs (wb_out s)) <> 0 ->
  (forall req, match send req with SrOk n => n <= req | SrErr _ => True end) ->
  exists s' go req, write_segments_epoll now s send = Some (s', go) /\
    (epoll_step s s' go (send req) T L \/
     go = false /\ wb_inv s' T L /\ out_pending (wb_mem s') (wb_out s') = [] /\ wb_failed s' = wb_failed s).
Proof.
  intros Hinv Hsqe Hin Hrest Hne0 Hk. pose proof Hinv as (Hi & Hc & Hr & HT & HL). unfold write_segments_epoll.
  destruct (build_segment_iov_spec (wb_mem s) (wb_out s) Hi) as (v & hb & t & -> & Hv & Hp & Hkm & Hne & Hl).
  rewrite some_bind. cbv beta iota zeta. cbn [w_iov set_iov].
  assert (Hpend : out_pending (wb_mem s) (wb_out s) = sq_wire (wb_mem s) (w_segs (wb_out s))).
  { unfold out_pending. by rewrite Hrest, (segments_fill _ _ Hi Hne0), app_nil_r. }
  destruct v as [|x v].
  { eexists _, false, 0. split; [done|]. right. split; [done|]. injection Hv as <-. split; [|split; [|done]].
    - split; [exact Hi|]. split; [exact Hc|]. split; [|done]. unfold ring_ok. cbn [set_out wb_sqe]. by rewrite Hsqe.
    - change (out_pending (wb_mem s) (wb_out s) = []). rewrite Hpend.
      destruct (decide (sq_wire (wb_mem s) (w_segs (wb_out s)) = [])) as [|Hx]; [done|]. by destruct (Hne Hx). }
  set (s0 := bump sends_submitted 1 _). set (s1 := if hb then _ else _).
  assert (H1 : wb_inv s1 T L /\ wb_mem s1 = wb_mem s /\ wb_out s1 = set_request (set_iov (wb_out s) (x :: v)) true (Z.of_nat (length t)) /\
    wb_sock s1 = wb_sock s /\ wb_sqe s1 = None /\ wb_released s1 = wb_released s /\ wb_failed s1 = wb_failed s).
  { assert (wb_inv s0 T L).
    { split; [exact Hi|]. split; [exact Hc|]. split; [|done]. unfold ring_ok. cbn [s0 bump set_out wb_sqe]. by rewrite Hsqe. }
    unfold s1. destruct hb; by split_and!. }
  clearbody s1. destruct H1 as (H1 & Em & Eo & Es & Eq & Er & Ef).
  rewrite Em, Hv, some_bind. specialize (Hk (Z.of_nat (length t))).
  assert (Hstop : stops (send (Z.of_nat (length t))) = true ->
    epoll_step s (note_send_stop s1 (send (Z.of_nat (length t)))) false (send (Z.of_nat (length t))) T L).
  { apply epoll_stop; try done. by rewrite Eo. }
  destruct (send (Z.of_nat (length t))) as [n|e] eqn:Es'; [|eexists _, false, (Z.of_nat (length t)); rewrite Es'; split; [done|left; by apply Hstop]].
  destruct (Z.leb_spec n 0) as [H0|H0].
  { eexists _, false, (Z.of_nat (length t)). rewrite Es'. split; [done|]. left. apply Hstop. cbn. by apply Z.leb_le. }
  unfold kMaxSendBytes in Hkm. rewrite u32_small by lia. change (wb_out (accept s1 ?x)) with (wb_out s1).
  change (wb_mem (accept s1 ?x)) with (wb_mem s1).
  destruct (consume_segments_spec (wb_mem s1) (wb_out s1) n) as (m & w & bor & rel & E & Ha).
  { apply H1. }
  { destruct H1 as (_ & [_ Hsm] & _). change (2 ^ 64) with 18446744073709551616.
    change (2 ^ 40) with 1099511627776 in Hsm. lia. }
  { by rewrite Eo. }
  { change (2 ^ 32) with 4294967296. lia. }
  { rewrite Em, Eo. cbn [set_request set_iov w_segs]. pose proof (prefix_length _ _ Hp). lia. }
  rewrite Em in E. rewrite Em, E, some_bind. cbv beta iota zeta.
  eexists _, true, (Z.of_nat (length t)). split; [done|]. left. rewrite Es'.
  apply (epoll_accept s s1 _ T L n t); rewrite ?Eo; try done; [by rewrite Hpend|].
  rewrite Em in Ha. pose proof (took_releases (accept s1 (take (Z.to_nat n) t)) m w n rel) as Ht. cbn [accept wb_mem wb_out] in Ht.
  rewrite Em in Ht. specialize (Ht Ha). destruct (n <? Z.of_nat (length t)); exact Ht.
Qed.

(** The loop ends within twice the pending bytes, either with everything written or where the
    kernel stopped it. *)
Lemma pump_epoll_loop_spec fuel now kernel i s did T L :
  wb_inv s T L -> wb_sqe s = None -> w_inflight (wb_out s) = false ->
  (forall i req, match kernel i req with SrOk n => n <= req | SrErr _ => True end) ->
  (2 * length (out_pending (wb_mem s) (wb_out s)) + (if decide (send_rest (wb_out s) = []) then 2 else 1) <= fuel)%nat ->
  exists s' did', pump_epoll_loop fuel now kernel i s did = Some (s', did') /\ wb_inv s' T L /\
    (out_pending (wb_mem s') (wb_out s') = [] /\ wb_failed s' = wb_failed s \/
     exists j req, stops (kernel j req) = true /\ wb_failed s' = wb_failed s || fatal (kernel j req)).
Proof.
  revert i s did. induction fuel as [|fuel IH]; intros i s did Hinv Hsqe Hin Hk Hf.
  { destruct (decide _); lia. }
  pose proof Hinv as (Hi & Hc & Hr & HT & HL). cbn [pump_epoll_loop].
  assert (Hnext : forall s1 go r, (exists j req, r = kernel j req) -> epoll_step s s1 go r T L ->
    exists s' did', (if go then pump_epoll_loop fuel now kernel (S i) s1 true else Some (s1, did)) = Some (s', did') /\ wb_inv s' T L /\
    (out_pending (wb_mem s') (wb_out s') = [] /\ wb_failed s' = wb_failed s \/
     exists j req, stops (kernel j req) = true /\ wb_failed s' = wb_failed s || fatal (kernel j req))).
  { intros s1 go r (j & req & ->) (H1 & H2 & H3 & H4). destruct go.
    - destruct H4 as [H4 H5]. rewrite <- H4. apply IH; [done..|]. destruct (decide (send_rest (wb_out s1) = [])), (decide (send_rest (wb_out s) = [])); lia.
    - exists s1, did. split; [done|]. split; [done|]. right. by exists j, req. }
  destruct (Z.ltb_spec (w_sent (wb_out s)) (sb_len (send_buf (wb_out s)))) as [Hlt|Hge].
  { destruct (write_legacy_epoll_spec now s (kernel i) T L) as (s1 & go & req & -> & H1); [done|done|done|done|apply Hk|].
    rewrite some_bind. cbv beta iota. apply (Hnext s1 go (kernel i req)); eauto. }
  pose proof (drained_rest _ _ Hi Hge) as Hrest. unfold has_pending_segments, sq_empty.
  destruct (Z.eqb_spec (sq_size (w_segs (wb_out s))) 0) as [E0|E0]; cbn [negb].
  2:{ destruct (write_segments_epoll_spec now s (kernel i) T L) as (s1 & go & req & -> & [H1|(-> & H1 & H2)]);
        [done|done|done|done|done|apply Hk| |].
      - rewrite some_bind. cbv beta iota. apply (Hnext s1 go (kernel i req)); eauto.
      - rewrite some_bind. cbv beta iota. exists s1, did. split; [done|]. split; [done|]. by left. }
  unfold write_drained, has_pending_fill. rewrite (proj2 (Z.leb_le _ _)) by done. cbn [andb].
  destruct (Z.ltb_spec 0 (sb_len (fill_buf (wb_out s)))) as [Hfl|Hfl].
  - destruct (swap_buffers_spec (wb_mem s) (wb_out s)) as (Hi' & Hp' & Hsg & Hrs & _); [done|by apply Z.leb_le|done|].
    destruct (IH i (set_out s (wb_mem s) (swap_buffers (wb_out s))) did) as (s' & did' & E & H' & Hor); try done.
    + split; [exact Hi'|]. split; [split; [apply Hc|cbn [set_out wb_mem wb_out]; rewrite Hp'; apply Hc]|].
      split; [|split; [cbn [set_out wb_sock wb_mem wb_out]; by rewrite Hp'|exact HL]].
      unfold ring_ok. cbn [set_out wb_sqe]. by rewrite Hsqe.
    + cbn [set_out wb_mem wb_out]. rewrite Hp'. rewrite (decide_True _ _ Hrest) in Hf.
      rewrite decide_False; [lia|]. rewrite Hrs. intros E. destruct (out_bufs_ok _ _ Hi) as [Hok _].
      pose proof (sb_bytes_length _ Hok) as Hl. rewrite E in Hl. cbn in Hl. lia.
    + by exists s', did'.
  - exists s, did. split; [done|]. split; [done|]. left. split; [|done].
    unfold out_pending. by rewrite Hrest, no_segments_wire, empty_fill by done.
Qed.
End Invariant.
