(* ===== verification/Pipeline.v ===== *)
(** The reply side of a connection end to end: retirement from the reorder buffer, staging,
    out-of-band frames, submission and completion, as one run.

    The run is driven by events: the owner serves the connection, a delivery arrives, a send is
    submitted or completes, the write buffers are shed at quiescence, a shard frees a value all of
    whose loans it got back.  Between events the reorder buffer is in any state its own invariant
    allows. *)
From stdpp Require Import gmap.
From S2P Require Import Prelude Slice Op RespReply Rob SegQueue OutBuf WriteBack Send.

Inductive Ev :=
| EvServe (TrackOutput Coded Submit sqe_ok : bool) (r : Rob)
| EvDeliver (r : Rob) (blocked : bool) (a b : bytes)
| EvPump (sqe_ok : bool)
| EvComplete (now : Z) (sqe_ok : bool) (res : SendRes)
| EvShed
| EvReclaim (p : Z).

(** [climon_push_wire]: park the frame, or append it now. *)
Definition deliver_oob (r : Rob) (blocked : bool) (s : Wb) (a b : bytes) : option Wb :=
  '(s, parked) ← defer_oob r blocked s a b;
  if parked : bool then Some s
  else '(m, w, _) ← append_oob (rob_quiesced r) (wb_mem s) (wb_out s) a b; Some (set_out s m w).

(** The engine's initial state: two blocks are in memory, the CR LF constant among them. *)
Definition mem_new (values : list bytes) : Mem :=
  foldl (fun m v => fst (m_alloc m v)) (mkMem {[ kCrlf := CRLF ]} 2) values.
Definition wb_new (m : Mem) : Wb :=
  mkWb m out_new stats_new [] false false false 0 None [] [].

Section Run.
Context (special : Wb -> Op -> option (Wb * Op)) (limit : Wb -> bool).

Definition step (s : Wb) (e : Ev) : option Wb :=
  match e with
  | EvServe to cd sb ok r => '(_, s, _) ← serve_impl special limit to cd sb ok r s; Some s
  | EvDeliver r blocked a b => deliver_oob r blocked s a b
  | EvPump ok => '(s, _) ← pump ok s; Some s
  | EvComplete now ok res => '(s, _) ← complete now ok s res; Some s
  | EvShed => Some (set_out s (wb_mem s) (shed_out (wb_out s)))
  | EvReclaim p => m ← m_free (wb_mem s) p; Some (set_out s m (wb_out s))
  end.

(** What an event adds to the stream and to the loans, when the window holds [w]. *)
Definition ready_frames (s : Wb) (F : Z) (w : list Op) : list (Z * bytes) :=
  due (wb_oob s) (u64 (F + Z.of_nat (length (done_prefix w)))).
Definition parks (r : Rob) (blocked : bool) (s : Wb) : bool :=
  match defer_oob r blocked s [] [] with Some (_, p) => p | None => false end.
Definition adds (s : Wb) (e : Ev) (F : Z) (w : list Op) : bytes * Releases :=
  match e with
  | EvServe _ _ _ _ _ => (frames s (done_prefix w) ++ oob_bytes (ready_frames s F w), lents (done_prefix w))
  | EvDeliver r blocked a b => (if parks r blocked s then [] else a ++ b, [])
  | _ => ([], [])
  end.

(** Loans of the value at [p]. *)
Definition loans (p : Z) (L : Releases) : nat := length (filter (fun x => snd x = p) L).

(** The events that can happen when [L] has been lent. *)
Definition ev_ok (L : Releases) (s : Wb) (e : Ev) (F : Z) (w : list Op) : Prop :=
  match e with
  | EvServe _ cd _ _ r =>
      rob_inv kRobWindow r F w /\ stageable_all cd s (done_prefix w) /\
      wb_room s (Z.of_nat (length (fst (adds s e F w))) + kReplyCodeMax)
        (length (done_prefix w) + length (ready_frames s F w))
  | EvDeliver r _ a b =>
      rob_inv kRobWindow r F w /\ wb_room s (Z.of_nat (length a) + Z.of_nat (length b)) 1
  | EvComplete _ _ res =>
      wb_sqe s <> None /\ match res with SrOk n => 0 <= n <= w_requested (wb_out s) | SrErr _ => True end
  | EvPump _ | EvShed => True
  | EvReclaim p =>
      is_Some (m_blocks (wb_mem s) !! p) /\ p <> kCrlf /\ loans p L = loans p (wb_released s) /\
      Forall (fun g => sg_kind g <> Borrow -> sg_ptr g <> p) (sq_live (w_segs (wb_out s)))
  end.

(** The instrumented run: [T] collects the stream, [L] the loans. *)
Inductive runs : Wb -> bytes -> Releases -> list Ev -> Wb -> bytes -> Releases -> Prop :=
| runs_nil s T L : runs s T L [] s T L
| runs_cons s T L e es F w s1 s2 T2 L2 :
    ev_ok L s e F w -> step s e = Some s1 ->
    runs s1 (T ++ fst (adds s e F w)) (L ++ snd (adds s e F w)) es s2 T2 L2 ->
    runs s T L (e :: es) s2 T2 L2.
End Run.

(** * Lemmas *)
Section RunLemmas.
Context (special : Wb -> Op -> option (Wb * Op)) (limit : Wb -> bool).
Implicit Types (s : Wb) (T : bytes) (L : Releases).

Lemma take_done_prefix w : take (length (done_prefix w)) w = done_prefix w.
Proof. induction w as [|o w IH]; cbn; [done|]. case_bool_decide; cbn; [by f_equal|done]. Qed.
Lemma kRobWindow_ok : rob_capacity kRobWindow.
Proof. exists 6. by split. Qed.

(** Changing nothing a send can see. *)
Definition view_same s s' : Prop :=
  wb_mem s' = wb_mem s /\ w_segs (wb_out s') = w_segs (wb_out s) /\ fill_buf (wb_out s') = fill_buf (wb_out s) /\
  out_pending (wb_mem s) (wb_out s') = out_pending (wb_mem s) (wb_out s) /\
  wb_oob s' = wb_oob s /\ wb_sqe s' = wb_sqe s /\ wb_sock s' = wb_sock s /\ wb_released s' = wb_released s.

Lemma stageable_view cd s s' l : view_same s s' -> stageable_all cd s l -> stageable_all cd s' l.
Proof.
  intros (Em & Eg & Ef & _) [H1 H2]. split; [|done]. rewrite Ef. apply (Forall_impl _ _ _ H1).
  intros o (Ha & Hb & Hc & Hd). split; [done|]. split; [done|]. split; [done|].
  unfold lent_ok. rewrite Em, Eg. done.
Qed.
Lemma frames_view s s' l : view_same s s' -> frames s' l = frames s l.
Proof. intros (Em & _ & Ef & _). unfold frames. by rewrite Em, Ef. Qed.
Lemma wb_room_view s s' n k : view_same s s' -> wb_room s n k -> wb_room s' n k.
Proof. intros (Em & Eg & _ & Ep & _) [(H1 & H2 & H3) H4]. unfold wb_room, out_room. by rewrite Em, Eg, Ep. Qed.

(** Serving starts by arming or disarming the output counter. *)
Lemma serve_start (to : bool) s T L :
  wb_inv s T L ->
  exists w, (if to then start_obuf_tracking (wb_out (bump serves 1 s))
             else Some (stop_obuf_tracking (wb_out (bump serves 1 s)))) = Some w /\
    let s1 := set_draining (set_out (bump serves 1 s) (wb_mem s) w) true in
    view_same s s1 /\ wb_inv s1 T L /\ w_tracking w = to.
Proof.
  intros (Hi & [Hc Hsm] & Hr & HT & HL). change (wb_out (bump serves 1 s)) with (wb_out s).
  assert (H : exists w, (if to then start_obuf_tracking (wb_out s) else Some (stop_obuf_tracking (wb_out s))) = Some w /\
    out_inv (wb_mem s) w /\ w_tracking w = to /\ out_pending (wb_mem s) w = out_pending (wb_mem s) (wb_out s) /\
    w_segs w = w_segs (wb_out s) /\ fill_buf w = fill_buf (wb_out s) /\ send_buf w = send_buf (wb_out s) /\
    w_sent w = w_sent (wb_out s) /\ w_fill w = w_fill (wb_out s) /\ w_inflight w = w_inflight (wb_out s) /\
    w_segmented w = w_segmented (wb_out s) /\ w_requested w = w_requested (wb_out s) /\ w_iov w = w_iov (wb_out s)).
  { destruct to.
    - apply start_obuf_tracking_spec; [done|]. change (2 ^ 64) with 18446744073709551616.
      change (2 ^ 40) with 1099511627776 in Hsm. lia.
    - eexists. split; [done|]. by apply stop_obuf_tracking_spec. }
  destruct H as (w & E & Hi' & Et & Ep & Eg & Ef & Es & E1 & E2 & E3 & E4 & E5 & E6).
  exists w. split; [done|]. cbv zeta. split; [by split_and!|]. split; [|done].
  unfold wb_inv, env_ok, crlf_ok, lent_ok, out_borrows. cbn [set_draining set_out bump wb_mem wb_out wb_sock wb_released].
  rewrite Ep, Eg. split; [done|]. split; [done|]. split; [|done].
  unfold ring_ok, send_rest in *. cbn [set_draining set_out bump wb_mem wb_out wb_sqe].
  by rewrite Eg, Es, E1, E2, E3, E4, E5, E6.
Qed.

(** The parked frames that are due follow what was staged. *)
Lemma flush_deferred_oob_spec r s T L n :
  wb_inv s T L -> out_room (wb_mem s) (wb_out s) n ->
  n = Z.of_nat (length (oob_bytes (due (wb_oob s) (flush_id r)))) ->
  sq_size (w_segs (wb_out s)) + 1200 * Z.of_nat (length (due (wb_oob s) (flush_id r))) <= 2 ^ 28 ->
  exists s' fl, flush_deferred_oob r s = Some (s', fl) /\
    wb_inv s' (T ++ oob_bytes (due (wb_oob s) (flush_id r))) L /\
    wb_oob s' = drop (length (due (wb_oob s) (flush_id r))) (wb_oob s) /\ wb_sock s' = wb_sock s.
Proof.
  intros Hinv Hroom -> Hsz. unfold flush_deferred_oob.
  destruct (flush_oob_loop_spec (wb_oob s) (flush_id r) (rob_quiesced r) (wb_mem s) (wb_out s) false)
    as (m & w & fl & -> & Hst & _); [apply Hinv|done|done|].
  rewrite some_bind. cbv beta iota. eexists _, fl. split; [done|]. split; [|done].
  rewrite <- (app_nil_r L).
  assert (wb_inv (set_out s m w) (T ++ oob_bytes (due (wb_oob s) (flush_id r))) (L ++ [])) as H; [|exact H].
  eapply wb_inv_staged; [done|by apply wb_staged_out|done|lia].
Qed.

Lemma pump_oob ok s s' b : pump ok s = Some (s', b) -> wb_oob s' = wb_oob s.
Proof.
  unfold pump. destruct (w_inflight _); [by intros [= -> _]|]. destruct (_ <? _).
  { unfold submit_legacy. destruct ok; intros [= <- <-]; done. }
  destruct (has_pending_segments _).
  - unfold submit_segments. destruct (build_segment_iov _) as [[[w hb] t]|]; [rewrite some_bind|done].
    cbv beta iota zeta. destruct (w_iov w); [by intros [= <- _]|]. destruct ok; cbn [negb]; [|by intros [= <- _]].
    destruct hb; by intros [= <- _].
  - unfold submit_fill, submit_legacy. destruct (_ && _), (_ <? _), ok; intros [= <- <-]; done.
Qed.
Lemma serve_submit (sb ok : bool) s T L :
  wb_inv s T L ->
  exists s' b, (if sb && negb (nothing_to_write (wb_out s)) then pump ok s else Some (s, false)) = Some (s', b) /\
    wb_inv s' T L /\ wb_oob s' = wb_oob s /\ wb_sock s' = wb_sock s.
Proof.
  intros H. destruct (_ && _); [|by exists s, false].
  destruct (pump_spec ok s T L H) as (s' & b & E & H' & Hs & _). exists s', b.
  split; [done|]. split; [done|]. split; [by eapply pump_oob|done].
Qed.

Lemma count_inv (n : Z) s T L :
  wb_inv s T L -> wb_inv ((if n =? 0 then bump serves_empty 1 else id) (bump st_retired n s)) T L.
Proof. intros H. by destruct (n =? 0). Qed.

Lemma serve_impl_spec to cd sb ok r F w s T L :
  wb_inv s T L -> ev_ok L s (EvServe to cd sb ok r) F w ->
  exists r' s' did, serve_impl special limit to cd sb ok r s = Some (r', s', did) /\
    let k := length (done_prefix w) in
    rob_inv kRobWindow r' (F + Z.of_nat k) (drop k w) /\
    wb_inv s' (T ++ fst (adds s (EvServe to cd sb ok r) F w)) (L ++ lents (done_prefix w)) /\
    wb_oob s' = drop (length (ready_frames s F w)) (wb_oob s) /\ wb_sock s' = wb_sock s.
Proof.
  intros Hinv (Hrob & Hst & Hroom). cbn [adds fst] in *. unfold serve_impl.
  destruct (serve_start to s T L Hinv) as (w1 & -> & Hv & Hinv1 & Etr). rewrite some_bind. cbv zeta.
  set (s1 := set_draining _ true) in *. set (l := done_prefix w) in *. rewrite length_app in Hroom.
  assert (Hf1 : frames s1 l = frames s l) by (by apply frames_view).
  pose proof (wb_room_view s s1 _ _ Hv Hroom) as [Hr1 Hn1]. pose proof Hinv1 as (Hi1 & [Hc1 _] & _).
  destruct (run_sink_spec special cd l s1) as (s2 & l' & E2 & Hst2 & Hn2); [done|done|by apply (stageable_view cd s)| |].
  { split; [|lia]. destruct Hr1 as (H1 & H2 & H3). rewrite Hf1. unfold kReplyCodeMax in *. split_and!; lia. }
  change (w_tracking (wb_out s1)) with (w_tracking w1) in E2. rewrite Etr in E2.
  pose proof (run_sink_length _ _ _ _ _ E2) as Hlen.
  destruct (drain_spec kRobWindow kRobWindow_ok _ r F w s1 s2 l' Hrob E2) as (r' & -> & Hrob' & _).
  rewrite some_bind. cbv beta iota. rewrite Hlen in *. fold l in Hrob'.
  rewrite Hf1 in Hst2. unfold kReplyCodeMax in *.
  assert (Hinv2 : wb_inv s2 (T ++ frames s l) (L ++ lents l)) by (eapply wb_inv_staged; [done|done|exact Hr1|lia]).
  assert (Hoob : wb_oob s2 = wb_oob s) by (destruct Hst2 as [_ (-> & _)]; apply Hv).
  assert (Hfl : flush_id r' = u64 (F + Z.of_nat (length l))) by apply Hrob'.
  destruct (flush_deferred_oob_spec r' (set_draining s2 false) (T ++ frames s l) (L ++ lents l)
    (Z.of_nat (length (oob_bytes (ready_frames s F w))))) as (s3 & fl & -> & Hinv3 & Eo3 & Es3).
  { done. }
  { eapply room_after; [apply Hst2|exact Hr1|lia|lia|cbn [set_draining wb_out]; lia]. }
  { change (wb_oob (set_draining s2 false)) with (wb_oob s2). rewrite Hoob, Hfl. done. }
  { change (wb_oob (set_draining s2 false)) with (wb_oob s2). rewrite Hoob, Hfl. fold l in Hn2. cbn [set_draining wb_out].
    unfold ready_frames in Hn1. fold l in Hn1. lia. }
  change (wb_oob (set_draining s2 false)) with (wb_oob s2) in *. rewrite Hoob, Hfl in *.
  change (due (wb_oob s) (u64 (F + Z.of_nat (length l)))) with (ready_frames s F w) in *.
  rewrite <- app_assoc in Hinv3. change (wb_sock (set_draining s2 false)) with (wb_sock s2) in Es3.
  assert (Es : wb_sock s3 = wb_sock s) by (rewrite Es3; destruct Hst2 as [_ (_ & _ & _ & _ & _ & -> & _)]; apply Hv).
  clearbody s1. rewrite some_bind. cbv beta iota.
  destruct (to && limit s3).
  { eexists r', _, true. split; [done|]. split; [done|]. split; [by apply count_inv|].
    by destruct (Z.of_nat (length l) =? 0). }
  destruct (serve_submit sb ok s3 _ _ Hinv3) as (s4 & b & -> & Hinv4 & Eo4 & Es4). rewrite some_bind. cbv beta iota.
  eexists r', _, _. split; [done|]. split; [done|]. split; [by apply count_inv|].
  rewrite <- Eo3, <- Eo4, <- Es, <- Es4. by destruct (Z.of_nat (length l) =? 0).
Qed.

(** Parking decides from the reorder buffer alone, and touches nothing but the parked frames. *)
Lemma defer_oob_spec r blocked s a b F w :
  rob_inv kRobWindow r F w ->
  exists q, defer_oob r blocked s a b =
    Some (if parks r blocked s then set_oob s q else s, parks r blocked s).
Proof.
  intros Hr. unfold parks, defer_oob.
  assert (exists p, (if negb (wb_draining s) then if rob_quiesced r then Some false
     else if blocked then o ← at_ kRobWindow r (flush_id r); Some (bool_decide (op_state o = Done)) else Some true
     else Some true) = Some p) as [p ->].
  { destruct (wb_draining s); cbn [negb]; [by eexists|].
    rewrite (quiesced_spec kRobWindow kRobWindow_ok r F w Hr). case_bool_decide as Hw; [by eexists|].
    destruct blocked; [|by eexists]. destruct w as [|o w]; [done|].
    pose proof (at_spec kRobWindow kRobWindow_ok r F (o :: w) 0 o Hr eq_refl) as E. rewrite Z.add_0_r in E.
    destruct Hr as (_ & _ & Ef & _). unfold flush_id. rewrite Ef, E. by eexists. }
  rewrite !some_bind. destruct p; cbn [negb]; [|by exists []]. cbv zeta.
  destruct (reverse (if match last (wb_oob s) with Some (x, _) => _ | None => true end then _ else _))
    as [|[x bs] rest] eqn:Eq; [|by eexists].
  exfalso. apply (f_equal reverse) in Eq. rewrite reverse_involutive in Eq. cbn in Eq.
  destruct (last (wb_oob s)) as [[x bs]|] eqn:El.
  - destruct (negb _); [by destruct (wb_oob s)|]. by rewrite Eq in El.
  - by destruct (wb_oob s).
Qed.

Lemma deliver_oob_spec r blocked s a b F w T L :
  wb_inv s T L -> ev_ok L s (EvDeliver r blocked a b) F w ->
  exists s', deliver_oob r blocked s a b = Some s' /\
    wb_inv s' (T ++ fst (adds s (EvDeliver r blocked a b) F w)) (L ++ []).
Proof.
  intros Hinv (Hr & Hroom & Hn). unfold deliver_oob. cbn [adds fst].
  destruct (defer_oob_spec r blocked s a b F w Hr) as [q ->]. rewrite some_bind. cbv beta iota.
  destruct (parks r blocked s).
  { eexists. split; [done|]. by rewrite !app_nil_r. }
  destruct (append_oob_spec (rob_quiesced r) (wb_mem s) (wb_out s) a b) as (m & w' & fl & -> & Hst & _);
    [apply Hinv|done|lia|].
  rewrite some_bind. cbv beta iota. eexists. split; [done|].
  eapply wb_inv_staged; [done|by apply wb_staged_out|done|rewrite length_app; lia].
Qed.

(** Shedding touches empty buffers only, so neither the stream nor a send in flight notices. *)
Lemma shed_buf_spec b : sb_ok b -> sb_ok (shed_buf b) /\ sb_bytes (shed_buf b) = sb_bytes b /\
  sb_len (shed_buf b) = sb_len b /\ (0 < sb_len b -> shed_buf b = b).
Proof.
  intros Hb. unfold shed_buf. destruct (Z.eqb_spec (sb_len b) 0) as [E|E]; cbn [andb]; [|done].
  destruct (kWbufShed <? sb_cap b); [|done].
  destruct (sb_shrink_ok kWbufInline b) as (H1 & H2 & _); [done|done|]. split; [done|]. rewrite H2.
  split; [unfold sb_bytes; by rewrite E|]. rewrite E. split; [|lia].
  unfold sb_shrink_to_inline. by destruct (sb_heap b).
Qed.
Lemma shed_spec s T L : wb_inv s T L -> wb_inv (set_out s (wb_mem s) (shed_out (wb_out s))) T L.
Proof.
  intros ((H0 & H1 & Hsq & Hws & Ho & Htr) & [Hc Hsm] & Hr & HT & HL).
  assert (Eb : forall i, out_buf (shed_out (wb_out s)) i = shed_buf (out_buf (wb_out s) i)) by (by intros []).
  destruct (shed_buf_spec _ H0) as (O0 & B0 & L0 & I0), (shed_buf_spec _ H1) as (O1 & B1 & L1 & I1).
  assert (Ef : sb_bytes (fill_buf (shed_out (wb_out s))) = sb_bytes (fill_buf (wb_out s)) /\
    sb_len (fill_buf (shed_out (wb_out s))) = sb_len (fill_buf (wb_out s))).
  { unfold fill_buf. rewrite Eb. change (w_fill (shed_out ?w)) with (w_fill w). unfold out_buf. by destruct (w_fill _). }
  assert (Es : sb_bytes (send_buf (shed_out (wb_out s))) = sb_bytes (send_buf (wb_out s)) /\
    sb_len (send_buf (shed_out (wb_out s))) = sb_len (send_buf (wb_out s)) /\
    (0 < sb_len (send_buf (wb_out s)) -> send_buf (shed_out (wb_out s)) = send_buf (wb_out s))).
  { unfold send_buf. rewrite Eb. change (w_fill (shed_out ?w)) with (w_fill w). unfold out_buf. by destruct (w_fill _). }
  destruct Ef as [Ef Lf], Es as (Es & Ls & Is).
  assert (Erest : send_rest (shed_out (wb_out s)) = send_rest (wb_out s)) by (unfold send_rest; by rewrite Es).
  assert (Ep : out_pending (wb_mem s) (shed_out (wb_out s)) = out_pending (wb_mem s) (wb_out s)).
  { unfold out_pending. by rewrite Erest, Ef. }
  unfold wb_inv, env_ok. cbn [set_out wb_mem wb_out wb_sock wb_released]. rewrite Ep. split; [|split; [done|split; [|done]]].
  - split; [exact O0|]. split; [exact O1|]. split; [exact Hsq|]. split; [by rewrite Ls|].
    split; [|rewrite Ep; exact Htr]. intros H. rewrite Lf. by apply Ho.
  - unfold ring_ok in *. cbn [set_out wb_sqe wb_out wb_mem]. destruct (wb_sqe s) as [[ix block off len|]|]; [| |done].
    + destruct Hr as (R1 & R2 & R3 & R4 & R5 & R6 & R7). rewrite Erest. split_and!; try done; [|lia|lia].
      rewrite Is; [done|]. unfold send_rest, sb_bytes in R7. rewrite length_drop, length_take in R7. lia.
    + rewrite Erest. exact Hr.
Qed.

(** A value all of whose loans came back is named by no segment. *)
Lemma reclaim_spec s p T L :
  wb_inv s T L -> ev_ok L s (EvReclaim p) 0 [] ->
  exists m, m_free (wb_mem s) p = Some m /\ wb_inv (set_out s m (wb_out s)) T L.
Proof.
  intros ((H0 & H1 & Hsq & Hws & Ho & Htr) & [Hc Hsm] & Hr & HT & HL) ([b Hb] & Hne & Hln & Hlive).
  assert (Hfree : Forall (fun g => sg_ptr g <> p) (sq_live (w_segs (wb_out s)))).
  { apply Forall_forall. intros g Hg Ep. rewrite Forall_forall in Hlive.
    destruct (decide (sg_kind g = Borrow)) as [Ek|Ek]; [|by apply (Hlive g)].
    assert (0 < loans p (out_borrows (wb_out s)))%nat.
    { unfold loans, out_borrows. apply list_elem_of_lookup in Hg as [i Hi].
      rewrite <- (take_drop_middle _ _ _ Hi), borrows_app, filter_app, length_app.
      change (borrows (g :: ?l)) with (release_of g ++ borrows l). unfold release_of.
      rewrite bool_decide_eq_true_2 by done. cbn [app]. rewrite filter_cons_True by done. cbn [length]. lia. }
    unfold loans in *. rewrite <- HL, filter_app, length_app in Hln. lia. }
  unfold m_free. rewrite Hb, some_bind. eexists. split; [done|]. set (m := mkMem _ _).
  assert (Ha : agree (wb_mem s) m (sq_live (w_segs (wb_out s)))).
  { apply (Forall_impl _ _ _ Hfree). intros g Hg. cbn. by apply lookup_delete_ne. }
  assert (Hw : sq_wire m (w_segs (wb_out s)) = sq_wire (wb_mem s) (w_segs (wb_out s))).
  { unfold sq_wire. by rewrite (segs_wire_agree (wb_mem s) m). }
  assert (Hp : out_pending m (wb_out s) = out_pending (wb_mem s) (wb_out s)) by (unfold out_pending; by rewrite Hw).
  destruct Hsq as (Hg & Hwf & Hok & Hfr).
  unfold wb_inv, env_ok. cbn [set_out wb_mem wb_out wb_sock wb_released]. rewrite Hp.
  split; [|split; [split; [|done]|split; [|done]]].
  - split; [done|]. split; [done|]. split; [|rewrite Hp; done].
    split; [done|]. split; [|split; [by eapply segs_ok_agree|done]].
    intros x Hx. cbn. rewrite lookup_delete_None. right. by apply Hwf.
  - destruct Hc as (C1 & C2 & C3). split; [done|]. split; [|done]. unfold m_read in *. cbn [set_out wb_mem m m_blocks].
    by rewrite lookup_delete_ne.
  - unfold ring_ok in *. cbn [set_out wb_sqe wb_out wb_mem]. destruct (wb_sqe s) as [[ix block off len|]|]; [done| |done].
    by rewrite (iov_read_agree (wb_mem s) m (w_segs (wb_out s))), Hw by (done || apply Hr).
Qed.

Lemma step_spec s e F w T L :
  wb_inv s T L -> ev_ok L s e F w ->
  exists s', step special limit s e = Some s' /\ wb_inv s' (T ++ fst (adds s e F w)) (L ++ snd (adds s e F w)).
Proof.
  intros Hinv Hok. destruct e as [to cd sb ok r|r blocked a b|ok|now ok res| |p]; cbn [step].
  - destruct (serve_impl_spec to cd sb ok r F w s T L Hinv Hok) as (r' & s' & did & -> & _ & H & _).
    rewrite some_bind. cbv beta iota. by exists s'.
  - by apply deliver_oob_spec.
  - destruct (pump_spec ok s T L Hinv) as (s' & b & -> & H & _). rewrite some_bind. cbv beta iota.
    exists s'. cbn [adds fst snd]. by rewrite !app_nil_r.
  - destruct Hok as [Hs Hres]. destruct (complete_spec now ok s res T L Hinv Hs Hres) as (s' & b & -> & H & _).
    rewrite some_bind. cbv beta iota. exists s'. cbn [adds fst snd]. by rewrite !app_nil_r.
  - eexists. split; [done|]. cbn [adds fst snd]. rewrite !app_nil_r. by apply shed_spec.
  - destruct (reclaim_spec s p T L Hinv Hok) as (m & -> & H). rewrite some_bind. eexists. split; [done|].
    cbn [adds fst snd]. by rewrite !app_nil_r.
Qed.

Lemma runs_inv s T L es s' T' L' :
  runs special limit s T L es s' T' L' -> wb_inv s T L -> wb_inv s' T' L'.
Proof.
  induction 1 as [|s T L e es F w s1 s2 T2 L2 Hok Hs Hr IH]; [done|]. intros Hinv. apply IH.
  destruct (step_spec s e F w T L Hinv Hok) as (s1' & Hs' & Hinv'). by rewrite Hs in Hs'; injection Hs' as <-.
Qed.

(** A fresh connection. *)
Lemma sq_new_ok m : mem_wf m -> sq_inv m (sq_new kSegInline).
Proof.
  intros Hm. split; [by vm_compute|]. split; [done|]. split; [|done].
  split; [constructor|]. split; constructor.
Qed.
Lemma wb_new_inv m : mem_wf m -> m_read m kCrlf 0 2 = Some CRLF -> wb_inv (wb_new m) [] [].
Proof.
  intros Hm Hc. destruct (sb_new_ok kWbufInline) as [Hb Eb]; [done|].
  split; [|split; [split; [split; [done|split; [done|apply not_elem_of_nil]]|by vm_compute]|split; [done|]]].
  - split; [exact Hb|]. split; [exact Hb|]. split; [by apply sq_new_ok|]. split; [done|]. split; [done|]. done.
  - split; [|done]. cbn [wb_new wb_sock app]. unfold out_pending, send_rest. cbn [wb_new wb_out wb_mem].
    change (send_buf out_new) with (sb_new kWbufInline). change (fill_buf out_new) with (sb_new kWbufInline).
    rewrite Eb. done.
Qed.
End RunLemmas.

(** * Properties *)

(** C3: The reply stream of a connection is exact under io_uring.  From a fresh connection and any
    sequence of serves, deliveries, submissions, completions (short, zero or failed), sheds and
    reclaimed values, the bytes the socket accepted followed by the bytes still pending are exactly
    the frames staged, in staging order; the loans released followed by those still named by a
    segment are exactly the loans taken, in order; and every event that can happen next is handled
    (no abort, no access to a freed or moved block, a value is never read after its loan ended). *)
Theorem send_stream_exact special limit m es s T L :
  mem_wf m -> m_read m kCrlf 0 2 = Some CRLF -> runs special limit (wb_new m) [] [] es s T L ->
  wb_sock s ++ out_pending (wb_mem s) (wb_out s) = T /\
  wb_released s ++ out_borrows (wb_out s) = L /\
  (forall e F w, ev_ok L s e F w -> is_Some (step special limit s e)).
Proof.
  intros Hm Hc Hr. pose proof (runs_inv special limit _ _ _ _ _ _ _ Hr (wb_new_inv m Hm Hc)) as Hinv.
  split; [apply Hinv|]. split; [apply Hinv|]. intros e F w Hok.
  destruct (step_spec special limit s e F w T L Hinv Hok) as (s' & -> & _). by eexists.
Qed.

(** Two completed replies: a coded OK, and a borrowed five-byte value behind its header. *)
Definition demo_mem : Mem := mem_new [str "hello"].
Definition demo_reply (c : ReplyCode) (bs : bytes) : OpReply :=
  mkReply c 0 true (mkSB (bs ++ replicate (96 - length bs) 0) (Z.of_nat (length bs)) 96 false) None 0 0.
Definition demo_done (p : OpReply) (z : Zc) : Op :=
  mkOp args_new (-1) (mkCut 0 0) 0 0 p z Done.
Definition demo_ops : list Op :=
  [demo_done (demo_reply ROk []) zc_null; demo_done (demo_reply RNone (str "$5" ++ CRLF)) (mkZc 2 5 3)].
Definition demo_rob64 : Rob := mkRob (Some (demo_ops ++ replicate 6 op_new) :: replicate 7 None) 2 0.
Definition no_special (s : Wb) (o : Op) : option (Wb * Op) := None.
Definition no_limit (s : Wb) : bool := false.

Lemma demo_rob64_inv : rob_inv kRobWindow demo_rob64 0 demo_ops.
Proof.
  unfold rob_inv, chunks_ok. split_and!; try done.
  - intros [|[|[|[|[|[|[|[|i]]]]]]]] ops Hi; try done. by injection Hi as <-.
  - intros [|[|i]] o Hi; [by injection Hi as <-|by injection Hi as <-|done].
Qed.
Lemma demo_stageable s :
  wb_mem s = demo_mem -> sb_ok (fill_buf (wb_out s)) -> sq_live (w_segs (wb_out s)) = [] ->
  stageable_all true s demo_ops.
Proof.
  intros Em Hf El. split; [|by repeat constructor].
  assert (Hr : forall c bs, (length bs <= 96)%nat -> c = RNone \/ bs = [] ->
    reply_ok_in (fill_buf (wb_out s)) (demo_reply c bs)).
  { intros c bs Hb Hor. split; [split; [|cbn; lia]|].
    - unfold sink_ok, sb_ok, demo_reply. cbn -[Z.pow Z.of_nat Z.to_nat Nat.sub sb_ok].
      change (2 ^ 61) with 2305843009213693952. rewrite length_app, length_replicate.
      split; [lia|]. split; [exact Hf|]. lia.
    - destruct Hor as [->| ->]; [by left|by right]. }
  constructor; [|constructor; [|constructor]].
  - split; [apply (Hr ROk []); [cbn; lia|by right]|]. split; [by left|]. by split.
  - split; [apply (Hr RNone (str "$5" ++ CRLF)); [cbn; lia|by left]|]. split; [by left|]. split; [done|].
    intros _. unfold zc_value, lent_ok. rewrite Em, El.
    split; [by vm_compute|]. split; [reflexivity|apply not_elem_of_nil].
Qed.

Lemma demo_mem_wf : mem_wf demo_mem.
Proof. intros p Hp. cbn in Hp. cbn. rewrite !lookup_insert_ne by lia. apply lookup_empty. Qed.
Lemma demo_inv : wb_inv (wb_new demo_mem) [] [].
Proof. by apply wb_new_inv; [apply demo_mem_wf|]. Qed.
Lemma demo_serve_ok to sb ok : ev_ok [] (wb_new demo_mem) (EvServe to true sb ok demo_rob64) 0 demo_ops.
Proof.
  split; [apply demo_rob64_inv|]. split; [apply demo_stageable; by vm_compute|].
  split; [|by vm_compute]. split_and!; by vm_compute.
Qed.

Definition demo_events : list Ev :=
  [EvServe true true true true demo_rob64; EvComplete 1 true (SrOk 7); EvComplete 2 true (SrOk 9)].
Definition demo_stream : bytes := str "+OK" ++ CRLF ++ str "$5" ++ CRLF ++ str "hello" ++ CRLF.
Definition demo_state (k : nat) : Wb :=
  foldl (fun s e => default s (step no_special no_limit s e)) (wb_new demo_mem) (take k demo_events).

Lemma demo_runs : exists T L, T = demo_stream /\ L = [(3, 2)] /\
  runs no_special no_limit (wb_new demo_mem) [] [] demo_events (demo_state 3) T L.
Proof.
  eexists _, _. split; [|split]; cycle 2.
  - eapply (runs_cons _ _ _ _ _ _ _ 0 demo_ops (demo_state 1)).
    { apply demo_serve_ok. }
    { vm_compute. reflexivity. }
    eapply (runs_cons _ _ _ _ _ _ _ 0 [] (demo_state 2)).
    { by vm_compute. }
    { vm_compute. reflexivity. }
    eapply (runs_cons _ _ _ _ _ _ _ 0 [] (demo_state 3)).
    { by vm_compute. }
    { vm_compute. reflexivity. }
    apply runs_nil.
  - vm_compute. reflexivity.
  - vm_compute. reflexivity.
Qed.
Lemma demo_step s e s' F w T L :
  wb_inv s T L -> ev_ok L s e F w -> step no_special no_limit s e = Some s' ->
  wb_inv s' (T ++ fst (adds s e F w)) (L ++ snd (adds s e F w)).
Proof.
  intros H Hok E. destruct (step_spec no_special no_limit s e F w T L H Hok) as (s1 & E1 & H1).
  rewrite E in E1. by injection E1 as <-.
Qed.
Lemma demo_state_inv : wb_inv (demo_state 2) demo_stream [(3, 2)].
Proof.
  assert (Hok : ev_ok [(3, 2)] (demo_state 1) (EvComplete 1 true (SrOk 7)) 0 []) by (by vm_compute).
  assert (E1 : step no_special no_limit (wb_new demo_mem) (EvServe true true true true demo_rob64) = Some (demo_state 1)).
  { vm_compute. reflexivity. }
  assert (E2 : step no_special no_limit (demo_state 1) (EvComplete 1 true (SrOk 7)) = Some (demo_state 2)).
  { vm_compute. reflexivity. }
  pose proof (demo_step _ _ _ 0 demo_ops [] [] demo_inv (demo_serve_ok _ _ _) E1) as H1.
  assert (ET : [] ++ fst (adds (wb_new demo_mem) (EvServe true true true true demo_rob64) 0 demo_ops) = demo_stream).
  { vm_compute. reflexivity. }
  assert (EL : [] ++ snd (adds (wb_new demo_mem) (EvServe true true true true demo_rob64) 0 demo_ops) = [(3, 2)]).
  { vm_compute. reflexivity. }
  rewrite ET, EL in H1.
  pose proof (demo_step _ _ _ 0 [] _ _ H1 Hok E2) as H2. cbn [adds fst snd] in H2. rewrite !app_nil_r in H2. exact H2.
Qed.
Lemma send_stream_exact_witness :
  wb_sock (demo_state 2) = take 7 demo_stream /\ wb_sock (demo_state 3) = demo_stream /\
  wb_released (demo_state 3) = [(3, 2)] /\
  exists T L, T = demo_stream /\
    wb_sock (demo_state 3) ++ out_pending (wb_mem (demo_state 3)) (wb_out (demo_state 3)) = T /\
    wb_released (demo_state 3) ++ out_borrows (wb_out (demo_state 3)) = L /\
    (forall e F w, ev_ok L (demo_state 3) e F w -> is_Some (step no_special no_limit (demo_state 3) e)).
Proof.
  split; [by vm_compute|]. split; [by vm_compute|]. split; [by vm_compute|].
  destruct demo_runs as (T & L & ET & _ & Hr). exists T, L. split; [exact ET|].
  apply (send_stream_exact no_special no_limit demo_mem demo_events).
  - apply demo_mem_wf.
  - reflexivity.
  - exact Hr.
Defined.

(** C9: Replies leave in request order.  One serve retires exactly the completed prefix of the
    reorder buffer and leaves the rest of the window alone; behind what was staged before it puts
    the frames of those operations in request order, whichever channel each takes (coded, direct,
    spilled, segment, borrowed), and behind them the parked out-of-band frames whose frontier the
    retirement has reached, whole and in order; the other parked frames stay parked. *)
Theorem serve_in_request_order special limit to cd sb ok r F w s T L :
  wb_inv s T L -> ev_ok L s (EvServe to cd sb ok r) F w ->
  let k := length (done_prefix w) in
  let ready := due (wb_oob s) (u64 (F + Z.of_nat k)) in
  exists r' s' did, serve_impl special limit to cd sb ok r s = Some (r', s', did) /\
    rob_inv kRobWindow r' (F + Z.of_nat k) (drop k w) /\
    wb_sock s' ++ out_pending (wb_mem s') (wb_out s') =
      T ++ frames s (take k w) ++ oob_bytes ready /\
    wb_oob s' = drop (length ready) (wb_oob s).
Proof.
  intros Hinv Hok k ready.
  destruct (serve_impl_spec special limit to cd sb ok r F w s T L Hinv Hok) as (r' & s' & did & E & Hr & Hi & Ho & _).
  exists r', s', did. split; [done|]. split; [done|]. split; [|done].
  destruct Hi as (_ & _ & _ & -> & _). cbn [adds fst]. unfold k. by rewrite take_done_prefix.
Qed.
Lemma serve_in_request_order_witness :
  exists r' s' did, serve_impl no_special no_limit true true true true demo_rob64 (wb_new demo_mem) = Some (r', s', did) /\
    rob_inv kRobWindow r' 2 [] /\
    wb_sock s' ++ out_pending (wb_mem s') (wb_out s') = [] ++ frames (wb_new demo_mem) demo_ops ++ [] /\
    wb_oob s' = [].
Proof.
  apply (serve_in_request_order no_special no_limit true true true true demo_rob64 0 demo_ops (wb_new demo_mem) [] []).
  - apply demo_inv.
  - apply demo_serve_ok.
Defined.

(** C11: The epoll send loop terminates, and delivers.  For any answers of the kernel that accept at
    most what was asked, the loop returns within two rounds per pending byte; it returns either
    with everything written, so that the socket holds the whole stream, or because a system call
    stopped it, and then the failure flag is raised exactly for an error other than would-block;
    in both cases nothing is lost or duplicated.  A kernel that never stops gets the whole
    stream. *)
Theorem epoll_pump_delivers now kernel s T L did :
  wb_inv s T L -> wb_sqe s = None ->
  (forall i req, match kernel i req with SrOk n => n <= req | SrErr _ => True end) ->
  exists s' did',
    pump_epoll_loop (2 * length (out_pending (wb_mem s) (wb_out s)) + 2) now kernel 0 s did = Some (s', did') /\
    wb_sock s' ++ out_pending (wb_mem s') (wb_out s') = T /\
    wb_released s' ++ out_borrows (wb_out s') = L /\
    (wb_sock s' = T /\ wb_failed s' = wb_failed s \/
     exists j req, stops (kernel j req) = true /\ wb_failed s' = wb_failed s || fatal (kernel j req)) /\
    ((forall i req, stops (kernel i req) = false) -> wb_sock s' = T).
Proof.
  intros Hinv Hsqe Hk.
  assert (Hin : w_inflight (wb_out s) = false) by (destruct Hinv as (_ & _ & Hr & _); unfold ring_ok in Hr; by rewrite Hsqe in Hr).
  destruct (pump_epoll_loop_spec (2 * length (out_pending (wb_mem s) (wb_out s)) + 2) now kernel 0 s did T L)
    as (s' & did' & E & Hi & Hor); [done|done|done|done|destruct (decide _); lia|].
  pose proof Hi as (_ & _ & _ & HT & HL). exists s', did'. split; [done|]. split; [done|]. split; [done|].
  assert (Hall : out_pending (wb_mem s') (wb_out s') = [] -> wb_sock s' = T) by (intros H0; by rewrite H0, app_nil_r in HT).
  split.
  - destruct Hor as [[H0 Hf]|H0]; [left; auto|by right].
  - intros Hns. destruct Hor as [[H0 _]|(j & req & Hst & _)]; [by apply Hall|]. by rewrite Hns in Hst.
Qed.

(** A window staged under epoll, written one byte per call. *)
Definition one_byte (i : nat) (req : Z) : SendRes := SrOk (Z.min 1 req).
Lemma epoll_pump_delivers_witness :
  exists s, (serve_impl no_special no_limit false true false true demo_rob64 (wb_new demo_mem) = Some (s.1.1, s.1.2, s.2)) /\
  exists s' did', pump_epoll_loop (2 * length (out_pending (wb_mem s.1.2) (wb_out s.1.2)) + 2) 5 one_byte 0 s.1.2 false
      = Some (s', did') /\
    wb_sock s' ++ out_pending (wb_mem s') (wb_out s') = demo_stream /\
    wb_released s' ++ out_borrows (wb_out s') = [(3, 2)] /\
    (wb_sock s' = demo_stream /\ wb_failed s' = wb_failed s.1.2 \/
     exists j req, stops (one_byte j req) = true /\ wb_failed s' = wb_failed s.1.2 || fatal (one_byte j req)) /\
    ((forall i req, stops (one_byte i req) = false) -> wb_sock s' = demo_stream).
Proof.
  destruct (serve_impl_spec no_special no_limit false true false true demo_rob64 0 demo_ops (wb_new demo_mem) [] [])
    as (r' & s' & d & E & _ & Hi & _ & _).
  - apply demo_inv.
  - apply demo_serve_ok.
  - exists (r', s', d). split; [exact E|]. cbn [fst snd].
    apply (epoll_pump_delivers 5 one_byte s' demo_stream [(3, 2)] false).
    + exact Hi.
    + vm_compute in E. by injection E as _ <- _.
    + intros i req. unfold one_byte. lia.
Defined.

(** Tearing down: what is left of the loans, after [n] more bytes reached the wire. *)
Lemma teardown_spec s T L :
  wb_inv s T L -> w_inflight (wb_out s) = false ->
  exists s', teardown s = Some s' /\ wb_released s' = L /\ sq_live (w_segs (wb_out s')) = [] /\
    wb_sock s' = wb_sock s /\
    (forall p, p ∈ owned (sq_live (w_segs (wb_out s))) -> m_blocks (wb_mem s') !! p = None).
Proof.
  intros ((_ & _ & Hsq & _) & _ & _ & _ & HL) Hin. unfold teardown. cbn [set_oob wb_out wb_mem]. rewrite Hin.
  unfold release_all_segments. destruct (release_all_spec _ _ Hsq) as (m & q & -> & _ & Hl & _ & Hd).
  rewrite !some_bind. cbv beta iota. eexists. split; [done|].
  destruct (wb_releases_spec (set_out (set_oob s []) m (set_obuf (set_segs (wb_out s) q) 0))
    (borrows (sq_live (w_segs (wb_out s))))) as (-> & -> & -> & -> & _).
  by split_and!.
Qed.

(** C10: A closed connection returns every loan exactly once.  With no send in the kernel, teardown
    releases the loans not yet released, in order, and frees every block the queue owns.  With one
    in flight it releases nothing, so the kernel still reads live blocks; when that send completes,
    with any number of accepted bytes or an error, the loans it finished and the others are
    released, each exactly once. *)
Theorem dead_connection_returns_loans s r T L :
  wb_inv s T L ->
  match r with SrOk n => 0 <= n <= w_requested (wb_out s) | SrErr _ => True end ->
  match wb_sqe s with
  | None =>
      exists s', teardown s = Some s' /\ wb_released s' = L /\ sq_live (w_segs (wb_out s')) = [] /\
        (forall p, p ∈ owned (sq_live (w_segs (wb_out s))) -> m_blocks (wb_mem s') !! p = None)
  | Some _ =>
      exists s1, teardown s = Some s1 /\ wb_released s1 = wb_released s /\ wb_mem s1 = wb_mem s /\
      exists s2 s3, (match r with SrOk n => kernel_complete s1 n | SrErr _ => Some (set_sqe s1 None) end) = Some s2 /\
        on_dead_send_complete s2 r = Some s3 /\ wb_released s3 = L /\ sq_live (w_segs (wb_out s3)) = []
  end.
Proof.
  intros Hinv Hr. destruct (wb_sqe s) as [e|] eqn:Hsqe.
  2:{ pose proof Hinv as (_ & _ & Hring & _). unfold ring_ok in Hring. rewrite Hsqe in Hring.
      destruct (teardown_spec s T L Hinv Hring) as (s' & H1 & H2 & H3 & _ & H4). by exists s'. }
  destruct (sqe_data_spec s T L Hinv) as (t & Et & Hp & Hl & Hk & Hseg); [by rewrite Hsqe|].
  pose proof Hinv as (Hi & Hc & Hring & HT & HL).
  assert (Hin : w_inflight (wb_out s) = true) by (unfold ring_ok in Hring; rewrite Hsqe in Hring; by destruct e; apply Hring).
  set (s1 := set_oob s []). assert (E1 : teardown s = Some s1) by (unfold teardown; cbn [set_oob wb_out]; by rewrite Hin).
  exists s1. split; [done|]. split; [done|]. split; [done|].
  set (s0 := set_out (set_sqe s1 None) (wb_mem s) (set_send_inflight (wb_out s) false)).
  assert (Hinv0 : wb_inv s0 T L) by (split; [exact Hi|]; split; [exact Hc|]; split; done).
  destruct r as [n|err].
  - eexists. destruct (decide (0 < n)) as [Hn|Hn].
    + destruct (consume_completed_spec (accept s0 (take (Z.to_nat n) t)) n) as (s2 & E2 & Ht2); [exact Hi|apply Hc|lia| |].
      { change (w_segmented (wb_out (accept s0 ?x))) with (w_segmented (wb_out s)).
        change (send_rest (wb_out (accept s0 ?x))) with (send_rest (wb_out s)).
        change (sq_wire (wb_mem (accept s0 ?x)) (w_segs (wb_out (accept s0 ?x)))) with (sq_wire (wb_mem s) (w_segs (wb_out s))).
        destruct (w_segmented (wb_out s)); [split; [apply Hseg|]; lia|lia]. }
      destruct (wb_inv_took s0 s2 T L n t) as [H2 _]; [exact Hi|exact Hc|done|done|done|done|exact Hp|lia|exact Ht2|].
      assert (Hin2 : w_inflight (wb_out s2) = false) by (destruct Ht2 as (rel & (_ & _ & _ & _ & H5 & _) & _); exact H5).
      destruct (teardown_spec s2 T L H2 Hin2) as (s3 & E3 & H3 & H4 & _).
      exists s3. split; [unfold kernel_complete; change (sqe_data s1) with (sqe_data s); by rewrite Et|].
      split; [|done]. unfold on_dead_send_complete. rewrite (proj2 (Z.ltb_lt _ _) Hn).
      change (consume_completed _ n) with (consume_completed (accept s0 (take (Z.to_nat n) t)) n). by rewrite E2.
    + destruct (teardown_spec (accept s0 (take (Z.to_nat n) t)) T L) as (s3 & E3 & H3 & H4 & _);
        [|done|].
      { replace (Z.to_nat n) with 0%nat by lia. rewrite take_0. split; [exact Hi|]. split; [exact Hc|].
        split; [done|]. cbn [accept wb_sock]. by rewrite app_nil_r. }
      exists s3. split; [unfold kernel_complete; change (sqe_data s1) with (sqe_data s); by rewrite Et|].
      split; [|done]. unfold on_dead_send_complete. rewrite (proj2 (Z.ltb_ge _ _)) by lia. exact E3.
  - destruct (teardown_spec s0 T L Hinv0 eq_refl) as (s3 & E3 & H3 & H4 & _).
    exists (set_sqe s1 None), s3. done.
Qed.
Lemma dead_connection_returns_loans_witness :
  exists s1, teardown (demo_state 2) = Some s1 /\ wb_released s1 = wb_released (demo_state 2) /\
    wb_mem s1 = wb_mem (demo_state 2) /\
    exists s2 s3, kernel_complete s1 3 = Some s2 /\ on_dead_send_complete s2 (SrOk 3) = Some s3 /\
      wb_released s3 = [(3, 2)] /\ sq_live (w_segs (wb_out s3)) = [].
Proof.
  assert (H : wb_inv (demo_state 2) demo_stream [(3, 2)]) by apply demo_state_inv.
  pose proof (dead_connection_returns_loans (demo_state 2) (SrOk 3) demo_stream [(3, 2)] H) as W.
  assert (E : match wb_sqe (demo_state 2) with Some _ => True | None => False end) by (by vm_compute).
  destruct (wb_sqe (demo_state 2)); [|done]. apply W. by vm_compute.
Defined.
