(* ===== verification/Client.v ===== *)
(** conn.h, the read side of [Client] and its owner-local control bits.

    Parsed arguments are slices into the read buffer, so its live bytes may move only when nothing
    is in flight.  [read_space] hands out the free tail (growing when allowed),
    [reset_rbuf_at_quiescence] moves the unparsed rest to the front.  The parse barrier is a byte
    of owner bits, parse backpressure and the connection flags are bytes of the same kind. *)
From S2P Require Import Prelude Slice.

Definition kRbufInitial : Z := 16 * 1024.
Definition kRbufSoftCap : Z := 1 * 1024 * 1024.
Definition kRbufHardCap : Z := UINT32_MAX.
Definition kMinRecv : Z := 2048.

(** * The read buffer *)
Record Rbuf := mkRbuf { rbuf : bytes; rlen : Z; rpos : Z; rcap : Z; recv_armed : bool }.

Definition rbuf_new : Rbuf := mkRbuf (replicate (Z.to_nat kRbufInitial) 0) 0 0 kRbufInitial false.
Definition advance_parse (c : Rbuf) (n : Z) : Rbuf :=
  mkRbuf (rbuf c) (rlen c) (u32 (rpos c + n)) (rcap c) (recv_armed c).
Definition commit_read (c : Rbuf) (n : Z) : Rbuf :=
  mkRbuf (rbuf c) (u32 (rlen c + u32 n)) (rpos c) (rcap c) (recv_armed c).
Definition set_recv_armed (c : Rbuf) (v : bool) : Rbuf :=
  mkRbuf (rbuf c) (rlen c) (rpos c) (rcap c) v.

(** [realloc]: the old bytes, cut or padded with indeterminate ones; the source uses the block
    only up to [rlen_]. *)
Definition realloc (b : bytes) (n : Z) : bytes :=
  take (Z.to_nat n) b ++ replicate (Z.to_nat n - length b) 0.

(** [while (ncap < need && ncap < cap) ncap *= 2], at size_t width. *)
Fixpoint rbuf_grow (fuel : nat) (ncap need cap : Z) : option Z :=
  if (ncap <? need) && (ncap <? cap) then
    match fuel with O => None | S f => rbuf_grow f (u64 (ncap * 2)) need cap end
  else Some ncap.
Definition kRbufGrowFuel : nat := 33.

(** The growing half of [read_space], with [avail] re-read; [alloc_ok] is the result of
    [realloc]. *)
Definition read_grow (alloc_ok : bool) (c : Rbuf) (want cap : Z) (may_grow : bool)
  : option (Rbuf * Z) :=
  let avail := u64 (rcap c - rlen c) in
  if (avail <? want) && may_grow && (rcap c <? cap) then
    ncap ← rbuf_grow kRbufGrowFuel (u64 (rcap c * 2)) (u64 (rlen c + want)) cap;
    let ncap := if cap <? ncap then cap else ncap in
    if alloc_ok : bool then
      let c := mkRbuf (realloc (rbuf c) ncap) (rlen c) (rpos c) ncap (recv_armed c) in
      Some (c, u64 (rcap c - rlen c))
    else Some (c, avail)
  else Some (c, avail).

(** [read_space(want, out_avail, may_grow)]: [None] as pointer is "do not read right now"; a
    pointer is the offset into the buffer. *)
Definition read_space (alloc_ok : bool) (c : Rbuf) (want : Z) (may_grow : bool)
  : option (Rbuf * option Z * Z) :=
  let cap := if rpos c =? 0 then kRbufHardCap else kRbufSoftCap in
  '(c, avail) ← read_grow alloc_ok c want cap may_grow;
  if (avail <? kMinRecv) && negb (rcap c =? kRbufHardCap) then Some (c, None, 0)
  else Some (c, Some (rlen c), avail).

(** The kernel stores what it received at the pointer it was given. *)
Definition recv_store (c : Rbuf) (at_ : Z) (bs : bytes) : option Rbuf :=
  m ← mem_write (rbuf c) at_ bs;
  Some (mkRbuf m (rlen c) (rpos c) (rcap c) (recv_armed c)).

Definition reset_rbuf_at_quiescence (alloc_ok : bool) (c : Rbuf) : option Rbuf :=
  let rest := u32 (rlen c - rpos c) in
  m ← (if negb (rest =? 0) && negb (rpos c =? 0)
       then live ← mem_read (rbuf c) (rpos c) rest; mem_write (rbuf c) 0 live
       else Some (rbuf c));
  let c := mkRbuf m rest 0 (rcap c) (recv_armed c) in
  Some (if (rlen c =? 0) && (kRbufSoftCap <? rcap c) && alloc_ok
        then mkRbuf (realloc (rbuf c) kRbufInitial) (rlen c) (rpos c) kRbufInitial (recv_armed c)
        else c).

(** Received and not yet parsed. *)
Definition unparsed (c : Rbuf) : bytes :=
  take (Z.to_nat (rlen c - rpos c)) (drop (Z.to_nat (rpos c)) (rbuf c)).
Definition received (c : Rbuf) : bytes := take (Z.to_nat (rlen c)) (rbuf c).
Definition rbuf_ok (c : Rbuf) : Prop :=
  kRbufInitial <= rcap c <= kRbufHardCap /\ Z.of_nat (length (rbuf c)) = rcap c /\
  0 <= rpos c <= rlen c /\ rlen c <= rcap c.

(** * Owner bits *)
Inductive BarrierOwner := Scatter | Blocking | Wait | Exec | PubSub | Climon | Sleep | Debug.
#[global] Instance BarrierOwner_eq_dec : EqDecision BarrierOwner.
Proof. solve_decision. Defined.
Definition owner_bit (o : BarrierOwner) : Z :=
  match o with
  | Scatter => 0 | Blocking => 1 | Wait => 2 | Exec => 3 | PubSub => 4 | Climon => 5 | Sleep => 6
  | Debug => 7
  end.
Definition owner_mask (o : BarrierOwner) : Z := Z.shiftl 1 (owner_bit o).
Definition not8 (x : Z) : Z := 255 - x.

Definition scatter_barrier (b : Z) : bool := negb (b =? 0).
Definition barrier_held_by (b : Z) (who : BarrierOwner) : bool := negb (Z.land b (owner_mask who) =? 0).
Definition barrier_acquire (b : Z) (who : BarrierOwner) : Z := u8 (Z.lor b (owner_mask who)).
Definition barrier_release (b : Z) (who : BarrierOwner) : Z * bool :=
  let b := u8 (Z.land b (not8 (owner_mask who))) in (b, b =? 0).
Definition barrier_release_quiesced (b : Z) : Z := u8 (Z.land b (owner_mask Debug)).

(** A flag of a byte: set and cleared by mask. *)
Definition flag_get (byte mask : Z) : bool := negb (Z.land byte mask =? 0).
Definition flag_set (byte mask : Z) (v : bool) : Z :=
  if v then u8 (Z.lor byte mask) else u8 (Z.land byte (not8 mask)).
Definition kAtomicBackpressure : Z := 1.
Definition kFlipBackpressure : Z := 2.
Definition kBlocked : Z := 128.
Definition kResp3 : Z := 4.
Definition kNoTouch : Z := 16.
Definition kIfidPending : Z := 64.
Definition parse_backpressure (b : Z) : bool := negb (b =? 0).
Definition atomic_backpressure (b : Z) : bool := flag_get b kAtomicBackpressure.
Definition set_atomic_backpressure (b : Z) (v : bool) : Z := flag_set b kAtomicBackpressure v.
Definition flip_backpressure (b : Z) : bool := flag_get b kFlipBackpressure.
Definition set_flip_backpressure (b : Z) (v : bool) : Z := flag_set b kFlipBackpressure v.
Definition blocked (b : Z) : bool := flag_get b kBlocked.
Definition set_blocked (b : Z) (v : bool) : Z := flag_set b kBlocked v.
Definition resp3 (b : Z) : bool := flag_get b kResp3.
Definition set_resp3 (b : Z) (v : bool) : Z := flag_set b kResp3 v.
Definition no_touch (b : Z) : bool := flag_get b kNoTouch.
Definition set_no_touch (b : Z) (v : bool) : Z := flag_set b kNoTouch v.
Definition ifid_pending (b : Z) : bool := flag_get b kIfidPending.
Definition set_ifid_pending (b : Z) (v : bool) : Z := flag_set b kIfidPending v.

(** [atomic_group_started/finished]: the second aborts on a count of zero. *)
Definition atomic_group_started (n : Z) : Z := u32 (n + 1).
Definition atomic_group_finished (n : Z) : option Z := if n =? 0 then None else Some (u32 (n - 1)).

(** * Lemmas *)
Lemma rbuf_grow_spec fuel ncap need cap :
  0 < ncap -> ncap <= 2 * cap -> cap <= kRbufHardCap -> cap <= ncap * 2 ^ Z.of_nat fuel ->
  exists n, rbuf_grow fuel ncap need cap = Some n /\ ncap <= n <= 2 * cap /\ (need <= n \/ cap <= n).
Proof.
  unfold kRbufHardCap, UINT32_MAX. revert ncap. induction fuel as [|f IH]; intros ncap H0 H1 H2 H3; cbn [rbuf_grow].
  - change (2 ^ Z.of_nat 0) with 1 in H3. rewrite (proj2 (Z.ltb_ge ncap cap)), andb_false_r by lia.
    eexists. split; [done|]. lia.
  - destruct (_ && _) eqn:E; zcmp.
    + rewrite u64_small by lia. rewrite Nat2Z.inj_succ, Z.pow_succ_r in H3 by lia.
      destruct (IH (ncap * 2)) as (n & -> & Hn); [lia..|]. exists n. split; [done|]. lia.
    + apply andb_false_iff in E. exists ncap. split; [done|]. split; [lia|].
      destruct E as [E|E]; zcmp; [by left|by right].
Qed.

Lemma realloc_length b n : 0 <= n -> Z.of_nat (length (realloc b n)) = n.
Proof. intros Hn. unfold realloc. rewrite length_app, length_take, length_replicate. lia. Qed.
Lemma realloc_take b n k : (k <= length b)%nat -> Z.of_nat k <= n -> take k (realloc b n) = take k b.
Proof.
  intros Hk Hn. unfold realloc. rewrite take_app_le by (rewrite length_take; lia).
  rewrite take_take. f_equal. lia.
Qed.
Lemma unparsed_received c : 0 <= rpos c -> unparsed c = drop (Z.to_nat (rpos c)) (received c).
Proof. intros H. unfold unparsed, received. rewrite skipn_firstn_comm. f_equal. lia. Qed.

(** Growing: more room, the same received bytes, and never past the cap. *)
Lemma read_grow_spec alloc_ok c want cap may_grow :
  rbuf_ok c -> 0 <= want <= 2 ^ 32 -> kRbufSoftCap <= cap <= kRbufHardCap ->
  exists c', read_grow alloc_ok c want cap may_grow = Some (c', rcap c' - rlen c') /\ rbuf_ok c' /\
    rlen c' = rlen c /\ rpos c' = rpos c /\ received c' = received c /\ rcap c' <= Z.max (rcap c) cap /\
    (may_grow = false -> c' = c) /\
    (may_grow = true -> alloc_ok = true -> want <= rcap c' - rlen c' \/ cap <= rcap c').
Proof.
  change (2 ^ 32) with 4294967296. intros Hok Hw Hcap. pose proof Hok as (Hc & Hl & Hp & Hr). unfold read_grow.
  unfold rbuf_ok, kRbufInitial, kRbufSoftCap, kRbufHardCap, UINT32_MAX in *.
  rewrite (u64_small (rcap c - rlen c)) by lia. destruct (_ && _ && _) eqn:E.
  2:{ exists c. split_and!; try done; try lia. intros -> _. rewrite andb_true_r in E.
      apply andb_false_iff in E as [E|E]; zcmp; lia. }
  apply andb_prop in E as [E E']. apply andb_prop in E as [E ->]. zcmp. rewrite !u64_small by lia.
  destruct (rbuf_grow_spec kRbufGrowFuel (rcap c * 2) (rlen c + want) cap) as (n & -> & Hn & Hor);
    [lia|lia|unfold kRbufHardCap, UINT32_MAX; lia|change (2 ^ Z.of_nat kRbufGrowFuel) with 8589934592; lia|].
  rewrite some_bind. cbv zeta. destruct alloc_ok; [|exists c; split_and!; try done; try lia; by intros _ ?].
  set (n' := if cap <? n then cap else n).
  assert (Hn' : rcap c < n' <= cap /\ (rlen c + want <= n' \/ cap <= n')) by (unfold n'; destruct (Z.ltb_spec cap n); lia).
  clearbody n'. exists (mkRbuf (realloc (rbuf c) n') (rlen c) (rpos c) n' (recv_armed c)).
  cbn [rcap rlen]. split; [by rewrite u64_small by lia|]. cbn [rcap rlen rpos rbuf].
  rewrite realloc_length by lia. split_and!; try done; try lia.
  unfold received. cbn [rlen rbuf]. apply realloc_take; lia.
Qed.

Lemma read_space_spec alloc_ok c want may_grow :
  rbuf_ok c -> 0 <= want <= 2 ^ 32 ->
  exists c' p avail, read_space alloc_ok c want may_grow = Some (c', p, avail) /\ rbuf_ok c' /\
    received c' = received c /\ rlen c' = rlen c /\ rpos c' = rpos c /\
    (may_grow = false -> c' = c) /\
    (rpos c <> 0 -> rcap c' <= Z.max (rcap c) kRbufSoftCap) /\
    (may_grow = true -> alloc_ok = true -> want <= rcap c' - rlen c' \/ rcap c' = kRbufHardCap \/
       (rpos c <> 0 /\ kRbufSoftCap <= rcap c')) /\
    match p with
    | Some off => off = rlen c' /\ avail = rcap c' - rlen c' /\ (kMinRecv <= avail \/ rcap c' = kRbufHardCap)
    | None => avail = 0 /\ rcap c' - rlen c' < kMinRecv /\ rcap c' <> kRbufHardCap
    end.
Proof.
  intros Hok Hw. unfold read_space. set (cap := if rpos c =? 0 then _ else _).
  assert (Hcap : kRbufSoftCap <= cap <= kRbufHardCap /\ (rpos c <> 0 -> cap = kRbufSoftCap) /\ (rpos c = 0 -> cap = kRbufHardCap)).
  { unfold cap, kRbufSoftCap, kRbufHardCap, UINT32_MAX. destruct (Z.eqb_spec (rpos c) 0); lia. }
  clearbody cap. destruct (read_grow_spec alloc_ok c want cap may_grow) as (c1 & -> & H1 & E1 & E2 & E3 & E4 & E5 & E6); [done|done|lia|].
  rewrite some_bind. cbv beta iota. unfold kMinRecv.
  assert (Hg : may_grow = true -> alloc_ok = true -> want <= rcap c1 - rlen c1 \/ rcap c1 = kRbufHardCap \/
       (rpos c <> 0 /\ kRbufSoftCap <= rcap c1)).
  { intros Hm Ha. destruct (E6 Hm Ha); [by left|right]. destruct H1 as (H1 & _).
    destruct (decide (rpos c = 0)); [left; lia|right; split; [done|lia]]. }
  destruct (_ && _) eqn:E; (eexists c1, _, _; split; [done|]).
  - apply andb_prop in E as [E E']. apply negb_true_iff in E'. zcmp. split_and!; try done; try lia.
  - apply andb_false_iff in E.
    assert (2048 <= rcap c1 - rlen c1 \/ rcap c1 = kRbufHardCap) by (destruct E as [E|E]; zcmp; [left; lia|by right]).
    split_and!; try done; lia.
Qed.

(** What the parser sees of the stream after each owner action. *)
Inductive RbufEv :=
| RvRead (alloc_ok : bool) (want : Z) (may_grow : bool) (bs : bytes)
| RvParse (n : Z)
| RvReset (alloc_ok : bool).
(** A read: space, the kernel's store, the commit; nothing when no space is handed out. *)
Definition rbuf_step (c : Rbuf) (e : RbufEv) : option Rbuf :=
  match e with
  | RvRead alloc_ok want may_grow bs =>
      '(c, p, avail) ← read_space alloc_ok c want may_grow;
      match p with
      | None => Some c
      | Some off =>
          let bs := take (Z.to_nat avail) bs in
          c ← recv_store c off bs; Some (commit_read c (Z.of_nat (length bs)))
      end
  | RvParse n => Some (advance_parse c n)
  | RvReset alloc_ok => reset_rbuf_at_quiescence alloc_ok c
  end.
Definition rbuf_ev_ok (c : Rbuf) (e : RbufEv) : Prop :=
  match e with
  | RvRead _ want _ _ => 0 <= want <= 2 ^ 32
  | RvParse n => 0 <= n <= rlen c - rpos c
  | RvReset _ => True
  end.

Lemma unparsed_length c : rbuf_ok c -> Z.of_nat (length (unparsed c)) = rlen c - rpos c.
Proof. intros (Hc & Hl & Hp & Hr). unfold unparsed. rewrite length_take, length_drop. lia. Qed.

Lemma reset_rbuf_spec alloc_ok c :
  rbuf_ok c ->
  exists c', reset_rbuf_at_quiescence alloc_ok c = Some c' /\ rbuf_ok c' /\ unparsed c' = unparsed c /\
    rpos c' = 0 /\ (rlen c' = 0 -> alloc_ok = true -> rcap c' <= kRbufSoftCap).
Proof.
  intros Hok. pose proof (unparsed_length c Hok) as Hul. pose proof Hok as (Hc & Hl & Hp & Hr).
  unfold rbuf_ok, kRbufHardCap, UINT32_MAX in *. unfold reset_rbuf_at_quiescence. rewrite u32_small by lia.
  assert (exists m, (if negb (rlen c - rpos c =? 0) && negb (rpos c =? 0)
       then live ← mem_read (rbuf c) (rpos c) (rlen c - rpos c); mem_write (rbuf c) 0 live
       else Some (rbuf c)) = Some m /\ length m = length (rbuf c) /\ take (Z.to_nat (rlen c - rpos c)) m = unparsed c)
    as (m & -> & Hm & Hu).
  { destruct (Z.eqb_spec (rlen c - rpos c) 0) as [E|E]; cbn [negb andb].
    { exists (rbuf c). split; [done|]. split; [done|]. unfold unparsed. by rewrite E. }
    destruct (Z.eqb_spec (rpos c) 0) as [E0|E0]; cbn [negb].
    { exists (rbuf c). split; [done|]. split; [done|]. unfold unparsed. rewrite E0. cbn [Z.to_nat]. by rewrite drop_0. }
    rewrite mem_read_Some by lia. rewrite some_bind. change (take _ (drop _ _)) with (unparsed c).
    rewrite mem_write_Some by lia. eexists. split; [done|]. rewrite take_0. cbn [app].
    rewrite length_app, length_drop. split; [lia|].
    replace (Z.to_nat (rlen c - rpos c)) with (length (unparsed c)) by lia. apply take_app_length. }
  rewrite some_bind. cbn [rlen rcap rbuf rpos recv_armed]. unfold kRbufInitial, kRbufSoftCap in *.
  destruct (_ && _ && _) eqn:E; eexists; (split; [done|]); unfold unparsed; cbn [rlen rcap rbuf rpos].
  - apply andb_prop in E as [E _]. apply andb_prop in E as [E E']. zcmp. rewrite realloc_length by lia.
    split; [lia|]. split; [|split; [done|lia]]. by rewrite E.
  - split; [lia|]. cbn [Z.to_nat]. rewrite drop_0, Z.sub_0_r. split; [done|]. split; [done|].
    intros E0 ->. rewrite E0, andb_true_r in E. cbn [Z.eqb andb] in E. zcmp. lia.
Qed.

(** The kernel's store into the free tail, committed. *)
Lemma recv_commit_spec c d :
  rbuf_ok c -> Z.of_nat (length d) <= rcap c - rlen c ->
  exists c', (c ← recv_store c (rlen c) d; Some (commit_read c (Z.of_nat (length d)))) = Some c' /\ rbuf_ok c' /\
    received c' = received c ++ d /\ rpos c' = rpos c /\ rcap c' = rcap c /\
    take (Z.to_nat (rlen c)) (rbuf c') = received c.
Proof.
  intros Hok Hd. pose proof Hok as (Hc & Hl & Hp & Hr). unfold kRbufHardCap, UINT32_MAX in Hc. unfold recv_store.
  rewrite mem_write_Some by lia. rewrite !some_bind. eexists. split; [done|].
  unfold commit_read; cbn [rlen rbuf rpos rcap recv_armed]. rewrite (u32_small (Z.of_nat (length d))), u32_small by lia.
  split_and!; try done.
  - unfold rbuf_ok in *. cbn [rlen rbuf rpos rcap]. rewrite !length_app, length_take, length_drop. lia.
  - unfold received. cbn [rlen rbuf]. rewrite app_assoc. set (x := take (Z.to_nat (rlen c)) (rbuf c) ++ d).
    replace (Z.to_nat (rlen c + Z.of_nat (length d))) with (length x) by (unfold x; rewrite length_app, length_take; lia).
    apply take_app_length.
  - unfold received. rewrite take_app_le by (rewrite length_take; lia). by rewrite take_take, Nat.min_id.
Qed.

(** * Properties *)

(** C34: The read buffer never loses or moves a byte it may not.  A read appends to the unparsed
    bytes exactly what the kernel delivered, up to the whole free tail of the block, and nothing
    only when that tail is below the minimum and the block may still grow; parsing consumes from
    the front, and the quiescent reset keeps exactly the unparsed bytes.  Growth that is allowed and
    gets its memory makes the wanted room or stops at the cap, which is the soft one while parsed
    bytes are still in the block; without permission to grow the block is not touched except in the
    free tail (so slices into it stay valid).  Every store is inside the block, the capacity stays
    within 32 bits and the doubling loop ends. *)
Theorem rbuf_refines c e :
  rbuf_ok c -> rbuf_ev_ok c e ->
  exists c', rbuf_step c e = Some c' /\ rbuf_ok c' /\
    match e with
    | RvRead alloc_ok want may_grow bs =>
        let room := rcap c' - rlen c in
        unparsed c' = unparsed c ++ take (Z.to_nat (if decide (kMinRecv <= room \/ rcap c' = kRbufHardCap) then room else 0)) bs /\
        (rpos c <> 0 -> rcap c' <= Z.max (rcap c) kRbufSoftCap) /\
        (may_grow = true -> alloc_ok = true -> want <= room \/ rcap c' = kRbufHardCap \/ (rpos c <> 0 /\ kRbufSoftCap <= rcap c')) /\
        (may_grow = false -> received c = take (Z.to_nat (rlen c)) (rbuf c') /\ rcap c' = rcap c /\ rpos c' = rpos c)
    | RvParse n => unparsed c' = drop (Z.to_nat n) (unparsed c) /\ rbuf c' = rbuf c
    | RvReset _ => unparsed c' = unparsed c /\ rpos c' = 0
    end.
Proof.
  intros Hok Hev. destruct e as [al want mg bs|n|al]; cbn [rbuf_step rbuf_ev_ok] in *.
  - destruct (read_space_spec al c want mg Hok Hev) as (c1 & p & avail & -> & Hok1 & Er & El & Ep & Hng & Hsoft & Hroom & Hp).
    rewrite some_bind. cbv beta iota. destruct p as [off|].
    2:{ destruct Hp as [_ [Hp Hne]]. exists c1. split; [done|]. split; [done|]. cbv zeta. rewrite <- El. rewrite decide_False by lia. split; [|split; [done|split; [done|]]].
        - change (Z.to_nat 0) with 0%nat. rewrite take_0, app_nil_r, !unparsed_received, Er, Ep by (rewrite ?Ep; apply Hok). done.
        - intros H. by rewrite (Hng H). }
    destruct Hp as (-> & -> & Hmin). set (d := take _ bs).
    assert (Hd : Z.of_nat (length d) <= rcap c1 - rlen c1).
    { unfold d. rewrite length_take. destruct Hok1 as (_ & _ & _ & ?). lia. }
    destruct (recv_commit_spec c1 d Hok1 Hd) as (c2 & -> & Hok2 & E2 & Ep2 & Ec2 & Et2).
    exists c2. split; [done|]. split; [done|]. cbv zeta. rewrite Ec2, <- El, decide_True by done. split; [|split; [done|split; [done|]]].
    + fold d. rewrite !unparsed_received, E2, <- Er by (apply Hok || apply Hok2).
      rewrite Ep2, Ep. apply drop_app_le. unfold received. rewrite length_take. destruct Hok1 as (? & ? & ? & ?). lia.
    + intros H. rewrite (Hng H) in *. done.
  - pose proof Hok as (Hc & Hl & Hp & Hr). unfold kRbufHardCap, UINT32_MAX in Hc. eexists. split; [done|].
    unfold advance_parse, rbuf_ok, unparsed; cbn [rlen rbuf rpos rcap]. rewrite u32_small by lia.
    unfold kRbufHardCap, UINT32_MAX. split; [lia|]. split; [|done].
    rewrite skipn_firstn_comm, drop_drop. f_equal; [lia|]. f_equal. lia.
  - destruct (reset_rbuf_spec al c Hok) as (c' & -> & H1 & H2 & H3 & _). by exists c'.
Qed.
(** A buffer with a parsed command and one unparsed byte, which then receives five more. *)
Definition demo_rbuf : Rbuf := default rbuf_new (c ← rbuf_step rbuf_new (RvRead true 2048 true (str "GET k")); rbuf_step c (RvParse 4)).
Lemma rbuf_refines_witness :
  (unparsed demo_rbuf = str "k" /\ unparsed <$> rbuf_step demo_rbuf (RvRead true 32768 true (str "GET j")) = Some (str "kGET j")) /\
  exists c', rbuf_step demo_rbuf (RvRead true 32768 true (str "GET j")) = Some c' /\ rbuf_ok c' /\
    let room := rcap c' - rlen demo_rbuf in
    unparsed c' = unparsed demo_rbuf ++ take (Z.to_nat (if decide (kMinRecv <= room \/ rcap c' = kRbufHardCap) then room else 0)) (str "GET j") /\
    (rpos demo_rbuf <> 0 -> rcap c' <= Z.max (rcap demo_rbuf) kRbufSoftCap) /\
    (true = true -> true = true -> 32768 <= room \/ rcap c' = kRbufHardCap \/ (rpos demo_rbuf <> 0 /\ kRbufSoftCap <= rcap c')) /\
    (true = false -> received demo_rbuf = take (Z.to_nat (rlen demo_rbuf)) (rbuf c') /\ rcap c' = rcap demo_rbuf /\ rpos c' = rpos demo_rbuf).
Proof.
  split; [vm_compute; done|]. apply (rbuf_refines demo_rbuf (RvRead true 32768 true (str "GET j"))).
  - unfold rbuf_ok. by vm_compute.
  - cbn. lia.
Defined.

(** Bytes are few: a property of every byte and every owner is checked by evaluation. *)
Definition all_owners : list BarrierOwner := [Scatter; Blocking; Wait; Exec; PubSub; Climon; Sleep; Debug].
Lemma all_owners_elem o : o ∈ all_owners.
Proof. destruct o; unfold all_owners; repeat (apply elem_of_cons; first [by left|right]). Qed.
Definition barrier_check (b : Z) (who o : BarrierOwner) : bool :=
  eqb (barrier_held_by (barrier_acquire b who) o) (barrier_held_by b o || bool_decide (o = who)) &&
  eqb (barrier_held_by (fst (barrier_release b who)) o) (barrier_held_by b o && negb (bool_decide (o = who))) &&
  eqb (barrier_held_by (barrier_release_quiesced b) o) (barrier_held_by b o && bool_decide (o = Debug)) &&
  eqb (scatter_barrier b) (existsb (barrier_held_by b) all_owners).
Lemma barrier_check_all :
  forallb (fun b => forallb (fun who => forallb (barrier_check (Z.of_nat b) who) all_owners) all_owners) (seq 0 256) = true.
Proof. vm_compute. reflexivity. Qed.
Lemma barrier_check_true b who o : 0 <= b < 256 -> barrier_check b who o = true.
Proof.
  intros Hb. pose proof barrier_check_all as H. rewrite forallb_forall in H. specialize (H (Z.to_nat b)).
  rewrite Z2Nat.id in H by lia. rewrite forallb_forall in H.
  specialize (H ltac:(apply in_seq; lia) who ltac:(apply list_elem_of_In, all_owners_elem)).
  rewrite forallb_forall in H. apply H, list_elem_of_In, all_owners_elem.
Qed.

(** The parse barrier is owner scoped.  Acquiring adds exactly the acquirer, releasing removes
    exactly the releaser and reports whether nobody holds it any more, the quiescence backstop
    releases every owner but the test one, and the byte test the parser makes is "some owner
    holds". *)
Theorem barrier_owner_scoped b who o :
  0 <= b < 256 ->
  barrier_held_by (barrier_acquire b who) o = barrier_held_by b o || bool_decide (o = who) /\
  barrier_held_by (fst (barrier_release b who)) o = barrier_held_by b o && negb (bool_decide (o = who)) /\
  snd (barrier_release b who) = negb (scatter_barrier (fst (barrier_release b who))) /\
  barrier_held_by (barrier_release_quiesced b) o = barrier_held_by b o && bool_decide (o = Debug) /\
  (scatter_barrier b = true <-> exists x, barrier_held_by b x = true).
Proof.
  intros Hb. pose proof (barrier_check_true b who o Hb) as H. unfold barrier_check in H.
  repeat (apply andb_prop in H as [H ?]). repeat match goal with E : eqb _ _ = true |- _ => apply eqb_prop in E end.
  split; [done|]. split; [done|]. split; [unfold scatter_barrier, barrier_release; cbn [fst snd]; by rewrite negb_involutive|].
  split; [done|]. rewrite H0, existsb_exists. split; [intros (x & _ & ?); by exists x|].
  intros (x & ?). exists x. split; [apply list_elem_of_In, all_owners_elem|done].
Qed.
Lemma barrier_owner_scoped_witness :
  barrier_held_by (barrier_acquire 2 Exec) Blocking = barrier_held_by 2 Blocking || bool_decide (Blocking = Exec) /\
  barrier_held_by (fst (barrier_release 2 Exec)) Blocking = barrier_held_by 2 Blocking && negb (bool_decide (Blocking = Exec)) /\
  snd (barrier_release 2 Exec) = negb (scatter_barrier (fst (barrier_release 2 Exec))) /\
  barrier_held_by (barrier_release_quiesced 2) Blocking = barrier_held_by 2 Blocking && bool_decide (Blocking = Debug) /\
  (scatter_barrier 2 = true <-> exists x, barrier_held_by 2 x = true).
Proof. apply (barrier_owner_scoped 2 Exec Blocking). lia. Defined.
